(* ===== verification/_CoqProject ===== *)
-Q . S2P
Prelude.v
OrdMap.v
HeapAllocator.v
HeapSpec.v
Env.v
MemoryManager.v
MemorySpec.v
ThreadTypes.v
Scheduler.v
SchedulerSpec.v
Pthread.v
PthreadSpec.v
Machine.v
HleManager.v
HleSpec.v
Relocation.v
RelocationSpec.v
ElfLoader.v
ElfSpec.v
Paths.v
Linker.v
LinkerSpec.v
Arm64.v
GuestCall.v
GuestCallSpec.v
Dispatch.v
DispatchSpec.v
HostAccess.v
HleMonad.v
HleMemOps.v
HleString.v
HleStringSpec.v
HleMemSpec.v
HleTokenSpec.v
Lift.v
SyscallHandler.v
SyscallSpec.v
NativeThreads.v
NativeSpec.v
HostRwLock.v
RwLockSpec.v
HostBarrier.v
BarrierSpec.v
HostMutex.v
MutexSpec.v
NativeTls.v
NativeTlsSpec.v
NativeAttrSpec.v
NativeSync.v
NativeSyncSpec.v
HleErrno.v
MappedSpec.v
HleAlloc.v
HleAllocSpec.v
TlsManager.v
TlsSpec.v
SearchTree.v
HlePrintf.v
HlePrintfSpec.v
HleSearch.v
HleSearchSpec.v
HleWalkSpec.v
HleSearchHeap.v
Utf8.v
Utf8Spec.v
HleMultibyte.v
HleMultibyteSpec.v
HleUcharSpec.v
HleMbsSpec.v
HleStdlib.v
HleSortSpec.v
HleStrtoSpec.v
HleWchar.v
HleWcharSpec.v
HleWcopySpec.v
HleScan.v
HleScanSpec.v
BlockingIo.v
BlockingIoSpec.v
IoWaitSpec.v
