(* ===== verification/Prelude.v ===== *)
(** CrossShim: a verification development.

    CrossShim runs ARM64 Android libraries on a host by executing them under QEMU
    and emulating the C library and the kernel around them.  This library models
    the program's own logic and proves what makes it correct.  Sources are named
    by their path in the repository (src/, include/).

    * The program and the files that model it

    - Guest memory.  [HeapAllocator] and [MemoryManager] of src/memory_manager.cpp:
      a heap with a free list indexed by address and by size, regions backed by
      host memory, the switch to QEMU's memory, allocation helpers.
      OrdMap (std::map, std::multimap), HeapAllocator, MemoryManager; proofs in
      HeapSpec and MemorySpec.
    - Cooperative threads.  [ThreadManager] of src/thread_manager.cpp: contexts, the
      run queue, context switches, pthread objects with their resume halves.
      ThreadTypes, Scheduler, Pthread; proofs in SchedulerSpec and PthreadSpec.  Its
      blocking I/O, with the handlers of src/hle/hle_network.cpp and
      src/hle/hle_file.cpp that use it: BlockingIo; proofs in BlockingIoSpec and
      IoWaitSpec.
    - Loading.  src/elf_loader.cpp, src/relocation_handler.cpp,
      include/hle_path_translation.h and the dynamic linker of src/emulator.cpp:
      ElfLoader, Relocation, Paths, Linker; proofs in ElfSpec, RelocationSpec and
      LinkerSpec.
    - Emulated functions.  [HleManager] (include/hle_manager.h, src/emulator.cpp)
      gives each emulated function a stub whose system call leads to its handler:
      HleManager, HleSpec.  Handlers are programs of the monad of HleMonad on top of
      the host's view of guest memory (HostAccess, Lift).  src/hle/hle_mem_ops.cpp
      and src/hle/hle_string.cpp: HleMemOps, HleString; proofs in HleMemSpec,
      HleStringSpec and HleTokenSpec.
    - Guest calls.  Calls from host to guest in src/emulator.cpp with the
      trampolines they run (Arm64 gives the instructions their meaning): GuestCall,
      GuestCallSpec.  The routing of calls to worker threads: Dispatch, DispatchSpec.
    - System calls.  src/syscall_handler.cpp: SyscallHandler, SyscallSpec.
    - The C library's state.  src/hle/hle_memory.cpp with include/hle_mmap_state.h and
      include/hle_brk_state.h: HleAlloc, proofs in HleAllocSpec (MappedSpec carries
      mapped ranges along).  src/tls_manager.cpp: TlsManager, TlsSpec.  The guest's
      errno: HleErrno.
    - Formatting and scanning.  src/hle/hle_format.cpp: HlePrintf, HlePrintfSpec;
      src/hle/hle_scan.cpp: HleScan, HleScanSpec.
    - Searching and sorting.  src/hle/hle_search.cpp: HleSearch over the tree of
      SearchTree; proofs in HleSearchSpec, HleWalkSpec and HleSearchHeap.
      src/hle/hle_stdlib.cpp: HleStdlib; proofs in HleSortSpec and HleStrtoSpec.
    - Characters.  The UTF-8 codecs of src/hle/hle_wchar.cpp and
      src/hle/hle_locale.cpp: Utf8, Utf8Spec.  The multibyte functions of
      hle_locale.cpp: HleMultibyte; proofs in HleMultibyteSpec, HleUcharSpec and
      HleMbsSpec.  The wide strings of hle_wchar.cpp: HleWchar; proofs in HleWcharSpec
      and HleWcopySpec.
    - Threads on host threads.  src/hle/hle_pthread.cpp and include/hle_mmap_state.h:
      the registry of threads, arenas of stacks and TLS blocks, creation, exit, join,
      detach, cleanup handlers: NativeThreads, NativeSpec.  Read-write locks, barriers
      and mutexes on host objects: HostRwLock, HostBarrier, HostMutex, found through the
      tables of NativeSync; proofs in RwLockSpec, BarrierSpec, MutexSpec and
      NativeSyncSpec.  Keys, thread-specific values and attributes: NativeTls; proofs in
      NativeTlsSpec and NativeAttrSpec.
    - Interfaces.  [Env] (Env) is what lies outside the program: QEMU, the host kernel,
      clocks.  [Machine] with [MemLaws] and [RegFileLaws] (Machine) is memory and
      registers as the loader and the handlers see them; MemorySpec discharges it
      for the memory manager before and after QEMU is ready, and Lift carries it to
      larger states.

    They meet as in the program: the linker maps segments through the memory
    manager and resolves imports to stubs of the HLE manager; a stub traps into a
    handler; a handler may call back into the guest; locks and futexes block a
    thread through the scheduler, which saves and restores registers.

    * State and operations

    A class is a Record with the source's field names; a method is a function from
    the state to the state and the result, with every guard and early return of the
    source.  A method that holds the class's mutex for its whole body is one atomic
    step; code that releases locks in between (Dispatch, NativeSpec, HostRwLock, HostBarrier,
    HostMutex) is a
    step relation over the stretches between the releases, so that theorems hold for every
    interleaving.  64-bit arithmetic wraps ([⊕], [⊖], [u64]), 32-bit casts are
    [u32] and [s32]; bytes are integers, memory contents are lists of bytes.
    Exceptions and host faults are outcomes of the handler monad.  Logging is left
    out.

    * What is shown

    - Every call of the heap has the result and the effect of an allocator that only
      knows its live blocks; blocks are disjoint, inside the heap and aligned as asked
      (HeapSpec).  Memory reads back what was
      written, switching to QEMU keeps every byte, guest allocations keep their
      contents (MemorySpec).
    - Threads, run queue, mutexes, read-write locks and barriers stay consistent under
      any sequence of calls; a context switch saves and restores every register;
      runnable threads get their turn; a mutex is handed to its first waiter, which
      takes it when it runs again (SchedulerSpec, PthreadSpec).  The seven cooperative
      I/O calls are one scheme; on one emulating host thread a call that has to wait is
      transparent to the guest, whatever the other guest threads do, pthread calls
      included, and descriptors keep their flags (BlockingIoSpec, IoWaitSpec).
    - A library is loaded and relocated as its file says (with the ABI's values when its
      lowest address is 0), modules never overlap, handles and symbols resolve (ElfSpec, RelocationSpec, LinkerSpec).
    - Stubs reach their handlers (HleSpec); guest calls pass arguments, return results
      and leave registers as they were (GuestCallSpec); a call routed to a worker is
      executed once and returns its own result, and no wake-up of its worker is lost
      (DispatchSpec).
    - The emulated memory and string functions do what C prescribes (HleMemSpec,
      HleStringSpec, HleTokenSpec).
    - System calls keep the handler's tables typed; virtual files read back; futexes
      block when the word is as expected and wake whom they should (SyscallSpec).
    - On host threads, stacks and TLS blocks of live threads never overlap and exit
      values reach their joiners (NativeSpec); read-write locks and mutexes refine their
      abstract locks, no wake-up is lost, barriers work in rounds and release everyone
      (RwLockSpec, MutexSpec, BarrierSpec); objects, keys and attributes are found again
      (NativeSyncSpec, NativeTlsSpec, NativeAttrSpec).
    - malloc and its relatives, with mmap and munmap, refine an allocator of disjoint
      blocks and keep their contents; the program break stays in its bounds
      (HleAllocSpec).  The TLS block of the main thread is as bionic expects (TlsSpec).
    - The printf engine parses what formats are made of, numbers their arguments and
      gives them their kinds, stays in its bounds, and takes
      arguments from registers and from a va_list alike (HlePrintfSpec); the scanf
      engine reads back what integers are printed as (HleScanSpec).
    - Trees in guest memory refine sorted sequences, whatever the guest's comparison,
      and are walked as POSIX says but for the level (HleSearchSpec, HleWalkSpec);
      qsort sorts, bsearch ends on any array and finds what is there in a sorted one
      (HleSortSpec); strtol and strtoul read back numbers in
      every base and clamp (HleStrtoSpec).
    - Encoding and decoding are inverse on the scalar values, and what each of the three
      decoders accepts is said exactly (Utf8Spec); mbrtowc refines
      a decoder fed in pieces (HleMultibyteSpec), UTF-16 units come back as the same bytes
      (HleUcharSpec), whole strings are converted and resumed (HleMbsSpec); wide strings
      are measured, compared, searched and copied as lists are (HleWcharSpec,
      HleWcopySpec).
    Several theorems state faults of the code as it is (a recycled thread that does
    not know its number, a read past the end of a virtual file, leaks of arena slots
    and call depth, a host array overrun through a conversion state, a read that returns
    its descriptor when nobody else can run); their comments say so.

    * Bounds and fuel

    Loops of the source that walk data are structural or run on a measure computed
    from their input, and terminate without fuel.  Where fuel is an argument, the
    theorem says how much is enough or that any more changes nothing: the zeroing
    loop (one round per chunk, [zero_correct]), [retry_select] (the source's own
    limit of ten), reading strings (the source's limits: a megabyte, 4096 for
    paths), [strtok_all] (the string's length), [dispatch_cleanups] (the number of
    handlers), [join_poll] (the poll count of the source), walks of trees (their height or
    size), [bsearch_loop] (65 rounds for any array), loops over wide and multibyte strings
    (one more than the length).  In the wide and multibyte functions and the trees fuel that
    runs out shows as [None], and the theorems say that it does not.  A guest program may run for ever: the
    run loop [run_loop] returns [None] then, and [safe_call_transparent] assumes with
    [loop_ends] that it does not.

    * Outside the program

    Classes name what the code relies on, each with an instance that satisfies it,
    used by the witnesses: [Env] and its laws ([RegLaws], [GuestMemLaws],
    [HostMapLaws], [WalkLaws], [CpuMemLaws]; [RefEnv]), [HostAccess] and
    [HostAccessLaws] (host pointers into guest memory), [CLib] (sign of host
    comparisons), [HostOs] (host system calls; no laws), [HostSched] (page size and
    priority ranges), [HostIo] with [HostIoLaws] (descriptors;
    [IoEnv] has pipes), [Wide64], [HostPrintf] and [HostScan] (the host's snprintf and sscanf), [FpRegs]
    (vector registers), [GuestFun] (functions of the guest, called back), [HeapOps] with
    [HeapLaws] (the heap, as the search functions use it; HleSearchHeap discharges them),
    [HostRwInit], [HostRng], and what undefined reads give: [Uninit] (uninitialised bytes
    of the host's stack), [Torn] (a variable after a failed read);
    [WideRegs] (registers hold 64 bits) and [NullPageLaws] (the first page is not mapped).  LIEF's parser is an argument of the ELF loader.

    * Not modelled

    Files, directories, streams, network (but for the calls that may block), time, processes, signals, users, mathematics,
    character classes: handlers that pass on to the host's library.  Of the files that
    are modelled in part: setlocale, localeconv, nl_langinfo and iconv (strings and
    handles of the host), environment, floating-point parsing and the random
    generators of hle_stdlib.cpp, streams, wcsftime and floating-point parsing of
    hle_wchar.cpp, the reentrant hash functions of hle_search.cpp (tables of the host's
    C library).  QEMU headers, generated wrappers,
    Rust bindings, tests and the wrapper generator are not the program's logic. *)

From stdpp Require Export base gmap list sorting strings.
From Stdlib Require Export ZArith Lia.

#[global] Open Scope Z_scope.

(** * Machine integers *)

Definition two64 : Z := 2 ^ 64.
Definition two32 : Z := 2 ^ 32.

(** Unsigned arithmetic of [uint64_t] and [uint32_t]: results modulo 2^w. *)
Definition u64 (x : Z) : Z := x mod two64.
Definition u32 (x : Z) : Z := x mod two32.

(** [static_cast<int64_t>] and [static_cast<int>] of an unsigned value. *)
Definition s64 (x : Z) : Z := let y := u64 x in if y <? 2 ^ 63 then y else y - two64.
Definition s32 (x : Z) : Z := let y := u32 x in if y <? 2 ^ 31 then y else y - two32.

Declare Scope u64_scope.
Delimit Scope u64_scope with u64.
Notation "x ⊕ y" := (u64 (x + y)) (at level 50, left associativity) : u64_scope.
Notation "x ⊖ y" := (u64 (x - y)) (at level 50, left associativity) : u64_scope.
Notation "x ⊗ y" := (u64 (x * y)) (at level 40, left associativity) : u64_scope.
#[global] Open Scope u64_scope.

(** [~x] at width 64. *)
Definition u64_not (x : Z) : Z := Z.ldiff (Z.ones 64) x.

Definition in_u64 (x : Z) : Prop := 0 <= x < two64.

Definition pow2 (a : Z) : Prop := exists k, 0 <= k < 64 /\ a = 2 ^ k.

Lemma u64_small x : in_u64 x -> u64 x = x.
Proof. intros H. unfold u64. apply Z.mod_small, H. Qed.

Lemma u64_range x : in_u64 (u64 x).
Proof. apply Z.mod_pos_bound. reflexivity. Qed.

Lemma u32_small x : 0 <= x < two32 -> u32 x = x.
Proof. intros H. unfold u32. apply Z.mod_small, H. Qed.

Ltac u64_lia := unfold in_u64, two64, two32 in *; lia.

(** Rewrites every [u64 e] whose argument is provably in range. *)
Ltac u64_simpl :=
  repeat match goal with
  | |- context [u64 ?e] => rewrite (u64_small e) by (u64_lia)
  | H : context [u64 ?e] |- _ => rewrite (u64_small e) in H by (u64_lia)
  end.

(** [x & ~(2^k - 1)] clears the low [k] bits. *)
Lemma mask_low x k :
  0 <= k < 64 -> in_u64 x -> Z.land x (u64_not (2 ^ k - 1)) = x - x mod 2 ^ k.
Proof.
  intros Hk Hx. unfold u64_not.
  assert (Hland : Z.land x (Z.ldiff (Z.ones 64) (2 ^ k - 1)) = Z.ldiff x (Z.ones k)).
  { replace (2 ^ k - 1) with (Z.ones k) by (rewrite Z.ones_equiv; lia).
    rewrite !Z.ldiff_land, Z.land_assoc, Z.land_ones by lia.
    f_equal. apply Z.mod_small, Hx. }
  rewrite Hland, Z.ldiff_ones_r, Z.shiftl_mul_pow2, Z.shiftr_div_pow2 by lia.
  pose proof (Z.div_mod x (2 ^ k) ltac:(lia)). lia.
Qed.

(** [(v + a - 1) & ~(a - 1)], the alignment idiom of the sources, for a power
    of two [a] and no wrap-around: the least multiple of [a] not below [v]. *)
Lemma align_up_mask v a :
  pow2 a -> 0 <= v -> v + a <= two64 ->
  exists q, Z.land (v ⊕ a ⊖ 1) (u64_not (a ⊖ 1)) = a * q /\ v <= a * q < v + a.
Proof.
  intros (k & Hk & ->) Hv Hb.
  assert (H1 : 1 <= 2 ^ k) by (apply (Z.pow_le_mono_r 2 0 k); lia).
  assert (H2 : 2 ^ k <= 2 ^ 63) by (apply Z.pow_le_mono_r; lia).
  assert (Hs : v ⊕ 2 ^ k ⊖ 1 = v + 2 ^ k - 1).
  { unfold u64. rewrite Zminus_mod_idemp_l. apply Z.mod_small. u64_lia. }
  rewrite Hs, (u64_small (2 ^ k - 1)) by u64_lia.
  rewrite mask_low by u64_lia.
  exists ((v + 2 ^ k - 1) / 2 ^ k).
  pose proof (Z.div_mod (v + 2 ^ k - 1) (2 ^ k) ltac:(lia)).
  pose proof (Z.mod_pos_bound (v + 2 ^ k - 1) (2 ^ k) ltac:(lia)). lia.
Qed.

Lemma pow2_pos a : pow2 a -> 0 < a.
Proof. intros (k & Hk & ->). apply Z.pow_pos_nonneg; lia. Qed.

(** * Intervals *)

(** [[a, a+s)] and [[b, b+t)] do not meet. *)
Definition disj (a s b t : Z) : Prop := a + s <= b \/ b + t <= a.

Lemma disj_sym a s b t : disj a s b t -> disj b t a s.
Proof. unfold disj. lia. Qed.

(** * Little-endian byte strings *)

(** The bytes of a [w]-byte integer in memory on the (little-endian) host and
    guest, and back. *)
Fixpoint le_bytes (n : nat) (v : Z) : list Z :=
  match n with O => [] | S n' => v mod 256 :: le_bytes n' (v / 256) end.

Fixpoint le_value (bs : list Z) : Z :=
  match bs with [] => 0 | b :: t => b + 256 * le_value t end.

Lemma length_le_bytes n v : length (le_bytes n v) = n.
Proof. revert v; induction n; intros v; simpl; [done|]. by rewrite IHn. Qed.

Lemma le_value_bytes n v : le_value (le_bytes n v) = v mod 2 ^ (8 * Z.of_nat n).
Proof.
  revert v; induction n as [|n IH]; intros v.
  - simpl. by rewrite Z.mod_1_r.
  - cbn [le_bytes le_value]. rewrite IH.
    replace (8 * Z.of_nat (S n)) with (8 + 8 * Z.of_nat n) by lia.
    rewrite Z.pow_add_r by lia. change (2 ^ 8) with 256.
    rewrite (Z.rem_mul_r v 256) by lia. lia.
Qed.

Lemma le_bytes_byte n v b : b ∈ le_bytes n v -> 0 <= b < 256.
Proof.
  revert v; induction n as [|n IH]; intros v; simpl; [by intros ?%elem_of_nil|].
  intros [->|H]%elem_of_cons; [apply Z.mod_pos_bound; lia|eauto].
Qed.

(** * Record update *)

(** [r <| f := v |>] is [r] with field [f] replaced by [v]; a setter is built
    from a record's eta expansion by [build_setter]. *)
Class Setter {R T} (f : R -> T) := set_field : (T -> T) -> R -> R.
#[global] Hint Mode Setter - - ! : typeclass_instances.

Notation "r <| f := v |>" := (set_field (f := f) (fun _ => v) r)
  (at level 1, left associativity, f constr at level 1, v constr at level 200).
Notation "r <| f ::= g |>" := (set_field (f := f) g r)
  (at level 1, left associativity, f constr at level 1, g constr at level 200).

Ltac build_setter eta f :=
  intros upd r;
  let b := eval unfold eta in (eta r) in
  let b' := eval pattern (f r) in b in
  lazymatch b' with
  | ?g _ => let t := eval cbv beta in (g (upd (f r))) in exact t
  end.

(** * Automation *)

Create HintDb shim discriminated.
Create Rewrite HintDb shim_bytes.

#[export] Hint Resolve u64_range disj_sym pow2_pos : shim.
#[export] Hint Rewrite length_le_bytes : shim_bytes.

(** Destructs the boolean comparisons of the code into the facts they decide. *)
Ltac zbool :=
  repeat match goal with
  | H : (?x <=? ?y) = true |- _ => apply Z.leb_le in H
  | H : (?x <=? ?y) = false |- _ => apply Z.leb_gt in H
  | H : (?x <? ?y) = true |- _ => apply Z.ltb_lt in H
  | H : (?x <? ?y) = false |- _ => apply Z.ltb_ge in H
  | H : (?x =? ?y) = true |- _ => apply Z.eqb_eq in H
  | H : (?x =? ?y) = false |- _ => apply Z.eqb_neq in H
  | H : _ && _ = true |- _ => apply andb_true_iff in H as [??]
  | H : _ || _ = false |- _ => apply orb_false_iff in H as [??]
  | H : negb _ = true |- _ => apply negb_true_iff in H
  | H : negb _ = false |- _ => apply negb_false_iff in H
  end.
