(* ===== verification/OrdMap.v ===== *)
(** The ordered containers the allocator uses: [std::map<uint64_t,uint64_t>] as
    a strictly ascending association list and
    [std::multimap<uint64_t,uint64_t>] as a list ascending in its key, equal
    keys in insertion order.  An iterator into the map is a split of the list
    into what is before it and what it can still reach. *)

From S2P Require Import Prelude.

(** * [std::map] *)

(** [m.find(k)]. *)
Fixpoint om_find (k : Z) (m : list (Z * Z)) : option Z :=
  match m with
  | [] => None
  | (k', v) :: t => if k' =? k then Some v else om_find k t
  end.

(** [m[k] = v]: overwrite or insert in key order. *)
Fixpoint om_insert (k v : Z) (m : list (Z * Z)) : list (Z * Z) :=
  match m with
  | [] => [(k, v)]
  | (k', v') :: t =>
      if k <? k' then (k, v) :: (k', v') :: t
      else if k =? k' then (k, v) :: t
      else (k', v') :: om_insert k v t
  end.

(** [m.erase(k)]. *)
Fixpoint om_erase (k : Z) (m : list (Z * Z)) : list (Z * Z) :=
  match m with
  | [] => []
  | (k', v') :: t => if k' =? k then t else (k', v') :: om_erase k t
  end.

(** [m.lower_bound(k)]: the entries before the iterator, and from it on. *)
Fixpoint om_lower_bound (k : Z) (m : list (Z * Z)) : list (Z * Z) * list (Z * Z) :=
  match m with
  | [] => ([], [])
  | (k', v) :: t =>
      if k' <? k then let '(b, a) := om_lower_bound k t in ((k', v) :: b, a)
      else ([], (k', v) :: t)
  end.

(** * [std::multimap] *)

(** [m.insert({k, v})]: at the end of the range of keys equal to [k]. *)
Fixpoint mm_insert (k v : Z) (m : list (Z * Z)) : list (Z * Z) :=
  match m with
  | [] => [(k, v)]
  | (k', v') :: t =>
      if k <? k' then (k, v) :: (k', v') :: t else (k', v') :: mm_insert k v t
  end.

(** [m.lower_bound(k)] as the entries the iterator reaches. *)
Fixpoint mm_lower_bound (k : Z) (m : list (Z * Z)) : list (Z * Z) :=
  match m with
  | [] => []
  | (k', v) :: t => if k' <? k then mm_lower_bound k t else (k', v) :: t
  end.

(** Walk [m.equal_range(k)] and erase the first entry whose value is [v]. *)
Fixpoint mm_erase (k v : Z) (m : list (Z * Z)) : list (Z * Z) :=
  match m with
  | [] => []
  | (k', v') :: t =>
      if (k' =? k) && (v' =? v) then t else (k', v') :: mm_erase k v t
  end.

(** * Invariants and lemmas *)

Definition om_sorted (m : list (Z * Z)) : Prop := StronglySorted Z.lt (m.*1).
Definition mm_sorted (m : list (Z * Z)) : Prop := StronglySorted Z.le (m.*1).

Lemma om_sorted_cons k v m :
  om_sorted ((k, v) :: m) <-> om_sorted m /\ forall k' v', (k', v') ∈ m -> k < k'.
Proof.
  unfold om_sorted. simpl. split.
  - intros H. inversion H as [|?? Hs Hall]; subst. split; [done|].
    intros k' v' Hin. rewrite Forall_forall in Hall. apply Hall.
    apply list_elem_of_fmap. by exists (k', v').
  - intros [Hs H]. constructor; [done|]. apply Forall_forall.
    intros x ([k' v'] & -> & Hin)%list_elem_of_fmap. eauto.
Qed.

Lemma mm_sorted_cons k v m :
  mm_sorted ((k, v) :: m) <-> mm_sorted m /\ forall k' v', (k', v') ∈ m -> k <= k'.
Proof.
  unfold mm_sorted. simpl. split.
  - intros H. inversion H as [|?? Hs Hall]; subst. split; [done|].
    intros k' v' Hin. rewrite Forall_forall in Hall. apply Hall.
    apply list_elem_of_fmap. by exists (k', v').
  - intros [Hs H]. constructor; [done|]. apply Forall_forall.
    intros x ([k' v'] & -> & Hin)%list_elem_of_fmap. eauto.
Qed.

Lemma om_sorted_nil : om_sorted [].
Proof. constructor. Qed.
Lemma mm_sorted_nil : mm_sorted [].
Proof. constructor. Qed.
#[export] Hint Resolve om_sorted_nil mm_sorted_nil : shim.

Lemma om_key_unique m k v v' :
  om_sorted m -> (k, v) ∈ m -> (k, v') ∈ m -> v = v'.
Proof.
  induction m as [|[k0 v0] m IH]; intros Hs; [by intros ?%elem_of_nil|].
  apply om_sorted_cons in Hs as [Hs Hlt].
  intros [?|H1]%elem_of_cons [?|H2]%elem_of_cons; simplify_eq; auto;
    [apply Hlt in H2|apply Hlt in H1]; lia.
Qed.

Lemma elem_of_om_insert m k v x :
  om_sorted m ->
  x ∈ om_insert k v m <-> x = (k, v) \/ (x.1 <> k /\ x ∈ m).
Proof.
  destruct x as [kx vx].
  induction m as [|[k0 v0] m IH]; intros Hs; simpl.
  { rewrite list_elem_of_singleton. set_solver. }
  apply om_sorted_cons in Hs as [Hs Hlt].
  destruct (Z.ltb_spec k k0).
  { rewrite !elem_of_cons. split; [|naive_solver].
    intros [?|[?|Hin]]; simplify_eq; simpl; [by left|right..].
    - split; [lia|by left].
    - pose proof (Hlt _ _ Hin). split; [lia|by right]. }
  destruct (Z.eqb_spec k k0) as [->|Hne].
  { rewrite !elem_of_cons. split.
    - intros [?|Hin]; simplify_eq; [by left|]. pose proof (Hlt _ _ Hin).
      right. split; [simpl; lia|auto].
    - simpl. intros [?|[? [?|?]]]; simplify_eq; auto. }
  rewrite !elem_of_cons, (IH Hs). simpl. split.
  - intros [?|[?|[??]]]; simplify_eq; auto.
  - intros [?|[? [?|?]]]; simplify_eq; auto.
Qed.

Lemma om_sorted_insert m k v : om_sorted m -> om_sorted (om_insert k v m).
Proof.
  induction m as [|[k0 v0] m IH]; intros Hs; simpl.
  { apply om_sorted_cons. split; [done|]. by intros ?? ?%elem_of_nil. }
  pose proof Hs as Hs0. apply om_sorted_cons in Hs as [Hs Hlt].
  destruct (Z.ltb_spec k k0).
  { apply om_sorted_cons. split; [done|].
    intros k' v' [?|Hin]%elem_of_cons; simplify_eq; [lia|].
    specialize (Hlt _ _ Hin). lia. }
  destruct (Z.eqb_spec k k0) as [->|Hne].
  { apply om_sorted_cons. eauto. }
  apply om_sorted_cons. split; [auto|].
  intros k' v' [?|[_ Hin]]%elem_of_om_insert; simplify_eq; eauto. lia.
Qed.

Lemma elem_of_om_erase m k x :
  om_sorted m -> x ∈ om_erase k m <-> x.1 <> k /\ x ∈ m.
Proof.
  destruct x as [kx vx].
  induction m as [|[k0 v0] m IH]; intros Hs; simpl.
  { split; [by intros ?%elem_of_nil|by intros [_ ?%elem_of_nil]]. }
  apply om_sorted_cons in Hs as [Hs Hlt].
  destruct (Z.eqb_spec k0 k) as [->|Hne].
  - rewrite elem_of_cons. split.
    + intros Hin. specialize (Hlt _ _ Hin). simpl. split; [lia|auto].
    + simpl. intros [? [?|?]]; simplify_eq; done.
  - rewrite !elem_of_cons, (IH Hs). simpl. naive_solver.
Qed.

Lemma om_sorted_erase m k : om_sorted m -> om_sorted (om_erase k m).
Proof.
  induction m as [|[k0 v0] m IH]; intros Hs; simpl; [done|].
  apply om_sorted_cons in Hs as [Hs Hlt].
  destruct (Z.eqb_spec k0 k); [done|].
  apply om_sorted_cons. split; [auto|].
  intros k' v' [_ Hin]%elem_of_om_erase; eauto.
Qed.

#[export] Hint Resolve om_sorted_insert om_sorted_erase : shim.

Lemma om_lower_bound_app k m b a :
  om_lower_bound k m = (b, a) -> m = b ++ a.
Proof.
  revert b a; induction m as [|[k0 v0] m IH]; intros b a; simpl; [naive_solver|].
  destruct (k0 <? k); [|naive_solver].
  destruct (om_lower_bound k m) as [b' a']. intros [= <- <-].
  simpl. f_equal. eauto.
Qed.

Lemma om_lower_bound_spec k m b a :
  om_sorted m -> om_lower_bound k m = (b, a) ->
  (forall k' v', (k', v') ∈ b -> k' < k) /\ (forall k' v', (k', v') ∈ a -> k <= k').
Proof.
  revert b a; induction m as [|[k0 v0] m IH]; intros b a Hs; simpl.
  { intros [= <- <-]. split; by intros ?? ?%elem_of_nil. }
  apply om_sorted_cons in Hs as [Hs Hlt].
  destruct (Z.ltb_spec k0 k).
  - destruct (om_lower_bound k m) as [b' a'] eqn:E. intros [= <- <-].
    destruct (IH _ _ Hs eq_refl) as [H1 H2]. split; [|done].
    intros k' v' [?|?]%elem_of_cons; simplify_eq; eauto.
  - intros [= <- <-]. split; [by intros ?? ?%elem_of_nil|].
    intros k' v' [?|Hin]%elem_of_cons; simplify_eq; [lia|].
    specialize (Hlt _ _ Hin). lia.
Qed.

Lemma om_sorted_app b a :
  om_sorted (b ++ a) ->
  om_sorted b /\ om_sorted a /\
  forall k v k' v', (k, v) ∈ b -> (k', v') ∈ a -> k < k'.
Proof.
  induction b as [|[k0 v0] b IH]; simpl.
  { intros H. split; [apply om_sorted_nil|]. split; [done|]. by intros ???? ?%elem_of_nil. }
  rewrite !om_sorted_cons. intros [Hs Hlt]. destruct (IH Hs) as (H1 & H2 & H3).
  split_and!; [done| |done|].
  - intros k' v' Hin. eapply (Hlt k' v'). set_solver.
  - intros k v k' v' [?|Hin]%elem_of_cons Hin'; simplify_eq; eauto.
    eapply (Hlt k' v'). set_solver.
Qed.

(** The entry an iterator points back to with [std::prev] is the greatest of
    those before it. *)
Lemma om_prev_greatest b a k v :
  om_sorted (b ++ a) -> last b = Some (k, v) ->
  (k, v) ∈ b /\ forall k' v', (k', v') ∈ b -> k' <= k.
Proof.
  intros (Hb & _ & _)%om_sorted_app Hl.
  apply last_Some in Hl as [b' ->].
  apply om_sorted_app in Hb as (_ & _ & H).
  split; [set_solver|].
  intros k' v' [Hin| ?%list_elem_of_singleton]%elem_of_app; simplify_eq; [|lia].
  enough (k' < k) by lia. eapply (H _ _ _ v); [done|]. set_solver.
Qed.

(** The multimap as an index: permutations of the same entries. *)
Lemma mm_insert_perm k v m : mm_insert k v m ≡ₚ (k, v) :: m.
Proof.
  induction m as [|[k0 v0] m IH]; simpl; [done|].
  destruct (k <? k0); [done|]. rewrite IH. apply Permutation_swap.
Qed.

Lemma mm_erase_perm k v m : (k, v) ∈ m -> m ≡ₚ (k, v) :: mm_erase k v m.
Proof.
  induction m as [|[k0 v0] m IH]; [by intros ?%elem_of_nil|].
  simpl. intros Hin.
  destruct ((k0 =? k) && (v0 =? v)) eqn:E.
  { zbool. by subst. }
  assert (Hin' : (k, v) ∈ m).
  { apply elem_of_cons in Hin as [?|?]; [|done]. simplify_eq.
    rewrite !Z.eqb_refl in E. done. }
  rewrite (IH Hin') at 1. apply Permutation_swap.
Qed.

Lemma om_insert_perm k v m :
  om_find k m = None -> om_sorted m -> om_insert k v m ≡ₚ (k, v) :: m.
Proof.
  induction m as [|[k0 v0] m IH]; simpl; [done|].
  intros Hf Hs. apply om_sorted_cons in Hs as [Hs _].
  destruct (Z.eqb_spec k0 k); [done|].
  destruct (k <? k0); [done|].
  destruct (Z.eqb_spec k k0); [lia|].
  rewrite IH by done. apply Permutation_swap.
Qed.

Lemma om_erase_perm k v m :
  (k, v) ∈ m -> om_sorted m -> m ≡ₚ (k, v) :: om_erase k m.
Proof.
  induction m as [|[k0 v0] m IH]; [by intros ?%elem_of_nil|].
  simpl. intros Hin Hs. pose proof Hs as Hs0. apply om_sorted_cons in Hs as [Hs Hlt].
  destruct (Z.eqb_spec k0 k) as [->|Hne].
  { assert (v0 = v) as -> by (eapply (om_key_unique _ k); [apply Hs0|set_solver|done]). done. }
  assert (Hin' : (k, v) ∈ m) by set_solver.
  rewrite (IH Hin' Hs) at 1. apply Permutation_swap.
Qed.

Lemma om_find_None k m : om_find k m = None <-> forall v, (k, v) ∉ m.
Proof.
  induction m as [|[k0 v0] m IH]; simpl.
  { split; [intros _ v; apply not_elem_of_nil|done]. }
  destruct (Z.eqb_spec k0 k) as [->|Hne].
  { split; [done|]. intros H. exfalso. apply (H v0). set_solver. }
  rewrite IH. set_solver.
Qed.

Lemma mm_sorted_insert k v m : mm_sorted m -> mm_sorted (mm_insert k v m).
Proof.
  induction m as [|[k0 v0] m IH]; intros Hs; simpl.
  { apply mm_sorted_cons. split; [done|]. by intros ?? ?%elem_of_nil. }
  pose proof Hs as Hs0. apply mm_sorted_cons in Hs as [Hs Hle].
  destruct (Z.ltb_spec k k0).
  - apply mm_sorted_cons. split; [done|].
    intros k' v' [?|Hin]%elem_of_cons; simplify_eq; [lia|]. specialize (Hle _ _ Hin). lia.
  - apply mm_sorted_cons. split; [auto|]. intros k' v' Hin.
    rewrite mm_insert_perm in Hin. apply elem_of_cons in Hin as [?|?]; simplify_eq; eauto.
Qed.

Lemma elem_of_mm_erase k v m x : x ∈ mm_erase k v m -> x ∈ m.
Proof.
  induction m as [|[k0 v0] m IH]; simpl; [done|].
  destruct (_ && _); set_solver.
Qed.

Lemma mm_sorted_erase k v m : mm_sorted m -> mm_sorted (mm_erase k v m).
Proof.
  induction m as [|[k0 v0] m IH]; intros Hs; simpl; [done|].
  apply mm_sorted_cons in Hs as [Hs Hle].
  destruct (_ && _); [done|]. apply mm_sorted_cons. split; [auto|].
  intros k' v' Hin%elem_of_mm_erase. eauto.
Qed.

#[export] Hint Resolve mm_sorted_insert mm_sorted_erase : shim.

(** The entries a lower bound reaches are exactly those with a key in range. *)
Lemma elem_of_mm_lower_bound k m x :
  mm_sorted m -> x ∈ mm_lower_bound k m <-> x ∈ m /\ k <= x.1.
Proof.
  destruct x as [kx vx].
  induction m as [|[k0 v0] m IH]; intros Hs; simpl.
  { split; [by intros ?%elem_of_nil|by intros [?%elem_of_nil _]]. }
  apply mm_sorted_cons in Hs as [Hs Hle].
  destruct (Z.ltb_spec k0 k).
  - rewrite (IH Hs), elem_of_cons. simpl. split; [naive_solver|].
    intros [[?|?] ?]; simplify_eq; [lia|done].
  - split; [|naive_solver]. intros Hin. split; [done|].
    apply elem_of_cons in Hin as [?|Hin]; simplify_eq; simpl; [done|].
    specialize (Hle _ _ Hin). lia.
Qed.

Lemma mm_sorted_lower_bound k m : mm_sorted m -> mm_sorted (mm_lower_bound k m).
Proof.
  induction m as [|[k0 v0] m IH]; intros Hs; simpl; [done|].
  pose proof Hs as Hs0. apply mm_sorted_cons in Hs as [Hs _].
  destruct (k0 <? k); auto.
Qed.
#[export] Hint Resolve mm_sorted_lower_bound : shim.
