(* ===== verification/HeapAllocator.v ===== *)
(** [HeapAllocator] (src/src/memory_manager.cpp, include/memory_manager.h): the
    guest heap with its dual-indexed free list.  State and operations are those
    of the class; the mutex guards every public operation as a whole, so an
    operation is one atomic state transformer. *)

From S2P Require Import Prelude OrdMap.

Record HeapAllocator := {
  base_ : Z;
  size_ : Z;
  high_water_mark_ : Z;
  allocations_ : gmap Z Z;                (** address -> size *)
  free_blocks_ : list (Z * Z);            (** by address: address, size *)
  free_blocks_by_size_ : list (Z * Z);    (** by size: size, address *)
}.

Definition eta_heap (h : HeapAllocator) : HeapAllocator :=
  Build_HeapAllocator (base_ h) (size_ h) (high_water_mark_ h) (allocations_ h)
    (free_blocks_ h) (free_blocks_by_size_ h).
#[export] Instance set_high_water_mark : Setter high_water_mark_ := ltac:(build_setter eta_heap high_water_mark_).
#[export] Instance set_allocations : Setter allocations_ := ltac:(build_setter eta_heap allocations_).
#[export] Instance set_free_blocks : Setter free_blocks_ := ltac:(build_setter eta_heap free_blocks_).
#[export] Instance set_free_blocks_by_size : Setter free_blocks_by_size_ := ltac:(build_setter eta_heap free_blocks_by_size_).

(** [HeapAllocator::HeapAllocator(base, size)]. *)
Definition new_heap (base size : Z) : HeapAllocator :=
  {| base_ := base; size_ := size; high_water_mark_ := base; allocations_ := ∅;
     free_blocks_ := []; free_blocks_by_size_ := [] |}.

(** [remove_free_block(address, size)]: out of both indices. *)
Definition remove_free_block (address size : Z) (h : HeapAllocator) : HeapAllocator :=
  h <| free_blocks_ ::= om_erase address |>
    <| free_blocks_by_size_ ::= mm_erase size address |>.

(** "Check if we can merge with predecessor": [before] is what precedes the
    insertion point, so [std::prev] is its last entry.  Yields the address and
    size of the block to insert. *)
Definition coalesce_prev (before : list (Z * Z)) (address size : Z) (h : HeapAllocator)
  : Z * Z * HeapAllocator :=
  match last before with
  | Some (prev_addr, prev_size) =>
      if (prev_addr ⊕ prev_size) =? address
      then (prev_addr, prev_size ⊕ size, remove_free_block prev_addr prev_size h)
      else (address, size, h)
  | None => (address, size, h)
  end.

(** "Check if we can merge with successor": [after] starts at the iterator. *)
Definition coalesce_next (after : list (Z * Z)) (new_addr new_size : Z) (h : HeapAllocator)
  : Z * HeapAllocator :=
  match after with
  | (next_addr, next_size) :: _ =>
      if (new_addr ⊕ new_size) =? next_addr
      then (new_size ⊕ next_size, remove_free_block next_addr next_size h)
      else (new_size, h)
  | [] => (new_size, h)
  end.

(** "Insert the (possibly merged) block into both indices". *)
Definition insert_free_block (address size : Z) (h : HeapAllocator) : HeapAllocator :=
  h <| free_blocks_ ::= om_insert address size |>
    <| free_blocks_by_size_ ::= mm_insert size address |>.

(** [add_free_block(address, size)].  Both neighbours come from the index as it
    is on entry ([next] and [prev] are iterators obtained before any erasure). *)
Definition add_free_block (address size : Z) (h : HeapAllocator) : HeapAllocator :=
  let '(before, after) := om_lower_bound address (free_blocks_ h) in
  let '(new_addr, new_size, h1) := coalesce_prev before address size h in
  let '(new_size', h2) := coalesce_next after new_addr new_size h1 in
  insert_free_block new_addr new_size' h2.

(** [(x + alignment - 1) & ~(alignment - 1)]. *)
Definition aligned_up (x alignment : Z) : Z :=
  Z.land (x ⊕ alignment ⊖ 1) (u64_not (alignment ⊖ 1)).

(** The [while (size_it != end)] loop: the first block of the size index, from
    the lower bound on, that still fits once padded: (size, address, aligned
    address, padding). *)
Fixpoint find_block (it : list (Z * Z)) (alloc_size alignment : Z) : option (Z * Z * Z * Z) :=
  match it with
  | [] => None
  | (block_size, block_addr) :: it' =>
      let aligned := aligned_up block_addr alignment in
      let padding := aligned ⊖ block_addr in
      if (alloc_size ⊕ padding) <=? block_size
      then Some (block_size, block_addr, aligned, padding)
      else find_block it' alloc_size alignment
  end.

(** [allocate(alloc_size, alignment)]; 0 is "out of memory". *)
Definition allocate (alloc_size0 alignment : Z) (h : HeapAllocator) : Z * HeapAllocator :=
  let alloc_size := if alloc_size0 =? 0 then 1 else alloc_size0 in
  match find_block (mm_lower_bound alloc_size (free_blocks_by_size_ h)) alloc_size alignment with
  | Some (block_size, block_addr, aligned, padding) =>
      let h1 := remove_free_block block_addr block_size h in
      let h2 := if 0 <? padding then add_free_block block_addr padding h1 else h1 in
      let remaining := block_size ⊖ alloc_size ⊖ padding in
      let h3 := if 16 <=? remaining
                then add_free_block (aligned ⊕ alloc_size) remaining h2 else h2 in
      (aligned, h3 <| allocations_ ::= <[aligned := alloc_size]> |>)
  | None =>
      let aligned := aligned_up (high_water_mark_ h) alignment in
      if (base_ h ⊕ size_ h) <? (aligned ⊕ alloc_size) then (0, h)
      else (aligned, h <| high_water_mark_ := aligned ⊕ alloc_size |>
                       <| allocations_ ::= <[aligned := alloc_size]> |>)
  end.

(** [free(address)]: unknown addresses and 0 are ignored. *)
Definition free (address : Z) (h : HeapAllocator) : HeapAllocator :=
  if address =? 0 then h
  else match allocations_ h !! address with
       | Some freed_size =>
           add_free_block address freed_size (h <| allocations_ ::= delete address |>)
       | None => h
       end.

(** [realloc(address, new_size)], with the default alignment 16. *)
Definition realloc (address new_size : Z) (h : HeapAllocator) : Z * HeapAllocator :=
  if address =? 0 then allocate new_size 16 h
  else if new_size =? 0 then (0, free address h)
  else match allocations_ h !! address with
       | None => (0, h)
       | Some old_size =>
           if new_size <=? old_size then (address, h)
           else let '(new_addr, h1) := allocate new_size 16 h in
                if new_addr =? 0 then (0, h1) else (new_addr, free address h1)
       end.

(** [get_used]: the sum runs over an unordered container; [uint64_t] sum. *)
Definition get_used (h : HeapAllocator) : Z :=
  map_fold (fun _ s total => total ⊕ s) 0 (allocations_ h).

(** [get_allocation_size(address)]. *)
Definition get_allocation_size (address : Z) (h : HeapAllocator) : Z :=
  default 0 (allocations_ h !! address).

Definition get_allocation_count (h : HeapAllocator) : nat := size (allocations_ h).
Definition get_free_block_count (h : HeapAllocator) : nat := length (free_blocks_ h).
