(* ===== verification/HeapSpec.v ===== *)
(** Correctness of [HeapAllocator]: the representation invariant [heap_wf], its
    preservation by every operation, what each operation returns, and the
    refinement of an abstract allocator that only knows the live blocks. *)

From S2P Require Import Prelude OrdMap HeapAllocator.

(** * The representation invariant *)

(** Live and free blocks lie in [[base, high_water_mark)] and are pairwise
    disjoint, free blocks are never adjacent (coalescing is complete), and the
    two free indices hold the same blocks, each in its order. *)
Record heap_wf (h : HeapAllocator) : Prop := {
  wf_base : 0 < base_ h;
  wf_size : 0 <= size_ h;
  wf_top : base_ h + size_ h < two64;
  wf_hwm : base_ h <= high_water_mark_ h <= base_ h + size_ h;
  wf_alloc a s : allocations_ h !! a = Some s ->
    0 < s /\ base_ h <= a /\ a + s <= high_water_mark_ h;
  wf_free a s : (a, s) ∈ free_blocks_ h ->
    0 < s /\ base_ h <= a /\ a + s <= high_water_mark_ h;
  wf_alloc_alloc a s b t : allocations_ h !! a = Some s -> allocations_ h !! b = Some t ->
    a <> b -> disj a s b t;
  wf_alloc_free a s b t : allocations_ h !! a = Some s -> (b, t) ∈ free_blocks_ h ->
    disj a s b t;
  wf_free_free a s b t : (a, s) ∈ free_blocks_ h -> (b, t) ∈ free_blocks_ h ->
    a < b -> a + s < b;
  wf_by_addr : om_sorted (free_blocks_ h);
  wf_by_size : mm_sorted (free_blocks_by_size_ h);
  wf_index : free_blocks_by_size_ h ≡ₚ prod_swap <$> free_blocks_ h;
}.

(** A byte of the guest heap that belongs to a free block. *)
Definition free_at (h : HeapAllocator) (x : Z) : Prop :=
  exists a s, (a, s) ∈ free_blocks_ h /\ a <= x < a + s.

(** What [add_free_block] needs of the interval it is given. *)
Record addable (h : HeapAllocator) (a s : Z) : Prop := {
  add_pos : 0 < s;
  add_lo : base_ h <= a;
  add_hi : a + s <= high_water_mark_ h;
  add_free b t : (b, t) ∈ free_blocks_ h -> disj a s b t;
  add_alloc b t : allocations_ h !! b = Some t -> disj a s b t;
}.

Lemma index_swap h a s : heap_wf h ->
  (s, a) ∈ free_blocks_by_size_ h <-> (a, s) ∈ free_blocks_ h.
Proof.
  intros H. rewrite (wf_index h H), list_elem_of_fmap. split.
  - intros ([??] & [= -> ->] & ?). done.
  - intros. by exists (a, s).
Qed.

Lemma new_heap_wf base size :
  0 < base -> 0 <= size -> base + size < two64 -> heap_wf (new_heap base size).
Proof.
  intros. constructor; simpl; try done; try lia;
    try (by intros ???%elem_of_nil); try (by intros ????? ?%elem_of_nil);
    auto with shim; intros *; rewrite ?lookup_empty, ?elem_of_nil; try done.
Qed.

(** * The free-list primitives *)

Lemma elem_of_remove_free_block h a s x : heap_wf h -> (a, s) ∈ free_blocks_ h ->
  x ∈ free_blocks_ (remove_free_block a s h) <-> x ∈ free_blocks_ h /\ x <> (a, s).
Proof.
  intros H Hin. cbn. rewrite elem_of_om_erase by apply H.
  destruct x as [b t]; simpl. split.
  - intros [??]. split; [done|]. congruence.
  - intros [Hb Hne]. split; [|done]. intros ->. apply Hne. f_equal.
    eapply om_key_unique; [apply H|done..].
Qed.

Lemma remove_free_block_wf h a s : heap_wf h -> (a, s) ∈ free_blocks_ h ->
  heap_wf (remove_free_block a s h).
Proof.
  intros H Hin.
  assert (Hsub : forall b t, (b, t) ∈ free_blocks_ (remove_free_block a s h) ->
                             (b, t) ∈ free_blocks_ h).
  { intros b t. rewrite elem_of_remove_free_block by done. tauto. }
  constructor; try apply H.
  - intros b t Hb. apply (wf_free h H), Hsub, Hb.
  - intros b t c u Hb Hc. eapply (wf_alloc_free h H); [apply Hb|apply Hsub, Hc].
  - intros b t c u Hb Hc. eapply (wf_free_free h H); apply Hsub; eassumption.
  - apply om_sorted_erase, H.
  - apply mm_sorted_erase, H.
  - cbn. apply (Permutation_cons_inv (a := (s, a))).
    etrans; [symmetry; by apply mm_erase_perm, index_swap|].
    rewrite (wf_index h H).
    change ((s, a) :: (prod_swap <$> om_erase a (free_blocks_ h)))
      with (prod_swap <$> (a, s) :: om_erase a (free_blocks_ h)).
    apply fmap_Permutation, om_erase_perm; [done|apply H].
Qed.

(** Inserting a block that touches no free block keeps the invariant. *)
Lemma insert_free_block_wf h a s : heap_wf h -> addable h a s ->
  (forall b t, (b, t) ∈ free_blocks_ h -> a + s < b \/ b + t < a) ->
  heap_wf (insert_free_block a s h).
Proof.
  intros H Ha Hsep.
  assert (Hin : forall b t, (b, t) ∈ free_blocks_ (insert_free_block a s h) ->
                 (b, t) = (a, s) \/ (b, t) ∈ free_blocks_ h).
  { intros b t [?|[_ ?]]%elem_of_om_insert; [auto..|apply H]. }
  destruct Ha as [Hpos Hlo Hhi Hf Hal]. constructor; try apply H.
  - intros b t [?|Hb]%Hin; simplify_eq; [done|]. apply (wf_free h H _ _ Hb).
  - intros b t c u Hb [?|Hc]%Hin; simplify_eq; [apply disj_sym, Hal, Hb|].
    apply (wf_alloc_free h H _ _ _ _ Hb Hc).
  - intros b t c u [?|H1]%Hin [?|H2]%Hin ?; simplify_eq; try lia.
    + pose proof (Hsep _ _ H2). pose proof (wf_free h H _ _ H2). lia.
    + pose proof (Hsep _ _ H1). pose proof (wf_free h H _ _ H1). lia.
    + by apply (wf_free_free h H _ _ _ _ H1 H2).
  - apply om_sorted_insert, H.
  - apply mm_sorted_insert, H.
  - cbn. rewrite mm_insert_perm, om_insert_perm, (wf_index h H); [done| |apply H].
    apply om_find_None. intros v Hv. pose proof (Hsep _ _ Hv).
    pose proof (wf_free h H _ _ Hv). lia.
Qed.

Lemma free_at_insert h a s x : heap_wf h ->
  (forall b t, (b, t) ∈ free_blocks_ h -> b <> a) ->
  free_at (insert_free_block a s h) x <-> free_at h x \/ a <= x < a + s.
Proof.
  intros H Hne. unfold free_at. cbn.
  setoid_rewrite elem_of_om_insert; [|apply H]. simpl. split.
  - intros (b & t & [?|[_ ?]] & ?); simplify_eq; eauto.
  - intros [(b & t & ? & ?)|?]; [exists b, t|exists a, s]; naive_solver.
Qed.

Lemma free_at_remove h a s x : heap_wf h -> (a, s) ∈ free_blocks_ h ->
  free_at h x <-> free_at (remove_free_block a s h) x \/ a <= x < a + s.
Proof.
  intros H Hin. unfold free_at.
  setoid_rewrite elem_of_remove_free_block; [|done..]. split.
  - intros (b & t & ? & ?). destruct (decide ((b, t) = (a, s))); simplify_eq; eauto 6.
  - intros [(b & t & [??] & ?)|?]; eauto.
Qed.

(** * Coalescing *)

(** The parts of the state the free-list primitives leave alone. *)
Definition same_live (h h' : HeapAllocator) : Prop :=
  base_ h' = base_ h /\ size_ h' = size_ h /\
  high_water_mark_ h' = high_water_mark_ h /\ allocations_ h' = allocations_ h.

Lemma same_live_remove h a s : same_live h (remove_free_block a s h).
Proof. done. Qed.

Lemma same_live_trans h1 h2 h3 : same_live h1 h2 -> same_live h2 h3 -> same_live h1 h3.
Proof. unfold same_live. intuition congruence. Qed.

Lemma addable_remove h a s b t :
  heap_wf h -> addable h a s -> (b, t) ∈ free_blocks_ h ->
  addable (remove_free_block b t h) a s.
Proof.
  intros H [] Hin. constructor; try done.
  intros c u Hc. apply add_free0. apply elem_of_remove_free_block in Hc; tauto.
Qed.

(** Growing an interval by an adjacent free block, once that block is out. *)
Lemma addable_merge h a s b t lo len :
  heap_wf h -> addable h a s -> (b, t) ∈ free_blocks_ h ->
  (b + t = a /\ lo = b \/ a + s = b /\ lo = a) -> len = s + t ->
  addable (remove_free_block b t h) lo len.
Proof.
  intros H [Hp Hl Hh Hf Ha] Hin Hcase ->.
  destruct (wf_free h H _ _ Hin) as (Ht & Hlo & Hhi).
  constructor.
  - lia.
  - change (base_ h <= lo). lia.
  - change (lo + (s + t) <= high_water_mark_ h). lia.
  - intros c u [Hc Hne]%elem_of_remove_free_block; [|done..].
    pose proof (Hf _ _ Hc). pose proof (wf_free h H _ _ Hc).
    assert (disj b t c u).
    { destruct (Z.lt_trichotomy b c) as [Hlt|[->|Hlt]].
      - pose proof (wf_free_free h H _ _ _ _ Hin Hc Hlt). left; lia.
      - exfalso. apply Hne. f_equal. eapply om_key_unique; [apply H|done..].
      - pose proof (wf_free_free h H _ _ _ _ Hc Hin Hlt). right; lia. }
    unfold disj in *. lia.
  - intros c u Hc. pose proof (Ha _ _ Hc). pose proof (wf_alloc h H _ _ Hc).
    pose proof (wf_alloc_free h H _ _ _ _ Hc Hin). unfold disj in *. lia.
Qed.

Lemma coalesce_prev_spec h a s before after na ns h1 :
  heap_wf h -> addable h a s ->
  om_lower_bound a (free_blocks_ h) = (before, after) ->
  coalesce_prev before a s h = (na, ns, h1) ->
  heap_wf h1 /\ addable h1 na ns /\ same_live h h1 /\ na + ns = a + s /\
  (forall b t, (b, t) ∈ free_blocks_ h1 -> b < na -> b + t < na) /\
  (forall b t, (b, t) ∈ after -> (b, t) ∈ free_blocks_ h1 /\ na <= b) /\
  (forall b t, (b, t) ∈ free_blocks_ h1 -> na <= b -> (b, t) ∈ after) /\
  (forall x, free_at h1 x \/ na <= x < na + ns <-> free_at h x \/ a <= x < a + s).
Proof.
  intros H Hadd Hlb Hc.
  pose proof (om_lower_bound_app _ _ _ _ Hlb) as Happ.
  destruct (om_lower_bound_spec _ _ _ _ (wf_by_addr h H) Hlb) as [Hbef Haft].
  pose proof (wf_by_addr h H) as Hso. rewrite Happ in Hso.
  pose proof (wf_hwm h H). pose proof (wf_top h H). pose proof (wf_base h H).
  pose proof Hadd as [Hp Hl Hh Hf Hal].
  assert (Hno : forall b t, (b, t) ∈ free_blocks_ h -> (b, t) ∈ before \/ (b, t) ∈ after).
  { intros b t. rewrite Happ. by intros ?%elem_of_app. }
  assert (Hfree : forall b t, (b, t) ∈ before \/ (b, t) ∈ after -> (b, t) ∈ free_blocks_ h).
  { intros b t. rewrite Happ. intros. by apply elem_of_app. }
  assert (Hlast : forall b t, (b, t) ∈ before -> b + t <= a).
  { intros b t Hb. pose proof (Hbef _ _ Hb).
    pose proof (Hf _ _ (Hfree _ _ (or_introl Hb))). unfold disj in *. lia. }
  (** the branch without a merge *)
  assert (Hkeep : (forall b t, (b, t) ∈ before -> b + t <> a) ->
    heap_wf h /\ addable h a s /\ same_live h h /\ a + s = a + s /\
    (forall b t, (b, t) ∈ free_blocks_ h -> b < a -> b + t < a) /\
    (forall b t, (b, t) ∈ after -> (b, t) ∈ free_blocks_ h /\ a <= b) /\
    (forall b t, (b, t) ∈ free_blocks_ h -> a <= b -> (b, t) ∈ after) /\
    (forall x, free_at h x \/ a <= x < a + s <-> free_at h x \/ a <= x < a + s)).
  { intros Hne. split_and!; try done.
    - intros b t [Hb|Hb]%Hno ?; [|pose proof (Haft _ _ Hb); lia].
      pose proof (Hlast _ _ Hb). pose proof (Hne _ _ Hb). lia.
    - intros b t Hb. split; [auto|]. eauto.
    - intros b t [Hb|Hb]%Hno ?; [|done]. pose proof (Hbef _ _ Hb). lia. }
  unfold coalesce_prev in Hc. destruct (last before) as [[pa ps]|] eqn:Hlst.
  2: { apply last_None in Hlst as ->. simplify_eq. apply Hkeep. by intros ?? ?%elem_of_nil. }
  destruct (om_prev_greatest _ _ _ _ Hso Hlst) as [Hpin Hgreat].
  destruct (wf_free h H _ _ (Hfree _ _ (or_introl Hpin))) as (Hps & Hpl & Hph).
  assert (Hprev : forall b t, (b, t) ∈ free_blocks_ h -> b < pa -> b + t < pa).
  { intros b t Hb Hlt. eapply (wf_free_free h H); eauto. }
  rewrite (u64_small (pa + ps)) in Hc by u64_lia.
  destruct (Z.eqb_spec (pa + ps) a) as [Heq|Hne]; simplify_eq.
  2: { apply Hkeep. intros b t Hb ?. pose proof (Hgreat _ _ Hb).
       destruct (Z.eq_dec b pa) as [->|].
       - assert (t = ps) as -> by (eapply (om_key_unique _ pa); [apply H|auto..]). congruence.
       - pose proof (Hprev b t (Hfree _ _ (or_introl Hb)) ltac:(lia)). pose proof (Hbef _ _ Hpin). lia. }
  rewrite (u64_small (ps + s)) by u64_lia.
  assert (Hpin' := Hfree _ _ (or_introl Hpin)).
  split_and!; try done; try lia.
  - by apply remove_free_block_wf.
  - eapply addable_merge; eauto. lia.
  - intros b t [Hb _]%elem_of_remove_free_block ?; [|done..]. auto.
  - intros b t Hb. rewrite elem_of_remove_free_block by done.
    pose proof (Haft _ _ Hb). pose proof (Hbef _ _ Hpin). split; [split; [auto|]|lia].
    intros ?; simplify_eq. lia.
  - intros b t [Hb Hnb]%elem_of_remove_free_block ?; [|done..].
    apply Hno in Hb as [Hb|Hb]; [|done]. pose proof (Hgreat _ _ Hb).
    assert (b = na) as -> by lia. exfalso. apply Hnb. f_equal.
    eapply (om_key_unique _ na); [apply H|auto..].
  - intros x. rewrite (free_at_remove h na ps) by done. intuition lia.
Qed.

Lemma coalesce_next_spec h after na ns ns' h2 :
  heap_wf h -> addable h na ns -> om_sorted after ->
  (forall b t, (b, t) ∈ free_blocks_ h -> b < na -> b + t < na) ->
  (forall b t, (b, t) ∈ after -> (b, t) ∈ free_blocks_ h /\ na <= b) ->
  (forall b t, (b, t) ∈ free_blocks_ h -> na <= b -> (b, t) ∈ after) ->
  coalesce_next after na ns h = (ns', h2) ->
  heap_wf h2 /\ addable h2 na ns' /\ same_live h h2 /\
  (forall b t, (b, t) ∈ free_blocks_ h2 -> na + ns' < b \/ b + t < na) /\
  (forall x, free_at h2 x \/ na <= x < na + ns' <-> free_at h x \/ na <= x < na + ns).
Proof.
  intros H Hadd Hso Hleft Hin Hout Hc.
  pose proof (wf_hwm h H). pose proof (wf_top h H). pose proof (wf_base h H).
  pose proof Hadd as [Hp Hl Hh Hf Hal].
  destruct after as [|[xa xt] rest]; simpl in Hc.
  { simplify_eq. split_and!; try done. intros b t Hb.
    destruct (Z.lt_ge_cases b na) as [?|Hge]; [right; auto|].
    by apply (Hout _ _ Hb) in Hge as ?%elem_of_nil. }
  destruct (Hin xa xt) as [Hxin Hxge]; [set_solver|].
  destruct (wf_free h H _ _ Hxin) as (Hxt & Hxl & Hxh).
  apply om_sorted_cons in Hso as [Hso Hleast].
  rewrite (u64_small (na + ns)) in Hc by u64_lia.
  destruct (Z.eqb_spec (na + ns) xa) as [Heq|Hne].
  - injection Hc as <- <-. rewrite (u64_small (ns + xt)) by u64_lia.
    split_and!; try done.
    + by apply remove_free_block_wf.
    + eapply addable_merge; eauto.
    + intros b t [Hb Hnb]%elem_of_remove_free_block; [|done..].
      destruct (Z.lt_ge_cases b na) as [?|Hge]; [right; auto|].
      apply (Hout _ _ Hb) in Hge as [?|Hr]%elem_of_cons; [done|].
      pose proof (wf_free_free h H _ _ _ _ Hxin Hb (Hleast _ _ Hr)). lia.
    + intros x. rewrite (free_at_remove h xa xt) by done. intuition lia.
  - injection Hc as <- <-. split_and!; try done. intros b t Hb.
    destruct (Z.lt_ge_cases b na) as [?|Hge]; [right; auto|]. left.
    pose proof (Hf _ _ Hxin). unfold disj in *.
    apply (Hout _ _ Hb) in Hge as [?|Hr]%elem_of_cons; simplify_eq; [lia|].
    pose proof (Hleast _ _ Hr). lia.
Qed.

(** [add_free_block] keeps the invariant and the live blocks, and adds exactly
    the bytes of the block it is given to the free ones. *)
Lemma add_free_block_spec h a s :
  heap_wf h -> addable h a s ->
  heap_wf (add_free_block a s h) /\ same_live h (add_free_block a s h) /\
  (forall x, free_at (add_free_block a s h) x <-> free_at h x \/ a <= x < a + s).
Proof.
  intros H Hadd. unfold add_free_block.
  destruct (om_lower_bound a (free_blocks_ h)) as [before after] eqn:Hlb.
  destruct (coalesce_prev before a s h) as [[na ns] h1] eqn:Hp.
  destruct (coalesce_prev_spec _ _ _ _ _ _ _ _ H Hadd Hlb Hp)
    as (H1 & Ha1 & Hs1 & _ & Hl1 & Hin1 & Hout1 & Hcov1).
  destruct (coalesce_next after na ns h1) as [ns' h2] eqn:Hn.
  assert (Hso : om_sorted after).
  { pose proof (wf_by_addr h H) as Hw. rewrite (om_lower_bound_app _ _ _ _ Hlb) in Hw.
    by apply om_sorted_app in Hw as (_ & ? & _). }
  destruct (coalesce_next_spec _ _ _ _ _ _ H1 Ha1 Hso Hl1 Hin1 Hout1 Hn)
    as (H2 & Ha2 & Hs2 & Hsep & Hcov2).
  split_and!.
  - by apply insert_free_block_wf.
  - eapply same_live_trans; [apply Hs1|]. apply Hs2.
  - intros x. rewrite free_at_insert; [rewrite Hcov2; apply Hcov1|done|].
    intros b t Hb ->. pose proof (Hsep _ _ Hb). pose proof (wf_free _ H2 _ _ Hb).
    pose proof (add_pos _ _ _ Ha2). lia.
Qed.

(** * Allocation *)

Lemma aligned_up_spec x a :
  pow2 a -> 0 <= x -> x + a <= two64 ->
  (a | aligned_up x a) /\ x <= aligned_up x a < x + a.
Proof.
  intros Ha Hx Hb. destruct (align_up_mask x a Ha Hx Hb) as (q & Hq & ?).
  unfold aligned_up. rewrite Hq. split; [|done]. exists q. lia.
Qed.

(** The request cannot wrap around: what the code leaves unchecked. *)
Definition no_wrap (h : HeapAllocator) (n alignment : Z) : Prop :=
  0 <= n /\ base_ h + size_ h + n + alignment <= two64.

Lemma find_block_spec l n al bs ba aligned padding :
  find_block l n al = Some (bs, ba, aligned, padding) ->
  (bs, ba) ∈ l /\ aligned = aligned_up ba al /\ padding = aligned ⊖ ba /\ n ⊕ padding <= bs.
Proof.
  induction l as [|[bs0 ba0] l IH]; simpl; [done|].
  destruct (Z.leb_spec (n ⊕ (aligned_up ba0 al ⊖ ba0)) bs0).
  - intros ?; simplify_eq. split_and!; [set_solver|done..].
  - intros (?&?)%IH. split; [set_solver|done].
Qed.

Lemma find_block_None l n al :
  find_block l n al = None <->
  forall bs ba, (bs, ba) ∈ l -> bs < n ⊕ (aligned_up ba al ⊖ ba).
Proof.
  induction l as [|[bs0 ba0] l IH]; simpl.
  { split; [|done]. by intros _ ?? ?%elem_of_nil. }
  destruct (Z.leb_spec (n ⊕ (aligned_up ba0 al ⊖ ba0)) bs0) as [Hle|Hgt].
  - split; [done|]. intros Hall. pose proof (Hall bs0 ba0 ltac:(set_solver)). lia.
  - rewrite IH. split.
    + intros Hall bs ba [?|?]%elem_of_cons; simplify_eq; auto.
    + intros Hall bs ba ?. apply Hall. set_solver.
Qed.

Lemma addable_intro h a s :
  heap_wf h -> 0 < s -> base_ h <= a -> a + s <= high_water_mark_ h ->
  (forall x, a <= x < a + s -> ~ free_at h x) ->
  (forall b t, allocations_ h !! b = Some t -> disj a s b t) -> addable h a s.
Proof.
  intros H Hs Hlo Hhi Hno Hal. constructor; try done.
  intros b t Hb. destruct (wf_free h H _ _ Hb) as (Ht & _ & _).
  unfold disj. destruct (decide (a + s <= b)) as [|Hn1]; [lia|].
  destruct (decide (b + t <= a)) as [|Hn2]; [lia|]. exfalso.
  apply (Hno (Z.max a b)); [lia|]. exists b, t. split; [done|]. lia.
Qed.

(** A free block is itself an addable interval once it has been taken out. *)
Lemma addable_taken h a s :
  heap_wf h -> (a, s) ∈ free_blocks_ h ->
  forall x, a <= x < a + s -> ~ free_at (remove_free_block a s h) x.
Proof.
  intros H Hin x Hx (b & t & [Hb Hne]%elem_of_remove_free_block & Hbx); [|done..].
  destruct (Z.lt_trichotomy a b) as [Hlt|[->|Hlt]].
  - pose proof (wf_free_free h H _ _ _ _ Hin Hb Hlt). lia.
  - apply Hne. f_equal. eapply (om_key_unique _ b); [apply H|done..].
  - pose proof (wf_free_free h H _ _ _ _ Hb Hin Hlt). lia.
Qed.

Lemma insert_alloc_wf h a n :
  heap_wf h -> 0 < n -> base_ h <= a -> a + n <= high_water_mark_ h ->
  (forall x, a <= x < a + n -> ~ free_at h x) ->
  (forall b t, allocations_ h !! b = Some t -> disj a n b t) ->
  heap_wf (h <| allocations_ ::= <[a := n]> |>).
Proof.
  intros H Hn Hlo Hhi Hno Hal.
  pose proof (addable_intro h a n H Hn Hlo Hhi Hno Hal) as [_ _ _ Hf _].
  constructor; try apply H; cbn.
  - intros b t [[-> <-]|[? Hb]]%lookup_insert_Some; [done|]. apply (wf_alloc h H _ _ Hb).
  - intros b t c u [[-> <-]|[? Hb]]%lookup_insert_Some [[-> <-]|[? Hc]]%lookup_insert_Some ?;
      [done|by apply Hal|by apply disj_sym, Hal|by apply (wf_alloc_alloc h H)].
  - intros b t c u [[-> <-]|[? Hb]]%lookup_insert_Some Hc; [by apply Hf|].
    by apply (wf_alloc_free h H _ _ _ _ Hb).
Qed.

Lemma raise_hwm_wf h m :
  heap_wf h -> high_water_mark_ h <= m <= base_ h + size_ h ->
  heap_wf (h <| high_water_mark_ := m |>).
Proof.
  intros H Hm. pose proof (wf_hwm h H). constructor; try apply H; cbn.
  - lia.
  - intros a s Ha%(wf_alloc h H). lia.
  - intros a s Ha%(wf_free h H). lia.
Qed.

(** The size actually reserved. *)
Definition request (n : Z) : Z := if n =? 0 then 1 else n.

Lemma request_pos n : 0 <= n -> 0 < request n.
Proof. unfold request. destruct (Z.eqb_spec n 0); lia. Qed.

(** What a successful allocation of [n] bytes at [r] leaves behind. *)
Record allocated (h h' : HeapAllocator) (r n al : Z) : Prop := {
  al_aligned : (al | r);
  al_lo : base_ h <= r;
  al_hi : r + n <= base_ h + size_ h;
  al_fresh b t : allocations_ h !! b = Some t -> disj r n b t;
  al_live : allocations_ h' = <[r := n]> (allocations_ h);
  al_free x : free_at h' x -> free_at h x;
  al_kept x : free_at h x -> free_at h' x \/ r <= x < r + n + 15;
  al_from : (high_water_mark_ h' = high_water_mark_ h /\ forall x, r <= x < r + n -> free_at h x) \/
    (high_water_mark_ h' = r + n /\ high_water_mark_ h <= r < high_water_mark_ h + al);
}.

(** A leftover piece is returned to the free list when the code keeps it. *)
Lemma give_back_spec h a s (keep : bool) :
  heap_wf h -> (keep = true -> addable h a s) ->
  let h' := if keep then add_free_block a s h else h in
  heap_wf h' /\ same_live h h' /\
  (forall x, free_at h' x -> free_at h x \/ a <= x < a + s) /\
  (forall x, free_at h x \/ keep = true /\ a <= x < a + s -> free_at h' x).
Proof.
  intros H Hadd. destruct keep.
  - destruct (add_free_block_spec h a s H (Hadd eq_refl)) as (? & ? & Hx).
    split_and!; [done..| |]; intros x; rewrite Hx; naive_solver.
  - split_and!; auto; [done|]. intros x [?|[[=] _]]. done.
Qed.

Lemma allocate_from_block h n al bs ba :
  heap_wf h -> pow2 al -> 0 < n -> no_wrap h n al -> (ba, bs) ∈ free_blocks_ h ->
  let aligned := aligned_up ba al in
  let padding := aligned ⊖ ba in
  n ⊕ padding <= bs ->
  let h1 := remove_free_block ba bs h in
  let h2 := if 0 <? padding then add_free_block ba padding h1 else h1 in
  let remaining := bs ⊖ n ⊖ padding in
  let h3 := if 16 <=? remaining then add_free_block (aligned ⊕ n) remaining h2 else h2 in
  let h' := h3 <| allocations_ ::= <[aligned := n]> |> in
  heap_wf h' /\ base_ h' = base_ h /\ size_ h' = size_ h /\ allocated h h' aligned n al.
Proof.
  intros H Hal Hn [_ Hnw] Hin ad padding Hfit h1.
  destruct (wf_free h H _ _ Hin) as (Hbs & Hlo & Hhi).
  pose proof (wf_hwm h H). pose proof (wf_top h H). pose proof (wf_base h H).
  pose proof (pow2_pos al Hal).
  destruct (aligned_up_spec ba al Hal) as [Hdiv Had]; [lia..|]. fold ad in Hdiv, Had.
  assert (Hpad : padding = ad - ba) by (apply u64_small; u64_lia).
  rewrite Hpad in *. rewrite (u64_small (n + (ad - ba))) in Hfit by u64_lia.
  rewrite (u64_small (bs - n)), (u64_small (bs - n - (ad - ba))), (u64_small (ad + n)) by u64_lia.
  assert (Hw1 : heap_wf h1) by by apply remove_free_block_wf.
  pose proof (addable_taken h ba bs H Hin) as Hgone. fold h1 in Hgone.
  assert (Hdis : forall a s, ba <= a -> a + s <= ba + bs ->
            forall b t, allocations_ h !! b = Some t -> disj a s b t).
  { intros a s ?? b t Hb. pose proof (wf_alloc_free h H _ _ _ _ Hb Hin).
    unfold disj in *. lia. }
  destruct (give_back_spec h1 ba (ad - ba) (0 <? ad - ba) Hw1)
    as (Hw2 & (Hb2 & Hz2 & Hh2 & Ha2) & Hf2 & Hg2).
  { intros ?%Z.ltb_lt. apply addable_intro; [done|lia|done|cbn; lia|..].
    - intros x ?. apply Hgone. lia.
    - apply Hdis; lia. }
  intros h2 remaining.
  destruct (give_back_spec h2 (ad + n) remaining (16 <=? remaining) Hw2)
    as (Hw3 & (Hb3 & Hz3 & Hh3 & Ha3) & Hf3 & Hg3).
  { unfold remaining. intros ?%Z.leb_le.
    apply addable_intro; unfold h2; rewrite ?Hb2, ?Hh2, ?Ha2; [done|lia|cbn; lia|cbn; lia|..].
    - intros x ? [?|?]%Hf2; [|lia]. eapply Hgone; [|done]. lia.
    - apply Hdis; lia. }
  intros h3 h'. fold h3 in Hw3, Hb3, Hz3, Hh3, Ha3, Hf3, Hg3. fold h2 in Hb2, Hz2, Hh2, Ha2.
  assert (Hf : forall x, free_at h3 x -> free_at h1 x \/ ba <= x < ad \/ ad + n <= x < ba + bs).
  { intros x [[?|?]%Hf2|?]%Hf3; unfold remaining in *; intuition lia. }
  assert (Hal3 : allocations_ h3 = allocations_ h) by (by rewrite Ha3, Ha2).
  split_and!; [|cbn; by rewrite Hb3, Hb2|cbn; by rewrite Hz3, Hz2|].
  - apply insert_alloc_wf; rewrite ?Hb3, ?Hb2, ?Hh3, ?Hh2, ?Hal3; [done|lia|cbn; lia|cbn; lia|..].
    + intros x ? [?|?]%Hf; [|lia]. eapply Hgone; [|done]. lia.
    + apply Hdis; lia.
  - constructor; [done|lia|lia|apply Hdis; lia|cbn; by rewrite Hal3|..].
    + intros x Hx%Hf. rewrite (free_at_remove h ba bs) by done.
      destruct Hx as [?|?]; [by left|right; lia].
    + intros x Hx. change (free_at h' x) with (free_at h3 x).
      rewrite (free_at_remove h ba bs) in Hx by done. destruct Hx as [Hx|Hx].
      { left. apply Hg3. left. apply Hg2. by left. }
      destruct (decide (x < ad)); [left; apply Hg3; left; apply Hg2; right; split; [apply Z.ltb_lt|]; lia|].
      destruct (decide (x < ad + n + 15)); [right; lia|]. left. apply Hg3. right. unfold remaining.
      split; [apply Z.leb_le|]; lia.
    + left. split; [cbn; by rewrite Hh3, Hh2|]. intros x Hx. exists ba, bs. split; [done|]. lia.
Qed.

Lemma allocate_from_top h n al :
  heap_wf h -> pow2 al -> 0 < n -> no_wrap h n al ->
  let aligned := aligned_up (high_water_mark_ h) al in
  aligned ⊕ n <= base_ h ⊕ size_ h ->
  let h' := h <| high_water_mark_ := aligned ⊕ n |> <| allocations_ ::= <[aligned := n]> |> in
  heap_wf h' /\ allocated h h' aligned n al.
Proof.
  intros H Hal Hn [_ Hnw] ad Hfit h'.
  pose proof (wf_hwm h H). pose proof (wf_top h H). pose proof (wf_base h H).
  pose proof (pow2_pos al Hal).
  destruct (aligned_up_spec (high_water_mark_ h) al Hal) as [Hdiv Had]; [lia..|].
  fold ad in Hdiv, Had. unfold h'.
  rewrite (u64_small (ad + n)) in * by u64_lia.
  rewrite (u64_small (base_ h + size_ h)) in Hfit by u64_lia.
  assert (Hdis : forall b t, allocations_ h !! b = Some t -> disj ad n b t).
  { intros b t Hb%(wf_alloc h H). unfold disj. lia. }
  split.
  - apply insert_alloc_wf; [apply raise_hwm_wf; [done|lia]|done|cbn; lia|cbn; lia| |done].
    intros x ? (b & t & Hb & ?). apply (wf_free h H) in Hb. lia.
  - constructor; [done|lia|lia|done|done|auto..|]. right. cbn. lia.
Qed.

Lemma allocate_cases h n0 al r h' :
  heap_wf h -> pow2 al -> 0 <= n0 -> no_wrap h (request n0) al ->
  allocate n0 al h = (r, h') ->
  heap_wf h' /\ base_ h' = base_ h /\ size_ h' = size_ h /\
  (r = 0 /\ h' = h \/ r <> 0 /\ allocated h h' r (request n0) al).
Proof.
  intros H Hal Hn0 Hnw. unfold allocate. fold (request n0).
  pose proof (request_pos n0 Hn0) as Hn. pose proof (wf_base h H).
  destruct (find_block _ _ _) as [[[[bs ba] ad] pad]|] eqn:Hfind.
  - apply find_block_spec in Hfind as (Hin & -> & -> & Hfit). intros [= <- <-].
    apply elem_of_mm_lower_bound in Hin as [Hin _]; [|apply H].
    apply index_swap in Hin; [|done].
    destruct (allocate_from_block h _ al bs ba H Hal Hn Hnw Hin Hfit) as (? & ? & ? & Ha).
    split_and!; [done..|]. right. split; [|done]. pose proof (al_lo _ _ _ _ _ Ha). lia.
  - destruct (Z.ltb_spec (base_ h ⊕ size_ h)
      (aligned_up (high_water_mark_ h) al ⊕ request n0)) as [|Hfit]; intros [= <- <-].
    { split_and!; auto. }
    destruct (allocate_from_top h _ al H Hal Hn Hnw Hfit) as [? Ha].
    split_and!; [done..|]. right. split; [|done]. pose proof (al_lo _ _ _ _ _ Ha). lia.
Qed.

Lemma free_cases h a :
  heap_wf h ->
  heap_wf (free a h) /\ base_ (free a h) = base_ h /\ size_ (free a h) = size_ h /\
  high_water_mark_ (free a h) = high_water_mark_ h /\
  allocations_ (free a h) = delete a (allocations_ h) /\
  (forall x, free_at (free a h) x <->
     free_at h x \/ exists s, allocations_ h !! a = Some s /\ a <= x < a + s).
Proof.
  intros H. unfold free.
  assert (Hno : allocations_ h !! a = None ->
    heap_wf h /\ base_ h = base_ h /\ size_ h = size_ h /\
    high_water_mark_ h = high_water_mark_ h /\ allocations_ h = delete a (allocations_ h) /\
    (forall x, free_at h x <-> free_at h x \/ exists s, allocations_ h !! a = Some s /\ a <= x < a + s)).
  { intros Hn. split_and!; try done; [by rewrite delete_id|].
    intros x. rewrite Hn. naive_solver. }
  destruct (Z.eqb_spec a 0) as [->|].
  { apply Hno. destruct (allocations_ h !! 0) eqn:E; [|done].
    apply (wf_alloc h H) in E. pose proof (wf_base h H). lia. }
  destruct (allocations_ h !! a) as [s|] eqn:Ha; [|by apply Hno].
  set (h1 := h <| allocations_ ::= delete a |>).
  destruct (wf_alloc h H _ _ Ha) as (Hs & Hlo & Hhi).
  assert (H1 : heap_wf h1).
  { constructor; try apply H; cbn.
    - intros b t [_ Hb]%lookup_delete_Some. apply (wf_alloc h H _ _ Hb).
    - intros b t c u [_ Hb]%lookup_delete_Some [_ Hc]%lookup_delete_Some.
      by apply (wf_alloc_alloc h H).
    - intros b t c u [_ Hb]%lookup_delete_Some. by apply (wf_alloc_free h H). }
  destruct (add_free_block_spec h1 a s H1) as (Hw & (? & ? & ? & ?) & Hx).
  { constructor; [done..| |].
    - intros b t Hb. by apply (wf_alloc_free h H).
    - cbn. intros b t [? Hb]%lookup_delete_Some. apply (wf_alloc_alloc h H); auto. }
  split_and!; try done. intros x. rewrite Hx. split; [|naive_solver].
  intros [?|?]; [by left|]. right. eauto.
Qed.

(** * Properties *)

(** On a well-formed heap, an allocation whose size does not wrap around the
    64-bit address space keeps the heap well-formed (live and free blocks
    pairwise disjoint and in range, both free indices in agreement, free blocks
    coalesced), and either fails with 0 and changes nothing, or returns a
    non-null address that is a multiple of the alignment, whose block lies in
    the heap and meets no live block, and records exactly that block as live. *)
Theorem allocate_sound h n al r h' :
  heap_wf h -> pow2 al -> 0 <= n -> no_wrap h (request n) al ->
  allocate n al h = (r, h') ->
  heap_wf h' /\
  ((r = 0 /\ h' = h) \/
   (r <> 0 /\ (al | r) /\ base_ h <= r /\ r + request n <= base_ h + size_ h /\
    (forall b t, allocations_ h !! b = Some t -> disj r (request n) b t) /\
    allocations_ h' = <[r := request n]> (allocations_ h))).
Proof.
  intros H Hal Hn Hnw Ha.
  destruct (allocate_cases _ _ _ _ _ H Hal Hn Hnw Ha) as (? & ? & ? & [?|[? []]]);
    (split; [done|]); [by left|right]. by split_and!.
Qed.

(** A small heap in use: one live block between two free ones. *)
Definition demo_heap : HeapAllocator :=
  let '(p1, h1) := allocate 0x40 16 (new_heap 0x60000000 0x10000000) in
  let '(_, h2) := allocate 0x20 16 h1 in
  free p1 h2.

Lemma pow2_16 : pow2 16.
Proof. exists 4. split; [lia|reflexivity]. Qed.

Lemma demo_heap_wf : heap_wf demo_heap.
Proof.
  assert (H0 : heap_wf (new_heap 0x60000000 0x10000000)) by (apply new_heap_wf; u64_lia).
  unfold demo_heap.
  destruct (allocate 0x40 16 _) as [p1 h1] eqn:E1.
  apply allocate_cases in E1 as (H1 & Hb1 & Hs1 & _);
    [|done|apply pow2_16|lia|split; cbn; u64_lia].
  destruct (allocate 0x20 16 h1) as [p2 h2] eqn:E2.
  apply allocate_cases in E2 as (H2 & _);
    [|done|apply pow2_16|lia|split; rewrite ?Hb1, ?Hs1; cbn; u64_lia].
  by apply free_cases.
Qed.

Lemma allocate_sound_witness :
  heap_wf (allocate 0x18 16 demo_heap).2 /\
  (allocate 0x18 16 demo_heap).1 = 0x60000000.
Proof.
  split; [|vm_compute; reflexivity].
  apply (allocate_sound demo_heap 0x18 16 (allocate 0x18 16 demo_heap).1);
    [apply demo_heap_wf|apply pow2_16|lia|split; vm_compute; congruence|].
  apply surjective_pairing.
Defined.

(** An allocation fails only when it has to: if 0 is returned, no free
    block can hold the request once its start is aligned, and the space above
    the high water mark is too small. *)
Theorem allocate_complete h n al h' :
  heap_wf h -> pow2 al -> 0 <= n -> no_wrap h (request n) al ->
  allocate n al h = (0, h') ->
  (forall a s, (a, s) ∈ free_blocks_ h -> a + s < aligned_up a al + request n) /\
  base_ h + size_ h < aligned_up (high_water_mark_ h) al + request n.
Proof.
  intros H Hal Hn0 Hnw Hall. destruct Hnw as [_ Hnw]. pose proof (pow2_pos al Hal).
  pose proof (wf_hwm h H). pose proof (wf_top h H). pose proof (wf_base h H).
  pose proof (request_pos n Hn0) as Hn.
  unfold allocate in Hall. fold (request n) in Hall.
  destruct (find_block _ _ _) as [[[[bs ba] ad] pad]|] eqn:Hfind.
  { apply find_block_spec in Hfind as (Hin & -> & _). simplify_eq.
    apply elem_of_mm_lower_bound in Hin as [Hin _]; [|apply H].
    apply index_swap, (wf_free h H) in Hin; [|done].
    destruct (aligned_up_spec ba al Hal) as [_ ?]; lia. }
  rewrite find_block_None in Hfind.
  destruct (aligned_up_spec (high_water_mark_ h) al Hal) as [_ Ht]; [lia..|].
  destruct (Z.ltb_spec (base_ h ⊕ size_ h)
      (aligned_up (high_water_mark_ h) al ⊕ request n)) as [Hlt|]; simplify_eq; [|lia].
  rewrite (u64_small (aligned_up _ _ + _)), (u64_small (base_ h' + size_ h')) in Hlt by u64_lia.
  split; [|lia]. intros a s Hin. pose proof (wf_free h' H _ _ Hin).
  destruct (aligned_up_spec a al Hal) as [_ Ha]; [lia..|].
  destruct (Z.lt_ge_cases s (request n)); [lia|].
  assert (Hin2 : (s, a) ∈ mm_lower_bound (request n) (free_blocks_by_size_ h')).
  { apply elem_of_mm_lower_bound; [apply H|]. split; [by apply index_swap|done]. }
  pose proof (Hfind _ _ Hin2) as Hb.
  rewrite (u64_small (aligned_up a al - a)) in Hb by u64_lia.
  rewrite (u64_small (request n + _)) in Hb by u64_lia. lia.
Qed.

Lemma allocate_complete_witness :
  base_ demo_heap + size_ demo_heap <
  aligned_up (high_water_mark_ demo_heap) 16 + request 0x10000000.
Proof.
  refine (proj2 (allocate_complete demo_heap 0x10000000 16 demo_heap demo_heap_wf pow2_16 _ _ _));
    [lia|split; vm_compute; congruence|vm_compute; reflexivity].
Defined.

(** The size index gives best fit: when a free block is chosen, every
    strictly smaller free block is too small for the (aligned) request. *)
Theorem allocate_best_fit h n al bs ba ad pad :
  heap_wf h -> pow2 al -> 0 <= n -> no_wrap h (request n) al ->
  find_block (mm_lower_bound (request n) (free_blocks_by_size_ h)) (request n) al
    = Some (bs, ba, ad, pad) ->
  (ba, bs) ∈ free_blocks_ h /\
  forall a s, (a, s) ∈ free_blocks_ h -> s < bs -> a + s < aligned_up a al + request n.
Proof.
  intros H Hal Hn0 [_ Hnw] Hfind. pose proof (pow2_pos al Hal).
  pose proof (wf_hwm h H). pose proof (wf_top h H). pose proof (wf_base h H).
  pose proof (request_pos n Hn0) as Hn.
  pose proof (find_block_spec _ _ _ _ _ _ _ Hfind) as (Hin & _).
  apply elem_of_mm_lower_bound in Hin as [Hin _]; [|apply H].
  split; [by apply index_swap|]. intros a s Ha Hlt.
  pose proof (wf_free h H _ _ Ha).
  destruct (aligned_up_spec a al Hal) as [_ Hup]; [lia..|].
  destruct (Z.lt_ge_cases s (request n)); [lia|].
  assert (Hs : (s, a) ∈ mm_lower_bound (request n) (free_blocks_by_size_ h)).
  { apply elem_of_mm_lower_bound; [apply H|]. split; [by apply index_swap|done]. }
  assert (Hso := mm_sorted_lower_bound (request n) _ (wf_by_size h H)).
  revert Hs Hso Hfind. generalize (mm_lower_bound (request n) (free_blocks_by_size_ h)).
  induction l as [|[bs0 ba0] l IH]; simpl; [by intros ?%elem_of_nil|].
  intros Hs [Hso Hle]%mm_sorted_cons.
  destruct (Z.leb_spec (request n ⊕ (aligned_up ba0 al ⊖ ba0)) bs0) as [|Hbig].
  - intros [= -> -> _ _]. apply elem_of_cons in Hs as [?|Hs]; simplify_eq; [lia|].
    pose proof (Hle _ _ Hs). lia.
  - apply elem_of_cons in Hs as [?|Hs]; simplify_eq; [|by apply IH].
    rewrite (u64_small (aligned_up ba0 al - ba0)) in Hbig by u64_lia.
    rewrite (u64_small (request n + _)) in Hbig by u64_lia. lia.
Qed.

Lemma allocate_best_fit_witness : (0x60000000, 0x40) ∈ free_blocks_ demo_heap.
Proof.
  refine (proj1 (allocate_best_fit demo_heap 0x18 16 0x40 0x60000000 0x60000000 0
    demo_heap_wf pow2_16 _ _ _)); [lia|split; vm_compute; congruence|vm_compute; reflexivity].
Defined.

(** Freeing keeps the heap well-formed; a live block's bytes all become
    free again (and nothing else does) and the block is no longer live, while
    freeing 0 or an address that is not the start of a live block (a double
    free, say) changes neither the live blocks nor the free bytes. *)
Theorem free_sound h a :
  heap_wf h ->
  heap_wf (free a h) /\
  allocations_ (free a h) = delete a (allocations_ h) /\
  (forall x, free_at (free a h) x <->
     free_at h x \/ exists s, allocations_ h !! a = Some s /\ a <= x < a + s) /\
  (allocations_ h !! a = None -> free a h = h).
Proof.
  intros H. destruct (free_cases h a H) as (? & ? & ? & ? & ? & Hx).
  split_and!; [done..|]. intros Hn. unfold free. rewrite Hn. by destruct (a =? 0).
Qed.

Lemma free_sound_witness :
  heap_wf (free 0x60000040 demo_heap) /\
  free_blocks_ (free 0x60000040 demo_heap) = [(0x60000000, 0x60)].
Proof.
  split; [apply (free_sound demo_heap 0x60000040 demo_heap_wf)|vm_compute; reflexivity].
Defined.

(** [realloc] on every branch: null allocates, size 0 frees, an unknown
    address fails, shrinking keeps the block where it is, and growing either
    fails leaving the old block live, or yields a fresh block disjoint from
    every live block (the old one included) and retires the old one.  The heap
    stays well-formed throughout. *)
Theorem realloc_sound h a n r h' :
  heap_wf h -> 0 <= n -> no_wrap h (request n) 16 -> realloc a n h = (r, h') ->
  heap_wf h' /\
  (a = 0 -> allocate n 16 h = (r, h')) /\
  (a <> 0 -> n = 0 -> r = 0 /\ h' = free a h) /\
  (a <> 0 -> n <> 0 -> allocations_ h !! a = None -> r = 0 /\ h' = h) /\
  (forall s, a <> 0 -> n <> 0 -> allocations_ h !! a = Some s ->
     (n <= s -> r = a /\ h' = h) /\
     (s < n -> r = 0 /\ h' = h \/
        r <> 0 /\ (16 | r) /\ (forall b t, allocations_ h !! b = Some t -> disj r n b t) /\
        allocations_ h' = delete a (<[r := n]> (allocations_ h)))).
Proof.
  intros H Hn Hnw Hr. unfold realloc in Hr.
  destruct (Z.eqb_spec a 0) as [->|Ha].
  { split_and!; try done. by eapply allocate_cases; eauto using pow2_16. }
  destruct (Z.eqb_spec n 0) as [->|Hn0].
  { simplify_eq. split_and!; try done. by apply free_cases. }
  destruct (allocations_ h !! a) as [s|] eqn:Hs; [|by simplify_eq].
  destruct (Z.leb_spec n s).
  { simplify_eq. split_and!; try done. intros ? _ _ [= <-]. split; [done|lia]. }
  destruct (allocate n 16 h) as [r1 h1] eqn:E.
  destruct (allocate_cases _ _ _ _ _ H pow2_16 Hn Hnw E) as (H1 & _ & _ & Hc).
  assert (Hreq : request n = n) by (unfold request; by destruct (Z.eqb_spec n 0)).
  rewrite Hreq in Hc.
  destruct (Z.eqb_spec r1 0) as [->|Hr1]; simplify_eq.
  - destruct Hc as [[_ ->]|[? _]]; [|done]. split_and!; try done.
    intros ? _ _ [= <-]. split; [lia|auto].
  - destruct Hc as [[? _]|[_ Hal]]; [done|].
    destruct (free_cases h1 a H1) as (? & _ & _ & _ & Hd & _).
    split_and!; try done. intros ? _ _ [= <-]. split; [lia|]. intros _. right.
    rewrite Hd, (al_live _ _ _ _ _ Hal). split_and!; try done; apply Hal.
Qed.

Lemma realloc_sound_witness :
  heap_wf (realloc 0x60000040 0x80 demo_heap).2 /\
  (realloc 0x60000040 0x80 demo_heap).1 = 0x60000060.
Proof.
  split; [|vm_compute; reflexivity].
  apply (realloc_sound demo_heap 0x60000040 0x80 (realloc 0x60000040 0x80 demo_heap).1);
    [apply demo_heap_wf|lia|split; vm_compute; congruence|apply surjective_pairing].
Defined.

(** * Refinement of the abstract allocator *)

(** What the allocator promises its clients, with the arguments and the result of every
    call: a set of live blocks, the bytes that were given back and may be used again,
    and the end of the part of the heap that was ever in use. *)
Record AbsHeap := { ah_live : gmap Z Z; ah_free : Z -> Prop; ah_top : Z }.

Definition abs_empty (lo : Z) : AbsHeap := {| ah_live := ∅; ah_free _ := False; ah_top := lo |}.

Definition abs_same (A A' : AbsHeap) : Prop :=
  ah_live A' = ah_live A /\ (forall x, ah_free A' x <-> ah_free A x) /\ ah_top A' = ah_top A.

(** A request is refused only if neither a run of free bytes nor the space behind the used
    part has room for it at a multiple of the alignment. *)
Definition abs_full (hi n al : Z) (A : AbsHeap) : Prop :=
  (forall x, (al | x) -> ~ (forall y, x <= y < x + n -> ah_free A y)) /\
  (forall x, (al | x) -> ah_top A <= x -> hi < x + n).

(** A block of [n] bytes at [r]: aligned, inside the heap, clear of every live block; made
    of free bytes, or from the space behind the used part with less than [al] bytes
    skipped.  Other free bytes stay free, but for at most 15 behind the block. *)
Record abs_take (lo hi n al r : Z) (A A' : AbsHeap) : Prop := {
  at_aligned : (al | r);
  at_range : lo <= r /\ r + n <= hi;
  at_fresh b t : ah_live A !! b = Some t -> disj r n b t;
  at_live : ah_live A' = <[r := n]> (ah_live A);
  at_free x : ah_free A' x -> ah_free A x /\ ~ (r <= x < r + n);
  at_kept x : ah_free A x -> ah_free A' x \/ r <= x < r + n + 15;
  at_from : (ah_top A' = ah_top A /\ forall x, r <= x < r + n -> ah_free A x) \/
    (ah_top A' = r + n /\ ah_top A <= r < ah_top A + al);
}.

Definition abs_alloc (lo hi n al r : Z) (A A' : AbsHeap) : Prop :=
  (r = 0 /\ abs_full hi (request n) al A /\ abs_same A A') \/
  (r <> 0 /\ abs_take lo hi (request n) al r A A').

(** The block at [a], if there is one, is given back, all of it. *)
Definition abs_freed (a : Z) (A A' : AbsHeap) : Prop :=
  ah_live A' = delete a (ah_live A) /\
  (forall x, ah_free A' x <-> ah_free A x \/ exists n, ah_live A !! a = Some n /\ a <= x < a + n) /\
  ah_top A' = ah_top A.

(** The calls, with their results. *)
Inductive heap_call := HAllocate (n al r : Z) | HFree (a : Z) | HRealloc (a n r : Z).

Inductive abs_step (lo hi : Z) : heap_call -> AbsHeap -> AbsHeap -> Prop :=
| abs_allocate n al r A A' : abs_alloc lo hi n al r A A' -> abs_step lo hi (HAllocate n al r) A A'
| abs_free a A A' : abs_freed a A A' -> abs_step lo hi (HFree a) A A'
| abs_realloc_null n r A A' : abs_alloc lo hi n 16 r A A' -> abs_step lo hi (HRealloc 0 n r) A A'
| abs_realloc_zero a A A' : a <> 0 -> abs_freed a A A' -> abs_step lo hi (HRealloc a 0 0) A A'
| abs_realloc_unknown a n A A' : a <> 0 -> n <> 0 -> ah_live A !! a = None -> abs_same A A' ->
    abs_step lo hi (HRealloc a n 0) A A'
| abs_realloc_keep a n s A A' : a <> 0 -> n <> 0 -> ah_live A !! a = Some s -> n <= s -> abs_same A A' ->
    abs_step lo hi (HRealloc a n a) A A'
| abs_realloc_fail a n s A A' : a <> 0 -> n <> 0 -> ah_live A !! a = Some s -> s < n ->
    abs_alloc lo hi n 16 0 A A' -> abs_step lo hi (HRealloc a n 0) A A'
| abs_realloc_move a n s r A A1 A' : a <> 0 -> n <> 0 -> ah_live A !! a = Some s -> s < n -> r <> 0 ->
    abs_alloc lo hi n 16 r A A1 -> abs_freed a A1 A' -> abs_step lo hi (HRealloc a n r) A A'.

(** One call of a public operation whose size argument does not wrap. *)
Inductive heap_step : heap_call -> HeapAllocator -> HeapAllocator -> Prop :=
| step_allocate n al r h h' :
    pow2 al -> 0 <= n -> no_wrap h (request n) al ->
    allocate n al h = (r, h') -> heap_step (HAllocate n al r) h h'
| step_free a h : heap_step (HFree a) h (free a h)
| step_realloc a n r h h' :
    0 <= n -> no_wrap h (request n) 16 -> realloc a n h = (r, h') -> heap_step (HRealloc a n r) h h'.

(** Sequences of calls. *)
Inductive calls {S} (step : heap_call -> S -> S -> Prop) : list heap_call -> S -> S -> Prop :=
| calls_nil s : calls step [] s s
| calls_snoc cs c s s1 s2 : calls step cs s s1 -> step c s1 s2 -> calls step (cs ++ [c]) s s2.

(** What an allocator in use stands for. *)
Definition abs_of (h : HeapAllocator) : AbsHeap :=
  {| ah_live := allocations_ h; ah_free := free_at h; ah_top := high_water_mark_ h |}.

Lemma abs_same_refl A : abs_same A A.
Proof. done. Qed.

(** A run of free bytes lies in one free block, because neighbours are merged. *)
Lemma free_run h x n : heap_wf h -> 0 < n -> (forall y, x <= y < x + n -> free_at h y) ->
  exists a s, (a, s) ∈ free_blocks_ h /\ a <= x /\ x + n <= a + s.
Proof.
  intros H Hn Hall. destruct (Hall x) as (a & s & Ha & Hx); [lia|]. exists a, s. split_and!; [done|lia|].
  destruct (decide (x + n <= a + s)) as [|Hgt]; [done|exfalso].
  destruct (Hall (a + s)) as (b & t & Hb & Hy); [lia|].
  destruct (Z.lt_trichotomy a b) as [Hlt|[->|Hlt]].
  - pose proof (wf_free_free h H _ _ _ _ Ha Hb Hlt). lia.
  - assert (s = t) as -> by (eapply (om_key_unique _ b); [apply H|done..]). lia.
  - pose proof (wf_free_free h H _ _ _ _ Hb Ha Hlt). lia.
Qed.

Lemma aligned_up_least x al y : pow2 al -> 0 <= x -> x + al <= two64 -> (al | y) -> x <= y -> aligned_up x al <= y.
Proof.
  intros Hal Hx Hb [j ->] Hy. destruct (aligned_up_spec x al Hal Hx Hb) as [[k ->] Hk]. pose proof (pow2_pos al Hal).
  assert (k < j + 1) by (apply (Zmult_lt_reg_r _ _ al); lia). apply Z.mul_le_mono_nonneg_r; lia.
Qed.

Lemma allocate_refines h n al r h' :
  heap_wf h -> pow2 al -> 0 <= n -> no_wrap h (request n) al ->
  allocate n al h = (r, h') ->
  abs_alloc (base_ h) (base_ h + size_ h) n al r (abs_of h) (abs_of h').
Proof.
  intros H Hal Hn Hnw Ha. pose proof (request_pos n Hn). pose proof (wf_base h H). pose proof (wf_hwm h H).
  pose proof (wf_top h H). pose proof (pow2_pos al Hal).
  destruct (allocate_cases _ _ _ _ _ H Hal Hn Hnw Ha) as (H' & _ & _ & [[-> ->]|[Hr [C1 C2 C3 C4 C5 C6 C7 C8]]]).
  - left. split_and!; [done| |done]. destruct (allocate_complete h n al h H Hal Hn Hnw Ha) as [Hf Ht].
    destruct Hnw as [_ Hnw]. split.
    + intros x Hd Hall. destruct (free_run h x (request n) H) as (a & s & Hin & Hlo & Hhi); [done|done|].
      pose proof (Hf a s Hin). destruct (wf_free h H _ _ Hin) as (? & ? & ?).
      pose proof (aligned_up_least a al x Hal ltac:(lia) ltac:(lia) Hd Hlo). lia.
    + cbn. intros x Hd Hx. pose proof (aligned_up_least (high_water_mark_ h) al x Hal ltac:(lia) ltac:(lia) Hd Hx). lia.
  - right. split; [done|]. constructor; cbn; try done.
    intros x Hx. split; [by apply C6|]. intros Hin. destruct Hx as (b & t & Hb & Hx).
    pose proof (wf_alloc_free h' H' r (request n) b t) as Hd. rewrite C5, lookup_insert_eq in Hd.
    specialize (Hd eq_refl Hb). unfold disj in Hd. lia.
Qed.

Lemma free_refines h a : heap_wf h -> abs_freed a (abs_of h) (abs_of (free a h)).
Proof. intros H. destruct (free_cases h a H) as (_ & _ & _ & ? & ? & ?). by split_and!. Qed.

Lemma heap_step_refines c h h' :
  heap_wf h -> heap_step c h h' ->
  heap_wf h' /\ base_ h' = base_ h /\ size_ h' = size_ h /\
  abs_step (base_ h) (base_ h + size_ h) c (abs_of h) (abs_of h').
Proof.
  intros H Hs. destruct Hs as [n al r h h' Hal Hn Hnw Ha|a h|a n r h h' Hn Hnw Hr].
  - destruct (allocate_cases _ _ _ _ _ H Hal Hn Hnw Ha) as (? & ? & ? & _).
    split_and!; [done..|]. by apply abs_allocate, allocate_refines.
  - destruct (free_cases h a H) as (? & ? & ? & _). split_and!; [done..|]. by apply abs_free, free_refines.
  - unfold realloc in Hr. destruct (Z.eqb_spec a 0) as [->|Ha].
    { destruct (allocate_cases _ _ _ _ _ H pow2_16 Hn Hnw Hr) as (? & ? & ? & _).
      split_and!; [done..|]. apply abs_realloc_null, allocate_refines; auto using pow2_16. }
    destruct (Z.eqb_spec n 0) as [->|Hn0].
    { simplify_eq. destruct (free_cases h a H) as (? & ? & ? & _). split_and!; [done..|].
      by apply abs_realloc_zero, free_refines. }
    destruct (allocations_ h !! a) as [s|] eqn:Hs; [|simplify_eq; split_and!; [done..|by apply abs_realloc_unknown]].
    destruct (Z.leb_spec n s); [simplify_eq; split_and!; [done..|by eapply abs_realloc_keep]|].
    destruct (allocate n 16 h) as [r1 h1] eqn:E.
    destruct (allocate_cases _ _ _ _ _ H pow2_16 Hn Hnw E) as (H1 & Hb1 & Hs1 & _).
    pose proof (allocate_refines _ _ _ _ _ H pow2_16 Hn Hnw E) as Hal.
    destruct (Z.eqb_spec r1 0) as [->|]; simplify_eq; [split_and!; [done..|by eapply abs_realloc_fail]|].
    destruct (free_cases h1 a H1) as (? & ? & ? & _). split_and!; [done|congruence..|].
    eapply abs_realloc_move; [done..|exact Hal|]. by apply free_refines.
Qed.

(** What stands for the same allocator does the same steps. *)
Lemma abs_step_same lo hi c A B A' : abs_same A B -> abs_step lo hi c B A' -> abs_step lo hi c A A'.
Proof.
  intros (E1 & E2 & E3).
  assert (Hsame : forall C, abs_same B C -> abs_same A C).
  { intros C (F1 & F2 & F3). split_and!; [congruence| |congruence]. intros x. by rewrite F2. }
  assert (Hal : forall n al r C, abs_alloc lo hi n al r B C -> abs_alloc lo hi n al r A C).
  { intros n al r C [(Hr & [F1 F2] & Hs)|(Hr & [F1 F2 F3 F4 F5 F6 F7])]; [left|right].
    - split_and!; [done| |by apply Hsame]. split; [|by rewrite <- E3]. intros x Hd Hall. apply (F1 x Hd). intros y Hy. by apply E2, Hall.
    - split; [done|]. constructor; [done|done|by rewrite <- E1|by rewrite <- E1|..].
      + intros x Hx. rewrite <- E2. by apply F5.
      + intros x Hx. apply F6. by apply E2.
      + rewrite <- E3. destruct F7 as [[F7 F8]|]; [left|by right]. split; [done|]. intros x Hx. by apply E2, F8. }
  assert (Hfr : forall a C, abs_freed a B C -> abs_freed a A C).
  { intros a C (F1 & F2 & F3). split_and!; [congruence| |congruence]. intros x. rewrite F2, E2, E1. done. }
  destruct 1; rewrite ?E1 in *.
  - by apply abs_allocate, Hal.
  - by apply abs_free, Hfr.
  - by apply abs_realloc_null, Hal.
  - by apply abs_realloc_zero, Hfr.
  - by apply abs_realloc_unknown, Hsame.
  - by eapply abs_realloc_keep, Hsame.
  - by eapply abs_realloc_fail, Hal.
  - eapply abs_realloc_move; [done..|by apply Hal|done].
Qed.

(** C12: Refinement. Any sequence of allocate, free and realloc calls on a new heap (no
    size wrapping around) keeps the heap well-formed, and the same calls with the same
    results are possible for an abstract allocator.  There, an allocation returns a block
    of the requested size (at least a byte) at a multiple of the requested alignment,
    inside the heap and clear of every live block, made of free bytes or of the space
    behind the used part; it returns 0, changing nothing, only if neither has room for
    it.  Freeing makes exactly the bytes of the block free again.  Reallocation allocates
    for a null pointer, frees for size 0, refuses an unknown pointer, keeps a block that
    is large enough, and else moves or, if there is no room, fails and keeps the block.
    No free byte is lost but up to 15 behind a block that is allocated.  The abstract
    allocator ends with the live blocks and free bytes of the real one. *)
Theorem heap_refines_spec base size cs h :
  0 < base -> 0 <= size -> base + size < two64 ->
  calls heap_step cs (new_heap base size) h ->
  heap_wf h /\ exists A, calls (abs_step base (base + size)) cs (abs_empty base) A /\
    ah_live A = allocations_ h /\ (forall x, ah_free A x <-> free_at h x) /\ ah_top A = high_water_mark_ h.
Proof.
  intros H1 H2 H3 Hcalls.
  assert (Hgen : heap_wf h /\ base_ h = base /\ size_ h = size /\
    exists A, calls (abs_step base (base + size)) cs (abs_empty base) A /\ abs_same (abs_of h) A); [|naive_solver].
  remember (new_heap base size) as h0 eqn:E0. induction Hcalls as [h|cs c h h1 h2 Hcs IH Hstep]; subst h.
  { split_and!; [by apply new_heap_wf|done..|]. exists (abs_empty base). split; [constructor|]. split_and!; [done| |done].
    intros x. split; [done|]. by intros (a & s & ?%elem_of_nil & _). }
  destruct (IH eq_refl) as (Hw & Hb & Hs & A & HA & HS).
  destruct (heap_step_refines _ _ _ Hw Hstep) as (? & ? & ? & Hst). rewrite Hb, Hs in Hst.
  split_and!; [done|congruence..|]. exists (abs_of h2). split; [|apply abs_same_refl].
  eapply calls_snoc; [exact HA|]. eapply abs_step_same; [|exact Hst].
  destruct HS as (F1 & F2 & F3). split_and!; [done| |done]. intros x. by rewrite F2.
Qed.

(** A block is allocated, freed and used again; a request that is too large fails. *)
Lemma heap_refines_spec_witness : exists h A,
  calls heap_step [HAllocate 0x40 16 0x60000000; HFree 0x60000000; HAllocate 0x18 16 0x60000000; HAllocate 0x10000000 16 0]
    (new_heap 0x60000000 0x10000000) h /\
  calls (abs_step 0x60000000 0x70000000)
    [HAllocate 0x40 16 0x60000000; HFree 0x60000000; HAllocate 0x18 16 0x60000000; HAllocate 0x10000000 16 0]
    (abs_empty 0x60000000) A /\ ah_live A = {[0x60000000 := 0x18]}.
Proof.
  assert (Hc : exists h, calls heap_step
    [HAllocate 0x40 16 0x60000000; HFree 0x60000000; HAllocate 0x18 16 0x60000000; HAllocate 0x10000000 16 0]
    (new_heap 0x60000000 0x10000000) h /\ allocations_ h = {[0x60000000 := 0x18]}).
  { eexists. split.
    - apply (calls_snoc _ [_; _; _] _ _ (allocate 0x18 16 (free 0x60000000 (allocate 0x40 16 (new_heap 0x60000000 0x10000000)).2)).2).
      + apply (calls_snoc _ [_; _] _ _ (free 0x60000000 (allocate 0x40 16 (new_heap 0x60000000 0x10000000)).2)).
        * apply (calls_snoc _ [_] _ _ (allocate 0x40 16 (new_heap 0x60000000 0x10000000)).2); [|apply step_free].
          apply (calls_snoc _ [] _ _ (new_heap 0x60000000 0x10000000)); [constructor|].
          apply step_allocate; [apply pow2_16|lia|split; vm_compute; congruence|vm_compute; reflexivity].
        * apply step_allocate; [apply pow2_16|lia|split; vm_compute; congruence|vm_compute; reflexivity].
      + apply step_allocate; [apply pow2_16|lia|split; vm_compute; congruence|vm_compute; reflexivity].
    - vm_compute. reflexivity. }
  destruct Hc as (h & Hc & Hl). exists h.
  destruct (heap_refines_spec 0x60000000 0x10000000 _ h ltac:(lia) ltac:(lia) ltac:(u64_lia) Hc) as (_ & A & HA & HlA & _).
  exists A. split_and!; [exact Hc|exact HA|congruence].
Defined.

(** * Defects *)

(** The overflow the no-wrap hypothesis excludes is real: with one live
    block in the heap, a request of 2^64 - 256 bytes passes the space check
    because [aligned + alloc_size] wraps, moves the high water mark back to the
    heap's base, and the next allocation returns the address of the block that
    is still live. *)
Theorem allocate_size_wrap :
  let '(p1, h1) := allocate 0x100 16 (new_heap 0x60000000 0x10000000) in
  let '(p2, h2) := allocate (two64 - 0x100) 16 h1 in
  let '(p3, h3) := allocate 0x40 16 h2 in
  p2 <> 0 /\ high_water_mark_ h2 < high_water_mark_ h1 /\
  allocations_ h2 !! p1 = Some 0x100 /\ p3 = p1.
Proof. vm_compute. split_and!; congruence. Qed.

(** A remainder of fewer than 16 bytes is dropped: after carving 16 bytes
    out of a 24-byte free block and freeing them again, only 16 of the 24 bytes
    are free, and the other 8 belong to no live and no free block. *)
Theorem allocate_drops_remainder :
  let '(p1, h1) := allocate 24 16 (new_heap 0x60000000 0x10000000) in
  let '(_, h2) := allocate 16 16 h1 in
  let h3 := free p1 h2 in
  let '(p3, h4) := allocate 16 16 h3 in
  free_blocks_ h3 = [(p1, 24)] /\ p3 = p1 /\ free_blocks_ (free p3 h4) = [(p1, 16)] /\
  get_used h2 = 40 /\ get_used (free p3 h4) = 16.
Proof. vm_compute. split_and!; reflexivity. Qed.
