(* ===== verification/Env.v ===== *)
(** The boundary of the program: what CrossShim calls but does not contain.
    QEMU's CPU state and guest memory (include/qemu_api.h declares the C
    functions), the host kernel and the host clocks.  [env] is the state of all
    of it; every call may change it, so successive calls may answer
    differently.  The [*Laws] classes state the documented behaviour individual
    properties rely on; [Ref*] below is a small concrete instance. *)

From S2P Require Import Prelude.

Class Env := {
  env : Type;

  (** [get_current_cpu] / [libafl_qemu_current_cpu] / [libafl_qemu_get_cpu(0)]
      yield a CPU. *)
  has_cpu : env -> bool;
  (** [qemu::read_reg], [qemu::write_reg]: 64-bit register access by index. *)
  read_reg : Z -> env -> Z;
  write_reg : Z -> Z -> env -> env;
  (** [qemu::read_reg_bytes], [qemu::write_reg_bytes] of a 128-bit V register as
      two 64-bit halves. *)
  read_vreg : Z -> env -> Z * Z;
  write_vreg : Z -> Z * Z -> env -> env;
  (** [cpu_memory_rw_debug(cpu, addr, buf, len, 0)]: the bytes, or an error. *)
  rw_debug_read : Z -> Z -> env -> option (list Z);
  (** [cpu_memory_rw_debug(cpu, addr, buf, len, 1)]: success, and the guest
      memory afterwards (a failing call may have written some pages). *)
  rw_debug_write : Z -> list Z -> env -> bool * env;
  (** [target_mmap(addr, len, prot, MAP_PRIVATE|MAP_ANONYMOUS|MAP_FIXED, -1, 0)]. *)
  target_mmap : Z -> Z -> Z -> env -> Z * env;

  (** [mmap(nullptr, len, ...)] for host memory ([None] is [MAP_FAILED]) and
      [munmap]. *)
  host_mmap : Z -> env -> option Z * env;
  host_munmap : Z -> Z -> env -> env;

  (** [std::chrono::steady_clock::now()] in nanoseconds. *)
  steady_now : env -> Z * env;
  (** [std::this_thread::sleep_for] of a number of milliseconds. *)
  sleep_ms : Z -> env -> env;
  (** [poll] of one descriptor with a zero timeout: return value, [revents]. *)
  poll_fd : Z -> Z -> env -> Z * Z * env;

  (** The order in which a [std::unordered_map] with these keys is walked. *)
  walk_order : list Z -> env -> list Z;
}.

#[global] Arguments env {_}.

(** Register access of include/emu_compat.h: no CPU reads as 0 and ignores
    writes. *)
Definition get_reg `{Env} (r : Z) (e : env) : Z := if has_cpu e then read_reg r e else 0.
Definition set_reg `{Env} (r v : Z) (e : env) : env := if has_cpu e then write_reg r v e else e.
Definition get_vreg `{Env} (r : Z) (e : env) : Z * Z := if has_cpu e then read_vreg r e else (0, 0).
Definition set_vreg `{Env} (r : Z) (v : Z * Z) (e : env) : env :=
  if has_cpu e then write_vreg r v e else e.

(** Register numbers (enum of include/qemu_api.h). [REG_LR] is [REG_X30]. *)
Definition REG_X (i : Z) : Z := i.
Definition REG_X0 : Z := 0.
Definition REG_X1 : Z := 1.
Definition REG_X18 : Z := 18.
Definition REG_LR : Z := 30.
Definition REG_SP : Z := 31.
Definition REG_PC : Z := 32.
Definition REG_CPSR : Z := 33.
Definition REG_V (i : Z) : Z := 34 + i.
Definition REG_FPSR : Z := 66.
Definition REG_FPCR : Z := 67.
Definition REG_TPIDR_EL0 : Z := 68.

(** A register file: what is written is what is read, register by register.
    [reg_ok r v] says that register [r] can hold [v]; the floating-point status
    and control registers are 32 bits wide. *)
Class RegLaws (E : Env) := {
  reg_ok : Z -> Z -> Prop;
  read_reg_ok r e : reg_ok r (read_reg r e);
  reg_ok_fp r v : r = REG_FPCR \/ r = REG_FPSR -> reg_ok r v -> 0 <= v < two32;
  read_write_reg r v e : reg_ok r v -> read_reg r (write_reg r v e) = v;
  read_write_reg_ne r r' v e : r <> r' -> read_reg r (write_reg r' v e) = read_reg r e;
  read_write_vreg r v e : read_vreg r (write_vreg r v e) = v;
  read_write_vreg_ne r r' v e : r <> r' -> read_vreg r (write_vreg r' v e) = read_vreg r e;
  read_reg_write_vreg r r' v e : read_reg r (write_vreg r' v e) = read_reg r e;
  read_vreg_write_reg r r' v e : read_vreg r (write_reg r' v e) = read_vreg r e;
  has_cpu_write_reg r v e : has_cpu (write_reg r v e) = has_cpu e;
  has_cpu_write_vreg r v e : has_cpu (write_vreg r v e) = has_cpu e;
}.

(** Guest memory behind [cpu_memory_rw_debug] is memory: a successful write is
    read back, whole or in part, and leaves disjoint ranges alone; a fixed
    mapping that succeeds can be written as a whole (the debug access ignores
    page protection) and does not touch other ranges.  None of it changes the set of CPUs. *)
Class GuestMemLaws (E : Env) := {
  rw_read_write a bs e e' : rw_debug_write a bs e = (true, e') ->
    rw_debug_read a (Z.of_nat (length bs)) e' = Some bs;
  rw_read_write_disj a bs b m e ok e' : rw_debug_write a bs e = (ok, e') ->
    disj a (Z.of_nat (length bs)) b m -> rw_debug_read b m e' = rw_debug_read b m e;
  rw_read_sub a n b m bs e : rw_debug_read a n e = Some bs ->
    a <= b -> 0 <= m -> b + m <= a + n ->
    rw_debug_read b m e = Some (take (Z.to_nat m) (drop (Z.to_nat (b - a)) bs));
  mmap_write a n p bs e e' : target_mmap a n p e = (a, e') -> Z.of_nat (length bs) = n ->
    (rw_debug_write a bs e').1 = true;
  mmap_read_disj a n p b m e : disj a n b m ->
    rw_debug_read b m (target_mmap a n p e).2 = rw_debug_read b m e;
  has_cpu_rw_write a bs e : has_cpu (rw_debug_write a bs e).2 = has_cpu e;
  has_cpu_target_mmap a n p e : has_cpu (target_mmap a n p e).2 = has_cpu e;
}.

(** Host mappings: [mmap] hands out non-null blocks of the address space that
    meet no block still held; [munmap] releases no other block. *)
Class HostMapLaws (E : Env) := {
  host_blocks : env -> list (Z * Z);
  host_mmap_fresh n e p e' : host_mmap n e = (Some p, e') ->
    0 < n /\ 0 < p /\ p + n < two64 /\
    (forall q m, (q, m) ∈ host_blocks e -> disj p n q m) /\
    host_blocks e' = (p, n) :: host_blocks e;
  host_mmap_fail n e e' : host_mmap n e = (None, e') -> host_blocks e' = host_blocks e;
  host_munmap_keeps p n q m e : (q, m) ∈ host_blocks e -> disj p n q m -> 0 < m ->
    (q, m) ∈ host_blocks (host_munmap p n e);
  host_blocks_target_mmap a n p e : host_blocks (target_mmap a n p e).2 = host_blocks e;
  host_blocks_rw_write a bs e : host_blocks (rw_debug_write a bs e).2 = host_blocks e;
  has_cpu_host_mmap n e : has_cpu (host_mmap n e).2 = has_cpu e;
  has_cpu_host_munmap p n e : has_cpu (host_munmap p n e) = has_cpu e;
}.

(** Walking a hash map visits every key once. *)
Class WalkLaws (E : Env) := {
  walk_order_perm ks e : walk_order ks e ≡ₚ ks;
}.

(** * A concrete boundary *)

(** Registers as maps, guest memory as a map of accessible bytes, host memory
    from a bump allocator, a clock that advances by one millisecond per
    reading, descriptors that are ready when listed. *)
Record RefState := {
  ref_regs : gmap Z Z;
  ref_vregs : gmap Z (Z * Z);
  ref_cpu : bool;
  ref_mem : gmap Z Z;
  ref_blocks : list (Z * Z);
  ref_next : Z;
  ref_clock : Z;
  ref_ready : list Z;
}.

Definition ref_init : RefState :=
  {| ref_regs := ∅; ref_vregs := ∅; ref_cpu := true; ref_mem := ∅; ref_blocks := [];
     ref_next := 0x700000000000; ref_clock := 0; ref_ready := [] |}.

Definition eta_ref (s : RefState) : RefState :=
  Build_RefState (ref_regs s) (ref_vregs s) (ref_cpu s) (ref_mem s) (ref_blocks s)
    (ref_next s) (ref_clock s) (ref_ready s).
#[export] Instance set_ref_regs : Setter ref_regs := ltac:(build_setter eta_ref ref_regs).
#[export] Instance set_ref_vregs : Setter ref_vregs := ltac:(build_setter eta_ref ref_vregs).
#[export] Instance set_ref_cpu : Setter ref_cpu := ltac:(build_setter eta_ref ref_cpu).
#[export] Instance set_ref_mem : Setter ref_mem := ltac:(build_setter eta_ref ref_mem).
#[export] Instance set_ref_blocks : Setter ref_blocks := ltac:(build_setter eta_ref ref_blocks).
#[export] Instance set_ref_next : Setter ref_next := ltac:(build_setter eta_ref ref_next).
#[export] Instance set_ref_clock : Setter ref_clock := ltac:(build_setter eta_ref ref_clock).
#[export] Instance set_ref_ready : Setter ref_ready := ltac:(build_setter eta_ref ref_ready).

(** All bytes of a guest range are accessible. *)
Definition ref_accessible (m : gmap Z Z) (a : Z) (n : nat) : bool :=
  forallb (fun i => bool_decide (is_Some (m !! (a + Z.of_nat i)))) (seq 0 n).

Definition ref_load (m : gmap Z Z) (a : Z) (n : nat) : list Z :=
  map (fun i => default 0 (m !! (a + Z.of_nat i))) (seq 0 n).

Fixpoint ref_store (m : gmap Z Z) (a : Z) (bs : list Z) : gmap Z Z :=
  match bs with [] => m | b :: t => <[a := b]> (ref_store m (a + 1) t) end.

(** The width of a register. *)
Definition ref_trunc (r v : Z) : Z := if (r =? REG_FPCR) || (r =? REG_FPSR) then u32 v else v.

#[export] Instance RefEnv : Env := {|
  env := RefState;
  has_cpu := ref_cpu;
  read_reg r s := ref_trunc r (default 0 (ref_regs s !! r));
  write_reg r v s := s <| ref_regs ::= <[r := v]> |>;
  read_vreg r s := default (0, 0) (ref_vregs s !! r);
  write_vreg r v s := s <| ref_vregs ::= <[r := v]> |>;
  rw_debug_read a n s :=
    if ref_accessible (ref_mem s) a (Z.to_nat n)
    then Some (ref_load (ref_mem s) a (Z.to_nat n)) else None;
  rw_debug_write a bs s :=
    if ref_accessible (ref_mem s) a (length bs)
    then (true, s <| ref_mem ::= fun m => ref_store m a bs |>) else (false, s);
  target_mmap a n _ s :=
    (a, s <| ref_mem ::= fun m => ref_store m a (replicate (Z.to_nat n) 0) |>);
  host_mmap n s :=
    if (0 <? n) && (0 <? ref_next s) && (ref_next s + n <? two64)
       && forallb (fun '(q, m) => q + m <=? ref_next s) (ref_blocks s)
    then (Some (ref_next s),
          s <| ref_blocks ::= cons (ref_next s, n) |> <| ref_next := ref_next s + n |>)
    else (None, s);
  host_munmap p n s := s <| ref_blocks ::= filter (fun b => b <> (p, n)) |>;
  steady_now s := (ref_clock s, s <| ref_clock ::= Z.add 1000000 |>);
  sleep_ms ms s := s <| ref_clock ::= Z.add (ms * 1000000) |>;
  poll_fd fd ev s := if bool_decide (fd ∈ ref_ready s) then (1, ev, s) else (0, 0, s);
  walk_order ks _ := ks;
|}.

Lemma lookup_ref_store m a bs x :
  ref_store m a bs !! x =
    if decide (a <= x < a + Z.of_nat (length bs)) then bs !! Z.to_nat (x - a) else m !! x.
Proof.
  revert a; induction bs as [|b bs IH]; intros a; simpl.
  { by rewrite decide_False by lia. }
  destruct (decide (x = a)) as [->|Hne].
  - rewrite lookup_insert_eq, decide_True by lia. by rewrite Z.sub_diag.
  - rewrite lookup_insert_ne, IH by done.
    repeat destruct (decide _); try lia; [|done].
    replace (Z.to_nat (x - a)) with (S (Z.to_nat (x - (a + 1)))) by lia. done.
Qed.

Lemma ref_accessible_spec m a n :
  ref_accessible m a n = true <->
  forall x, a <= x < a + Z.of_nat n -> is_Some (m !! x).
Proof.
  unfold ref_accessible. rewrite forallb_forall. split.
  - intros H x Hx. specialize (H (Z.to_nat (x - a))).
    rewrite bool_decide_eq_true in H. replace x with (a + Z.of_nat (Z.to_nat (x - a))) by lia.
    apply H, in_seq. lia.
  - intros H i [_ Hi]%in_seq. apply bool_decide_eq_true, H. lia.
Qed.

Lemma ref_load_ext m m' a n :
  (forall x, a <= x < a + Z.of_nat n -> m !! x = m' !! x) -> ref_load m a n = ref_load m' a n.
Proof. intros H. apply map_ext_in. intros i [_ Hi]%in_seq. rewrite H; [done|lia]. Qed.

Lemma ref_accessible_ext m m' a n :
  (forall x, a <= x < a + Z.of_nat n -> m !! x = m' !! x) ->
  ref_accessible m a n = ref_accessible m' a n.
Proof.
  intros H. apply eq_true_iff_eq. rewrite !ref_accessible_spec.
  split; intros H' x Hx; specialize (H' x Hx); [rewrite <- H by done|rewrite H by done]; done.
Qed.

Lemma lookup_ref_load m a n i : (i < n)%nat ->
  ref_load m a n !! i = Some (default 0 (m !! (a + Z.of_nat i))).
Proof. intros H. unfold ref_load. by rewrite list_lookup_fmap, lookup_seq_lt. Qed.

Lemma length_ref_load m a n : length (ref_load m a n) = n.
Proof. unfold ref_load. by rewrite length_map, length_seq. Qed.

Lemma ref_load_store m a bs : ref_load (ref_store m a bs) a (length bs) = bs.
Proof.
  apply list_eq. intros i. destruct (decide (i < length bs)%nat) as [Hi|Hi].
  - rewrite lookup_ref_load, lookup_ref_store, decide_True by lia.
    replace (Z.to_nat (a + Z.of_nat i - a)) with i by lia.
    by destruct (lookup_lt_is_Some_2 bs i Hi) as [b ->].
  - rewrite !lookup_ge_None_2; rewrite ?length_ref_load; lia || done.
Qed.

Lemma ref_accessible_store m a bs b n :
  ref_accessible m b n = true -> ref_accessible (ref_store m a bs) b n = true.
Proof.
  rewrite !ref_accessible_spec. intros H x Hx. rewrite lookup_ref_store.
  destruct (decide _); [|auto]. apply lookup_lt_is_Some_2. lia.
Qed.

Lemma ref_accessible_stored m a bs n : n = length bs ->
  ref_accessible (ref_store m a bs) a n = true.
Proof.
  intros ->. apply ref_accessible_spec. intros x Hx. rewrite lookup_ref_store, decide_True by done.
  apply lookup_lt_is_Some_2. lia.
Qed.

Lemma ref_load_sub m a n b k : a <= b -> b + Z.of_nat k <= a + Z.of_nat n ->
  ref_load m b k = take k (drop (Z.to_nat (b - a)) (ref_load m a n)).
Proof.
  intros ??. apply list_eq. intros i. destruct (decide (i < k)%nat).
  - rewrite lookup_take_lt, lookup_drop, !lookup_ref_load by lia. do 3 f_equal. lia.
  - rewrite lookup_take_ge by lia. apply lookup_ge_None_2. rewrite length_ref_load. lia.
Qed.

#[export] Instance RefRegLaws : RegLaws RefEnv.
Proof.
  refine {| reg_ok := fun r v => ref_trunc r v = v |}; cbn; intros; try done.
  - unfold ref_trunc. destruct (_ || _); [|done]. unfold u32. by rewrite Zmod_mod.
  - unfold ref_trunc in *.
    replace ((r =? REG_FPCR) || (r =? REG_FPSR)) with true in * by (destruct H as [-> | ->]; done).
    rewrite <- H0. apply Z.mod_pos_bound. done.
  - by rewrite lookup_insert_eq.
  - by rewrite lookup_insert_ne by congruence.
  - by rewrite lookup_insert_eq.
  - by rewrite lookup_insert_ne by congruence.
Defined.

#[export] Instance RefGuestMemLaws : GuestMemLaws RefEnv.
Proof.
  constructor; cbn.
  - intros a bs e e'. destruct (ref_accessible _ _ _) eqn:H; [|done]. intros [= <-]; cbn.
    rewrite Nat2Z.id, ref_load_store, ref_accessible_stored by done. done.
  - intros a bs b m e ok e'.
    destruct (ref_accessible _ a _) eqn:H; intros [= <- <-] Hd; cbn; [|done].
    assert (Hx : forall x, b <= x < b + Z.of_nat (Z.to_nat m) ->
              ref_store (ref_mem e) a bs !! x = ref_mem e !! x).
    { intros x Hx. rewrite lookup_ref_store, decide_False; [done|]. unfold disj in Hd. lia. }
    by rewrite (ref_accessible_ext _ _ _ _ Hx), (ref_load_ext _ _ _ _ Hx).
  - intros a n b m bs e. destruct (ref_accessible _ a _) eqn:H; [|done]. intros [= <-] ???.
    rewrite (proj2 (ref_accessible_spec _ b _)).
    + f_equal. apply ref_load_sub; lia.
    + intros x Hx. apply (proj1 (ref_accessible_spec _ _ _) H). lia.
  - intros a n p bs e e' [= <-] <-; cbn. rewrite (ref_accessible_stored _ a); [done|].
    by rewrite length_replicate, Nat2Z.id.
  - intros a n p b m e Hd.
    assert (Hx : forall x, b <= x < b + Z.of_nat (Z.to_nat m) ->
              ref_store (ref_mem e) a (replicate (Z.to_nat n) 0) !! x = ref_mem e !! x).
    { intros x Hx. rewrite lookup_ref_store, length_replicate, decide_False; [done|].
      unfold disj in Hd. lia. }
    by rewrite (ref_accessible_ext _ _ _ _ Hx), (ref_load_ext _ _ _ _ Hx).
  - intros a bs e. by destruct (ref_accessible _ _ _).
  - done.
Qed.

#[export] Instance RefHostMapLaws : HostMapLaws RefEnv.
Proof.
  refine {| host_blocks := ref_blocks : @env RefEnv -> _ |}; cbn.
  - intros n e p e'. destruct (_ && forallb _ _) eqn:H; [|done]. intros [= <- <-]; cbn.
    apply andb_true_iff in H as [H HB]. zbool. split_and!; [lia..| |done]. intros q m Hq.
    rewrite forallb_forall in HB. apply list_elem_of_In in Hq. specialize (HB _ Hq). cbn in HB.
    zbool. right. lia.
  - intros n e e'. destruct (_ && _); [done|]. by intros [= <-].
  - intros p n q m e Hq Hd Hm. cbn. apply list_elem_of_filter. split; [|done].
    intros [= -> ->]. unfold disj in Hd. lia.
  - done.
  - intros a bs e. by destruct (ref_accessible _ _ _).
  - intros n e. by destruct (_ && _).
  - done.
Defined.

#[export] Instance RefWalkLaws : WalkLaws RefEnv.
Proof. constructor. done. Qed.
