(* ===== verification/MemoryManager.v ===== *)
(** [MemoryManager] (src/src/memory_manager.cpp, include/memory_manager.h): guest
    memory regions backed by host memory, the switch to QEMU guest memory, and
    the allocation helpers that fall back from the fixed heap to dynamically
    mapped regions.

    [mstate] is what these operations touch: the object ([mm]), the host's bytes
    by host address ([hmem], what [memcpy] and [memset] act on) and the world
    outside the program ([ext]).  Methods that take [mutex_] hold it for their
    whole body and are state transformers; a buffer filled by a successful
    [read] is the list of its bytes. *)

From S2P Require Import Prelude OrdMap HeapAllocator Env.

Definition CODE_BASE : Z := 0x40000000.
Definition HEAP_BASE : Z := 0x60000000.
Definition HEAP_SIZE : Z := 0x10000000.
Definition STACK_BASE : Z := 0x80000000.
Definition STACK_SIZE : Z := 0x00800000.
Definition HLE_BASE : Z := 0x10000000.
Definition HLE_SIZE : Z := 0x00100000.
Definition TLS_BASE : Z := 0xC0000000.
Definition TLS_SIZE : Z := 0x00010000.
Definition TLS_PRE_SIZE : Z := 0x00001000.
Definition PAGE_SIZE : Z := 0x1000.
Definition DYNAMIC_ALLOC_BASE : Z := 0x200000000.

Definition MEM_READ : Z := 1.
Definition MEM_WRITE : Z := 2.
Definition MEM_EXEC : Z := 4.
Definition PROT_READ : Z := 1.
Definition PROT_WRITE : Z := 2.
Definition PROT_EXEC : Z := 4.

Record MemoryRegion := {
  r_address : Z;
  r_size : Z;
  r_perms : Z;
  r_name : string;
  r_host_ptr : Z;      (** 0 is [nullptr] *)
  r_is_shared : bool;
}.

Record MemoryManager := {
  regions_ : list MemoryRegion;
  heap_ : HeapAllocator;
  dynamic_allocations_ : gmap Z Z;
  next_dynamic_alloc_ : Z;
  qemu_ready_ : bool;
  guest_base_ : Z;
}.

Definition eta_mm (m : MemoryManager) : MemoryManager :=
  Build_MemoryManager (regions_ m) (heap_ m) (dynamic_allocations_ m)
    (next_dynamic_alloc_ m) (qemu_ready_ m) (guest_base_ m).
#[export] Instance set_regions : Setter regions_ := ltac:(build_setter eta_mm regions_).
#[export] Instance set_heap : Setter heap_ := ltac:(build_setter eta_mm heap_).
#[export] Instance set_dynamic_allocations : Setter dynamic_allocations_ := ltac:(build_setter eta_mm dynamic_allocations_).
#[export] Instance set_next_dynamic_alloc : Setter next_dynamic_alloc_ := ltac:(build_setter eta_mm next_dynamic_alloc_).
#[export] Instance set_qemu_ready_ : Setter qemu_ready_ := ltac:(build_setter eta_mm qemu_ready_).
#[export] Instance set_guest_base : Setter guest_base_ := ltac:(build_setter eta_mm guest_base_).

(** [MemoryManager::MemoryManager]. *)
Definition new_mm : MemoryManager :=
  {| regions_ := []; heap_ := new_heap HEAP_BASE HEAP_SIZE; dynamic_allocations_ := ∅;
     next_dynamic_alloc_ := DYNAMIC_ALLOC_BASE; qemu_ready_ := false; guest_base_ := 0 |}.

(** * Host memory *)

(** The [n] bytes at host address [p]. *)
Definition host_load (h : Z -> Z) (p n : Z) : list Z :=
  map (fun i => h (p ⊕ Z.of_nat i)) (seq 0 (Z.to_nat n)).

(** [memcpy] of [bs] to [p], and [memset(p, v, n)]. *)
Definition host_store (h : Z -> Z) (p : Z) (bs : list Z) : Z -> Z :=
  fun a => match bs !! Z.to_nat (a ⊖ p) with Some b => b | None => h a end.

Definition host_fill (h : Z -> Z) (p n v : Z) : Z -> Z :=
  fun a => if (a ⊖ p) <? n then v else h a.

(** * Pure helpers *)

Definition align_down (value alignment : Z) : Z := Z.land value (u64_not (alignment ⊖ 1)).
Definition align_up (value alignment : Z) : Z :=
  Z.land (value ⊕ alignment ⊖ 1) (u64_not (alignment ⊖ 1)).

(** The permission translation shared by [set_qemu_ready] and [map]. *)
Definition prot_of (perms : Z) : Z :=
  Z.lor (if Z.land perms MEM_READ =? 0 then 0 else PROT_READ)
    (Z.lor (if Z.land perms MEM_WRITE =? 0 then 0 else PROT_WRITE)
       (if Z.land perms MEM_EXEC =? 0 then 0 else PROT_EXEC)).

(** The test of the host-memory loops of [read] and [write]. *)
Definition region_covers (address size : Z) (r : MemoryRegion) : bool :=
  (r_address r <=? address) && ((address ⊕ size) <=? (r_address r ⊕ r_size r))
  && negb (r_host_ptr r =? 0).

(** The first region that satisfies a test. *)
Definition find_region (f : MemoryRegion -> bool) (rs : list MemoryRegion) : option MemoryRegion :=
  List.find f rs.

(** Host address of guest [address] inside region [r]. *)
Definition host_addr (r : MemoryRegion) (address : Z) : Z :=
  r_host_ptr r ⊕ (address ⊖ r_address r).

(** [unmap]'s loop: the first region with exactly this address and size, and
    the regions without it. *)
Fixpoint take_region (address size : Z) (rs : list MemoryRegion)
  : option (MemoryRegion * list MemoryRegion) :=
  match rs with
  | [] => None
  | r :: rs' =>
      if (r_address r =? address) && (r_size r =? size) then Some (r, rs')
      else match take_region address size rs' with
           | Some (x, rest) => Some (x, r :: rest)
           | None => None
           end
  end.

Section Memory.
Context {E : Env}.

Record mstate := { mm : MemoryManager; hmem : Z -> Z; ext : env }.

Definition eta_mstate (s : mstate) : mstate := Build_mstate (mm s) (hmem s) (ext s).
#[export] Instance set_mm : Setter mm := ltac:(build_setter eta_mstate mm).
#[export] Instance set_hmem : Setter hmem := ltac:(build_setter eta_mstate hmem).
#[export] Instance set_ext : Setter ext := ltac:(build_setter eta_mstate ext).

(** [~MemoryManager]: the owned host blocks are unmapped. *)
Definition destroy_mm (s : mstate) : mstate :=
  foldl (fun s r =>
           if negb (r_host_ptr r =? 0) && negb (r_is_shared r)
           then s <| ext ::= host_munmap (r_host_ptr r) (r_size r) |> else s)
    s (regions_ (mm s)).

(** The body of [set_qemu_ready]'s loop: map one region in the guest and copy
    its host bytes there; the outcome of either call is only logged. *)
Definition sync_region (s : mstate) (r : MemoryRegion) : mstate :=
  if (r_host_ptr r =? 0) || (r_size r =? 0) then s
  else
    let '(_, e1) := target_mmap (r_address r) (r_size r) (prot_of (r_perms r)) (ext s) in
    if (guest_base_ (mm s) =? 0) && (r_address r =? 0) then s <| ext := e1 |>
    else
      let '(_, e2) := rw_debug_write (r_address r)
                        (host_load (hmem s) (r_host_ptr r) (r_size r)) e1 in
      s <| ext := e2 |>.

Definition set_qemu_ready (base : Z) (s : mstate) : mstate :=
  let s1 := s <| mm ::= fun m => m <| guest_base_ := base |> <| qemu_ready_ := true |> |> in
  if has_cpu (ext s1) then foldl sync_region s1 (regions_ (mm s1)) else s1.

(** [nullptr] is 0. *)
Definition guest_to_host (guest_address : Z) (s : mstate) : Z :=
  if qemu_ready_ (mm s) then guest_base_ (mm s) ⊕ guest_address else 0.

Definition mem_map (address size perms : Z) (name : string) (s : mstate) : bool * mstate :=
  match host_mmap size (ext s) with
  | (None, e1) => (false, s <| ext := e1 |>)
  | (Some host_ptr, e1) =>
      let region := {| r_address := address; r_size := size; r_perms := perms;
                       r_name := name; r_host_ptr := host_ptr; r_is_shared := false |} in
      let s1 := s <| ext := e1 |> <| hmem ::= fun h => host_fill h host_ptr size 0 |>
                  <| mm ::= fun m => m <| regions_ ::= fun rs => rs ++ [region] |> |> in
      if qemu_ready_ (mm s1)
      then let '(_, e2) := target_mmap address size (prot_of perms) (ext s1) in
           (true, s1 <| ext := e2 |>)
      else (true, s1)
  end.

Definition map_shared (address size perms host_ptr : Z) (name : string) (s : mstate)
  : bool * mstate :=
  let region := {| r_address := address; r_size := size; r_perms := perms;
                   r_name := name; r_host_ptr := host_ptr; r_is_shared := true |} in
  (true, s <| mm ::= fun m => m <| regions_ ::= fun rs => rs ++ [region] |> |>).

Definition map_aligned (address size perms : Z) (name : string) (s : mstate) : bool * mstate :=
  let aligned_addr := align_down address PAGE_SIZE in
  let aligned_size := align_up (size ⊕ (address ⊖ aligned_addr)) PAGE_SIZE in
  mem_map aligned_addr aligned_size perms name s.

Definition unmap (address size : Z) (s : mstate) : bool * mstate :=
  match take_region address size (regions_ (mm s)) with
  | Some (r, rest) =>
      let s1 := if negb (r_host_ptr r =? 0) && negb (r_is_shared r)
                then s <| ext ::= host_munmap (r_host_ptr r) (r_size r) |> else s in
      (true, s1 <| mm ::= fun m => m <| regions_ := rest |> |>)
  | None => (false, s)
  end.

Definition is_mapped (address : Z) (s : mstate) : bool :=
  existsb (fun r => (r_address r <=? address) && (address <? (r_address r ⊕ r_size r)))
    (regions_ (mm s)).

Definition is_mapped_range (address size : Z) (s : mstate) : bool :=
  is_mapped address s && is_mapped (address ⊕ size ⊖ 1) s.

(** [libafl_qemu_current_cpu()] or [libafl_qemu_get_cpu(0)] yields a CPU. *)
Definition use_qemu (s : mstate) : bool := qemu_ready_ (mm s) && has_cpu (ext s).

(** The host-memory half of [read] and [write]. *)
Definition host_read (address size : Z) (s : mstate) : option (list Z) :=
  match find_region (region_covers address size) (regions_ (mm s)) with
  | Some r => Some (host_load (hmem s) (host_addr r address) size)
  | None => None
  end.

Definition host_write (address : Z) (buffer : list Z) (s : mstate) : bool * mstate :=
  match find_region (region_covers address (Z.of_nat (length buffer))) (regions_ (mm s)) with
  | Some r => (true, s <| hmem ::= fun h => host_store h (host_addr r address) buffer |>)
  | None => (false, s)
  end.

(** [read(address, buffer, size)]: the bytes on success. *)
Definition mem_read (address size : Z) (s : mstate) : option (list Z) :=
  if use_qemu s
  then match rw_debug_read address size (ext s) with
       | Some bs => Some bs
       | None => host_read address size s
       end
  else host_read address size s.

(** [write(address, buffer, size)] with [size] the buffer's length. *)
Definition mem_write (address : Z) (buffer : list Z) (s : mstate) : bool * mstate :=
  if use_qemu s
  then match rw_debug_write address buffer (ext s) with
       | (true, e1) => (true, s <| ext := e1 |>)
       | (false, e1) => host_write address buffer (s <| ext := e1 |>)
       end
  else host_write address buffer s.

(** [zero]'s loop; [zeros] is the size of the vector of zeroes.  [fuel] bounds
    the number of chunks. *)
Fixpoint zero_loop (fuel : nat) (address size zeros offset : Z) (s : mstate) : bool * mstate :=
  match fuel with
  | O => (false, s)
  | S fuel' =>
      if offset <? size
      then let chunk := Z.min (size ⊖ offset) zeros in
           match mem_write (address ⊕ offset) (replicate (Z.to_nat chunk) 0) s with
           | (true, s1) => zero_loop fuel' address size zeros (offset ⊕ chunk) s1
           | (false, s1) => (false, s1)
           end
      else (true, s)
  end.

Definition ZERO_CHUNK : Z := 2 ^ 20.

(** Enough rounds for chunks of [chunk] bytes, and one to leave the loop. *)
Definition chunk_fuel (size chunk : Z) : nat := S (S (Z.to_nat (size / chunk))).

Definition zero_ (address size : Z) (s : mstate) : bool * mstate :=
  let zeros := Z.min size ZERO_CHUNK in
  zero_loop (chunk_fuel size ZERO_CHUNK) address size zeros 0 s.

Definition allocate_guest_memory (size0 alignment : Z) (s : mstate) : Z * mstate :=
  let size := if size0 =? 0 then 1 else size0 in
  let '(ptr, h1) := HeapAllocator.allocate size alignment (heap_ (mm s)) in
  let s1 := s <| mm ::= fun m => m <| heap_ := h1 |> |> in
  if negb (ptr =? 0) then (ptr, s1)
  else
    let aligned_size := align_up size PAGE_SIZE in
    let dynamic_alignment := Z.max alignment PAGE_SIZE in
    let address := align_up (next_dynamic_alloc_ (mm s1)) dynamic_alignment in
    match mem_map address aligned_size (Z.lor MEM_READ MEM_WRITE) "HeapDynamic" s1 with
    | (false, s2) => (0, s2)
    | (true, s2) =>
        (address, s2 <| mm ::= fun m =>
                    m <| dynamic_allocations_ ::= <[address := aligned_size]> |>
                      <| next_dynamic_alloc_ := address ⊕ aligned_size |> |>)
    end.

Definition free_guest_memory (address : Z) (s : mstate) : mstate :=
  if address =? 0 then s
  else match dynamic_allocations_ (mm s) !! address with
       | Some size =>
           let s1 := s <| mm ::= fun m => m <| dynamic_allocations_ ::= delete address |> |> in
           (unmap address size s1).2
       | None => s <| mm ::= fun m => m <| heap_ ::= HeapAllocator.free address |> |>
       end.

Definition get_guest_allocation_size (address : Z) (s : mstate) : Z :=
  let heap_size := get_allocation_size address (heap_ (mm s)) in
  if negb (heap_size =? 0) then heap_size
  else default 0 (dynamic_allocations_ (mm s) !! address).

Definition COPY_CHUNK : Z := 2 ^ 20.

(** [realloc_guest_memory]'s copy loop; [false] is a failed read or write. *)
Fixpoint copy_loop (fuel : nat) (address new_addr old_size offset : Z) (s : mstate)
  : bool * mstate :=
  match fuel with
  | O => (false, s)
  | S fuel' =>
      if offset <? old_size
      then let chunk := Z.min (old_size ⊖ offset) COPY_CHUNK in
           match mem_read (address ⊕ offset) chunk s with
           | None => (false, s)
           | Some buffer =>
               match mem_write (new_addr ⊕ offset) buffer s with
               | (false, s1) => (false, s1)
               | (true, s1) => copy_loop fuel' address new_addr old_size (offset ⊕ chunk) s1
               end
           end
      else (true, s)
  end.

Definition realloc_guest_memory (address new_size : Z) (copy_contents : bool) (s : mstate)
  : Z * mstate :=
  if address =? 0 then allocate_guest_memory new_size 16 s
  else if new_size =? 0 then (0, free_guest_memory address s)
  else
    let old_size := get_guest_allocation_size address s in
    if old_size =? 0 then (0, s)
    else if new_size <=? old_size then (address, s)
    else
      let '(new_addr, s1) := allocate_guest_memory new_size 16 s in
      if new_addr =? 0 then (0, s1)
      else
        let '(ok, s2) :=
          if copy_contents
          then copy_loop (chunk_fuel old_size COPY_CHUNK) address new_addr old_size 0 s1
          else (true, s1) in
        if ok then (new_addr, free_guest_memory address s2)
        else (0, free_guest_memory new_addr s2).

(** [nullptr] is 0. *)
Definition get_host_ptr (guest_address : Z) (s : mstate) : Z :=
  if qemu_ready_ (mm s) && (guest_base_ (mm s) =? 0) then guest_address
  else match find_region
               (fun r => (r_address r <=? guest_address)
                         && (guest_address <? (r_address r ⊕ r_size r))
                         && negb (r_host_ptr r =? 0)) (regions_ (mm s)) with
       | Some r => host_addr r guest_address
       | None => 0
       end.

(** [map_into_engine] only logs. *)
Definition map_into_engine (s : mstate) : bool * mstate := (true, s).

End Memory.
