(* ===== verification/MemorySpec.v ===== *)
(** Correctness of [MemoryManager]: reads and writes behave like memory, mapping
    and zeroing deliver zeroes, switching to QEMU keeps every byte, and the
    guest allocation helpers hand out disjoint blocks and keep their contents. *)

From S2P Require Import Prelude OrdMap HeapAllocator HeapSpec Env MemoryManager.

(** * Host memory *)

Lemma length_host_load h p n : length (host_load h p n) = Z.to_nat n.
Proof. unfold host_load. by rewrite length_map, length_seq. Qed.

Lemma lookup_host_load h p n i : (i < Z.to_nat n)%nat ->
  host_load h p n !! i = Some (h (p ⊕ Z.of_nat i)).
Proof. intros H. unfold host_load. by rewrite list_lookup_fmap, lookup_seq_lt. Qed.

Lemma u64_add_sub p i : 0 <= i < two64 -> (p ⊕ i) ⊖ p = i.
Proof.
  intros H. unfold u64. rewrite Zminus_mod_idemp_l.
  replace (p + i - p) with i by lia. by apply Z.mod_small.
Qed.

Lemma host_load_store h p bs : Z.of_nat (length bs) <= two64 ->
  host_load (host_store h p bs) p (Z.of_nat (length bs)) = bs.
Proof.
  intros Hl. apply list_eq. intros i. destruct (decide (i < length bs)%nat) as [Hi|Hi].
  - rewrite lookup_host_load by lia. unfold host_store.
    rewrite u64_add_sub by lia. rewrite Nat2Z.id.
    by destruct (lookup_lt_is_Some_2 bs i Hi) as [b ->].
  - rewrite !lookup_ge_None_2; rewrite ?length_host_load; lia || done.
Qed.

Lemma host_load_ext h h' p n :
  0 <= p -> p + n <= two64 -> (forall x, p <= x < p + n -> h x = h' x) ->
  host_load h p n = host_load h' p n.
Proof.
  intros Hp Hn H. apply map_ext_in. intros i [_ Hi]%in_seq.
  rewrite u64_small by u64_lia. apply H. lia.
Qed.

Lemma host_store_other h p bs x :
  0 <= p -> p + Z.of_nat (length bs) <= two64 -> 0 <= x < two64 ->
  ~ (p <= x < p + Z.of_nat (length bs)) -> host_store h p bs x = h x.
Proof.
  intros ????. unfold host_store. rewrite lookup_ge_None_2; [done|].
  destruct (decide (p <= x)).
  - rewrite u64_small by u64_lia. lia.
  - unfold u64. rewrite <- (Z.mod_unique (x - p) two64 (-1) (x - p + two64)); [lia|left; lia|lia].
Qed.

Lemma host_fill_other h p n v x :
  0 <= p -> 0 <= n -> p + n <= two64 -> 0 <= x < two64 ->
  ~ (p <= x < p + n) -> host_fill h p n v x = h x.
Proof.
  intros ?????. unfold host_fill. destruct (Z.ltb_spec (x ⊖ p) n) as [Hlt|]; [|done].
  destruct (decide (p <= x)).
  - rewrite u64_small in Hlt by u64_lia. lia.
  - unfold u64 in Hlt.
    rewrite <- (Z.mod_unique (x - p) two64 (-1) (x - p + two64)) in Hlt; [lia|left; lia|lia].
Qed.

(** Filling a prefix first and the rest afterwards is filling the whole. *)
Lemma host_fill_split h p m c v x :
  in_u64 x -> 0 <= p -> p + m <= two64 -> 0 <= c <= m ->
  host_fill (host_store h p (replicate (Z.to_nat c) v)) (p + c) (m - c) v x = host_fill h p m v x.
Proof.
  intros Hx ???. unfold in_u64 in Hx. destruct (decide (p <= x < p + m)).
  - unfold host_fill at 2. rewrite (u64_small (x - p)) by u64_lia.
    rewrite (proj2 (Z.ltb_lt _ _)) by lia. destruct (decide (x < p + c)).
    + rewrite host_fill_other by lia. unfold host_store.
      rewrite u64_small by u64_lia. by rewrite lookup_replicate_2 by lia.
    + unfold host_fill. rewrite u64_small by u64_lia. by rewrite (proj2 (Z.ltb_lt _ _)) by lia.
  - rewrite !host_fill_other by lia. apply host_store_other; rewrite ?length_replicate; lia.
Qed.

Lemma host_load_sub h p n q m :
  0 <= p -> p + n <= two64 -> p <= q -> 0 <= m -> q + m <= p + n ->
  host_load h q m = take (Z.to_nat m) (drop (Z.to_nat (q - p)) (host_load h p n)).
Proof.
  intros. apply list_eq. intros i. destruct (decide (i < Z.to_nat m)%nat).
  - rewrite lookup_take_lt, lookup_drop, !lookup_host_load by lia.
    do 3 f_equal. lia.
  - rewrite lookup_take_ge by lia. apply lookup_ge_None_2. rewrite length_host_load. lia.
Qed.

Lemma host_load_fill h p n v q m :
  0 <= p -> p + n <= two64 -> p <= q -> 0 <= m -> q + m <= p + n ->
  host_load (host_fill h p n v) q m = replicate (Z.to_nat m) v.
Proof.
  intros. apply list_eq. intros i. destruct (decide (i < Z.to_nat m)%nat).
  - rewrite lookup_host_load, lookup_replicate_2 by lia. f_equal. unfold host_fill.
    rewrite (u64_small (q + _)), u64_small by u64_lia.
    by rewrite (proj2 (Z.ltb_lt _ _)) by lia.
  - rewrite !lookup_ge_None_2; rewrite ?length_host_load, ?length_replicate; lia || done.
Qed.

(** Two consecutive ranges read as one. *)
Lemma host_load_app h p n m :
  0 <= p -> 0 <= n -> 0 <= m -> p + n + m <= two64 ->
  host_load h p (n + m) = host_load h p n ++ host_load h (p + n) m.
Proof.
  intros. apply list_eq. intros i. destruct (decide (i < Z.to_nat n)%nat).
  - rewrite lookup_app_l by (rewrite length_host_load; lia).
    rewrite !lookup_host_load by lia. done.
  - rewrite lookup_app_r, length_host_load by (rewrite length_host_load; lia).
    destruct (decide (i < Z.to_nat (n + m))%nat).
    + rewrite !lookup_host_load by lia. do 3 f_equal. lia.
    + rewrite !lookup_ge_None_2; rewrite ?length_host_load; lia || done.
Qed.

(** [n] bytes copied from [q] to [p]. *)
Definition copied (h : Z -> Z) (p q n : Z) : Z -> Z :=
  fun x => if (p <=? x) && (x <? p + n) then h (q + (x - p)) else h x.

Lemma copied_in h p q n x : p <= x < p + n -> copied h p q n x = h (q + (x - p)).
Proof. intros H. unfold copied. by rewrite (proj2 (Z.leb_le _ _)), (proj2 (Z.ltb_lt _ _)) by lia. Qed.

Lemma copied_out h p q n x : ~ (p <= x < p + n) -> copied h p q n x = h x.
Proof.
  intros H. unfold copied. destruct (Z.leb_spec p x), (Z.ltb_spec x (p + n)); try done. lia.
Qed.

Lemma copied_split h p q m c x :
  in_u64 x -> 0 <= p -> p + m < two64 -> 0 <= q -> q + m < two64 -> 0 <= c <= m ->
  disj p m q m ->
  copied (host_store h p (host_load h q c)) (p + c) (q + c) (m - c) x = copied h p q m x.
Proof.
  intros Hx ????? Hd. unfold in_u64 in Hx. unfold disj in Hd.
  assert (Hother : forall y, 0 <= y < two64 -> ~ (p <= y < p + c) ->
            host_store h p (host_load h q c) y = h y).
  { intros y ??. apply host_store_other; rewrite ?length_host_load; lia. }
  destruct (decide (p <= x < p + m)); [|rewrite !copied_out by lia; apply Hother; lia].
  rewrite (copied_in _ p) by lia. destruct (decide (x < p + c)).
  - rewrite copied_out by lia. unfold host_store. rewrite u64_small by u64_lia.
    rewrite lookup_host_load by lia. rewrite u64_small by u64_lia. f_equal. lia.
  - rewrite copied_in by lia. rewrite Hother by lia. f_equal. lia.
Qed.

Lemma host_load_copied h p q n :
  0 <= p -> p + n < two64 -> 0 <= q -> q + n < two64 ->
  host_load (copied h p q n) p n = host_load h q n.
Proof.
  intros. apply map_ext_in. intros i [_ Hi]%in_seq. rewrite !u64_small by u64_lia.
  rewrite copied_in by lia. f_equal. lia.
Qed.

(** * Regions *)

Record region_ok (r : MemoryRegion) : Prop := {
  rok_addr : 0 <= r_address r;
  rok_size : 0 < r_size r;
  rok_top : r_address r + r_size r < two64;
  rok_host : 0 < r_host_ptr r;
  rok_host_top : r_host_ptr r + r_size r < two64;
}.

Definition apart (r q : MemoryRegion) : Prop :=
  disj (r_address r) (r_size r) (r_address q) (r_size q) /\
  disj (r_host_ptr r) (r_size r) (r_host_ptr q) (r_size q).

Lemma apart_sym r q : apart r q -> apart q r.
Proof. intros [??]. split; by apply disj_sym. Qed.

Definition regions_wf (rs : list MemoryRegion) : Prop :=
  Forall region_ok rs /\ ForallOrdPairs apart rs.

Lemma ForallOrdPairs_snoc {A} (R : A -> A -> Prop) l x :
  ForallOrdPairs R l -> Forall (fun y => R y x) l -> ForallOrdPairs R (l ++ [x]).
Proof.
  induction 1 as [|y l Hy Hl IH]; intros HF; simpl; [by repeat constructor|].
  apply Forall_cons in HF as [??]. constructor; [|auto].
  apply Forall_app_2; [done|by constructor].
Qed.

Lemma ForallOrdPairs_remove {A} (R : A -> A -> Prop) l1 x l2 :
  ForallOrdPairs R (l1 ++ x :: l2) -> ForallOrdPairs R (l1 ++ l2).
Proof.
  induction l1 as [|y l1 IH]; simpl; inversion 1; subst; [done|].
  constructor; [|auto].
  rewrite Forall_app, Forall_cons in *. intuition.
Qed.

Lemma ForallOrdPairs_last_apart l r q :
  ForallOrdPairs apart (l ++ [r]) -> q ∈ l ->
  disj (r_address q) (r_size q) (r_address r) (r_size r).
Proof.
  intros Hp Hq. induction l as [|y l IH]; simpl in *; [by apply elem_of_nil in Hq|].
  inversion Hp as [|? ? Hy Hl]; subst. apply elem_of_cons in Hq as [->|Hq]; [|auto].
  apply Forall_app in Hy as [_ Hy]. apply Forall_cons in Hy as [Hy _]. apply Hy.
Qed.

Lemma regions_apart rs r q : regions_wf rs -> r ∈ rs -> q ∈ rs -> r <> q -> apart r q.
Proof.
  intros [_ Hp] Hr%list_elem_of_In Hq%list_elem_of_In Hne.
  destruct (ForallOrdPairs_In Hp r q Hr Hq) as [|[|]]; [done..|by apply apart_sym].
Qed.

Lemma regions_ok rs r : regions_wf rs -> r ∈ rs -> region_ok r.
Proof. intros [H _] Hr. by eapply Forall_forall. Qed.

(** [[a, a+n)] lies in region [r]. *)
Definition inside (a n : Z) (r : MemoryRegion) : Prop :=
  r_address r <= a /\ a + n <= r_address r + r_size r.

Lemma region_covers_inside a n r : region_ok r -> 0 <= n -> 0 <= a -> a + n < two64 ->
  region_covers a n r = true <-> inside a n r.
Proof.
  intros [????] ???. unfold region_covers, inside. rewrite !andb_true_iff, negb_true_iff.
  u64_simpl. rewrite !Z.leb_le, Z.eqb_neq. intuition lia.
Qed.

(** In a well-formed table a non-empty range is in at most one region, so the
    first-match search finds the region that holds it. *)
Lemma find_region_inside rs a n r :
  regions_wf rs -> r ∈ rs -> 0 < n -> 0 <= a -> inside a n r ->
  find_region (region_covers a n) rs = Some r.
Proof.
  intros Hwf Hr Hn Ha Hin. pose proof (regions_ok _ _ Hwf Hr) as Hrok.
  assert (Htop : a + n < two64) by (destruct Hrok, Hin; lia).
  destruct (find_region _ rs) as [q|] eqn:Hf.
  - apply List.find_some in Hf as [Hq Hc]. apply list_elem_of_In in Hq.
    apply region_covers_inside in Hc; [|by eapply regions_ok|lia..].
    destruct (decide (r_address r = r_address q /\ r_size r = r_size q)) as [|Hne].
    + f_equal. symmetry. destruct (ForallOrdPairs_In (proj2 Hwf) r q) as [|[[]|[]]];
        try (by apply list_elem_of_In); [done|exfalso..]; destruct Hin, Hc, Hrok; unfold disj in *; lia.
    + exfalso. destruct (regions_apart rs r q Hwf Hr Hq) as [Hd _]; [naive_solver|].
      destruct Hin, Hc. unfold disj in Hd. lia.
  - eapply List.find_none in Hf; [|by apply list_elem_of_In].
    rewrite (proj2 (region_covers_inside a n r Hrok ltac:(lia) Ha Htop)) in Hf by done. done.
Qed.

Lemma find_region_Some rs a n r :
  regions_wf rs -> 0 <= n -> 0 <= a -> a + n < two64 ->
  find_region (region_covers a n) rs = Some r -> r ∈ rs /\ inside a n r.
Proof.
  intros Hwf ??? [Hq Hc]%List.find_some. apply list_elem_of_In in Hq.
  split; [done|]. eapply region_covers_inside; eauto. by eapply regions_ok.
Qed.

(** Guest ranges of regions and the host addresses they stand for. *)
Lemma host_addr_inside r a n : region_ok r -> 0 <= n -> inside a n r ->
  host_addr r a = r_host_ptr r + (a - r_address r) /\
  r_host_ptr r <= host_addr r a /\ host_addr r a + n <= r_host_ptr r + r_size r.
Proof.
  intros [] ? []. unfold host_addr.
  assert (E : r_host_ptr r ⊕ (a ⊖ r_address r) = r_host_ptr r + (a - r_address r)).
  { rewrite (u64_small (a - _)), u64_small by u64_lia. done. }
  rewrite E. lia.
Qed.

(** Disjoint guest ranges have disjoint host ranges. *)
Lemma host_disjoint rs r q a n b m :
  regions_wf rs -> r ∈ rs -> q ∈ rs -> 0 < n -> 0 < m -> inside a n r -> inside b m q ->
  disj a n b m -> disj (host_addr r a) n (host_addr q b) m.
Proof.
  intros Hwf Hr Hq Hn Hm Hin Hin' Hd.
  destruct (host_addr_inside r a n (regions_ok _ _ Hwf Hr) ltac:(lia) Hin) as (E1 & ? & ?).
  destruct (host_addr_inside q b m (regions_ok _ _ Hwf Hq) ltac:(lia) Hin') as (E2 & ? & ?).
  destruct (ForallOrdPairs_In (proj2 Hwf) r q) as [->|Hx];
    [by apply list_elem_of_In..|unfold disj in *; lia|].
  assert (Hap : apart r q) by (destruct Hx as [|?%apart_sym]; done).
  destruct Hap as [_ Ha]. unfold disj in *. lia.
Qed.

Section Spec.
Context {E : Env}.
Implicit Types s : mstate.

(** * Reads and writes *)

Lemma host_read_inside s r a n :
  regions_wf (regions_ (mm s)) -> r ∈ regions_ (mm s) -> 0 < n -> inside a n r ->
  host_read a n s = Some (host_load (hmem s) (host_addr r a) n).
Proof.
  intros Hwf Hr Hn Hin. unfold host_read. pose proof (rok_addr _ (regions_ok _ _ Hwf Hr)).
  rewrite (find_region_inside _ a n r); auto; destruct Hin; lia.
Qed.

Lemma host_write_inside s r a bs :
  regions_wf (regions_ (mm s)) -> r ∈ regions_ (mm s) -> bs <> [] ->
  inside a (Z.of_nat (length bs)) r ->
  host_write a bs s = (true, s <| hmem ::= fun h => host_store h (host_addr r a) bs |>).
Proof.
  intros Hwf Hr Hn Hin. unfold host_write. pose proof (rok_addr _ (regions_ok _ _ Hwf Hr)).
  assert (0 < Z.of_nat (length bs)) by (destruct bs; [done|simpl; lia]).
  rewrite (find_region_inside _ a _ r); [done|done|done|lia|destruct Hin; lia|done].
Qed.

Lemma host_mode_read s a n : qemu_ready_ (mm s) = false -> mem_read a n s = host_read a n s.
Proof. unfold mem_read, use_qemu. by intros ->. Qed.

Lemma host_mode_write s a bs : qemu_ready_ (mm s) = false ->
  mem_write a bs s = host_write a bs s.
Proof. unfold mem_write, use_qemu. by intros ->. Qed.

Lemma host_write_spec s a bs s' : host_write a bs s = (true, s') ->
  exists r, find_region (region_covers a (Z.of_nat (length bs))) (regions_ (mm s)) = Some r /\
    s' = s <| hmem ::= fun h => host_store h (host_addr r a) bs |>.
Proof.
  unfold host_write. destruct (find_region _ _) as [r|]; [|done]. intros [= <-]. eauto.
Qed.

Lemma host_read_host_write s a bs s' :
  Z.of_nat (length bs) <= two64 -> host_write a bs s = (true, s') ->
  host_read a (Z.of_nat (length bs)) s' = Some bs.
Proof.
  intros Hl (r & Hf & ->)%host_write_spec. unfold host_read. cbn. rewrite Hf. f_equal.
  by apply host_load_store.
Qed.

(** A host write changes no disjoint range. *)
Lemma host_read_write_disj s a bs s' b m :
  regions_wf (regions_ (mm s)) -> bs <> [] -> 0 <= a -> a + Z.of_nat (length bs) < two64 ->
  0 < m -> 0 <= b -> b + m < two64 -> disj a (Z.of_nat (length bs)) b m ->
  host_write a bs s = (true, s') -> host_read b m s' = host_read b m s.
Proof.
  intros Hwf Hne ?? ??? Hd (r & Hf & ->)%host_write_spec.
  assert (0 < Z.of_nat (length bs)) by (destruct bs; [done|simpl; lia]).
  apply find_region_Some in Hf as [Hr Hin]; [|done|lia..].
  unfold host_read; cbn. destruct (find_region (region_covers b m) _) as [q|] eqn:Hq; [|done].
  apply find_region_Some in Hq as [Hq Hin']; [|done|lia..]. f_equal.
  pose proof (host_disjoint _ r q a (Z.of_nat (length bs)) b m Hwf Hr Hq ltac:(lia) ltac:(lia) Hin Hin' Hd) as Hdh.
  pose proof (regions_ok _ _ Hwf Hr) as Hrok. pose proof (regions_ok _ _ Hwf Hq) as Hqok.
  destruct (host_addr_inside r a (Z.of_nat (length bs)) Hrok ltac:(lia) Hin) as (_ & ? & ?).
  destruct (host_addr_inside q b m Hqok ltac:(lia) Hin') as (_ & ? & ?).
  destruct Hrok, Hqok. apply host_load_ext; [lia..|].
  intros x Hx. apply host_store_other; [lia..|]. unfold disj in Hdh. lia.
Qed.

(** * The well-formedness of the manager *)

(** The region table agrees with the host: regions share neither guest nor host
    bytes, and each is backed by a host block that is still held. *)
Record table_wf `{!HostMapLaws E} (s : mstate) : Prop := {
  tw_regions : regions_wf (regions_ (mm s));
  tw_blocks r : r ∈ regions_ (mm s) -> (r_host_ptr r, r_size r) ∈ host_blocks (ext s);
}.

(** Region table, and dynamic allocations are consistent: regions lie below the bump
    pointer of the dynamic area and every recorded dynamic allocation is a
    region of its own. *)
Record mem_wf `{!HostMapLaws E} (s : mstate) : Prop := {
  mw_table : table_wf s;
  mw_heap : heap_wf (heap_ (mm s));
  mw_heap_base : base_ (heap_ (mm s)) = HEAP_BASE;
  mw_heap_size : size_ (heap_ (mm s)) = HEAP_SIZE;
  mw_next : DYNAMIC_ALLOC_BASE <= next_dynamic_alloc_ (mm s) < two64;
  mw_below r : r ∈ regions_ (mm s) -> r_address r + r_size r <= next_dynamic_alloc_ (mm s);
  mw_dyn a n : dynamic_allocations_ (mm s) !! a = Some n -> DYNAMIC_ALLOC_BASE <= a /\
    exists r, r ∈ regions_ (mm s) /\ r_address r = a /\ r_size r = n /\ r_is_shared r = false;
}.

(** The heap's range is mapped, as the emulator does when it starts. *)
Definition heap_mapped s : Prop :=
  exists r, r ∈ regions_ (mm s) /\ inside HEAP_BASE HEAP_SIZE r.

(** A block handed out by the guest allocation helpers and not yet freed. *)
Definition live s (a n : Z) : Prop :=
  allocations_ (heap_ (mm s)) !! a = Some n \/ dynamic_allocations_ (mm s) !! a = Some n.

Context `{!HostMapLaws E}.

Lemma mw_regions s : mem_wf s -> regions_wf (regions_ (mm s)).
Proof. intros H. apply H. Qed.

Lemma live_heap s a n : mem_wf s -> allocations_ (heap_ (mm s)) !! a = Some n ->
  0 < n /\ HEAP_BASE <= a /\ a + n <= HEAP_BASE + HEAP_SIZE.
Proof.
  intros H Ha. pose proof (wf_hwm _ (mw_heap s H)).
  apply (wf_alloc _ (mw_heap s H)) in Ha. rewrite (mw_heap_base s H), (mw_heap_size s H) in *. lia.
Qed.

Lemma live_dyn s a n : mem_wf s -> dynamic_allocations_ (mm s) !! a = Some n ->
  0 < n /\ DYNAMIC_ALLOC_BASE <= a /\ a + n <= next_dynamic_alloc_ (mm s).
Proof.
  intros H (? & r & Hr & <- & <- & _)%(mw_dyn s H).
  pose proof (mw_below s H _ Hr). destruct (regions_ok _ _ (mw_regions s H) Hr). lia.
Qed.

Lemma live_disjoint s a n b m : mem_wf s -> live s a n -> live s b m -> a <> b -> disj a n b m.
Proof.
  intros H [Ha|Ha] [Hb|Hb] Hne.
  - by apply (wf_alloc_alloc _ (mw_heap s H)).
  - apply live_heap in Ha; [|done]. apply live_dyn in Hb; [|done].
    left. unfold HEAP_BASE, HEAP_SIZE, DYNAMIC_ALLOC_BASE in *. lia.
  - apply live_heap in Hb; [|done]. apply live_dyn in Ha; [|done].
    right. unfold HEAP_BASE, HEAP_SIZE, DYNAMIC_ALLOC_BASE in *. lia.
  - apply (mw_dyn s H) in Ha as (_ & r & Hr & <- & <- & _).
    apply (mw_dyn s H) in Hb as (_ & q & Hq & <- & <- & _).
    apply (regions_apart _ r q (mw_regions s H)); auto. congruence.
Qed.

(** Every live block is backed by one mapped region. *)
Lemma live_backed s a n : mem_wf s -> heap_mapped s -> live s a n ->
  0 < n /\ 0 <= a /\ a + n < two64 /\ exists r, r ∈ regions_ (mm s) /\ inside a n r.
Proof.
  intros H (h & Hh & Hin) [Ha|Ha].
  - apply live_heap in Ha; [|done]. unfold HEAP_BASE, HEAP_SIZE, two64 in *.
    split_and!; try lia. exists h. split; [done|]. destruct Hin. split; lia.
  - pose proof (live_dyn _ _ _ H Ha) as (? & ? & ?). pose proof (mw_next s H).
    unfold DYNAMIC_ALLOC_BASE in *. split_and!; try lia.
    apply (mw_dyn s H) in Ha as (_ & r & Hr & <- & <- & _). exists r. split; [done|].
    split; lia.
Qed.

(** * The chunk loops *)

Lemma chunk_fuel_enough n c : 0 <= n -> 0 < c ->
  n <= (Z.of_nat (chunk_fuel n c) - 1) * Z.min n c.
Proof.
  intros Hn Hc. unfold chunk_fuel. pose proof (Z.div_pos n c Hn Hc).
  rewrite !Nat2Z.inj_succ, Z2Nat.id by lia.
  pose proof (Z.div_mod n c ltac:(lia)). pose proof (Z.mod_pos_bound n c Hc).
  destruct (Z.min_spec n c) as [[? ->]|[? ->]]; nia.
Qed.

(** [zero_loop] from [offset] on: the rest of the range becomes zero, nothing
    else changes. *)
Lemma zero_loop_spec fuel s r a n z offset :
  qemu_ready_ (mm s) = false -> regions_wf (regions_ (mm s)) -> r ∈ regions_ (mm s) ->
  inside a n r -> 0 <= offset <= n -> 0 < z \/ n = 0 -> 0 <= z ->
  n - offset <= (Z.of_nat fuel - 1) * z -> (0 < fuel)%nat ->
  exists h, zero_loop fuel a n z offset s = (true, s <| hmem := h |>) /\
    forall x, in_u64 x ->
      h x = host_fill (hmem s) (host_addr r (a + offset)) (n - offset) 0 x.
Proof.
  intros Hq Hwf Hr Hin. pose proof (regions_ok _ _ Hwf Hr) as Hok.
  revert s offset Hq Hwf Hr.
  induction fuel as [|fuel IH]; intros s offset Hq Hwf Hr Ho Hz Hz0 Hfuel Hpos; [lia|].
  pose proof (rok_addr r Hok). pose proof (rok_top r Hok). assert (r_address r <= a) by apply Hin.
  assert (a + n <= r_address r + r_size r) by apply Hin.
  cbn [zero_loop]. destruct (Z.ltb_spec offset n) as [Hlt|].
  - u64_simpl. set (c := Z.min (n - offset) z). assert (Hc : 0 < c <= n - offset) by lia.
    assert (Hin' : inside (a + offset) c r) by (split; lia).
    rewrite host_mode_write by done.
    rewrite (host_write_inside s r) by
      (rewrite ?length_replicate, ?Z2Nat.id by lia; try done;
       intros ?%(f_equal length); rewrite length_replicate in *; simpl in *; lia).
    u64_simpl. assert (1 <= Z.of_nat fuel) by nia.
    destruct (IH (s <| hmem ::= fun h => host_store h (host_addr r (a + offset))
      (replicate (Z.to_nat c) 0) |>) (offset + c)) as (h & Hl & Hh); [done..|lia|lia|lia| |lia|].
    { destruct (Z.min_spec (n - offset) z) as [[? E1]|[? E1]]; fold c in E1; nia. }
    exists h. split; [exact Hl|]. intros x Hx. rewrite Hh by done. cbn.
    destruct (host_addr_inside r (a + offset) (n - offset) Hok ltac:(lia)
      ltac:(split; lia)) as (E1 & ? & ?).
    destruct (host_addr_inside r (a + (offset + c)) 0 Hok ltac:(lia)
      ltac:(split; lia)) as (E2 & _).
    replace (host_addr r (a + (offset + c))) with (host_addr r (a + offset) + c) by lia.
    replace (n - (offset + c)) with (n - offset - c) by lia.
    pose proof (rok_host_top r Hok). pose proof (rok_host r Hok).
    apply host_fill_split; [done|lia..].
  - exists (hmem s). split; [by destruct s|]. intros x Hx. unfold host_fill.
    destruct (Z.ltb_spec (x ⊖ host_addr r (a + offset)) (n - offset)); [|done].
    pose proof (u64_range (x - host_addr r (a + offset))) as Hu. unfold in_u64 in Hu. lia.
Qed.

(** [copy_loop] from [offset] on copies the rest of the range. *)
Lemma copy_loop_spec fuel s r q a b n offset :
  qemu_ready_ (mm s) = false -> regions_wf (regions_ (mm s)) ->
  r ∈ regions_ (mm s) -> q ∈ regions_ (mm s) -> inside a n r -> inside b n q ->
  disj b n a n -> 0 <= offset <= n ->
  n - offset <= (Z.of_nat fuel - 1) * COPY_CHUNK -> (0 < fuel)%nat ->
  exists h, copy_loop fuel a b n offset s = (true, s <| hmem := h |>) /\
    forall x, in_u64 x -> h x =
      copied (hmem s) (host_addr q (b + offset)) (host_addr r (a + offset)) (n - offset) x.
Proof.
  intros Hm Hwf Hr Hq Hin Hin' Hd.
  pose proof (regions_ok _ _ Hwf Hr) as Hrok. pose proof (regions_ok _ _ Hwf Hq) as Hqok.
  revert s offset Hm Hwf Hr Hq.
  induction fuel as [|fuel IH]; intros s offset Hm Hwf Hr Hq Ho Hfuel Hpos; [lia|].
  destruct Hin as [Ha1 Ha2], Hin' as [Hb1 Hb2].
  pose proof Hrok as []. pose proof Hqok as [].
  cbn [copy_loop]. destruct (Z.ltb_spec offset n) as [Hlt|].
  - u64_simpl. set (c := Z.min (n - offset) COPY_CHUNK).
    assert (Hc : 0 < c <= n - offset) by (unfold COPY_CHUNK in c; lia).
    rewrite host_mode_read by done.
    rewrite (host_read_inside s r) by (done || lia || split; lia).
    rewrite host_mode_write by done.
    set (bs := host_load (hmem s) (host_addr r (a + offset)) c).
    assert (Hlen : Z.of_nat (length bs) = c) by (unfold bs; rewrite length_host_load; lia).
    rewrite (host_write_inside s q); [|done..| |rewrite Hlen; split; lia];
      [|intros ->; simpl in *; lia].
    u64_simpl.
    destruct (IH (s <| hmem ::= fun h => host_store h (host_addr q (b + offset)) bs |>)
      (offset + c)) as (h & Hl & Hh); [done..|lia| |unfold COPY_CHUNK in *; lia|].
    { unfold COPY_CHUNK in *. destruct (Z.min_spec (n - offset) (2 ^ 20)) as [[? E1]|[? E1]];
        fold c in E1; lia. }
    exists h. split; [exact Hl|]. intros x Hx. rewrite Hh by done. cbn.
    destruct (host_addr_inside r (a + offset) (n - offset) Hrok) as (E1 & ? & ?); [lia|split; lia|].
    destruct (host_addr_inside q (b + offset) (n - offset) Hqok) as (E2 & ? & ?); [lia|split; lia|].
    destruct (host_addr_inside r (a + (offset + c)) 0 Hrok) as (E3 & _); [lia|split; lia|].
    destruct (host_addr_inside q (b + (offset + c)) 0 Hqok) as (E4 & _); [lia|split; lia|].
    replace (host_addr r (a + (offset + c))) with (host_addr r (a + offset) + c) by lia.
    replace (host_addr q (b + (offset + c))) with (host_addr q (b + offset) + c) by lia.
    replace (n - (offset + c)) with (n - offset - c) by lia.
    apply copied_split; [done|lia..|].
    apply (host_disjoint (regions_ (mm s))); [done..|lia|lia|split; lia|split; lia|].
    unfold disj in *. lia.
  - exists (hmem s). split; [by destruct s|]. intros x Hx. rewrite copied_out by lia. done.
Qed.

(** * Mapping and unmapping *)

Definition new_region (a n p : Z) (nm : string) (hp : Z) : MemoryRegion :=
  {| r_address := a; r_size := n; r_perms := p; r_name := nm; r_host_ptr := hp;
     r_is_shared := false |}.

(** What a successful [map] leaves behind. *)
Record mapped_at s s' (r : MemoryRegion) : Prop := {
  ma_mm : mm s' = (mm s) <| regions_ ::= fun rs => rs ++ [r] |>;
  ma_hmem : hmem s' = host_fill (hmem s) (r_host_ptr r) (r_size r) 0;
  ma_blocks : host_blocks (ext s') = (r_host_ptr r, r_size r) :: host_blocks (ext s);
  ma_size : 0 < r_size r;
  ma_host : 0 < r_host_ptr r /\ r_host_ptr r + r_size r < two64;
  ma_fresh q m : (q, m) ∈ host_blocks (ext s) -> disj (r_host_ptr r) (r_size r) q m;
}.

Lemma mem_map_true s a n p nm s' : mem_map a n p nm s = (true, s') ->
  exists hp, mapped_at s s' (new_region a n p nm hp).
Proof.
  unfold mem_map. destruct (host_mmap n (ext s)) as [[hp|] e1] eqn:Hh; [|done].
  pose proof (host_mmap_fresh _ _ _ _ Hh) as (? & ? & ? & ? & Hb). cbn.
  intros Hres. exists hp. destruct (qemu_ready_ (mm s)).
  - destruct (target_mmap _ _ _ _) as [m e2] eqn:Ht. injection Hres as <-.
    constructor; cbn; auto.
    pose proof (host_blocks_target_mmap a n (prot_of p) e1) as Hx. rewrite Ht in Hx. cbn in Hx.
    congruence.
  - injection Hres as <-. by constructor.
Qed.

Lemma mem_map_false s a n p nm s' : mem_map a n p nm s = (false, s') ->
  mm s' = mm s /\ hmem s' = hmem s /\ host_blocks (ext s') = host_blocks (ext s).
Proof.
  unfold mem_map. destruct (host_mmap n (ext s)) as [[hp|] e1] eqn:Hh; cbn.
  - destruct (qemu_ready_ (mm s)); [|done]. by destruct (target_mmap _ _ _ _).
  - intros [= <-]. apply host_mmap_fail in Hh. done.
Qed.

Lemma mapped_table s s' r : table_wf s -> mapped_at s s' r ->
  0 <= r_address r -> r_address r + r_size r < two64 ->
  (forall q, q ∈ regions_ (mm s) -> disj (r_address q) (r_size q) (r_address r) (r_size r)) ->
  table_wf s'.
Proof.
  intros [[Hok Hap] Hb] [Em _ Eb Hs [] Hf] ?? Hd. constructor; rewrite Em; cbn.
  - split; [apply Forall_app_2; [done|]; by repeat constructor|].
    apply ForallOrdPairs_snoc; [done|]. apply Forall_forall. intros q Hq.
    split; [by apply Hd|]. apply disj_sym, Hf, Hb, Hq.
  - intros q [Hq| ->%list_elem_of_singleton]%elem_of_app; rewrite Eb; [|by left].
    right. by apply Hb.
Qed.

(** Reads of the old regions do not see the new one. *)
Lemma mapped_read s s' r q b m : table_wf s -> table_wf s' -> mapped_at s s' r ->
  q ∈ regions_ (mm s) -> 0 < m -> inside b m q -> host_read b m s' = host_read b m s.
Proof.
  intros Hw Hw' Hma Hq Hm Hin.
  rewrite !(host_read_inside _ q); try done; [|apply Hw|apply Hw'|].
  2: { rewrite (ma_mm _ _ _ Hma). cbn. apply elem_of_app. by left. }
  f_equal. pose proof (regions_ok _ _ (tw_regions s Hw) Hq) as Hok.
  destruct (host_addr_inside q b m Hok ltac:(lia) Hin) as (_ & ? & ?).
  pose proof (ma_fresh _ _ _ Hma _ _ (tw_blocks s Hw _ Hq)) as Hd.
  destruct Hma as [_ Eh _ ? [] _]. destruct Hok.
  apply host_load_ext; [lia..|]. intros x Hx. rewrite Eh. apply host_fill_other; [lia..|].
  unfold disj in Hd. lia.
Qed.

Lemma take_region_spec a n rs r rest : take_region a n rs = Some (r, rest) ->
  exists l1 l2, rs = l1 ++ r :: l2 /\ rest = l1 ++ l2 /\ r_address r = a /\ r_size r = n.
Proof.
  revert rest; induction rs as [|q rs IH]; intros rest; simpl; [done|].
  destruct (_ && _) eqn:Hc.
  - intros [= -> ->]. zbool. by exists [], rest.
  - destruct (take_region a n rs) as [[x rest']|]; [|done]. intros [= -> <-].
    destruct (IH _ eq_refl) as (l1 & l2 & -> & -> & ? & ?). by exists (q :: l1), l2.
Qed.

Lemma take_region_exists a n rs r : r ∈ rs -> r_address r = a -> r_size r = n ->
  is_Some (take_region a n rs).
Proof.
  intros Hr <- <-. induction rs as [|q rs IH]; simpl; [by apply elem_of_nil in Hr|].
  destruct (_ && _) eqn:Hc; [done|]. apply elem_of_cons in Hr as [->|Hr].
  - by rewrite !Z.eqb_refl in Hc.
  - destruct (IH Hr) as [[??] ->]. done.
Qed.

(** What a successful [unmap] leaves behind. *)
Lemma unmap_true s a n s' : table_wf s -> unmap a n s = (true, s') ->
  exists r, r ∈ regions_ (mm s) /\ r_address r = a /\ r_size r = n /\
    (exists rest, mm s' = (mm s) <| regions_ := rest |> /\
       forall q, q ∈ rest <-> q ∈ regions_ (mm s) /\ q <> r) /\
    hmem s' = hmem s /\ table_wf s'.
Proof.
  intros Hw. unfold unmap. destruct (take_region _ _ _) as [[r rest]|] eqn:Ht; [|done].
  intros [= <-]. apply take_region_spec in Ht as (l1 & l2 & Hrs & -> & Ha & Hn).
  assert (Hr : r ∈ regions_ (mm s)) by (rewrite Hrs; set_solver).
  assert (Hsub : forall q, q ∈ l1 ++ l2 -> q ∈ regions_ (mm s) /\ apart q r).
  { intros q Hq. split; [rewrite Hrs; set_solver|].
    destruct Hw as [[_ Hp] _]. rewrite Hrs in Hp. clear -Hp Hq.
    induction l1 as [|y l1 IH]; simpl in *; inversion Hp; subst.
    - by eapply apart_sym, Forall_forall.
    - apply elem_of_cons in Hq as [->|Hq]; [|auto].
      rewrite Forall_app, Forall_cons in *. intuition. }
  assert (Hiff : forall q, q ∈ l1 ++ l2 <-> q ∈ regions_ (mm s) /\ q <> r).
  { intros q. split.
    - intros Hq. destruct (Hsub q Hq) as [Hq' [Hd _]]. split; [done|]. intros ->.
      pose proof (rok_size _ (regions_ok _ _ (tw_regions s Hw) Hr)). unfold disj in Hd. lia.
    - rewrite Hrs. set_solver. }
  exists r. split_and!; [done..| | |].
  - exists (l1 ++ l2). split; [|done]. by destruct (_ && _).
  - by destruct (_ && _).
  - constructor; cbn.
    + destruct Hw as [[Hok Hp] _]. rewrite Hrs in Hok, Hp. split.
      * rewrite Forall_app, Forall_cons in *. intuition.
      * by eapply ForallOrdPairs_remove.
    + intros q Hq. destruct (Hsub q Hq) as [Hq' [_ Hd]].
      pose proof (rok_size _ (regions_ok _ _ (tw_regions s Hw) Hq')).
      pose proof (tw_blocks s Hw _ Hq'). destruct (_ && _); cbn; [|done].
      apply host_munmap_keeps; [done|by apply disj_sym|done].
Qed.

(** * The guest allocation helpers *)

(** The bump pointer of the dynamic area stays below 2^64. *)
Definition dyn_room s (n al : Z) : Prop :=
  next_dynamic_alloc_ (mm s) + Z.max al PAGE_SIZE + n + PAGE_SIZE < two64.

Lemma pow2_max a b : pow2 a -> pow2 b -> pow2 (Z.max a b) /\ (a | Z.max a b).
Proof.
  intros (k & Hk & ->) (j & Hj & ->). destruct (Z.le_ge_cases k j) as [H|H].
  - rewrite Z.max_r by (apply Z.pow_le_mono_r; lia). split; [by exists j|].
    exists (2 ^ (j - k)). rewrite <- Z.pow_add_r by lia. f_equal. lia.
  - rewrite Z.max_l by (apply Z.pow_le_mono_r; lia). split; [by exists k|done].
Qed.

Lemma pow2_page : pow2 PAGE_SIZE.
Proof. exists 12. split; [lia|reflexivity]. Qed.

(** What the helpers do to the live blocks. *)
Definition adds_live s s' (p m : Z) : Prop :=
  (forall b k, live s' b k <-> (b = p /\ k = m) \/ live s b k) /\
  (forall b k, live s b k -> disj p m b k).

(** What every helper leaves alone: the mode and the bytes of old regions. *)
Definition keeps_regions s s' : Prop :=
  qemu_ready_ (mm s') = qemu_ready_ (mm s) /\
  forall r, r ∈ regions_ (mm s) -> r ∈ regions_ (mm s') /\
    forall b m, 0 < m -> inside b m r -> host_read b m s' = host_read b m s.

Lemma heap_step_live s h p m :
  mem_wf s -> 0 < m -> HEAP_BASE <= p -> p + m <= HEAP_BASE + HEAP_SIZE ->
  (forall b t, allocations_ (heap_ (mm s)) !! b = Some t -> disj p m b t) ->
  allocations_ h = <[p := m]> (allocations_ (heap_ (mm s))) ->
  adds_live s (s <| mm ::= fun x => x <| heap_ := h |> |>) p m.
Proof.
  intros H Hm Hlo Hhi Hfr Hal. split.
  - intros b k. unfold live. cbn. rewrite Hal, lookup_insert_Some. split; [naive_solver|].
    intros [[-> ->]|[Ha|Hd]]; [naive_solver| |naive_solver].
    left. right. split; [|done]. intros <-. apply Hfr in Ha as Hd.
    apply live_heap in Ha; [|done]. unfold disj in Hd. lia.
  - intros b k [Ha|Hd]; [auto|]. apply live_dyn in Hd; [|done]. left.
    unfold HEAP_BASE, HEAP_SIZE, DYNAMIC_ALLOC_BASE in *. lia.
Qed.

Lemma dyn_step_live s s1 a n :
  mem_wf s -> next_dynamic_alloc_ (mm s) <= a -> mm s1 = mm s \/
    (exists r, mm s1 = (mm s) <| regions_ ::= fun rs => rs ++ [r] |>) ->
  forall nx, adds_live s (s1 <| mm ::= fun m => m <| dynamic_allocations_ ::= <[a := n]> |>
                                     <| next_dynamic_alloc_ := nx |> |>) a n.
Proof.
  intros H Ha Hs nx.
  assert (E1 : heap_ (mm s1) = heap_ (mm s)) by (destruct Hs as [->|[? ->]]; done).
  assert (E2 : dynamic_allocations_ (mm s1) = dynamic_allocations_ (mm s))
    by (destruct Hs as [->|[? ->]]; done).
  pose proof (mw_next s H). split.
  - intros b k. unfold live. cbn. rewrite E1, E2, lookup_insert_Some. split; [naive_solver|].
    intros [[-> ->]|[?|Hd]]; [naive_solver..|]. right. right. split; [|done]. intros <-.
    apply live_dyn in Hd; [|done]. lia.
  - intros b k [Hb|Hb]; right.
    + apply live_heap in Hb; [|done]. unfold HEAP_BASE, HEAP_SIZE, DYNAMIC_ALLOC_BASE in *. lia.
    + apply live_dyn in Hb; [|done]. lia.
Qed.

Lemma dyn_mapped_wf s s1 r :
  mem_wf s -> mapped_at s s1 r -> r_is_shared r = false ->
  next_dynamic_alloc_ (mm s) <= r_address r -> r_address r + r_size r < two64 ->
  mem_wf (s1 <| mm ::= fun m =>
            m <| dynamic_allocations_ ::= <[r_address r := r_size r]> |>
              <| next_dynamic_alloc_ := r_address r ⊕ r_size r |> |>).
Proof.
  intros H Hm Hsh Hlo Hhi. pose proof (mw_next s H) as Hn. pose proof (ma_size _ _ _ Hm).
  assert (0 <= r_address r) by (unfold DYNAMIC_ALLOC_BASE in Hn; lia).
  assert (Ht : table_wf s1).
  { eapply mapped_table; [apply H|done|lia|lia|]. intros q Hq. left.
    pose proof (mw_below s H q Hq). lia. }
  pose proof (ma_mm _ _ _ Hm) as Em. u64_simpl. constructor; cbn; rewrite ?Em; cbn; try apply H.
  - by destruct Ht.
  - lia.
  - intros q [Hq|Hq]%elem_of_app; [pose proof (mw_below s H q Hq); lia|].
    apply list_elem_of_singleton in Hq as ->. lia.
  - intros a n. rewrite lookup_insert_Some. intros [[<- <-]|[_ Hd]].
    + split; [lia|]. exists r. split_and!; [|done..]. apply elem_of_app. right. by left.
    + apply (mw_dyn s H) in Hd as (? & q & ? & ?). split; [done|]. exists q.
      split; [apply elem_of_app; by left|done].
Qed.

Lemma heap_only_wf s h : mem_wf s -> heap_wf h -> base_ h = HEAP_BASE -> size_ h = HEAP_SIZE ->
  mem_wf (s <| mm ::= fun x => x <| heap_ := h |> |>).
Proof. intros [[] ? ? ? ? ? ?] ???. by constructor; [constructor|..]. Qed.

Lemma keeps_regions_refl s s' : mm s' = mm s -> hmem s' = hmem s -> keeps_regions s s'.
Proof.
  intros E1 E2. split; [by rewrite E1|]. intros r Hr. rewrite E1. split; [done|].
  intros b m _ _. unfold host_read. by rewrite E1, E2.
Qed.

Lemma no_change_live s s' : mm s' = mm s -> forall b k, live s' b k <-> live s b k.
Proof. unfold live. by intros ->. Qed.

Lemma host_read_mm s s' b m : regions_ (mm s') = regions_ (mm s) -> hmem s' = hmem s ->
  host_read b m s' = host_read b m s.
Proof. unfold host_read. by intros -> ->. Qed.

Lemma mapped_keeps s s1 s' r :
  table_wf s -> table_wf s1 -> mapped_at s s1 r -> regions_ (mm s') = regions_ (mm s1) ->
  qemu_ready_ (mm s') = qemu_ready_ (mm s1) -> hmem s' = hmem s1 -> keeps_regions s s'.
Proof.
  intros Hw Hw1 Hm Er Eq Eh. split; [by rewrite Eq, (ma_mm _ _ _ Hm)|].
  intros q Hq. split.
  - rewrite Er, (ma_mm _ _ _ Hm). apply elem_of_app. by left.
  - intros b m ??. rewrite (host_read_mm s1 s') by done. by eapply mapped_read.
Qed.

Lemma alloc_guest_dynamic s n al p s' :
  mem_wf s -> pow2 al -> 0 < n -> dyn_room s n al ->
  (let aligned_size := align_up n PAGE_SIZE in
   let dynamic_alignment := Z.max al PAGE_SIZE in
   let address := align_up (next_dynamic_alloc_ (mm s)) dynamic_alignment in
   match mem_map address aligned_size (Z.lor MEM_READ MEM_WRITE) "HeapDynamic" s with
   | (false, s2) => (0, s2)
   | (true, s2) =>
       (address, s2 <| mm ::= fun m =>
                   m <| dynamic_allocations_ ::= <[address := aligned_size]> |>
                     <| next_dynamic_alloc_ := address ⊕ aligned_size |> |>)
   end) = (p, s') ->
  mem_wf s' /\ keeps_regions s s' /\
  ((p = 0 /\ forall b k, live s' b k <-> live s b k) \/
   (p <> 0 /\ (al | p) /\ exists m, n <= m /\ adds_live s s' p m)).
Proof.
  intros H Hal Hn Hroom. pose proof (mw_next s H) as Hnx. unfold dyn_room in Hroom.
  destruct (pow2_max al PAGE_SIZE Hal pow2_page) as [Hdal Hdiv].
  destruct (align_up_mask n PAGE_SIZE pow2_page) as (q1 & Eq1 & Hq1);
    [lia|unfold PAGE_SIZE, DYNAMIC_ALLOC_BASE in *; lia|].
  destruct (align_up_mask (next_dynamic_alloc_ (mm s)) _ Hdal) as (q2 & Eq2 & Hq2);
    [unfold DYNAMIC_ALLOC_BASE in *; lia|unfold PAGE_SIZE, DYNAMIC_ALLOC_BASE in *; lia|].
  fold (align_up n PAGE_SIZE) in Eq1.
  fold (align_up (next_dynamic_alloc_ (mm s)) (Z.max al PAGE_SIZE)) in Eq2.
  cbv zeta. set (sz := align_up n PAGE_SIZE) in *. set (a := align_up _ (Z.max al _)) in *.
  clearbody sz a.
  destruct (mem_map a sz _ _ s) as [[] s2] eqn:Hmap; intros [= <- <-].
  - apply mem_map_true in Hmap as [hp Hm].
    assert (Hw : table_wf s2).
    { eapply mapped_table; [apply H|done|cbn; unfold DYNAMIC_ALLOC_BASE in *; lia..|].
      intros q Hq. left. pose proof (mw_below s H q Hq). cbn. lia. }
    split_and!.
    + apply (dyn_mapped_wf s s2 _ H Hm); cbn; [done|lia|lia].
    + by eapply mapped_keeps; [apply H|exact Hw|exact Hm|..].
    + right. split_and!.
      * unfold DYNAMIC_ALLOC_BASE in *. lia.
      * rewrite Eq2. by apply Z.divide_mul_l.
      * exists sz. split; [lia|]. eapply dyn_step_live; [done|lia|].
        right. eexists. apply Hm.
  - apply mem_map_false in Hmap as (E1 & E2 & E3). split_and!.
    + destruct H as [[] ? ? ? ? ? ?]. by constructor; [constructor|..]; rewrite ?E1, ?E3.
    + by apply keeps_regions_refl.
    + left. split; [done|]. by apply no_change_live.
Qed.

Lemma alloc_guest_cases s n al p s' :
  mem_wf s -> pow2 al -> 0 <= n -> no_wrap (heap_ (mm s)) (request n) al ->
  dyn_room s (request n) al -> allocate_guest_memory n al s = (p, s') ->
  mem_wf s' /\ keeps_regions s s' /\
  ((p = 0 /\ forall b k, live s' b k <-> live s b k) \/
   (p <> 0 /\ (al | p) /\ exists m, request n <= m /\ adds_live s s' p m)).
Proof.
  intros H Hal Hn Hnw Hroom. pose proof (request_pos n Hn) as Hpos.
  unfold allocate_guest_memory. fold (request n).
  destruct (allocate (request n) al (heap_ (mm s))) as [ptr h1] eqn:Ha.
  assert (Hrr : request (request n) = request n).
  { unfold request. destruct (Z.eqb_spec n 0); [done|]. by destruct (Z.eqb_spec n 0). }
  apply allocate_cases in Ha as (Hw1 & Hb & Hs & Hcase);
    [|apply H|done|lia|by rewrite Hrr]. rewrite Hrr in Hcase.
  rewrite (mw_heap_base s H) in Hb. rewrite (mw_heap_size s H) in Hs.
  pose proof (heap_only_wf s h1 H Hw1 Hb Hs) as Hwf1.
  destruct Hcase as [[-> ->]|[Hne Hal']].
  - cbn [negb Z.eqb].
    assert (Es : s <| mm ::= fun m => m <| heap_ := heap_ (mm s) |> |> = s)
      by (by destruct s as [[]]). rewrite Es.
    apply alloc_guest_dynamic; auto.
  - rewrite (proj2 (Z.eqb_neq _ _) Hne). intros [= <- <-]. split; [done|].
    split; [split; [done|]; intros r Hr; split; [done|]; intros; by apply host_read_mm|].
    right. destruct Hal' as [Hdiv Hlo Hhi Hfr Hl _]. split_and!; [done..|].
    exists (request n). split; [lia|].
    rewrite (mw_heap_base s H), ?(mw_heap_size s H) in *.
    apply heap_step_live; auto.
Qed.

Lemma free_guest_dyn s a n : mem_wf s -> dynamic_allocations_ (mm s) !! a = Some n ->
  exists r rest s', unmap a n (s <| mm ::= fun m => m <| dynamic_allocations_ ::= delete a |> |>)
      = (true, s') /\ table_wf s' /\ r_address r = a /\ r_size r = n /\ hmem s' = hmem s /\
    mm s' = (mm s) <| dynamic_allocations_ ::= delete a |> <| regions_ := rest |> /\
    forall q, q ∈ rest <-> q ∈ regions_ (mm s) /\ q <> r.
Proof.
  intros H Hd. apply (mw_dyn s H) in Hd as (_ & q & Hq & Ha & Hn & _).
  set (s1 := s <| mm ::= _ |>).
  assert (Hw1 : table_wf s1) by (destruct H as [[] ? ? ? ? ? ?]; by constructor).
  destruct (unmap a n s1) as [[] s'] eqn:Hu.
  - apply unmap_true in Hu as (r & ? & ? & ? & (rest & Em & Hiff) & ? & ?); [|done].
    exists r, rest, s'. split_and!; try done.
  - exfalso. unfold unmap in Hu.
    destruct (take_region_exists a n (regions_ (mm s1)) q) as [[x y] Ht]; [done..|].
    by rewrite Ht in Hu.
Qed.

(** The effect of [free_guest_memory a] on state [s]. *)
Definition frees s (a : Z) s' : Prop :=
  mem_wf s' /\ heap_mapped s' /\ qemu_ready_ (mm s') = qemu_ready_ (mm s) /\ hmem s' = hmem s /\
  (forall b k, live s' b k <-> live s b k /\ b <> a) /\
  (forall q, q ∈ regions_ (mm s) -> q ∈ regions_ (mm s') \/
     dynamic_allocations_ (mm s) !! a = Some (r_size q) /\ r_address q = a).

Lemma live_bounds s a n : mem_wf s -> live s a n -> 0 < a.
Proof.
  intros H [Hl|Hl]; [apply live_heap in Hl|apply live_dyn in Hl]; try done;
    unfold HEAP_BASE, DYNAMIC_ALLOC_BASE in *; lia.
Qed.

Lemma frees_null s : mem_wf s -> heap_mapped s -> frees s 0 s.
Proof.
  intros H Hh. split_and!; auto. intros b k. split; [|tauto]. intros Hl. split; [done|].
  apply live_bounds in Hl; [lia|done].
Qed.

Lemma frees_heap s a : mem_wf s -> heap_mapped s -> dynamic_allocations_ (mm s) !! a = None ->
  frees s a (s <| mm ::= fun m => m <| heap_ ::= free a |> |>).
Proof.
  intros H Hh Hd. destruct (free_cases _ a (mw_heap s H)) as (Hw & Hb & Hs & _ & Hal & _).
  rewrite (mw_heap_base s H) in Hb. rewrite (mw_heap_size s H) in Hs.
  split_and!; try done.
  - exact (heap_only_wf s (free a (heap_ (mm s))) H Hw Hb Hs).
  - intros b k. unfold live. cbn. rewrite Hal, lookup_delete_Some. split; [|naive_solver].
    intros [[]|Hk]; [naive_solver|]. split; [by right|]. intros ->. congruence.
  - intros q Hq. by left.
Qed.

Lemma frees_dyn s s' a n r rest :
  mem_wf s -> heap_mapped s -> dynamic_allocations_ (mm s) !! a = Some n ->
  table_wf s' -> r_address r = a -> r_size r = n -> hmem s' = hmem s ->
  mm s' = (mm s) <| dynamic_allocations_ ::= delete a |> <| regions_ := rest |> ->
  (forall q, q ∈ rest <-> q ∈ regions_ (mm s) /\ q <> r) -> frees s a s'.
Proof.
  intros H Hh Hd Ht Ha Hn Eh Em Hiff. pose proof (live_dyn _ _ _ H Hd) as (? & ? & ?).
  split_and!; try done.
  - constructor; rewrite ?Em; cbn; try apply H; [done| |].
    + intros q [Hq _]%Hiff. by apply (mw_below s H).
    + intros b k [Hb Hk]%lookup_delete_Some.
      apply (mw_dyn s H) in Hk as (? & q & Hq & <- & <- & ?). split; [done|].
      exists q. split_and!; try done. apply Hiff. split; [done|]. congruence.
  - destruct Hh as (q & Hq & Hin). exists q. rewrite Em. cbn. rewrite Hiff. split_and!; try done.
    intros ->. destruct Hin. unfold HEAP_BASE, DYNAMIC_ALLOC_BASE in *. lia.
  - by rewrite Em.
  - intros b k. unfold live. rewrite Em. cbn. rewrite lookup_delete_Some.
    split; [|naive_solver]. intros [Hb|[]]; [|naive_solver]. split; [by left|].
    intros ->. apply live_heap in Hb; [|done].
    unfold HEAP_BASE, HEAP_SIZE, DYNAMIC_ALLOC_BASE in *. lia.
  - intros q Hq. rewrite Em. cbn. rewrite Hiff.
    destruct (decide (r_address q = a /\ r_size q = n)) as [[<- <-]|]; [by right|].
    left. split; [done|]. intros ->. naive_solver.
Qed.

Lemma free_guest_cases s a : mem_wf s -> heap_mapped s -> frees s a (free_guest_memory a s).
Proof.
  intros H Hh. unfold free_guest_memory. destruct (Z.eqb_spec a 0) as [->|Hne].
  { by apply frees_null. }
  destruct (dynamic_allocations_ (mm s) !! a) as [n|] eqn:Hd.
  - destruct (free_guest_dyn s a n H Hd) as (r & rest & s' & -> & ? & ? & ? & ? & ? & ?).
    by eapply frees_dyn.
  - by apply frees_heap.
Qed.

(** Freeing one block leaves the bytes of every other live block alone. *)
Lemma free_guest_reads s a b k c j : mem_wf s -> heap_mapped s -> live s b k -> b <> a ->
  0 < j -> b <= c -> c + j <= b + k ->
  host_read c j (free_guest_memory a s) = host_read c j s.
Proof.
  intros H Hh Hl Hne ???.
  destruct (free_guest_cases s a H Hh) as (H' & Hh' & _ & Eh & Hlv & Hreg).
  destruct (live_backed s b k H Hh Hl) as (? & ? & ? & r & Hr & [Hin1 Hin2]).
  destruct (Hreg r Hr) as [Hr'|[Hd <-]].
  - rewrite !(host_read_inside _ r); try done;
      [by rewrite Eh|by apply mw_regions|split; lia|by apply mw_regions|split; lia].
  - exfalso. destruct (live_disjoint s (r_address r) (r_size r) b k); try done;
      [by right|lia..].
Qed.

(** ** Growing a block *)

Lemma alloc_get_size s a n : mem_wf s -> live s a n -> get_guest_allocation_size a s = n.
Proof.
  intros H Hl. unfold get_guest_allocation_size, get_allocation_size.
  destruct Hl as [Hl|Hl].
  - rewrite Hl. cbn. apply live_heap in Hl; [|done].
    rewrite (proj2 (Z.eqb_neq _ _)) by lia. done.
  - destruct (allocations_ (heap_ (mm s)) !! a) as [k|] eqn:Hk; cbn; [|by rewrite Hl].
    exfalso. apply live_heap in Hk; [|done]. apply live_dyn in Hl; [|done].
    unfold HEAP_BASE, HEAP_SIZE, DYNAMIC_ALLOC_BASE in *. lia.
Qed.

Lemma keeps_live_read s s' b k : mem_wf s -> heap_mapped s -> keeps_regions s s' ->
  live s b k -> host_read b k s' = host_read b k s.
Proof.
  intros H Hh [_ Hk] Hl. destruct (live_backed s b k H Hh Hl) as (? & _ & _ & r & Hr & Hin).
  by apply (Hk r Hr).
Qed.

Lemma keeps_heap_mapped s s' : heap_mapped s -> keeps_regions s s' -> heap_mapped s'.
Proof. intros (r & Hr & Hin) [_ Hk]. exists r. split; [by apply Hk|done]. Qed.

Lemma copied_read_other s h q p m a n b k : mem_wf s -> heap_mapped s -> live s p m ->
  q ∈ regions_ (mm s) -> 0 < n <= m -> inside p n q ->
  (forall x, in_u64 x -> h x = copied (hmem s) (host_addr q p) a n x) ->
  live s b k -> b <> p -> host_read b k (s <| hmem := h |>) = host_read b k s.
Proof.
  intros H Hh Hlp Hq Hn Hinq Hx Hb Hbp. pose proof (mw_regions s H) as Hwf.
  destruct (live_backed s b k H Hh Hb) as (? & ? & ? & t & Ht & Hint).
  rewrite !(host_read_inside _ t) by done. f_equal. cbn.
  pose proof (regions_ok _ _ Hwf Ht) as Htok. pose proof (regions_ok _ _ Hwf Hq) as Hqok.
  destruct (host_addr_inside t b k Htok ltac:(lia) Hint) as (_ & ? & ?).
  destruct (host_addr_inside q p n Hqok ltac:(lia) Hinq) as (_ & ? & ?).
  assert (Hdh : disj (host_addr t b) k (host_addr q p) n).
  { apply (host_disjoint (regions_ (mm s))); auto; try lia.
    pose proof (live_disjoint s b k p m H Hb Hlp Hbp). unfold disj in *. lia. }
  destruct Hqok, Htok. apply host_load_ext; [lia..|]. intros x Hin0.
  rewrite Hx by (split; lia). apply copied_out. unfold disj in Hdh. lia.
Qed.

Lemma set_hmem_wf s h : mem_wf s -> mem_wf (s <| hmem := h |>).
Proof. intros [[] ? ? ? ? ? ?]. by constructor; [constructor|..]. Qed.

(** The contents after a copy between two live blocks: the target's prefix
    reads like the source, every other live block is unchanged. *)
Lemma copy_live s a n p m : mem_wf s -> heap_mapped s -> qemu_ready_ (mm s) = false ->
  live s a n -> live s p m -> a <> p -> n <= m ->
  exists h, copy_loop (chunk_fuel n COPY_CHUNK) a p n 0 s = (true, s <| hmem := h |>) /\
    host_read p n (s <| hmem := h |>) = host_read a n s /\
    forall b k, live s b k -> b <> p -> host_read b k (s <| hmem := h |>) = host_read b k s.
Proof.
  intros H Hh Hm Hla Hlp Hne Hnm. pose proof (mw_regions s H) as Hwf.
  destruct (live_backed s a n H Hh Hla) as (? & ? & ? & r & Hr & Hin).
  destruct (live_backed s p m H Hh Hlp) as (? & ? & ? & q & Hq & Hin').
  assert (Hinq : inside p n q) by (destruct Hin'; split; lia).
  pose proof (live_disjoint s p m a n H Hlp Hla ltac:(congruence)) as Hd.
  destruct (copy_loop_spec (chunk_fuel n COPY_CHUNK) s r q a p n 0) as (h & Hl & Hx);
    try done; [unfold disj in *; lia|lia| |unfold chunk_fuel; lia|].
  { pose proof (chunk_fuel_enough n COPY_CHUNK ltac:(lia) ltac:(unfold COPY_CHUNK; lia)).
    unfold COPY_CHUNK in *. nia. }
  rewrite !Z.add_0_r, Z.sub_0_r in Hx. exists h. split; [done|].
  pose proof (regions_ok _ _ Hwf Hr) as Hrok. pose proof (regions_ok _ _ Hwf Hq) as Hqok.
  destruct (host_addr_inside r a n Hrok ltac:(lia) Hin) as (_ & ? & ?).
  destruct (host_addr_inside q p n Hqok ltac:(lia) Hinq) as (_ & ? & ?).
  split.
  - rewrite (host_read_inside _ q) by done. rewrite (host_read_inside s r) by done. f_equal. cbn.
    destruct Hrok, Hqok.
    trans (host_load (copied (hmem s) (host_addr q p) (host_addr r a) n) (host_addr q p) n).
    + apply host_load_ext; [lia..|]. intros x Hin0. apply Hx. split; lia.
    + apply host_load_copied; lia.
  - intros b k Hb Hbp. apply (copied_read_other s h q p m (host_addr r a) n); done || lia.
Qed.

(** * Properties *)

(** Reading back what a successful write wrote.  Before QEMU is ready and
    after; the one exception is excluded by the hypothesis: QEMU refusing the
    write (so that it goes to the host copy of the region) and then accepting
    the read of the same range. *)
Theorem mem_write_read `{!GuestMemLaws E} s a bs s' :
  Z.of_nat (length bs) < two64 -> mem_write a bs s = (true, s') ->
  (use_qemu s = true -> (rw_debug_write a bs (ext s)).1 = false ->
   rw_debug_read a (Z.of_nat (length bs)) (ext s') = None) ->
  mem_read a (Z.of_nat (length bs)) s' = Some bs.
Proof.
  intros Hl. unfold mem_write, mem_read. destruct (use_qemu s) eqn:Hq; intros Hw Hfb.
  - pose proof (has_cpu_rw_write a bs (ext s)) as Hcpu.
    destruct (rw_debug_write a bs (ext s)) as [[] e1] eqn:Hrw; cbn in *.
    + injection Hw as <-. unfold use_qemu in *. cbn. rewrite Hcpu, Hq.
      by rewrite (rw_read_write _ _ _ _ Hrw).
    + rewrite (Hfb eq_refl eq_refl).
      assert (Hr : host_read a (Z.of_nat (length bs)) s' = Some bs)
        by (eapply host_read_host_write; [lia|done]).
      by destruct (use_qemu s').
  - assert (Hr : host_read a (Z.of_nat (length bs)) s' = Some bs)
      by (eapply host_read_host_write; [lia|done]).
    apply host_write_spec in Hw as (r & _ & ->). unfold use_qemu in *. cbn. by rewrite Hq.
Qed.

(** A write, successful or not, changes no byte outside its range: with
    regions that do not share guest or host bytes, every read of a disjoint
    range returns what it returned before, in QEMU mode and before it. *)
Theorem mem_write_frame `{!GuestMemLaws E} s a bs ok s' b m :
  regions_wf (regions_ (mm s)) -> bs <> [] -> 0 <= a -> a + Z.of_nat (length bs) < two64 ->
  0 < m -> 0 <= b -> b + m < two64 -> disj a (Z.of_nat (length bs)) b m ->
  mem_write a bs s = (ok, s') -> mem_read b m s' = mem_read b m s.
Proof.
  intros Hwf Hne ?? ??? Hd.
  assert (Hhost : forall s1 ok s2, regions_ (mm s1) = regions_ (mm s) ->
    host_write a bs s1 = (ok, s2) ->
    host_read b m s2 = host_read b m s1 /\ mm s2 = mm s1 /\ ext s2 = ext s1).
  { intros s1 [] s2 Er Hw.
    - split; [eapply (host_read_write_disj s1 a bs s2); rewrite ?Er; done|].
      by apply host_write_spec in Hw as (r & _ & ->).
    - unfold host_write in Hw. destruct (find_region _ _); [done|]. by injection Hw as <-. }
  unfold mem_write, mem_read. destruct (use_qemu s) eqn:Hq; intros Hw.
  - pose proof (has_cpu_rw_write a bs (ext s)) as Hcpu.
    destruct (rw_debug_write a bs (ext s)) as [okw e1] eqn:Hrw; cbn in *.
    pose proof (rw_read_write_disj a bs b m _ _ _ Hrw Hd) as Hfr.
    assert (Hs' : host_read b m s' = host_read b m s /\ mm s' = mm s /\ ext s' = e1).
    { destruct okw; [by injection Hw as <- <-|].
      apply Hhost in Hw as (Hr & ? & ?); [|done]. by rewrite Hr. }
    destruct Hs' as (Hr & Em & Ee). unfold use_qemu in *. rewrite Em, Ee, Hcpu, Hq, Hr, Hfr. done.
  - apply Hhost in Hw as (Hr & Em & Ee); [|done]. unfold use_qemu in *. by rewrite Em, Ee, Hq.
Qed.

(** A successful [map] of a range no region meets adds a region that reads
    as zeroes (before QEMU is ready), reports all of it as mapped, keeps the
    table well-formed and does not disturb the bytes of the other regions. *)
Theorem mem_map_zeroed s a n p nm s' :
  table_wf s -> 0 <= a -> a + n < two64 ->
  (forall q, q ∈ regions_ (mm s) -> disj (r_address q) (r_size q) a n) ->
  mem_map a n p nm s = (true, s') ->
  table_wf s' /\
  (forall x, a <= x < a + n -> is_mapped x s' = true) /\
  (forall b m, 0 < m -> a <= b -> b + m <= a + n ->
     host_read b m s' = Some (replicate (Z.to_nat m) 0)) /\
  (forall q b m, q ∈ regions_ (mm s) -> 0 < m -> inside b m q ->
     host_read b m s' = host_read b m s).
Proof.
  intros Hw Ha Hn Hd (hp & Hm)%mem_map_true.
  assert (Hw' : table_wf s') by (by eapply mapped_table).
  assert (Hin : new_region a n p nm hp ∈ regions_ (mm s')).
  { rewrite (ma_mm _ _ _ Hm). apply elem_of_app. right. by left. }
  split_and!; [done| | |].
  - intros x Hx. unfold is_mapped. apply existsb_exists. eexists. split; [by apply list_elem_of_In|].
    cbn. u64_simpl. apply andb_true_iff. rewrite Z.leb_le, Z.ltb_lt. lia.
  - intros b m ???. rewrite (host_read_inside _ (new_region a n p nm hp)) by
      (try done; try apply Hw'; split; cbn; lia). f_equal.
    pose proof (regions_ok _ _ (tw_regions _ Hw') Hin) as Hok.
    destruct (host_addr_inside _ b m Hok ltac:(lia) ltac:(split; cbn; lia)) as (_ & ? & ?).
    destruct Hok. rewrite (ma_hmem _ _ _ Hm). apply host_load_fill; cbn in *; lia.
  - intros. by eapply mapped_read.
Qed.

(** [zero] terminates, succeeds on every range inside a mapped region
    (before QEMU is ready) however many chunks it takes, leaves exactly that
    range zero and changes no other byte of host memory. *)
Theorem zero_correct s r a n :
  qemu_ready_ (mm s) = false -> regions_wf (regions_ (mm s)) -> r ∈ regions_ (mm s) ->
  0 <= n -> inside a n r ->
  exists h, zero_ a n s = (true, s <| hmem := h |>) /\
    (forall b m, 0 < m -> a <= b -> b + m <= a + n ->
       host_read b m (s <| hmem := h |>) = Some (replicate (Z.to_nat m) 0)) /\
    (forall x, in_u64 x -> ~ (host_addr r a <= x < host_addr r a + n) -> h x = hmem s x).
Proof.
  intros Hm Hwf Hr Hn Hin. pose proof (regions_ok _ _ Hwf Hr) as Hok.
  destruct (zero_loop_spec (chunk_fuel n ZERO_CHUNK) s r a n (Z.min n ZERO_CHUNK) 0)
    as (h & Hl & Hx); try done; try (unfold ZERO_CHUNK; lia).
  { pose proof (chunk_fuel_enough n ZERO_CHUNK Hn ltac:(done)). lia. }
  { unfold chunk_fuel. lia. }
  destruct (host_addr_inside r a n Hok Hn Hin) as (E1 & ? & ?).
  rewrite Z.add_0_r, Z.sub_0_r in Hx. destruct Hin as [Hin1 Hin2].
  exists h. split_and!; [done| |].
  - intros b m ???. rewrite (host_read_inside _ r) by (try done; split; lia). f_equal. cbn.
    destruct (host_addr_inside r b m Hok ltac:(lia) ltac:(split; lia)) as (E2 & ? & ?).
    destruct Hok. rewrite <- (host_load_fill (hmem s) (host_addr r a) n 0 (host_addr r b) m) by lia.
    apply host_load_ext; [lia..|]. intros x ?. apply Hx. split; lia.
  - intros x Hu ?. rewrite Hx by done. destruct Hok. apply host_fill_other; auto; lia.
Qed.

(** The state after synchronising a prefix of the regions: only the outside
    world changed, and it holds the host bytes of those regions. *)
Lemma sync_regions_spec `{!GuestMemLaws E} s l :
  regions_wf l ->
  (forall r e, r ∈ l -> (target_mmap (r_address r) (r_size r) (prot_of (r_perms r)) e).1 = r_address r) ->
  (forall r, r ∈ l -> guest_base_ (mm s) = 0 -> r_address r <> 0) ->
  exists e, foldl sync_region s l = s <| ext := e |> /\ has_cpu e = has_cpu (ext s) /\
    forall r, r ∈ l -> rw_debug_read (r_address r) (r_size r) e
                         = Some (host_load (hmem s) (r_host_ptr r) (r_size r)).
Proof.
  induction l as [|r l IH] using rev_ind; intros Hwf Hmm Hz.
  { exists (ext s). split; [by destruct s|]. split; [done|]. by intros r ?%elem_of_nil. }
  assert (Hwl : regions_wf l).
  { destruct Hwf as [[H1 _]%Forall_app H2]. split; [done|].
    rewrite <- (app_nil_r l). by eapply ForallOrdPairs_remove. }
  destruct IH as (e & Hf & Hc & Hrd); [done|set_solver..|].
  rewrite foldl_app, Hf. cbn [foldl]. unfold sync_region at 1. cbn.
  assert (Hr : r ∈ l ++ [r]) by set_solver.
  destruct (regions_ok _ _ Hwf Hr) as [Ha Hs Ht Hp Hpt].
  rewrite (proj2 (Z.eqb_neq (r_host_ptr r) 0)), (proj2 (Z.eqb_neq (r_size r) 0)) by lia. cbn.
  specialize (Hmm r e Hr). destruct (target_mmap _ _ _ _) as [a1 e1] eqn:Hmap. cbn in Hmm. subst a1.
  assert (Hz' : (guest_base_ (mm s) =? 0) && (r_address r =? 0) = false).
  { apply andb_false_iff. destruct (Z.eqb_spec (guest_base_ (mm s)) 0) as [Hb|]; [right|by left].
    apply Z.eqb_neq. by apply Hz. }
  rewrite Hz'. set (bs := host_load _ _ _).
  assert (Hlen : Z.of_nat (length bs) = r_size r) by (unfold bs; rewrite length_host_load; lia).
  pose proof (mmap_write _ _ _ bs _ _ Hmap Hlen) as Hok.
  pose proof (has_cpu_rw_write (r_address r) bs e1) as Hc2.
  pose proof (has_cpu_target_mmap (r_address r) (r_size r) (prot_of (r_perms r)) e) as Hc1.
  rewrite Hmap in Hc1. cbn in Hc1.
  destruct (rw_debug_write (r_address r) bs e1) as [ok e2] eqn:Hw. cbn in *. subst ok.
  exists e2. split_and!; [done|congruence|]. intros q [Hq| ->%list_elem_of_singleton]%elem_of_app.
  - rewrite (rw_read_write_disj _ _ _ _ _ _ _ Hw).
    + pose proof (mmap_read_disj (r_address r) (r_size r) (prot_of (r_perms r)) (r_address q) (r_size q) e)
        as Hfr. rewrite Hmap in Hfr. cbn in Hfr. rewrite Hfr; [by apply Hrd|].
      apply disj_sym. eapply (ForallOrdPairs_last_apart l); eauto. apply Hwf.
    + rewrite Hlen. apply disj_sym. eapply (ForallOrdPairs_last_apart l); eauto. apply Hwf.
  - pose proof (rw_read_write _ _ _ _ Hw) as Hx. by rewrite Hlen in Hx.
Qed.

(** Switching to QEMU loses nothing: if QEMU grants the fixed mappings, then
    after [set_qemu_ready] every read inside a region that was possible before
    returns the same bytes, now from guest memory.  (A region at guest address
    0 is left out when [guest_base] is 0, as the code does.) *)
Theorem set_qemu_ready_keeps `{!GuestMemLaws E} s base r b m :
  qemu_ready_ (mm s) = false -> has_cpu (ext s) = true -> regions_wf (regions_ (mm s)) ->
  (forall q e, q ∈ regions_ (mm s) ->
     (target_mmap (r_address q) (r_size q) (prot_of (r_perms q)) e).1 = r_address q) ->
  (forall q, q ∈ regions_ (mm s) -> base = 0 -> r_address q <> 0) ->
  r ∈ regions_ (mm s) -> 0 < m -> inside b m r ->
  mem_read b m (set_qemu_ready base s) = mem_read b m s /\
  use_qemu (set_qemu_ready base s) = true.
Proof.
  intros Hm Hcpu Hwf Hmm Hz Hr Hb Hin. unfold set_qemu_ready.
  set (s1 := s <| mm ::= _ |>). replace (has_cpu (ext s1)) with true by done.
  destruct (sync_regions_spec s1 (regions_ (mm s1))) as (e & -> & Hc & Hrd); [done..|].
  assert (Hu : use_qemu (s1 <| ext := e |>) = true) by (unfold use_qemu; cbn; by rewrite Hc).
  split; [|done]. rewrite (host_mode_read s), (host_read_inside s r) by done.
  unfold mem_read. rewrite Hu. cbn.
  pose proof (regions_ok _ _ Hwf Hr) as Hok. destruct (host_addr_inside r b m Hok ltac:(lia) Hin) as (Ea & ? & ?).
  destruct Hok, Hin. rewrite (rw_read_sub _ _ b m _ _ (Hrd r Hr)) by lia. f_equal. cbn.
  rewrite (host_load_sub _ (r_host_ptr r) (r_size r) (host_addr r b)) by lia.
  by replace (host_addr r b - r_host_ptr r) with (b - r_address r) by lia.
Qed.

(** The guest allocator on a well-formed manager (no wrap-around of the heap
    or the dynamic area): either it returns 0 and no block becomes live, or it
    returns a non-null address that is a multiple of the alignment, where a
    block at least as large as requested is now live, disjoint from every live
    block (heap or dynamic) and backed by one mapped region.  Well-formedness
    and the bytes of all older live blocks are kept. *)
Theorem allocate_guest_sound s n al p s' :
  mem_wf s -> heap_mapped s -> pow2 al -> 0 <= n ->
  no_wrap (heap_ (mm s)) (request n) al -> dyn_room s (request n) al ->
  allocate_guest_memory n al s = (p, s') ->
  mem_wf s' /\ heap_mapped s' /\
  (forall b k, live s b k -> host_read b k s' = host_read b k s) /\
  ((p = 0 /\ forall b k, live s' b k <-> live s b k) \/
   (p <> 0 /\ (al | p) /\ exists m r, request n <= m /\
      (forall b k, live s' b k <-> (b = p /\ k = m) \/ live s b k) /\
      (forall b k, live s b k -> disj p m b k) /\
      r ∈ regions_ (mm s') /\ inside p m r)).
Proof.
  intros H Hh Hal Hn Hnw Hroom Ha.
  destruct (alloc_guest_cases s n al p s' H Hal Hn Hnw Hroom Ha) as (H' & Hk & Hc).
  pose proof (keeps_heap_mapped s s' Hh Hk) as Hh'.
  split_and!; [done..| |].
  - intros b k. by apply keeps_live_read.
  - destruct Hc as [?|(? & ? & m & ? & Hl & Hd)]; [by left|right]. split_and!; try done.
    destruct (live_backed s' p m H' Hh') as (_ & _ & _ & r & ? & ?); [apply Hl; by left|].
    by exists m, r.
Qed.

(** Freeing guest memory (heap or dynamic, or an address that is no live
    block) keeps the manager well-formed, retires exactly the block at that
    address, and leaves the bytes of every other live block as they were. *)
Theorem free_guest_sound s a :
  mem_wf s -> heap_mapped s ->
  mem_wf (free_guest_memory a s) /\ heap_mapped (free_guest_memory a s) /\
  (forall b k, live (free_guest_memory a s) b k <-> live s b k /\ b <> a) /\
  (forall b k, live s b k -> b <> a -> host_read b k (free_guest_memory a s) = host_read b k s).
Proof.
  intros H Hh. destruct (free_guest_cases s a H Hh) as (? & ? & _ & _ & ? & _).
  split_and!; try done. intros b k Hl Hne.
  destruct (live_backed s b k H Hh Hl) as (? & _). apply (free_guest_reads s a b k); done || lia.
Qed.

(** What a successful growing [realloc_guest_memory] does, in the order of the
    code: allocate, copy, free the old block. *)
Lemma realloc_grow s s1 a old p m :
  mem_wf s -> heap_mapped s -> qemu_ready_ (mm s) = false -> live s a old ->
  mem_wf s1 -> keeps_regions s s1 -> adds_live s s1 p m -> old < m ->
  exists s2, copy_loop (chunk_fuel old COPY_CHUNK) a p old 0 s1 = (true, s2) /\
    mem_wf (free_guest_memory a s2) /\ p <> a /\
    (forall b k, live (free_guest_memory a s2) b k <-> live s1 b k /\ b <> a) /\
    mem_read p old (free_guest_memory a s2) = mem_read a old s /\
    (forall b k, live s b k -> b <> a ->
       host_read b k (free_guest_memory a s2) = host_read b k s).
Proof.
  intros H Hh Hm Hla Hw1 Hk [Hadd Hfr] Hlt.
  pose proof (keeps_heap_mapped s s1 Hh Hk) as Hh1.
  destruct (live_backed s a old H Hh Hla) as (? & ? & ? & _).
  assert (Hpa : p <> a) by (intros ->; pose proof (Hfr a old Hla); unfold disj in *; lia).
  assert (Hla1 : live s1 a old) by (apply Hadd; auto).
  assert (Hlp1 : live s1 p m) by (apply Hadd; auto).
  assert (Hm1 : qemu_ready_ (mm s1) = false) by (rewrite <- Hm; apply Hk).
  destruct (copy_live s1 a old p m Hw1 Hh1 Hm1 Hla1 Hlp1) as (h & Hc & Hrd & Hoth); [done|lia|].
  exists (s1 <| hmem := h |>). set (s2 := s1 <| hmem := h |>) in *.
  pose proof (set_hmem_wf s1 h Hw1 : mem_wf s2) as Hw2.
  assert (Hh2 : heap_mapped s2) by exact Hh1.
  destruct (free_guest_cases s2 a Hw2 Hh2) as (Hw3 & Hh3 & Hq3 & _ & Hlv & _).
  split_and!; try done.
  - rewrite !host_mode_read by (done || by rewrite Hq3).
    rewrite (free_guest_reads s2 a p m p old) by (done || lia).
    rewrite Hrd. by apply keeps_live_read.
  - intros b k Hb Hba. assert (b <> p) by (intros ->; pose proof (Hfr p k Hb);
      destruct (live_backed s p k H Hh Hb) as (? & _); unfold disj in *; lia).
    assert (Hb1 : live s1 b k) by (apply Hadd; auto).
    destruct (live_backed s b k H Hh Hb) as (? & _).
    rewrite (free_guest_reads s2 a b k b k) by (done || lia).
    rewrite Hoth by done. by apply keeps_live_read.
Qed.

(** Resizing a live block (before QEMU is ready): it fails only when growing,
    and then changes no live block and none of their bytes; otherwise the
    returned block is live, at least as large as asked, holds the old contents
    up to the smaller of both sizes, the old block is gone unless it was
    resized in place, and all other live blocks and their bytes are kept. *)
Theorem realloc_guest_contents s a old n p s' :
  mem_wf s -> heap_mapped s -> qemu_ready_ (mm s) = false -> live s a old -> 0 < n ->
  no_wrap (heap_ (mm s)) n 16 -> dyn_room s n 16 ->
  realloc_guest_memory a n true s = (p, s') ->
  mem_wf s' /\
  ((p = 0 /\ old < n /\ (forall b k, live s' b k <-> live s b k) /\
    (forall b k, live s b k -> host_read b k s' = host_read b k s)) \/
   (p <> 0 /\ (exists m, n <= m /\ live s' p m) /\
    mem_read p (Z.min old n) s' = mem_read a (Z.min old n) s /\
    (forall b k, b <> p -> live s' b k <-> live s b k /\ b <> a) /\
    (forall b k, live s b k -> b <> a -> host_read b k s' = host_read b k s))).
Proof.
  intros H Hh Hm Hla Hn Hnw Hroom. unfold realloc_guest_memory.
  pose proof (live_bounds s a old H Hla). destruct (live_backed s a old H Hh Hla) as (? & _).
  rewrite (proj2 (Z.eqb_neq a 0)), (proj2 (Z.eqb_neq n 0)) by lia.
  rewrite (alloc_get_size s a old H Hla), (proj2 (Z.eqb_neq old 0)) by lia.
  assert (Hreq : request n = n) by (unfold request; by rewrite (proj2 (Z.eqb_neq n 0)) by lia).
  destruct (Z.leb_spec n old).
  { intros [= <- <-]. split; [done|right]. split_and!; [lia|by exists old|done| |done].
    intros b k Hne. tauto. }
  destruct (allocate_guest_memory n 16 s) as [na s1] eqn:Ha.
  apply alloc_guest_cases in Ha as (Hw1 & Hk & Hc); rewrite ?Hreq; auto using pow2_16; [|lia].
  rewrite Hreq in Hc. destruct Hc as [[-> Hl]|(Hne & _ & m & Hmm & Hadd)].
  - cbn. intros [= <- <-]. split; [done|]. left. split_and!; try done.
    intros b k. by apply keeps_live_read.
  - rewrite (proj2 (Z.eqb_neq _ _) Hne).
    destruct (realloc_grow s s1 a old na m) as (s2 & -> & Hw3 & Hna & Hlv & Hrd & Hoth);
      try done; [lia|].
    intros [= <- <-]. split; [done|]. right. rewrite Z.min_l by lia. split_and!; try done.
    + exists m. split; [done|]. apply Hlv. split; [|done]. apply Hadd. by left.
    + intros b k Hb. rewrite Hlv. destruct Hadd as [Hadd _]. rewrite Hadd. naive_solver.
Qed.

(** The bounds test of [read] adds in wrapping arithmetic: whenever some
    region with host memory ends at or above 16, a 32-byte read at 2^64 - 16 is
    accepted before QEMU is ready although no region contains that address,
    and the copy starts beyond the end of the region's host block. *)
Theorem mem_read_wraps s r rest :
  qemu_ready_ (mm s) = false -> regions_ (mm s) = r :: rest -> region_ok r ->
  16 <= r_address r + r_size r < two64 - 16 ->
  Forall (fun q => r_address q + r_size q < two64 - 16) rest -> Forall region_ok rest ->
  mem_read (two64 - 16) 32 s = Some (host_load (hmem s) (host_addr r (two64 - 16)) 32) /\
  is_mapped (two64 - 16) s = false /\
  r_size r < (two64 - 16) - r_address r.
Proof.
  intros Hm Hrs Hok Hr Hrest Hoks. destruct Hok. rewrite host_mode_read by done.
  unfold host_read, is_mapped. rewrite Hrs. cbn [find_region List.find existsb].
  split_and!.
  - unfold region_covers.
    rewrite (proj2 (Z.leb_le _ _)), (proj2 (Z.eqb_neq _ _)) by lia.
    assert (E1 : (two64 - 16) ⊕ 32 = 16) by reflexivity. rewrite E1.
    rewrite u64_small by u64_lia. by rewrite (proj2 (Z.leb_le _ _)) by lia.
  - apply orb_false_iff. split.
    + apply andb_false_iff. right. rewrite u64_small by u64_lia. apply Z.ltb_ge. lia.
    + clear -Hrest Hoks. induction Hrest as [|q l Hq Hl IH]; [done|].
      apply Forall_cons in Hoks as [[] Hoks]. cbn. rewrite IH by done.
      rewrite u64_small by u64_lia. rewrite (proj2 (Z.ltb_ge _ _)) by lia. by rewrite andb_false_r.
  - lia.
Qed.
End Spec.

(** * Witnesses *)

(** A new manager over the concrete boundary, and with one small region. *)
Definition mem0 : mstate (E := RefEnv) := {| mm := new_mm; hmem := fun _ => 7; ext := ref_init |}.
Definition small_mem : mstate (E := RefEnv) := (mem_map 0x1000 64 3 "Small" mem0).2.
Definition small_region : MemoryRegion := new_region 0x1000 64 3 "Small" 0x700000000000.

Lemma small_mem_regions : regions_ (mm small_mem) = [small_region].
Proof. reflexivity. Qed.

Lemma small_region_ok : region_ok small_region.
Proof. by constructor. Qed.

Lemma small_mem_wf : regions_wf (regions_ (mm small_mem)).
Proof. rewrite small_mem_regions. split; [by repeat constructor|repeat constructor]. Qed.

(** A region is mapped for the heap, as at start-up. *)
Definition heap_mem : mstate (E := RefEnv) := (mem_map HEAP_BASE HEAP_SIZE 3 "Heap" mem0).2.
Definition heap_region : MemoryRegion := new_region HEAP_BASE HEAP_SIZE 3 "Heap" 0x700000000000.

Lemma heap_mem_regions : regions_ (mm heap_mem) = [heap_region].
Proof. reflexivity. Qed.

Lemma heap_mem_wf : mem_wf heap_mem.
Proof.
  assert (Hok : region_ok heap_region) by (by constructor).
  constructor; rewrite ?heap_mem_regions; try done.
  - constructor; rewrite heap_mem_regions.
    + split; repeat constructor; apply Hok.
    + intros r ->%list_elem_of_singleton. vm_compute. by left.
  - apply new_heap_wf; done.
  - intros r ->%list_elem_of_singleton. done.
Qed.

Lemma heap_mem_mapped : heap_mapped heap_mem.
Proof. exists heap_region. rewrite heap_mem_regions. split; [by left|by split]. Qed.

Lemma mem_write_read_witness :
  mem_read 0x1004 3 (mem_write 0x1004 [1; 2; 3] small_mem).2 = Some [1; 2; 3].
Proof.
  apply (mem_write_read small_mem 0x1004 [1; 2; 3]); [done|reflexivity|discriminate].
Defined.

Lemma mem_write_frame_witness :
  mem_read 0x1010 4 (mem_write 0x1004 [1; 2; 3] small_mem).2 = Some [0; 0; 0; 0].
Proof.
  rewrite (mem_write_frame small_mem 0x1004 [1; 2; 3] true
    (mem_write 0x1004 [1; 2; 3] small_mem).2 0x1010 4); try done.
  - apply small_mem_wf.
  - by left.
Defined.

Lemma mem_map_zeroed_witness :
  host_read 0x1010 3 (mem_map 0x1000 64 3 "Small" mem0).2 = Some [0; 0; 0].
Proof.
  refine (proj1 (proj2 (proj2 (mem_map_zeroed mem0 0x1000 64 3 "Small" _ _ _ _ _ eq_refl))) 0x1010 3 _ _ _);
    try done.
  - constructor; [split; constructor|by intros r ?%elem_of_nil].
  - by intros q ?%elem_of_nil.
Defined.

Lemma zero_correct_witness : exists h,
  zero_ 0x1008 16 small_mem = (true, small_mem <| hmem := h |>) /\
  host_read 0x1008 16 (small_mem <| hmem := h |>) = Some (replicate 16 0).
Proof.
  destruct (zero_correct small_mem small_region 0x1008 16) as (h & Hz & Hr & _);
    [done|apply small_mem_wf|rewrite small_mem_regions; by left|done|by split|].
  exists h. split; [done|]. by apply (Hr 0x1008 16).
Defined.

Lemma set_qemu_ready_keeps_witness :
  mem_read 0x1004 3 (set_qemu_ready 0x10000 (mem_write 0x1004 [1; 2; 3] small_mem).2)
    = Some [1; 2; 3].
Proof.
  destruct (set_qemu_ready_keeps (mem_write 0x1004 [1; 2; 3] small_mem).2 0x10000 small_region
    0x1004 3) as [-> _]; try done.
  - apply small_mem_wf.
  - by left.
Defined.

Lemma allocate_guest_sound_witness :
  (allocate_guest_memory 0x100 16 heap_mem).1 = HEAP_BASE /\
  mem_wf (allocate_guest_memory 0x100 16 heap_mem).2 /\
  (allocate_guest_memory 0x20000000 16 heap_mem).1 = DYNAMIC_ALLOC_BASE /\
  mem_wf (allocate_guest_memory 0x20000000 16 heap_mem).2.
Proof.
  split_and!; [reflexivity| |reflexivity|].
  - eapply (allocate_guest_sound heap_mem 0x100 16);
      [apply heap_mem_wf|apply heap_mem_mapped|apply pow2_16|done|by split|done|].
    apply surjective_pairing.
  - eapply (allocate_guest_sound heap_mem 0x20000000 16);
      [apply heap_mem_wf|apply heap_mem_mapped|apply pow2_16|done|by split|done|].
    apply surjective_pairing.
Defined.

(** A heap block filled with two bytes, next to a dynamic block. *)
Definition used_mem : mstate (E := RefEnv) :=
  let '(p, s1) := allocate_guest_memory 2 16 heap_mem in
  let '(_, s2) := allocate_guest_memory 0x20000000 16 s1 in
  (mem_write p [0xAB; 0xCD] s2).2.

Lemma used_mem_wf : mem_wf used_mem /\ heap_mapped used_mem.
Proof.
  unfold used_mem.
  destruct (allocate_guest_memory 2 16 heap_mem) as [p s1] eqn:E1.
  assert (Ep : p = HEAP_BASE) by (by injection E1). pose proof E1 as E1'.
  apply alloc_guest_cases in E1 as (H1 & K1 & _);
    [|apply heap_mem_wf|apply pow2_16|done|by split|done].
  injection E1' as Hp1 Hs1.
  destruct (allocate_guest_memory 0x20000000 16 s1) as [q s2] eqn:E2.
  apply alloc_guest_cases in E2 as (H2 & K2 & _);
    [|done|apply pow2_16|done|rewrite <- Hs1; by split|rewrite <- Hs1; done].
  assert (Hh2 : heap_mapped s2)
    by (eapply keeps_heap_mapped, K2; eapply keeps_heap_mapped, K1; apply heap_mem_mapped).
  assert (Hm : exists h, (mem_write p [0xAB; 0xCD] s2).2 = s2 <| hmem := h |>).
  { destruct Hh2 as (r & Hr & [Hin1 Hin2]). rewrite host_mode_write.
    - rewrite (host_write_inside s2 r); [by eexists|by apply mw_regions|done..|].
      subst p. unfold HEAP_BASE, HEAP_SIZE in *. split; cbn; lia.
    - destruct K2 as [-> _]. by rewrite <- Hs1. }
  destruct Hm as [h ->]. split; [by apply set_hmem_wf|exact Hh2].
Qed.

Lemma free_guest_sound_witness :
  mem_wf (free_guest_memory DYNAMIC_ALLOC_BASE used_mem) /\
  ~ live (free_guest_memory DYNAMIC_ALLOC_BASE used_mem) DYNAMIC_ALLOC_BASE 0x20000000.
Proof.
  destruct used_mem_wf as [H1 H2].
  destruct (free_guest_sound used_mem DYNAMIC_ALLOC_BASE H1 H2) as (? & _ & Hl & _).
  split; [done|]. rewrite Hl. naive_solver.
Defined.

Lemma realloc_guest_contents_witness :
  mem_wf (realloc_guest_memory HEAP_BASE 0x40 true used_mem).2 /\
  (realloc_guest_memory HEAP_BASE 0x40 true used_mem).1 = HEAP_BASE + 16.
Proof.
  split; [|vm_compute; reflexivity]. destruct used_mem_wf as [H1 H2].
  eapply (realloc_guest_contents used_mem HEAP_BASE 2 0x40);
    [exact H1|exact H2|reflexivity|left; vm_compute; reflexivity|done
    |split; vm_compute; congruence|done|apply surjective_pairing].
Defined.

Lemma mem_read_wraps_witness : exists bs, mem_read (two64 - 16) 32 small_mem = Some bs.
Proof.
  eexists. apply (mem_read_wraps small_mem small_region []); try done.
Defined.
