(* ===== verification/ThreadTypes.v ===== *)
(** Data of [ThreadManager] (include/thread_manager.h): thread states, saved
    registers, thread contexts, the emulated synchronisation objects and the
    manager's own fields, with the initial values of the class definitions.
    Hash maps keyed by [uint64_t] are finite maps, deques are lists (front
    first), time points are nanoseconds. *)

From S2P Require Import Prelude Env MemoryManager.

Inductive ThreadState :=
  CREATED | RUNNABLE | RUNNING | BLOCKED | SLEEPING | IO_WAIT | TERMINATED.

#[export] Instance ThreadState_eq_dec : EqDecision ThreadState.
Proof. solve_decision. Defined.

Inductive SwitchReason :=
  BLOCKING_OPERATION | PERIODIC_PREEMPTION | EMERGENCY_PREEMPTION | THREAD_EXIT | THREAD_YIELD.

#[export] Instance SwitchReason_eq_dec : EqDecision SwitchReason.
Proof. solve_decision. Defined.

Definition CONTEXT_SWITCH_OCCURRED : Z := -999.

Inductive IoOperation :=
  IO_NONE | RECV | SEND | ACCEPT | CONNECT | RECVFROM | SENDTO | READ | WRITE.

#[export] Instance IoOperation_eq_dec : EqDecision IoOperation.
Proof. solve_decision. Defined.

Inductive CoopIoType :=
  COOP_NONE | COOP_EPOLL_WAIT | COOP_POLL | COOP_SELECT | COOP_READ | COOP_WRITE | COOP_RECV
| COOP_SEND | COOP_RECVFROM | COOP_SENDTO.

#[export] Instance CoopIoType_eq_dec : EqDecision CoopIoType.
Proof. solve_decision. Defined.

(** [RegisterState]; [rx] holds X0-X30 and [rv] the pairs V0-V31. *)
#[projections(primitive)]
Record RegisterState := {
  rx : list Z;
  rsp : Z;
  rpc : Z;
  rtpidr_el0 : Z;
  rlr : Z;
  rnzcv : Z;
  rv : list (Z * Z);
  rfpcr : Z;
  rfpsr : Z;
}.

Definition eta_regs (r : RegisterState) : RegisterState :=
  Build_RegisterState (rx r) (rsp r) (rpc r) (rtpidr_el0 r) (rlr r) (rnzcv r) (rv r) (rfpcr r)
    (rfpsr r).
#[export] Instance set_rx : Setter rx := ltac:(build_setter eta_regs rx).
#[export] Instance set_rsp : Setter rsp := ltac:(build_setter eta_regs rsp).
#[export] Instance set_rpc : Setter rpc := ltac:(build_setter eta_regs rpc).
#[export] Instance set_rtpidr_el0 : Setter rtpidr_el0 := ltac:(build_setter eta_regs rtpidr_el0).
#[export] Instance set_rlr : Setter rlr := ltac:(build_setter eta_regs rlr).
#[export] Instance set_rnzcv : Setter rnzcv := ltac:(build_setter eta_regs rnzcv).
#[export] Instance set_rv : Setter rv := ltac:(build_setter eta_regs rv).
#[export] Instance set_rfpcr : Setter rfpcr := ltac:(build_setter eta_regs rfpcr).
#[export] Instance set_rfpsr : Setter rfpsr := ltac:(build_setter eta_regs rfpsr).

Definition zero_registers : RegisterState :=
  {| rx := replicate 31 0; rsp := 0; rpc := 0; rtpidr_el0 := 0; rlr := 0; rnzcv := 0;
     rv := replicate 32 (0, 0); rfpcr := 0; rfpsr := 0 |}.

#[projections(primitive)]
Record ThreadContext := {
  thread_id : Z;
  start_routine : Z;
  arg : Z;
  return_value : Z;
  stack_base : Z;
  stack_size : Z;
  tls_base : Z;
  state : ThreadState;
  detached : bool;
  registers : RegisterState;
  last_scheduled : Z;
  last_switch : Z;
  total_instructions : Z;
  blocking_switches : Z;
  periodic_switches : Z;
  emergency_switches : Z;
  blocked_on_resource : Z;
  sleep_until : Z;
  join_wait_queue : list Z;
  cond_wait_mutex : Z;
  cond_wait_return_addr : Z;
  join_target_thread : Z;
  join_retval_ptr : Z;
  join_return_addr : Z;
  mutex_wait_ptr : Z;
  mutex_wait_return_addr : Z;
  barrier_wait_ptr : Z;
  barrier_wait_return_addr : Z;
  futex_wait_addr : Z;
  futex_wait_return_addr : Z;
  rwlock_rdlock_ptr : Z;
  rwlock_rdlock_return_addr : Z;
  rwlock_wrlock_ptr : Z;
  rwlock_wrlock_return_addr : Z;
  io_operation : IoOperation;
  io_fd : Z;
  io_buf_ptr : Z;
  io_len : Z;
  io_flags : Z;
  io_addr_ptr : Z;
  io_addrlen_ptr : Z;
  io_return_addr : Z;
  coop_io_type : CoopIoType;
  coop_io_start : Z;
  coop_io_timeout_ms : Z;
  coop_io_fd : Z;
  coop_io_events_ptr : Z;
  coop_io_maxevents : Z;
  coop_io_return_addr : Z;
  grace_period_remaining : Z;
  initialized : bool;
  block_next_switch : bool;
}.

Definition eta_ctx (c : ThreadContext) : ThreadContext :=
  Build_ThreadContext (thread_id c) (start_routine c) (arg c) (return_value c) (stack_base c)
    (stack_size c) (tls_base c) (state c) (detached c) (registers c)
    (last_scheduled c) (last_switch c) (total_instructions c) (blocking_switches c)
    (periodic_switches c) (emergency_switches c) (blocked_on_resource c)
    (sleep_until c) (join_wait_queue c) (cond_wait_mutex c)
    (cond_wait_return_addr c) (join_target_thread c) (join_retval_ptr c)
    (join_return_addr c) (mutex_wait_ptr c) (mutex_wait_return_addr c)
    (barrier_wait_ptr c) (barrier_wait_return_addr c) (futex_wait_addr c)
    (futex_wait_return_addr c) (rwlock_rdlock_ptr c) (rwlock_rdlock_return_addr c)
    (rwlock_wrlock_ptr c) (rwlock_wrlock_return_addr c) (io_operation c) (io_fd c)
    (io_buf_ptr c) (io_len c) (io_flags c) (io_addr_ptr c) (io_addrlen_ptr c)
    (io_return_addr c) (coop_io_type c) (coop_io_start c) (coop_io_timeout_ms c)
    (coop_io_fd c) (coop_io_events_ptr c) (coop_io_maxevents c)
    (coop_io_return_addr c) (grace_period_remaining c) (initialized c)
    (block_next_switch c).
#[export] Instance set_thread_id : Setter thread_id := ltac:(build_setter eta_ctx thread_id).
#[export] Instance set_start_routine : Setter start_routine := ltac:(build_setter eta_ctx start_routine).
#[export] Instance set_arg : Setter arg := ltac:(build_setter eta_ctx arg).
#[export] Instance set_return_value : Setter return_value := ltac:(build_setter eta_ctx return_value).
#[export] Instance set_stack_base : Setter stack_base := ltac:(build_setter eta_ctx stack_base).
#[export] Instance set_stack_size : Setter stack_size := ltac:(build_setter eta_ctx stack_size).
#[export] Instance set_tls_base : Setter tls_base := ltac:(build_setter eta_ctx tls_base).
#[export] Instance set_state : Setter state := ltac:(build_setter eta_ctx state).
#[export] Instance set_detached : Setter detached := ltac:(build_setter eta_ctx detached).
#[export] Instance set_registers : Setter registers := ltac:(build_setter eta_ctx registers).
#[export] Instance set_last_scheduled : Setter last_scheduled := ltac:(build_setter eta_ctx last_scheduled).
#[export] Instance set_last_switch : Setter last_switch := ltac:(build_setter eta_ctx last_switch).
#[export] Instance set_total_instructions : Setter total_instructions := ltac:(build_setter eta_ctx total_instructions).
#[export] Instance set_blocking_switches : Setter blocking_switches := ltac:(build_setter eta_ctx blocking_switches).
#[export] Instance set_periodic_switches : Setter periodic_switches := ltac:(build_setter eta_ctx periodic_switches).
#[export] Instance set_emergency_switches : Setter emergency_switches := ltac:(build_setter eta_ctx emergency_switches).
#[export] Instance set_blocked_on_resource : Setter blocked_on_resource := ltac:(build_setter eta_ctx blocked_on_resource).
#[export] Instance set_sleep_until : Setter sleep_until := ltac:(build_setter eta_ctx sleep_until).
#[export] Instance set_join_wait_queue : Setter join_wait_queue := ltac:(build_setter eta_ctx join_wait_queue).
#[export] Instance set_cond_wait_mutex : Setter cond_wait_mutex := ltac:(build_setter eta_ctx cond_wait_mutex).
#[export] Instance set_cond_wait_return_addr : Setter cond_wait_return_addr := ltac:(build_setter eta_ctx cond_wait_return_addr).
#[export] Instance set_join_target_thread : Setter join_target_thread := ltac:(build_setter eta_ctx join_target_thread).
#[export] Instance set_join_retval_ptr : Setter join_retval_ptr := ltac:(build_setter eta_ctx join_retval_ptr).
#[export] Instance set_join_return_addr : Setter join_return_addr := ltac:(build_setter eta_ctx join_return_addr).
#[export] Instance set_mutex_wait_ptr : Setter mutex_wait_ptr := ltac:(build_setter eta_ctx mutex_wait_ptr).
#[export] Instance set_mutex_wait_return_addr : Setter mutex_wait_return_addr := ltac:(build_setter eta_ctx mutex_wait_return_addr).
#[export] Instance set_barrier_wait_ptr : Setter barrier_wait_ptr := ltac:(build_setter eta_ctx barrier_wait_ptr).
#[export] Instance set_barrier_wait_return_addr : Setter barrier_wait_return_addr := ltac:(build_setter eta_ctx barrier_wait_return_addr).
#[export] Instance set_futex_wait_addr : Setter futex_wait_addr := ltac:(build_setter eta_ctx futex_wait_addr).
#[export] Instance set_futex_wait_return_addr : Setter futex_wait_return_addr := ltac:(build_setter eta_ctx futex_wait_return_addr).
#[export] Instance set_rwlock_rdlock_ptr : Setter rwlock_rdlock_ptr := ltac:(build_setter eta_ctx rwlock_rdlock_ptr).
#[export] Instance set_rwlock_rdlock_return_addr : Setter rwlock_rdlock_return_addr := ltac:(build_setter eta_ctx rwlock_rdlock_return_addr).
#[export] Instance set_rwlock_wrlock_ptr : Setter rwlock_wrlock_ptr := ltac:(build_setter eta_ctx rwlock_wrlock_ptr).
#[export] Instance set_rwlock_wrlock_return_addr : Setter rwlock_wrlock_return_addr := ltac:(build_setter eta_ctx rwlock_wrlock_return_addr).
#[export] Instance set_io_operation : Setter io_operation := ltac:(build_setter eta_ctx io_operation).
#[export] Instance set_io_fd : Setter io_fd := ltac:(build_setter eta_ctx io_fd).
#[export] Instance set_io_buf_ptr : Setter io_buf_ptr := ltac:(build_setter eta_ctx io_buf_ptr).
#[export] Instance set_io_len : Setter io_len := ltac:(build_setter eta_ctx io_len).
#[export] Instance set_io_flags : Setter io_flags := ltac:(build_setter eta_ctx io_flags).
#[export] Instance set_io_addr_ptr : Setter io_addr_ptr := ltac:(build_setter eta_ctx io_addr_ptr).
#[export] Instance set_io_addrlen_ptr : Setter io_addrlen_ptr := ltac:(build_setter eta_ctx io_addrlen_ptr).
#[export] Instance set_io_return_addr : Setter io_return_addr := ltac:(build_setter eta_ctx io_return_addr).
#[export] Instance set_coop_io_type : Setter coop_io_type := ltac:(build_setter eta_ctx coop_io_type).
#[export] Instance set_coop_io_start : Setter coop_io_start := ltac:(build_setter eta_ctx coop_io_start).
#[export] Instance set_coop_io_timeout_ms : Setter coop_io_timeout_ms := ltac:(build_setter eta_ctx coop_io_timeout_ms).
#[export] Instance set_coop_io_fd : Setter coop_io_fd := ltac:(build_setter eta_ctx coop_io_fd).
#[export] Instance set_coop_io_events_ptr : Setter coop_io_events_ptr := ltac:(build_setter eta_ctx coop_io_events_ptr).
#[export] Instance set_coop_io_maxevents : Setter coop_io_maxevents := ltac:(build_setter eta_ctx coop_io_maxevents).
#[export] Instance set_coop_io_return_addr : Setter coop_io_return_addr := ltac:(build_setter eta_ctx coop_io_return_addr).
#[export] Instance set_grace_period_remaining : Setter grace_period_remaining := ltac:(build_setter eta_ctx grace_period_remaining).
#[export] Instance set_initialized : Setter initialized := ltac:(build_setter eta_ctx initialized).
#[export] Instance set_block_next_switch : Setter block_next_switch := ltac:(build_setter eta_ctx block_next_switch).

(** [std::make_unique<ThreadContext>()]. *)
Definition new_context : ThreadContext :=
  {| thread_id := 0; start_routine := 0; arg := 0; return_value := 0; 
     stack_base := 0; stack_size := 0; tls_base := 0; state := CREATED; 
     detached := false; registers := zero_registers; last_scheduled := 0; 
     last_switch := 0; total_instructions := 0; blocking_switches := 0; 
     periodic_switches := 0; emergency_switches := 0; blocked_on_resource := 0; 
     sleep_until := 0; join_wait_queue := []; cond_wait_mutex := 0; 
     cond_wait_return_addr := 0; join_target_thread := 0; join_retval_ptr := 0; 
     join_return_addr := 0; mutex_wait_ptr := 0; mutex_wait_return_addr := 0; 
     barrier_wait_ptr := 0; barrier_wait_return_addr := 0; futex_wait_addr := 0; 
     futex_wait_return_addr := 0; rwlock_rdlock_ptr := 0; 
     rwlock_rdlock_return_addr := 0; rwlock_wrlock_ptr := 0; 
     rwlock_wrlock_return_addr := 0; io_operation := IO_NONE; io_fd := -1; 
     io_buf_ptr := 0; io_len := 0; io_flags := 0; io_addr_ptr := 0; 
     io_addrlen_ptr := 0; io_return_addr := 0; coop_io_type := COOP_NONE; 
     coop_io_start := 0; coop_io_timeout_ms := 0; coop_io_fd := -1; 
     coop_io_events_ptr := 0; coop_io_maxevents := 0; coop_io_return_addr := 0; 
     grace_period_remaining := 0; initialized := false; 
     block_next_switch := false |}.

#[projections(primitive)]
Record EmulatedMutex := {
  is_locked : bool;
  owner_thread : Z;
  lock_count : Z;
  mutex_type : Z;
  mutex_wait_queue : list Z;
}.

Definition eta_mutex (m : EmulatedMutex) : EmulatedMutex :=
  Build_EmulatedMutex (is_locked m) (owner_thread m) (lock_count m) (mutex_type m)
    (mutex_wait_queue m).
#[export] Instance set_is_locked : Setter is_locked := ltac:(build_setter eta_mutex is_locked).
#[export] Instance set_owner_thread : Setter owner_thread := ltac:(build_setter eta_mutex owner_thread).
#[export] Instance set_lock_count : Setter lock_count := ltac:(build_setter eta_mutex lock_count).
#[export] Instance set_mutex_type : Setter mutex_type := ltac:(build_setter eta_mutex mutex_type).
#[export] Instance set_mutex_wait_queue : Setter mutex_wait_queue := ltac:(build_setter eta_mutex mutex_wait_queue).

Definition new_mutex : EmulatedMutex :=
  {| is_locked := false; owner_thread := 0; lock_count := 0; mutex_type := 0; 
     mutex_wait_queue := [] |}.

Record EmulatedCondVar := { cond_wait_queue : list Z }.

#[projections(primitive)]
Record EmulatedRWLock := {
  readers : Z;
  writer : Z;
  write_count : Z;
  read_wait_queue : list Z;
  write_wait_queue : list Z;
}.

Definition eta_rwlock (l : EmulatedRWLock) : EmulatedRWLock :=
  Build_EmulatedRWLock (readers l) (writer l) (write_count l) (read_wait_queue l) (write_wait_queue l).
#[export] Instance set_readers : Setter readers := ltac:(build_setter eta_rwlock readers).
#[export] Instance set_writer : Setter writer := ltac:(build_setter eta_rwlock writer).
#[export] Instance set_write_count : Setter write_count := ltac:(build_setter eta_rwlock write_count).
#[export] Instance set_read_wait_queue : Setter read_wait_queue := ltac:(build_setter eta_rwlock read_wait_queue).
#[export] Instance set_write_wait_queue : Setter write_wait_queue := ltac:(build_setter eta_rwlock write_wait_queue).

Definition new_rwlock : EmulatedRWLock :=
  {| readers := 0; writer := 0; write_count := 0; read_wait_queue := []; 
     write_wait_queue := [] |}.

#[projections(primitive)]
Record EmulatedBarrier := {
  barrier_count : Z;
  waiting : Z;
  generation : Z;
  barrier_wait_queue : list Z;
}.

Definition eta_barrier (b : EmulatedBarrier) : EmulatedBarrier :=
  Build_EmulatedBarrier (barrier_count b) (waiting b) (generation b) (barrier_wait_queue b).
#[export] Instance set_barrier_count : Setter barrier_count := ltac:(build_setter eta_barrier barrier_count).
#[export] Instance set_waiting : Setter waiting := ltac:(build_setter eta_barrier waiting).
#[export] Instance set_generation : Setter generation := ltac:(build_setter eta_barrier generation).
#[export] Instance set_barrier_wait_queue : Setter barrier_wait_queue := ltac:(build_setter eta_barrier barrier_wait_queue).

Definition new_barrier : EmulatedBarrier :=
  {| barrier_count := 0; waiting := 0; generation := 0; barrier_wait_queue := [] |}.

#[projections(primitive)]
Record ThreadManager := {
  threads_ : gmap Z ThreadContext;
  next_thread_id_ : Z;
  main_thread_id_ : Z;
  current_thread_id_ : Z;
  runnable_queue_ : list Z;
  next_stack_index_ : Z;
  next_tls_index_ : Z;
  mutexes_ : gmap Z EmulatedMutex;
  condvars_ : gmap Z EmulatedCondVar;
  rwlocks_ : gmap Z EmulatedRWLock;
  barriers_ : gmap Z EmulatedBarrier;
  tls_data_ : gmap Z (gmap Z Z);
  tls_destructors_ : gmap Z Z;
  next_tls_key_ : Z;
  instruction_count_ : Z;
  periodic_check_interval_ : Z;
  last_periodic_check_ : Z;
  emergency_mode_ : bool;
  watchdog_running_ : bool;
  emergency_check_interval_ : Z;
  threading_enabled_ : bool;
}.

Definition eta_tm (t : ThreadManager) : ThreadManager :=
  Build_ThreadManager (threads_ t) (next_thread_id_ t) (main_thread_id_ t) (current_thread_id_ t)
    (runnable_queue_ t) (next_stack_index_ t) (next_tls_index_ t) (mutexes_ t)
    (condvars_ t) (rwlocks_ t) (barriers_ t) (tls_data_ t) (tls_destructors_ t)
    (next_tls_key_ t) (instruction_count_ t) (periodic_check_interval_ t)
    (last_periodic_check_ t) (emergency_mode_ t) (watchdog_running_ t)
    (emergency_check_interval_ t) (threading_enabled_ t).
#[export] Instance set_threads_ : Setter threads_ := ltac:(build_setter eta_tm threads_).
#[export] Instance set_next_thread_id_ : Setter next_thread_id_ := ltac:(build_setter eta_tm next_thread_id_).
#[export] Instance set_main_thread_id_ : Setter main_thread_id_ := ltac:(build_setter eta_tm main_thread_id_).
#[export] Instance set_current_thread_id_ : Setter current_thread_id_ := ltac:(build_setter eta_tm current_thread_id_).
#[export] Instance set_runnable_queue_ : Setter runnable_queue_ := ltac:(build_setter eta_tm runnable_queue_).
#[export] Instance set_next_stack_index_ : Setter next_stack_index_ := ltac:(build_setter eta_tm next_stack_index_).
#[export] Instance set_next_tls_index_ : Setter next_tls_index_ := ltac:(build_setter eta_tm next_tls_index_).
#[export] Instance set_mutexes_ : Setter mutexes_ := ltac:(build_setter eta_tm mutexes_).
#[export] Instance set_condvars_ : Setter condvars_ := ltac:(build_setter eta_tm condvars_).
#[export] Instance set_rwlocks_ : Setter rwlocks_ := ltac:(build_setter eta_tm rwlocks_).
#[export] Instance set_barriers_ : Setter barriers_ := ltac:(build_setter eta_tm barriers_).
#[export] Instance set_tls_data_ : Setter tls_data_ := ltac:(build_setter eta_tm tls_data_).
#[export] Instance set_tls_destructors_ : Setter tls_destructors_ := ltac:(build_setter eta_tm tls_destructors_).
#[export] Instance set_next_tls_key_ : Setter next_tls_key_ := ltac:(build_setter eta_tm next_tls_key_).
#[export] Instance set_instruction_count_ : Setter instruction_count_ := ltac:(build_setter eta_tm instruction_count_).
#[export] Instance set_periodic_check_interval_ : Setter periodic_check_interval_ := ltac:(build_setter eta_tm periodic_check_interval_).
#[export] Instance set_last_periodic_check_ : Setter last_periodic_check_ := ltac:(build_setter eta_tm last_periodic_check_).
#[export] Instance set_emergency_mode_ : Setter emergency_mode_ := ltac:(build_setter eta_tm emergency_mode_).
#[export] Instance set_watchdog_running_ : Setter watchdog_running_ := ltac:(build_setter eta_tm watchdog_running_).
#[export] Instance set_emergency_check_interval_ : Setter emergency_check_interval_ := ltac:(build_setter eta_tm emergency_check_interval_).
#[export] Instance set_threading_enabled_ : Setter threading_enabled_ := ltac:(build_setter eta_tm threading_enabled_).

(** The member initialisers of the class. *)
Definition tm_init : ThreadManager :=
  {| threads_ := ∅; next_thread_id_ := 4096; main_thread_id_ := 0; 
     current_thread_id_ := 0; runnable_queue_ := []; next_stack_index_ := 0; 
     next_tls_index_ := 0; mutexes_ := ∅; condvars_ := ∅; rwlocks_ := ∅; 
     barriers_ := ∅; tls_data_ := ∅; tls_destructors_ := ∅; next_tls_key_ := 1; 
     instruction_count_ := 0; periodic_check_interval_ := 10000; 
     last_periodic_check_ := 0; emergency_mode_ := false; 
     watchdog_running_ := false; emergency_check_interval_ := 1000; 
     threading_enabled_ := true |}.
