(* ===== verification/Scheduler.v ===== *)
(** The scheduler half of [ThreadManager] (src/src/thread_manager.cpp): saving and
    restoring registers, choosing the next thread, the context switch, blocking,
    waking, sleeping, yielding, cooperative I/O bookkeeping, the three
    preemption tiers.

    [tstate] is what the methods touch: the manager, guest memory with the world
    outside, and the emulator's "in an HLE handler" flag.  A [ThreadContext*] is
    the key of a thread that exists; writing through it is [upd_thread], which
    does nothing for an absent key, like the source's [if (it != end())]. *)

From S2P Require Import Prelude Env MemoryManager ThreadTypes.

Definition THREAD_STACK_SIZE : Z := 0x100000.
Definition THREAD_STACK_BASE : Z := 0x90000000.
Definition THREAD_TLS_BASE : Z := 0xD0000000.
Definition THREAD_TLS_SIZE : Z := 0x10000.

Definition POLLIN : Z := 1.
Definition POLLOUT : Z := 4.

(** [time_point::max()] of a 64-bit nanosecond clock, one millisecond. *)
Definition TIME_MAX : Z := 2 ^ 63 - 1.
Definition MS : Z := 1000000.

Definition is_state (st : ThreadState) (c : ThreadContext) : bool := bool_decide (state c = st).

(** Voluntary switches ignore [block_next_switch]. *)
Definition voluntary (reason : SwitchReason) : bool :=
  match reason with
  | THREAD_YIELD | BLOCKING_OPERATION | THREAD_EXIT => true
  | PERIODIC_PREEMPTION | EMERGENCY_PREEMPTION => false
  end.

(** "Update metrics". *)
Definition count_switch (reason : SwitchReason) (c : ThreadContext) : ThreadContext :=
  match reason with
  | BLOCKING_OPERATION => c <| blocking_switches := blocking_switches c ⊕ 1 |>
  | PERIODIC_PREEMPTION => c <| periodic_switches := periodic_switches c ⊕ 1 |>
  | EMERGENCY_PREEMPTION => c <| emergency_switches := emergency_switches c ⊕ 1 |>
  | THREAD_EXIT | THREAD_YIELD => c
  end.

Definition in_hle_range (pc : Z) : bool := (HLE_BASE <=? pc) && (pc <? HLE_BASE + HLE_SIZE).

(** The [has_resume_pc] test of [context_switch]. *)
Definition has_resume_pc (c : ThreadContext) : bool :=
  if is_state IO_WAIT c && negb (bool_decide (io_operation c = IO_NONE))
  then in_hle_range (rpc (registers c))
  else if is_state BLOCKED c
       then if negb (mutex_wait_ptr c =? 0) || negb (cond_wait_mutex c =? 0)
               || negb (join_target_thread c =? 0) || negb (barrier_wait_ptr c =? 0)
               || negb (futex_wait_addr c =? 0)
            then in_hle_range (rpc (registers c)) else false
       else false.

(** Pops the queue until a thread that exists and is [RUNNABLE]. *)
Fixpoint pop_runnable (threads : gmap Z ThreadContext) (q : list Z) : option Z * list Z :=
  match q with
  | [] => (None, [])
  | thread_id :: q' =>
      match threads !! thread_id with
      | Some c => if is_state RUNNABLE c then (Some thread_id, q') else pop_runnable threads q'
      | None => pop_runnable threads q'
      end
  end.

(** The poll direction of an [IO_WAIT] thread. *)
Definition io_events (op : IoOperation) : Z :=
  match op with RECV | ACCEPT | RECVFROM => POLLIN | _ => POLLOUT end.

(** [duration_cast<milliseconds>(d).count()]. *)
Definition to_ms (d : Z) : Z := Z.quot d MS.

Section Scheduler.
Context {E : Env}.

Record tstate := { tm : ThreadManager; ms : mstate; in_hle : bool }.

Definition eta_tstate (s : tstate) : tstate := Build_tstate (tm s) (ms s) (in_hle s).
#[export] Instance set_tm : Setter tm := ltac:(build_setter eta_tstate tm).
#[export] Instance set_ms : Setter ms := ltac:(build_setter eta_tstate ms).
#[export] Instance set_in_hle : Setter in_hle := ltac:(build_setter eta_tstate in_hle).

(** [get_reg(emu_, r)], [set_reg(emu_, r, v)], [steady_clock::now()]. *)
Definition reg (r : Z) (s : tstate) : Z := get_reg r (ext (ms s)).
Definition setr (r v : Z) (s : tstate) : tstate :=
  s <| ms ::= fun m => m <| ext ::= set_reg r v |> |>.
Definition now (s : tstate) : Z * tstate :=
  let '(t, e) := steady_now (ext (ms s)) in (t, s <| ms ::= fun m => m <| ext := e |> |>).
Definition pause (n : Z) (s : tstate) : tstate :=
  s <| ms ::= fun m => m <| ext ::= sleep_ms n |> |>.

Definition upd_thread (id : Z) (f : ThreadContext -> ThreadContext) (s : tstate) : tstate :=
  s <| tm ::= fun t => t <| threads_ ::= alter f id |> |>.
Definition current (s : tstate) : option ThreadContext :=
  threads_ (tm s) !! current_thread_id_ (tm s).
Definition upd_current (f : ThreadContext -> ThreadContext) (s : tstate) : tstate :=
  upd_thread (current_thread_id_ (tm s)) f s.
Definition push_runnable (id : Z) (s : tstate) : tstate :=
  s <| tm ::= fun t => t <| runnable_queue_ ::= fun q => q ++ [id] |> |>.

(** [ThreadManager::ThreadManager]: the main thread is running. *)
Definition new_tm (m : mstate) (hle : bool) : tstate :=
  let s0 := {| tm := tm_init <| main_thread_id_ := 1 |> <| current_thread_id_ := 1 |>;
               ms := m; in_hle := hle |} in
  let '(t1, s1) := now s0 in
  let '(t2, s2) := now s1 in
  let main_thread := new_context <| thread_id := 1 |> <| ThreadTypes.state := RUNNING |>
        <| stack_base := STACK_BASE + STACK_SIZE - 0x100 |> <| stack_size := STACK_SIZE |>
        <| last_scheduled := t1 |> <| last_switch := t2 |> <| initialized := true |> in
  let s3 := s2 <| tm ::= fun t => t <| threads_ := {[ 1 := main_thread ]} |>
                                    <| watchdog_running_ := true |> |> in
  let '(t3, s4) := now s3 in
  s4 <| tm ::= fun t => t <| last_periodic_check_ := t3 |> |>.

(** [~ThreadManager]. *)
Definition destroy_tm (s : tstate) : tstate :=
  s <| tm ::= fun t => t <| watchdog_running_ := false |> <| threads_ := ∅ |> |>.

Definition allocate_thread_id (s : tstate) : Z * tstate :=
  (next_thread_id_ (tm s),
   s <| tm ::= fun t => t <| next_thread_id_ := next_thread_id_ t ⊕ 1 |> |>).

Definition get_current_thread_id (s : tstate) : Z := current_thread_id_ (tm s).
Definition get_thread (id : Z) (s : tstate) : option ThreadContext := threads_ (tm s) !! id.
Definition get_thread_count (s : tstate) : nat := size (threads_ (tm s)).

(** * Registers *)

(** What [save_thread_state] reads, in the order of the fields. *)
Definition read_registers (e : env) : RegisterState :=
  {| rx := map (fun i => get_reg (REG_X (Z.of_nat i)) e) (seq 0 31);
     rsp := get_reg REG_SP e;
     rpc := get_reg REG_PC e;
     rtpidr_el0 := get_reg REG_TPIDR_EL0 e;
     rlr := get_reg REG_LR e;
     rnzcv := get_reg REG_CPSR e;
     rv := map (fun i => get_vreg (REG_V (Z.of_nat i)) e) (seq 0 32);
     rfpcr := u32 (get_reg REG_FPCR e);
     rfpsr := u32 (get_reg REG_FPSR e) |}.

Definition save_thread_state (id : Z) (s : tstate) : tstate :=
  upd_thread id (fun c => c <| registers := read_registers (ext (ms s)) |>) s.

(** The register writes of [restore_thread_state], in its order. *)
Definition write_registers (r : RegisterState) (e : env) : env :=
  let e1 := foldl (fun e i => set_reg (REG_X (Z.of_nat i)) (nth i (rx r) 0) e) e (seq 0 31) in
  let e2 := set_reg REG_CPSR (rnzcv r)
              (set_reg REG_TPIDR_EL0 (rtpidr_el0 r)
                 (set_reg REG_LR (rlr r)
                    (set_reg REG_PC (rpc r) (set_reg REG_SP (rsp r) e1)))) in
  let e3 := foldl (fun e i => set_vreg (REG_V (Z.of_nat i)) (nth i (rv r) (0, 0)) e) e2 (seq 0 32) in
  set_reg REG_FPSR (rfpsr r) (set_reg REG_FPCR (rfpcr r) e3).

(** The dummy read at the stack pointer has no effect on the model's state. *)
Definition restore_thread_state (id : Z) (s : tstate) : tstate :=
  match threads_ (tm s) !! id with
  | None => s
  | Some c =>
      upd_thread id (fun c => c <| grace_period_remaining := 100 |> <| block_next_switch := true |>)
        (s <| ms ::= fun m => m <| ext ::= write_registers (registers c) |> |>)
  end.

(** * Choosing the next thread *)

(** [state = RUNNABLE] and to the back of the queue. *)
Definition make_runnable (id : Z) (s : tstate) : tstate :=
  push_runnable id (upd_thread id (fun c => c <| ThreadTypes.state := RUNNABLE |>) s).

Definition wake_sleeper (t : Z) (s : tstate) (id : Z) : tstate :=
  match threads_ (tm s) !! id with
  | Some c => if is_state SLEEPING c && (sleep_until c <=? t) then make_runnable id s else s
  | None => s
  end.

(** A cooperative epoll_wait whose timeout has expired. *)
Definition wake_for_timeout (t : Z) (c : ThreadContext) : bool :=
  bool_decide (coop_io_type c = COOP_EPOLL_WAIT) && (0 <=? coop_io_timeout_ms c)
  && (coop_io_timeout_ms c <=? to_ms (t - coop_io_start c)).

Definition wake_io (t : Z) (s : tstate) (id : Z) : tstate :=
  match threads_ (tm s) !! id with
  | Some c =>
      if is_state IO_WAIT c
      then if wake_for_timeout t c then make_runnable id s
           else if 0 <=? io_fd c
                then let events := io_events (io_operation c) in
                     let '(ret, revents, e) := poll_fd (io_fd c) events (ext (ms s)) in
                     let s1 := s <| ms ::= fun m => m <| ext := e |> |> in
                     if (0 <? ret) && negb (Z.land revents events =? 0)
                     then make_runnable id s1 else s1
                else s
      else s
  | None => s
  end.

(** The keys of [threads_] in the order a range-for visits them. *)
Definition thread_walk (s : tstate) : list Z :=
  walk_order ((map_to_list (threads_ (tm s))).*1) (ext (ms s)).

Definition select_next_thread (s : tstate) : option Z * tstate :=
  let '(t, s1) := now s in
  let s2 := foldl (wake_sleeper t) s1 (thread_walk s1) in
  let s3 := foldl (wake_io t) s2 (thread_walk s2) in
  let '(next, q) := pop_runnable (threads_ (tm s3)) (runnable_queue_ (tm s3)) in
  (next, s3 <| tm ::= fun t => t <| runnable_queue_ := q |> |>).

Definition has_runnable_threads (s : tstate) : bool :=
  existsb (fun p => is_state RUNNABLE p.2) (map_to_list (threads_ (tm s))).

(** * The context switch *)

(** Saves the outgoing thread: a running thread becomes runnable again, a
    blocked one keeps its resume address if the code recognises one. *)
Definition park_current (id : Z) (s : tstate) : tstate :=
  match threads_ (tm s) !! id with
  | None => s
  | Some c =>
      if is_state RUNNING c then make_runnable id (save_thread_state id s)
      else
        let saved_resume_pc := rpc (registers c) in
        let s1 := save_thread_state id s in
        if has_resume_pc c
        then upd_thread id (fun c => c <| registers ::= fun r => r <| rpc := saved_resume_pc |> |>) s1
        else s1
  end.

(** "check if there are sleeping or blocked threads", and the earliest wakeup. *)
Definition idle_scan (s : tstate) : bool * Z :=
  foldl (fun '(found, earliest) p =>
           if is_state SLEEPING p.2 then (true, Z.min (sleep_until p.2) earliest)
           else if is_state BLOCKED p.2 || is_state IO_WAIT p.2 then (true, earliest)
           else (found, earliest))
    (false, TIME_MAX) (map_to_list (threads_ (tm s))).

(** Waits briefly for the earliest sleeper. *)
Definition idle_wait (earliest_wakeup : Z) (s : tstate) : tstate :=
  let '(t, s1) := now s in
  if negb (earliest_wakeup =? TIME_MAX) && (t <? earliest_wakeup)
  then let wait_time := to_ms (earliest_wakeup - t) in
       if 0 <? wait_time then pause (Z.min wait_time 10) s1 else s1
  else pause 1 s1.

(** Selects; when nothing is runnable but something sleeps or blocks, waits and
    selects once more. *)
Definition select_or_wait (s : tstate) : option Z * tstate :=
  match select_next_thread s with
  | (Some n, s1) => (Some n, s1)
  | (None, s1) =>
      let '(has_sleeping_or_blocked, earliest) := idle_scan s1 in
      if has_sleeping_or_blocked then select_next_thread (idle_wait earliest s1) else (None, s1)
  end.

Definition all_terminated (s : tstate) : bool :=
  forallb (fun p => is_state TERMINATED p.2) (map_to_list (threads_ (tm s))).

(** The ten retries, 100 ms apart, of a terminated thread. *)
Fixpoint retry_select (n : nat) (s : tstate) : option Z * tstate :=
  match n with
  | O => (None, s)
  | S n' => match select_next_thread (pause 100 s) with
            | (Some x, s1) => (Some x, s1)
            | (None, s1) => retry_select n' s1
            end
  end.

(** Stopping the emulator: execution continues at address 0. *)
Definition stop (s : tstate) : tstate := setr REG_PC 0 s.

(** "Switch to next thread". *)
Definition dispatch (n : Z) (s : tstate) : tstate :=
  match threads_ (tm s) !! n with
  | None => s
  | Some c =>
      let s1 := s <| tm ::= fun t => t <| current_thread_id_ := thread_id c |> |> in
      let s2 := upd_thread n (fun c => c <| ThreadTypes.state := RUNNING |>) s1 in
      let '(t, s3) := now s2 in
      restore_thread_state n (upd_thread n (fun c => c <| last_scheduled := t |>) s3)
  end.

(** From "Select next thread" to the end, for outgoing thread [old]. *)
Definition switch_away (old : Z) (s : tstate) : tstate :=
  match select_or_wait s with
  | (Some n, s1) => dispatch n s1
  | (None, s1) =>
      match threads_ (tm s1) !! old with
      | None => s1
      | Some c =>
          if is_state TERMINATED c
          then if all_terminated s1 then stop s1
               else match retry_select 10 s1 with
                    | (Some n, s2) => dispatch n s2
                    | (None, s2) => stop s2
                    end
          else if is_state RUNNABLE c
               then upd_thread old (fun c => c <| ThreadTypes.state := RUNNING |>) s1
               else s1
      end
  end.

Definition context_switch (reason : SwitchReason) (s : tstate) : tstate :=
  let cur := current_thread_id_ (tm s) in
  match threads_ (tm s) !! cur with
  | None => s
  | Some c =>
      if block_next_switch c && negb (voluntary reason) then s
      else
        let s1 := upd_thread cur (fun c => count_switch reason (c <| block_next_switch := false |>)) s in
        let s2 := park_current cur s1 in
        let '(t, s3) := now s2 in
        switch_away cur (upd_thread cur (fun c => c <| last_switch := t |>) s3)
  end.

(** * Blocking and waking *)

Definition block_current_thread (new_state : ThreadState) (resource_id : Z) (s : tstate) : tstate :=
  upd_current (fun c => c <| ThreadTypes.state := new_state |>
                          <| blocked_on_resource := resource_id |>) s.

Definition unblock_thread_internal (id : Z) (s : tstate) : tstate :=
  match threads_ (tm s) !! id with
  | Some c =>
      if is_state BLOCKED c
      then push_runnable id
             (upd_thread id (fun c => c <| ThreadTypes.state := RUNNABLE |>
                                        <| blocked_on_resource := 0 |>) s)
      else s
  | None => s
  end.

Definition unblock_thread (id : Z) (s : tstate) : tstate := unblock_thread_internal id s.

Definition block_on_futex (futex_addr : Z) (s : tstate) : tstate :=
  let return_addr := reg REG_LR s in
  let s1 := upd_current (fun c => c <| ThreadTypes.state := BLOCKED |>
                                    <| blocked_on_resource := futex_addr |>
                                    <| futex_wait_addr := futex_addr |>
                                    <| futex_wait_return_addr := return_addr |>) s in
  context_switch BLOCKING_OPERATION s1.

Definition unblock_from_futex (id : Z) (s : tstate) : tstate :=
  match threads_ (tm s) !! id with
  | Some c =>
      if is_state BLOCKED c
      then push_runnable id
             (upd_thread id (fun c => c <| futex_wait_addr := 0 |> <| futex_wait_return_addr := 0 |>
                                        <| blocked_on_resource := 0 |>
                                        <| ThreadTypes.state := RUNNABLE |>) s)
      else s
  | None => s
  end.

(** [sleep_until] is set from [now() + microseconds]. *)
Definition sleep_current_thread (microseconds : Z) (s : tstate) : tstate :=
  match current s with
  | None => s
  | Some _ =>
      let s1 := upd_current (fun c => c <| ThreadTypes.state := SLEEPING |>) s in
      let '(t, s2) := now s1 in
      upd_current (fun c => c <| sleep_until := t + microseconds * 1000 |>) s2
  end.

Definition yield (set_pc_to_lr : bool) (s : tstate) : tstate :=
  let pc := reg REG_PC s in
  let s1 := if set_pc_to_lr && (in_hle s || in_hle_range pc)
            then setr REG_PC (reg REG_LR s) s else s in
  context_switch THREAD_YIELD s1.

Definition coop_yield (s : tstate) : tstate := context_switch THREAD_YIELD s.

(** * Cooperative I/O *)

Definition block_on_io_and_yield (fd events : Z) (s : tstate) : tstate :=
  let op := if negb (Z.land events POLLIN =? 0) then RECVFROM
            else if negb (Z.land events POLLOUT =? 0) then SENDTO else RECV in
  yield false (upd_current (fun c => c <| ThreadTypes.state := IO_WAIT |> <| io_fd := fd |>
                                       <| io_operation := op |>) s).

Definition start_coop_epoll_wait (epfd events_ptr maxevents timeout_ms : Z) (s : tstate) : tstate :=
  match current s with
  | None => s
  | Some _ =>
      let '(t, s1) := now s in
      upd_current (fun c => c <| coop_io_type := COOP_EPOLL_WAIT |> <| coop_io_start := t |>
                              <| coop_io_timeout_ms := timeout_ms |> <| coop_io_fd := epfd |>
                              <| coop_io_events_ptr := events_ptr |>
                              <| coop_io_maxevents := maxevents |>
                              <| coop_io_return_addr := reg REG_LR s1 |>) s1
  end.

Definition is_in_coop_io (s : tstate) : bool :=
  match current s with
  | Some c => negb (bool_decide (coop_io_type c = COOP_NONE))
  | None => false
  end.

Definition get_coop_io_type (s : tstate) : CoopIoType :=
  match current s with Some c => coop_io_type c | None => COOP_NONE end.

(** [static_cast<int>(elapsed)] is kept; -1 is an infinite timeout. *)
Definition get_coop_io_remaining_timeout_ms (s : tstate) : Z * tstate :=
  match current s with
  | None => (0, s)
  | Some c =>
      if bool_decide (coop_io_type c = COOP_NONE) then (0, s)
      else if coop_io_timeout_ms c <? 0 then (-1, s)
      else let '(t, s1) := now s in
           let remaining := coop_io_timeout_ms c - s32 (to_ms (t - coop_io_start c)) in
           ((if 0 <? remaining then remaining else 0), s1)
  end.

Definition clear_coop_io_state (s : tstate) : tstate :=
  upd_current (fun c => c <| coop_io_type := COOP_NONE |> <| coop_io_fd := -1 |>
                          <| coop_io_events_ptr := 0 |> <| coop_io_maxevents := 0 |>
                          <| coop_io_timeout_ms := 0 |> <| coop_io_return_addr := 0 |>) s.

(** * Preemption *)

(** Time-slice test of [periodic_check_internal], tier 2. *)
Definition slice_expired (runtime : Z) (others : bool) : bool :=
  (100 * MS <? runtime) || (others && (50 * MS <? runtime)).

Definition periodic_check_internal (s : tstate) : tstate :=
  let s1 := upd_current (fun c => c <| block_next_switch := false |>) s in
  let in_grace := match current s1 with
                  | Some c => 0 <? grace_period_remaining c
                  | None => false
                  end in
  if in_grace
  then upd_current (fun c =>
         let c1 := c <| grace_period_remaining := grace_period_remaining c - 1 |> in
         if (grace_period_remaining c1 =? 0) && negb (initialized c1)
         then c1 <| initialized := true |> else c1) s1
  else
    let check_interval := if emergency_mode_ (tm s1) then emergency_check_interval_ (tm s1)
                          else periodic_check_interval_ (tm s1) in
    if instruction_count_ (tm s1) <? check_interval then s1
    else
      let s2 := s1 <| tm ::= fun t => t <| instruction_count_ := 0 |> |> in
      let '(t, s3) := now s2 in
      let s4 := s3 <| tm ::= fun x => x <| last_periodic_check_ := t |> |> in
      match current s4 with
      | None => s4
      | Some c =>
          if slice_expired (t - last_scheduled c) (has_runnable_threads s4)
          then context_switch PERIODIC_PREEMPTION s4 else s4
      end.

Definition periodic_check_n (instructions_executed : Z) (s : tstate) : tstate :=
  periodic_check_internal
    (s <| tm ::= fun t => t <| instruction_count_ := instruction_count_ t ⊕ instructions_executed |> |>).

Definition periodic_check (s : tstate) : tstate := periodic_check_n 1 s.

Definition enable_emergency_mode (s : tstate) : tstate :=
  s <| tm ::= fun t => t <| emergency_mode_ := true |> |>.
Definition disable_emergency_mode (s : tstate) : tstate :=
  s <| tm ::= fun t => t <| emergency_mode_ := false |> |>.

(** One round of [watchdog_thread_func]: the count of the previous round comes
    in and the new one goes out; the accumulator is an [int]. *)
Definition watchdog_round (preemption_count_last_check : Z) (s0 : tstate) : Z * tstate :=
  let s := pause 100 s0 in
  match current s with
  | None => (preemption_count_last_check, s)
  | Some _ =>
      let total := foldl (fun n p => s32 (n + periodic_switches p.2)) 0
                     (map_to_list (threads_ (tm s))) in
      let this_period := total - preemption_count_last_check in
      (total,
       if 5 <=? this_period
       then (if emergency_mode_ (tm s) then s else enable_emergency_mode s)
       else if emergency_mode_ (tm s) && (this_period <? 3) then disable_emergency_mode s else s)
  end.

End Scheduler.
