(* ===== verification/SchedulerSpec.v ===== *)
(** Correctness of the scheduler: its invariant, what a context switch does to
    the outgoing and the incoming thread, queue order and register contents. *)

From S2P Require Import Prelude Env MemoryManager ThreadTypes Scheduler.

(** * The scheduling invariant *)

(** A thread is stored under its own id, only the current thread is running,
    and every runnable thread is in the queue. *)
Record sched_ok (t : ThreadManager) : Prop := {
  so_id k c : threads_ t !! k = Some c -> thread_id c = k;
  so_run k c : threads_ t !! k = Some c -> state c = RUNNING -> k = current_thread_id_ t;
  so_queue k c : threads_ t !! k = Some c -> state c = RUNNABLE -> k ∈ runnable_queue_ t;
}.

(** No thread is running: the state between saving one and restoring another. *)
Definition idle (t : ThreadManager) : Prop :=
  forall k c, threads_ t !! k = Some c -> state c <> RUNNING.

(** Both only look at the threads, the queue and the current id. *)
Definition same_sched (t t' : ThreadManager) : Prop :=
  threads_ t' = threads_ t /\ runnable_queue_ t' = runnable_queue_ t /\
  current_thread_id_ t' = current_thread_id_ t.

Lemma same_sched_refl t : same_sched t t.
Proof. done. Qed.

Lemma sched_ok_same t t' : same_sched t t' -> sched_ok t -> sched_ok t'.
Proof. intros (E1 & E2 & E3) [H1 H2 H3]. constructor; rewrite ?E1, ?E2, ?E3; auto. Qed.

#[export] Hint Resolve same_sched_refl : shim.

Lemma is_state_spec st c : is_state st c = true <-> state c = st.
Proof. apply bool_decide_eq_true. Qed.

Lemma is_state_false st c : is_state st c = false <-> state c <> st.
Proof. apply bool_decide_eq_false. Qed.

(** An update of one context that keeps its id and either keeps its state or
    leaves it neither running nor runnable. *)
Definition tame (f : ThreadContext -> ThreadContext) : Prop :=
  forall c, thread_id (f c) = thread_id c /\
    (state (f c) = state c \/ (state (f c) <> RUNNING /\ state (f c) <> RUNNABLE)).

Lemma lookup_alter_inv f (id k : Z) (m : gmap Z ThreadContext) c' :
  alter f id m !! k = Some c' ->
  exists c, m !! k = Some c /\ (k = id /\ c' = f c \/ k <> id /\ c' = c).
Proof.
  rewrite lookup_alter_Some. intros [[<- (c & ? & ?)]|[? ?]]; [by exists c; auto|].
  exists c'. auto.
Qed.

Lemma sched_ok_alter f id t : tame f -> sched_ok t -> sched_ok (t <| threads_ ::= alter f id |>).
Proof.
  intros Hf [H1 H2 H3]. constructor; cbn; intros k c (d & Hd & [[-> ->]|[_ ->]])%lookup_alter_inv;
    try destruct (Hf d) as [Hid Hst]; eauto.
  - rewrite Hid. eauto.
  - intros Hr. destruct Hst as [E|[]]; [|congruence]. rewrite E in Hr. eauto.
  - intros Hr. destruct Hst as [E|[]]; [|congruence]. rewrite E in Hr. eauto.
Qed.

Lemma idle_alter f id t : tame f -> idle t -> idle (t <| threads_ ::= alter f id |>).
Proof.
  intros Hf H k c (d & Hd & [[-> ->]|[_ ->]])%lookup_alter_inv; [|eauto].
  destruct (Hf d) as [_ [E|[]]]; [rewrite E; eauto|done].
Qed.

(** Decides [tame] for the record updates of the code. *)
Ltac solve_tame :=
  let c := fresh "c" in intros c; cbn; split; [reflexivity|]; auto; right; split; discriminate.

Lemma sched_ok_delete id t : sched_ok t -> sched_ok (t <| threads_ ::= delete id |>).
Proof.
  intros [H1 H2 H3]. constructor; cbn; intros k c [_ Hk]%lookup_delete_Some; eauto.
Qed.

Section Spec.
Context {E : Env}.
Implicit Types s : tstate.

Lemma now_tm s : tm (now s).2 = tm s.
Proof. unfold now. by destruct (steady_now _). Qed.

Lemma now_split s : exists t s', now s = (t, s') /\ tm s' = tm s.
Proof. exists (now s).1, (now s).2. rewrite now_tm. by destruct (now s). Qed.

(** Making a thread that exists runnable. *)
Lemma make_runnable_ok id s : sched_ok (tm s) -> sched_ok (tm (make_runnable id s)).
Proof.
  intros [H1 H2 H3]. constructor; cbn; intros k c (d & Hd & [[-> ->]|[_ ->]])%lookup_alter_inv;
    cbn; eauto; intros Hr; [done|..]; apply elem_of_app; [right; by left|left; eauto].
Qed.

Lemma make_runnable_idle id s : idle (tm s) -> idle (tm (make_runnable id s)).
Proof. intros H k c (d & Hd & [[-> ->]|[_ ->]])%lookup_alter_inv; [done|eauto]. Qed.

(** The wake-up loops only make waiting threads runnable. *)
Lemma wake_sleeper_cases t s id :
  wake_sleeper t s id = s \/
  (wake_sleeper t s id = make_runnable id s /\
   exists c, threads_ (tm s) !! id = Some c /\ state c = SLEEPING /\ sleep_until c <= t).
Proof.
  unfold wake_sleeper. destruct (_ !! id) as [c|] eqn:Hc; [|by left].
  destruct (_ && _) eqn:Hb; [right|by left]. apply andb_true_iff in Hb as [Hs Ht].
  apply is_state_spec in Hs. zbool. eauto.
Qed.

Lemma wake_io_cases t s id :
  tm (wake_io t s id) = tm s \/
  (tm (wake_io t s id) = tm (make_runnable id s) /\
   exists c, threads_ (tm s) !! id = Some c /\ state c = IO_WAIT).
Proof.
  unfold wake_io. destruct (_ !! id) as [c|] eqn:Hc; [|by left].
  destruct (is_state IO_WAIT c) eqn:Hs; [|by left]. apply is_state_spec in Hs.
  destruct (wake_for_timeout t c); [right; eauto|].
  destruct (0 <=? io_fd c); [|by left].
  destruct (poll_fd _ _ _) as [[ret rev] e]. destruct (_ && _); [right; eauto|by left].
Qed.

(** A property of the manager kept by waking one waiting thread is kept by
    [select_next_thread] up to the final pop. *)
Lemma woken_ind (P : ThreadManager -> Prop) s t :
  (forall s id c, P (tm s) -> threads_ (tm s) !! id = Some c ->
     state c = SLEEPING \/ state c = IO_WAIT -> P (tm (make_runnable id s))) ->
  P (tm s) ->
  forall ids ids', P (tm (foldl (wake_io t) (foldl (wake_sleeper t) s ids) ids')).
Proof.
  intros Hstep H ids ids'.
  assert (H1 : P (tm (foldl (wake_sleeper t) s ids))).
  { revert s H; induction ids as [|i ids IH]; intros s H; cbn; [done|]. apply IH.
    destruct (wake_sleeper_cases t s i) as [->|(-> & c & Hc & Hs & _)]; [done|]. eauto. }
  revert H1. generalize (foldl (wake_sleeper t) s ids) as s1.
  induction ids' as [|i ids' IH]; intros s1 H1; cbn; [done|]. apply IH.
  destruct (wake_io_cases t s1 i) as [->|(-> & c & Hc & Hs)]; [done|]. eauto.
Qed.

(** [select_next_thread] is the wake-up loops and then the pop. *)
Lemma select_split s next s' : select_next_thread s = (next, s') ->
  exists s1 q,
    (forall P : ThreadManager -> Prop,
       (forall s id c, P (tm s) -> threads_ (tm s) !! id = Some c ->
          state c = SLEEPING \/ state c = IO_WAIT -> P (tm (make_runnable id s))) ->
       P (tm s) -> P (tm s1)) /\
    pop_runnable (threads_ (tm s1)) (runnable_queue_ (tm s1)) = (next, q) /\
    s' = s1 <| tm ::= fun t => t <| runnable_queue_ := q |> |>.
Proof.
  unfold select_next_thread. destruct (now_split s) as (t & s0 & -> & E0).
  set (s1 := foldl (wake_io t) _ _).
  destruct (pop_runnable _ _) as [n q] eqn:Hp. intros [= <- <-]. exists s1, q.
  split_and!; [|done|done]. intros P Hstep H. apply woken_ind; [done|]. by rewrite E0.
Qed.

(** What the pop returns and what it drops. *)
Lemma pop_runnable_spec threads q next q' : pop_runnable threads q = (next, q') ->
  exists dropped, (forall k c, k ∈ dropped -> threads !! k = Some c -> state c <> RUNNABLE) /\
  match next with
  | Some n => q = dropped ++ n :: q' /\ exists c, threads !! n = Some c /\ state c = RUNNABLE
  | None => q = dropped /\ q' = []
  end.
Proof.
  revert q'; induction q as [|x q IH]; intros q'; cbn.
  { intros [= <- <-]. exists []. split; [|done]. by intros k c ?%elem_of_nil. }
  assert (Hskip : (forall c, threads !! x = Some c -> state c <> RUNNABLE) ->
    pop_runnable threads q = (next, q') ->
    exists dropped, (forall k c, k ∈ dropped -> threads !! k = Some c -> state c <> RUNNABLE) /\
    match next with
    | Some n => x :: q = dropped ++ n :: q' /\ exists c, threads !! n = Some c /\ state c = RUNNABLE
    | None => x :: q = dropped /\ q' = []
    end).
  { intros Hx (d & Hd & Hn)%IH. exists (x :: d). split.
    - intros k c [->|Hk]%elem_of_cons; eauto.
    - destruct next as [n|]; destruct Hn as [-> ?]; done. }
  destruct (threads !! x) as [c|] eqn:Hx; [destruct (is_state RUNNABLE c) eqn:Hs|].
  - intros [= <- <-]. exists []. split; [by intros ?? ?%elem_of_nil|]. split; [done|].
    apply is_state_spec in Hs. eauto.
  - intros Hp. apply Hskip; [|done]. intros d [= <-]. by apply is_state_false.
  - intros Hp. by apply Hskip.
Qed.

(** * Selection *)

(** What holds right before a thread is dispatched. *)
Definition selected (next : option Z) (t : ThreadManager) : Prop :=
  match next with
  | Some n => (exists c, threads_ t !! n = Some c /\ state c = RUNNABLE) /\
              forall k c, threads_ t !! k = Some c -> state c = RUNNABLE ->
                          k = n \/ k ∈ runnable_queue_ t
  | None => forall k c, threads_ t !! k = Some c -> state c <> RUNNABLE
  end.

(** [sched_ok] without the queue condition. *)
Record ids_ok (t : ThreadManager) : Prop := {
  io_id k c : threads_ t !! k = Some c -> thread_id c = k;
  io_idle : idle t;
}.

Lemma select_ok s next s' : sched_ok (tm s) -> idle (tm s) ->
  select_next_thread s = (next, s') ->
  ids_ok (tm s') /\ selected next (tm s') /\
  current_thread_id_ (tm s') = current_thread_id_ (tm s).
Proof.
  intros Hok Hidle (s1 & q & Hw & Hp & ->)%select_split.
  assert (H1 : sched_ok (tm s1) /\ idle (tm s1) /\
               current_thread_id_ (tm s1) = current_thread_id_ (tm s)).
  { apply (Hw (fun t => sched_ok t /\ idle t /\ current_thread_id_ t = current_thread_id_ (tm s)));
      [|done]. intros s0 id c (?&?&?) _ _. split_and!; [by apply make_runnable_ok|by apply make_runnable_idle|done]. }
  destruct H1 as ([Ho1 Ho2 Ho3] & Hi & Hc). split_and!; [by constructor| |done].
  apply pop_runnable_spec in Hp as (d & Hd & Hn). destruct next as [n|]; cbn.
  - destruct Hn as [Hq Hn]. split; [done|]. intros k c Hk Hr.
    pose proof (Ho3 k c Hk Hr) as Hin. rewrite Hq, elem_of_app, elem_of_cons in Hin.
    destruct Hin as [Hin|[|]]; [by destruct (Hd k c Hin Hk)|auto..].
  - intros k c Hk Hr. destruct Hn as [Hq _]. apply (Hd k c); [|done..].
    rewrite <- Hq. eauto.
Qed.

Lemma idle_wait_tm n s : tm (idle_wait n s) = tm s.
Proof.
  unfold idle_wait. destruct (now_split s) as (t & s1 & -> & Et).
  destruct (_ && _); [destruct (0 <? _)|]; done.
Qed.

(** With nothing runnable the state is again one to select from. *)
Lemma none_selected_ok t : ids_ok t -> selected None t -> sched_ok t /\ idle t.
Proof.
  intros [H1 H2] H3. split; [|done]. constructor; [done| |].
  - intros k c Hk Hr. by destruct (H2 k c).
  - intros k c Hk Hr. by destruct (H3 k c).
Qed.

Lemma select_or_wait_ok s next s' : sched_ok (tm s) -> idle (tm s) ->
  select_or_wait s = (next, s') ->
  ids_ok (tm s') /\ selected next (tm s') /\
  current_thread_id_ (tm s') = current_thread_id_ (tm s).
Proof.
  intros Hok Hidle. unfold select_or_wait.
  destruct (select_next_thread s) as [[n|] s1] eqn:Hs.
  - intros [= <- <-]. by eapply select_ok.
  - destruct (select_ok _ _ _ Hok Hidle Hs) as (Hi & Hsel & Hc).
    destruct (none_selected_ok _ Hi Hsel) as [Hok1 Hid1].
    destruct (idle_scan s1) as [b e]. destruct b; [|by intros [= <- <-]].
    intros (? & ? & Hc')%select_ok; rewrite ?idle_wait_tm in *; try done.
    split_and!; [done..|congruence].
Qed.

Lemma retry_select_ok n s next s' : sched_ok (tm s) -> idle (tm s) ->
  selected None (tm s) -> retry_select n s = (next, s') ->
  ids_ok (tm s') /\ selected next (tm s') /\
  current_thread_id_ (tm s') = current_thread_id_ (tm s).
Proof.
  revert s; induction n as [|n IH]; intros s Hok Hidle Hsel; cbn.
  - intros [= <- <-]. split_and!; [|done|done]. by constructor; [apply Hok|].
  - destruct (select_next_thread (pause 100 s)) as [[m|] s1] eqn:Hs;
      destruct (select_ok (pause 100 s) _ _ Hok Hidle Hs) as (Hi & Hsel1 & Hc).
    + intros [= <- <-]. done.
    + destruct (none_selected_ok _ Hi Hsel1) as [Hok1 Hid1].
      intros (? & ? & ?)%IH; [|done..]. split_and!; [done..|]. by etrans; [|exact Hc].
Qed.

(** * The context switch *)

Lemma alter_insert_eq f (i : Z) (m : gmap Z ThreadContext) c :
  m !! i = Some c -> alter f i m = <[i := f c]> m.
Proof.
  intros Hi. apply map_eq. intros j. destruct (decide (i = j)) as [<-|Hne].
  - by rewrite lookup_alter_eq, Hi, lookup_insert_eq.
  - by rewrite lookup_alter_ne, lookup_insert_ne.
Qed.

Lemma upd_threads_eq (t : ThreadManager) h v : h (threads_ t) = v ->
  t <| threads_ ::= h |> = t <| threads_ := v |>.
Proof. by intros <-. Qed.

(** The context of a thread right after it was given the CPU. *)
Definition running (t : Z) (c : ThreadContext) : ThreadContext :=
  c <| ThreadTypes.state := RUNNING |> <| last_scheduled := t |>
    <| grace_period_remaining := 100 |> <| block_next_switch := true |>.

Lemma dispatch_spec n s c : threads_ (tm s) !! n = Some c -> thread_id c = n ->
  exists t e, ext (ms (dispatch n s)) = write_registers (registers c) e /\
    tm (dispatch n s) = (tm s) <| current_thread_id_ := n |>
                               <| threads_ := <[n := running t c]> (threads_ (tm s)) |>.
Proof.
  intros Hn Hid. unfold dispatch. rewrite Hn, Hid.
  match goal with |- context [now ?x] => destruct (now_split x) as (t & s1 & -> & Et) end.
  exists t. unfold restore_thread_state. cbn. rewrite Et. cbn.
  rewrite (alter_insert_eq _ _ _ c Hn).
  rewrite (alter_insert_eq _ n _ (c <| ThreadTypes.state := RUNNING |>))
    by apply lookup_insert_eq.
  rewrite lookup_insert_eq. cbn. eexists. split; [reflexivity|].
  rewrite Et. cbn [tm upd_thread set_field set_tm].
  apply (upd_threads_eq ((tm s) <| current_thread_id_ := n |>)
    (fun m => alter _ n (alter _ n (alter _ n m)))). cbn.
  rewrite (alter_insert_eq _ _ _ c Hn).
  rewrite !(alter_insert_eq _ n (<[n := _]> _) _ (lookup_insert_eq _ n _)).
  by rewrite !insert_insert_eq.
Qed.

Lemma dispatch_ok n s : ids_ok (tm s) -> selected (Some n) (tm s) ->
  sched_ok (tm (dispatch n s)) /\ current_thread_id_ (tm (dispatch n s)) = n /\
  exists c, threads_ (tm (dispatch n s)) !! n = Some c /\ state c = RUNNING.
Proof.
  intros [Hid Hi] ((c & Hc & Hr) & Hq).
  destruct (dispatch_spec n s c Hc (Hid _ _ Hc)) as (t & e & _ & Et). rewrite Et. cbn.
  split_and!; [|done|eexists; split; [apply lookup_insert_eq|done]].
  constructor; cbn; intros k d [[<- <-]|[Hne Hk]]%lookup_insert_Some; cbn; try done; eauto.
  - intros Hrun. by destruct (Hi k d).
  - intros Hrn. destruct (Hq k d Hk Hrn); [congruence|done].
Qed.

(** Outcome of a switch: some thread runs, or none could. *)
Definition someone_runs (t : ThreadManager) : Prop :=
  exists c, threads_ t !! current_thread_id_ t = Some c /\ state c = RUNNING.
Definition nobody_ready (t : ThreadManager) : Prop :=
  forall k c, threads_ t !! k = Some c -> state c <> RUNNABLE /\ state c <> RUNNING.

Lemma selected_none_ready t : ids_ok t -> selected None t -> nobody_ready t.
Proof. intros [_ Hi] Hs k c Hk. split; [by apply (Hs k)|by apply (Hi k)]. Qed.

Lemma switch_away_ok old s : sched_ok (tm s) -> idle (tm s) ->
  let s' := switch_away old s in
  sched_ok (tm s') /\
  (someone_runs (tm s') \/
   nobody_ready (tm s') /\ current_thread_id_ (tm s') = current_thread_id_ (tm s)).
Proof.
  intros Hok Hidle s'. subst s'. unfold switch_away.
  assert (Hdisp : forall n s1, ids_ok (tm s1) -> selected (Some n) (tm s1) ->
            sched_ok (tm (dispatch n s1)) /\ (someone_runs (tm (dispatch n s1)) \/
            nobody_ready (tm (dispatch n s1)) /\
            current_thread_id_ (tm (dispatch n s1)) = current_thread_id_ (tm s))).
  { intros n s1 H1 H2. destruct (dispatch_ok n s1 H1 H2) as (? & Hc & c & ? & ?).
    split; [done|]. left. exists c. by rewrite Hc. }
  destruct (select_or_wait s) as [[n|] s1] eqn:Hs;
    destruct (select_or_wait_ok _ _ _ Hok Hidle Hs) as (Hi & Hsel & Hc); [by apply Hdisp|].
  destruct (none_selected_ok _ Hi Hsel) as [Hok1 Hid1].
  assert (Hnone : sched_ok (tm s1) /\ (someone_runs (tm s1) \/ nobody_ready (tm s1) /\
            current_thread_id_ (tm s1) = current_thread_id_ (tm s))).
  { split; [done|]. right. split; [by apply selected_none_ready|done]. }
  destruct (threads_ (tm s1) !! old) as [c|] eqn:Hold; [|done].
  destruct (is_state TERMINATED c); [|destruct (is_state RUNNABLE c) eqn:Hr; [|done]].
  - destruct (all_terminated s1); [exact Hnone|].
    destruct (retry_select 10 s1) as [[n|] s2] eqn:Hrt;
      destruct (retry_select_ok _ _ _ _ Hok1 Hid1 Hsel Hrt) as (Hi2 & Hsel2 & Hc2); [by apply Hdisp|].
    destruct (none_selected_ok _ Hi2 Hsel2). split; [done|]. right.
    split; [by apply selected_none_ready|]. by etrans; [exact Hc2|exact Hc].
  - exfalso. apply is_state_spec in Hr. by apply (Hsel old c).
Qed.

Lemma tame_count reason :
  tame (fun c => count_switch reason (c <| block_next_switch := false |>)).
Proof. intros c. by destruct reason; cbn; auto. Qed.

Lemma park_current_ok s : sched_ok (tm s) ->
  sched_ok (tm (park_current (current_thread_id_ (tm s)) s)) /\
  idle (tm (park_current (current_thread_id_ (tm s)) s)) /\
  current_thread_id_ (tm (park_current (current_thread_id_ (tm s)) s)) = current_thread_id_ (tm s).
Proof.
  intros Hok. unfold park_current.
  destruct (threads_ (tm s) !! _) as [c|] eqn:Hc.
  2: { split_and!; [done| |done]. intros k d Hk Hr. pose proof (so_run _ Hok k d Hk Hr). congruence. }
  assert (Hsave : forall id, sched_ok (tm (save_thread_state id s))).
  { intros id. apply sched_ok_alter; [solve_tame|done]. }
  destruct (is_state RUNNING c) eqn:Hr.
  - split_and!; [by apply make_runnable_ok| |done].
    intros k d (d1 & Hd1 & [[-> ->]|[Hne ->]])%lookup_alter_inv; [done|].
    apply lookup_alter_inv in Hd1 as (d2 & Hd2 & [[-> ->]|[_ ->]]); [done|].
    intros Hrun. by pose proof (so_run _ Hok k d2 Hd2 Hrun).
  - apply is_state_false in Hr.
    assert (Hi : idle (tm s)).
    { intros k d Hk Hrun. pose proof (so_run _ Hok k d Hk Hrun) as ->. congruence. }
    assert (Hi1 : idle (tm (save_thread_state (current_thread_id_ (tm s)) s)))
      by (apply idle_alter; [solve_tame|done]).
    destruct (has_resume_pc c); split_and!; auto;
      [apply sched_ok_alter; [solve_tame|apply Hsave]|by apply idle_alter; [solve_tame|]].
Qed.

(** The pieces of a switch that goes through. *)
Lemma context_switch_split reason s c : sched_ok (tm s) -> current s = Some c ->
  block_next_switch c && negb (voluntary reason) = false ->
  exists s1, context_switch reason s = switch_away (current_thread_id_ (tm s)) s1 /\
    sched_ok (tm s1) /\ idle (tm s1) /\
    current_thread_id_ (tm s1) = current_thread_id_ (tm s) /\
    exists t, tm s1 =
      (tm (park_current (current_thread_id_ (tm s))
            (upd_thread (current_thread_id_ (tm s))
               (fun c => count_switch reason (c <| block_next_switch := false |>)) s)))
      <| threads_ ::= alter (fun c => c <| last_switch := t |>) (current_thread_id_ (tm s)) |>.
Proof.
  intros Hok Hc Hb. unfold context_switch. unfold current in Hc. rewrite Hc, Hb.
  set (s0 := upd_thread _ _ s).
  assert (Hok0 : sched_ok (tm s0)) by (apply sched_ok_alter; [apply tame_count|done]).
  destruct (park_current_ok s0 Hok0) as (Hp1 & Hp2 & Hp3).
  change (current_thread_id_ (tm s0)) with (current_thread_id_ (tm s)) in *.
  set (s1 := park_current _ s0) in *. destruct (now_split s1) as (t & s2 & -> & Et).
  exists (upd_thread (current_thread_id_ (tm s)) (fun c => c <| last_switch := t |>) s2).
  cbn. rewrite Et. split_and!; [done| | |done|by exists t].
  - apply sched_ok_alter; [solve_tame|done].
  - apply idle_alter; [solve_tame|done].
Qed.

Lemma context_switch_ok reason s : sched_ok (tm s) -> sched_ok (tm (context_switch reason s)).
Proof.
  intros Hok. destruct (current s) as [c|] eqn:Hc.
  - destruct (block_next_switch c && negb (voluntary reason)) eqn:Hb.
    + unfold context_switch. unfold current in Hc. by rewrite Hc, Hb.
    + destruct (context_switch_split reason s c Hok Hc Hb) as (s1 & -> & Hok1 & Hid & _).
      by apply switch_away_ok.
  - unfold context_switch. unfold current in Hc. by rewrite Hc.
Qed.

(** ** Following one thread through a switch *)

(** A property of thread [k]'s context that waking it keeps. *)
Definition follows (k : Z) (Q : ThreadContext -> Prop) (t : ThreadManager) : Prop :=
  exists d, threads_ t !! k = Some d /\ Q d.

Lemma follows_make_runnable k Q s id c :
  (forall d, state d = SLEEPING \/ state d = IO_WAIT -> Q d ->
     Q (d <| ThreadTypes.state := RUNNABLE |>)) ->
  follows k Q (tm s) -> threads_ (tm s) !! id = Some c ->
  state c = SLEEPING \/ state c = IO_WAIT -> follows k Q (tm (make_runnable id s)).
Proof.
  intros HQ (d & Hd & Hq) Hc Hs. unfold follows. cbn.
  destruct (decide (id = k)) as [->|Hne].
  - rewrite lookup_alter_eq, Hd. eexists. split; [done|]. apply HQ; congruence.
  - rewrite lookup_alter_ne by done. eauto.
Qed.

Lemma follows_select k Q s next s' :
  (forall d, state d = SLEEPING \/ state d = IO_WAIT -> Q d ->
     Q (d <| ThreadTypes.state := RUNNABLE |>)) ->
  follows k Q (tm s) -> select_next_thread s = (next, s') -> follows k Q (tm s').
Proof.
  intros HQ Hf (s1 & q & Hw & _ & ->)%select_split. cbn.
  apply (Hw (follows k Q)); [|done]. intros s0 id c ???. by eapply follows_make_runnable.
Qed.

Lemma follows_select_or_wait k Q s next s' :
  (forall d, state d = SLEEPING \/ state d = IO_WAIT -> Q d ->
     Q (d <| ThreadTypes.state := RUNNABLE |>)) ->
  follows k Q (tm s) -> select_or_wait s = (next, s') -> follows k Q (tm s').
Proof.
  intros HQ Hf. unfold select_or_wait.
  destruct (select_next_thread s) as [[n|] s1] eqn:Hs; [intros [= <- <-]; by eapply follows_select|].
  assert (Hf1 : follows k Q (tm s1)) by (by eapply follows_select).
  destruct (idle_scan s1) as [[] e]; [|by intros [= <- <-]].
  apply follows_select; [done|]. by rewrite idle_wait_tm.
Qed.

Lemma follows_retry k Q n s next s' :
  (forall d, state d = SLEEPING \/ state d = IO_WAIT -> Q d ->
     Q (d <| ThreadTypes.state := RUNNABLE |>)) ->
  follows k Q (tm s) -> retry_select n s = (next, s') -> follows k Q (tm s').
Proof.
  intros HQ. revert s; induction n as [|n IH]; intros s Hf; cbn; [by intros [= <- <-]|].
  destruct (select_next_thread (pause 100 s)) as [[m|] s1] eqn:Hs.
  - intros [= <- <-]. eapply (follows_select k Q (pause 100 s)); done.
  - apply IH. eapply (follows_select k Q (pause 100 s)); done.
Qed.

(** Through the whole of [switch_away], for properties that being given the CPU
    keeps as well. *)
Lemma follows_switch_away k Q old s :
  (forall d, state d = SLEEPING \/ state d = IO_WAIT -> Q d ->
     Q (d <| ThreadTypes.state := RUNNABLE |>)) ->
  (forall t d, state d = RUNNABLE -> Q d -> Q (running t d)) ->
  sched_ok (tm s) -> idle (tm s) -> follows k Q (tm s) -> follows k Q (tm (switch_away old s)).
Proof.
  intros HQ HR Hok Hidle Hf. unfold switch_away.
  assert (Hdisp : forall n s1, ids_ok (tm s1) -> selected (Some n) (tm s1) ->
            follows k Q (tm s1) -> follows k Q (tm (dispatch n s1))).
  { intros n s1 [Hid _] ((c & Hc & Hr) & _) (d & Hd & Hq).
    destruct (dispatch_spec n s1 c Hc (Hid _ _ Hc)) as (t & e & _ & Et).
    unfold follows. rewrite Et. cbn. destruct (decide (n = k)) as [->|Hne].
    - rewrite lookup_insert_eq. eexists. split; [done|]. simplify_eq. auto.
    - rewrite lookup_insert_ne by done. eauto. }
  destruct (select_or_wait s) as [[n|] s1] eqn:Hs;
    destruct (select_or_wait_ok _ _ _ Hok Hidle Hs) as (Hi & Hsel & Hc);
    assert (Hf1 : follows k Q (tm s1)) by (by eapply follows_select_or_wait); [by apply Hdisp|].
  destruct (none_selected_ok _ Hi Hsel) as [Hok1 Hid1].
  destruct (threads_ (tm s1) !! old) as [c|] eqn:Hold; [|done].
  destruct (is_state TERMINATED c); [|destruct (is_state RUNNABLE c) eqn:Hr; [|done]].
  - destruct (all_terminated s1); [exact Hf1|].
    destruct (retry_select 10 s1) as [[n|] s2] eqn:Hrt;
      destruct (retry_select_ok _ _ _ _ Hok1 Hid1 Hsel Hrt) as (Hi2 & Hsel2 & _);
      assert (Hf2 : follows k Q (tm s2)) by (by eapply follows_retry); [by apply Hdisp|exact Hf2].
  - exfalso. apply is_state_spec in Hr. by apply (Hsel old c).
Qed.

(** ** The outgoing thread *)

(** The registers a switch records for the outgoing context [c]: those of the
    CPU, except that a blocked thread with a recognised resume address keeps it. *)
Definition saved_registers (e : env) (c : ThreadContext) : RegisterState :=
  let r := read_registers e in
  if has_resume_pc c then r <| rpc := rpc (registers c) |> else r.

Lemma has_resume_pc_running c : state c = RUNNING -> has_resume_pc c = false.
Proof. intros H. unfold has_resume_pc, is_state. by rewrite H. Qed.

Lemma has_resume_pc_count reason c :
  has_resume_pc (count_switch reason (c <| block_next_switch := false |>)) = has_resume_pc c.
Proof. by destruct reason. Qed.

(** The context of the outgoing thread once it is saved. *)
Definition parked (reason : SwitchReason) (e : env) (t : Z) (c : ThreadContext) : ThreadContext :=
  (count_switch reason (c <| block_next_switch := false |>))
    <| registers := saved_registers e c |>
    <| ThreadTypes.state := if is_state RUNNING c then RUNNABLE else state c |>
    <| last_switch := t |>.

Lemma parked_current reason s c t : current s = Some c ->
  threads_ ((tm (park_current (current_thread_id_ (tm s))
           (upd_thread (current_thread_id_ (tm s))
              (fun c => count_switch reason (c <| block_next_switch := false |>)) s)))
      <| threads_ ::= alter (fun c => c <| last_switch := t |>) (current_thread_id_ (tm s)) |>)
    !! current_thread_id_ (tm s) = Some (parked reason (ext (ms s)) t c).
Proof.
  intros Hc. unfold current in Hc. unfold park_current. cbn.
  rewrite !lookup_alter_eq, Hc. cbn.
  assert (Es : forall st, is_state st (count_switch reason (c <| block_next_switch := false |>))
                          = is_state st c) by (by destruct reason).
  rewrite Es, has_resume_pc_count. unfold parked, saved_registers.
  destruct (is_state RUNNING c) eqn:Hr.
  - apply is_state_spec in Hr. rewrite (has_resume_pc_running c Hr). cbn.
    rewrite !lookup_alter_eq, Hc. reflexivity.
  - destruct (has_resume_pc c); cbn; rewrite !lookup_alter_eq, Hc; by destruct reason.
Qed.

(** Anything that holds of the saved context and survives waking and running
    holds of the outgoing thread after the switch. *)
Lemma switch_outgoing reason s c (Q : ThreadContext -> Prop) :
  sched_ok (tm s) -> current s = Some c ->
  block_next_switch c && negb (voluntary reason) = false ->
  (forall d, state d = SLEEPING \/ state d = IO_WAIT -> Q d ->
     Q (d <| ThreadTypes.state := RUNNABLE |>)) ->
  (forall t d, state d = RUNNABLE -> Q d -> Q (running t d)) ->
  (forall t, Q (parked reason (ext (ms s)) t c)) ->
  follows (current_thread_id_ (tm s)) Q (tm (context_switch reason s)).
Proof.
  intros Hok Hc Hb H1 H2 H3.
  destruct (context_switch_split reason s c Hok Hc Hb) as (s1 & -> & Hok1 & Hid1 & _ & t & Et).
  apply follows_switch_away; try done. unfold follows. rewrite Et, (parked_current _ _ c) by done.
  eauto.
Qed.

(** A context switch that goes through saves the outgoing thread: it stays in
    the thread table, its saved registers are the CPU's at the moment of the
    switch, except that a blocked or I/O-waiting thread with a recognised
    resume address keeps that address as PC; a running thread is runnable (or
    already running again) and a blocked or terminated one keeps its state. *)
Theorem switch_saves_outgoing reason s c :
  sched_ok (tm s) -> current s = Some c ->
  block_next_switch c && negb (voluntary reason) = false ->
  exists d, threads_ (tm (context_switch reason s)) !! current_thread_id_ (tm s) = Some d /\
    registers d = saved_registers (ext (ms s)) c /\
    (state c = RUNNING -> state d = RUNNABLE \/ state d = RUNNING) /\
    (state c = BLOCKED \/ state c = TERMINATED -> state d = state c).
Proof.
  intros Hok Hc Hb.
  apply (switch_outgoing reason s c (fun d => registers d = saved_registers (ext (ms s)) c /\
    (state c = RUNNING -> state d = RUNNABLE \/ state d = RUNNING) /\
    (state c = BLOCKED \/ state c = TERMINATED -> state d = state c))); try done.
  - intros d Hs (Hr & H1 & H2). cbn. split_and!; [done|by left|].
    intros Hbt. specialize (H2 Hbt). destruct Hs as [Hs|Hs], Hbt as [Hbt|Hbt]; congruence.
  - intros u d Hs (Hr & H1 & H2). cbn. split_and!; [done|by right|].
    intros Hbt. specialize (H2 Hbt). destruct Hbt as [Hbt|Hbt]; congruence.
  - intros t. cbn. split_and!; [done|..].
    + intros Hrun. apply is_state_spec in Hrun. rewrite Hrun. by left.
    + intros Hbt. destruct (is_state RUNNING c) eqn:Hrun; [|done].
      apply is_state_spec in Hrun. destruct Hbt; congruence.
Qed.

(** Work conservation. After a context switch that goes through, the
    scheduling invariant holds again, and either the current thread is running,
    or no thread at all is runnable or running (every thread is blocked,
    asleep, waiting for I/O, terminated or not started), in which case the
    current thread has not changed. *)
Theorem context_switch_progress reason s c :
  sched_ok (tm s) -> current s = Some c ->
  block_next_switch c && negb (voluntary reason) = false ->
  let s' := context_switch reason s in
  sched_ok (tm s') /\
  (someone_runs (tm s') \/
   nobody_ready (tm s') /\ current_thread_id_ (tm s') = current_thread_id_ (tm s)).
Proof.
  intros Hok Hc Hb.
  destruct (context_switch_split reason s c Hok Hc Hb) as (s1 & -> & Hok1 & Hid1 & Hcur & _).
  rewrite <- Hcur. by apply switch_away_ok.
Qed.

(** ** Queue order *)

(** Thread [k] is runnable with [n] entries of the queue before it. *)
Definition queued_at (k : Z) (n : nat) (t : ThreadManager) : Prop :=
  follows k (fun d => state d = RUNNABLE) t /\
  exists pre post, runnable_queue_ t = pre ++ k :: post /\ (length pre <= n)%nat.

Lemma queued_select k n s next s' : queued_at k n (tm s) ->
  select_next_thread s = (next, s') ->
  next = Some k \/ exists m, next = Some m /\ exists n', (n' < n)%nat /\ queued_at k n' (tm s').
Proof.
  intros Hq (s1 & q & Hw & Hp & ->)%select_split.
  assert (H1 : queued_at k n (tm s1)).
  { apply (Hw (queued_at k n)); [|done]. intros s0 id c (Hf & pre & post & Er & Hl) Hid Hs. split.
    - eapply follows_make_runnable; [|done..]. naive_solver.
    - exists pre, (post ++ [id]). cbn. rewrite Er, <- app_assoc. done. }
  destruct H1 as ((d & Hd & Hs) & pre & post & Er & Hl).
  apply pop_runnable_spec in Hp as (dr & Hdr & Hn). rewrite Er in Hn.
  assert (Hpre : forall l m l', pre ++ k :: post = l ++ m :: l' -> k ∉ l ->
            m = k \/ exists pre', l' = pre' ++ k :: post /\ (length pre' < length pre)%nat).
  { clear. induction pre as [|x pre IH]; intros [|y l] m l'; cbn; intros [= <- E1] Hk.
    - by left.
    - set_solver.
    - right. exists pre. split; [done|lia].
    - destruct (IH l m l' E1) as [->|(p' & -> & ?)]; [set_solver|by left|].
      right. exists p'. split; [done|lia]. }
  assert (Hk : k ∉ dr) by (intros Hin; by apply (Hdr k d Hin Hd)).
  destruct next as [m|].
  - destruct Hn as [Hn _]. destruct (Hpre _ _ _ Hn Hk) as [->|(p' & -> & Hlt)]; [by left|].
    right. exists m. split; [done|]. exists (length p'). split; [lia|]. split; [by exists d|].
    exists p', post. done.
  - destruct Hn as [Hn _]. exfalso. apply Hk. rewrite <- Hn. set_solver.
Qed.

(** Round robin without overtaking. If a runnable thread other than the
    current one has at most [n] entries before it in the queue, then after a
    context switch that goes through it is either the running thread, or still
    runnable with strictly fewer entries before it. *)
Theorem switch_fifo reason s c k n :
  sched_ok (tm s) -> current s = Some c -> k <> current_thread_id_ (tm s) ->
  block_next_switch c && negb (voluntary reason) = false ->
  queued_at k n (tm s) ->
  let s' := context_switch reason s in
  (current_thread_id_ (tm s') = k /\ someone_runs (tm s')) \/
  exists n', (n' < n)%nat /\ queued_at k n' (tm s').
Proof.
  intros Hok Hc Hne Hb ((d & Hd & Hs) & pre & post & Eq & Hl) s'. subst s'.
  destruct (context_switch_split reason s c Hok Hc Hb) as (s1 & -> & Hok1 & Hid1 & Hcur & t & Et).
  assert (Hq1 : queued_at k n (tm s1)).
  { rewrite Et. unfold current in Hc. unfold park_current. cbn. rewrite lookup_alter_eq, Hc. cbn.
    split.
    - exists d. split; [|done]. destruct (is_state _ _); [|destruct (has_resume_pc _)]; cbn;
        rewrite !lookup_alter_ne by congruence; done.
    - destruct (is_state _ _); [|destruct (has_resume_pc _)]; cbn; rewrite Eq.
      + exists pre, (post ++ [current_thread_id_ (tm s)]). by rewrite <- app_assoc.
      + by exists pre, post.
      + by exists pre, post. }
  unfold switch_away.
  assert (Hsel : exists m s2, select_or_wait s1 = (Some m, s2) /\
    (m = k \/ exists n', (n' < n)%nat /\ queued_at k n' (tm s2))).
  { unfold select_or_wait. destruct (select_next_thread s1) as [next s2] eqn:Hs2.
    destruct (queued_select _ _ _ _ _ Hq1 Hs2) as [->|(m & -> & ?)]; eauto. }
  destruct Hsel as (m & s2 & Hs2 & Hor). rewrite Hs2.
  destruct (select_or_wait_ok _ _ _ Hok1 Hid1 Hs2) as (Hi & Hsel & _).
  destruct (dispatch_ok m s2 Hi Hsel) as (_ & Hcm & cm & Hlk & Hrun).
  destruct Hor as [->|(n' & Hn' & Hq)].
  { left. split; [done|]. exists cm. by rewrite Hcm. }
  destruct (decide (m = k)) as [->|Hmk]; [left; split; [done|]; exists cm; by rewrite Hcm|].
  right. exists n'. split; [done|]. destruct Hi as [Hid _]. destruct Hsel as ((c2 & Hc2 & _) & _).
  destruct (dispatch_spec m s2 c2 Hc2 (Hid _ _ Hc2)) as (u & e & _ & Ed). rewrite Ed.
  destruct Hq as ((d' & Hd' & Hs') & Hpp). split; [|exact Hpp].
  exists d'. cbn. by rewrite lookup_insert_ne.
Qed.

(** * Registers *)

Section Registers.
Context `{!RegLaws E}.

(** A register image the CPU can hold; X30 and LR are the same register. *)
Record regs_wf (r : RegisterState) : Prop := {
  rw_x : length (rx r) = 31%nat;
  rw_v : length (rv r) = 32%nat;
  rw_lr : rx r !! 30%nat = Some (rlr r);
  rw_xok i v : rx r !! i = Some v -> reg_ok (REG_X (Z.of_nat i)) v;
  rw_sp : reg_ok REG_SP (rsp r);
  rw_pc : reg_ok REG_PC (rpc r);
  rw_tpidr : reg_ok REG_TPIDR_EL0 (rtpidr_el0 r);
  rw_nzcv : reg_ok REG_CPSR (rnzcv r);
  rw_fpcr : reg_ok REG_FPCR (rfpcr r);
  rw_fpsr : reg_ok REG_FPSR (rfpsr r);
}.

Lemma has_cpu_set_reg r v e : has_cpu (set_reg r v e) = has_cpu e.
Proof. unfold set_reg. destruct (has_cpu e) eqn:Hc; [|done]. by rewrite has_cpu_write_reg. Qed.

Lemma has_cpu_set_vreg r v e : has_cpu (set_vreg r v e) = has_cpu e.
Proof. unfold set_vreg. destruct (has_cpu e) eqn:Hc; [|done]. by rewrite has_cpu_write_vreg. Qed.

Lemma get_set_reg r v e : has_cpu e = true -> reg_ok r v -> get_reg r (set_reg r v e) = v.
Proof.
  intros Hc Hv. unfold get_reg. rewrite has_cpu_set_reg, Hc. unfold set_reg. rewrite Hc.
  by apply read_write_reg.
Qed.

Lemma get_set_reg_ne r r' v e : r <> r' -> get_reg r (set_reg r' v e) = get_reg r e.
Proof.
  intros Hne. unfold get_reg. rewrite has_cpu_set_reg. unfold set_reg.
  destruct (has_cpu e); [by apply read_write_reg_ne|done].
Qed.

Lemma get_reg_set_vreg r r' v e : get_reg r (set_vreg r' v e) = get_reg r e.
Proof.
  unfold get_reg. rewrite has_cpu_set_vreg. unfold set_vreg.
  destruct (has_cpu e); [apply read_reg_write_vreg|done].
Qed.

Lemma get_vreg_set_reg r r' v e : get_vreg r (set_reg r' v e) = get_vreg r e.
Proof.
  unfold get_vreg. rewrite has_cpu_set_reg. unfold set_reg.
  destruct (has_cpu e); [apply read_vreg_write_reg|done].
Qed.

(** A loop of register writes. *)
Definition write_all (f : nat -> Z) (g : nat -> Z) (l : list nat) (e : env) : env :=
  foldl (fun e i => set_reg (f i) (g i) e) e l.
Definition write_vall (f : nat -> Z) (g : nat -> Z * Z) (l : list nat) (e : env) : env :=
  foldl (fun e i => set_vreg (f i) (g i) e) e l.

Lemma write_all_cons f g i l e :
  write_all f g (i :: l) e = write_all f g l (set_reg (f i) (g i) e).
Proof. done. Qed.

Lemma write_vall_cons f g i l e :
  write_vall f g (i :: l) e = write_vall f g l (set_vreg (f i) (g i) e).
Proof. done. Qed.

Lemma has_cpu_write_all f g l e : has_cpu (write_all f g l e) = has_cpu e.
Proof.
  revert e; induction l as [|i l IH]; intros e; [done|].
  rewrite write_all_cons, IH. apply has_cpu_set_reg.
Qed.

Lemma has_cpu_write_vall f g l e : has_cpu (write_vall f g l e) = has_cpu e.
Proof.
  revert e; induction l as [|i l IH]; intros e; [done|].
  rewrite write_vall_cons, IH. apply has_cpu_set_vreg.
Qed.

Lemma get_write_all_ne r f g l e : (forall i, i ∈ l -> r <> f i) ->
  get_reg r (write_all f g l e) = get_reg r e.
Proof.
  revert e; induction l as [|i l IH]; intros e Hr; [done|].
  rewrite write_all_cons, IH by set_solver. apply get_set_reg_ne. set_solver.
Qed.

Lemma get_write_all f g l e j : has_cpu e = true -> Inj (=) (=) f -> NoDup l -> j ∈ l ->
  reg_ok (f j) (g j) -> get_reg (f j) (write_all f g l e) = g j.
Proof.
  intros Hc Hf Hnd Hj Hok. revert e Hc; induction Hnd as [|i l Hi Hnd IH]; intros e Hc;
    [by apply elem_of_nil in Hj|].
  apply elem_of_cons in Hj as [->|Hj].
  - rewrite write_all_cons, get_write_all_ne; [by apply get_set_reg|]. intros k Hk <-%(inj f). done.
  - rewrite write_all_cons. apply IH; [done|]. by rewrite has_cpu_set_reg.
Qed.

Lemma get_write_vall r f g l e : get_reg r (write_vall f g l e) = get_reg r e.
Proof.
  revert e; induction l as [|i l IH]; intros e; [done|].
  rewrite write_vall_cons, IH. apply get_reg_set_vreg.
Qed.

Lemma get_vreg_set_vreg r r' v e : has_cpu e = true ->
  get_vreg r (set_vreg r' v e) = if decide (r = r') then v else get_vreg r e.
Proof.
  intros Hc. unfold get_vreg. rewrite has_cpu_set_vreg, Hc. unfold set_vreg. rewrite Hc.
  destruct (decide (r = r')) as [->|]; [apply read_write_vreg|by apply read_write_vreg_ne].
Qed.

Lemma get_vreg_write_vall_ne r f g l e : has_cpu e = true -> (forall i, i ∈ l -> r <> f i) ->
  get_vreg r (write_vall f g l e) = get_vreg r e.
Proof.
  revert e; induction l as [|i l IH]; intros e Hc Hr; [done|].
  rewrite write_vall_cons, IH; [|by rewrite has_cpu_set_vreg|set_solver].
  rewrite get_vreg_set_vreg by done. rewrite decide_False; [done|set_solver].
Qed.

Lemma get_vreg_write_vall f g l e j : has_cpu e = true -> Inj (=) (=) f -> NoDup l -> j ∈ l ->
  get_vreg (f j) (write_vall f g l e) = g j.
Proof.
  intros Hc Hf Hnd Hj. revert e Hc; induction Hnd as [|i l Hi Hnd IH]; intros e Hc;
    [by apply elem_of_nil in Hj|].
  rewrite write_vall_cons. apply elem_of_cons in Hj as [->|Hj].
  - rewrite get_vreg_write_vall_ne; [|by rewrite has_cpu_set_vreg|intros k Hk <-%(inj f); done].
    rewrite get_vreg_set_vreg by done. by rewrite decide_True.
  - apply IH; [done|]. by rewrite has_cpu_set_vreg.
Qed.

Lemma inj_REG_X : Inj (=) (=) (fun i : nat => REG_X (Z.of_nat i)).
Proof. intros i j. unfold REG_X. lia. Qed.
Lemma inj_REG_V : Inj (=) (=) (fun i : nat => REG_V (Z.of_nat i)).
Proof. intros i j. unfold REG_V. lia. Qed.

Ltac reg_ne := unfold REG_X, REG_LR, REG_SP, REG_PC, REG_CPSR, REG_TPIDR_EL0, REG_FPCR, REG_FPSR; lia.

(** The general registers, then the special ones, as [write_registers] does. *)
Definition write_xs (r : RegisterState) (e : env) : env :=
  write_all (fun i => REG_X (Z.of_nat i)) (fun i => nth i (rx r) 0) (seq 0 31) e.
Definition write_special (r : RegisterState) (e : env) : env :=
  set_reg REG_CPSR (rnzcv r)
    (set_reg REG_TPIDR_EL0 (rtpidr_el0 r)
       (set_reg REG_LR (rlr r) (set_reg REG_PC (rpc r) (set_reg REG_SP (rsp r) e)))).
Definition write_vs (r : RegisterState) (e : env) : env :=
  write_vall (fun i => REG_V (Z.of_nat i)) (fun i => nth i (rv r) (0, 0)) (seq 0 32) e.

Lemma write_registers_parts r e : write_registers r e =
  set_reg REG_FPSR (rfpsr r) (set_reg REG_FPCR (rfpcr r) (write_vs r (write_special r (write_xs r e)))).
Proof. done. Qed.

Lemma has_cpu_special r e : has_cpu (write_special r (write_xs r e)) = has_cpu e.
Proof. unfold write_special, write_xs. by rewrite !has_cpu_set_reg, has_cpu_write_all. Qed.

(** The general registers after the special ones: X30 was written as LR too. *)
Lemma get_x_special r e i : has_cpu e = true -> regs_wf r -> (i < 31)%nat ->
  rx r !! i = Some (get_reg (REG_X (Z.of_nat i)) (write_special r (write_xs r e))).
Proof.
  intros Hc Hwf Hi. unfold write_special.
  destruct (lookup_lt_is_Some_2 (rx r) i ltac:(rewrite (rw_x r Hwf); lia)) as [v Hv].
  rewrite Hv. f_equal. symmetry. pose proof (rw_xok r Hwf i v Hv) as Hok.
  rewrite 2!(get_set_reg_ne (REG_X _)) by reg_ne. destruct (decide (i = 30%nat)) as [->|Hne].
  - rewrite (rw_lr r Hwf) in Hv. injection Hv as <-.
    apply get_set_reg; [by rewrite !has_cpu_set_reg; unfold write_xs; rewrite has_cpu_write_all|done].
  - rewrite 3!(get_set_reg_ne (REG_X _)) by reg_ne. unfold write_xs.
    rewrite (get_write_all (fun i => REG_X (Z.of_nat i)));
      [by apply nth_lookup_Some|done|apply inj_REG_X|apply NoDup_seq|apply elem_of_seq; lia|].
    by rewrite (nth_lookup_Some _ _ _ _ Hv).
Qed.

Lemma get_special r e : has_cpu e = true -> regs_wf r ->
  get_reg REG_SP (write_special r e) = rsp r /\ get_reg REG_PC (write_special r e) = rpc r /\
  get_reg REG_LR (write_special r e) = rlr r /\
  get_reg REG_TPIDR_EL0 (write_special r e) = rtpidr_el0 r /\
  get_reg REG_CPSR (write_special r e) = rnzcv r.
Proof.
  intros Hc Hwf. unfold write_special.
  assert (Hlr : reg_ok REG_LR (rlr r)) by (apply (rw_xok r Hwf 30), (rw_lr r Hwf)).
  destruct Hwf. split_and!; repeat (rewrite get_set_reg_ne by reg_ne);
    apply get_set_reg; rewrite ?has_cpu_set_reg; done.
Qed.

(** Reading past the vector and floating-point status writes. *)
Lemma get_reg_below r e q : q <> REG_FPCR -> q <> REG_FPSR ->
  get_reg q (set_reg REG_FPSR (rfpsr r) (set_reg REG_FPCR (rfpcr r) (write_vs r e))) = get_reg q e.
Proof. intros. rewrite !get_set_reg_ne by done. apply get_write_vall. Qed.

Lemma map_seq_eq {A} (f : nat -> A) (l : list A) n : length l = n ->
  (forall i, (i < n)%nat -> l !! i = Some (f i)) -> map f (seq 0 n) = l.
Proof.
  intros Hl H. apply list_eq. intros i. destruct (decide (i < n)%nat) as [Hi|Hi].
  - rewrite list_lookup_fmap, lookup_seq_lt by done. by rewrite H.
  - rewrite !lookup_ge_None_2; rewrite ?length_map, ?length_seq; lia || done.
Qed.

(** The CPU after [restore_thread_state]'s writes holds the register image. *)
Lemma read_write_registers r e : has_cpu e = true -> regs_wf r ->
  read_registers (write_registers r e) = r.
Proof.
  intros Hc Hwf. rewrite write_registers_parts. unfold read_registers.
  pose proof (has_cpu_special r e) as Hcs. rewrite Hc in Hcs.
  assert (Hcv : has_cpu (write_vs r (write_special r (write_xs r e))) = true)
    by (unfold write_vs; by rewrite has_cpu_write_vall).
  rewrite (map_seq_eq _ (rx r)); [|by apply Hwf|].
  2: { intros i Hi. rewrite get_reg_below by reg_ne. by apply get_x_special. }
  rewrite (map_seq_eq _ (rv r)); [|by apply Hwf|].
  2: { intros i Hi. rewrite !get_vreg_set_reg. unfold write_vs.
    rewrite (get_vreg_write_vall (fun i => REG_V (Z.of_nat i)));
      [|done|apply inj_REG_V|apply NoDup_seq|apply elem_of_seq; lia].
    destruct (lookup_lt_is_Some_2 (rv r) i ltac:(rewrite (rw_v r Hwf); lia)) as [v Hv].
    by rewrite Hv, (nth_lookup_Some _ _ _ _ Hv). }
  rewrite !(get_reg_below r _) by reg_ne.
  destruct (get_special r (write_xs r e)) as (-> & -> & -> & -> & ->);
    [unfold write_xs; by rewrite has_cpu_write_all|done|].
  rewrite (get_set_reg REG_FPSR), (get_set_reg_ne REG_FPCR), (get_set_reg REG_FPCR)
    by (apply Hwf || reg_ne || by rewrite ?has_cpu_set_reg).
  rewrite !u32_small; [by destruct r|..];
    (apply (reg_ok_fp REG_FPCR); [by auto|apply Hwf]) || (apply (reg_ok_fp REG_FPSR); [by auto|apply Hwf]).
Qed.

(** What is read from a CPU can be written back to one. *)
Lemma read_registers_wf e : has_cpu e = true -> regs_wf (read_registers e).
Proof.
  intros Hc.
  assert (Hok : forall r, reg_ok r (get_reg r e)) by (intros r; unfold get_reg; rewrite Hc; apply read_reg_ok).
  assert (Hu : forall r, r = REG_FPCR \/ r = REG_FPSR -> reg_ok r (u32 (get_reg r e))).
  { intros r Hr. rewrite u32_small; [apply Hok|]. by apply (reg_ok_fp r). }
  constructor; cbn [read_registers rx rv rlr rsp rpc rtpidr_el0 rnzcv rfpcr rfpsr]; auto.
  - intros i v Hv. rewrite list_lookup_fmap in Hv.
    apply fmap_Some in Hv as (j & Hj & ->). apply lookup_seq in Hj as [-> _]. apply Hok.
Qed.

Lemma has_cpu_write_registers r e : has_cpu (write_registers r e) = has_cpu e.
Proof.
  rewrite write_registers_parts, !has_cpu_set_reg. unfold write_vs.
  by rewrite has_cpu_write_vall, has_cpu_special.
Qed.

(** How a switch ends: with a dispatch, or with nothing ready. *)
Lemma switch_away_dispatch old s : sched_ok (tm s) -> idle (tm s) ->
  let s' := switch_away old s in
  (exists c e t, ext (ms s') = write_registers (registers c) e /\ current s' = Some (running t c)) \/
  nobody_ready (tm s').
Proof.
  intros Hok Hidle s'. subst s'. unfold switch_away.
  assert (Hdisp : forall n s1, ids_ok (tm s1) -> selected (Some n) (tm s1) ->
    exists c e t, ext (ms (dispatch n s1)) = write_registers (registers c) e /\
                  current (dispatch n s1) = Some (running t c)).
  { intros n s1 [Hid _] ((c & Hc & _) & _).
    destruct (dispatch_spec n s1 c Hc (Hid _ _ Hc)) as (t & e & Ee & Et).
    exists c, e, t. split; [done|]. unfold current. rewrite Et. cbn. apply lookup_insert_eq. }
  destruct (select_or_wait s) as [[n|] s1] eqn:Hs;
    destruct (select_or_wait_ok _ _ _ Hok Hidle Hs) as (Hi & Hsel & _); [left; by apply Hdisp|].
  destruct (none_selected_ok _ Hi Hsel) as [Hok1 Hid1].
  pose proof (selected_none_ready _ Hi Hsel) as Hno.
  destruct (threads_ (tm s1) !! old) as [c|] eqn:Hold; [|by right].
  destruct (is_state TERMINATED c); [|destruct (is_state RUNNABLE c) eqn:Hr; [|by right]].
  - destruct (all_terminated s1); [by right|].
    destruct (retry_select 10 s1) as [[n|] s2] eqn:Hrt;
      destruct (retry_select_ok _ _ _ _ Hok1 Hid1 Hsel Hrt) as (Hi2 & Hsel2 & _); [left; by apply Hdisp|].
    right. by apply (selected_none_ready (tm s2)).
  - exfalso. apply is_state_spec in Hr. by apply (Hsel old c).
Qed.

(** After a context switch that hands the CPU to a thread, the CPU holds
    exactly that thread's saved registers: X0-X30, SP, PC, LR, the thread
    pointer, the flags, all vector registers and the floating-point status and
    control registers. *)
Theorem switch_restores_incoming reason s c d :
  sched_ok (tm s) -> current s = Some c ->
  block_next_switch c && negb (voluntary reason) = false ->
  let s' := context_switch reason s in
  current s' = Some d -> state d = RUNNING ->
  has_cpu (ext (ms s')) = true -> regs_wf (registers d) ->
  read_registers (ext (ms s')) = registers d.
Proof.
  intros Hok Hc Hb s' Hd Hrun Hcpu Hwf. subst s'.
  destruct (context_switch_split reason s c Hok Hc Hb) as (s1 & E1 & Hok1 & Hid1 & _).
  rewrite E1 in *.
  destruct (switch_away_dispatch (current_thread_id_ (tm s)) s1 Hok1 Hid1)
    as [(c1 & e & t & Ee & Ec)|Hno].
  - rewrite Ec in Hd. injection Hd as <-. rewrite Ee in *.
    rewrite has_cpu_write_registers in Hcpu. by apply read_write_registers.
  - exfalso. by apply (Hno _ _ Hd).
Qed.

(** Saving and restoring is lossless: writing the registers read from one CPU
    state into any other and reading again yields the same image. *)
Theorem save_restore_roundtrip e e' :
  has_cpu e = true -> has_cpu e' = true ->
  read_registers (write_registers (read_registers e) e') = read_registers e.
Proof. intros Hc Hc'. by apply read_write_registers; [|apply read_registers_wf]. Qed.

End Registers.

(** * Preemption and sleeping *)

Lemma grace_step n s c : current s = Some c -> 0 < grace_period_remaining c ->
  let s' := periodic_check_n n s in
  current_thread_id_ (tm s') = current_thread_id_ (tm s) /\
  runnable_queue_ (tm s') = runnable_queue_ (tm s) /\ ms s' = ms s /\
  exists c', current s' = Some c' /\ state c' = state c /\
    grace_period_remaining c' = grace_period_remaining c - 1 /\
    (grace_period_remaining c = 1 -> initialized c' = true).
Proof.
  intros Hc Hg. cbv zeta. unfold periodic_check_n, periodic_check_internal, current in *. cbn.
  rewrite lookup_alter_eq, Hc. cbn. rewrite (proj2 (Z.ltb_lt _ _) Hg). cbn.
  split_and!; [done..|]. rewrite !lookup_alter_eq, Hc. cbn.
  destruct (_ && _) eqn:Hb; (eexists; split; [reflexivity|]); cbn; split_and!; try done.
  intros H1. rewrite H1 in Hb. cbn in Hb. by apply negb_false_iff in Hb.
Qed.

(** The grace period. While a thread that was just given the CPU has [g]
    grace instructions left, the next [g] periodic checks, whatever instruction
    counts they report and whatever time has passed, never preempt it: the
    current thread, its state, the queue, the registers and memory stay as they
    are, and the thread counts as initialised when the period has run out. *)
Theorem grace_period_no_preemption ns s c :
  current s = Some c -> Z.of_nat (length ns) <= grace_period_remaining c ->
  let s' := foldl (fun s n => periodic_check_n n s) s ns in
  current_thread_id_ (tm s') = current_thread_id_ (tm s) /\
  runnable_queue_ (tm s') = runnable_queue_ (tm s) /\ ms s' = ms s /\
  exists c', current s' = Some c' /\ state c' = state c /\
    grace_period_remaining c' = grace_period_remaining c - Z.of_nat (length ns) /\
    (ns <> [] -> grace_period_remaining c' = 0 -> initialized c' = true).
Proof.
  revert s c. induction ns as [|n ns IH]; intros s c Hc Hg; cbn [foldl length] in *.
  { split_and!; [done..|]. exists c. split_and!; try done. lia. }
  destruct (grace_step n s c Hc ltac:(lia)) as (E1 & E2 & E3 & c1 & Hc1 & Hs1 & Hg1 & Hi1).
  destruct (IH _ c1 Hc1 ltac:(lia)) as (F1 & F2 & F3 & c2 & Hc2 & Hs2 & Hg2 & Hi2).
  split_and!; [congruence..|]. exists c2. split_and!; [done|congruence|lia|]. intros _ H0.
  destruct ns as [|n' ns]; [|apply Hi2; [done|lia]].
  cbn in Hg2, Hc2. simplify_eq. apply Hi1. lia.
Qed.

(** A thread the sleep loop has passed is awake. *)
Lemma wake_sleepers_awake t k ids s : k ∈ ids ->
  (exists d, threads_ (tm s) !! k = Some d /\ (state d = SLEEPING /\ sleep_until d <= t \/ state d = RUNNABLE)) ->
  follows k (fun d => state d = RUNNABLE) (tm (foldl (wake_sleeper t) s ids)).
Proof.
  revert s. induction ids as [|i ids IH]; intros s Hk (d & Hd & Hst); [by apply elem_of_nil in Hk|].
  cbn. assert (Hkeep : forall s, follows k (fun d => state d = RUNNABLE) (tm s) ->
            follows k (fun d => state d = RUNNABLE) (tm (foldl (wake_sleeper t) s ids))).
  { clear. intros s H. revert s H. induction ids as [|i ids IH]; intros s H; cbn; [done|].
    apply IH. destruct (wake_sleeper_cases t s i) as [->|(-> & c & Hc & Hs & _)]; [done|].
    eapply follows_make_runnable; [|done..|by left]. naive_solver. }
  destruct (decide (i = k)) as [->|Hne].
  - apply Hkeep. unfold wake_sleeper. rewrite Hd. destruct Hst as [[Hs Hle]|Hr].
    + rewrite (proj2 (is_state_spec _ _) Hs), (proj2 (Z.leb_le _ _) Hle). unfold follows. cbn.
      rewrite lookup_alter_eq, Hd. by eexists.
    + destruct (is_state SLEEPING d) eqn:Hs; [apply is_state_spec in Hs; congruence|]. by exists d.
  - apply IH; [set_solver|]. exists d. split; [|done].
    destruct (wake_sleeper_cases t s i) as [->|(-> & _)]; [done|]. cbn. by rewrite lookup_alter_ne.
Qed.

(** A sleeping thread whose wake-up time is not after the clock reading of a
    selection is runnable when that selection is over, whatever the order in
    which the thread table is walked, and if it is not the thread chosen it is
    in the queue. *)
Theorem select_wakes_sleepers `{!WalkLaws E} s k d next s' :
  sched_ok (tm s) -> idle (tm s) ->
  threads_ (tm s) !! k = Some d -> state d = SLEEPING -> sleep_until d <= (now s).1 ->
  select_next_thread s = (next, s') ->
  (exists d', threads_ (tm s') !! k = Some d' /\ state d' = RUNNABLE) /\
  (next = Some k \/ k ∈ runnable_queue_ (tm s')).
Proof.
  intros Hok Hidle Hd Hs Hle Hsel.
  assert (Hf : follows k (fun d => state d = RUNNABLE) (tm s')).
  { revert Hsel. unfold select_next_thread. destruct (now s) as [t s0] eqn:Hn.
    pose proof (now_tm s) as Et. rewrite Hn in Et. cbn in Et, Hle.
    destruct (pop_runnable _ _) as [n q] eqn:Hp. intros [= _ <-]. cbn.
    apply (woken_ind (follows k (fun d => state d = RUNNABLE)) (foldl (wake_sleeper t) s0 (thread_walk s0)) t
      (fun s1 id c Hf Hc Hst =>
         follows_make_runnable k _ s1 id c (fun d _ _ => eq_refl) Hf Hc Hst)) with (ids := []).
    apply wake_sleepers_awake; [|exists d; rewrite Et; auto].
    unfold thread_walk. rewrite walk_order_perm, Et. apply list_elem_of_fmap.
    exists (k, d). split; [done|]. by apply elem_of_map_to_list. }
  destruct Hf as (d' & Hd' & Hr). split; [eauto|].
  destruct (select_ok _ _ _ Hok Hidle Hsel) as (_ & Hn & _). destruct next as [n|]; cbn in Hn.
  - destruct Hn as [_ Hn]. destruct (Hn k d' Hd' Hr) as [->|]; auto.
  - by destruct (Hn k d').
Qed.

End Spec.

(** * Witnesses *)

(** The main thread running, one thread runnable and one asleep. *)
Definition demo_mem : mstate (E := RefEnv) := {| mm := new_mm; hmem := fun _ => 0; ext := ref_init |}.
Definition demo_worker : ThreadContext := new_context <| thread_id := 4096 |>
  <| ThreadTypes.state := RUNNABLE |>.
Definition demo_sleeper : ThreadContext := new_context <| thread_id := 4097 |>
  <| ThreadTypes.state := SLEEPING |> <| sleep_until := 5 |>.
Definition demo_main : ThreadContext := new_context <| thread_id := 1 |>
  <| ThreadTypes.state := RUNNING |> <| initialized := true |> <| grace_period_remaining := 2 |>.
Definition demo_threads (main : ThreadContext) : tstate (E := RefEnv) :=
  {| tm := tm_init <| main_thread_id_ := 1 |> <| current_thread_id_ := 1 |>
             <| threads_ := <[4097 := demo_sleeper]> (<[4096 := demo_worker]> {[ 1 := main ]}) |>
             <| runnable_queue_ := [4096] |>;
     ms := demo_mem; in_hle := false |}.

Lemma demo_threads_ok main : thread_id main = 1 -> state main <> RUNNABLE ->
  sched_ok (tm (demo_threads main)).
Proof.
  intros Hid Hst. constructor; cbn; intros k c;
    rewrite !lookup_insert_Some, lookup_singleton_Some;
    intros [[<- <-]|[_ [[<- <-]|[_ [<- <-]]]]]; try done; by left.
Qed.

Lemma switch_saves_outgoing_witness : exists d,
  threads_ (tm (context_switch THREAD_YIELD (demo_threads demo_main))) !! 1 = Some d /\
  registers d = read_registers ref_init /\ (state d = RUNNABLE \/ state d = RUNNING).
Proof.
  destruct (switch_saves_outgoing THREAD_YIELD (demo_threads demo_main) demo_main)
    as (d & Hd & Hr & Hs & _); [by apply demo_threads_ok|reflexivity|reflexivity|].
  exists d. split; [exact Hd|]. split; [exact Hr|by apply Hs].
Defined.

Lemma context_switch_progress_witness :
  sched_ok (tm (context_switch THREAD_YIELD (demo_threads demo_main))) /\
  current_thread_id_ (tm (context_switch THREAD_YIELD (demo_threads demo_main))) = 4096.
Proof.
  split; [|vm_compute; reflexivity].
  apply (context_switch_progress THREAD_YIELD (demo_threads demo_main) demo_main);
    [by apply demo_threads_ok|reflexivity|reflexivity].
Defined.

Lemma switch_fifo_witness :
  (current_thread_id_ (tm (context_switch THREAD_YIELD (demo_threads demo_main))) = 4096 /\
   someone_runs (tm (context_switch THREAD_YIELD (demo_threads demo_main)))) \/
  exists n', (n' < 0)%nat /\
    queued_at 4096 n' (tm (context_switch THREAD_YIELD (demo_threads demo_main))).
Proof.
  apply (switch_fifo THREAD_YIELD (demo_threads demo_main) demo_main 4096 0);
    [by apply demo_threads_ok|reflexivity|done|reflexivity|].
  split; [by exists demo_worker|]. by exists [], [].
Defined.

Lemma switch_restores_incoming_witness : exists d,
  current (context_switch THREAD_YIELD (demo_threads demo_main)) = Some d /\
  read_registers (ext (ms (context_switch THREAD_YIELD (demo_threads demo_main)))) = registers d.
Proof.
  destruct (current (context_switch THREAD_YIELD (demo_threads demo_main))) as [d|] eqn:Hd;
    [|vm_compute in Hd; discriminate].
  exists d. split; [reflexivity|].
  assert (Hr : registers d = zero_registers /\ state d = RUNNING)
    by (vm_compute in Hd; injection Hd as <-; done).
  destruct Hr as [Hr Hrun].
  apply (switch_restores_incoming THREAD_YIELD (demo_threads demo_main) demo_main d);
    [by apply demo_threads_ok|reflexivity|reflexivity|exact Hd|done|vm_compute; reflexivity|].
  rewrite Hr. constructor; try done. intros i v [-> _]%lookup_replicate. cbn. unfold ref_trunc.
  by destruct (_ || _).
Defined.

Lemma save_restore_roundtrip_witness :
  read_registers (E := RefEnv) (write_registers (read_registers (write_reg REG_SP 0x1000 ref_init)) ref_init)
    = read_registers (write_reg REG_SP 0x1000 ref_init).
Proof. by apply (save_restore_roundtrip (E := RefEnv)). Defined.

Lemma grace_period_no_preemption_witness :
  current_thread_id_ (tm (foldl (fun s n => periodic_check_n n s) (demo_threads demo_main) [20000; 1])) = 1.
Proof.
  apply (grace_period_no_preemption [20000; 1] (demo_threads demo_main) demo_main);
    [reflexivity|vm_compute; discriminate].
Defined.

(** The main thread blocked, so that a selection is due. *)
Definition demo_idle : tstate (E := RefEnv) :=
  (demo_threads (demo_main <| ThreadTypes.state := BLOCKED |>))
    <| ms := demo_mem <| ext := ref_init <| ref_clock := 9 |> |> |>.

Lemma select_wakes_sleepers_witness :
  (select_next_thread demo_idle).1 = Some 4097 \/
  4097 ∈ runnable_queue_ (tm (select_next_thread demo_idle).2).
Proof.
  apply (select_wakes_sleepers demo_idle 4097 demo_sleeper (select_next_thread demo_idle).1);
    [exact (demo_threads_ok (demo_main <| ThreadTypes.state := BLOCKED |>) eq_refl ltac:(done))
    | |reflexivity|reflexivity|vm_compute; discriminate|apply surjective_pairing].
  intros k c. cbn. rewrite !lookup_insert_Some, lookup_singleton_Some.
  intros [[<- <-]|[_ [[<- <-]|[_ [<- <-]]]]]; done.
Defined.
