(* ===== verification/Pthread.v ===== *)
(** The pthread half of [ThreadManager] (src/src/thread_manager.cpp): thread
    creation, join, detach and exit; mutexes, condition variables, read-write
    locks, barriers and thread-specific data, each with the "resume" half that
    runs when a blocked thread is scheduled again.

    A call returns its C result code with the new state;
    [CONTEXT_SWITCH_OCCURRED] says that another thread is now current. *)

From S2P Require Import Prelude Env MemoryManager ThreadTypes Scheduler.

Definition EPERM : Z := 1.
Definition ESRCH : Z := 3.
Definition EBUSY : Z := 16.
Definition EINVAL : Z := 22.
Definition ETIMEDOUT : Z := 110.

(** Resume addresses. *)
Definition ADDR_THREAD_EXIT : Z := HLE_BASE + 0xFFFF0.
Definition ADDR_COND_RESUME : Z := HLE_BASE + 0xFFFF4.
Definition ADDR_JOIN_RESUME : Z := HLE_BASE + 0xFFFF8.
Definition ADDR_MUTEX_RESUME : Z := HLE_BASE + 0xFFFEC.
Definition ADDR_BARRIER_RESUME : Z := HLE_BASE + 0xFFFDC.
Definition ADDR_RDLOCK_RESUME : Z := HLE_BASE + 0xFFFD8.
Definition ADDR_WRLOCK_RESUME : Z := HLE_BASE + 0xFFFD4.

(** "push_back unless already there". *)
Definition enqueue_once (id : Z) (q : list Z) : list Z :=
  if bool_decide (id ∈ q) then q else q ++ [id].

Section Pthread.
Context {E : Env}.
Implicit Types s : tstate.

(** [emu_.mem_read(a, &v, n)] into a variable that holds [dflt]. *)
Definition read_uint (n : nat) (a dflt : Z) s : Z :=
  match mem_read a (Z.of_nat n) (ms s) with Some bs => le_value bs | None => dflt end.
(** [mem_write(a, &v, n)], result ignored. *)
Definition write_uint (n : nat) (a v : Z) s : tstate :=
  s <| ms ::= fun m => (mem_write a (le_bytes n v) m).2 |>.
Definition zero_guest (a n : Z) s : tstate := s <| ms ::= fun m => (zero_ a n m).2 |>.

(** * Threads *)

Definition allocate_thread_stack s : Z * tstate :=
  let stack_base := THREAD_STACK_BASE ⊕ (next_stack_index_ (tm s) ⊗ THREAD_STACK_SIZE) in
  let s1 := s <| tm ::= fun t => t <| next_stack_index_ := next_stack_index_ t ⊕ 1 |> |> in
  let '(ok, m) := mem_map stack_base THREAD_STACK_SIZE (Z.lor MEM_READ MEM_WRITE) "ThreadStack" (ms s1) in
  let s2 := s1 <| ms := m |> in
  ((if ok then stack_base ⊕ THREAD_STACK_SIZE ⊖ 0x100 else 0), s2).

Definition CANARY : Z := 0xDEADBEEFCAFEBABE.

Definition allocate_thread_tls s : Z * tstate :=
  let tls_base := THREAD_TLS_BASE ⊕ (next_tls_index_ (tm s) ⊗ THREAD_TLS_SIZE) in
  let s1 := s <| tm ::= fun t => t <| next_tls_index_ := next_tls_index_ t ⊕ 1 |> |> in
  let '(ok, m) := mem_map tls_base THREAD_TLS_SIZE (Z.lor MEM_READ MEM_WRITE) "ThreadTLS" (ms s1) in
  let s2 := s1 <| ms := m |> in
  if ok
  then let errno_location := tls_base ⊕ 0x100 in
       let s3 := write_uint 8 tls_base tls_base s2 in
       let s4 := write_uint 8 (tls_base ⊕ 16) errno_location s3 in
       let s5 := zero_guest errno_location 4 s4 in
       let s6 := write_uint 8 (tls_base ⊕ 0x30) CANARY s5 in
       let s7 := write_uint 8 (tls_base ⊕ 0x28) CANARY s6 in
       (tls_base ⊕ 8, s7)
  else (0, s2).

(** The register file a new thread starts with. *)
Definition initial_registers (start_routine arg stack tls : Z) : RegisterState :=
  {| rx := <[30%nat := ADDR_THREAD_EXIT]> (<[18%nat := tls]> (<[0%nat := arg]> (replicate 31 0)));
     rsp := stack; rpc := start_routine; rtpidr_el0 := tls; rlr := ADDR_THREAD_EXIT; rnzcv := 0;
     rv := replicate 32 (0, 0); rfpcr := 0; rfpsr := 0 |}.

(** "Write thread ID to the thread pointer" when it is plausible. *)
Definition plausible_ptr (p : Z) : bool :=
  negb (p =? 0) && negb (p =? 0xFFFFFFFFFFFFFFFF) && (p <? 0xFFFF000000000000).

Definition pthread_create (thread_ptr attr start_routine arg : Z) s : Z * tstate :=
  let '(id, s1) := allocate_thread_id s in
  let '(stack, s2) := allocate_thread_stack s1 in
  let '(tls, s3) := allocate_thread_tls s2 in
  let '(t, s4) := now s3 in
  let ctx := new_context <| thread_id := id |> <| ThreadTypes.start_routine := start_routine |>
               <| ThreadTypes.arg := arg |> <| ThreadTypes.state := RUNNABLE |>
               <| detached := false |> <| grace_period_remaining := 100 |>
               <| ThreadTypes.stack_base := stack |> <| stack_size := THREAD_STACK_SIZE |>
               <| ThreadTypes.tls_base := tls |>
               <| registers := initial_registers start_routine arg stack tls |>
               <| last_switch := t |> in
  let s5 := if plausible_ptr thread_ptr then write_uint 8 thread_ptr id s4 else s4 in
  (0, s5 <| tm ::= fun t => t <| threads_ ::= <[id := ctx]> |> <| runnable_queue_ ::= cons id |> |>).

(** Result code, the value stored through [retval] (if any), state. *)
Definition pthread_join (id : Z) s : Z * option Z * tstate :=
  match threads_ (tm s) !! id with
  | None => (ESRCH, None, s)
  | Some c =>
      if detached c then (EINVAL, None, s)
      else if is_state TERMINATED c
      then (0, Some (return_value c), s <| tm ::= fun t => t <| threads_ ::= delete id |> |>)
      else
        let cur := current_thread_id_ (tm s) in
        let s1 := upd_thread id (fun c => c <| join_wait_queue ::= fun q => q ++ [cur] |>) s in
        let s2 := upd_current (fun c =>
                    c <| join_target_thread := id |> <| join_retval_ptr := reg REG_X1 s |>
                      <| join_return_addr := reg REG_LR s |>
                      <| registers ::= fun r => r <| rpc := ADDR_JOIN_RESUME |> |>) s1 in
        let s3 := block_current_thread BLOCKED id s2 in
        (CONTEXT_SWITCH_OCCURRED, None, context_switch BLOCKING_OPERATION s3)
  end.

Definition pthread_join_resume s : tstate :=
  match current s with
  | None => s
  | Some c =>
      let id := join_target_thread c in
      let s1 := upd_current (fun c => c <| join_target_thread := 0 |> <| join_retval_ptr := 0 |>
                                        <| join_return_addr := 0 |>) s in
      let '(retval, s2) :=
        match threads_ (tm s1) !! id with
        | Some d => if is_state TERMINATED d
                    then (return_value d, s1 <| tm ::= fun t => t <| threads_ ::= delete id |> |>)
                    else (0, s1)
        | None => (0, s1)
        end in
      let s3 := if negb (join_retval_ptr c =? 0) then write_uint 8 (join_retval_ptr c) retval s2 else s2 in
      setr REG_X0 0 (setr REG_LR (join_return_addr c) s3)
  end.

(** The polling loop of [pthread_join_nonblocking].  [None]: out of fuel, or the
    awaited context was freed under the loop's raw pointer. *)
Fixpoint join_poll (fuel : nat) (id timeout_ms start : Z) s : option (Z * tstate) :=
  match fuel with
  | O => None
  | S fuel' =>
      match threads_ (tm s) !! id with
      | None => None
      | Some c =>
          if is_state TERMINATED c
          then Some (return_value c, s <| tm ::= fun t => t <| threads_ ::= delete id |> |>)
          else let '(t, s1) := now s in
               if timeout_ms <=? to_ms (t - start)
               then Some (0, upd_thread id (fun c => c <| detached := true |>) s1)
               else join_poll fuel' id timeout_ms start (pause 10 (yield true s1))
      end
  end.

Definition pthread_join_nonblocking (fuel : nat) (id timeout_ms : Z) s : option (Z * option Z * tstate) :=
  match threads_ (tm s) !! id with
  | None => Some (ESRCH, None, s)
  | Some c =>
      if detached c then Some (EINVAL, None, s)
      else if is_state TERMINATED c
      then Some (0, Some (return_value c), s <| tm ::= fun t => t <| threads_ ::= delete id |> |>)
      else let '(start, s1) := now s in
           match join_poll fuel id timeout_ms start s1 with
           | Some (v, s2) => Some (0, Some v, s2)
           | None => None
           end
  end.

Definition pthread_detach (id : Z) s : Z * tstate :=
  match threads_ (tm s) !! id with
  | None => (ESRCH, s)
  | Some c =>
      let s1 := upd_thread id (fun c => c <| detached := true |>) s in
      if is_state TERMINATED c
      then (0, s1 <| tm ::= fun t => t <| threads_ ::= delete id |> |>) else (0, s1)
  end.

Definition pthread_self s : Z := current_thread_id_ (tm s).

(** Wakes a list of threads, front first. *)
Definition unblock_all (ids : list Z) s : tstate :=
  foldl (fun s id => unblock_thread_internal id s) s ids.

Definition pthread_exit (retval : Z) s : tstate :=
  let threads_to_wake := match current s with Some c => join_wait_queue c | None => [] end in
  let s1 := upd_current (fun c => c <| return_value := retval |>
                                    <| ThreadTypes.state := TERMINATED |>
                                    <| join_wait_queue := [] |>) s in
  context_switch THREAD_EXIT (unblock_all threads_to_wake s1).

(** * Mutexes *)

Definition set_mutex (p : Z) (m : EmulatedMutex) s : tstate :=
  s <| tm ::= fun t => t <| mutexes_ ::= <[p := m]> |> |>.

Definition pthread_mutex_init (mutex_ptr attr : Z) s : Z * tstate :=
  let m := if attr =? 0 then new_mutex
           else new_mutex <| mutex_type := s32 (read_uint 4 (attr ⊕ 4) 0 s) |> in
  (0, set_mutex mutex_ptr m s).

Definition pthread_mutex_destroy (mutex_ptr : Z) s : Z * tstate :=
  (0, s <| tm ::= fun t => t <| mutexes_ ::= delete mutex_ptr |> |>).

(** The mutex at [p], created from the static initialiser when unknown: its type
    is in bits 14-15 of the first word. *)
Definition mutex_or_init (p : Z) s : EmulatedMutex :=
  match mutexes_ (tm s) !! p with
  | Some m => m
  | None => new_mutex <| mutex_type := Z.land (Z.shiftr (read_uint 4 p 0 s) 14) 3 |>
  end.

(** Lock [m] for thread [id]. *)
Definition acquired (id : Z) (m : EmulatedMutex) : EmulatedMutex :=
  m <| is_locked := true |> <| owner_thread := id |> <| lock_count := 1 |>.

(** Queue the current thread on mutex [p], to resume with [return_addr]. *)
Definition wait_on_mutex (p : Z) (m : EmulatedMutex) (return_addr : Z) s : tstate :=
  let cur := current_thread_id_ (tm s) in
  let s1 := set_mutex p (m <| mutex_wait_queue ::= enqueue_once cur |>) s in
  let s2 := upd_current (fun c => c <| mutex_wait_ptr := p |>
                                    <| mutex_wait_return_addr := return_addr |>
                                    <| registers ::= fun r => r <| rpc := ADDR_MUTEX_RESUME |> |>) s1 in
  context_switch BLOCKING_OPERATION (block_current_thread BLOCKED p s2).

Definition pthread_mutex_lock (mutex_ptr : Z) s : Z * tstate :=
  let cur := current_thread_id_ (tm s) in
  let m := mutex_or_init mutex_ptr s in
  let s1 := set_mutex mutex_ptr m s in
  if is_locked m && (0 <? lock_count m) && (owner_thread m =? cur)
  then (0, set_mutex mutex_ptr (m <| lock_count := lock_count m + 1 |>) s1)
  else if negb (is_locked m) then (0, set_mutex mutex_ptr (acquired cur m) s1)
  else (CONTEXT_SWITCH_OCCURRED, wait_on_mutex mutex_ptr m (reg REG_LR s1) s1).

(** Every path of the [while (true)] loop leaves it, so it is no loop. *)
Definition pthread_mutex_lock_resume s : tstate :=
  match current s with
  | None => s
  | Some c =>
      let mutex_ptr := mutex_wait_ptr c in
      let return_addr := mutex_wait_return_addr c in
      let s1 := upd_current (fun c => c <| mutex_wait_ptr := 0 |> <| mutex_wait_return_addr := 0 |>) s in
      let finish s := setr REG_X0 0 (setr REG_LR return_addr s) in
      match mutexes_ (tm s1) !! mutex_ptr with
      | None => finish s1
      | Some m =>
          if negb (is_locked m)
          then finish (set_mutex mutex_ptr (acquired (current_thread_id_ (tm s1)) m) s1)
          else wait_on_mutex mutex_ptr m return_addr s1
      end
  end.

Definition pthread_mutex_trylock (mutex_ptr : Z) s : Z * tstate :=
  let cur := current_thread_id_ (tm s) in
  let m := default new_mutex (mutexes_ (tm s) !! mutex_ptr) in
  let s1 := set_mutex mutex_ptr m s in
  if (owner_thread m =? cur) && (0 <? lock_count m)
  then if mutex_type m =? 1
       then (0, set_mutex mutex_ptr (m <| lock_count := lock_count m + 1 |>) s1)
       else (EBUSY, s1)
  else if negb (is_locked m) then (0, set_mutex mutex_ptr (acquired cur m) s1)
  else (EBUSY, s1).

Definition pthread_mutex_unlock (mutex_ptr : Z) s : Z * tstate :=
  match mutexes_ (tm s) !! mutex_ptr with
  | None => (EINVAL, s)
  | Some m =>
      if negb (is_locked m) || (lock_count m <=? 0) then (EPERM, s)
      else
        let m1 := m <| lock_count := lock_count m - 1 |> in
        if lock_count m1 =? 0
        then let m2 := m1 <| is_locked := false |> <| owner_thread := 0 |> in
             match mutex_wait_queue m2 with
             | waiting_thread :: rest =>
                 (0, unblock_thread_internal waiting_thread
                       (set_mutex mutex_ptr (m2 <| mutex_wait_queue := rest |>) s))
             | [] => (0, set_mutex mutex_ptr m2 s)
             end
        else (0, set_mutex mutex_ptr m1 s)
  end.

(** * Condition variables *)

Definition set_cond (p : Z) (q : list Z) s : tstate :=
  s <| tm ::= fun t => t <| condvars_ ::= <[p := {| cond_wait_queue := q |}]> |> |>.
(** The queue of the condition variable at [p], empty when unknown. *)
Definition cond_queue (p : Z) s : list Z :=
  match condvars_ (tm s) !! p with Some c => cond_wait_queue c | None => [] end.

Definition pthread_cond_init (cond_ptr attr : Z) s : Z * tstate := (0, set_cond cond_ptr [] s).
Definition pthread_cond_destroy (cond_ptr : Z) s : Z * tstate :=
  (0, s <| tm ::= fun t => t <| condvars_ ::= delete cond_ptr |> |>).

Definition pthread_cond_wait (cond_ptr mutex_ptr : Z) s : Z * tstate :=
  let cur := current_thread_id_ (tm s) in
  let s1 := set_cond cond_ptr (cond_queue cond_ptr s ++ [cur]) s in
  let s2 := upd_current (fun c => c <| cond_wait_mutex := mutex_ptr |>
                                    <| cond_wait_return_addr := reg REG_LR s1 |>
                                    <| registers ::= fun r => r <| rpc := ADDR_COND_RESUME |> |>) s1 in
  let '(_, s3) := pthread_mutex_unlock mutex_ptr s2 in
  (CONTEXT_SWITCH_OCCURRED,
   context_switch BLOCKING_OPERATION (block_current_thread BLOCKED cond_ptr s3)).

Definition pthread_cond_wait_resume s : tstate :=
  match current s with
  | None => s
  | Some c =>
      let mutex_ptr := cond_wait_mutex c in
      let return_addr := cond_wait_return_addr c in
      let s1 := upd_current (fun c => c <| cond_wait_mutex := 0 |> <| cond_wait_return_addr := 0 |>) s in
      let '(result, s2) := pthread_mutex_lock mutex_ptr s1 in
      if result =? CONTEXT_SWITCH_OCCURRED
      then upd_current (fun c => c <| mutex_wait_return_addr := return_addr |>) s2
      else setr REG_X0 0 (setr REG_LR return_addr s2)
  end.

(** [wait_queue.erase(find(...))]: the first occurrence. *)
Fixpoint remove_first (id : Z) (q : list Z) : list Z :=
  match q with [] => [] | x :: t => if x =? id then t else x :: remove_first id t end.

Definition pthread_cond_timedwait (cond_ptr mutex_ptr abstime_ptr : Z) s : Z * tstate :=
  let tv_sec := s64 (read_uint 8 abstime_ptr 0 s) in
  let tv_nsec := s64 (read_uint 8 (abstime_ptr ⊕ 8) 0 s) in
  let timeout := tv_sec * 1000000000 + tv_nsec in
  let s1 := set_cond cond_ptr (cond_queue cond_ptr s ++ [current_thread_id_ (tm s)]) s in
  let '(_, s2) := pthread_mutex_unlock mutex_ptr s1 in
  let s3 := upd_current (fun c => c <| ThreadTypes.state := SLEEPING |> <| sleep_until := timeout |>) s2 in
  let s4 := context_switch BLOCKING_OPERATION s3 in
  let cur := current_thread_id_ (tm s4) in
  let timed_out := bool_decide (cur ∈ cond_queue cond_ptr s4) in
  let s5 := if timed_out then set_cond cond_ptr (remove_first cur (cond_queue cond_ptr s4)) s4 else s4 in
  let '(_, s6) := pthread_mutex_lock mutex_ptr s5 in
  ((if timed_out then ETIMEDOUT else 0), s6).

Definition pthread_cond_signal (cond_ptr : Z) s : Z * tstate :=
  match cond_queue cond_ptr s with
  | waiting_thread :: rest => (0, unblock_thread_internal waiting_thread (set_cond cond_ptr rest s))
  | [] => (0, s)
  end.

Definition pthread_cond_broadcast (cond_ptr : Z) s : Z * tstate :=
  match condvars_ (tm s) !! cond_ptr with
  | Some c => (0, set_cond cond_ptr [] (unblock_all (cond_wait_queue c) s))
  | None => (0, s)
  end.

(** * Read-write locks *)

Definition set_rwlock_obj (p : Z) (l : EmulatedRWLock) s : tstate :=
  s <| tm ::= fun t => t <| rwlocks_ ::= <[p := l]> |> |>.
Definition rwlock_or_init (p : Z) s : EmulatedRWLock := default new_rwlock (rwlocks_ (tm s) !! p).

Definition pthread_rwlock_init (rwlock_ptr attr : Z) s : Z * tstate :=
  (0, set_rwlock_obj rwlock_ptr new_rwlock s).
Definition pthread_rwlock_destroy (rwlock_ptr : Z) s : Z * tstate :=
  (0, s <| tm ::= fun t => t <| rwlocks_ ::= delete rwlock_ptr |> |>).

(** Queue the current thread as a reader (writer) and switch away. *)
Definition wait_for_read (p : Z) (l : EmulatedRWLock) (return_addr : Z) s : tstate :=
  let cur := current_thread_id_ (tm s) in
  let s1 := set_rwlock_obj p (l <| read_wait_queue ::= enqueue_once cur |>) s in
  let s2 := upd_current (fun c => c <| rwlock_rdlock_ptr := p |>
                                    <| rwlock_rdlock_return_addr := return_addr |>
                                    <| registers ::= fun r => r <| rpc := ADDR_RDLOCK_RESUME |> |>) s1 in
  context_switch BLOCKING_OPERATION (block_current_thread BLOCKED p s2).

Definition wait_for_write (p : Z) (l : EmulatedRWLock) (return_addr : Z) s : tstate :=
  let cur := current_thread_id_ (tm s) in
  let s1 := set_rwlock_obj p (l <| write_wait_queue ::= enqueue_once cur |>) s in
  let s2 := upd_current (fun c => c <| rwlock_wrlock_ptr := p |>
                                    <| rwlock_wrlock_return_addr := return_addr |>
                                    <| registers ::= fun r => r <| rpc := ADDR_WRLOCK_RESUME |> |>) s1 in
  context_switch BLOCKING_OPERATION (block_current_thread BLOCKED p s2).

Definition pthread_rwlock_rdlock (rwlock_ptr : Z) s : Z * tstate :=
  let l := rwlock_or_init rwlock_ptr s in
  let s1 := set_rwlock_obj rwlock_ptr l s in
  if writer l =? 0 then (0, set_rwlock_obj rwlock_ptr (l <| readers := readers l + 1 |>) s1)
  else (CONTEXT_SWITCH_OCCURRED, wait_for_read rwlock_ptr l (reg REG_LR s1) s1).

Definition pthread_rwlock_rdlock_resume s : tstate :=
  match current s with
  | None => s
  | Some c =>
      let rwlock_ptr := rwlock_rdlock_ptr c in
      let return_addr := rwlock_rdlock_return_addr c in
      let s1 := upd_current (fun c => c <| rwlock_rdlock_ptr := 0 |> <| rwlock_rdlock_return_addr := 0 |>) s in
      let finish s := setr REG_X0 0 (setr REG_LR return_addr s) in
      match rwlocks_ (tm s1) !! rwlock_ptr with
      | None => finish s1
      | Some l =>
          if writer l =? 0
          then finish (set_rwlock_obj rwlock_ptr (l <| readers := readers l + 1 |>) s1)
          else wait_for_read rwlock_ptr l return_addr s1
      end
  end.

Definition pthread_rwlock_tryrdlock (rwlock_ptr : Z) s : Z * tstate :=
  let l := rwlock_or_init rwlock_ptr s in
  let s1 := set_rwlock_obj rwlock_ptr l s in
  if writer l =? 0 then (0, set_rwlock_obj rwlock_ptr (l <| readers := readers l + 1 |>) s1)
  else (EBUSY, s1).

Definition pthread_rwlock_wrlock (rwlock_ptr : Z) s : Z * tstate :=
  let cur := current_thread_id_ (tm s) in
  let l := rwlock_or_init rwlock_ptr s in
  let s1 := set_rwlock_obj rwlock_ptr l s in
  if writer l =? cur
  then (0, set_rwlock_obj rwlock_ptr (l <| write_count := write_count l + 1 |>) s1)
  else if (readers l =? 0) && (writer l =? 0)
  then (0, set_rwlock_obj rwlock_ptr (l <| writer := cur |> <| write_count := 1 |>) s1)
  else (CONTEXT_SWITCH_OCCURRED, wait_for_write rwlock_ptr l (reg REG_LR s1) s1).

(** [write_count] is not set here, as in the source. *)
Definition pthread_rwlock_wrlock_resume s : tstate :=
  match current s with
  | None => s
  | Some c =>
      let rwlock_ptr := rwlock_wrlock_ptr c in
      let return_addr := rwlock_wrlock_return_addr c in
      let s1 := upd_current (fun c => c <| rwlock_wrlock_ptr := 0 |> <| rwlock_wrlock_return_addr := 0 |>) s in
      let finish s := setr REG_X0 0 (setr REG_LR return_addr s) in
      match rwlocks_ (tm s1) !! rwlock_ptr with
      | None => finish s1
      | Some l =>
          if (readers l =? 0) && (writer l =? 0)
          then finish (set_rwlock_obj rwlock_ptr (l <| writer := current_thread_id_ (tm s1) |>) s1)
          else wait_for_write rwlock_ptr l return_addr s1
      end
  end.

Definition pthread_rwlock_trywrlock (rwlock_ptr : Z) s : Z * tstate :=
  let l := rwlock_or_init rwlock_ptr s in
  let s1 := set_rwlock_obj rwlock_ptr l s in
  if (readers l =? 0) && (writer l =? 0)
  then (0, set_rwlock_obj rwlock_ptr (l <| writer := current_thread_id_ (tm s) |>) s1)
  else (EBUSY, s1).

(** Pops and wakes one writer. *)
Definition wake_writer (p : Z) (l : EmulatedRWLock) s : tstate :=
  match write_wait_queue l with
  | w :: rest => unblock_thread_internal w (set_rwlock_obj p (l <| write_wait_queue := rest |>) s)
  | [] => set_rwlock_obj p l s
  end.

Definition pthread_rwlock_unlock (rwlock_ptr : Z) s : Z * tstate :=
  match rwlocks_ (tm s) !! rwlock_ptr with
  | None => (EINVAL, s)
  | Some l =>
      if writer l =? current_thread_id_ (tm s)
      then if 1 <? write_count l
           then (0, set_rwlock_obj rwlock_ptr (l <| write_count := write_count l - 1 |>) s)
           else
             let l1 := l <| writer := 0 |> <| write_count := 0 |> in
             match write_wait_queue l1 with
             | _ :: _ => (0, wake_writer rwlock_ptr l1 s)
             | [] => (0, set_rwlock_obj rwlock_ptr (l1 <| read_wait_queue := [] |>)
                           (unblock_all (read_wait_queue l1) s))
             end
      else if 0 <? readers l
      then let l1 := l <| readers := readers l - 1 |> in
           if readers l1 =? 0 then (0, wake_writer rwlock_ptr l1 s)
           else (0, set_rwlock_obj rwlock_ptr l1 s)
      else (0, s)
  end.

(** * Barriers *)

Definition set_barrier_obj (p : Z) (b : EmulatedBarrier) s : tstate :=
  s <| tm ::= fun t => t <| barriers_ ::= <[p := b]> |> |>.

Definition pthread_barrier_init (barrier_ptr attr count : Z) s : Z * tstate :=
  if count =? 0 then (EINVAL, s)
  else (0, set_barrier_obj barrier_ptr (new_barrier <| barrier_count := count |>) s).

Definition pthread_barrier_destroy (barrier_ptr : Z) s : Z * tstate :=
  match barriers_ (tm s) !! barrier_ptr with
  | None => (EINVAL, s)
  | Some b => if 0 <? waiting b then (EBUSY, s)
              else (0, s <| tm ::= fun t => t <| barriers_ ::= delete barrier_ptr |> |>)
  end.

Definition PTHREAD_BARRIER_SERIAL_THREAD : Z := -1.

Definition pthread_barrier_wait (barrier_ptr : Z) s : Z * tstate :=
  let cur := current_thread_id_ (tm s) in
  let b0 := default (new_barrier <| barrier_count := 1 |>) (barriers_ (tm s) !! barrier_ptr) in
  let b := b0 <| waiting := u32 (waiting b0 + 1) |> in
  if barrier_count b <=? waiting b
  then
    let s1 := unblock_all (barrier_wait_queue b) s in
    let b1 := b <| waiting := 0 |> <| generation := u32 (generation b + 1) |>
                <| barrier_wait_queue := [] |> in
    (PTHREAD_BARRIER_SERIAL_THREAD, set_barrier_obj barrier_ptr b1 s1)
  else
    let s1 := upd_current (fun c => c <| barrier_wait_ptr := barrier_ptr |>
                                      <| barrier_wait_return_addr := reg REG_LR s |>
                                      <| registers ::= fun r => r <| rpc := ADDR_BARRIER_RESUME |> |>) s in
    let s2 := set_barrier_obj barrier_ptr (b <| barrier_wait_queue ::= fun q => q ++ [cur] |>) s1 in
    (CONTEXT_SWITCH_OCCURRED,
     context_switch BLOCKING_OPERATION (block_current_thread BLOCKED barrier_ptr s2)).

Definition pthread_barrier_wait_resume s : tstate :=
  match current s with
  | None => s
  | Some c =>
      let s1 := upd_current (fun c => c <| barrier_wait_ptr := 0 |> <| barrier_wait_return_addr := 0 |>) s in
      setr REG_X0 0 (setr REG_LR (barrier_wait_return_addr c) s1)
  end.

(** * Thread-specific data *)

Definition pthread_key_create (key_ptr destructor : Z) s : Z * tstate :=
  let key := next_tls_key_ (tm s) in
  let s1 := s <| tm ::= fun t => t <| next_tls_key_ := next_tls_key_ t ⊕ 1 |> |> in
  let s2 := if negb (destructor =? 0)
            then s1 <| tm ::= fun t => t <| tls_destructors_ ::= <[key := destructor]> |> |> else s1 in
  (0, write_uint 4 key_ptr (u32 key) s2).

Definition pthread_key_delete (key : Z) s : Z * tstate :=
  (0, s <| tm ::= fun t => t <| tls_destructors_ ::= delete key |>
                             <| tls_data_ ::= fmap (delete key : gmap Z Z -> gmap Z Z) |> |>).

Definition pthread_getspecific (key : Z) s : Z :=
  match tls_data_ (tm s) !! current_thread_id_ (tm s) with
  | None => 0
  | Some m => default 0 (m !! key)
  end.

Definition pthread_setspecific (key value : Z) s : Z * tstate :=
  let cur := current_thread_id_ (tm s) in
  let m := default ∅ (tls_data_ (tm s) !! cur) in
  (0, s <| tm ::= fun t => t <| tls_data_ ::= <[cur := <[key := value]> m]> |> |>).

End Pthread.
