(* ===== verification/PthreadSpec.v ===== *)
(** Correctness of the pthread emulation: one invariant for every sequence of
    calls, and what locks, condition variables, barriers, joins and
    thread-specific data promise to the guest. *)

From S2P Require Import Prelude Env MemoryManager ThreadTypes Scheduler SchedulerSpec Pthread.

(** * Objects and their invariants *)

(** A mutex is locked exactly while its count is positive; a free one has no
    owner. *)
Definition mutex_ok (m : EmulatedMutex) : Prop :=
  0 <= lock_count m /\ (is_locked m = true <-> 0 < lock_count m) /\
  (is_locked m = false -> owner_thread m = 0).

(** A writer excludes readers. *)
Definition rwlock_ok (l : EmulatedRWLock) : Prop :=
  0 <= readers l /\ (writer l <> 0 -> readers l = 0).

(** Fewer threads wait than the barrier needs, and all of them are queued. *)
Definition barrier_ok (b : EmulatedBarrier) : Prop :=
  waiting b = Z.of_nat (length (barrier_wait_queue b)) /\ waiting b < barrier_count b < two32.

Record objects_ok (t : ThreadManager) : Prop := {
  oo_mutex p m : mutexes_ t !! p = Some m -> mutex_ok m;
  oo_rwlock p l : rwlocks_ t !! p = Some l -> rwlock_ok l;
  oo_barrier p b : barriers_ t !! p = Some b -> barrier_ok b;
}.

Definition all_ok (t : ThreadManager) : Prop := sched_ok t /\ objects_ok t.

Lemma new_mutex_ok : mutex_ok new_mutex.
Proof. split_and!; cbn; done. Qed.
Lemma new_rwlock_ok : rwlock_ok new_rwlock.
Proof. split; cbn; done. Qed.

(** What the scheduler never touches. *)
Definition same_objects (t t' : ThreadManager) : Prop :=
  mutexes_ t' = mutexes_ t /\ condvars_ t' = condvars_ t /\ rwlocks_ t' = rwlocks_ t /\
  barriers_ t' = barriers_ t /\ tls_data_ t' = tls_data_ t /\
  tls_destructors_ t' = tls_destructors_ t /\ next_tls_key_ t' = next_tls_key_ t /\
  next_thread_id_ t' = next_thread_id_ t.

Definition same_locks (t t' : ThreadManager) : Prop :=
  mutexes_ t' = mutexes_ t /\ rwlocks_ t' = rwlocks_ t /\ barriers_ t' = barriers_ t.

Lemma same_objects_locks t t' : same_objects t t' -> same_locks t t'.
Proof. unfold same_objects, same_locks. tauto. Qed.

Lemma objects_ok_same t t' : same_locks t t' -> objects_ok t -> objects_ok t'.
Proof. intros (E1 & E2 & E3) [H1 H2 H3]. constructor; rewrite ?E1, ?E2, ?E3; auto. Qed.

(** A property of the manager that does not depend on the contexts of the
    threads, the queue and the current id. *)
Definition sched_blind (P : ThreadManager -> Prop) : Prop :=
  (forall t f id, P t -> P (t <| threads_ ::= alter f id |>)) /\
  (forall t f, P t -> P (t <| runnable_queue_ ::= f |>)) /\
  (forall t v, P t -> P (t <| current_thread_id_ := v |>)).

Lemma same_objects_blind t0 : sched_blind (same_objects t0).
Proof. split; [|split]; [intros t f id H|intros t v H..]; exact H. Qed.

(** Switching neither adds nor removes threads. *)
Lemma same_threads_blind k : sched_blind (fun t => threads_ t !! k = None).
Proof.
  split; [|split]; [intros t f id H|intros t v H..]; try exact H. cbn.
  apply lookup_alter_None. exact H.
Qed.

Section Blind.
Context {E : Env} (P : ThreadManager -> Prop) (HP : sched_blind P).
Implicit Types s : tstate.

Lemma blind_upd id f s : P (tm s) -> P (tm (upd_thread id f s)).
Proof. apply HP. Qed.

Lemma blind_make id s : P (tm s) -> P (tm (make_runnable id s)).
Proof. intros H. by apply HP, HP. Qed.

Lemma blind_select s next s' : P (tm s) -> select_next_thread s = (next, s') -> P (tm s').
Proof.
  intros H (s1 & q & Hw & _ & ->)%select_split. apply HP, Hw; [|done].
  intros s0 id c H0 _ _. by apply blind_make.
Qed.

Lemma blind_select_or_wait s next s' : P (tm s) -> select_or_wait s = (next, s') -> P (tm s').
Proof.
  intros H. unfold select_or_wait. destruct (select_next_thread s) as [[n|] s1] eqn:Hs;
    pose proof (blind_select _ _ _ H Hs) as H1; [by intros [= <- <-]|].
  destruct (idle_scan s1) as [[] e]; [|by intros [= <- <-]].
  apply blind_select. by rewrite idle_wait_tm.
Qed.

Lemma blind_retry n s next s' : P (tm s) -> retry_select n s = (next, s') -> P (tm s').
Proof.
  revert s; induction n as [|n IH]; intros s H; cbn; [by intros [= <- <-]|].
  destruct (select_next_thread (pause 100 s)) as [[m|] s1] eqn:Hs;
    pose proof (blind_select (pause 100 s) _ _ H Hs) as H1; [by intros [= <- <-]|by apply IH].
Qed.

Lemma blind_dispatch n s : P (tm s) -> P (tm (dispatch n s)).
Proof.
  intros H. unfold dispatch. destruct (_ !! n) as [c|]; [|done].
  match goal with |- context [now ?x] => destruct (now_split x) as (t & s1 & -> & Et) end.
  unfold restore_thread_state.
  assert (H1 : P (tm s1)) by (rewrite Et; by apply HP, HP).
  destruct (_ !! n); cbn; [by apply HP, HP|by apply HP].
Qed.

Lemma blind_switch_away old s : P (tm s) -> P (tm (switch_away old s)).
Proof.
  intros H. unfold switch_away. destruct (select_or_wait s) as [[n|] s1] eqn:Hs;
    pose proof (blind_select_or_wait _ _ _ H Hs) as H1; [by apply blind_dispatch|].
  destruct (_ !! old) as [c|]; [|done]. destruct (is_state TERMINATED c).
  - destruct (all_terminated s1); [exact H1|].
    destruct (retry_select 10 s1) as [[n|] s2] eqn:Hr;
      pose proof (blind_retry _ _ _ _ H1 Hr); [by apply blind_dispatch|done].
  - destruct (is_state RUNNABLE c); [by apply HP|done].
Qed.

Lemma blind_park id s : P (tm s) -> P (tm (park_current id s)).
Proof.
  intros H. unfold park_current. destruct (_ !! id) as [c|]; [|done].
  destruct (is_state RUNNING c); [by apply blind_make, HP|].
  destruct (has_resume_pc c); [by apply HP, HP|by apply HP].
Qed.

(** A context switch keeps every such property. *)
Lemma blind_context_switch reason s : P (tm s) -> P (tm (context_switch reason s)).
Proof.
  intros H. unfold context_switch. destruct (_ !! _) as [c|]; [|done].
  destruct (_ && _); [done|].
  set (s1 := park_current _ _). assert (H1 : P (tm s1)) by (by apply blind_park, blind_upd).
  destruct (now_split s1) as (t & s2 & -> & Et).
  apply blind_switch_away, blind_upd. by rewrite Et.
Qed.

Lemma blind_unblock id s : P (tm s) -> P (tm (unblock_thread_internal id s)).
Proof.
  intros H. unfold unblock_thread_internal. destruct (_ !! id) as [c|]; [|done].
  destruct (is_state BLOCKED c); [by apply HP, HP|done].
Qed.

Lemma blind_unblock_all ids s : P (tm s) -> P (tm (unblock_all ids s)).
Proof.
  unfold unblock_all. revert s; induction ids as [|i ids IH]; intros s H; cbn; [done|].
  by apply IH, blind_unblock.
Qed.
End Blind.

Lemma context_switch_objects `{E : Env} reason (s : tstate) :
  same_objects (tm s) (tm (context_switch reason s)).
Proof. apply (blind_context_switch _ (same_objects_blind (tm s))). done. Qed.

Lemma unblock_all_objects `{E : Env} ids (s : tstate) :
  same_objects (tm s) (tm (unblock_all ids s)).
Proof. apply (blind_unblock_all _ (same_objects_blind (tm s))). done. Qed.

(** * Sequences of calls *)

Section Calls.
Context {E : Env}.
Implicit Types s : tstate.

(** The public operations of the manager, and what happens between them: guest
    code and the host change registers, memory and the HLE flag. *)
Inductive call :=
| Between (m : mstate) (hle : bool)
| Switch (reason : SwitchReason) | Yield (set_pc_to_lr : bool) | CoopYield
| Block (st : ThreadState) (resource : Z) | Unblock (id : Z)
| FutexBlock (addr : Z) | FutexUnblock (id : Z) | Sleep (us : Z)
| IoBlock (fd events : Z) | CoopStart (epfd evs maxev tmo : Z) | CoopClear
| Tick (n : Z) | Watchdog (last : Z) | Emergency (on : bool)
| Create (ptr attr start arg : Z) | Join (id : Z) | JoinResume | Detach (id : Z) | Exit (v : Z)
| MutexInit (p attr : Z) | MutexDestroy (p : Z) | MutexLock (p : Z) | MutexResume
| MutexTry (p : Z) | MutexUnlock (p : Z)
| CondInit (p : Z) | CondDestroy (p : Z) | CondWait (p m : Z) | CondResume
| CondTimed (p m abs : Z) | CondSignal (p : Z) | CondBroadcast (p : Z)
| RwInit (p : Z) | RwDestroy (p : Z) | RdLock (p : Z) | RdResume | RdTry (p : Z)
| WrLock (p : Z) | WrResume | WrTry (p : Z) | RwUnlock (p : Z)
| BarInit (p count : Z) | BarDestroy (p : Z) | BarWait (p : Z) | BarResume
| KeyCreate (p destr : Z) | KeyDelete (k : Z) | SetSpecific (k v : Z).

Definition exec s (c : call) : tstate :=
  match c with
  | Between m hle => s <| ms := m |> <| in_hle := hle |>
  | Switch r => context_switch r s | Yield b => yield b s | CoopYield => coop_yield s
  | Block st r => block_current_thread st r s | Unblock id => unblock_thread id s
  | FutexBlock a => block_on_futex a s | FutexUnblock id => unblock_from_futex id s
  | Sleep us => sleep_current_thread us s
  | IoBlock fd ev => block_on_io_and_yield fd ev s
  | CoopStart a b c d => start_coop_epoll_wait a b c d s | CoopClear => clear_coop_io_state s
  | Tick n => periodic_check_n n s | Watchdog l => (watchdog_round l s).2
  | Emergency b => if b then enable_emergency_mode s else disable_emergency_mode s
  | Create p a st ar => (pthread_create p a st ar s).2
  | Join id => (pthread_join id s).2 | JoinResume => pthread_join_resume s
  | Detach id => (pthread_detach id s).2 | Exit v => pthread_exit v s
  | MutexInit p a => (pthread_mutex_init p a s).2 | MutexDestroy p => (pthread_mutex_destroy p s).2
  | MutexLock p => (pthread_mutex_lock p s).2 | MutexResume => pthread_mutex_lock_resume s
  | MutexTry p => (pthread_mutex_trylock p s).2 | MutexUnlock p => (pthread_mutex_unlock p s).2
  | CondInit p => (pthread_cond_init p 0 s).2 | CondDestroy p => (pthread_cond_destroy p s).2
  | CondWait p m => (pthread_cond_wait p m s).2 | CondResume => pthread_cond_wait_resume s
  | CondTimed p m a => (pthread_cond_timedwait p m a s).2
  | CondSignal p => (pthread_cond_signal p s).2 | CondBroadcast p => (pthread_cond_broadcast p s).2
  | RwInit p => (pthread_rwlock_init p 0 s).2 | RwDestroy p => (pthread_rwlock_destroy p s).2
  | RdLock p => (pthread_rwlock_rdlock p s).2 | RdResume => pthread_rwlock_rdlock_resume s
  | RdTry p => (pthread_rwlock_tryrdlock p s).2
  | WrLock p => (pthread_rwlock_wrlock p s).2 | WrResume => pthread_rwlock_wrlock_resume s
  | WrTry p => (pthread_rwlock_trywrlock p s).2 | RwUnlock p => (pthread_rwlock_unlock p s).2
  | BarInit p n => (pthread_barrier_init p 0 n s).2 | BarDestroy p => (pthread_barrier_destroy p s).2
  | BarWait p => (pthread_barrier_wait p s).2 | BarResume => pthread_barrier_wait_resume s
  | KeyCreate p d => (pthread_key_create p d s).2 | KeyDelete k => (pthread_key_delete k s).2
  | SetSpecific k v => (pthread_setspecific k v s).2
  end.

(** The argument types the signatures impose: a barrier's count is an
    [unsigned int], and a thread is blocked into a state that is not ready. *)
Definition call_ok (c : call) : Prop :=
  match c with
  | BarInit _ n => 0 <= n < two32
  | Block st _ => st <> RUNNING /\ st <> RUNNABLE
  | _ => True
  end.

(** ** Every piece keeps the invariant *)

Lemma ok_upd id f s : tame f -> all_ok (tm s) -> all_ok (tm (upd_thread id f s)).
Proof. intros Hf [H1 H2]. split; [by apply sched_ok_alter|by apply (objects_ok_same (tm s))]. Qed.

Lemma ok_upd_current f s : tame f -> all_ok (tm s) -> all_ok (tm (upd_current f s)).
Proof. apply ok_upd. Qed.

Lemma ok_switch r s : all_ok (tm s) -> all_ok (tm (context_switch r s)).
Proof.
  intros [H1 H2]. split; [by apply context_switch_ok|].
  by eapply objects_ok_same; [apply same_objects_locks, context_switch_objects|].
Qed.

Lemma unblock_as_runnable id s c : threads_ (tm s) !! id = Some c -> forall f,
  (forall d, thread_id (f d) = thread_id d /\ state (f d) = RUNNABLE) ->
  all_ok (tm s) -> all_ok (tm (push_runnable id (upd_thread id f s))).
Proof.
  intros Hc f Hf [[H1 H2 H3] H4]. split; [|by apply (objects_ok_same (tm s))].
  constructor; cbn; intros k d (d0 & Hd & [[-> ->]|[_ ->]])%lookup_alter_inv;
    try destruct (Hf d0) as [Hid Hst]; rewrite ?Hid, ?Hst; eauto; try done;
    intros Hr; apply elem_of_app; [right; by left|left; eauto].
Qed.

Lemma ok_unblock id s : all_ok (tm s) -> all_ok (tm (unblock_thread_internal id s)).
Proof.
  intros H. unfold unblock_thread_internal. destruct (_ !! id) as [c|] eqn:Hc; [|done].
  destruct (is_state BLOCKED c); [|done]. by eapply unblock_as_runnable.
Qed.

Lemma ok_unblock_all ids s : all_ok (tm s) -> all_ok (tm (unblock_all ids s)).
Proof.
  unfold unblock_all. revert s; induction ids as [|i ids IH]; intros s H; cbn; [done|].
  by apply IH, ok_unblock.
Qed.

Lemma ok_block st r s : st <> RUNNING -> st <> RUNNABLE ->
  all_ok (tm s) -> all_ok (tm (block_current_thread st r s)).
Proof. intros H1 H2 H. apply ok_upd; [|done]. intros c. cbn. auto. Qed.

Lemma ok_set_mutex p m s : mutex_ok m -> all_ok (tm s) -> all_ok (tm (set_mutex p m s)).
Proof.
  intros Hm [H1 [H2 H3 H4]]. split; [by apply (sched_ok_same (tm s))|].
  constructor; cbn; eauto. intros q n [[_ <-]|[_ ?]]%lookup_insert_Some; eauto.
Qed.

Lemma ok_set_rwlock p l s : rwlock_ok l -> all_ok (tm s) -> all_ok (tm (set_rwlock_obj p l s)).
Proof.
  intros Hm [H1 [H2 H3 H4]]. split; [by apply (sched_ok_same (tm s))|].
  constructor; cbn; eauto. intros q n [[_ <-]|[_ ?]]%lookup_insert_Some; eauto.
Qed.

Lemma ok_set_barrier p b s : barrier_ok b -> all_ok (tm s) -> all_ok (tm (set_barrier_obj p b s)).
Proof.
  intros Hm [H1 [H2 H3 H4]]. split; [by apply (sched_ok_same (tm s))|].
  constructor; cbn; eauto. intros q n [[_ <-]|[_ ?]]%lookup_insert_Some; eauto.
Qed.

Lemma ok_set_cond p q s : all_ok (tm s) -> all_ok (tm (set_cond p q s)).
Proof. intros [H1 [H2 H3 H4]]. split; [by apply (sched_ok_same (tm s))|by constructor]. Qed.

Lemma ok_delete_thread id s : all_ok (tm s) ->
  all_ok (tm (s <| tm ::= fun t => t <| threads_ ::= delete id |> |>)).
Proof. intros [H1 H2]. split; [by apply sched_ok_delete|by apply (objects_ok_same (tm s))]. Qed.

Lemma ok_yield b s : all_ok (tm s) -> all_ok (tm (yield b s)).
Proof. intros H. unfold yield. destruct (_ && _); by apply ok_switch. Qed.

(** Updates that leave the manager alone. *)
Lemma tm_setr r v s : tm (setr r v s) = tm s.
Proof. done. Qed.
Lemma tm_write_uint n a v s : tm (write_uint n a v s) = tm s.
Proof. done. Qed.
Lemma tm_pause n s : tm (pause n s) = tm s.
Proof. done. Qed.

(** Peels one layer after another off [all_ok (tm ...)], by the head symbol. *)
Ltac ok :=
  repeat lazymatch goal with
  | H : all_ok (tm ?s) |- all_ok (tm ?s) => exact H
  | |- all_ok (tm (setr _ _ _)) => rewrite tm_setr
  | |- all_ok (tm (write_uint _ _ _ _)) => rewrite tm_write_uint
  | |- all_ok (tm (pause _ _)) => rewrite tm_pause
  | |- all_ok (tm (context_switch _ _)) => apply ok_switch
  | |- all_ok (tm (yield _ _)) => apply ok_yield
  | |- all_ok (tm (unblock_all _ _)) => apply ok_unblock_all
  | |- all_ok (tm (unblock_thread_internal _ _)) => apply ok_unblock
  | |- all_ok (tm (block_current_thread _ _ _)) => apply ok_block; [discriminate|discriminate|]
  | |- all_ok (tm (set_cond _ _ _)) => apply ok_set_cond
  | |- all_ok (tm (set_mutex _ _ _)) => apply ok_set_mutex
  | |- all_ok (tm (set_rwlock_obj _ _ _)) => apply ok_set_rwlock
  | |- all_ok (tm (set_barrier_obj _ _ _)) => apply ok_set_barrier
  | |- all_ok (tm (upd_current _ _)) => apply ok_upd_current; [solve_tame|]
  | |- all_ok (tm (upd_thread _ _ _)) => apply ok_upd; [solve_tame|]
  | |- all_ok (tm (set_field _ _)) => apply ok_delete_thread
  | |- mutex_ok _ => assumption
  | |- rwlock_ok _ => assumption
  end.

Lemma ok_mutex_lookup p m s : all_ok (tm s) -> mutexes_ (tm s) !! p = Some m -> mutex_ok m.
Proof. intros [_ H]. apply (oo_mutex _ H). Qed.

Lemma ok_mutex_or_init p s : all_ok (tm s) -> mutex_ok (mutex_or_init p s).
Proof.
  intros H. unfold mutex_or_init. destruct (_ !! p) eqn:Hp; [by eapply ok_mutex_lookup|].
  apply new_mutex_ok.
Qed.

Lemma acquired_ok id m : mutex_ok (acquired id m).
Proof. split_and!; cbn; done. Qed.

Lemma relock_ok m : mutex_ok m -> 0 < lock_count m -> mutex_ok (m <| lock_count := lock_count m + 1 |>).
Proof. intros (H1 & H2 & H3) Hp. split_and!; cbn; [lia| |done]. rewrite H2. lia. Qed.

Lemma ok_wait_on_mutex p m a s : mutex_ok m -> all_ok (tm s) -> all_ok (tm (wait_on_mutex p m a s)).
Proof. intros Hm H. unfold wait_on_mutex. ok. Qed.

Lemma ok_mutex_lock p s : all_ok (tm s) -> all_ok (tm (pthread_mutex_lock p s).2).
Proof.
  intros H. pose proof (ok_mutex_or_init p s H) as Hm. unfold pthread_mutex_lock.
  destruct (_ && _) eqn:Hb; [|destruct (negb _)]; cbn [snd].
  - zbool. ok. by apply relock_ok.
  - ok. apply acquired_ok.
  - apply ok_wait_on_mutex; [done|]. ok.
Qed.

Lemma ok_mutex_resume s : all_ok (tm s) -> all_ok (tm (pthread_mutex_lock_resume s)).
Proof.
  intros H. unfold pthread_mutex_lock_resume. destruct (current s) as [c|]; [|done].
  set (s1 := upd_current _ s). assert (H1 : all_ok (tm s1)) by (subst s1; ok).
  destruct (mutexes_ (tm s1) !! _) as [m|] eqn:Hm; [|ok].
  destruct (negb _); [ok; apply acquired_ok|].
  apply ok_wait_on_mutex; [by eapply ok_mutex_lookup|done].
Qed.

Lemma default_mutex_ok p s : all_ok (tm s) -> mutex_ok (default new_mutex (mutexes_ (tm s) !! p)).
Proof. intros H. destruct (_ !! p) eqn:Hp; cbn; [by eapply ok_mutex_lookup|apply new_mutex_ok]. Qed.

Lemma ok_mutex_trylock p s : all_ok (tm s) -> all_ok (tm (pthread_mutex_trylock p s).2).
Proof.
  intros H. pose proof (default_mutex_ok p s H) as Hm. unfold pthread_mutex_trylock.
  destruct (_ && _) eqn:Hb; [destruct (_ =? 1)|destruct (negb _)]; cbn [snd]; zbool; ok;
    by apply relock_ok || apply acquired_ok.
Qed.

Lemma release_ok m q : mutex_ok
  (m <| lock_count := 0 |> <| is_locked := false |> <| owner_thread := 0 |> <| mutex_wait_queue := q |>).
Proof. split_and!; cbn; done. Qed.

Lemma ok_mutex_unlock p s : all_ok (tm s) -> all_ok (tm (pthread_mutex_unlock p s).2).
Proof.
  intros H. unfold pthread_mutex_unlock. destruct (_ !! p) as [m|] eqn:Hm; [|done].
  pose proof (ok_mutex_lookup _ _ _ H Hm) as (H1 & H2 & H3).
  destruct (_ || _) eqn:Hb; [done|]. zbool. cbn.
  destruct (Z.eqb_spec (lock_count m - 1) 0) as [E0|Hne].
  - destruct (mutex_wait_queue m) as [|w rest]; cbn [snd]; ok; split_and!; cbn; try done; lia.
  - cbn [snd]. ok. split_and!; cbn; [lia| |done]. rewrite H2. lia.
Qed.

Lemma ok_cond_wait p m s : all_ok (tm s) -> all_ok (tm (pthread_cond_wait p m s).2).
Proof.
  intros H. unfold pthread_cond_wait. set (s2 := upd_current _ _).
  assert (H2 : all_ok (tm s2)) by (subst s2; ok). pose proof (ok_mutex_unlock m s2 H2) as H3.
  destruct (pthread_mutex_unlock m s2) as [r s3]. cbn in *. ok.
Qed.

Lemma ok_cond_resume s : all_ok (tm s) -> all_ok (tm (pthread_cond_wait_resume s)).
Proof.
  intros H. unfold pthread_cond_wait_resume. destruct (current s) as [c|]; [|done].
  set (s1 := upd_current _ s). assert (H1 : all_ok (tm s1)) by (subst s1; ok).
  pose proof (ok_mutex_lock (cond_wait_mutex c) s1 H1) as H2.
  destruct (pthread_mutex_lock _ s1) as [r s2]. cbn in *. destruct (_ =? _); ok.
Qed.

Lemma ok_cond_timed p m a s : all_ok (tm s) -> all_ok (tm (pthread_cond_timedwait p m a s).2).
Proof.
  intros H. unfold pthread_cond_timedwait. set (s1 := set_cond _ _ s).
  assert (H1 : all_ok (tm s1)) by (subst s1; ok). pose proof (ok_mutex_unlock m s1 H1) as H2.
  destruct (pthread_mutex_unlock m s1) as [r s2]. cbn [snd] in *.
  set (s4 := context_switch _ _). assert (H4 : all_ok (tm s4)) by (subst s4; ok).
  set (s5 := if bool_decide _ then _ else s4).
  assert (H5 : all_ok (tm s5)) by (subst s5; destruct (bool_decide _); ok).
  pose proof (ok_mutex_lock m s5 H5). by destruct (pthread_mutex_lock m s5).
Qed.

(** *** Read-write locks and barriers *)

Lemma ok_rwlock_lookup p l s : all_ok (tm s) -> rwlocks_ (tm s) !! p = Some l -> rwlock_ok l.
Proof. intros [_ H]. apply (oo_rwlock _ H). Qed.

Lemma ok_rwlock_or_init p s : all_ok (tm s) -> rwlock_ok (rwlock_or_init p s).
Proof.
  intros H. unfold rwlock_or_init. destruct (_ !! p) eqn:Hp; cbn; [by eapply ok_rwlock_lookup|].
  apply new_rwlock_ok.
Qed.

Lemma more_readers_ok l : rwlock_ok l -> writer l = 0 -> rwlock_ok (l <| readers := readers l + 1 |>).
Proof. intros [H1 H2] Hw. split; cbn; [lia|done]. Qed.

Lemma wait_read_ok p l a s : rwlock_ok l -> all_ok (tm s) -> all_ok (tm (wait_for_read p l a s)).
Proof. intros Hl H. unfold wait_for_read. ok. Qed.

Lemma wait_write_ok p l a s : rwlock_ok l -> all_ok (tm s) -> all_ok (tm (wait_for_write p l a s)).
Proof. intros Hl H. unfold wait_for_write. ok. Qed.

Lemma ok_rdlock p s : all_ok (tm s) -> all_ok (tm (pthread_rwlock_rdlock p s).2).
Proof.
  intros H. pose proof (ok_rwlock_or_init p s H). unfold pthread_rwlock_rdlock.
  destruct (_ =? 0) eqn:Hw; cbn [snd]; zbool; [ok; by apply more_readers_ok|].
  apply wait_read_ok; [done|ok].
Qed.

Lemma ok_tryrdlock p s : all_ok (tm s) -> all_ok (tm (pthread_rwlock_tryrdlock p s).2).
Proof.
  intros H. pose proof (ok_rwlock_or_init p s H). unfold pthread_rwlock_tryrdlock.
  destruct (_ =? 0) eqn:Hw; cbn [snd]; zbool; ok. by apply more_readers_ok.
Qed.

Lemma ok_rdlock_resume s : all_ok (tm s) -> all_ok (tm (pthread_rwlock_rdlock_resume s)).
Proof.
  intros H. unfold pthread_rwlock_rdlock_resume. destruct (current s) as [c|]; [|done].
  set (s1 := upd_current _ s). assert (H1 : all_ok (tm s1)) by (subst s1; ok).
  destruct (rwlocks_ (tm s1) !! _) as [l|] eqn:Hl; [|ok].
  pose proof (ok_rwlock_lookup _ _ _ H1 Hl). destruct (_ =? 0) eqn:Hw; zbool.
  - ok. by apply more_readers_ok.
  - by apply wait_read_ok.
Qed.

Lemma ok_wrlock p s : all_ok (tm s) -> all_ok (tm (pthread_rwlock_wrlock p s).2).
Proof.
  intros H. pose proof (ok_rwlock_or_init p s H). unfold pthread_rwlock_wrlock.
  destruct (writer _ =? _); [|destruct (_ && _) eqn:Hb]; cbn [snd]; zbool.
  - ok.
  - ok. split; cbn; [by destruct H0|done].
  - apply wait_write_ok; [done|ok].
Qed.

Lemma ok_trywrlock p s : all_ok (tm s) -> all_ok (tm (pthread_rwlock_trywrlock p s).2).
Proof.
  intros H. pose proof (ok_rwlock_or_init p s H). unfold pthread_rwlock_trywrlock.
  destruct (_ && _) eqn:Hb; cbn [snd]; zbool; ok. split; cbn; [by destruct H0|done].
Qed.

Lemma ok_wrlock_resume s : all_ok (tm s) -> all_ok (tm (pthread_rwlock_wrlock_resume s)).
Proof.
  intros H. unfold pthread_rwlock_wrlock_resume. destruct (current s) as [c|]; [|done].
  set (s1 := upd_current _ s). assert (H1 : all_ok (tm s1)) by (subst s1; ok).
  destruct (rwlocks_ (tm s1) !! _) as [l|] eqn:Hl; [|ok].
  pose proof (ok_rwlock_lookup _ _ _ H1 Hl) as [Ha Hb]. destruct (_ && _) eqn:Hw; zbool.
  - ok. split; cbn; [done|done].
  - by apply wait_write_ok.
Qed.

Lemma ok_wake_writer p l s : rwlock_ok l -> all_ok (tm s) -> all_ok (tm (wake_writer p l s)).
Proof. intros Hl H. unfold wake_writer. destruct (write_wait_queue l); ok. Qed.

Lemma ok_rwunlock p s : all_ok (tm s) -> all_ok (tm (pthread_rwlock_unlock p s).2).
Proof.
  intros H. unfold pthread_rwlock_unlock. destruct (_ !! p) as [l|] eqn:Hl; [|done].
  pose proof (ok_rwlock_lookup _ _ _ H Hl) as [H1 H2].
  destruct (_ =? _); [destruct (1 <? _)|destruct (0 <? readers l) eqn:Hr]; zbool; cbn [snd]; [|..|done].
  - ok. split; done.
  - change (write_wait_queue (l <| writer := 0 |> <| write_count := 0 |>)) with (write_wait_queue l).
    destruct (write_wait_queue l); cbn [snd]; [ok|apply ok_wake_writer; [|done]]; split; cbn; done.
  - assert (Hok : rwlock_ok (l <| readers := readers l - 1 |>)).
    { split; cbn; [lia|]. intros Hw%H2. lia. }
    destruct (_ =? 0); cbn [snd]; [by apply ok_wake_writer|ok].
Qed.

Lemma u32_succ n : 0 <= n -> n + 1 < two32 -> u32 (n + 1) = n + 1.
Proof. intros. apply u32_small. lia. Qed.

Lemma ok_barrier_wait p s : all_ok (tm s) -> all_ok (tm (pthread_barrier_wait p s).2).
Proof.
  intros H. unfold pthread_barrier_wait.
  set (b0 := default _ (barriers_ (tm s) !! p)).
  assert (Hb0 : barrier_ok b0).
  { subst b0. destruct (barriers_ (tm s) !! p) eqn:Hp; cbn; [by eapply (oo_barrier _ (proj2 H))|].
    split; done. }
  clearbody b0. destruct Hb0 as [Hq Hc]. set (b := b0 <| waiting := _ |>).
  assert (Ew : waiting b = waiting b0 + 1) by (apply u32_succ; lia).
  assert (Eq : barrier_wait_queue b = barrier_wait_queue b0) by done.
  assert (Ec : barrier_count b = barrier_count b0) by done. clearbody b.
  destruct (Z.leb_spec (barrier_count b) (waiting b)); cbn [snd]; ok; split; cbn; try lia.
  rewrite length_app, Eq, Ew. cbn. lia.
Qed.

(** *** Threads *)

Lemma ok_join id s : all_ok (tm s) -> all_ok (tm (pthread_join id s).2).
Proof.
  intros H. unfold pthread_join. destruct (_ !! id) as [c|]; [|done].
  destruct (detached c); [done|]. destruct (is_state TERMINATED c); cbn [snd]; ok.
Qed.

Lemma ok_join_resume s : all_ok (tm s) -> all_ok (tm (pthread_join_resume s)).
Proof.
  intros H. unfold pthread_join_resume. destruct (current s) as [c|]; [|done].
  set (s1 := upd_current _ s). assert (H1 : all_ok (tm s1)) by (subst s1; ok).
  destruct (match threads_ (tm s1) !! _ with Some _ => _ | None => _ end) as [v s2] eqn:Hm.
  assert (H2 : all_ok (tm s2)).
  { destruct (threads_ (tm s1) !! _) as [d|]; [destruct (is_state _ d)|]; injection Hm as <- <-; ok. }
  destruct (negb _); ok.
Qed.

Lemma ok_detach id s : all_ok (tm s) -> all_ok (tm (pthread_detach id s).2).
Proof.
  intros H. unfold pthread_detach. destruct (_ !! id) as [c|]; [|done].
  destruct (is_state TERMINATED c); cbn [snd]; ok.
Qed.

Lemma ok_exit v s : all_ok (tm s) -> all_ok (tm (pthread_exit v s)).
Proof. intros H. unfold pthread_exit. ok. Qed.

Lemma stack_tm s : let s' := (allocate_thread_stack s).2 in
  same_sched (tm s) (tm s') /\ same_locks (tm s) (tm s').
Proof. unfold allocate_thread_stack. by destruct (mem_map _ _ _ _ _). Qed.

Lemma tls_tm s : let s' := (allocate_thread_tls s).2 in
  same_sched (tm s) (tm s') /\ same_locks (tm s) (tm s').
Proof. unfold allocate_thread_tls. by destruct (mem_map _ _ _ _ _) as [[] m]. Qed.

Lemma ok_same t t' : same_sched t t' -> same_locks t t' -> all_ok t -> all_ok t'.
Proof. intros H1 H2 [H3 H4]. split; [by apply (sched_ok_same t)|by apply (objects_ok_same t)]. Qed.

Lemma ok_insert_runnable id c s : thread_id c = id -> state c = RUNNABLE -> all_ok (tm s) ->
  all_ok (tm (s <| tm ::= fun t => t <| threads_ ::= <[id := c]> |> <| runnable_queue_ ::= cons id |> |>)).
Proof.
  intros Hid Hst [[H1 H2 H3] H4]. split; [|by apply (objects_ok_same (tm s))].
  constructor; cbn; intros k d [[<- <-]|[_ Hk]]%lookup_insert_Some; try congruence; eauto.
  - intros _. by left.
  - intros Hr. right. eauto.
Qed.

Lemma ok_create p a st ar s : all_ok (tm s) -> all_ok (tm (pthread_create p a st ar s).2).
Proof.
  intros H. unfold pthread_create, allocate_thread_id.
  set (s1 := s <| tm ::= _ |>).
  assert (H1 : all_ok (tm s1)) by (split; [by apply (sched_ok_same (tm s)), H|
    destruct H as [_ [? ? ?]]; by constructor]).
  pose proof (stack_tm s1) as Hs. destruct (allocate_thread_stack s1) as [stk s2]. cbn in Hs.
  pose proof (tls_tm s2) as Ht. destruct (allocate_thread_tls s2) as [tls s3]. cbn in Ht.
  destruct (now_split s3) as (t & s4 & -> & E4).
  assert (H4 : all_ok (tm s4)).
  { rewrite E4. eapply ok_same; [apply Ht|apply Ht|]. by eapply ok_same; [apply Hs|apply Hs|]. }
  cbn [snd]. apply ok_insert_runnable; [done|done|]. destruct (plausible_ptr p); ok.
Qed.

(** *** The scheduler's entry points *)

Lemma ok_now s t s' : now s = (t, s') -> all_ok (tm s) -> all_ok (tm s').
Proof. destruct (now_split s) as (t0 & s0 & -> & E0). intros [= _ <-]. by rewrite E0. Qed.

Lemma ok_sleep us s : all_ok (tm s) -> all_ok (tm (sleep_current_thread us s)).
Proof.
  intros H. unfold sleep_current_thread. destruct (current s); [|done].
  set (s1 := upd_current _ s). assert (H1 : all_ok (tm s1)) by (subst s1; ok).
  destruct (now s1) as [tn s2] eqn:Hn. pose proof (ok_now _ _ _ Hn H1). ok.
Qed.

Lemma ok_futex_unblock id s : all_ok (tm s) -> all_ok (tm (unblock_from_futex id s)).
Proof.
  intros H. unfold unblock_from_futex. destruct (_ !! id) as [c|] eqn:Hc; [|done].
  destruct (is_state BLOCKED c); [|done]. by eapply unblock_as_runnable.
Qed.

Lemma ok_coop_start a b c d s : all_ok (tm s) -> all_ok (tm (start_coop_epoll_wait a b c d s)).
Proof.
  intros H. unfold start_coop_epoll_wait. destruct (current s); [|done].
  destruct (now s) as [tn s1] eqn:Hn. pose proof (ok_now _ _ _ Hn H). ok.
Qed.

Lemma tame_grace : tame (fun c : ThreadContext =>
  let c1 := c <| grace_period_remaining := grace_period_remaining c - 1 |> in
  if (grace_period_remaining c1 =? 0) && negb (initialized c1)
  then c1 <| initialized := true |> else c1).
Proof. intros c. cbn. by destruct (_ && _); auto. Qed.

Lemma ok_periodic n s : all_ok (tm s) -> all_ok (tm (periodic_check_n n s)).
Proof.
  intros H. unfold periodic_check_n, periodic_check_internal. set (s0 := s <| tm ::= _ |>).
  assert (H0 : all_ok (tm s0)) by (by apply (ok_same (tm s))).
  set (s1 := upd_current _ s0). assert (H1 : all_ok (tm s1)) by (subst s1; ok).
  destruct (match current s1 with Some _ => _ | None => _ end).
  { apply ok_upd_current; [apply tame_grace|done]. }
  destruct (_ <? _); [done|]. set (s2 := s1 <| tm ::= _ |>).
  destruct (now s2) as [tn s3] eqn:Hn. set (s4 := s3 <| tm ::= _ |>).
  assert (H4 : all_ok (tm s4)).
  { apply (ok_same (tm s3)); [done..|]. eapply ok_now; [done|]. by apply (ok_same (tm s1)). }
  destruct (current s4) as [c|]; [|done]. destruct (slice_expired _ _); ok.
Qed.

Lemma ok_watchdog l s : all_ok (tm s) -> all_ok (tm (watchdog_round l s).2).
Proof.
  intros H. unfold watchdog_round. destruct (current _); [|done]. cbn [snd].
  destruct (5 <=? _); [destruct (emergency_mode_ _)|destruct (_ && _)];
    by try apply (ok_same (tm s)).
Qed.

Lemma ok_mutex_init p a s : all_ok (tm s) -> all_ok (tm (pthread_mutex_init p a s).2).
Proof. intros H. apply ok_set_mutex; [destruct (_ =? 0); apply new_mutex_ok|done]. Qed.

Lemma ok_mutex_destroy p s : all_ok (tm s) -> all_ok (tm (pthread_mutex_destroy p s).2).
Proof.
  intros [? [H1 ? ?]]. split; [by apply (sched_ok_same (tm s))|]. constructor; cbn; eauto.
  intros q m [_ ?]%lookup_delete_Some. eauto.
Qed.

Lemma ok_rwlock_destroy p s : all_ok (tm s) -> all_ok (tm (pthread_rwlock_destroy p s).2).
Proof.
  intros [? [? H1 ?]]. split; [by apply (sched_ok_same (tm s))|]. constructor; cbn; eauto.
  intros q m [_ ?]%lookup_delete_Some. eauto.
Qed.

Lemma ok_barrier_init p a n s : 0 <= n < two32 -> all_ok (tm s) ->
  all_ok (tm (pthread_barrier_init p a n s).2).
Proof.
  intros Hn H. unfold pthread_barrier_init. destruct (Z.eqb_spec n 0); [done|]. cbn [snd].
  apply ok_set_barrier; [|done]. split; cbn; lia.
Qed.

Lemma ok_barrier_destroy p s : all_ok (tm s) -> all_ok (tm (pthread_barrier_destroy p s).2).
Proof.
  intros H. unfold pthread_barrier_destroy. destruct (_ !! p); [|done]. destruct (0 <? _); [done|].
  destruct H as [? [? ? H1]]. split; [by apply (sched_ok_same (tm s))|]. constructor; cbn; eauto.
  intros q m [_ ?]%lookup_delete_Some. eauto.
Qed.

Lemma ok_barrier_resume s : all_ok (tm s) -> all_ok (tm (pthread_barrier_wait_resume s)).
Proof. intros H. unfold pthread_barrier_wait_resume. destruct (current s); [ok|done]. Qed.

Lemma ok_cond_signal p s : all_ok (tm s) -> all_ok (tm (pthread_cond_signal p s).2).
Proof. intros H. unfold pthread_cond_signal. destruct (cond_queue _ _); cbn [snd]; ok. Qed.

Lemma ok_cond_broadcast p s : all_ok (tm s) -> all_ok (tm (pthread_cond_broadcast p s).2).
Proof. intros H. unfold pthread_cond_broadcast. destruct (condvars_ _ !! _); cbn [snd]; ok. Qed.

Lemma ok_key_create p d s : all_ok (tm s) -> all_ok (tm (pthread_key_create p d s).2).
Proof. intros H. unfold pthread_key_create. cbn [snd]. destruct (negb _); by apply (ok_same (tm s)). Qed.

Lemma ok_futex_block a s : all_ok (tm s) -> all_ok (tm (block_on_futex a s)).
Proof. intros H. unfold block_on_futex. ok. Qed.

Lemma ok_io_block fd ev s : all_ok (tm s) -> all_ok (tm (block_on_io_and_yield fd ev s)).
Proof. intros H. unfold block_on_io_and_yield. ok. Qed.

Lemma ok_coop_clear s : all_ok (tm s) -> all_ok (tm (clear_coop_io_state s)).
Proof. intros H. unfold clear_coop_io_state. ok. Qed.

Lemma ok_exec s c : call_ok c -> all_ok (tm s) -> all_ok (tm (exec s c)).
Proof.
  intros Hc H.
  destruct c; cbn [exec]; [exact H|..].
  1-3: first [by apply ok_switch | by apply ok_yield].
  1-2: first [by destruct Hc; apply ok_block | by apply ok_unblock].
  1-3: first [by apply ok_futex_block | by apply ok_futex_unblock | by apply ok_sleep].
  1-3: first [by apply ok_io_block | by apply ok_coop_start | by apply ok_coop_clear].
  1-2: first [by apply ok_periodic | by apply ok_watchdog].
  1: destruct on; by apply (ok_same (tm s)).
  1-5: first [by apply ok_create | by apply ok_join | by apply ok_join_resume | by apply ok_detach | by apply ok_exit].
  1: by apply ok_mutex_init.
  1: by apply ok_mutex_destroy.
  1: by apply ok_mutex_lock.
  1: by apply ok_mutex_resume.
  1: by apply ok_mutex_trylock.
  1: by apply ok_mutex_unlock.
  1: by apply ok_set_cond.
  1: by apply (ok_same (tm s)).
  1: by apply ok_cond_wait.
  1: by apply ok_cond_resume.
  1: by apply ok_cond_timed.
  1: by apply ok_cond_signal.
  1: by apply ok_cond_broadcast.
  1: by apply ok_set_rwlock; [apply new_rwlock_ok|].
  1: by apply ok_rwlock_destroy.
  1: by apply ok_rdlock.
  1: by apply ok_rdlock_resume.
  1: by apply ok_tryrdlock.
  1: by apply ok_wrlock.
  1: by apply ok_wrlock_resume.
  1: by apply ok_trywrlock.
  1: by apply ok_rwunlock.
  1: by apply ok_barrier_init.
  1: by apply ok_barrier_destroy.
  1: by apply ok_barrier_wait.
  1: by apply ok_barrier_resume.
  1: by apply ok_key_create.
  1-2: by apply (ok_same (tm s)).
Qed.

(** ** The invariant of every run *)

Lemma new_tm_ok m hle : all_ok (tm (new_tm m hle)).
Proof.
  unfold new_tm. set (s0 := {| tm := _ |}).
  destruct (now_split s0) as (t1 & s1 & -> & E1). destruct (now_split s1) as (t2 & s2 & -> & E2).
  match goal with |- context [now ?x] => destruct (now_split x) as (t3 & s3 & -> & E3) end.
  cbn. rewrite E3. cbn. rewrite E2, E1. split; constructor; cbn; intros k c.
  1-3: intros [<- <-]%lookup_singleton_Some; done.
  1-3: by rewrite lookup_empty.
Qed.

Lemma run_ok cs s : Forall call_ok cs -> all_ok (tm s) -> all_ok (tm (foldl exec s cs)).
Proof.
  intros Hcs. revert s. induction Hcs as [|c cs Hc Hcs IH]; intros s H; cbn; [done|].
  by apply IH, ok_exec.
Qed.

(** C2: Whatever the guest does: after any sequence of calls on a new manager, with
    arbitrary changes of registers and memory in between, every thread is stored
    under its id, at most the current thread is running, every runnable thread
    is queued; every mutex is locked exactly while its count is positive and has
    no owner when free; no read-write lock has readers and a writer at once; and
    every barrier has fewer waiters than it needs, all of them queued. *)
Theorem pthread_invariant m hle cs :
  Forall call_ok cs ->
  let t := tm (foldl exec (new_tm m hle) cs) in
  (forall k c, threads_ t !! k = Some c -> thread_id c = k /\
     (state c = RUNNING -> k = current_thread_id_ t) /\
     (state c = RUNNABLE -> k ∈ runnable_queue_ t)) /\
  (forall p x, mutexes_ t !! p = Some x -> mutex_ok x) /\
  (forall p x, rwlocks_ t !! p = Some x -> rwlock_ok x) /\
  (forall p x, barriers_ t !! p = Some x -> barrier_ok x).
Proof.
  intros Hcs t. destruct (run_ok cs (new_tm m hle) Hcs (new_tm_ok m hle)) as [[H1 H2 H3] [H4 H5 H6]].
  split_and!; [intros k c Hk; split_and!; eauto|exact H4|exact H5|exact H6].
Qed.

(** * Blocking and waking *)

(** The fields that say what a thread waits for and where it returns to. *)
Definition wait_info (c : ThreadContext) : list Z :=
  [mutex_wait_ptr c; mutex_wait_return_addr c; cond_wait_mutex c; cond_wait_return_addr c;
   join_target_thread c; join_retval_ptr c; join_return_addr c; barrier_wait_ptr c;
   barrier_wait_return_addr c; rwlock_rdlock_ptr c; rwlock_rdlock_return_addr c;
   rwlock_wrlock_ptr c; rwlock_wrlock_return_addr c; blocked_on_resource c].

(** A blocked thread stays as it was saved until someone unblocks it. *)
Lemma blocked_switch s c : sched_ok (tm s) -> current s = Some c -> state c = BLOCKED ->
  follows (current_thread_id_ (tm s))
    (fun d => state d = BLOCKED /\ registers d = saved_registers (ext (ms s)) c /\
              wait_info d = wait_info c)
    (tm (context_switch BLOCKING_OPERATION s)).
Proof.
  intros Hok Hc Hst. apply (switch_outgoing BLOCKING_OPERATION s c); try done.
  - by rewrite andb_false_r.
  - intros d Hs (Hd & _). destruct Hs; congruence.
  - intros t d Hs (Hd & _). congruence.
  - intros t. cbn. unfold is_state. rewrite Hst. done.
Qed.

(** The current thread's context after an update of it. *)
Lemma current_upd f s c : current s = Some c -> current (upd_current f s) = Some (f c).
Proof. intros Hc. unfold current, upd_current in *. cbn. rewrite lookup_alter_eq. by rewrite Hc. Qed.

Lemma saved_resume e c a : state c = BLOCKED -> in_hle_range a = true ->
  rpc (registers c) = a ->
  (mutex_wait_ptr c <> 0 \/ cond_wait_mutex c <> 0 \/ join_target_thread c <> 0 \/
   barrier_wait_ptr c <> 0 \/ futex_wait_addr c <> 0) ->
  saved_registers e c = (read_registers e) <| rpc := a |>.
Proof.
  intros Hs Ha Hpc Hw. unfold saved_registers, has_resume_pc, is_state. rewrite Hs. cbn.
  rewrite Hpc, Ha.
  destruct (negb (mutex_wait_ptr c =? 0) || negb (cond_wait_mutex c =? 0)
    || negb (join_target_thread c =? 0) || negb (barrier_wait_ptr c =? 0)
    || negb (futex_wait_addr c =? 0)) eqn:Hb; [done|].
  exfalso. zbool. naive_solver.
Qed.

(** What blocking on a mutex leaves behind for thread [cur]. *)
Lemma wait_on_mutex_spec p m a s c : sched_ok (tm s) -> current s = Some c -> p <> 0 ->
  let s' := wait_on_mutex p m a s in
  follows (current_thread_id_ (tm s))
    (fun d => state d = BLOCKED /\ mutex_wait_ptr d = p /\ mutex_wait_return_addr d = a /\
       registers d = (read_registers (ext (ms s))) <| rpc := ADDR_MUTEX_RESUME |>) (tm s') /\
  mutexes_ (tm s') !! p
    = Some (m <| mutex_wait_queue ::= enqueue_once (current_thread_id_ (tm s)) |>).
Proof.
  intros Hok Hc Hp s'. subst s'. unfold wait_on_mutex.
  set (s1 := set_mutex p _ s). set (s2 := upd_current _ s1).
  set (s3 := block_current_thread BLOCKED p s2).
  pose proof (current_upd (fun c => c <| mutex_wait_ptr := p |> <| mutex_wait_return_addr := a |>
                 <| registers ::= fun r => r <| rpc := ADDR_MUTEX_RESUME |> |>) s1 c Hc) as Hc2.
  pose proof (current_upd (fun c => c <| ThreadTypes.state := BLOCKED |>
                          <| blocked_on_resource := p |>) s2 _ Hc2) as Hc3.
  assert (Hok3 : sched_ok (tm s3)).
  { apply sched_ok_alter; [solve_tame|]. apply sched_ok_alter; [solve_tame|].
    by apply (sched_ok_same (tm s)). }
  split.
  - destruct (blocked_switch s3 _ Hok3 Hc3 eq_refl) as (d & Hd & Hs & Hr & Hw).
    exists d. split; [exact Hd|]. split; [done|]. unfold wait_info in Hw. cbn in Hw.
    injection Hw as -> -> _. split_and!; [done..|]. rewrite Hr.
    apply saved_resume; [done..|]. by left.
  - destruct (context_switch_objects BLOCKING_OPERATION s3) as (-> & _). cbn. apply lookup_insert_eq.
Qed.

(** [pthread_mutex_lock] on every branch. A free (or new) mutex is taken with
    count 1, one the caller already owns is counted up, and one that another
    thread owns stays with that thread, while the caller is queued and blocked:
    its saved registers are the CPU's with the mutex resume address as PC, and
    the address it must return to is remembered. *)
Theorem mutex_lock_cases p s c :
  all_ok (tm s) -> current s = Some c -> p <> 0 ->
  let m := mutex_or_init p s in
  let cur := current_thread_id_ (tm s) in
  let r := (pthread_mutex_lock p s).1 in
  let s' := (pthread_mutex_lock p s).2 in
  (is_locked m = false -> r = 0 /\ mutexes_ (tm s') !! p = Some (acquired cur m)) /\
  (is_locked m = true -> owner_thread m = cur ->
     r = 0 /\ mutexes_ (tm s') !! p = Some (m <| lock_count := lock_count m + 1 |>)) /\
  (is_locked m = true -> owner_thread m <> cur ->
     r = CONTEXT_SWITCH_OCCURRED /\
     mutexes_ (tm s') !! p = Some (m <| mutex_wait_queue ::= enqueue_once cur |>) /\
     exists d, threads_ (tm s') !! cur = Some d /\ state d = BLOCKED /\ mutex_wait_ptr d = p /\
       mutex_wait_return_addr d = reg REG_LR s /\
       registers d = (read_registers (ext (ms s))) <| rpc := ADDR_MUTEX_RESUME |>).
Proof.
  intros H Hc Hp m cur r s'. subst r s'. unfold pthread_mutex_lock. fold m cur.
  destruct (ok_mutex_or_init p s H) as (Hm1 & Hm2 & Hm3). fold m in Hm1, Hm2, Hm3.
  split_and!.
  - intros Hl. rewrite Hl. cbn. split; [done|apply lookup_insert_eq].
  - intros Hl Ho. rewrite Hl, Ho, Z.eqb_refl, (proj2 (Z.ltb_lt _ _) (proj1 Hm2 Hl)). cbn.
    split; [done|apply lookup_insert_eq].
  - intros Hl Ho. rewrite Hl, (proj2 (Z.eqb_neq _ _) Ho), andb_false_r. cbn [negb fst snd].
    set (s1 := set_mutex p m s).
    assert (Hok1 : sched_ok (tm s1)) by (apply (sched_ok_same (tm s)); [done|apply H]).
    destruct (wait_on_mutex_spec p m (reg REG_LR s1) s1 c Hok1 Hc Hp)
      as ((d & Hd & Hs & Hw & Ha & Hr) & Hmx).
    split; [done|]. split; [exact Hmx|]. by exists d.
Qed.

(** Waking a blocked thread. *)
Lemma unblock_spec w s d : threads_ (tm s) !! w = Some d -> state d = BLOCKED ->
  let s' := unblock_thread_internal w s in
  threads_ (tm s') = <[w := d <| ThreadTypes.state := RUNNABLE |> <| blocked_on_resource := 0 |>]>
                       (threads_ (tm s)) /\
  runnable_queue_ (tm s') = runnable_queue_ (tm s) ++ [w] /\
  current_thread_id_ (tm s') = current_thread_id_ (tm s) /\ ms s' = ms s.
Proof.
  intros Hd Hs. cbv zeta. unfold unblock_thread_internal.
  rewrite Hd, (proj2 (is_state_spec _ _) Hs). cbn. by rewrite (alter_insert_eq _ _ _ d Hd).
Qed.

Section Handoff.
Context `{!RegLaws E}.

Lemma reg_setr r v s : has_cpu (ext (ms s)) = true -> reg_ok r v -> reg r (setr r v s) = v.
Proof. apply get_set_reg. Qed.

Lemma reg_setr_ne r r' v s : r <> r' -> reg r (setr r' v s) = reg r s.
Proof. apply get_set_reg_ne. Qed.

(** Returning from a resume function: X0 = 0, LR = the saved address. *)
Lemma resume_regs a s : has_cpu (ext (ms s)) = true -> reg_ok REG_LR a -> reg_ok REG_X0 0 ->
  reg REG_X0 (setr REG_X0 0 (setr REG_LR a s)) = 0 /\
  reg REG_LR (setr REG_X0 0 (setr REG_LR a s)) = a.
Proof.
  intros Hc Ha H0. split; [apply reg_setr; [cbn; by rewrite has_cpu_set_reg|done]|].
  rewrite reg_setr_ne by done. by apply reg_setr.
Qed.

End Handoff.

(** ** Condition variables *)

(** The caller's context when [pthread_cond_wait] switches away. *)
Lemma unlock_keeps_running p s k c : threads_ (tm s) !! k = Some c -> state c = RUNNING ->
  threads_ (tm (pthread_mutex_unlock p s).2) !! k = Some c /\
  current_thread_id_ (tm (pthread_mutex_unlock p s).2) = current_thread_id_ (tm s) /\
  ms (pthread_mutex_unlock p s).2 = ms s /\
  condvars_ (tm (pthread_mutex_unlock p s).2) = condvars_ (tm s).
Proof.
  intros Hk Hr. unfold pthread_mutex_unlock. destruct (_ !! p) as [m|]; [|done].
  destruct (_ || _); [done|]. destruct (_ =? 0); [|done].
  match goal with |- context [match ?q with [] => _ | _ :: _ => _ end] => destruct q as [|w rest] end; [done|].
  cbn [snd]. unfold unblock_thread_internal. set (s1 := set_mutex _ _ s).
  destruct (threads_ (tm s1) !! w) as [d|] eqn:Hd; [|done].
  destruct (is_state BLOCKED d) eqn:Hb; [|done]. split_and!; try done. cbn.
  rewrite lookup_alter_ne; [done|]. intros ->. apply is_state_spec in Hb. cbn in Hd. congruence.
Qed.

(** What unlocking does to the mutex table depends on that table only. *)
Lemma unlock_mutexes p s s2 : mutexes_ (tm s2) = mutexes_ (tm s) ->
  mutexes_ (tm (pthread_mutex_unlock p s2).2) = mutexes_ (tm (pthread_mutex_unlock p s).2).
Proof.
  intros Em. unfold pthread_mutex_unlock. rewrite Em. destruct (_ !! p) as [m|]; [|done].
  destruct (_ || _); [done|]. destruct (_ =? 0); [|cbn; by rewrite Em].
  match goal with |- context [match ?q with [] => _ | _ :: _ => _ end] => destruct q as [|w rest] end;
    cbn [snd]; [cbn; by rewrite Em|].
  set (a := set_mutex _ _ s2). set (b := set_mutex _ _ s).
  destruct (blind_unblock _ (same_objects_blind (tm a)) w a) as (-> & _); [done|].
  destruct (blind_unblock _ (same_objects_blind (tm b)) w b) as (-> & _); [done|].
  cbn. by rewrite Em.
Qed.

Lemma unblock_sched_ok id s : sched_ok (tm s) -> sched_ok (tm (unblock_thread_internal id s)).
Proof.
  intros [H1 H2 H3]. unfold unblock_thread_internal. destruct (_ !! id) as [c|] eqn:Hc; [|done].
  destruct (is_state BLOCKED c); [|done].
  constructor; cbn; intros k d (d0 & Hd & [[-> ->]|[_ ->]])%lookup_alter_inv; cbn; eauto; try done;
    intros Hr; apply elem_of_app; [right; by left|left; eauto].
Qed.

(** [pthread_cond_wait] by a running thread queues the caller last on the
    condition variable, releases the mutex as [pthread_mutex_unlock] does, and
    leaves the caller blocked with the CPU's registers saved, the resume address
    as PC, and the mutex to reacquire and the return address remembered. *)
Theorem cond_wait_blocks p mp s c :
  sched_ok (tm s) -> current s = Some c -> state c = RUNNING -> mp <> 0 ->
  let cur := current_thread_id_ (tm s) in
  let s' := (pthread_cond_wait p mp s).2 in
  (pthread_cond_wait p mp s).1 = CONTEXT_SWITCH_OCCURRED /\
  cond_queue p s' = cond_queue p s ++ [cur] /\
  mutexes_ (tm s') = mutexes_ (tm (pthread_mutex_unlock mp s).2) /\
  exists d, threads_ (tm s') !! cur = Some d /\ state d = BLOCKED /\
    cond_wait_mutex d = mp /\ cond_wait_return_addr d = reg REG_LR s /\
    registers d = (read_registers (ext (ms s))) <| rpc := ADDR_COND_RESUME |>.
Proof.
  intros Hok Hc Hr Hmp cur s'. subst s'. unfold pthread_cond_wait. fold cur.
  set (s1 := set_cond p _ s). set (f := fun c : ThreadContext => _). set (s2 := upd_current f s1).
  pose proof (current_upd f s1 c Hc : current s2 = Some (f c)) as Hc2.
  destruct (unlock_keeps_running mp s2 cur (f c) Hc2 Hr) as (Hk & Hcur & Hms & Hcv).
  assert (Hok3 : sched_ok (tm (pthread_mutex_unlock mp s2).2)).
  { assert (H2 : sched_ok (tm s2)).
    { apply sched_ok_alter; [solve_tame|]. by apply (sched_ok_same (tm s)). }
    clear -H2. unfold pthread_mutex_unlock. destruct (_ !! mp) as [m|]; [|done].
    destruct (_ || _); [done|]. destruct (_ =? 0); [|by apply (sched_ok_same (tm s2))].
    match goal with |- context [match ?q with [] => _ | _ :: _ => _ end] => destruct q end;
      [by apply (sched_ok_same (tm s2))|].
    apply unblock_sched_ok. by apply (sched_ok_same (tm s2)). }
  destruct (pthread_mutex_unlock mp s2) as [r s3] eqn:Hu. cbn [fst snd] in *.
  set (s4 := block_current_thread BLOCKED p s3).
  assert (Hc4 : current s4 = Some ((f c) <| ThreadTypes.state := BLOCKED |> <| blocked_on_resource := p |>)).
  { unfold s4, block_current_thread. apply (current_upd (fun c => c <| ThreadTypes.state := BLOCKED |>
      <| blocked_on_resource := p |>) s3 (f c)). unfold current. by rewrite Hcur. }
  assert (Hok4 : sched_ok (tm s4)) by (apply sched_ok_alter; [solve_tame|done]).
  destruct (context_switch_objects BLOCKING_OPERATION s4) as (Em & Ec & _).
  pose proof (unlock_mutexes mp s s2 eq_refl) as Hum. rewrite Hu in Hum. cbn [snd] in Hum.
  split_and!; [done| |by rewrite Em|].
  - unfold cond_queue. rewrite Ec. cbn. rewrite Hcv. cbn. by rewrite lookup_insert_eq.
  - destruct (blocked_switch s4 _ Hok4 Hc4 eq_refl) as (d & Hd & Hs & Hrg & Hw).
    exists d. replace (current_thread_id_ (tm s4)) with cur in Hd by (cbn; by rewrite Hcur).
    split; [exact Hd|]. split; [done|]. unfold wait_info in Hw. cbn in Hw.
    injection Hw as _ _ -> -> _. split_and!; [done..|]. rewrite Hrg. cbn. rewrite Hms.
    apply saved_resume; [done..|]. right. by left.
Qed.

(** Waking a list of distinct blocked threads. *)
Lemma unblock_all_spec ids s : NoDup ids ->
  (forall k, k ∈ ids -> exists d, threads_ (tm s) !! k = Some d /\ state d = BLOCKED) ->
  let s' := unblock_all ids s in
  (forall k, k ∈ ids -> exists d, threads_ (tm s') !! k = Some d /\ state d = RUNNABLE) /\
  (forall k, k ∉ ids -> threads_ (tm s') !! k = threads_ (tm s) !! k) /\
  runnable_queue_ (tm s') = runnable_queue_ (tm s) ++ ids /\
  current_thread_id_ (tm s') = current_thread_id_ (tm s) /\ ms s' = ms s.
Proof.
  intros Hnd. revert s. induction Hnd as [|w ids Hw Hnd IH]; intros s Hb s'; subst s'.
  { cbn. rewrite app_nil_r. split_and!; try done. by intros k ?%elem_of_nil. }
  destruct (Hb w ltac:(by left)) as (d & Hd & Hs).
  destruct (unblock_spec w s d Hd Hs) as (Et & Eq & Ec & Em).
  set (s1 := unblock_thread_internal w s) in *.
  destruct (IH s1) as (H1 & H2 & H3 & H4 & H5).
  { intros k Hk. rewrite Et, lookup_insert_ne by (intros ->; done). apply Hb. by right. }
  change (unblock_all (w :: ids) s) with (unblock_all ids s1). split_and!.
  - intros k [->|Hk]%elem_of_cons; [|auto]. rewrite H2 by done. rewrite Et, lookup_insert_eq. by eexists.
  - intros k Hk. rewrite H2 by set_solver. rewrite Et, lookup_insert_ne; [done|set_solver].
  - rewrite H3, Eq, <- app_assoc. done.
  - congruence.
  - congruence.
Qed.

(** Signalling and broadcasting. A signal takes the first waiter off the
    condition variable's queue and, if it is blocked there, makes exactly that
    thread runnable; a broadcast empties the queue and makes every waiter
    runnable, in queue order, and no other thread. *)
Theorem cond_wakeups p s :
  (forall w rest d, cond_queue p s = w :: rest -> threads_ (tm s) !! w = Some d -> state d = BLOCKED ->
     let s' := (pthread_cond_signal p s).2 in
     cond_queue p s' = rest /\
     threads_ (tm s') = <[w := d <| ThreadTypes.state := RUNNABLE |> <| blocked_on_resource := 0 |>]>
                          (threads_ (tm s)) /\
     runnable_queue_ (tm s') = runnable_queue_ (tm s) ++ [w]) /\
  (NoDup (cond_queue p s) ->
   (forall k, k ∈ cond_queue p s -> exists d, threads_ (tm s) !! k = Some d /\ state d = BLOCKED) ->
     let s' := (pthread_cond_broadcast p s).2 in
     cond_queue p s' = [] /\
     (forall k, k ∈ cond_queue p s -> exists d, threads_ (tm s') !! k = Some d /\ state d = RUNNABLE) /\
     (forall k, k ∉ cond_queue p s -> threads_ (tm s') !! k = threads_ (tm s) !! k) /\
     runnable_queue_ (tm s') = runnable_queue_ (tm s) ++ cond_queue p s).
Proof.
  split.
  - intros w rest d Hq Hd Hs s'. subst s'. unfold pthread_cond_signal. rewrite Hq. cbn [snd].
    set (s1 := set_cond p rest s). destruct (unblock_spec w s1 d Hd Hs) as (-> & -> & _).
    split_and!; try done. unfold cond_queue.
    destruct (blind_unblock _ (same_objects_blind (tm s1)) w s1) as (_ & -> & _); [done|].
    cbn. by rewrite lookup_insert_eq.
  - intros Hnd Hb s'. subst s'. unfold pthread_cond_broadcast, cond_queue in *.
    destruct (condvars_ (tm s) !! p) as [cv|] eqn:Hcv; cbn [snd].
    + destruct (unblock_all_spec _ s Hnd Hb) as (H1 & H2 & H3 & _).
      split_and!; [cbn; by rewrite lookup_insert_eq|exact H1|exact H2|exact H3].
    + rewrite Hcv, app_nil_r. split_and!; try done. by intros k ?%elem_of_nil.
Qed.

(** A waiter of [pthread_cond_timedwait] sleeps instead of blocking, so a
    signal that reaches it is lost: it is taken off the queue, but it is not
    made runnable and sleeps on until its timeout. *)
Theorem cond_signal_timed_lost p s w rest d :
  cond_queue p s = w :: rest -> threads_ (tm s) !! w = Some d -> state d = SLEEPING ->
  let s' := (pthread_cond_signal p s).2 in
  cond_queue p s' = rest /\ threads_ (tm s') !! w = Some d /\
  runnable_queue_ (tm s') = runnable_queue_ (tm s).
Proof.
  intros Hq Hd Hs s'. subst s'. unfold pthread_cond_signal. rewrite Hq. cbn [snd].
  unfold unblock_thread_internal. cbn. rewrite Hd.
  rewrite (proj2 (is_state_false BLOCKED d)) by congruence.
  split_and!; try done. unfold cond_queue. cbn. by rewrite lookup_insert_eq.
Qed.

(** ** Barriers *)

(** [pthread_barrier_wait] on a known barrier, with [w] arrivals so far. *)
Lemma barrier_wait_unfold p s b w : barriers_ (tm s) !! p = Some b -> u32 (waiting b + 1) = w ->
  pthread_barrier_wait p s =
    if barrier_count b <=? w
    then (PTHREAD_BARRIER_SERIAL_THREAD,
          set_barrier_obj p (b <| waiting := 0 |> <| generation := u32 (generation b + 1) |>
                               <| barrier_wait_queue := [] |>) (unblock_all (barrier_wait_queue b) s))
    else (CONTEXT_SWITCH_OCCURRED,
          context_switch BLOCKING_OPERATION (block_current_thread BLOCKED p
            (set_barrier_obj p (b <| waiting := w |>
                                  <| barrier_wait_queue ::= fun q => q ++ [current_thread_id_ (tm s)] |>)
              (upd_current (fun c => c <| barrier_wait_ptr := p |>
                 <| barrier_wait_return_addr := reg REG_LR s |>
                 <| registers ::= fun r => r <| rpc := ADDR_BARRIER_RESUME |> |>) s)))).
Proof. intros Hb <-. unfold pthread_barrier_wait. rewrite Hb. reflexivity. Qed.

(** A barrier opens exactly when the last of its [count] threads arrives: the
    last caller gets [PTHREAD_BARRIER_SERIAL_THREAD] without blocking, all
    blocked waiters become runnable in arrival order and nobody else does, and
    the barrier is empty again for its next generation; an earlier caller is
    queued and blocked with the barrier's resume address as PC. *)
Theorem barrier_wait_cases p s c b :
  all_ok (tm s) -> current s = Some c -> p <> 0 -> barriers_ (tm s) !! p = Some b ->
  let cur := current_thread_id_ (tm s) in
  let s' := (pthread_barrier_wait p s).2 in
  (waiting b + 1 = barrier_count b -> NoDup (barrier_wait_queue b) ->
   (forall k, k ∈ barrier_wait_queue b -> exists d, threads_ (tm s) !! k = Some d /\ state d = BLOCKED) ->
     (pthread_barrier_wait p s).1 = PTHREAD_BARRIER_SERIAL_THREAD /\
     (forall k, k ∈ barrier_wait_queue b -> exists d, threads_ (tm s') !! k = Some d /\ state d = RUNNABLE) /\
     (forall k, k ∉ barrier_wait_queue b -> threads_ (tm s') !! k = threads_ (tm s) !! k) /\
     runnable_queue_ (tm s') = runnable_queue_ (tm s) ++ barrier_wait_queue b /\
     barriers_ (tm s') !! p = Some (b <| waiting := 0 |> <| generation := u32 (generation b + 1) |>
                                      <| barrier_wait_queue := [] |>)) /\
  (waiting b + 1 < barrier_count b ->
     (pthread_barrier_wait p s).1 = CONTEXT_SWITCH_OCCURRED /\
     barriers_ (tm s') !! p = Some (b <| waiting := waiting b + 1 |>
                                      <| barrier_wait_queue ::= fun q => q ++ [cur] |>) /\
     exists d, threads_ (tm s') !! cur = Some d /\ state d = BLOCKED /\ barrier_wait_ptr d = p /\
       barrier_wait_return_addr d = reg REG_LR s /\
       registers d = (read_registers (ext (ms s))) <| rpc := ADDR_BARRIER_RESUME |>).
Proof.
  intros H Hc Hp Hb cur s'. subst s'.
  destruct (oo_barrier _ (proj2 H) p b Hb) as [Hq Hcnt].
  rewrite (barrier_wait_unfold p s b (waiting b + 1) Hb) by (apply u32_succ; lia). fold cur.
  split.
  - intros Hlast Hnd Hbl. rewrite (proj2 (Z.leb_le _ _)) by lia. cbn [fst snd].
    destruct (unblock_all_spec (barrier_wait_queue b) s Hnd Hbl) as (H1 & H2 & H3 & _).
    split_and!; [done|exact H1|exact H2|exact H3|cbn; apply lookup_insert_eq].
  - intros Hless. rewrite (proj2 (Z.leb_gt _ _)) by lia. cbn [fst snd].
    set (f := fun c : ThreadContext => _). set (s1 := upd_current f s). set (s2 := set_barrier_obj p _ s1).
    set (s3 := block_current_thread BLOCKED p s2).
    pose proof (current_upd f s c Hc : current s2 = Some (f c)) as Hc2.
    pose proof (current_upd (fun c => c <| ThreadTypes.state := BLOCKED |>
      <| blocked_on_resource := p |>) s2 _ Hc2 : current s3 = Some _) as Hc3.
    assert (Hok3 : sched_ok (tm s3)).
    { apply sched_ok_alter; [solve_tame|]. apply (sched_ok_same (tm s1)); [done|].
      apply sched_ok_alter; [solve_tame|apply H]. }
    split; [done|]. split.
    { destruct (context_switch_objects BLOCKING_OPERATION s3) as (_ & _ & _ & -> & _).
      cbn. apply lookup_insert_eq. }
    destruct (blocked_switch s3 _ Hok3 Hc3 eq_refl) as (d & Hd & Hs & Hrg & Hw).
    exists d. split; [exact Hd|]. split; [done|]. unfold wait_info in Hw. cbn in Hw.
    injection Hw as _ _ _ _ _ _ _ -> -> _. split_and!; [done..|]. rewrite Hrg.
    apply saved_resume; [done..|]. cbn. auto.
Qed.

(** ** Exit and join *)

Lemma unblock_all_keeps ids s k d : threads_ (tm s) !! k = Some d -> state d <> BLOCKED ->
  threads_ (tm (unblock_all ids s)) !! k = Some d /\
  current_thread_id_ (tm (unblock_all ids s)) = current_thread_id_ (tm s).
Proof.
  intros Hd Hs. unfold unblock_all. revert s Hd. induction ids as [|w ids IH]; intros s Hd; cbn; [done|].
  assert (H1 : threads_ (tm (unblock_thread_internal w s)) !! k = Some d /\
               current_thread_id_ (tm (unblock_thread_internal w s)) = current_thread_id_ (tm s)).
  { unfold unblock_thread_internal. destruct (_ !! w) as [x|] eqn:Hx; [|done].
    destruct (is_state BLOCKED x) eqn:Hb; [|done]. apply is_state_spec in Hb. split; [|done]. cbn.
    rewrite lookup_alter_ne; [done|]. intros ->. congruence. }
  destruct H1 as [H1 H2]. destruct (IH _ H1) as [H3 H4]. split; [done|congruence].
Qed.

Lemma unblock_all_sched_ok ids s : sched_ok (tm s) -> sched_ok (tm (unblock_all ids s)).
Proof.
  unfold unblock_all. revert s; induction ids as [|w ids IH]; intros s H; cbn; [done|].
  by apply IH, unblock_sched_ok.
Qed.

(** A thread other than the current one through a switch. *)
Lemma switch_other reason s k Q : sched_ok (tm s) -> k <> current_thread_id_ (tm s) ->
  (forall d, state d = SLEEPING \/ state d = IO_WAIT -> Q d ->
     Q (d <| ThreadTypes.state := RUNNABLE |>)) ->
  (forall t d, state d = RUNNABLE -> Q d -> Q (running t d)) ->
  follows k Q (tm s) -> follows k Q (tm (context_switch reason s)).
Proof.
  intros Hok Hk H1 H2 (d & Hd & HQ). destruct (current s) as [c|] eqn:Hc.
  2: { unfold context_switch. unfold current in Hc. rewrite Hc. by exists d. }
  destruct (block_next_switch c && negb (voluntary reason)) eqn:Hb.
  { unfold context_switch. unfold current in Hc. rewrite Hc, Hb. by exists d. }
  destruct (context_switch_split reason s c Hok Hc Hb) as (s1 & -> & Hok1 & Hid1 & _ & t & Et).
  apply follows_switch_away; try done. exists d. split; [|done]. rewrite Et.
  unfold park_current. unfold current in Hc. cbn. rewrite lookup_alter_eq, Hc. cbn.
  destruct (is_state _ _); [|destruct (has_resume_pc _)]; cbn; by rewrite !lookup_alter_ne by congruence.
Qed.

(** ** A thread that others leave alone *)

(** The calls of other threads that keep to the rules: a new thread does not get the id
    [k], and neither pthread_cond_timedwait, which goes on for whatever thread is current
    after its switch, nor the resume half of pthread_cond_wait, which writes a return
    address into the context of that thread, is among them. *)
Definition other_call (k : Z) s (c : call) : Prop :=
  call_ok c /\
  match c with
  | CondTimed _ _ _ | CondResume => False
  | Create _ _ _ _ => next_thread_id_ (tm s) <> k
  | _ => True
  end.

Section Others.
(** A property of thread [k]'s context that a blocked or terminated thread does not have;
    [W] holds once a call is over. *)
Context (k : Z) (Q : ThreadContext -> Prop).
Context (Q_state : forall d, Q d -> state d <> BLOCKED /\ state d <> TERMINATED).
Context (Q_join : forall d f, Q d -> Q (d <| join_wait_queue ::= f |>)) (Q_detach : forall d, Q d -> Q (d <| detached := true |>)).

Definition apart s : Prop := sched_ok (tm s) /\ current_thread_id_ (tm s) <> k /\ follows k Q (tm s).

Context (W : tstate -> Prop) (W_switch : forall r s, apart s -> W (context_switch r s)) (W_weak : forall s, apart s -> W s).

Lemma apart_same s s' : same_sched (tm s) (tm s') -> apart s -> apart s'.
Proof.
  intros Hs (H1 & H2 & d & Hd & HQ). pose proof Hs as (E1 & _ & E3). split_and!; [by apply (sched_ok_same (tm s))|congruence|]. exists d. by rewrite E1.
Qed.

Lemma apart_upd id f s : tame f -> (id = k -> forall d, Q d -> Q (f d)) -> apart s -> apart (upd_thread id f s).
Proof.
  intros Hf Hk (H1 & H2 & d & Hd & HQ). split_and!; [by apply sched_ok_alter|done|]. unfold follows. cbn. destruct (decide (id = k)) as [->|Hne].
  - rewrite lookup_alter_eq, Hd. eexists. split; [done|]. by apply Hk.
  - rewrite lookup_alter_ne by done. by exists d.
Qed.

Lemma apart_current f s : tame f -> apart s -> apart (upd_current f s).
Proof. intros Hf H. apply apart_upd; [done|by intros E1; destruct H as (_ & ? & _)|done]. Qed.

Lemma apart_block st r s : st <> RUNNING -> st <> RUNNABLE -> apart s -> apart (block_current_thread st r s).
Proof. intros H1 H2. apply apart_current. intros c. cbn. split; [done|]. right. done. Qed.

Lemma apart_make id f s c : threads_ (tm s) !! id = Some c -> state c = BLOCKED -> (forall d, thread_id (f d) = thread_id d /\ state (f d) = RUNNABLE) ->
  apart s -> apart (push_runnable id (upd_thread id f s)).
Proof.
  intros Hc Hb Hf ([H1 H2 H3] & Hk & d & Hd & HQ). split_and!; [|done|].
  - constructor; cbn; intros j x (d0 & Hd0 & [[-> ->]|[_ ->]])%lookup_alter_inv; try destruct (Hf d0) as [Hid Hst]; rewrite ?Hid, ?Hst; eauto; try done;
      intros Hr; apply elem_of_app; [right; by left|left; eauto].
  - exists d. split; [|done]. cbn. rewrite lookup_alter_ne; [done|]. intros ->. destruct (Q_state d HQ). congruence.
Qed.

Lemma apart_unblock id s : apart s -> apart (unblock_thread_internal id s).
Proof.
  intros H. unfold unblock_thread_internal. destruct (_ !! id) as [c|] eqn:Hc; [|done]. destruct (is_state BLOCKED c) eqn:Hb; [|done]. apply is_state_spec in Hb. by eapply apart_make.
Qed.

Lemma apart_futex id s : apart s -> apart (unblock_from_futex id s).
Proof.
  intros H. unfold unblock_from_futex. destruct (_ !! id) as [c|] eqn:Hc; [|done]. destruct (is_state BLOCKED c) eqn:Hb; [|done]. apply is_state_spec in Hb. by eapply apart_make.
Qed.

Lemma apart_unblock_all ids s : apart s -> apart (unblock_all ids s).
Proof. unfold unblock_all. revert s. induction ids as [|i ids IH]; intros s H; cbn; [done|]. by apply IH, apart_unblock. Qed.

Lemma apart_delete id c s : threads_ (tm s) !! id = Some c -> state c = TERMINATED -> apart s -> apart (s <| tm ::= fun t => t <| threads_ ::= delete id |> |>).
Proof.
  intros Hc Ht (H1 & H2 & d & Hd & HQ). split_and!; [by apply sched_ok_delete|done|]. exists d. split; [|done]. cbn. rewrite lookup_delete_ne; [done|].
  intros ->. destruct (Q_state d HQ). congruence.
Qed.

Lemma apart_insert id c s : id <> k -> thread_id c = id -> state c = RUNNABLE -> apart s ->
  apart (s <| tm ::= fun t => t <| threads_ ::= <[id := c]> |> <| runnable_queue_ ::= cons id |> |>).
Proof.
  intros Hne Hid Hst ([H1 H2 H3] & Hk & d & Hd & HQ). split_and!; [|done|].
  - constructor; cbn; intros j x [[<- <-]|[_ Hj]]%lookup_insert_Some; try congruence; eauto; intros Hr; [by left|right; eauto].
  - exists d. split; [|done]. cbn. by rewrite lookup_insert_ne.
Qed.

Lemma apart_now s t s' : now s = (t, s') -> apart s -> apart s'.
Proof. destruct (now_split s) as (t0 & s0 & -> & E0). intros [= _ <-]. apply apart_same. by rewrite E0. Qed.

(** Peels one layer after another, by the head symbol. *)
Ltac aside :=
  repeat lazymatch goal with
  | H : apart ?s |- apart ?s => exact H
  | |- W (context_switch _ _) => apply W_switch
  | |- W _ => apply W_weak
  | |- apart (setr ?r ?v ?s) => apply (apart_same s); [done|]
  | |- apart (write_uint ?n ?a ?v ?s) => apply (apart_same s); [done|]
  | |- apart (pause ?n ?s) => apply (apart_same s); [done|]
  | |- apart (set_cond ?p ?q ?s) => apply (apart_same s); [done|]
  | |- apart (set_mutex ?p ?m ?s) => apply (apart_same s); [done|]
  | |- apart (set_rwlock_obj ?p ?l ?s) => apply (apart_same s); [done|]
  | |- apart (set_barrier_obj ?p ?b ?s) => apply (apart_same s); [done|]
  | |- apart (unblock_all _ _) => apply apart_unblock_all
  | |- apart (unblock_thread_internal _ _) => apply apart_unblock
  | |- apart (block_current_thread _ _ _) => apply apart_block; [discriminate|discriminate|]
  | |- apart (upd_current _ _) => apply apart_current; [solve_tame|]
  end.

Lemma aside_yield b s : apart s -> W (yield b s).
Proof. intros H. unfold yield. destruct (_ && _); aside. Qed.

Lemma aside_wait_mutex p m a s : apart s -> W (wait_on_mutex p m a s).
Proof. intros H. unfold wait_on_mutex. aside. Qed.

Lemma aside_lock p s : apart s -> W (pthread_mutex_lock p s).2.
Proof. intros H. unfold pthread_mutex_lock. destruct (_ && _); cbn [snd]; [aside|]. destruct (negb _); cbn [snd]; [aside|]. apply aside_wait_mutex. aside. Qed.

Lemma aside_mutex_resume s : apart s -> W (pthread_mutex_lock_resume s).
Proof.
  intros H. unfold pthread_mutex_lock_resume. destruct (current s) as [c|]; [|aside]. destruct (_ !! _) as [m|]; [|aside]. destruct (negb _); [aside|]. apply aside_wait_mutex. aside.
Qed.

Lemma apart_unlock p s : apart s -> apart (pthread_mutex_unlock p s).2.
Proof.
  intros H. unfold pthread_mutex_unlock. destruct (_ !! p) as [m|]; [|done]. destruct (_ || _); [done|]. destruct (_ =? 0); cbn [snd]; [|aside]. destruct (mutex_wait_queue _); cbn [snd]; aside.
Qed.

Lemma aside_cond_wait p m s : apart s -> W (pthread_cond_wait p m s).2.
Proof.
  intros H. unfold pthread_cond_wait. set (s2 := upd_current _ _). assert (H2 : apart s2) by (subst s2; aside).
  pose proof (apart_unlock m s2 H2) as H3. destruct (pthread_mutex_unlock m s2) as [r s3]. cbn [snd] in *. aside.
Qed.

Lemma aside_wait_read p l a s : apart s -> W (wait_for_read p l a s).
Proof. intros H. unfold wait_for_read. aside. Qed.
Lemma aside_wait_write p l a s : apart s -> W (wait_for_write p l a s).
Proof. intros H. unfold wait_for_write. aside. Qed.

Lemma aside_rdlock p s : apart s -> W (pthread_rwlock_rdlock p s).2.
Proof. intros H. unfold pthread_rwlock_rdlock. destruct (_ =? 0); cbn [snd]; [aside|]. apply aside_wait_read. aside. Qed.
Lemma aside_rd_resume s : apart s -> W (pthread_rwlock_rdlock_resume s).
Proof.
  intros H. unfold pthread_rwlock_rdlock_resume. destruct (current s) as [c|]; [|aside]. destruct (_ !! _) as [l|]; [|aside]. destruct (_ =? 0); [aside|]. apply aside_wait_read. aside.
Qed.
Lemma aside_wrlock p s : apart s -> W (pthread_rwlock_wrlock p s).2.
Proof. intros H. unfold pthread_rwlock_wrlock. destruct (_ =? _); cbn [snd]; [aside|]. destruct (_ && _); cbn [snd]; [aside|]. apply aside_wait_write. aside. Qed.
Lemma aside_wr_resume s : apart s -> W (pthread_rwlock_wrlock_resume s).
Proof.
  intros H. unfold pthread_rwlock_wrlock_resume. destruct (current s) as [c|]; [|aside]. destruct (_ !! _) as [l|]; [|aside]. destruct (_ && _); [aside|]. apply aside_wait_write. aside.
Qed.

Lemma apart_wake_writer p l s : apart s -> apart (wake_writer p l s).
Proof. intros H. unfold wake_writer. destruct (write_wait_queue l); aside. Qed.

Lemma apart_rwunlock p s : apart s -> apart (pthread_rwlock_unlock p s).2.
Proof.
  intros H. unfold pthread_rwlock_unlock. destruct (_ !! p) as [l|]; [|done]. destruct (_ =? _); [destruct (1 <? _)|destruct (0 <? readers l)]; cbn [snd]; [aside| | |done].
  - destruct (write_wait_queue _); cbn [snd]; [aside|by apply apart_wake_writer].
  - destruct (_ =? 0); cbn [snd]; [by apply apart_wake_writer|aside].
Qed.

Lemma aside_barrier_wait p s : apart s -> W (pthread_barrier_wait p s).2.
Proof. intros H. unfold pthread_barrier_wait. destruct (_ <=? _); cbn [snd]; aside. Qed.

Lemma aside_join id s : apart s -> W (pthread_join id s).2.
Proof.
  intros H. unfold pthread_join. destruct (threads_ (tm s) !! id) as [c|] eqn:Hc; [|aside]. destruct (detached c); [aside|]. destruct (is_state TERMINATED c) eqn:Ht; cbn [snd].
  - apply W_weak. apply is_state_spec in Ht. by eapply apart_delete.
  - aside. apply apart_upd; [solve_tame|intros _ d Hd; by apply Q_join|done].
Qed.

Lemma apart_join_resume s : apart s -> apart (pthread_join_resume s).
Proof.
  intros H. unfold pthread_join_resume. destruct (current s) as [c|]; [|done]. set (s1 := upd_current _ s). assert (H1 : apart s1) by (subst s1; aside).
  destruct (match threads_ (tm s1) !! _ with Some _ => _ | None => _ end) as [v s2] eqn:Hm.
  assert (H2 : apart s2).
  { destruct (threads_ (tm s1) !! _) as [d|] eqn:Hd; [destruct (is_state _ d) eqn:Ht|]; injection Hm as <- <-; [|done..]. apply is_state_spec in Ht. by eapply apart_delete. }
  destruct (negb _); aside.
Qed.

Lemma apart_detach id s : apart s -> apart (pthread_detach id s).2.
Proof.
  intros H. unfold pthread_detach. destruct (threads_ (tm s) !! id) as [c|] eqn:Hc; [|done]. set (s1 := upd_thread _ _ s).
  assert (H1 : apart s1) by (apply apart_upd; [solve_tame|intros _ d Hd; by apply Q_detach|done]). destruct (is_state TERMINATED c) eqn:Ht; cbn [snd]; [|done].
  apply is_state_spec in Ht. eapply (apart_delete id (c <| detached := true |>)); [|exact Ht|done]. cbn. rewrite lookup_alter_eq, Hc. done.
Qed.

Lemma apart_create p a st ar s : next_thread_id_ (tm s) <> k -> apart s -> apart (pthread_create p a st ar s).2.
Proof.
  intros Hne H. unfold pthread_create, allocate_thread_id. set (s1 := s <| tm ::= _ |>). assert (H1 : apart s1) by (by apply (apart_same s)).
  pose proof (stack_tm s1) as [Hs _]. destruct (allocate_thread_stack s1) as [stk s2]. cbn in Hs.
  pose proof (tls_tm s2) as [Ht _]. destruct (allocate_thread_tls s2) as [tls s3]. cbn in Ht. destruct (now s3) as [tn s4] eqn:Hn.
  assert (H4 : apart s4) by (eapply apart_now; [exact Hn|]; eapply apart_same; [exact Ht|]; by eapply apart_same).
  cbn [snd]. apply apart_insert; [done..|]. destruct (plausible_ptr p); aside.
Qed.

Lemma apart_sleep us s : apart s -> apart (sleep_current_thread us s).
Proof.
  intros H. unfold sleep_current_thread. destruct (current s); [|done]. set (s1 := upd_current _ s). assert (H1 : apart s1) by (subst s1; aside).
  destruct (now s1) as [tn s2] eqn:Hn. pose proof (apart_now _ _ _ Hn H1). aside.
Qed.

Lemma apart_coop_start a b c d s : apart s -> apart (start_coop_epoll_wait a b c d s).
Proof. intros H. unfold start_coop_epoll_wait. destruct (current s); [|done]. destruct (now s) as [tn s1] eqn:Hn. pose proof (apart_now _ _ _ Hn H). aside. Qed.

Lemma aside_periodic n s : apart s -> W (periodic_check_n n s).
Proof.
  intros H. unfold periodic_check_n, periodic_check_internal. set (s0 := s <| tm ::= _ |>). assert (H0 : apart s0) by (by apply (apart_same s)).
  set (s1 := upd_current _ s0). assert (H1 : apart s1) by (subst s1; aside). destruct (match current s1 with Some _ => _ | None => _ end).
  { apply W_weak, apart_current; [apply tame_grace|done]. }
  destruct (_ <? _); [aside|]. set (s2 := s1 <| tm ::= _ |>). destruct (now s2) as [tn s3] eqn:Hn. set (s4 := s3 <| tm ::= _ |>).
  assert (H4 : apart s4). { apply (apart_same s3); [done|]. eapply apart_now; [exact Hn|]. by apply (apart_same s1). }
  destruct (current s4) as [c|]; [|aside]. destruct (slice_expired _ _); aside.
Qed.

Lemma apart_watchdog l s : apart s -> apart (watchdog_round l s).2.
Proof.
  intros H. unfold watchdog_round. destruct (current _); [|done]. cbn [snd].
  destruct (5 <=? _); [destruct (emergency_mode_ _)|destruct (_ && _)]; by apply (apart_same s).
Qed.

(** Whatever other threads call, the property stays. *)
Lemma others_aside c s : other_call k s c -> apart s -> W (exec s c).
Proof.
  intros [Hc Hk] H. destruct c; cbn [exec other_call call_ok] in *; try done.
  all: try (by apply W_weak, (apart_same s)).
  all: try (first [apply aside_yield | apply aside_lock | apply aside_mutex_resume | apply aside_cond_wait | apply aside_rdlock | apply aside_rd_resume | apply aside_wrlock
    | apply aside_wr_resume | apply aside_barrier_wait | apply aside_join | apply aside_periodic]; exact H).
  all: try (apply W_weak; first [apply apart_unblock | apply apart_futex | apply apart_unlock | apply apart_rwunlock | apply apart_join_resume | apply apart_detach | apply apart_sleep
    | apply apart_coop_start | apply apart_watchdog]; exact H).
  - by apply W_switch.
  - by apply W_switch.
  - apply W_weak. apply apart_block; [apply Hc..|done].
  - unfold block_on_futex. aside.
  - unfold block_on_io_and_yield. apply aside_yield. aside.
  - unfold clear_coop_io_state. aside.
  - apply W_weak. by destruct on; apply (apart_same s).
  - apply W_weak. by apply apart_create.
  - unfold pthread_exit. aside.
  - unfold pthread_mutex_trylock. destruct (_ && _); [destruct (_ =? 1)|destruct (negb _)]; cbn [snd]; aside.
  - unfold pthread_cond_signal. destruct (cond_queue _ _); cbn [snd]; aside.
  - unfold pthread_cond_broadcast. destruct (_ !! p); cbn [snd]; aside.
  - unfold pthread_rwlock_tryrdlock. destruct (_ =? 0); cbn [snd]; aside.
  - unfold pthread_rwlock_trywrlock. destruct (_ && _); cbn [snd]; aside.
  - unfold pthread_barrier_init. destruct (_ =? 0); cbn [snd]; aside.
  - unfold pthread_barrier_destroy. destruct (_ !! p) as [b|]; [|aside]. destruct (0 <? _); [aside|]. by apply W_weak, (apart_same s).
  - unfold pthread_barrier_wait_resume. destruct (current s); aside.
  - unfold pthread_key_create. destruct (negb _); by apply W_weak, (apart_same s).
Qed.

(** The resume half of pthread_cond_wait, where writing the return address of the caller
    into the context of the thread that runs next does no harm. *)
Lemma cond_resume_aside s : (forall a s, W s -> W (upd_current (fun c => c <| mutex_wait_return_addr := a |>) s)) -> apart s -> W (pthread_cond_wait_resume s).
Proof.
  intros Htail H. unfold pthread_cond_wait_resume. destruct (current s) as [c|]; [|aside]. set (s1 := upd_current _ s). assert (H1 : apart s1) by (subst s1; aside).
  unfold pthread_mutex_lock. destruct (_ && _); [cbn; aside|]. destruct (negb _); [cbn; aside|]. cbn [fst snd]. rewrite Z.eqb_refl. apply Htail, aside_wait_mutex. aside.
Qed.

End Others.

(** ** Handing a mutex over *)

Section Waiter.
Context `{!RegLaws E}.
Context (w p ra : Z) (regs : RegisterState).

(** The waiter after it was woken: what it waits for and where it goes on are still in its
    context. *)
Definition owed (c : ThreadContext) : Prop :=
  mutex_wait_ptr c = p /\ mutex_wait_return_addr c = ra /\ registers c = regs /\ (state c = RUNNABLE \/ state c = RUNNING).

(** Once it is current it runs, with its registers in the CPU. *)
Record woken s : Prop := {
  wk_ok : sched_ok (tm s);
  wk_cpu : has_cpu (ext (ms s)) = true;
  wk_ctx : follows w owed (tm s);
  wk_cur : current_thread_id_ (tm s) = w -> (exists c, current s = Some c /\ state c = RUNNING) /\ read_registers (ext (ms s)) = regs;
}.

(** From the wake-up on: switches for any reason, and calls of the other threads. *)
Inductive handoff_run : tstate -> tstate -> Prop :=
| hr_done s : handoff_run s s
| hr_switch r s s' : has_cpu (ext (ms (context_switch r s))) = true -> handoff_run (context_switch r s) s' -> handoff_run s s'
| hr_other c s s' : current_thread_id_ (tm s) <> w -> other_call w s c -> has_cpu (ext (ms (exec s c))) = true -> handoff_run (exec s c) s' -> handoff_run s s'.

Context (Hwf : regs_wf regs).

Lemma owed_wake d : state d = SLEEPING \/ state d = IO_WAIT -> owed d -> owed (d <| ThreadTypes.state := RUNNABLE |>).
Proof. intros _ (H1 & H2 & H3 & _). split_and!; [done..|by left]. Qed.

Lemma owed_run t d : state d = RUNNABLE -> owed d -> owed (running t d).
Proof. intros _ (H1 & H2 & H3 & _). split_and!; [done..|by right]. Qed.

Lemma owed_state d : owed d -> state d <> BLOCKED /\ state d <> TERMINATED.
Proof. intros (_ & _ & _ & [-> | ->]); done. Qed.

Lemma woken_switch r s : sched_ok (tm s) -> follows w owed (tm s) -> (current_thread_id_ (tm s) = w -> woken s) ->
  has_cpu (ext (ms (context_switch r s))) = true -> woken (context_switch r s).
Proof.
  intros Hok Hf Hcur Hcpu.
  assert (Hnoop : context_switch r s = s -> woken (context_switch r s)).
  { intros E1. rewrite E1 in *. constructor; [done..|]. intros Ew. by apply Hcur. }
  destruct (current s) as [c|] eqn:Hc; [|apply Hnoop; unfold context_switch; unfold current in Hc; by rewrite Hc].
  destruct (block_next_switch c && negb (voluntary r)) eqn:Hb; [apply Hnoop; unfold context_switch; unfold current in Hc; by rewrite Hc, Hb|].
  assert (Hf' : follows w owed (tm (context_switch r s))).
  { destruct (decide (current_thread_id_ (tm s) = w)) as [Ew|Hne]; [|by apply (switch_other r s w owed Hok (not_eq_sym Hne) owed_wake owed_run)].
    destruct (Hcur Ew) as [_ _ _ Hw]. destruct (Hw Ew) as [(c0 & Hc0 & Hrun) Hrg]. simplify_eq. destruct Hf as (d & Hd & H1 & H2 & _).
    assert (d = c) as -> by (unfold current in Hc; rewrite Ew in Hc; congruence). rewrite <- Ew at 1.
    apply (switch_outgoing r s c owed Hok Hc Hb owed_wake owed_run). intros t.
    assert (Hsv : saved_registers (ext (ms s)) c = read_registers (ext (ms s))) by (unfold saved_registers; by rewrite has_resume_pc_running).
    split_and!; [destruct r; exact H1|destruct r; exact H2|etrans; [exact Hsv|exact Hrg]|]. left. cbn. by rewrite (proj2 (is_state_spec _ _) Hrun). }
  destruct (context_switch_progress r s c Hok Hc Hb) as [Hok' Hor]. constructor; [done..|]. intros Ew. destruct Hf' as (d & Hd & Ho).
  destruct Hor as [(d' & Hd' & Hrun)|[Hno _]]; [|destruct (Hno w d Hd) as [? ?]; by destruct Ho as (_ & _ & _ & [?|?])].
  rewrite Ew in Hd'. assert (d' = d) as -> by congruence. assert (Hd2 : current (context_switch r s) = Some d) by (unfold current; by rewrite Ew).
  split; [by exists d|]. destruct Ho as (_ & _ & Hrg & _). rewrite <- Hrg. eapply switch_restores_incoming; [done..|by rewrite Hrg].
Qed.

Lemma handoff_woken s s' : handoff_run s s' -> woken s -> woken s'.
Proof.
  induction 1 as [s|r s s' Hcpu _ IH|c s s' Hne Hc Hcpu _ IH]; intros Hw; [done| |].
  - apply IH, woken_switch; [apply Hw..|done|done].
  - apply IH. revert Hcpu. apply (others_aside w owed owed_state) with (W := fun s => has_cpu (ext (ms s)) = true -> woken s); [done|done| | |done|].
    + intros r s0 (H1 & H2 & H3). by apply woken_switch.
    + intros s0 (H1 & H2 & H3) Hcpu. by constructor.
    + split_and!; [apply Hw|done|apply Hw].
Qed.

(** What the resume half does for the waiter. *)
Definition resumes s : Prop :=
  let s' := pthread_mutex_lock_resume s in
  match mutexes_ (tm s) !! p with
  | Some m =>
      if is_locked m
      then mutexes_ (tm s') !! p = Some (m <| mutex_wait_queue ::= enqueue_once w |>) /\
           follows w (fun c => state c = BLOCKED /\ mutex_wait_ptr c = p /\ mutex_wait_return_addr c = ra /\ registers c = regs) (tm s')
      else mutexes_ (tm s') !! p = Some (acquired w m) /\ current_thread_id_ (tm s') = w /\
           follows w (fun c => state c = RUNNING /\ mutex_wait_ptr c = 0) (tm s') /\ reg REG_X0 s' = 0 /\ reg REG_LR s' = ra
  | None => current_thread_id_ (tm s') = w /\ reg REG_X0 s' = 0 /\ reg REG_LR s' = ra
  end.

Lemma woken_resumes s : p <> 0 -> rpc regs = ADDR_MUTEX_RESUME -> reg_ok REG_LR ra -> reg_ok REG_X0 0 -> woken s -> current_thread_id_ (tm s) = w -> resumes s.
Proof.
  intros Hp Hpc Hra H0 Hw Ew. destruct Hw as [Hok Hcpu (d & Hd & Hptr & Hret & _) Hcur]. destruct (Hcur Ew) as [(c & Hc & Hrun) Hrg].
  assert (d = c) as -> by (unfold current in Hc; rewrite Ew in Hc; congruence).
  unfold resumes, pthread_mutex_lock_resume. rewrite Hc, Hptr, Hret. set (s1 := upd_current _ s).
  assert (Hc1 : current s1 = Some (c <| mutex_wait_ptr := 0 |> <| mutex_wait_return_addr := 0 |>)) by (exact (current_upd (fun c => c <| mutex_wait_ptr := 0 |> <| mutex_wait_return_addr := 0 |>) s c Hc)).
  change (mutexes_ (tm s1)) with (mutexes_ (tm s)). destruct (mutexes_ (tm s) !! p) as [m|]; [destruct (is_locked m); cbn [negb]|].
  - assert (Hok1 : sched_ok (tm s1)) by (apply sched_ok_alter; [solve_tame|done]).
    destruct (wait_on_mutex_spec p m ra s1 _ Hok1 Hc1 Hp) as ((x & Hx & Hst & Hxp & Hxr & Hxg) & Hm). change (current_thread_id_ (tm s1)) with (current_thread_id_ (tm s)) in *.
    rewrite Ew in *. split; [done|]. exists x. split_and!; [done..|]. rewrite Hxg. change (read_registers (ext (ms s1))) with (read_registers (ext (ms s))). rewrite Hrg, <- Hpc. by destruct regs.
  - change (current_thread_id_ (tm s1)) with (current_thread_id_ (tm s)). rewrite Ew. split_and!; [apply lookup_insert_eq|done| |by apply (resume_regs ra (set_mutex _ _ s1))..].
    exists (c <| mutex_wait_ptr := 0 |> <| mutex_wait_return_addr := 0 |>). split; [|by split]. unfold current in Hc1. change (current_thread_id_ (tm s1)) with (current_thread_id_ (tm s)) in Hc1. by rewrite Ew in Hc1.
  - split_and!; [done|by apply (resume_regs ra s1)..].
Qed.

End Waiter.

(** C3: Handing a mutex over. When the last level of a lock is released while threads wait,
    the mutex becomes free, exactly the first waiter [w] is made runnable and queued last,
    and no other thread changes.  Whatever the other threads then do (context switches for
    any reason and every call of [other_call]), [w] keeps what it waits for; as soon as it is
    the current thread it runs with the registers of its blocked call in the CPU, at the mutex
    resume address, and its resume half takes the mutex with count 1 for [w] and returns 0 to
    the saved address if the mutex is free; if another thread has taken it, [w] is queued on
    it (once) and blocked again as before; if it was destroyed, the call returns 0. *)
Theorem mutex_handoff `{!RegLaws E} p s m w rest d ra regs :
  sched_ok (tm s) -> has_cpu (ext (ms s)) = true -> p <> 0 ->
  mutexes_ (tm s) !! p = Some m -> is_locked m = true -> lock_count m = 1 ->
  mutex_wait_queue m = w :: rest -> w <> current_thread_id_ (tm s) ->
  threads_ (tm s) !! w = Some d -> state d = BLOCKED -> mutex_wait_ptr d = p -> mutex_wait_return_addr d = ra ->
  registers d = regs -> rpc regs = ADDR_MUTEX_RESUME -> regs_wf regs -> reg_ok REG_LR ra -> reg_ok REG_X0 0 ->
  let s1 := (pthread_mutex_unlock p s).2 in
  ((pthread_mutex_unlock p s).1 = 0 /\
   mutexes_ (tm s1) !! p = Some (m <| lock_count := 0 |> <| is_locked := false |>
                                   <| owner_thread := 0 |> <| mutex_wait_queue := rest |>) /\
   threads_ (tm s1) = <[w := d <| ThreadTypes.state := RUNNABLE |> <| blocked_on_resource := 0 |>]>
                        (threads_ (tm s)) /\
   runnable_queue_ (tm s1) = runnable_queue_ (tm s) ++ [w]) /\
  forall s2, handoff_run w s1 s2 ->
    follows w (owed p ra regs) (tm s2) /\
    (current_thread_id_ (tm s2) = w ->
       (exists c, current s2 = Some c /\ state c = RUNNING) /\ read_registers (ext (ms s2)) = regs /\ resumes w p ra regs s2).
Proof.
  intros Hok Hcpu Hp Hm Hl Hc Hq Hw Hd Hs Hptr Hret Hrg Hpc Hwf Hlr Hx0.
  assert (pthread_mutex_unlock p s = (0, unblock_thread_internal w
    (set_mutex p (m <| lock_count := 0 |> <| is_locked := false |> <| owner_thread := 0 |>
                    <| mutex_wait_queue := rest |>) s))) as ->.
  { unfold pthread_mutex_unlock. rewrite Hm, Hl, Hc. cbn. by rewrite Hq. }
  cbn [fst snd]. set (s1 := set_mutex _ _ _). destruct (unblock_spec w s1 d Hd Hs) as (Ht & Hrq & Hcu & Hms). split.
  - split_and!; try done.
    pose proof (blind_unblock _ (same_objects_blind (tm s1)) w s1) as (-> & _); [done|].
    cbn. rewrite lookup_insert_eq. done.
  - intros s2 Hrun. assert (Hwk : woken w p ra regs s2).
    { eapply handoff_woken; [done|exact Hrun|]. constructor.
      - apply unblock_sched_ok. by apply (sched_ok_same (tm s)).
      - by rewrite Hms.
      - eexists. split; [rewrite Ht; apply lookup_insert_eq|]. split_and!; [done..|by left].
      - rewrite Hcu. intros Ew. by destruct Hw. }
    split; [apply Hwk|]. intros Ew. destruct (wk_cur _ _ _ _ _ Hwk Ew) as [H1 H2]. split_and!; [done..|by apply woken_resumes].
Qed.

(** Exit and join. A thread that exits with [v] stays in the table until it
    is joined, and whoever joins it afterwards gets 0 and [v] at once and
    removes it; every blocked thread that was waiting to join it is ready. *)
Theorem exit_then_join v s c :
  sched_ok (tm s) -> current s = Some c -> state c <> BLOCKED -> detached c = false ->
  let t := current_thread_id_ (tm s) in
  let s' := pthread_exit v s in
  pthread_join t s' = (0, Some v, s' <| tm ::= fun x => x <| threads_ ::= delete t |> |>) /\
  (NoDup (join_wait_queue c) ->
   (forall k, k ∈ join_wait_queue c -> k <> t /\
      exists d, threads_ (tm s) !! k = Some d /\ state d = BLOCKED) ->
   forall k, k ∈ join_wait_queue c ->
     exists d, threads_ (tm s') !! k = Some d /\ (state d = RUNNABLE \/ state d = RUNNING)).
Proof.
  intros Hok Hc Hnb Hdet t s'. subst s'. unfold pthread_exit. rewrite Hc.
  set (f := fun c : ThreadContext => _). set (s1 := upd_current f s).
  pose proof (current_upd f s c Hc : current s1 = Some (f c)) as Hc1.
  assert (Hok1 : sched_ok (tm s1)) by (apply sched_ok_alter; [solve_tame|done]).
  destruct (unblock_all_keeps (join_wait_queue c) s1 t (f c) Hc1 ltac:(done)) as [Hc2 Ecur].
  set (s2 := unblock_all (join_wait_queue c) s1) in *.
  assert (Hok2 : sched_ok (tm s2)) by (by apply unblock_all_sched_ok).
  split.
  - destruct (switch_outgoing THREAD_EXIT s2 (f c)
      (fun d => state d = TERMINATED /\ return_value d = v /\ detached d = false))
      as (d & Hd & Hs & Hv & Hdt); try done.
    + unfold current. by rewrite Ecur.
    + by rewrite andb_false_r.
    + intros d [Hs|Hs] (Ht & _); congruence.
    + intros u d Hs (Ht & _). congruence.
    + change (threads_ (tm (context_switch THREAD_EXIT s2)) !! current_thread_id_ (tm s2) = Some d) in Hd.
      rewrite Ecur in Hd. change (current_thread_id_ (tm s1)) with t in Hd.
      unfold pthread_join. rewrite Hd, Hdt, (proj2 (is_state_spec _ _) Hs), Hv. done.
  - intros Hnd Hbl k Hk. destruct (Hbl k Hk) as [Hkt _].
    destruct (unblock_all_spec (join_wait_queue c) s1 Hnd) as (Hrun & _).
    { intros j Hj. destruct (Hbl j Hj) as (Hjt & d & Hd & Hs). exists d. split; [|done].
      cbn. rewrite lookup_alter_ne; [done|]. intros E0. by apply Hjt. }
    destruct (Hrun k Hk) as (d & Hd & Hs).
    apply (switch_other THREAD_EXIT s2 k (fun d => state d = RUNNABLE \/ state d = RUNNING));
      [done|by rewrite Ecur|naive_solver|naive_solver|]. exists d. auto.
Qed.

(** ** Thread-specific data *)

(** Thread-specific data: a value set under a key is what the same thread
    gets back, other keys and other threads are not affected, and deleting a
    key makes it read as 0 in every thread while other keys keep their values. *)
Theorem specific_data k v s u k' :
  let s1 := (pthread_setspecific k v s).2 in
  let as_thread u s := s <| tm ::= fun t => t <| current_thread_id_ := u |> |> in
  pthread_getspecific k s1 = v /\
  (k' <> k -> pthread_getspecific k' s1 = pthread_getspecific k' s) /\
  (u <> current_thread_id_ (tm s) ->
     pthread_getspecific k' (as_thread u s1) = pthread_getspecific k' (as_thread u s)) /\
  pthread_getspecific k (as_thread u (pthread_key_delete k s).2) = 0 /\
  (k' <> k -> pthread_getspecific k' (as_thread u (pthread_key_delete k s).2)
              = pthread_getspecific k' (as_thread u s)).
Proof.
  cbv zeta. unfold pthread_getspecific, pthread_setspecific, pthread_key_delete. cbn. split_and!.
  - rewrite lookup_insert_eq. by rewrite lookup_insert_eq.
  - intros Hk. rewrite lookup_insert_eq, lookup_insert_ne by congruence.
    by destruct (tls_data_ (tm s) !! _).
  - intros Hu. by rewrite lookup_insert_ne by congruence.
  - rewrite lookup_fmap. destruct (tls_data_ (tm s) !! u) as [m|]; cbn; [|done].
    by rewrite lookup_delete_eq.
  - intros Hk. rewrite lookup_fmap. destruct (tls_data_ (tm s) !! u) as [m|]; cbn; [|done].
    by rewrite lookup_delete_ne by congruence.
Qed.

(** ** Creating threads *)

Lemma write_uint_regions n a v s : regions_ (mm (ms (write_uint n a v s))) = regions_ (mm (ms s)).
Proof.
  cbn. unfold mem_write, host_write. destruct (use_qemu _); [destruct (rw_debug_write _ _ _) as [[] e]|];
    cbn; try done; by destruct (find_region _ _).
Qed.

Lemma mem_write_mm a bs m : mm (mem_write a bs m).2 = mm m.
Proof.
  unfold mem_write, host_write. destruct (use_qemu _); [destruct (rw_debug_write _ _ _) as [[] e]|];
    cbn; try done; by destruct (find_region _ _).
Qed.

Lemma zero_loop_mm fuel a n z o m : mm (zero_loop fuel a n z o m).2 = mm m.
Proof.
  revert o m; induction fuel as [|fuel IH]; intros o m; cbn; [done|].
  destruct (o <? n); [|done].
  pose proof (mem_write_mm (a ⊕ o) (replicate (Z.to_nat (Z.min (n ⊖ o) z)) 0) m) as Hw.
  destruct (mem_write _ _ m) as [[] m1]; cbn in *; [by rewrite IH|done].
Qed.

Lemma zero_guest_regions a n s : regions_ (mm (ms (zero_guest a n s))) = regions_ (mm (ms s)).
Proof.
  change (regions_ (mm (zero_ a n (ms s)).2) = regions_ (mm (ms s))). unfold zero_.
  by rewrite zero_loop_mm.
Qed.

Lemma mem_map_regions a n p nm m : exists l, regions_ (mm (mem_map a n p nm m).2) = regions_ (mm m) ++ l /\
  ((mem_map a n p nm m).1 = true -> exists r, r ∈ l /\ r_address r = a /\ r_size r = n).
Proof.
  unfold mem_map. destruct (host_mmap n (ext m)) as [[hp|] e]; [|exists []; by rewrite app_nil_r].
  eexists [_]. cbn. destruct (qemu_ready_ (mm m)); [destruct (target_mmap _ _ _ _)|]; cbn;
    (split; [reflexivity|]; intros _; eexists; split; [by left|done]).
Qed.

Lemma tls_regions s : exists l, regions_ (mm (ms (allocate_thread_tls s).2)) = regions_ (mm (ms s)) ++ l.
Proof.
  unfold allocate_thread_tls. cbn.
  match goal with |- context [mem_map ?a ?n ?p ?x ?m] =>
    destruct (mem_map_regions a n p x m) as (l & Hl & _); destruct (mem_map a n p x m) as [[] m1] end;
    cbn [snd] in *; exists l; rewrite <- Hl; [|done].
  by rewrite 2!write_uint_regions, zero_guest_regions, 2!write_uint_regions.
Qed.

(** The stack of a new thread: 0, or 256 bytes below the top of a new region. *)
Lemma stack_spec s : 0 <= next_stack_index_ (tm s) < 2 ^ 40 ->
  (allocate_thread_stack s).1 = 0 \/
  exists r, r ∈ regions_ (mm (ms (allocate_thread_stack s).2)) /\ r_size r = THREAD_STACK_SIZE /\
    (allocate_thread_stack s).1 = r_address r + THREAD_STACK_SIZE - 0x100.
Proof.
  intros Hi. unfold allocate_thread_stack. cbn.
  set (a := THREAD_STACK_BASE ⊕ (next_stack_index_ (tm s) ⊗ THREAD_STACK_SIZE)).
  assert (Ea : a = THREAD_STACK_BASE + next_stack_index_ (tm s) * THREAD_STACK_SIZE).
  { unfold a. rewrite (u64_small (_ * _)), u64_small; unfold THREAD_STACK_BASE, THREAD_STACK_SIZE; u64_lia. }
  destruct (mem_map_regions a THREAD_STACK_SIZE (Z.lor MEM_READ MEM_WRITE) "ThreadStack" (ms s)) as (l & Hl & Hr).
  destruct (mem_map a _ _ _ (ms s)) as [[] m1]; cbn [fst snd] in *; [right|by left].
  destruct (Hr eq_refl) as (r & Hin & Ha & Hsz). exists r.
  split_and!; [change (r ∈ regions_ (mm m1)); rewrite Hl; set_solver|done|].
  rewrite Ha, (u64_small (a + _)), u64_small; unfold THREAD_STACK_BASE, THREAD_STACK_SIZE in *; u64_lia.
Qed.

(** A new thread. [pthread_create] always reports success, puts a runnable
    thread under the next id at the front of the queue and leaves all other
    threads alone.  The thread will start at its routine with its argument in
    X0, return into the thread-exit address, and find its thread pointer in
    TPIDR_EL0 and X18; its stack pointer is either 0, when the stack could not
    be mapped, or lies 256 bytes below the top of a mapped stack region. *)
Theorem create_thread ptr attr start arg s :
  0 <= next_stack_index_ (tm s) < 2 ^ 40 ->
  let id := next_thread_id_ (tm s) in
  let s' := (pthread_create ptr attr start arg s).2 in
  (pthread_create ptr attr start arg s).1 = 0 /\
  runnable_queue_ (tm s') = id :: runnable_queue_ (tm s) /\
  exists c, threads_ (tm s') = <[id := c]> (threads_ (tm s)) /\ thread_id c = id /\
    state c = RUNNABLE /\ rpc (registers c) = start /\ rx (registers c) !! 0%nat = Some arg /\
    rx (registers c) !! 30%nat = Some ADDR_THREAD_EXIT /\ rlr (registers c) = ADDR_THREAD_EXIT /\
    rtpidr_el0 (registers c) = tls_base c /\ rx (registers c) !! 18%nat = Some (tls_base c) /\
    rsp (registers c) = stack_base c /\
    (stack_base c = 0 \/ exists r, r ∈ regions_ (mm (ms s')) /\ r_size r = THREAD_STACK_SIZE /\
       stack_base c = r_address r + THREAD_STACK_SIZE - 0x100).
Proof.
  intros Hi id s'. subst s'. unfold pthread_create, allocate_thread_id. fold id.
  set (s1 := s <| tm ::= _ |>).
  destruct (stack_tm s1) as [(Et & Eq & _) _].
  pose proof (stack_spec s1 Hi) as Hstk.
  destruct (allocate_thread_stack s1) as [stk s2]. cbn [fst snd] in *.
  destruct (tls_tm s2) as [(Et2 & Eq2 & _) _]. destruct (tls_regions s2) as (l & Hl).
  destruct (allocate_thread_tls s2) as [tls s3]. cbn [fst snd] in *.
  destruct (now s3) as [tn s4] eqn:Hn. pose proof (now_tm s3) as E4. rewrite Hn in E4. cbn in E4.
  assert (Er4 : regions_ (mm (ms s4)) = regions_ (mm (ms s3))).
  { unfold now in Hn. destruct (steady_now _). by injection Hn as <- <-. }
  set (s5 := if plausible_ptr ptr then _ else s4).
  assert (H5 : tm s5 = tm s4 /\ regions_ (mm (ms s5)) = regions_ (mm (ms s4))).
  { subst s5. destruct (plausible_ptr ptr); [|done]. split; [done|apply write_uint_regions]. }
  destruct H5 as [E5 Er5]. cbn [fst snd]. split; [done|]. split.
  { cbn. rewrite E5, E4, Eq2, Eq. done. }
  eexists. split; [cbn; rewrite E5, E4, Et2, Et; reflexivity|]. split_and!; try done. cbn.
  destruct Hstk as [->|(r & Hr & ? & ?)]; [by left|right]. exists r. split_and!; [|done..].
  rewrite Er5, Er4, Hl. set_solver.
Qed.

(** ** Read-write locks *)

(** Taking a lock nobody holds, and taking one's own lock again. *)
Lemma wrlock_first f p s n :
  f = pthread_rwlock_trywrlock /\ n = 0 \/ f = pthread_rwlock_wrlock /\ n = 1 ->
  rwlocks_ (tm s) !! p = None -> current_thread_id_ (tm s) <> 0 ->
  rwlocks_ (tm (f p s).2) !! p
    = Some (new_rwlock <| writer := current_thread_id_ (tm s) |> <| write_count := n |>) /\
  current_thread_id_ (tm (f p s).2) = current_thread_id_ (tm s).
Proof.
  intros Hf Hp Hc. destruct Hf as [[-> ->]|[-> ->]].
  - unfold pthread_rwlock_trywrlock, rwlock_or_init. rewrite Hp. cbn. by rewrite lookup_insert_eq.
  - unfold pthread_rwlock_wrlock, rwlock_or_init. rewrite Hp. cbn [default].
    change (writer new_rwlock) with 0. rewrite (proj2 (Z.eqb_neq 0 _)) by congruence. cbn.
    by rewrite lookup_insert_eq.
Qed.

Lemma wrlock_again p s l : rwlocks_ (tm s) !! p = Some l -> writer l = current_thread_id_ (tm s) ->
  rwlocks_ (tm (pthread_rwlock_wrlock p s).2) !! p = Some (l <| write_count := write_count l + 1 |>) /\
  current_thread_id_ (tm (pthread_rwlock_wrlock p s).2) = current_thread_id_ (tm s).
Proof.
  intros Hl Hw. unfold pthread_rwlock_wrlock, rwlock_or_init. rewrite Hl.
  cbn [default from_option id]. rewrite (proj2 (Z.eqb_eq _ _) Hw). cbn. by rewrite lookup_insert_eq.
Qed.

(** A write lock taken by [pthread_rwlock_trywrlock] is not counted: locking it
    once more and unlocking once releases it, although the thread still holds
    it once.  The same three calls starting with [pthread_rwlock_wrlock] leave
    the lock held. *)
Theorem trywrlock_not_counted p s :
  rwlocks_ (tm s) !! p = None -> current_thread_id_ (tm s) <> 0 ->
  let cur := current_thread_id_ (tm s) in
  let after first := (pthread_rwlock_unlock p (pthread_rwlock_wrlock p (first p s).2).2).2 in
  (exists l, rwlocks_ (tm (after pthread_rwlock_trywrlock)) !! p = Some l /\ writer l = 0) /\
  (exists l, rwlocks_ (tm (after pthread_rwlock_wrlock)) !! p = Some l /\
     writer l = cur /\ write_count l = 1).
Proof.
  intros Hp Hc cur after. subst after. cbv beta.
  destruct (wrlock_first pthread_rwlock_trywrlock p s 0) as [H1 C1]; [by left|done..|].
  destruct (wrlock_first pthread_rwlock_wrlock p s 1) as [H2 C2]; [by right|done..|].
  destruct (wrlock_again p _ _ H1) as [H3 C3]; [by rewrite C1|].
  destruct (wrlock_again p _ _ H2) as [H4 C4]; [by rewrite C2|].
  unfold pthread_rwlock_unlock. rewrite H3, H4. cbn [writer write_count].
  rewrite C3, C4, C1, C2. cbn. rewrite !Z.eqb_refl. change (1 <? 0 + 1) with false. change (1 <? 1 + 1) with true.
  cbn. rewrite !lookup_insert_eq. split; (eexists; split; [reflexivity|done]).
Qed.

(** A thread that blocks on a read lock does not keep the resume address the
    code sets for it: the context switch does not recognise read-write lock
    waits and overwrites it, so the saved registers, PC included, are the CPU's
    at the time of the call, and the thread will not run
    [pthread_rwlock_rdlock_resume] when it is scheduled again. *)
Theorem rdlock_resume_pc_lost p s c l :
  sched_ok (tm s) -> current s = Some c ->
  rwlocks_ (tm s) !! p = Some l -> writer l <> 0 ->
  mutex_wait_ptr c = 0 -> cond_wait_mutex c = 0 -> join_target_thread c = 0 ->
  barrier_wait_ptr c = 0 -> futex_wait_addr c = 0 ->
  (pthread_rwlock_rdlock p s).1 = CONTEXT_SWITCH_OCCURRED /\
  exists d, threads_ (tm (pthread_rwlock_rdlock p s).2) !! current_thread_id_ (tm s) = Some d /\
    state d = BLOCKED /\ rwlock_rdlock_ptr d = p /\ registers d = read_registers (ext (ms s)).
Proof.
  intros Hok Hc Hl Hw H1 H2 H3 H4 H5. unfold pthread_rwlock_rdlock, rwlock_or_init. rewrite Hl. cbn [default from_option id].
  rewrite (proj2 (Z.eqb_neq _ _) Hw). cbn [fst snd]. split; [done|]. unfold wait_for_read.
  set (s1 := set_rwlock_obj p l s). set (s2 := set_rwlock_obj p _ s1).
  match goal with |- context [upd_current ?g s2] => set (f := g) end. set (s3 := upd_current f s2).
  set (s4 := block_current_thread BLOCKED p s3).
  pose proof (current_upd f s2 c Hc : current s3 = Some (f c)) as Hc3.
  pose proof (current_upd (fun c => c <| ThreadTypes.state := BLOCKED |>
    <| blocked_on_resource := p |>) s3 _ Hc3 : current s4 = Some _) as Hc4.
  assert (Hok4 : sched_ok (tm s4)).
  { apply sched_ok_alter; [solve_tame|]. apply sched_ok_alter; [solve_tame|].
    by apply (sched_ok_same (tm s)). }
  destruct (blocked_switch s4 _ Hok4 Hc4 eq_refl) as (d & Hd & Hs & Hrg & Hwi).
  exists d. split; [exact Hd|]. split; [done|]. unfold wait_info in Hwi. cbn in Hwi.
  injection Hwi as _ _ _ _ _ _ _ _ _ -> _. split; [done|]. rewrite Hrg.
  unfold saved_registers, has_resume_pc, is_state. cbn. by rewrite H1, H2, H3, H4, H5.
Qed.

End Calls.


(** * The hypotheses hold at concrete states

    Three threads: 1 runs, 4096 and 4098 are not ready, and each test below adds
    the objects it needs. *)

Definition demo_waiter (st : ThreadState) : ThreadContext :=
  new_context <| thread_id := 4096 |> <| ThreadTypes.state := st |>.
Definition demo_state (st : ThreadState) : tstate (E := RefEnv) :=
  {| tm := tm_init <| main_thread_id_ := 1 |> <| current_thread_id_ := 1 |>
             <| threads_ := <[4098 := new_context <| thread_id := 4098 |> <| ThreadTypes.state := BLOCKED |>]>
                              (<[4096 := demo_waiter st]>
                              {[ 1 := new_context <| thread_id := 1 |> <| ThreadTypes.state := RUNNING |>
                                        <| join_wait_queue := [4096] |> ]}) |>;
     ms := demo_mem; in_hle := false |}.
Definition demo_mutex : EmulatedMutex :=
  new_mutex <| is_locked := true |> <| owner_thread := 4098 |> <| lock_count := 1 |>
            <| mutex_wait_queue := [4096] |>.
Definition demo_barrier : EmulatedBarrier :=
  new_barrier <| barrier_count := 2 |> <| waiting := 1 |> <| barrier_wait_queue := [4096] |>.
Definition demo_objects (st : ThreadState) : tstate (E := RefEnv) :=
  set_barrier_obj 0x300 demo_barrier (set_cond 0x200 [4096; 4098]
    (set_rwlock_obj 0x400 (new_rwlock <| writer := 4098 |>) (set_mutex 0x100 demo_mutex (demo_state st)))).

Lemma demo_objects_ok st : st <> RUNNABLE -> st <> RUNNING -> all_ok (tm (demo_objects st)).
Proof.
  intros H1 H2. split.
  - constructor; cbn; intros k c;
      rewrite !lookup_insert_Some, lookup_singleton_Some;
      intros [[<- <-]|[_ [[<- <-]|[_ [<- <-]]]]]; cbn; congruence.
  - constructor; cbn; intros p x [[<- <-]|[_ Hx]]%lookup_insert_Some; try (by rewrite lookup_empty in Hx);
      repeat split; cbn; try done.
Qed.

Lemma pthread_invariant_witness : exists x,
  mutexes_ (tm (foldl exec (new_tm demo_mem false) [MutexLock 0x100; BarInit 0x300 2])) !! 0x100 = Some x /\
  mutex_ok x.
Proof.
  exists (acquired 1 new_mutex). split; [vm_compute; reflexivity|].
  refine (proj1 (proj2 (pthread_invariant demo_mem false [MutexLock 0x100; BarInit 0x300 2] _)) 0x100 _ _);
    [repeat constructor; cbn; lia|vm_compute; reflexivity].
Defined.

Lemma mutex_lock_cases_witness :
  (pthread_mutex_lock 0x100 (demo_objects BLOCKED)).1 = CONTEXT_SWITCH_OCCURRED.
Proof.
  refine (proj1 (proj2 (proj2 (mutex_lock_cases 0x100 (demo_objects BLOCKED) _ _ eq_refl _)) eq_refl _));
    [by apply demo_objects_ok|done|done].
Defined.

(** Thread 4096 waits for the mutex; thread 1 releases it and yields. *)
Definition demo_regs : RegisterState := zero_registers <| rpc := ADDR_MUTEX_RESUME |>.
Definition wait_for_mutex (c : ThreadContext) : ThreadContext :=
  c <| mutex_wait_ptr := 0x100 |> <| mutex_wait_return_addr := 0x400100 |> <| registers := demo_regs |>.
Definition demo_handoff : tstate (E := RefEnv) := upd_thread 4096 wait_for_mutex (demo_objects BLOCKED).
Definition demo_released : tstate (E := RefEnv) := (pthread_mutex_unlock 0x100 demo_handoff).2.

Lemma demo_handoff_ok : sched_ok (tm demo_handoff).
Proof. apply sched_ok_alter; [solve_tame|]. by apply demo_objects_ok. Qed.

Lemma demo_regs_wf : regs_wf demo_regs.
Proof. constructor; try done. intros i v [-> _]%lookup_replicate. cbn. unfold ref_trunc. by destruct (_ || _). Qed.

Lemma mutex_handoff_witness :
  let s2 := context_switch THREAD_YIELD demo_released in
  current_thread_id_ (tm s2) = 4096 /\ read_registers (ext (ms s2)) = demo_regs /\ mutexes_ (tm (pthread_mutex_lock_resume s2)) !! 0x100 = Some (acquired 4096 new_mutex).
Proof.
  set (s2 := context_switch THREAD_YIELD demo_released). assert (Ew : current_thread_id_ (tm s2) = 4096) by (vm_compute; reflexivity).
  destruct (mutex_handoff 0x100 demo_handoff demo_mutex 4096 [] (wait_for_mutex (demo_waiter BLOCKED)) 0x400100 demo_regs) as [_ H];
    [apply demo_handoff_ok|vm_compute; reflexivity|done|vm_compute; reflexivity|done|done|done|vm_compute; discriminate|vm_compute; reflexivity|done|done|done|done|done|apply demo_regs_wf|done|done|].
  destruct (H s2) as [_ Hrun]; [apply (hr_switch 4096 THREAD_YIELD); [vm_compute; reflexivity|apply hr_done]|]. destruct (Hrun Ew) as (_ & Hrg & Hres).
  split_and!; [exact Ew|exact Hrg|]. unfold resumes in Hres. assert (Hm : mutexes_ (tm s2) !! 0x100 = Some new_mutex) by (vm_compute; reflexivity).
  rewrite Hm in Hres. apply Hres.
Defined.

Lemma cond_wait_blocks_witness :
  cond_queue 0x200 (pthread_cond_wait 0x200 0x100 (demo_objects BLOCKED)).2 = [4096; 4098; 1].
Proof.
  refine (proj1 (proj2 (cond_wait_blocks 0x200 0x100 (demo_objects BLOCKED) _ _ eq_refl _ _)));
    [by apply demo_objects_ok|done|done].
Defined.

Lemma cond_wakeups_witness :
  runnable_queue_ (tm (pthread_cond_broadcast 0x200 (demo_objects BLOCKED)).2) = [4096; 4098].
Proof.
  refine (proj2 (proj2 (proj2 (proj2 (cond_wakeups 0x200 (demo_objects BLOCKED)) _ _)))).
  - by apply (bool_decide_unpack _).
  - change (cond_queue 0x200 (demo_objects BLOCKED)) with [4096; 4098].
    intros k [->|[->|[]%elem_of_nil]%elem_of_cons]%elem_of_cons; eexists; (split; [reflexivity|done]).
Defined.

Lemma cond_signal_timed_lost_witness :
  runnable_queue_ (tm (pthread_cond_signal 0x200 (demo_objects SLEEPING)).2) = [].
Proof. by apply (cond_signal_timed_lost 0x200 (demo_objects SLEEPING) 4096 [4098] (demo_waiter SLEEPING)). Defined.

Lemma barrier_wait_cases_witness :
  (pthread_barrier_wait 0x300 (demo_objects BLOCKED)).1 = PTHREAD_BARRIER_SERIAL_THREAD.
Proof.
  refine (proj1 (proj1 (barrier_wait_cases 0x300 (demo_objects BLOCKED) _ demo_barrier _ eq_refl _ eq_refl)
                   eq_refl _ _)); [by apply demo_objects_ok|done| |].
  - by apply (bool_decide_unpack _).
  - intros k [->|[]%elem_of_nil]%elem_of_cons. by exists (demo_waiter BLOCKED).
Defined.

Lemma exit_then_join_witness :
  let s' := pthread_exit 7 (demo_objects BLOCKED) in
  pthread_join 1 s' = (0, Some 7, s' <| tm ::= fun x => x <| threads_ ::= delete 1 |> |>) /\
  exists d, threads_ (tm s') !! 4096 = Some d /\ (state d = RUNNABLE \/ state d = RUNNING).
Proof.
  destruct (exit_then_join 7 (demo_objects BLOCKED)
    (new_context <| thread_id := 1 |> <| ThreadTypes.state := RUNNING |> <| join_wait_queue := [4096] |>))
    as [H1 H2]; [by apply demo_objects_ok|reflexivity|done|reflexivity|].
  split; [exact H1|]. apply H2; [by apply (bool_decide_unpack _)| |by left].
  intros k [->|[]%elem_of_nil]%elem_of_cons. split; [done|]. exists (demo_waiter BLOCKED). split; reflexivity.
Defined.

Lemma create_thread_witness : (pthread_create 0x500 0 0x1000 5 (demo_objects BLOCKED)).1 = 0.
Proof. apply (create_thread 0x500 0 0x1000 5 (demo_objects BLOCKED)). cbn. lia. Defined.

Lemma trywrlock_not_counted_witness : exists l,
  rwlocks_ (tm (pthread_rwlock_unlock 0x500 (pthread_rwlock_wrlock 0x500
    (pthread_rwlock_trywrlock 0x500 (demo_objects BLOCKED)).2).2).2) !! 0x500 = Some l /\ writer l = 0.
Proof. by apply (trywrlock_not_counted 0x500 (demo_objects BLOCKED)). Defined.

Lemma rdlock_resume_pc_lost_witness :
  (pthread_rwlock_rdlock 0x400 (demo_objects BLOCKED)).1 = CONTEXT_SWITCH_OCCURRED.
Proof.
  refine (proj1 (rdlock_resume_pc_lost 0x400 (demo_objects BLOCKED) _ (new_rwlock <| writer := 4098 |>)
    _ eq_refl eq_refl _ eq_refl eq_refl eq_refl eq_refl eq_refl)); [by apply demo_objects_ok|done].
Defined.
