(* ===== verification/Machine.v ===== *)
(** The machine the emulation of libc and the loader work on, as an interface:
    guest bytes behind [Emulator::mem_read]/[mem_write] and the general
    registers behind [get_reg]/[set_reg].

    [Machine] names the four operations.  [MemLaws] is what the memory manager
    promises its clients: on mapped ranges, memory is a map from addresses to
    bytes.  [RegFileLaws] is the same for registers.  The instances at the end
    discharge both for [mstate], before QEMU is ready and after. *)

From S2P Require Import Prelude Env MemoryManager MemorySpec.

Class Machine (S : Type) := {
  gread : Z -> Z -> S -> option (list Z);
  gwrite : Z -> list Z -> S -> bool * S;
  getr : Z -> S -> Z;
  putr : Z -> Z -> S -> S;
}.

(** [bs] lies at [a] in a byte map. *)
Definition holds_at (f : Z -> option Z) (a : Z) (bs : list Z) : Prop :=
  forall i b, bs !! i = Some b -> f (a + Z.of_nat i) = Some b.

(** A byte map after [bs] was stored at [a]. *)
Definition stored (f : Z -> option Z) (a : Z) (bs : list Z) (x : Z) : option Z :=
  if decide (a <= x < a + Z.of_nat (length bs)) then bs !! Z.to_nat (x - a) else f x.

Class MemLaws (S : Type) `{!Machine S} := {
  (** The invariant of the implementation, the ranges that are memory, and the
      byte at an address. *)
  mem_ok : S -> Prop;
  mapped : Z -> Z -> S -> Prop;
  byte_at : S -> Z -> option Z;
  mapped_range a n s : mem_ok s -> mapped a n s -> 0 <= a /\ a + n < two64;
  mapped_sub a n b m s : mapped a n s -> 0 < m -> a <= b -> b + m <= a + n -> mapped b m s;
  gread_mapped a n s : mem_ok s -> mapped a n s -> 0 < n ->
    exists bs, gread a n s = Some bs /\ length bs = Z.to_nat n /\ holds_at (byte_at s) a bs;
  gwrite_mapped a bs s : mem_ok s -> mapped a (Z.of_nat (length bs)) s -> bs <> [] ->
    exists s', gwrite a bs s = (true, s') /\ mem_ok s' /\
      (forall b m, mapped b m s' <-> mapped b m s) /\
      (forall x, byte_at s' x = stored (byte_at s) a bs x);
}.

Class RegFileLaws (S : Type) `{!Machine S, !MemLaws S} := {
  cpu_ok : S -> Prop;
  fits : Z -> Z -> Prop;
  getr_putr r v s : cpu_ok s -> fits r v -> getr r (putr r v s) = v;
  getr_putr_ne r r' v s : r <> r' -> getr r (putr r' v s) = getr r s;
  getr_gwrite r a bs s : getr r (gwrite a bs s).2 = getr r s;
  cpu_putr r v s : cpu_ok s -> cpu_ok (putr r v s);
  cpu_gwrite a bs s : cpu_ok s -> cpu_ok (gwrite a bs s).2;
  ok_putr r v s : mem_ok s -> mem_ok (putr r v s);
  mapped_putr r v a n s : mapped a n (putr r v s) <-> mapped a n s;
  byte_putr r v x s : byte_at (putr r v s) x = byte_at s x;
}.

(** * Byte maps *)

Lemma stored_in f a bs i b : bs !! i = Some b -> stored f a bs (a + Z.of_nat i) = Some b.
Proof.
  intros H. unfold stored. pose proof (lookup_lt_Some _ _ _ H).
  rewrite decide_True by lia. by replace (Z.to_nat (a + Z.of_nat i - a)) with i by lia.
Qed.

Lemma stored_out f a bs x : ~ (a <= x < a + Z.of_nat (length bs)) -> stored f a bs x = f x.
Proof. intros H. unfold stored. by rewrite decide_False. Qed.

Lemma holds_stored f a bs : holds_at (stored f a bs) a bs.
Proof. intros i b Hb. by apply stored_in. Qed.

Lemma holds_stored_disj f a bs b cs : disj a (Z.of_nat (length bs)) b (Z.of_nat (length cs)) ->
  holds_at f b cs -> holds_at (stored f a bs) b cs.
Proof.
  intros Hd H i x Hx. pose proof (lookup_lt_Some _ _ _ Hx). unfold disj in Hd.
  rewrite stored_out by lia. by apply H.
Qed.

Lemma holds_at_eq f a bs cs : length bs = length cs -> holds_at f a bs -> holds_at f a cs -> bs = cs.
Proof.
  intros Hl Hb Hc. apply list_eq. intros i. destruct (bs !! i) as [b|] eqn:E.
  - destruct (lookup_lt_is_Some_2 cs i) as [c Ec].
    { rewrite <- Hl. by eapply lookup_lt_Some. }
    rewrite Ec. apply Hb in E. apply Hc in Ec. congruence.
  - symmetry. apply lookup_ge_None in E. apply lookup_ge_None. lia.
Qed.

Lemma holds_at_app f a bs cs :
  holds_at f a (bs ++ cs) <-> holds_at f a bs /\ holds_at f (a + Z.of_nat (length bs)) cs.
Proof.
  split.
  - intros H. split.
    + intros i b Hb. apply H. by apply lookup_app_l_Some.
    + intros i b Hb. rewrite <- (H (length bs + i)%nat b).
      * f_equal. lia.
      * rewrite lookup_app_r by lia. by replace (length bs + i - length bs)%nat with i by lia.
  - intros [H1 H2] i b [Hb|[Hi Hb]]%lookup_app_Some; [by apply H1|].
    rewrite <- (H2 _ _ Hb). f_equal. lia.
Qed.

Lemma holds_at_ext f g a bs :
  (forall x, a <= x < a + Z.of_nat (length bs) -> f x = g x) -> holds_at f a bs -> holds_at g a bs.
Proof.
  intros H Hf i b Hb. rewrite <- H; [by apply Hf|]. apply lookup_lt_Some in Hb. lia.
Qed.

Lemma holds_at_bytes f a bs x : holds_at f a bs -> a <= x < a + Z.of_nat (length bs) ->
  f x = bs !! Z.to_nat (x - a).
Proof.
  intros H Hx. destruct (lookup_lt_is_Some_2 bs (Z.to_nat (x - a))) as [b Hb]; [lia|].
  rewrite Hb, <- (H _ _ Hb). f_equal. lia.
Qed.

Section Client.
Context {S : Type} `{M : !Machine S, L : !MemLaws S}.

(** A read of a mapped range whose bytes are known. *)
Lemma gread_holds a bs s : mem_ok s -> mapped a (Z.of_nat (length bs)) s -> bs <> [] ->
  holds_at (byte_at s) a bs -> gread a (Z.of_nat (length bs)) s = Some bs.
Proof.
  intros Hok Hm Hne Hh. assert (0 < Z.of_nat (length bs)) by (destruct bs; [done|simpl; lia]).
  destruct (gread_mapped a _ s Hok Hm) as (cs & -> & Hl & Hc); [done|].
  f_equal. eapply holds_at_eq; [lia|done..].
Qed.

(** The 64-bit word at [a]. *)
Definition word_at (s : S) (a v : Z) : Prop := holds_at (byte_at s) a (le_bytes 8 v).

End Client.

(** * The implementation *)

(** What registers and debug accesses to guest memory have to do with each
    other, and which guest pages are accessible: a debug access to accessible
    pages succeeds, and neither register writes nor debug writes change what is
    accessible. *)
Class CpuMemLaws (E : Env) := {
  page_ok : Z -> Z -> env -> Prop;
  page_range a n e : page_ok a n e -> 0 <= a /\ a + n < two64;
  page_sub a n b m e : page_ok a n e -> 0 < m -> a <= b -> b + m <= a + n -> page_ok b m e;
  page_read a n e : page_ok a n e -> 0 < n ->
    exists bs, rw_debug_read a n e = Some bs /\ length bs = Z.to_nat n;
  page_write a bs e : page_ok a (Z.of_nat (length bs)) e -> (rw_debug_write a bs e).1 = true;
  page_rw_write a bs b m e : page_ok b m (rw_debug_write a bs e).2 <-> page_ok b m e;
  page_write_reg r v a n e : page_ok a n (write_reg r v e) <-> page_ok a n e;
  rw_read_write_reg r v a n e : rw_debug_read a n (write_reg r v e) = rw_debug_read a n e;
  read_reg_rw_write r a bs e : read_reg r (rw_debug_write a bs e).2 = read_reg r e;
}.

#[export] Instance RefCpuMemLaws : CpuMemLaws RefEnv.
Proof.
  refine {| page_ok a n (e : @env RefEnv) :=
              ref_accessible (ref_mem e) a (Z.to_nat n) = true /\ 0 <= a /\ a + n < two64 |}; cbn.
  - tauto.
  - intros a n b m e (H & ? & ?) ???. split_and!; [|lia..].
    apply ref_accessible_spec. intros x Hx. apply (proj1 (ref_accessible_spec _ _ _) H). lia.
  - intros a n e (-> & _) _. eexists. split; [done|]. apply length_ref_load.
  - intros a bs e (H & _). rewrite Nat2Z.id in H. by rewrite H.
  - intros a bs b m e. destruct (ref_accessible (ref_mem e) a _) eqn:Ha; [|done]. cbn.
    rewrite !ref_accessible_spec. rewrite ref_accessible_spec in Ha.
    assert (forall x, is_Some (ref_store (ref_mem e) a bs !! x) <-> is_Some (ref_mem e !! x)) as Hx.
    { intros x. rewrite lookup_ref_store. destruct (decide _) as [Hin|]; [|done].
      split; intros _; [by apply Ha|]. apply lookup_lt_is_Some_2. lia. }
    split; intros (H & ? & ?); (split; [|done]); intros x ?; apply Hx; auto.
  - done.
  - done.
  - intros r a bs e. by destruct (ref_accessible _ _ _).
Defined.

Section Instances.
Context {E : Env}.
Implicit Types s : mstate.

(** [Emulator::mem_read] and [mem_write] forward to the memory manager. *)
#[export] Instance mstate_machine : Machine mstate := {|
  gread := mem_read;
  gwrite := mem_write;
  getr r s := get_reg r (ext s);
  putr r v s := s <| ext ::= set_reg r v |>;
|}.

(** Before QEMU is ready the mapped ranges are those inside a region; after, the
    accessible guest pages. *)
Definition mem_mapped `{!CpuMemLaws E} (a n : Z) s : Prop :=
  if use_qemu s then page_ok a n (ext s)
  else exists r, r ∈ regions_ (mm s) /\ inside a n r.

Definition mem_byte s (x : Z) : option Z :=
  if decide (0 <= x < two64 - 1)
  then match mem_read x 1 s with Some [b] => Some b | _ => None end
  else None.

Context `{!GuestMemLaws E, !CpuMemLaws E}.

Lemma use_qemu_rw s a bs e' b : use_qemu s = b -> (rw_debug_write a bs (ext s)).2 = e' ->
  use_qemu (s <| ext := e' |>) = b.
Proof. intros H <-. unfold use_qemu in *. cbn. by rewrite has_cpu_rw_write. Qed.

(** Host reads byte by byte. *)
Lemma host_read_byte s r a n i :
  regions_wf (regions_ (mm s)) -> r ∈ regions_ (mm s) -> inside a n r -> (Z.of_nat i < n) ->
  host_read (a + Z.of_nat i) 1 s = Some [hmem s (host_addr r a ⊕ Z.of_nat i)].
Proof.
  intros Hwf Hr Hin Hi. pose proof (regions_ok _ _ Hwf Hr) as Hok.
  assert (Hin' : inside (a + Z.of_nat i) 1 r) by (destruct Hin; split; lia).
  rewrite (host_read_inside s r) by (done || lia).
  destruct (host_addr_inside r a n Hok ltac:(lia) Hin) as (E1 & ? & ?).
  destruct (host_addr_inside r (a + Z.of_nat i) 1 Hok ltac:(lia) Hin') as (E2 & ? & ?).
  pose proof (rok_host _ Hok). pose proof (rok_host_top _ Hok).
  unfold host_load. change (Z.to_nat 1) with 1%nat. cbn [seq map]. do 3 f_equal. change (Z.of_nat 0) with 0. rewrite !u64_small by u64_lia. lia.
Qed.

Lemma gread_mapped_mem a n s : regions_wf (regions_ (mm s)) -> mem_mapped a n s -> 0 < n ->
  exists bs, mem_read a n s = Some bs /\ length bs = Z.to_nat n /\ holds_at (mem_byte s) a bs.
Proof.
  intros Hwf Hm Hn. unfold mem_mapped in Hm. destruct (use_qemu s) eqn:Hq.
  - destruct (page_read a n _ Hm Hn) as (bs & Hb & Hl). exists bs.
    pose proof (page_range _ _ _ Hm). unfold mem_read. rewrite Hq, Hb. split_and!; [done..|].
    intros i b Hi. pose proof (lookup_lt_Some _ _ _ Hi). unfold mem_byte.
    rewrite decide_True by lia. unfold mem_read. rewrite Hq.
    rewrite (rw_read_sub a n _ _ _ _ Hb) by lia. cbn.
    replace (Z.to_nat (a + Z.of_nat i - a)) with i by lia. change (Z.to_nat 1) with 1%nat.
    by rewrite (drop_S _ _ _ Hi).
  - destruct Hm as (r & Hr & Hin). pose proof (regions_ok _ _ Hwf Hr) as Hok.
    exists (host_load (hmem s) (host_addr r a) n). unfold mem_read. rewrite Hq.
    rewrite (host_read_inside s r) by done. split_and!; [done|apply length_host_load|].
    intros i b Hi. pose proof (lookup_lt_Some _ _ _ Hi) as Hlt. rewrite length_host_load in Hlt.
    rewrite lookup_host_load in Hi by done. injection Hi as <-. unfold mem_byte.
    assert (r_address r <= a) by apply Hin. assert (a + n <= r_address r + r_size r) by apply Hin.
    pose proof (rok_addr _ Hok). pose proof (rok_top _ Hok). rewrite decide_True by lia.
    unfold mem_read. rewrite Hq.
    rewrite (host_read_byte s r a n i Hwf Hr) by (done || lia). done.
Qed.

Lemma gwrite_mapped_mem a bs s : regions_wf (regions_ (mm s)) ->
  mem_mapped a (Z.of_nat (length bs)) s -> bs <> [] ->
  exists s', mem_write a bs s = (true, s') /\ regions_wf (regions_ (mm s')) /\
    (forall b m, mem_mapped b m s' <-> mem_mapped b m s) /\
    (forall x, mem_byte s' x = stored (mem_byte s) a bs x).
Proof.
  intros Hwf Hm Hne. assert (Hlen : 0 < Z.of_nat (length bs)) by (destruct bs; [done|simpl; lia]).
  assert (Hs' : exists s', mem_write a bs s = (true, s') /\ mm s' = mm s /\ use_qemu s' = use_qemu s /\
    (forall b m, mem_mapped b m s' <-> mem_mapped b m s) /\
    0 <= a /\ a + Z.of_nat (length bs) < two64 /\
    (forall x, 0 <= x < two64 - 1 -> ~ (a <= x < a + Z.of_nat (length bs)) ->
       mem_read x 1 s' = mem_read x 1 s)).
  { unfold mem_mapped, mem_write, mem_read in *. destruct (use_qemu s) eqn:Hq.
    - pose proof (page_write _ _ _ Hm) as Hw. pose proof (page_range _ _ _ Hm) as [? ?].
      destruct (rw_debug_write a bs (ext s)) as [ok e1] eqn:Hrw. cbn in Hw. subst ok.
      assert (Hq' : use_qemu (s <| ext := e1 |>) = true)
        by (eapply use_qemu_rw; [done|by rewrite Hrw]).
      eexists. split; [done|]. rewrite Hq'. split_and!; try done.
      + intros b m. cbn. pose proof (page_rw_write a bs b m (ext s)) as H'. by rewrite Hrw in H'.
      + intros x Hx Hd. cbn. rewrite (rw_read_write_disj a bs x 1 _ _ _ Hrw); [done|].
        unfold disj. lia.
    - destruct Hm as (r & Hr & Hin). pose proof (regions_ok _ _ Hwf Hr) as Hok.
      destruct Hin as [Hi1 Hi2]. pose proof (rok_addr _ Hok). pose proof (rok_top _ Hok).
      pose proof (host_write_inside s r a bs Hwf Hr Hne (conj Hi1 Hi2)) as Hw. rewrite Hw.
      eexists. split; [done|]. unfold use_qemu in *. cbn. rewrite Hq. split_and!; try done; [lia..|].
      intros x Hx Hd. eapply (host_read_write_disj s a bs); done || lia || (unfold disj; lia). }
  destruct Hs' as (s' & Hw & Em & Eq & Hmap & Ha & Ha' & Hother).
  exists s'. split_and!; [done|by rewrite Em|done|].
  intros x. unfold stored. destruct (decide (a <= x < _)) as [Hin|Hout].
  - destruct (gread_mapped_mem a (Z.of_nat (length bs)) s') as (cs & Hc & Hl & Hh);
      [by rewrite Em|by apply Hmap|done|].
    assert (cs = bs) as ->.
    { assert (Hrb : mem_read a (Z.of_nat (length bs)) s' = Some bs); [|congruence].
      unfold mem_write, mem_read in *. rewrite Eq. unfold mem_mapped in Hm.
      destruct (use_qemu s) eqn:Hq.
      - pose proof (page_write _ _ _ Hm) as Hw1.
        destruct (rw_debug_write a bs (ext s)) as [ok e1] eqn:Hrw. cbn in Hw1. subst ok.
        injection Hw as <-. cbn. by rewrite (rw_read_write _ _ _ _ Hrw).
      - eapply host_read_host_write; [lia|done]. }
    rewrite (holds_at_bytes _ a bs) by done. done.
  - unfold mem_byte. destruct (decide _) as [Hx|]; [|done]. by rewrite Hother.
Qed.

#[export] Instance mstate_laws : MemLaws mstate.
Proof.
  refine {| mem_ok s := regions_wf (regions_ (mm s)); mapped := mem_mapped; byte_at := mem_byte;
            gread_mapped := gread_mapped_mem; gwrite_mapped := gwrite_mapped_mem |}.
  - intros a n s Hwf. unfold mem_mapped. destruct (use_qemu s); [apply page_range|].
    intros (r & Hr & Hi1 & Hi2). destruct (regions_ok _ _ Hwf Hr). lia.
  - intros a n b m s. unfold mem_mapped. destruct (use_qemu s); [apply page_sub|].
    intros (r & Hr & ? & ?) ???. exists r. split; [done|]. split; lia.
Defined.

Context `{!RegLaws E}.

Lemma ext_set_reg r v s : use_qemu (s <| ext ::= set_reg r v |>) = use_qemu s.
Proof.
  unfold use_qemu. cbn. unfold set_reg. destruct (has_cpu (ext s)) eqn:Hc; [|by rewrite Hc].
  by rewrite has_cpu_write_reg, Hc.
Qed.

#[export] Instance mstate_regs : RegFileLaws mstate.
Proof.
  refine {| cpu_ok s := has_cpu (ext s) = true; fits := reg_ok |}; cbn.
  - intros r v s H Hf. unfold get_reg, set_reg. rewrite H, has_cpu_write_reg, H. by apply read_write_reg.
  - intros r r' v s H. unfold get_reg, set_reg. destruct (has_cpu (ext s)) eqn:Hc; [|by rewrite Hc].
    rewrite has_cpu_write_reg, Hc. by apply read_write_reg_ne.
  - intros r a bs s. unfold mem_write, host_write, get_reg.
    destruct (use_qemu s).
    + pose proof (has_cpu_rw_write a bs (ext s)) as H1. pose proof (read_reg_rw_write r a bs (ext s)) as H2.
      destruct (rw_debug_write a bs (ext s)) as [[] e1]; cbn in *; [by rewrite H1, H2|].
      destruct (find_region _ _); cbn; by rewrite H1, H2.
    + by destruct (find_region _ _).
  - intros r v s H. unfold set_reg. by rewrite H, has_cpu_write_reg.
  - intros a bs s H. unfold mem_write, host_write. pose proof (has_cpu_rw_write a bs (ext s)) as H1.
    destruct (use_qemu s); [destruct (rw_debug_write a bs (ext s)) as [[] e1]; cbn in *|].
    + congruence.
    + destruct (find_region _ _); cbn; congruence.
    + destruct (find_region _ _); done.
  - done.
  - intros r v a n s. unfold mem_mapped. rewrite ext_set_reg. destruct (use_qemu s); [|done]. cbn.
    unfold set_reg. destruct (has_cpu _); [apply page_write_reg|done].
  - intros r v x s. unfold mem_byte, mem_read. rewrite ext_set_reg. cbn. unfold set_reg.
    destruct (has_cpu (ext s)); [|done]. by rewrite rw_read_write_reg.
Defined.

End Instances.
