(* ===== verification/HleManager.v ===== *)
(** [HleManager] (src/include/hle_manager.h, src/src/emulator.cpp): the table of
    emulated library functions.

    Every registered function gets a 12-byte stub in the HLE region whose
    system call number leads back to it: [allocate_stub] writes the code and
    fills the number-to-address array, [hle_syscall] is the branch of
    [pre_syscall_hook] that takes the number, finds the stub's address and runs
    the callback registered under its name.  Trampolines at fixed addresses at
    the end of the region do the same for the resume halves of the thread
    manager.

    A [std::function] is represented by its identity ([HleCallback]); running
    one is an operation of the world the manager is part of. *)

From S2P Require Import Prelude Env MemoryManager ThreadTypes Scheduler Pthread Machine.

(** * Trampolines *)

(** The callbacks [register_defaults] installs at fixed addresses. *)
Inductive Trampoline :=
| T_thread_exit | T_cond_wait_resume | T_join_resume | T_mutex_lock_resume
| T_recv_resume | T_send_resume | T_accept_resume | T_read_resume | T_write_resume
| T_epoll_wait_resume | T_recvfrom_resume | T_sendto_resume
| T_barrier_wait_resume | T_rdlock_resume | T_wrlock_resume.

#[export] Instance Trampoline_eq_dec : EqDecision Trampoline.
Proof. solve_decision. Defined.

(** In the order of [register_defaults]. *)
Definition trampolines : list Trampoline :=
  [T_thread_exit; T_cond_wait_resume; T_join_resume; T_mutex_lock_resume; T_recv_resume;
   T_send_resume; T_accept_resume; T_read_resume; T_write_resume; T_epoll_wait_resume;
   T_recvfrom_resume; T_sendto_resume; T_barrier_wait_resume; T_rdlock_resume; T_wrlock_resume].

Definition trampoline_addr (t : Trampoline) : Z :=
  match t with
  | T_thread_exit => HLE_BASE + 0xFFFF0
  | T_cond_wait_resume => HLE_BASE + 0xFFFF4
  | T_join_resume => HLE_BASE + 0xFFFF8
  | T_mutex_lock_resume => HLE_BASE + 0xFFFEC
  | T_recv_resume => HLE_BASE + 0xFFFE0
  | T_send_resume => HLE_BASE + 0xFFFE4
  | T_accept_resume => HLE_BASE + 0xFFFE8
  | T_read_resume => HLE_BASE + 0xFFFC0
  | T_write_resume => HLE_BASE + 0xFFFC4
  | T_epoll_wait_resume => HLE_BASE + 0xFFFC8
  | T_recvfrom_resume => HLE_BASE + 0xFFFCC
  | T_sendto_resume => HLE_BASE + 0xFFFD0
  | T_barrier_wait_resume => HLE_BASE + 0xFFFDC
  | T_rdlock_resume => HLE_BASE + 0xFFFD8
  | T_wrlock_resume => HLE_BASE + 0xFFFD4
  end.

Definition trampoline_name (t : Trampoline) : string :=
  match t with
  | T_thread_exit => "__thread_exit"
  | T_cond_wait_resume => "__pthread_cond_wait_resume"
  | T_join_resume => "__pthread_join_resume"
  | T_mutex_lock_resume => "__pthread_mutex_lock_resume"
  | T_recv_resume => "__blocking_recv_resume"
  | T_send_resume => "__blocking_send_resume"
  | T_accept_resume => "__blocking_accept_resume"
  | T_read_resume => "__blocking_read_resume"
  | T_write_resume => "__blocking_write_resume"
  | T_epoll_wait_resume => "__blocking_epoll_wait_resume"
  | T_recvfrom_resume => "__blocking_recvfrom_resume"
  | T_sendto_resume => "__blocking_sendto_resume"
  | T_barrier_wait_resume => "__pthread_barrier_wait_resume"
  | T_rdlock_resume => "__pthread_rwlock_rdlock_resume"
  | T_wrlock_resume => "__pthread_rwlock_wrlock_resume"
  end.

(** A branch to itself for the thread exit, [RET] for the others. *)
Definition LOOP_INSN : Z := 0x14000000.
Definition RET_INSN : Z := 0xD65F03C0.
Definition trampoline_insn (t : Trampoline) : Z :=
  match t with T_thread_exit => LOOP_INSN | _ => RET_INSN end.

(** The pthread callbacks behind the trampolines. *)
Definition run_trampoline `{Env} (t : Trampoline) (s : tstate) : option tstate :=
  match t with
  | T_thread_exit => Some (pthread_exit (reg REG_X0 s) s)
  | T_cond_wait_resume => Some (pthread_cond_wait_resume s)
  | T_join_resume => Some (pthread_join_resume s)
  | T_mutex_lock_resume => Some (pthread_mutex_lock_resume s)
  | T_barrier_wait_resume => Some (pthread_barrier_wait_resume s)
  | T_rdlock_resume => Some (pthread_rwlock_rdlock_resume s)
  | T_wrlock_resume => Some (pthread_rwlock_wrlock_resume s)
  | _ => None
  end.

(** * The manager *)

Inductive HleCallback := Resume (t : Trampoline) | Registered (id : Z).

(** The class, with the two file-scope tables of the system call numbers. *)
Record HleManager := {
  callbacks_ : gmap string HleCallback;
  stub_addresses_ : gmap string Z;
  address_to_name_ : gmap Z string;
  next_stub_addr_ : Z;
  g_next_hle_syscall : Z;
  g_hle_syscall_to_addr : gmap Z Z;
}.

Definition eta_hle (h : HleManager) : HleManager :=
  Build_HleManager (callbacks_ h) (stub_addresses_ h) (address_to_name_ h) (next_stub_addr_ h)
    (g_next_hle_syscall h) (g_hle_syscall_to_addr h).
#[export] Instance set_callbacks_ : Setter callbacks_ := ltac:(build_setter eta_hle callbacks_).
#[export] Instance set_stub_addresses_ : Setter stub_addresses_ := ltac:(build_setter eta_hle stub_addresses_).
#[export] Instance set_address_to_name_ : Setter address_to_name_ := ltac:(build_setter eta_hle address_to_name_).
#[export] Instance set_next_stub_addr_ : Setter next_stub_addr_ := ltac:(build_setter eta_hle next_stub_addr_).
#[export] Instance set_g_next_hle_syscall : Setter g_next_hle_syscall :=
  ltac:(build_setter eta_hle g_next_hle_syscall).
#[export] Instance set_g_hle_syscall_to_addr : Setter g_hle_syscall_to_addr :=
  ltac:(build_setter eta_hle g_hle_syscall_to_addr).

Definition HLE_SYSCALL_BASE : Z := 0x2000.
Definition HLE_SYSCALL_CAPACITY : Z := 0x1000.

Definition new_hle : HleManager :=
  {| callbacks_ := ∅; stub_addresses_ := ∅; address_to_name_ := ∅; next_stub_addr_ := HLE_BASE;
     g_next_hle_syscall := HLE_SYSCALL_BASE; g_hle_syscall_to_addr := ∅ |}.

Definition register_function (name : string) (callback : HleCallback) (h : HleManager) : HleManager :=
  h <| callbacks_ ::= <[name := callback]> |>.

Definition register_function_at_address (address : Z) (name : string) (callback : HleCallback)
    (h : HleManager) : HleManager :=
  h <| callbacks_ ::= <[name := callback]> |> <| address_to_name_ ::= <[address := name]> |>.

Definition has_hle (name : string) (h : HleManager) : bool := bool_decide (is_Some (callbacks_ h !! name)).

Definition register_address_for_function (address : Z) (name : string) (h : HleManager) : HleManager :=
  if has_hle name h then h <| address_to_name_ ::= <[address := name]> |> else h.

Definition get_registered_functions (h : HleManager) : list string := (map_to_list (callbacks_ h)).*1.

(** [MOVZ X8, #imm16; SVC #0; RET]. *)
Definition mov_insn (syscall_num : Z) : Z :=
  u32 (Z.lor 0xD2800008 (Z.shiftl (Z.land syscall_num 0xFFFF) 5)).
Definition SVC_INSN : Z := 0xD4000001.
Definition stub_code (syscall_num : Z) : list Z :=
  le_bytes 4 (mov_insn syscall_num) ++ le_bytes 4 SVC_INSN ++ le_bytes 4 RET_INSN.

Section Stubs.
Context {S : Type} `{M : !Machine S}.

Definition write_stub (address syscall_num : Z) (s : S) : S := (gwrite address (stub_code syscall_num) s).2.

Definition allocate_stub (name : string) (h : HleManager) (s : S) : Z * HleManager * S :=
  let addr := next_stub_addr_ h in
  let h1 := h <| stub_addresses_ ::= <[name := addr]> |> <| next_stub_addr_ := next_stub_addr_ h ⊕ 12 |>
              <| address_to_name_ ::= <[addr := name]> |> in
  let syscall_num := g_next_hle_syscall h1 in
  let h2 := h1 <| g_next_hle_syscall := syscall_num + 1 |> in
  if HLE_SYSCALL_BASE + HLE_SYSCALL_CAPACITY <=? syscall_num
  then (0, h2 <| stub_addresses_ ::= delete name |> <| address_to_name_ ::= delete addr |>, s)
  else (addr, h2 <| g_hle_syscall_to_addr ::= <[syscall_num - HLE_SYSCALL_BASE := addr]> |>,
        write_stub addr syscall_num s).

Definition get_stub_address (name : string) (h : HleManager) (s : S) : Z * HleManager * S :=
  match stub_addresses_ h !! name with
  | Some addr => (addr, h, s)
  | None => if has_hle name h then allocate_stub name h s else (0, h, s)
  end.

(** One trampoline of [register_defaults]. *)
Definition install_trampoline (hs : HleManager * S) (t : Trampoline) : HleManager * S :=
  let '(h, s) := hs in
  (h <| address_to_name_ ::= <[trampoline_addr t := trampoline_name t]> |>
     <| callbacks_ ::= <[trampoline_name t := Resume t]> |>,
   (gwrite (trampoline_addr t) (le_bytes 4 (trampoline_insn t)) s).2).

(** Stubs for a list of names, in order. *)
Definition allocate_stubs (names : list string) (hs : HleManager * S) : HleManager * S :=
  foldl (fun '(h, s) name => let '(_, h', s') := get_stub_address name h s in (h', s')) hs names.

(** [register_defaults]: the trampolines, the registrations of the [register_*]
    modules ([regs], in order), and a stub for every registered name, in the
    order [order] in which the hash table is walked. *)
Definition register_defaults (regs : list (string * HleCallback)) (order : list string)
    (h : HleManager) (s : S) : HleManager * S :=
  let '(h1, s1) := foldl install_trampoline (h, s) trampolines in
  let h2 := foldl (fun h '(name, cb) => register_function name cb h) h1 regs in
  allocate_stubs order (h2, s1).

(** The code the constructor of [Emulator] writes after [register_defaults]:
    [RET] at address 0, and [MSR TPIDR_EL0, X0; RET] for the TLS set-up. *)
Definition MSR_TPIDR_INSN : Z := 0xD51BD040.
Definition TLS_INIT_ADDR : Z := HLE_BASE + 0x10.
Definition write_init_code (s : S) : S :=
  let s1 := (gwrite 0 (le_bytes 4 RET_INSN) s).2 in
  let s2 := (gwrite TLS_INIT_ADDR (le_bytes 4 MSR_TPIDR_INSN) s1).2 in
  (gwrite (TLS_INIT_ADDR + 4) (le_bytes 4 RET_INSN) s2).2.

End Stubs.

(** * Dispatch *)

Inductive hle_outcome := NotHandled | Handled | Threw.

Section Dispatch.
(** The world: the manager, the thread-local CPU pointer (0 is [nullptr]), the
    CPUs QEMU and the emulator know, X0 of a CPU, and what a callback does to
    all of it (the flag says that it threw). *)
Context {W : Type} (hle_of : W -> HleManager) (tls_cpu : W -> Z) (set_tls_cpu : Z -> W -> W)
        (current_cpu emu_cpu : W -> Z) (cpu_x0 : Z -> W -> Z) (set_cpu_x0 : Z -> Z -> W -> W)
        (invoke : HleCallback -> W -> W * bool).

(** The callback for an address, as all three [handle] functions look it up. *)
Definition callback_at (address : Z) (h : HleManager) : option HleCallback :=
  match address_to_name_ h !! address with
  | Some name => callbacks_ h !! name
  | None => None
  end.

(** Runs [cb] with the thread-local CPU set to [cpu]; an exception skips the
    restoration. *)
Definition run_with_cpu (cb : HleCallback) (cpu : Z) (w : W) : hle_outcome * W :=
  let old_tls := tls_cpu w in
  match invoke cb (set_tls_cpu cpu w) with
  | (w1, true) => (Threw, w1)
  | (w1, false) => (Handled, set_tls_cpu old_tls w1)
  end.

Definition handle (address : Z) (w : W) : hle_outcome * W :=
  match callback_at address (hle_of w) with
  | None => (NotHandled, w)
  | Some cb =>
      let cpu := if negb (current_cpu w =? 0) then current_cpu w
                 else if tls_cpu w =? 0 then emu_cpu w else tls_cpu w in
      run_with_cpu cb cpu w
  end.

Definition handle_with_cpu (cpu address : Z) (w : W) : hle_outcome * W :=
  match callback_at address (hle_of w) with
  | None => (NotHandled, w)
  | Some cb => run_with_cpu cb cpu w
  end.

Definition handle_for_engine (cpu address : Z) (w : W) : hle_outcome * W :=
  handle_with_cpu cpu address w.

(** The HLE branch of [pre_syscall_hook], for [0x2000 <= sys_num < 0x3000]: the
    value the guest gets, and the world. *)
Definition hle_syscall (cpu sys_num : Z) (w : W) : Z * W :=
  let hle_index := sys_num - HLE_SYSCALL_BASE in
  let hle_addr :=
    if (0 <=? hle_index) && (hle_index <? HLE_SYSCALL_CAPACITY)
    then default 0 (g_hle_syscall_to_addr (hle_of w) !! hle_index) else 0 in
  if hle_addr =? 0 then (u64 (-1), w)
  else match handle_with_cpu cpu hle_addr w with
       | (Threw, w1) => (u64 (-1), w1)
       | (_, w1) => let retval := cpu_x0 cpu w1 in (retval, set_cpu_x0 cpu retval w1)
       end.

End Dispatch.
