(* ===== verification/HleSpec.v ===== *)
(** Correctness of the HLE stub table: every registered function is reached
    through its own stub, the resume addresses of the thread manager lead to
    their resume functions, and what the constructor's later writes do to it. *)

From S2P Require Import Prelude Env MemoryManager MemorySpec ThreadTypes Scheduler Pthread Machine HleManager.

(** * Instructions *)

(** [MOVZ Xd, #imm16] in the ARM64 encoding. *)
Definition movz (d imm16 : Z) : Z := 0xD2800000 + 32 * imm16 + d.

Lemma mov_insn_movz n : 0 <= n < 0x10000 -> mov_insn n = movz 8 n.
Proof.
  intros Hn. unfold mov_insn, movz.
  assert (Z.land n 0xFFFF = n) as ->.
  { change 0xFFFF with (Z.ones 16). rewrite Z.land_ones by lia. apply Z.mod_small. lia. }
  rewrite Z.shiftl_mul_pow2 by lia. change (2 ^ 5) with 32.
  assert (Z.lor 0xD2800008 (n * 32) = 0xD2800008 + n * 32) as ->.
  { rewrite <- Z.lxor_lor, <- Z.add_nocarry_lxor; [done|..];
      apply Z.bits_inj'; intros i Hi; rewrite Z.land_spec, Z.bits_0;
      destruct (Z.testbit 0xD2800008 i) eqn:E1, (Z.testbit (n * 32) i) eqn:E2; try done;
      exfalso; change 32 with (2 ^ 5) in E2; rewrite Z.mul_pow2_bits in E2 by lia;
      assert (Hlo : 5 <= i) by
        (destruct (Z.lt_ge_cases i 5); [rewrite Z.testbit_neg_r in E2 by lia; done|done]);
      assert (Hhi : i < 21) by
        (destruct (Z.lt_ge_cases i 21); [done|];
         rewrite Z.bits_above_log2 in E2; [done|lia|];
         destruct (Z.eq_dec n 0) as [->|]; [cbn; lia|]; apply Z.log2_lt_pow2; [lia|];
         apply Z.lt_le_trans with (2 ^ 16); [lia|apply Z.pow_le_mono_r; lia]);
      assert (Hc : forallb (fun j => negb (Z.testbit 0xD2800008 j)) (seqZ 5 16) = true) by reflexivity;
      rewrite forallb_forall in Hc; specialize (Hc i);
      rewrite E1 in Hc; discriminate Hc; apply list_elem_of_In, elem_of_seqZ; lia. }
  unfold u32. rewrite Z.mod_small; [lia|]. unfold two32. lia.
Qed.

Lemma length_stub_code n : length (stub_code n) = 12%nat.
Proof. unfold stub_code. by rewrite !length_app, !length_le_bytes. Qed.

Lemma trampoline_addr_inj t u : trampoline_addr t = trampoline_addr u -> t = u.
Proof. destruct t, u; (done || discriminate). Qed.

Lemma trampoline_apart t u : t <> u -> disj (trampoline_addr t) 4 (trampoline_addr u) 4.
Proof. intros Hne. unfold disj. destruct t, u; cbn; (done || lia). Qed.

Lemma trampoline_high t : HLE_BASE + 0xFFFC0 <= trampoline_addr t /\ trampoline_addr t + 4 <= HLE_BASE + HLE_SIZE.
Proof. destruct t; cbn; unfold HLE_BASE, HLE_SIZE; lia. Qed.

Lemma elem_of_trampolines t : t ∈ trampolines.
Proof. destruct t; unfold trampolines; set_solver. Qed.

Section Stubs.
Context {S : Type} `{M : !Machine S, L : !MemLaws S}.
Implicit Types s : S.

(** The 32-bit instruction [insn] lies at [a]. *)
Definition insn_at s (a insn : Z) : Prop := holds_at (byte_at s) a (le_bytes 4 insn).

(** Address of the [k]-th stub. *)
Definition stub_addr (k : Z) : Z := HLE_BASE + 12 * k.

(** The same ranges are mapped. *)
Definition same_map s s' : Prop := forall b m, mapped b m s' <-> mapped b m s.

Lemma same_map_trans s1 s2 s3 : same_map s1 s2 -> same_map s2 s3 -> same_map s1 s3.
Proof. unfold same_map. intros H1 H2 b m. by rewrite H2. Qed.

(** A write of code inside the HLE region. *)
Lemma code_write a bs s :
  mem_ok s -> mapped HLE_BASE HLE_SIZE s -> bs <> [] ->
  HLE_BASE <= a -> a + Z.of_nat (length bs) <= HLE_BASE + HLE_SIZE ->
  let s' := (gwrite a bs s).2 in
  mem_ok s' /\ mapped HLE_BASE HLE_SIZE s' /\ holds_at (byte_at s') a bs /\ same_map s s' /\
  (forall b cs, disj a (Z.of_nat (length bs)) b (Z.of_nat (length cs)) ->
     holds_at (byte_at s) b cs -> holds_at (byte_at s') b cs).
Proof.
  intros Hok Hm Hne ??. assert (0 < Z.of_nat (length bs)) by (destruct bs; [done|simpl; lia]).
  destruct (gwrite_mapped a bs s Hok) as (s' & -> & Hok' & Hmap & Hb);
    [by eapply mapped_sub|done|]. cbn. split_and!; [done|by apply Hmap| |done|].
  - eapply holds_at_ext; [intros x _; symmetry; apply Hb|apply holds_stored].
  - intros b cs Hd Hh. eapply holds_at_ext; [intros x _; symmetry; apply Hb|].
    by apply holds_stored_disj.
Qed.

(** The table after some stubs were allocated, none beyond the capacity, in a
    memory that was [s0] before. *)
Record stubs_wf (s0 : S) (h : HleManager) (s : S) : Prop := {
  sw_mem : mem_ok s;
  sw_same : same_map s0 s;
  sw_map : mapped HLE_BASE HLE_SIZE s;
  sw_num : HLE_SYSCALL_BASE <= g_next_hle_syscall h <= HLE_SYSCALL_BASE + HLE_SYSCALL_CAPACITY;
  sw_next : next_stub_addr_ h = stub_addr (g_next_hle_syscall h - HLE_SYSCALL_BASE);
  sw_stub name a : stub_addresses_ h !! name = Some a ->
    exists k, 0 <= k < g_next_hle_syscall h - HLE_SYSCALL_BASE /\ a = stub_addr k /\
      g_hle_syscall_to_addr h !! k = Some a /\ address_to_name_ h !! a = Some name /\
      holds_at (byte_at s) a (stub_code (HLE_SYSCALL_BASE + k));
  sw_tramp t : address_to_name_ h !! trampoline_addr t = Some (trampoline_name t);
  sw_tramp_code t : insn_at s (trampoline_addr t) (trampoline_insn t);
}.

Lemma stub_low k : 0 <= k < HLE_SYSCALL_CAPACITY ->
  HLE_BASE <= stub_addr k /\ stub_addr k + 12 <= HLE_BASE + 0xC000.
Proof. unfold stub_addr, HLE_SYSCALL_CAPACITY. lia. Qed.

Lemma allocate_stub_ok s0 name h s :
  stubs_wf s0 h s -> g_next_hle_syscall h < HLE_SYSCALL_BASE + HLE_SYSCALL_CAPACITY ->
  let a := next_stub_addr_ h in
  let '(r, h', s') := allocate_stub name h s in
  r = a /\ stubs_wf s0 h' s' /\ callbacks_ h' = callbacks_ h /\
  stub_addresses_ h' = <[name := a]> (stub_addresses_ h) /\
  g_next_hle_syscall h' = g_next_hle_syscall h + 1.
Proof.
  intros [Hok Hsame Hmap Hnum Hnext Hstub Htr Htc] Hlt a. unfold allocate_stub. cbn.
  destruct (Z.leb_spec (HLE_SYSCALL_BASE + HLE_SYSCALL_CAPACITY) (g_next_hle_syscall h)); [lia|].
  set (k := g_next_hle_syscall h - HLE_SYSCALL_BASE) in *.
  assert (Hk : 0 <= k < HLE_SYSCALL_CAPACITY) by lia.
  pose proof (stub_low k Hk) as [Hlo Hhi]. unfold write_stub.
  destruct (code_write a (stub_code (g_next_hle_syscall h)) s) as (Hok' & Hmap' & Hh & Hsame' & Hkeep);
    [done..| | |].
  { unfold a. rewrite Hnext. done. }
  { unfold a. rewrite Hnext, length_stub_code. unfold HLE_SIZE. lia. }
  rewrite length_stub_code in Hkeep. split_and!; try done. constructor; cbn; try done; [by eapply same_map_trans|lia|..].
  - rewrite Hnext. unfold stub_addr in *. unfold HLE_SYSCALL_CAPACITY, HLE_BASE in *.
    u64_simpl. lia.
  - intros n b. destruct (decide (name = n)) as [<-|Hne].
    + rewrite lookup_insert_eq. intros [= <-]. exists k.
      rewrite !lookup_insert_eq. split_and!; try done; [lia..|].
      by replace (HLE_SYSCALL_BASE + k) with (g_next_hle_syscall h) by lia.
    + rewrite lookup_insert_ne by done. intros (j & Hj & -> & Hg & Hn & Hc)%Hstub. exists j.
      split_and!; [lia..|done| | |].
      * by rewrite lookup_insert_ne by lia.
      * rewrite lookup_insert_ne; [done|]. unfold a. rewrite Hnext. unfold stub_addr. lia.
      * apply Hkeep; [|done]. unfold a. rewrite Hnext.
        cbn [length]. unfold disj, stub_addr. lia.
  - intros t. rewrite lookup_insert_ne; [apply Htr|]. unfold a. rewrite Hnext.
    pose proof (trampoline_high t). lia.
  - intros t. apply Hkeep; [|apply Htc]. rewrite length_le_bytes. unfold a. rewrite Hnext.
    pose proof (trampoline_high t). left. lia.
Qed.

(** Stubs for distinct new names. *)
Lemma allocate_stubs_ok s0 names h s :
  stubs_wf s0 h s -> NoDup names ->
  (forall n, n ∈ names -> is_Some (callbacks_ h !! n) /\ stub_addresses_ h !! n = None) ->
  g_next_hle_syscall h + Z.of_nat (length names) <= HLE_SYSCALL_BASE + HLE_SYSCALL_CAPACITY ->
  let '(h', s') := allocate_stubs names (h, s) in
  stubs_wf s0 h' s' /\ callbacks_ h' = callbacks_ h /\
  (forall n a, stub_addresses_ h !! n = Some a -> stub_addresses_ h' !! n = Some a) /\
  (forall i n, names !! i = Some n -> stub_addresses_ h' !! n =
     Some (stub_addr (g_next_hle_syscall h - HLE_SYSCALL_BASE + Z.of_nat i))).
Proof.
  revert h s. induction names as [|name names IH]; intros h s Hwf Hnd Hall Hcap.
  { split_and!; [done..|]. intros i n Hi. by rewrite lookup_nil in Hi. }
  cbn. unfold get_stub_address. destruct (Hall name) as [Hcb Hno]; [by left|]. rewrite Hno.
  unfold has_hle. rewrite bool_decide_eq_true_2 by done.
  pose proof (allocate_stub_ok s0 name h s Hwf ltac:(cbn in Hcap; lia)) as Ha. cbv zeta in Ha.
  destruct (allocate_stub name h s) as [[a h1] s1]. destruct Ha as (-> & Hwf1 & Ec & Es & En).
  apply NoDup_cons in Hnd as [Hnin Hnd].
  specialize (IH h1 s1 Hwf1 Hnd). rewrite Ec, Es, En in IH.
  ospecialize (IH _ _).
  { intros n Hn. split; [apply Hall; by right|].
    rewrite lookup_insert_ne by (intros ->; done). apply Hall. by right. }
  { cbn in Hcap. lia. }
  unfold allocate_stubs in IH. destruct (foldl _ (h1, s1) names) as [h' s'].
  destruct IH as (H1 & H2 & H3 & H4). split_and!; [done|done| |].
  - intros n b Hb. apply H3. rewrite lookup_insert_ne; [done|]. intros ->. congruence.
  - intros [|i] n Hi; cbn in Hi.
    + injection Hi as <-. rewrite (H3 name (next_stub_addr_ h)) by apply lookup_insert_eq.
      rewrite (sw_next _ _ _ Hwf). do 2 f_equal. lia.
    + rewrite (H4 _ _ Hi). do 2 f_equal. lia.
Qed.

(** The trampolines of [register_defaults]. *)
Lemma install_all ts h s :
  mem_ok s -> mapped HLE_BASE HLE_SIZE s -> NoDup ts ->
  let '(h', s') := foldl install_trampoline (h, s) ts in
  mem_ok s' /\ mapped HLE_BASE HLE_SIZE s' /\ same_map s s' /\
  stub_addresses_ h' = stub_addresses_ h /\ next_stub_addr_ h' = next_stub_addr_ h /\
  g_next_hle_syscall h' = g_next_hle_syscall h /\
  (forall t, t ∈ ts -> address_to_name_ h' !! trampoline_addr t = Some (trampoline_name t) /\
                       callbacks_ h' !! trampoline_name t = Some (Resume t) /\
                       insn_at s' (trampoline_addr t) (trampoline_insn t)) /\
  (forall t, t ∉ ts -> address_to_name_ h' !! trampoline_addr t = address_to_name_ h !! trampoline_addr t /\
                       callbacks_ h' !! trampoline_name t = callbacks_ h !! trampoline_name t /\
                       (insn_at s (trampoline_addr t) (trampoline_insn t) ->
                        insn_at s' (trampoline_addr t) (trampoline_insn t))).
Proof.
  revert h s. induction ts as [|t ts IH]; intros h s Hok Hmap Hnd.
  { split_and!; try done. by intros t ?%elem_of_nil. }
  apply NoDup_cons in Hnd as [Hnin Hnd]. cbn [foldl].
  pose proof (trampoline_high t) as [? ?].
  destruct (code_write (trampoline_addr t) (le_bytes 4 (trampoline_insn t)) s)
    as (Hok1 & Hmap1 & Hh & Hsm & Hkeep); [done..|lia|rewrite length_le_bytes; lia|].
  specialize (IH (h <| address_to_name_ ::= <[trampoline_addr t := trampoline_name t]> |>
     <| callbacks_ ::= <[trampoline_name t := Resume t]> |>) _ Hok1 Hmap1 Hnd).
  unfold install_trampoline at 2. destruct (foldl _ _ ts) as [h' s'].
  destruct IH as (? & ? & Hsm' & E1 & E2 & E3 & Hin & Hout). cbn in E1, E2, E3.
  split_and!; try done; [by eapply same_map_trans|..].
  - intros u [->|Hu]%elem_of_cons; [|by apply Hin].
    destruct (Hout t Hnin) as (-> & -> & Hi). cbn. rewrite !lookup_insert_eq. split_and!; try done.
    by apply Hi.
  - intros u Hu. apply not_elem_of_cons in Hu as [Hne Hu]. destruct (Hout u Hu) as (-> & -> & Hi). cbn.
    rewrite lookup_insert_ne by (intros ?%trampoline_addr_inj; congruence).
    rewrite lookup_insert_ne by (destruct t, u; done). split_and!; [done..|].
    intros Hu'. apply Hi, Hkeep; [|done]. rewrite !length_le_bytes. by apply trampoline_apart.
Qed.

Lemma NoDup_trampolines : NoDup trampolines.
Proof. apply (bool_decide_unpack _). by vm_compute. Qed.

(** Registrations only change the callbacks. *)
Lemma register_all regs h :
  let h' := foldl (fun h '(name, cb) => register_function name cb h) h regs in
  stub_addresses_ h' = stub_addresses_ h /\ next_stub_addr_ h' = next_stub_addr_ h /\
  g_next_hle_syscall h' = g_next_hle_syscall h /\ address_to_name_ h' = address_to_name_ h /\
  (forall n, n ∉ regs.*1 -> callbacks_ h' !! n = callbacks_ h !! n).
Proof.
  revert h. induction regs as [|[n cb] regs IH]; intros h; cbn; [done|].
  destruct (IH (register_function n cb h)) as (-> & -> & -> & -> & Hc). cbn. split_and!; try done.
  intros m Hm. apply not_elem_of_cons in Hm as [??]. rewrite Hc by done. cbn.
  by rewrite lookup_insert_ne.
Qed.

(** The callbacks after the registrations. *)
Definition default_callbacks (regs : list (string * HleCallback)) : gmap string HleCallback :=
  callbacks_ (foldl (fun h '(name, cb) => register_function name cb h)
                (foldl (fun h t => h <| callbacks_ ::= <[trampoline_name t := Resume t]> |>)
                   new_hle trampolines) regs).

Lemma register_callbacks regs h1 h2 : callbacks_ h1 = callbacks_ h2 ->
  callbacks_ (foldl (fun h '(name, cb) => register_function name cb h) h1 regs)
  = callbacks_ (foldl (fun h '(name, cb) => register_function name cb h) h2 regs).
Proof.
  revert h1 h2. induction regs as [|[n cb] regs IH]; intros h1 h2 E; cbn; [done|].
  apply IH. cbn. by rewrite E.
Qed.

Lemma install_callbacks ts h1 h2 s : callbacks_ h1 = callbacks_ h2 ->
  callbacks_ (foldl install_trampoline (h1, s) ts).1
  = callbacks_ (foldl (fun h t => h <| callbacks_ ::= <[trampoline_name t := Resume t]> |>) h2 ts).
Proof.
  revert h1 h2 s. induction ts as [|t ts IH]; intros h1 h2 s E; cbn; [done|].
  apply IH. cbn. by rewrite E.
Qed.

(** What [register_defaults] leaves behind. *)
Lemma register_defaults_wf regs order s :
  mem_ok s -> mapped HLE_BASE HLE_SIZE s -> NoDup order ->
  (forall n, n ∈ order <-> is_Some (default_callbacks regs !! n)) ->
  Z.of_nat (length order) <= HLE_SYSCALL_CAPACITY ->
  let '(h', s') := register_defaults regs order new_hle s in
  stubs_wf s h' s' /\ callbacks_ h' = default_callbacks regs /\
  (forall i n, order !! i = Some n -> stub_addresses_ h' !! n = Some (stub_addr (Z.of_nat i))) /\
  (forall t, trampoline_name t ∉ regs.*1 -> callbacks_ h' !! trampoline_name t = Some (Resume t)).
Proof.
  intros Hok Hmap Hnd Hord Hcap. unfold register_defaults.
  pose proof (install_all trampolines new_hle s Hok Hmap NoDup_trampolines) as Hi.
  pose proof (install_callbacks trampolines new_hle new_hle s eq_refl) as Hic.
  destruct (foldl install_trampoline (new_hle, s) trampolines) as [h1 s1].
  destruct Hi as (Hok1 & Hmap1 & Hsm & E1 & E2 & E3 & Hin & _). cbn [fst] in Hic.
  pose proof (register_all regs h1) as (F1 & F2 & F3 & F4 & F5). 
  pose proof (register_callbacks regs h1 _ Hic : _ = default_callbacks regs) as F6.
  set (h2 := foldl _ h1 regs) in *.
  assert (Hwf : stubs_wf s h2 s1).
  { constructor; rewrite ?F1, ?F2, ?F3, ?F4, ?E1, ?E2, ?E3; try done.
    - intros t. apply Hin, elem_of_trampolines.
    - intros t. apply Hin, elem_of_trampolines. }
  pose proof (allocate_stubs_ok s order h2 s1 Hwf Hnd) as Ha. rewrite F3, E3, F1, E1 in Ha.
  ospecialize (Ha _ _); [intros n Hn; split; [rewrite F6; by apply Hord|done]|cbn; lia|].
  destruct (allocate_stubs order (h2, s1)) as [h' s']. destruct Ha as (Hwf' & Ec & _ & Hst).
  split_and!; [done|congruence| |].
  - intros i n Hi. by rewrite (Hst _ _ Hi).
  - intros t Ht. rewrite Ec, F5 by done. apply Hin, elem_of_trampolines.
Qed.

(** The three instructions of a stub. *)
Lemma stub_insns s a n : holds_at (byte_at s) a (stub_code n) ->
  insn_at s a (mov_insn n) /\ insn_at s (a + 4) SVC_INSN /\ insn_at s (a + 8) RET_INSN.
Proof.
  unfold stub_code, insn_at. rewrite !holds_at_app, !length_le_bytes. intros (? & ? & H).
  split_and!; [done..|]. by replace (a + 8) with (a + Z.of_nat 4 + Z.of_nat 4) by lia.
Qed.

Lemma stub_of_order regs order s i name :
  mem_ok s -> mapped HLE_BASE HLE_SIZE s -> NoDup order ->
  (forall n, n ∈ order <-> is_Some (default_callbacks regs !! n)) ->
  Z.of_nat (length order) <= HLE_SYSCALL_CAPACITY -> order !! i = Some name ->
  let h' := (register_defaults regs order new_hle s).1 in
  let s' := (register_defaults regs order new_hle s).2 in
  let k := Z.of_nat i in
  stubs_wf s h' s' /\ callbacks_ h' = default_callbacks regs /\ 0 <= k < HLE_SYSCALL_CAPACITY /\
  stub_addresses_ h' !! name = Some (stub_addr k) /\
  g_hle_syscall_to_addr h' !! k = Some (stub_addr k) /\
  address_to_name_ h' !! stub_addr k = Some name /\
  holds_at (byte_at s') (stub_addr k) (stub_code (HLE_SYSCALL_BASE + k)).
Proof.
  intros Hok Hmap Hnd Hord Hcap Hi h' s' k.
  pose proof (register_defaults_wf regs order s Hok Hmap Hnd Hord Hcap) as Hr.
  subst h' s'. destruct (register_defaults regs order new_hle s) as [h' s']. cbn [fst snd].
  destruct Hr as (Hwf & Hc & Hst & _). pose proof (lookup_lt_Some _ _ _ Hi).
  assert (Hk : 0 <= k < HLE_SYSCALL_CAPACITY) by lia.
  destruct (sw_stub _ _ _ Hwf _ _ (Hst _ _ Hi)) as (j & Hj & Ej & Hg & Hn & Hcode).
  assert (j = k) as -> by (unfold stub_addr in Ej; lia).
  split_and!; try done; [lia..|by rewrite (Hst _ _ Hi)].
Qed.

(** C15: The stub table. Once the defaults are registered, every registered function
    has a stub of its own: three instructions that load its system call number
    into X8, trap and return.  That number takes the system call hook to the
    callback registered under the name, run with the calling CPU as the
    thread's CPU and X0 handed back (or -1 when the callback throws), and the
    resume addresses the thread manager stores lead to its resume functions. *)
Theorem hle_stub_dispatch regs order s :
  mem_ok s -> mapped HLE_BASE HLE_SIZE s -> NoDup order ->
  (forall n, n ∈ order <-> is_Some (default_callbacks regs !! n)) ->
  Z.of_nat (length order) <= HLE_SYSCALL_CAPACITY ->
  let h' := (register_defaults regs order new_hle s).1 in
  let s' := (register_defaults regs order new_hle s).2 in
  (forall i name cb, order !! i = Some name -> default_callbacks regs !! name = Some cb ->
     let n := HLE_SYSCALL_BASE + Z.of_nat i in
     let a := HLE_BASE + 12 * Z.of_nat i in
     get_stub_address name h' s' = (a, h', s') /\
     insn_at s' a (movz 8 n) /\ insn_at s' (a + 4) SVC_INSN /\ insn_at s' (a + 8) RET_INSN /\
     forall (W : Type) (hle_of : W -> HleManager) tls_cpu set_tls_cpu cpu_x0 set_cpu_x0 invoke cpu w,
       hle_of w = h' ->
       hle_syscall hle_of tls_cpu set_tls_cpu cpu_x0 set_cpu_x0 invoke cpu n w =
         match invoke cb (set_tls_cpu cpu w) with
         | (w1, true) => (u64 (-1), w1)
         | (w1, false) =>
             let w2 := set_tls_cpu (tls_cpu w) w1 in (cpu_x0 cpu w2, set_cpu_x0 cpu (cpu_x0 cpu w2) w2)
         end) /\
  (forall t, trampoline_name t ∉ regs.*1 -> callback_at (trampoline_addr t) h' = Some (Resume t)).
Proof.
  intros Hok Hmap Hnd Hord Hcap h' s'. split.
  - intros i name cb Hi Hcb n a.
    destruct (stub_of_order regs order s i name) as (Hwf & Hc & Hk & Hst & Hg & Hn & Hcode); [done..|].
    fold h' s' in Hwf, Hc, Hst, Hg, Hn, Hcode. fold (stub_addr (Z.of_nat i)) in a. fold a in Hst, Hg, Hn, Hcode.
    destruct (stub_insns _ _ _ Hcode) as (I1 & I2 & I3).
    rewrite mov_insn_movz in I1 by (unfold HLE_SYSCALL_BASE, HLE_SYSCALL_CAPACITY in *; lia).
    split_and!; try done; [unfold get_stub_address; by rewrite Hst|].
    intros W hle_of tls_cpu set_tls cpu_x0 set_x0 invoke cpu w Hw. unfold hle_syscall. rewrite Hw.
    replace (n - HLE_SYSCALL_BASE) with (Z.of_nat i) by lia. rewrite Hg. cbn [default from_option id].
    rewrite (proj2 (Z.leb_le _ _)), (proj2 (Z.ltb_lt _ _)) by lia. cbn [andb].
    rewrite (proj2 (Z.eqb_neq a 0)) by (unfold a, stub_addr, HLE_BASE; lia).
    unfold handle_with_cpu, callback_at. rewrite Hw, Hn, Hc, Hcb. unfold run_with_cpu.
    by destruct (invoke cb _) as [w1 []].
  - intros t Ht. subst h' s'.
    pose proof (register_defaults_wf regs order s Hok Hmap Hnd Hord Hcap) as Hr.
    destruct (register_defaults regs order new_hle s) as [h' s']. destruct Hr as (Hwf & _ & _ & Htr).
    cbn. unfold callback_at. rewrite (sw_tramp _ _ _ Hwf). by apply Htr.
Qed.

(** What the constructor's later writes do to the HLE region. *)
Lemma init_code_bytes s :
  mem_ok s -> mapped HLE_BASE HLE_SIZE s -> mapped 0 4 s ->
  let s' := write_init_code s in
  insn_at s' TLS_INIT_ADDR MSR_TPIDR_INSN /\ insn_at s' (TLS_INIT_ADDR + 4) RET_INSN /\
  (forall b cs, 4 <= b -> disj TLS_INIT_ADDR 8 b (Z.of_nat (length cs)) ->
     holds_at (byte_at s) b cs -> holds_at (byte_at s') b cs).
Proof.
  intros Hok Hmap H0. unfold write_init_code.
  destruct (gwrite_mapped 0 (le_bytes 4 RET_INSN) s) as (s1 & -> & Hok1 & Hmap1 & Hb1); [done..|].
  cbn [snd]. apply Hmap1 in Hmap.
  destruct (code_write TLS_INIT_ADDR (le_bytes 4 MSR_TPIDR_INSN) s1)
    as (Hok2 & Hmap2 & Hh2 & _ & Hk2); [done..|]. set (s2 := (gwrite _ _ s1).2) in *.
  destruct (code_write (TLS_INIT_ADDR + 4) (le_bytes 4 RET_INSN) s2)
    as (_ & _ & Hh3 & _ & Hk3); [done..|]. set (s3 := (gwrite _ _ s2).2) in *.
  rewrite length_le_bytes in Hk2, Hk3. split_and!.
  - apply Hk3; [|done]. rewrite length_le_bytes. right. lia.
  - done.
  - intros b cs Hb Hd Hh. apply Hk3; [unfold disj in *; lia|]. apply Hk2; [unfold disj in *; lia|].
    eapply holds_at_ext; [intros x _; symmetry; apply Hb1|].
    apply holds_stored_disj; [|done]. rewrite length_le_bytes. left. lia.
Qed.

(** The TLS set-up code lands on a stub. The constructor writes
    [MSR TPIDR_EL0, X0; RET] at [HLE_BASE + 0x10] after all stubs are in place,
    in the middle of the second one: a guest call of that function loads its
    number, overwrites the thread pointer and returns, and never traps.  All
    other stubs keep their code. *)
Theorem tls_init_clobbers_stub regs order s :
  mem_ok s -> mapped HLE_BASE HLE_SIZE s -> mapped 0 4 s -> NoDup order ->
  (forall n, n ∈ order <-> is_Some (default_callbacks regs !! n)) ->
  Z.of_nat (length order) <= HLE_SYSCALL_CAPACITY ->
  let h' := (register_defaults regs order new_hle s).1 in
  let s' := write_init_code (register_defaults regs order new_hle s).2 in
  forall i name, order !! i = Some name ->
  let a := HLE_BASE + 12 * Z.of_nat i in
  stub_addresses_ h' !! name = Some a /\
  insn_at s' a (movz 8 (HLE_SYSCALL_BASE + Z.of_nat i)) /\
  insn_at s' (a + 4) (if bool_decide (i = 1%nat) then MSR_TPIDR_INSN else SVC_INSN) /\
  insn_at s' (a + 8) RET_INSN.
Proof.
  intros Hok Hmap H0 Hnd Hord Hcap h' s' i name Hi a.
  destruct (stub_of_order regs order s i name) as (Hwf & _ & Hk & Hst & _ & _ & Hcode); [done..|].
  fold h' in Hst. set (s1 := (register_defaults regs order new_hle s).2) in *.
  fold (stub_addr (Z.of_nat i)) in a. fold a in Hst, Hcode.
  pose proof (proj2 (sw_same _ _ _ Hwf 0 4) H0) as H0'.
  destruct (init_code_bytes s1 (sw_mem _ _ _ Hwf) (sw_map _ _ _ Hwf) H0') as (T1 & T2 & Tk). fold s' in T1, T2, Tk.
  destruct (stub_insns _ _ _ Hcode) as (I1 & I2 & I3).
  rewrite mov_insn_movz in I1 by (unfold HLE_SYSCALL_BASE, HLE_SYSCALL_CAPACITY in *; lia).
  assert (Hi' : (i <= 0 \/ i = 1 \/ 2 <= i)%nat) by lia.
  unfold TLS_INIT_ADDR, insn_at in *.
  assert (Ha : a = HLE_BASE + 12 * Z.of_nat i) by done. clearbody a. unfold HLE_BASE in *.
  split; [done|]. 
  destruct (decide (i = 1%nat)) as [->|Hne].
  - rewrite bool_decide_eq_true_2 by done. rewrite Ha in *.
    split_and!; [apply Tk; [lia|rewrite length_le_bytes; right; lia|done]|done|done].
  - rewrite bool_decide_eq_false_2 by done.
    split_and!; (apply Tk; [lia|rewrite length_le_bytes; unfold disj; lia|done]).
Qed.

End Stubs.

(** * The hypotheses hold at a concrete state *)

(** The two regions the constructor maps first, one registered function. *)
Definition boot_mem : mstate (E := RefEnv) :=
  (mem_map HLE_BASE HLE_SIZE 7 "HLE" (mem_map 0 HLE_BASE 7 "LowMemory" mem0).2).2.
Definition demo_regs : list (string * HleCallback) := [("strlen", Registered 1)].
Definition demo_order : list string := (map_to_list (default_callbacks demo_regs)).*1.

Lemma boot_regions : regions_ (mm boot_mem) =
  [new_region 0 HLE_BASE 7 "LowMemory" 0x700000000000;
   new_region HLE_BASE HLE_SIZE 7 "HLE" 0x700010000000].
Proof. reflexivity. Qed.

Lemma boot_mem_ok : mem_ok boot_mem /\ mapped HLE_BASE HLE_SIZE boot_mem /\ mapped 0 4 boot_mem.
Proof.
  cbn [mem_ok mapped mstate_laws]. unfold mem_mapped. rewrite boot_regions.
  assert (use_qemu boot_mem = false) as -> by reflexivity.
  split_and!.
  - split.
    + apply Forall_cons; split; [|apply Forall_singleton]; by constructor.
    + constructor; [apply Forall_singleton|constructor; constructor].
      split; left; cbn; unfold HLE_BASE; lia.
  - exists (new_region HLE_BASE HLE_SIZE 7 "HLE" 0x700010000000). split; [set_solver|].
    split; cbn; lia.
  - exists (new_region 0 HLE_BASE 7 "LowMemory" 0x700000000000). split; [set_solver|].
    split; cbn; unfold HLE_BASE; lia.
Qed.

Lemma demo_order_ok : NoDup demo_order /\
  (forall n, n ∈ demo_order <-> is_Some (default_callbacks demo_regs !! n)) /\
  Z.of_nat (length demo_order) <= HLE_SYSCALL_CAPACITY.
Proof.
  split_and!; [apply NoDup_fst_map_to_list| |vm_compute; discriminate].
  intros n. unfold demo_order. rewrite list_elem_of_fmap. split.
  - intros ([m cb] & -> & H%elem_of_map_to_list). by exists cb.
  - intros [cb H]. exists (n, cb). split; [done|]. by apply elem_of_map_to_list.
Qed.

Lemma hle_stub_dispatch_witness :
  callback_at ADDR_MUTEX_RESUME (register_defaults demo_regs demo_order new_hle boot_mem).1
    = Some (Resume T_mutex_lock_resume).
Proof.
  destruct boot_mem_ok as (Hok & Hm & _). destruct demo_order_ok as (Hnd & Hord & Hcap).
  apply (proj2 (hle_stub_dispatch demo_regs demo_order boot_mem Hok Hm Hnd Hord Hcap) T_mutex_lock_resume).
  apply (bool_decide_unpack _). by vm_compute.
Defined.

Lemma tls_init_clobbers_stub_witness : exists name,
  demo_order !! 1%nat = Some name /\
  insn_at (write_init_code (register_defaults demo_regs demo_order new_hle boot_mem).2)
    (HLE_BASE + 16) MSR_TPIDR_INSN.
Proof.
  destruct boot_mem_ok as (Hok & Hm & H0). destruct demo_order_ok as (Hnd & Hord & Hcap).
  assert (Hlt : (1 < length demo_order)%nat) by (vm_compute; lia).
  destruct (lookup_lt_is_Some_2 demo_order 1 Hlt) as [name Hn]. exists name. split; [exact Hn|].
  apply (tls_init_clobbers_stub demo_regs demo_order boot_mem Hok Hm H0 Hnd Hord Hcap 1 name Hn).
Defined.
