(* ===== verification/Relocation.v ===== *)
(** [RelocationHandler] (src/src/relocation_handler.cpp): applying the AArch64
    relocations of a module that is already in guest memory.

    The handler writes through [MemoryManager::read]/[write], here the
    [Machine] interface; a [SymbolResolver] may change the state it captures,
    so it takes and returns it. *)

From Stdlib Require Import Ascii.
From S2P Require Import Prelude Env Machine.

(** [enum AArch64RelocType]. *)
Definition R_AARCH64_NONE : Z := 0.
Definition R_AARCH64_ABS64 : Z := 257.
Definition R_AARCH64_GLOB_DAT : Z := 1025.
Definition R_AARCH64_JUMP_SLOT : Z := 1026.
Definition R_AARCH64_RELATIVE : Z := 1027.
Definition R_AARCH64_IRELATIVE : Z := 1032.

(** [struct RelocationInfo]. *)
Record RelocationInfo := {
  ri_offset : Z;
  ri_type : Z;
  ri_addend : Z;
  ri_symbol_name : string;
  ri_symbol_value : Z;
}.

Record RelocationHandler := {
  processed_count_ : Z;
  failed_count_ : Z;
  unresolved_ : list string;
}.

Definition eta_rh (r : RelocationHandler) : RelocationHandler :=
  Build_RelocationHandler (processed_count_ r) (failed_count_ r) (unresolved_ r).
#[export] Instance set_processed_count_ : Setter processed_count_ := ltac:(build_setter eta_rh processed_count_).
#[export] Instance set_failed_count_ : Setter failed_count_ := ltac:(build_setter eta_rh failed_count_).
#[export] Instance set_unresolved_ : Setter unresolved_ := ltac:(build_setter eta_rh unresolved_).

Definition new_relocator : RelocationHandler :=
  {| processed_count_ := 0; failed_count_ := 0; unresolved_ := [] |}.

(** Up to the first ['@'], or all of it. *)
Fixpoint strip_version_suffix (symbol_name : string) : string :=
  match symbol_name with
  | EmptyString => EmptyString
  | String c t => if bool_decide (c = "@"%char) then EmptyString else String c (strip_version_suffix t)
  end.

Section Relocate.
Context {S : Type} `{M : !Machine S}.
Implicit Types s : S.

Definition SymbolResolver : Type := string -> S -> Z * S.

(** [memory_.write(address, &v, sizeof(v))] of a [uint64_t]. *)
Definition write_u64 (address v : Z) s : bool * S := gwrite address (le_bytes 8 v) s.

Definition apply_relative (address base addend : Z) s : bool * S :=
  if addend =? 0
  then match gread address 8 s with
       | None => (false, s)
       | Some existing => write_u64 address (base ⊕ s64 (le_value existing)) s
       end
  else write_u64 address (base ⊕ addend) s.

Definition apply_abs64 (address value addend : Z) s : bool * S := write_u64 address (value ⊕ addend) s.
Definition apply_glob_dat (address value addend : Z) s : bool * S := write_u64 address (value ⊕ addend) s.
Definition apply_jump_slot (address value addend : Z) s : bool * S := write_u64 address (value ⊕ addend) s.

(** The symbol's address: the module's own definition, or the resolver's answer
    for the name as it is and then without its version suffix. *)
Definition symbol_address (base symbol_value : Z) (symbol_name : string) (resolver : option SymbolResolver) s
    : Z * S :=
  let local := if negb (symbol_value =? 0) then symbol_value ⊕ base else symbol_value in
  match resolver with
  | Some resolve =>
      if (symbol_value =? 0) && negb (bool_decide (symbol_name = EmptyString))
      then let '(value, s1) := resolve symbol_name s in
           if value =? 0 then resolve (strip_version_suffix symbol_name) s1 else (value, s1)
      else (local, s)
  | None => (local, s)
  end.

Definition process_relocation (base_address offset type addend : Z) (symbol_name : string) (symbol_value : Z)
    (resolver : option SymbolResolver) (h : RelocationHandler) s : bool * RelocationHandler * S :=
  let address := base_address ⊕ offset in
  let signed_addend := s64 addend in
  let reloc_type := Z.land type 0xFFFF in
  let unresolved value := (value =? 0) && negb (bool_decide (symbol_name = EmptyString)) in
  let note := h <| unresolved_ ::= fun l => l ++ [symbol_name] |> in
  if reloc_type =? R_AARCH64_NONE then (true, h, s)
  else if reloc_type =? R_AARCH64_RELATIVE
  then let '(ok, s1) := apply_relative address base_address signed_addend s in (ok, h, s1)
  else if reloc_type =? R_AARCH64_ABS64
  then let '(value, s1) := symbol_address base_address symbol_value symbol_name resolver s in
       if unresolved value then (false, note, s1)
       else let '(ok, s2) := apply_abs64 address value signed_addend s1 in (ok, h, s2)
  else if reloc_type =? R_AARCH64_GLOB_DAT
  then let '(value, s1) := symbol_address base_address symbol_value symbol_name resolver s in
       let h1 := if unresolved value then note else h in
       let '(ok, s2) := apply_glob_dat address value signed_addend s1 in (ok, h1, s2)
  else if reloc_type =? R_AARCH64_JUMP_SLOT
  then let '(value, s1) := symbol_address base_address symbol_value symbol_name resolver s in
       let h1 := if unresolved value then note else h in
       let '(ok, s2) := apply_jump_slot address value signed_addend s1 in (ok, h1, s2)
  else if reloc_type =? R_AARCH64_IRELATIVE
  then let '(ok, s1) := apply_relative address base_address signed_addend s in (ok, h, s1)
  else (true, h, s).

(** The body of the loop over [loader.get_relocations()]. *)
Definition relocate_one (base_address : Z) (resolver : option SymbolResolver)
    (hs : RelocationHandler * S) (reloc : RelocationInfo) : RelocationHandler * S :=
  let '(h, s) := hs in
  let '(success, h1, s1) :=
    process_relocation base_address (ri_offset reloc) (ri_type reloc) (ri_addend reloc)
      (ri_symbol_name reloc) (ri_symbol_value reloc) resolver h s in
  (if success then h1 <| processed_count_ := processed_count_ h1 ⊕ 1 |>
   else h1 <| failed_count_ := failed_count_ h1 ⊕ 1 |>, s1).

Definition process_relocations (relocations : list RelocationInfo) (base_address : Z)
    (resolver : option SymbolResolver) (h : RelocationHandler) s : bool * RelocationHandler * S :=
  let '(h1, s1) := foldl (relocate_one base_address resolver) (h, s) relocations in
  (failed_count_ h1 =? 0, h1, s1).

End Relocate.
Arguments SymbolResolver : clear implicits.
