(* ===== verification/RelocationSpec.v ===== *)
(** Correctness of the relocation handler: it computes what the ELF
    specification for AArch64 asks for, site by site, whatever the order. *)

From S2P Require Import Prelude Env MemoryManager MemorySpec Machine Relocation.

(** * The specification *)

(** What one relocation does: nothing, an error, or a 64-bit store at its
    site. *)
Inductive effect := Keep | Reject | Store (v : Z).
#[export] Instance effect_eq_dec : EqDecision effect.
Proof. solve_decision. Defined.

(** S of the relocation: the symbol's run-time address, 0 when unknown. *)
Definition symbol_spec (resolve : string -> Z) (base : Z) (r : RelocationInfo) : Z :=
  if bool_decide (ri_symbol_value r <> 0) then base ⊕ ri_symbol_value r
  else if bool_decide (ri_symbol_name r = EmptyString) then 0
  else if bool_decide (resolve (ri_symbol_name r) <> 0) then resolve (ri_symbol_name r)
  else resolve (strip_version_suffix (ri_symbol_name r)).

Definition unknown (resolve : string -> Z) (base : Z) (r : RelocationInfo) : Prop :=
  symbol_spec resolve base r = 0 /\ ri_symbol_name r <> EmptyString.
#[export] Instance unknown_dec resolve base r : Decision (unknown resolve base r).
Proof. unfold unknown. apply _. Defined.

Definition kind (r : RelocationInfo) : Z := Z.land (ri_type r) 0xFFFF.

(** The effect, given the word that lies at the site: [RELATIVE] and
    [IRELATIVE] are base plus addend, where a zero addend means the word in
    place; the symbolic ones are symbol plus addend, and only [ABS64] rejects an
    unknown symbol. *)
Definition reloc_effect (resolve : string -> Z) (base in_place : Z) (r : RelocationInfo) : effect :=
  let A := ri_addend r in
  let symbolic := Store (symbol_spec resolve base r ⊕ A) in
  if bool_decide (kind r = R_AARCH64_RELATIVE \/ kind r = R_AARCH64_IRELATIVE)
  then Store (base ⊕ (if bool_decide (u64 A = 0) then in_place else A))
  else if bool_decide (kind r = R_AARCH64_ABS64)
  then if bool_decide (unknown resolve base r) then Reject else symbolic
  else if bool_decide (kind r = R_AARCH64_GLOB_DAT \/ kind r = R_AARCH64_JUMP_SLOT) then symbolic
  else Keep.

(** The relocations that add their symbol to the list of unresolved ones. *)
Definition noted (resolve : string -> Z) (base : Z) (r : RelocationInfo) : bool :=
  bool_decide ((kind r = R_AARCH64_ABS64 \/ kind r = R_AARCH64_GLOB_DAT \/ kind r = R_AARCH64_JUMP_SLOT) /\
               unknown resolve base r).

Definition site (base : Z) (r : RelocationInfo) : Z := base ⊕ ri_offset r.

Lemma s64_u64 x y : u64 (x + s64 y) = u64 (x + y).
Proof.
  unfold s64. cbv zeta. destruct (_ <? _).
  - unfold u64. by rewrite Zplus_mod_idemp_r.
  - unfold u64. rewrite Z.add_sub_assoc, <- Zminus_mod_idemp_r, Z_mod_same_full, Z.sub_0_r.
    by rewrite Zplus_mod_idemp_r.
Qed.

Lemma u64_add_l x y : u64 (u64 x + y) = u64 (x + y).
Proof. unfold u64. by rewrite Zplus_mod_idemp_l. Qed.

Lemma s64_zero x : (s64 x =? 0) = bool_decide (u64 x = 0).
Proof.
  apply eq_true_iff_eq. rewrite Z.eqb_eq, bool_decide_eq_true. unfold s64. cbv zeta.
  pose proof (u64_range x) as H. destruct (Z.ltb_spec (u64 x) (2 ^ 63)); [done|].
  unfold in_u64, two64 in *. lia.
Qed.

Section Spec.
Context {S : Type} `{M : !Machine S, L : !MemLaws S}.
Implicit Types s : S.
Variable resolve : string -> Z.
Definition pure_resolver : option (SymbolResolver S) := Some (fun n s => (resolve n, s)).

Lemma symbol_address_spec base r s :
  symbol_address base (ri_symbol_value r) (ri_symbol_name r) pure_resolver s
  = (symbol_spec resolve base r, s).
Proof.
  unfold symbol_address, symbol_spec, pure_resolver.
  destruct (Z.eqb_spec (ri_symbol_value r) 0) as [E|Hv]; cbn.
  - rewrite (bool_decide_eq_false_2 (_ <> 0)) by auto.
    destruct (decide (ri_symbol_name r = "")) as [Hn|Hn].
    + rewrite !bool_decide_eq_true_2 by done. by rewrite E.
    + rewrite !(bool_decide_eq_false_2 (ri_symbol_name r = _)) by done. cbn.
      destruct (Z.eqb_spec (resolve (ri_symbol_name r)) 0).
      * rewrite bool_decide_eq_false_2 by auto. done.
      * rewrite bool_decide_eq_true_2 by auto. done.
  - rewrite (bool_decide_eq_true_2 (_ <> 0)) by auto. by rewrite Z.add_comm.
Qed.

Lemma write_u64_ok a v s : mem_ok s -> mapped a 8 s ->
  exists s', write_u64 a v s = (true, s') /\ mem_ok s' /\ (forall b m, mapped b m s' <-> mapped b m s) /\
    (forall x, byte_at s' x = stored (byte_at s) a (le_bytes 8 v) x).
Proof. intros Hok Hm. apply gwrite_mapped; [done|by rewrite length_le_bytes|done]. Qed.

Lemma unresolved_spec base r v : v = symbol_spec resolve base r ->
  (v =? 0) && negb (bool_decide (ri_symbol_name r = EmptyString)) = bool_decide (unknown resolve base r).
Proof.
  intros ->. apply eq_true_iff_eq.
  rewrite andb_true_iff, Z.eqb_eq, negb_true_iff, bool_decide_eq_false, bool_decide_eq_true. done.
Qed.

(** The word at a site, as the handler reads it. *)
Definition in_place s (a w : Z) : Prop :=
  exists bs, length bs = 8%nat /\ holds_at (byte_at s) a bs /\ le_value bs = w.

(** Whether a relocation stores, and whether it fails, do not depend on the word
    in place. *)
Definition stores base r : bool :=
  match reloc_effect resolve base 0 r with Store _ => true | _ => false end.
Definition rejected base r : bool := bool_decide (reloc_effect resolve base 0 r = Reject).

(** The handler after one relocation, its counters aside. *)
Definition note base r (h : RelocationHandler) : RelocationHandler :=
  if noted resolve base r then h <| unresolved_ ::= fun l => l ++ [ri_symbol_name r] |> else h.

Ltac by_kind r :=
  unfold R_AARCH64_NONE, R_AARCH64_ABS64, R_AARCH64_GLOB_DAT, R_AARCH64_JUMP_SLOT, R_AARCH64_RELATIVE,
    R_AARCH64_IRELATIVE in *;
  repeat match goal with |- context [kind r =? ?c] => destruct (Z.eqb_spec (kind r) c) end;
  repeat (case_bool_decide; try (exfalso; lia)).

(** One relocation that stores nothing. *)
Lemma process_keep base r h s : stores base r = false ->
  process_relocation base (ri_offset r) (ri_type r) (ri_addend r) (ri_symbol_name r)
      (ri_symbol_value r) pure_resolver h s
  = (negb (rejected base r), note base r h, s).
Proof.
  unfold stores, rejected, note, process_relocation, reloc_effect, noted. fold (site base r). fold (kind r).
  rewrite !symbol_address_spec, !(unresolved_spec base r _ eq_refl), bool_decide_and.
  set (u := bool_decide (unknown resolve base r)). by_kind r; by destruct u.
Qed.

(** One relocation that stores. *)
Lemma process_store base r h s w v :
  mem_ok s -> mapped (site base r) 8 s -> in_place s (site base r) w ->
  reloc_effect resolve base w r = Store v ->
  exists s', process_relocation base (ri_offset r) (ri_type r) (ri_addend r) (ri_symbol_name r)
      (ri_symbol_value r) pure_resolver h s = (true, note base r h, s') /\
    mem_ok s' /\ (forall b m, mapped b m s' <-> mapped b m s) /\
    (forall x, byte_at s' x = stored (byte_at s) (site base r) (le_bytes 8 v) x).
Proof.
  intros Hok Hm (bs & Hlen & Hin & Hw). unfold note, process_relocation, reloc_effect, noted.
  fold (site base r). fold (kind r).
  rewrite !symbol_address_spec, !(unresolved_spec base r _ eq_refl), bool_decide_and.
  set (u := bool_decide (unknown resolve base r)). intros He.
  assert (Hrel : apply_relative (site base r) base (s64 (ri_addend r)) s =
    write_u64 (site base r) (base ⊕ (if bool_decide (u64 (ri_addend r) = 0) then w else ri_addend r)) s).
  { clear He. unfold apply_relative. rewrite s64_zero. case_bool_decide; [|by rewrite s64_u64].
    pose proof (gread_holds (site base r) bs s Hok) as Hg. rewrite Hlen in Hg.
    change (Z.of_nat 8) with 8 in Hg. rewrite Hg by (done || (intros ->; done)).
    by rewrite s64_u64, Hw. }
  unfold apply_abs64, apply_glob_dat, apply_jump_slot. rewrite !Hrel, !s64_u64.
  destruct (write_u64_ok (site base r) v s Hok Hm) as (s' & Ew & Hs'). revert He. by_kind r;
    destruct u; try discriminate; intros [= <-]; exists s'; rewrite Ew; done.
Qed.

Lemma effect_stores base r w v : reloc_effect resolve base w r = Store v -> stores base r = true.
Proof. unfold stores, reloc_effect. repeat case_bool_decide; done. Qed.

Lemma stores_effect base r w : stores base r = true -> exists v, reloc_effect resolve base w r = Store v.
Proof. unfold stores, reloc_effect. repeat case_bool_decide; (done || eauto). Qed.

Lemma mapped_in_place a s : mem_ok s -> mapped a 8 s -> exists w, in_place s a w.
Proof.
  intros Hok Hm. destruct (gread_mapped a 8 s Hok Hm) as (bs & _ & Hl & Hh); [lia|].
  exists (le_value bs), bs. done.
Qed.

Definition site_of base x r : Prop := site base r <= x < site base r + 8.

(** The state after the loop. *)
Record relocated base rels (hs hs' : RelocationHandler * S) : Prop := {
  rl_mem : mem_ok hs'.2;
  rl_map b m : mapped b m hs'.2 <-> mapped b m hs.2;
  rl_failed : failed_count_ hs'.1
    = u64 (failed_count_ hs.1 + Z.of_nat (length (filter (fun r => rejected base r = true) rels)));
  rl_processed : processed_count_ hs'.1
    = u64 (processed_count_ hs.1 + Z.of_nat (length (filter (fun r => rejected base r = false) rels)));
  rl_unresolved : unresolved_ hs'.1
    = unresolved_ hs.1 ++ map ri_symbol_name (filter (fun r => noted resolve base r = true) rels);
  rl_stored r w v : r ∈ rels -> in_place hs.2 (site base r) w ->
    reloc_effect resolve base w r = Store v -> word_at hs'.2 (site base r) v;
  rl_frame x : (forall r, r ∈ rels -> stores base r = true -> ~ site_of base x r) ->
    byte_at hs'.2 x = byte_at hs.2 x;
}.

Definition apart_sites base r q : Prop :=
  stores base r = true -> stores base q = true -> disj (site base r) 8 (site base q) 8.

Lemma length_filter_cons {A} (P : A -> Prop) `{!forall x, Decision (P x)} x l :
  Z.of_nat (length (filter P (x :: l))) = (if decide (P x) then 1 else 0) + Z.of_nat (length (filter P l)).
Proof. rewrite filter_cons. destruct (decide (P x)); cbn; lia. Qed.

(** The counters after one relocation. *)
Definition counted base r (h : RelocationHandler) : RelocationHandler :=
  if rejected base r then h <| failed_count_ := failed_count_ h ⊕ 1 |>
  else h <| processed_count_ := processed_count_ h ⊕ 1 |>.

Lemma relocate_one_spec base r h s :
  mem_ok s -> (stores base r = true -> mapped (site base r) 8 s) ->
  exists s', relocate_one base pure_resolver (h, s) r = (counted base r (note base r h), s') /\
    mem_ok s' /\ (forall b m, mapped b m s' <-> mapped b m s) /\
    (forall w v, in_place s (site base r) w -> reloc_effect resolve base w r = Store v ->
       word_at s' (site base r) v) /\
    (forall x, (stores base r = true -> ~ site_of base x r) -> byte_at s' x = byte_at s x).
Proof.
  intros Hok Hm. unfold relocate_one, counted. destruct (stores base r) eqn:Hs.
  - specialize (Hm eq_refl). destruct (mapped_in_place _ _ Hok Hm) as [w Hw].
    destruct (stores_effect base r w Hs) as [v Hv].
    destruct (process_store base r h s w v Hok Hm Hw Hv) as (s' & -> & Hok' & Hmap & Hb).
    assert (rejected base r = false) as ->.
    { unfold rejected, stores in *. by destruct (reloc_effect _ _ 0 r). }
    exists s'. split_and!; [done..| |].
    + intros w' v' (bs' & Hl' & Hh' & <-) Hv'. destruct Hw as (bs & Hl & Hh & <-).
      assert (bs' = bs) as -> by (eapply holds_at_eq; [lia|done..]).
      assert (v' = v) as -> by congruence.
      eapply holds_at_ext; [intros x _; symmetry; apply Hb|apply holds_stored].
    + intros x Hx. rewrite Hb. apply stored_out. rewrite length_le_bytes. by apply Hx.
  - rewrite process_keep by done. exists s.
    split_and!; [by destruct (rejected base r)|done|done| |done].
    intros w v _ He%effect_stores. congruence.
Qed.

Lemma site_of_disj base r q x : disj (site base r) 8 (site base q) 8 ->
  site_of base x r -> ~ site_of base x q.
Proof. unfold disj, site_of. lia. Qed.

Lemma relocated_cons base r rels h s hs1 hs' :
  Forall (apart_sites base r) rels ->
  relocate_one base pure_resolver (h, s) r = hs1 -> mem_ok s ->
  (stores base r = true -> mapped (site base r) 8 s) ->
  relocated base rels hs1 hs' -> relocated base (r :: rels) (h, s) hs'.
Proof.
  intros Hap <- Hok Hm. rewrite Forall_forall in Hap.
  destruct (relocate_one_spec base r h s Hok Hm) as (s1 & -> & Hok1 & Hmap1 & Hst1 & Hfr1).
  intros [R1 R2 R3 R4 R5 R6 R7]. cbn [fst snd] in *. unfold counted, note in *.
  constructor; cbn [fst snd]; [done|..].
  - intros b m. by rewrite R2, Hmap1.
  - rewrite length_filter_cons, R3, Z.add_assoc.
    destruct (rejected base r), (noted resolve base r); cbn -[u64 Z.add filter length];
      by rewrite ?u64_add_l, ?Z.add_0_r.
  - rewrite length_filter_cons, R4, Z.add_assoc.
    destruct (rejected base r), (noted resolve base r); cbn -[u64 Z.add filter length];
      by rewrite ?u64_add_l, ?Z.add_0_r.
  - rewrite R5, filter_cons. destruct (rejected base r), (noted resolve base r) eqn:Hn; cbn; try done;
      by rewrite <- app_assoc.
  - intros q w v [->|Hq]%elem_of_cons Hw He.
    + specialize (Hst1 w v Hw He). pose proof (effect_stores _ _ _ _ He) as Hs.
      eapply holds_at_ext; [|exact Hst1]. intros x Hx. rewrite length_le_bytes in Hx. symmetry. apply R7.
      intros q' Hq' Hs' Hx'. eapply site_of_disj; [by apply (Hap q' Hq')|exact Hx|exact Hx'].
    + eapply R6; [done| |done]. destruct Hw as (bs & Hl & Hh & <-). exists bs. split_and!; try done.
      eapply holds_at_ext; [|exact Hh]. intros x Hx. rewrite Hl in Hx. symmetry. apply Hfr1.
      intros Hs Hx'. eapply site_of_disj; [apply (Hap q Hq Hs); by eapply effect_stores|exact Hx'|exact Hx].
  - intros x Hx. rewrite R7, Hfr1; [done|intros Hs; by apply Hx; [left|]|].
    intros q Hq Hs. apply Hx; [by right|done].
Qed.

Lemma relocate_all base rels h s :
  mem_ok s -> (forall r, r ∈ rels -> stores base r = true -> mapped (site base r) 8 s) ->
  ForallOrdPairs (apart_sites base) rels -> 0 <= failed_count_ h < two64 -> 0 <= processed_count_ h < two64 ->
  relocated base rels (h, s) (foldl (relocate_one base pure_resolver) (h, s) rels).
Proof.
  revert h s. induction rels as [|r rels IH]; intros h s Hok Hm Hap Hf Hp.
  { constructor; cbn; try done; rewrite ?Z.add_0_r, ?app_nil_r; try (symmetry; by apply u64_small); try done.
    by intros r w v ?%elem_of_nil. }
  inversion Hap as [|? ? Hr Hap']; subst. cbn [foldl].
  destruct (relocate_one_spec base r h s Hok (Hm r ltac:(by left))) as (s1 & E & Hok1 & Hmap1 & _).
  eapply relocated_cons; [done|exact E|done|by apply Hm; left|]. rewrite E. apply IH; [done| |done|..].
  - intros q Hq Hs. apply Hmap1, Hm; [by right|done].
  - unfold counted, note. destruct (rejected _ _), (noted _ _ _); cbn; try done; apply u64_range.
  - unfold counted, note. destruct (rejected _ _), (noted _ _ _); cbn; try done; apply u64_range.
Qed.

Lemma rejected_none base rels :
  length (filter (fun r => rejected base r = true) rels) = 0%nat <-> forall r, r ∈ rels -> rejected base r = false.
Proof.
  rewrite length_zero_iff_nil. split.
  - intros Hn r Hr. apply not_true_iff_false. intros Hj. exact (filter_nil_not_elem_of _ _ r Hn Hj Hr).
  - intros Hall. destruct (filter _ rels) as [|r l] eqn:Hx; [done|].
    assert (Hr : r ∈ filter (fun r => rejected base r = true) rels) by (rewrite Hx; by left).
    apply list_elem_of_filter in Hr as [Hj Hr]. rewrite Hall in Hj by done. done.
Qed.

(** Relocating a module. For mapped sites that do not overlap, every relocation
    of the table takes effect exactly as specified for its type: the site of each
    storing relocation holds its value (computed from the word that was in place
    before any relocation), every other byte is unchanged, and the call
    succeeds exactly when no [ABS64] symbol was unknown, in this table or
    earlier; unknown symbols are recorded in order. *)
Theorem relocations_applied base rels h s :
  mem_ok s -> (forall r, r ∈ rels -> stores base r = true -> mapped (site base r) 8 s) ->
  ForallOrdPairs (apart_sites base) rels -> 0 <= failed_count_ h -> 0 <= processed_count_ h < two64 ->
  failed_count_ h + Z.of_nat (length rels) < two64 ->
  let '(ok, h', s') := process_relocations rels base pure_resolver h s in
  (ok = true <-> failed_count_ h = 0 /\ forall r, r ∈ rels -> rejected base r = false) /\
  unresolved_ h' = unresolved_ h ++ map ri_symbol_name (filter (fun r => noted resolve base r = true) rels) /\
  (forall r w v, r ∈ rels -> in_place s (site base r) w -> reloc_effect resolve base w r = Store v ->
     word_at s' (site base r) v) /\
  (forall x, (forall r, r ∈ rels -> stores base r = true -> ~ site_of base x r) ->
     byte_at s' x = byte_at s x).
Proof.
  intros Hok Hm Hap Hf Hp Hlen. unfold process_relocations.
  pose proof (relocate_all base rels h s Hok Hm Hap ltac:(lia) Hp) as [_ _ R3 _ R5 R6 R7].
  destruct (foldl _ (h, s) rels) as [h' s']. cbn [fst snd] in *. split_and!; [|done..].
  pose proof (length_filter (fun r => rejected base r = true) rels).
  rewrite u64_small in R3 by (unfold in_u64; lia). rewrite Z.eqb_eq, R3.
  rewrite <- rejected_none. lia.
Qed.

End Spec.

(** * Resolvers with state *)

Section Resolver.
Context {S : Type} `{M : !Machine S}.
Implicit Types s : S.

(** A relation every write and every answer of the resolver respects holds
    between the states before and after relocating. *)
Lemma process_related (R : S -> S -> Prop) base r h s (resolver : SymbolResolver S) :
  (forall s, R s s) -> (forall s1 s2 s3, R s1 s2 -> R s2 s3 -> R s1 s3) ->
  (forall a bs s, R s (gwrite a bs s).2) -> (forall n s, R s (resolver n s).2) ->
  R s (process_relocation base (ri_offset r) (ri_type r) (ri_addend r) (ri_symbol_name r) (ri_symbol_value r)
         (Some resolver) h s).2.
Proof.
  intros Hr Ht Hw Hres.
  assert (Hsym : R s (symbol_address base (ri_symbol_value r) (ri_symbol_name r) (Some resolver) s).2).
  { unfold symbol_address. destruct (_ && _); [|apply Hr]. pose proof (Hres (ri_symbol_name r) s) as H1.
    destruct (resolver _ s) as [v s1]; cbn in H1. destruct (v =? 0); [|done].
    eapply Ht; [exact H1|apply Hres]. }
  assert (Hrel : forall a d, R s (apply_relative a base d s).2).
  { intros a d. unfold apply_relative, write_u64. destruct (_ =? 0); [|apply Hw].
    destruct (gread _ _ _); [apply Hw|apply Hr]. }
  unfold process_relocation, apply_abs64, apply_glob_dat, apply_jump_slot, write_u64.
  repeat match goal with
  | |- R s (if ?c then _ else _).2 => destruct c
  | |- context [symbol_address ?b ?v ?n ?res ?s0] => destruct (symbol_address b v n res s0) as [val s1]
  | |- context [apply_relative ?a ?b ?d ?s0] =>
      specialize (Hrel a d); destruct (apply_relative a b d s0) as [ok s2]
  | |- context [let '(_, _) := gwrite ?a ?bs ?s0 in _] =>
      pose proof (Hw a bs s0); destruct (gwrite a bs s0) as [ok s2]
  end; cbn in *; eauto.
Qed.

Lemma relocations_related (R : S -> S -> Prop) base rels h s (resolver : SymbolResolver S) :
  (forall s, R s s) -> (forall s1 s2 s3, R s1 s2 -> R s2 s3 -> R s1 s3) ->
  (forall a bs s, R s (gwrite a bs s).2) -> (forall n s, R s (resolver n s).2) ->
  R s (process_relocations rels base (Some resolver) h s).2.
Proof.
  intros Hr Ht Hw Hres. unfold process_relocations. revert h s.
  induction rels as [|r rels IH]; intros h s; [apply Hr|]. cbn [foldl relocate_one].
  pose proof (process_related R base r h s resolver Hr Ht Hw Hres) as H1.
  destruct (process_relocation _ _ _ _ _ _ _ _ _) as [[ok h1] s1]. eapply Ht; [exact H1|apply IH].
Qed.

(** The handler only counts failures: its count does not shrink. *)
Lemma process_failed base r (resolver : option (SymbolResolver S)) h s :
  failed_count_ (process_relocation base (ri_offset r) (ri_type r) (ri_addend r) (ri_symbol_name r)
    (ri_symbol_value r) resolver h s).1.2 = failed_count_ h.
Proof.
  unfold process_relocation.
  repeat match goal with
  | |- context [if ?c then _ else _] => destruct c
  | |- context [let '(_, _) := ?p in _] => destruct p
  end; reflexivity.
Qed.

Lemma relocations_failed base rels (resolver : option (SymbolResolver S)) h s :
  0 < failed_count_ h -> failed_count_ h + Z.of_nat (length rels) < two64 ->
  (process_relocations rels base resolver h s).1.1 = false /\
  failed_count_ h <= failed_count_ (process_relocations rels base resolver h s).1.2.
Proof.
  unfold process_relocations. revert h s. induction rels as [|r rels IH]; intros h s Hf Hl.
  { cbn. split; [apply Z.eqb_neq; lia|lia]. }
  cbn [foldl relocate_one length] in *. rewrite Nat2Z.inj_succ in Hl.
  pose proof (process_failed base r resolver h s) as H1.
  destruct (process_relocation _ _ _ _ _ _ _ _ _) as [[[] h1] s1]; cbn in H1.
  - destruct (IH (h1 <| processed_count_ := processed_count_ h1 ⊕ 1 |>) s1) as [? Hle]; [cbn; lia..|].
    split; [done|]. etrans; [|exact Hle]. cbn. lia.
  - assert (Ef : failed_count_ h1 ⊕ 1 = failed_count_ h1 + 1) by (apply u64_small; u64_lia).
    destruct (IH (h1 <| failed_count_ := failed_count_ h1 ⊕ 1 |>) s1) as [? Hle]; [cbn; lia..|].
    split; [done|]. etrans; [|exact Hle]. cbn. lia.
Qed.

(** A resolver that answers without changing the state, on the states with [P],
    is a table. *)
Lemma relocations_pure (P : S -> Prop) (resolve : string -> Z) (resolver : SymbolResolver S) base rels h s :
  (forall n s, P s -> resolver n s = (resolve n, s)) -> (forall a bs s, P s -> P (gwrite a bs s).2) -> P s ->
  process_relocations rels base (Some resolver) h s
  = process_relocations rels base (pure_resolver resolve) h s.
Proof.
  intros Hres Hw. revert h s. unfold process_relocations.
  assert (Hone : forall r h s, P s ->
    process_relocation base (ri_offset r) (ri_type r) (ri_addend r) (ri_symbol_name r) (ri_symbol_value r)
      (Some resolver) h s
    = process_relocation base (ri_offset r) (ri_type r) (ri_addend r) (ri_symbol_name r) (ri_symbol_value r)
      (pure_resolver resolve) h s).
  { intros r h s HP. unfold process_relocation.
    assert (symbol_address base (ri_symbol_value r) (ri_symbol_name r) (Some resolver) s
      = symbol_address base (ri_symbol_value r) (ri_symbol_name r) (pure_resolver resolve) s) as ->; [|done].
    unfold symbol_address, pure_resolver. destruct (_ && _); [|done]. rewrite Hres by done.
    destruct (_ =? 0); [by rewrite Hres|done]. }
  induction rels as [|r rels IH]; intros h s HP; [done|]. cbn [foldl relocate_one]. rewrite Hone by done.
  assert (HP1 : P s -> P (process_relocation base (ri_offset r) (ri_type r) (ri_addend r) (ri_symbol_name r)
    (ri_symbol_value r) (pure_resolver resolve) h s).2).
  { apply (process_related (fun s s' => P s -> P s')); [auto|auto|by auto|].
    intros n s0 Hs0. unfold pure_resolver. done. }
  specialize (HP1 HP). destruct (process_relocation _ _ _ _ _ _ _ _ _) as [[ok h1] s1]. by apply IH.
Qed.
End Resolver.

(** * The hypotheses hold at a concrete table *)

Definition demo_rels : list RelocationInfo :=
  [ {| ri_offset := 0; ri_type := R_AARCH64_RELATIVE; ri_addend := 0x30; ri_symbol_name := ""; ri_symbol_value := 0 |};
    {| ri_offset := 16; ri_type := R_AARCH64_JUMP_SLOT; ri_addend := 0; ri_symbol_name := "puts@LIBC"; ri_symbol_value := 0 |} ].
Definition demo_resolve (name : string) : Z := if bool_decide (name = "puts"%string) then 0x3000 else 0.

Lemma relocations_applied_witness :
  word_at (process_relocations demo_rels 0x1000 (pure_resolver demo_resolve) new_relocator small_mem).2 0x1010 0x3000.
Proof.
  set (r := {| ri_offset := 16; ri_type := R_AARCH64_JUMP_SLOT; ri_addend := 0;
               ri_symbol_name := "puts@LIBC"; ri_symbol_value := 0 |}).
  assert (Hok : mem_ok small_mem) by exact small_mem_wf.
  assert (Hm : forall q, q ∈ demo_rels -> stores demo_resolve 0x1000 q = true -> mapped (site 0x1000 q) 8 small_mem).
  { intros q Hq _. cbn [mapped mstate_laws]. unfold mem_mapped. rewrite small_mem_regions.
    exists small_region. split; [by left|]. apply elem_of_cons in Hq as [-> | ->%list_elem_of_singleton]; by split. }
  assert (Hap : ForallOrdPairs (apart_sites demo_resolve 0x1000) demo_rels).
  { constructor; [apply Forall_singleton|constructor; constructor]. intros _ _. by left. }
  assert (Hw : exists w, in_place small_mem (site 0x1000 r) w).
  { exists 0, (replicate 8 0). split_and!; [done| |done].
    intros i c Hi. pose proof (lookup_lt_Some _ _ _ Hi) as Hl. cbn in Hl. revert Hi.
    do 8 (destruct i as [|i]; [by intros [= <-]|]). cbn. lia. }
  destruct Hw as [w Hw].
  pose proof (relocations_applied demo_resolve 0x1000 demo_rels new_relocator small_mem Hok Hm Hap
    ltac:(done) ltac:(done) ltac:(done)) as H.
  destruct (process_relocations _ _ _ _ _) as [[ok h'] s'].
  refine (proj1 (proj2 (proj2 H)) r w 0x3000 _ Hw _); [right; left|by vm_compute].
Defined.
