(* ===== verification/ElfLoader.v ===== *)
(** [ElfLoader] (src/src/elf_loader.cpp): mapping the PT_LOAD segments of a parsed
    ELF file and collecting its symbols, relocations and constructors.

    Parsing is LIEF's: [Binary] is what its accessors return for a file, and
    [parse] takes LIEF's parser as an argument.  [RelocationInfo::symbol_value]
    is not initialised for relocations without a symbol; the indeterminate value
    is the argument [uninit] of [get_relocations]. *)

From Stdlib Require Import Ascii.
From S2P Require Import Prelude Env MemoryManager Machine Relocation.

(** * What LIEF returns *)

Record Segment := {
  seg_is_load : bool;
  virtual_address : Z;
  virtual_size : Z;
  physical_size : Z;
  seg_r : bool; seg_w : bool; seg_x : bool;
  content : list Z;
}.

Record Symbol := {
  sym_name : string;
  sym_value : Z;
  sym_size : Z;
  sym_type : Z;
  sym_binding : Z;
  sym_imported : bool;
}.

Record Reloc := {
  rel_address : Z;
  rel_type : Z;
  rel_addend : Z;
  rel_symbol : option (string * Z);
}.

(** A dynamic entry; the name of a DT_NEEDED entry and the elements of an array
    entry when LIEF gives the entry that class. *)
Record DynEntry := {
  dyn_tag : Z;
  dyn_value : Z;
  dyn_library : option string;
  dyn_array : option (list Z);
}.

Record Binary := {
  machine_aarch64 : bool;
  file_exec : bool;
  entrypoint : Z;
  segments : list Segment;
  dynamic_entries : list DynEntry;
  exported_symbols : list Symbol;
  symtab_symbols : list Symbol;
  imported_symbols : list Symbol;
  relocations : list Reloc;
}.

Definition TAG_INIT_ARRAY : Z := 25.
Definition TAG_FINI_ARRAY : Z := 26.
Definition TAG_INIT_ARRAYSZ : Z := 27.

(** * The loader's own data *)

Record SymbolInfo := {
  si_name : string;
  si_value : Z;
  si_size : Z;
  si_type : Z;
  si_bind : Z;
  si_exported : bool;
}.

(** [struct LoadedModule] (include/cross_shim.h). *)
Record LoadedModule := {
  mod_name : string;
  mod_path : string;
  base_address : Z;
  mod_size : Z;
  exports : gmap string Z;
  local_symbols : gmap string Z;
  guest_name_str : Z;
  mod_data : list Z;
}.

Definition eta_mod (m : LoadedModule) : LoadedModule :=
  Build_LoadedModule (mod_name m) (mod_path m) (base_address m) (mod_size m) (exports m)
    (local_symbols m) (guest_name_str m) (mod_data m).
#[export] Instance set_mod_name : Setter mod_name := ltac:(build_setter eta_mod mod_name).
#[export] Instance set_mod_path : Setter mod_path := ltac:(build_setter eta_mod mod_path).
#[export] Instance set_base_address : Setter base_address := ltac:(build_setter eta_mod base_address).
#[export] Instance set_mod_size : Setter mod_size := ltac:(build_setter eta_mod mod_size).
#[export] Instance set_exports : Setter exports := ltac:(build_setter eta_mod exports).
#[export] Instance set_local_symbols : Setter local_symbols := ltac:(build_setter eta_mod local_symbols).
#[export] Instance set_guest_name_str : Setter guest_name_str := ltac:(build_setter eta_mod guest_name_str).
#[export] Instance set_mod_data : Setter mod_data := ltac:(build_setter eta_mod mod_data).

Definition new_module : LoadedModule :=
  {| mod_name := ""; mod_path := ""; base_address := 0; mod_size := 0; exports := ∅;
     local_symbols := ∅; guest_name_str := 0; mod_data := [] |}.

(** [binary_]: [None] is [nullptr]. *)
Definition parse (lief_parse : list Z -> option Binary) (data : list Z) : option Binary := lief_parse data.

Definition UINT64_MAX : Z := 0xFFFFFFFFFFFFFFFF.

Definition is_aarch64 (binary_ : option Binary) : bool :=
  match binary_ with Some b => machine_aarch64 b | None => false end.
Definition is_executable (binary_ : option Binary) : bool :=
  match binary_ with Some b => file_exec b | None => false end.
Definition get_entry_point (binary_ : option Binary) : Z :=
  match binary_ with Some b => entrypoint b | None => 0 end.

Definition load_segments (b : Binary) : list Segment := filter (fun s => seg_is_load s = true) (segments b).

(** The loops over the PT_LOAD segments. *)
Definition min_addr (segs : list Segment) : Z :=
  foldl (fun m s => Z.min m (virtual_address s)) UINT64_MAX segs.
Definition max_addr (segs : list Segment) : Z :=
  foldl (fun m s => Z.max m (virtual_address s ⊕ virtual_size s)) 0 segs.

Definition get_min_vaddr (binary_ : option Binary) : Z :=
  match binary_ with
  | None => 0
  | Some b => let m := min_addr (load_segments b) in if m =? UINT64_MAX then 0 else m
  end.

Definition get_memory_size (binary_ : option Binary) : Z :=
  match binary_ with
  | None => 0
  | Some b =>
      let m := min_addr (load_segments b) in
      if m =? UINT64_MAX then 0 else max_addr (load_segments b) ⊖ m
  end.

Definition get_dependencies (binary_ : option Binary) : list string :=
  match binary_ with None => [] | Some b => omap dyn_library (dynamic_entries b) end.

Definition symbol_info (exported : bool) (s : Symbol) : SymbolInfo :=
  {| si_name := sym_name s; si_value := sym_value s; si_size := sym_size s;
     si_type := sym_type s; si_bind := sym_binding s; si_exported := exported |}.

Definition get_exports (binary_ : option Binary) : list SymbolInfo :=
  match binary_ with
  | None => []
  | Some b => map (symbol_info true) (filter (fun s => sym_value s <> 0) (exported_symbols b))
  end.

(** Mapping symbols ([$x], [$d]) and undefined ones are skipped. *)
Definition is_defined (s : Symbol) : bool :=
  match sym_name s with
  | EmptyString => false
  | String c _ => negb (bool_decide (c = "$"%char)) && negb (sym_value s =? 0) && negb (sym_imported s)
  end.

Definition get_symtab_defined_symbols (binary_ : option Binary) : list SymbolInfo :=
  match binary_ with
  | None => []
  | Some b => map (symbol_info false) (filter (fun s => is_defined s = true) (symtab_symbols b))
  end.

Definition get_imports (binary_ : option Binary) : list SymbolInfo :=
  match binary_ with None => [] | Some b => map (symbol_info false) (imported_symbols b) end.

Definition relocation_info (uninit : Reloc -> Z) (r : Reloc) : RelocationInfo :=
  {| ri_offset := rel_address r; ri_type := rel_type r; ri_addend := rel_addend r;
     ri_symbol_name := match rel_symbol r with Some (n, _) => n | None => EmptyString end;
     ri_symbol_value := match rel_symbol r with Some (_, v) => v | None => uninit r end |}.

Definition get_relocations (uninit : Reloc -> Z) (binary_ : option Binary) : list RelocationInfo :=
  match binary_ with None => [] | Some b => map (relocation_info uninit) (relocations b) end.

(** The last entry with each tag wins. *)
Definition get_init_array_info (binary_ : option Binary) : Z * Z :=
  match binary_ with
  | None => (0, 0)
  | Some b =>
      foldl (fun '(addr, size) e =>
               if dyn_tag e =? TAG_INIT_ARRAY then (dyn_value e, size)
               else if dyn_tag e =? TAG_INIT_ARRAYSZ then (addr, dyn_value e)
               else (addr, size)) (0, 0) (dynamic_entries b)
  end.

(** A function pointer worth calling. *)
Definition valid_func (addr : Z) : bool := negb (addr =? 0) && negb (addr =? UINT64_MAX).

Definition get_fini_array (binary_ : option Binary) : list Z :=
  match binary_ with
  | None => []
  | Some b =>
      concat (map (fun e => match dyn_array e with
                            | Some arr => if dyn_tag e =? TAG_FINI_ARRAY
                                          then filter (fun a => valid_func a = true) arr else []
                            | None => []
                            end) (dynamic_entries b))
  end.

Definition get_dynamic_entries (binary_ : option Binary) : list (Z * Z) :=
  match binary_ with None => [] | Some b => map (fun e => (dyn_tag e, dyn_value e)) (dynamic_entries b) end.

(** * Loading *)

Section Load.
Context {E : Env}.
Implicit Types s : mstate.

Definition segment_perms (seg : Segment) : Z :=
  Z.lor (Z.lor (if seg_r seg then MEM_READ else 0) (if seg_w seg then MEM_WRITE else 0))
        (if seg_x seg then MEM_EXEC else 0).

(** The body of the loop of [load] for one PT_LOAD segment. *)
Definition load_segment (min_vaddr base_address : Z) (seg : Segment) s : bool * mstate :=
  let vaddr := virtual_address seg ⊖ min_vaddr ⊕ base_address in
  let memsz := virtual_size seg in
  let filesz := physical_size seg in
  let aligned_addr := align_down vaddr PAGE_SIZE in
  let offset_in_page := vaddr ⊖ aligned_addr in
  let aligned_size := align_up (memsz ⊕ offset_in_page) PAGE_SIZE in
  let s1 := if is_mapped aligned_addr s then (unmap aligned_addr aligned_size s).2 else s in
  match mem_map aligned_addr aligned_size (segment_perms seg) "" s1 with
  | (false, s2) => (false, s2)
  | (true, s2) =>
      let data := take (Z.to_nat (Z.min filesz (Z.of_nat (length (content seg))))) (content seg) in
      let '(ok, s3) := match content seg with [] => (true, s2) | _ => mem_write vaddr data s2 end in
      if ok then if filesz <? memsz then zero_ (vaddr ⊕ filesz) (memsz ⊖ filesz) s3 else (true, s3)
      else (false, s3)
  end.

Fixpoint load_all (min_vaddr base_address : Z) (segs : list Segment) s : bool * mstate :=
  match segs with
  | [] => (true, s)
  | seg :: rest =>
      match load_segment min_vaddr base_address seg s with
      | (true, s1) => load_all min_vaddr base_address rest s1
      | (false, s1) => (false, s1)
      end
  end.

(** [exports] and [local_symbols] of the module. *)
Definition collect_exports (base min_vaddr : Z) (syms : list SymbolInfo) (m : gmap string Z) : gmap string Z :=
  foldl (fun m sym => if negb (bool_decide (si_name sym = EmptyString)) && negb (si_value sym =? 0)
                      then <[si_name sym := base ⊕ si_value sym ⊖ min_vaddr]> m else m) m syms.

Definition collect_locals (base min_vaddr : Z) (exported : gmap string Z) (syms : list SymbolInfo)
    (m : gmap string Z) : gmap string Z :=
  foldl (fun m sym => if bool_decide (is_Some (exported !! si_name sym)) then m
                      else <[si_name sym := base ⊕ si_value sym ⊖ min_vaddr]> m) m syms.

Definition load (binary_ : option Binary) (base : Z) (m : LoadedModule) s : bool * LoadedModule * mstate :=
  match binary_ with
  | None => (false, m, s)
  | Some b =>
      let min_vaddr := get_min_vaddr binary_ in
      match load_all min_vaddr base (load_segments b) s with
      | (false, s1) => (false, m, s1)
      | (true, s1) =>
          let ex := collect_exports base min_vaddr (get_exports binary_) (exports m) in
          let loc := collect_locals base min_vaddr ex (get_symtab_defined_symbols binary_) (local_symbols m) in
          (true, m <| base_address := base |> <| mod_size := get_memory_size binary_ |>
                   <| exports := ex |> <| local_symbols := loc |>, s1)
      end
  end.

End Load.
