(* ===== verification/ElfSpec.v ===== *)
(** Correctness of loading an ELF file: after [load] every segment's bytes are in
    guest memory, its tail is zero, nothing else changed, and the symbol tables
    give run-time addresses.  The statements hold before and after QEMU is
    ready. *)

From S2P Require Import Prelude Env MemoryManager MemorySpec Machine Relocation ElfLoader.

(** Guest mappings and debug accesses: a fixed mapping is
    accessible and reads as zeroes, and keeps accessible what was accessible;
    host mappings do not concern guest memory.  (The fixed mappings of this
    program succeed: [map] does not look at the result.) *)
Class GuestMapLaws (E : Env) `{!CpuMemLaws E} := {
  page_mmap a n p e : 0 < n -> 0 <= a -> a + n < two64 -> page_ok a n (target_mmap a n p e).2;
  page_mmap_keep a n p b m e : page_ok b m e -> page_ok b m (target_mmap a n p e).2;
  mmap_zero a n p b e : a <= b < a + n ->
    rw_debug_read b 1 (target_mmap a n p e).2 = Some [0];
  page_host_mmap n b m e : page_ok b m (host_mmap n e).2 <-> page_ok b m e;
  rw_read_host_mmap n b m e : rw_debug_read b m (host_mmap n e).2 = rw_debug_read b m e;
  has_cpu_mmap a n p e : has_cpu (target_mmap a n p e).2 = has_cpu e;
}.

#[export] Instance RefGuestMapLaws : GuestMapLaws RefEnv.
Proof.
  constructor; cbn; try done.
  - intros a n p e ???. split_and!; [|done..]. apply ref_accessible_stored.
    by rewrite length_replicate.
  - intros a n p b m e (H & ? & ?). split_and!; [by apply ref_accessible_store|done..].
  - intros a n p b e Hb. change (Z.to_nat 1) with 1%nat.
    rewrite (proj2 (ref_accessible_spec _ b 1)).
    + unfold ref_load. cbn. rewrite Z.add_0_r, lookup_ref_store, length_replicate, decide_True by lia.
      by rewrite lookup_replicate_2 by lia.
    + intros x Hx. rewrite lookup_ref_store, length_replicate, decide_True by lia.
      rewrite lookup_replicate_2 by lia. eauto.
  - intros n b m e. by destruct (_ && _).
  - intros n b m e. by destruct (_ && _).
Qed.

Section Mapping.
Context {E : Env} `{!GuestMemLaws E, !CpuMemLaws E, !HostMapLaws E, !GuestMapLaws E}.
Implicit Types s : mstate.

(** * Mapping, byte by byte *)

(** What a write keeps. *)
Lemma mem_write_keeps a bs s :
  mm (mem_write a bs s).2 = mm s /\ host_blocks (ext (mem_write a bs s).2) = host_blocks (ext s).
Proof.
  unfold mem_write, host_write. pose proof (host_blocks_rw_write a bs (ext s)) as Hb.
  destruct (use_qemu s); [destruct (rw_debug_write a bs (ext s)) as [[] e1]; cbn in *|];
    [done|destruct (find_region _ _); done|destruct (find_region _ _); done].
Qed.

Lemma write_table a bs s : table_wf s -> table_wf (mem_write a bs s).2.
Proof.
  intros [H1 H2]. destruct (mem_write_keeps a bs s) as [Em Eb].
  constructor; rewrite Em; [done|]. rewrite Eb. exact H2.
Qed.

Lemma mapped_keep_mode s s' r a n p nm hp : mapped_at s s' r -> r = new_region a n p nm hp ->
  mem_map a n p nm s = (true, s') -> use_qemu s' = use_qemu s.
Proof.
  intros [Em _ _ _ _ _] _. unfold mem_map. destruct (host_mmap n (ext s)) as [[h|] e1] eqn:Hh; [|done].
  pose proof (has_cpu_host_mmap n (ext s)) as Hc. rewrite Hh in Hc. cbn in *.
  unfold use_qemu. rewrite Em. cbn. destruct (qemu_ready_ (mm s)) eqn:Hq.
  - pose proof (has_cpu_mmap a n (prot_of p) e1) as Hc2. destruct (target_mmap _ _ _ _) as [x e2].
    intros [= <-]. cbn in *. congruence.
  - intros [= <-]. done.
Qed.

(** Single host bytes before and after a mapping. *)
Lemma host_byte_mapped s s' r x : table_wf s -> table_wf s' -> mapped_at s s' r -> 0 <= x < two64 - 1 ->
  host_read x 1 s' = if decide (r_address r <= x < r_address r + r_size r) then Some [0] else host_read x 1 s.
Proof.
  intros Hw Hw' Hm Hx. pose proof (ma_mm _ _ _ Hm) as Em.
  assert (Hr : r ∈ regions_ (mm s')) by (rewrite Em; cbn; apply elem_of_app; right; by left).
  destruct (decide _) as [Hin|Hout].
  - pose proof (regions_ok _ _ (tw_regions _ Hw') Hr) as Hok.
    rewrite (host_read_inside s' r); [|apply Hw'|done|lia|split; lia].
    destruct (host_addr_inside r x 1 Hok ltac:(lia) ltac:(split; lia)) as (Ea & ? & ?).
    rewrite (ma_hmem _ _ _ Hm). destruct Hok. rewrite host_load_fill by lia. done.
  - destruct (host_read x 1 s) as [bs|] eqn:Hs.
    + rewrite <- Hs. unfold host_read in Hs.
      destruct (find_region (region_covers x 1) (regions_ (mm s))) as [q|] eqn:Hq; [|done].
      apply find_region_Some in Hq as [Hq Hin]; [|apply Hw|lia..].
      eapply mapped_read; [exact Hw|exact Hw'|exact Hm|exact Hq|lia|done].
    + unfold host_read in *.
      destruct (find_region (region_covers x 1) (regions_ (mm s'))) as [q|] eqn:Hq; [|done].
      apply find_region_Some in Hq as [Hq Hin]; [|apply Hw'|lia..]. exfalso.
      rewrite Em in Hq. cbn in Hq. apply elem_of_app in Hq as [Hq| ->%list_elem_of_singleton].
      * rewrite (find_region_inside _ x 1 q) in Hs; [done|apply Hw|done|lia..|done].
      * destruct Hin. lia.
Qed.

(** A mapping of a free range: mapped afterwards, zero, and nothing else moves. *)
Lemma mem_map_view a n p nm s s' :
  table_wf s -> 0 <= a -> a + n < two64 ->
  (forall q, q ∈ regions_ (mm s) -> disj (r_address q) (r_size q) a n) ->
  mem_map a n p nm s = (true, s') ->
  exists hp, table_wf s' /\ mm s' = (mm s) <| regions_ ::= fun rs => rs ++ [new_region a n p nm hp] |> /\
  mapped a n s' /\ (forall b m, mapped b m s -> mapped b m s') /\
  (forall x, byte_at s' x = if decide (a <= x < a + n) then Some 0 else byte_at s x).
Proof.
  intros Hw Ha Hn Hd Hmap. destruct (mem_map_true _ _ _ _ _ _ Hmap) as [hp Hm]. exists hp.
  assert (Hw' : table_wf s') by (by eapply mapped_table).
  pose proof (mapped_keep_mode _ _ _ _ _ _ _ _ Hm eq_refl Hmap) as Eq.
  pose proof (ma_mm _ _ _ Hm) as Em. pose proof (ma_size _ _ _ Hm) as Hsz. cbn in Hsz.
  pose proof (fun x => host_byte_mapped s s' _ x Hw Hw' Hm) as Hhost. cbn in Hhost.
  cbn [mapped byte_at mstate_laws]. unfold mem_mapped, mem_byte, mem_read. rewrite Eq, Em.
  unfold mem_map in Hmap. pose proof (page_host_mmap n) as Hp. pose proof (rw_read_host_mmap n) as Hr.
  destruct (host_mmap n (ext s)) as [[h|] e1] eqn:Hh; [|done].
  specialize (fun b m => Hp b m (ext s)). specialize (fun b m => Hr b m (ext s)). rewrite Hh in Hp, Hr.
  cbn in Hp, Hr. destruct (use_qemu s) eqn:Hq.
  - assert (qemu_ready_ (mm s) = true) as Hrdy by (unfold use_qemu in Hq; by apply andb_true_iff in Hq as [? _]).
    cbn in Hmap. rewrite Hrdy in Hmap.
    pose proof (page_mmap a n (prot_of p) e1 Hsz Ha Hn) as P1.
    pose proof (fun b m => page_mmap_keep a n (prot_of p) b m e1) as P2.
    pose proof (fun b => mmap_zero a n (prot_of p) b e1) as P3.
    pose proof (fun b => mmap_read_disj a n (prot_of p) b 1 e1) as P4.
    destruct (target_mmap a n (prot_of p) e1) as [x0 e2]. injection Hmap as <-. cbn in *.
    split_and!; try done.
    + intros b m Hb. by apply P2, Hp.
    + intros x. destruct (decide (0 <= x < two64 - 1)) as [Hx|Hx];
        [|rewrite decide_False by lia; done]. rewrite (Hhost x Hx).
      destruct (decide (a <= x < a + n)) as [Hin|Hout]; [by rewrite P3|].
      rewrite P4, Hr; [done|]. unfold disj. lia.
  - split_and!; try done.
    + exists (new_region a n p nm hp). cbn. split; [apply elem_of_app; right; by left|]. split; cbn; lia.
    + intros b m (r & Hr' & Hin). exists r. cbn. split; [apply elem_of_app; by left|done].
    + intros x. destruct (decide (0 <= x < two64 - 1)) as [Hx|Hx];
        [|rewrite decide_False by lia; done]. rewrite (Hhost x Hx). by destruct (decide _).
Qed.

(** The bytes of [a, a+n) set to zero. *)
Definition zeroed (f : Z -> option Z) (a n x : Z) : option Z :=
  if decide (a <= x < a + n) then Some 0 else f x.

Lemma stored_zeroes f a k x : stored f a (replicate k 0) x = zeroed f a (Z.of_nat k) x.
Proof.
  unfold stored, zeroed. rewrite length_replicate. destruct (decide _); [|done].
  apply lookup_replicate_2. lia.
Qed.

Lemma zero_loop_view fuel a n z offset s :
  mem_ok s -> mapped a n s -> 0 <= offset <= n -> 0 < z \/ n = 0 -> 0 <= z ->
  n - offset <= (Z.of_nat fuel - 1) * z -> (0 < fuel)%nat ->
  exists s', zero_loop fuel a n z offset s = (true, s') /\ (table_wf s -> table_wf s') /\ mm s' = mm s /\
    (forall b m, mapped b m s' <-> mapped b m s) /\
    (forall x, byte_at s' x = zeroed (byte_at s) (a + offset) (n - offset) x).
Proof.
  revert offset s. induction fuel as [|fuel IH]; intros offset s Hok Hm Ho Hz Hz0 Hfuel Hpos; [lia|].
  pose proof (mapped_range a n s Hok Hm) as [Ha Hn]. cbn [zero_loop].
  destruct (Z.ltb_spec offset n) as [Hlt|Hge].
  - u64_simpl. set (c := Z.min (n - offset) z). assert (Hc : 0 < c <= n - offset) by lia.
    destruct (gwrite_mapped (a + offset) (replicate (Z.to_nat c) 0) s Hok) as (s1 & Hw & Hok1 & Hm1 & Hb1).
    { rewrite length_replicate, Z2Nat.id by lia. eapply mapped_sub; [done|lia..]. }
    { intros ?%(f_equal length). rewrite length_replicate in *. cbn in *. lia. }
    cbn in Hw. rewrite Hw. destruct (mem_write_keeps (a + offset) (replicate (Z.to_nat c) 0) s) as [Em _].
    pose proof (write_table (a + offset) (replicate (Z.to_nat c) 0) s) as Ht. rewrite Hw in Em, Ht.
    u64_simpl. assert (1 <= Z.of_nat fuel) by nia.
    destruct (IH (offset + c) s1) as (s' & Hl & Ht' & Em' & Hm' & Hb'); [done|by apply Hm1|lia|lia|lia| |lia|].
    { destruct (Z.min_spec (n - offset) z) as [[? E1]|[? E1]]; fold c in E1; nia. }
    exists s'. split_and!; [exact Hl|auto|cbn in *; congruence| |].
    + intros b m. by rewrite Hm', Hm1.
    + intros x. rewrite Hb'. unfold zeroed at 1. rewrite Hb1, stored_zeroes. unfold zeroed.
      rewrite Z2Nat.id by lia. repeat destruct (decide _); (done || lia).
  - exists s. split_and!; try done. intros x. unfold zeroed. by rewrite decide_False by lia.
Qed.

Lemma zero_view a n s : mem_ok s -> mapped a n s -> 0 <= n ->
  exists s', zero_ a n s = (true, s') /\ (table_wf s -> table_wf s') /\ mm s' = mm s /\
    (forall b m, mapped b m s' <-> mapped b m s) /\
    (forall x, byte_at s' x = zeroed (byte_at s) a n x).
Proof.
  intros Hok Hm Hn. unfold zero_.
  destruct (zero_loop_view (chunk_fuel n ZERO_CHUNK) a n (Z.min n ZERO_CHUNK) 0 s) as (s' & H);
    [done|done|lia|unfold ZERO_CHUNK; lia|unfold ZERO_CHUNK; lia| |unfold chunk_fuel; lia|].
  { rewrite Z.sub_0_r. apply chunk_fuel_enough; [done|unfold ZERO_CHUNK; lia]. }
  rewrite Z.add_0_r, Z.sub_0_r in H. eauto.
Qed.

(** * Segments *)

(** Where a segment goes, and the pages mapped for it. *)
Definition seg_vaddr (min base : Z) (seg : Segment) : Z := virtual_address seg - min + base.
Definition seg_start (min base : Z) (seg : Segment) : Z := PAGE_SIZE * (seg_vaddr min base seg / PAGE_SIZE).
Definition seg_len (min base : Z) (seg : Segment) : Z :=
  PAGE_SIZE * ((seg_vaddr min base seg + virtual_size seg - seg_start min base seg + PAGE_SIZE - 1) / PAGE_SIZE).

(** A segment LIEF hands out for a loadable file: its content is the file part,
    which is not larger than the memory part, and it fits below 2^64. *)
Record seg_ok (min base : Z) (seg : Segment) : Prop := {
  so_content : Z.of_nat (length (content seg)) = physical_size seg;
  so_size : 0 < virtual_size seg /\ physical_size seg <= virtual_size seg;
  so_addr : 0 <= min <= virtual_address seg /\ virtual_address seg < two64 /\ 0 <= base;
  so_top : seg_vaddr min base seg + virtual_size seg + 2 * PAGE_SIZE < two64;
}.

Lemma page_round x : 0 <= x -> x + 2 * PAGE_SIZE < two64 ->
  align_down x PAGE_SIZE = PAGE_SIZE * (x / PAGE_SIZE) /\
  align_up x PAGE_SIZE = PAGE_SIZE * ((x + PAGE_SIZE - 1) / PAGE_SIZE).
Proof.
  intros H0 H1. unfold align_down, align_up, PAGE_SIZE in *. change (0x1000) with (2 ^ 12) in *. split.
  - rewrite (u64_small (2 ^ 12 - 1)) by u64_lia. rewrite mask_low by u64_lia.
    pose proof (Z.div_mod x (2 ^ 12) ltac:(lia)). lia.
  - u64_simpl. rewrite mask_low by u64_lia.
    pose proof (Z.div_mod (x + 2 ^ 12 - 1) (2 ^ 12) ltac:(lia)). lia.
Qed.

Lemma seg_pages min base seg : seg_ok min base seg ->
  virtual_address seg ⊖ min ⊕ base = seg_vaddr min base seg /\
  align_down (seg_vaddr min base seg) PAGE_SIZE = seg_start min base seg /\
  align_up (virtual_size seg ⊕ (seg_vaddr min base seg ⊖ seg_start min base seg)) PAGE_SIZE = seg_len min base seg /\
  0 <= seg_start min base seg <= seg_vaddr min base seg /\
  seg_vaddr min base seg + virtual_size seg <= seg_start min base seg + seg_len min base seg /\
  seg_start min base seg + seg_len min base seg < two64 /\ 0 < seg_len min base seg.
Proof.
  intros [_ [Hs _] (Hm & Hv & Hb) Ht]. unfold seg_vaddr in *.
  assert (E1 : virtual_address seg ⊖ min ⊕ base = virtual_address seg - min + base).
  { unfold PAGE_SIZE in *. u64_simpl. done. }
  set (v := virtual_address seg - min + base) in *. assert (0 <= v) by lia.
  assert (Hst : 0 <= PAGE_SIZE * (v / PAGE_SIZE) <= v /\ v < PAGE_SIZE * (v / PAGE_SIZE) + PAGE_SIZE).
  { unfold PAGE_SIZE. pose proof (Z.div_mod v 0x1000 ltac:(lia)).
    pose proof (Z.mod_pos_bound v 0x1000 ltac:(lia)). pose proof (Z.div_pos v 0x1000). lia. }
  unfold seg_len, seg_start, seg_vaddr. fold v. set (st := PAGE_SIZE * (v / PAGE_SIZE)) in *.
  set (t := v + virtual_size seg - st) in *. unfold PAGE_SIZE in *.
  assert (E2 : align_up (virtual_size seg ⊕ (v ⊖ st)) 0x1000 = 0x1000 * ((t + 0x1000 - 1) / 0x1000)).
  { u64_simpl. replace (virtual_size seg + (v - st)) with t by lia. apply page_round; unfold PAGE_SIZE; lia. }
  pose proof (Z.div_mod (t + 0x1000 - 1) 0x1000 ltac:(lia)).
  pose proof (Z.mod_pos_bound (t + 0x1000 - 1) 0x1000 ltac:(lia)).
  fold t. split_and!; try done; try lia. apply page_round; unfold PAGE_SIZE; lia.
Qed.

(** Memory with one segment in place. *)
Definition seg_image (min base : Z) (seg : Segment) (f : Z -> option Z) (x : Z) : option Z :=
  stored (zeroed f (seg_start min base seg) (seg_len min base seg)) (seg_vaddr min base seg) (content seg) x.

Definition in_pages (min base : Z) (seg : Segment) (x : Z) : Prop :=
  seg_start min base seg <= x < seg_start min base seg + seg_len min base seg.

Definition seg_free (min base : Z) (seg : Segment) s : Prop :=
  forall q, q ∈ regions_ (mm s) ->
    disj (r_address q) (r_size q) (seg_start min base seg) (seg_len min base seg).

Lemma free_not_mapped min base seg s : table_wf s -> seg_ok min base seg -> seg_free min base seg s ->
  is_mapped (seg_start min base seg) s = false.
Proof.
  intros Hw Hs Hf. destruct (seg_pages _ _ _ Hs) as (_ & _ & _ & ? & _ & ? & ?).
  unfold is_mapped. apply not_true_iff_false. rewrite existsb_exists. intros (q & Hq & Hc).
  apply list_elem_of_In in Hq. pose proof (regions_ok _ _ (tw_regions _ Hw) Hq) as [].
  specialize (Hf q Hq). unfold disj in Hf. u64_simpl. zbool. lia.
Qed.

(** The outcome of the file part and of the zero tail of a segment. *)
Lemma fill_segment min base seg s :
  table_wf s -> seg_ok min base seg ->
  mapped (seg_start min base seg) (seg_len min base seg) s ->
  (forall x, in_pages min base seg x -> byte_at s x = Some 0) ->
  let v := seg_vaddr min base seg in
  exists s1 s2,
    match content seg with
    | [] => (true, s)
    | _ => mem_write v (take (Z.to_nat (Z.min (physical_size seg) (Z.of_nat (length (content seg))))) (content seg)) s
    end = (true, s1) /\
    (if physical_size seg <? virtual_size seg
     then zero_ (v ⊕ physical_size seg) (virtual_size seg ⊖ physical_size seg) s1 else (true, s1)) = (true, s2) /\
    table_wf s2 /\ mm s2 = mm s /\ (forall b m, mapped b m s2 <-> mapped b m s) /\
    (forall x, byte_at s2 x = stored (byte_at s) v (content seg) x).
Proof.
  intros Hw Hs Hm Hz v. destruct (seg_pages _ _ _ Hs) as (_ & _ & _ & P1 & P2 & P3 & P4).
  destruct Hs as [Hc [Hs1 Hs2] Ha Ht]. fold v in P1, P2, Ht. rewrite <- Hc in *. rewrite Z.min_id, Nat2Z.id, take_ge by lia.
  assert (H1 : exists s1, match content seg with [] => (true, s) | _ => mem_write v (content seg) s end = (true, s1) /\
    table_wf s1 /\ mm s1 = mm s /\ (forall b m, mapped b m s1 <-> mapped b m s) /\
    (forall x, byte_at s1 x = stored (byte_at s) v (content seg) x)).
  { destruct (content seg) as [|c0 cs] eqn:Ec.
    - exists s. split_and!; try done. intros x. unfold stored. by rewrite decide_False by (cbn; lia).
    - rewrite <- Ec in *.
      destruct (gwrite_mapped v (content seg) s) as (s1 & Hwr & _ & Hm1 & Hb1); [apply Hw| |by rewrite Ec|].
      { eapply mapped_sub; [done|rewrite Ec; cbn; lia|lia..]. }
      cbn in Hwr. exists s1. destruct (mem_write_keeps v (content seg) s) as [Em _].
      pose proof (write_table v (content seg) s Hw) as Ht1. rewrite Hwr in Em, Ht1. done. }
  destruct H1 as (s1 & E1 & W1 & M1 & Hm1 & Hb1). exists s1. rewrite E1.
  destruct (Z.ltb_spec (Z.of_nat (length (content seg))) (virtual_size seg)) as [Hlt|Hge].
  - unfold PAGE_SIZE in *. u64_simpl.
    destruct (zero_view (v + Z.of_nat (length (content seg))) (virtual_size seg - Z.of_nat (length (content seg))) s1)
      as (s2 & E2 & W2 & M2 & Hm2 & Hb2); [apply W1| |lia|].
    { apply Hm1. eapply mapped_sub; [done|lia..]. }
    exists s2. split_and!; [done|done|auto|congruence|intros b m; by rewrite Hm2, Hm1|].
    intros x. rewrite Hb2. unfold zeroed. destruct (decide _) as [Hx|]; [|done].
    unfold stored. rewrite decide_False by lia. symmetry. apply Hz. unfold in_pages. lia.
  - exists s1. done.
Qed.

Lemma load_segment_view min base seg s :
  table_wf s -> seg_ok min base seg -> seg_free min base seg s ->
  exists ok s', load_segment min base seg s = (ok, s') /\
    (ok = false -> (host_mmap (seg_len min base seg) (ext s)).1 = None) /\
    (ok = true -> table_wf s' /\
       (exists p hp, regions_ (mm s') = regions_ (mm s) ++ [new_region (seg_start min base seg) (seg_len min base seg) p "" hp]) /\
       (forall b m, mapped b m s -> mapped b m s') /\
       mapped (seg_start min base seg) (seg_len min base seg) s' /\
       (forall x, byte_at s' x = seg_image min base seg (byte_at s) x)).
Proof.
  intros Hw Hs Hf. pose proof (free_not_mapped _ _ _ _ Hw Hs Hf) as Hnm.
  pose proof (seg_pages _ _ _ Hs) as (E1 & E2 & E3 & P1 & P2 & P3 & P4).
  unfold load_segment. rewrite E1, E2, E3, Hnm.
  destruct (mem_map _ _ _ _ s) as [[] s1] eqn:Hmap.
  - apply mem_map_view in Hmap as (hp & W1 & M1 & Hm1 & Hk1 & Hb1); [|done|lia|lia|exact Hf].
    destruct (fill_segment min base seg s1) as (s2 & s3 & F1 & F2 & W3 & M3 & Hm3 & Hb3); [done..| |].
    { intros x Hx. rewrite Hb1. by rewrite decide_True. }
    cbv zeta in F1, F2. rewrite F1, F2. exists true, s3. split_and!; try done. intros _. split_and!; try done.
    + eexists _, hp. rewrite M3, M1. done.
    + intros b m Hb. by apply Hm3, Hk1.
    + by apply Hm3.
    + intros x. rewrite Hb3. unfold seg_image, stored. destruct (decide _); [done|]. apply Hb1.
  - exists false, s1. split_and!; try done. intros _. unfold mem_map in Hmap.
    destruct (host_mmap _ (ext s)) as [[h|] e1]; [|done].
    destruct (qemu_ready_ _); [destruct (target_mmap _ _ _ _)|]; done.
Qed.

(** * All segments *)

Definition apart_pages (min base : Z) (seg seg' : Segment) : Prop :=
  disj (seg_start min base seg) (seg_len min base seg) (seg_start min base seg') (seg_len min base seg').

Record segs_loaded (min base : Z) (segs : list Segment) s s' : Prop := {
  sl_table : table_wf s';
  sl_mapped b m : mapped b m s -> mapped b m s';
  sl_pages seg : seg ∈ segs -> mapped (seg_start min base seg) (seg_len min base seg) s';
  sl_image seg x : seg ∈ segs -> in_pages min base seg x ->
    byte_at s' x = stored (fun _ => Some 0) (seg_vaddr min base seg) (content seg) x;
  sl_frame x : (forall seg, seg ∈ segs -> ~ in_pages min base seg x) -> byte_at s' x = byte_at s x;
}.

Lemma content_in_pages min base seg x : seg_ok min base seg ->
  seg_vaddr min base seg <= x < seg_vaddr min base seg + virtual_size seg -> in_pages min base seg x.
Proof.
  intros Hs Hx. destruct (seg_pages _ _ _ Hs) as (_ & _ & _ & ? & ? & _). unfold in_pages. lia.
Qed.

Lemma seg_image_in min base seg f x : seg_ok min base seg -> in_pages min base seg x ->
  seg_image min base seg f x = stored (fun _ => Some 0) (seg_vaddr min base seg) (content seg) x.
Proof.
  intros Hs Hx. unfold seg_image, stored. destruct (decide _); [done|]. unfold zeroed.
  by rewrite decide_True.
Qed.

Lemma seg_image_out min base seg f x : seg_ok min base seg -> ~ in_pages min base seg x ->
  seg_image min base seg f x = f x.
Proof.
  intros Hs Hx. unfold seg_image. rewrite stored_out.
  - unfold zeroed. by rewrite decide_False.
  - intros Hin. apply Hx, content_in_pages; [done|]. destruct Hs as [? [? ?] _ _]. lia.
Qed.

Lemma load_all_view min base segs s :
  table_wf s -> Forall (seg_ok min base) segs -> Forall (fun seg => seg_free min base seg s) segs ->
  ForallOrdPairs (apart_pages min base) segs ->
  exists ok s', load_all min base segs s = (ok, s') /\
    (ok = false -> exists seg e, seg ∈ segs /\ (host_mmap (seg_len min base seg) e).1 = None) /\
    (ok = true -> segs_loaded min base segs s s').
Proof.
  revert s. induction segs as [|seg segs IH]; intros s Hw Hok Hfree Hap.
  { exists true, s. split_and!; try done. intros _. constructor; try done; [by intros ? ?%elem_of_nil|by intros ? ? ?%elem_of_nil]. }
  inversion Hap as [|? ? Hap1 Hap2]; subst. apply Forall_cons in Hok as [Ho1 Ho2].
  apply Forall_cons in Hfree as [Hf1 Hf2]. cbn [load_all].
  destruct (load_segment_view min base seg s Hw Ho1 Hf1) as ([] & s1 & -> & Hbad & Hgood).
  2: { exists false, s1. split_and!; try done. intros _. exists seg, (ext s). split; [by left|by apply Hbad]. }
  destruct (Hgood eq_refl) as (W1 & (p & hp & Er) & Hk & Hpg & Hb).
  destruct (IH s1) as (ok & s' & Ela & Hbad' & Hgood'); [done|done| |done|].
  { apply Forall_forall. intros q Hq r. rewrite Er, elem_of_app, list_elem_of_singleton.
    rewrite Forall_forall in Hf2, Hap1. intros [Hr| ->]; [by apply Hf2|]. by apply Hap1. }
  exists ok, s'. split_and!; try done.
  { intros Ho. destruct (Hbad' Ho) as (q & e & Hq & He). exists q, e. split; [by right|done]. }
  intros ->. destruct (Hgood' eq_refl) as [T1 T2 Tp T3 T4].
  rewrite Forall_forall in Hap1.
  constructor; [done|auto| | |].
  - intros q [->|Hq]%elem_of_cons; auto.
  - intros q x [->|Hq]%elem_of_cons Hx; [|by apply T3].
    rewrite T4, Hb; [by apply seg_image_in|]. intros q Hq Hx'.
    specialize (Hap1 q Hq). unfold apart_pages, disj, in_pages in *. lia.
  - intros x Hx. rewrite T4, Hb; [apply seg_image_out; [done|apply Hx; by left]|].
    intros q Hq. apply Hx. by right.
Qed.

(** * Symbols *)

Lemma collect_exports_other base min syms m name : name ∉ map si_name syms ->
  collect_exports base min syms m !! name = m !! name.
Proof.
  revert m. induction syms as [|y ys IH]; intros m Hni; [done|].
  apply not_elem_of_cons in Hni as [Hne Hni]. etrans; [by apply IH|]. cbn.
  destruct (_ && _); [by rewrite lookup_insert_ne|done].
Qed.

Lemma collect_exports_spec base min syms m sym :
  NoDup (map si_name syms) -> sym ∈ syms -> si_name sym <> EmptyString -> si_value sym <> 0 ->
  collect_exports base min syms m !! si_name sym = Some (base ⊕ si_value sym ⊖ min).
Proof.
  intros Hnd Hin Hn Hv. revert m Hnd Hin.
  induction syms as [|y ys IH]; intros m Hnd Hin; [by apply elem_of_nil in Hin|].
  apply NoDup_cons in Hnd as [Hni Hnd]. apply elem_of_cons in Hin as [<-|Hin].
  - etrans; [exact (collect_exports_other base min ys _ _ Hni)|]. cbn. rewrite bool_decide_eq_false_2 by done.
    rewrite (proj2 (Z.eqb_neq _ _) Hv). cbn. by rewrite lookup_insert_eq.
  - by apply IH.
Qed.

(** C16: Loading an ELF image. Segments whose pages meet neither each other nor any
    mapped region are mapped, filled and zero-extended: every file byte is at
    its run-time address, every other byte of the pages mapped for the segment
    (before its first byte, up to its memory size and up to the end of its last
    page) is zero, the whole segment is in those pages, all other
    memory is as before, the module records its base and span, and each
    exported symbol its run-time address.  The only way to fail is the host
    refusing memory. *)
Theorem elf_load_correct b base m s :
  let min := get_min_vaddr (Some b) in
  let segs := load_segments b in
  table_wf s -> Forall (seg_ok min base) segs -> Forall (fun seg => seg_free min base seg s) segs ->
  ForallOrdPairs (apart_pages min base) segs ->
  NoDup (map si_name (get_exports (Some b))) ->
  exists ok m' s', load (Some b) base m s = (ok, m', s') /\
    (ok = false -> exists seg e, seg ∈ segs /\ (host_mmap (seg_len min base seg) e).1 = None) /\
    (ok = true ->
       base_address m' = base /\ mod_size m' = get_memory_size (Some b) /\
       (forall seg, seg ∈ segs ->
          holds_at (byte_at s') (seg_vaddr min base seg) (content seg) /\
          (forall x, in_pages min base seg x -> ~ seg_vaddr min base seg <= x < seg_vaddr min base seg + physical_size seg ->
            byte_at s' x = Some 0) /\
          mapped (seg_start min base seg) (seg_len min base seg) s' /\
          seg_start min base seg <= seg_vaddr min base seg /\
          seg_vaddr min base seg + virtual_size seg <= seg_start min base seg + seg_len min base seg) /\
       (forall x, (forall seg, seg ∈ segs -> ~ in_pages min base seg x) -> byte_at s' x = byte_at s x) /\
       (forall sym, sym ∈ get_exports (Some b) -> si_name sym <> EmptyString ->
          exports m' !! si_name sym = Some (base ⊕ si_value sym ⊖ min))).
Proof.
  intros min segs Hw Hok Hfree Hap Hnd. unfold load. fold min segs. clearbody min.
  destruct (load_all_view min base segs s Hw Hok Hfree Hap) as ([] & s' & -> & Hbad & Hgood).
  2: { eexists _, _, _. split_and!; [done|done|discriminate]. }
  eexists _, _, _. split_and!; [done|discriminate|]. intros _. cbn -[byte_at].
  destruct (Hgood eq_refl) as [T1 T2 Tp T3 T4]. rewrite Forall_forall in Hok. split_and!; try done.
  - intros seg Hseg. specialize (Hok seg Hseg) as Hs. pose proof Hs as [Hc [Hs1 Hs2] _ _].
    destruct (seg_pages _ _ _ Hs) as (_ & _ & _ & ? & ? & _). split_and!; [| |by apply Tp|lia|lia].
    + intros i c Hi. pose proof (lookup_lt_Some _ _ _ Hi). (rewrite (T3 seg); [|done|apply content_in_pages; [done|lia]]).
      by apply stored_in.
    + intros x Hin Hx. rewrite (T3 seg) by done. by rewrite stored_out by lia.
  - intros sym Hsym Hn. apply collect_exports_spec; [done..|].
    apply list_elem_of_fmap in Hsym as (y & -> & [Hy _]%list_elem_of_filter). done.
Qed.

End Mapping.

(** * The hypotheses hold at a concrete file *)

Definition demo_seg (vaddr : Z) (bytes : list Z) (size : Z) : Segment :=
  {| seg_is_load := true; virtual_address := vaddr; virtual_size := size; physical_size := Z.of_nat (length bytes);
     seg_r := true; seg_w := true; seg_x := false; content := bytes |}.
Definition demo_elf : Binary :=
  {| machine_aarch64 := true; file_exec := false; entrypoint := 0;
     segments := [demo_seg 0x1000 [1; 2; 3; 4] 0x20; demo_seg 0x3008 [5; 6] 0x1800]; dynamic_entries := [];
     exported_symbols := [ {| sym_name := "f"; sym_value := 0x1002; sym_size := 4; sym_type := 2; sym_binding := 1;
                              sym_imported := false |} ];
     symtab_symbols := []; imported_symbols := []; relocations := [] |}.

Lemma mem0_table : table_wf mem0.
Proof. constructor; [|by intros ? ?%elem_of_nil]. split; constructor. Qed.

Lemma elf_load_correct_witness : exists m' s',
  load (Some demo_elf) 0x40000000 new_module mem0 = (true, m', s') /\
  exports m' !! "f"%string = Some 0x40000002 /\ byte_at s' 0x40002009 = Some 6 /\ byte_at s' 0x40003007 = Some 0 /\
  byte_at s' 0x40002007 = Some 0 /\ byte_at s' 0x40003fff = Some 0.
Proof.
  destruct (elf_load_correct demo_elf 0x40000000 new_module mem0) as (ok & m' & s' & E & _ & H).
  - exact mem0_table.
  - repeat constructor; vm_compute; discriminate.
  - apply Forall_forall. intros seg _ q Hq. by apply elem_of_nil in Hq.
  - constructor; [apply Forall_singleton; by left|constructor; constructor].
  - apply (bool_decide_unpack _). by vm_compute.
  - assert (Ho : ok = true) by (pose proof (f_equal (fun x => x.1.1) E) as E1; vm_compute in E1; congruence).
    destruct (H Ho) as (_ & _ & Hs & _ & Hx). subst ok. exists m', s'. split; [exact E|].
    destruct (Hs (demo_seg 0x3008 [5; 6] 0x1800) ltac:(right; by left)) as (H1 & H2 & _).
    split_and!; [| |apply H2; vm_compute; intuition congruence..].
    + apply (Hx {| si_name := "f"; si_value := 0x1002; si_size := 4; si_type := 2; si_bind := 1;
                        si_exported := true |}); [by left|done].
    + apply (H1 1%nat 6). done.
Defined.
