(* ===== verification/Paths.v ===== *)
(** File names: the string operations the sources use, and the translation
    between guest and host paths (src/include/hle_path_translation.h). *)

From Stdlib Require Import Ascii String.
From S2P Require Import Prelude.

(** * [std::string] *)

(** The bytes of a string. *)
Fixpoint string_bytes (s : string) : list Z :=
  match s with EmptyString => [] | String c t => Z.of_N (N_of_ascii c) :: string_bytes t end.

(** [s.substr(n)] for [n <= s.size()]. *)
Fixpoint str_drop (n : nat) (s : string) : string :=
  match n, s with
  | S n', String _ t => str_drop n' t
  | _, _ => s
  end.

(** [s.substr(0, n)]. *)
Fixpoint str_take (n : nat) (s : string) : string :=
  match n, s with
  | S n', String c t => String c (str_take n' t)
  | _, _ => EmptyString
  end.

(** [s.find(c) != npos]. *)
Fixpoint str_has (c : ascii) (s : string) : bool :=
  match s with EmptyString => false | String d t => bool_decide (c = d) || str_has c t end.

(** [s.find_last_of("/\\")]. *)
Definition is_slash (c : ascii) : bool := bool_decide (c = "/"%char) || bool_decide (c = "\"%char).
Fixpoint find_last_slash (s : string) : option nat :=
  match s with
  | EmptyString => None
  | String c t =>
      match find_last_slash t with
      | Some n => Some (S n)
      | None => if is_slash c then Some 0%nat else None
      end
  end.

(** The part after the last slash, and the directory of a file name. *)
Definition path_leaf (path : string) : string :=
  match find_last_slash path with None => path | Some n => str_drop (S n) path end.
Definition path_dir (file : string) : string :=
  match find_last_slash file with None => "." | Some n => str_take n file end.

Lemma prefix_split p s : String.prefix p s = true -> s = p +:+ str_drop (String.length p) s.
Proof.
  revert s. induction p as [|c p IH]; intros s H; [done|].
  destruct s as [|d s]; [done|]. simpl in H. destruct (ascii_dec c d) as [->|]; [|done].
  change (String d s = String d (p +:+ str_drop (String.length p) s)). f_equal. by apply IH.
Qed.

Lemma str_drop_app p s : str_drop (String.length p) (p +:+ s) = s.
Proof. induction p as [|c p IH]; [by destruct s|exact IH]. Qed.

(** * Guest and host paths *)

Definition kGuestTmpPrefix : string := "/data/local/tmp".
Definition kGuestTmpPrefixLen : nat := 15.
Definition kGuestSystemBinPrefix : string := "/system/bin/".
Definition kGuestSystemBinPrefixLen : nat := 12.
Definition kHostTmpPrefix : string := "/tmp".
Definition kHostTmpPrefixLen : nat := 4.

Definition is_guest_tmp_path (path : string) : bool :=
  bool_decide (path = "/data/local/tmp") || String.prefix "/data/local/tmp/" path.

Section Translate.
(** [::access(p, X_OK) == 0]. *)
Variable access_x : string -> bool.

Definition translate_guest_host_path (guest_path : string) : string :=
  if bool_decide (guest_path = kGuestTmpPrefix) then "/tmp"
  else if String.prefix "/data/local/tmp/" guest_path
  then "/tmp" +:+ str_drop kGuestTmpPrefixLen guest_path
  else if String.prefix kGuestSystemBinPrefix guest_path
  then let leaf := str_drop kGuestSystemBinPrefixLen guest_path in
       if access_x ("/bin/" +:+ leaf) then "/bin/" +:+ leaf
       else if access_x ("/usr/bin/" +:+ leaf) then "/usr/bin/" +:+ leaf
       else guest_path
  else guest_path.

Definition translate_host_guest_path (host_path : string) : string :=
  if bool_decide (host_path = kHostTmpPrefix) then "/data/local/tmp"
  else if String.prefix "/tmp/" host_path
  then "/data/local/tmp" +:+ str_drop kHostTmpPrefixLen host_path
  else host_path.

Definition translate_host_path_for_guest (guest_path host_path : string) : string :=
  if is_guest_tmp_path guest_path then translate_host_guest_path host_path else host_path.

(** A path under the guest's temporary directory comes back unchanged from the
    host. *)
Lemma tmp_path_roundtrip guest_path : is_guest_tmp_path guest_path = true ->
  translate_host_path_for_guest guest_path (translate_guest_host_path guest_path) = guest_path.
Proof.
  intros Ht. unfold translate_host_path_for_guest. rewrite Ht. unfold is_guest_tmp_path in Ht.
  unfold translate_guest_host_path. destruct (decide (guest_path = kGuestTmpPrefix)) as [->|Hne].
  - done.
  - rewrite (bool_decide_eq_false_2 _ Hne). unfold kGuestTmpPrefix in Hne.
    rewrite (bool_decide_eq_false_2 _ Hne) in Ht. cbn [orb] in Ht. rewrite Ht.
    apply prefix_split in Ht. revert Ht. generalize (str_drop (String.length "/data/local/tmp/") guest_path).
    intros rest ->.
    change ("/tmp" +:+ str_drop kGuestTmpPrefixLen ("/data/local/tmp/" +:+ rest)) with ("/tmp/" +:+ rest).
    unfold translate_host_guest_path. rewrite bool_decide_eq_false_2 by discriminate.
    by destruct rest.
Qed.
End Translate.
