(* ===== verification/Linker.v ===== *)
(** The dynamic linker of [Emulator] (src/src/emulator.cpp, "Library Loading" and
    "Dynamic loading"): loading libraries, symbol lookup and the
    dlopen/dlsym/dlclose/dlerror/dladdr back ends.

    [Emulator] is the part of the class these functions use; the memory manager,
    the HLE manager, the relocation handler and the ELF loader are the states of
    their own files.  The host's files, LIEF and the execution of guest code are
    arguments of the section [Dl].  Each function is one critical section of
    [modules_mutex_]; the constructors of a library run after [dl_open] released
    it. *)

From Stdlib Require Import Ascii String.
From S2P Require Import Prelude Env MemoryManager Machine HleManager Relocation ElfLoader Paths.

Section Linker.
Context {E : Env}.

Record Emulator := {
  memory_ : mstate;
  loader_ : option Binary;
  relocator_ : RelocationHandler;
  hle_ : HleManager;
  modules_ : list LoadedModule;
  modules_capacity : Z;
  global_symbols_ : gmap string Z;
  dl_refcounts_ : gmap Z Z;
  next_load_addr_ : Z;
  pending_init_funcs_ : list Z;
  first_binary_path_ : string;
  tl_dl_error : string;
}.

Definition eta_emu (e : Emulator) : Emulator :=
  Build_Emulator (memory_ e) (loader_ e) (relocator_ e) (hle_ e) (modules_ e) (modules_capacity e)
    (global_symbols_ e) (dl_refcounts_ e) (next_load_addr_ e) (pending_init_funcs_ e) (first_binary_path_ e)
    (tl_dl_error e).
#[export] Instance set_memory_ : Setter memory_ := ltac:(build_setter eta_emu memory_).
#[export] Instance set_loader_ : Setter loader_ := ltac:(build_setter eta_emu loader_).
#[export] Instance set_relocator_ : Setter relocator_ := ltac:(build_setter eta_emu relocator_).
#[export] Instance set_hle_ : Setter hle_ := ltac:(build_setter eta_emu hle_).
#[export] Instance set_modules_ : Setter modules_ := ltac:(build_setter eta_emu modules_).
#[export] Instance set_modules_capacity : Setter modules_capacity := ltac:(build_setter eta_emu modules_capacity).
#[export] Instance set_global_symbols_ : Setter global_symbols_ := ltac:(build_setter eta_emu global_symbols_).
#[export] Instance set_dl_refcounts_ : Setter dl_refcounts_ := ltac:(build_setter eta_emu dl_refcounts_).
#[export] Instance set_next_load_addr_ : Setter next_load_addr_ := ltac:(build_setter eta_emu next_load_addr_).
#[export] Instance set_pending_init_funcs_ : Setter pending_init_funcs_ :=
  ltac:(build_setter eta_emu pending_init_funcs_).
#[export] Instance set_first_binary_path_ : Setter first_binary_path_ :=
  ltac:(build_setter eta_emu first_binary_path_).
#[export] Instance set_tl_dl_error : Setter tl_dl_error := ltac:(build_setter eta_emu tl_dl_error).

Implicit Types e : Emulator.

(** [Emulator::mem_read] and friends. *)
#[export] Instance emu_machine : Machine Emulator := {|
  gread a n e := gread a n (memory_ e);
  gwrite a bs e := let '(ok, m) := gwrite a bs (memory_ e) in (ok, e <| memory_ := m |>);
  getr r e := getr r (memory_ e);
  putr r v e := e <| memory_ ::= putr r v |>;
|}.

(** The initialisers of the constructor. *)
Definition new_emulator (m : mstate) : Emulator :=
  {| memory_ := m; loader_ := None; relocator_ := new_relocator; hle_ := new_hle; modules_ := [];
     modules_capacity := 256; global_symbols_ := ∅; dl_refcounts_ := ∅; next_load_addr_ := CODE_BASE;
     pending_init_funcs_ := []; first_binary_path_ := ""; tl_dl_error := "" |}.

(** * Symbols *)

(** The first module whose table [tbl] has [name]. *)
Fixpoint first_symbol (tbl : LoadedModule -> gmap string Z) (name : string) (ms : list LoadedModule) : option Z :=
  match ms with
  | [] => None
  | m :: rest => match tbl m !! name with Some a => Some a | None => first_symbol tbl name rest end
  end.

Definition get_symbol_nolock (name : string) e : Z :=
  match first_symbol exports name (modules_ e) with
  | Some a => a
  | None =>
      match global_symbols_ e !! name with
      | Some a => a
      | None => default 0 (first_symbol local_symbols name (modules_ e))
      end
  end.
Definition get_symbol (name : string) e : Z := get_symbol_nolock name e.

(** The overload with a module name. *)
Fixpoint module_symbol (module name : string) (ms : list LoadedModule) : Z :=
  match ms with
  | [] => 0
  | m :: rest => if bool_decide (mod_name m = module) then default 0 (exports m !! name)
                 else module_symbol module name rest
  end.
Definition get_module_symbol (module name : string) e : Z := module_symbol module name (modules_ e).

(** [get_library_base]. *)
Fixpoint library_base (name : string) (ms : list LoadedModule) : Z :=
  match ms with
  | [] => 0
  | m :: rest => if bool_decide (mod_name m = name) then base_address m else library_base name rest
  end.
Definition get_library_base (name : string) e : Z := library_base name (modules_ e).

(** [hle_->get_stub_address(name)], which may allocate a stub. *)
Definition stub_address (name : string) e : Z * Emulator :=
  let '(addr, h, m) := HleManager.get_stub_address name (hle_ e) (memory_ e) in
  (addr, e <| hle_ := h |> <| memory_ := m |>).
Definition allocate_hle_stub (name : string) e : Z * Emulator := stub_address name e.

(** The exports of one module under either name. *)
Fixpoint first_export (sym_name base_name : string) (ms : list LoadedModule) : Z :=
  match ms with
  | [] => 0
  | m :: rest =>
      match exports m !! sym_name with
      | Some a => a
      | None =>
          if bool_decide (base_name <> sym_name)
          then match exports m !! base_name with Some a => a | None => first_export sym_name base_name rest end
          else first_export sym_name base_name rest
      end
  end.

Definition resolve_import (sym_name : string) e : Z * Emulator :=
  let base_name := strip_version_suffix sym_name in
  let '(addr, e1) := stub_address sym_name e in
  if negb (addr =? 0) then (addr, e1)
  else
    let '(addr2, e2) := if bool_decide (base_name <> sym_name) then stub_address base_name e1 else (0, e1) in
    if negb (addr2 =? 0) then (addr2, e2)
    else
      match global_symbols_ e2 !! sym_name with
      | Some a => (a, e2)
      | None =>
          match (if bool_decide (base_name <> sym_name) then global_symbols_ e2 !! base_name else None) with
          | Some a => (a, e2)
          | None => (first_export sym_name base_name (modules_ e2), e2)
          end
      end.

Fixpoint find_base (base : Z) (ms : list LoadedModule) : option LoadedModule :=
  match ms with
  | [] => None
  | m :: rest => if base_address m =? base then Some m else find_base base rest
  end.
Definition find_module_by_base (base : Z) e : option LoadedModule := find_base base (modules_ e).

(** [addr >= mod.base_address && addr < mod.base_address + mod.size]. *)
Definition contains (addr : Z) (m : LoadedModule) : bool :=
  (base_address m <=? addr) && (addr <? base_address m ⊕ mod_size m).

Fixpoint find_containing (addr : Z) (ms : list LoadedModule) : option LoadedModule :=
  match ms with
  | [] => None
  | m :: rest => if contains addr m then Some m else find_containing addr rest
  end.
Definition module_name_containing (addr : Z) e : string :=
  match find_containing addr (modules_ e) with Some m => mod_name m | None => "" end.
Definition main_module_base e : Z := match modules_ e with [] => 0 | m :: _ => base_address m end.

(** A zero-terminated copy of a string on the guest heap. *)
Definition intern_guest_string (s : string) e : Z * Emulator :=
  let '(addr, m1) := allocate_guest_memory (Z.of_nat (String.length s) + 1) 1 (memory_ e) in
  let m2 := if negb (addr =? 0) then (mem_write addr (string_bytes s ++ [0]) m1).2 else m1 in
  (addr, e <| memory_ := m2 |>).

(** * Loading *)

(** [(a + 0xFFFFF) & ~0xFFFFF]. *)
Definition align_1mb (a : Z) : Z := Z.land (a ⊕ 0xFFFFF) (u64_not 0xFFFFF).

(** The valid entries of the constructor table, from index [i], [n] of them. *)
Fixpoint read_init_funcs (addr i : Z) (n : nat) e : list Z :=
  match n with
  | O => []
  | S n' =>
      let rest := read_init_funcs addr (i + 1) n' e in
      match gread (addr ⊕ i ⊗ 8) 8 e with
      | Some bs => if valid_func (le_value bs) then le_value bs :: rest else rest
      | None => rest
      end
  end.

Definition init_funcs (base : Z) e : list Z :=
  let '(addr, size) := get_init_array_info (loader_ e) in
  if negb (addr =? 0) && (0 <? size)
  then read_init_funcs (addr ⊖ get_min_vaddr (loader_ e) ⊕ base) 0 (Z.to_nat (size / 8)) e
  else [].

Section Dl.
(** Host: [access(p, R_OK)], [access(p, X_OK)], the contents of a file,
    [getenv("LD_LIBRARY_PATH")]; LIEF; the indeterminate [symbol_value]; growth
    of a vector; and the engine: a deferred flush and a guest call. *)
Variables (access_r access_x : string -> bool) (read_file : string -> option (list Z))
          (ld_library_path : option string)
          (lief_parse : list Z -> option Binary) (uninit : Reloc -> Z) (grow : Z -> Z)
          (libafl_flush_jit : env -> env)
          (call_function call_function_safe : Z -> list Z -> Emulator -> Z * Emulator).

Definition relocate (base : Z) e : bool * Emulator :=
  let '(ok, h, e1) := process_relocations (get_relocations uninit (loader_ e)) base (Some resolve_import)
                        (relocator_ e) e in
  (ok, e1 <| relocator_ := h |>).

Definition load_elf (m : LoadedModule) e : bool * LoadedModule * Emulator :=
  let '(ok, m1, mem) := load (loader_ e) (next_load_addr_ e) m (memory_ e) in
  (ok, m1, e <| memory_ := mem |>).

(** [modules_.push_back(module)]. *)
Definition push_module (m : LoadedModule) e : Emulator :=
  let e1 := if modules_capacity e <=? Z.of_nat (length (modules_ e))
            then e <| modules_capacity ::= grow |> else e in
  e1 <| modules_ ::= fun ms => ms ++ [m] |>.

Definition load_library_data (name : string) (data : list Z) e : bool * Emulator :=
  match parse lief_parse data with
  | None => (false, e <| loader_ := None |>)
  | Some b =>
      let e0 := e <| loader_ := Some b |> in
      match load_elf (new_module <| mod_name := name |> <| mod_data := data |>) e0 with
      | (false, _, e1) => (false, e1)
      | (true, m, e1) =>
          let e2 := e1 <| next_load_addr_ := align_1mb (base_address m ⊕ mod_size m) |> in
          let m1 := if bool_decide (modules_ e2 = []) && negb (bool_decide (first_binary_path_ e2 = ""))
                    then m <| mod_path := first_binary_path_ e2 |> else m in
          let '(guest_name, e3) :=
            intern_guest_string (if bool_decide (mod_path m1 = "") then name else mod_path m1) e2 in
          let m2 := m1 <| guest_name_str := guest_name |> in
          match relocate (base_address m2) e3 with
          | (false, e4) => (false, e4)
          | (true, e4) =>
              let e5 := e4 <| pending_init_funcs_ ::= fun l => l ++ init_funcs (base_address m2) e4 |> in
              (true, push_module m2 e5)
          end
      end
  end.

Definition load_library (path : string) e : bool * Emulator :=
  match read_file path with
  | None => (false, e)
  | Some data =>
      let e1 := if bool_decide (first_binary_path_ e = "") then e <| first_binary_path_ := path |> else e in
      load_library_data (path_leaf path) data e1
  end.

Definition call_init_functions e : Emulator :=
  let e1 := foldl (fun e a => (call_function a [] e).2) e (pending_init_funcs_ e) in
  e1 <| pending_init_funcs_ := [] |>.

(** * dlopen *)

(** The non-empty parts between colons. *)
Fixpoint split_colons (cur s : string) : list string :=
  match s with
  | EmptyString => if bool_decide (cur = "") then [] else [cur]
  | String c t =>
      if bool_decide (c = ":"%char)
      then (if bool_decide (cur = "") then [] else [cur]) ++ split_colons "" t
      else split_colons (cur +:+ String c "") t
  end.

Definition readable (p : string) : bool := negb (bool_decide (p = "")) && access_r p.
Definition dir_of (file : string) : list string := if bool_decide (file = "") then [] else [path_dir file].

Definition resolve_library_path (guest_path : string) e : string :=
  if str_has "/"%char guest_path
  then let translated := translate_guest_host_path access_x guest_path in
       if readable translated then translated else if readable guest_path then guest_path else ""
  else
    let dirs := dir_of (first_binary_path_ e) ++ concat (map (fun m => dir_of (mod_path m)) (modules_ e))
                ++ match ld_library_path with Some s => split_colons "" s | None => [] end ++ ["."] in
    default "" (head (filter (fun cand => readable cand = true)
                        (map (fun d => d +:+ "/" +:+ guest_path) dirs))).

Definition load_module_locked (name host_path : string) (data : list Z) e : option (Z * list Z) * Emulator :=
  match parse lief_parse data with
  | None => (None, e <| loader_ := None |>)
  | Some b =>
      let e0 := e <| loader_ := Some b |> in
      let span := get_memory_size (loader_ e0) in
      let next := next_load_addr_ e0 in
      if (span =? 0) || (next ⊕ span <? next) || (HEAP_BASE <=? next ⊕ span) then (None, e0)
      else if modules_capacity e0 <=? Z.of_nat (length (modules_ e0)) then (None, e0)
      else
        match load_elf (new_module <| mod_name := name |> <| mod_path := host_path |>) e0 with
        | (false, _, e1) => (None, e1)
        | (true, m, e1) =>
            let e2 := e1 <| next_load_addr_ := align_1mb (base_address m ⊕ mod_size m) |> in
            match relocate (base_address m) e2 with
            | (false, e3) => (None, e3)
            | (true, e3) =>
                let funcs := init_funcs (base_address m) e3 in
                let '(guest_name, e4) := intern_guest_string host_path e3 in
                (Some (base_address m, funcs), push_module (m <| guest_name_str := guest_name |>) e4)
            end
        end
  end.

(** Is the library at [host_path] this module? *)
Definition same_library (host_path base_name : string) (m : LoadedModule) : bool :=
  (negb (bool_decide (mod_path m = "")) && bool_decide (mod_path m = host_path)) ||
  (bool_decide (mod_path m = "") && bool_decide (mod_name m = base_name)).

Definition kRtldNoload : Z := 0x4.

Definition quoted (s : string) : string := String "034"%char (s +:+ String "034"%char "").

(** The critical section: the handle (0 on failure) and the constructors. *)
Definition dl_open_locked (host_path : string) (flags : Z) e : Z * list Z * Emulator :=
  let base_name := path_leaf host_path in
  match List.find (same_library host_path base_name) (modules_ e) with
  | Some m =>
      let count := default 0 (dl_refcounts_ e !! base_address m) in
      (base_address m, [], e <| dl_refcounts_ ::= <[base_address m := count + 1]> |>)
  | None =>
      if negb (Z.land flags kRtldNoload =? 0) then (0, [], e)
      else match read_file host_path with
           | None => (0, [], e <| tl_dl_error := "dlopen failed: cannot open " +:+ quoted host_path |>)
           | Some data =>
               match load_module_locked base_name host_path data e with
               | (None, e1) =>
                   (0, [], e1 <| tl_dl_error := "dlopen failed: could not load/relocate " +:+ quoted host_path |>)
               | (Some (handle, funcs), e1) =>
                   (handle, funcs, e1 <| dl_refcounts_ ::= <[handle := 1]> |> <| memory_ ::= fun m => m <| ext ::= libafl_flush_jit |> |>)
               end
           end
  end.

Definition dl_open (guest_path : string) (flags : Z) e : Z * Emulator :=
  let e1 := e <| tl_dl_error := "" |> in
  let host_path := resolve_library_path guest_path e1 in
  if bool_decide (host_path = "")
  then (0, e1 <| tl_dl_error := "dlopen failed: cannot locate " +:+ quoted guest_path |>)
  else
    let '(handle, funcs, e2) := dl_open_locked host_path flags e1 in
    (handle, foldl (fun e a => (call_function_safe a [] e).2) e2 funcs).

End Dl.

(** * The other back ends *)

Definition undefined_symbol (name : string) : string := "dlsym: undefined symbol " +:+ quoted name.

Definition dl_sym (handle : Z) (name : string) e : Z * Emulator :=
  if (handle =? 0) || (handle =? UINT64_MAX)
  then
    let addr := get_symbol_nolock name e in
    if negb (addr =? 0) then (addr, e)
    else let '(addr, e1) := stub_address name e in
         (addr, if addr =? 0 then e1 <| tl_dl_error := undefined_symbol name |> else e1)
  else
    match find_module_by_base handle e with
    | None => (0, e <| tl_dl_error := "dlsym: invalid handle" |>)
    | Some m =>
        match exports m !! name with
        | Some a => (a, e)
        | None => (0, e <| tl_dl_error := undefined_symbol name |>)
        end
    end.

Definition dl_close (handle : Z) e : Z * Emulator :=
  match dl_refcounts_ e !! handle with
  | Some n => (0, if 0 <? n then e <| dl_refcounts_ ::= <[handle := n - 1]> |> else e)
  | None => (0, e)
  end.

Definition dl_take_error e : string * Emulator := (tl_dl_error e, e <| tl_dl_error := "" |>).

(** The nearest exported address not above [guest_addr]. *)
Definition best_addr (guest_addr : Z) (m : LoadedModule) : Z :=
  map_fold (fun _ v best => if (v <=? guest_addr) && (best <=? v) then v else best) 0 (exports m).

(** Four writes, stopping at the first that fails. *)
Fixpoint write_words (a : Z) (vs : list Z) e : bool * Emulator :=
  match vs with
  | [] => (true, e)
  | v :: rest => match gwrite a (le_bytes 8 v) e with
                 | (true, e1) => write_words (a ⊕ 8) rest e1
                 | (false, e1) => (false, e1)
                 end
  end.

Definition dl_addr (guest_addr info_ptr : Z) e : Z * Emulator :=
  if info_ptr =? 0 then (0, e)
  else match find_containing guest_addr (modules_ e) with
       | None => (0, e)
       | Some m =>
           if guest_name_str m =? 0 then (0, e)
           else let '(ok, e1) :=
                  write_words info_ptr [guest_name_str m; base_address m; 0; best_addr guest_addr m] e in
                (if ok then 1 else 0, e1)
       end.

(** * Hooks at exported addresses *)

Definition skipped_names : list string :=
  ["accept"; "accept4"; "bind"; "clock_nanosleep"; "connect"; "epoll_create"; "epoll_create1"; "epoll_ctl";
   "epoll_pwait"; "epoll_wait"; "getpeername"; "getsockname"; "getsockopt"; "listen"; "nanosleep"; "poll";
   "ppoll"; "ppoll64"; "pselect"; "recvfrom"; "recvmsg"; "select"; "sendmsg"; "sendto"; "setsockopt";
   "shutdown"; "sleep"; "socket"; "usleep"].

Definition hook_export (h : HleManager) (exp : string * Z) : HleManager :=
  let base_name := strip_version_suffix exp.1 in
  if bool_decide (base_name ∈ skipped_names) then h
  else if has_hle exp.1 h then register_address_for_function exp.2 exp.1 h
  else if bool_decide (base_name <> exp.1) && has_hle base_name h
       then register_address_for_function exp.2 base_name h
  else h.

(** [walk] is the order in which the hash table of a module is walked. *)
Definition hook_hle_functions_at_addresses (walk : LoadedModule -> list (string * Z)) e : Emulator :=
  e <| hle_ ::= fun h => foldl hook_export h (concat (map walk (modules_ e))) |>.

End Linker.
Arguments Emulator : clear implicits.
Arguments Emulator {E}.
