(* ===== verification/LinkerSpec.v ===== *)
(** Correctness of the dynamic linker: where modules lie, what handles and symbol
    lookups mean, and that a loaded module is relocated against the tables of the
    emulator. *)

From Stdlib Require Import Ascii String.
From S2P Require Import Prelude Env MemoryManager MemorySpec Machine HleManager Relocation RelocationSpec ElfLoader ElfSpec Paths Linker.

Lemma ForallOrdPairs_lookup {A} (R : A -> A -> Prop) l i j x y :
  ForallOrdPairs R l -> l !! i = Some x -> l !! j = Some y -> (i < j)%nat -> R x y.
Proof.
  intros H. revert i j. induction H as [|z l Hz Hl IH]; intros i j Hi Hj Hlt; [done|].
  destruct j as [|j]; [lia|]. destruct i as [|i]; cbn in *.
  - injection Hi as ->. rewrite Forall_forall in Hz. apply Hz. by eapply list_elem_of_lookup_2.
  - eapply IH; [done..|lia].
Qed.

(** * What loading leaves alone *)

(** The two emulators differ at most in the HLE manager and in memory. *)
Definition patched `{Env} (e e' : Emulator) : Prop := exists h m, e' = e <| hle_ := h |> <| memory_ := m |>.

Section Frame.
Context {E : Env}.
Implicit Types e : Emulator.

Lemma patched_refl e : patched e e.
Proof. exists (hle_ e), (memory_ e). by destruct e. Qed.

Lemma patched_trans e1 e2 e3 : patched e1 e2 -> patched e2 e3 -> patched e1 e3.
Proof. intros (h & m & ->) (h' & m' & ->). by exists h', m'. Qed.

Lemma patched_memory e m : patched e (e <| memory_ := m |>).
Proof. exists (hle_ e), m. by destruct e. Qed.

Lemma patched_gwrite a bs e : patched e (gwrite a bs e).2.
Proof. cbn. destruct (mem_write a bs (memory_ e)). apply patched_memory. Qed.

Lemma patched_stub n e : patched e (stub_address n e).2.
Proof. unfold stub_address. destruct (get_stub_address _ _ _) as [[a h] m]. by exists h, m. Qed.

Lemma patched_resolve n e : patched e (resolve_import n e).2.
Proof.
  unfold resolve_import. pose proof (patched_stub n e) as H1. destruct (stub_address n e) as [a e1]. cbn in H1.
  destruct (negb (a =? 0)); [done|].
  assert (H2 : patched e (if bool_decide (strip_version_suffix n <> n)
    then stub_address (strip_version_suffix n) e1 else (0, e1)).2).
  { destruct (bool_decide _); [|done]. eapply patched_trans; [exact H1|apply patched_stub]. }
  destruct (if bool_decide (strip_version_suffix n <> n) then _ else _) as [a2 e2]. cbn in H2.
  destruct (negb (a2 =? 0)); [done|].
  destruct (global_symbols_ e2 !! n); [done|].
  by destruct (if bool_decide _ then global_symbols_ e2 !! _ else None).
Qed.

Lemma relocate_patched uninit base e :
  exists h, patched (e <| relocator_ := h |>) (relocate uninit base e).2.
Proof.
  unfold relocate.
  pose proof (relocations_related patched base (get_relocations uninit (loader_ e)) (relocator_ e) e
    resolve_import patched_refl patched_trans patched_gwrite patched_resolve) as (h' & m & H).
  destruct (process_relocations _ _ _ _ _) as [[ok h] e1]. cbn in *. subst e1. exists h, h', m. by destruct e.
Qed.

Lemma intern_patched s e : patched e (intern_guest_string s e).2.
Proof.
  unfold intern_guest_string. destruct (allocate_guest_memory _ _ _) as [a m]. apply patched_memory.
Qed.

Lemma load_elf_patched m e : patched e (load_elf m e).2.
Proof. unfold load_elf. destruct (load _ _ _ _) as [[ok m1] mem]. apply patched_memory. Qed.

(** What a successful [load] puts into the module. *)
Lemma load_module b base m s m' s' : load (Some b) base m s = (true, m', s') ->
  base_address m' = base /\ mod_size m' = get_memory_size (Some b) /\ mod_name m' = mod_name m /\
  mod_path m' = mod_path m /\
  exports m' = collect_exports base (get_min_vaddr (Some b)) (get_exports (Some b)) (exports m).
Proof. unfold load. destruct (load_all _ _ _ _) as [[] s1]; [intros [= <- <-]; done|done]. Qed.

(** * The arena of modules *)

Definition MB : Z := 2 ^ 20.

Lemma align_1mb_spec a : 0 <= a -> a + MB <= two64 ->
  exists q, align_1mb a = MB * q /\ a <= MB * q < a + MB.
Proof.
  intros H0 H1. unfold align_1mb, MB in *. change 0xFFFFF with (2 ^ 20 - 1).
  rewrite (u64_small (a + (2 ^ 20 - 1))) by u64_lia. rewrite mask_low by u64_lia.
  exists ((a + (2 ^ 20 - 1)) / 2 ^ 20). pose proof (Z.div_mod (a + (2 ^ 20 - 1)) (2 ^ 20) ltac:(lia)).
  pose proof (Z.mod_pos_bound (a + (2 ^ 20 - 1)) (2 ^ 20) ltac:(lia)). lia.
Qed.

(** A module of the arena below [top]. *)
Record placed (top : Z) (m : LoadedModule) : Prop := {
  pl_low : CODE_BASE <= base_address m;
  pl_aligned : (MB | base_address m);
  pl_size : 0 < mod_size m;
  pl_high : base_address m + mod_size m <= top;
}.

(** The modules lie in load order, one above the other, below the load pointer,
    which stays between the code base and the heap; reference counts belong to
    modules. *)
Record linker_wf e : Prop := {
  lw_next : CODE_BASE <= next_load_addr_ e <= HEAP_BASE;
  lw_aligned : (MB | next_load_addr_ e);
  lw_placed : Forall (placed (next_load_addr_ e)) (modules_ e);
  lw_order : ForallOrdPairs (fun m m' => base_address m + mod_size m <= base_address m') (modules_ e);
  lw_refs h n : dl_refcounts_ e !! h = Some n -> 0 <= n /\ exists m, m ∈ modules_ e /\ base_address m = h;
}.

(** Only the tables matter. *)
Lemma wf_tables e e' : modules_ e' = modules_ e -> dl_refcounts_ e' = dl_refcounts_ e ->
  next_load_addr_ e' = next_load_addr_ e -> linker_wf e -> linker_wf e'.
Proof. intros Em Er En [H1 H2 H3 H4 H5]. constructor; by rewrite ?Em, ?Er, ?En. Qed.

Lemma wf_patched e e' : patched e e' -> linker_wf e -> linker_wf e'.
Proof. intros (h & m & ->). by apply wf_tables. Qed.

Lemma placed_mono t t' m : t <= t' -> placed t m -> placed t' m.
Proof. intros Ht []. constructor; try done. lia. Qed.

(** The load pointer moves up past a span that fits. *)
Lemma wf_advance e e' span : linker_wf e -> modules_ e' = modules_ e -> dl_refcounts_ e' = dl_refcounts_ e ->
  next_load_addr_ e' = align_1mb (next_load_addr_ e ⊕ span) -> 0 < span ->
  next_load_addr_ e + span < HEAP_BASE -> 
  linker_wf e' /\ next_load_addr_ e + span <= next_load_addr_ e'.
Proof.
  intros [H1 [k H2] H3 H4 H5] Em Er En Hs Ht. unfold CODE_BASE, HEAP_BASE, MB in *.
  rewrite (u64_small (_ + span)) in En by u64_lia.
  destruct (align_1mb_spec (next_load_addr_ e + span)) as (q & Eq & Hq); [lia|unfold MB, two64; lia|].
  rewrite Eq in En. unfold MB in *. split; [|lia].
  constructor; rewrite ?Em, ?Er, ?En; try done.
  - unfold CODE_BASE, HEAP_BASE. lia.
  - apply Z.divide_factor_l.
  - eapply Forall_impl; [exact H3|]. intros m. apply placed_mono. lia.
Qed.

Lemma wf_push e e' m : linker_wf e -> modules_ e' = modules_ e ++ [m] ->
  next_load_addr_ e' = next_load_addr_ e -> dl_refcounts_ e' = dl_refcounts_ e ->
  placed (next_load_addr_ e) m -> Forall (fun q => base_address q + mod_size q <= base_address m) (modules_ e) ->
  linker_wf e'.
Proof.
  intros [H1 H2 H3 H4 H5] Em En Er Hp Hall. constructor; rewrite ?Em, ?En, ?Er; try done.
  - apply Forall_app. split; [done|]. by apply Forall_singleton.
  - by apply ForallOrdPairs_snoc.
  - intros h n Hn. destruct (H5 h n Hn) as (? & q & Hq & <-). split; [done|]. exists q.
    split; [apply elem_of_app; by left|done].
Qed.

End Frame.

(** * dlopen *)

Section Open.
Context {E : Env}.
Implicit Types e : Emulator.
Variables (access_r access_x : string -> bool) (read_file : string -> option (list Z))
          (ld_library_path : option string)
          (lief_parse : list Z -> option Binary) (uninit : Reloc -> Z) (grow : Z -> Z)
          (libafl_flush_jit : env -> env)
          (call_function_safe : Z -> list Z -> Emulator -> Z * Emulator).

Local Notation load_module_locked := (Linker.load_module_locked lief_parse uninit grow).
Local Notation dl_open_locked := (Linker.dl_open_locked read_file lief_parse uninit grow libafl_flush_jit).
Local Notation dl_open := (Linker.dl_open access_r access_x read_file ld_library_path lief_parse uninit grow
                             libafl_flush_jit call_function_safe).

(** The span of a file fits below the heap at [e]'s load pointer. *)
Definition span_fits (b : Binary) e : Prop :=
  0 < get_memory_size (Some b) /\ next_load_addr_ e + get_memory_size (Some b) < HEAP_BASE.

(** A published module: where it lies, and its table of exports. *)
Record published (b : Binary) (host_path : string) e e' (m : LoadedModule) : Prop := {
  pb_modules : modules_ e' = modules_ e ++ [m];
  pb_base : base_address m = next_load_addr_ e;
  pb_size : mod_size m = get_memory_size (Some b);
  pb_path : mod_path m = host_path;
  pb_exports : exports m =
    collect_exports (next_load_addr_ e) (get_min_vaddr (Some b)) (get_exports (Some b)) ∅;
}.

Lemma memory_size_range b : 0 <= get_memory_size (Some b) < two64.
Proof. unfold get_memory_size. destruct (_ =? _); [done|]. apply u64_range. Qed.

(** The guard of the arena, as the code computes it at width 64. *)
Lemma span_guard b e : linker_wf e ->
  let span := get_memory_size (Some b) in
  (span =? 0) || (next_load_addr_ e ⊕ span <? next_load_addr_ e) || (HEAP_BASE <=? next_load_addr_ e ⊕ span) = false ->
  span_fits b e.
Proof.
  intros Hw span. pose proof (lw_next _ Hw) as Hn. pose proof (memory_size_range b) as Hs. fold span in Hs.
  intros Hg. zbool. unfold span_fits. fold span. unfold HEAP_BASE, CODE_BASE in *.
  destruct (decide (next_load_addr_ e + span < two64)) as [Hlt|Hge]; [u64_simpl; lia|exfalso].
  assert (E1 : next_load_addr_ e ⊕ span = next_load_addr_ e + span - two64).
  { unfold u64. rewrite <- (Z_mod_plus_full _ (-1)). apply Z.mod_small. u64_lia. }
  u64_lia.
Qed.

Lemma load_elf_module b m0 e m e1 : loader_ e = Some b -> load_elf m0 e = (true, m, e1) ->
  base_address m = next_load_addr_ e /\ mod_size m = get_memory_size (Some b) /\ mod_path m = mod_path m0 /\
  exports m = collect_exports (next_load_addr_ e) (get_min_vaddr (Some b)) (get_exports (Some b)) (exports m0).
Proof.
  intros Hb. unfold load_elf. rewrite Hb. destruct (load (Some b) _ m0 _) as [[ok m1] mem] eqn:Hl.
  intros [= -> -> _]. apply load_module in Hl as (? & ? & ? & ? & ?). done.
Qed.

Lemma push_fields m e :
  modules_ (push_module grow m e) = modules_ e ++ [m] /\
  next_load_addr_ (push_module grow m e) = next_load_addr_ e /\
  dl_refcounts_ (push_module grow m e) = dl_refcounts_ e.
Proof. unfold push_module. by destruct (_ <=? _). Qed.

(** Publishing after loading and relocating: [e4] is [e] with the load pointer
    moved past the module. *)
Lemma publish b host_path e e4 m :
  linker_wf e -> linker_wf e4 -> span_fits b e -> base_address m = next_load_addr_ e ->
  mod_size m = get_memory_size (Some b) -> mod_path m = host_path ->
  exports m = collect_exports (next_load_addr_ e) (get_min_vaddr (Some b)) (get_exports (Some b)) ∅ ->
  modules_ e4 = modules_ e -> next_load_addr_ e + get_memory_size (Some b) <= next_load_addr_ e4 ->
  linker_wf (push_module grow m e4) /\ published b host_path e (push_module grow m e4) m.
Proof.
  intros Hw Hw4 [Hs _] Eb Es Ep Ex Em Htop. destruct (push_fields m e4) as (F1 & F2 & F3). split.
  - eapply wf_push; [exact Hw4|exact F1|exact F2|exact F3| |].
    + constructor; rewrite ?Eb, ?Es; [apply Hw|apply Hw|done|done].
    + rewrite Em, Eb. eapply Forall_impl; [apply (lw_placed _ Hw)|]. by intros q [].
  - constructor; try done. by rewrite F1, Em.
Qed.

(** Every outcome of [load_module_locked]. *)
Lemma load_module_cases name host_path data e r e' :
  linker_wf e -> load_module_locked name host_path data e = (r, e') ->
  linker_wf e' /\ dl_refcounts_ e' = dl_refcounts_ e /\
  match r with
  | None => modules_ e' = modules_ e
  | Some (handle, funcs) => handle = next_load_addr_ e /\
      exists b m, lief_parse data = Some b /\ span_fits b e /\ published b host_path e e' m
  end.
Proof.
  intros Hw. unfold Linker.load_module_locked, parse. destruct (lief_parse data) as [b|].
  2: { intros [= <- <-]. split_and!; [by apply (wf_tables e)|done..]. }
  pose proof (span_guard b e Hw) as Hfit. cbv zeta in *.
  set (e0 := e <| loader_ := Some b |>). assert (Hw0 : linker_wf e0) by (by apply (wf_tables e)).
  change (loader_ e0) with (Some b). change (next_load_addr_ e0) with (next_load_addr_ e).
  destruct (_ || _ || _); [intros [= <- <-]; split_and!; [exact Hw0|done..]|]. specialize (Hfit eq_refl).
  destruct (_ <=? _); [intros [= <- <-]; split_and!; [exact Hw0|done..]|].
  set (m0 := new_module <| mod_name := name |> <| mod_path := host_path |>).
  pose proof (load_elf_patched m0 e0) as (h1 & mem1 & P1).
  destruct (load_elf m0 e0) as [[[] m] e1] eqn:Hl; cbn in P1.
  2: { intros [= <- <-]. rewrite P1. split_and!; [by apply (wf_tables e)|done..]. }
  apply (load_elf_module b) in Hl as (Eb & Es & Ep & Ex); [|done].
  change (next_load_addr_ e0) with (next_load_addr_ e) in *. rewrite Eb, Es.
  set (e2 := e1 <| next_load_addr_ := _ |>).
  destruct (wf_advance e0 e2 (get_memory_size (Some b)) Hw0) as [Hw2 Htop]; [by subst e2 e1..|apply Hfit|apply Hfit|].
  destruct (relocate_patched uninit (next_load_addr_ e) e2) as (rh & h3 & m3 & P3).
  destruct (relocate _ _ e2) as [[] e3]; cbn in P3.
  2: { intros [= <- <-]. rewrite P3. split_and!; [by apply (wf_tables e2)|by subst e2 e1..]. }
  pose proof (intern_patched host_path e3) as (h4 & m4 & P4).
  destruct (intern_guest_string host_path e3) as [gn e4]; cbn in P4. intros [= <- <-].
  destruct (publish b host_path e e4 (m <| guest_name_str := gn |>)) as [Hw5 Hpub];
    [done|rewrite P4, P3; by apply (wf_tables e2)|done..|by rewrite P4, P3; subst e2 e1|by rewrite P4, P3|].
  split_and!; [exact Hw5| |done|by exists b, (m <| guest_name_str := gn |>)].
  destruct (push_fields (m <| guest_name_str := gn |>) e4) as (_ & _ & ->). rewrite P4, P3. by subst e2 e1.
Qed.

(** * The critical section of dlopen *)

Lemma find_library_in host_path e m :
  List.find (same_library host_path (path_leaf host_path)) (modules_ e) = Some m -> m ∈ modules_ e.
Proof. intros H. apply list_elem_of_In. by apply List.find_some in H as [? _]. Qed.

Lemma wf_refs e e' h n : linker_wf e -> modules_ e' = modules_ e -> next_load_addr_ e' = next_load_addr_ e ->
  dl_refcounts_ e' = <[h := n]> (dl_refcounts_ e) -> 0 <= n -> (exists m, m ∈ modules_ e /\ base_address m = h) ->
  linker_wf e'.
Proof.
  intros [H1 H2 H3 H4 H5] Em En Er Hn Hm. constructor; rewrite ?Em, ?En; try done.
  intros h' n'. rewrite Er, lookup_insert. case_decide as Hd; [intros [= <-]; subst; done|]. apply H5.
Qed.

(** Every outcome of [dl_open_locked]. *)
Inductive open_outcome (host_path : string) e : Z * list Z * Emulator -> Prop :=
| open_known m e' : m ∈ modules_ e -> same_library host_path (path_leaf host_path) m = true ->
    e' = e <| dl_refcounts_ ::= <[base_address m := default 0 (dl_refcounts_ e !! base_address m) + 1]> |> ->
    open_outcome host_path e (base_address m, [], e')
| open_failed e' : List.find (same_library host_path (path_leaf host_path)) (modules_ e) = None ->
    modules_ e' = modules_ e -> dl_refcounts_ e' = dl_refcounts_ e -> linker_wf e' ->
    open_outcome host_path e (0, [], e')
| open_fresh data b m funcs e' : List.find (same_library host_path (path_leaf host_path)) (modules_ e) = None ->
    read_file host_path = Some data -> lief_parse data = Some b -> span_fits b e -> published b host_path e e' m ->
    dl_refcounts_ e' = <[next_load_addr_ e := 1]> (dl_refcounts_ e) -> linker_wf e' ->
    open_outcome host_path e (next_load_addr_ e, funcs, e').

Lemma dl_open_cases host_path flags e : linker_wf e -> open_outcome host_path e (dl_open_locked host_path flags e).
Proof.
  intros Hw. unfold Linker.dl_open_locked.
  destruct (List.find _ (modules_ e)) as [m|] eqn:Hf.
  { apply open_known; [by apply (find_library_in host_path)|by apply List.find_some in Hf as [_ ?]|done]. }
  destruct (negb _); [by apply open_failed|].
  destruct (read_file host_path) as [data|] eqn:Hr; [|apply open_failed; [done..|by apply (wf_tables e)]].
  destruct (load_module_locked _ _ _ e) as [[[h funcs]|] e1] eqn:Hl;
    destruct (load_module_cases _ _ _ _ _ _ Hw Hl) as (Hw1 & Er & Hc).
  - destruct Hc as (-> & b & m & Hp & Hfit & Hpub). cbv zeta.
    eapply open_fresh; [done|done|done|done| |cbn; by rewrite Er|].
    + destruct Hpub. constructor; try done.
    + eapply wf_refs; [exact Hw1|done|done|done|done|]. exists m. destruct Hpub as [Em Eb _ _ _].
      rewrite Em. split; [|done]. apply elem_of_app; right; by left.
  - apply open_failed; [done..|by apply (wf_tables e1)].
Qed.

Lemma dl_open_locked_wf host_path flags e : linker_wf e -> linker_wf (dl_open_locked host_path flags e).2.
Proof.
  intros Hw. destruct (dl_open_cases host_path flags e Hw) as [m e' Hm _ ->| |]; [|done..].
  eapply (wf_refs e); [done..| |by exists m]. destruct (dl_refcounts_ e !! base_address m) as [n|] eqn:Hn; [|done].
  apply (lw_refs _ Hw) in Hn as [? _]. cbn. lia.
Qed.

(** * Every operation *)

(** The operations a running guest has on the linker, each up to the release of
    the lock, and whatever it does to memory and to the error string. *)
Inductive dl_op :=
| OpOpen (host_path : string) (flags : Z)
| OpSym (handle : Z) (name : string)
| OpClose (handle : Z)
| OpError
| OpAddr (guest_addr info_ptr : Z)
| OpGuest (m : mstate) (err : string).

Definition run_op e (op : dl_op) : Emulator :=
  match op with
  | OpOpen host_path flags => (dl_open_locked host_path flags e).2
  | OpSym handle name => (dl_sym handle name e).2
  | OpClose handle => (dl_close handle e).2
  | OpError => (dl_take_error e).2
  | OpAddr a p => (dl_addr a p e).2
  | OpGuest m err => e <| memory_ := m |> <| tl_dl_error := err |>
  end.

Lemma write_words_patched a vs e : patched e (write_words a vs e).2.
Proof.
  revert a e. induction vs as [|v vs IH]; intros a e; [apply patched_refl|]. cbn [write_words].
  pose proof (patched_gwrite a (le_bytes 8 v) e) as H1. destruct (gwrite a (le_bytes 8 v) e) as [[] e1]; [|done].
  eapply patched_trans; [exact H1|apply IH].
Qed.

Lemma run_op_wf op e : linker_wf e -> linker_wf (run_op e op).
Proof.
  intros Hw. destruct op as [p f|h n|h| |a p|m err]; cbn [run_op].
  - by apply dl_open_locked_wf.
  - unfold dl_sym. destruct (_ || _).
    + destruct (negb _); [done|]. pose proof (patched_stub n e) as Hp.
      destruct (stub_address n e) as [a e1]; cbn in *. pose proof (wf_patched _ _ Hp Hw).
      destruct (_ =? _); [by apply (wf_tables e1)|done].
    + destruct (find_module_by_base h e) as [m|]; [destruct (exports m !! n)|]; by apply (wf_tables e).
  - unfold dl_close. destruct (dl_refcounts_ e !! h) as [n|] eqn:Hn; [|done]. cbn.
    destruct (Z.ltb_spec 0 n); [|done]. destruct (lw_refs _ Hw _ _ Hn) as (? & Hm).
    eapply (wf_refs e); [done..|lia|done].
  - by apply (wf_tables e).
  - unfold dl_addr. destruct (_ =? 0); [done|]. destruct (find_containing _ _) as [m|]; [|done].
    destruct (_ =? 0); [done|].
    pose proof (write_words_patched p [guest_name_str m; base_address m; 0; best_addr a m] e) as Hp.
    destruct (write_words _ _ _) as [ok e1]; cbn in *. by apply (wf_patched e).
  - by apply (wf_tables e).
Qed.

Lemma run_ops_wf ops e : linker_wf e -> linker_wf (foldl run_op e ops).
Proof. revert e. induction ops as [|op ops IH]; intros e Hw; [done|]. apply IH. by apply run_op_wf. Qed.

(** C14: The arena of modules. Starting from a state with the invariant, after any
    sequence of dlopen calls (constructors included: guest code reaches the
    linker only through the operations of this interface) the modules lie in
    load order below the load pointer, 1 MiB aligned and pairwise disjoint,
    none reaches the heap, and every reference count belongs to a
    module. *)
Theorem linker_invariant (paths : list (string * Z)) e :
  (forall a args e, exists ops, (call_function_safe a args e).2 = foldl run_op e ops) ->
  linker_wf e ->
  let e' := foldl (fun e p => (dl_open p.1 p.2 e).2) e paths in
  linker_wf e' /\
  (forall m m' i j, modules_ e' !! i = Some m -> modules_ e' !! j = Some m' -> i <> j ->
     disj (base_address m) (mod_size m) (base_address m') (mod_size m')) /\
  (forall m, m ∈ modules_ e' -> CODE_BASE <= base_address m /\ base_address m + mod_size m <= HEAP_BASE).
Proof.
  intros Hcall Hw e'.
  assert (Hcalls : forall funcs e, linker_wf e ->
    linker_wf (foldl (fun e a => (call_function_safe a [] e).2) e funcs)).
  { induction funcs as [|a funcs IH]; intros e0 H0; [done|]. apply IH.
    destruct (Hcall a [] e0) as [ops ->]. by apply run_ops_wf. }
  assert (Hw' : linker_wf e').
  { unfold e'. clear e'. revert e Hw. induction paths as [|[p f] paths IH]; intros e Hw; [done|]. apply IH.
    unfold Linker.dl_open. destruct (bool_decide _); [by apply (wf_tables e)|].
    set (e1 := e <| tl_dl_error := "" |>). assert (Hw1 : linker_wf e1) by (by apply (wf_tables e)).
    pose proof (dl_open_locked_wf (resolve_library_path access_r access_x ld_library_path (p, f).1 e1) f e1 Hw1).
    destruct (dl_open_locked _ _ e1) as [[h funcs] e2]. by apply Hcalls. }
  clearbody e'. split_and!; [done| |].
  - intros m m' i j Hi Hj Hne. pose proof (lw_order _ Hw') as Ho. unfold disj.
    destruct (Nat.lt_total i j) as [Hlt|[?|Hlt]]; [left|done|right].
    + exact (ForallOrdPairs_lookup _ _ i j m m' Ho Hi Hj Hlt).
    + exact (ForallOrdPairs_lookup _ _ j i m' m Ho Hj Hi Hlt).
  - intros m Hm. pose proof (lw_next _ Hw'). pose proof (lw_placed _ Hw') as Hp.
    rewrite Forall_forall in Hp. destruct (Hp m Hm). lia.
Qed.

(** * Handles *)

Lemma find_base_app base ms m : Forall (fun q => base_address q <> base) ms -> base_address m = base ->
  find_base base (ms ++ [m]) = Some m.
Proof.
  intros Hall Hb. induction ms as [|q ms IH]; cbn.
  - by rewrite Hb, Z.eqb_refl.
  - apply Forall_cons in Hall as [Hq Hall]. rewrite (proj2 (Z.eqb_neq _ _) Hq). by apply IH.
Qed.

Lemma find_snoc {A} (f : A -> bool) l x : List.find f l = None -> f x = true -> List.find f (l ++ [x]) = Some x.
Proof.
  intros Hl Hx. induction l as [|y l IH]; cbn in *; [by rewrite Hx|]. destruct (f y); [done|auto].
Qed.

(** What a handle means. When dlopen of a library that was not loaded
    returns a non-zero handle, the handle is the module's base, it has one
    reference, dlsym with it finds every exported symbol of the file at its
    run-time address, and opening the same path again (whatever the flags)
    returns the same handle with one more reference and runs no
    constructor.  Closing it drops a reference and leaves the symbols
    resolvable. *)
Theorem dl_open_handle host_path flags e h funcs e' :
  linker_wf e -> host_path <> "" ->
  List.find (same_library host_path (path_leaf host_path)) (modules_ e) = None ->
  dl_open_locked host_path flags e = (h, funcs, e') -> h <> 0 ->
  exists data b, read_file host_path = Some data /\ lief_parse data = Some b /\
  h = next_load_addr_ e /\ dl_refcounts_ e' !! h = Some 1 /\
  (forall flags', exists e2, dl_open_locked host_path flags' e' = (h, [], e2) /\
     dl_refcounts_ e2 = <[h := 2]> (dl_refcounts_ e')) /\
  (NoDup (map si_name (get_exports (Some b))) ->
   forall sym, sym ∈ get_exports (Some b) -> si_name sym <> "" ->
     let addr := h ⊕ si_value sym ⊖ get_min_vaddr (Some b) in
     dl_sym h (si_name sym) e' = (addr, e') /\
     dl_sym h (si_name sym) (dl_close h e').2 = (addr, (dl_close h e').2)).
Proof.
  intros Hw Hne Hnew Hopen Hh. pose proof (dl_open_cases host_path flags e Hw) as Hc. rewrite Hopen in Hc.
  inversion Hc as [m0 e0 Hin Hsame Ee|e0|data b m fs e0 _ Hr Hp [Hs1 Hs2] [Em Eb Es Epath Ex] Er Hw']; subst; [|done|].
  { apply list_elem_of_In in Hin. pose proof (List.find_none _ _ Hnew m0 Hin). congruence. }
  exists data, b. pose proof (lw_next _ Hw) as Hn. unfold CODE_BASE, HEAP_BASE in Hn.
  assert (Hfind : find_base (next_load_addr_ e) (modules_ e') = Some m).
  { rewrite Em. apply find_base_app; [|done]. eapply Forall_impl; [apply (lw_placed _ Hw)|].
    intros q [? ? ? ?]. lia. }
  split_and!; [done..|by rewrite Er, lookup_insert_eq| |].
  - intros flags'. unfold Linker.dl_open_locked. rewrite Em. rewrite (find_snoc _ _ m Hnew).
    2: { unfold same_library. rewrite bool_decide_eq_false_2, !bool_decide_eq_true_2 by done. done. }
    rewrite Eb. eexists. split; [done|]. cbn. by rewrite Er, lookup_insert_eq.
  - intros Hnd sym Hsym Hname addr.
    assert (Hval : exports m !! si_name sym = Some addr).
    { rewrite Ex. apply collect_exports_spec; [done..|].
      apply list_elem_of_fmap in Hsym as (y & -> & [Hy _]%list_elem_of_filter). done. }
    assert (Hdl : forall e2, modules_ e2 = modules_ e' -> dl_sym (next_load_addr_ e) (si_name sym) e2 = (addr, e2)).
    { intros e2 E2. unfold dl_sym, find_module_by_base. rewrite E2, Hfind, Hval.
      destruct (Z.eqb_spec (next_load_addr_ e) 0); [lia|].
      destruct (Z.eqb_spec (next_load_addr_ e) UINT64_MAX); [unfold UINT64_MAX in *; lia|]. done. }
    split; apply Hdl; [done|]. unfold dl_close. rewrite Er, lookup_insert_eq. done.
Qed.

(** A failed relocation is never forgotten. The relocation handler's failure
    count is not reset between modules, so after one library failed to relocate
    (one unknown ABS64 symbol is enough) no other library can be loaded,
    however well-formed, for as long as the count does not wrap around. *)
Theorem failed_relocation_poisons base e e1 :
  relocate uninit base e = (false, e1) -> 0 <= failed_count_ (relocator_ e1) ->
  forall name host_path data e2, relocator_ e2 = relocator_ e1 ->
  (forall b, lief_parse data = Some b -> failed_count_ (relocator_ e1) + Z.of_nat (length (relocations b)) < two64) ->
  (load_module_locked name host_path data e2).1 = None /\
  (load_library_data lief_parse uninit grow name data e2).1 = false.
Proof.
  intros Hrel Hpos name host_path data e2 Er Hlen.
  assert (Hf : 0 < failed_count_ (relocator_ e2)).
  { rewrite Er. unfold relocate, process_relocations in Hrel. destruct (foldl _ _ _) as [h s1].
    injection Hrel as Hz <-. apply Z.eqb_neq in Hz. cbn in *. lia. }
  assert (Hno : forall b base e3, relocator_ e3 = relocator_ e2 -> loader_ e3 = Some b -> lief_parse data = Some b ->
    (relocate uninit base e3).1 = false).
  { intros b base' e3 Er3 Hb Hp. unfold relocate.
    destruct (relocations_failed base' (get_relocations uninit (loader_ e3)) (Some resolve_import) (relocator_ e3) e3)
      as [H _].
    - by rewrite Er3.
    - rewrite Er3, Er, Hb. cbn. rewrite length_map. by apply Hlen.
    - destruct (process_relocations _ _ _ _ _) as [[ok h3] e4]. exact H. }
  unfold Linker.load_module_locked, load_library_data, parse.
  destruct (lief_parse data) as [b|] eqn:Hp; [|done]. set (e0 := e2 <| loader_ := Some b |>). cbv zeta.
  assert (H0 : relocator_ e0 = relocator_ e2 /\ loader_ e0 = Some b) by done. clearbody e0.
  split.
  - destruct (_ || _ || _); [done|]. destruct (_ <=? _); [done|].
    pose proof (load_elf_patched (new_module <| mod_name := name |> <| mod_path := host_path |>) e0) as (h1 & m1 & P1).
    destruct (load_elf _ e0) as [[[] m] e3]; [|done]. cbn in P1.
    set (e4 := e3 <| next_load_addr_ := _ |>).
    specialize (Hno b (base_address m) e4). destruct (relocate _ _ e4) as [ok e5]. cbn in Hno.
    rewrite Hno; [done|by subst e4 e3; apply H0..|done].
  - pose proof (load_elf_patched (new_module <| mod_name := name |> <| mod_data := data |>) e0) as (h1 & m1 & P1).
    destruct (load_elf _ e0) as [[[] m] e3]; [|done]. cbn in P1.
    set (e4 := e3 <| next_load_addr_ := _ |>). set (m2 := if _ && _ then _ else m).
    pose proof (intern_patched (if bool_decide (mod_path m2 = "") then name else mod_path m2) e4) as (h5 & m5 & P5).
    destruct (intern_guest_string _ e4) as [g e5]. cbn in P5. set (m3 := m2 <| guest_name_str := g |>).
    specialize (Hno b (base_address m3) e5). destruct (relocate _ _ e5) as [ok e6]. cbn in Hno.
    rewrite Hno; [done|by subst e5 e4 e3; apply H0..|done].
Qed.

End Open.

(** * Symbol resolution *)

(** Every registered function has its stub, as after [register_defaults]. *)
Definition hle_complete (h : HleManager) : Prop :=
  forall n, is_Some (callbacks_ h !! n) -> is_Some (stub_addresses_ h !! n).

(** The first non-zero answer. *)
Definition or_else (a b : Z) : Z := if a =? 0 then b else a.

(** Where an import is found: among the HLE stubs, then the emulator's own data
    symbols, then the exports of the modules in load order; everywhere under the
    full name before the name without its version. *)
Definition import_spec `{Env} (e : Emulator) (n : string) : Z :=
  let base := strip_version_suffix n in
  let stub k := default 0 (stub_addresses_ (hle_ e) !! k) in
  or_else (stub n) (or_else (stub base)
    (default (first_export n base (modules_ e))
       (match global_symbols_ e !! n with Some a => Some a | None => global_symbols_ e !! base end))).

Section Resolve.
Context {E : Env}.
Implicit Types e : Emulator.

Lemma stub_complete n e : hle_complete (hle_ e) ->
  stub_address n e = (default 0 (stub_addresses_ (hle_ e) !! n), e).
Proof.
  intros Hc. unfold stub_address, get_stub_address, has_hle.
  destruct (stub_addresses_ (hle_ e) !! n) as [a|] eqn:Ha; [by destruct e|].
  rewrite bool_decide_eq_false_2; [by destruct e|]. intros [x Hs]%Hc. congruence.
Qed.

Lemma resolve_import_spec n e : hle_complete (hle_ e) -> resolve_import n e = (import_spec e n, e).
Proof.
  intros Hc. unfold resolve_import, import_spec, or_else. cbv zeta. rewrite !stub_complete by done.
  set (base := strip_version_suffix n). set (a := default 0 _). destruct (a =? 0) eqn:Ha; [|done]. cbn.
  destruct (decide (base = n)) as [Eb|Hb].
  - rewrite Eb, bool_decide_eq_false_2 by (intros H; by apply H). cbn. fold a. rewrite Ha.
    by destruct (global_symbols_ e !! n).
  - rewrite !bool_decide_eq_true_2 by done. set (a2 := default 0 _). destruct (a2 =? 0); [|done]. cbn.
    destruct (global_symbols_ e !! n); [done|]. by destruct (global_symbols_ e !! base).
Qed.

End Resolve.

(** * The image of a module *)

(** The load bias: what is added to an address of the file ([seg_vaddr] adds it to the
    address of a segment). *)
Definition load_bias (min base : Z) : Z := base - min.

(** The word of the file at a run-time address: the bytes of a segment, zeroes in the rest of
    its pages. *)
Definition file_word (min base : Z) (seg : Segment) (a w : Z) : Prop :=
  seg_start min base seg <= a /\ a + 8 <= seg_start min base seg + seg_len min base seg /\
  exists bs, length bs = 8%nat /\ holds_at (stored (fun _ => Some 0) (seg_vaddr min base seg) (content seg)) a bs /\ le_value bs = w.

(** The 64-bit word that the AArch64 ELF ABI asks for at the site of a relocation, given the
    load bias, the addresses of imported symbols and the word [w] of the file at the site:
    bias + A for a RELATIVE entry, bias + w for a RELR entry (reported as RELATIVE
    with addend 0), S + A for the symbolic ones, where S is the module's own definition or
    else the address of the imported symbol.  IRELATIVE, whose word is the result of a guest function,
    is not among them. *)
Inductive abi_word (bias : Z) (symbol : string -> Z) (w : Z) (r : RelocationInfo) : Z -> Prop :=
| abi_relative : kind r = R_AARCH64_RELATIVE -> u64 (ri_addend r) <> 0 -> abi_word bias symbol w r (u64 (bias + ri_addend r))
| abi_relr : kind r = R_AARCH64_RELATIVE -> u64 (ri_addend r) = 0 -> abi_word bias symbol w r (u64 (bias + w))
| abi_own : kind r ∈ [R_AARCH64_ABS64; R_AARCH64_GLOB_DAT; R_AARCH64_JUMP_SLOT] -> ri_symbol_name r <> EmptyString -> ri_symbol_value r <> 0 ->
    u64 (bias + ri_symbol_value r) <> 0 -> abi_word bias symbol w r (u64 (bias + ri_symbol_value r + ri_addend r))
| abi_import : kind r ∈ [R_AARCH64_ABS64; R_AARCH64_GLOB_DAT; R_AARCH64_JUMP_SLOT] -> ri_symbol_name r <> EmptyString -> ri_symbol_value r = 0 ->
    symbol (ri_symbol_name r) <> 0 -> abi_word bias symbol w r (u64 (symbol (ri_symbol_name r) + ri_addend r)).

(** A symbolic relocation of a known symbol. *)
Lemma symbolic_effect symbol base w r : kind r ∈ [R_AARCH64_ABS64; R_AARCH64_GLOB_DAT; R_AARCH64_JUMP_SLOT] -> symbol_spec symbol base r <> 0 ->
  reloc_effect symbol base w r = Store (symbol_spec symbol base r ⊕ ri_addend r).
Proof.
  intros Hk Hs. unfold reloc_effect. rewrite (bool_decide_eq_false_2 (unknown symbol base r)) by (unfold unknown; tauto).
  set_unfold in Hk. destruct Hk as [-> | [-> | [-> | []]]]; done.
Qed.

(** Without a gap below the lowest segment the handler stores the words of the ABI. *)
Lemma abi_effect symbol base w r v : abi_word (load_bias 0 base) symbol w r v -> reloc_effect symbol base w r = Store v.
Proof.
  unfold load_bias. rewrite Z.sub_0_r. intros [Hk Ha|Hk Ha|Hk Hn Hv Hz|Hk Hn Hv Hz].
  - unfold reloc_effect. rewrite (bool_decide_eq_true_2 (_ \/ _)) by auto. by rewrite bool_decide_eq_false_2.
  - unfold reloc_effect. rewrite (bool_decide_eq_true_2 (_ \/ _)) by auto. by rewrite bool_decide_eq_true_2.
  - assert (Hs : symbol_spec symbol base r = u64 (base + ri_symbol_value r)) by (unfold symbol_spec; by rewrite bool_decide_eq_true_2).
    rewrite (symbolic_effect symbol base w r Hk), Hs, u64_add_l; [done|congruence].
  - assert (Hs : symbol_spec symbol base r = symbol (ri_symbol_name r)).
    { unfold symbol_spec. rewrite bool_decide_eq_false_2 by auto. rewrite bool_decide_eq_false_2 by done. by rewrite bool_decide_eq_true_2. }
    rewrite (symbolic_effect symbol base w r Hk), Hs; [done|congruence].
Qed.

(** Only an ABS64 entry with an unknown symbol is rejected. *)
Lemma rejected_unknown symbol base r : rejected symbol base r = false <-> (kind r = R_AARCH64_ABS64 -> ~ unknown symbol base r).
Proof.
  unfold rejected. rewrite bool_decide_eq_false. unfold reloc_effect.
  repeat case_bool_decide; unfold R_AARCH64_ABS64, R_AARCH64_RELATIVE, R_AARCH64_IRELATIVE in *; split; intros; (done || lia || tauto).
Qed.

Section Image.
Context {E : Env} `{!GuestMemLaws E, !CpuMemLaws E, !HostMapLaws E, !GuestMapLaws E}.
Implicit Types e : Emulator.

#[export] Instance emu_laws : MemLaws Emulator.
Proof.
  refine {| mem_ok e := mem_ok (memory_ e); mapped a n e := mapped a n (memory_ e);
            byte_at e := byte_at (memory_ e) |}.
  - intros a n e. exact (mapped_range a n (memory_ e)).
  - intros a n b m e. exact (mapped_sub a n b m (memory_ e)).
  - intros a n e. exact (gread_mapped a n (memory_ e)).
  - intros a bs e Hok Hm Hne. destruct (gwrite_mapped a bs (memory_ e) Hok Hm Hne) as (s' & Hw & Hr).
    exists (e <| memory_ := s' |>). cbn [gwrite emu_machine]. by rewrite Hw.
Defined.

Variable uninit : Reloc -> Z.

(** The hypotheses on a file: its segments can be placed at the load pointer, and
    every relocation that stores lies in the pages of one segment, apart from
    the others. *)
Record placeable (b : Binary) (base : Z) e : Prop := {
  pc_segs : Forall (seg_ok (get_min_vaddr (Some b)) base) (load_segments b);
  pc_free : Forall (fun seg => seg_free (get_min_vaddr (Some b)) base seg (memory_ e)) (load_segments b);
  pc_apart : ForallOrdPairs (apart_pages (get_min_vaddr (Some b)) base) (load_segments b);
  pc_site r : r ∈ get_relocations uninit (Some b) -> stores (import_spec e) base r = true ->
    exists seg, seg ∈ load_segments b /\
      seg_start (get_min_vaddr (Some b)) base seg <= site base r /\
      site base r + 8 <= seg_start (get_min_vaddr (Some b)) base seg + seg_len (get_min_vaddr (Some b)) base seg;
  pc_sites : ForallOrdPairs (apart_sites (import_spec e) base) (get_relocations uninit (Some b));
  pc_count : Z.of_nat (length (relocations b)) < two64;
}.

(** C13: The image of a library, from the file to relocated guest memory. When
    the segments of a file can be placed and its relocations lie inside them, the
    loader either is refused memory by the host or succeeds; relocation then
    succeeds exactly when no ABS64 symbol is unknown to the emulator's tables
    (HLE stubs, data symbols, exports of earlier modules).  Afterwards, when the lowest
    segment of the file is at address 0, every word that the AArch64 ABI defines
    ([abi_word]: RELATIVE, RELR, ABS64, GLOB_DAT and JUMP_SLOT) is at the run-time address of its
    site; for any lowest address every relocated word has the value of the
    handler's own table [reloc_effect], at base plus offset; every other byte of the pages
    is the file's or zero, and nothing outside the pages changed. *)
Theorem module_image b m0 e :
  let base := next_load_addr_ e in
  let min := get_min_vaddr (Some b) in
  let rels := get_relocations uninit (Some b) in
  loader_ e = Some b -> table_wf (memory_ e) -> hle_complete (hle_ e) -> placeable b base e ->
  failed_count_ (relocator_ e) = 0 -> 0 <= processed_count_ (relocator_ e) < two64 ->
  exists ok m e1, load_elf m0 e = (ok, m, e1) /\
  (ok = false -> exists seg x, seg ∈ load_segments b /\ (host_mmap (seg_len min base seg) x).1 = None) /\
  (ok = true -> forall next, exists ok2 e2,
     relocate uninit base (e1 <| next_load_addr_ := next |>) = (ok2, e2) /\
     (ok2 = true <-> forall r, r ∈ rels -> kind r = R_AARCH64_ABS64 -> ~ unknown (import_spec e) base r) /\
     (min = 0 -> forall r seg w v, r ∈ rels -> seg ∈ load_segments b -> file_word min base seg (u64 (load_bias min base + ri_offset r)) w ->
        abi_word (load_bias min base) (import_spec e) w r v -> word_at e2 (u64 (load_bias min base + ri_offset r)) v) /\
     (forall r w v, r ∈ rels -> in_place e1 (site base r) w ->
        reloc_effect (import_spec e) base w r = Store v -> word_at e2 (site base r) v) /\
     (forall x, (forall r, r ∈ rels -> stores (import_spec e) base r = true -> ~ site_of base x r) ->
        (forall seg, seg ∈ load_segments b -> in_pages min base seg x ->
           byte_at e2 x = stored (fun _ => Some 0) (seg_vaddr min base seg) (content seg) x) /\
        ((forall seg, seg ∈ load_segments b -> ~ in_pages min base seg x) -> byte_at e2 x = byte_at e x))).
Proof.
  intros base min rels Hb Hw Hc [Hsegs Hfree Hap Hsite Hsites Hcount] Hf Hp.
  destruct (load_all_view min base (load_segments b) (memory_ e) Hw Hsegs Hfree Hap) as (ok & s1 & Hall & Hbad & Hgood).
  unfold load_elf, load. rewrite Hb. fold base min. rewrite Hall. destruct ok.
  2: { eexists _, _, _. split_and!; [done|done|discriminate]. }
  eexists _, _, _. split_and!; [done|discriminate|]. intros _ next. clear Hbad.
  destruct (Hgood eq_refl) as [T1 T2 Tp T3 T4].
  set (e1 := (e <| memory_ := s1 |>) <| next_load_addr_ := next |>).
  assert (Hresolve : forall n x, (exists mem, x = e1 <| memory_ := mem |>) -> resolve_import n x = (import_spec e n, x)).
  { intros n x [mem ->]. by rewrite resolve_import_spec. }
  unfold relocate. change (loader_ e1) with (loader_ e). rewrite Hb. fold rels.
  rewrite (relocations_pure (fun x => exists mem, x = e1 <| memory_ := mem |>) (import_spec e)); [|done| |by exists s1].
  2: { intros a bs x [mem ->]. cbn. destruct (mem_write a bs mem) as [k mem']. by exists mem'. }
  pose proof (relocate_all (import_spec e) base rels (relocator_ e1) e1) as [_ _ R3 _ _ R6 R7].
  { apply T1. }
  { intros r Hr Hs. destruct (Hsite r Hr Hs) as (seg & Hseg & H1 & H2).
    eapply mapped_sub; [by apply (Tp seg)|lia|done|done]. }
  { exact Hsites. } { change (relocator_ e1) with (relocator_ e). u64_lia. } { exact Hp. }
  unfold process_relocations. destruct (foldl _ _ rels) as [h2 e2]. cbn [fst snd] in *.
  eexists _, _. split_and!; [done| | | |].
  - pose proof (length_filter (fun r => rejected (import_spec e) base r = true) rels) as Hle.
    assert (Hrl : length rels = length (relocations b)) by (unfold rels; cbn; by rewrite length_map).
    change (relocator_ e1) with (relocator_ e) in R3. rewrite Hf, Z.add_0_l, u64_small in R3 by u64_lia.
    rewrite Z.eqb_eq, R3. setoid_rewrite <- rejected_unknown. rewrite <- rejected_none. lia.
  - intros Hmin r seg w v Hr Hseg (Hlo & Hhi & bs & Hl & Hbs & Hw') Ha.
    assert (Hs : site base r = u64 (load_bias min base + ri_offset r)) by (rewrite Hmin; unfold load_bias, site; by rewrite Z.sub_0_r).
    rewrite <- Hs in *. rewrite Hmin in Ha. apply (R6 r w v Hr); [|by apply abi_effect].
    exists bs. split_and!; [done| |done]. intros i c Hi. pose proof (lookup_lt_Some _ _ _ Hi).
    etrans; [apply (T3 seg); [done|unfold in_pages; lia]|by apply Hbs].
  - intros r w v Hr Hin He. apply (R6 r w v Hr); [exact Hin|exact He].
  - intros x Hx. split.
    + intros seg Hseg Hin. etrans; [apply R7; exact Hx|]. by apply T3.
    + intros Hout. etrans; [apply R7; exact Hx|]. by apply T4.
Qed.

End Image.

(** * The hypotheses hold at a concrete library *)

Definition with_relocs (rs : list Reloc) : Binary :=
  {| machine_aarch64 := true; file_exec := false; entrypoint := 0; segments := segments demo_elf;
     dynamic_entries := []; exported_symbols := exported_symbols demo_elf; symtab_symbols := [];
     imported_symbols := []; relocations := rs |}.
Definition demo_lib : Binary :=
  with_relocs [ {| rel_address := 0x2010; rel_type := R_AARCH64_RELATIVE; rel_addend := 0x1002; rel_symbol := None |} ].
Definition bad_lib : Binary :=
  with_relocs [ {| rel_address := 0x2010; rel_type := R_AARCH64_ABS64; rel_addend := 0;
                   rel_symbol := Some ("missing"%string, 0) |} ].

Definition demo_parse (data : list Z) : option Binary :=
  match data with [1] => Some demo_lib | [2] => Some bad_lib | _ => None end.
Definition demo_files (path : string) : option (list Z) :=
  if bool_decide (path = "/lib/f.so"%string) then Some [1] else None.
Definition no_value (_ : Reloc) : Z := 0.
Definition demo_emu : Emulator (E := RefEnv) := new_emulator mem0.
Definition quiet_call (_ : Z) (_ : list Z) (e : Emulator (E := RefEnv)) : Z * Emulator := (0, e).

Lemma demo_wf : linker_wf demo_emu.
Proof.
  constructor; [done|by exists 0x400|exact (List.Forall_nil _)|exact (List.FOP_nil _)|done].
Qed.

Lemma linker_invariant_witness : exists e' : Emulator (E := RefEnv),
  linker_wf e' /\ map base_address (modules_ e') = [CODE_BASE].
Proof.
  destruct (linker_invariant (E := RefEnv) (fun _ => true) (fun _ => false) demo_files None demo_parse no_value
    (Z.mul 2) (fun x => x) quiet_call [("/lib/f.so"%string, 0)] demo_emu
    ltac:(intros a args e; by exists []) demo_wf) as [H _].
  eexists. split; [exact H|]. by vm_compute.
Defined.

Definition demo_open : Z * list Z * Emulator (E := RefEnv) :=
  dl_open_locked demo_files demo_parse no_value (Z.mul 2) (fun x => x) "/lib/f.so" 0 demo_emu.

Lemma dl_open_handle_witness : (dl_sym CODE_BASE "f" demo_open.2).1 = CODE_BASE + 2.
Proof.
  destruct (dl_open_handle demo_files demo_parse no_value (Z.mul 2) (fun x => x) "/lib/f.so" 0 demo_emu
    demo_open.1.1 demo_open.1.2 demo_open.2) as (data & b & Hr & Hp & _ & _ & _ & Hsym).
  - apply demo_wf.
  - discriminate.
  - reflexivity.
  - unfold demo_open. by destruct (dl_open_locked _ _ _ _ _ _ _ _) as [[h f] e'].
  - by vm_compute.
  - injection Hr as <-. injection Hp as <-.
    assert (Hin : symbol_info true {| sym_name := "f"; sym_value := 0x1002; sym_size := 4; sym_type := 2;
      sym_binding := 1; sym_imported := false |} ∈ get_exports (Some demo_lib)) by (by left).
    destruct (Hsym ltac:(apply (bool_decide_unpack _); by vm_compute) _ Hin ltac:(discriminate)) as [H _].
    exact (f_equal fst H).
Defined.

Lemma failed_relocation_poisons_witness : exists e1,
  relocate (E := RefEnv) no_value CODE_BASE (demo_emu <| loader_ := Some bad_lib |>) = (false, e1) /\
  (load_module_locked demo_parse no_value (Z.mul 2) "f.so" "/lib/f.so" [1] e1).1 = None.
Proof.
  exists (relocate (E := RefEnv) no_value CODE_BASE (demo_emu <| loader_ := Some bad_lib |>)).2.
  assert (H : relocate (E := RefEnv) no_value CODE_BASE (demo_emu <| loader_ := Some bad_lib |>) =
    (false, (relocate (E := RefEnv) no_value CODE_BASE (demo_emu <| loader_ := Some bad_lib |>)).2)) by reflexivity.
  split; [exact H|].
  apply (failed_relocation_poisons demo_parse no_value (Z.mul 2) CODE_BASE _ _ H); [by vm_compute|done|].
  intros b [= <-]. by vm_compute.
Defined.

(** A library whose lowest segment is at 0, with a pointer into itself, a RELR word, its own
    symbol and an imported one. *)
Definition image_reloc (a ty addend : Z) (sym : option (string * Z)) : Reloc :=
  {| rel_address := a; rel_type := ty; rel_addend := addend; rel_symbol := sym |}.
Definition image_lib : Binary :=
  {| machine_aarch64 := true; file_exec := false; entrypoint := 0;
     segments := [demo_seg 0 [1; 2; 3; 4] 0x20; demo_seg 0x2008 [5; 6] 0x1800]; dynamic_entries := [];
     exported_symbols := []; symtab_symbols := []; imported_symbols := [];
     relocations := [image_reloc 0x2010 R_AARCH64_RELATIVE 0x12 None; image_reloc 0x2008 R_AARCH64_RELATIVE 0 None;
                     image_reloc 0x2018 R_AARCH64_GLOB_DAT 0 (Some ("f"%string, 2)); image_reloc 0x2020 R_AARCH64_ABS64 8 (Some ("environ"%string, 0))] |}.
Definition image_emu : Emulator (E := RefEnv) := (demo_emu <| loader_ := Some image_lib |>) <| global_symbols_ := {["environ"%string := 0x5000]} |>.
Definition image_loaded : Emulator (E := RefEnv) := (load_elf new_module image_emu).2.

Lemma image_placeable : placeable no_value image_lib CODE_BASE image_emu.
Proof.
  constructor.
  - repeat constructor; vm_compute; discriminate.
  - apply Forall_forall. intros seg _ q Hq. by apply elem_of_nil in Hq.
  - constructor; [apply Forall_singleton; by left|constructor; constructor].
  - intros r Hr _. exists (demo_seg 0x2008 [5; 6] 0x1800). split; [right; by left|].
    cbn in Hr. set_unfold in Hr. destruct Hr as [-> | [-> | [-> | [-> | []]]]]; by vm_compute.
  - repeat constructor; vm_compute; intuition congruence.
  - by vm_compute.
Qed.

(** The eight bytes of the file at a site, as a word. *)
Definition image_data : Segment := demo_seg 0x2008 [5; 6] 0x1800.
Lemma image_word a bs w : seg_start 0 CODE_BASE image_data <= a -> a + 8 <= seg_start 0 CODE_BASE image_data + seg_len 0 CODE_BASE image_data ->
  length bs = 8%nat -> le_value bs = w -> map (stored (fun _ => Some 0) (seg_vaddr 0 CODE_BASE image_data) (content image_data)) (seqZ a 8) = map Some bs ->
  file_word 0 CODE_BASE image_data a w.
Proof.
  intros H1 H2 Hl Hw Hb. split_and!; [done..|]. exists bs. split_and!; [done| |done]. intros i b Hi. pose proof (f_equal (lookup i) Hb) as H. pose proof (lookup_lt_Some _ _ _ Hi).
  rewrite !list_lookup_fmap, Hi, lookup_seqZ_lt in H by lia. by injection H.
Qed.

Lemma image_rel (i : nat) r : get_relocations no_value (Some image_lib) !! i = Some r -> r ∈ get_relocations no_value (Some image_lib).
Proof. apply list_elem_of_lookup_2. Qed.

Lemma module_image_witness : exists m e2,
  load_elf new_module image_emu = (true, m, image_loaded) /\
  relocate no_value CODE_BASE (image_loaded <| next_load_addr_ := 0x40100000 |>) = (true, e2) /\
  word_at e2 (CODE_BASE + 0x2010) (CODE_BASE + 0x12) /\ word_at e2 (CODE_BASE + 0x2008) (CODE_BASE + 0x605) /\
  word_at e2 (CODE_BASE + 0x2018) (CODE_BASE + 2) /\ word_at e2 (CODE_BASE + 0x2020) 0x5008 /\ byte_at e2 (CODE_BASE + 1) = Some 2.
Proof.
  destruct (module_image no_value image_lib new_module image_emu) as (ok & m & e1 & Hl & _ & Hgood).
  - reflexivity.
  - exact mem0_table.
  - intros n [x Hx]. done.
  - exact image_placeable.
  - reflexivity.
  - done.
  - assert (Ho : ok = true) by (pose proof (f_equal (fun x => x.1.1) Hl) as E1; vm_compute in E1; congruence).
    assert (He : e1 = image_loaded) by (unfold image_loaded; by rewrite Hl). subst e1.
    destruct (Hgood Ho 0x40100000) as (ok2 & e2 & Hrel & Hiff & Habi & _ & Hx). subst ok.
    assert (Ho2 : ok2 = true) by (apply Hiff; intros r Hr; apply rejected_unknown; apply list_elem_of_In in Hr; revert r Hr; apply List.Forall_forall; repeat constructor).
    subst ok2. specialize (Habi eq_refl). exists m, e2. split_and!; [exact Hl|exact Hrel| | | | |].
    + refine (Habi (relocation_info no_value (image_reloc 0x2010 R_AARCH64_RELATIVE 0x12 None)) image_data 0 (CODE_BASE + 0x12) (image_rel 0 _ eq_refl) ltac:(right; by left) _ _); [by apply (image_word _ (replicate 8 0)); vm_compute|].
      by apply (abi_relative CODE_BASE).
    + refine (Habi (relocation_info no_value (image_reloc 0x2008 R_AARCH64_RELATIVE 0 None)) image_data 0x605 (CODE_BASE + 0x605) (image_rel 1 _ eq_refl) ltac:(right; by left) _ _); [by apply (image_word _ [5; 6; 0; 0; 0; 0; 0; 0]); vm_compute|].
      by apply (abi_relr CODE_BASE).
    + refine (Habi (relocation_info no_value (image_reloc 0x2018 R_AARCH64_GLOB_DAT 0 (Some ("f"%string, 2)))) image_data 0 (CODE_BASE + 2) (image_rel 2 _ eq_refl) ltac:(right; by left) _ _); [by apply (image_word _ (replicate 8 0)); vm_compute|].
      apply (abi_own CODE_BASE); [right; by left|done..].
    + refine (Habi (relocation_info no_value (image_reloc 0x2020 R_AARCH64_ABS64 8 (Some ("environ"%string, 0)))) image_data 0 0x5008 (image_rel 3 _ eq_refl) ltac:(right; by left) _ _); [by apply (image_word _ (replicate 8 0)); vm_compute|].
      apply (abi_import CODE_BASE (import_spec image_emu) 0 (relocation_info no_value (image_reloc 0x2020 R_AARCH64_ABS64 8 (Some ("environ"%string, 0))))); [by left|done..].
    + destruct (Hx (CODE_BASE + 1)) as [Hseg _].
      * intros r Hr _ Hs. cbn in Hr. set_unfold in Hr. unfold site_of in Hs. destruct Hr as [-> | [-> | [-> | [-> | []]]]]; vm_compute in Hs; destruct Hs as [Hs _]; by apply Hs.
      * etrans; [apply (Hseg (demo_seg 0 [1; 2; 3; 4] 0x20)); [by left|]|].
        { split; vm_compute; done. }
        vm_compute. done.
Defined.
