(* ===== verification/Arm64.v ===== *)
(** The A64 instructions CrossShim writes into guest memory itself (stubs and
    trampolines in src/src/emulator.cpp), with the meaning the Arm architecture
    gives them: decoding of their encodings and execution over the [Machine]
    interface.  This is what lets the theorems on stubs and trampolines speak
    about the code that runs and not only about the bytes that are written. *)

From S2P Require Import Prelude Env MemoryManager MemorySpec Machine.

(** * Decoding *)

Inductive insn :=
| ADDI (rd rn imm : Z)        (** [add rd, rn, #imm]; 31 is SP *)
| LDR (rt rn off : Z)         (** [ldr rt, [rn, #off]] *)
| LDP (rt rt2 rn off : Z)     (** [ldp rt, rt2, [rn, #off]] *)
| MOVZ (rd imm : Z)           (** [movz rd, #imm] *)
| BR (rn : Z)                 (** [br rn] and [ret rn] *)
| SVC (imm : Z)
| MSR_TPIDR (rt : Z).         (** [msr tpidr_el0, rt] *)

#[export] Instance insn_eq_dec : EqDecision insn.
Proof. solve_decision. Defined.

(** Bits [lo .. lo+n-1] of a word. *)
Definition field (w lo n : Z) : Z := Z.land (Z.shiftr w lo) (Z.ones n).
Definition sign_ext (n x : Z) : Z := if Z.testbit x (n - 1) then x - 2 ^ n else x.

Definition decode (w : Z) : option insn :=
  if field w 22 10 =? 0x244 then Some (ADDI (field w 0 5) (field w 5 5) (field w 10 12))
  else if field w 22 10 =? 0x3E5 then Some (LDR (field w 0 5) (field w 5 5) (8 * field w 10 12))
  else if field w 22 10 =? 0x2A5
  then Some (LDP (field w 0 5) (field w 10 5) (field w 5 5) (8 * sign_ext 7 (field w 15 7)))
  else if field w 21 11 =? 0x694 then Some (MOVZ (field w 0 5) (field w 5 16))
  else if (field w 10 22 =? 0x3587C0) && (field w 0 5 =? 0) then Some (BR (field w 5 5))
  else if (field w 10 22 =? 0x3597C0) && (field w 0 5 =? 0) then Some (BR (field w 5 5))
  else if (field w 21 11 =? 0x6A0) && (field w 0 5 =? 1) then Some (SVC (field w 5 16))
  else if field w 5 27 =? 0x6A8DE82 then Some (MSR_TPIDR (field w 0 5))
  else None.

(** * Execution *)

Section Exec.
Context {S : Type} `{M : !Machine S}.
Implicit Types s : S.

(** The general register field: 31 is the zero register. *)
Definition get_x (r : Z) s : Z := if r =? 31 then 0 else getr r s.
Definition put_x (r v : Z) s : S := if r =? 31 then s else putr r v s.

Inductive exec_result := Next (s : S) | Trap (s : S) | Fault.

Definition next_pc s : S := putr REG_PC (getr REG_PC s ⊕ 4) s.

Definition load64 (a : Z) s : option Z :=
  match gread a 8 s with Some bs => Some (le_value bs) | None => None end.

Definition exec (i : insn) s : exec_result :=
  match i with
  | ADDI rd rn imm => Next (next_pc (putr rd (getr rn s ⊕ imm) s))
  | LDR rt rn off =>
      match load64 (getr rn s ⊕ off) s with
      | Some v => Next (next_pc (put_x rt v s))
      | None => Fault
      end
  | LDP rt rt2 rn off =>
      match load64 (getr rn s ⊕ off) s, load64 (getr rn s ⊕ off ⊕ 8) s with
      | Some v, Some w => Next (next_pc (put_x rt2 w (put_x rt v s)))
      | _, _ => Fault
      end
  | MOVZ rd imm => Next (next_pc (put_x rd imm s))
  | BR rn => Next (putr REG_PC (get_x rn s) s)
  | SVC _ => Trap (next_pc s)
  | MSR_TPIDR rt => Next (next_pc (putr REG_TPIDR_EL0 (get_x rt s) s))
  end.

(** Fetch, decode, execute. *)
Definition step s : exec_result :=
  match gread (getr REG_PC s) 4 s with
  | None => Fault
  | Some bs => match decode (le_value bs) with Some i => exec i s | None => Fault end
  end.

(** [n] instructions without a trap. *)
Fixpoint steps (n : nat) s : exec_result :=
  match n with
  | O => Next s
  | Datatypes.S n' => match step s with Next s1 => steps n' s1 | r => r end
  end.

End Exec.
Arguments exec_result : clear implicits.

(** A list of instruction words in memory. *)
Definition code_bytes (ws : list Z) : list Z := concat (map (le_bytes 4) ws).

Lemma length_code_bytes ws : length (code_bytes ws) = (4 * length ws)%nat.
Proof.
  induction ws as [|w ws IH]; [done|]. unfold code_bytes in *. cbn [map concat].
  rewrite length_app, IH, length_le_bytes. cbn [length]. lia.
Qed.

Section Fetch.
Context {S : Type} `{M : !Machine S, L : !MemLaws S}.
Implicit Types s : S.

(** The code [ws] lies at [a], readable. *)
Definition code_at (a : Z) (ws : list Z) s : Prop :=
  mapped a (4 * Z.of_nat (length ws)) s /\ holds_at (byte_at s) a (code_bytes ws).

(** The [i]-th of a sequence of [k]-byte integers. *)
Lemma holds_at_chunk k f a ws i w : ws !! i = Some w ->
  holds_at f a (concat (map (le_bytes k) ws)) -> holds_at f (a + Z.of_nat k * Z.of_nat i) (le_bytes k w).
Proof.
  revert a i. induction ws as [|v ws IH]; intros a i Hi Hh; [done|].
  cbn [map concat] in Hh. apply holds_at_app in Hh as [H1 H2].
  rewrite length_le_bytes in H2. destruct i as [|i]; cbn in Hi.
  - injection Hi as ->. by replace (a + Z.of_nat k * Z.of_nat 0) with a by lia.
  - replace (a + Z.of_nat k * Z.of_nat (Datatypes.S i)) with (a + Z.of_nat k + Z.of_nat k * Z.of_nat i) by lia.
    by apply IH.
Qed.

Lemma fetch a ws i w s : mem_ok s -> code_at a ws s -> ws !! i = Some w -> 0 <= w < two32 ->
  gread (a + 4 * Z.of_nat i) 4 s = Some (le_bytes 4 w).
Proof.
  intros Hok [Hm Hh] Hi Hw. pose proof (lookup_lt_Some _ _ _ Hi).
  pose proof (gread_holds (a + 4 * Z.of_nat i) (le_bytes 4 w) s Hok) as Hg.
  rewrite length_le_bytes in Hg. apply Hg; [|done|exact (holds_at_chunk 4 _ _ _ _ _ Hi Hh)].
  eapply mapped_sub; [exact Hm|lia..].
Qed.

(** One step at a known instruction. *)
Lemma step_at a ws i w ins s : mem_ok s -> code_at a ws s -> ws !! i = Some w -> 0 <= w < two32 ->
  decode w = Some ins -> getr REG_PC s = a + 4 * Z.of_nat i -> step s = exec ins s.
Proof.
  intros Hok Hc Hi Hw Hd Hpc. unfold step. rewrite Hpc, (fetch a ws i w) by done.
  rewrite le_value_bytes. change (2 ^ (8 * Z.of_nat 4)) with two32. rewrite Z.mod_small by done. by rewrite Hd.
Qed.

(** A known 64-bit word. *)
Lemma load64_at a v s : mem_ok s -> mapped a 8 s -> word_at s a v -> 0 <= v < two64 -> load64 a s = Some v.
Proof.
  intros Hok Hm Hw Hv. unfold load64. pose proof (gread_holds a (le_bytes 8 v) s Hok) as Hg.
  rewrite length_le_bytes in Hg. change (Z.of_nat 8) with 8 in Hg. rewrite Hg by done.
  rewrite le_value_bytes. change (2 ^ (8 * Z.of_nat 8)) with two64. by rewrite Z.mod_small.
Qed.

End Fetch.
