(* ===== verification/GuestCall.v ===== *)
(** Calling guest code from the host (src/src/emulator.cpp): the run loop
    [Emulator::start], the call protocol [call_function_internal] with its safe
    variant for calls made from inside an HLE handler, and the trampolines
    [Emulator::initialize] writes for it.

    [gstate] is what one worker thread sees: memory with the registers of its
    CPU, and its thread-local variables.  [libafl_qemu_run] and the dispatch of an
    HLE address are arguments: [qemu_run] says how the run ended, and both may
    change everything (guest code, nested calls, [stop]).  The stored [cpu_] is
    one of QEMU's CPUs, so the third fallback for the CPU finds none where the
    first two found none.  Logging is left out.  A guest may run for ever: the
    loop is fuelled and [None] is "still running". *)

From S2P Require Import Prelude Env MemoryManager Machine HleManager Arm64.

Definition SAFE_CALL_STACK_BASE : Z := 0xA0000000.
Definition SAFE_CALL_STACK_SIZE : Z := 0x00800000.
Definition SAFE_CALL_STACK_CHUNK : Z := 0x00100000.
Definition CODE_SIZE : Z := 0x10000000.
Definition SAFE_CALL_TRAMPOLINE_ADDR : Z := HLE_BASE + 0xFFF80.
Definition SAFE_CALL_CONTEXT_SIZE : Z := 0x50.
Definition CALL_RETURN_STUB_ADDR : Z := HLE_BASE + 0xFFF00.
Definition SYS_CALL_RETURN : Z := 0x1238.

(** The two trampolines of [initialize]. *)
Definition safe_call_trampoline : list Z :=
  [0x910003E9; 0xF9400130; 0xA9408520; 0xA9418D22; 0xA9429524; 0xA9439D26; 0x9101413F; 0xD61F0200].
Definition call_return_trampoline : list Z := [0xD2824708; 0xD4000001; 0xD65F03C0].

Inductive ExitReason := ExitNone | Incomplete | CleanReturn | EndAddress.

(** How [libafl_qemu_run] came back: its result, whether another CPU than ours
    stopped, and whether the exit reason is a crash. *)
Record RunExit := { run_result : Z; other_cpu : bool; run_crash : bool }.

(** The result of a C++ call: a value or an exception. *)
Inductive outcome (A : Type) := Returned (a : A) | Raised.
Arguments Returned {A}.
Arguments Raised {A}.

(** The registers of [SafeCallContext], in the order in which they are saved. *)
Definition plain_regs : list Z := map Z.of_nat (seq 0 31) ++ [REG_SP; REG_PC; REG_CPSR; REG_TPIDR_EL0].
Definition vector_regs : list Z := map (fun i => REG_V (Z.of_nat i)) (seq 0 32).
Definition status_regs : list Z := [REG_FPSR; REG_FPCR].

Record SafeCallContext := { sc_plain : list Z; sc_vector : list (Z * Z); sc_status : list Z }.

Section Call.
Context {E : Env}.

Record gstate := {
  g_mem : mstate;
  tl_running : bool;
  tl_call_return_hit : bool;
  tl_start_exit_reason : ExitReason;
  call_depth : Z;
  tl_safe_stack_base : Z;
  last_call_succeeded_ : bool;
}.

Definition eta_gs (s : gstate) : gstate :=
  Build_gstate (g_mem s) (tl_running s) (tl_call_return_hit s) (tl_start_exit_reason s) (call_depth s)
    (tl_safe_stack_base s) (last_call_succeeded_ s).
#[export] Instance set_g_mem : Setter g_mem := ltac:(build_setter eta_gs g_mem).
#[export] Instance set_tl_running : Setter tl_running := ltac:(build_setter eta_gs tl_running).
#[export] Instance set_tl_call_return_hit : Setter tl_call_return_hit := ltac:(build_setter eta_gs tl_call_return_hit).
#[export] Instance set_tl_start_exit_reason : Setter tl_start_exit_reason :=
  ltac:(build_setter eta_gs tl_start_exit_reason).
#[export] Instance set_call_depth : Setter call_depth := ltac:(build_setter eta_gs call_depth).
#[export] Instance set_tl_safe_stack_base : Setter tl_safe_stack_base := ltac:(build_setter eta_gs tl_safe_stack_base).
#[export] Instance set_last_call_succeeded_ : Setter last_call_succeeded_ :=
  ltac:(build_setter eta_gs last_call_succeeded_).

Implicit Types s : gstate.

#[export] Instance gstate_machine : Machine gstate := {|
  gread a n s := gread a n (g_mem s);
  gwrite a bs s := let '(ok, m) := gwrite a bs (g_mem s) in (ok, s <| g_mem := m |>);
  getr r s := getr r (g_mem s);
  putr r v s := s <| g_mem ::= putr r v |>;
|}.

Definition cpu_available s : bool := has_cpu (ext (g_mem s)).

(** [memory_->write] where the result is ignored. *)
Definition store_ignoring (a : Z) (bs : list Z) s : gstate := (gwrite a bs s).2.

(** The trampolines [initialize] writes. *)
Definition write_call_trampolines s : gstate :=
  store_ignoring CALL_RETURN_STUB_ADDR (code_bytes call_return_trampoline)
    (store_ignoring SAFE_CALL_TRAMPOLINE_ADDR (code_bytes safe_call_trampoline) s).

(** * The run loop *)

Section Engine.
Variables (stack_size : Z)
          (qemu_run : gstate -> RunExit * gstate)
          (hle_handle : Z -> gstate -> hle_outcome * gstate).

Inductive verdict := Continue (s : gstate) | Break (s : gstate) | Throw (s : gstate).

(** What follows an HLE handler that ran. *)
Definition after_handler (current_pc : Z) s : verdict :=
  if getr REG_PC s =? current_pc
  then let lr := getr REG_LR s in if lr =? 0 then Break s else Continue (putr REG_PC lr s)
  else Continue s.

(** What follows a stop at an address that no handler claims. *)
Definition after_stop (r : RunExit) (current_pc : Z) s : verdict :=
  if (HLE_BASE <=? current_pc) && (current_pc <? HLE_BASE + HLE_SIZE)
  then Continue (putr REG_PC (getr REG_LR s) s)
  else if negb (run_result r =? 0)
  then if run_crash r then Break s
       else if (CODE_BASE <=? current_pc) && (current_pc <? CODE_BASE + CODE_SIZE) then Continue s
       else if (0x7F800000 <=? current_pc) && (current_pc <? 0x80000000) then Continue s
       else Break s
  else Continue s.

Definition loop_body (end_address : Z) s : verdict :=
  let '(r, s1) := qemu_run s in
  if tl_call_return_hit s1
  then Break (s1 <| tl_call_return_hit := false |> <| tl_start_exit_reason := CleanReturn |>)
  else if other_cpu r then Continue s1
  else
    let current_pc := getr REG_PC s1 in
    if current_pc =? 0 then Break s1
    else if negb (end_address =? 0) && (current_pc =? end_address)
    then Break (s1 <| tl_start_exit_reason := EndAddress |>)
    else match hle_handle current_pc s1 with
         | (Threw, s2) => Throw s2
         | (Handled, s2) => after_handler current_pc s2
         | (NotHandled, s2) => after_stop r current_pc s2
         end.

Fixpoint run_loop (fuel : nat) (end_address : Z) s : option (outcome unit * gstate) :=
  match fuel with
  | O => None
  | S fuel' =>
      if tl_running s
      then match loop_body end_address s with
           | Continue s1 => run_loop fuel' end_address s1
           | Break s1 => Some (Returned tt, s1)
           | Throw s1 => Some (Raised, s1)
           end
      else Some (Returned tt, s)
  end.

(** The stack pointer is replaced when it is not in a stack or mapped. *)
Definition fix_sp s : gstate :=
  let sp := getr REG_SP s in
  let in_main_stack := (STACK_BASE ⊖ stack_size <=? sp) && (sp <=? STACK_BASE) in
  let in_safe_call_stack :=
    (tl_safe_stack_base s <=? sp) && (sp <=? tl_safe_stack_base s ⊕ SAFE_CALL_STACK_SIZE) in
  let in_mapped_stack := negb (sp =? 0) && is_mapped sp (g_mem s) in
  if (sp =? 0) || (negb in_main_stack && negb in_safe_call_stack && negb in_mapped_stack)
  then putr REG_SP (STACK_BASE - 16) s else s.

Definition start (fuel : nat) (address end_address : Z) s : option (outcome bool * gstate) :=
  let s0 := s <| tl_running := true |> in
  if negb (cpu_available s0) then Some (Returned false, s0 <| tl_running := false |>)
  else
    let s1 := fix_sp (putr REG_PC address s0) in
    match run_loop fuel end_address (s1 <| tl_start_exit_reason := Incomplete |>) with
    | None => None
    | Some (Raised, s2) => Some (Raised, s2)
    | Some (Returned _, s2) => Some (Returned true, s2 <| tl_running := false |>)
    end.

Definition stop s : gstate := s <| tl_running := false |>.

(** * Calls *)

Definition save_context s : SafeCallContext :=
  {| sc_plain := map (fun r => getr r s) plain_regs;
     sc_vector := map (fun r => get_vreg r (ext (g_mem s))) vector_regs;
     sc_status := map (fun r => u32 (getr r s)) status_regs |}.

Definition put_regs (rvs : list (Z * Z)) s : gstate := foldl (fun s rv => putr rv.1 rv.2 s) s rvs.
Definition put_vregs (rvs : list (Z * (Z * Z))) s : gstate :=
  foldl (fun s rv => s <| g_mem ::= fun m => m <| ext ::= set_vreg rv.1 rv.2 |> |>) s rvs.

Definition restore_context (c : SafeCallContext) s : gstate :=
  put_regs (zip status_regs (sc_status c))
    (put_vregs (zip vector_regs (sc_vector c)) (put_regs (zip plain_regs (sc_plain c)) s)).

(** [arg_values[i]] into X0-X7. *)
Definition set_arg_regs (args : list Z) s : gstate :=
  put_regs (zip (map Z.of_nat (seq 0 8)) (take 8 args)) s.

(** The arguments from the ninth on, at [sp]. *)
Fixpoint write_stack_args (sp : Z) (args : list Z) s : gstate :=
  match args with
  | [] => s
  | a :: rest => write_stack_args (sp ⊕ 8) rest (store_ignoring sp (le_bytes 8 a) s)
  end.

(** [SafeCallFrame]: the target and eight argument registers. *)
Definition call_frame (target : Z) (args : list Z) : list Z :=
  le_bytes 8 target ++ concat (map (le_bytes 8) (take 8 (args ++ replicate 8 0))).

(** The stack pointer of the callee, the frame below it; [None] when the safe-call
    stack is exhausted. *)
Definition safe_frame (args : list Z) (safe_stack_top next_call_depth base : Z) : option (Z * Z) :=
  let n := Z.of_nat (length args) in
  let raw_stack_arg_bytes := if 8 <? n then (n - 8) ⊗ 8 else 0 in
  let stack_arg_bytes := if raw_stack_arg_bytes =? 0 then 0 else align_up raw_stack_arg_bytes 16 in
  if negb (safe_stack_top =? 0)
  then let target_sp := align_down (safe_stack_top ⊖ stack_arg_bytes) 16 in
       Some (target_sp, target_sp ⊖ SAFE_CALL_CONTEXT_SIZE)
  else
    let stack_offset := next_call_depth ⊗ SAFE_CALL_STACK_CHUNK in
    if SAFE_CALL_STACK_SIZE <=? stack_offset then None
    else
      let target_sp := base ⊕ SAFE_CALL_STACK_SIZE ⊖ stack_offset ⊖ 0x100 ⊖ stack_arg_bytes in
      let frame_base := target_sp ⊖ SAFE_CALL_CONTEXT_SIZE in
      let chunk_base := base ⊕ SAFE_CALL_STACK_SIZE ⊖ stack_offset ⊖ SAFE_CALL_STACK_CHUNK in
      if frame_base <? chunk_base ⊕ 0x100 then None else Some (target_sp, frame_base).

(** Everything before [start]: [None] is the early [return -1]. *)
Definition prepare_safe (address : Z) (args : list Z) (safe_stack_top : Z) s : option gstate :=
  match safe_frame args safe_stack_top (call_depth s + 1) (tl_safe_stack_base s) with
  | None => None
  | Some (target_sp, frame_base) =>
      let s1 := store_ignoring frame_base (call_frame address args) s in
      let s2 := write_stack_args target_sp (drop 8 args) s1 in
      Some (putr REG_SP frame_base s2)
  end.

Definition prepare_plain (args : list Z) s : gstate :=
  let s1 := set_arg_regs args s in
  write_stack_args (getr REG_SP s1) (drop 8 args) s1.

(** The common part: depth, return address and entry point. *)
Definition enter (entry_address : Z) s : gstate :=
  putr REG_PC entry_address
    (putr REG_LR CALL_RETURN_STUB_ADDR (s <| call_depth := call_depth s + 1 |>)).

Definition FAILED : Z := 0xFFFFFFFFFFFFFFFF.

Definition call_function_internal_impl (fuel : nat) (address : Z) (args : list Z) (is_safe : bool)
    (safe_stack_top : Z) s : option (outcome Z * gstate) :=
  if negb (cpu_available s) then Some (Returned FAILED, s)
  else
    let saved_ctx := save_context s in
    let saved_running := tl_running s in
    match (if is_safe then prepare_safe address args safe_stack_top s else Some (prepare_plain args s)) with
    | None => Some (Returned FAILED, s)
    | Some s1 =>
        let entry_address := if is_safe then SAFE_CALL_TRAMPOLINE_ADDR else address in
        match start fuel entry_address CALL_RETURN_STUB_ADDR (enter entry_address s1) with
        | None => None
        | Some (Raised, s2) => Some (Raised, s2)
        | Some (Returned success, s2) =>
            let s3 := s2 <| call_depth := call_depth s2 - 1 |> in
            let call_result := getr REG_X0 s3 in
            let s4 := if is_safe then (restore_context saved_ctx s3) <| tl_running := saved_running |> else s3 in
            Some (Returned (if success then call_result else FAILED), s4)
        end
    end.

(** The exception firewall. *)
Definition call_function_internal (fuel : nat) (address : Z) (args : list Z) (is_safe : bool)
    (safe_stack_top : Z) s : option (Z * gstate) :=
  match call_function_internal_impl fuel address args is_safe safe_stack_top s with
  | None => None
  | Some (Returned v, s1) => Some (v, s1)
  | Some (Raised, s1) => Some (FAILED, s1 <| last_call_succeeded_ := false |>)
  end.

(** The branch of [pre_syscall_hook] for [SYS_CALL_RETURN]: the value handed back
    to the guest's X0. *)
Definition syscall_call_return s : Z * gstate :=
  (getr REG_X0 s, s <| tl_call_return_hit := true |>).

End Engine.
End Call.
Arguments gstate : clear implicits.
Arguments gstate {E}.
Arguments verdict : clear implicits.
Arguments verdict {E}.
