(* ===== verification/GuestCallSpec.v ===== *)
(** Correctness of guest calls: the stubs and trampolines run as intended, a safe
    call delivers its arguments by the procedure call standard and leaves no
    trace in the caller's registers, and what goes wrong when a handler
    throws. *)

From S2P Require Import Prelude Env MemoryManager MemorySpec Machine HleManager Arm64 GuestCall.

(** * Stubs *)

(** A decidable property of a range of integers, checked value by value. *)
Fixpoint check_range (p : Z -> bool) (n : nat) (x : Z) : bool :=
  match n with O => true | S n' => p x && check_range p n' (x + 1) end.

Lemma check_range_spec p n x : check_range p n x = true -> forall y, x <= y < x + Z.of_nat n -> p y = true.
Proof.
  revert x. induction n as [|n IH]; intros x H y Hy; [lia|]. cbn [check_range] in H.
  apply andb_true_iff in H as [H1 H2]. destruct (decide (y = x)) as [->|]; [done|]. apply (IH (x + 1)); [done|lia].
Qed.

Lemma decode_movz8 n : 0 <= n < 0x10000 -> decode (mov_insn n) = Some (MOVZ 8 n) /\ 0 <= mov_insn n < two32.
Proof.
  intros Hn. split.
  - apply (bool_decide_eq_true (decode (mov_insn n) = Some (MOVZ 8 n))).
    refine (check_range_spec (fun n => bool_decide (decode (mov_insn n) = Some (MOVZ 8 n))) (2 ^ 16) 0 _ n _);
      [by vm_compute|]. change (Z.of_nat (2 ^ 16)) with 0x10000. lia.
  - apply Z.mod_pos_bound. done.
Qed.

Section Stub.
Context {S : Type} `{M : !Machine S, L : !MemLaws S, R : !RegFileLaws S}.
Implicit Types s : S.

(** Registers that hold any 64-bit value. *)
Definition wide (r : Z) : Prop := forall v, 0 <= v < two64 -> fits r v.

Lemma code_at_putr a ws r v s : code_at a ws s -> code_at a ws (putr r v s).
Proof.
  intros [H1 H2]. split; [by apply mapped_putr|]. eapply holds_at_ext; [|exact H2]. intros x _. by rewrite byte_putr.
Qed.

Lemma stub_code_words n : stub_code n = code_bytes [mov_insn n; SVC_INSN; RET_INSN].
Proof. reflexivity. Qed.

(** The code of a stub. Executed from its first instruction, the stub for
    system call number [n] (HLE stubs use 0x2000 and up; the call-return
    trampoline is the stub for [SYS_CALL_RETURN]) traps after one instruction
    with [n] in X8, everything else but PC as before, and when the trap is
    over it returns to the address in LR. *)
Theorem stub_traps a n s :
  mem_ok s -> cpu_ok s -> mapped a 12 s -> holds_at (byte_at s) a (stub_code n) -> 0 <= n < 0x10000 ->
  wide REG_PC -> wide 8 -> getr REG_PC s = a ->
  exists s1 s2, step s = Next s1 /\ step s1 = Trap s2 /\
    getr 8 s2 = n /\ getr REG_PC s2 = a + 8 /\
    (forall r, r <> 8 -> r <> REG_PC -> getr r s2 = getr r s) /\ (forall x, byte_at s2 x = byte_at s x) /\
    forall s3, mem_ok s3 -> mapped a 12 s3 -> holds_at (byte_at s3) a (stub_code n) -> getr REG_PC s3 = a + 8 ->
      step s3 = Next (putr REG_PC (getr REG_LR s3) s3).
Proof.
  intros Hok Hcpu Hm Hh Hn Wpc W8 Hpc. rewrite stub_code_words in *.
  set (ws := [mov_insn n; SVC_INSN; RET_INSN]) in *.
  destruct (decode_movz8 n Hn) as [Hd Hw]. pose proof (mapped_range a 12 s Hok Hm) as [Ha Ht].
  assert (Hc : code_at a ws s) by (split; [exact Hm|exact Hh]).
  assert (E1 : step s = exec (MOVZ 8 n) s).
  { apply (step_at a ws 0 (mov_insn n)); [done..|]. rewrite Hpc. cbn. lia. }
  set (s1 := next_pc (put_x 8 n s)).
  assert (Hpc1 : getr REG_PC s1 = a + 4).
  { unfold s1, next_pc, put_x. change (8 =? 31) with false. cbv iota.
    rewrite (getr_putr_ne REG_PC 8) by done. rewrite Hpc, getr_putr; [apply u64_small; u64_lia|by apply cpu_putr|].
    apply Wpc. apply u64_range. }
  assert (Hok1 : mem_ok s1) by (by apply ok_putr, ok_putr).
  assert (Hcpu1 : cpu_ok s1) by (by apply cpu_putr, cpu_putr).
  assert (E2 : step s1 = exec (SVC 0) s1).
  { apply (step_at a ws 1 SVC_INSN); [done|by apply code_at_putr, code_at_putr|done..|]. rewrite Hpc1. cbn. lia. }
  exists s1, (next_pc s1). split_and!; [exact E1|exact E2| | | | |].
  - unfold next_pc. rewrite getr_putr_ne by done. unfold s1, next_pc, put_x. change (8 =? 31) with false. cbv iota.
    rewrite getr_putr_ne by done. apply getr_putr; [done|]. apply W8. u64_lia.
  - unfold next_pc. rewrite Hpc1, getr_putr; [u64_simpl; lia|done|apply Wpc, u64_range].
  - intros r H8 Hp. unfold next_pc, s1, next_pc, put_x. change (8 =? 31) with false. cbv iota.
    by rewrite !getr_putr_ne.
  - intros x. unfold next_pc, s1, next_pc, put_x. change (8 =? 31) with false. cbv iota. by rewrite !byte_putr.
  - intros s3 Hok3 Hm3 Hh3 Hpc3.
    assert (E3 : step s3 = exec (BR 30) s3).
    { apply (step_at a ws 2 RET_INSN); [done|by split|done..|]. rewrite Hpc3. cbn. lia. }
    exact E3.
Qed.

End Stub.

(** * The safe-call trampoline *)

Section Trampoline.
Context {S : Type} `{M : !Machine S, L : !MemLaws S, R : !RegFileLaws S}.
Implicit Types s : S.

Definition upd (r v : Z) (f : Z -> Z) (x : Z) : Z := if decide (x = r) then v else f x.

Lemma upd_eq r v f : upd r v f r = v.
Proof. unfold upd. by rewrite decide_True. Qed.
Lemma upd_ne r v f x : x <> r -> upd r v f x = f x.
Proof. intros H. unfold upd. by rewrite decide_False. Qed.

(** The memory of [s0], the program counter [pc] and the other registers [f]. *)
Record view s0 (pc : Z) (f : Z -> Z) s : Prop := {
  vw_ok : mem_ok s;
  vw_cpu : cpu_ok s;
  vw_mapped b m : mapped b m s <-> mapped b m s0;
  vw_bytes x : byte_at s x = byte_at s0 x;
  vw_pc : getr REG_PC s = pc;
  vw_regs r : r <> REG_PC -> getr r s = f r;
}.

Lemma view_refl s : mem_ok s -> cpu_ok s -> view s (getr REG_PC s) (fun r => getr r s) s.
Proof. by constructor. Qed.

Lemma view_put s0 pc f s r v : view s0 pc f s -> r <> REG_PC -> fits r v -> view s0 pc (upd r v f) (putr r v s).
Proof.
  intros [H1 H2 H3 H4 H5 H6] Hr Hv. constructor; [by apply ok_putr|by apply cpu_putr| | | |].
  - intros b m. by rewrite mapped_putr.
  - intros x. by rewrite byte_putr.
  - by rewrite getr_putr_ne.
  - intros x Hx. unfold upd. destruct (decide (x = r)) as [->|]; [by apply getr_putr|].
    rewrite getr_putr_ne by done. auto.
Qed.

Lemma view_jump s0 pc f s pc' : view s0 pc f s -> fits REG_PC pc' -> view s0 pc' f (putr REG_PC pc' s).
Proof.
  intros [H1 H2 H3 H4 H5 H6] Hv. constructor; [by apply ok_putr|by apply cpu_putr| | | |].
  - intros b m. by rewrite mapped_putr.
  - intros x. by rewrite byte_putr.
  - by apply getr_putr.
  - intros x Hx. rewrite getr_putr_ne by done. auto.
Qed.

Lemma view_next s0 pc f s : view s0 pc f s -> wide REG_PC -> view s0 (pc ⊕ 4) f (next_pc s).
Proof.
  intros Hv Hw. unfold next_pc. rewrite (vw_pc _ _ _ _ Hv). eapply view_jump; [done|]. apply Hw, u64_range.
Qed.

Lemma view_load s0 pc f s a v : view s0 pc f s -> mapped a 8 s0 -> word_at s0 a v -> 0 <= v < two64 ->
  load64 a s = Some v.
Proof.
  intros Hv Hm Hw Hr. apply load64_at; [apply Hv|by apply Hv| |done].
  eapply holds_at_ext; [|exact Hw]. intros x _. symmetry. apply Hv.
Qed.

(** The instruction at [pc] is [ins]. *)
Definition insn_here s0 pc (ins : insn) : Prop :=
  exists a ws i w, code_at a ws s0 /\ ws !! i = Some w /\ 0 <= w < two32 /\ decode w = Some ins /\
    pc = a + 4 * Z.of_nat i.

Lemma view_step s0 pc f s ins : view s0 pc f s -> insn_here s0 pc ins -> step s = exec ins s.
Proof.
  intros Hv (a & ws & i & w & [Hm Hh] & Hi & Hw & Hd & Hpc).
  apply (step_at a ws i w); [apply Hv| |done..|by rewrite (vw_pc _ _ _ _ Hv)].
  split; [by apply Hv|]. eapply holds_at_ext; [|exact Hh]. intros x _. symmetry. apply Hv.
Qed.

Lemma step_addi s0 pc f s rd rn imm : view s0 pc f s -> insn_here s0 pc (ADDI rd rn imm) ->
  wide rd -> wide REG_PC -> rd <> REG_PC -> rn <> REG_PC ->
  exists s', step s = Next s' /\ view s0 (pc ⊕ 4) (upd rd (f rn ⊕ imm) f) s'.
Proof.
  intros Hv Hi Hw Hp Hr Hn. rewrite (view_step _ _ _ _ _ Hv Hi). eexists. split; [done|]. apply view_next; [|done].
  rewrite (vw_regs _ _ _ _ Hv) by done. apply view_put; [done..|]. apply Hw, u64_range.
Qed.

Lemma step_ldr s0 pc f s rt rn off v : view s0 pc f s -> insn_here s0 pc (LDR rt rn off) ->
  wide rt -> wide REG_PC -> 0 <= rt < 31 -> rn <> REG_PC ->
  mapped (f rn ⊕ off) 8 s0 -> word_at s0 (f rn ⊕ off) v -> 0 <= v < two64 ->
  exists s', step s = Next s' /\ view s0 (pc ⊕ 4) (upd rt v f) s'.
Proof.
  intros Hv Hi Hw Hp Hr Hn Hm Hword Hval. rewrite (view_step _ _ _ _ _ Hv Hi). cbn [exec].
  rewrite (vw_regs _ _ _ _ Hv) by done. rewrite (view_load _ _ _ _ _ v Hv) by done. eexists. split; [done|].
  apply view_next; [|done]. assert (rt <> 31 /\ rt <> REG_PC) as [H1 H2] by (unfold REG_PC; lia).
  unfold put_x. rewrite (proj2 (Z.eqb_neq _ _) H1). apply view_put; auto.
Qed.

Lemma step_ldp s0 pc f s rt rt2 rn off v w : view s0 pc f s -> insn_here s0 pc (LDP rt rt2 rn off) ->
  wide rt -> wide rt2 -> wide REG_PC -> 0 <= rt < 31 -> 0 <= rt2 < 31 -> rn <> REG_PC ->
  mapped (f rn ⊕ off) 8 s0 -> mapped (f rn ⊕ off ⊕ 8) 8 s0 ->
  word_at s0 (f rn ⊕ off) v -> word_at s0 (f rn ⊕ off ⊕ 8) w -> 0 <= v < two64 -> 0 <= w < two64 ->
  exists s', step s = Next s' /\ view s0 (pc ⊕ 4) (upd rt2 w (upd rt v f)) s'.
Proof.
  intros Hv Hi Hw Hw2 Hp Hr Hr2 Hn Hm Hm2 H1 H2 Hv1 Hv2. rewrite (view_step _ _ _ _ _ Hv Hi). cbn [exec].
  rewrite (vw_regs _ _ _ _ Hv) by done.
  rewrite (view_load _ _ _ _ _ v Hv), (view_load _ _ _ _ _ w Hv) by done. eexists. split; [done|].
  apply view_next; [|done].
  assert (rt <> 31 /\ rt <> REG_PC /\ rt2 <> 31 /\ rt2 <> REG_PC) as (N1 & N2 & N3 & N4) by (unfold REG_PC; lia).
  unfold put_x. rewrite (proj2 (Z.eqb_neq _ _) N1), (proj2 (Z.eqb_neq _ _) N3).
  apply view_put; [apply view_put| |]; auto.
Qed.

Lemma step_br s0 pc f s rn : view s0 pc f s -> insn_here s0 pc (BR rn) -> 0 <= rn < 31 ->
  fits REG_PC (f rn) -> exists s', step s = Next s' /\ view s0 (f rn) f s'.
Proof.
  intros Hv Hi Hr Hf. rewrite (view_step _ _ _ _ _ Hv Hi). eexists. split; [done|].
  assert (rn <> 31 /\ rn <> REG_PC) as [H1 H2] by (unfold REG_PC; lia).
  unfold get_x. rewrite (proj2 (Z.eqb_neq _ _) H1), (vw_regs _ _ _ _ Hv) by done. by eapply view_jump.
Qed.

(** The eight words of code are the instructions the source's comments give. *)
Definition trampoline_insns : list insn :=
  [ADDI 9 31 0; LDR 16 9 0; LDP 0 1 9 8; LDP 2 3 9 24; LDP 4 5 9 40; LDP 6 7 9 56; ADDI 31 9 0x50; BR 16].

Lemma trampoline_here s0 i ins : code_at SAFE_CALL_TRAMPOLINE_ADDR safe_call_trampoline s0 ->
  trampoline_insns !! i = Some ins -> insn_here s0 (SAFE_CALL_TRAMPOLINE_ADDR + 4 * Z.of_nat i) ins.
Proof.
  intros Hc Hi. exists SAFE_CALL_TRAMPOLINE_ADDR, safe_call_trampoline, i.
  assert (Hd : map decode safe_call_trampoline = map Some trampoline_insns) by reflexivity.
  apply (f_equal (fun l => l !! i)) in Hd. rewrite !list_lookup_fmap, Hi in Hd.
  apply fmap_Some in Hd as (w & Hw & Hd). exists w. split_and!; try done.
  all: assert (Hall : Forall (fun w => 0 <= w < two32) safe_call_trampoline) by (repeat constructor; done);
    rewrite Forall_forall in Hall; apply list_elem_of_lookup_2, Hall in Hw; lia.
Qed.

(** The registers the trampoline leaves: the arguments in X0-X7, SP above the
    frame, the target in the scratch register X16. *)
Definition tramp_regs (target fb : Z) (args : list Z) (f : Z -> Z) (r : Z) : Z :=
  if decide (r = REG_SP) then fb + 0x50
  else if decide (r = 16) then target
  else if decide (r = 9) then fb
  else if decide (0 <= r < 8) then nth (Z.to_nat r) args 0
  else f r.

(** The updates of the eight instructions, in order. *)
Lemma tramp_regs_upd target fb sp args f r : sp = fb + 0x50 ->
  upd 31 sp (upd 7 (nth 7 args 0) (upd 6 (nth 6 args 0) (upd 5 (nth 5 args 0) (upd 4 (nth 4 args 0)
    (upd 3 (nth 3 args 0) (upd 2 (nth 2 args 0) (upd 1 (nth 1 args 0) (upd 0 (nth 0 args 0)
    (upd 16 target (upd 9 fb f)))))))))) r = tramp_regs target fb args f r.
Proof.
  intros ->. unfold upd, tramp_regs, REG_SP.
  repeat (destruct (decide (r = _)) as [->|]; [reflexivity|]). by rewrite decide_False by lia.
Qed.

Lemma view_ext s0 pc f g s : view s0 pc f s -> (forall r, r <> REG_PC -> f r = g r) -> view s0 pc g s.
Proof. intros [] H. constructor; try done. intros r Hr. rewrite <- H; auto. Qed.

Lemma trampoline_runs s target fb args :
  mem_ok s -> cpu_ok s -> code_at SAFE_CALL_TRAMPOLINE_ADDR safe_call_trampoline s ->
  (forall r, 0 <= r <= REG_PC -> wide r) ->
  getr REG_PC s = SAFE_CALL_TRAMPOLINE_ADDR -> getr REG_SP s = fb ->
  mapped fb 72 s -> fb + 0x50 < two64 -> length args = 8%nat ->
  word_at s fb target -> (forall i v, args !! i = Some v -> word_at s (fb + 8 + 8 * Z.of_nat i) v) ->
  0 <= target < two64 -> Forall (fun v => 0 <= v < two64) args ->
  exists s', steps 8 s = Next s' /\ view s target (tramp_regs target fb args (fun r => getr r s)) s'.
Proof.
  intros Hok Hcpu Hc Hw Hpc Hsp Hm Hfb Hlen Ht Hargs Htv Hav.
  pose proof (mapped_range fb 72 s Hok Hm) as [Hfb0 _].
  assert (Hat : forall o, 0 <= o -> o + 8 <= 72 -> fb ⊕ o = fb + o /\ mapped (fb + o) 8 s).
  { intros o H1 H2. split; [apply u64_small; u64_lia|]. eapply mapped_sub; [exact Hm|lia..]. }
  assert (Harg : forall i, (i < 8)%nat -> exists v, args !! i = Some v /\ nth i args 0 = v /\ 0 <= v < two64 /\
    word_at s (fb + (8 + 8 * Z.of_nat i)) v).
  { intros i Hi. destruct (lookup_lt_is_Some_2 args i ltac:(lia)) as [v Hv]. exists v. rewrite Forall_forall in Hav.
    split_and!; [done|by apply nth_lookup_Some with (d := 0) in Hv|apply (Hav v); by eapply list_elem_of_lookup_2|
                 apply (Hav v); by eapply list_elem_of_lookup_2|].
    rewrite Z.add_assoc. by apply Hargs. }
  assert (Hpair : forall k pc f s1, 0 <= k < 4 -> view s pc f s1 -> f 9 = fb ->
    insn_here s pc (LDP (2 * k) (2 * k + 1) 9 (8 + 16 * k)) ->
    exists s2, step s1 = Next s2 /\ view s (pc ⊕ 4) (upd (2 * k + 1) (nth (Z.to_nat (2 * k + 1)) args 0)
      (upd (2 * k) (nth (Z.to_nat (2 * k)) args 0) f)) s2).
  { intros k pc f s1 Hk V H9 Hi.
    destruct (Harg (Z.to_nat (2 * k)) ltac:(lia)) as (v & _ & -> & Hv & Hwv).
    destruct (Harg (Z.to_nat (2 * k + 1)) ltac:(lia)) as (w & _ & -> & Hwr & Hww).
    destruct (Hat (8 + 16 * k)) as [E1 M1]; [lia..|]. destruct (Hat (8 + 16 * k + 8)) as [E2 M2]; [lia..|].
    assert (E3 : fb + (8 + 16 * k) ⊕ 8 = fb + (8 + 16 * k + 8)) by (rewrite u64_small; u64_lia).
    replace (8 + 8 * Z.of_nat (Z.to_nat (2 * k))) with (8 + 16 * k) in Hwv by lia.
    replace (8 + 8 * Z.of_nat (Z.to_nat (2 * k + 1))) with (8 + 16 * k + 8) in Hww by lia.
    eapply step_ldp; rewrite ?H9, ?E1, ?E3; try done; try lia; apply Hw; unfold REG_PC; lia. }
  pose proof (view_refl s Hok Hcpu) as V0. rewrite Hpc in V0. set (f0 := fun r => getr r s) in *.
  assert (Hpcw : wide REG_PC) by (apply Hw; unfold REG_PC; lia). pose proof (trampoline_here s) as Hin.
  destruct (step_addi _ _ _ _ 9 31 0 V0) as (s1 & E1 & V1);
    [exact (Hin 0%nat _ Hc eq_refl)|apply Hw; unfold REG_PC; lia|done..|].
  assert (E0 : f0 31 ⊕ 0 = fb) by (unfold f0; change 31 with REG_SP; rewrite Hsp; u64_simpl; lia). rewrite E0 in V1.
  destruct (Hat 0) as [Ea Ma]; [lia..|]. rewrite Z.add_0_r in Ma.
  destruct (step_ldr _ _ _ _ 16 9 0 target V1) as (s2 & E2 & V2);
    [exact (Hin 1%nat _ Hc eq_refl)|apply Hw; unfold REG_PC; lia|done|lia|done|by rewrite upd_eq, Ea, Z.add_0_r..|done|].
  destruct (Hpair 0 _ _ _ ltac:(lia) V2 eq_refl (Hin 2%nat _ Hc eq_refl)) as (s3 & E3 & V3).
  destruct (Hpair 1 _ _ _ ltac:(lia) V3 eq_refl (Hin 3%nat _ Hc eq_refl)) as (s4 & E4 & V4).
  destruct (Hpair 2 _ _ _ ltac:(lia) V4 eq_refl (Hin 4%nat _ Hc eq_refl)) as (s5 & E5 & V5).
  destruct (Hpair 3 _ _ _ ltac:(lia) V5 eq_refl (Hin 5%nat _ Hc eq_refl)) as (s6 & E6 & V6).
  destruct (step_addi _ _ _ _ 31 9 0x50 V6) as (s7 & E7 & V7);
    [exact (Hin 6%nat _ Hc eq_refl)|apply Hw; unfold REG_PC; lia|done..|].
  destruct (step_br _ _ _ _ 16 V7) as (s8 & E8 & V8);
    [exact (Hin 7%nat _ Hc eq_refl)|lia|by apply Hpcw|].
  exists s8. split; [cbn [steps]; by rewrite E1, E2, E3, E4, E5, E6, E7, E8|].
  eapply view_ext; [exact V8|]. intros r Hr. apply tramp_regs_upd. exact (u64_small (fb + 0x50) ltac:(u64_lia)).
Qed.
End Trampoline.

(** * The memory of a call *)

Section CallMemory.
Context {E : Env} `{!GuestMemLaws E, !CpuMemLaws E, !RegLaws E}.
Implicit Types s : gstate.

#[export] Instance gstate_laws : MemLaws gstate.
Proof.
  refine {| mem_ok s := mem_ok (g_mem s); mapped a n s := mapped a n (g_mem s);
            byte_at s := byte_at (g_mem s) |}.
  - intros a n s. exact (mapped_range a n (g_mem s)).
  - intros a n b m s. exact (mapped_sub a n b m (g_mem s)).
  - intros a n s. exact (gread_mapped a n (g_mem s)).
  - intros a bs s Hok Hm Hne. destruct (gwrite_mapped a bs (g_mem s) Hok Hm Hne) as (m' & Hw & Hr).
    exists (s <| g_mem := m' |>). cbn [gwrite gstate_machine]. by rewrite Hw.
Defined.

#[export] Instance gstate_regs : RegFileLaws gstate.
Proof.
  refine {| cpu_ok s := cpu_ok (g_mem s); fits := (fits : Z -> Z -> Prop) |}.
  - intros r v s. exact (getr_putr r v (g_mem s)).
  - intros r r' v s. exact (getr_putr_ne r r' v (g_mem s)).
  - intros r a bs s. pose proof (getr_gwrite r a bs (g_mem s)) as H. cbn [gwrite gstate_machine].
    destruct (gwrite a bs (g_mem s)). exact H.
  - intros r v s. exact (cpu_putr r v (g_mem s)).
  - intros a bs s H. pose proof (cpu_gwrite a bs (g_mem s) H) as H'. cbn [gwrite gstate_machine].
    destruct (gwrite a bs (g_mem s)). exact H'.
  - intros r v s. exact (ok_putr r v (g_mem s)).
  - intros r v a n s. exact (mapped_putr r v a n (g_mem s)).
  - intros r v x s. exact (byte_putr r v x (g_mem s)).
Defined.

(** Two states of the same thread: same registers and thread-local variables,
    same mapped ranges. *)
Record same_but_bytes s s' : Prop := {
  sb_ok : mem_ok s -> mem_ok s';
  sb_cpu : cpu_ok s -> cpu_ok s';
  sb_mapped b m : mapped b m s' <-> mapped b m s;
  sb_regs r : getr r s' = getr r s;
  sb_locals : exists m, s' = s <| g_mem := m |>;
}.

Lemma same_trans s1 s2 s3 : same_but_bytes s1 s2 -> same_but_bytes s2 s3 -> same_but_bytes s1 s3.
Proof.
  intros [A1 A2 A3 A4 (m & ->)] [B1 B2 B3 B4 (m' & ->)]. constructor; auto.
  - intros b n. by rewrite B3, A3.
  - intros r. by rewrite B4, A4.
  - by exists m'.
Qed.

Lemma store_spec a bs s : mem_ok s -> mapped a (Z.of_nat (length bs)) s -> bs <> [] ->
  same_but_bytes s (store_ignoring a bs s) /\
  forall x, byte_at (store_ignoring a bs s) x = stored (byte_at s) a bs x.
Proof.
  intros Hok Hm Hne. destruct (gwrite_mapped a bs s Hok Hm Hne) as (s' & Hw & Hok' & Hm' & Hb).
  unfold store_ignoring. rewrite Hw. split; [|exact Hb].
  assert (Hs' : s' = (gwrite a bs s).2) by (by rewrite Hw). constructor; try done.
  - intros Hc. rewrite Hs'. by apply cpu_gwrite.
  - intros r. rewrite Hs'. apply getr_gwrite.
  - rewrite Hs'. cbn. destruct (mem_write a bs (g_mem s)) as [ok m]. by exists m.
Qed.

(** The 64-bit words [ws] from [a] on. *)
Definition words_at s (a : Z) (ws : list Z) : Prop :=
  forall i v, ws !! i = Some v -> word_at s (a + 8 * Z.of_nat i) v.

Lemma write_stack_args_spec sp args s : mem_ok s -> 0 <= sp -> sp + 8 * Z.of_nat (length args) < two64 ->
  (args <> [] -> mapped sp (8 * Z.of_nat (length args)) s) ->
  let s' := write_stack_args sp args s in
  same_but_bytes s s' /\ words_at s' sp args /\
  forall x, ~ (sp <= x < sp + 8 * Z.of_nat (length args)) -> byte_at s' x = byte_at s x.
Proof.
  revert sp s. induction args as [|a args IH]; intros sp s Hok Hsp Htop Hm s'.
  { split_and!; [|by intros i v|done]. constructor; try done. exists (g_mem s). by destruct s. }
  unfold s'. cbn [write_stack_args length] in *. specialize (Hm ltac:(done)).
  destruct (store_spec sp (le_bytes 8 a) s Hok) as [H1 Hb1].
  { rewrite length_le_bytes. eapply mapped_sub; [exact Hm|lia..]. } { done. }
  rewrite (u64_small (sp + 8)) by u64_lia. set (s1 := store_ignoring sp (le_bytes 8 a) s) in *.
  destruct (IH (sp + 8) s1) as (H2 & Hw & Hf); [by apply H1|lia|lia| |].
  { intros Hne. apply H1. eapply mapped_sub; [exact Hm| |lia..]. destruct args; [done|cbn [length]; lia]. }
  split_and!.
  - by eapply same_trans.
  - intros [|i] v Hi; cbn in Hi.
    + injection Hi as ->. intros j c Hj. pose proof (lookup_lt_Some _ _ _ Hj) as Hl. rewrite length_le_bytes in Hl.
      rewrite Hf by lia. rewrite Hb1. replace (sp + 8 * Z.of_nat 0) with sp by lia. by apply stored_in.
    + replace (sp + 8 * Z.of_nat (S i)) with (sp + 8 + 8 * Z.of_nat i) by lia. by apply Hw.
  - intros x Hx. rewrite Hf by lia. rewrite Hb1. apply stored_out. rewrite length_le_bytes. lia.
Qed.

End CallMemory.

(** * The frame of a safe call *)

(** Bytes for the arguments from the ninth on, rounded up to 16. *)
Definition stack_arg_space (n : Z) : Z := 16 * ((8 * Z.max 0 (n - 8) + 15) / 16).

(** The top of the chunk of the safe-call stack for nesting depth [d]. *)
Definition chunk_top (base d : Z) : Z := base + SAFE_CALL_STACK_SIZE - d * SAFE_CALL_STACK_CHUNK.

Lemma arg_space n : 0 <= n < 2 ^ 32 ->
  let raw := if 8 <? n then (n - 8) ⊗ 8 else 0 in
  (if raw =? 0 then 0 else align_up raw 16) = stack_arg_space n /\
  8 * Z.max 0 (n - 8) <= stack_arg_space n < 8 * Z.max 0 (n - 8) + 16.
Proof.
  intros Hn raw. unfold stack_arg_space.
  pose proof (Z.div_mod (8 * Z.max 0 (n - 8) + 15) 16 ltac:(lia)).
  pose proof (Z.mod_pos_bound (8 * Z.max 0 (n - 8) + 15) 16 ltac:(lia)). split; [|lia].
  unfold raw. clear raw. destruct (Z.ltb_spec 8 n) as [Hlt|Hle].
  - rewrite u64_small by u64_lia. destruct (Z.eqb_spec ((n - 8) * 8) 0); [lia|].
    unfold align_up. u64_simpl. change 16 with (2 ^ 4). rewrite mask_low by u64_lia.
    pose proof (Z.div_mod ((n - 8) * 8 + 2 ^ 4 - 1) (2 ^ 4) ltac:(lia)).
    replace (8 * Z.max 0 (n - 8) + 15) with ((n - 8) * 8 + 2 ^ 4 - 1) by lia. lia.
  - rewrite Z.eqb_refl. replace (Z.max 0 (n - 8)) with 0 by lia. done.
Qed.

Lemma safe_frame_spec args d base :
  0 <= base -> base + SAFE_CALL_STACK_SIZE < two64 -> 1 <= d < 8 -> Z.of_nat (length args) <= 0x10000 ->
  let sp := chunk_top base d - 0x100 - stack_arg_space (Z.of_nat (length args)) in
  safe_frame args 0 d base = Some (sp, sp - 0x50).
Proof.
  intros Hb Ht Hd Hn sp. unfold safe_frame. destruct (arg_space (Z.of_nat (length args)) ltac:(lia)) as [-> Hs].
  unfold sp, chunk_top, SAFE_CALL_STACK_SIZE, SAFE_CALL_STACK_CHUNK, SAFE_CALL_CONTEXT_SIZE in *.
  rewrite Z.eqb_refl. cbn [negb]. set (sab := stack_arg_space _) in *.
  u64_simpl. destruct (Z.leb_spec 0x800000 (d * 0x100000)); [lia|].
  destruct (Z.ltb_spec (base + 0x800000 - d * 0x100000 - 0x100 - sab - 0x50)
    (base + 0x800000 - d * 0x100000 - 0x100000 + 0x100)); [lia|done].
Qed.

Section SafeCall.
Context {E : Env} `{!GuestMemLaws E, !CpuMemLaws E, !RegLaws E}.
Implicit Types s : gstate.

Lemma call_frame_words target args : length (call_frame target args) = 72%nat /\
  call_frame target args = concat (map (le_bytes 8) (target :: take 8 (args ++ replicate 8 0))).
Proof.
  split; [|done]. unfold call_frame. rewrite length_app, length_le_bytes.
  assert (Hl : length (take 8 (args ++ replicate 8 0)) = 8%nat) by (rewrite length_take, length_app, length_replicate; lia).
  destruct (take 8 (args ++ replicate 8 0)) as [|a0 [|a1 [|a2 [|a3 [|a4 [|a5 [|a6 [|a7 [|]]]]]]]]]; try discriminate.
  cbn [map concat]. rewrite !length_app, !length_le_bytes. done.
Qed.

(** The state [prepare_safe] leaves, in terms of memory. *)
Lemma prepare_safe_spec address args s (base := tl_safe_stack_base s) (d := call_depth s + 1) :
  mem_ok s -> mapped base SAFE_CALL_STACK_SIZE s -> 0 <= call_depth s < 7 ->
  Z.of_nat (length args) <= 0x10000 ->
  let sp := chunk_top base d - 0x100 - stack_arg_space (Z.of_nat (length args)) in
  exists s0, prepare_safe address args 0 s = Some (putr REG_SP (sp - 0x50) s0) /\
    same_but_bytes s s0 /\ words_at s0 (sp - 0x50) (address :: take 8 (args ++ replicate 8 0)) /\
    words_at s0 sp (drop 8 args) /\
    (forall x, ~ (chunk_top base d - SAFE_CALL_STACK_CHUNK + 0x100 <= x < chunk_top base d) ->
       byte_at s0 x = byte_at s x) /\
    chunk_top base d - SAFE_CALL_STACK_CHUNK + 0x100 <= sp - 0x50 /\ mapped (sp - 0x50) 72 s.
Proof.
  intros Hok Hm Hd Hn sp. pose proof (mapped_range _ _ _ Hok Hm) as [Hb Ht].
  destruct (arg_space (Z.of_nat (length args)) ltac:(lia)) as [_ Hs].
  unfold prepare_safe. fold base d. rewrite (safe_frame_spec args d base) by (unfold d; lia).
  fold sp.
  assert (Hin : chunk_top base d - SAFE_CALL_STACK_CHUNK + 0x100 <= sp - 0x50 /\
    sp + 8 * Z.of_nat (length (drop 8 args)) <= chunk_top base d - 0x100 /\
    base + SAFE_CALL_STACK_CHUNK <= chunk_top base d <= base + SAFE_CALL_STACK_SIZE).
  { unfold sp, d, chunk_top, SAFE_CALL_STACK_SIZE, SAFE_CALL_STACK_CHUNK in *. rewrite length_drop. lia. }
  destruct Hin as (I1 & I2 & I3). clearbody sp. unfold SAFE_CALL_STACK_CHUNK, SAFE_CALL_STACK_SIZE in *.
  destruct (call_frame_words address args) as [Hl Hcf].
  assert (Hmf : mapped (sp - 0x50) 72 s) by (eapply mapped_sub; [exact Hm|lia..]).
  destruct (store_spec (sp - 0x50) (call_frame address args) s Hok) as [H1 Hb1];
    [by rewrite Hl|intros Hnil; by rewrite Hnil in Hl|].
  set (s1 := store_ignoring _ _ s) in *.
  destruct (write_stack_args_spec sp (drop 8 args) s1) as (H2 & Hw2 & Hf2); [by apply H1|lia|lia| |].
  { intros Hne. apply H1. eapply mapped_sub; [exact Hm| |lia..]. destruct (drop 8 args); [done|cbn [length]; lia]. }
  eexists. split; [done|]. split_and!; [by eapply same_trans| |done| |done|done].
  - intros i v Hi. pose proof (lookup_lt_Some _ _ _ Hi) as Hil. cbn [length] in Hil.
    assert (Hi8 : (i < 9)%nat) by (rewrite length_take in Hil; lia).
    assert (Hh : holds_at (byte_at s1) (sp - 0x50) (call_frame address args)).
    { eapply holds_at_ext; [|apply holds_stored]. intros x _. symmetry. apply Hb1. }
    rewrite Hcf in Hh. pose proof (holds_at_chunk 8 _ _ _ _ _ Hi Hh) as Hword. change (Z.of_nat 8) with 8 in Hword.
    eapply holds_at_ext; [|exact Hword]. intros x Hx. rewrite length_le_bytes in Hx. symmetry. apply Hf2. lia.
  - intros x Hx. rewrite Hf2 by lia. rewrite Hb1. apply stored_out. rewrite Hl. lia.
Qed.

Lemma code_same a ws s s' : same_but_bytes s s' -> code_at a ws s ->
  (forall x, a <= x < a + 4 * Z.of_nat (length ws) -> byte_at s' x = byte_at s x) -> code_at a ws s'.
Proof.
  intros Hs [Hm Hh] Hb. split; [by apply Hs|]. eapply holds_at_ext; [|exact Hh].
  intros x Hx. symmetry. apply Hb. rewrite length_code_bytes in Hx. lia.
Qed.

Lemma nth_args (args : list Z) i a : args !! i = Some a -> (i < 8)%nat ->
  take 8 (args ++ replicate 8 0) !! i = Some a.
Proof. intros Hi Hl. rewrite lookup_take_lt by done. by apply lookup_app_l_Some. Qed.

(** The state at the entry of a safe call. *)
Lemma enter_spec entry sp s : cpu_ok s -> wide REG_PC -> wide REG_LR -> wide REG_SP ->
  0 <= entry < two64 -> 0 <= sp < two64 ->
  let e := enter entry (putr REG_SP sp s) in
  (mem_ok s -> mem_ok e) /\ cpu_ok e /\ (forall b m, mapped b m e <-> mapped b m s) /\
  (forall x, byte_at e x = byte_at s x) /\
  (forall r, getr r e = if decide (r = REG_PC) then entry else if decide (r = REG_LR) then CALL_RETURN_STUB_ADDR
                        else if decide (r = REG_SP) then sp else getr r s).
Proof.
  intros Hcpu W1 W2 W3 He Hsp e. set (m0 := g_mem s).
  assert (Em : g_mem e = putr REG_PC entry (putr REG_LR CALL_RETURN_STUB_ADDR (putr REG_SP sp m0))) by reflexivity.
  cbn [mem_ok cpu_ok mapped byte_at getr gstate_laws gstate_regs gstate_machine] in *. rewrite Em. fold m0 in Hcpu |- *.
  split_and!.
  - intros Hok. by apply ok_putr, ok_putr, ok_putr.
  - by apply cpu_putr, cpu_putr, cpu_putr.
  - intros b m. by rewrite !mapped_putr.
  - intros x. by rewrite !byte_putr.
  - intros r. destruct (decide (r = REG_PC)) as [->|]; [apply getr_putr; [by apply cpu_putr, cpu_putr|by apply W1]|].
    rewrite getr_putr_ne by done.
    destruct (decide (r = REG_LR)) as [->|]; [apply getr_putr; [by apply cpu_putr|by apply W2]|].
    rewrite getr_putr_ne by done.
    destruct (decide (r = REG_SP)) as [->|]; [apply getr_putr; [done|by apply W3]|]. by rewrite getr_putr_ne.
Qed.

(** C9: A safe call follows the procedure call standard. From a host call at
    nesting depth below seven (at most 65536 arguments), the frame that
    [call_function_internal] builds and the eight instructions of the
    trampoline put the guest at the function with the first eight arguments in X0-X7, the others
    in order at the stack pointer, the stack pointer 16-byte aligned and the
    return trampoline in LR; the only memory written is this depth's own chunk of
    the safe-call stack. *)
Theorem safe_call_arguments address args s (base := tl_safe_stack_base s) (top := chunk_top base (call_depth s + 1)) :
  mem_ok s -> cpu_ok s -> (forall r, 0 <= r <= REG_PC -> wide r) ->
  code_at SAFE_CALL_TRAMPOLINE_ADDR safe_call_trampoline s -> mapped base SAFE_CALL_STACK_SIZE s ->
  disj SAFE_CALL_TRAMPOLINE_ADDR 32 base SAFE_CALL_STACK_SIZE -> (16 | base) ->
  0 <= call_depth s < 7 -> Z.of_nat (length args) <= 0x10000 ->
  0 <= address < two64 -> Forall (fun a => 0 <= a < two64) args ->
  exists s1 s2, prepare_safe address args 0 s = Some s1 /\
    steps 8 (enter SAFE_CALL_TRAMPOLINE_ADDR s1) = Next s2 /\
    getr REG_PC s2 = address /\ getr REG_LR s2 = CALL_RETURN_STUB_ADDR /\ (16 | getr REG_SP s2) /\
    (forall i a, args !! i = Some a -> (i < 8)%nat -> getr (Z.of_nat i) s2 = a) /\
    words_at s2 (getr REG_SP s2) (drop 8 args) /\
    (forall x, ~ (top - SAFE_CALL_STACK_CHUNK + 0x100 <= x < top) -> byte_at s2 x = byte_at s x).
Proof.
  intros Hok Hcpu Hw Hc Hm Hd H16 Hdep Hn Ha Hargs.
  destruct (prepare_safe_spec address args s Hok Hm Hdep Hn) as (s0 & Hp & Hs & Hfr & Hst & Hb & Hin & Hmf).
  fold base in Hp, Hfr, Hst, Hb, Hin, Hmf. fold top in Hp, Hfr, Hst, Hb, Hin, Hmf.
  set (sp := top - 0x100 - stack_arg_space (Z.of_nat (length args))) in *.
  pose proof (mapped_range _ _ _ Hok Hm) as [Hb0 Hbt]. pose proof (mapped_range _ _ _ Hok Hmf) as [Hf0 _].
  assert (Hsp : (16 | sp) /\ base + SAFE_CALL_STACK_CHUNK <= top <= base + SAFE_CALL_STACK_SIZE /\ sp < two64).
  { destruct H16 as [k Hk]. destruct (arg_space (Z.of_nat (length args)) ltac:(lia)) as [_ Hsa].
    unfold sp, top, chunk_top, SAFE_CALL_STACK_SIZE, SAFE_CALL_STACK_CHUNK in *. split; [|lia]. rewrite Hk. unfold stack_arg_space.
    exists (k + 0x80000 - (call_depth s + 1) * 0x10000 - 0x10 - (8 * Z.max 0 (Z.of_nat (length args) - 8) + 15) / 16). lia. }
  destruct Hsp as (Hal & Htop & Hsp64). unfold SAFE_CALL_STACK_SIZE, SAFE_CALL_STACK_CHUNK in *.
  assert (Hcpu0 : cpu_ok s0) by (by apply Hs).
  destruct (enter_spec SAFE_CALL_TRAMPOLINE_ADDR (sp - 0x50) s0 Hcpu0) as (Hoke & Hcpue & Hme & Hbe & Hregs);
    [apply Hw; done..|done|lia|].
  set (s1 := putr REG_SP (sp - 0x50) s0) in *. set (e := enter SAFE_CALL_TRAMPOLINE_ADDR s1) in *.
  destruct (trampoline_runs e address (sp - 0x50) (take 8 (args ++ replicate 8 0))) as (s2 & Hrun & V).
  - by apply Hoke, Hs.
  - exact Hcpue.
  - assert (Hc0 : code_at SAFE_CALL_TRAMPOLINE_ADDR safe_call_trampoline s0).
    { apply (code_same _ _ s); [done..|]. intros x Hx. apply Hb. unfold disj in Hd.
      change (length safe_call_trampoline) with 8%nat in Hx. lia. }
    destruct Hc0 as [Hc1 Hc2]. split; [by apply Hme|]. eapply holds_at_ext; [|exact Hc2]. intros x _. by rewrite Hbe.
  - exact Hw.
  - by rewrite Hregs.
  - by rewrite Hregs.
  - by apply Hme, Hs.
  - lia.
  - rewrite length_take, length_app, length_replicate. lia.
  - pose proof (Hfr 0%nat address eq_refl) as H0. replace (sp - 0x50 + 8 * Z.of_nat 0) with (sp - 0x50) in H0 by lia.
    eapply holds_at_ext; [|exact H0]. intros x _. by rewrite Hbe.
  - intros i v Hi. pose proof (Hfr (S i) v Hi) as H0.
    replace (sp - 0x50 + 8 * Z.of_nat (S i)) with (sp - 0x50 + 8 + 8 * Z.of_nat i) in H0 by lia.
    eapply holds_at_ext; [|exact H0]. intros x _. by rewrite Hbe.
  - done.
  - apply Forall_take, Forall_app. split; [done|]. apply Forall_replicate. done.
  - assert (Esp : getr REG_SP s2 = sp) by (rewrite (vw_regs _ _ _ _ V) by done; unfold tramp_regs; rewrite decide_True by done; lia).
    exists s1, s2. split_and!; [exact Hp|exact Hrun|by rewrite (vw_pc _ _ _ _ V)| |by rewrite Esp| | |].
    + rewrite (vw_regs _ _ _ _ V) by done. unfold tramp_regs. rewrite !decide_False by done.
      rewrite decide_False by (unfold REG_LR; lia). by rewrite Hregs.
    + intros i a Hi Hl. rewrite (vw_regs _ _ _ _ V) by (unfold REG_PC; lia). unfold tramp_regs, REG_SP.
      rewrite !decide_False, decide_True, Nat2Z.id by lia. apply nth_lookup_Some. by apply nth_args.
    + rewrite Esp. intros i v Hi. eapply holds_at_ext; [|exact (Hst i v Hi)].
      intros x _. rewrite (vw_bytes _ _ _ _ V). by rewrite Hbe.
    + intros x Hx. rewrite (vw_bytes _ _ _ _ V), Hbe. by apply Hb.
Qed.

End SafeCall.

(** * Saving and restoring *)

Section Transparent.
Context {E : Env} `{!RegLaws E}.
Implicit Types s : gstate.

Local Notation env_of s := (ext (g_mem s)).

Lemma getr_put_regs_ne rvs r s : cpu_available s = true -> r ∉ rvs.*1 -> getr r (put_regs rvs s) = getr r s.
Proof.
  revert s. induction rvs as [|[q v] rvs IH]; intros s Hc Hr; [done|].
  apply not_elem_of_cons in Hr as [Hne Hr]. unfold put_regs in *. cbn [foldl fst snd].
  rewrite IH; [|unfold cpu_available in *; cbn; unfold set_reg; by rewrite Hc, has_cpu_write_reg|done].
  unfold cpu_available in Hc. cbn. unfold get_reg, set_reg. by rewrite Hc, has_cpu_write_reg, Hc, read_write_reg_ne.
Qed.

Lemma getr_put_regs rvs r v s : cpu_available s = true -> NoDup rvs.*1 -> (r, v) ∈ rvs -> reg_ok r v ->
  getr r (put_regs rvs s) = v.
Proof.
  intros Hc Hnd Hin Hok. revert s Hc Hnd Hin. induction rvs as [|[q w] rvs IH]; intros s Hc Hnd Hin.
  { by apply elem_of_nil in Hin. }
  apply NoDup_cons in Hnd as [Hni Hnd]. unfold put_regs in *. cbn [foldl fst snd].
  assert (Hc1 : cpu_available (putr q w s) = true)
    by (unfold cpu_available in *; cbn; unfold set_reg; by rewrite Hc, has_cpu_write_reg).
  apply elem_of_cons in Hin as [[= -> ->]|Hin]; [|by apply IH].
  etrans; [by apply (getr_put_regs_ne rvs)|]. unfold cpu_available in Hc. cbn. unfold get_reg, set_reg.
  by rewrite Hc, has_cpu_write_reg, Hc, read_write_reg.
Qed.

Lemma put_regs_keep rvs s : cpu_available s = true ->
  cpu_available (put_regs rvs s) = true /\ (forall r, get_vreg r (env_of (put_regs rvs s)) = get_vreg r (env_of s)).
Proof.
  revert s. induction rvs as [|[q v] rvs IH]; intros s Hc; [done|]. unfold put_regs in *. cbn [foldl fst snd].
  destruct (IH (putr q v s)) as [H1 H2].
  { unfold cpu_available in *. cbn. unfold set_reg. by rewrite Hc, has_cpu_write_reg. }
  split; [done|]. intros r. rewrite H2. unfold cpu_available in Hc. cbn. unfold get_vreg, set_reg.
  by rewrite Hc, has_cpu_write_reg, Hc, read_vreg_write_reg.
Qed.

Lemma put_vregs_keep rvs s : cpu_available s = true ->
  cpu_available (put_vregs rvs s) = true /\ (forall r, getr r (put_vregs rvs s) = getr r s) /\
  (forall r, r ∉ rvs.*1 -> get_vreg r (env_of (put_vregs rvs s)) = get_vreg r (env_of s)).
Proof.
  revert s. induction rvs as [|[q v] rvs IH]; intros s Hc; [done|]. unfold put_vregs in *. cbn [foldl fst snd].
  set (s1 := s <| g_mem ::= fun m => m <| ext ::= set_vreg q v |> |>).
  assert (H0 : cpu_available s1 = true) by (unfold cpu_available, s1 in *; cbn; unfold set_vreg; by rewrite Hc, has_cpu_write_vreg).
  destruct (IH s1 H0) as (H1 & H2 & H3). unfold cpu_available in Hc. split_and!; [done| |].
  - intros r. rewrite H2. unfold s1. cbn. unfold get_reg, set_vreg. by rewrite Hc, has_cpu_write_vreg, Hc, read_reg_write_vreg.
  - intros r [Hne Hr]%not_elem_of_cons. rewrite H3 by done. unfold s1. cbn. unfold get_vreg, set_vreg.
    by rewrite Hc, has_cpu_write_vreg, Hc, read_write_vreg_ne.
Qed.

Lemma get_put_vregs rvs r v s : cpu_available s = true -> NoDup rvs.*1 -> (r, v) ∈ rvs ->
  get_vreg r (env_of (put_vregs rvs s)) = v.
Proof.
  revert s. induction rvs as [|[q w] rvs IH]; intros s Hc Hnd Hin; [by apply elem_of_nil in Hin|].
  apply NoDup_cons in Hnd as [Hni Hnd]. unfold put_vregs in *. cbn [foldl fst snd].
  set (s1 := s <| g_mem ::= fun m => m <| ext ::= set_vreg q w |> |>).
  assert (H0 : cpu_available s1 = true) by (unfold cpu_available, s1 in *; cbn; unfold set_vreg; by rewrite Hc, has_cpu_write_vreg).
  apply elem_of_cons in Hin as [[= -> ->]|Hin]; [|by apply IH].
  destruct (put_vregs_keep rvs s1 H0) as (_ & _ & H3). etrans; [by apply H3|]. unfold s1, cpu_available in *. cbn in *.
  unfold get_vreg, set_vreg. by rewrite Hc, has_cpu_write_vreg, Hc, read_write_vreg.
Qed.

Lemma zip_map_self {A} (l : list Z) (f : Z -> A) r : r ∈ l -> (r, f r) ∈ zip l (map f l).
Proof.
  induction l as [|x l IH]; [by intros ?%elem_of_nil|]. intros [->|Hr]%elem_of_cons; cbn; [by left|right; auto].
Qed.

Lemma fst_zip_map {A} (l : list Z) (f : Z -> A) : (zip l (map f l)).*1 = l.
Proof. apply fst_zip. by rewrite length_map. Qed.

(** Three lists of registers, written in turn. *)
Lemma restore_lists (ps vs ts : list Z) (f g : Z -> Z) (h : Z -> Z * Z) s :
  cpu_available s = true -> NoDup ps -> NoDup vs -> NoDup ts -> (forall r, r ∈ ps -> r ∉ ts) ->
  (forall r, r ∈ ps -> reg_ok r (f r)) -> (forall r, r ∈ ts -> reg_ok r (g r)) ->
  let s' := put_regs (zip ts (map g ts)) (put_vregs (zip vs (map h vs)) (put_regs (zip ps (map f ps)) s)) in
  cpu_available s' = true /\ (forall r, r ∈ ps -> getr r s' = f r) /\ (forall r, r ∈ ts -> getr r s' = g r) /\
  (forall r, r ∈ vs -> get_vreg r (env_of s') = h r).
Proof.
  intros Hc Hp Hv Ht Hd Hf Hg s'.
  destruct (put_regs_keep (zip ps (map f ps)) s Hc) as [Hc1 _].
  destruct (put_vregs_keep (zip vs (map h vs)) _ Hc1) as (Hc2 & Hg2 & _).
  destruct (put_regs_keep (zip ts (map g ts)) _ Hc2) as [Hc3 Hv3].
  split_and!; [done| | |].
  - intros r Hr. unfold s'. rewrite getr_put_regs_ne; [|done|rewrite fst_zip_map; auto]. rewrite Hg2.
    apply getr_put_regs; [done|by rewrite fst_zip_map|by apply zip_map_self|auto].
  - intros r Hr. apply getr_put_regs; [done|by rewrite fst_zip_map|by apply zip_map_self|auto].
  - intros r Hr. unfold s'. rewrite Hv3. apply get_put_vregs; [done|by rewrite fst_zip_map|by apply zip_map_self].
Qed.

Lemma saved_regs_apart : NoDup plain_regs /\ NoDup vector_regs /\ NoDup status_regs /\
  Forall (fun r => r ∉ status_regs) plain_regs.
Proof. apply (bool_decide_unpack _). by vm_compute. Qed.

(** Restoring a saved context gives back every register of it. *)
Lemma restore_saved s0 s : cpu_available s0 = true -> cpu_available s = true ->
  let s' := restore_context (save_context s0) s in
  cpu_available s' = true /\
  (forall r, r ∈ plain_regs ++ status_regs -> getr r s' = getr r s0) /\
  (forall r, r ∈ vector_regs -> get_vreg r (env_of s') = get_vreg r (env_of s0)).
Proof.
  intros H0 Hc s'. destruct saved_regs_apart as (Hp & Hv & Ht & Hd). rewrite Forall_forall in Hd.
  assert (Hok : forall r, reg_ok r (getr r s0))
    by (intros r; cbn; unfold get_reg; unfold cpu_available in H0; rewrite H0; apply read_reg_ok).
  assert (Hu : forall r, r ∈ status_regs -> u32 (getr r s0) = getr r s0).
  { intros r Hr. apply u32_small, (reg_ok_fp r); [|done]. unfold status_regs in Hr. set_solver. }
  destruct (restore_lists plain_regs vector_regs status_regs (fun r => getr r s0) (fun r => u32 (getr r s0))
    (fun r => get_vreg r (env_of s0)) s Hc Hp Hv Ht Hd) as (H1 & H2 & H3 & H4); [auto|intros r Hr; rewrite Hu; auto|].
  split_and!; [exact H1| |exact H4].
  intros r [Hr|Hr]%elem_of_app; [by apply H2|]. etrans; [by apply H3|auto].
Qed.

End Transparent.

(** * The run loop *)

Section Run.
Context {E : Env} `{!RegLaws E}.
Variables (stack_size : Z)
          (qemu_run : gstate -> RunExit * gstate)
          (hle_handle : Z -> gstate -> hle_outcome * gstate).
Implicit Types s : gstate.

Local Notation loop_body := (GuestCall.loop_body qemu_run hle_handle).
Local Notation run_loop := (GuestCall.run_loop qemu_run hle_handle).
Local Notation call_function_internal := (GuestCall.call_function_internal stack_size qemu_run hle_handle).

(** What nested activity leaves as it was: the thread has its CPU, and nested
    calls are balanced. *)
Definition keeps s s' : Prop :=
  (cpu_available s = true -> cpu_available s' = true) /\ call_depth s' = call_depth s.

Definition engine_keeps : Prop :=
  (forall s, keeps s (qemu_run s).2) /\ (forall a s, keeps s (hle_handle a s).2).

(** The loop ends after [n] turns, by a return through the trampoline, or by an
    exception of a handler. *)
Inductive loop_ends (end_address : Z) : outcome unit -> nat -> gstate -> gstate -> Prop :=
| ends_return s r s1 : tl_running s = true -> qemu_run s = (r, s1) -> tl_call_return_hit s1 = true ->
    loop_ends end_address (Returned tt) 1 s
      (s1 <| tl_call_return_hit := false |> <| tl_start_exit_reason := CleanReturn |>)
| ends_throw s s1 : tl_running s = true -> loop_body end_address s = Throw s1 ->
    loop_ends end_address Raised 1 s s1
| ends_later o n s s1 s' : tl_running s = true -> loop_body end_address s = Continue s1 ->
    loop_ends end_address o n s1 s' -> loop_ends end_address o (S n) s s'.

Lemma loop_ends_run end_address o n s s' fuel : loop_ends end_address o n s s' -> (n <= fuel)%nat ->
  run_loop fuel end_address s = Some (o, s').
Proof.
  intros H. revert fuel. induction H as [s r s1 Hr Hq Hh|s s1 Hr Hb|o n s s1 s' Hr Hb Hl IH]; intros fuel Hf.
  - destruct fuel; [lia|]. cbn [GuestCall.run_loop]. rewrite Hr. unfold GuestCall.loop_body. by rewrite Hq, Hh.
  - destruct fuel; [lia|]. cbn [GuestCall.run_loop]. by rewrite Hr, Hb.
  - destruct fuel; [lia|]. cbn [GuestCall.run_loop]. rewrite Hr, Hb. apply IH. lia.
Qed.

Lemma keeps_trans s1 s2 s3 : keeps s1 s2 -> keeps s2 s3 -> keeps s1 s3.
Proof. unfold keeps. intuition congruence. Qed.

Lemma keeps_putr r v s : keeps s (putr r v s).
Proof.
  split; [|done]. unfold cpu_available. cbn. unfold set_reg. intros H. by rewrite H, has_cpu_write_reg.
Qed.

Lemma body_keeps end_address s : engine_keeps ->
  match loop_body end_address s with Continue s' | Break s' | Throw s' => keeps s s' end.
Proof.
  intros [Hq Hh]. unfold GuestCall.loop_body. pose proof (Hq s) as H1. destruct (qemu_run s) as [r s1]. cbn in H1.
  destruct (tl_call_return_hit s1); [exact H1|]. destruct (other_cpu r); [done|].
  destruct (_ =? 0); [done|]. destruct (_ && _); [exact H1|].
  pose proof (Hh (getr REG_PC s1) s1) as H2. destruct (hle_handle _ s1) as [[] s2]; cbn in H2.
  - unfold after_stop. destruct (_ && _).
    + eapply keeps_trans; [exact H1|]. eapply keeps_trans; [exact H2|]. apply keeps_putr.
    + destruct (negb _); [|by eapply keeps_trans]. destruct (run_crash r); [by eapply keeps_trans|].
      destruct (_ && _); [by eapply keeps_trans|]. destruct (_ && _); by eapply keeps_trans.
  - unfold after_handler. destruct (_ =? _); [destruct (_ =? 0)|]; try (by eapply keeps_trans).
    eapply keeps_trans; [exact H1|]. eapply keeps_trans; [exact H2|]. apply keeps_putr.
  - by eapply keeps_trans.
Qed.

Lemma loop_ends_keeps end_address o n s s' : engine_keeps -> loop_ends end_address o n s s' -> keeps s s'.
Proof.
  intros He H. induction H as [s r s1 Hr Hq Hh|s s1 Hr Hb|o n s s1 s' Hr Hb Hl IH].
  - destruct He as [He _]. specialize (He s). rewrite Hq in He. exact He.
  - pose proof (body_keeps end_address s He) as Hk. by rewrite Hb in Hk.
  - pose proof (body_keeps end_address s He) as Hk. rewrite Hb in Hk. by eapply keeps_trans.
Qed.

Lemma entered_cpu entry s : cpu_available s = true -> cpu_available (enter entry s) = true.
Proof. intros H. by apply keeps_putr, keeps_putr. Qed.

(** The state in which [start] enters its loop. *)
Definition loop_entry (entry : Z) s : gstate :=
  (fix_sp stack_size (putr REG_PC entry (enter entry s <| tl_running := true |>)))
    <| tl_start_exit_reason := Incomplete |>.

Lemma loop_entry_keeps entry s :
  (cpu_available s = true -> cpu_available (loop_entry entry s) = true) /\
  call_depth (loop_entry entry s) = call_depth s + 1.
Proof.
  unfold loop_entry. set (s1 := putr REG_PC entry _).
  assert (Hs1 : (cpu_available s = true -> cpu_available s1 = true) /\ call_depth s1 = call_depth s + 1).
  { split; [|done]. intros H. apply (keeps_putr REG_PC entry (enter entry s <| tl_running := true |>)).
    exact (entered_cpu entry s H). }
  unfold fix_sp. destruct (_ || _); [|exact Hs1]. destruct Hs1 as [H1 H2]. split; [|exact H2].
  intros H%H1. by apply (keeps_putr REG_SP (STACK_BASE - 16) s1).
Qed.

(** The state a safe call from [s] leaves when its loop ended in [s']. *)
Definition after_safe_call s s' : gstate :=
  (restore_context (save_context s) (s' <| tl_running := false |> <| call_depth := call_depth s' - 1 |>))
    <| tl_running := tl_running s |>.

Lemma put_locals rvs s : call_depth (put_regs rvs s) = call_depth s.
Proof. revert s. induction rvs as [|rv rvs IH]; intros s; [done|]. unfold put_regs in *. cbn [foldl]. by rewrite IH. Qed.
Lemma put_vlocals rvs s : call_depth (put_vregs rvs s) = call_depth s.
Proof. revert s. induction rvs as [|rv rvs IH]; intros s; [done|]. unfold put_vregs in *. cbn [foldl]. by rewrite IH. Qed.
Lemma restore_depth c s : call_depth (restore_context c s) = call_depth s.
Proof. unfold restore_context. by rewrite put_locals, put_vlocals, put_locals. Qed.
Lemma getr_set_running r b s : getr r (s <| tl_running := b |>) = getr r s.
Proof. reflexivity. Qed.
Lemma ext_set_running b s : ext (g_mem (s <| tl_running := b |>)) = ext (g_mem s).
Proof. reflexivity. Qed.

Lemma after_safe_call_spec s s' : cpu_available s = true -> cpu_available s' = true ->
  (forall r, r ∈ plain_regs ++ status_regs -> getr r (after_safe_call s s') = getr r s) /\
  (forall r, r ∈ vector_regs -> get_vreg r (ext (g_mem (after_safe_call s s'))) = get_vreg r (ext (g_mem s))) /\
  tl_running (after_safe_call s s') = tl_running s /\ call_depth (after_safe_call s s') = call_depth s' - 1.
Proof.
  intros Hc Hc'. unfold after_safe_call. set (s2 := s' <| tl_running := false |> <| call_depth := _ |>).
  assert (Hc2 : cpu_available s2 = true) by exact Hc'. assert (Hd : call_depth s2 = call_depth s' - 1) by done.
  clearbody s2. destruct (restore_saved s s2 Hc Hc2) as (_ & Hr & Hv). rewrite <- Hd, <- (restore_depth (save_context s) s2).
  generalize dependent (restore_context (save_context s) s2). intros c Hr Hv. split_and!; [|..|done|done].
  - intros r Hin. rewrite getr_set_running. auto.
  - intros r Hin. rewrite ext_set_running. auto.
Qed.

(** How a safe call runs, once its frame is built. *)
Lemma safe_call_runs address args safe_top s s1 o n s' fuel :
  cpu_available s = true -> prepare_safe address args safe_top s = Some s1 -> cpu_available s1 = true ->
  loop_ends CALL_RETURN_STUB_ADDR o n (loop_entry SAFE_CALL_TRAMPOLINE_ADDR s1) s' -> (n <= fuel)%nat ->
  call_function_internal_impl stack_size qemu_run hle_handle fuel address args true safe_top s =
  Some match o with
       | Raised => (Raised, s')
       | Returned _ => (Returned (getr REG_X0 s'),
           after_safe_call s s')
       end.
Proof.
  intros Hc Hp Hc1 Hl Hf. unfold call_function_internal_impl. rewrite Hc, Hp. cbn [negb]. unfold start.
  set (e := enter _ s1) in *.
  assert (He : cpu_available (e <| tl_running := true |>) = true).
  { exact (entered_cpu SAFE_CALL_TRAMPOLINE_ADDR s1 Hc1). }
  rewrite He. cbn [negb]. change ((fix_sp _ _) <| tl_start_exit_reason := Incomplete |>) with (loop_entry SAFE_CALL_TRAMPOLINE_ADDR s1).
  rewrite (loop_ends_run _ _ _ _ _ _ Hl Hf). by destruct o.
Qed.

(** C10: A safe call leaves no trace. When the guest function returns through the
    trampoline (after any number of turns of the run loop, HLE handlers and
    nested calls included), the call terminates with the function's X0 as its
    value, and every general, vector, status and system register, the running
    flag and the nesting depth are what they were before the call. *)
Theorem safe_call_transparent address args safe_top s s1 n s' fuel :
  engine_keeps -> cpu_available s = true -> prepare_safe address args safe_top s = Some s1 ->
  cpu_available s1 = true -> call_depth s1 = call_depth s ->
  loop_ends CALL_RETURN_STUB_ADDR (Returned tt) n (loop_entry SAFE_CALL_TRAMPOLINE_ADDR s1) s' ->
  (n <= fuel)%nat ->
  exists s2, call_function_internal fuel address args true safe_top s = Some (getr REG_X0 s', s2) /\
    (forall r, r ∈ plain_regs ++ status_regs -> getr r s2 = getr r s) /\
    (forall r, r ∈ vector_regs -> get_vreg r (ext (g_mem s2)) = get_vreg r (ext (g_mem s))) /\
    tl_running s2 = tl_running s /\ call_depth s2 = call_depth s.
Proof.
  intros He Hc Hp Hc1 Hd1 Hl Hf. unfold GuestCall.call_function_internal.
  rewrite (safe_call_runs _ _ _ _ _ _ _ _ _ Hc Hp Hc1 Hl Hf).
  destruct (loop_entry_keeps SAFE_CALL_TRAMPOLINE_ADDR s1) as [Hec Hed].
  destruct (loop_ends_keeps _ _ _ _ _ He Hl) as [Hkc Hkd].
  destruct (after_safe_call_spec s s' Hc (Hkc (Hec Hc1))) as (Hr & Hv & Ht & Hd).
  exists (after_safe_call s s'). split_and!; [done|exact Hr|exact Hv|exact Ht|lia].
Qed.

(** A throwing handler leaks a level. The exception firewall turns an exception
    inside a call into the result -1, but the nesting depth is not taken back;
    once it has reached seven, every further safe call on the default stack
    fails at once, without running anything. *)
Theorem exception_leaks_depth address args safe_top s s1 n s' fuel :
  engine_keeps -> cpu_available s = true -> prepare_safe address args safe_top s = Some s1 ->
  cpu_available s1 = true -> call_depth s1 = call_depth s ->
  loop_ends CALL_RETURN_STUB_ADDR Raised n (loop_entry SAFE_CALL_TRAMPOLINE_ADDR s1) s' -> (n <= fuel)%nat ->
  (exists s2, call_function_internal fuel address args true safe_top s = Some (FAILED, s2) /\
     call_depth s2 = call_depth s + 1) /\
  forall fuel' address' args' s3, cpu_available s3 = true -> 7 <= call_depth s3 < 2 ^ 31 ->
    call_function_internal fuel' address' args' true 0 s3 = Some (FAILED, s3).
Proof.
  intros He Hc Hp Hc1 Hd1 Hl Hf. split.
  - unfold GuestCall.call_function_internal. rewrite (safe_call_runs _ _ _ _ _ _ _ _ _ Hc Hp Hc1 Hl Hf).
    eexists. split; [done|]. cbn. destruct (loop_ends_keeps _ _ _ _ _ He Hl) as [_ ->].
    destruct (loop_entry_keeps SAFE_CALL_TRAMPOLINE_ADDR s1) as [_ ->]. lia.
  - intros fuel' address' args' s3 Hc3 Hd3. unfold GuestCall.call_function_internal, call_function_internal_impl.
    rewrite Hc3. cbn [negb]. unfold prepare_safe, safe_frame. rewrite Z.eqb_refl. cbn [negb].
    unfold SAFE_CALL_STACK_SIZE, SAFE_CALL_STACK_CHUNK.
    rewrite (u64_small ((call_depth s3 + 1) * _)) by u64_lia.
    destruct (Z.leb_spec 0x800000 ((call_depth s3 + 1) * 0x100000)); [done|lia].
Qed.

End Run.

(** * The hypotheses hold at a concrete state *)

(** The regions the constructor maps that a call needs, and its trampolines. *)
Definition call_mem : mstate (E := RefEnv) :=
  (mem_map SAFE_CALL_STACK_BASE SAFE_CALL_STACK_SIZE 3 "SafeCallStack"
     (mem_map HLE_BASE HLE_SIZE 7 "HLE" mem0).2).2.
Definition bare_call : gstate (E := RefEnv) :=
  {| g_mem := call_mem; tl_running := false; tl_call_return_hit := false; tl_start_exit_reason := ExitNone;
     call_depth := 0; tl_safe_stack_base := SAFE_CALL_STACK_BASE; last_call_succeeded_ := true |}.
Definition demo_call : gstate (E := RefEnv) := write_call_trampolines bare_call.

Lemma call_regions : regions_ (mm call_mem) =
  [new_region HLE_BASE HLE_SIZE 7 "HLE" 0x700000000000;
   new_region SAFE_CALL_STACK_BASE SAFE_CALL_STACK_SIZE 3 "SafeCallStack" 0x700000100000].
Proof. reflexivity. Qed.

Lemma bare_call_ok : mem_ok bare_call /\ mapped HLE_BASE HLE_SIZE bare_call /\
  mapped SAFE_CALL_STACK_BASE SAFE_CALL_STACK_SIZE bare_call.
Proof.
  cbn [mem_ok mapped gstate_laws mstate_laws]. unfold mem_mapped. change (g_mem bare_call) with call_mem.
  rewrite call_regions. assert (use_qemu call_mem = false) as -> by reflexivity. split_and!.
  - split.
    + apply Forall_cons; split; [|apply Forall_singleton]; by constructor.
    + constructor; [apply Forall_singleton|constructor; constructor]. split; left; by vm_compute.
  - eexists. split; [by left|]. by split.
  - eexists. split; [right; by left|]. by split.
Qed.

Lemma demo_call_ok : mem_ok demo_call /\ cpu_ok demo_call /\
  mapped SAFE_CALL_STACK_BASE SAFE_CALL_STACK_SIZE demo_call /\
  code_at SAFE_CALL_TRAMPOLINE_ADDR safe_call_trampoline demo_call /\
  code_at CALL_RETURN_STUB_ADDR call_return_trampoline demo_call /\
  call_depth demo_call = 0 /\ tl_safe_stack_base demo_call = SAFE_CALL_STACK_BASE.
Proof.
  destruct bare_call_ok as (Hok & Hh & Hs).
  assert (Hm1 : mapped SAFE_CALL_TRAMPOLINE_ADDR 32 bare_call)
    by (eapply mapped_sub; [exact Hh|unfold SAFE_CALL_TRAMPOLINE_ADDR, HLE_SIZE; lia..]).
  assert (Hm2 : mapped CALL_RETURN_STUB_ADDR 12 bare_call)
    by (eapply mapped_sub; [exact Hh|unfold CALL_RETURN_STUB_ADDR, HLE_SIZE; lia..]).
  destruct (store_spec SAFE_CALL_TRAMPOLINE_ADDR (code_bytes safe_call_trampoline) bare_call Hok) as [H1 B1]; [done..|].
  set (s1 := store_ignoring _ _ bare_call) in *.
  destruct (store_spec CALL_RETURN_STUB_ADDR (code_bytes call_return_trampoline) s1) as [H2 B2];
    [by apply H1|by apply H1|done|].
  fold demo_call in H2, B2. change (store_ignoring _ _ s1) with demo_call in H2, B2. split_and!.
  - by apply H2, H1.
  - by apply H2, H1.
  - by apply H2, H1.
  - split; [by apply H2, H1|]. eapply holds_at_ext; [|apply (holds_stored (byte_at bare_call))].
    intros x Hx. rewrite B2, (stored_out (byte_at s1)); [by rewrite B1|]. rewrite length_code_bytes in *. cbn [length] in *.
    unfold SAFE_CALL_TRAMPOLINE_ADDR, CALL_RETURN_STUB_ADDR in *. cbn in Hx |- *. lia.
  - split; [by apply H2, H1|]. eapply holds_at_ext; [|apply (holds_stored (byte_at s1))]. intros x _. by rewrite B2.
  - reflexivity.
  - reflexivity.
Qed.

Lemma ref_wide r : r <> REG_FPCR -> r <> REG_FPSR -> wide (S := gstate (E := RefEnv)) r.
Proof.
  intros H1 H2 v Hv. cbn. unfold ref_trunc.
  rewrite (proj2 (Z.eqb_neq _ _) H1), (proj2 (Z.eqb_neq _ _) H2). done.
Qed.

Lemma stub_traps_witness : exists s1 s2,
  step (putr REG_PC CALL_RETURN_STUB_ADDR demo_call) = Next s1 /\ step s1 = Trap s2 /\
  getr 8 s2 = SYS_CALL_RETURN.
Proof.
  generalize demo_call_ok. generalize demo_call. intros s (Hok & Hcpu & _ & _ & [Hm Hh] & _).
  destruct (stub_traps CALL_RETURN_STUB_ADDR SYS_CALL_RETURN (putr REG_PC CALL_RETURN_STUB_ADDR s))
    as (s1 & s2 & E1 & E2 & E3 & _).
  - by apply ok_putr.
  - by apply cpu_putr.
  - by apply mapped_putr.
  - eapply holds_at_ext; [|exact Hh]. intros x _. by rewrite byte_putr.
  - done.
  - by apply ref_wide.
  - by apply ref_wide.
  - apply getr_putr; [done|by apply ref_wide].
  - by exists s1, s2.
Defined.

Definition demo_args : list Z := [11; 12; 13; 14; 15; 16; 17; 18; 19; 20].

Lemma safe_call_arguments_witness : exists s1 s2,
  prepare_safe 0x40001000 demo_args 0 demo_call = Some s1 /\
  steps 8 (enter SAFE_CALL_TRAMPOLINE_ADDR s1) = Next s2 /\ getr REG_PC s2 = 0x40001000 /\
  getr 7 s2 = 18 /\ word_at s2 (getr REG_SP s2 + 8) 20.
Proof.
  generalize demo_call_ok. generalize demo_call. intros s (Hok & Hcpu & Hst & Hc & _ & Hd & Hb).
  destruct (safe_call_arguments 0x40001000 demo_args s) as (s1 & s2 & H1 & H2 & H3 & _ & _ & H4 & H5 & _).
  - exact Hok.
  - exact Hcpu.
  - intros r Hr. apply ref_wide; unfold REG_PC, REG_FPCR, REG_FPSR in *; lia.
  - exact Hc.
  - by rewrite Hb.
  - rewrite Hb. by left.
  - rewrite Hb. by exists 0xA000000.
  - by rewrite Hd.
  - done.
  - done.
  - by repeat constructor.
  - exists s1, s2. split_and!; [exact H1|exact H2|exact H3|exact (H4 7%nat 18 eq_refl ltac:(lia))|].
    exact (H5 1%nat 20 eq_refl).
Defined.

(** An engine whose guest returns at once, and one whose handler throws. *)
Definition quick_run (s : gstate (E := RefEnv)) : RunExit * gstate :=
  ({| run_result := 0; other_cpu := false; run_crash := false |}, s <| tl_call_return_hit := true |>).
Definition stuck_run (s : gstate (E := RefEnv)) : RunExit * gstate :=
  ({| run_result := 0; other_cpu := false; run_crash := false |}, s).
Definition throwing (_ : Z) (s : gstate (E := RefEnv)) : hle_outcome * gstate := (Threw, s).

(** A thread with no memory mapped at all: the frame is lost, the call still
    runs. *)
Definition small_call : gstate (E := RefEnv) := bare_call <| g_mem := mem0 |>.
Definition small_prepared : gstate (E := RefEnv) := putr REG_SP 0xA06FFEB0 small_call.

Lemma small_prepares : prepare_safe 0x40001000 [7] 0 small_call = Some small_prepared.
Proof. reflexivity. Qed.

Lemma quiet_engine run : (forall s, keeps s (run s).2) -> engine_keeps (E := RefEnv) run throwing.
Proof. intros H. split; [exact H|]. intros a s. by split. Qed.

Lemma small_loop_runs : tl_running (loop_entry STACK_SIZE SAFE_CALL_TRAMPOLINE_ADDR small_prepared) = true.
Proof. reflexivity. Qed.

Lemma safe_call_transparent_witness : exists s2,
  call_function_internal STACK_SIZE quick_run throwing 1 0x40001000 [7] true 0 small_call = Some (0, s2) /\
  getr REG_SP s2 = getr REG_SP small_call /\ call_depth s2 = 0.
Proof.
  destruct (safe_call_transparent STACK_SIZE quick_run throwing 0x40001000 [7] 0 small_call small_prepared 1
    ((loop_entry STACK_SIZE SAFE_CALL_TRAMPOLINE_ADDR small_prepared) <| tl_call_return_hit := true |>
       <| tl_call_return_hit := false |> <| tl_start_exit_reason := CleanReturn |>) 1)
    as (s2 & Hcall & Hr & _ & _ & Hd).
  - apply quiet_engine. intros s. by split.
  - reflexivity.
  - exact small_prepares.
  - reflexivity.
  - reflexivity.
  - eapply ends_return; [exact small_loop_runs|reflexivity|reflexivity].
  - lia.
  - exists s2. split_and!; [exact Hcall| |exact Hd].
    apply Hr. apply elem_of_app. left. apply (bool_decide_unpack _). by vm_compute.
Defined.

Lemma exception_leaks_depth_witness : exists s2,
  call_function_internal STACK_SIZE stuck_run throwing 1 0x40001000 [7] true 0 small_call = Some (FAILED, s2) /\
  call_depth s2 = 1.
Proof.
  destruct (exception_leaks_depth STACK_SIZE stuck_run throwing 0x40001000 [7] 0 small_call small_prepared 1
    (loop_entry STACK_SIZE SAFE_CALL_TRAMPOLINE_ADDR small_prepared) 1) as [(s2 & Hcall & Hd) _].
  - apply quiet_engine. intros s. by split.
  - reflexivity.
  - exact small_prepares.
  - reflexivity.
  - reflexivity.
  - apply ends_throw; [exact small_loop_runs|reflexivity].
  - lia.
  - exists s2. split; [exact Hcall|exact Hd].
Defined.
