(* ===== verification/Dispatch.v ===== *)
(** Routing host calls to vCPU workers (src/src/emulator.cpp): [call_function] and
    [call_function_safe_on_stack] for a thread that is no worker, the worker's
    [run_request_loop], [pick_affinity_worker] and the spawning of the pool.

    A transition system over the shared state.  Each step is one stretch of code
    between two releases of a mutex: pushing a request into a mailbox, checking
    the completion flag and parking on the request's condition variable, the
    periodic wake-up of the waiting loop, a worker's check of its mailbox, which ends
    in popping a request or in sleeping on the mailbox's condition variable, publishing
    a result under the request's mutex, and the notification after it; and the steps of
    [stop_emulator_thread].  The call itself is [call_function_internal]; here it yields
    any value. *)

From S2P Require Import Prelude Env MemoryManager GuestCall.

Definition GLOBAL_DATA_BASE : Z := 0xB0000000.

(** [FunctionRequest], with the ghost fields [rq_owner] (the calling thread) and
    [rq_worker] (the mailbox it was pushed to). *)
Record Request := {
  rq_address : Z;
  rq_args : list Z;
  rq_is_safe : bool;
  rq_stack_top : Z;
  rq_result : Z;
  rq_completed : bool;
  rq_owner : nat;
  rq_worker : Z;
}.

Inductive CallerState := Idle | AtWait (r : nat) | Parked (r : nat).
(** [Ready]: about to check its mailbox; [Asleep]: in [mb.cv.wait]; [Exited]: out of
    its loop. *)
Inductive WorkerState := Ready | Asleep | Running (r : nat) | Notifying (r : nat) | Exited.
#[export] Instance WorkerState_eq_dec : EqDecision WorkerState.
Proof. solve_decision. Defined.

(** A calling thread: its state and [tl_affinity_worker]. *)
Record Caller := { c_state : CallerState; tl_affinity_worker : Z }.
Definition new_caller : Caller := {| c_state := Idle; tl_affinity_worker := -1 |}.

Record Pool := {
  vcpu_worker_count_ : Z;
  workers_spawned_ : bool;
  spawn_initiated_ : bool;
  next_affinity_worker_ : Z;
  worker_mailboxes_ : gmap Z (list nat);
  requests : gmap nat Request;
  next_request : nat;
  callers : gmap nat Caller;
  workers : gmap Z WorkerState;
  should_stop_ : bool;
}.

Definition eta_pool (p : Pool) : Pool :=
  Build_Pool (vcpu_worker_count_ p) (workers_spawned_ p) (spawn_initiated_ p) (next_affinity_worker_ p)
    (worker_mailboxes_ p) (requests p) (next_request p) (callers p) (workers p) (should_stop_ p).
#[export] Instance set_workers_spawned_ : Setter workers_spawned_ := ltac:(build_setter eta_pool workers_spawned_).
#[export] Instance set_spawn_initiated_ : Setter spawn_initiated_ := ltac:(build_setter eta_pool spawn_initiated_).
#[export] Instance set_next_affinity_worker_ : Setter next_affinity_worker_ :=
  ltac:(build_setter eta_pool next_affinity_worker_).
#[export] Instance set_worker_mailboxes_ : Setter worker_mailboxes_ := ltac:(build_setter eta_pool worker_mailboxes_).
#[export] Instance set_requests : Setter requests := ltac:(build_setter eta_pool requests).
#[export] Instance set_next_request : Setter next_request := ltac:(build_setter eta_pool next_request).
#[export] Instance set_callers : Setter callers := ltac:(build_setter eta_pool callers).
#[export] Instance set_workers : Setter workers := ltac:(build_setter eta_pool workers).
#[export] Instance set_should_stop_ : Setter should_stop_ := ltac:(build_setter eta_pool should_stop_).

(** The constructor, [start_emulator_thread] and [emulator_thread_func]: worker 0 is the main emulator
    thread, and there is a mailbox for every slot. *)
Definition new_pool (n : Z) : Pool :=
  {| vcpu_worker_count_ := n; workers_spawned_ := false; spawn_initiated_ := false; next_affinity_worker_ := 0;
     worker_mailboxes_ := list_to_map (map (fun i => (Z.of_nat i, [])) (seq 0 (S (Z.to_nat n))));
     requests := ∅; next_request := 0; callers := ∅; workers := {[ 0 := Ready ]};
     should_stop_ := false |}.

(** The thread's caller record; a thread that has not called yet has the initial
    thread-local values. *)
Definition caller (t : nat) (p : Pool) : Caller := default new_caller (callers p !! t).
Definition mailbox (w : Z) (p : Pool) : list nat := default [] (worker_mailboxes_ p !! w).

(** [CROSSSHIM_PIN_WORKER]: -1 when it is not set. *)
Definition pick_affinity_worker (pinned : Z) (t : nat) (p : Pool) : Z * Pool :=
  if workers_spawned_ p && (0 <? vcpu_worker_count_ p)
  then if 0 <=? pinned
       then (if vcpu_worker_count_ p <? pinned then vcpu_worker_count_ p else pinned, p)
       else
         let c := caller t p in
         if tl_affinity_worker c <? 1
         then let w := 1 + Z.rem (next_affinity_worker_ p) (vcpu_worker_count_ p) in
              (w, p <| next_affinity_worker_ := s32 (next_affinity_worker_ p + 1) |>
                    <| callers ::= <[t := {| c_state := c_state c; tl_affinity_worker := w |}]> |>)
         else (tl_affinity_worker c, p)
  else (0, p).

Definition set_caller_state (t : nat) (st : CallerState) (p : Pool) : Pool :=
  p <| callers ::= <[t := {| c_state := st; tl_affinity_worker := tl_affinity_worker (caller t p) |}]> |>.

(** [mb.cv.notify_one()] and [notify_all()]: a mailbox has one worker; if it is asleep it
    checks again. *)
Definition notify_worker (w : Z) (p : Pool) : Pool :=
  match workers p !! w with
  | Some Asleep => p <| workers ::= <[w := Ready]> |>
  | _ => p
  end.

(** [call_function] up to the first wait; the worker is notified under the mutex of its
    mailbox. *)
Definition submit (pinned : Z) (t : nat) (address : Z) (args : list Z) (is_safe : bool) (stack_top : Z) (p : Pool)
    : Pool :=
  let '(w, p1) := pick_affinity_worker pinned t p in
  let r := next_request p1 in
  let q := {| rq_address := address; rq_args := args; rq_is_safe := is_safe; rq_stack_top := stack_top;
              rq_result := 0; rq_completed := false; rq_owner := t; rq_worker := w |} in
  set_caller_state t (AtWait r)
    (notify_worker w
       (p1 <| requests ::= <[r := q]> |> <| next_request := S r |>
           <| worker_mailboxes_ ::= <[w := mailbox w p1 ++ [r]]> |>)).

(** [request->cv.wait_for(lock, ..., pred)]: the predicate, then parking; under the
    request's mutex.  With [Some v] the call returns [v]. *)
Definition check_wait (t r : nat) (q : Request) (p : Pool) : option Z * Pool :=
  if rq_completed q then (Some (rq_result q), set_caller_state t Idle p)
  else (None, set_caller_state t (Parked r) p).

(** [mb.queue.front()], [pop()]. *)
Definition pop_request (w : Z) (r : nat) (rest : list nat) (p : Pool) : Pool :=
  p <| worker_mailboxes_ ::= <[w := rest]> |> <| workers ::= <[w := Running r]> |>.

(** [run_request_loop] up to the call, under the mutex of the mailbox: the predicate of
    [mb.cv.wait], which makes the worker leave, take a request or sleep. *)
Definition check_mailbox (w : Z) (p : Pool) : option nat * Pool :=
  if should_stop_ p then (None, p <| workers ::= <[w := Exited]> |>)
  else match mailbox w p with
       | r :: rest => (Some r, pop_request w r rest p)
       | [] => (None, p <| workers ::= <[w := Asleep]> |>)
       end.

Definition publish_result (w : Z) (r : nat) (q : Request) (v : Z) (p : Pool) : Pool :=
  p <| requests ::= <[r := {| rq_address := rq_address q; rq_args := rq_args q; rq_is_safe := rq_is_safe q;
                             rq_stack_top := rq_stack_top q; rq_result := v; rq_completed := true;
                             rq_owner := rq_owner q; rq_worker := rq_worker q |}]> |>
    <| workers ::= <[w := Notifying r]> |>.

(** [request->cv.notify_one()]: the owner, if it is parked, checks again. *)
Definition notify_one (w : Z) (r : nat) (q : Request) (p : Pool) : Pool :=
  let p1 := p <| workers ::= <[w := Ready]> |> in
  match c_state (caller (rq_owner q) p1) with
  | Parked r' => if decide (r' = r) then set_caller_state (rq_owner q) (AtWait r) p1 else p1
  | _ => p1
  end.

(** * The pool *)

(** The loop of [spawn_vcpu_workers] from worker [i] on: a worker per slot while its
    safe-call stack fits and the clone makes a vCPU. *)
Fixpoint spawn_from (clone_ok : Z -> bool) (i : Z) (n : nat) : list Z :=
  match n with
  | O => []
  | S n' =>
      let region := SAFE_CALL_STACK_BASE ⊕ i ⊗ SAFE_CALL_STACK_SIZE in
      if GLOBAL_DATA_BASE <? region ⊕ SAFE_CALL_STACK_SIZE then []
      else if clone_ok i then i :: spawn_from clone_ok (i + 1) n' else []
  end.

(** The lazy spawn in [run_request_loop] of worker 0. *)
Definition spawn_vcpu_workers (clone_ok : Z -> bool) (p : Pool) : Pool :=
  let online := spawn_from clone_ok 1 (Z.to_nat (vcpu_worker_count_ p)) in
  p <| spawn_initiated_ := true |>
    <| workers ::= fun ws => foldr (fun w ws => <[w := Ready]> ws) ws online |>
    <| workers_spawned_ := true |>.

(** * Steps *)

Inductive label :=
| LSubmit (t r : nat) | LReturn (t r : nat) (v : Z) | LPark (t : nat) | LTimeout (t : nat)
| LPop (w : Z) (r : nat) | LPublish (w : Z) (r : nat) (v : Z) | LNotify (w : Z) (r : nat) | LSpawn
| LIdle (w : Z) | LSpurious (w : Z) | LStop | LStopNotify (w : Z).

Inductive pool_step (pinned : Z) (clone_ok : Z -> bool) : label -> Pool -> Pool -> Prop :=
| step_submit t address args is_safe top p : c_state (caller t p) = Idle ->
    pool_step pinned clone_ok (LSubmit t (next_request p)) p (submit pinned t address args is_safe top p)
| step_return t r q p v p' : c_state (caller t p) = AtWait r -> requests p !! r = Some q ->
    check_wait t r q p = (Some v, p') -> pool_step pinned clone_ok (LReturn t r v) p p'
| step_park t r q p p' : c_state (caller t p) = AtWait r -> requests p !! r = Some q ->
    check_wait t r q p = (None, p') -> pool_step pinned clone_ok (LPark t) p p'
| step_timeout t r p : c_state (caller t p) = Parked r ->
    pool_step pinned clone_ok (LTimeout t) p (set_caller_state t (AtWait r) p)
| step_pop w r p p' : workers p !! w = Some Ready -> check_mailbox w p = (Some r, p') ->
    pool_step pinned clone_ok (LPop w r) p p'
| step_publish w r q v p : workers p !! w = Some (Running r) -> requests p !! r = Some q ->
    pool_step pinned clone_ok (LPublish w r v) p (publish_result w r q v p)
| step_notify w r q p : workers p !! w = Some (Notifying r) -> requests p !! r = Some q ->
    pool_step pinned clone_ok (LNotify w r) p (notify_one w r q p)
| step_spawn r p : workers p !! 0 = Some (Running r) -> spawn_initiated_ p = false ->
    pool_step pinned clone_ok LSpawn p (spawn_vcpu_workers clone_ok p)
| step_idle w p p' : workers p !! w = Some Ready -> check_mailbox w p = (None, p') ->
    pool_step pinned clone_ok (LIdle w) p p'
| step_spurious w p : workers p !! w = Some Asleep ->
    pool_step pinned clone_ok (LSpurious w) p (p <| workers ::= <[w := Ready]> |>)
| step_stop p : pool_step pinned clone_ok LStop p (p <| should_stop_ := true |>)
| step_stop_notify w p : should_stop_ p = true ->
    pool_step pinned clone_ok (LStopNotify w) p (notify_worker w p).

(** Runs: the labels of the steps taken. *)
Inductive pool_run (pinned : Z) (clone_ok : Z -> bool) : list label -> Pool -> Pool -> Prop :=
| run_nil p : pool_run pinned clone_ok [] p p
| run_snoc ls l p p1 p2 : pool_run pinned clone_ok ls p p1 -> pool_step pinned clone_ok l p1 p2 ->
    pool_run pinned clone_ok (ls ++ [l]) p p2.
