(* ===== verification/DispatchSpec.v ===== *)
(** Properties of the request dispatch, for every interleaving: each call gets
    the result of its own request, computed once; no completion is missed; a
    waiting caller can always go on as long as its worker is there; and what
    happens when it is not. *)

From S2P Require Import Prelude Env MemoryManager GuestCall Dispatch.

(** * The invariant *)

(** Where a request is: in the mailbox of its worker, in its worker's hands, or
    completed. *)
Record pool_inv (p : Pool) : Prop := {
  pi_next r : is_Some (requests p !! r) <-> (r < next_request p)%nat;
  pi_mail w r : r ∈ mailbox w p ->
    exists q, requests p !! r = Some q /\ rq_worker q = w /\ rq_completed q = false /\
      workers p !! w <> Some (Running r);
  pi_nodup w : NoDup (mailbox w p);
  pi_running w r : workers p !! w = Some (Running r) ->
    exists q, requests p !! r = Some q /\ rq_worker q = w /\ rq_completed q = false;
  pi_notifying w r : workers p !! w = Some (Notifying r) ->
    exists q, requests p !! r = Some q /\ rq_worker q = w /\ rq_completed q = true;
  pi_pending r q : requests p !! r = Some q -> rq_completed q = false ->
    r ∈ mailbox (rq_worker q) p \/ workers p !! rq_worker q = Some (Running r);
  pi_waiting t r : c_state (caller t p) = AtWait r \/ c_state (caller t p) = Parked r ->
    exists q, requests p !! r = Some q /\ rq_owner q = t;
  pi_parked t r q : c_state (caller t p) = Parked r -> requests p !! r = Some q -> rq_completed q = true ->
    workers p !! rq_worker q = Some (Notifying r);
}.

Lemma mailbox_new n w : mailbox w (new_pool n) = [].
Proof.
  unfold mailbox, new_pool. cbn [worker_mailboxes_]. destruct (_ !! w) as [l|] eqn:H; [|done]. cbn.
  apply elem_of_list_to_map_2, list_elem_of_fmap in H as (i & [= _ ->] & _). done.
Qed.

Lemma pool_inv_new n : pool_inv (new_pool n).
Proof.
  constructor.
  - intros r. cbn. split; [intros [? H]; done|lia].
  - intros w r. rewrite mailbox_new. by intros ?%elem_of_nil.
  - intros w. rewrite mailbox_new. constructor.
  - intros w r. cbn. intros [_ H]%lookup_singleton_Some. done.
  - intros w r. cbn. intros [_ H]%lookup_singleton_Some. done.
  - intros r q H. done.
  - intros t r. cbn. by intros [H|H].
  - intros t r q. done.
Qed.

(** Updates of one caller. *)
Lemma caller_set t st p t' :
  caller t' (set_caller_state t st p) =
  if decide (t' = t) then {| c_state := st; tl_affinity_worker := tl_affinity_worker (caller t p) |} else caller t' p.
Proof.
  unfold set_caller_state, caller. cbn. destruct (decide (t' = t)) as [->|].
  - by rewrite lookup_insert_eq.
  - by rewrite lookup_insert_ne.
Qed.

Lemma mailbox_insert w l ms w' : default [] (<[w := l]> ms !! w') = if decide (w' = w) then l else default [] ((ms : gmap Z (list nat)) !! w').
Proof. destruct (decide (w' = w)) as [->|]; [by rewrite lookup_insert_eq|by rewrite lookup_insert_ne]. Qed.

(** Steps that change no table but a caller's state. *)
Lemma inv_caller t st p : pool_inv p ->
  (forall r, st = AtWait r \/ st = Parked r -> exists q, requests p !! r = Some q /\ rq_owner q = t) ->
  (forall r q, st = Parked r -> requests p !! r = Some q -> rq_completed q = true ->
     workers p !! rq_worker q = Some (Notifying r)) ->
  pool_inv (set_caller_state t st p).
Proof.
  intros [H1 H2 H3 H4 H5 H6 H7 H8] Hw Hp. constructor; try done.
  - intros t' r. rewrite caller_set. destruct (decide (t' = t)) as [->|]; [apply Hw|apply H7].
  - intros t' r q. rewrite caller_set. destruct (decide (t' = t)) as [->|]; [apply Hp|apply H8].
Qed.

(** What choosing a worker leaves alone. *)
Lemma pick_fields pinned t p w p1 : pick_affinity_worker pinned t p = (w, p1) ->
  requests p1 = requests p /\ next_request p1 = next_request p /\ worker_mailboxes_ p1 = worker_mailboxes_ p /\
  workers p1 = workers p /\ spawn_initiated_ p1 = spawn_initiated_ p /\ should_stop_ p1 = should_stop_ p /\ (forall t', c_state (caller t' p1) = c_state (caller t' p)).
Proof.
  unfold pick_affinity_worker. destruct (_ && _); [|by intros [= <- <-]].
  destruct (_ <=? _); [by intros [= <- <-]|]. destruct (_ <? 1); [|by intros [= <- <-]].
  intros [= <- <-]. split_and!; try done. intros t'. unfold caller. cbn. destruct (decide (t' = t)) as [->|].
  - by rewrite lookup_insert_eq.
  - by rewrite lookup_insert_ne.
Qed.

Lemma inv_fields p p1 : pool_inv p ->
  requests p1 = requests p -> next_request p1 = next_request p -> worker_mailboxes_ p1 = worker_mailboxes_ p ->
  workers p1 = workers p -> (forall t', c_state (caller t' p1) = c_state (caller t' p)) -> pool_inv p1.
Proof.
  intros [H1 H2 H3 H4 H5 H6 H7 H8] E1 E2 E3 E4 E5.
  assert (Em : forall w, mailbox w p1 = mailbox w p) by (intros w; unfold mailbox; by rewrite E3).
  constructor; intros *; rewrite ?E1, ?E2, ?Em, ?E4, ?E5; eauto.
Qed.

(** A sleeping worker is no part of where a request is: neither its going to sleep nor
    its waking up matters. *)
Definition resting (o : option WorkerState) : Prop := o = Some Ready \/ o = Some Asleep \/ o = Some Exited.

Lemma rest_inv w st p : pool_inv p -> resting (workers p !! w) -> resting (Some st) ->
  pool_inv (p <| workers ::= <[w := st]> |>).
Proof.
  intros [H1 H2 H3 H4 H5 H6 H7 H8] Hw Hst. set (p' := p <| workers ::= _ |>).
  assert (Hwk : forall w' st', ~ resting (Some st') -> workers p' !! w' = Some st' <-> workers p !! w' = Some st').
  { intros w' st' Hn. cbn. destruct (decide (w' = w)) as [->|]; [|by rewrite lookup_insert_ne].
    rewrite lookup_insert_eq. split; intros E; destruct Hn; by rewrite <- E. }
  assert (Hr : forall r, ~ resting (Some (Running r))) by (intros r [|[|]]; done).
  assert (Hn : forall r, ~ resting (Some (Notifying r))) by (intros r [|[|]]; done).
  constructor; try done.
  - intros w' r Hin. destruct (H2 w' r Hin) as (q & ? & ? & ? & Hne). exists q. split_and!; try done. by rewrite Hwk.
  - intros w' r. rewrite Hwk by done. apply H4.
  - intros w' r. rewrite Hwk by done. apply H5.
  - intros r q Hq Hc. rewrite Hwk by done. by apply H6.
  - intros t r q Hs Hq Hc. rewrite Hwk by done. by apply (H8 t).
Qed.

Lemma notify_worker_cases w p :
  notify_worker w p = p \/
  (workers p !! w = Some Asleep /\ notify_worker w p = p <| workers ::= <[w := Ready]> |>).
Proof. unfold notify_worker. destruct (workers p !! w) as [[]|]; auto. Qed.

Lemma notify_worker_inv w p : pool_inv p -> pool_inv (notify_worker w p).
Proof.
  intros Hi. destruct (notify_worker_cases w p) as [->|[Hw ->]]; [done|]. apply rest_inv; [done|..].
  - by right; left.
  - by left.
Qed.

Lemma notify_worker_fields w p :
  requests (notify_worker w p) = requests p /\ next_request (notify_worker w p) = next_request p /\
  worker_mailboxes_ (notify_worker w p) = worker_mailboxes_ p /\ callers (notify_worker w p) = callers p /\
  spawn_initiated_ (notify_worker w p) = spawn_initiated_ p /\ should_stop_ (notify_worker w p) = should_stop_ p.
Proof. by destruct (notify_worker_cases w p) as [->|[_ ->]]. Qed.

Lemma submit_inv pinned t address args is_safe top p : pool_inv p -> c_state (caller t p) = Idle ->
  pool_inv (submit pinned t address args is_safe top p).
Proof.
  intros Hinv Hidle. unfold submit. destruct (pick_affinity_worker pinned t p) as [w p1] eqn:Hpick.
  destruct (pick_fields _ _ _ _ _ Hpick) as (E1 & E2 & E3 & E4 & _ & _ & E5).
  apply (inv_fields p p1) in Hinv as [H1 H2 H3 H4 H5 H6 H7 H8]; [|done..].
  set (q := Build_Request _ _ _ _ _ _ _ _). set (r := next_request p1) in *.
  set (p2 := (p1 <| requests ::= _ |> <| next_request := _ |>) <| worker_mailboxes_ ::= _ |>).
  assert (Hfresh : requests p1 !! r = None).
  { destruct (requests p1 !! r) as [q0|] eqn:Hq; [|done]. assert (r < r)%nat by (apply H1; eauto). lia. }
  assert (Hold : forall r0 q0, requests p1 !! r0 = Some q0 -> requests p2 !! r0 = Some q0 /\ r0 <> r).
  { intros r0 q0 Hq. assert (r0 <> r) by congruence. split; [|done]. cbn. by rewrite lookup_insert_ne. }
  assert (Hmb : forall w', mailbox w' p2 = if decide (w' = w) then mailbox w p1 ++ [r] else mailbox w' p1)
    by (intros w'; apply mailbox_insert).
  assert (Hnm : forall w', r ∉ mailbox w' p1) by (intros w' Hin; destruct (H2 w' r Hin) as (q0 & Hq & _); congruence).
  assert (Hself : requests p2 !! r = Some q) by (cbn; by rewrite lookup_insert_eq).
  destruct (notify_worker_fields w p2) as (N1 & N2 & N3 & N4 & _).
  apply inv_caller.
  - apply notify_worker_inv. constructor.
    + intros r0. change (next_request p2) with (S r). split.
      * intros [q0 Hq0]. cbn in Hq0. rewrite lookup_insert in Hq0. destruct (decide (r = r0)) as [->|]; [lia|].
        assert (r0 < r)%nat by (apply H1; eauto). lia.
      * intros Hlt. destruct (decide (r0 = r)) as [->|]; [eauto|].
        destruct (proj2 (H1 r0) ltac:(lia)) as [q0 Hq0]. exists q0. by apply Hold.
    + intros w' r0. rewrite Hmb. change (workers p2) with (workers p1). intros Hin.
      destruct (decide (w' = w)) as [->|].
      * apply elem_of_app in Hin as [Hin|Hin%list_elem_of_singleton].
        -- destruct (H2 w r0 Hin) as (q0 & Hq & Hr). exists q0. split; [by apply Hold|done].
        -- subst r0. exists q. split_and!; try done. intros Hrun. destruct (H4 w r Hrun) as (q0 & Hq & _). congruence.
      * destruct (H2 w' r0 Hin) as (q0 & Hq & Hr). exists q0. split; [by apply Hold|done].
    + intros w'. rewrite Hmb. destruct (decide (w' = w)) as [->|]; [|done]. apply NoDup_app. split_and!; [done| |apply NoDup_singleton].
      intros x Hx ->%list_elem_of_singleton. by apply (Hnm w).
    + intros w' r0 Hrun. destruct (H4 w' r0 Hrun) as (q0 & Hq & Hr). exists q0. split; [by apply Hold|done].
    + intros w' r0 Hrun. destruct (H5 w' r0 Hrun) as (q0 & Hq & Hr). exists q0. split; [by apply Hold|done].
    + intros r0 q0 Hq Hc. destruct (decide (r0 = r)) as [->|Hne].
      * rewrite Hself in Hq. injection Hq as <-. left. rewrite Hmb, decide_True by done. apply elem_of_app. right. by left.
      * assert (Hq1 : requests p1 !! r0 = Some q0) by (cbn in Hq; by rewrite lookup_insert_ne in Hq).
        destruct (H6 r0 q0 Hq1 Hc) as [Hin|Hrun]; [left|by right]. rewrite Hmb.
        destruct (decide _) as [Ew|]; [|done]. apply elem_of_app. left. by rewrite <- Ew.
    + intros t' r0 Hst. change (caller t' p2) with (caller t' p1) in Hst. destruct (H7 t' r0 Hst) as (q0 & Hq & Ho).
      exists q0. split; [by apply Hold|done].
    + intros t' r0 q0 Hst Hq Hc. change (caller t' p2) with (caller t' p1) in Hst. change (workers p2) with (workers p1).
      destruct (H7 t' r0 (or_intror Hst)) as (q1 & Hq1 & _). destruct (Hold _ _ Hq1) as [Hq2 _].
      assert (q1 = q0) as -> by congruence. by apply (H8 t').
  - intros r0 [[= <-]|[=]]. rewrite N1. by exists q.
  - intros r0 q0 [=].
Qed.

Lemma pop_inv w r rest p : pool_inv p -> workers p !! w = Some Ready -> mailbox w p = r :: rest ->
  pool_inv (pop_request w r rest p).
Proof.
  intros [H1 H2 H3 H4 H5 H6 H7 H8] Hw Hm. set (p' := pop_request w r rest p).
  assert (Hmb : forall w', mailbox w' p' = if decide (w' = w) then rest else mailbox w' p)
    by (intros w'; apply mailbox_insert).
  assert (Hwk : forall w', workers p' !! w' = if decide (w' = w) then Some (Running r) else workers p !! w').
  { intros w'. cbn. destruct (decide (w' = w)) as [->|]; [by rewrite lookup_insert_eq|by rewrite lookup_insert_ne]. }
  pose proof (H3 w) as Hnd. rewrite Hm in Hnd. apply NoDup_cons in Hnd as [Hni Hnd].
  destruct (H2 w r) as (q & Hq & Hqw & Hqc & _); [rewrite Hm; by left|].
  constructor; try done.
  - intros w' r0. rewrite Hmb, Hwk. intros Hin. destruct (decide (w' = w)) as [->|].
    + destruct (H2 w r0) as (q0 & Hq0 & Hw0 & Hc0 & _); [rewrite Hm; by right|]. exists q0. split_and!; try done.
      intros [= ->]. done.
    + by apply H2.
  - intros w'. rewrite Hmb. by destruct (decide (w' = w)).
  - intros w' r0. rewrite Hwk. destruct (decide (w' = w)) as [->|]; [intros [= <-]; by exists q|apply H4].
  - intros w' r0. rewrite Hwk. destruct (decide (w' = w)) as [->|]; [done|apply H5].
  - intros r0 q0 Hq0 Hc0. rewrite Hmb, Hwk. destruct (H6 r0 q0 Hq0 Hc0) as [Hin|Hrun].
    + destruct (decide (rq_worker q0 = w)) as [Ew|]; [|by left]. rewrite Ew, Hm in Hin.
      apply elem_of_cons in Hin as [->|Hin]; [by right|by left].
    + destruct (decide (rq_worker q0 = w)) as [Ew|]; [|by right]. congruence.
  - intros t r0 q0 Hst Hq0 Hc0. rewrite Hwk. pose proof (H8 t r0 q0 Hst Hq0 Hc0).
    destruct (decide (rq_worker q0 = w)) as [Ew|]; [congruence|done].
Qed.

Lemma publish_inv w r q v p : pool_inv p -> workers p !! w = Some (Running r) -> requests p !! r = Some q ->
  pool_inv (publish_result w r q v p).
Proof.
  intros [H1 H2 H3 H4 H5 H6 H7 H8] Hw Hq. set (p' := publish_result w r q v p).
  destruct (H4 w r Hw) as (q0 & Hq0 & Hqw & Hqc). assert (q0 = q) as -> by congruence.
  set (q' := Build_Request (rq_address q) (rq_args q) (rq_is_safe q) (rq_stack_top q) v true (rq_owner q) (rq_worker q)).
  assert (Hrq : forall r0, requests p' !! r0 = if decide (r0 = r) then Some q' else requests p !! r0).
  { intros r0. cbn. destruct (decide (r0 = r)) as [->|]; [by rewrite lookup_insert_eq|by rewrite lookup_insert_ne]. }
  assert (Hwk : forall w', workers p' !! w' = if decide (w' = w) then Some (Notifying r) else workers p !! w').
  { intros w'. cbn. destruct (decide (w' = w)) as [->|]; [by rewrite lookup_insert_eq|by rewrite lookup_insert_ne]. }
  constructor.
  - intros r0. rewrite Hrq. change (next_request p') with (next_request p). rewrite <- H1. destruct (decide (r0 = r)) as [->|]; [|done]. split; eauto.
  - intros w' r0 Hin. destruct (H2 w' r0 Hin) as (q1 & Hq1 & Hw1 & Hc1 & Hr1).
    assert (Hne : r0 <> r). { intros ->. assert (q1 = q) as -> by congruence. rewrite Hqw in Hw1. by subst w'. }
    exists q1. rewrite Hrq, decide_False by done. split_and!; try done. rewrite Hwk. by destruct (decide _).
  - exact H3.
  - intros w' r0. rewrite Hwk. destruct (decide (w' = w)) as [->|Hne]; [done|]. intros Hrun.
    destruct (H4 w' r0 Hrun) as (q1 & Hq1 & Hw1 & Hc1). exists q1. rewrite Hrq, decide_False; [done|].
    intros ->. congruence.
  - intros w' r0. rewrite Hwk, Hrq. destruct (decide (w' = w)) as [->|Hne].
    + intros [= <-]. rewrite decide_True by done. by exists q'.
    + intros Hn. destruct (H5 w' r0 Hn) as (q1 & Hq1 & Hw1 & Hc1). rewrite decide_False by congruence. by exists q1.
  - intros r0 q1. rewrite Hrq. destruct (decide (r0 = r)) as [->|Hne]; [by intros [= <-]|]. intros Hq1 Hc1.
    destruct (H6 r0 q1 Hq1 Hc1) as [Hin|Hrun]; [by left|right]. rewrite Hwk. destruct (decide _); [congruence|done].
  - intros t r0 Hst. destruct (H7 t r0 Hst) as (q1 & Hq1 & Ho). rewrite Hrq.
    destruct (decide (r0 = r)) as [->|]; [|by exists q1]. exists q'. split; [done|]. cbn. congruence.
  - intros t r0 q1 Hst. rewrite Hrq, Hwk. destruct (decide (r0 = r)) as [->|].
    + intros [= <-] _. cbn. by rewrite decide_True.
    + intros Hq1 Hc1. pose proof (H8 t r0 q1 Hst Hq1 Hc1) as Hn. destruct (decide _) as [Ew|]; [congruence|done].
Qed.

Lemma notify_inv w r q p : pool_inv p -> workers p !! w = Some (Notifying r) -> requests p !! r = Some q ->
  pool_inv (notify_one w r q p).
Proof.
  intros Hinv Hw Hq. pose proof Hinv as [H1 H2 H3 H4 H5 H6 H7 H8].
  destruct (H5 w r Hw) as (q0 & Hq0 & Hqw & Hqc). assert (q0 = q) as -> by congruence.
  unfold notify_one. set (p1 := p <| workers ::= <[w := Ready]> |>).
  assert (Hwk : forall w', workers p1 !! w' = if decide (w' = w) then Some Ready else workers p !! w').
  { intros w'. cbn. destruct (decide (w' = w)) as [->|]; [by rewrite lookup_insert_eq|by rewrite lookup_insert_ne]. }
  (** Everything but the parked callers survives the worker becoming ready. *)
  assert (Hmost : forall st, (forall r0, st = AtWait r0 \/ st = Parked r0 -> exists q0, requests p !! r0 = Some q0 /\ rq_owner q0 = rq_owner q) ->
    (forall r0 q0, st = Parked r0 -> requests p !! r0 = Some q0 -> rq_completed q0 = true ->
       workers p1 !! rq_worker q0 = Some (Notifying r0)) ->
    pool_inv (set_caller_state (rq_owner q) st p1)).
  { intros st Hst Hpk. constructor; try done.
    - intros w' r0 Hin. destruct (H2 w' r0 Hin) as (q1 & Hq1 & Hw1 & Hc1 & Hr1). exists q1. split_and!; try done.
      change (workers p1 !! w' <> Some (Running r0)). rewrite Hwk. by destruct (decide _).
    - intros w' r0. change (workers p1 !! w' = Some (Running r0) -> exists q0, requests p !! r0 = Some q0 /\ rq_worker q0 = w' /\ rq_completed q0 = false).
      rewrite Hwk. destruct (decide _); [done|apply H4].
    - intros w' r0. change (workers p1 !! w' = Some (Notifying r0) -> exists q0, requests p !! r0 = Some q0 /\ rq_worker q0 = w' /\ rq_completed q0 = true).
      rewrite Hwk. destruct (decide _); [done|apply H5].
    - intros r0 q1 Hq1 Hc1. destruct (H6 r0 q1 Hq1 Hc1) as [Hin|Hrun]; [by left|right].
      change (workers p1 !! rq_worker q1 = Some (Running r0)). rewrite Hwk. destruct (decide _) as [Ew|]; [|done].
      rewrite Ew, Hw in Hrun. done.
    - intros t r0. rewrite caller_set. destruct (decide (t = rq_owner q)) as [->|]; [apply Hst|apply H7].
    - intros t r0 q1. rewrite caller_set. destruct (decide (t = rq_owner q)) as [->|Hne]; [apply Hpk|].
      intros Hs Hq1 Hc1. change (requests p !! r0 = Some q1) in Hq1. pose proof (H8 t r0 q1 Hs Hq1 Hc1) as Hn. change (workers p1 !! rq_worker q1 = Some (Notifying r0)).
      rewrite Hwk. destruct (decide _) as [Ew|]; [|done]. exfalso. rewrite Ew, Hw in Hn. injection Hn as <-.
      assert (q1 = q) as -> by congruence. destruct (H7 t r (or_intror Hs)) as (q2 & Hq2 & Ho). apply Hne. congruence. }
  change (caller (rq_owner q) p1) with (caller (rq_owner q) p).
  assert (Hid : forall st, c_state (caller (rq_owner q) p) = st ->
    (forall r0, st = Parked r0 -> r0 <> r) -> pool_inv p1).
  { intros st Est Hpk. assert (Hinv' : pool_inv (set_caller_state (rq_owner q) st p1)).
    - apply Hmost; [intros r0 Hs; apply H7; by rewrite Est|].
      intros r0 q1 -> Hq1 Hc1. pose proof (H8 _ r0 q1 Est Hq1 Hc1) as Hn. rewrite Hwk.
      destruct (decide _) as [Ew|]; [|done]. exfalso. rewrite Ew, Hw in Hn. injection Hn as <-. by apply (Hpk r).
    - refine (inv_fields _ p1 Hinv' eq_refl eq_refl eq_refl eq_refl _). intros t'. rewrite caller_set.
      destruct (decide (t' = rq_owner q)) as [->|]; [|done]. exact Est. }
  destruct (c_state (caller (rq_owner q) p)) as [|r0|r0] eqn:Est.
  - by apply (Hid _ eq_refl).
  - by apply (Hid _ eq_refl).
  - destruct (decide (r0 = r)) as [->|Hne].
    + apply Hmost; [|done]. intros r0 [[= <-]|[=]]. by exists q.
    + apply (Hid _ eq_refl). by intros r1 [= <-].
Qed.

(** * Every step *)

(** Until the pool is spawned the main emulator thread is the only worker. *)
Definition spawn_fresh (p : Pool) : Prop :=
  spawn_initiated_ p = false -> forall w, w <> 0 -> workers p !! w = None.

Lemma spawned_workers ws online w :
  foldr (fun w ws => <[w := Ready]> ws) (ws : gmap Z WorkerState) online !! w =
  if decide (w ∈ online) then Some Ready else ws !! w.
Proof.
  induction online as [|x l IH]; cbn; [done|]. destruct (decide (w = x)) as [->|Hne].
  - rewrite lookup_insert_eq, decide_True; [done|by left].
  - rewrite lookup_insert_ne, IH by done. apply decide_ext. rewrite elem_of_cons. naive_solver.
Qed.

Lemma spawn_from_range clone_ok n : forall i w, 0 <= i <= 32 -> w ∈ spawn_from clone_ok i n -> i <= w < 32.
Proof.
  induction n as [|n IH]; intros i w Hi; cbn -[Z.mul]; [by intros ?%elem_of_nil|].
  destruct (_ <? _) eqn:Hlt; [by intros ?%elem_of_nil|]. destruct (clone_ok i); [|by intros ?%elem_of_nil].
  assert (i <> 32) by (intros ->; done).
  intros [->|Hin]%elem_of_cons; [lia|]. specialize (IH (i + 1) w ltac:(lia) Hin). lia.
Qed.

Lemma spawn_inv clone_ok p : pool_inv p -> spawn_fresh p -> spawn_initiated_ p = false ->
  pool_inv (spawn_vcpu_workers clone_ok p).
Proof.
  intros [H1 H2 H3 H4 H5 H6 H7 H8] Hf Hs. set (p' := spawn_vcpu_workers clone_ok p).
  assert (Hwk : forall w st, st <> Ready -> workers p' !! w = Some st <-> workers p !! w = Some st).
  { intros w st Hst. unfold p', spawn_vcpu_workers. cbn [workers]. cbn -[spawn_from]. rewrite spawned_workers.
    destruct (decide _) as [Hin|]; [|done]. apply spawn_from_range in Hin; [|lia].
    rewrite (Hf Hs) by lia. split; [congruence|done]. }
  constructor; try done.
  - intros w r Hin. destruct (H2 w r Hin) as (q & ? & ? & ? & Hr). exists q. split_and!; try done. by rewrite Hwk.
  - intros w r. rewrite Hwk by done. apply H4.
  - intros w r. rewrite Hwk by done. apply H5.
  - intros r q Hq Hc. rewrite Hwk by done. by apply H6.
  - intros t r q Hst Hq Hc. rewrite Hwk by done. by apply (H8 t).
Qed.

(** The worker's check of its mailbox. *)
Lemma check_mailbox_pop w r p p' : check_mailbox w p = (Some r, p') ->
  exists rest, mailbox w p = r :: rest /\ p' = pop_request w r rest p /\ should_stop_ p = false.
Proof.
  unfold check_mailbox. destruct (should_stop_ p); [done|]. destruct (mailbox w p) as [|r0 rest]; [done|].
  intros [= -> <-]. by exists rest.
Qed.

Lemma check_mailbox_idle w p p' : check_mailbox w p = (None, p') ->
  exists st, resting (Some st) /\ p' = p <| workers ::= <[w := st]> |> /\
    (st = Exited /\ should_stop_ p = true \/ st = Asleep /\ mailbox w p = []).
Proof.
  unfold check_mailbox, resting. destruct (should_stop_ p); [intros [= <-]; exists Exited; naive_solver|].
  destruct (mailbox w p) as [|r0 rest] eqn:Hm; [|done]. intros [= <-]. exists Asleep. naive_solver.
Qed.

Section Runs.
Context (pinned : Z) (clone_ok : Z -> bool).
Notation step := (pool_step pinned clone_ok).
Notation run := (pool_run pinned clone_ok).

(** A call wakes at most the worker it goes to. *)
Lemma submit_fields t address args is_safe top p :
  spawn_initiated_ (submit pinned t address args is_safe top p) = spawn_initiated_ p /\
  should_stop_ (submit pinned t address args is_safe top p) = should_stop_ p /\
  (workers (submit pinned t address args is_safe top p) = workers p \/
   exists w, workers p !! w = Some Asleep /\
     workers (submit pinned t address args is_safe top p) = <[w := Ready]> (workers p)).
Proof.
  unfold submit. destruct (pick_affinity_worker pinned t p) as [w p1] eqn:Hpick.
  destruct (pick_fields _ _ _ _ _ Hpick) as (_ & _ & _ & E4 & E5 & E6 & _). set (p2 := p1 <| requests ::= _ |> <| next_request := _ |> <| worker_mailboxes_ ::= _ |>).
  destruct (notify_worker_fields w p2) as (_ & _ & _ & _ & N5 & N6).
  cbn [set_caller_state]. unfold set_caller_state. cbn. rewrite N5, N6. split_and!; [done..|].
  destruct (notify_worker_cases w p2) as [->|[Hw ->]]; [by left|right]. exists w. rewrite <- E4. done.
Qed.

Lemma submit_workers t address args is_safe top p w : workers p !! w = None ->
  workers (submit pinned t address args is_safe top p) !! w = None.
Proof.
  intros Hw. destruct (submit_fields t address args is_safe top p) as (_ & _ & [->|(w' & Ha & ->)]); [done|].
  rewrite lookup_insert_ne; [done|]. congruence.
Qed.

(** A step changes only workers that were there, or spawns. *)
Lemma step_fresh l p p' : step l p p' -> spawn_fresh p -> spawn_fresh p'.
Proof.
  intros Hs Hf Hs' w Hne. destruct Hs as [t address args is_safe top p|t r q p v p' _ _ Hc|t r q p p' _ _ Hc|t r p|
    w' r p p' Hw Hc|w' r q v p Hw|w' r q p Hw|r p|w' p p' Hw Hc|w' p Hw|p|w' p].
  - rewrite (proj1 (submit_fields t address args is_safe top p)) in Hs'. by apply submit_workers, Hf.
  - unfold check_wait in Hc. destruct (rq_completed q); simplify_eq. by apply (Hf Hs').
  - unfold check_wait in Hc. destruct (rq_completed q); simplify_eq. by apply (Hf Hs').
  - by apply (Hf Hs').
  - apply check_mailbox_pop in Hc as (rest & _ & -> & _).
    cbn. rewrite lookup_insert_ne; [by apply Hf|]. intros ->. by rewrite (Hf Hs') in Hw.
  - cbn. rewrite lookup_insert_ne; [by apply Hf|]. intros ->. by rewrite (Hf Hs') in Hw.
  - assert (E1 : spawn_initiated_ p = false).
    { unfold notify_one in Hs'. destruct (c_state _); [done..|]. by destruct (decide _). }
    assert (E2 : workers (notify_one w' r q p) = <[w' := Ready]> (workers p)).
    { unfold notify_one. destruct (c_state _); [done..|]. by destruct (decide _). }
    rewrite E2, lookup_insert_ne; [by apply Hf|]. intros ->. by rewrite (Hf E1) in Hw.
  - done.
  - apply check_mailbox_idle in Hc as (st & _ & -> & _).
    cbn. rewrite lookup_insert_ne; [by apply Hf|]. intros ->. by rewrite (Hf Hs') in Hw.
  - cbn. rewrite lookup_insert_ne; [by apply Hf|]. intros ->. by rewrite (Hf Hs') in Hw.
  - by apply (Hf Hs').
  - destruct (notify_worker_cases w' p) as [Ew|[Hw Ew]]; rewrite Ew in Hs' |- *; [by apply Hf|].
    cbn. rewrite lookup_insert_ne; [by apply Hf|]. intros ->. by rewrite (Hf Hs') in Hw.
Qed.

Lemma step_inv l p p' : step l p p' -> pool_inv p -> spawn_fresh p -> pool_inv p'.
Proof.
  intros Hs Hinv Hf. destruct Hs as [t address args is_safe top p|t r q p v p' Hst Hq Hc|t r q p p' Hst Hq Hc|t r p Hst|
    w r p p' Hw Hc|w r q v p Hw Hq|w r q p Hw Hq|r p Hw Hs|w p p' Hw Hc|w p Hw|p|w p _].
  - by apply submit_inv.
  - unfold check_wait in Hc. destruct (rq_completed q); simplify_eq. apply inv_caller; [done| |done]. by intros ? [|].
  - unfold check_wait in Hc. destruct (rq_completed q) eqn:Hqc; simplify_eq. apply inv_caller; [done|..].
    + intros r0 [[=]|[= <-]]. apply (pi_waiting _ Hinv t r). by left.
    + intros r0 q0 [= <-] Hq0 Hc0. congruence.
  - apply inv_caller; [done| |done]. intros r0 [[= <-]|[=]]. apply (pi_waiting _ Hinv t r). by right.
  - apply check_mailbox_pop in Hc as (rest & Hm & -> & _). by apply pop_inv.
  - by apply publish_inv.
  - by apply notify_inv.
  - by apply spawn_inv.
  - apply check_mailbox_idle in Hc as (st & Hst & -> & _). apply rest_inv; [done|by left|done].
  - apply rest_inv; [done|by right; left|by left].
  - by apply (inv_fields p).
  - by apply notify_worker_inv.
Qed.

(** A worker sleeps only on an empty mailbox, and leaves its loop only when the emulator
    is told to stop. *)
Definition idle_inv (p : Pool) : Prop :=
  (forall w, workers p !! w = Some Asleep -> mailbox w p = []) /\
  (forall w, workers p !! w = Some Exited -> should_stop_ p = true).

(** A step that gives a worker a state other than these two, and changes no other mailbox. *)
Lemma idle_set w st p p' : idle_inv p -> workers p' = <[w := st]> (workers p) ->
  (forall w', w' <> w -> mailbox w' p' = mailbox w' p) -> should_stop_ p' = should_stop_ p ->
  (st = Asleep -> mailbox w p' = []) -> (st = Exited -> should_stop_ p = true) -> idle_inv p'.
Proof.
  intros [H1 H2] Ew Em Es Ha He. split; intros w'; rewrite Ew, ?Es; (destruct (decide (w' = w)) as [->|];
    [rewrite lookup_insert_eq; intros [= ->]; auto|rewrite lookup_insert_ne by done]).
  - rewrite Em by done. apply H1.
  - apply H2.
Qed.

Lemma idle_same p p' : idle_inv p -> workers p' = workers p -> worker_mailboxes_ p' = worker_mailboxes_ p ->
  should_stop_ p' = should_stop_ p -> idle_inv p'.
Proof. intros [H1 H2] Ew Em Es. unfold idle_inv, mailbox. by rewrite Ew, Em, Es. Qed.

Lemma notify_worker_idle w p : idle_inv p -> idle_inv (notify_worker w p).
Proof. intros H. destruct (notify_worker_cases w p) as [->|[Hw ->]]; [done|]. by eapply (idle_set w Ready). Qed.

(** The push may break it, the notification after it restores it. *)
Lemma submit_idle t address args is_safe top p : idle_inv p -> idle_inv (submit pinned t address args is_safe top p).
Proof.
  intros [H1 H2]. unfold submit. destruct (pick_affinity_worker pinned t p) as [w p1] eqn:Hpick.
  destruct (pick_fields _ _ _ _ _ Hpick) as (_ & _ & E3 & E4 & _ & E6 & _).
  set (p2 := p1 <| requests ::= _ |> <| next_request := _ |> <| worker_mailboxes_ ::= _ |>).
  apply (idle_same (notify_worker w p2)); [|done..].
  assert (Hm : forall w', w' <> w -> mailbox w' p2 = mailbox w' p).
  { intros w' Hne. unfold mailbox. cbn. rewrite lookup_insert_ne by done. by rewrite E3. }
  assert (Hwk : workers p2 = workers p) by done. assert (Hs : should_stop_ p2 = should_stop_ p) by done.
  unfold notify_worker. destruct (workers p2 !! w) as [st|] eqn:Hw.
  - destruct (decide (st = Asleep)) as [->|Hne].
    + apply (idle_set w Ready p); try done. cbn. by rewrite E4.
    + apply (idle_set w st p) with (p' := p2) in Hs as Hi; [by destruct st|done| |done|done|].
      * rewrite Hwk. by rewrite insert_id by (by rewrite <- Hwk).
      * intros ->. apply (H2 w). by rewrite <- Hwk.
  - split; intros w'; [|by rewrite Hwk, Hs; apply H2]. intros Ha. rewrite Hm by congruence. apply H1. by rewrite <- Hwk.
Qed.

Lemma step_idle_inv l p p' : step l p p' -> idle_inv p -> idle_inv p'.
Proof.
  intros Hs Hi. destruct Hs as [t address args is_safe top p|t r q p v p' Hst Hq Hc|t r q p p' Hst Hq Hc|t r p Hst|
    w r p p' Hw Hc|w r q v p Hw Hq|w r q p Hw Hq|r p Hw Hs|w p p' Hw Hc|w p Hw|p|w p _].
  - by apply submit_idle.
  - unfold check_wait in Hc. destruct (rq_completed q); simplify_eq. by apply (idle_same p).
  - unfold check_wait in Hc. destruct (rq_completed q); simplify_eq. by apply (idle_same p).
  - by apply (idle_same p).
  - apply check_mailbox_pop in Hc as (rest & Hm & -> & _). apply (idle_set w (Running r) p); try done.
    intros w' Hne. unfold mailbox. cbn. by rewrite lookup_insert_ne.
  - by apply (idle_set w (Notifying r) p).
  - unfold notify_one. assert (Hr : idle_inv (p <| workers ::= <[w := Ready]> |>)) by by apply (idle_set w Ready p).
    destruct (c_state _); [done..|]. by destruct (decide _).
  - destruct Hi as [H1 H2]. unfold spawn_vcpu_workers. split; intros w; cbn -[spawn_from]; rewrite spawned_workers.
    + destruct (decide _); [done|]. apply H1.
    + destruct (decide _); [done|]. apply H2.
  - apply check_mailbox_idle in Hc as (st & _ & -> & Hst). apply (idle_set w st p); try done; intros ->; naive_solver.
  - by apply (idle_set w Ready p).
  - destruct Hi as [H1 H2]. split; [exact H1|done].
  - by apply notify_worker_idle.
Qed.

Lemma run_idle ls n p : run ls (new_pool n) p -> idle_inv p.
Proof.
  intros Hr. remember (new_pool n) as p0 eqn:Hp0. induction Hr as [p0|ls l p0 p1 p2 Hr IH Hs].
  - subst p0. split; intros w; cbn; by intros [_ H]%lookup_singleton_Some.
  - by eapply step_idle_inv; [|apply IH].
Qed.

Lemma run_inv ls n p : run ls (new_pool n) p -> pool_inv p /\ spawn_fresh p.
Proof.
  intros Hr. remember (new_pool n) as p0 eqn:Hp0. induction Hr as [p0|ls l p0 p1 p2 Hr IH Hs].
  - subst p0. split; [apply pool_inv_new|]. intros _ w Hne. cbn. by rewrite lookup_singleton_ne.
  - destruct (IH Hp0) as [Hi Hf]. split; [by eapply step_inv|by eapply step_fresh].
Qed.

Lemma run_app ls1 ls2 p p1 p2 : run ls1 p p1 -> run ls2 p1 p2 -> run (ls1 ++ ls2) p p2.
Proof.
  intros H1 H2. induction H2 as [|ls l p1' p2' p3' Hr IH Hs]; [by rewrite app_nil_r|].
  rewrite app_assoc. by eapply run_snoc; [apply IH|].
Qed.

Lemma run_split ls1 : forall ls2 p p2, run (ls1 ++ ls2) p p2 -> exists p1, run ls1 p p1 /\ run ls2 p1 p2.
Proof.
  intros ls2. induction ls2 as [|l ls2 IH] using rev_ind; intros p p2 H.
  - rewrite app_nil_r in H. exists p2. split; [done|constructor].
  - rewrite app_assoc in H. inversion H as [|ls l' ? p1 ? Hr Hs E1]; [by destruct (ls1 ++ ls2)|].
    apply app_inj_tail in E1 as [-> ->]. destruct (IH _ _ Hr) as (pm & H3 & H4). exists pm. split; [done|].
    by eapply run_snoc.
Qed.

Lemma run_one l p p' : step l p p' -> run [l] p p'.
Proof. intros H. apply (run_snoc _ _ [] l p p p'); [constructor|done]. Qed.

(** * What a run has done *)

(** The values published for a request, with the worker; the requests a worker
    took from its mailbox; the requests routed to a worker, in the order of their
    submission. *)
Definition published (r : nat) (l : label) : option (Z * Z) :=
  match l with LPublish w r' v => if decide (r' = r) then Some (w, v) else None | _ => None end.
Definition publishes (r : nat) (ls : list label) : list (Z * Z) := omap (published r) ls.
Definition popped (w : Z) (l : label) : option nat :=
  match l with LPop w' r => if decide (w' = w) then Some r else None | _ => None end.
Definition pops (w : Z) (ls : list label) : list nat := omap (popped w) ls.
Definition routed (w : Z) (p : Pool) : list nat :=
  filter (fun r => rq_worker <$> requests p !! r = Some w) (seq 0 (next_request p)).

Definition outcome (r : nat) (p : Pool) : list (Z * Z) :=
  match requests p !! r with
  | Some q => if rq_completed q then [(rq_worker q, rq_result q)] else []
  | None => []
  end.

Record history (ls : list label) (p : Pool) : Prop := {
  h_published r : publishes r ls = outcome r p;
  h_submitted t r : LSubmit t r ∈ ls <-> rq_owner <$> requests p !! r = Some t;
  h_fifo w : pops w ls ++ mailbox w p = routed w p;
}.

Lemma omap_snoc {A B} (g : A -> option B) l x : omap g (l ++ [x]) = omap g l ++ from_option (fun y => [y]) [] (g x).
Proof. induction l as [|y l IH]; cbn; [by destruct (g x)|]. destruct (g y); cbn; by rewrite IH. Qed.

Lemma filter_ext_in {A} (P Q : A -> Prop) `{!forall x, Decision (P x), !forall x, Decision (Q x)} (l : list A) :
  (forall x, x ∈ l -> P x <-> Q x) -> filter P l = filter Q l.
Proof.
  induction l as [|x l IH]; intros Hl; [done|]. rewrite !filter_cons, IH by (intros y Hy; apply Hl; by right).
  assert (HPQ : P x <-> Q x) by (apply Hl; by left). by rewrite (decide_ext (P x) (Q x)).
Qed.

Lemma routed_same w p p' : next_request p' = next_request p ->
  (forall r, rq_worker <$> requests p' !! r = rq_worker <$> requests p !! r) -> routed w p' = routed w p.
Proof. intros En Er. unfold routed. rewrite En. apply list_filter_iff. intros r. by rewrite Er. Qed.

(** A step that neither submits nor publishes leaves the requests alone, and one
    that does not pop leaves the mailboxes alone. *)
Lemma history_quiet ls l p p' : history ls p ->
  requests p' = requests p -> next_request p' = next_request p -> worker_mailboxes_ p' = worker_mailboxes_ p ->
  (forall r, published r l = None) -> (forall w, popped w l = None) -> (forall t r, l <> LSubmit t r) ->
  history (ls ++ [l]) p'.
Proof.
  intros [Hp Hs Hf] E1 E2 E3 Hnp Hnw Hns. constructor.
  - intros r. unfold publishes, outcome. rewrite omap_snoc, Hnp, app_nil_r, E1. apply Hp.
  - intros t r. rewrite E1, <- Hs, elem_of_app, list_elem_of_singleton. split; [|by left].
    intros [H|H]; [done|]. by destruct (Hns t r).
  - intros w. unfold pops, mailbox. rewrite omap_snoc, Hnw, app_nil_r, E3. rewrite (routed_same w p); [apply Hf|done|].
    intros r. by rewrite E1.
Qed.

Lemma history_submit ls t address args is_safe top p : pool_inv p -> history ls p ->
  history (ls ++ [LSubmit t (next_request p)]) (submit pinned t address args is_safe top p).
Proof.
  intros Hinv [Hp Hs Hf]. unfold submit. destruct (pick_affinity_worker pinned t p) as [w p1] eqn:Hpick.
  destruct (pick_fields _ _ _ _ _ Hpick) as (E1 & E2 & E3 & _). rewrite E2. set (r := next_request p) in *.
  assert (Hfresh : requests p !! r = None).
  { destruct (requests p !! r) as [q|] eqn:Hq; [|done]. assert (r < r)%nat by (apply (pi_next p Hinv); eauto). lia. }
  set (q := Build_Request _ _ _ _ _ _ _ _). set (p3 := p1 <| requests ::= _ |> <| next_request := _ |> <| worker_mailboxes_ ::= _ |>).
  destruct (notify_worker_fields w p3) as (N1 & N2 & N3 & _). set (p2 := set_caller_state _ _ _).
  assert (Hrq : forall r0, requests p2 !! r0 = if decide (r0 = r) then Some q else requests p !! r0).
  { intros r0. change (requests p2) with (requests (notify_worker w p3)). rewrite N1. cbn. rewrite E1. destruct (decide (r0 = r)) as [->|]; [by rewrite lookup_insert_eq|by rewrite lookup_insert_ne]. }
  constructor.
  - intros r0. unfold publishes, outcome. rewrite omap_snoc, app_nil_r, Hrq. fold (publishes r0 ls). rewrite Hp. unfold outcome.
    destruct (decide (r0 = r)) as [->|]; [by rewrite Hfresh|done].
  - intros t0 r0. rewrite Hrq, elem_of_app, list_elem_of_singleton, Hs. destruct (decide (r0 = r)) as [->|Hne].
    + rewrite Hfresh. cbn. split; [intros [|]; congruence|]. intros [= ->]. by right.
    + split; [|by left]. intros [H|H]; [done|]. congruence.
  - intros w0. unfold pops, mailbox. rewrite omap_snoc, app_nil_r.
    replace (worker_mailboxes_ p2) with (<[w := mailbox w p1 ++ [r]]> (worker_mailboxes_ p))
      by (change (worker_mailboxes_ p2) with (worker_mailboxes_ (notify_worker w p3)); rewrite N3; cbn; by rewrite E3).
    rewrite mailbox_insert. unfold routed. replace (next_request p2) with (S r) by (symmetry; exact N2). rewrite seq_S, filter_app.
    replace (filter (fun r0 => rq_worker <$> requests p2 !! r0 = Some w0) (seq 0 r)) with (routed w0 p).
    2: { unfold routed. apply filter_ext_in. intros r0 Hin%elem_of_seq. rewrite Hrq, decide_False by lia. done. }
    assert (Hself : rq_worker <$> requests p2 !! r = Some w) by (rewrite Hrq, decide_True; done).
    rewrite <- Hf, filter_cons, filter_nil. cbn [Nat.add]. rewrite Hself.
    assert (Hm : mailbox w p1 = mailbox w p) by (unfold mailbox; by rewrite E3).
    destruct (decide (w0 = w)) as [->|Hne].
    + rewrite decide_True by done. by rewrite app_assoc, Hm.
    + rewrite decide_False by congruence. by rewrite app_nil_r.
Qed.

Lemma history_step ls l p p' : pool_inv p -> history ls p -> step l p p' -> history (ls ++ [l]) p'.
Proof.
  intros Hinv Hh Hs. destruct Hs as [t address args is_safe top p|t r q p v p' Hst Hq Hc|t r q p p' Hst Hq Hc|t r p Hst|
    w r p p' Hw Hc|w r q v p Hw Hq|w r q p Hw Hq|r p Hw Hs|w p p' Hw Hc|w p Hw|p|w p _].
  - by apply history_submit.
  - unfold check_wait in Hc. destruct (rq_completed q); simplify_eq. by apply (history_quiet _ _ p).
  - unfold check_wait in Hc. destruct (rq_completed q); simplify_eq. by apply (history_quiet _ _ p).
  - by apply (history_quiet _ _ p).
  - apply check_mailbox_pop in Hc as (rest & Hm & -> & _). destruct Hh as [Hp Hsb Hf]. constructor.
    + intros r0. unfold publishes. rewrite omap_snoc, app_nil_r. apply Hp.
    + intros t0 r0. rewrite elem_of_app, list_elem_of_singleton. rewrite Hsb. split; [intros [|]; done|by left].
    + intros w0. rewrite (routed_same w0 p), <- Hf by done. unfold pops, mailbox. rewrite omap_snoc. cbn [worker_mailboxes_ popped].
      change (worker_mailboxes_ (pop_request w r rest p)) with (<[w := rest]> (worker_mailboxes_ p)).
      rewrite mailbox_insert, (decide_ext (w = w0) (w0 = w)) by done. destruct (decide (w0 = w)) as [->|]; cbn.
      * fold (mailbox w p). by rewrite Hm, <- app_assoc.
      * by rewrite app_nil_r.
  - destruct (pi_running p Hinv w r Hw) as (q0 & Hq0 & Hqw & Hqc). assert (q0 = q) as -> by congruence.
    destruct Hh as [Hp Hsb Hf].
    set (q' := Build_Request (rq_address q) (rq_args q) (rq_is_safe q) (rq_stack_top q) v true (rq_owner q) (rq_worker q)).
    assert (Hrq : forall r0, requests (publish_result w r q v p) !! r0 = if decide (r0 = r) then Some q' else requests p !! r0).
    { intros r0. cbn. destruct (decide (r0 = r)) as [->|]; [by rewrite lookup_insert_eq|by rewrite lookup_insert_ne]. }
    constructor.
    + intros r0. unfold publishes, outcome. rewrite omap_snoc, Hrq. fold (publishes r0 ls). rewrite Hp. cbn [published].
      rewrite (decide_ext (r = r0) (r0 = r)) by done. unfold outcome. destruct (decide (r0 = r)) as [->|]; cbn.
      * rewrite Hq, Hqc. cbn. by rewrite Hqw.
      * by rewrite app_nil_r.
    + intros t0 r0. rewrite elem_of_app, list_elem_of_singleton, Hsb, Hrq. destruct (decide (r0 = r)) as [->|].
      * rewrite Hq. cbn. split; [intros [|]; done|by left].
      * split; [intros [|]; done|by left].
    + intros w0. unfold pops. rewrite omap_snoc, app_nil_r. rewrite (routed_same w0 p); [apply Hf|done|].
      intros r0. rewrite Hrq. destruct (decide (r0 = r)) as [->|]; [by rewrite Hq|done].
  - apply (history_quiet _ _ p); try done; unfold notify_one; destruct (c_state _); try done; by destruct (decide _).
  - by apply (history_quiet _ _ p).
  - apply check_mailbox_idle in Hc as (st & _ & -> & _). by apply (history_quiet _ _ p).
  - by apply (history_quiet _ _ p).
  - by apply (history_quiet _ _ p).
  - destruct (notify_worker_fields w p) as (N1 & N2 & N3 & _). by apply (history_quiet _ _ p).
Qed.

Lemma run_history ls n p : run ls (new_pool n) p -> history ls p.
Proof.
  intros Hr. remember (new_pool n) as p0 eqn:Hp0. induction Hr as [p0|ls l p0 p1 p2 Hr IH Hs].
  - subst p0. constructor.
    + done.
    + intros t r. cbn. split; [by intros ?%elem_of_nil|done].
    + intros w. cbn. by rewrite mailbox_new.
  - subst p0. destruct (run_inv _ _ _ Hr) as [Hi _]. by apply (history_step _ _ p1); [|apply IH|].
Qed.

End Runs.

(** * The same worker for the same thread *)

Definition sticky (p : Pool) : Prop :=
  forall r q, requests p !! r = Some q -> 1 <= rq_worker q ->
    tl_affinity_worker (caller (rq_owner q) p) = rq_worker q.

Lemma sticky_fields p p' : sticky p -> requests p' = requests p ->
  (forall t, tl_affinity_worker (caller t p') = tl_affinity_worker (caller t p)) -> sticky p'.
Proof. intros Hs E1 E2 r q. rewrite E1, E2. apply Hs. Qed.

Lemma affinity_set t st p t' : tl_affinity_worker (caller t' (set_caller_state t st p)) = tl_affinity_worker (caller t' p).
Proof. rewrite caller_set. by destruct (decide (t' = t)) as [->|]. Qed.

(** Without pinning, the chosen worker is the thread's affinity worker, unless it
    is the main emulator thread; and an affinity worker stays. *)
Lemma pick_sticky t p w p1 : pick_affinity_worker (-1) t p = (w, p1) ->
  (1 <= w -> tl_affinity_worker (caller t p1) = w) /\
  (forall t', 1 <= tl_affinity_worker (caller t' p) -> caller t' p1 = caller t' p).
Proof.
  unfold pick_affinity_worker. destruct (_ && _); [|intros [= <- <-]; split; [lia|done]].
  rewrite (proj2 (Z.leb_gt 0 (-1))) by lia. destruct (_ <? 1) eqn:Hlt; [|by intros [= <- <-]].
  apply Z.ltb_lt in Hlt. intros [= <- <-]. unfold caller. cbn. split.
  - intros _. by rewrite lookup_insert_eq.
  - intros t' Ht'. destruct (decide (t' = t)) as [->|]; [unfold caller in Hlt; lia|by rewrite lookup_insert_ne].
Qed.

Lemma sticky_step clone_ok l p p' : pool_step (-1) clone_ok l p p' -> sticky p -> sticky p'.
Proof.
  intros Hs Hst. destruct Hs as [t address args is_safe top p|t r q p v p' _ Hq Hc|t r q p p' _ Hq Hc|t r p _|
    w r p p' Hw Hc|w r q v p Hw Hq|w r q p Hw Hq|r p Hw Hs|w p p' Hw Hc|w p Hw|p|w p _].
  - unfold submit. destruct (pick_affinity_worker (-1) t p) as [w p1] eqn:Hpick.
    destruct (pick_fields _ _ _ _ _ Hpick) as (E1 & _). destruct (pick_sticky _ _ _ _ Hpick) as [Hw Hold].
    set (p3 := p1 <| requests ::= _ |> <| next_request := _ |> <| worker_mailboxes_ ::= _ |>).
    destruct (notify_worker_fields w p3) as (N1 & _ & _ & N4 & _).
    intros r0 q0 Hq0 H1. rewrite affinity_set. unfold caller at 1. rewrite N4.
    change (tl_affinity_worker (caller (rq_owner q0) p1) = rq_worker q0).
    change (requests (notify_worker w p3) !! r0 = Some q0) in Hq0. rewrite N1 in Hq0. cbn in Hq0. rewrite lookup_insert in Hq0. destruct (decide _).
    + injection Hq0 as <-. by apply Hw.
    + rewrite E1 in Hq0. pose proof (Hst r0 q0 Hq0 H1). rewrite Hold by lia. done.
  - unfold check_wait in Hc. destruct (rq_completed q); simplify_eq. apply (sticky_fields p); [done..|]. intros. apply affinity_set.
  - unfold check_wait in Hc. destruct (rq_completed q); simplify_eq. apply (sticky_fields p); [done..|]. intros. apply affinity_set.
  - apply (sticky_fields p); [done..|]. intros. apply affinity_set.
  - by apply check_mailbox_pop in Hc as (rest & _ & -> & _).
  - intros r0 q0. cbn. rewrite lookup_insert. destruct (decide (r = r0)) as [<-|]; [|apply Hst].
    intros [= <-] H1. exact (Hst r q Hq H1).
  - apply (sticky_fields p); [done|..]; unfold notify_one; destruct (c_state _); try done; destruct (decide _); try done.
    intros t. rewrite affinity_set. done.
  - exact Hst.
  - by apply check_mailbox_idle in Hc as (st & _ & -> & _).
  - exact Hst.
  - exact Hst.
  - destruct (notify_worker_fields w p) as (N1 & _ & _ & N4 & _). apply (sticky_fields p); [done..|].
    intros t. unfold caller. by rewrite N4.
Qed.

Lemma run_sticky clone_ok ls n p : pool_run (-1) clone_ok ls (new_pool n) p -> sticky p.
Proof.
  intros Hr. remember (new_pool n) as p0 eqn:Hp0. induction Hr as [p0|ls l p0 p1 p2 Hr IH Hs].
  - subst p0. intros r q H. done.
  - by eapply sticky_step; [|apply IH].
Qed.

(** A returned value is the one outcome of its request, there before the return. *)
Lemma returned_outcome pinned clone_ok n ls1 t r v ls2 p :
  pool_run pinned clone_ok (ls1 ++ LReturn t r v :: ls2) (new_pool n) p ->
  exists w, LSubmit t r ∈ ls1 /\ publishes r ls1 = [(w, v)] /\ publishes r (ls1 ++ LReturn t r v :: ls2) = [(w, v)].
Proof.
  intros Hr. pose proof (run_history _ _ _ _ _ Hr) as Hh. change (LReturn t r v :: ls2) with ([LReturn t r v] ++ ls2) in Hr.
  rewrite app_assoc in Hr.
  destruct (run_split _ _ _ _ _ _ Hr) as (p2 & H2 & H3).
  destruct (run_split _ _ _ _ _ _ H2) as (p1 & H1 & H4).
  pose proof (run_history _ _ _ _ _ H1) as Hh1.
  destruct (run_inv _ _ _ _ _ H1) as [Hi _].
  inversion H4 as [|ls l ? pm ? Hm Hs E1 E2 E3]. apply (app_inj_tail ls [] l) in E1 as [-> ->].
  inversion Hm as [|ls' l' ? ? ? ? ? E4]; [|by destruct ls']. subst pm.
  inversion Hs as [|t0 r0 q pa v0 pb Hst Hq Hc| | | | | | | | | |]; subst. unfold check_wait in Hc.
  destruct (rq_completed q) eqn:Hqc; [|done]. injection Hc as <- _.
  assert (Hout : publishes r ls1 = [(rq_worker q, rq_result q)]).
  { rewrite (h_published _ _ Hh1). unfold outcome. by rewrite Hq, Hqc. }
  exists (rq_worker q). split_and!.
  - apply (h_submitted _ _ Hh1). destruct (pi_waiting _ Hi t r (or_introl Hst)) as (q0 & Hq0 & Ho).
    rewrite Hq in Hq0. injection Hq0 as <-. rewrite Hq. cbn. by rewrite Ho.
  - done.
  - pose proof (h_published _ _ Hh r) as Hall. unfold publishes, outcome in Hall, Hout |- *. rewrite omap_app, Hout in Hall |- *.
    cbn in Hall |- *. destruct (requests p !! r) as [q'|]; [|done]. destruct (rq_completed q'); [|done].
    injection Hall as _ _ Hnil. by rewrite Hnil.
Qed.

(** C11: A call that returns [v] submitted its request, one worker computed the
    request before, exactly once in the whole run, and [v] is what that worker
    published; whatever the interleaving of callers, workers, periodic wake-ups and
    the spawning of the pool. *)
Theorem dispatch_exactly_once pinned clone_ok n ls1 t r v ls2 p :
  pool_run pinned clone_ok (ls1 ++ LReturn t r v :: ls2) (new_pool n) p ->
  exists w, LSubmit t r ∈ ls1 /\ publishes r ls1 = [(w, v)] /\ publishes r (ls1 ++ LReturn t r v :: ls2) = [(w, v)].
Proof. apply returned_outcome. Qed.

(** One call, from submission to return; the caller parks in between. *)
Ltac first_step := refine (run_app _ _ [_] _ _ _ _ (run_one _ _ _ _ _ _) _).

Lemma one_call : exists p, pool_run (-1) (fun _ => true)
  [LSubmit 1 0; LPop 0 0; LPark 1; LPublish 0 0 7; LNotify 0 0; LReturn 1 0 7] (new_pool 2) p.
Proof.
  eexists. first_step; [by apply (step_submit _ _ 1 0x1000 [5] false 0 (new_pool 2))|].
  first_step; [by eapply (step_pop _ _ 0 0)|].
  first_step; [by eapply (step_park _ _ 1 0)|].
  first_step; [by eapply (step_publish _ _ 0 0 _ 7)|].
  first_step; [by eapply (step_notify _ _ 0 0)|].
  apply run_one. by eapply (step_return _ _ 1 0).
Qed.

Lemma dispatch_exactly_once_witness : exists p w,
  pool_run (-1) (fun _ => true) [LSubmit 1 0; LPop 0 0; LPark 1; LPublish 0 0 7; LNotify 0 0; LReturn 1 0 7] (new_pool 2) p /\
  publishes 0 [LSubmit 1 0; LPop 0 0; LPark 1; LPublish 0 0 7; LNotify 0 0] = [(w, 7)].
Proof.
  destruct one_call as [p Hp]. exists p.
  destruct (dispatch_exactly_once (-1) (fun _ => true) 2
    [LSubmit 1 0; LPop 0 0; LPark 1; LPublish 0 0 7; LNotify 0 0] 1 0 7 [] p Hp) as (w & _ & Hw & _).
  exists w. split; [exact Hp|exact Hw].
Defined.

(** Each worker takes the requests routed to it in the order of their
    submission, none twice and none skipped, and only those; and without
    [CROSSSHIM_PIN_WORKER] all calls of a thread that go to the pool go to the
    same worker. *)
Theorem dispatch_fifo clone_ok n ls p : pool_run (-1) clone_ok ls (new_pool n) p ->
  (forall w, pops w ls ++ mailbox w p = routed w p) /\
  (forall r1 r2 q1 q2, requests p !! r1 = Some q1 -> requests p !! r2 = Some q2 -> rq_owner q1 = rq_owner q2 ->
     1 <= rq_worker q1 -> 1 <= rq_worker q2 -> rq_worker q1 = rq_worker q2).
Proof.
  intros Hr. split; [apply (h_fifo _ _ (run_history _ _ _ _ _ Hr))|].
  intros r1 r2 q1 q2 H1 H2 Ho Hw1 Hw2. pose proof (run_sticky _ _ _ _ Hr) as Hs.
  rewrite <- (Hs r1 q1 H1 Hw1), <- (Hs r2 q2 H2 Hw2). by rewrite Ho.
Qed.

Lemma dispatch_fifo_witness : exists p,
  pool_run (-1) (fun _ => true) [LSubmit 1 0; LPop 0 0; LPark 1; LPublish 0 0 7; LNotify 0 0; LReturn 1 0 7] (new_pool 2) p /\
  [0%nat] ++ mailbox 0 p = routed 0 p.
Proof.
  destruct one_call as [p Hp]. exists p. split; [exact Hp|].
  exact (proj1 (dispatch_fifo _ _ _ _ Hp) 0).
Defined.

(** * A waiting caller gets on *)

Definition waiting (t r : nat) (p : Pool) : Prop := c_state (caller t p) = AtWait r \/ c_state (caller t p) = Parked r.

(** Steps of the workers and the return: neither a new call, nor a wake-up by the
    clock, nor a spurious wake-up of a worker is needed. *)
Definition unaided (l : label) : Prop :=
  match l with LSubmit _ _ | LTimeout _ | LSpawn | LSpurious _ | LStop | LStopNotify _ => False | _ => True end.

(** What holds until the emulator is told to stop. *)
Record live (p : Pool) : Prop := {
  lv_inv : pool_inv p;
  lv_fresh : spawn_fresh p;
  lv_idle : idle_inv p;
  lv_on : should_stop_ p = false;
}.

Section Progress.
Context (pinned : Z) (clone_ok : Z -> bool).
Notation step := (pool_step pinned clone_ok).
Notation run := (pool_run pinned clone_ok).

(** [t] can return from [r], without help. *)
Definition can_return (t r : nat) (p : Pool) : Prop :=
  exists ls v p', run ls p p' /\ LReturn t r v ∈ ls /\ Forall unaided ls.

Lemma can_return_step t r l p p' : step l p p' -> unaided l -> can_return t r p' -> can_return t r p.
Proof.
  intros Hs Hu (ls & v & p2 & Hr & Hin & Hall). exists (l :: ls), v, p2. split_and!; [|by right|by constructor].
  apply (run_app _ _ [l] ls _ p'); [by apply run_one|done].
Qed.

Lemma return_now t r q p : c_state (caller t p) = AtWait r -> requests p !! r = Some q -> rq_completed q = true ->
  can_return t r p.
Proof.
  intros Hst Hq Hc. exists [LReturn t r (rq_result q)], (rq_result q), (set_caller_state t Idle p).
  split_and!; [|by left|by repeat constructor]. apply run_one. eapply step_return; [done..|]. unfold check_wait. by rewrite Hc.
Qed.

Lemma notify_waiting w r q p t r' : waiting t r' p -> waiting t r' (notify_one w r q p).
Proof.
  unfold waiting, notify_one. intros Hw. destruct (c_state (caller (rq_owner q) _)) as [|r0|r0] eqn:Est; [done..|].
  destruct (decide (r0 = r)) as [->|]; [|done]. rewrite caller_set. destruct (decide (t = rq_owner q)) as [->|]; [|done].
  change (c_state (caller (rq_owner q) p) = Parked r) in Est. destruct Hw; [congruence|left]. cbn. congruence.
Qed.

Lemma notify_fields w r q p : requests (notify_one w r q p) = requests p /\
  worker_mailboxes_ (notify_one w r q p) = worker_mailboxes_ p /\ workers (notify_one w r q p) = <[w := Ready]> (workers p).
Proof. unfold notify_one. destruct (c_state _); [done..|]. by destruct (decide _). Qed.

Lemma notify_unparks w t r q p : rq_owner q = t -> waiting t r p -> c_state (caller t (notify_one w r q p)) = AtWait r.
Proof.
  intros <- Hw. unfold notify_one. change (caller (rq_owner q) (p <| workers ::= <[w := Ready]> |>)) with (caller (rq_owner q) p).
  destruct Hw as [Hw|Hw]; rewrite Hw; [exact Hw|]. rewrite decide_True by done. rewrite caller_set, decide_True by done. done.
Qed.

Lemma unaided_on l p p' : step l p p' -> unaided l -> should_stop_ p' = should_stop_ p.
Proof.
  intros Hs Hu. destruct Hs as [| t r q p v p' _ _ Hc|t r q p p' _ _ Hc| |w r p p' _ Hc|w r q v p| w r q p| |w p p' _ Hc| | | ]; try done.
  - unfold check_wait in Hc. by destruct (rq_completed q); simplify_eq.
  - unfold check_wait in Hc. by destruct (rq_completed q); simplify_eq.
  - by apply check_mailbox_pop in Hc as (rest & _ & -> & _).
  - unfold notify_one. destruct (c_state _); [done..|]. by destruct (decide _).
  - by apply check_mailbox_idle in Hc as (st & _ & -> & _).
Qed.

Lemma live_step l p p' : step l p p' -> unaided l -> live p -> live p'.
Proof.
  intros Hs Hu [Hi Hf Hd Hon]. constructor.
  - by eapply step_inv.
  - by eapply step_fresh.
  - by eapply step_idle_inv.
  - by rewrite (unaided_on l p).
Qed.

(** A published result is picked up. *)
Lemma return_published t r q p : live p -> waiting t r p -> requests p !! r = Some q -> rq_completed q = true ->
  can_return t r p.
Proof.
  intros [Hi _ _ _] Hw Hq Hc. destruct Hw as [Hw|Hw]; [by eapply return_now|].
  destruct (pi_waiting p Hi t r (or_intror Hw)) as (q0 & Hq0 & Ho). assert (q0 = q) as -> by congruence.
  pose proof (pi_parked p Hi t r q Hw Hq Hc) as Hn.
  eapply (can_return_step _ _ (LNotify (rq_worker q) r)); [by eapply step_notify|done|].
  destruct (notify_fields (rq_worker q) r q p) as (E1 & _).
  eapply (return_now _ _ q); [|by rewrite E1|done]. by apply notify_unparks; [|right].
Qed.

Lemma return_running t r w p : live p -> waiting t r p -> workers p !! w = Some (Running r) -> can_return t r p.
Proof.
  intros Hl Hw Hrun. destruct (pi_running p (lv_inv p Hl) w r Hrun) as (q & Hq & _ & _).
  assert (Hs : step (LPublish w r 0) p (publish_result w r q 0 p)) by by apply step_publish.
  eapply can_return_step; [exact Hs|done|]. eapply return_published.
  - by eapply live_step.
  - exact Hw.
  - cbn. by rewrite lookup_insert_eq.
  - done.
Qed.

(** A worker with requests in its mailbox is not asleep; if it is busy with another request
    it becomes ready, its mailbox and the waiting caller as they were. *)
Lemma worker_readies t r w p : live p -> waiting t r p -> is_Some (workers p !! w) -> mailbox w p <> [] ->
  can_return t r p \/ exists ls p', run ls p p' /\ Forall unaided ls /\ live p' /\ waiting t r p' /\
    workers p' !! w = Some Ready /\ mailbox w p' = mailbox w p.
Proof.
  intros Hl Hw [ws Hws] Hne.
  assert (Hnot : forall r0 p, live p -> waiting t r p -> workers p !! w = Some (Notifying r0) ->
    exists ls p', run ls p p' /\ Forall unaided ls /\ live p' /\ waiting t r p' /\
    workers p' !! w = Some Ready /\ mailbox w p' = mailbox w p).
  { clear. intros r0 p Hl Hw Hn. destruct (pi_notifying p (lv_inv p Hl) w r0 Hn) as (q & Hq & _ & _).
    assert (Hs : step (LNotify w r0) p (notify_one w r0 q p)) by by apply step_notify.
    destruct (notify_fields w r0 q p) as (E1 & E2 & E3). exists [LNotify w r0], (notify_one w r0 q p). split_and!.
    - by apply run_one.
    - by repeat constructor.
    - by eapply live_step.
    - by apply notify_waiting.
    - rewrite E3. by rewrite lookup_insert_eq.
    - unfold mailbox. by rewrite E2. }
  destruct ws as [| |r0|r0|].
  - right. exists [], p. split_and!; try done. constructor.
  - by destruct Hne, (lv_idle p Hl) as [Ha _]; apply Ha.
  - destruct (decide (r0 = r)) as [->|Hr0]; [left; by eapply return_running|right].
    destruct (pi_running p (lv_inv p Hl) w r0 Hws) as (q & Hq & _ & _). set (p1 := publish_result w r0 q 0 p).
    assert (Hs : step (LPublish w r0 0) p p1) by by apply step_publish.
    destruct (Hnot r0 p1) as (ls & p' & Hr & Hall & Hrest).
    + by eapply live_step.
    + exact Hw.
    + cbn. by rewrite lookup_insert_eq.
    + exists (LPublish w r0 0 :: ls), p'. split_and!; [|by constructor|..]; try apply Hrest.
      apply (run_app _ _ [_] ls _ p1); [by apply run_one|done].
  - right. by eapply Hnot.
  - destruct (lv_idle p Hl) as [_ He]. pose proof (lv_on p Hl). by rewrite (He w Hws) in *.
Qed.

Lemma can_return_run t r ls p p' : run ls p p' -> Forall unaided ls -> can_return t r p' -> can_return t r p.
Proof.
  intros Hr Hall (ls' & v & p2 & Hr' & Hin & Hall'). exists (ls ++ ls'), v, p2. split_and!.
  - by eapply run_app.
  - apply elem_of_app. by right.
  - by apply Forall_app.
Qed.

Lemma pop_step w r rest p : live p -> workers p !! w = Some Ready -> mailbox w p = r :: rest ->
  step (LPop w r) p (pop_request w r rest p).
Proof. intros Hl Hw Hm. apply step_pop; [done|]. unfold check_mailbox. by rewrite (lv_on p Hl), Hm. Qed.

Lemma mailbox_drains t r w l1 : forall p l2, live p -> waiting t r p -> is_Some (workers p !! w) ->
  mailbox w p = l1 ++ r :: l2 -> can_return t r p.
Proof.
  induction l1 as [|r1 l1 IH]; intros p l2 Hl Hw Hon Hm;
    (destruct (worker_readies t r w p Hl Hw Hon) as [|(ls & p1 & Hr & Hall & Hl1 & Hw1 & Hon1 & Hm1)]; [by rewrite Hm|done|]);
    rewrite Hm in Hm1; apply (can_return_run _ _ ls _ p1); [done..| |done|done|].
  - pose proof (pop_step _ _ _ _ Hl1 Hon1 Hm1) as Hs.
    eapply can_return_step; [exact Hs|done|]. apply (return_running _ _ w); [by eapply live_step|exact Hw1|].
    cbn. by rewrite lookup_insert_eq.
  - pose proof (pop_step _ _ _ _ Hl1 Hon1 Hm1) as Hs.
    eapply can_return_step; [exact Hs|done|]. eapply (IH _ l2); [by eapply live_step|exact Hw1|..].
    + cbn. rewrite lookup_insert_eq. eauto.
    + unfold mailbox. cbn. by rewrite lookup_insert_eq.
Qed.

End Progress.

(** C20: No call is lost: in every reachable state in which the emulator is not told to
    stop, a caller waiting for a request whose worker is there can return from it by
    steps of the workers alone, without another call, without the periodic wake-up of
    its waiting loop and without a spurious wake-up of the worker.  In particular a
    worker with a request in its mailbox is not asleep, and a caller parked on a
    completed request has its notification still to come. *)
Theorem dispatch_progress pinned clone_ok n ls p t r q :
  pool_run pinned clone_ok ls (new_pool n) p -> should_stop_ p = false -> waiting t r p ->
  requests p !! r = Some q -> is_Some (workers p !! rq_worker q) -> can_return pinned clone_ok t r p.
Proof.
  intros Hr Hgo Hw Hq Hon. destruct (run_inv _ _ _ _ _ Hr) as [Hi Hf].
  assert (Hl : live p) by (constructor; [done..|by eapply run_idle|done]). destruct (rq_completed q) eqn:Hc.
  - by eapply return_published.
  - destruct (pi_pending p Hi r q Hq Hc) as [Hin|Hrun]; [|by eapply return_running].
    apply list_elem_of_split in Hin as (l1 & l2 & Hm). by eapply mailbox_drains.
Qed.

(** The worker has gone to sleep before the call comes. *)
Lemma dispatch_progress_witness : exists p q,
  pool_run (-1) (fun _ => true) [LIdle 0; LSubmit 1 0] (new_pool 2) p /\
  requests p !! 0%nat = Some q /\ rq_completed q = false /\ can_return (-1) (fun _ => true) 1 0 p.
Proof.
  assert (Hr : pool_run (-1) (fun _ => true) [LIdle 0; LSubmit 1 0] (new_pool 2)
    (submit (-1) 1 0x1000 [5] false 0 ((new_pool 2) <| workers ::= <[0 := Asleep]> |>))).
  { first_step; [by eapply (step_idle _ _ 0)|]. apply run_one.
    exact (step_submit (-1) (fun _ => true) 1 0x1000 [5] false 0 ((new_pool 2) <| workers ::= <[0 := Asleep]> |>) eq_refl). }
  eexists _, _. split; [exact Hr|]. split; [reflexivity|]. split; [reflexivity|].
  eapply (dispatch_progress (-1) (fun _ => true) 2 [LIdle 0; LSubmit 1 0]); [exact Hr|reflexivity| |reflexivity|].
  - by left.
  - by eexists.
Defined.

(** * A worker that is not there *)

(** No worker has a number beyond 31, and nothing routed there is ever completed. *)
Definition unstaffed (p : Pool) : Prop :=
  (forall w, 32 <= w -> workers p !! w = None) /\
  (forall r q, requests p !! r = Some q -> 32 <= rq_worker q -> rq_completed q = false).

Lemma check_wait_fields t r q p o p' : check_wait t r q p = (o, p') -> requests p' = requests p /\ workers p' = workers p.
Proof. unfold check_wait. destruct (rq_completed q); intros; by simplify_eq. Qed.

Lemma step_unstaffed pinned clone_ok l p p' : pool_step pinned clone_ok l p p' -> pool_inv p -> unstaffed p -> unstaffed p'.
Proof.
  intros Hs Hi [Hw Hr].
  assert (Hset : forall w st ws, workers p !! w = Some ws -> forall w', 32 <= w' -> <[w := st]> (workers p) !! w' = None).
  { intros w st ws Hws w' Hge. rewrite lookup_insert_ne; [by apply Hw|]. intros ->. by rewrite Hw in Hws. }
  destruct Hs as [t address args is_safe top p|t r q p v p' _ _ Hc|t r q p p' _ _ Hc|t r p|
    w r p p' Hws Hc|w r q v p Hws Hq|w r q p Hws|r p|w p p' Hws Hc|w p Hws|p|w p _].
  - split; [intros w Hge; by apply submit_workers, Hw|]. unfold submit.
    destruct (pick_affinity_worker pinned t p) as [w p1] eqn:Hpick. destruct (pick_fields _ _ _ _ _ Hpick) as (E1 & _).
    intros r0 q0. set (p3 := p1 <| requests ::= _ |> <| next_request := _ |> <| worker_mailboxes_ ::= _ |>).
    change (requests (set_caller_state _ _ (notify_worker w p3))) with (requests (notify_worker w p3)).
    rewrite (proj1 (notify_worker_fields w p3)). cbn. rewrite E1, lookup_insert. destruct (decide _); [|apply Hr]. by intros [= <-].
  - destruct (check_wait_fields _ _ _ _ _ _ Hc) as [E1 E2]. split; by rewrite ?E1, ?E2.
  - destruct (check_wait_fields _ _ _ _ _ _ Hc) as [E1 E2]. split; by rewrite ?E1, ?E2.
  - by split.
  - apply check_mailbox_pop in Hc as (rest & _ & -> & _). split; [by eapply Hset|done].
  - split; [by eapply Hset|]. intros r0 q0. cbn. rewrite lookup_insert. destruct (decide (r = r0)) as [<-|]; [|apply Hr].
    intros [= <-] Hge. destruct (pi_running p Hi w r Hws) as (q0 & Hq0 & Hqw & _). assert (q0 = q) as -> by congruence.
    cbn in Hge. rewrite Hqw in Hge. by rewrite Hw in Hws.
  - destruct (notify_fields w r q p) as (E1 & _ & E3). split; [rewrite E3; by eapply Hset|by rewrite E1].
  - split; [|done]. intros w Hge. cbn -[spawn_from]. rewrite spawned_workers, decide_False; [by apply Hw|].
    intros Hin%spawn_from_range; lia.
  - apply check_mailbox_idle in Hc as (st & _ & -> & _). split; [by eapply Hset|done].
  - split; [by eapply Hset|done].
  - by split.
  - destruct (notify_worker_cases w p) as [->|[Hws ->]]; [by split|]. split; [by eapply Hset|done].
Qed.

Lemma run_unstaffed pinned clone_ok n ls p : pool_run pinned clone_ok ls (new_pool n) p -> unstaffed p.
Proof.
  intros Hr. remember (new_pool n) as p0 eqn:Hp0. induction Hr as [p0|ls l p0 p1 p2 Hr IH Hs].
  - subst p0. split; [|done]. intros w Hge. cbn. rewrite lookup_singleton_ne by lia. done.
  - subst p0. eapply step_unstaffed; [done| |by apply IH]. by eapply run_inv.
Qed.

(** A request keeps its worker. *)
Lemma run_worker pinned clone_ok n ls p : pool_run pinned clone_ok ls (new_pool n) p ->
  forall ls' p' r q, pool_run pinned clone_ok ls' p p' -> requests p !! r = Some q ->
  exists q', requests p' !! r = Some q' /\ rq_worker q' = rq_worker q.
Proof.
  intros Hr ls' p' r q Hr'. revert Hr. induction Hr' as [p|ls' l p p1 p2 Hr' IH Hs]; intros Hr Hq; [eauto|].
  destruct (IH Hr Hq) as (q1 & Hq1 & <-). destruct (run_inv _ _ _ _ _ (run_app _ _ _ _ _ _ _ Hr Hr')) as [Hi _]. clear IH.
  destruct Hs as [t address args is_safe top p1|t r0 q0 p1 v p2 _ _ Hc|t r0 q0 p1 p2 _ _ Hc|t r0 p1|
    w r0 p1 p2 Hws Hc|w r0 q0 v p1 Hws Hq0|w r0 q0 p1 Hws|r0 p1|w p1 p2 Hws Hc|w p1 Hws|p1|w p1 _]; try (exists q1; done).
  - exists q1. split; [|done]. unfold submit.
    destruct (pick_affinity_worker pinned t p1) as [w pp] eqn:Hpick. destruct (pick_fields _ _ _ _ _ Hpick) as (E1 & E2 & _).
    set (p3 := pp <| requests ::= _ |> <| next_request := _ |> <| worker_mailboxes_ ::= _ |>).
    change (requests (set_caller_state _ _ (notify_worker w p3))) with (requests (notify_worker w p3)).
    rewrite (proj1 (notify_worker_fields w p3)). cbn. rewrite E1, E2, lookup_insert_ne; [done|]. intros <-.
    assert (next_request p1 < next_request p1)%nat by (apply (pi_next _ Hi); eauto). lia.
  - exists q1. by rewrite (proj1 (check_wait_fields _ _ _ _ _ _ Hc)).
  - exists q1. by rewrite (proj1 (check_wait_fields _ _ _ _ _ _ Hc)).
  - apply check_mailbox_pop in Hc as (rest & _ & -> & _). by exists q1.
  - cbn. rewrite lookup_insert. destruct (decide (r0 = r)) as [->|]; [|eauto]. eexists. split; [done|]. cbn. congruence.
  - exists q1. by rewrite (proj1 (notify_fields w r0 q0 p1)).
  - apply check_mailbox_idle in Hc as (st & _ & -> & _). by exists q1.
  - exists q1. by rewrite (proj1 (notify_worker_fields w p1)).
Qed.

(** The pool never has a worker beyond number 31, whose safe-call stack would
    end behind the region reserved for them, yet calls are spread over
    [vcpu_worker_count_] workers: a request routed to a worker from 32 on is never
    completed and its caller never returns, in any continuation. *)
Theorem unstaffed_mailbox_hangs pinned clone_ok n ls p r q :
  pool_run pinned clone_ok ls (new_pool n) p -> requests p !! r = Some q -> 32 <= rq_worker q ->
  rq_completed q = false /\
  forall ls' p' t v, pool_run pinned clone_ok ls' p p' -> LReturn t r v ∉ ls'.
Proof.
  intros Hr Hq Hge. split; [by eapply (run_unstaffed _ _ _ _ _ Hr)|]. intros ls' p' t v Hr' Hin.
  apply list_elem_of_split in Hin as (l1 & l2 & ->).
  pose proof (run_app _ _ _ _ _ _ _ Hr Hr') as Hall. destruct (run_worker _ _ _ _ _ Hr _ _ _ _ Hr' Hq) as (q' & Hq' & Ew).
  rewrite (app_assoc ls l1) in Hall. destruct (returned_outcome _ _ _ _ _ _ _ _ _ Hall) as (w & _ & _ & Hpub).
  rewrite (h_published _ _ (run_history _ _ _ _ _ Hall)) in Hpub. unfold outcome in Hpub. rewrite Hq' in Hpub.
  destruct (run_unstaffed _ _ _ _ _ Hall) as [_ Hno]. rewrite (Hno r q' Hq' ltac:(lia)) in Hpub. done.
Qed.

(** Forty workers asked for: the thirty-second thread to call hangs. *)
Definition forty_spawned : Pool :=
  spawn_vcpu_workers (fun _ => true) (pop_request 0 0 [] (submit (-1) 0 0x1000 [] false 0 (new_pool 40))).
Definition calls_from (ts : list nat) (p : Pool) : Pool :=
  foldl (fun p t => submit (-1) t 0x1000 [] false 0 p) p ts.

Lemma calls_run ts : forall p, NoDup ts -> Forall (fun t => c_state (caller t p) = Idle) ts ->
  exists ls, pool_run (-1) (fun _ => true) ls p (calls_from ts p).
Proof.
  induction ts as [|t ts IH]; intros p Hnd Hid; cbn; [exists []; constructor|].
  apply NoDup_cons in Hnd as [Hni Hnd]. apply Forall_cons in Hid as [Ht Hid].
  destruct (IH (submit (-1) t 0x1000 [] false 0 p)) as [ls Hls]; [done| |].
  - apply Forall_forall. intros t' Hin. assert (t' <> t) by (intros ->; done).
    pose proof (proj1 (Forall_forall _ _) Hid t' Hin) as Hid'. cbn in Hid'. rewrite <- Hid'. unfold submit.
    destruct (pick_affinity_worker (-1) t p) as [w p1] eqn:Hpick. destruct (pick_fields _ _ _ _ _ Hpick) as (_ & _ & _ & _ & _ & _ & E).
    rewrite caller_set, decide_False by done. unfold caller at 1.
    destruct (notify_worker_fields w (p1 <| requests ::= <[next_request p1 := Build_Request 0x1000 [] false 0 0 false t w]> |>
      <| next_request := S (next_request p1) |> <| worker_mailboxes_ ::= <[w := mailbox w p1 ++ [next_request p1]]> |>))
      as (_ & _ & _ & -> & _). apply E.
  - eexists. eapply (run_app _ _ [_] ls); [|done]. apply run_one. by apply step_submit.
Qed.

Lemma forty_run : exists ls, pool_run (-1) (fun _ => true) ls (new_pool 40) (calls_from (seq 1 32) forty_spawned).
Proof.
  destruct (calls_run (seq 1 32) forty_spawned) as [ls Hls].
  - apply NoDup_seq.
  - apply Forall_forall. intros t [Ht _]%elem_of_seq. unfold caller. cbn. rewrite lookup_insert_ne by lia. done.
  - eexists. first_step; [by apply (step_submit _ _ 0 0x1000 [] false 0 (new_pool 40))|].
    first_step; [by eapply (step_pop _ _ 0 0)|]. first_step; [by eapply (step_spawn _ _ 0)|]. exact Hls.
Qed.

Lemma forty_request : exists q, requests (calls_from (seq 1 32) forty_spawned) !! 32%nat = Some q /\ rq_worker q = 32.
Proof. eexists. split; [vm_compute; reflexivity|reflexivity]. Qed.

Lemma unstaffed_mailbox_hangs_witness : exists ls p q,
  pool_run (-1) (fun _ => true) ls (new_pool 40) p /\ requests p !! 32%nat = Some q /\ rq_worker q = 32 /\
  rq_completed q = false.
Proof.
  destruct forty_run as [ls Hls]. destruct forty_request as (q & Hq & Hw).
  exists ls, (calls_from (seq 1 32) forty_spawned), q. split_and!; [exact Hls|exact Hq|exact Hw|].
  apply (unstaffed_mailbox_hangs _ _ _ _ _ 32%nat q Hls Hq). lia.
Defined.
