(* ===== verification/HostAccess.v ===== *)
(** Direct access to guest memory.  The libc emulation asks the memory manager for
    a host pointer ([MemoryManager::get_host_ptr]) and lets the host's own C
    functions work on it; a null pointer sends it to [mem_read]/[mem_write].

    [HostAccess] is the boundary: what the host's loads and stores do at an
    address of the guest when QEMU maps it one to one ([guest_base] is 0), what a
    failed debug read leaves in its buffer, and whether a buffer can be allocated.
    [HostView] is the client's view, an interface like [Machine]; [HostLaws] says
    that a direct access and a debug access see the same memory, and is
    discharged for [mstate], before QEMU is ready and after. *)

From S2P Require Import Prelude Env MemoryManager MemorySpec Machine.

Class HostAccess (E : Env) := {
  (** One byte through a pointer to guest memory; [None] is a fault. *)
  direct_byte : Z -> env -> option Z;
  direct_write : Z -> list Z -> env -> option env;
  (** The buffer (zeroed before) after a failed [cpu_memory_rw_debug]. *)
  failed_read : Z -> Z -> env -> list Z;
  (** [std::vector] of this many bytes; [false] is [std::bad_alloc]. *)
  can_alloc : Z -> env -> bool;
}.

(** With a one-to-one mapping a direct access that does not fault is what the
    debug access does.  Accessible guest pages can be read; those in [page_rw]
    also written. *)
Class HostAccessLaws (E : Env) `{!CpuMemLaws E, !HostAccess E} := {
  page_rw : Z -> Z -> env -> Prop;
  direct_byte_ok a n x e : page_ok a n e -> a <= x < a + n ->
    exists b, direct_byte x e = Some b /\ rw_debug_read x 1 e = Some [b];
  direct_write_ok a bs e : page_rw a (Z.of_nat (length bs)) e -> bs <> [] ->
    exists e', direct_write a bs e = Some e' /\ rw_debug_write a bs e = (true, e');
  page_rw_sub a n b m e : page_rw a n e -> 0 < m -> a <= b -> b + m <= a + n -> page_rw b m e;
  page_rw_rw_write a bs b m e : page_rw b m (rw_debug_write a bs e).2 <-> page_rw b m e;
  page_rw_write_reg r v a n e : page_rw a n (write_reg r v e) <-> page_rw a n e;
}.

Class HostView (S : Type) := {
  (** [get_host_ptr(a) == nullptr]. *)
  null_ptr : Z -> S -> bool;
  (** The byte at offset [i] from that pointer, and a store there. *)
  hbyte : Z -> Z -> S -> option Z;
  hstore : Z -> list Z -> S -> option S;
  (** A buffer of [n] zeroes after [mem_read(a, buffer, n)] failed. *)
  unread : Z -> Z -> S -> list Z;
  alloc_ok : Z -> S -> bool;
}.

Class HostLaws (S : Type) `{!Machine S, !MemLaws S, !RegFileLaws S, !HostView S} := {
  host_ok : S -> Prop;
  writable : Z -> Z -> S -> Prop;
  ptr_mapped a n s : mem_ok s -> cpu_ok s -> host_ok s -> mapped a n s -> 0 < n -> a <> 0 -> null_ptr a s = false;
  hbyte_mapped a n i s : mem_ok s -> cpu_ok s -> host_ok s -> mapped a n s -> a <> 0 -> 0 <= i < n ->
    hbyte a i s = byte_at s (a + i);
  hstore_writable a bs s : mem_ok s -> cpu_ok s -> host_ok s -> mapped a (Z.of_nat (length bs)) s ->
    writable a (Z.of_nat (length bs)) s -> a <> 0 -> bs <> [] ->
    exists s', hstore a bs s = Some s' /\ gwrite a bs s = (true, s');
  writable_sub a n b m s : writable a n s -> 0 < m -> a <= b -> b + m <= a + n -> writable b m s;
  host_gwrite a bs s : host_ok s -> host_ok (gwrite a bs s).2;
  host_putr r v s : host_ok s -> host_ok (putr r v s);
  writable_gwrite a bs b m s : writable b m (gwrite a bs s).2 <-> writable b m s;
  writable_putr r v b m s : writable b m (putr r v s) <-> writable b m s;
}.

(** * The implementation *)

(** The region [get_host_ptr] looks for. *)
Definition holds_address (a : Z) (r : MemoryRegion) : bool :=
  (r_address r <=? a) && (a <? (r_address r ⊕ r_size r)) && negb (r_host_ptr r =? 0).

Lemma find_region_holding rs a n r :
  regions_wf rs -> r ∈ rs -> 0 < n -> inside a n r -> find_region (holds_address a) rs = Some r.
Proof.
  intros Hwf Hr Hn [Hi1 Hi2]. pose proof (regions_ok _ _ Hwf Hr) as Hrok.
  assert (Hspec : forall q, region_ok q -> holds_address a q = true <-> r_address q <= a < r_address q + r_size q).
  { intros q []. unfold holds_address. rewrite !andb_true_iff, negb_true_iff. u64_simpl.
    rewrite Z.leb_le, Z.ltb_lt, Z.eqb_neq. intuition lia. }
  destruct (find_region _ rs) as [q|] eqn:Hf.
  - apply List.find_some in Hf as [Hq Hc]. apply list_elem_of_In in Hq.
    apply Hspec in Hc; [|by eapply regions_ok]. f_equal.
    destruct (ForallOrdPairs_In (proj2 Hwf) q r) as [|[[Hd _]|[Hd _]]]; try (by apply list_elem_of_In); [done|exfalso..];
      unfold disj in Hd; lia.
  - eapply List.find_none in Hf; [|by apply list_elem_of_In]. rewrite (proj2 (Hspec r Hrok)) in Hf by lia. done.
Qed.

Section Instances.
Context {E : Env} `{!HostAccess E}.
Implicit Types s : mstate.

(** [qemu_ready_ && guest_base_ == 0]. *)
Definition one_to_one s : bool := qemu_ready_ (mm s) && (guest_base_ (mm s) =? 0).

#[export] Instance mstate_host : HostView mstate := {|
  null_ptr a s := get_host_ptr a s =? 0;
  hbyte a i s :=
    if one_to_one s then direct_byte (a ⊕ i) (ext s)
    else match find_region (holds_address a) (regions_ (mm s)) with
         | Some r => Some (hmem s (host_addr r a ⊕ i))
         | None => None
         end;
  hstore a bs s :=
    if one_to_one s
    then match direct_write a bs (ext s) with Some e => Some (s <| ext := e |>) | None => None end
    else match find_region (holds_address a) (regions_ (mm s)) with
         | Some r => Some (s <| hmem ::= fun h => host_store h (host_addr r a) bs |>)
         | None => None
         end;
  unread a n s := if use_qemu s then failed_read a n (ext s) else replicate (Z.to_nat n) 0;
  alloc_ok n s := can_alloc n (ext s);
|}.

Context `{!GuestMemLaws E, !CpuMemLaws E, !RegLaws E, !HostAccessLaws E}.

(** QEMU runs with [guest_base] 0, as [initialize_qemu_on_this_thread] sets it. *)
Definition base_zero s : Prop := qemu_ready_ (mm s) = true -> guest_base_ (mm s) = 0.

Lemma one_to_one_use s : has_cpu (ext s) = true -> base_zero s -> one_to_one s = use_qemu s.
Proof.
  intros Hc Hb. unfold one_to_one, use_qemu. rewrite Hc. destruct (qemu_ready_ (mm s)) eqn:Hq; [|done].
  by rewrite (Hb Hq).
Qed.

Lemma get_host_ptr_eq a s : get_host_ptr a s =
  if one_to_one s then a
  else match find_region (holds_address a) (regions_ (mm s)) with Some r => host_addr r a | None => 0 end.
Proof. reflexivity. Qed.

Lemma mm_write a bs s : mm (mem_write a bs s).2 = mm s.
Proof.
  unfold mem_write, host_write. destruct (use_qemu s).
  - destruct (rw_debug_write a bs (ext s)) as [[] e1]; [done|]. by destruct (find_region _ _).
  - by destruct (find_region _ _).
Qed.

Lemma use_qemu_write a bs s : use_qemu (mem_write a bs s).2 = use_qemu s.
Proof.
  unfold use_qemu. rewrite mm_write. f_equal. unfold mem_write, host_write. destruct (use_qemu s).
  - pose proof (has_cpu_rw_write a bs (ext s)) as H. destruct (rw_debug_write a bs (ext s)) as [[] e1]; cbn in *; [done|].
    by destruct (find_region _ _).
  - by destruct (find_region _ _).
Qed.

Definition mem_writable (a n : Z) s : Prop := if use_qemu s then page_rw a n (ext s) else True.

#[export] Instance mstate_host_laws : HostLaws mstate.
Proof.
  refine {| host_ok := base_zero; writable := mem_writable |}.
  - intros a n s Hm Hc Hb Hmap Hn Ha. cbn. rewrite get_host_ptr_eq, one_to_one_use by done.
    cbn in Hmap. unfold mem_mapped in Hmap. destruct (use_qemu s); [by apply Z.eqb_neq|].
    destruct Hmap as (r & Hr & Hin). rewrite (find_region_holding _ a n r) by done.
    pose proof (regions_ok _ _ Hm Hr) as Hok.
    destruct (host_addr_inside r a n Hok ltac:(lia) Hin) as (_ & ? & _). destruct Hok. apply Z.eqb_neq. lia.
  - intros a n i s Hm Hc Hb Hmap Ha Hi. cbn. rewrite one_to_one_use by done.
    pose proof (mapped_range a n s Hm Hmap) as [? ?]. unfold mem_byte, mem_read. rewrite decide_True by lia.
    cbn in Hmap. unfold mem_mapped in Hmap. destruct (use_qemu s) eqn:Hq.
    + destruct (direct_byte_ok a n (a + i) (ext s) Hmap ltac:(lia)) as (b & Hb1 & Hb2).
      rewrite u64_small by u64_lia. by rewrite Hb1, Hb2.
    + destruct Hmap as (r & Hr & Hin). rewrite (find_region_holding _ a n r) by (done || lia).
      replace i with (Z.of_nat (Z.to_nat i)) by lia. rewrite (host_read_byte s r a n) by (done || lia). done.
  - intros a bs s Hm Hc Hb Hmap Hw Ha Hne. cbn. rewrite one_to_one_use by done. unfold mem_write. unfold mem_writable in Hw.
    cbn in Hmap. unfold mem_mapped in Hmap. destruct (use_qemu s) eqn:Hq.
    + destruct (direct_write_ok a bs (ext s) Hw Hne) as (e' & -> & ->). eauto.
    + destruct Hmap as (r & Hr & Hin). assert (0 < Z.of_nat (length bs)) by (destruct bs; [done|simpl; lia]).
      rewrite (find_region_holding _ a _ r Hm Hr ltac:(done) Hin). rewrite (host_write_inside s r a bs) by done. eauto.
  - intros a n b m s. unfold mem_writable. destruct (use_qemu s); [apply page_rw_sub|done].
  - intros a bs s H. cbn. unfold base_zero. by rewrite mm_write.
  - intros r v s H. exact H.
  - intros a bs b m s. cbn. unfold mem_writable. rewrite use_qemu_write. destruct (use_qemu s) eqn:Hq; [|done].
    unfold mem_write, host_write. rewrite Hq. rewrite <- (page_rw_rw_write a bs b m (ext s)).
    destruct (rw_debug_write a bs (ext s)) as [[] e1]; [done|]. by destruct (find_region _ _).
  - intros r v b m s. cbn. unfold mem_writable. rewrite ext_set_reg. destruct (use_qemu s); [|done]. cbn.
    unfold set_reg. destruct (has_cpu _); [apply page_rw_write_reg|done].
Defined.

End Instances.

(** The concrete boundary: every accessible byte can be read and written. *)
#[export] Instance RefHostAccess : HostAccess RefEnv := {|
  direct_byte a (e : @env RefEnv) := ref_mem e !! a;
  direct_write a bs (e : @env RefEnv) :=
    if ref_accessible (ref_mem e) a (length bs) then Some (e <| ref_mem ::= fun m => ref_store m a bs |>) else None;
  failed_read _ n _ := replicate (Z.to_nat n) 0;
  can_alloc n _ := n <? 2 ^ 40;
|}.

#[export] Instance RefHostAccessLaws : HostAccessLaws RefEnv.
Proof.
  refine {| page_rw a n (e : @env RefEnv) := page_ok a n e |}.
  - intros a n x e (H & ? & ?) Hx. cbn in *. rewrite ref_accessible_spec in H. destruct (H x ltac:(lia)) as [b Hb].
    exists b. split; [done|]. rewrite (proj2 (ref_accessible_spec _ x _)).
    + unfold ref_load. change (Z.to_nat 1) with 1%nat. cbn [seq map]. change (Z.of_nat 0) with 0. by rewrite Z.add_0_r, Hb.
    + intros y Hy. replace y with x by lia. eauto.
  - intros a bs e (H & _) _. cbn in *. rewrite Nat2Z.id in H. rewrite H. eauto.
  - intros a n b m e. apply page_sub.
  - intros a bs b m e. apply page_rw_write.
  - intros r v a n e. apply page_write_reg.
Defined.
