(* ===== verification/HleMonad.v ===== *)
(** HLE handlers as programs: a state monad over the machine with the two ways a
    handler can fail to return, a C++ exception and a fault of the host, the
    operations the handlers of src/src/hle/ are made of, and a weakest
    precondition for total correctness. *)

From S2P Require Import Prelude Env MemoryManager MemorySpec Machine HostAccess.

(** What running a handler gives. *)
Inductive hres (S A : Type) := Ret (a : A) (s : S) | Thrown (s : S) | Segv.
Arguments Ret {S A}.
Arguments Thrown {S A}.
Arguments Segv {S A}.

Definition hle (S A : Type) : Type := S -> hres S A.

#[export] Instance hle_ret {S} : MRet (hle S) := fun A a s => Ret a s.
#[export] Instance hle_bind {S} : MBind (hle S) := fun A B k m s =>
  match m s with
  | Ret a s' => k a s'
  | Thrown s' => Thrown s'
  | Segv => Segv
  end.

(** The argument registers X0 to X3, [UC_ARM64_REG_X0] and following. *)
Definition X0 : Z := 0.
Definition X1 : Z := 1.
Definition X2 : Z := 2.
Definition X3 : Z := 3.

Section Operations.
Context {S : Type} `{M : !Machine S, H : !HostView S}.

Definition get_x (r : Z) : hle S Z := fun s => Ret (getr r s) s.
(** [set_reg]: the value is converted to [uint64_t]. *)
Definition set_x (r v : Z) : hle S unit := fun s => Ret tt (putr r (u64 v) s).
Definition mem_rd (a n : Z) : hle S (option (list Z)) := fun s => Ret (gread a n s) s.
(** [mem_write] where the result is ignored. *)
Definition mem_wr (a : Z) (bs : list Z) : hle S unit := fun s => Ret tt (gwrite a bs s).2.
(** [mem_read] into a zeroed buffer where the result is ignored. *)
Definition mem_rd_into (a n : Z) : hle S (list Z) := fun s => Ret (default (unread a n s) (gread a n s)) s.
Definition is_null (a : Z) : hle S bool := fun s => Ret (null_ptr a s) s.

(** [n] bytes from the host pointer of [a], from offset [i] on. *)
Fixpoint host_ld_from (a i : Z) (n : nat) : hle S (list Z) := fun s =>
  match n with
  | O => Ret [] s
  | Datatypes.S n' =>
      match hbyte a i s with
      | None => Segv
      | Some b => (bs ← host_ld_from a (i + 1) n'; mret (b :: bs)) s
      end
  end.
Definition host_ld (a n : Z) : hle S (list Z) := host_ld_from a 0 (Z.to_nat n).
Definition host_st (a : Z) (bs : list Z) : hle S unit := fun s =>
  match hstore a bs s with Some s' => Ret tt s' | None => Segv end.

(** [std::vector<...> buf(n)]. *)
Definition new_buffer (n : Z) : hle S unit := fun s => if alloc_ok n s then Ret tt s else Thrown s.

(** [strnlen] on the host pointer of [a], and the bytes it passed. *)
Fixpoint host_string (a i : Z) (n : nat) : hle S (list Z) := fun s =>
  match n with
  | O => Ret [] s
  | Datatypes.S n' =>
      match hbyte a i s with
      | None => Segv
      | Some b => if b =? 0 then Ret [] s else (bs ← host_string a (i + 1) n'; mret (b :: bs)) s
      end
  end.

End Operations.

(** Two stores, one after the other in memory. *)
Lemma stored_app f a bs cs x : stored (stored f a bs) (a + Z.of_nat (length bs)) cs x = stored f a (bs ++ cs) x.
Proof.
  unfold stored. rewrite length_app. repeat destruct (decide _); try lia; try done.
  - rewrite lookup_app_r by lia. f_equal. lia.
  - by rewrite lookup_app_l by lia.
Qed.

(** * Total correctness *)

Section Logic.
Context {S : Type}.

(** [m] returns from [s], in a state and with a value that satisfy [Q]. *)
Definition wp {A} (m : hle S A) (Q : A -> S -> Prop) (s : S) : Prop :=
  match m s with Ret a s' => Q a s' | _ => False end.

Lemma wp_ret {A} (a : A) Q s : Q a s -> wp (mret a) Q s.
Proof. done. Qed.

Lemma wp_bind {A B} (m : hle S A) (k : A -> hle S B) Q s :
  wp m (fun a s' => wp (k a) Q s') s -> wp (m ≫= k) Q s.
Proof. unfold wp, mbind, hle_bind. by destruct (m s). Qed.

Lemma wp_mono {A} (m : hle S A) (P Q : A -> S -> Prop) s :
  wp m P s -> (forall a s', P a s' -> Q a s') -> wp m Q s.
Proof. unfold wp. destruct (m s); eauto. Qed.

(** A program that is known to return [a] without changing anything. *)
Lemma wp_pure {A B} (m : hle S A) (k : A -> hle S B) a Q s :
  m s = Ret a s -> wp (k a) Q s -> wp (m ≫= k) Q s.
Proof. intros Hm Hk. apply wp_bind. unfold wp at 1. by rewrite Hm. Qed.

End Logic.

Section Rules.
Context {S : Type} `{M : !Machine S, L : !MemLaws S, R : !RegFileLaws S, V : !HostView S, HL : !HostLaws S}.
Implicit Types s : S.

(** The state a handler starts from and leaves behind. *)
Record sane s : Prop := {
  sane_mem : mem_ok s;
  sane_cpu : cpu_ok s;
  sane_host : host_ok s;
  sane_wide : forall r v, 0 <= r <= 30 -> 0 <= v < two64 -> fits r v;
}.

(** [s'] is [s] with the bytes of guest memory changed to [f] and register [r]
    to [v]. *)
Record became s (f : Z -> option Z) s' : Prop := {
  bc_sane : sane s';
  bc_map a n : mapped a n s' <-> mapped a n s;
  bc_rw a n : writable a n s' <-> writable a n s;
  bc_byte x : byte_at s' x = f x;
  bc_reg r : getr r s' = getr r s;
}.

Record returned s (f : Z -> option Z) (v : Z) s' : Prop := {
  rt_sane : sane s';
  rt_map a n : mapped a n s' <-> mapped a n s;
  rt_rw a n : writable a n s' <-> writable a n s;
  rt_byte x : byte_at s' x = f x;
  rt_reg r : r <> X0 -> getr r s' = getr r s;
  rt_value : getr X0 s' = v;
}.

Lemma became_refl s : sane s -> became s (byte_at s) s.
Proof. by constructor. Qed.

Lemma became_trans s f s1 g s2 : became s f s1 -> became s1 g s2 -> became s g s2.
Proof.
  intros [H1 H2 H3 H4 H5] [K1 K2 K3 K4 K5]. constructor; [done|..]; intros.
  - by rewrite K2, H2.
  - by rewrite K3, H3.
  - done.
  - by rewrite K5, H5.
Qed.

Lemma became_set s f s1 v : became s f s1 -> 0 <= v < two64 -> returned s f v (putr X0 (u64 v) s1).
Proof.
  intros [[K1 K2 K3 K4] H2 H3 H4 H5] Hv. rewrite u64_small by done. constructor.
  - constructor; [by apply ok_putr|by apply cpu_putr|by apply host_putr|done].
  - intros a n. by rewrite mapped_putr.
  - intros a n. by rewrite writable_putr.
  - intros x. by rewrite byte_putr.
  - intros r Hr. rewrite getr_putr_ne by done. done.
  - apply getr_putr; [done|]. apply K4; [unfold X0; lia|done].
Qed.

Lemma wp_reg {B} r (k : Z -> hle S B) Q s : wp (k (getr r s)) Q s -> wp (get_x r ≫= k) Q s.
Proof. intros Hk. by apply wp_bind. Qed.

(** A write to mapped memory. *)
Lemma write_became a bs s0 f s : became s0 f s -> mapped a (Z.of_nat (length bs)) s0 -> bs <> [] ->
  became s0 (stored f a bs) (gwrite a bs s).2.
Proof.
  intros [[K1 K2 K3 K4] H2 H3 H4 H5] Hm Hne. apply H2 in Hm. destruct (gwrite_mapped a bs s K1 Hm Hne) as (s' & E & G1 & G2 & G3).
  pose proof (cpu_gwrite a bs s K2) as G4. pose proof (host_gwrite a bs s K3) as G5.
  pose proof (fun r => getr_gwrite r a bs s) as G6. pose proof (fun b m => writable_gwrite a bs b m s) as G7.
  rewrite E in *. cbn in *. constructor; [by constructor|..]; intros.
  - by rewrite G2.
  - by rewrite G7.
  - rewrite G3. unfold stored. destruct (decide _); [done|apply H4].
  - by rewrite G6.
Qed.

Lemma wp_wr {B} a bs (k : unit -> hle S B) Q s0 f s :
  became s0 f s -> mapped a (Z.of_nat (length bs)) s0 -> bs <> [] ->
  (forall s', became s0 (stored f a bs) s' -> wp (k tt) Q s') -> wp (mem_wr a bs ≫= k) Q s.
Proof. intros Hb Hm Hne Hk. apply wp_bind. unfold wp at 1, mem_wr. apply Hk. by apply write_became. Qed.

(** A direct store is a write. *)
Lemma wp_st {B} a bs (k : unit -> hle S B) Q s0 f s :
  became s0 f s -> mapped a (Z.of_nat (length bs)) s0 -> writable a (Z.of_nat (length bs)) s0 -> a <> 0 -> bs <> [] ->
  (forall s', became s0 (stored f a bs) s' -> wp (k tt) Q s') -> wp (host_st a bs ≫= k) Q s.
Proof.
  intros Hb Hm Hw Ha Hne Hk. apply wp_bind. unfold wp at 1, host_st. pose proof Hb as [[K1 K2 K3 K4] H2 H3 H4 H5].
  destruct (hstore_writable a bs s K1 K2 K3) as (s' & -> & E); [by apply H2|by apply H3|done..|].
  apply Hk. pose proof (write_became a bs s0 f s Hb Hm Hne) as Hw'. by rewrite E in Hw'.
Qed.

Lemma wp_set v Q s0 f s : became s0 f s -> 0 <= v < two64 ->
  (forall s', returned s0 f v s' -> Q tt s') -> wp (set_x X0 v) Q s.
Proof. intros Hb Hv Hk. unfold wp, set_x. apply Hk. by apply became_set. Qed.

(** Reads of known bytes, by either way. *)
Lemma wp_rd {B} a bs (k : option (list Z) -> hle S B) Q s : sane s -> mapped a (Z.of_nat (length bs)) s -> bs <> [] ->
  holds_at (byte_at s) a bs -> wp (k (Some bs)) Q s -> wp (mem_rd a (Z.of_nat (length bs)) ≫= k) Q s.
Proof. intros [] Hm Hne Hh. apply wp_pure. unfold mem_rd. by rewrite (gread_holds a bs s). Qed.

Lemma wp_mem_rd_into {B} a n bs (k : list Z -> hle S B) Q s : sane s -> mapped a n s -> bs <> [] ->
  n = Z.of_nat (length bs) -> holds_at (byte_at s) a bs -> wp (k bs) Q s -> wp (mem_rd_into a n ≫= k) Q s.
Proof. intros [] Hm Hne -> Hh. apply wp_pure. unfold mem_rd_into. by rewrite (gread_holds a bs s). Qed.

Lemma host_ld_holds a bs s n : sane s -> mapped a n s -> a <> 0 -> forall i, 0 <= i -> i + Z.of_nat (length bs) <= n ->
  holds_at (byte_at s) (a + i) bs -> host_ld_from a i (length bs) s = Ret bs s.
Proof.
  intros [] Hm Ha. induction bs as [|b bs IH]; intros i Hi Hn Hh; [done|]. cbn [length host_ld_from].
  cbn [length] in Hn. rewrite (hbyte_mapped a n) by (done || lia).
  assert (Hb : byte_at s (a + i) = Some b) by (rewrite <- (Hh 0%nat b) by done; f_equal; lia).
  rewrite Hb. unfold mbind, hle_bind. rewrite IH; [done|lia..|].
  intros j x Hj. rewrite <- (Hh (Datatypes.S j) x) by done. f_equal. lia.
Qed.

Lemma wp_ld {B} a n bs (k : list Z -> hle S B) Q s : sane s -> mapped a n s -> a <> 0 -> n = Z.of_nat (length bs) ->
  holds_at (byte_at s) a bs -> wp (k bs) Q s -> wp (host_ld a n ≫= k) Q s.
Proof.
  intros Hs Hm Ha -> Hh. apply wp_pure. unfold host_ld. rewrite Nat2Z.id. apply (host_ld_holds a bs s (Z.of_nat (length bs))); try done.
  by rewrite Z.add_0_r.
Qed.

Lemma wp_null {B} a n (k : bool -> hle S B) Q s : sane s -> mapped a n s -> 0 < n -> a <> 0 ->
  wp (k false) Q s -> wp (is_null a ≫= k) Q s.
Proof. intros [] Hm Hn Ha. apply wp_pure. unfold is_null. by rewrite (ptr_mapped a n). Qed.

Lemma wp_alloc {B} n (k : unit -> hle S B) Q s : alloc_ok n s = true -> wp (k tt) Q s -> wp (new_buffer n ≫= k) Q s.
Proof. intros Ha. apply wp_pure. unfold new_buffer. by rewrite Ha. Qed.

(** [strnlen] on a string: [bs] up to its terminator or [n]. *)
Lemma host_string_holds a n s bs : sane s -> mapped a (Z.of_nat (length bs) + 1) s -> a <> 0 -> Forall (fun b => b <> 0) bs ->
  holds_at (byte_at s) a (bs ++ [0]) -> host_string a 0 n s = Ret (take n bs) s.
Proof.
  intros Hs Hm Ha Hnz Hh.
  assert (Hgen : forall n cs i, 0 <= i -> i + Z.of_nat (length cs) = Z.of_nat (length bs) -> Forall (fun b => b <> 0) cs ->
    holds_at (byte_at s) (a + i) (cs ++ [0]) -> host_string a i n s = Ret (take n cs) s).
  { clear n Hh Hnz. destruct Hs. induction n as [|n IH]; intros cs i Hi Hl Hnz Hh; [by destruct cs|]. cbn [host_string].
    rewrite (hbyte_mapped a (Z.of_nat (length bs) + 1)) by (done || lia). destruct cs as [|c cs].
    - assert (Hb : byte_at s (a + i) = Some 0) by (rewrite <- (Hh 0%nat 0) by done; f_equal; lia). by rewrite Hb.
    - assert (Hb : byte_at s (a + i) = Some c) by (rewrite <- (Hh 0%nat c) by done; f_equal; lia). rewrite Hb.
      apply Forall_cons in Hnz as [Hc Hnz]. rewrite (proj2 (Z.eqb_neq c 0)) by done. unfold mbind, hle_bind.
      rewrite (IH cs); [done|lia|cbn [length] in Hl; lia|done|].
      intros j x Hj. rewrite <- (Hh (Datatypes.S j) x) by done. f_equal. lia. }
  apply Hgen; [lia..|done|]. by rewrite Z.add_0_r.
Qed.

End Rules.
