(* ===== verification/HleMemOps.v ===== *)
(** Memory operations of the emulated libc (src/src/hle/hle_mem_ops.cpp): memcpy,
    memmove, memset, memcmp, memccpy, memchr, memrchr, bzero and bcopy on guest
    memory, each by the host's function on host pointers where there are any and
    through buffers where not.

    The host's copy functions are the list operations they are specified by; the
    value of a host comparison function is [cmp_int], of which only the sign is
    specified.  [memcpy] on overlapping ranges is undefined in C; here it copies
    like [memmove]. *)

From S2P Require Import Prelude Env MemoryManager MemorySpec Machine HostAccess HleMonad.

(** Lexicographic order of byte strings, a proper prefix first. *)
Fixpoint bytes_cmp (a b : list Z) : comparison :=
  match a, b with
  | [], [] => Eq
  | [], _ :: _ => Lt
  | _ :: _, [] => Gt
  | x :: a', y :: b' => match x ?= y with Eq => bytes_cmp a' b' | c => c end
  end.

(** The [int] that [memcmp] and [strcmp] return. *)
Class CLib := { cmp_int : list Z -> list Z -> Z }.
Class CLibLaws `{CLib} := {
  cmp_int_sign a b : (cmp_int a b ?= 0) = bytes_cmp a b;
  cmp_int_range a b : - 2 ^ 31 <= cmp_int a b < 2 ^ 31;
}.

Definition MAX_MEMMOVE_SIZE : Z := 256 * 1024 * 1024.
Definition MAX_MEMSET_SIZE : Z := 256 * 1024 * 1024.
Definition MAX_MEMCMP_SIZE : Z := 256 * 1024 * 1024.
Definition CHUNK_SIZE : Z := 256.

(** The first and the last position of a byte. *)
Definition first_index (P : Z -> bool) (bs : list Z) : option nat := fst <$> list_find (fun b => P b = true) bs.
Fixpoint last_index (P : Z -> bool) (bs : list Z) : option nat :=
  match bs with
  | [] => None
  | b :: t => match last_index P t with
              | Some i => Some (S i)
              | None => if P b then Some O else None
              end
  end.

Section MemOps.
Context {S : Type} `{M : !Machine S, H : !HostView S, C : CLib}.

(** Both ways of copying [n] bytes; shared by memcpy, __memcpy_chk and memmove. *)
Definition copy_bytes (dest src n : Z) : hle S unit :=
  dest_null ← is_null dest;
  src_null ← is_null src;
  if negb dest_null && negb src_null
  then bs ← host_ld src n; host_st dest bs
  else new_buffer n ;; buf ← mem_rd_into src n; mem_wr dest buf.

Definition memcpy : hle S unit :=
  dest ← get_x X0; src ← get_x X1; n ← get_x X2;
  (if 0 <? n then copy_bytes dest src n else mret tt) ;;
  set_x X0 dest.

Definition memcpy_chk : hle S unit :=
  dest ← get_x X0; src ← get_x X1; n ← get_x X2;
  (if 0 <? n then copy_bytes dest src n else mret tt) ;;
  set_x X0 dest.

Definition memmove : hle S unit :=
  dest ← get_x X0; src ← get_x X1; n ← get_x X2;
  (if (0 <? n) && (n <=? MAX_MEMMOVE_SIZE) then copy_bytes dest src n else mret tt) ;;
  set_x X0 dest.

Definition memset : hle S unit :=
  s ← get_x X0; x1 ← get_x X1; n ← get_x X2;
  let c := Z.land x1 0xFF in
  (if (0 <? n) && (n <=? MAX_MEMSET_SIZE)
   then s_null ← is_null s;
        if negb s_null then host_st s (replicate (Z.to_nat n) c)
        else new_buffer n ;; mem_wr s (replicate (Z.to_nat n) c)
   else mret tt) ;;
  set_x X0 s.

Definition memcmp : hle S unit :=
  s1 ← get_x X0; s2 ← get_x X1; n ← get_x X2;
  result ← (if (0 <? n) && (n <=? MAX_MEMCMP_SIZE)
            then s1_null ← is_null s1; s2_null ← is_null s2;
                 if negb s1_null && negb s2_null
                 then b1 ← host_ld s1 n; b2 ← host_ld s2 n; mret (cmp_int b1 b2)
                 else new_buffer n ;; new_buffer n ;;
                      b1 ← mem_rd_into s1 n; b2 ← mem_rd_into s2 n; mret (cmp_int b1 b2)
            else mret 0);
  set_x X0 result.

Definition memccpy : hle S unit :=
  dst ← get_x X0; src ← get_x X1; x2 ← get_x X2; n ← get_x X3;
  let c := Z.land x2 0xFF in
  new_buffer n ;;
  buf ← (if negb (n =? 0) then mem_rd_into src n else mret []);
  let '(ret, copy_len) :=
    match first_index (Z.eqb c) buf with
    | Some i => let copy_len := Z.of_nat i + 1 in (dst ⊕ copy_len, copy_len)
    | None => (0, n)
    end in
  (if negb (copy_len =? 0) then mem_wr dst (take (Z.to_nat copy_len) buf) else mret tt) ;;
  set_x X0 ret.

(** The host's [memchr] and [memrchr]: byte by byte, from the front or the back. *)
Fixpoint host_memchr (a i c : Z) (n : nat) : hle S (option Z) := fun s =>
  match n with
  | O => Ret None s
  | Datatypes.S n' =>
      match hbyte a i s with
      | None => Segv
      | Some b => if b =? c then Ret (Some i) s else host_memchr a (i + 1) c n' s
      end
  end.
Fixpoint host_memrchr (a c : Z) (n : nat) : hle S (option Z) := fun s =>
  match n with
  | O => Ret None s
  | Datatypes.S n' =>
      match hbyte a (Z.of_nat n') s with
      | None => Segv
      | Some b => if b =? c then Ret (Some (Z.of_nat n')) s else host_memrchr a c n' s
      end
  end.

Fixpoint memchr_chunks (fuel : nat) (s c n offset : Z) : hle S Z :=
  match fuel with
  | O => mret 0
  | Datatypes.S fuel' =>
      if offset <? n
      then let to_read := Z.min CHUNK_SIZE (n - offset) in
           chunk ← mem_rd (s ⊕ offset) to_read;
           match chunk with
           | None => mret 0
           | Some bs =>
               match first_index (Z.eqb c) bs with
               | Some i => mret (s ⊕ offset ⊕ Z.of_nat i)
               | None => memchr_chunks fuel' s c n (offset + to_read)
               end
           end
      else mret 0
  end.

Definition memchr : hle S unit :=
  s ← get_x X0; x1 ← get_x X1; n ← get_x X2;
  let c := Z.land x1 0xFF in
  s_null ← is_null s;
  if negb s_null
  then found ← host_memchr s 0 c (Z.to_nat n);
       set_x X0 (match found with Some i => s ⊕ i | None => 0 end)
  else result ← memchr_chunks (chunk_fuel n CHUNK_SIZE) s c n 0; set_x X0 result.

Fixpoint memrchr_chunks (fuel : nat) (s c remaining : Z) : hle S Z :=
  match fuel with
  | O => mret 0
  | Datatypes.S fuel' =>
      if 0 <? remaining
      then let to_read := Z.min CHUNK_SIZE remaining in
           let chunk_start := s ⊕ remaining ⊖ to_read in
           chunk ← mem_rd chunk_start to_read;
           match chunk with
           | None => mret 0
           | Some bs =>
               match last_index (Z.eqb c) bs with
               | Some i => mret (chunk_start ⊕ Z.of_nat i)
               | None => memrchr_chunks fuel' s c (remaining - to_read)
               end
           end
      else mret 0
  end.

Definition memrchr : hle S unit :=
  s ← get_x X0; x1 ← get_x X1; n ← get_x X2;
  let c := Z.land x1 0xFF in
  s_null ← is_null s;
  if negb s_null
  then found ← host_memrchr s c (Z.to_nat n);
       set_x X0 (match found with Some i => s ⊕ i | None => 0 end)
  else result ← memrchr_chunks (chunk_fuel n CHUNK_SIZE) s c n; set_x X0 result.

Definition bcopy : hle S unit :=
  src ← get_x X0; dest ← get_x X1; n ← get_x X2;
  if 0 <? n
  then new_buffer n ;; buf ← mem_rd_into src n; mem_wr dest buf
  else mret tt.

End MemOps.

(** [bzero] calls the memory manager. *)
Definition zero_range {E : Env} (a n : Z) : hle mstate unit := fun m => Ret tt (zero_ a n m).2.
Definition bzero {E : Env} : hle mstate unit :=
  s ← get_x X0; n ← get_x X1;
  if 0 <? n then zero_range s n else mret tt.
