(* ===== verification/HleString.v ===== *)
(** String functions of the emulated libc (src/src/hle/hle_string.cpp) on guest
    memory: [read_string] and the functions built on it.

    A [std::string] is its list of bytes (read_string never puts a NUL into one).
    The host's string functions are the list functions they are specified by; the
    value of a comparison is [cmp_int].  [strtok]'s static variable is passed in
    and out.  The functions that only hand out texts of the host's C library
    (strerror and the like) or depend on the locale (strcoll, strxfrm) are not
    here. *)

From S2P Require Import Prelude Env HeapAllocator MemoryManager MemorySpec Machine HostAccess HleMonad HleMemOps.

Definition kMaxGuestStringLen : Z := 2 ^ 20.

(** [tolower] in the C locale. *)
Definition tolower (c : Z) : Z := if (65 <=? c) && (c <=? 90) then c + 32 else c.

(** The first position of [n] in [h]: [strstr], [std::string::find], [memmem]. *)
Fixpoint find_sub (n h : list Z) : option nat :=
  if bool_decide (n `prefix_of` h) then Some O
  else match h with [] => None | _ :: t => S <$> find_sub n t end.

Definition one_of (set : list Z) (c : Z) : bool := bool_decide (c ∈ set).

(** [strspn] and [strcspn]. *)
Definition span (P : Z -> bool) (bs : list Z) : nat := default (length bs) (first_index (fun c => negb (P c)) bs).

Section Strings.
Context {S : Type} `{M : !Machine S, H : !HostView S, C : CLib}.

Fixpoint read_chunks (fuel : nat) (addr max_len offset : Z) : hle S (list Z) :=
  match fuel with
  | O => mret []
  | Datatypes.S fuel' =>
      if offset <? max_len
      then let to_read := Z.min CHUNK_SIZE (max_len - offset) in
           chunk ← mem_rd (addr ⊕ offset) to_read;
           match chunk with
           | None => mret []
           | Some bs =>
               match first_index (Z.eqb 0) bs with
               | Some i => mret (take i bs)
               | None => rest ← read_chunks fuel' addr max_len (offset + to_read); mret (bs ++ rest)
               end
           end
      else mret []
  end.

Definition read_string (addr max_len : Z) : hle S (list Z) :=
  addr_null ← is_null addr;
  if negb addr_null then host_string addr 0 (Z.to_nat max_len)
  else read_chunks (chunk_fuel max_len CHUNK_SIZE) addr max_len 0.

(** * Length *)

Definition strlen : hle S unit :=
  s ← get_x X0; str ← read_string s kMaxGuestStringLen;
  set_x X0 (Z.of_nat (length str)).
(** [__strlen_chk] has the same body, as have the other fortified versions. *)
Definition strlen_chk : hle S unit := strlen.


Definition strnlen : hle S unit :=
  s ← get_x X0; maxlen ← get_x X1; str ← read_string s maxlen;
  set_x X0 (Z.of_nat (length str)).

(** * Copies *)

Definition strcpy : hle S unit :=
  dest ← get_x X0; src ← get_x X1;
  str ← read_string src kMaxGuestStringLen;
  mem_wr dest (str ++ [0]) ;;
  set_x X0 dest.
Definition strcpy_chk : hle S unit := strcpy.


Definition strncpy : hle S unit :=
  dest ← get_x X0; src ← get_x X1; n ← get_x X2;
  str ← read_string src n;
  new_buffer n ;;
  mem_wr dest (take (Z.to_nat n) str ++ replicate (Z.to_nat n - length str) 0) ;;
  set_x X0 dest.
Definition strncpy_chk : hle S unit := strncpy.
Definition strncpy_chk2 : hle S unit := strncpy.


Definition strcat : hle S unit :=
  dest ← get_x X0; src ← get_x X1;
  dest_str ← read_string dest kMaxGuestStringLen;
  src_str ← read_string src kMaxGuestStringLen;
  mem_wr dest (dest_str ++ src_str ++ [0]) ;;
  set_x X0 dest.

Definition strncat : hle S unit :=
  dest ← get_x X0; src ← get_x X1; n ← get_x X2;
  dest_str ← read_string dest kMaxGuestStringLen;
  src_str ← read_string src n;
  mem_wr dest (dest_str ++ src_str ++ [0]) ;;
  set_x X0 dest.
Definition strncat_chk : hle S unit := strncat.


Definition stpcpy : hle S unit :=
  dest ← get_x X0; src ← get_x X1;
  s ← read_string src kMaxGuestStringLen;
  mem_wr dest (s ++ [0]) ;;
  set_x X0 (dest ⊕ Z.of_nat (length s)).

Definition stpncpy : hle S unit :=
  dest ← get_x X0; src ← get_x X1; n ← get_x X2;
  s ← read_string src n;
  let copy_len := Z.min (Z.of_nat (length s)) n in
  mem_wr dest (take (Z.to_nat copy_len) s) ;;
  (if copy_len <? n
   then new_buffer (n - copy_len) ;; mem_wr (dest ⊕ copy_len) (replicate (Z.to_nat (n - copy_len)) 0)
   else mret tt) ;;
  set_x X0 (dest ⊕ copy_len).

Definition strlcpy : hle S unit :=
  dest ← get_x X0; src ← get_x X1; size ← get_x X2;
  s ← read_string src kMaxGuestStringLen;
  (if (0 <? size) && negb (dest =? 0)
   then let copy_len := Z.min (Z.of_nat (length s)) (size - 1) in
        mem_wr dest (take (Z.to_nat copy_len) s) ;;
        mem_wr (dest ⊕ copy_len) [0]
   else mret tt) ;;
  set_x X0 (Z.of_nat (length s)).

Definition strlcat : hle S unit :=
  dest ← get_x X0; src ← get_x X1; size ← get_x X2;
  d ← read_string dest size;
  s ← read_string src kMaxGuestStringLen;
  let dlen := Z.of_nat (length d) in
  if size <=? dlen then set_x X0 (size ⊕ Z.of_nat (length s))
  else
    let copy_len := Z.min (Z.of_nat (length s)) (size - dlen - 1) in
    (if 0 <? copy_len
     then mem_wr (dest ⊕ dlen) (take (Z.to_nat copy_len) s) ;;
          mem_wr (dest ⊕ dlen ⊕ copy_len) [0]
     else mret tt) ;;
    set_x X0 (dlen ⊕ Z.of_nat (length s)).

(** * Comparison *)

(** The [_l] versions ignore the locale. *)
Definition strcmp : hle S unit :=
  s1 ← get_x X0; s2 ← get_x X1;
  str1 ← read_string s1 kMaxGuestStringLen; str2 ← read_string s2 kMaxGuestStringLen;
  set_x X0 (cmp_int str1 str2).

Definition strncmp : hle S unit :=
  s1 ← get_x X0; s2 ← get_x X1; n ← get_x X2;
  str1 ← read_string s1 n; str2 ← read_string s2 n;
  set_x X0 (cmp_int str1 str2).

Definition strcasecmp : hle S unit :=
  s1 ← get_x X0; s2 ← get_x X1;
  str1 ← read_string s1 kMaxGuestStringLen; str2 ← read_string s2 kMaxGuestStringLen;
  set_x X0 (cmp_int (map tolower str1) (map tolower str2)).
Definition strcasecmp_l : hle S unit := strcasecmp.


Definition strncasecmp : hle S unit :=
  s1 ← get_x X0; s2 ← get_x X1; n ← get_x X2;
  str1 ← read_string s1 n; str2 ← read_string s2 n;
  set_x X0 (cmp_int (map tolower str1) (map tolower str2)).
Definition strncasecmp_l : hle S unit := strncasecmp.


(** * Search *)

(** [p ? s + (p - str.c_str()) : 0]. *)
Definition pointer_at (s : Z) (p : option nat) : Z := match p with Some i => s ⊕ Z.of_nat i | None => 0 end.

Definition strchr : hle S unit :=
  s ← get_x X0; x1 ← get_x X1;
  let c := Z.land x1 0xFF in
  str ← read_string s kMaxGuestStringLen;
  set_x X0 (pointer_at s (first_index (Z.eqb c) (str ++ [0]))).

Definition strrchr : hle S unit :=
  s ← get_x X0; x1 ← get_x X1;
  let c := Z.land x1 0xFF in
  str ← read_string s kMaxGuestStringLen;
  set_x X0 (pointer_at s (last_index (Z.eqb c) (str ++ [0]))).

Definition strchrnul : hle S unit :=
  s ← get_x X0; x1 ← get_x X1;
  let c := Z.land x1 0xFF in
  str ← read_string s kMaxGuestStringLen;
  match first_index (Z.eqb c) (str ++ [0]) with
  | Some i => set_x X0 (s ⊕ Z.of_nat i)
  | None => set_x X0 (s ⊕ Z.of_nat (length str))
  end.

Definition strstr : hle S unit :=
  haystack ← get_x X0; needle ← get_x X1;
  h ← read_string haystack kMaxGuestStringLen; n ← read_string needle kMaxGuestStringLen;
  set_x X0 (pointer_at haystack (find_sub n h)).

Definition strnstr : hle S unit :=
  haystack ← get_x X0; needle ← get_x X1; len ← get_x X2;
  h ← read_string haystack len; n ← read_string needle kMaxGuestStringLen;
  set_x X0 (match find_sub n h with
            | Some pos => if Z.of_nat pos + Z.of_nat (length n) <=? len then haystack ⊕ Z.of_nat pos else 0
            | None => 0
            end).

Definition strcasestr : hle S unit :=
  haystack ← get_x X0; needle ← get_x X1;
  h ← read_string haystack kMaxGuestStringLen; n ← read_string needle kMaxGuestStringLen;
  set_x X0 (pointer_at haystack (find_sub (map tolower n) (map tolower h))).

Definition strpbrk : hle S unit :=
  s ← get_x X0; accept ← get_x X1;
  str ← read_string s kMaxGuestStringLen; acc ← read_string accept kMaxGuestStringLen;
  set_x X0 (pointer_at s (first_index (one_of acc) str)).

Definition strspn : hle S unit :=
  s ← get_x X0; accept ← get_x X1;
  str ← read_string s kMaxGuestStringLen; acc ← read_string accept kMaxGuestStringLen;
  set_x X0 (Z.of_nat (span (one_of acc) str)).

Definition strcspn : hle S unit :=
  s ← get_x X0; reject ← get_x X1;
  str ← read_string s kMaxGuestStringLen; rej ← read_string reject kMaxGuestStringLen;
  set_x X0 (Z.of_nat (span (fun c => negb (one_of rej c)) str)).

Definition gnu_basename : hle S unit :=
  path ← get_x X0;
  p ← read_string path kMaxGuestStringLen;
  set_x X0 (match last_index (Z.eqb 47) p with Some pos => path ⊕ Z.of_nat pos ⊕ 1 | None => path end).

Definition memmem : hle S unit :=
  haystack ← get_x X0; haystacklen ← get_x X1; needle ← get_x X2; needlelen ← get_x X3;
  if needlelen =? 0 then set_x X0 haystack
  else if haystacklen <? needlelen then set_x X0 0
  else
    new_buffer haystacklen ;; new_buffer needlelen ;;
    h ← mem_rd_into haystack haystacklen; n ← mem_rd_into needle needlelen;
    set_x X0 (pointer_at haystack (find_sub n h)).

Definition memset_explicit : hle S unit :=
  s ← get_x X0; x1 ← get_x X1; n ← get_x X2;
  let c := Z.land x1 0xFF in
  new_buffer n ;; mem_wr s (replicate (Z.to_nat n) c) ;;
  set_x X0 s.

(** * Tokens *)

(** A 64-bit value at [a]. *)
Definition read_u64 (a : Z) : hle S Z := bs ← mem_rd_into a 8; mret (le_value bs).
Definition write_ptr (a v : Z) : hle S unit := mem_wr a (le_bytes 8 v).

(** [s.find_first_of(delim, start)]. *)
Definition find_first_of (delim s : list Z) (start : nat) : option nat :=
  (Nat.add start) <$> first_index (one_of delim) (drop start s).

Definition strtok_r : hle S unit :=
  str ← get_x X0; delim_addr ← get_x X1; saveptr ← get_x X2;
  delim ← read_string delim_addr kMaxGuestStringLen;
  current ← (if str =? 0 then read_u64 saveptr else mret str);
  if current =? 0 then set_x X0 0
  else
    s ← read_string current kMaxGuestStringLen;
    match first_index (fun c => negb (one_of delim c)) s with
    | None => write_ptr saveptr 0 ;; set_x X0 0
    | Some start =>
        let token_addr := current ⊕ Z.of_nat start in
        match find_first_of delim s start with
        | Some end_ =>
            mem_wr (current ⊕ Z.of_nat end_) [0] ;;
            write_ptr saveptr (current ⊕ Z.of_nat end_ ⊕ 1)
        | None => write_ptr saveptr 0
        end ;;
        set_x X0 token_addr
    end.

(** The result is the new value of [static_saveptr]. *)
Definition strtok (static_saveptr : Z) : hle S Z :=
  str ← get_x X0; delim_addr ← get_x X1;
  delim ← read_string delim_addr kMaxGuestStringLen;
  let current := if negb (str =? 0) then str else static_saveptr in
  if current =? 0 then set_x X0 0 ;; mret static_saveptr
  else
    s ← read_string current kMaxGuestStringLen;
    match first_index (fun c => negb (one_of delim c)) s with
    | None => set_x X0 0 ;; mret 0
    | Some start =>
        let token_addr := current ⊕ Z.of_nat start in
        saved ← match find_first_of delim s start with
                | Some end_ => mem_wr (current ⊕ Z.of_nat end_) [0] ;; mret (current ⊕ Z.of_nat end_ ⊕ 1)
                | None => mret 0
                end;
        set_x X0 token_addr ;; mret saved
    end.

Definition strsep : hle S unit :=
  stringp ← get_x X0; delim_addr ← get_x X1;
  str ← read_u64 stringp;
  if str =? 0 then set_x X0 0
  else
    s ← read_string str kMaxGuestStringLen; delim ← read_string delim_addr kMaxGuestStringLen;
    match first_index (one_of delim) s with
    | Some pos => mem_wr (str ⊕ Z.of_nat pos) [0] ;; write_ptr stringp (str ⊕ Z.of_nat pos ⊕ 1)
    | None => write_ptr stringp 0
    end ;;
    set_x X0 str.

End Strings.

(** * Copies on the heap *)

Section Dup.
Context {E : Env} `{!HostAccess E}.

(** [emu.memory().heap().allocate(size, alignment)]. *)
Definition heap_allocate (size alignment : Z) : hle mstate Z := fun m =>
  let '(ptr, h1) := HeapAllocator.allocate size alignment (heap_ (mm m)) in
  Ret ptr (m <| mm ::= fun mm0 => mm0 <| heap_ := h1 |> |>).

Definition dup_string (str : list Z) : hle mstate unit :=
  ptr ← heap_allocate (Z.of_nat (length str) + 1) 8;
  (if negb (ptr =? 0) then mem_wr ptr (str ++ [0]) else mret tt) ;;
  set_x X0 ptr.

Definition strdup : hle mstate unit :=
  s ← get_x X0; str ← read_string s kMaxGuestStringLen; dup_string str.

Definition strndup : hle mstate unit :=
  s ← get_x X0; n ← get_x X1; str ← read_string s n; dup_string str.

End Dup.
