(* ===== verification/HleStringSpec.v ===== *)
(** Properties of the string and memory functions: what each leaves in guest
    memory and in X0, for strings and ranges anywhere in mapped memory. *)

From S2P Require Import Prelude Env MemoryManager MemorySpec Machine HostAccess HleMonad HleMemOps HleString.

Section Spec.
Context {S : Type} `{M : !Machine S, L : !MemLaws S, R : !RegFileLaws S, V : !HostView S, HL : !HostLaws S, C : CLib}.
Implicit Types s : S.

(** The NUL-terminated string [bs] lies at [a]. *)
Definition str_at s (a : Z) (bs : list Z) : Prop :=
  a <> 0 /\ mapped a (Z.of_nat (length bs) + 1) s /\ Forall (fun b => 0 < b < 256) bs /\ holds_at (byte_at s) a (bs ++ [0]).

Lemma max_len_pos : 0 < kMaxGuestStringLen < two64.
Proof. done. Qed.
#[local] Opaque kMaxGuestStringLen.

(** What [read_string] keeps of a string. *)
Definition clip (bs : list Z) : list Z := take (Z.to_nat kMaxGuestStringLen) bs.

Lemma str_nonzero s a bs : str_at s a bs -> Forall (fun b => b <> 0) bs.
Proof. intros (_ & _ & H & _). eapply Forall_impl; [exact H|]. cbn. lia. Qed.

Lemma str_range s a bs : sane s -> str_at s a bs -> 0 <= a /\ a + Z.of_nat (length bs) + 1 < two64.
Proof. intros [] (_ & Hm & _). pose proof (mapped_range _ _ _ sane_mem Hm). lia. Qed.

Lemma read_string_at n s a bs : sane s -> str_at s a bs -> read_string a n s = Ret (take (Z.to_nat n) bs) s.
Proof.
  intros Hs Hstr. pose proof (str_nonzero _ _ _ Hstr). destruct Hstr as (Ha & Hm & _ & Hh).
  unfold read_string, is_null, mbind, hle_bind. destruct Hs. rewrite (ptr_mapped a (Z.of_nat (length bs) + 1)) by (done || lia).
  by apply host_string_holds.
Qed.

Lemma wp_read_string {B} n a bs (k : list Z -> hle S B) Q s : sane s -> str_at s a bs ->
  wp (k (take (Z.to_nat n) bs)) Q s -> wp (read_string a n ≫= k) Q s.
Proof. intros Hs Hstr. apply wp_pure. by apply read_string_at. Qed.

(** * The batched path *)

Lemma first_index_Some P bs i : first_index P bs = Some i <->
  (exists b, bs !! i = Some b /\ P b = true) /\ forall j b, (j < i)%nat -> bs !! j = Some b -> P b = false.
Proof.
  unfold first_index. split.
  - intros H. apply fmap_Some in H as ([j b] & Hf & ->). apply list_find_Some in Hf as (H1 & H2 & H3).
    split; [eauto|]. intros k c Hk Hc. apply not_true_is_false. by apply (H3 k).
  - intros [(b & Hb & HP) Hno]. apply fmap_Some. exists (i, b). split; [|done]. apply list_find_Some.
    split_and!; [done..|]. intros j c Hc Hj. by rewrite (Hno j c).
Qed.

Lemma first_index_None P bs : first_index P bs = None <-> forall b, b ∈ bs -> P b = false.
Proof.
  unfold first_index. rewrite fmap_None, list_find_None, Forall_forall. split; intros H b Hb.
  - apply not_true_is_false. by apply H.
  - by rewrite H.
Qed.

(** The chunks of [CHUNK_SIZE] bytes that cover a string can all be read. *)
Lemma read_chunks_holds s a n bs : sane s -> 0 <= n -> Forall (fun b => b <> 0) bs ->
  mapped a (Z.of_nat (length bs) + CHUNK_SIZE) s -> holds_at (byte_at s) a (bs ++ [0]) ->
  read_chunks (chunk_fuel n CHUNK_SIZE) a n 0 s = Ret (take (Z.to_nat n) bs) s.
Proof.
  intros Hs Hn Hnz Hm Hh. pose proof (mapped_range _ _ _ (sane_mem _ Hs) Hm) as [Ha Htop]. unfold CHUNK_SIZE in *.
  assert (Hgen : forall fuel cs off, 0 <= off -> off + Z.of_nat (length cs) = Z.of_nat (length bs) ->
    Forall (fun b => b <> 0) cs -> holds_at (byte_at s) (a + off) (cs ++ [0]) -> n - off <= 256 * (Z.of_nat fuel - 1) ->
    read_chunks fuel a n off s = Ret (take (Z.to_nat (n - off)) cs) s).
  { induction fuel as [|fuel IH]; intros cs off Ho Hl Hcz Hc Hf.
    { cbn. replace (Z.to_nat (n - off)) with 0%nat by lia. done. }
    cbn [read_chunks]. destruct (off <? n) eqn:Hlt; zbool.
    2: { replace (Z.to_nat (n - off)) with 0%nat by lia. done. }
    unfold CHUNK_SIZE. set (k := Z.min 256 (n - off)). assert (0 < k <= 256) by lia.
    assert (Hmk : mapped (a + off) k s) by (eapply mapped_sub; [exact Hm|lia..]).
    destruct (gread_mapped (a + off) k s (sane_mem _ Hs) Hmk) as (chunk & Hg & Hlen & Hch); [lia|].
    unfold mbind, hle_bind, mem_rd. rewrite (u64_small (a + off)) by u64_lia. rewrite Hg.
    (* the chunk and the string agree where both are *)
    assert (Hagree : forall i b, chunk !! i = Some b -> (i < length cs)%nat -> cs !! i = Some b).
    { intros i b Hi Hil. destruct (lookup_lt_is_Some_2 cs i Hil) as [c Hci]. rewrite Hci. f_equal.
      assert (Hc1 : byte_at s (a + off + Z.of_nat i) = Some c) by (apply Hc; by apply lookup_app_l_Some).
      assert (Hc2 : byte_at s (a + off + Z.of_nat i) = Some b) by (by apply Hch). congruence. }
    destruct (decide (length cs < length chunk)%nat) as [Hend|Hend].
    - assert (Hnul : chunk !! length cs = Some 0).
      { destruct (lookup_lt_is_Some_2 chunk (length cs) Hend) as [b Hb]. rewrite Hb. f_equal.
        assert (byte_at s (a + off + Z.of_nat (length cs)) = Some 0)
          by (apply Hc; rewrite lookup_app_r, Nat.sub_diag by lia; done).
        assert (byte_at s (a + off + Z.of_nat (length cs)) = Some b) by (by apply Hch). congruence. }
      assert (Htk : take (length cs) chunk = cs).
      { apply list_eq. intros i. destruct (decide (i < length cs)%nat) as [Hi|Hi].
        - rewrite lookup_take_lt by done. destruct (lookup_lt_is_Some_2 chunk i ltac:(lia)) as [b Hb].
          rewrite Hb. symmetry. by apply Hagree.
        - rewrite lookup_take_ge by lia. symmetry. apply lookup_ge_None. lia. }
      assert (Hfi : first_index (Z.eqb 0) chunk = Some (length cs)).
      { apply first_index_Some. split; [eauto|]. intros j b Hj Hb. apply Z.eqb_neq. apply Hagree in Hb; [|done].
        rewrite Forall_lookup in Hcz. specialize (Hcz _ _ Hb). cbn in Hcz. congruence. }
      rewrite Hfi, Htk. unfold mret, hle_ret. by rewrite take_ge by lia.
    - assert (Htk : chunk = take (length chunk) cs).
      { apply list_eq. intros i. destruct (decide (i < length chunk)%nat) as [Hi|Hi].
        - rewrite lookup_take_lt by done. destruct (lookup_lt_is_Some_2 chunk i Hi) as [b Hb]. rewrite Hb. symmetry.
          apply Hagree; [done|lia].
        - rewrite lookup_take_ge by lia. apply lookup_ge_None. lia. }
      assert (Hfi : first_index (Z.eqb 0) chunk = None).
      { apply first_index_None. intros b [i Hi]%list_elem_of_lookup. apply Z.eqb_neq. pose proof (lookup_lt_Some _ _ _ Hi).
        apply Hagree in Hi; [|lia]. rewrite Forall_lookup in Hcz. specialize (Hcz _ _ Hi). cbn in Hcz. congruence. }
      rewrite Hfi. fold (hle_bind (S := S)).
      rewrite (IH (drop (length chunk) cs) (off + k)).
      + unfold mret, hle_ret. f_equal. rewrite Htk at 1. replace (length chunk) with (Z.to_nat k) by lia.
        rewrite <- (take_drop (Z.to_nat k) cs) at 3. rewrite take_app, length_take. rewrite take_take.
        f_equal; f_equal; lia.
      + lia.
      + rewrite length_drop. lia.
      + by apply Forall_drop.
      + rewrite <- (take_drop (length chunk) cs), <- app_assoc in Hc. apply holds_at_app in Hc as [_ Hc].
        rewrite length_take in Hc. replace (a + (off + k)) with (a + off + Z.of_nat (length chunk `min` length cs)) by lia. done.
      + lia. }
  rewrite (Hgen _ bs 0); [by rewrite Z.sub_0_r|lia..|done|by rewrite Z.add_0_r|].
  unfold chunk_fuel. pose proof (Z.div_mod n 256). pose proof (Z.mod_pos_bound n 256). pose proof (Z.div_pos n 256). lia.
Qed.

(** Reading a guest string gives its bytes up to the limit, changing nothing;
    and the batched reads that replace the direct access when there is no host
    pointer give the same, as long as the chunks are mapped to their end. *)
Theorem read_string_correct n a bs s : sane s -> 0 <= n -> str_at s a bs ->
  read_string a n s = Ret (take (Z.to_nat n) bs) s /\
  (mapped a (Z.of_nat (length bs) + CHUNK_SIZE) s -> read_chunks (chunk_fuel n CHUNK_SIZE) a n 0 s = read_string a n s).
Proof.
  intros Hs Hn Hstr. rewrite (read_string_at n s a bs) by done. split; [done|]. intros Hm.
  pose proof (str_nonzero _ _ _ Hstr). destruct Hstr as (_ & _ & _ & Hh). by apply read_chunks_holds.
Qed.

(** * Copies *)

Lemma returned_ext s f g v s' : (forall x, f x = g x) -> returned s f v s' -> returned s g v s'.
Proof. intros Hfg [H1 H2 H3 H4 H5 H6]. constructor; try done. intros x. by rewrite H4. Qed.

(** Symbolic execution: the argument registers, strings, buffers. *)
Ltac hle_args := repeat (apply wp_reg; cbv beta).
Ltac hle_string := eapply wp_read_string; [done|eassumption|]; cbv beta.

Lemma clip_length bs : (length (clip bs) <= length bs)%nat.
Proof. unfold clip. rewrite length_take. lia. Qed.

Lemma strcpy_spec s dest src bs : sane s -> getr X0 s = dest -> getr X1 s = src -> str_at s src bs ->
  mapped dest (Z.of_nat (length (clip bs)) + 1) s ->
  wp strcpy (fun _ => returned s (stored (byte_at s) dest (clip bs ++ [0])) dest) s /\
  wp stpcpy (fun _ => returned s (stored (byte_at s) dest (clip bs ++ [0])) (dest + Z.of_nat (length (clip bs)))) s.
Proof.
  intros Hs E0 E1 Hstr Hm. pose proof (mapped_range _ _ _ (sane_mem _ Hs) Hm).
  assert (Hm' : mapped dest (Z.of_nat (length (clip bs ++ [0]))) s) by (rewrite length_app; cbn; by rewrite Nat2Z.inj_add).
  assert (Hne : clip bs ++ [0] <> []) by (by destruct (clip bs)).
  unfold strcpy, stpcpy. split; hle_args; rewrite E0, E1; hle_string;
    (eapply wp_wr; [by apply became_refl|done|done|]; intros s1 H1; eapply wp_set; [exact H1|..]).
  - lia.
  - done.
  - apply u64_range.
  - intros s'. fold (clip bs). by rewrite u64_small by u64_lia.
Qed.

Lemma strncpy_spec s dest src n bs : sane s -> getr X0 s = dest -> getr X1 s = src -> getr X2 s = n -> str_at s src bs ->
  0 < n -> mapped dest n s -> alloc_ok n s = true ->
  wp strncpy (fun _ => returned s
    (stored (byte_at s) dest (take (Z.to_nat n) bs ++ replicate (Z.to_nat n - length bs) 0)) dest) s.
Proof.
  intros Hs E0 E1 E2 Hstr Hn Hm Hal. pose proof (mapped_range _ _ _ (sane_mem _ Hs) Hm).
  unfold strncpy. hle_args. rewrite E0, E1, E2. hle_string. apply wp_alloc; [done|].
  rewrite take_take, length_take.
  replace (Z.to_nat n - Z.to_nat n `min` length bs)%nat with (Z.to_nat n - length bs)%nat by lia.
  replace (Z.to_nat n `min` Z.to_nat n)%nat with (Z.to_nat n) by lia.
  assert (Hlen : length (take (Z.to_nat n) bs ++ replicate (Z.to_nat n - length bs) 0) = Z.to_nat n)
    by (rewrite length_app, length_take, length_replicate; lia).
  eapply wp_wr; [by apply became_refl| | |].
  - by rewrite Hlen, Z2Nat.id by lia.
  - intros Hnil. rewrite Hnil in Hlen. cbn in Hlen. lia.
  - intros s1 H1. eapply wp_set; [exact H1|lia|done].
Qed.

Lemma strcat_spec s dest src bs ds : sane s -> getr X0 s = dest -> getr X1 s = src -> str_at s src bs -> str_at s dest ds ->
  mapped dest (Z.of_nat (length (clip ds)) + Z.of_nat (length (clip bs)) + 1) s ->
  wp strcat (fun _ => returned s (stored (byte_at s) dest (clip ds ++ clip bs ++ [0])) dest) s.
Proof.
  intros Hs E0 E1 Hstr Hds Hm. pose proof (mapped_range _ _ _ (sane_mem _ Hs) Hm).
  unfold strcat. hle_args. rewrite E0, E1. do 2 hle_string.
  eapply wp_wr; [by apply became_refl| | |].
  - fold (clip ds) (clip bs). rewrite !length_app. cbn [length]. by replace (Z.of_nat _) with
      (Z.of_nat (length (clip ds)) + Z.of_nat (length (clip bs)) + 1) by lia.
  - intros Hnil. apply app_nil in Hnil as [_ Hnil]. by apply app_nil in Hnil as [_ ?].
  - intros s1 H1. eapply wp_set; [exact H1|lia|done].
Qed.

Lemma strncat_spec s dest src n bs ds : sane s -> getr X0 s = dest -> getr X1 s = src -> getr X2 s = n ->
  str_at s src bs -> str_at s dest ds ->
  mapped dest (Z.of_nat (length (clip ds)) + Z.of_nat (length (take (Z.to_nat n) bs)) + 1) s ->
  wp strncat (fun _ => returned s (stored (byte_at s) dest (clip ds ++ take (Z.to_nat n) bs ++ [0])) dest) s.
Proof.
  intros Hs E0 E1 E2 Hstr Hds Hm. pose proof (mapped_range _ _ _ (sane_mem _ Hs) Hm).
  unfold strncat. hle_args. rewrite E0, E1, E2. do 2 hle_string.
  eapply wp_wr; [by apply became_refl| | |].
  - fold (clip ds). rewrite !length_app. cbn [length]. by replace (Z.of_nat (length (clip ds) + _)) with
      (Z.of_nat (length (clip ds)) + Z.of_nat (length (take (Z.to_nat n) bs)) + 1) by lia.
  - intros Hnil. apply app_nil in Hnil as [_ Hnil]. by apply app_nil in Hnil as [_ ?].
  - intros s1 H1. eapply wp_set; [exact H1|lia|done].
Qed.

(** A string and its terminator written by two calls. *)
Lemma wp_two_writes {B} a bs (k : unit -> hle S B) Q s : sane s -> mapped a (Z.of_nat (length bs) + 1) s -> bs <> [] ->
  (forall s', became s (stored (byte_at s) a (bs ++ [0])) s' -> wp (k tt) Q s') ->
  wp ((mem_wr a bs ;; mem_wr (a ⊕ Z.of_nat (length bs)) [0]) ≫= k) Q s.
Proof.
  intros Hs Hm Hne Hk. pose proof (mapped_range _ _ _ (sane_mem _ Hs) Hm).
  assert (0 < Z.of_nat (length bs)) by (destruct bs; [done|cbn; lia]).
  apply wp_bind. eapply wp_wr; [by apply became_refl|eapply mapped_sub; [exact Hm|lia..]|done|]. intros s1 H1.
  unfold wp at 1, mem_wr. rewrite u64_small by u64_lia. apply Hk.
  pose proof (write_became (a + Z.of_nat (length bs)) [0] s _ s1 H1) as H2.
  destruct H2 as [K1 K2 K3 K4 K5]; [eapply mapped_sub; [exact Hm|cbn; lia..]|done|].
  constructor; try done. intros x. by rewrite K4, stored_app.
Qed.

Lemma strlcpy_spec s dest src size bs : sane s -> getr X0 s = dest -> getr X1 s = src -> getr X2 s = size ->
  str_at s src bs -> dest <> 0 -> 1 < size -> bs <> [] ->
  mapped dest (Z.of_nat (length (take (Z.to_nat (size - 1)) (clip bs))) + 1) s ->
  wp strlcpy (fun _ => returned s (stored (byte_at s) dest (take (Z.to_nat (size - 1)) (clip bs) ++ [0]))
    (Z.of_nat (length (clip bs)))) s.
Proof.
  intros Hs E0 E1 E2 Hstr Hd Hsz Hbs Hm. pose proof (str_range _ _ _ Hs Hstr). pose proof (clip_length bs).
  unfold strlcpy. hle_args. rewrite E0, E1, E2. hle_string. fold (clip bs).
  rewrite (proj2 (Z.ltb_lt 0 size)), (proj2 (Z.eqb_neq dest 0)) by lia. cbn [negb andb].
  set (copy_len := Z.min _ _). set (cs := take (Z.to_nat (size - 1)) (clip bs)) in *.
  assert (Hcs : take (Z.to_nat copy_len) (clip bs) = cs).
  { unfold cs, copy_len. destruct (decide (Z.of_nat (length (clip bs)) <= size - 1)).
    - by rewrite !take_ge by lia.
    - f_equal. lia. }
  assert (Hl : copy_len = Z.of_nat (length cs)) by (unfold cs, copy_len; rewrite length_take; lia).
  rewrite Hcs, Hl. apply wp_two_writes; [done..| |].
  - intros Hnil. apply (f_equal length) in Hnil. rewrite <- (Nat2Z.id (length cs)), <- Hl in Hnil. cbn in Hnil.
    assert (0 < Z.of_nat (length (clip bs))); [|unfold copy_len in Hnil; lia].
    unfold clip. rewrite length_take. destruct bs; [done|]. cbn [length]. pose proof max_len_pos. lia.
  - intros s1 H1. eapply wp_set; [exact H1|u64_lia|done].
Qed.

Lemma strlcat_spec s dest src size bs ds : sane s -> getr X0 s = dest -> getr X1 s = src -> getr X2 s = size ->
  str_at s src bs -> str_at s dest ds -> Z.of_nat (length ds) + 1 < size < two64 -> bs <> [] ->
  Z.of_nat (length ds) + Z.of_nat (length (clip bs)) < two64 ->
  mapped (dest + Z.of_nat (length ds)) (Z.of_nat (length (take (Z.to_nat (size - Z.of_nat (length ds) - 1)) (clip bs))) + 1) s ->
  wp strlcat (fun _ => returned s
    (stored (byte_at s) (dest + Z.of_nat (length ds)) (take (Z.to_nat (size - Z.of_nat (length ds) - 1)) (clip bs) ++ [0]))
    (Z.of_nat (length ds) + Z.of_nat (length (clip bs)))) s.
Proof.
  intros Hs E0 E1 E2 Hstr Hds Hsz Hbs Hsum Hm. pose proof (str_range _ _ _ Hs Hds).
  unfold strlcat. hle_args. rewrite E0, E1, E2. do 2 hle_string. fold (clip bs).
  rewrite (take_ge ds) by lia. set (dlen := Z.of_nat (length ds)) in *.
  rewrite (proj2 (Z.leb_gt size dlen)) by lia. set (copy_len := Z.min _ _).
  assert (Hpos : 0 < Z.of_nat (length (clip bs))).
  { unfold clip. rewrite length_take. destruct bs; [done|]. cbn [length]. pose proof max_len_pos. lia. }
  set (cs := take (Z.to_nat (size - dlen - 1)) (clip bs)) in *.
  assert (Hcs : take (Z.to_nat copy_len) (clip bs) = cs).
  { unfold cs, copy_len. destruct (decide (Z.of_nat (length (clip bs)) <= size - dlen - 1)).
    - by rewrite !take_ge by lia.
    - f_equal. lia. }
  assert (Hl : copy_len = Z.of_nat (length cs)) by (unfold cs, copy_len; rewrite length_take; lia).
  rewrite (proj2 (Z.ltb_lt 0 copy_len)) by (unfold copy_len; lia).
  rewrite Hcs, Hl, (u64_small (dest + dlen)) by (unfold dlen; u64_lia). apply wp_two_writes; [done..| |].
  - intros Hnil. rewrite Hnil in Hl. cbn in Hl. unfold copy_len in Hl. lia.
  - intros s1 H1. eapply wp_set; [exact H1|apply u64_range|]. intros s'. by rewrite u64_small by u64_lia.
Qed.

(** The copying functions write exactly what C prescribes: [strcpy], [stpcpy],
    [strncpy] with its padding, [strcat], [strncat], [strlcpy] and [strlcat] change
    the bytes of the destination to the result with its terminator and nothing
    else, also where source and destination overlap, and return the pointer or the
    length they should; strings longer than a megabyte are cut. *)
Theorem string_copies_correct s dest src n bs ds : sane s -> getr X0 s = dest -> getr X1 s = src -> getr X2 s = n ->
  str_at s src bs -> str_at s dest ds -> bs <> [] -> Z.of_nat (length ds) + 1 < n ->
  mapped dest (Z.of_nat (length ds) + Z.of_nat (length bs) + n + 1) s -> alloc_ok n s = true ->
  wp strcpy (fun _ => returned s (stored (byte_at s) dest (clip bs ++ [0])) dest) s /\
  wp stpcpy (fun _ => returned s (stored (byte_at s) dest (clip bs ++ [0])) (dest + Z.of_nat (length (clip bs)))) s /\
  wp strncpy (fun _ => returned s
    (stored (byte_at s) dest (take (Z.to_nat n) bs ++ replicate (Z.to_nat n - length bs) 0)) dest) s /\
  wp strcat (fun _ => returned s (stored (byte_at s) dest (clip ds ++ clip bs ++ [0])) dest) s /\
  wp strncat (fun _ => returned s (stored (byte_at s) dest (clip ds ++ take (Z.to_nat n) bs ++ [0])) dest) s /\
  wp strlcpy (fun _ => returned s (stored (byte_at s) dest (take (Z.to_nat (n - 1)) (clip bs) ++ [0]))
    (Z.of_nat (length (clip bs)))) s /\
  wp strlcat (fun _ => returned s
    (stored (byte_at s) (dest + Z.of_nat (length ds)) (take (Z.to_nat (n - Z.of_nat (length ds) - 1)) (clip bs) ++ [0]))
    (Z.of_nat (length ds) + Z.of_nat (length (clip bs)))) s.
Proof.
  intros Hs E0 E1 E2 Hstr Hds Hbs Hn Hm Hal. pose proof (clip_length bs). pose proof (clip_length ds).
  pose proof (mapped_range _ _ _ (sane_mem _ Hs) Hm) as [? ?].
  assert (Hsub : forall k x, 0 <= k -> 0 < x -> k + x <= Z.of_nat (length ds) + Z.of_nat (length bs) + n + 1 -> mapped (dest + k) x s).
  { intros k x Hk Hx Hkx. eapply mapped_sub; [exact Hm|lia..]. }
  assert (Hsub0 : forall x, 0 < x -> x <= Z.of_nat (length ds) + Z.of_nat (length bs) + n + 1 -> mapped dest x s).
  { intros x Hx Hx'. rewrite <- (Z.add_0_r dest). apply Hsub; lia. }
  destruct (strcpy_spec s dest src bs) as [Hcpy Hstp]; try done; [apply Hsub0; lia|].
  split_and!; [done|done|..].
  - apply (strncpy_spec s dest src n bs); try done; [lia|apply Hsub0; lia].
  - apply (strcat_spec s dest src bs ds); try done. apply Hsub0; lia.
  - apply (strncat_spec s dest src n bs ds); try done. apply Hsub0; [lia|rewrite length_take; lia].
  - apply (strlcpy_spec s dest src n bs); try done; [apply Hds|lia|]. apply Hsub0; [lia|rewrite length_take; lia].
  - apply (strlcat_spec s dest src n bs ds); try done; [lia|u64_lia|]. apply Hsub; [lia..|rewrite length_take; lia].
Qed.

(** * Queries *)

Lemma wp_value v (Q : unit -> S -> Prop) s : sane s -> (forall s', returned s (byte_at s) (u64 v) s' -> Q tt s') ->
  wp (set_x X0 v : hle S unit) Q s.
Proof.
  intros Hs HQ. unfold wp, set_x. apply HQ.
  pose proof (became_set s (byte_at s) s (u64 v) (became_refl s Hs) (u64_range v)) as Hb.
  by rewrite (u64_small (u64 v)) in Hb by apply u64_range.
Qed.

Lemma last_index_Some P bs i : last_index P bs = Some i <->
  (exists b, bs !! i = Some b /\ P b = true) /\ forall j b, (i < j)%nat -> bs !! j = Some b -> P b = false.
Proof.
  revert i. induction bs as [|b bs IH]; intros i; cbn; [split; [done|intros [(? & ? & _) _]; done]|].
  destruct (last_index P bs) as [k|] eqn:Hk.
  - destruct (proj1 (IH k) eq_refl) as [(x & Hx & HP) Hno]. split.
    + intros [= <-]. split; [by exists x|]. intros [|j] y Hj Hy; [lia|]. apply (Hno j); [lia|done].
    + intros [(y & Hy & HPy) Hn]. f_equal. destruct (decide (i = Datatypes.S k)) as [->|Hne]; [done|exfalso].
      destruct (decide (i < Datatypes.S k)%nat).
      * specialize (Hn (Datatypes.S k) x ltac:(lia) Hx). congruence.
      * destruct i as [|i]; [lia|]. specialize (Hno i y ltac:(lia) Hy). congruence.
  - assert (Hall : forall j y, bs !! j = Some y -> P y = false).
    { intros j y Hy. destruct (P y) eqn:HP; [|done]. exfalso. clear IH.
      revert j Hy. induction bs as [|z bs IHb]; intros j Hy; [done|]. cbn in Hk.
      destruct (last_index P bs) eqn:Hl; [done|]. destruct (P z) eqn:Hz; [done|].
      destruct j as [|j]; cbn in Hy; [congruence|]. by eapply IHb. }
    destruct (P b) eqn:HP; (split; [intros [= <-]|]).
    + split; [by exists b|]. intros [|j] y Hj Hy; [lia|]. by eapply Hall.
    + intros [(y & Hy & HPy) Hn]. destruct i as [|i]; [done|]. cbn in Hy. rewrite (Hall _ _ Hy) in HPy. done.
    + intros [(y & Hy & HPy) Hn]. destruct i as [|i]; cbn in Hy; [congruence|]. rewrite (Hall _ _ Hy) in HPy. done.
Qed.

Lemma last_index_None P bs : last_index P bs = None -> forall b, b ∈ bs -> P b = false.
Proof.
  induction bs as [|z bs IH]; intros Hl b Hb; [by apply elem_of_nil in Hb|]. cbn in Hl.
  destruct (last_index P bs) eqn:Hk; [done|]. destruct (P z) eqn:Hz; [done|].
  apply elem_of_cons in Hb as [->|Hb]; [done|by apply IH].
Qed.

Lemma find_sub_spec n h : match find_sub n h with
  | Some i => n `prefix_of` drop i h /\ (i <= length h)%nat /\ forall j, (j < i)%nat -> ~ n `prefix_of` drop j h
  | None => forall j, ~ n `prefix_of` drop j h
  end.
Proof.
  induction h as [|x h IH]; cbn; case_bool_decide as Hp.
  - split_and!; [done|lia|lia].
  - intros j. by rewrite drop_nil.
  - split_and!; [done|lia|lia].
  - destruct (find_sub n h) as [i|]; cbn.
    + destruct IH as (H1 & H2 & H3). split_and!; [done|lia|]. intros [|j] Hj; [done|]. apply H3. lia.
    + intros [|j]; [done|apply IH].
Qed.

(** The result of a search: the address of the position, or 0. *)
Lemma pointer_small s a bs i : sane s -> str_at s a bs -> (i <= length bs)%nat -> a ⊕ Z.of_nat i = a + Z.of_nat i.
Proof. intros Hs Hstr Hi. pose proof (str_range _ _ _ Hs Hstr). apply u64_small. u64_lia. Qed.

(** The functions that only look at strings: [strlen], [strnlen], [strcmp],
    [strchr], [strrchr], [strstr], [strspn] and [strcspn] leave memory alone and
    return the length, a number with the sign of the lexicographic order, the
    address of the first or last occurrence (the terminator counts for a search
    for 0) or 0 where there is none, and the length of the leading span. *)
Theorem string_queries_correct `{!CLibLaws} s a bs : sane s -> getr X0 s = a -> str_at s a bs ->
  let gives (m : hle S unit) (P : Z -> Prop) := wp m (fun _ s' => exists v, returned s (byte_at s) v s' /\ P v) s in
  gives strlen (fun v => v = Z.of_nat (length (clip bs))) /\
  gives strnlen (fun v => v = Z.of_nat (length (take (Z.to_nat (getr X1 s)) bs))) /\
  (forall c, c = Z.land (getr X1 s) 0xFF ->
     gives strchr (fun v => match first_index (Z.eqb c) (clip bs ++ [0]) with
                            | Some i => v = a + Z.of_nat i | None => v = 0 end) /\
     gives strrchr (fun v => match last_index (Z.eqb c) (clip bs ++ [0]) with
                             | Some i => v = a + Z.of_nat i | None => v = 0 end)) /\
  (forall b cs, getr X1 s = b -> str_at s b cs ->
     gives strcmp (fun v => exists r, v = u64 r /\ - 2 ^ 31 <= r < 2 ^ 31 /\ (r ?= 0) = bytes_cmp (clip bs) (clip cs)) /\
     gives strstr (fun v =>
       (exists i, v = a + Z.of_nat i /\ clip cs `prefix_of` drop i (clip bs) /\
          forall j, (j < i)%nat -> ~ clip cs `prefix_of` drop j (clip bs)) \/
       (v = 0 /\ forall j, ~ clip cs `prefix_of` drop j (clip bs))) /\
     gives strspn (fun v => v = Z.of_nat (span (one_of (clip cs)) (clip bs))) /\
     gives strcspn (fun v => v = Z.of_nat (span (fun c => negb (one_of (clip cs) c)) (clip bs)))).
Proof.
  intros Hs E0 Hstr gives. pose proof (str_range _ _ _ Hs Hstr) as Hr. pose proof (clip_length bs) as Hcl.
  assert (Hval : forall v (P : Z -> Prop), P (u64 v) -> gives (set_x X0 v) P)
    by (intros v P HP; apply wp_value; [done|]; eauto).
  assert (Hlen : forall n : nat, (n <= length bs)%nat -> u64 (Z.of_nat n) = Z.of_nat n) by (intros n Hn; apply u64_small; u64_lia).
  assert (Hspan : forall P, (span P (clip bs) <= length bs)%nat).
  { intros P. unfold span. destruct (first_index _ _) as [i|] eqn:Hi; cbn; [|lia].
    apply first_index_Some in Hi as [(b & Hb & _) _]. apply lookup_lt_Some in Hb. lia. }
  split_and!.
  - unfold gives, strlen. hle_args. rewrite E0. hle_string. apply Hval. by apply Hlen.
  - unfold gives, strnlen. hle_args. rewrite E0. hle_string. apply Hval. apply Hlen. rewrite length_take. lia.
  - intros c ->. split; unfold gives, strchr, strrchr; hle_args; rewrite E0; hle_string; fold (clip bs); apply Hval.
    + destruct (first_index _ _) as [i|] eqn:Hi; [|done]. apply first_index_Some in Hi as [(b & Hb & _) _].
      apply lookup_lt_Some in Hb. rewrite length_app in Hb. cbn in Hb |- *. rewrite (pointer_small s a bs) by (done || lia).
      rewrite u64_small by u64_lia. done.
    + destruct (last_index _ _) as [i|] eqn:Hi; [|done]. apply last_index_Some in Hi as [(b & Hb & _) _].
      apply lookup_lt_Some in Hb. rewrite length_app in Hb. cbn in Hb |- *. rewrite (pointer_small s a bs) by (done || lia).
      rewrite u64_small by u64_lia. done.
  - intros b cs E1 Hcs. unfold gives. split_and!; unfold strcmp, strstr, strspn, strcspn; hle_args; rewrite E0, E1;
      do 2 hle_string; fold (clip bs) (clip cs); apply Hval.
    + exists (cmp_int (clip bs) (clip cs)). split_and!; [done|apply cmp_int_range|apply cmp_int_range|apply cmp_int_sign].
    + pose proof (find_sub_spec (clip cs) (clip bs)) as Hf. destruct (find_sub _ _) as [i|]; cbn; [left|by right].
      destruct Hf as (H1 & H2 & H3). exists i. rewrite (pointer_small s a bs) by (done || lia).
      rewrite u64_small by u64_lia. done.
    + by apply Hlen.
    + by apply Hlen.
Qed.

End Spec.

(** * The hypotheses hold at a concrete state *)

(** A page with the strings "ab,,c" at 0x1100, "," at 0x1108 and "x" at 0x1110, and
    the registers of a call. *)
Definition text_mem : mstate (E := RefEnv) :=
  (mem_write 0x1100 ([97; 98; 44; 44; 99; 0; 0; 0] ++ [44; 0; 0; 0; 0; 0; 0; 0] ++ [120; 0])
     (mem_map 0x1000 0x1000 3 "Text" mem0).2).2.
Definition text_regs (x0 x1 x2 : Z) : mstate (E := RefEnv) := putr X2 x2 (putr X1 x1 (putr X0 x0 text_mem)).
Definition text_region : MemoryRegion := new_region 0x1000 0x1000 3 "Text" 0x700000000000.

#[export] Instance demo_clib : CLib :=
  {| cmp_int a b := match bytes_cmp a b with Lt => -1 | Eq => 0 | Gt => 1 end |}.
#[export] Instance demo_clib_laws : CLibLaws.
Proof. constructor; intros a b; cbn; destruct (bytes_cmp a b); lia || done. Qed.

Lemma text_regions x0 x1 x2 : regions_ (mm (text_regs x0 x1 x2)) = [text_region].
Proof. reflexivity. Qed.

Lemma text_mapped x0 x1 x2 a n : 0x1000 <= a -> a + n <= 0x2000 -> mapped a n (text_regs x0 x1 x2).
Proof.
  intros H1 H2. change (mem_mapped a n (text_regs x0 x1 x2)). unfold mem_mapped.
  replace (use_qemu (text_regs x0 x1 x2)) with false by reflexivity. exists text_region.
  rewrite text_regions. split; [by left|]. split; cbn; lia.
Qed.

Lemma text_sane x0 x1 x2 : sane (text_regs x0 x1 x2).
Proof.
  constructor.
  - change (regions_wf (regions_ (mm (text_regs x0 x1 x2)))). rewrite text_regions.
    split; [apply Forall_singleton; by constructor|constructor; constructor].
  - reflexivity.
  - intros H. discriminate H.
  - intros r v Hr Hv. cbn. unfold ref_trunc. rewrite (proj2 (Z.eqb_neq r REG_FPCR)), (proj2 (Z.eqb_neq r REG_FPSR)); [done|..];
      unfold REG_FPCR, REG_FPSR; lia.
Qed.

(** A string of the page, by looking. *)
Lemma text_bytes x0 x1 x2 a bs :
  map (fun i => mem_byte text_mem (a + Z.of_nat i)) (seq 0 (length bs)) = map Some bs ->
  holds_at (byte_at (text_regs x0 x1 x2)) a bs.
Proof.
  intros Hb i b Hi. unfold text_regs. rewrite !byte_putr. change (mem_byte text_mem (a + Z.of_nat i) = Some b).
  apply (f_equal (fun l => l !! i)) in Hb. rewrite !list_lookup_fmap, Hi in Hb.
  rewrite lookup_seq_lt in Hb by (by eapply lookup_lt_Some). cbn in Hb. congruence.
Qed.

Lemma text_str x0 x1 x2 a bs : 0x1000 <= a -> a + Z.of_nat (length bs) + 1 <= 0x2000 ->
  Forall (fun b => 0 < b < 256) bs ->
  map (fun i => mem_byte text_mem (a + Z.of_nat i)) (seq 0 (length (bs ++ [0]))) = map Some (bs ++ [0]) ->
  str_at (text_regs x0 x1 x2) a bs.
Proof. intros H1 H2 Hz Hb. split_and!; [lia|apply text_mapped; lia|done|by apply text_bytes]. Qed.

Lemma text_source x0 x1 x2 : str_at (text_regs x0 x1 x2) 0x1100 [97; 98; 44; 44; 99].
Proof. apply text_str; [done..| |by vm_compute]. repeat constructor. Qed.
Lemma text_comma x0 x1 x2 : str_at (text_regs x0 x1 x2) 0x1108 [44].
Proof. apply text_str; [done..| |by vm_compute]. repeat constructor. Qed.
Lemma text_dest x0 x1 x2 : str_at (text_regs x0 x1 x2) 0x1110 [120].
Proof. apply text_str; [done..| |by vm_compute]. repeat constructor. Qed.

Lemma read_string_correct_witness : read_string 0x1100 3 (text_regs 0 0 0) = Ret [97; 98; 44] (text_regs 0 0 0).
Proof.
  apply (read_string_correct 3 0x1100 [97; 98; 44; 44; 99] (text_regs 0 0 0)); [apply text_sane|done|apply text_source].
Defined.

Lemma text_getr x0 x1 x2 : getr X0 (text_regs x0 x1 x2) = x0 /\ getr X1 (text_regs x0 x1 x2) = x1 /\ getr X2 (text_regs x0 x1 x2) = x2.
Proof. split_and!; reflexivity. Qed.

Lemma string_copies_correct_witness :
  wp strcat (fun _ s' => getr X0 s' = 0x1110) (text_regs 0x1110 0x1100 16).
Proof.
  destruct (text_getr 0x1110 0x1100 16) as (E0 & E1 & E2).
  assert (Hm : mapped 0x1110 (Z.of_nat 1 + Z.of_nat 5 + 16 + 1) (text_regs 0x1110 0x1100 16)) by (apply text_mapped; lia).
  destruct (string_copies_correct (text_regs 0x1110 0x1100 16) 0x1110 0x1100 16 [97; 98; 44; 44; 99] [120]
    (text_sane _ _ _) E0 E1 E2 (text_source _ _ _) (text_dest _ _ _) ltac:(discriminate) ltac:(cbn; lia) Hm eq_refl)
    as (_ & _ & _ & H & _).
  eapply wp_mono; [exact H|]. intros u s' Hs'. exact (rt_value _ _ _ _ Hs').
Defined.

Lemma string_queries_correct_witness :
  wp strstr (fun _ s' => exists v, getr X0 s' = v /\
    ((exists i, v = 0x1100 + Z.of_nat i) \/ v = 0)) (text_regs 0x1100 0x1108 0).
Proof.
  destruct (text_getr 0x1100 0x1108 0) as (E0 & E1 & _).
  destruct (string_queries_correct (text_regs 0x1100 0x1108 0) 0x1100 [97; 98; 44; 44; 99] (text_sane _ _ _) E0 (text_source _ _ _))
    as (_ & _ & _ & H). destruct (H 0x1108 [44] E1 (text_comma _ _ _)) as (_ & Hs & _).
  eapply wp_mono; [exact Hs|]. intros u s' (v & Hr & Hv). exists v. split; [exact (rt_value _ _ _ _ Hr)|].
  destruct Hv as [(i & Hi & _)|[Hv _]]; [left; by exists i|by right].
Defined.
