(* ===== verification/HleMemSpec.v ===== *)
(** Properties of the memory operations of the emulated libc. *)

From S2P Require Import Prelude Env MemoryManager MemorySpec Machine HostAccess HleMonad HleMemOps HleString HleStringSpec.

Section Spec.
Context {S : Type} `{M : !Machine S, L : !MemLaws S, R : !RegFileLaws S, V : !HostView S, HL : !HostLaws S, C : CLib}.
Implicit Types s : S.

(** [bs] lies at [a], in memory the host can reach. *)
Definition bytes_at s (a : Z) (bs : list Z) : Prop :=
  a <> 0 /\ mapped a (Z.of_nat (length bs)) s /\ holds_at (byte_at s) a bs.

Lemma bytes_range s a bs : sane s -> bytes_at s a bs -> 0 <= a /\ a + Z.of_nat (length bs) < two64.
Proof. intros [] (_ & Hm & _). by apply (mapped_range _ _ s). Qed.

(** Copying through host pointers. *)
Lemma wp_copy {B} dest src bs (k : unit -> hle S B) Q s : sane s -> bytes_at s src bs -> bs <> [] -> dest <> 0 ->
  mapped dest (Z.of_nat (length bs)) s -> writable dest (Z.of_nat (length bs)) s ->
  (forall s', became s (stored (byte_at s) dest bs) s' -> wp (k tt) Q s') ->
  wp (copy_bytes dest src (Z.of_nat (length bs)) ≫= k) Q s.
Proof.
  intros Hs (Hsrc & Hm & Hh) Hne Hd Hmd Hwd Hk. assert (0 < Z.of_nat (length bs)) by (destruct bs; [done|cbn; lia]).
  unfold copy_bytes. apply wp_bind.
  eapply wp_null; [done|exact Hmd|lia|done|]. eapply wp_null; [done|exact Hm|lia|done|]. cbn [negb andb].
  eapply wp_ld; [done|exact Hm|done|done|done|].
  assert (Hcont : wp (host_st dest bs ≫= fun u => mret u) (fun u s' => wp (k u) Q s') s).
  { eapply wp_st; [by apply became_refl|done..|]. intros s' Hs'. apply wp_ret. by apply Hk. }
  unfold wp, mbind, hle_bind in Hcont |- *. by destruct (host_st dest bs s) as [[] ?| |].
Qed.

Lemma copies_spec s dest src bs : sane s -> getr X0 s = dest -> getr X1 s = src ->
  getr X2 s = Z.of_nat (length bs) -> bytes_at s src bs -> bs <> [] -> dest <> 0 ->
  mapped dest (Z.of_nat (length bs)) s -> writable dest (Z.of_nat (length bs)) s ->
  wp memcpy (fun _ => returned s (stored (byte_at s) dest bs) dest) s /\
  wp memcpy_chk (fun _ => returned s (stored (byte_at s) dest bs) dest) s /\
  (Z.of_nat (length bs) <= MAX_MEMMOVE_SIZE -> wp memmove (fun _ => returned s (stored (byte_at s) dest bs) dest) s).
Proof.
  intros Hs E0 E1 E2 Hsrc Hne Hd Hmd Hwd. assert (Hpos : 0 < Z.of_nat (length bs)) by (destruct bs; [done|cbn; lia]).
  pose proof (mapped_range _ _ _ (sane_mem _ Hs) Hmd).
  unfold memcpy, memcpy_chk, memmove. split_and!; intros; repeat (apply wp_reg; cbv beta); rewrite E0, E1, E2;
    rewrite (proj2 (Z.ltb_lt _ _)) by done; rewrite ?(proj2 (Z.leb_le _ _)) by done; cbn [andb];
    (eapply wp_copy; [done..|]; intros s1 H1; eapply wp_set; [exact H1|lia|done]).
Qed.

Lemma memset_spec s dest c n : sane s -> getr X0 s = dest -> Z.land (getr X1 s) 0xFF = c -> getr X2 s = n ->
  0 < n <= MAX_MEMSET_SIZE -> dest <> 0 -> mapped dest n s -> writable dest n s ->
  wp memset (fun _ => returned s (stored (byte_at s) dest (replicate (Z.to_nat n) c)) dest) s.
Proof.
  intros Hs E0 E1 E2 Hn Hd Hmd Hwd. pose proof (mapped_range _ _ _ (sane_mem _ Hs) Hmd).
  unfold memset. repeat (apply wp_reg; cbv beta). rewrite E0, E2, E1.
  rewrite (proj2 (Z.ltb_lt _ _)), (proj2 (Z.leb_le _ _)) by lia. cbn [andb]. apply wp_bind.
  eapply wp_null; [done|exact Hmd|lia|done|]. cbn [negb].
  assert (Hlen : Z.of_nat (length (replicate (Z.to_nat n) c)) = n) by (rewrite length_replicate; lia).
  assert (Hcont : wp (host_st dest (replicate (Z.to_nat n) c) ≫= fun u => mret u)
    (fun u s' => wp (set_x X0 dest) (fun _ => returned s (stored (byte_at s) dest (replicate (Z.to_nat n) c)) dest) s') s).
  { eapply wp_st; [by apply became_refl|by rewrite Hlen..|done| |].
    - intros Hnil. rewrite Hnil in Hlen. cbn in Hlen. lia.
    - intros s' Hs'. apply wp_ret. eapply wp_set; [exact Hs'|lia|done]. }
  unfold wp, mbind, hle_bind in Hcont |- *. by destruct (host_st _ _ s) as [[] ?| |].
Qed.

Lemma memcmp_spec `{!CLibLaws} s a b bs cs : sane s -> getr X0 s = a -> getr X1 s = b -> getr X2 s = Z.of_nat (length bs) ->
  bytes_at s a bs -> bytes_at s b cs -> length cs = length bs -> 0 < Z.of_nat (length bs) <= MAX_MEMCMP_SIZE ->
  wp memcmp (fun _ s' => exists r, returned s (byte_at s) (u64 r) s' /\ - 2 ^ 31 <= r < 2 ^ 31 /\
    (r ?= 0) = bytes_cmp bs cs) s.
Proof.
  intros Hs E0 E1 E2 (Ha & Hma & Hha) (Hb & Hmb & Hhb) Hlen Hn. unfold memcmp.
  repeat (apply wp_reg; cbv beta). rewrite E0, E1, E2. rewrite (proj2 (Z.ltb_lt _ _)), (proj2 (Z.leb_le _ _)) by lia. cbn [andb].
  apply wp_bind. eapply wp_null; [done|exact Hma|lia|done|]. eapply wp_null; [done|exact Hmb|lia|done|]. cbn [negb andb].
  eapply wp_ld; [done|exact Hma|done|done|done|]. eapply (wp_ld b _ cs); [done|by rewrite <- Hlen|done|by rewrite Hlen|done|].
  apply wp_ret. apply wp_value; [done|]. intros s' Hs'. exists (cmp_int bs cs).
  split_and!; [done|apply cmp_int_range|apply cmp_int_range|apply cmp_int_sign].
Qed.

(** The host's scans. *)
Lemma host_memchr_holds a c bs n s : sane s -> a <> 0 -> mapped a n s -> forall i, 0 <= i -> i + Z.of_nat (length bs) <= n ->
  holds_at (byte_at s) (a + i) bs ->
  host_memchr a i c (length bs) s = Ret ((fun k => i + Z.of_nat k) <$> first_index (Z.eqb c) bs) s.
Proof.
  intros [] Ha Hm. induction bs as [|b bs IH]; intros i Hi Hn Hh; [done|]. cbn [length host_memchr]. cbn [length] in Hn.
  rewrite (hbyte_mapped a n) by (done || lia).
  assert (Hb : byte_at s (a + i) = Some b) by (rewrite <- (Hh 0%nat b) by done; f_equal; lia). rewrite Hb.
  assert (Hh' : holds_at (byte_at s) (a + (i + 1)) bs).
  { intros j x Hj. rewrite <- (Hh (Datatypes.S j) x) by done. f_equal. lia. }
  unfold first_index. cbn [list_find]. destruct (b =? c) eqn:Hbc; zbool.
  - rewrite decide_True by (apply Z.eqb_eq; done). cbn. by rewrite Z.add_0_r.
  - rewrite decide_False by (rewrite Z.eqb_eq; congruence). rewrite IH by (done || lia). unfold first_index.
    destruct (list_find _ bs) as [[k x]|]; cbn; [|done]. do 2 f_equal. lia.
Qed.

Lemma last_index_snoc P bs b : last_index P (bs ++ [b]) = if P b then Some (length bs) else last_index P bs.
Proof. induction bs as [|x bs IH]; cbn; [by destruct (P b)|]. rewrite IH. by destruct (P b). Qed.

Lemma host_memrchr_holds a c bs n s : sane s -> a <> 0 -> mapped a n s -> Z.of_nat (length bs) <= n ->
  holds_at (byte_at s) a bs -> host_memrchr a c (length bs) s = Ret (Z.of_nat <$> last_index (Z.eqb c) bs) s.
Proof.
  intros [] Ha Hm. induction bs as [|b bs IH] using rev_ind; intros Hn Hh; [done|].
  rewrite length_app in *. cbn [length] in *. rewrite Nat.add_1_r in *. cbn [host_memrchr].
  apply holds_at_app in Hh as [Hh Hb]. rewrite (hbyte_mapped a n) by (done || lia).
  assert (Hbb : byte_at s (a + Z.of_nat (length bs)) = Some b) by (rewrite <- (Hb 0%nat b) by done; f_equal; lia).
  rewrite Hbb, last_index_snoc.
  rewrite (Z.eqb_sym c b). destruct (b =? c); [done|]. apply IH; [lia|done].
Qed.

Lemma memchr_spec s a c bs : sane s -> getr X0 s = a -> Z.land (getr X1 s) 0xFF = c ->
  getr X2 s = Z.of_nat (length bs) -> bytes_at s a bs -> bs <> [] ->
  wp memchr (fun _ => returned s (byte_at s)
    (match first_index (Z.eqb c) bs with Some i => a + Z.of_nat i | None => 0 end)) s /\
  wp memrchr (fun _ => returned s (byte_at s)
    (match last_index (Z.eqb c) bs with Some i => a + Z.of_nat i | None => 0 end)) s.
Proof.
  intros Hs E0 E1 E2 Hb Hne. pose proof (bytes_range _ _ _ Hs Hb) as Hr. destruct Hb as (Ha & Hm & Hh).
  assert (0 < Z.of_nat (length bs)) by (destruct bs; [done|cbn; lia]).
  assert (Hsmall : forall i b, bs !! i = Some b -> u64 (a + Z.of_nat i) = a + Z.of_nat i).
  { intros i b Hi%lookup_lt_Some. apply u64_small. u64_lia. }
  unfold memchr, memrchr. split; repeat (apply wp_reg; cbv beta); rewrite E0, E1, E2;
    (eapply wp_null; [done|exact Hm|lia|done|]); cbn [negb]; rewrite Nat2Z.id.
  - eapply wp_pure.
    { apply (host_memchr_holds a c bs (Z.of_nat (length bs))); try done. by rewrite Z.add_0_r. }
    apply wp_value; [done|]. intros s'. destruct (first_index _ _) as [i|] eqn:Hi; [|done].
    apply first_index_Some in Hi as [(b & Hi & _) _]. cbn [fmap option_fmap option_map].
    rewrite Z.add_0_l, !(Hsmall i b Hi). done.
  - eapply wp_pure; [by apply (host_memrchr_holds a c bs (Z.of_nat (length bs)))|].
    apply wp_value; [done|]. intros s'. destruct (last_index _ _) as [i|] eqn:Hi; [|done].
    apply last_index_Some in Hi as [(b & Hi & _) _]. cbn [fmap option_fmap option_map].
    rewrite !(Hsmall i b Hi). done.
Qed.

(** [memcpy], [memmove] (overlap included), [memset] and the fortified copy
    store exactly the bytes C prescribes and return the destination; [memcmp]
    returns a number with the sign of the first difference; [memchr] and [memrchr]
    return the address of the first and the last occurrence or 0; none of them
    changes anything else. *)
Theorem mem_ops_correct `{!CLibLaws} s a b n bs cs : sane s -> getr X0 s = a -> getr X1 s = b -> getr X2 s = n ->
  n = Z.of_nat (length bs) -> 0 < n <= MAX_MEMMOVE_SIZE -> bytes_at s a cs -> length cs = length bs ->
  writable a n s ->
  (bytes_at s b bs ->
   wp memcpy (fun _ => returned s (stored (byte_at s) a bs) a) s /\
   wp memcpy_chk (fun _ => returned s (stored (byte_at s) a bs) a) s /\
   wp memmove (fun _ => returned s (stored (byte_at s) a bs) a) s /\
   wp memcmp (fun _ s' => exists r, returned s (byte_at s) (u64 r) s' /\ - 2 ^ 31 <= r < 2 ^ 31 /\
     (r ?= 0) = bytes_cmp cs bs) s) /\
  (forall c, c = Z.land b 0xFF ->
   wp memset (fun _ => returned s (stored (byte_at s) a (replicate (Z.to_nat n) c)) a) s /\
   wp memchr (fun _ => returned s (byte_at s)
     (match first_index (Z.eqb c) cs with Some i => a + Z.of_nat i | None => 0 end)) s /\
   wp memrchr (fun _ => returned s (byte_at s)
     (match last_index (Z.eqb c) cs with Some i => a + Z.of_nat i | None => 0 end)) s).
Proof.
  intros Hs E0 E1 E2 -> Hn Ha Hlen Hw. pose proof Ha as (Ha0 & Hma & _). rewrite Hlen in Hma.
  assert (Hne : forall l : list Z, length l = length bs -> l <> []) by (intros l Hl ->; cbn in Hl; lia).
  split.
  - intros Hb. destruct (copies_spec s a b bs) as (H1 & H2 & H3); try done; [by apply Hne|].
    split_and!; [done|done|apply H3; lia|]. apply (memcmp_spec s a b cs bs); try done; [by rewrite Hlen|rewrite Hlen; exact Hn].
  - intros c Hc. rewrite <- E1 in Hc. split.
    + apply memset_spec; try done. 
    + apply memchr_spec; try done; [by rewrite Hlen|by apply Hne].
Qed.

(** Above 256 megabytes [memmove] and [memset] do nothing at all and [memcmp]
    calls any two ranges equal: the functions return as if they had worked. *)
Theorem oversized_ignored s n : sane s -> getr X2 s = n -> MAX_MEMMOVE_SIZE < n ->
  0 <= getr X0 s < two64 ->
  wp memmove (fun _ => returned s (byte_at s) (getr X0 s)) s /\
  wp memset (fun _ => returned s (byte_at s) (getr X0 s)) s /\
  wp memcmp (fun _ => returned s (byte_at s) 0) s.
Proof.
  intros Hs E2 Hn H0. unfold memmove, memset, memcmp. assert (Hle : (n <=? MAX_MEMMOVE_SIZE) = false) by (apply Z.leb_gt; lia).
  split_and!; repeat (apply wp_reg; cbv beta); rewrite E2; change MAX_MEMSET_SIZE with MAX_MEMMOVE_SIZE;
    change MAX_MEMCMP_SIZE with MAX_MEMMOVE_SIZE; rewrite Hle, andb_false_r;
    (eapply wp_pure; [reflexivity|]; apply wp_value; [done|]; intros s'); [by rewrite u64_small by u64_lia..|done].
Qed.

End Spec.

(** * The hypotheses hold at a concrete state *)

Lemma text_here x0 x1 x2 a bs : 0x1000 <= a -> a + Z.of_nat (length bs) <= 0x2000 ->
  map (fun i => mem_byte text_mem (a + Z.of_nat i)) (seq 0 (length bs)) = map Some bs ->
  bytes_at (text_regs x0 x1 x2) a bs.
Proof. intros H1 H2 Hb. split_and!; [lia|by apply text_mapped|by apply text_bytes]. Qed.

Lemma text_x x0 x1 x2 : bytes_at (text_regs x0 x1 x2) 0x1110 [120].
Proof. apply text_here; [lia|cbn; lia|by vm_compute]. Qed.
Lemma text_a x0 x1 x2 : bytes_at (text_regs x0 x1 x2) 0x1100 [97].
Proof. apply text_here; [lia|cbn; lia|by vm_compute]. Qed.

Lemma mem_ops_correct_witness :
  wp memmove (fun _ s' => byte_at s' 0x1110 = Some 97 /\ getr X0 s' = 0x1110) (text_regs 0x1110 0x1100 1).
Proof.
  destruct (text_getr 0x1110 0x1100 1) as (E0 & E1 & E2).
  destruct (mem_ops_correct (text_regs 0x1110 0x1100 1) 0x1110 0x1100 1 [97] [120] (text_sane _ _ _) E0 E1 E2 eq_refl
    ltac:(unfold MAX_MEMMOVE_SIZE; lia) (text_x _ _ _) eq_refl I) as (H & _).
  destruct (H (text_a _ _ _)) as (_ & _ & Hm & _). eapply wp_mono; [exact Hm|]. intros u s' Hs'.
  split; [exact (rt_byte _ _ _ _ Hs' 0x1110)|exact (rt_value _ _ _ _ Hs')].
Defined.

Lemma oversized_ignored_witness :
  wp memset (fun _ s' => byte_at s' 0x1100 = byte_at (text_regs 0x1100 0 0x20000000) 0x1100) (text_regs 0x1100 0 0x20000000).
Proof.
  destruct (text_getr 0x1100 0 0x20000000) as (E0 & E1 & E2).
  destruct (oversized_ignored (text_regs 0x1100 0 0x20000000) 0x20000000 (text_sane _ _ _) E2
    ltac:(unfold MAX_MEMMOVE_SIZE; lia) ltac:(rewrite E0; done)) as (_ & H & _).
  eapply wp_mono; [exact H|]. intros u s' Hs'. exact (rt_byte _ _ _ _ Hs' 0x1100).
Defined.
