(* ===== verification/HleTokenSpec.v ===== *)
(** [strtok_r] splits a string: the calls a guest makes one after the other give
    the tokens of the string, in order, each as a string of its own. *)

From S2P Require Import Prelude Env MemoryManager MemorySpec Machine HostAccess HleMonad HleMemOps HleString HleStringSpec.

#[local] Opaque kMaxGuestStringLen.

(** The tokens of [bs] with their offsets: maximal runs without delimiters; [cur]
    is the token being collected, [off] the offset of [bs]. *)
Fixpoint tokens (ds : list Z) (off : nat) (cur : option (nat * list Z)) (bs : list Z) : list (nat * list Z) :=
  match bs with
  | [] => match cur with Some t => [t] | None => [] end
  | b :: rest =>
      if one_of ds b
      then match cur with Some t => [t] | None => [] end ++ tokens ds (S off) None rest
      else tokens ds (S off) (Some (match cur with Some (o, w) => (o, w ++ [b]) | None => (off, [b]) end)) rest
  end.

Example tokens_ex : tokens [47] 0 None [47; 97; 98; 47; 47; 99] = [(1%nat, [97; 98]); (5%nat, [99])].
Proof. reflexivity. Qed.

(** Collecting a token runs to the next delimiter. *)
Lemma tokens_run ds o w : forall bs off,
  tokens ds off (Some (o, w)) bs =
  match first_index (one_of ds) bs with
  | Some k => (o, w ++ take k bs) :: tokens ds (off + k + 1) None (drop (k + 1) bs)
  | None => [(o, w ++ bs)]
  end.
Proof.
  intros bs. revert w. induction bs as [|b bs IH]; intros w off; cbn [tokens first_index].
  - unfold first_index. cbn. by rewrite app_nil_r.
  - unfold first_index. cbn [list_find]. destruct (one_of ds b) eqn:Hb.
    + rewrite decide_True by done. cbn. rewrite app_nil_r. do 2 f_equal. lia.
    + rewrite decide_False by done. rewrite IH. unfold first_index.
      destruct (list_find _ bs) as [[k x]|]; cbn.
      * rewrite <- app_assoc. cbn. do 2 f_equal. lia.
      * by rewrite <- app_assoc.
Qed.

(** Skipping delimiters, then a token. *)
Lemma tokens_split ds : forall bs off,
  tokens ds off None bs =
  match first_index (fun c => negb (one_of ds c)) bs with
  | None => []
  | Some start =>
      match find_first_of ds bs start with
      | Some e => ((off + start)%nat, take (e - start) (drop start bs)) :: tokens ds (off + e + 1) None (drop (e + 1) bs)
      | None => [((off + start)%nat, drop start bs)]
      end
  end.
Proof.
  induction bs as [|b bs IH]; intros off; [done|]. cbn [tokens]. unfold first_index at 1. cbn [list_find].
  destruct (one_of ds b) eqn:Hb.
  - rewrite decide_False by done. cbn [app]. rewrite IH. unfold first_index.
    destruct (list_find _ bs) as [[k x]|]; cbn [fmap option_fmap option_map fst prod_map]; [|done].
    unfold find_first_of. cbn [drop]. destruct (first_index (one_of ds) (drop k bs)) as [j|]; cbn [fmap option_fmap option_map].
    + cbn [Nat.add drop]. replace (Datatypes.S (k + j) - Datatypes.S k)%nat with (k + j - k)%nat by lia.
      replace (off + Datatypes.S k)%nat with (Datatypes.S off + k)%nat by lia.
      replace (off + Datatypes.S (k + j) + 1)%nat with (Datatypes.S off + (k + j) + 1)%nat by lia. done.
    + do 2 f_equal. lia.
  - rewrite decide_True by done. cbn [fmap option_fmap option_map fst]. rewrite tokens_run. unfold find_first_of.
    cbn [drop]. unfold first_index. cbn [list_find]. rewrite decide_False by (by rewrite Hb).
    destruct (list_find _ bs) as [[k x]|]; cbn [fmap option_fmap option_map fst prod_map Nat.add].
    + replace (Datatypes.S k - 0)%nat with (Datatypes.S k) by lia. cbn [take drop app]. rewrite Nat.add_0_r. do 2 f_equal; lia.
    + cbn [app]. by rewrite Nat.add_0_r.
Qed.

Section Spec.
Context {S : Type} `{M : !Machine S, L : !MemLaws S, R : !RegFileLaws S, V : !HostView S, HL : !HostLaws S, C : CLib}.
Implicit Types s : S.

(** The guest's loop: [strtok_r(str, delim, &save)], then with a null pointer
    until it returns null. *)
Fixpoint strtok_all (fuel : nat) (str delim save : Z) : hle S (list Z) :=
  match fuel with
  | O => mret []
  | Datatypes.S fuel' =>
      set_x X0 str ;; set_x X1 delim ;; set_x X2 save ;;
      strtok_r ;;
      r ← get_x X0;
      if r =? 0 then mret []
      else rs ← strtok_all fuel' 0 delim save; mret (r :: rs)
  end.

(** The pointer the next token is searched from. *)
Definition at_pointer s (str save cur : Z) : Prop := (str = cur /\ cur <> 0) \/ (str = 0 /\ word_at s save cur /\ 0 <= cur < two64).

Lemma wp_current {B} str save cur (k : Z -> hle S B) Q s : sane s -> mapped save 8 s -> at_pointer s str save cur ->
  wp (k cur) Q s -> wp ((if str =? 0 then read_u64 save else mret str) ≫= k) Q s.
Proof.
  intros Hs Hm [[-> Hc]|(-> & Hw & Hc)] Hk.
  - rewrite (proj2 (Z.eqb_neq cur 0)) by done. by apply wp_bind, wp_ret.
  - cbn [Z.eqb]. apply wp_bind. unfold read_u64. eapply wp_mem_rd_into; [done|exact Hm| | |exact Hw|].
    + intros H. apply (f_equal length) in H. by rewrite length_le_bytes in H.
    + by rewrite length_le_bytes.
    + apply wp_ret. rewrite le_value_bytes. change (8 * Z.of_nat 8) with 64. rewrite Z.mod_small by exact Hc. exact Hk.
Qed.

Lemma wp_ptr {B} a v (k : unit -> hle S B) Q s0 f s : became s0 f s -> mapped a 8 s0 ->
  (forall s', became s0 (stored f a (le_bytes 8 v)) s' -> wp (k tt) Q s') -> wp (write_ptr a v ≫= k) Q s.
Proof.
  intros Hb Hm. apply (wp_wr a (le_bytes 8 v) k Q s0 f s); [done|by rewrite length_le_bytes|].
  intros H. apply (f_equal length) in H. by rewrite length_le_bytes in H.
Qed.

(** One call, on every branch. *)
Lemma strtok_r_spec s str d save cur bs ds : sane s ->
  getr X0 s = str -> getr X1 s = d -> getr X2 s = save -> mapped save 8 s -> at_pointer s str save cur ->
  str_at s d ds -> str_at s cur bs -> clip bs = bs -> clip ds = ds ->
  wp strtok_r (fun _ s' =>
    match first_index (fun c => negb (one_of ds c)) bs with
    | None => returned s (stored (byte_at s) save (le_bytes 8 0)) 0 s'
    | Some start =>
        match find_first_of ds bs start with
        | Some e => returned s (stored (stored (byte_at s) (cur + Z.of_nat e) [0]) save (le_bytes 8 (cur + Z.of_nat e + 1)))
                      (cur + Z.of_nat start) s'
        | None => returned s (stored (byte_at s) save (le_bytes 8 0)) (cur + Z.of_nat start) s'
        end
    end) s.
Proof.
  intros Hs E0 E1 E2 Hm Hp Hds Hbs Hcl Hcd. pose proof (str_range _ _ _ Hs Hbs) as Hr.
  unfold strtok_r. repeat (apply wp_reg; cbv beta). rewrite E0, E1, E2.
  eapply wp_read_string; [done|exact Hds|]. cbv beta. fold (clip ds). rewrite Hcd.
  eapply wp_current; [done|exact Hm|exact Hp|]. cbv beta. destruct Hbs as (Hc0 & Hmb & Hbz & Hbh).
  rewrite (proj2 (Z.eqb_neq cur 0)) by done.
  eapply wp_read_string; [done|by split_and!|]. cbv beta. fold (clip bs). rewrite Hcl.
  destruct (first_index _ bs) as [start|] eqn:Hst.
  2: { eapply wp_ptr; [by apply became_refl|done|]. intros s1 H1. eapply wp_set; [exact H1|unfold two64; lia|done]. }
  apply first_index_Some in Hst as [(b & Hb & _) _]. apply lookup_lt_Some in Hb.
  rewrite (u64_small (cur + Z.of_nat start)) by u64_lia.
  destruct (find_first_of ds bs start) as [e|] eqn:He.
  - assert (Hlt : (e < length bs)%nat).
    { unfold find_first_of in He. apply fmap_Some in He as (j & Hj & ->). apply first_index_Some in Hj as [(c & Hc & _) _].
      rewrite lookup_drop in Hc. by apply lookup_lt_Some in Hc. }
    rewrite (u64_small (cur + Z.of_nat e)) by u64_lia. rewrite (u64_small (cur + Z.of_nat e + 1)) by u64_lia.
    apply wp_bind. eapply wp_wr; [by apply became_refl|eapply mapped_sub; [exact Hmb|cbn; lia..]|done|]. intros s1 H1.
    unfold write_ptr, wp at 1, mem_wr.
    pose proof (write_became save (le_bytes 8 (cur + Z.of_nat e + 1)) s _ s1 H1) as H2. rewrite length_le_bytes in H2.
    eapply wp_set; [apply H2; [done|]|lia|done].
    intros H. apply (f_equal length) in H. by rewrite length_le_bytes in H.
  - eapply wp_ptr; [by apply became_refl|done|]. intros s1 H1. eapply wp_set; [exact H1|lia|done].
Qed.

(** [s'] has the memory map of [s], and its bytes but for a range. *)
Record same_outside (P : Z -> Prop) s s' : Prop := {
  so_sane : sane s';
  so_map a n : mapped a n s' <-> mapped a n s;
  so_byte x : ~ P x -> byte_at s' x = byte_at s x;
}.

Lemma same_outside_trans (P P' : Z -> Prop) s s1 s2 : same_outside P s s1 -> same_outside P' s1 s2 ->
  (forall x, P' x -> P x) -> same_outside P s s2.
Proof.
  intros [H1 H2 H3] [K1 K2 K3] HP. constructor; [done| |].
  - intros a n. by rewrite K2.
  - intros x Hx. rewrite K3; [by apply H3|]. intros Hx'. by apply Hx, HP.
Qed.

Lemma str_at_outside P s s' a bs : same_outside P s s' -> (forall x, a <= x <= a + Z.of_nat (length bs) -> ~ P x) ->
  str_at s a bs -> str_at s' a bs.
Proof.
  intros [_ Hm Hb] HP (Ha & Hma & Hz & Hh). split_and!; [done|by apply Hm|done|].
  eapply holds_at_ext; [|exact Hh]. intros x Hx. rewrite length_app in Hx. cbn in Hx. symmetry. apply Hb, HP. lia.
Qed.

Lemma str_at_drop s a bs k : 0 <= a -> str_at s a bs -> (k <= length bs)%nat -> str_at s (a + Z.of_nat k) (drop k bs).
Proof.
  intros H0 (Ha & Hm & Hz & Hh) Hk. split_and!.
  - lia.
  - eapply mapped_sub; [exact Hm|..]; rewrite ?length_drop; lia.
  - by apply Forall_drop.
  - rewrite <- (take_drop k bs), <- app_assoc in Hh. apply holds_at_app in Hh as [_ Hh]. by rewrite length_take_le in Hh.
Qed.

Lemma clip_short bs : clip bs = bs <-> Z.of_nat (length bs) <= kMaxGuestStringLen.
Proof.
  unfold clip. pose proof max_len_pos. split.
  - intros H1. apply (f_equal length) in H1. rewrite length_take in H1. lia.
  - intros H1. apply take_ge. lia.
Qed.

(** The guest sets up its arguments. *)
Lemma wp_args {B} a b c (k : hle S B) Q s : sane s -> 0 <= a < two64 -> 0 <= b < two64 -> 0 <= c < two64 ->
  (forall s', same_outside (fun _ => False) s s' -> getr X0 s' = a -> getr X1 s' = b -> getr X2 s' = c -> wp k Q s') ->
  wp (set_x X0 a ;; set_x X1 b ;; set_x X2 c ;; k) Q s.
Proof.
  intros [K1 K2 K3 K4] Ha Hb Hc Hk. unfold wp, mbind, hle_bind, set_x. rewrite !u64_small by done. apply Hk.
  - constructor.
    + constructor; [by do 3 apply ok_putr|by do 3 apply cpu_putr|by do 3 apply host_putr|done].
    + intros x n. by rewrite !mapped_putr.
    + intros x _. by rewrite !byte_putr.
  - rewrite !getr_putr_ne by done. apply getr_putr; [done|by apply K4].
  - rewrite getr_putr_ne by done. apply getr_putr; [by apply cpu_putr|by apply K4].
  - apply getr_putr; [by do 2 apply cpu_putr|by apply K4].
Qed.

Lemma returned_outside s f v s' (P : Z -> Prop) : returned s f v s' -> (forall x, ~ P x -> f x = byte_at s x) -> same_outside P s s'.
Proof. intros [H1 H2 _ H4 _ _] Hf. constructor; [done..|]. intros x Hx. rewrite H4. by apply Hf. Qed.

(** The saved null pointer ends the loop. *)
Lemma strtok_end fuel d save ds s : sane s -> mapped save 8 s -> str_at s d ds -> 0 <= d < two64 -> 0 <= save < two64 ->
  word_at s save 0 ->
  wp (strtok_all (Datatypes.S fuel) 0 d save) (fun rs s' => rs = [] /\ same_outside (fun _ => False) s s') s.
Proof.
  intros Hs Hm Hds Hd Hsv Hw. cbn [strtok_all]. apply wp_args; [done|unfold two64; lia|done|done|]. intros s1 H1 E0 E1 E2.
  assert (Hs1 : sane s1) by apply H1. assert (Hds1 : str_at s1 d ds) by (eapply str_at_outside; [exact H1|naive_solver|done]).
  apply wp_bind. unfold strtok_r. repeat (apply wp_reg; cbv beta). rewrite E0, E1, E2.
  eapply wp_read_string; [done|exact Hds1|]. cbv beta. eapply (wp_current 0 save 0).
  - done.
  - by apply (so_map _ _ _ H1).
  - right. split_and!; [done| |unfold two64; lia..]. eapply holds_at_ext; [|exact Hw]. intros x _. symmetry. apply (so_byte _ _ _ H1). intros [].
  - cbn [Z.eqb]. apply wp_value; [done|]. intros s2 H2. apply wp_reg. rewrite (rt_value _ _ _ _ H2). cbn.
    apply wp_ret. split; [done|]. eapply (same_outside_trans _ (fun _ => False)); [exact H1|exact (returned_outside _ _ _ _ _ H2 (fun _ _ => eq_refl))|done].
Qed.

(** Bytes the loop may change: the rest of the string and the saved pointer. *)
Definition touched (cur : Z) (bs : list Z) (save x : Z) : Prop :=
  cur <= x <= cur + Z.of_nat (length bs) \/ save <= x < save + 8.

(** A token, cut off by the call that found its end. *)
Lemma token_written s s1 s2 cur save bs start e w v : (start <= e < length bs)%nat -> cur + Z.of_nat start <> 0 ->
  str_at s cur bs -> same_outside (fun x => x = cur + Z.of_nat e \/ save <= x < save + 8) s s2 ->
  returned s1 (stored (stored (byte_at s1) (cur + Z.of_nat e) [0]) save w) v s2 ->
  disj save 8 cur (Z.of_nat (length bs) + 1) -> Z.of_nat (length w) = 8 ->
  str_at s2 (cur + Z.of_nat start) (take (e - start) (drop start bs)).
Proof.
  intros Hlt Hnz (_ & Hmb & Hz & Hh) H2o H2 Hj Hw. unfold disj in Hj.
  assert (Hwl : length (take (e - start) (drop start bs)) = (e - start)%nat) by (rewrite length_take, length_drop; lia).
  split_and!.
  - exact Hnz.
  - apply (so_map _ _ _ H2o). eapply mapped_sub; [exact Hmb|lia..].
  - apply Forall_take. by apply Forall_drop.
  - apply holds_at_app. split.
    + intros i x Hi. pose proof (lookup_lt_Some _ _ _ Hi) as Hil. rewrite (so_byte _ _ _ H2o) by (cbv beta; lia).
      rewrite lookup_take_lt, lookup_drop in Hi by lia.
      replace (cur + Z.of_nat start + Z.of_nat i) with (cur + Z.of_nat (start + i)) by lia. apply Hh. by apply lookup_app_l_Some.
    + rewrite Hwl. intros [|i] x Hi; [|done]. cbn in Hi. injection Hi as <-.
      replace (cur + Z.of_nat start + Z.of_nat (e - start) + Z.of_nat 0) with (cur + Z.of_nat e) by lia.
      rewrite (rt_byte _ _ _ _ H2), stored_out by lia.
      pose proof (stored_in (byte_at s1) (cur + Z.of_nat e) [0] 0 0 eq_refl) as Hst. by rewrite Z.add_0_r in Hst.
Qed.

Lemma strtok_loop d save ds a : forall fuel s str off bs, sane s -> mapped save 8 s -> 0 <= d < two64 -> 0 <= save < two64 -> 0 <= a ->
  0 <= str < two64 -> at_pointer s str save (a + Z.of_nat off) -> str_at s d ds -> str_at s (a + Z.of_nat off) bs ->
  clip bs = bs -> clip ds = ds ->
  disj save 8 (a + Z.of_nat off) (Z.of_nat (length bs) + 1) -> disj save 8 d (Z.of_nat (length ds) + 1) ->
  disj (a + Z.of_nat off) (Z.of_nat (length bs) + 1) d (Z.of_nat (length ds) + 1) ->
  (length (tokens ds off None bs) < fuel)%nat ->
  wp (strtok_all fuel str d save) (fun rs s' =>
    rs = map (fun t => a + Z.of_nat t.1) (tokens ds off None bs) /\
    Forall (fun t => str_at s' (a + Z.of_nat t.1) t.2) (tokens ds off None bs) /\
    same_outside (touched (a + Z.of_nat off) bs save) s s') s.
Proof.
  induction fuel as [|fuel IH]; intros s str off bs Hs Hm Hd Hsv Ha Hstr Hp Hds Hbs Hcl Hcd Hj1 Hj2 Hj3 Hfuel; [lia|].
  set (cur := a + Z.of_nat off) in *. pose proof (str_range _ _ _ Hs Hbs) as Hr. cbn [strtok_all].
  apply wp_args; [done..|]. intros s1 H1 E0 E1 E2. assert (Hs1 : sane s1) by apply H1.
  assert (Hsame : forall b l, str_at s b l -> str_at s1 b l) by (intros b l; by eapply str_at_outside; [exact H1|naive_solver]).
  assert (Hm1 : mapped save 8 s1) by (by apply (so_map _ _ _ H1)).
  assert (Hp1 : at_pointer s1 str save cur).
  { destruct Hp as [?|(-> & Hw & Hc)]; [by left|right]. split_and!; [done| |lia..]. eapply holds_at_ext; [|exact Hw].
    intros x _. symmetry. apply (so_byte _ _ _ H1). intros []. }
  apply wp_bind. eapply wp_mono; [eapply (strtok_r_spec s1 str d save cur bs ds); eauto|].
  intros u s2 H2. cbv beta in H2. apply wp_reg. rewrite tokens_split in Hfuel |- *.
  (* a change of the rest and the saved pointer only *)
  assert (Houts : forall P f v s', returned s1 f v s' -> (forall x, ~ P x -> f x = byte_at s1 x) -> same_outside P s s').
  { intros P f v s' Hret Hf. eapply (same_outside_trans P P); [|exact (returned_outside _ _ _ _ _ Hret Hf)|done].
    destruct H1. constructor; [done..|]. intros x _. apply so_byte0. intros []. }
  assert (Hlen8 : forall v, Z.of_nat (length (le_bytes 8 v)) = 8) by (intros v; by rewrite length_le_bytes).
  destruct (first_index _ bs) as [start|] eqn:Hst.
  2: { rewrite (rt_value _ _ _ _ H2). cbn [Z.eqb]. apply wp_ret. split_and!; [done..|]. eapply Houts; [exact H2|].
       intros x Hx. rewrite stored_out; [done|]. rewrite Hlen8. unfold touched in Hx. lia. }
  apply first_index_Some in Hst as [(b & Hb & _) _]. apply lookup_lt_Some in Hb.
  assert (Hnz : (cur + Z.of_nat start =? 0) = false) by (apply Z.eqb_neq; destruct Hbs; lia).
  destruct (find_first_of ds bs start) as [e|] eqn:He.
  - assert (Hlt : (start <= e < length bs)%nat).
    { unfold find_first_of in He. apply fmap_Some in He as (j & Hj & ->). apply first_index_Some in Hj as [(c & Hc & _) _].
      rewrite lookup_drop in Hc. apply lookup_lt_Some in Hc. lia. }
    rewrite (rt_value _ _ _ _ H2), Hnz. set (cur' := a + Z.of_nat (off + e + 1)).
    assert (Ecur' : cur' = cur + Z.of_nat e + 1) by (unfold cur', cur; lia).
    assert (H2o : same_outside (fun x => x = cur + Z.of_nat e \/ save <= x < save + 8) s s2).
    { eapply Houts; [exact H2|]. intros x Hx. rewrite stored_out by (rewrite Hlen8; lia). rewrite stored_out; [done|]. cbn. lia. }
    assert (Hs2 : sane s2) by apply H2o.
    assert (Hrest : str_at s2 cur' (drop (e + 1) bs)).
    { rewrite Ecur'. replace (cur + Z.of_nat e + 1) with (cur + Z.of_nat (e + 1)) by lia.
      eapply str_at_outside; [exact H2o| |apply str_at_drop; [lia|exact Hbs|lia]].
      intros x Hx. rewrite length_drop in Hx. unfold disj in Hj1. cbv beta. lia. }
    apply wp_bind. eapply wp_mono.
    { apply (IH s2 0 (off + e + 1)%nat (drop (e + 1) bs)); fold cur'; [exact Hs2| |exact Hd|exact Hsv|exact Ha|..].
      - by apply (so_map _ _ _ H2o).
      - unfold two64. lia.
      - right. split_and!; [done| |unfold cur' in *; lia..]. unfold word_at. eapply holds_at_ext; [|apply holds_stored].
        intros x Hx. rewrite Hlen8 in Hx. rewrite (rt_byte _ _ _ _ H2), Ecur'. done.
      - eapply str_at_outside; [exact H2o| |exact Hds]. intros x Hx. unfold disj in *. cbv beta. lia.
      - exact Hrest.
      - apply clip_short. rewrite length_drop. apply clip_short in Hcl. lia.
      - exact Hcd.
      - rewrite length_drop. unfold disj in *. lia.
      - exact Hj2.
      - rewrite length_drop. unfold disj in *. lia.
      - cbn [length] in Hfuel. lia. }
    intros rs s3 (-> & Hall & H3). apply wp_ret. cbn [map fst]. split_and!.
    + f_equal. unfold cur. lia.
    + constructor; [|done]. cbn [fst snd]. replace (a + Z.of_nat (off + start)) with (cur + Z.of_nat start) by (unfold cur; lia).
      set (w := take (e - start) (drop start bs)).
      assert (Hwl : length w = (e - start)%nat) by (unfold w; rewrite length_take, length_drop; lia).
      assert (Hw3 : str_at s2 (cur + Z.of_nat start) w).
      { apply (token_written s s1 s2 cur save bs start e (le_bytes 8 (cur + Z.of_nat e + 1)) (cur + Z.of_nat start));
          [lia|by apply Z.eqb_neq|exact Hbs|exact H2o|exact H2|exact Hj1|apply Hlen8]. }
      eapply str_at_outside; [exact H3| |exact Hw3]. intros x Hx. unfold touched. rewrite length_drop. rewrite Hwl in Hx. unfold disj in *. lia.
    + eapply (same_outside_trans _ (touched cur' (drop (e + 1) bs) save)).
      * destruct H2o as [? ? Ho]. constructor; [done..|]. intros x Hx. apply Ho. unfold touched in Hx. cbv beta. lia.
      * exact H3.
      * intros x. unfold touched. rewrite length_drop. lia.
  - rewrite (rt_value _ _ _ _ H2), Hnz. destruct fuel as [|fuel]; [cbn in Hfuel; lia|].
    assert (H2o : same_outside (fun x => save <= x < save + 8) s s2).
    { eapply Houts; [exact H2|]. intros x Hx. rewrite stored_out; [done|]. rewrite Hlen8. lia. }
    apply wp_bind. eapply wp_mono.
    { apply (strtok_end fuel d save ds s2); [apply H2o| | |exact Hd|exact Hsv|].
      - by apply (so_map _ _ _ H2o).
      - eapply str_at_outside; [exact H2o| |exact Hds]. intros x Hx. unfold disj in *. cbv beta. lia.
      - unfold word_at. eapply holds_at_ext; [|apply holds_stored]. intros x Hx. by rewrite (rt_byte _ _ _ _ H2). }
    intros rs s3 (-> & H3). apply wp_ret. cbn [map fst]. split_and!.
    + f_equal. unfold cur. lia.
    + constructor; [|done]. cbn [fst snd]. replace (a + Z.of_nat (off + start)) with (cur + Z.of_nat start) by (unfold cur; lia).
      eapply str_at_outside; [exact H3|naive_solver|]. eapply str_at_outside; [exact H2o| |apply str_at_drop; [lia|exact Hbs|lia]].
      intros x Hx. rewrite length_drop in Hx. unfold disj in *. cbv beta. lia.
    + eapply (same_outside_trans _ (fun _ => False)); [|exact H3|done].
      destruct H2o as [? ? Ho]. constructor; [done..|]. intros x Hx. apply Ho. unfold touched in Hx. cbv beta. lia.
Qed.

End Spec.

Section Claim.
Context {S : Type} `{M : !Machine S, L : !MemLaws S, R : !RegFileLaws S, V : !HostView S, HL : !HostLaws S, C : CLib}.

(** C26: Calling [strtok_r] on a string until it returns null yields the addresses
    of all tokens, in order, and afterwards each token is a NUL-terminated string
    at its address; the loop ends, and nothing but the string and the saved
    pointer is changed. *)
Theorem strtok_tokens fuel a d save bs ds (s : S) : sane s ->
  str_at s a bs -> str_at s d ds -> mapped save 8 s ->
  Z.of_nat (length bs) <= kMaxGuestStringLen -> Z.of_nat (length ds) <= kMaxGuestStringLen ->
  disj save 8 a (Z.of_nat (length bs) + 1) -> disj save 8 d (Z.of_nat (length ds) + 1) ->
  disj a (Z.of_nat (length bs) + 1) d (Z.of_nat (length ds) + 1) ->
  (length (tokens ds 0 None bs) < fuel)%nat ->
  wp (strtok_all fuel a d save) (fun rs s' =>
    rs = map (fun t => a + Z.of_nat t.1) (tokens ds 0 None bs) /\
    Forall (fun t => str_at s' (a + Z.of_nat t.1) t.2) (tokens ds 0 None bs) /\
    same_outside (touched a bs save) s s') s.
Proof.
  intros Hs Hbs Hds Hm Hlb Hld Hj1 Hj2 Hj3 Hf. pose proof (str_range _ _ _ Hs Hbs) as Hr. pose proof (str_range _ _ _ Hs Hds).
  pose proof (mapped_range _ _ _ (sane_mem _ Hs) Hm).
  pose proof (strtok_loop d save ds a fuel s a 0 bs) as Hloop. change (Z.of_nat 0) with 0 in Hloop. rewrite Z.add_0_r in Hloop.
  apply Hloop; try done; try (by apply clip_short); try (unfold two64 in *; lia). left. by destruct Hbs.
Qed.

End Claim.

Lemma strtok_tokens_witness :
  wp (strtok_all 4 0x1100 0x1108 0x1120) (fun rs s' => rs = [0x1100; 0x1104] /\ str_at s' 0x1100 [97; 98] /\ str_at s' 0x1104 [99])
    (text_regs 0 0 0).
Proof.
  eapply wp_mono.
  - apply (strtok_tokens 4 0x1100 0x1108 0x1120 [97; 98; 44; 44; 99] [44] (text_regs 0 0 0)
      (text_sane _ _ _) (text_source _ _ _) (text_comma _ _ _)); [apply text_mapped; lia|..].
    + pose proof max_len_pos. cbn [length]. apply Z.leb_le. reflexivity.
    + apply Z.leb_le. reflexivity.
    + right. cbn. lia.
    + right. cbn. lia.
    + left. cbn. lia.
    + vm_compute. lia.
  - intros rs s' (-> & Hall & _). split; [reflexivity|].
    apply Forall_cons in Hall as [H1 Hall]. apply Forall_cons in Hall as [H2 _]. split; [exact H1|exact H2].
Defined.
