(* ===== verification/Lift.v ===== *)
(** Larger states around guest memory.  The handlers of system calls and of the
    emulated libc run in states that contain the memory manager's [mstate] and
    more; a getter and a setter that undo each other carry the machine, its laws
    and the host's view of memory over to such a state. *)

From S2P Require Import Prelude Env MemoryManager MemorySpec Machine HostAccess.

Section Lift.
Context {E : Env} `{!HostAccess E} {T : Type} (get : T -> mstate) (put : mstate -> T -> T).

Definition lift_machine : Machine T := {|
  gread a n t := gread a n (get t);
  gwrite a bs t := let '(ok, m) := gwrite a bs (get t) in (ok, put m t);
  getr r t := getr r (get t);
  putr r v t := put (putr r v (get t)) t;
|}.

Definition lift_host : HostView T := {|
  null_ptr a t := null_ptr a (get t);
  hbyte a i t := hbyte a i (get t);
  hstore a bs t := match hstore a bs (get t) with Some m => Some (put m t) | None => None end;
  unread a n t := unread a n (get t);
  alloc_ok n t := alloc_ok n (get t);
|}.

Context `{!GuestMemLaws E, !CpuMemLaws E, !RegLaws E, !HostAccessLaws E} (get_put : forall m t, get (put m t) = m).

#[local] Existing Instance lift_machine.
#[local] Existing Instance lift_host.

Definition lift_laws : MemLaws T.
Proof.
  refine {| mem_ok t := mem_ok (get t); mapped a n t := mapped a n (get t); byte_at t := byte_at (get t) |}.
  - intros a n t. exact (mapped_range a n (get t)).
  - intros a n b m t. exact (mapped_sub a n b m (get t)).
  - intros a n t. exact (gread_mapped a n (get t)).
  - intros a bs t Hok Hm Hne. destruct (gwrite_mapped a bs (get t) Hok Hm Hne) as (m' & Hw & Hr).
    exists (put m' t). unfold gwrite, lift_machine. rewrite Hw, get_put. done.
Defined.
#[local] Existing Instance lift_laws.

Definition lift_regs : RegFileLaws T.
Proof.
  refine {| cpu_ok t := cpu_ok (get t); fits := (fits : Z -> Z -> Prop) |}; unfold getr, putr, gwrite, lift_machine.
  - intros r v t. rewrite get_put. exact (getr_putr r v (get t)).
  - intros r r' v t. rewrite get_put. exact (getr_putr_ne r r' v (get t)).
  - intros r a bs t. pose proof (getr_gwrite r a bs (get t)) as H. destruct (gwrite a bs (get t)). cbn. by rewrite get_put.
  - intros r v t. rewrite get_put. exact (cpu_putr r v (get t)).
  - intros a bs t H. pose proof (cpu_gwrite a bs (get t) H) as H'. destruct (gwrite a bs (get t)). cbn. by rewrite get_put.
  - intros r v t. cbn. rewrite get_put. exact (ok_putr r v (get t)).
  - intros r v a n t. cbn. rewrite get_put. exact (mapped_putr r v a n (get t)).
  - intros r v x t. cbn. rewrite get_put. exact (byte_putr r v x (get t)).
Defined.
#[local] Existing Instance lift_regs.

Definition lift_host_laws : HostLaws T.
Proof.
  refine {| host_ok t := host_ok (get t); writable a n t := writable a n (get t) |};
    unfold null_ptr, hbyte, hstore, gwrite, putr, lift_host, lift_machine.
  - intros a n t. exact (ptr_mapped a n (get t)).
  - intros a n i t. exact (hbyte_mapped a n i (get t)).
  - intros a bs t H1 H2 H3 H4 H5 H6 H7.
    destruct (hstore_writable a bs (get t) H1 H2 H3 H4 H5 H6 H7) as (m & -> & ->). eauto.
  - intros a n b m t. exact (writable_sub a n b m (get t)).
  - intros a bs t H. pose proof (host_gwrite a bs (get t) H) as H'. destruct (gwrite a bs (get t)). cbn. by rewrite get_put.
  - intros r v t. rewrite get_put. exact (host_putr r v (get t)).
  - intros a bs b m t. pose proof (writable_gwrite a bs b m (get t)) as H. destruct (gwrite a bs (get t)). cbn. by rewrite get_put.
  - intros r v b m t. rewrite get_put. exact (writable_putr r v b m (get t)).
Defined.

End Lift.
