(* ===== verification/SyscallHandler.v ===== *)
(** [SyscallHandler] (src/src/syscall_handler.cpp, include/syscall_handler.h): the
    system calls the hook does not leave to QEMU.  Virtual files behind
    descriptors, the program break, futex queues on top of the thread manager,
    and calls that are passed on to the host.

    The methods are programs of the handler monad over [sstate]: the handler's
    own fields, the thread manager with guest memory, the program break (a
    function-local static of include/hle_brk_state.h), the thread's running flag,
    what was written to the two standard streams and the host.  [Segv] is an
    access outside a host object or the use of an indeterminate value, [Thrown] a
    C++ exception.  Logging is left out. *)

From S2P Require Import Prelude Env HeapAllocator MemoryManager MemorySpec Machine HostAccess HleMonad Lift ThreadTypes Scheduler.

(** What the handler asks of the host.  A call gives a value or an [errno]. *)
Inductive sysret (A : Type) := Done (a : A) | Errno (e : Z).
Arguments Done {A}.
Arguments Errno {A}.

(** How the child of [sys_execve] ended; [fork] may fail. *)
Inductive ChildEnd := ForkFailed (e : Z) | Exited (code : Z) | Signaled (sig : Z) | OtherEnd.

Class HostOs := {
  os : Type;
  os_pipe : os -> sysret (Z * Z) * os;
  os_socket : Z -> Z -> Z -> os -> sysret Z * os;
  os_connect : Z -> list Z -> os -> sysret unit * os;
  os_bind : Z -> list Z -> os -> sysret unit * os;
  os_listen : Z -> Z -> os -> sysret unit * os;
  (** These fill a buffer of a given size and say how long the address or option
      is, which may be more. *)
  os_accept : Z -> Z -> os -> sysret (Z * list Z * Z) * os;
  os_getsockname : Z -> Z -> os -> sysret (list Z * Z) * os;
  os_getpeername : Z -> Z -> os -> sysret (list Z * Z) * os;
  os_getsockopt : Z -> Z -> Z -> Z -> os -> sysret (list Z * Z) * os;
  os_setsockopt : Z -> Z -> Z -> list Z -> os -> sysret unit * os;
  (** descriptor, data, flags, address with the length passed for it. *)
  os_sendto : Z -> list Z -> Z -> option (list Z) -> Z -> os -> sysret Z * os;
  (** descriptor, length, flags, size of the address buffer: the bytes received
      (no more than asked for), the address buffer and the address length. *)
  os_recvfrom : Z -> Z -> Z -> option Z -> os -> sysret (list Z * list Z * Z) * os;
  (** [clock_gettime(CLOCK_REALTIME)]: seconds and nanoseconds. *)
  os_realtime : os -> (Z * Z) * os;
  (** The next number of a freshly seeded [std::mt19937_64]. *)
  os_gen64 : os -> Z * os;
  (** The first 20 bytes of a file, if it can be opened and is that long. *)
  os_file_head : list Z -> os -> option (list Z);
  os_getenv_shim_path : os -> option (list Z);
  os_readlink_exe : os -> option (list Z);
  (** [fork]; in the child [execve(path, argv, envp)] or [_exit(127)]; [waitpid]. *)
  os_run_child : list Z -> list (list Z) -> list (list Z) -> os -> ChildEnd * os;
  (** How many strings a vector can hold before [push_back] throws. *)
  vector_limit : nat;
}.
#[global] Arguments os {_}.

(** * State *)

Record VirtualFd := { vf_fd : Z; vf_path : list Z; vf_data : list Z; vf_position : Z; vf_is_open : bool }.
Record FutexWaiter := { fw_thread_id : Z; fw_bitset : Z; fw_return_addr : Z }.

Definition eta_vfd (v : VirtualFd) : VirtualFd :=
  Build_VirtualFd (vf_fd v) (vf_path v) (vf_data v) (vf_position v) (vf_is_open v).
#[export] Instance set_vf_position : Setter vf_position := ltac:(build_setter eta_vfd vf_position).

Record SyscallHandler := {
  virtual_files_ : gmap (list Z) (list Z);
  open_fds_ : gmap Z VirtualFd;
  next_fd_ : Z;
  current_brk_ : Z;
  futex_waiters_ : gmap Z (list FutexWaiter);
}.

Definition eta_sy (h : SyscallHandler) : SyscallHandler :=
  Build_SyscallHandler (virtual_files_ h) (open_fds_ h) (next_fd_ h) (current_brk_ h) (futex_waiters_ h).
#[export] Instance set_virtual_files_ : Setter virtual_files_ := ltac:(build_setter eta_sy virtual_files_).
#[export] Instance set_open_fds_ : Setter open_fds_ := ltac:(build_setter eta_sy open_fds_).
#[export] Instance set_next_fd_ : Setter next_fd_ := ltac:(build_setter eta_sy next_fd_).
#[export] Instance set_futex_waiters_ : Setter futex_waiters_ := ltac:(build_setter eta_sy futex_waiters_).

Definition str_bytes (x : string) : list Z := map (fun c => Z.of_nat (Ascii.nat_of_ascii c)) (String.list_ascii_of_string x).

(** The constructor: standard input, output and error are open, without data. *)
Definition new_handler : SyscallHandler :=
  let std fd path := {| vf_fd := fd; vf_path := str_bytes path; vf_data := []; vf_position := 0; vf_is_open := true |} in
  {| virtual_files_ := ∅;
     open_fds_ := <[2 := std 2 "/dev/stderr"]> (<[1 := std 1 "/dev/stdout"]> (<[0 := std 0 "/dev/stdin"]> ∅));
     next_fd_ := 3; current_brk_ := HEAP_BASE; futex_waiters_ := ∅ |}.

Definition add_virtual_file (path data : list Z) (h : SyscallHandler) : SyscallHandler :=
  h <| virtual_files_ ::= <[path := data]> |>.

(** include/hle_brk_state.h *)
Record GuestBrkState := { initial_brk : Z; current_brk : Z }.
Definition guest_brk_initialize (brk : Z) (b : GuestBrkState) : GuestBrkState :=
  {| initial_brk := if initial_brk b =? 0 then brk else initial_brk b;
     current_brk := if current_brk b =? 0 then brk else current_brk b |}.

Definition X4 : Z := 4.
Definition X5 : Z := 5.

Definition FUTEX_WAIT : Z := 0.
Definition FUTEX_WAKE : Z := 1.
Definition FUTEX_REQUEUE : Z := 3.
Definition FUTEX_CMP_REQUEUE : Z := 4.
Definition FUTEX_WAKE_OP : Z := 5.
Definition FUTEX_WAIT_BITSET : Z := 9.
Definition FUTEX_WAKE_BITSET : Z := 10.
Definition FUTEX_CMD_MASK : Z := Z.lnot (Z.lor 128 256).
Definition FUTEX_BITSET_MATCH_ANY : Z := 0xFFFFFFFF.

Section Handler.
Context {E : Env} `{!HostAccess E} {HO : HostOs}.

Record sstate := {
  sy : SyscallHandler;
  th : tstate;
  sy_brk : GuestBrkState;
  sy_running : bool;
  cout : list Z;
  cerr : list Z;
  sy_os : os;
}.

Definition eta_ss (s : sstate) : sstate :=
  Build_sstate (sy s) (th s) (sy_brk s) (sy_running s) (cout s) (cerr s) (sy_os s).
#[export] Instance set_sy : Setter sy := ltac:(build_setter eta_ss sy).
#[export] Instance set_th : Setter th := ltac:(build_setter eta_ss th).
#[export] Instance set_sy_brk : Setter sy_brk := ltac:(build_setter eta_ss sy_brk).
#[export] Instance set_sy_running : Setter sy_running := ltac:(build_setter eta_ss sy_running).
#[export] Instance set_cout : Setter cout := ltac:(build_setter eta_ss cout).
#[export] Instance set_cerr : Setter cerr := ltac:(build_setter eta_ss cerr).
#[export] Instance set_sy_os : Setter sy_os := ltac:(build_setter eta_ss sy_os).

Definition ss_mem (s : sstate) : mstate := ms (th s).
Definition ss_put (m : mstate) (s : sstate) : sstate := s <| th ::= fun t => t <| ms := m |> |>.

#[export] Instance sstate_machine : Machine sstate := lift_machine ss_mem ss_put.
#[export] Instance sstate_host : HostView sstate := lift_host ss_mem ss_put.

Notation prog := (hle sstate).

Definition gets {A} (f : sstate -> A) : prog A := fun s => Ret (f s) s.
Definition modify (f : sstate -> sstate) : prog unit := fun s => Ret tt (f s).
Definition segv {A} : prog A := fun _ => Segv.
Definition throw {A} : prog A := fun s => Thrown s.
Definition os_call {A} (f : os -> A * os) : prog A := fun s =>
  let '(a, o) := f (sy_os s) in Ret a (s <| sy_os := o |>).

(** The first [n] bytes of a host buffer. *)
Definition prefix_of_buffer (buf : list Z) (n : Z) : prog (list Z) :=
  if n <=? Z.of_nat (length buf) then mret (take (Z.to_nat n) buf) else segv.

(** [memory_.read] into an uninitialised variable of [n] bytes. *)
Definition read_var (a n : Z) : prog Z :=
  bs ← mem_rd a n; match bs with Some bs => mret (le_value bs) | None => segv end.

(** [read_string]'s loop, for [n] more bytes. *)
Fixpoint sys_read_string (n : nat) (address : Z) : prog (list Z) :=
  match n with
  | O => mret []
  | S n' =>
      c ← mem_rd address 1;
      match c with
      | Some [b] => if b =? 0 then mret [] else rest ← sys_read_string n' (address ⊕ 1); mret (b :: rest)
      | _ => mret []
      end
  end.
Definition PATH_LIMIT : nat := Z.to_nat 4096.

Definition allocate_fd : prog Z := fun s =>
  Ret (next_fd_ (sy s)) (s <| sy ::= fun h => h <| next_fd_ := s32 (next_fd_ h + 1) |> |>).

(** * Files *)

Definition sys_read (fd buf count : Z) : prog Z :=
  vfd ← gets (fun s => open_fds_ (sy s) !! fd);
  match vfd with
  | None => mret (-9)
  | Some vfd =>
      let size := Z.of_nat (length (vf_data vfd)) in
      if size =? 0 then mret 0
      else
        let available := size ⊖ vf_position vfd in
        let to_read := Z.min count available in
        (if 0 <? to_read
         then (if vf_position vfd + to_read <=? size
               then mem_wr buf (take (Z.to_nat to_read) (drop (Z.to_nat (vf_position vfd)) (vf_data vfd)))
               else segv);;
              modify (fun s => s <| sy ::= fun h => h <| open_fds_ ::=
                        alter (fun v => v <| vf_position := vf_position v ⊕ to_read |>) fd |> |>)
         else mret tt);;
        mret (s64 to_read)
  end.

Definition sys_write (fd buf count : Z) : prog Z :=
  if (fd =? 1) || (fd =? 2)
  then
    new_buffer count;;
    data ← mem_rd_into buf count;
    modify (fun s => if fd =? 1 then s <| cout ::= fun o => o ++ data |> else s <| cerr ::= fun o => o ++ data |>);;
    mret (s64 count)
  else mret (-9).

Definition sys_openat (dirfd pathname flags mode : Z) : prog Z :=
  path ← sys_read_string PATH_LIMIT pathname;
  file ← gets (fun s => virtual_files_ (sy s) !! path);
  match file with
  | Some data =>
      fd ← allocate_fd;
      modify (fun s => s <| sy ::= fun h => h <| open_fds_ ::=
                <[fd := {| vf_fd := fd; vf_path := path; vf_data := data; vf_position := 0; vf_is_open := true |}]> |> |>);;
      mret fd
  | None => mret (-2)
  end.

Definition sys_close (fd : Z) : prog Z :=
  vfd ← gets (fun s => open_fds_ (sy s) !! fd);
  match vfd with
  | None => mret (-9)
  | Some _ => modify (fun s => s <| sy ::= fun h => h <| open_fds_ ::= delete fd |> |>);; mret 0
  end.

Definition sys_lseek (fd offset whence : Z) : prog Z :=
  vfd ← gets (fun s => open_fds_ (sy s) !! fd);
  match vfd with
  | None => mret (-9)
  | Some vfd =>
      let seek new_pos :=
        modify (fun s => s <| sy ::= fun h => h <| open_fds_ ::= alter (fun v => v <| vf_position := new_pos |>) fd |> |>);;
        mret (s64 new_pos) in
      if whence =? 0 then seek (u64 offset)
      else if whence =? 1 then seek (vf_position vfd ⊕ offset)
      else if whence =? 2 then seek (Z.of_nat (length (vf_data vfd)) ⊕ offset)
      else mret (-22)
  end.

(** * Memory *)

Definition on_mem {A} (f : mstate -> A * mstate) : prog A := fun s =>
  let '(a, m) := f (ss_mem s) in Ret a (ss_put m s).
Definition zero_mem (a n : Z) : prog unit := on_mem (zero_ a n);; mret tt.

Definition sys_mmap (addr len prot flags fd off : Z) : prog Z :=
  result ← on_mem (allocate_guest_memory len PAGE_SIZE);
  if result =? 0 then mret (-12) else zero_mem result len;; mret (s64 result).
Definition sys_mprotect (addr len prot : Z) : prog Z := mret 0.
Definition sys_munmap (addr len : Z) : prog Z := on_mem (fun m => (tt, free_guest_memory addr m));; mret 0.

Definition INTPTR_MAX : Z := 2 ^ 63 - 1.
Definition sys_brk (addr : Z) : prog Z :=
  modify (fun s => s <| sy_brk ::= guest_brk_initialize (base_ (heap_ (mm (ss_mem s)))) |>);;
  current ← gets (fun s => current_brk (sy_brk s));
  if addr =? 0 then mret (s64 current)
  else if INTPTR_MAX <? addr then mret (s64 current)
  else modify (fun s => s <| sy_brk ::= fun b => {| initial_brk := initial_brk b; current_brk := addr |} |>);; mret (s64 addr).

Definition sys_fstat (fd statbuf : Z) : prog Z :=
  zero_mem statbuf 128;;
  if (0 <=? fd) && (fd <=? 2)
  then
    mem_wr (statbuf ⊕ 16) (le_bytes 4 0x21B6);;
    mem_wr (statbuf ⊕ 20) (le_bytes 4 1);;
    mem_wr (statbuf ⊕ 32) (le_bytes 8 0x0500);;
    mem_wr (statbuf ⊕ 56) (le_bytes 8 1024);;
    mret 0
  else
    vfd ← gets (fun s => open_fds_ (sy s) !! fd);
    match vfd with
    | None => mret (-9)
    | Some vfd =>
        mem_wr (statbuf ⊕ 16) (le_bytes 4 0x81A4);;
        mem_wr (statbuf ⊕ 20) (le_bytes 4 1);;
        mem_wr (statbuf ⊕ 48) (le_bytes 8 (Z.of_nat (length (vf_data vfd))));;
        mem_wr (statbuf ⊕ 56) (le_bytes 8 4096);;
        mret 0
    end.

(** [Emulator::stop]. *)
Definition emu_stop : prog unit := modify (fun s => s <| sy_running := false |>).

Definition sys_exit (status : Z) : prog Z := set_x X0 status;; emu_stop;; mret status.

(** * Futexes *)

Definition futex_wait (uaddr expected bitset timeout : Z) : prog Z :=
  bs ← mem_rd_into uaddr 4;
  if negb (le_value bs =? expected) then mret (-11)
  else
    alone ← gets (fun s => negb (threading_enabled_ (tm (th s))) || (Z.of_nat (get_thread_count (th s)) <=? 1));
    if (alone : bool) then mret 0
    else
      modify (fun s =>
        let waiter := {| fw_thread_id := get_current_thread_id (th s); fw_bitset := bitset; fw_return_addr := 0 |} in
        s <| sy ::= fun h => h <| futex_waiters_ ::= fun q => <[uaddr := default [] (q !! uaddr) ++ [waiter]]> q |> |>);;
      modify (fun s => s <| th ::= block_on_futex uaddr |>);;
      mret 0.

(** The loop over a queue: the waiters that stay, the threads woken, in order. *)
Fixpoint wake_waiters (count bitset woken : Z) (waiters : list FutexWaiter) : list FutexWaiter * list Z :=
  match waiters with
  | [] => ([], [])
  | w :: rest =>
      if u32 woken <? count
      then if negb (Z.land (fw_bitset w) bitset =? 0)
           then let '(stay, ids) := wake_waiters count bitset (woken + 1) rest in (stay, fw_thread_id w :: ids)
           else let '(stay, ids) := wake_waiters count bitset woken rest in (w :: stay, ids)
      else (waiters, [])
  end.

Definition futex_wake (uaddr count bitset : Z) : prog Z :=
  q ← gets (fun s => default [] (futex_waiters_ (sy s) !! uaddr));
  let '(stay, ids) := wake_waiters count bitset 0 q in
  if bool_decide (q = []) then mret 0
  else
    modify (fun s => s <| th ::= fun t => foldl (fun t id => unblock_from_futex id t) t ids |>
                       <| sy ::= fun h => h <| futex_waiters_ ::= fun m =>
                            if bool_decide (stay = []) then delete uaddr m else <[uaddr := stay]> m |> |>);;
    mret (Z.of_nat (length ids)).

Definition sys_futex (uaddr op val timeout uaddr2 val3 : Z) : prog Z :=
  let cmd := Z.land op FUTEX_CMD_MASK in
  if cmd =? FUTEX_WAIT then futex_wait uaddr val FUTEX_BITSET_MATCH_ANY timeout
  else if cmd =? FUTEX_WAKE then futex_wake uaddr val FUTEX_BITSET_MATCH_ANY
  else if cmd =? FUTEX_WAIT_BITSET then futex_wait uaddr val val3 timeout
  else if cmd =? FUTEX_WAKE_BITSET then futex_wake uaddr val val3
  else if (cmd =? FUTEX_REQUEUE) || (cmd =? FUTEX_CMP_REQUEUE) then futex_wake uaddr val FUTEX_BITSET_MATCH_ANY
  else if cmd =? FUTEX_WAKE_OP
  then woken ← futex_wake uaddr val FUTEX_BITSET_MATCH_ANY;
       woken2 ← futex_wake uaddr2 val3 FUTEX_BITSET_MATCH_ANY;
       mret (s32 (woken + woken2))
  else mret 0.

(** * Time, randomness, terminals *)

Definition sys_clock_gettime (clk_id tp : Z) : prog Z :=
  t ← os_call os_realtime;
  mem_wr tp (le_bytes 8 t.1);; mem_wr (tp ⊕ 8) (le_bytes 8 t.2);; mret 0.

Definition sys_gettimeofday (tv tz : Z) : prog Z :=
  t ← os_call os_realtime;
  mem_wr tv (le_bytes 8 t.1);; mem_wr (tv ⊕ 8) (le_bytes 8 (Z.quot t.2 1000));; mret 0.

(** [rounds] numbers, cut to [left] bytes. *)
Fixpoint random_bytes (rounds : nat) (left : Z) : prog (list Z) :=
  match rounds with
  | O => mret []
  | S r => val ← os_call os_gen64; rest ← random_bytes r (left - 8);
           mret (take (Z.to_nat (Z.min left 8)) (le_bytes 8 val) ++ rest)
  end.
Definition sys_getrandom (buf buflen flags : Z) : prog Z :=
  new_buffer buflen;;
  data ← random_bytes (Z.to_nat ((buflen + 7) / 8)) buflen;
  mem_wr buf data;; mret (s64 buflen).

Definition sys_prctl (option arg2 arg3 arg4 arg5 : Z) : prog Z := mret 0.
Definition sys_madvise (addr len advice : Z) : prog Z := mret 0.
Definition sys_rt_sigaction (sig act oact sigsetsize : Z) : prog Z := mret 0.
Definition sys_rt_sigprocmask (how set oset sigsetsize : Z) : prog Z := mret 0.

Definition sys_ioctl (fd request arg : Z) : prog Z :=
  if request =? 0x5413
  then mem_wr arg (le_bytes 2 24 ++ le_bytes 2 80 ++ le_bytes 2 0 ++ le_bytes 2 0);; mret 0
  else if request =? 0x5401 then zero_mem arg 60;; mret 0
  else if (0 <=? fd) && (fd <=? 2) then mret 0
  else mret (-25).

(** Entries [i], [i + 1], ... of an iovec array, [n] of them. *)
Fixpoint writev_loop (n : nat) (fd iov i total : Z) : prog Z :=
  match n with
  | O => mret total
  | S n' =>
      base ← read_var (iov ⊕ s32 (i * 16)) 8;
      len ← read_var (iov ⊕ s32 (i * 16) ⊕ 8) 8;
      if 0 <? len
      then written ← sys_write fd base len;
           if written <? 0 then mret written else writev_loop n' fd iov (i + 1) (s64 (total + written))
      else writev_loop n' fd iov (i + 1) total
  end.
Definition sys_writev (fd iov iovcnt : Z) : prog Z := writev_loop (Z.to_nat iovcnt) fd iov 0 0.

(** * Calls of the host *)

Definition sys_pipe2 (pipefd flags : Z) : prog Z :=
  r ← os_call os_pipe;
  match r with
  | Errno e => mret (- e)
  | Done (fd0, fd1) => mem_wr pipefd (le_bytes 4 fd0);; mem_wr (pipefd ⊕ 4) (le_bytes 4 fd1);; mret 0
  end.

Definition sys_socket (domain type protocol : Z) : prog Z :=
  r ← os_call (os_socket domain type protocol);
  match r with Errno e => mret (- e) | Done fd => mret fd end.

(** The value of a call that only succeeds or fails. *)
Definition unit_result (r : sysret unit) : Z := match r with Errno e => - e | Done _ => 0 end.

Definition sys_connect (sockfd addr addrlen : Z) : prog Z :=
  new_buffer addrlen;; sockaddr ← mem_rd_into addr addrlen;
  r ← os_call (os_connect sockfd sockaddr); mret (unit_result r).

Definition sys_bind (sockfd addr addrlen : Z) : prog Z :=
  new_buffer addrlen;; sockaddr ← mem_rd_into addr addrlen;
  r ← os_call (os_bind sockfd sockaddr); mret (unit_result r).

Definition sys_listen (sockfd backlog : Z) : prog Z :=
  r ← os_call (os_listen sockfd backlog); mret (unit_result r).

(** Copies the address or option out: [len] bytes of the buffer, and [len]. *)
Definition sys_accept (sockfd addr addrlen : Z) : prog Z :=
  len ← (if addrlen =? 0 then mret 0 else read_var addrlen 4);
  new_buffer len;;
  r ← os_call (os_accept sockfd len);
  match r with
  | Errno e => mret (- e)
  | Done (fd, buf, len') =>
      (if negb (addr =? 0) && (0 <? len') then bs ← prefix_of_buffer buf len'; mem_wr addr bs else mret tt);;
      (if addrlen =? 0 then mret tt else mem_wr addrlen (le_bytes 4 len'));;
      mret fd
  end.

(** The three calls that differ in the host call only. *)
Definition fill_and_copy (f : Z -> os -> sysret (list Z * Z) * os) (addr addrlen : Z) : prog Z :=
  len ← read_var addrlen 4;
  new_buffer len;;
  r ← os_call (f len);
  match r with
  | Errno e => mret (- e)
  | Done (buf, len') =>
      bs ← prefix_of_buffer buf len'; mem_wr addr bs;; mem_wr addrlen (le_bytes 4 len');; mret 0
  end.
Definition sys_getsockname (sockfd addr addrlen : Z) : prog Z := fill_and_copy (os_getsockname sockfd) addr addrlen.
Definition sys_getpeername (sockfd addr addrlen : Z) : prog Z := fill_and_copy (os_getpeername sockfd) addr addrlen.
Definition sys_getsockopt (sockfd level optname optval optlen : Z) : prog Z :=
  fill_and_copy (os_getsockopt sockfd level optname) optval optlen.

Definition sys_sendto (sockfd buf len flags dest_addr addrlen : Z) : prog Z :=
  new_buffer len;; data ← mem_rd_into buf len;
  addr ← (if dest_addr =? 0 then mret None
          else new_buffer addrlen;; bs ← mem_rd_into dest_addr addrlen; mret (Some bs));
  r ← os_call (os_sendto sockfd data flags addr addrlen);
  match r with Errno e => mret (- e) | Done n => mret n end.

Definition sys_recvfrom (sockfd buf len flags src_addr addrlen : Z) : prog Z :=
  new_buffer len;;
  alen ← (if negb (src_addr =? 0) && negb (addrlen =? 0)
          then n ← read_var addrlen 4; new_buffer n;; mret (Some n) else mret None);
  r ← os_call (os_recvfrom sockfd len flags alen);
  match r with
  | Errno e => mret (- e)
  | Done (data, abuf, alen') =>
      mem_wr buf data;;
      (if negb (src_addr =? 0) && (0 <? alen') then bs ← prefix_of_buffer abuf alen'; mem_wr src_addr bs else mret tt);;
      (if addrlen =? 0 then mret tt else mem_wr addrlen (le_bytes 4 alen'));;
      mret (Z.of_nat (length data))
  end.

Definition sys_setsockopt (sockfd level optname optval optlen : Z) : prog Z :=
  new_buffer optlen;; bs ← mem_rd_into optval optlen;
  r ← os_call (os_setsockopt sockfd level optname bs); mret (unit_result r).

(** * Programs *)

(** The header of a 64-bit ELF file for AArch64. *)
Definition is_arm64_header (h : list Z) : bool :=
  bool_decide (take 5 h = [0x7f; 69; 76; 70; 2]) && (Z.lor (nth 18 h 0) (Z.shiftl (nth 19 h 0) 8) =? 183).
Definition is_arm64_elf (path : list Z) : prog bool :=
  h ← gets (fun s => os_file_head path (sy_os s));
  mret (match h with Some h => is_arm64_header h | None => false end).

(** Strings up to the null pointer; after [n] of them [push_back] throws. *)
Fixpoint read_string_array (n : nat) (array_addr : Z) : prog (list (list Z)) :=
  match n with
  | O => throw
  | S n' =>
      p ← mem_rd_into array_addr 8;
      if le_value p =? 0 then mret []
      else str ← sys_read_string PATH_LIMIT (le_value p);
           rest ← read_string_array n' (array_addr ⊕ 8);
           mret (str :: rest)
  end.
Definition string_array (array_addr : Z) : prog (list (list Z)) :=
  if array_addr =? 0 then mret [] else read_string_array vector_limit array_addr.

Definition get_cross_shim_path : prog (list Z) :=
  gets (fun s => match os_getenv_shim_path (sy_os s) with
                 | Some (c :: p) => c :: p
                 | _ => match os_readlink_exe (sy_os s) with
                        | Some (c :: p) => c :: p
                        | _ => str_bytes "cross_shim"
                        end
                 end).

Definition sys_execve (pathname argv envp : Z) : prog Z :=
  path ← sys_read_string PATH_LIMIT pathname;
  is_arm64 ← is_arm64_elf path;
  argv_vec ← string_array argv;
  envp_vec ← string_array envp;
  shim_path ← get_cross_shim_path;
  let program := if (is_arm64 : bool) then shim_path else path in
  let exec_argv := if is_arm64 then shim_path :: path :: drop 1 argv_vec else argv_vec in
  r ← os_call (os_run_child program exec_argv envp_vec);
  match r with
  | ForkFailed e => mret (- e)
  | Exited code => emu_stop;; mret code
  | Signaled sig => emu_stop;; mret (- sig)
  | OtherEnd => mret 0
  end.

Definition sys_execveat (dirfd pathname argv envp flags : Z) : prog Z := sys_execve pathname argv envp.

(** * Dispatch *)

Definition SYS_IOCTL : Z := 29.
Definition SYS_OPENAT : Z := 56.
Definition SYS_CLOSE : Z := 57.
Definition SYS_PIPE2 : Z := 59.
Definition SYS_LSEEK : Z := 62.
Definition SYS_READ : Z := 63.
Definition SYS_WRITE : Z := 64.
Definition SYS_WRITEV : Z := 66.
Definition SYS_FSTAT : Z := 80.
Definition SYS_EXIT : Z := 93.
Definition SYS_EXIT_GROUP : Z := 94.
Definition SYS_FUTEX : Z := 98.
Definition SYS_CLOCK_GETTIME : Z := 113.
Definition SYS_SCHED_YIELD : Z := 124.
Definition SYS_RT_SIGACTION : Z := 134.
Definition SYS_RT_SIGPROCMASK : Z := 135.
Definition SYS_PRCTL : Z := 167.
Definition SYS_GETTIMEOFDAY : Z := 169.
Definition SYS_GETPID : Z := 172.
Definition SYS_GETUID : Z := 174.
Definition SYS_GETEUID : Z := 175.
Definition SYS_GETGID : Z := 176.
Definition SYS_GETEGID : Z := 177.
Definition SYS_GETTID : Z := 178.
Definition SYS_SOCKET : Z := 198.
Definition SYS_BIND : Z := 200.
Definition SYS_LISTEN : Z := 201.
Definition SYS_ACCEPT : Z := 202.
Definition SYS_CONNECT : Z := 203.
Definition SYS_GETSOCKNAME : Z := 204.
Definition SYS_GETPEERNAME : Z := 205.
Definition SYS_SENDTO : Z := 206.
Definition SYS_RECVFROM : Z := 207.
Definition SYS_SETSOCKOPT : Z := 208.
Definition SYS_GETSOCKOPT : Z := 209.
Definition SYS_BRK : Z := 214.
Definition SYS_MUNMAP : Z := 215.
Definition SYS_EXECVE : Z := 221.
Definition SYS_MMAP : Z := 222.
Definition SYS_MPROTECT : Z := 226.
Definition SYS_MADVISE : Z := 233.
Definition SYS_GETRANDOM : Z := 278.
Definition SYS_EXECVEAT : Z := 281.

(** [SyscallHandler::handle]'s switch; integer parameters narrower than the
    registers are converted at the call. *)
Definition dispatch_syscall (n a0 a1 a2 a3 a4 a5 : Z) : prog Z :=
  if n =? SYS_READ then sys_read (s32 a0) a1 a2
  else if n =? SYS_WRITE then sys_write (s32 a0) a1 a2
  else if n =? SYS_OPENAT then sys_openat (s32 a0) a1 (s32 a2) (s32 a3)
  else if n =? SYS_CLOSE then sys_close (s32 a0)
  else if n =? SYS_LSEEK then sys_lseek (s32 a0) (s64 a1) (s32 a2)
  else if n =? SYS_MMAP then sys_mmap a0 a1 (s32 a2) (s32 a3) (s32 a4) (s64 a5)
  else if n =? SYS_MPROTECT then sys_mprotect a0 a1 (s32 a2)
  else if n =? SYS_MUNMAP then sys_munmap a0 a1
  else if n =? SYS_BRK then sys_brk a0
  else if n =? SYS_FSTAT then sys_fstat (s32 a0) a1
  else if n =? SYS_IOCTL then sys_ioctl (s32 a0) a1 a2
  else if n =? SYS_WRITEV then sys_writev (s32 a0) a1 (s32 a2)
  else if (n =? SYS_EXIT) || (n =? SYS_EXIT_GROUP) then sys_exit (s32 a0)
  else if n =? SYS_FUTEX then sys_futex a0 (s32 a1) (u32 a2) a3 a4 (u32 a5)
  else if n =? SYS_CLOCK_GETTIME then sys_clock_gettime (s32 a0) a1
  else if n =? SYS_GETTIMEOFDAY then sys_gettimeofday a0 a1
  else if (n =? SYS_GETPID) || (n =? SYS_GETTID) then mret 1000
  else if (n =? SYS_GETUID) || (n =? SYS_GETEUID) then mret 1000
  else if (n =? SYS_GETGID) || (n =? SYS_GETEGID) then mret 1000
  else if n =? SYS_GETRANDOM then sys_getrandom a0 a1 (u32 a2)
  else if n =? SYS_PRCTL then sys_prctl (s32 a0) a1 a2 a3 a4
  else if n =? SYS_MADVISE then sys_madvise a0 a1 (s32 a2)
  else if n =? SYS_RT_SIGACTION then sys_rt_sigaction (s32 a0) a1 a2 a3
  else if n =? SYS_RT_SIGPROCMASK then sys_rt_sigprocmask (s32 a0) a1 a2 a3
  else if n =? SYS_SCHED_YIELD then mret 0
  else if n =? SYS_PIPE2 then sys_pipe2 a0 (s32 a1)
  else if n =? SYS_SOCKET then sys_socket (s32 a0) (s32 a1) (s32 a2)
  else if n =? SYS_CONNECT then sys_connect (s32 a0) a1 (u32 a2)
  else if n =? SYS_BIND then sys_bind (s32 a0) a1 (u32 a2)
  else if n =? SYS_LISTEN then sys_listen (s32 a0) (s32 a1)
  else if n =? SYS_ACCEPT then sys_accept (s32 a0) a1 a2
  else if n =? SYS_GETSOCKNAME then sys_getsockname (s32 a0) a1 a2
  else if n =? SYS_GETPEERNAME then sys_getpeername (s32 a0) a1 a2
  else if n =? SYS_SENDTO then sys_sendto (s32 a0) a1 a2 (s32 a3) a4 (u32 a5)
  else if n =? SYS_RECVFROM then sys_recvfrom (s32 a0) a1 a2 (s32 a3) a4 a5
  else if n =? SYS_SETSOCKOPT then sys_setsockopt (s32 a0) (s32 a1) (s32 a2) a3 (u32 a4)
  else if n =? SYS_GETSOCKOPT then sys_getsockopt (s32 a0) (s32 a1) (s32 a2) a3 a4
  else if n =? SYS_EXECVE then sys_execve a0 a1 a2
  else if n =? SYS_EXECVEAT then sys_execveat (s32 a0) a1 a2 a3 (s32 a4)
  else mret (-38).

(** [SyscallHandler::handle], which [Emulator::handle_syscall] calls. *)
Definition handle_syscall (n : Z) : prog unit :=
  a0 ← get_x X0; a1 ← get_x X1; a2 ← get_x X2; a3 ← get_x X3; a4 ← get_x X4; a5 ← get_x X5;
  result ← dispatch_syscall n a0 a1 a2 a3 a4 a5;
  set_x X0 result.

End Handler.
Arguments sstate : clear implicits.
Arguments sstate {E HO}.
