(* ===== verification/SyscallSpec.v ===== *)
(** Properties of the system call handler: its tables stay well formed under every
    call, a virtual file is read back byte for byte through its descriptor, futex
    wake-ups take the longest-waiting matching threads. *)

From S2P Require Import Prelude Env HeapAllocator MemoryManager MemorySpec Machine HostAccess HleMonad Lift ThreadTypes Scheduler SchedulerSpec Pthread PthreadSpec SyscallHandler HleMemOps HleString HleStringSpec.

(** * Programs that keep a property *)

Section Keeps.
Context {S : Type}.

(** [m] does not leave [P], however it ends. *)
Definition keeps {A} (P : S -> Prop) (m : hle S A) : Prop := forall s, P s ->
  match m s with Ret _ s' => P s' | Thrown s' => P s' | Segv => True end.

Lemma keeps_ret {A} P (a : A) : keeps P (mret a).
Proof. by intros s. Qed.

Lemma keeps_bind {A B} P (m : hle S A) (k : A -> hle S B) :
  keeps P m -> (forall a, keeps P (k a)) -> keeps P (m ≫= k).
Proof.
  intros Hm Hk s Hs. unfold mbind, hle_bind. specialize (Hm s Hs). destruct (m s) as [a s'|s'|]; try done. by apply Hk.
Qed.

End Keeps.

Create HintDb keeps discriminated.
#[export] Hint Resolve keeps_ret : keeps.

(** Walks through a program; what is left are its primitive steps. *)
Ltac keeps_step :=
  repeat lazymatch goal with
  | |- forall _, _ => intros
  | |- keeps _ (mbind _ _) => apply keeps_bind
  | |- keeps _ (mret _) => apply keeps_ret
  | |- keeps _ (match ?x with _ => _ end) => destruct x
  | |- keeps _ ((match ?x with _ => _ end) _) => destruct x
  | |- keeps _ _ => solve [eauto with keeps]
  end.

Section Spec.
Context {E : Env} `{!HostAccess E} {HO : HostOs}.
Implicit Types s : sstate.

(** * Well-formed tables *)

Record handler_wf (h : SyscallHandler) : Prop := {
  hw_fd fd v : open_fds_ h !! fd = Some v ->
    vf_fd v = fd /\ vf_is_open v = true /\ 0 <= fd < next_fd_ h /\ in_u64 (vf_position v) /\
    Forall (fun b => 0 <= b < 256) (vf_data v);
  hw_next : 3 <= next_fd_ h <= 2 ^ 31 - 1;
  hw_files path data : virtual_files_ h !! path = Some data -> Forall (fun b => 0 <= b < 256) data;
  hw_queue a q : futex_waiters_ h !! a = Some q -> q <> [];
}.

(** The invariant of a run: the tables, and descriptors are left. *)
Definition tables_ok s : Prop := handler_wf (sy s).

(** Steps that do not touch the handler's fields. *)
Lemma keeps_frame {A} (m : hle sstate A) :
  (forall s, match m s with Ret _ s' => sy s' = sy s | Thrown s' => sy s' = sy s | Segv => True end) -> keeps tables_ok m.
Proof. intros H s Hs. specialize (H s). unfold tables_ok in *. destruct (m s); try done; by rewrite H. Qed.

Lemma keeps_get r : keeps tables_ok (get_x r).
Proof. by apply keeps_frame. Qed.
Lemma keeps_set r v : keeps tables_ok (set_x r v).
Proof. by apply keeps_frame. Qed.
Lemma keeps_rd a n : keeps tables_ok (mem_rd a n).
Proof. by apply keeps_frame. Qed.
Lemma keeps_rd_into a n : keeps tables_ok (mem_rd_into a n).
Proof. by apply keeps_frame. Qed.
Lemma keeps_wr a bs : keeps tables_ok (mem_wr a bs).
Proof. apply keeps_frame. intros s. cbn. by destruct (mem_write a bs (ss_mem s)). Qed.
Lemma keeps_new n : keeps tables_ok (new_buffer n).
Proof. apply keeps_frame. intros s. unfold new_buffer. by destruct (alloc_ok n s). Qed.
Lemma keeps_gets {A} (f : sstate -> A) : keeps tables_ok (gets f).
Proof. by apply keeps_frame. Qed.
Lemma keeps_segv {A} : keeps tables_ok (segv : hle sstate A).
Proof. by apply keeps_frame. Qed.
Lemma keeps_throw {A} : keeps tables_ok (throw : hle sstate A).
Proof. by apply keeps_frame. Qed.
Lemma keeps_os {A} (f : os -> A * os) : keeps tables_ok (os_call f).
Proof. apply keeps_frame. intros s. unfold os_call. by destruct (f (sy_os s)). Qed.
Lemma keeps_on_mem {A} (f : mstate -> A * mstate) : keeps tables_ok (on_mem f).
Proof. apply keeps_frame. intros s. unfold on_mem. by destruct (f (ss_mem s)). Qed.
Lemma keeps_modify f : (forall s, tables_ok s -> tables_ok (f s)) -> keeps tables_ok (modify f).
Proof. intros H s Hs. by apply H. Qed.

#[local] Hint Resolve keeps_get keeps_set keeps_rd keeps_rd_into keeps_wr keeps_new keeps_gets keeps_segv keeps_throw
  keeps_os keeps_on_mem : keeps.

Lemma keeps_zero a n : keeps tables_ok (zero_mem a n).
Proof. unfold zero_mem. keeps_step. Qed.
Lemma keeps_stop : keeps tables_ok emu_stop.
Proof. by apply keeps_modify. Qed.
Lemma keeps_var a n : keeps tables_ok (read_var a n).
Proof. unfold read_var. keeps_step. Qed.
Lemma keeps_prefix buf n : keeps tables_ok (prefix_of_buffer buf n).
Proof. unfold prefix_of_buffer. keeps_step. Qed.
Lemma keeps_read_string n a : keeps tables_ok (sys_read_string n a).
Proof. revert a. induction n; intros a; cbn [sys_read_string]; keeps_step. Qed.
#[local] Hint Resolve keeps_zero keeps_stop keeps_var keeps_prefix keeps_read_string : keeps.

Lemma keeps_string_array n a : keeps tables_ok (read_string_array n a).
Proof. revert a. induction n; intros a; cbn [read_string_array]; keeps_step. Qed.
Lemma keeps_random n left : keeps tables_ok (random_bytes n left).
Proof. revert left. induction n; intros left; cbn [random_bytes]; keeps_step. Qed.
Lemma keeps_fill f a l : keeps tables_ok (fill_and_copy f a l).
Proof. unfold fill_and_copy. keeps_step. Qed.
#[local] Hint Resolve keeps_string_array keeps_random keeps_fill : keeps.

Lemma keeps_write fd buf count : keeps tables_ok (sys_write fd buf count).
Proof. unfold sys_write. keeps_step. apply keeps_modify. intros s Hs. by destruct (fd =? 1). Qed.
#[local] Hint Resolve keeps_write : keeps.
Lemma keeps_writev n fd iov i total : keeps tables_ok (writev_loop n fd iov i total).
Proof. revert i total. induction n; intros i total; cbn [writev_loop]; keeps_step. Qed.

(** A descriptor that moves to another position. *)
Lemma wf_seek h fd f : handler_wf h ->
  handler_wf (h <| open_fds_ ::= alter (fun v => v <| vf_position := u64 (f v) |>) fd |>).
Proof.
  intros [H1 H2 H3 H4]. constructor; cbn; try done. intros fd' v Hv.
  apply lookup_alter_Some in Hv as [(-> & v0 & Hv0 & ->)|[_ Hv]]; [|by apply H1].
  destruct (H1 _ _ Hv0) as (? & ? & ? & ? & ?). cbn. split_and!; try done; first [lia | apply u64_range].
Qed.

Lemma keeps_read fd buf count : keeps tables_ok (sys_read fd buf count).
Proof.
  unfold sys_read. keeps_step. apply keeps_modify. intros s Hs. unfold tables_ok in *. cbn.
  by apply (wf_seek (sy s) fd (fun v => vf_position v + _)).
Qed.

Lemma keeps_lseek fd offset whence : keeps tables_ok (sys_lseek fd offset whence).
Proof.
  unfold sys_lseek. keeps_step; apply keeps_modify; intros s Hs; unfold tables_ok in *; cbn.
  all: by apply (wf_seek (sy s) fd (fun _ => _)).
Qed.

Lemma keeps_close fd : keeps tables_ok (sys_close fd).
Proof.
  unfold sys_close. keeps_step. apply keeps_modify. intros s [H1 H2 H3 H4]. constructor; cbn; try done.
  intros fd' w Hw. apply lookup_delete_Some in Hw as [_ Hw]. by apply H1.
Qed.

Lemma keeps_brk addr : keeps tables_ok (sys_brk addr).
Proof. unfold sys_brk. keeps_step; by apply keeps_modify. Qed.

(** Opening: the number is new. *)
Lemma keeps_openat dirfd pathname flags mode :
  forall s, tables_ok s -> next_fd_ (sy s) < 2 ^ 31 - 1 ->
  match sys_openat dirfd pathname flags mode s with Ret _ s' => tables_ok s' | Thrown s' => tables_ok s' | Segv => True end.
Proof.
  intros s Hs Hlt. unfold sys_openat, mbind, hle_bind at 1.
  assert (Hsy : forall n a s, match sys_read_string n a s with Ret _ s' => s' = s | _ => False end).
  { induction n as [|n IH]; intros a s1; [done|]. cbn [sys_read_string]. unfold mbind, hle_bind at 1, mem_rd at 1.
    destruct (gread a 1 s1) as [[|b [|? ?]]|]; try done. destruct (b =? 0); [done|]. unfold hle_bind.
    specialize (IH (a ⊕ 1) s1). by destruct (sys_read_string n (a ⊕ 1) s1). }
  specialize (Hsy PATH_LIMIT pathname s). destruct (sys_read_string PATH_LIMIT pathname s) as [path s1|?|]; try done. subst s1.
  unfold hle_bind, gets. destruct (virtual_files_ (sy s) !! path) as [data|] eqn:Hf; [|done]. cbn. destruct Hs as [H1 H2 H3 H4].
  assert (Hn : s32 (next_fd_ (sy s) + 1) = next_fd_ (sy s) + 1).
  { unfold s32, u32. rewrite Z.mod_small by (unfold two32; lia). rewrite (proj2 (Z.ltb_lt _ _)) by lia. done. }
  constructor; cbn; rewrite ?Hn; try done; [|lia].
  intros fd v Hv. apply lookup_insert_Some in Hv as [[<- <-]|[_ Hv]].
  - cbn. split_and!; try done; try lia. by eapply H3.
  - destruct (H1 _ _ Hv) as (? & ? & ? & ? & ?). split_and!; try done; lia.
Qed.

Lemma keeps_futex_wait uaddr expected bitset timeout : keeps tables_ok (futex_wait uaddr expected bitset timeout).
Proof.
  unfold futex_wait. keeps_step; apply keeps_modify; try done. intros s [H1 H2 H3 H4]. constructor; cbn; try done.
  intros a' q Hq. apply lookup_insert_Some in Hq as [[<- <-]|[_ Hq]]; [|by eapply H4]. by destruct (default [] _).
Qed.

Lemma keeps_futex_wake uaddr count bitset : keeps tables_ok (futex_wake uaddr count bitset).
Proof.
  unfold futex_wake. keeps_step. apply keeps_modify. intros s [H1 H2 H3 H4]. constructor; cbn; try done.
  intros a' q Hq. case_bool_decide as Hl.
  - apply lookup_delete_Some in Hq as [_ Hq]. by eapply H4.
  - apply lookup_insert_Some in Hq as [[<- <-]|[_ Hq]]; [done|by eapply H4].
Qed.
#[local] Hint Resolve keeps_writev keeps_read keeps_lseek keeps_close keeps_brk keeps_futex_wait keeps_futex_wake : keeps.

Lemma keeps_execve pathname argv envp : keeps tables_ok (sys_execve pathname argv envp).
Proof. unfold sys_execve, is_arm64_elf, string_array, get_cross_shim_path. keeps_step. Qed.
Lemma keeps_futex uaddr op val timeout uaddr2 val3 : keeps tables_ok (sys_futex uaddr op val timeout uaddr2 val3).
Proof. unfold sys_futex. cbv zeta. keeps_step. Qed.
Lemma keeps_accept sockfd addr addrlen : keeps tables_ok (sys_accept sockfd addr addrlen).
Proof. unfold sys_accept. keeps_step. Qed.
Lemma keeps_recvfrom sockfd buf len flags src addrlen : keeps tables_ok (sys_recvfrom sockfd buf len flags src addrlen).
Proof. unfold sys_recvfrom. keeps_step. Qed.
Lemma keeps_fstat fd buf : keeps tables_ok (sys_fstat fd buf).
Proof. unfold sys_fstat. keeps_step. Qed.
#[local] Hint Resolve keeps_execve keeps_futex keeps_accept keeps_recvfrom keeps_fstat : keeps.

Lemma keeps_dispatch n a0 a1 a2 a3 a4 a5 : (n =? SYS_OPENAT) = false ->
  keeps tables_ok (dispatch_syscall n a0 a1 a2 a3 a4 a5).
Proof.
  intros Ho. unfold dispatch_syscall. rewrite Ho.
  unfold sys_mmap, sys_mprotect, sys_munmap, sys_ioctl, sys_writev, sys_exit, sys_clock_gettime, sys_gettimeofday,
    sys_getrandom, sys_prctl, sys_madvise, sys_rt_sigaction, sys_rt_sigprocmask, sys_pipe2, sys_socket, sys_connect,
    sys_bind, sys_listen, sys_getsockname, sys_getpeername, sys_sendto, sys_setsockopt, sys_getsockopt, sys_execveat.
  keeps_step.
Qed.

(** C17: The handler's tables are well typed whatever the guest calls: an open
    descriptor is stored under its own number, below the next free one, with a
    64-bit position over bytes; the virtual files are bytes; no empty futex queue
    is kept.  This holds after every system call with any arguments, also one that
    ends in an exception, as long as descriptor numbers are left. *)
Theorem handler_typed n s : tables_ok s -> next_fd_ (sy s) < 2 ^ 31 - 1 ->
  match handle_syscall n s with Ret _ s' => tables_ok s' | Thrown s' => tables_ok s' | Segv => True end.
Proof.
  intros Hs Hfd. unfold handle_syscall, mbind, hle_bind, get_x.
  assert (Hm : forall a0 a1 a2 a3 a4 a5, match dispatch_syscall n a0 a1 a2 a3 a4 a5 s with
    Ret _ s' => tables_ok s' | Thrown s' => tables_ok s' | Segv => True end).
  { intros. destruct (n =? SYS_OPENAT) eqn:Ho; [|by apply keeps_dispatch].
    apply Z.eqb_eq in Ho as ->. by apply keeps_openat. }
  specialize (Hm (getr X0 s) (getr X1 s) (getr X2 s) (getr X3 s) (getr X4 s) (getr X5 s)).
  by destruct (dispatch_syscall _ _ _ _ _ _ _ s).
Qed.

(** * Futex queues *)

Definition matches (bitset : Z) (w : FutexWaiter) : Prop := Z.land (fw_bitset w) bitset <> 0.
#[local] Instance matches_dec bitset w : Decision (matches bitset w).
Proof. unfold matches. apply _. Defined.

(** The waiters that are taken, and those that stay in their order. *)
Fixpoint remove_matching (n : nat) (bitset : Z) (q : list FutexWaiter) : list FutexWaiter :=
  match q with
  | [] => []
  | w :: rest =>
      match n with
      | O => q
      | S n' => if decide (matches bitset w) then remove_matching n' bitset rest else w :: remove_matching n bitset rest
      end
  end.
Definition taken (n : nat) (bitset : Z) (q : list FutexWaiter) : list FutexWaiter := take n (filter (matches bitset) q).

Lemma wake_waiters_spec count bitset q : forall woken, 0 <= woken <= count -> count < two32 ->
  wake_waiters count bitset woken q =
    (remove_matching (Z.to_nat (count - woken)) bitset q, map fw_thread_id (taken (Z.to_nat (count - woken)) bitset q)).
Proof.
  unfold taken. induction q as [|w q IH]; intros woken Hw Hc; cbn [wake_waiters remove_matching].
  { by destruct (Z.to_nat (count - woken)). }
  rewrite u32_small by lia. destruct (Z.ltb_spec woken count).
  2: { replace (Z.to_nat (count - woken)) with 0%nat by lia. done. }
  replace (Z.to_nat (count - woken)) with (S (Z.to_nat (count - (woken + 1)))) by lia.
  destruct (decide (matches bitset w)) as [Hm|Hm].
  - rewrite (proj2 (Z.eqb_neq _ 0)) by exact Hm. cbn [negb]. rewrite IH by lia. rewrite filter_cons_True by done. done.
  - unfold matches in Hm. rewrite (proj2 (Z.eqb_eq _ 0)) by lia. cbn [negb]. rewrite IH by lia. rewrite filter_cons_False by (unfold matches; lia).
    replace (S (Z.to_nat (count - (woken + 1)))) with (Z.to_nat (count - woken)) by lia. done.
Qed.

Lemma taken_perm n bitset q : q ≡ₚ taken n bitset q ++ remove_matching n bitset q.
Proof.
  unfold taken. revert n. induction q as [|w q IH]; intros n; [by destruct n|]. cbn [remove_matching].
  destruct n as [|n]; [done|]. destruct (decide (matches bitset w)) as [Hm|Hm].
  - rewrite filter_cons_True by done. cbn. by rewrite <- IH.
  - rewrite filter_cons_False by done. rewrite <- Permutation_middle. by rewrite <- IH.
Qed.

(** Waking a list of distinct threads blocked on a futex. *)
Definition woken (c : ThreadContext) : ThreadContext :=
  c <| futex_wait_addr := 0 |> <| futex_wait_return_addr := 0 |> <| blocked_on_resource := 0 |>
    <| ThreadTypes.state := RUNNABLE |>.

Lemma unblock_futexes ids (t : tstate) : NoDup ids ->
  (forall k, k ∈ ids -> exists c, threads_ (tm t) !! k = Some c /\ state c = BLOCKED) ->
  let t' := foldl (fun t id => unblock_from_futex id t) t ids in
  (forall k c, k ∈ ids -> threads_ (tm t) !! k = Some c -> threads_ (tm t') !! k = Some (woken c)) /\
  (forall k, k ∉ ids -> threads_ (tm t') !! k = threads_ (tm t) !! k) /\
  runnable_queue_ (tm t') = runnable_queue_ (tm t) ++ ids /\
  current_thread_id_ (tm t') = current_thread_id_ (tm t) /\ ms t' = ms t.
Proof.
  intros Hnd. revert t. induction Hnd as [|w ids Hw Hnd IH]; intros t Hb t'; subst t'.
  { cbn. rewrite app_nil_r. split_and!; try done. by intros k c ?%elem_of_nil. }
  destruct (Hb w ltac:(by left)) as (d & Hd & Hs). cbn [foldl].
  set (t1 := unblock_from_futex w t).
  assert (threads_ (tm t1) = <[w := woken d]> (threads_ (tm t)) /\
    runnable_queue_ (tm t1) = runnable_queue_ (tm t) ++ [w] /\
    current_thread_id_ (tm t1) = current_thread_id_ (tm t) /\ ms t1 = ms t) as (E1 & E2 & E3 & E4).
  { unfold t1, unblock_from_futex. rewrite Hd. apply is_state_spec in Hs. rewrite Hs. cbn. split_and!; try done.
    by rewrite (alter_insert_eq _ w _ d). }
  destruct (IH t1) as (H1 & H2 & H3 & H4 & H5).
  { intros k Hk. rewrite E1, lookup_insert_ne by (intros ->; done). apply Hb. by right. }
  split_and!.
  - intros k c [->|Hk]%elem_of_cons Hc.
    + rewrite H2 by done. rewrite E1, lookup_insert_eq. congruence.
    + apply H1; [done|]. rewrite E1, lookup_insert_ne; [done|]. by intros ->.
  - intros k Hk. apply not_elem_of_cons in Hk as [??]. rewrite H2 by done. by rewrite E1, lookup_insert_ne.
  - rewrite H3, E2, <- app_assoc. done.
  - congruence.
  - congruence.
Qed.

(** The queues hold exactly the threads that block on a futex, each once. *)
Record futex_ok s : Prop := {
  fo_sched : sched_ok (tm (th s));
  fo_queue a q : futex_waiters_ (sy s) !! a = Some q -> q <> [] /\ NoDup (map fw_thread_id q) /\
    forall k, k ∈ map fw_thread_id q ->
      follows k (fun c => state c = BLOCKED /\ futex_wait_addr c = a) (tm (th s));
  fo_blocked k c : threads_ (tm (th s)) !! k = Some c -> state c = BLOCKED -> futex_wait_addr c <> 0 ->
    exists q, futex_waiters_ (sy s) !! futex_wait_addr c = Some q /\ k ∈ map fw_thread_id q;
}.

(** A thread through a blocking switch: what it waits for, if it blocks. *)
Lemma blocked_through k a (t : tstate) : sched_ok (tm t) -> k <> current_thread_id_ (tm t) ->
  follows k (fun d => state d = BLOCKED /\ futex_wait_addr d = a) (tm t) ->
  follows k (fun d => state d = BLOCKED /\ futex_wait_addr d = a) (tm (context_switch BLOCKING_OPERATION t)).
Proof. intros Hok Hk. apply switch_other; [done..| |]; intros; destruct_and?; destruct_or?; congruence. Qed.

Lemma awake_through k (t : tstate) : sched_ok (tm t) -> k <> current_thread_id_ (tm t) ->
  follows k (fun d => state d <> BLOCKED) (tm t) ->
  follows k (fun d => state d <> BLOCKED) (tm (context_switch BLOCKING_OPERATION t)).
Proof. intros Hok Hk. by apply switch_other. Qed.

(** Blocking on a futex. *)
Lemma block_on_futex_spec a (t : tstate) c : sched_ok (tm t) -> current t = Some c ->
  let t' := block_on_futex a t in
  let cur := current_thread_id_ (tm t) in
  sched_ok (tm t') /\
  follows cur (fun d => state d = BLOCKED /\ futex_wait_addr d = a) (tm t') /\
  (forall k b, k <> cur -> follows k (fun d => state d = BLOCKED /\ futex_wait_addr d = b) (tm t) ->
     follows k (fun d => state d = BLOCKED /\ futex_wait_addr d = b) (tm t')) /\
  (forall k d, k <> cur -> threads_ (tm t') !! k = Some d -> state d = BLOCKED ->
     follows k (fun d' => state d' = BLOCKED /\ futex_wait_addr d' = futex_wait_addr d) (tm t)).
Proof.
  intros Hok Hc t' cur. unfold t', block_on_futex.
  set (f := fun c : ThreadContext => c <| ThreadTypes.state := BLOCKED |> <| blocked_on_resource := a |>
              <| futex_wait_addr := a |> <| futex_wait_return_addr := reg REG_LR t |>).
  set (t1 := upd_current f t).
  assert (Hok1 : sched_ok (tm t1)) by (apply sched_ok_alter; [intros d; split; [done|by right]|done]).
  assert (Hc1 : current t1 = Some (f c)) by (by apply current_upd).
  assert (Hne : forall k, k <> cur -> threads_ (tm t1) !! k = threads_ (tm t) !! k)
    by (intros k Hk; cbn; by rewrite lookup_alter_ne).
  split_and!.
  - by apply context_switch_ok.
  - apply (switch_outgoing BLOCKING_OPERATION t1 (f c)); try done.
    + by rewrite andb_false_r.
    + intros d Hs (Hd & _). destruct Hs; congruence.
    + intros u d Hs (Hd & _). congruence.
  - intros k b Hk (d & Hd & HQ). apply blocked_through; [done..|]. exists d. by rewrite Hne.
  - intros k d Hk Hd Hb. destruct (threads_ (tm t) !! k) as [d0|] eqn:Hd0.
    + exists d0. split; [done|]. destruct (decide (state d0 = BLOCKED)) as [Hs0|Hs0].
      * destruct (blocked_through k (futex_wait_addr d0) t1) as (d' & Hd' & _ & E'); [done..| |].
        { exists d0. by rewrite Hne. }
        split; [done|]. congruence.
      * destruct (awake_through k t1) as (d' & Hd' & E'); [done..| |]; [exists d0; by rewrite Hne|]. congruence.
    + pose proof (blind_context_switch _ (same_threads_blind k) BLOCKING_OPERATION t1) as Hn.
      rewrite Hn in Hd; [done|]. by rewrite Hne.
Qed.

Lemma futex_wait_ok uaddr expected bitset timeout s c : futex_ok s -> current (th s) = Some c -> state c = RUNNING ->
  exists v s', futex_wait uaddr expected bitset timeout s = Ret v s' /\ futex_ok s'.
Proof.
  intros [H1 H2 H3] Hc Hr. unfold futex_wait, mbind, hle_bind, mem_rd_into, gets, modify.
  destruct (negb _); [by do 2 eexists|]. destruct (negb _ || _); [by do 2 eexists|].
  do 2 eexists. split; [reflexivity|].
  destruct (block_on_futex_spec uaddr (th s) c H1 Hc) as (K1 & K2 & K3 & K4).
  set (cur := current_thread_id_ (tm (th s))) in *.
  assert (Hnot : forall b q, futex_waiters_ (sy s) !! b = Some q -> cur ∉ map fw_thread_id q).
  { intros b q Hq Hin. destruct (H2 b q Hq) as (_ & _ & Hf). destruct (Hf _ Hin) as (d & Hd & Hs & _).
    unfold current in Hc. fold cur in Hc. congruence. }
  assert (Hold : forall b q k, futex_waiters_ (sy s) !! b = Some q -> k ∈ map fw_thread_id q ->
    follows k (fun d => state d = BLOCKED /\ futex_wait_addr d = b) (tm (block_on_futex uaddr (th s)))).
  { intros b q k Hq Hk. apply K3; [intros ->; by eapply Hnot|]. by apply (H2 b q Hq). }
  constructor; cbn.
  - done.
  - intros b q Hq. apply lookup_insert_Some in Hq as [[<- <-]|[Hb Hq]].
    + rewrite map_app. cbn [map fw_thread_id]. fold cur.
      destruct (futex_waiters_ (sy s) !! uaddr) as [q0|] eqn:Hq0; cbn [default from_option id].
      * split; [by destruct q0|]. destruct (H2 _ _ Hq0) as (_ & Hnd & _). split.
        -- apply NoDup_app. split_and!; [done| |apply NoDup_singleton]. intros k Hk ->%list_elem_of_singleton. by eapply Hnot.
        -- intros k [Hk| ->%list_elem_of_singleton]%elem_of_app; [by eapply Hold|done].
      * split_and!; [done|apply NoDup_singleton|]. by intros k ->%list_elem_of_singleton.
    + destruct (H2 _ _ Hq) as (Hn & Hnd & _). split_and!; [done..|]. intros k Hk. by eapply Hold.
  - intros k d Hd Hb Ha. destruct (decide (k = cur)) as [->|Hk].
    + destruct K2 as (d' & Hd' & _ & E'). assert (futex_wait_addr d = uaddr) as -> by congruence.
      rewrite lookup_insert_eq. eexists. split; [reflexivity|]. rewrite map_app. apply elem_of_app. right. by left.
    + destruct (K4 k d Hk Hd Hb) as (d0 & Hd0 & Hb0 & E0). destruct (H3 k d0 Hd0 Hb0) as (q & Hq & Hin); [congruence|].
      rewrite E0 in Hq. destruct (decide (futex_wait_addr d = uaddr)) as [Eu|Hne].
      * rewrite Eu, lookup_insert_eq. eexists. split; [reflexivity|]. rewrite <- Eu, Hq. cbn. rewrite map_app. apply elem_of_app. by left.
      * rewrite lookup_insert_ne by congruence. eauto.
Qed.

(** The caller waits on [uaddr]: it is the last of the queue, blocked; another thread runs,
    if any is ready; whoever else was blocked on a futex still is, and nobody new. *)
Record futex_blocks (uaddr bitset : Z) s s' : Prop := {
  fb_queue : futex_waiters_ (sy s') = <[uaddr := default [] (futex_waiters_ (sy s) !! uaddr) ++
    [{| fw_thread_id := current_thread_id_ (tm (th s)); fw_bitset := bitset; fw_return_addr := 0 |}]]> (futex_waiters_ (sy s));
  fb_caller : follows (current_thread_id_ (tm (th s))) (fun d => state d = BLOCKED /\ futex_wait_addr d = uaddr) (tm (th s'));
  fb_switched : someone_runs (tm (th s')) \/
    nobody_ready (tm (th s')) /\ current_thread_id_ (tm (th s')) = current_thread_id_ (tm (th s));
  fb_others k b : k <> current_thread_id_ (tm (th s)) ->
    follows k (fun d => state d = BLOCKED /\ futex_wait_addr d = b) (tm (th s')) <->
    follows k (fun d => state d = BLOCKED /\ futex_wait_addr d = b) (tm (th s));
}.

Definition alone s : Prop := threading_enabled_ (tm (th s)) = false \/ (get_thread_count (th s) <= 1)%nat.

(** The branches of a wait, by the word that is read. *)
Lemma futex_wait_cases uaddr expected bitset timeout s c bs :
  sched_ok (tm (th s)) -> current (th s) = Some c -> gread uaddr 4 s = Some bs ->
  (le_value bs <> expected -> futex_wait uaddr expected bitset timeout s = Ret (-11) s) /\
  (le_value bs = expected -> alone s -> futex_wait uaddr expected bitset timeout s = Ret 0 s) /\
  (le_value bs = expected -> ~ alone s ->
     exists s', futex_wait uaddr expected bitset timeout s = Ret 0 s' /\ futex_blocks uaddr bitset s s').
Proof.
  intros Hok Hc Hrd. unfold futex_wait, mbind, hle_bind, mem_rd_into, gets, modify, mret, hle_ret, alone.
  rewrite Hrd. cbn [default from_option id].
  destruct (Z.eqb_spec (le_value bs) expected) as [He|He]; cbn [negb]; [|by split_and!].
  destruct (negb _ || _) eqn:Ha.
  - assert (Hal : threading_enabled_ (tm (th s)) = false \/ (get_thread_count (th s) <= 1)%nat).
    { apply orb_prop in Ha as [Ha|Ha]; [left; by apply negb_true_iff|right]. apply Z.leb_le in Ha. lia. }
    by split_and!.
  - apply orb_false_iff in Ha as [Ha1 Ha2]. apply negb_false_iff in Ha1. apply Z.leb_gt in Ha2.
    split_and!; [done|intros _ [?|?]; [congruence|lia]|]. intros _ _. eexists. split; [reflexivity|].
    destruct (block_on_futex_spec uaddr (th s) c Hok Hc) as (K1 & K2 & K3 & K4).
    constructor; cbn; [done..| |].
    + set (f := fun c : ThreadContext => c <| ThreadTypes.state := BLOCKED |> <| blocked_on_resource := uaddr |>
              <| futex_wait_addr := uaddr |> <| futex_wait_return_addr := reg REG_LR (th s) |>).
      assert (Hok1 : sched_ok (tm (upd_current f (th s)))) by (apply sched_ok_alter; [intros d; split; [done|by right]|done]).
      assert (Hc1 : current (upd_current f (th s)) = Some (f c)) by (by apply current_upd).
      apply (context_switch_progress BLOCKING_OPERATION (upd_current f (th s)) (f c) Hok1 Hc1). by rewrite andb_false_r.
    + intros k b Hk. split; [|by apply K3]. intros (d & Hd & Hs & <-). by apply K4.
Qed.

(** What a wake-up of [n] matching waiters of [uaddr] does. *)
Record wakes (uaddr : Z) (n : nat) (bitset : Z) s s' : Prop := {
  wk_queue : default [] (futex_waiters_ (sy s') !! uaddr)
             = remove_matching n bitset (default [] (futex_waiters_ (sy s) !! uaddr));
  wk_other b : b <> uaddr -> futex_waiters_ (sy s') !! b = futex_waiters_ (sy s) !! b;
  wk_woken k c : k ∈ map fw_thread_id (taken n bitset (default [] (futex_waiters_ (sy s) !! uaddr))) ->
    threads_ (tm (th s)) !! k = Some c -> threads_ (tm (th s')) !! k = Some (woken c);
  wk_rest k : k ∉ map fw_thread_id (taken n bitset (default [] (futex_waiters_ (sy s) !! uaddr))) ->
    threads_ (tm (th s')) !! k = threads_ (tm (th s)) !! k;
  wk_ready : runnable_queue_ (tm (th s')) =
    runnable_queue_ (tm (th s)) ++ map fw_thread_id (taken n bitset (default [] (futex_waiters_ (sy s) !! uaddr)));
  wk_cur : current_thread_id_ (tm (th s')) = current_thread_id_ (tm (th s));
  wk_mem : ms (th s') = ms (th s);
}.

(** A wake-up keeps the queues exact. *)
Lemma wakes_ok uaddr n bitset s s' : wakes uaddr n bitset s s' ->
  (futex_waiters_ (sy s') !! uaddr <> Some []) -> futex_ok s -> futex_ok s'.
Proof.
  intros [W1 W2 W3 W4 W5 W6 _] Hne [H1 H2 H3]. set (q := default [] (futex_waiters_ (sy s) !! uaddr)) in *.
  set (ids := map fw_thread_id (taken n bitset q)) in *.
  assert (Hq : q <> [] -> futex_waiters_ (sy s) !! uaddr = Some q).
  { unfold q. by destruct (futex_waiters_ (sy s) !! uaddr). }
  assert (Hnd : NoDup (map fw_thread_id q)).
  { destruct q as [|w q0] eqn:Eqq; [apply NoDup_nil_2|]. by apply (H2 uaddr), Hq. }
  pose proof (taken_perm n bitset q) as Hperm. rewrite Hperm, map_app in Hnd. fold ids in Hnd.
  apply NoDup_app in Hnd as (_ & Hdis & Hnd').
  assert (Hin : forall k, k ∈ ids -> follows k (fun c => state c = BLOCKED /\ futex_wait_addr c = uaddr) (tm (th s))).
  { intros k Hk. assert (k ∈ map fw_thread_id q) as Hkq.
    { rewrite Hperm, map_app. apply elem_of_app. by left. }
    apply (H2 uaddr q); [apply Hq; by intros Eq0; rewrite Eq0 in Hkq; apply elem_of_nil in Hkq|done]. }
  assert (Hback : forall k c, threads_ (tm (th s')) !! k = Some c ->
    (k ∈ ids /\ exists c0, threads_ (tm (th s)) !! k = Some c0 /\ c = woken c0) \/ (k ∉ ids /\ threads_ (tm (th s)) !! k = Some c)).
  { intros k c Hc. destruct (decide (k ∈ ids)) as [Hk|Hk]; [left|right; split; [done|by rewrite <- W4]].
    destruct (Hin k Hk) as (c0 & Hc0 & _). rewrite (W3 _ _ Hk Hc0) in Hc. split; [done|]. exists c0. split; [done|congruence]. }
  constructor.
  - destruct H1 as [S1 S2 S3]. constructor.
    + intros k c [(Hk & c0 & Hc0 & ->)|(Hk & Hc)]%Hback; [by apply (S1 _ _ Hc0)|by apply S1].
    + intros k c [(Hk & c0 & Hc0 & ->)|(Hk & Hc)]%Hback Hs; [done|]. rewrite W6. by eapply S2.
    + intros k c [(Hk & c0 & Hc0 & ->)|(Hk & Hc)]%Hback Hs; rewrite W5; apply elem_of_app; [by right|left]. by eapply S3.
  - intros b q' Hq'. destruct (decide (b = uaddr)) as [->|Hb].
    + assert (q' = remove_matching n bitset q) as -> by (rewrite Hq' in W1; exact W1). split_and!; [by intros Eq0; rewrite Eq0 in Hq'|done|].
      intros k Hk. assert (Hnot : k ∉ ids) by (intros Hk'; by eapply Hdis).
      destruct (H2 uaddr q) as (_ & _ & Hf).
      { apply Hq. intros Eq0. by rewrite Eq0 in Hk; apply elem_of_nil in Hk. }
      destruct (Hf k) as (c & Hc & HQ); [rewrite Hperm, map_app; apply elem_of_app; by right|].
      exists c. by rewrite W4.
    + rewrite W2 in Hq' by done. destruct (H2 b q' Hq') as (Hn & Hnd2 & Hf). split_and!; [done..|]. intros k Hk.
      destruct (Hf k Hk) as (c & Hc & Hs & Ha). exists c. rewrite W4; [done|]. intros Hk'.
      destruct (Hin k Hk') as (c' & Hc' & _ & Ha'). congruence.
  - intros k c [(Hk & c0 & Hc0 & ->)|(Hk & Hc)]%Hback Hs Ha; [done|].
    destruct (H3 k c Hc Hs Ha) as (q' & Hq' & Hk'). destruct (decide (futex_wait_addr c = uaddr)) as [Eq0|Hb].
    + rewrite Eq0 in *. assert (q' = q) as -> by (unfold q; by rewrite Hq').
      rewrite Hperm, map_app in Hk'. apply elem_of_app in Hk' as [Hk'|Hk']; [done|].
      rewrite <- W1 in Hk'. destruct (futex_waiters_ (sy s') !! uaddr) as [q''|] eqn:Eq''.
      * exists q''. done.
      * by apply elem_of_nil in Hk'.
    + exists q'. by rewrite W2.
Qed.

Lemma futex_wake_ok uaddr count bitset s : futex_ok s -> 0 <= count < two32 ->
  exists s', futex_wake uaddr count bitset s
    = Ret (Z.of_nat (length (taken (Z.to_nat count) bitset (default [] (futex_waiters_ (sy s) !! uaddr))))) s' /\
    wakes uaddr (Z.to_nat count) bitset s s' /\ futex_ok s'.
Proof.
  intros Hok Hc. unfold futex_wake, mbind, hle_bind, gets, modify, mret, hle_ret. set (q := default [] (futex_waiters_ (sy s) !! uaddr)).
  rewrite (wake_waiters_spec count bitset q 0) by lia. rewrite Z.sub_0_r. set (n := Z.to_nat count).
  case_bool_decide as Hq.
  { exists s. rewrite Hq. unfold taken. rewrite filter_nil, take_nil. split; [done|]. split; [|done].
    constructor; fold q; rewrite ?Hq; unfold taken; rewrite ?filter_nil, ?take_nil; cbn; try done.
    - by intros k c ?%elem_of_nil.
    - by rewrite app_nil_r. }
  eexists. split; [by rewrite length_map|]. 
  assert (Hsome : futex_waiters_ (sy s) !! uaddr = Some q).
  { unfold q in *. by destruct (futex_waiters_ (sy s) !! uaddr). }
  destruct (fo_queue _ Hok _ _ Hsome) as (_ & Hnd & Hf).
  pose proof (taken_perm n bitset q) as Hperm. rewrite Hperm, map_app in Hnd. apply NoDup_app in Hnd as (Hnd & _ & _).
  destruct (unblock_futexes (map fw_thread_id (taken n bitset q)) (th s) Hnd) as (U1 & U2 & U3 & U4 & U5).
  { intros k Hk. destruct (Hf k) as (c & Hc' & Hs & _); [rewrite Hperm, map_app; apply elem_of_app; by left|]. eauto. }
  match goal with |- wakes _ _ _ _ ?x /\ _ => set (s' := x) end.
  assert (W : wakes uaddr n bitset s s').
  { constructor; fold q; try done.
    - cbn. case_bool_decide as Hr; [by rewrite lookup_delete_eq, Hr|by rewrite lookup_insert_eq].
    - intros b Hb. cbn. case_bool_decide; [by rewrite lookup_delete_ne|by rewrite lookup_insert_ne]. }
  split; [done|]. eapply wakes_ok; [exact W| |done]. cbn.
  case_bool_decide; [by rewrite lookup_delete_eq|rewrite lookup_insert_eq; congruence].
Qed.

(** C18: Futexes. Every futex call made by the running thread returns and keeps the
    wait queues exact: they hold the threads blocked on a futex, each in the queue
    of its address and nobody else.  A wait on a readable word returns EAGAIN and changes
    nothing when the word does not have the expected value; when it has, the call
    returns 0 at once if threading is off or there is no second thread, and otherwise
    puts the caller at the end of the queue with its bits and blocks it, another thread
    running if any is ready; whoever else was blocked on a futex still is, and nobody
    new.  A wake-up of [count] waiters takes the first
    [count] whose bits match, in the order they came, makes exactly those threads
    runnable in that order and returns how many they were; the others keep their
    places. *)
Theorem futex_correct s c : futex_ok s -> current (th s) = Some c -> state c = RUNNING ->
  (forall uaddr op val timeout uaddr2 val3, 0 <= val < two32 -> 0 <= val3 < two32 ->
     exists v s', sys_futex uaddr op val timeout uaddr2 val3 s = Ret v s' /\ futex_ok s') /\
  (forall uaddr expected bitset timeout bs, gread uaddr 4 s = Some bs ->
     (le_value bs <> expected -> futex_wait uaddr expected bitset timeout s = Ret (-11) s) /\
     (le_value bs = expected -> alone s -> futex_wait uaddr expected bitset timeout s = Ret 0 s) /\
     (le_value bs = expected -> ~ alone s ->
        exists s', futex_wait uaddr expected bitset timeout s = Ret 0 s' /\ futex_blocks uaddr bitset s s')) /\
  (forall uaddr count bitset, 0 <= count < two32 ->
     exists s', futex_wake uaddr count bitset s
       = Ret (Z.of_nat (length (taken (Z.to_nat count) bitset (default [] (futex_waiters_ (sy s) !! uaddr))))) s' /\
     wakes uaddr (Z.to_nat count) bitset s s').
Proof.
  intros Hok Hc Hr. split_and!.
  - intros uaddr op val timeout uaddr2 val3 Hv Hv3. unfold sys_futex. cbv zeta.
    destruct (_ =? FUTEX_WAIT); [by eapply futex_wait_ok|].
    destruct (_ =? FUTEX_WAKE); [destruct (futex_wake_ok uaddr val FUTEX_BITSET_MATCH_ANY s Hok Hv) as (s' & Ew & _ & H); eauto|].
    destruct (_ =? FUTEX_WAIT_BITSET); [by eapply futex_wait_ok|].
    destruct (_ =? FUTEX_WAKE_BITSET); [destruct (futex_wake_ok uaddr val val3 s Hok Hv) as (s' & Ew & _ & H); eauto|].
    destruct (futex_wake_ok uaddr val FUTEX_BITSET_MATCH_ANY s Hok Hv) as (s' & Ew & _ & H).
    destruct (_ || _); [eauto|]. destruct (_ =? FUTEX_WAKE_OP); [|eauto].
    unfold mbind, hle_bind. rewrite Ew.
    destruct (futex_wake_ok uaddr2 val3 FUTEX_BITSET_MATCH_ANY s' H Hv3) as (s2 & -> & _ & H2). by do 2 eexists.
  - intros uaddr expected bitset timeout bs Hrd. eapply futex_wait_cases; [apply Hok|done..].
  - intros uaddr count bitset Hcnt. destruct (futex_wake_ok uaddr count bitset s Hok Hcnt) as (s' & Ew & W & _). eauto.
Qed.

End Spec.

(** * Virtual files *)

Section Files.
Context {E : Env} `{!HostAccess E} {HO : HostOs} `{!GuestMemLaws E, !CpuMemLaws E, !RegLaws E, !HostAccessLaws E}.
Implicit Types s : sstate.

Lemma ss_get_put m s : ss_mem (ss_put m s) = m.
Proof. reflexivity. Qed.

#[export] Instance sstate_laws : MemLaws sstate := lift_laws ss_mem ss_put ss_get_put.
#[export] Instance sstate_regs : RegFileLaws sstate := lift_regs ss_mem ss_put ss_get_put.
#[export] Instance sstate_host_laws : HostLaws sstate := lift_host_laws ss_mem ss_put ss_get_put.

(** Guest memory is as [s] left it but for the bytes [bs] at [a], the handler is
    [h], and nothing else has changed. *)
Record file_step s (a : Z) (bs : list Z) (h : SyscallHandler) s' : Prop := {
  fs_mem : became s (stored (byte_at s) a bs) s';
  fs_handler : sy s' = h;
  fs_rest : tm (th s') = tm (th s) /\ in_hle (th s') = in_hle (th s) /\ sy_brk s' = sy_brk s /\
    sy_running s' = sy_running s /\ cout s' = cout s /\ cerr s' = cerr s /\ sy_os s' = sy_os s;
}.

Lemma take_length_take {A} n (l : list A) : take (length (take n l)) l = take n l.
Proof.
  rewrite length_take. destruct (decide (n <= length l)%nat).
  - by rewrite Nat.min_l.
  - rewrite Nat.min_r, firstn_all, take_ge by lia. done.
Qed.

Lemma s64_small x : 0 <= x < 2 ^ 63 -> s64 x = x.
Proof. intros H. unfold s64. rewrite u64_small by u64_lia. by rewrite (proj2 (Z.ltb_lt _ _)) by lia. Qed.

Lemma alter_insert_lookup {A} (f : A -> A) (k : Z) (m : gmap Z A) v : m !! k = Some v -> alter f k m = <[k := f v]> m.
Proof.
  intros Hv. apply map_eq. intros j. destruct (decide (j = k)) as [->|Hj].
  - by rewrite lookup_alter_eq, lookup_insert_eq, Hv.
  - by rewrite lookup_alter_ne, lookup_insert_ne.
Qed.

Lemma became_same s f s' s'' : became s f s' -> ss_mem s'' = ss_mem s' -> became s f s''.
Proof.
  intros [[K1 K2 K3 K4] H2 H3 H4 H5] Hm. constructor; [constructor|..]; cbn in *; rewrite ?Hm; auto.
Qed.

(** Reading moves the position over the bytes it hands out. *)
Definition at_position (v : VirtualFd) (p : Z) : VirtualFd := v <| vf_position := p |>.

Lemma read_spec s fd v buf count :
  sane s -> open_fds_ (sy s) !! fd = Some v ->
  0 <= vf_position v <= Z.of_nat (length (vf_data v)) -> Z.of_nat (length (vf_data v)) < 2 ^ 63 -> 0 <= count ->
  let bs := take (Z.to_nat count) (drop (Z.to_nat (vf_position v)) (vf_data v)) in
  (bs <> [] -> mapped buf (Z.of_nat (length bs)) s) ->
  exists s', sys_read fd buf count s = Ret (Z.of_nat (length bs)) s' /\
    file_step s buf bs ((sy s) <| open_fds_ ::= <[fd := at_position v (vf_position v + Z.of_nat (length bs))]> |>) s'.
Proof.
  intros Hs Hv Hp Hsize Hc bs Hmap. unfold sys_read, mbind, hle_bind, gets. rewrite Hv.
  set (size := Z.of_nat (length (vf_data v))) in *.
  assert (Hlen : Z.of_nat (length bs) = Z.min count (size - vf_position v)) by (unfold bs; rewrite length_take, length_drop; lia).
  assert (Hid : forall p, p = vf_position v -> sy s = (sy s) <| open_fds_ ::= <[fd := at_position v p]> |>).
  { intros p ->. destruct (sy s) as [vf fds nf cb fw] eqn:Es. cbn in Hv. unfold set_field, set_open_fds_. cbv beta. f_equal. symmetry. apply insert_id. by destruct v. }
  assert (Hnone : bs = [] -> file_step s buf bs ((sy s) <| open_fds_ ::= <[fd := at_position v (vf_position v + Z.of_nat (length bs))]> |>) s).
  { intros Hb. rewrite Hb. constructor; [|apply Hid; cbn; lia|done]. apply (became_same s _ s); [|done].
    pose proof (became_refl s Hs) as [B1 B2 B3 B4 B5]. constructor; try done. intros x. unfold stored. rewrite decide_False; [done|].
    cbn. lia. }
  destruct (Z.eqb_spec size 0) as [H0|H0].
  { assert (bs = []) as Hb by (destruct bs; [done|cbn in Hlen; lia]). exists s. split; [rewrite Hb; done|by apply Hnone]. }
  rewrite (u64_small (size - vf_position v)) by u64_lia. rewrite <- Hlen.
  destruct (Z.ltb_spec 0 (Z.of_nat (length bs))) as [Hpos|Hz].
  2: { assert (bs = []) as Hb by (destruct bs; [done|cbn in Hz; lia]). exists s. split; [by rewrite Hb|by apply Hnone]. }
  rewrite (proj2 (Z.leb_le _ _)) by lia.
  replace (take (Z.to_nat (Z.of_nat (length bs))) (drop (Z.to_nat (vf_position v)) (vf_data v))) with bs
    by (rewrite Nat2Z.id; symmetry; apply take_length_take).
  assert (Hne : bs <> []) by (intros Hb; rewrite Hb in Hpos; done).
  pose proof (write_became buf bs s (byte_at s) s (became_refl s Hs) (Hmap Hne) Hne) as Hw.
  unfold mem_wr, modify. eexists. split; [unfold mret, hle_ret; f_equal; apply s64_small; lia|].
  constructor.
  - eapply became_same; [exact Hw|done].
  - trans ((sy s) <| open_fds_ ::= alter (fun v => v <| vf_position := vf_position v ⊕ Z.of_nat (length bs) |>) fd |>).
    { cbn [gwrite sstate_machine lift_machine]. by destruct (gwrite buf bs (ss_mem s)). }
    unfold set_field, set_open_fds_. f_equal. rewrite (alter_insert_lookup _ _ _ _ Hv). f_equal.
    unfold at_position. do 2 f_equal. rewrite u64_small by u64_lia. done.
  - cbn [gwrite sstate_machine lift_machine]. by destruct (gwrite buf bs (ss_mem s)) as [ok m].
Qed.

(** Several steps: guest memory may have changed in [[a, a + n)]. *)
Record file_run s (a n : Z) (h : SyscallHandler) s' : Prop := {
  fr_sane : sane s';
  fr_map b m : mapped b m s' <-> mapped b m s;
  fr_reg r : getr r s' = getr r s;
  fr_byte x : ~ (a <= x < a + n) -> byte_at s' x = byte_at s x;
  fr_handler : sy s' = h;
  fr_rest : tm (th s') = tm (th s) /\ in_hle (th s') = in_hle (th s) /\ sy_brk s' = sy_brk s /\
    sy_running s' = sy_running s /\ cout s' = cout s /\ cerr s' = cerr s /\ sy_os s' = sy_os s;
}.

Lemma file_run_refl s a n : sane s -> file_run s a n (sy s) s.
Proof. by constructor. Qed.

Lemma file_run_step s a n bs h s' : file_step s a bs h s' -> Z.of_nat (length bs) <= n -> file_run s a n h s'.
Proof.
  intros [[B1 B2 B3 B4 B5] Hh Hr] Hn. constructor; try done. intros x Hx. rewrite B4. apply stored_out. lia.
Qed.

Lemma file_run_trans s a n h1 s1 h2 s2 : file_run s a n h1 s1 -> file_run s1 a n h2 s2 -> file_run s a n h2 s2.
Proof.
  intros [A1 A2 A3 A4 A5 A6] [B1 B2 B3 B4 B5 B6]. constructor; try done.
  - intros b m. by rewrite B2.
  - intros r. by rewrite B3.
  - intros x Hx. rewrite B4 by done. auto.
  - destruct_and!. split_and!; congruence.
Qed.

Lemma fds_twice h fd v w :
  h <| open_fds_ ::= <[fd := v]> |> <| open_fds_ ::= <[fd := w]> |> = h <| open_fds_ ::= <[fd := w]> |>.
Proof.
  unfold set_field, set_open_fds_. cbn [virtual_files_ open_fds_ next_fd_ current_brk_ futex_waiters_].
  by rewrite insert_insert_eq.
Qed.

(** A guest that reads to the end, [count] bytes at a time, through one buffer. *)
Fixpoint read_all (fuel : nat) (fd buf count : Z) : hle sstate (list Z) :=
  match fuel with
  | O => mret []
  | S fuel' =>
      n ← sys_read fd buf count;
      if 0 <? n
      then bs ← mem_rd_into buf n; rest ← read_all fuel' fd buf count; mret (bs ++ rest)
      else mret []
  end.

Lemma read_all_spec fuel fd buf count : forall s v, sane s -> open_fds_ (sy s) !! fd = Some v ->
  0 <= vf_position v <= Z.of_nat (length (vf_data v)) -> Z.of_nat (length (vf_data v)) < 2 ^ 63 -> 0 < count ->
  mapped buf count s -> Z.of_nat (length (vf_data v)) - vf_position v < Z.of_nat fuel ->
  exists s', read_all fuel fd buf count s = Ret (drop (Z.to_nat (vf_position v)) (vf_data v)) s' /\
    file_run s buf count ((sy s) <| open_fds_ ::= <[fd := at_position v (Z.of_nat (length (vf_data v)))]> |>) s'.
Proof.
  induction fuel as [|fuel IH]; intros s v Hs Hv Hp Hsize Hc Hm Hf; [lia|]. cbn [read_all].
  set (bs := take (Z.to_nat count) (drop (Z.to_nat (vf_position v)) (vf_data v))).
  assert (Hlen : Z.of_nat (length bs) = Z.min count (Z.of_nat (length (vf_data v)) - vf_position v))
    by (unfold bs; rewrite length_take, length_drop; lia).
  destruct (read_spec s fd v buf count) as (s1 & E1 & F1); [done..|lia| |].
  { fold bs. intros Hne. assert (0 < Z.of_nat (length bs)) by (destruct bs; [done|cbn; lia]).
    eapply mapped_sub; [exact Hm|lia..]. }
  fold bs in E1, F1. unfold mbind, hle_bind at 1. rewrite E1.
  pose proof (file_run_step s buf count bs _ s1 F1 ltac:(lia)) as R1.
  destruct (Z.ltb_spec 0 (Z.of_nat (length bs))) as [Hpos|Hz].
  - assert (Hne : bs <> []) by (intros Hb; rewrite Hb in Hpos; done). unfold hle_bind at 1, mem_rd_into.
    assert (Hrd : gread buf (Z.of_nat (length bs)) s1 = Some bs).
    { apply gread_holds; [apply (fr_sane _ _ _ _ _ R1)|apply (fr_map _ _ _ _ _ R1)|done|].
      - eapply mapped_sub; [exact Hm|lia..].
      - eapply holds_at_ext; [|apply holds_stored]. intros x _. symmetry. apply F1. }
    rewrite Hrd. cbn [default from_option id].
    destruct (IH s1 (at_position v (vf_position v + Z.of_nat (length bs)))) as (s2 & E2 & R2).
    { apply R1. } { rewrite (fr_handler _ _ _ _ _ R1). cbn. apply lookup_insert_eq. } { cbn. lia. } { done. } { done. }
    { by apply (fr_map _ _ _ _ _ R1). } { cbn. lia. }
    unfold hle_bind. rewrite E2. exists s2. split.
    + unfold mret, hle_ret. f_equal. cbn [vf_position vf_data at_position set_field set_vf_position].
      rewrite <- (take_drop (Z.to_nat count) (drop (Z.to_nat (vf_position v)) (vf_data v))). fold bs. f_equal.
      destruct (decide (count <= Z.of_nat (length (vf_data v)) - vf_position v)).
      * rewrite drop_drop. f_equal. lia.
      * rewrite !drop_ge; rewrite ?length_drop; [done|lia..].
    + eapply file_run_trans; [exact R1|]. rewrite (fr_handler _ _ _ _ _ R1) in R2.
      rewrite fds_twice in R2. exact R2.
  - assert (vf_position v = Z.of_nat (length (vf_data v))) as Hend by lia. exists s1. split.
    + unfold mret, hle_ret. f_equal. rewrite drop_ge by lia. done.
    + replace (Z.of_nat (length (vf_data v))) with (vf_position v + Z.of_nat (length bs)) by lia. exact R1.
Qed.

(** The bytes of a path and its terminator. *)
Lemma sys_read_string_spec n s a path : sane s -> Forall (fun b => b <> 0) path -> (length path < n)%nat ->
  mapped a (Z.of_nat (length path) + 1) s -> holds_at (byte_at s) a (path ++ [0]) -> sys_read_string n a s = Ret path s.
Proof.
  intros Hs. revert a path. induction n as [|n IH]; intros a path Hnz Hl Hm Hh; [lia|]. cbn [sys_read_string].
  assert (Hb : gread a 1 s = Some [hd 0 path]).
  { apply (gread_holds a [hd 0 path] s (sane_mem _ Hs)); [|done|].
    - eapply mapped_sub; [exact Hm|cbn;lia..].
    - intros [|i] b Hb; [|done]. injection Hb as <-. apply (Hh 0%nat). by destruct path. }
  unfold mbind, hle_bind at 1, mem_rd. rewrite Hb. destruct path as [|c path]; [done|]. cbn [hd].
  apply Forall_cons in Hnz as [Hc Hnz]. rewrite (proj2 (Z.eqb_neq c 0)) by done. unfold hle_bind.
  pose proof (mapped_range a _ s (sane_mem _ Hs) Hm) as [? ?]. cbn [length] in *. rewrite (u64_small (a + 1)) by u64_lia.
  rewrite (IH (a + 1) path); [done..|lia| |].
  - eapply mapped_sub; [exact Hm|lia..].
  - intros i b Hi. rewrite <- (Hh (S i) b) by done. f_equal. lia.
Qed.

(** C19: A virtual file is read back as it was added. Opening its path and reading
    through any buffer in steps of any size until the call returns 0 hands out the
    file's bytes in order, complete; closing gives the descriptor back, so that
    the table of open files is as before.  Guest memory changes in the buffer
    only. *)
Theorem virtual_file_roundtrip s dirfd flags mode pathname path data buf count fuel :
  sane s -> handler_wf (sy s) -> next_fd_ (sy s) < 2 ^ 31 - 1 ->
  Forall (fun b => b <> 0) path -> (length path < PATH_LIMIT)%nat ->
  mapped pathname (Z.of_nat (length path) + 1) s -> holds_at (byte_at s) pathname (path ++ [0]) ->
  virtual_files_ (sy s) !! path = Some data -> Z.of_nat (length data) < 2 ^ 63 ->
  0 < count -> mapped buf count s -> (length data < fuel)%nat ->
  exists s', (fd ← sys_openat dirfd pathname flags mode; bs ← read_all fuel fd buf count; r ← sys_close fd;
              mret (fd, bs, r)) s = Ret (next_fd_ (sy s), data, 0) s' /\
    file_run s buf count ((sy s) <| next_fd_ := next_fd_ (sy s) + 1 |>) s'.
Proof.
  intros Hs Hwf Hfd Hnz Hl Hmp Hhp Hfile Hsize Hc Hm Hf. unfold sys_openat.
  set (fd := next_fd_ (sy s)) in *. assert (Hn : s32 (fd + 1) = fd + 1).
  { pose proof (hw_next _ Hwf). unfold s32, u32. rewrite Z.mod_small by (unfold two32; lia). by rewrite (proj2 (Z.ltb_lt _ _)) by lia. }
  set (v := {| vf_fd := fd; vf_path := path; vf_data := data; vf_position := 0; vf_is_open := true |}).
  set (h1 := (sy s) <| next_fd_ := fd + 1 |> <| open_fds_ ::= <[fd := v]> |>).
  set (s1 := s <| sy := h1 |>).
  assert (Hs1 : sane s1) by (destruct Hs; by constructor).
  destruct (read_all_spec fuel fd buf count s1 v) as (s2 & E2 & R2); [done|cbn; apply lookup_insert_eq|cbn; lia|done..|cbn; lia|].
  unfold mbind, hle_bind. rewrite (sys_read_string_spec _ s pathname path) by done. unfold gets. rewrite Hfile.
  assert (Ea : allocate_fd s = Ret fd (s <| sy := (sy s) <| next_fd_ := fd + 1 |> |>)).
  { unfold allocate_fd. fold fd. rewrite <- Hn. reflexivity. }
  rewrite Ea. unfold modify, mret, hle_ret. change (_ <| sy ::= _ |>) with s1.
  rewrite E2. unfold sys_close, mbind, hle_bind, gets.
  pose proof (fr_handler _ _ _ _ _ R2) as Hh2.
  assert (Ho : open_fds_ (sy s2) !! fd = Some (at_position v (Z.of_nat (length data)))) by (rewrite Hh2; cbn; apply lookup_insert_eq).
  rewrite Ho. unfold modify. eexists. split; [reflexivity|].
  assert (Hfree : open_fds_ (sy s) !! fd = None).
  { destruct (open_fds_ (sy s) !! fd) as [w|] eqn:Hw; [|done]. destruct (hw_fd _ Hwf _ _ Hw) as (_ & _ & ? & _). unfold fd in *. lia. }
  destruct R2 as [A1 A2 A3 A4 A5 A6]. constructor; try done.
  - destruct A1. by constructor.
  - cbn [sy set_field set_sy]. rewrite Hh2. unfold s1, h1, set_field, set_open_fds_, set_next_fd_.
    cbn [virtual_files_ open_fds_ next_fd_ current_brk_ futex_waiters_ sy set_sy set_field]. f_equal.
    rewrite insert_insert_eq. by apply delete_insert_id.
Qed.

(** Reading past the end. [lseek] accepts any position, and a [read] from
    behind the end of a file that is not empty computes the bytes left as a huge
    unsigned number: instead of returning 0 it reads outside the file's buffer,
    whatever the guest asks for. *)
Theorem seek_past_end_faults s fd v offset buf count : open_fds_ (sy s) !! fd = Some v -> vf_data v <> [] ->
  Z.of_nat (length (vf_data v)) < offset < 2 ^ 63 -> 0 < count ->
  exists s', sys_lseek fd offset 0 s = Ret offset s' /\ sys_read fd buf count s' = Segv.
Proof.
  intros Hv Hne Ho Hc. unfold sys_lseek, mbind, hle_bind, gets. rewrite Hv. cbn [Z.eqb].
  unfold modify, mret, hle_ret. rewrite (u64_small offset), (s64_small offset) by u64_lia. eexists. split; [reflexivity|].
  unfold sys_read, mbind, hle_bind, gets. cbn [sy set_field set_sy open_fds_ set_open_fds_]. rewrite lookup_alter_eq, Hv.
  cbn [fmap option_fmap option_map vf_data vf_position set_field set_vf_position].
  assert (0 < Z.of_nat (length (vf_data v))) by (destruct (vf_data v); [done|cbn; lia]).
  rewrite (proj2 (Z.eqb_neq _ 0)) by lia.
  assert (Ew : Z.of_nat (length (vf_data v)) ⊖ offset = two64 - (offset - Z.of_nat (length (vf_data v)))).
  { unfold u64. symmetry. apply (Z.mod_unique_pos _ _ (-1)); unfold two64; lia. }
  rewrite Ew. rewrite (proj2 (Z.ltb_lt _ _)) by (unfold two64; lia). rewrite (proj2 (Z.leb_gt _ _)) by (unfold two64; lia). done.
Qed.

End Files.

(** * Witnesses *)

(** A host without descriptors or files. *)
#[export] Instance RefOs : HostOs := {|
  os := unit;
  os_pipe o := (Errno 24, o);
  os_socket _ _ _ o := (Errno 97, o);
  os_connect _ _ o := (Errno 9, o);
  os_bind _ _ o := (Errno 9, o);
  os_listen _ _ o := (Errno 9, o);
  os_accept _ _ o := (Errno 9, o);
  os_getsockname _ _ o := (Errno 9, o);
  os_getpeername _ _ o := (Errno 9, o);
  os_getsockopt _ _ _ _ o := (Errno 9, o);
  os_setsockopt _ _ _ _ o := (Errno 9, o);
  os_sendto _ _ _ _ _ o := (Errno 9, o);
  os_recvfrom _ _ _ _ o := (Errno 9, o);
  os_realtime o := ((1700000000, 5000), o);
  os_gen64 o := (42, o);
  os_file_head _ _ := None;
  os_getenv_shim_path _ := None;
  os_readlink_exe _ := None;
  os_run_child _ _ _ o := (ForkFailed 11, o);
  vector_limit := 16;
|}.

(** The main thread runs, a worker waits on the futex at 0x1100, the virtual file
    [","] holds five bytes. *)
Definition demo_futex_waiter : ThreadContext := new_context <| thread_id := 4096 |> <| ThreadTypes.state := BLOCKED |>
  <| futex_wait_addr := 0x1100 |>.
Definition demo_sys : sstate (E := RefEnv) (HO := RefOs) := {|
  sy := (add_virtual_file [44] [1; 2; 3; 4; 5] new_handler)
          <| futex_waiters_ := {[ 0x1100 := [{| fw_thread_id := 4096; fw_bitset := FUTEX_BITSET_MATCH_ANY; fw_return_addr := 0 |}] ]} |>;
  th := {| tm := tm_init <| current_thread_id_ := 1 |>
                   <| threads_ := {[ 1 := demo_main; 4096 := demo_futex_waiter ]} |>;
           ms := text_regs 0 0 0; in_hle := false |};
  sy_brk := {| initial_brk := 0; current_brk := 0 |}; sy_running := true; cout := []; cerr := []; sy_os := tt |}.

Lemma demo_tables : tables_ok demo_sys.
Proof.
  constructor.
  - intros fd v Hv. cbn in Hv. repeat (apply lookup_insert_Some in Hv as [[<- <-]|[_ Hv]]; [split_and!; first [done | constructor]|]).
    by rewrite lookup_empty in Hv.
  - done.
  - intros path data Hd. cbn in Hd. apply lookup_insert_Some in Hd as [[_ <-]|[_ Hd]]; [by repeat first [apply Forall_nil; done | apply Forall_cons; split; [lia|]]|by rewrite lookup_empty in Hd].
  - intros a q Hq. cbn in Hq. apply lookup_singleton_Some in Hq as [_ <-]. done.
Qed.

Lemma demo_sane : sane demo_sys.
Proof. destruct (text_sane 0 0 0) as [H1 H2 H3 H4]. by constructor. Qed.

Lemma demo_futex_ok : futex_ok demo_sys.
Proof.
  assert (Hth : forall k c, threads_ (tm (th demo_sys)) !! k = Some c ->
    k = 1 /\ c = demo_main \/ k = 4096 /\ c = demo_futex_waiter).
  { intros k c Hk. cbn in Hk. apply lookup_insert_Some in Hk as [[<- <-]|[_ Hk]]; [by left|].
    apply lookup_singleton_Some in Hk as [<- <-]. by right. }
  constructor.
  - constructor; intros k c [[-> ->]|[-> ->]]%Hth; try done.
  - intros a q Hq. cbn in Hq. apply lookup_singleton_Some in Hq as [<- <-]. split_and!; [done|apply NoDup_singleton|].
    intros k ->%list_elem_of_singleton. exists demo_futex_waiter. done.
  - intros k c [[-> ->]|[-> ->]]%Hth Hs Ha; [done|]. eexists. split; [reflexivity|by left].
Qed.

Lemma handler_typed_witness : tables_ok demo_sys /\
  match handle_syscall SYS_CLOSE demo_sys with Ret _ s' => tables_ok s' | Thrown s' => tables_ok s' | Segv => True end.
Proof. split; [apply demo_tables|]. apply (handler_typed SYS_CLOSE demo_sys); [apply demo_tables|done]. Defined.

(** The main thread waits on the word at [0x1108], which holds 44, and another thread is
    woken from [0x1100]. *)
Lemma futex_correct_witness :
  (exists s', futex_wake 0x1100 1 1 demo_sys = Ret 1 s' /\
     threads_ (tm (th s')) !! 4096 = Some (woken demo_futex_waiter)) /\
  (exists s', futex_wait 0x1108 44 1 0 demo_sys = Ret 0 s' /\ futex_blocks 0x1108 1 demo_sys s').
Proof.
  destruct (futex_correct demo_sys demo_main) as (_ & Hw & H); [apply demo_futex_ok|done..|]. split.
  - destruct (H 0x1100 1 1) as (s' & Hs & W); [done|]. exists s'. split; [exact Hs|].
    apply W; [by left|done].
  - destruct (Hw 0x1108 44 1 0 [44; 0; 0; 0]) as (_ & _ & Hb); [vm_compute; reflexivity|].
    apply Hb; [reflexivity|]. intros [Ht|Ht]; [discriminate Ht|vm_compute in Ht; lia].
Defined.

Lemma virtual_file_roundtrip_witness : exists s',
  (fd ← sys_openat 0 0x1108 0 0; bs ← read_all 6 fd 0x1200 2; r ← sys_close fd; mret (fd, bs, r)) demo_sys
  = Ret (3, [1; 2; 3; 4; 5], 0) s'.
Proof.
  destruct (virtual_file_roundtrip demo_sys 0 0 0 0x1108 [44] [1; 2; 3; 4; 5] 0x1200 2 6) as (s' & Hs & _).
  - apply demo_sane.
  - apply demo_tables.
  - done.
  - by repeat constructor.
  - unfold PATH_LIMIT. cbn. lia.
  - apply (text_mapped 0 0 0); cbn; lia.
  - apply (text_comma 0 0 0).
  - reflexivity.
  - done.
  - done.
  - apply (text_mapped 0 0 0); cbn; lia.
  - cbn. lia.
  - by exists s'.
Defined.

(** A state with the file open as descriptor 3. *)
Definition demo_open : sstate (E := RefEnv) (HO := RefOs) :=
  demo_sys <| sy ::= fun h => h <| next_fd_ := 4 |> <| open_fds_ ::=
    <[3 := {| vf_fd := 3; vf_path := [44]; vf_data := [1; 2; 3; 4; 5]; vf_position := 0; vf_is_open := true |}]> |> |>.

Lemma seek_past_end_faults_witness : sys_openat 0 0x1108 0 0 demo_sys = Ret 3 demo_open /\
  exists s', sys_lseek 3 6 0 demo_open = Ret 6 s' /\ sys_read 3 0x1200 1 s' = Segv.
Proof.
  split.
  - unfold sys_openat, mbind, hle_bind. rewrite (sys_read_string_spec PATH_LIMIT demo_sys 0x1108 [44]); [reflexivity|..].
    + apply demo_sane.
    + by repeat constructor.
    + unfold PATH_LIMIT. cbn. lia.
    + apply (text_mapped 0 0 0); cbn; lia.
    + apply (text_comma 0 0 0).
  - apply (seek_past_end_faults demo_open 3
      {| vf_fd := 3; vf_path := [44]; vf_data := [1; 2; 3; 4; 5]; vf_position := 0; vf_is_open := true |}); [reflexivity|done|cbn; lia|lia].
Defined.
