(* ===== verification/NativeThreads.v ===== *)
(** Guest threads on host threads (src/src/hle/hle_pthread.cpp): the registry of
    threads, the arenas their stacks and TLS blocks come from, creation through a
    clone trampoline, exit, join, detach, cleanup handlers.

    [nstate] is what a handler of one host thread sees: the file-scope variables
    ([Registry]), that thread's own variables and guest memory.  Handlers are
    state transformers; a [std::vector] used as a stack is a list with its back
    first; the reads of attribute fields leave the default where the memory
    manager refuses them.  [pthread_join] is split where it waits: [join_begin] up
    to the wait, [join_finish] after it.  Names and logging are left out. *)

From S2P Require Import Prelude Env MemoryManager MemorySpec Machine HostAccess Lift HleManager GuestCall Arm64.

(** * Data *)

Record QemuThread := {
  q_thread_id : Z;
  q_start_routine : Z;
  q_arg : Z;
  q_stack_base : Z;
  q_stack_size : Z;
  q_reported_stack_size : Z;
  q_tls_base : Z;
  q_guest_stack_addr : Z;
  q_guest_guard_size : Z;
  q_sched_policy : Z;
  q_sched_priority : Z;
  q_detached : bool;
  q_join_in_progress : bool;
  q_started : bool;
  q_completed : bool;
  q_exit_reported : bool;
  q_return_value : Z;
}.

Definition eta_qt (t : QemuThread) : QemuThread :=
  Build_QemuThread (q_thread_id t) (q_start_routine t) (q_arg t) (q_stack_base t) (q_stack_size t)
    (q_reported_stack_size t) (q_tls_base t) (q_guest_stack_addr t) (q_guest_guard_size t) (q_sched_policy t)
    (q_sched_priority t) (q_detached t) (q_join_in_progress t) (q_started t) (q_completed t) (q_exit_reported t)
    (q_return_value t).
#[export] Instance set_q_detached : Setter q_detached := ltac:(build_setter eta_qt q_detached).
#[export] Instance set_q_join_in_progress : Setter q_join_in_progress := ltac:(build_setter eta_qt q_join_in_progress).
#[export] Instance set_q_completed : Setter q_completed := ltac:(build_setter eta_qt q_completed).
#[export] Instance set_q_exit_reported : Setter q_exit_reported := ltac:(build_setter eta_qt q_exit_reported).
#[export] Instance set_q_return_value : Setter q_return_value := ltac:(build_setter eta_qt q_return_value).

Record GuestCleanupHandler := { ch_cleanup_addr : Z; ch_routine : Z; ch_arg : Z }.

Record Registry := {
  g_threads : gmap Z QemuThread;
  g_next_thread_id : Z;
  g_main_thread_sched_policy : Z;
  g_main_thread_sched_priority : Z;
  g_next_stack_addr : Z;
  g_next_tls_addr : Z;
  g_free_stack_region_bases : list Z;
  g_free_tls_region_bases : list Z;
  g_guest_vma_count : Z;
  g_guest_vma_reservations : gmap Z Z;
  g_trampoline_written : bool;
  exit_in_progress : bool;
  g_cleanup_handlers : gmap Z (list GuestCleanupHandler);
  g_pending_pthread_exit_values : gmap Z Z;
  cleanup_trampoline_once : bool;
  exit_code_once : bool;
}.

Definition eta_rg (r : Registry) : Registry :=
  Build_Registry (g_threads r) (g_next_thread_id r) (g_main_thread_sched_policy r) (g_main_thread_sched_priority r)
    (g_next_stack_addr r) (g_next_tls_addr r) (g_free_stack_region_bases r) (g_free_tls_region_bases r)
    (g_guest_vma_count r) (g_guest_vma_reservations r) (g_trampoline_written r) (exit_in_progress r)
    (g_cleanup_handlers r) (g_pending_pthread_exit_values r) (cleanup_trampoline_once r) (exit_code_once r).
#[export] Instance set_g_threads : Setter g_threads := ltac:(build_setter eta_rg g_threads).
#[export] Instance set_g_next_thread_id : Setter g_next_thread_id := ltac:(build_setter eta_rg g_next_thread_id).
#[export] Instance set_g_next_stack_addr : Setter g_next_stack_addr := ltac:(build_setter eta_rg g_next_stack_addr).
#[export] Instance set_g_next_tls_addr : Setter g_next_tls_addr := ltac:(build_setter eta_rg g_next_tls_addr).
#[export] Instance set_g_free_stack : Setter g_free_stack_region_bases := ltac:(build_setter eta_rg g_free_stack_region_bases).
#[export] Instance set_g_free_tls : Setter g_free_tls_region_bases := ltac:(build_setter eta_rg g_free_tls_region_bases).
#[export] Instance set_g_vma_count : Setter g_guest_vma_count := ltac:(build_setter eta_rg g_guest_vma_count).
#[export] Instance set_g_vma_res : Setter g_guest_vma_reservations := ltac:(build_setter eta_rg g_guest_vma_reservations).
#[export] Instance set_g_trampoline_written : Setter g_trampoline_written := ltac:(build_setter eta_rg g_trampoline_written).
#[export] Instance set_g_cleanup : Setter g_cleanup_handlers := ltac:(build_setter eta_rg g_cleanup_handlers).
#[export] Instance set_g_pending : Setter g_pending_pthread_exit_values := ltac:(build_setter eta_rg g_pending_pthread_exit_values).
#[export] Instance set_cleanup_once : Setter cleanup_trampoline_once := ltac:(build_setter eta_rg cleanup_trampoline_once).
#[export] Instance set_exit_once : Setter exit_code_once := ltac:(build_setter eta_rg exit_code_once).

Definition QEMU_THREAD_STACK_SIZE : Z := 0x100000.
Definition QEMU_THREAD_TLS_SIZE : Z := 0x10000.
Definition QEMU_THREAD_STACK_BASE : Z := 0x90000000.
Definition QEMU_THREAD_TLS_BASE : Z := 0xD0000000.
Definition QEMU_THREAD_STACK_CEILING : Z := SAFE_CALL_STACK_BASE.
Definition QEMU_THREAD_TLS_CEILING : Z := 0xE0000000.
Definition SAFE_CALL_ARENA_END_GUEST : Z := 0xB0000000.
Definition SAFE_CALL_TID_BASE : Z := 0x40000000.
Definition GUEST_VMA_LIMIT : Z := 4096.
Definition GUEST_DEFAULT_PTHREAD_STACK_SIZE : Z := 8 * 1024 * 1024.
Definition GUEST_DEFAULT_PTHREAD_GUARD_SIZE : Z := 4096.
Definition CLONE_TRAMPOLINE_ADDR : Z := 0x10080000.
Definition THREAD_WRAPPER_ADDR : Z := 0x10080100.
Definition CLEANUP_CALLBACK_TRAMPOLINE_ADDR : Z := 0x10080400.
Definition PTHREAD_EXIT_CODE_ADDR : Z := 0x100FFF40.

(** Initial values of the file-scope variables. *)
Definition new_registry : Registry :=
  {| g_threads := ∅; g_next_thread_id := 0x1000; g_main_thread_sched_policy := 0; g_main_thread_sched_priority := 0;
     g_next_stack_addr := QEMU_THREAD_STACK_BASE; g_next_tls_addr := QEMU_THREAD_TLS_BASE;
     g_free_stack_region_bases := []; g_free_tls_region_bases := []; g_guest_vma_count := 0;
     g_guest_vma_reservations := ∅; g_trampoline_written := false; exit_in_progress := false;
     g_cleanup_handlers := ∅; g_pending_pthread_exit_values := ∅; cleanup_trampoline_once := false;
     exit_code_once := false |}.

(** * The VMA budget (include/hle_mmap_state.h) *)

Definition hle_try_reserve_vmas (key count : Z) (r : Registry) : bool * Registry :=
  if (key =? 0) || (count =? 0) then (true, r)
  else if GUEST_VMA_LIMIT <? g_guest_vma_count r + count then (false, r)
  else (true, r <| g_guest_vma_count := g_guest_vma_count r + count |>
                <| g_guest_vma_reservations ::= fun m => <[key := default 0 (m !! key) + count]> m |>).

Definition hle_release_vmas (key : Z) (r : Registry) : Registry :=
  if key =? 0 then r
  else match g_guest_vma_reservations r !! key with
       | None => r
       | Some n => r <| g_guest_vma_count := if n <=? g_guest_vma_count r then g_guest_vma_count r - n else 0 |>
                     <| g_guest_vma_reservations ::= delete key |>
       end.

(** * Regions *)

(** The first critical section of the two allocators: a recycled region, or a
    fresh one below the ceiling. *)
Definition take_stack_region (r : Registry) : option (Z * bool) * Registry :=
  match g_free_stack_region_bases r with
  | addr :: rest => (Some (addr, true), r <| g_free_stack_region_bases := rest |>)
  | [] => let next := g_next_stack_addr r in
          if QEMU_THREAD_STACK_CEILING <? next ⊕ QEMU_THREAD_STACK_SIZE then (None, r)
          else (Some (next, false), r <| g_next_stack_addr := next ⊕ QEMU_THREAD_STACK_SIZE |>)
  end.
Definition take_tls_region (r : Registry) : option (Z * bool) * Registry :=
  match g_free_tls_region_bases r with
  | addr :: rest => (Some (addr, true), r <| g_free_tls_region_bases := rest |>)
  | [] => let next := g_next_tls_addr r in
          if QEMU_THREAD_TLS_CEILING <? next ⊕ QEMU_THREAD_TLS_SIZE then (None, r)
          else (Some (next, false), r <| g_next_tls_addr := next ⊕ QEMU_THREAD_TLS_SIZE |>)
  end.
Definition give_stack_region (addr : Z) (r : Registry) : Registry := r <| g_free_stack_region_bases ::= cons addr |>.
Definition give_tls_region (addr : Z) (r : Registry) : Registry := r <| g_free_tls_region_bases ::= cons addr |>.

Definition in_stack_arena (region : Z) : bool := (QEMU_THREAD_STACK_BASE <=? region) && (region <? QEMU_THREAD_STACK_CEILING).
Definition in_tls_arena (region : Z) : bool := (QEMU_THREAD_TLS_BASE <=? region) && (region <? QEMU_THREAD_TLS_CEILING).
(** The region a stack top or a TLS pointer belongs to. *)
Definition stack_region (stack_base : Z) : Z := stack_base ⊖ QEMU_THREAD_STACK_SIZE ⊕ 0x100.
Definition tls_region (tls_base : Z) : Z := tls_base ⊖ 8.

Definition recycle_thread_arena (stack_base guest_stack_addr tls_base : Z) (r : Registry) : Registry :=
  let r1 := if negb (stack_base =? 0) && in_stack_arena (stack_region stack_base)
            then give_stack_region (stack_region stack_base) r else r in
  if negb (tls_base =? 0) && in_tls_arena (tls_region tls_base) then give_tls_region (tls_region tls_base) r1 else r1.

(** Erases a thread and recycles what it used. *)
Definition erase_thread (id : Z) (r : Registry) : Registry :=
  match g_threads r !! id with
  | None => r
  | Some t => recycle_thread_arena (q_stack_base t) (q_guest_stack_addr t) (q_tls_base t) (r <| g_threads ::= delete id |>)
  end.

(** * Sizes and attributes *)

(** What the source asks the host for. *)
Class HostSched := { sysconf_pagesize : Z; sched_priority_min : Z -> Z; sched_priority_max : Z -> Z }.

Section Attributes.
Context {HS : HostSched}.

Definition get_guest_page_size : Z := if 0 <? sysconf_pagesize then sysconf_pagesize else 4096.

Definition round_up_to_multiple (value multiple : Z) : Z :=
  if multiple =? 0 then value
  else let remainder := value mod multiple in
       if remainder =? 0 then value
       else let addend := multiple - remainder in
            if two64 - 1 - addend <? value then 0 else value + addend.

Definition get_effective_guard_size (requested : Z) : Z :=
  if requested =? 0 then 0
  else if requested <? get_guest_page_size then get_guest_page_size
  else let rounded := round_up_to_multiple requested get_guest_page_size in
       if rounded =? 0 then requested else rounded.

Definition get_effective_stack_size (requested0 : Z) : Z :=
  let requested := if requested0 =? 0 then GUEST_DEFAULT_PTHREAD_STACK_SIZE else requested0 in
  let rounded := round_up_to_multiple requested get_guest_page_size in
  if rounded =? 0 then requested else rounded.

Definition SCHED_OTHER : Z := 0.
Definition SCHED_FIFO : Z := 1.
Definition SCHED_RR : Z := 2.
Definition SCHED_RESET_ON_FORK : Z := 0x40000000.

Definition validate_sched_params (sched_policy sched_priority : Z) : bool :=
  let base_policy := Z.land sched_policy (Z.lnot SCHED_RESET_ON_FORK) in
  if base_policy =? SCHED_OTHER then sched_priority =? 0
  else if (base_policy =? SCHED_FIFO) || (base_policy =? SCHED_RR)
  then let min_priority := sched_priority_min base_policy in
       let max_priority := sched_priority_max base_policy in
       if (min_priority =? -1) || (max_priority =? -1) then false
       else (min_priority <=? sched_priority) && (sched_priority <=? max_priority)
  else false.
End Attributes.

(** * Identity *)

Definition is_safe_call_stack_sp (sp : Z) : bool := (SAFE_CALL_STACK_BASE <=? sp) && (sp <? SAFE_CALL_ARENA_END_GUEST).
Definition safe_call_slot_from_sp (sp : Z) : Z := (sp ⊖ SAFE_CALL_STACK_BASE) / SAFE_CALL_STACK_SIZE.

Definition get_thread_id_from_sp (sp : Z) : Z :=
  if (0x7f800000 <=? sp) && (sp <? 0x80000000) then 0
  else if QEMU_THREAD_STACK_BASE <=? sp
  then 0x1000 + (sp - QEMU_THREAD_STACK_BASE) / QEMU_THREAD_STACK_SIZE
  else 0.

Section Threads.
Context {E : Env} `{!HostAccess E} {HS : HostSched}.

Record nstate := {
  rg : Registry;
  tl_current_thread_id : Z;
  tl_virtual_tid_override : Z;
  nt_mem : mstate;
}.
Definition eta_ns (s : nstate) : nstate := Build_nstate (rg s) (tl_current_thread_id s) (tl_virtual_tid_override s) (nt_mem s).
#[export] Instance set_rg : Setter rg := ltac:(build_setter eta_ns rg).
#[export] Instance set_tl_tid : Setter tl_current_thread_id := ltac:(build_setter eta_ns tl_current_thread_id).
#[export] Instance set_nt_mem : Setter nt_mem := ltac:(build_setter eta_ns nt_mem).
Implicit Types s : nstate.

Definition nt_put (m : mstate) s : nstate := s <| nt_mem := m |>.
#[export] Instance nstate_machine : Machine nstate := lift_machine nt_mem nt_put.
#[export] Instance nstate_host : HostView nstate := lift_host nt_mem nt_put.

Definition X (r : Z) s : Z := getr r s.
Definition set_X0 (v : Z) s : nstate := putr REG_X0 (u64 v) s.
(** [mem_write] where the result is ignored. *)
Definition poke (a : Z) (bs : list Z) s : nstate := (gwrite a bs s).2.

Definition get_current_guest_pthread_id s : Z * nstate :=
  if negb (tl_virtual_tid_override s =? 0) then (tl_virtual_tid_override s, s)
  else
    let sp := X REG_SP s in
    if is_safe_call_stack_sp sp
    then let slot := safe_call_slot_from_sp sp in
         if slot =? 0 then (if tl_current_thread_id s =? 0 then 1 else tl_current_thread_id s, s)
         else (SAFE_CALL_TID_BASE + slot, s)
    else let thread_id := get_thread_id_from_sp sp in
         let guest_thread_id := if thread_id =? 0 then 1 else thread_id in
         (guest_thread_id, s <| tl_current_thread_id := guest_thread_id |>).

(** * Allocation *)

Definition allocate_thread_stack s : Z * nstate :=
  match take_stack_region (rg s) with
  | (None, r1) => (0, s <| rg := r1 |>)
  | (Some (addr, recycled), r1) =>
      let stack_top := addr ⊕ QEMU_THREAD_STACK_SIZE ⊖ 0x100 in
      match hle_try_reserve_vmas stack_top 2 r1 with
      | (false, r2) => (0, s <| rg := if recycled then give_stack_region addr r2 else r2 |>)
      | (true, r2) =>
          if recycled then (stack_top, s <| rg := r2 |>)
          else match mem_map addr QEMU_THREAD_STACK_SIZE (Z.lor MEM_READ MEM_WRITE) "" (nt_mem s) with
               | (true, m) => (stack_top, s <| rg := r2 |> <| nt_mem := m |>)
               | (false, m) => (0, s <| rg := give_stack_region addr (hle_release_vmas stack_top r2) |> <| nt_mem := m |>)
               end
      end
  end.

Definition CANARY : Z := 0xDEADBEEFCAFEBABE.
Definition init_tls (addr : Z) s : nstate :=
  poke (addr ⊕ 0x30) (le_bytes 8 CANARY) (poke (addr ⊕ 0x28) (le_bytes 8 CANARY) s).

Definition allocate_thread_tls s : Z * nstate :=
  match take_tls_region (rg s) with
  | (None, r1) => (0, s <| rg := r1 |>)
  | (Some (addr, recycled), r1) =>
      let tls_base := addr ⊕ 8 in
      match hle_try_reserve_vmas tls_base 1 r1 with
      | (false, r2) => (0, s <| rg := if recycled then give_tls_region addr r2 else r2 |>)
      | (true, r2) =>
          if recycled then (tls_base, init_tls addr (s <| rg := r2 |>))
          else match mem_map addr QEMU_THREAD_TLS_SIZE (Z.lor MEM_READ MEM_WRITE) "" (nt_mem s) with
               | (true, m) => (tls_base, init_tls addr (s <| rg := r2 |> <| nt_mem := m |>))
               | (false, m) => (0, s <| rg := give_tls_region addr (hle_release_vmas tls_base r2) |> <| nt_mem := m |>)
               end
      end
  end.

(** * Code *)

Definition wrapper_code : list Z :=
  [0xF9400BE4; 0xD51BD044; 0xD28246A8; 0xD4000001; 0xA9400FE2; 0xAA0303E0; 0xD63F0040; 0xD2824688; 0xD4000001;
   0xD2800BA8; 0xD4000001].
Definition clone_code : list Z :=
  [0xD4000001; 0xB50000A0; 0xD28246C8; 0xD4000001; 0x1400003C; 0x00000000; 0xD2800000; 0xD65F03C0].

Definition write_thread_wrapper s : nstate :=
  if g_trampoline_written (rg s) then s
  else poke CLONE_TRAMPOLINE_ADDR (code_bytes clone_code)
         (poke THREAD_WRAPPER_ADDR (code_bytes wrapper_code) (s <| rg ::= fun r => r <| g_trampoline_written := true |> |>)).

(** * Creation *)

Definition read_guest_pthread_attr_i32 (attr offset default_value : Z) s : Z :=
  if attr =? 0 then default_value
  else match gread (attr ⊕ offset) 4 s with Some bs => s32 (le_value bs) | None => default_value end.
Definition read_guest_pthread_attr_u64 (attr offset default_value : Z) s : Z :=
  if attr =? 0 then default_value
  else match gread (attr ⊕ offset) 8 s with Some bs => le_value bs | None => default_value end.

Definition get_live_thread_sched_locked (id : Z) (r : Registry) : option (Z * Z) :=
  if id =? 1 then Some (g_main_thread_sched_policy r, g_main_thread_sched_priority r)
  else match g_threads r !! id with
       | Some t => if q_completed t then None else Some (q_sched_policy t, q_sched_priority t)
       | None => None
       end.

Definition EAGAIN : Z := 11.
Definition EINVAL : Z := 22.
Definition ESRCH : Z := 3.
Definition EDEADLK : Z := 35.
Definition CLONE_FLAGS : Z := 0x3D0F00.
Definition SYS_CLONE : Z := 220.

(** A default-constructed [QemuThread] with the fields creation sets. *)
Definition new_thread (id routine arg stack_base stack_size reported tls guest_stack guard policy priority : Z)
    (detached completed : bool) : QemuThread :=
  {| q_thread_id := id; q_start_routine := routine; q_arg := arg; q_stack_base := stack_base; q_stack_size := stack_size;
     q_reported_stack_size := reported; q_tls_base := tls; q_guest_stack_addr := guest_stack;
     q_guest_guard_size := guard; q_sched_policy := policy; q_sched_priority := priority; q_detached := detached;
     q_join_in_progress := false; q_started := true; q_completed := completed; q_exit_reported := false;
     q_return_value := 0 |}.

Definition fetch_thread_id s : Z * nstate :=
  (g_next_thread_id (rg s), s <| rg ::= fun r => r <| g_next_thread_id := g_next_thread_id r ⊕ 1 |> |>).
Definition register_thread (t : QemuThread) s : nstate := s <| rg ::= fun r => r <| g_threads ::= <[q_thread_id t := t]> |> |>.

(** The registers the clone trampoline starts with. *)
Definition enter_clone (stack_top tls caller_lr : Z) s : nstate :=
  putr REG_PC CLONE_TRAMPOLINE_ADDR (putr REG_LR caller_lr (putr 8 SYS_CLONE (putr 4 (stack_top ⊕ 32)
    (putr 3 tls (putr 2 (stack_top ⊕ 24) (putr 1 stack_top (putr 0 CLONE_FLAGS s))))))).

(** From "Allocate thread ID" on. *)
Definition spawn_thread (thread_ptr routine arg caller_lr stackaddr stacksize guardsize policy priority : Z)
    (detached : bool) s : nstate :=
  let '(id, s1) := fetch_thread_id s in
  let '(stack_top, s2) := if stackaddr =? 0 then allocate_thread_stack s1 else (stackaddr ⊕ stacksize ⊖ 0x100, s1) in
  if (stackaddr =? 0) && (stack_top =? 0) then set_X0 EAGAIN s2
  else
    let actual_stack_size := if stackaddr =? 0 then QEMU_THREAD_STACK_SIZE else stacksize in
    let guest_stack_base := if stackaddr =? 0 then stack_top ⊕ 0x100 ⊖ stacksize else stackaddr in
    let '(tls, s3) := allocate_thread_tls s2 in
    if tls =? 0
    then set_X0 EAGAIN (if stackaddr =? 0
                        then s3 <| rg ::= fun r => recycle_thread_arena stack_top 0 0 (hle_release_vmas stack_top r) |>
                        else s3)
    else
      let s4 := poke (stack_top ⊕ 16) (le_bytes 8 tls)
                  (poke (stack_top ⊕ 8) (le_bytes 8 arg) (poke stack_top (le_bytes 8 routine) s3)) in
      let s5 := if thread_ptr =? 0 then s4 else poke thread_ptr (le_bytes 8 id) s4 in
      let s6 := register_thread (new_thread id routine arg stack_top actual_stack_size stacksize tls guest_stack_base
                                   guardsize policy priority detached false) s5 in
      enter_clone stack_top tls caller_lr s6.

(** The scheduling parameters of the new thread; [None] is an invalid attribute. *)
Definition choose_sched (inheritsched req_policy req_priority : Z) s : option (Z * Z) * nstate :=
  if inheritsched =? 1
  then let '(me, s1) := get_current_guest_pthread_id s in
       (Some (default (g_main_thread_sched_policy (rg s1), g_main_thread_sched_priority (rg s1))
                (get_live_thread_sched_locked me (rg s1))), s1)
  else if negb (inheritsched =? 0) then (None, s)
  else (Some (req_policy, req_priority), s).

Definition pthread_create s : nstate :=
  let thread_ptr := X 0 s in
  let attr := X 1 s in
  let routine := X 2 s in
  let arg := X 3 s in
  let caller_lr := X REG_LR s in
  if routine =? 0 then set_X0 22 s
  else
    let s1 := write_thread_wrapper s in
    let detached := read_guest_pthread_attr_i32 attr 0 0 s1 =? 1 in
    let stackaddr := read_guest_pthread_attr_u64 attr 8 0 s1 in
    let stacksize := get_effective_stack_size (read_guest_pthread_attr_u64 attr 16 GUEST_DEFAULT_PTHREAD_STACK_SIZE s1) in
    let guardsize := get_effective_guard_size (read_guest_pthread_attr_u64 attr 24 GUEST_DEFAULT_PTHREAD_GUARD_SIZE s1) in
    let inheritsched := read_guest_pthread_attr_i32 attr 32 0 s1 in
    let req_policy := read_guest_pthread_attr_i32 attr 36 SCHED_OTHER s1 in
    let req_priority := read_guest_pthread_attr_i32 attr 40 0 s1 in
    if (stacksize =? 0) || (2 ^ 30 <? stacksize) then set_X0 EAGAIN s1
    else
      let '(sched, s2) := choose_sched inheritsched req_policy req_priority s1 in
      match sched with
      | None => set_X0 EINVAL s2
      | Some (policy, priority) =>
          if negb (validate_sched_params policy priority) then set_X0 EINVAL s2
          else if exit_in_progress (rg s2)
          then
            let '(id, s3) := fetch_thread_id s2 in
            let s4 := if thread_ptr =? 0 then s3 else poke thread_ptr (le_bytes 8 id) s3 in
            set_X0 0 (register_thread (new_thread id routine arg 0 0 0 0 0 4096 policy priority detached true) s4)
          else spawn_thread thread_ptr routine arg caller_lr stackaddr stacksize guardsize policy priority detached s2
      end.

(** * Exit *)

(** The test of [notify_thread_exit]'s loop. *)
Definition owns_sp (sp : Z) (t : QemuThread) : bool :=
  ((q_stack_base t ⊖ q_stack_size t ⊕ 0x100) <=? sp) && (sp <=? (q_stack_base t ⊕ 0x100)).

(** The first thread the walk of the registry finds for a stack pointer. *)
Definition thread_of_sp (sp : Z) s : option Z :=
  List.find (fun id => match g_threads (rg s) !! id with Some t => owns_sp sp t | None => false end)
    (walk_order ((map_to_list (g_threads (rg s))).*1) (ext (nt_mem s))).

Definition upd_qthread (id : Z) (f : QemuThread -> QemuThread) s : nstate :=
  s <| rg ::= fun r => r <| g_threads ::= alter f id |> |>.

Definition notify_thread_exit (sp retval : Z) (finalize : bool) s : nstate :=
  match thread_of_sp sp s with
  | None => s
  | Some id =>
      match g_threads (rg s) !! id with
      | None => s
      | Some t =>
          let s1 := upd_qthread id (fun t => if q_exit_reported t then t
                                             else t <| q_exit_reported := true |> <| q_return_value := retval |>) s in
          if negb finalize then s1
          else
            let s2 := upd_qthread id (fun t => t <| q_completed := true |>) s1 in
            if q_completed t then s2
            else
              let s3 := s2 <| rg ::= fun r => hle_release_vmas (q_tls_base t) (hle_release_vmas (q_stack_base t) r) |> in
              if q_detached t then s3 <| rg ::= erase_thread id |> else s3
      end
  end.

(** * Join and detach *)

(** Up to the wait: the thread to wait for, or the handler has returned. *)
Definition join_begin s : option Z * nstate :=
  let thread_id := X 0 s in
  if thread_id =? 0 then (None, set_X0 ESRCH s)
  else
    let '(me, s1) := get_current_guest_pthread_id s in
    if thread_id =? me then (None, set_X0 EDEADLK s1)
    else match g_threads (rg s1) !! thread_id with
         | None => (None, set_X0 ESRCH s1)
         | Some t =>
             if q_detached t then (None, set_X0 EINVAL s1)
             else if q_join_in_progress t then (None, set_X0 EINVAL s1)
             else (Some thread_id, upd_qthread thread_id (fun t => t <| q_join_in_progress := true |>) s1)
         end.

(** The loop's condition; the object is [thread]'s target for as long as the
    registry holds it. *)
Definition join_ready (thread_id : Z) s : bool :=
  match g_threads (rg s) !! thread_id with Some t => q_completed t | None => false end.

Definition join_finish (thread_id retval_ptr : Z) s : nstate :=
  match g_threads (rg s) !! thread_id with
  | None => s
  | Some t =>
      let s1 := if retval_ptr =? 0 then s else poke retval_ptr (le_bytes 8 (q_return_value t)) s in
      set_X0 0 (s1 <| rg ::= erase_thread thread_id |>)
  end.

Definition pthread_detach s : nstate :=
  let thread_id := X 0 s in
  if thread_id =? 0 then set_X0 ESRCH s
  else match g_threads (rg s) !! thread_id with
       | None => set_X0 ESRCH s
       | Some t =>
           if q_detached t || q_join_in_progress t then set_X0 EINVAL s
           else
             let s1 := upd_qthread thread_id (fun t => t <| q_detached := true |>) s in
             set_X0 0 (if q_completed t then s1 <| rg ::= erase_thread thread_id |> else s1)
       end.

Definition pthread_self s : nstate := let '(id, s1) := get_current_guest_pthread_id s in set_X0 id s1.
Definition pthread_equal s : nstate := set_X0 (if X 0 s =? X 1 s then 1 else 0) s.

(** [pthread_once]; [call] runs the initialiser ([Emulator::call_function_safe]). *)
Definition pthread_once (call : Z -> nstate -> nstate) s : nstate :=
  let once_control := X 0 s in
  let init_routine := X 1 s in
  let once_value := match gread once_control 4 s with Some bs => s32 (le_value bs) | None => 0 end in
  let s1 := if once_value =? 0
            then let s' := poke once_control (le_bytes 4 1) s in
                 if init_routine =? 0 then s' else call init_routine s'
            else s in
  set_X0 0 s1.

(** * Cleanup handlers and [pthread_exit] *)

Definition push_cleanup_handler (id : Z) (h : GuestCleanupHandler) (r : Registry) : Registry :=
  r <| g_cleanup_handlers ::= fun m => <[id := h :: default [] (m !! id)]> m |>.

(** The newest handler of [hs] with this address, and the others. *)
Fixpoint take_handler (addr : Z) (hs : list GuestCleanupHandler) : option (GuestCleanupHandler * list GuestCleanupHandler) :=
  match hs with
  | [] => None
  | h :: rest =>
      if ch_cleanup_addr h =? addr then Some (h, rest)
      else match take_handler addr rest with Some (x, rest') => Some (x, h :: rest') | None => None end
  end.

Definition keep_handlers (id : Z) (hs : list GuestCleanupHandler) (r : Registry) : Registry :=
  r <| g_cleanup_handlers ::= fun m => if bool_decide (hs = []) then delete id m else <[id := hs]> m |>.

Definition pop_cleanup_handler (id addr : Z) (r : Registry) : option GuestCleanupHandler * Registry :=
  match g_cleanup_handlers r !! id with
  | None => (None, r)
  | Some hs => match take_handler addr hs with
               | Some (h, rest) => (Some h, keep_handlers id rest r)
               | None => (None, r)
               end
  end.

Definition pop_top_cleanup_handler (id : Z) (r : Registry) : option GuestCleanupHandler * Registry :=
  match g_cleanup_handlers r !! id with
  | None => (None, r)
  | Some [] => (None, r <| g_cleanup_handlers ::= delete id |>)
  | Some (h :: rest) => (Some h, keep_handlers id rest r)
  end.

Definition cleanup_code : list Z := [0xD10043FF; 0xA9007BF3; 0xD63F0220; 0xA9407BF3; 0x910043FF; 0xD65F03C0].
Definition pthread_exit_code : list Z := [0xD2800BA8; 0xD4000001].

Definition write_cleanup_callback_trampoline s : nstate :=
  if cleanup_trampoline_once (rg s) then s
  else poke CLEANUP_CALLBACK_TRAMPOLINE_ADDR (code_bytes cleanup_code)
         (s <| rg ::= fun r => r <| cleanup_trampoline_once := true |> |>).
Definition ensure_pthread_exit_code s : nstate :=
  if exit_code_once (rg s) then s
  else poke PTHREAD_EXIT_CODE_ADDR (code_bytes pthread_exit_code) (s <| rg ::= fun r => r <| exit_code_once := true |> |>).

Definition dispatch_guest_cleanup_handler (h : GuestCleanupHandler) (return_addr : Z) s : bool * nstate :=
  if ch_routine h =? 0 then (false, s)
  else (true, putr REG_PC CLEANUP_CALLBACK_TRAMPOLINE_ADDR (putr REG_LR return_addr (putr 17 (ch_routine h)
                (putr 0 (ch_arg h) (write_cleanup_callback_trampoline s))))).

(** The handlers are popped until one has a routine; [n] bounds the rounds. *)
Fixpoint dispatch_cleanups (n : nat) (id continue_addr : Z) s : bool * nstate :=
  match n with
  | O => (false, s)
  | Datatypes.S n' =>
      match pop_top_cleanup_handler id (rg s) with
      | (None, r) => (false, s <| rg := r |>)
      | (Some h, r) => match dispatch_guest_cleanup_handler h continue_addr (s <| rg := r |>) with
                       | (true, s1) => (true, s1)
                       | (false, s1) => dispatch_cleanups n' id continue_addr s1
                       end
      end
  end.
(** One round more than there are handlers. *)
Definition dispatch_next_pthread_exit_cleanup (continue_addr id : Z) s : bool * nstate :=
  dispatch_cleanups (Datatypes.S (length (default [] (g_cleanup_handlers (rg s) !! id)))) id continue_addr s.

Definition finish_guest_pthread_exit (id retval : Z) s : nstate :=
  putr REG_PC PTHREAD_EXIT_CODE_ADDR (set_X0 retval
    (ensure_pthread_exit_code (s <| rg ::= fun r => r <| g_pending_pthread_exit_values ::= delete id |> |>))).

(** [continue_addr] is the stub of [__pthread_exit_continue]. *)
Definition pthread_exit (continue_addr : Z) s : nstate :=
  let retval := X 0 s in
  let '(id, s1) := get_current_guest_pthread_id s in
  let s2 := s1 <| rg ::= fun r => r <| g_pending_pthread_exit_values ::= <[id := retval]> |> |> in
  match dispatch_next_pthread_exit_cleanup continue_addr id s2 with
  | (true, s3) => s3
  | (false, s3) => finish_guest_pthread_exit id retval s3
  end.

Definition pthread_exit_continue (continue_addr : Z) s : nstate :=
  let '(id, s1) := get_current_guest_pthread_id s in
  let retval := default (X 0 s1) (g_pending_pthread_exit_values (rg s1) !! id) in
  match dispatch_next_pthread_exit_cleanup continue_addr id s1 with
  | (true, s2) => s2
  | (false, s2) => finish_guest_pthread_exit id retval s2
  end.

Definition pthread_cleanup_push s : nstate :=
  let h := {| ch_cleanup_addr := X 0 s; ch_routine := X 1 s; ch_arg := X 2 s |} in
  let '(id, s1) := get_current_guest_pthread_id s in
  s1 <| rg ::= push_cleanup_handler id h |>.

Definition pthread_cleanup_pop s : nstate :=
  let cleanup_addr := X 0 s in
  let execute := s32 (X 1 s) in
  let '(id, s1) := get_current_guest_pthread_id s in
  match pop_cleanup_handler id cleanup_addr (rg s1) with
  | (Some h, r) =>
      let s2 := s1 <| rg := r |> in
      if execute =? 0 then s2 else (dispatch_guest_cleanup_handler h (X REG_LR s2) s2).2
  | (None, r) => s1 <| rg := r |>
  end.

End Threads.
Arguments nstate : clear implicits.
Arguments nstate {E}.
