(* ===== verification/NativeSpec.v ===== *)
(** Properties of the thread registry and its arenas: stacks and TLS blocks of live
    threads never overlap, whatever the interleaving of creations, exits, joins
    and detaches. *)

From S2P Require Import Prelude Env MemoryManager MemorySpec Machine HostAccess Lift GuestCall Arm64 NativeThreads HleStringSpec.
From stdpp Require Import relations.
#[local] Open Scope Z_scope.

(** * One arena *)

(** Slots of [size] bytes from [base] on, given out up to [next]; [l] are the slots
    in somebody's hands. *)
Record arena_ok (base size ceiling next : Z) (l : list Z) : Prop := {
  ao_next : exists n, 0 <= n /\ next = base + n * size /\ next <= ceiling;
  ao_slot x : x ∈ l -> exists k, 0 <= k /\ x = base + k * size /\ x + size <= next;
  ao_nodup : NoDup l;
}.

#[export] Instance arena_ok_perm base size ceiling next : Proper ((≡ₚ) ==> iff) (arena_ok base size ceiling next).
Proof.
  intros l l' Hl. split; intros [H1 H2 H3]; constructor; try done; try (by rewrite <- Hl || by rewrite Hl).
  - intros x Hx. apply H2. by rewrite Hl.
  - intros x Hx. apply H2. by rewrite <- Hl.
Qed.

Lemma arena_fresh base size ceiling next l : 0 < size -> arena_ok base size ceiling next l -> next + size <= ceiling ->
  arena_ok base size ceiling (next + size) (next :: l).
Proof.
  intros Hs [(n & Hn & En & Hc) H2 H3] Hnext. constructor.
  - exists (n + 1). lia.
  - intros x [->|Hx]%elem_of_cons; [exists n; lia|]. destruct (H2 x Hx) as (k & ? & ? & ?). exists k. lia.
  - apply NoDup_cons. split; [|done]. intros Hx. destruct (H2 _ Hx) as (k & ? & ? & ?). lia.
Qed.

Lemma arena_drop base size ceiling next x l : arena_ok base size ceiling next (x :: l) -> arena_ok base size ceiling next l.
Proof.
  intros [H1 H2 H3]. apply NoDup_cons in H3 as [_ H3]. constructor; try done. intros y Hy. apply H2. by right.
Qed.

Lemma arena_drop_list base size ceiling next l l' : arena_ok base size ceiling next (l ++ l') -> arena_ok base size ceiling next l'.
Proof. induction l as [|x l IH]; [done|]. intros H. by apply IH, (arena_drop _ _ _ _ x). Qed.

Lemma arena_disjoint base size ceiling next x y l : 0 < size -> arena_ok base size ceiling next (x :: y :: l) ->
  disj x size y size.
Proof.
  intros Hs [_ H2 H3]. destruct (H2 x) as (i & ? & -> & _); [by left|]. destruct (H2 y) as (j & ? & -> & _); [right; by left|].
  assert (i <> j). { intros ->. apply NoDup_cons in H3 as [H3 _]. apply H3. by left. }
  unfold disj. nia.
Qed.

Ltac arena_lia :=
  unfold QEMU_THREAD_STACK_CEILING, QEMU_THREAD_STACK_BASE, QEMU_THREAD_STACK_SIZE, SAFE_CALL_STACK_BASE,
    QEMU_THREAD_TLS_CEILING, QEMU_THREAD_TLS_BASE, QEMU_THREAD_TLS_SIZE in *; u64_lia.

(** * The registry's regions *)

Definition arena_stack (t : QemuThread) : option Z :=
  if negb (q_stack_base t =? 0) && in_stack_arena (stack_region (q_stack_base t)) then Some (stack_region (q_stack_base t)) else None.
Definition arena_tls (t : QemuThread) : option Z :=
  if negb (q_tls_base t =? 0) && in_tls_arena (tls_region (q_tls_base t)) then Some (tls_region (q_tls_base t)) else None.

Definition stacks_of (m : gmap Z QemuThread) : list Z := omap (fun p => arena_stack p.2) (map_to_list m).
Definition tls_of (m : gmap Z QemuThread) : list Z := omap (fun p => arena_tls p.2) (map_to_list m).

Lemma stacks_insert m id t : m !! id = None -> stacks_of (<[id := t]> m) ≡ₚ option_list (arena_stack t) ++ stacks_of m.
Proof. intros H. unfold stacks_of. rewrite map_to_list_insert by done. cbn. by destruct (arena_stack t). Qed.
Lemma tls_insert m id t : m !! id = None -> tls_of (<[id := t]> m) ≡ₚ option_list (arena_tls t) ++ tls_of m.
Proof. intros H. unfold tls_of. rewrite map_to_list_insert by done. cbn. by destruct (arena_tls t). Qed.

Lemma stacks_delete m id t : m !! id = Some t -> stacks_of m ≡ₚ option_list (arena_stack t) ++ stacks_of (delete id m).
Proof. intros H. rewrite <- (insert_delete_id m id t H) at 1. apply stacks_insert, lookup_delete_eq. Qed.
Lemma tls_delete m id t : m !! id = Some t -> tls_of m ≡ₚ option_list (arena_tls t) ++ tls_of (delete id m).
Proof. intros H. rewrite <- (insert_delete_id m id t H) at 1. apply tls_insert, lookup_delete_eq. Qed.

(** Storing a thread under an id: the regions of a thread that was there are gone. *)
Lemma stacks_overwrite m id t : exists o, stacks_of m ≡ₚ o ++ stacks_of (delete id m) /\
  stacks_of (<[id := t]> m) ≡ₚ option_list (arena_stack t) ++ stacks_of (delete id m).
Proof.
  rewrite <- insert_delete_eq. exists (option_list (m !! id ≫= arena_stack)). split; [|apply stacks_insert, lookup_delete_eq].
  destruct (m !! id) as [t0|] eqn:Hm; cbn; [by apply stacks_delete|by rewrite delete_id].
Qed.
Lemma tls_overwrite m id t : exists o, tls_of m ≡ₚ o ++ tls_of (delete id m) /\
  tls_of (<[id := t]> m) ≡ₚ option_list (arena_tls t) ++ tls_of (delete id m).
Proof.
  rewrite <- insert_delete_eq. exists (option_list (m !! id ≫= arena_tls)). split; [|apply tls_insert, lookup_delete_eq].
  destruct (m !! id) as [t0|] eqn:Hm; cbn; [by apply tls_delete|by rewrite delete_id].
Qed.

Lemma alter_as_insert (f : QemuThread -> QemuThread) (id : Z) (m : gmap Z QemuThread) :
  alter f id m = match m !! id with Some t => <[id := f t]> m | None => m end.
Proof.
  apply map_eq. intros j. destruct (m !! id) as [t|] eqn:Hm; destruct (decide (j = id)) as [->|Hj].
  - by rewrite lookup_alter_eq, lookup_insert_eq, Hm.
  - by rewrite lookup_alter_ne, lookup_insert_ne.
  - by rewrite lookup_alter_eq, Hm.
  - by rewrite lookup_alter_ne.
Qed.

Lemma stacks_alter m id f : (forall t, q_stack_base (f t) = q_stack_base t) -> stacks_of (alter f id m) ≡ₚ stacks_of m.
Proof.
  intros Hf. rewrite alter_as_insert. destruct (m !! id) as [t|] eqn:Hm; [|done].
  rewrite <- insert_delete_eq, stacks_insert by apply lookup_delete_eq. rewrite (stacks_delete _ _ _ Hm).
  unfold arena_stack. by rewrite Hf.
Qed.
Lemma tls_alter m id f : (forall t, q_tls_base (f t) = q_tls_base t) -> tls_of (alter f id m) ≡ₚ tls_of m.
Proof.
  intros Hf. rewrite alter_as_insert. destruct (m !! id) as [t|] eqn:Hm; [|done].
  rewrite <- insert_delete_eq, tls_insert by apply lookup_delete_eq. rewrite (tls_delete _ _ _ Hm).
  unfold arena_tls. by rewrite Hf.
Qed.

Notation stack_arena := (arena_ok QEMU_THREAD_STACK_BASE QEMU_THREAD_STACK_SIZE QEMU_THREAD_STACK_CEILING).
Notation tls_arena := (arena_ok QEMU_THREAD_TLS_BASE QEMU_THREAD_TLS_SIZE QEMU_THREAD_TLS_CEILING).

(** [hs] and [ht] are the regions held by creations that are under way. *)
Record regions_inv (r : Registry) (hs ht : list Z) : Prop := {
  ri_stack : stack_arena (g_next_stack_addr r) (stacks_of (g_threads r) ++ hs ++ g_free_stack_region_bases r);
  ri_tls : tls_arena (g_next_tls_addr r) (tls_of (g_threads r) ++ ht ++ g_free_tls_region_bases r);
}.

Lemma new_registry_inv : regions_inv new_registry [] [].
Proof.
  constructor; constructor; cbn; try (by intros x ?%elem_of_nil); try apply NoDup_nil_2; exists 0; done.
Qed.

(** * Critical sections *)

(** The steps that touch the registry under its locks, for any number of host
    threads. *)
Inductive section_step : Registry * list Z * list Z -> Registry * list Z * list Z -> Prop :=
| TakeStack r hs ht a recycled r' :
    take_stack_region r = (Some (a, recycled), r') -> section_step (r, hs, ht) (r', a :: hs, ht)
| TakeTls r hs ht a recycled r' :
    take_tls_region r = (Some (a, recycled), r') -> section_step (r, hs, ht) (r', hs, a :: ht)
| GiveStack r a hs hs' ht : hs ≡ₚ a :: hs' -> section_step (r, hs, ht) (give_stack_region a r, hs', ht)
| GiveTls r hs a ht ht' : ht ≡ₚ a :: ht' -> section_step (r, hs, ht) (give_tls_region a r, hs, ht')
| DropStack r a hs hs' ht : hs ≡ₚ a :: hs' -> section_step (r, hs, ht) (r, hs', ht)
| DropTls r hs a ht ht' : ht ≡ₚ a :: ht' -> section_step (r, hs, ht) (r, hs, ht')
| RegisterThread r hs hs' ht ht' t :
    hs ≡ₚ option_list (arena_stack t) ++ hs' -> ht ≡ₚ option_list (arena_tls t) ++ ht' ->
    section_step (r, hs, ht) (r <| g_threads ::= <[q_thread_id t := t]> |>, hs', ht')
| EraseThread r hs ht id : section_step (r, hs, ht) (erase_thread id r, hs, ht)
| UpdateThread r hs ht id f :
    (forall t, q_stack_base (f t) = q_stack_base t /\ q_tls_base (f t) = q_tls_base t) ->
    section_step (r, hs, ht) (r <| g_threads ::= alter f id |>, hs, ht)
| OtherField r r' hs ht :
    g_threads r' = g_threads r -> g_next_stack_addr r' = g_next_stack_addr r -> g_next_tls_addr r' = g_next_tls_addr r ->
    g_free_stack_region_bases r' = g_free_stack_region_bases r -> g_free_tls_region_bases r' = g_free_tls_region_bases r ->
    section_step (r, hs, ht) (r', hs, ht).

Lemma take_stack_inv r hs ht a rec r' : take_stack_region r = (Some (a, rec), r') -> regions_inv r hs ht ->
  regions_inv r' (a :: hs) ht.
Proof.
  unfold take_stack_region. intros Ht [H1 H2]. destruct (g_free_stack_region_bases r) as [|x rest] eqn:Hf.
  - destruct (Z.ltb_spec QEMU_THREAD_STACK_CEILING (g_next_stack_addr r ⊕ QEMU_THREAD_STACK_SIZE)) as [|Hle]; [done|].
    injection Ht as <- _ <-. destruct (ao_next _ _ _ _ _ H1) as (n & Hn & En & Hc).
    rewrite u64_small in Hle by arena_lia. constructor; [|done]. cbn. rewrite Hf, u64_small by arena_lia.
    rewrite <- Permutation_middle. by apply arena_fresh.
  - injection Ht as <- _ <-. constructor; [|done]. cbn. eapply arena_ok_perm; [|exact H1]. cbn [g_free_stack_region_bases]. try rewrite Hf.
    apply Permutation_app_head, Permutation_middle.
Qed.

Lemma take_tls_inv r hs ht a rec r' : take_tls_region r = (Some (a, rec), r') -> regions_inv r hs ht ->
  regions_inv r' hs (a :: ht).
Proof.
  unfold take_tls_region. intros Ht [H1 H2]. destruct (g_free_tls_region_bases r) as [|x rest] eqn:Hf.
  - destruct (Z.ltb_spec QEMU_THREAD_TLS_CEILING (g_next_tls_addr r ⊕ QEMU_THREAD_TLS_SIZE)) as [|Hle]; [done|].
    injection Ht as <- _ <-. destruct (ao_next _ _ _ _ _ H2) as (n & Hn & En & Hc). rewrite u64_small in Hle by arena_lia.
    constructor; [done|]. cbn. rewrite Hf, u64_small by arena_lia. rewrite <- Permutation_middle. by apply arena_fresh.
  - injection Ht as <- _ <-. constructor; [done|]. cbn. eapply arena_ok_perm; [|exact H2]. cbn [g_free_stack_region_bases]. try rewrite Hf.
    apply Permutation_app_head, Permutation_middle.
Qed.

(** Recycling: what the thread had goes to the free lists. *)
Lemma recycle_inv r hs ht t : 
  regions_inv r (option_list (arena_stack t) ++ hs) (option_list (arena_tls t) ++ ht) ->
  regions_inv (recycle_thread_arena (q_stack_base t) (q_guest_stack_addr t) (q_tls_base t) r) hs ht.
Proof.
  intros [H1 H2]. unfold recycle_thread_arena, arena_stack, arena_tls in *.
  assert (Hperm : forall (l hs f : list Z) x, l ++ hs ++ x :: f ≡ₚ l ++ (x :: hs) ++ f).
  { intros l hs' f x. apply Permutation_app_head. cbn. symmetry. apply Permutation_middle. }
  destruct (negb (q_stack_base t =? 0) && _), (negb (q_tls_base t =? 0) && _); constructor; cbn in *; try done.
  all: eapply arena_ok_perm; [apply Hperm|]; done.
Qed.

Lemma section_keeps r hs ht r' hs' ht' : section_step (r, hs, ht) (r', hs', ht') -> regions_inv r hs ht -> regions_inv r' hs' ht'.
Proof.
  assert (Hmove : forall (l hs hs' f : list Z) x, hs ≡ₚ x :: hs' -> l ++ hs' ++ x :: f ≡ₚ l ++ hs ++ f).
  { intros l hs0 hs1 f x ->. apply Permutation_app_head. cbn. symmetry. apply Permutation_middle. }
  assert (Hout : forall (l hs hs' f o : list Z), hs ≡ₚ o ++ hs' -> l ++ hs ++ f ≡ₚ o ++ l ++ hs' ++ f).
  { intros l hs0 hs1 f o ->. rewrite !(app_assoc l). rewrite (Permutation_app_comm l o). by rewrite <- !app_assoc. }
  intros Hstep Hinv. inversion Hstep as [? ? ? a rec ? Ht|? ? ? a rec ? Ht|? a ? ? ? Hp|? ? a ? ? Hp|? a ? ? ? Hp|? ? a ? ? Hp|
    ? ? ? ? ? t Hp1 Hp2|? ? ? id|? ? ? id f Hf|? ? ? ? E1 E2 E3 E4 E5]; subst.
  - by eapply take_stack_inv.
  - by eapply take_tls_inv.
  - destruct Hinv as [H1 H2]. constructor; cbn; [|done]. eapply arena_ok_perm; [by apply Hmove|done].
  - destruct Hinv as [H1 H2]. constructor; cbn; [done|]. eapply arena_ok_perm; [by apply Hmove|done].
  - destruct Hinv as [H1 H2]. constructor; [|done]. apply (arena_drop_list _ _ _ _ [a]). eapply arena_ok_perm; [|exact H1].
    symmetry. by apply Hout.
  - destruct Hinv as [H1 H2]. constructor; [done|]. apply (arena_drop_list _ _ _ _ [a]). eapply arena_ok_perm; [|exact H2].
    symmetry. by apply Hout.
  - destruct (stacks_overwrite (g_threads r) (q_thread_id t) t) as (o1 & Ho1 & Hn1).
    destruct (tls_overwrite (g_threads r) (q_thread_id t) t) as (o2 & Ho2 & Hn2). destruct Hinv as [H1 H2].
    constructor; cbn; [apply (arena_drop_list _ _ _ _ o1)|apply (arena_drop_list _ _ _ _ o2)]; eapply arena_ok_perm.
    2: exact H1. 3: exact H2.
    + rewrite Hn1, Ho1. rewrite (Hout _ _ _ _ _ Hp1). solve_Permutation.
    + rewrite Hn2, Ho2. rewrite (Hout _ _ _ _ _ Hp2). solve_Permutation.
  - unfold erase_thread. destruct (g_threads r !! id) as [t|] eqn:Hid; [|done]. apply recycle_inv. destruct Hinv as [H1 H2].
    constructor; cbn; eapply arena_ok_perm.
    2: exact H1. 3: exact H2.
    + rewrite (stacks_delete _ _ _ Hid). solve_Permutation.
    + rewrite (tls_delete _ _ _ Hid). solve_Permutation.
  - destruct Hinv as [H1 H2]. constructor; cbn; eapply arena_ok_perm.
    2: exact H1. 3: exact H2.
    + apply Permutation_app_tail, stacks_alter. intros t. apply Hf.
    + apply Permutation_app_tail, tls_alter. intros t. apply Hf.
  - destruct Hinv as [H1 H2]. constructor; by rewrite ?E1, ?E2, ?E3, ?E4, ?E5.
Qed.

Notation cfg := (Registry * list Z * list Z)%type.
Notation "c ⟶* c'" := (rtc section_step c c') (at level 70).

Lemma sections_keep (c c' : cfg) : c ⟶* c' -> regions_inv c.1.1 c.1.2 c.2 -> regions_inv c'.1.1 c'.1.2 c'.2.
Proof.
  induction 1 as [|[[r1 h1] t1] [[r2 h2] t2] [[r3 h3] t3] Hs _ IH]; [done|]. intros Hi. apply IH. by eapply section_keeps.
Qed.

(** The VMA budget touches none of the regions. *)
Definition same_regions (r r' : Registry) : Prop :=
  g_threads r' = g_threads r /\ g_next_stack_addr r' = g_next_stack_addr r /\ g_next_tls_addr r' = g_next_tls_addr r /\
  g_free_stack_region_bases r' = g_free_stack_region_bases r /\ g_free_tls_region_bases r' = g_free_tls_region_bases r.

Lemma same_regions_step r r' hs ht : same_regions r r' -> section_step (r, hs, ht) (r', hs, ht).
Proof. intros (? & ? & ? & ? & ?). by apply OtherField. Qed.

Lemma reserve_same key n r : same_regions r (hle_try_reserve_vmas key n r).2.
Proof. unfold hle_try_reserve_vmas. destruct (_ || _); [done|]. by destruct (_ <? _). Qed.
Lemma release_same key r : same_regions r (hle_release_vmas key r).
Proof. unfold hle_release_vmas. destruct (_ =? _); [done|]. by destruct (_ !! _). Qed.

Lemma stack_slot_facts a k : 0 <= k -> a = QEMU_THREAD_STACK_BASE + k * QEMU_THREAD_STACK_SIZE ->
  a + QEMU_THREAD_STACK_SIZE <= QEMU_THREAD_STACK_CEILING ->
  let top := a ⊕ QEMU_THREAD_STACK_SIZE ⊖ 0x100 in
  top = a + QEMU_THREAD_STACK_SIZE - 0x100 /\ stack_region top = a /\ in_stack_arena a = true /\ top <> 0.
Proof.
  intros Hk Ha Hc top. assert (Et : top = a + QEMU_THREAD_STACK_SIZE - 0x100).
  { unfold top. rewrite (u64_small (a + _)) by arena_lia. apply u64_small. arena_lia. }
  rewrite Et. unfold stack_region, in_stack_arena. split_and!; [done| | |arena_lia].
  - rewrite (u64_small (_ - QEMU_THREAD_STACK_SIZE)) by arena_lia. rewrite u64_small by arena_lia. lia.
  - rewrite (proj2 (Z.leb_le _ _)), (proj2 (Z.ltb_lt _ _)) by arena_lia. done.
Qed.

Lemma tls_slot_facts a k : 0 <= k -> a = QEMU_THREAD_TLS_BASE + k * QEMU_THREAD_TLS_SIZE ->
  a + QEMU_THREAD_TLS_SIZE <= QEMU_THREAD_TLS_CEILING ->
  let tls := a ⊕ 8 in tls = a + 8 /\ tls_region tls = a /\ in_tls_arena a = true /\ tls <> 0.
Proof.
  intros Hk Ha Hc tls. assert (Et : tls = a + 8) by (unfold tls; apply u64_small; arena_lia).
  rewrite Et. unfold tls_region, in_tls_arena. split_and!; [done| | |arena_lia].
  - rewrite u64_small by arena_lia. lia.
  - rewrite (proj2 (Z.leb_le _ _)), (proj2 (Z.ltb_lt _ _)) by arena_lia. done.
Qed.

(** A held region is a slot of its arena. *)
Lemma held_stack r a hs ht : regions_inv r (a :: hs) ht ->
  exists k, 0 <= k /\ a = QEMU_THREAD_STACK_BASE + k * QEMU_THREAD_STACK_SIZE /\ a + QEMU_THREAD_STACK_SIZE <= QEMU_THREAD_STACK_CEILING.
Proof.
  intros [[(n & ? & ? & ?) H2 _] _]. destruct (H2 a) as (k & ? & ? & ?).
  { apply elem_of_app. right. apply elem_of_app. left. by left. }
  exists k. lia.
Qed.
Lemma held_tls r a hs ht : regions_inv r hs (a :: ht) ->
  exists k, 0 <= k /\ a = QEMU_THREAD_TLS_BASE + k * QEMU_THREAD_TLS_SIZE /\ a + QEMU_THREAD_TLS_SIZE <= QEMU_THREAD_TLS_CEILING.
Proof.
  intros [_ [(n & ? & ? & ?) H2 _]]. destruct (H2 a) as (k & ? & ? & ?).
  { apply elem_of_app. right. apply elem_of_app. left. by left. }
  exists k. lia.
Qed.

Section Handlers.
Context {E : Env} `{!HostAccess E} {HS : HostSched}.
Implicit Types s : nstate.

Lemma rg_poke a bs s : rg (poke a bs s) = rg s.
Proof. unfold poke. cbn. by destruct (mem_write a bs (nt_mem s)). Qed.
Lemma rg_putr r v s : rg (putr r v s) = rg s.
Proof. done. Qed.
Lemma rg_set_X0 v s : rg (set_X0 v s) = rg s.
Proof. done. Qed.
Lemma rg_self s : rg (get_current_guest_pthread_id s).2 = rg s.
Proof.
  unfold get_current_guest_pthread_id. destruct (negb _); [done|]. destruct (is_safe_call_stack_sp _); [|done]. by destruct (_ =? 0).
Qed.
Lemma rg_choose_sched i p q s : rg (choose_sched i p q s).2 = rg s.
Proof.
  unfold choose_sched. destruct (i =? 1); [|by destruct (negb _)]. pose proof (rg_self s) as H.
  by destruct (get_current_guest_pthread_id s).
Qed.
Lemma rg_init_tls a s : rg (init_tls a s) = rg s.
Proof. unfold init_tls. by rewrite !rg_poke. Qed.

(** What the allocators leave, and how they get there. *)
Lemma allocate_stack_sections s hs ht : regions_inv (rg s) hs ht ->
  let '(top, s') := allocate_thread_stack s in
  (top = 0 /\ (rg s, hs, ht) ⟶* (rg s', hs, ht)) \/
  (exists a, top = a ⊕ QEMU_THREAD_STACK_SIZE ⊖ 0x100 /\ top <> 0 /\ (rg s, hs, ht) ⟶* (rg s', a :: hs, ht)).
Proof.
  intros Hinv. unfold allocate_thread_stack. destruct (take_stack_region (rg s)) as [[[a rec]|] r1] eqn:Ht.
  2: { left. split; [done|]. unfold take_stack_region in Ht. destruct (g_free_stack_region_bases _); [|done].
       destruct (_ <? _); [|done]. by injection Ht as <-. }
  pose proof (TakeStack _ hs ht _ _ _ Ht) as S1. pose proof (section_keeps _ _ _ _ _ _ S1 Hinv) as Hinv1.
  destruct (held_stack _ _ _ _ Hinv1) as (k & Hk & Ek & Hc). destruct (stack_slot_facts a k Hk Ek Hc) as (_ & _ & _ & Hnz).
  pose proof (reserve_same (a ⊕ QEMU_THREAD_STACK_SIZE ⊖ 0x100) 2 r1) as Hsr.
  destruct (hle_try_reserve_vmas _ 2 r1) as [[] r2]; cbn [snd] in Hsr; pose proof (same_regions_step _ _ (a :: hs) ht Hsr) as S2.
  - destruct rec; [right; exists a; split_and!; [done..|]; by eapply rtc_l, rtc_once|].
    destruct (mem_map _ _ _ _ _) as [[] m].
    + right. exists a. split_and!; [done..|]. by eapply rtc_l, rtc_once.
    + left. split; [done|]. eapply rtc_l; [exact S1|]. eapply rtc_l; [exact S2|].
      eapply rtc_l; [apply same_regions_step, release_same|]. apply rtc_once. by apply GiveStack.
  - left. split; [done|]. eapply rtc_l; [exact S1|]. eapply rtc_l; [exact S2|]. apply rtc_once.
    destruct rec; [by apply GiveStack|by eapply DropStack].
Qed.

Lemma allocate_tls_sections s hs ht : regions_inv (rg s) hs ht ->
  let '(tls, s') := allocate_thread_tls s in
  (tls = 0 /\ (rg s, hs, ht) ⟶* (rg s', hs, ht)) \/
  (exists a, tls = a ⊕ 8 /\ tls <> 0 /\ (rg s, hs, ht) ⟶* (rg s', hs, a :: ht)).
Proof.
  intros Hinv. unfold allocate_thread_tls. destruct (take_tls_region (rg s)) as [[[a rec]|] r1] eqn:Ht.
  2: { left. split; [done|]. unfold take_tls_region in Ht. destruct (g_free_tls_region_bases _); [|done].
       destruct (_ <? _); [|done]. by injection Ht as <-. }
  pose proof (TakeTls _ hs ht _ _ _ Ht) as S1. pose proof (section_keeps _ _ _ _ _ _ S1 Hinv) as Hinv1.
  destruct (held_tls _ _ _ _ Hinv1) as (k & Hk & Ek & Hc). destruct (tls_slot_facts a k Hk Ek Hc) as (_ & _ & _ & Hnz).
  pose proof (reserve_same (a ⊕ 8) 1 r1) as Hsr.
  destruct (hle_try_reserve_vmas _ 1 r1) as [[] r2]; cbn [snd] in Hsr; pose proof (same_regions_step _ _ hs (a :: ht) Hsr) as S2.
  - destruct rec; [right; exists a; split_and!; [done..|]; rewrite rg_init_tls; by eapply rtc_l, rtc_once|].
    destruct (mem_map _ _ _ _ _) as [[] m].
    + right. exists a. split_and!; [done..|]. rewrite rg_init_tls. by eapply rtc_l, rtc_once.
    + left. split; [done|]. eapply rtc_l; [exact S1|]. eapply rtc_l; [exact S2|].
      eapply rtc_l; [apply same_regions_step, release_same|]. apply rtc_once. by apply GiveTls.
  - left. split; [done|]. eapply rtc_l; [exact S1|]. eapply rtc_l; [exact S2|]. apply rtc_once.
    destruct rec; [by apply GiveTls|by eapply DropTls].
Qed.

(** A stack the guest brings itself lies outside the arena. *)
Definition outside_arena (stackaddr stacksize : Z) : Prop :=
  in_stack_arena (stack_region (stackaddr ⊕ stacksize ⊖ 0x100)) = false.

Lemma register_sections t r hs hs' b ht : regions_inv r hs (b :: ht) -> q_tls_base t = b ⊕ 8 ->
  hs ≡ₚ option_list (arena_stack t) ++ hs' ->
  (r, hs, b :: ht) ⟶* (r <| g_threads ::= <[q_thread_id t := t]> |>, hs', ht).
Proof.
  intros Hinv Et Hs. destruct (held_tls _ _ _ _ Hinv) as (j & Hj & Ej & Hcj).
  destruct (tls_slot_facts b j Hj Ej Hcj) as (_ & Hregt & Hint & Hnz). rewrite <- Et in Hregt, Hnz.
  apply rtc_once, RegisterThread; [done|]. unfold arena_tls. by rewrite (proj2 (Z.eqb_neq _ 0) Hnz), Hregt, Hint.
Qed.

Lemma create_sections ptr routine arg lr stackaddr size guard policy prio det s hs ht :
  regions_inv (rg s) hs ht -> (stackaddr <> 0 -> outside_arena stackaddr size) ->
  (rg s, hs, ht) ⟶* (rg (spawn_thread ptr routine arg lr stackaddr size guard policy prio det s), hs, ht).
Proof.
  intros Hinv Hout. unfold spawn_thread. destruct (fetch_thread_id s) as [id s1] eqn:Hid.
  assert (S0 : section_step (rg s, hs, ht) (rg s1, hs, ht)) by (injection Hid as <- <-; by apply OtherField).
  pose proof (section_keeps _ _ _ _ _ _ S0 Hinv) as Hinv1. eapply rtc_l; [exact S0|]. clear S0 Hid.
  destruct (Z.eqb_spec stackaddr 0) as [->|Hsa].
  - pose proof (allocate_stack_sections s1 hs ht Hinv1) as Hst. destruct (allocate_thread_stack s1) as [top s2].
    destruct Hst as [[-> Hst]|(a & Etop & Hnz & Hst)]; cbn [andb]; [exact Hst|].
    rewrite (proj2 (Z.eqb_neq top 0)) by done. etrans; [exact Hst|].
    pose proof (sections_keep _ _ Hst Hinv1 : regions_inv (rg s2) (a :: hs) ht) as Hinv2.
    destruct (held_stack _ _ _ _ Hinv2) as (k & Hk & Ek & Hc). destruct (stack_slot_facts a k Hk Ek Hc) as (_ & Hreg & Hin & _).
    rewrite <- Etop in Hreg.
    pose proof (allocate_tls_sections s2 (a :: hs) ht Hinv2) as Htl. destruct (allocate_thread_tls s2) as [tls s3].
    destruct Htl as [[-> Htl]|(b & Etls & Htz & Htl)].
    + cbn [Z.eqb]. rewrite rg_set_X0. etrans; [exact Htl|]. cbn.
      eapply rtc_l; [apply same_regions_step, (release_same top)|]. apply rtc_once. unfold recycle_thread_arena.
      rewrite (proj2 (Z.eqb_neq top 0)), Hreg, Hin by done. cbn [negb andb Z.eqb]. by apply GiveStack.
    + rewrite (proj2 (Z.eqb_neq tls 0)) by done. etrans; [exact Htl|].
      pose proof (sections_keep _ _ Htl Hinv2 : regions_inv (rg s3) (a :: hs) (b :: ht)) as Hinv3.
      unfold enter_clone. rewrite !rg_putr. unfold register_thread. cbn [rg set_field set_rg].
      replace (rg (if ptr =? 0 then _ else _)) with (rg s3) by (destruct (ptr =? 0); by rewrite !rg_poke).
      apply (register_sections _ _ _ _ b); [done..|]. unfold arena_stack. cbn. by rewrite (proj2 (Z.eqb_neq top 0)), Hreg, Hin by done.
  - cbn [andb]. set (top := stackaddr ⊕ size ⊖ 0x100).
    pose proof (allocate_tls_sections s1 hs ht Hinv1) as Htl. destruct (allocate_thread_tls s1) as [tls s3].
    destruct Htl as [[-> Htl]|(b & Etls & Htz & Htl)]; [done|].
    rewrite (proj2 (Z.eqb_neq tls 0)) by done. etrans; [exact Htl|].
    pose proof (sections_keep _ _ Htl Hinv1 : regions_inv (rg s3) hs (b :: ht)) as Hinv3.
    unfold enter_clone. rewrite !rg_putr. unfold register_thread. cbn [rg set_field set_rg].
    replace (rg (if ptr =? 0 then _ else _)) with (rg s3) by (destruct (ptr =? 0); by rewrite !rg_poke).
    apply (register_sections _ _ _ _ b); [done..|]. unfold arena_stack. cbn.
    specialize (Hout Hsa). unfold outside_arena in Hout. fold top in Hout. by rewrite Hout, andb_false_r.
Qed.

(** The stack and its size that the attributes of a call of [pthread_create] ask for. *)
Definition requested_stack s : Z * Z :=
  let s1 := write_thread_wrapper s in
  (read_guest_pthread_attr_u64 (X 1 s) 8 0 s1,
   get_effective_stack_size (read_guest_pthread_attr_u64 (X 1 s) 16 GUEST_DEFAULT_PTHREAD_STACK_SIZE s1)).

Lemma wrapper_same s : same_regions (rg s) (rg (write_thread_wrapper s)).
Proof. unfold write_thread_wrapper. destruct (g_trampoline_written _); [done|]. rewrite !rg_poke. done. Qed.

Lemma sections_same r r' hs ht : same_regions r r' -> (r, hs, ht) ⟶* (r', hs, ht).
Proof. intros H. by apply rtc_once, same_regions_step. Qed.

Lemma pthread_create_sections s hs ht : regions_inv (rg s) hs ht ->
  ((requested_stack s).1 <> 0 -> outside_arena (requested_stack s).1 (requested_stack s).2) ->
  (rg s, hs, ht) ⟶* (rg (pthread_create s), hs, ht).
Proof.
  intros Hinv Hout. unfold pthread_create. destruct (_ =? 0); [done|].
  pose proof (sections_same _ _ hs ht (wrapper_same s)) as S1. unfold requested_stack in Hout.
  pose proof (sections_keep _ _ S1 Hinv : regions_inv (rg (write_thread_wrapper s)) hs ht) as Hinv1.
  set (s1 := write_thread_wrapper s) in *. etrans; [exact S1|]. clear S1. cbn [fst snd] in Hout.
  set (stackaddr := read_guest_pthread_attr_u64 _ 8 0 s1) in *. set (size := get_effective_stack_size _) in *.
  destruct (_ || _); [done|].
  pose proof (rg_choose_sched (read_guest_pthread_attr_i32 (X 1 s) 32 0 s1) (read_guest_pthread_attr_i32 (X 1 s) 36 SCHED_OTHER s1)
    (read_guest_pthread_attr_i32 (X 1 s) 40 0 s1) s1) as Hr2.
  destruct (choose_sched _ _ _ s1) as [sched s2]. cbn [snd] in Hr2. rewrite <- Hr2 in Hinv1 |- *.
  destruct sched as [[policy priority]|]; [|done]. destruct (negb _); [done|]. destruct (exit_in_progress (rg s2)).
  - cbn [fetch_thread_id]. rewrite rg_set_X0. unfold register_thread. cbn [rg set_field set_rg].
    replace (rg (if X 0 s =? 0 then _ else _)) with ((rg s2) <| g_next_thread_id := g_next_thread_id (rg s2) ⊕ 1 |>)
      by (destruct (X 0 s =? 0); by rewrite ?rg_poke).
    eapply rtc_l; [by apply (OtherField _ ((rg s2) <| g_next_thread_id := g_next_thread_id (rg s2) ⊕ 1 |>))|].
    apply rtc_once. by apply RegisterThread.
  - by apply create_sections.
Qed.

Lemma notify_sections sp v fin s hs ht : (rg s, hs, ht) ⟶* (rg (notify_thread_exit sp v fin s), hs, ht).
Proof.
  unfold notify_thread_exit. destruct (thread_of_sp sp s) as [id|]; [|done]. destruct (g_threads (rg s) !! id) as [t|]; [|done].
  eapply rtc_l; [apply (UpdateThread _ _ _ id (fun t => if q_exit_reported t then t else t <| q_exit_reported := true |> <| q_return_value := v |>)); intros u; by destruct (q_exit_reported u)|].
  destruct (negb fin); [done|].
  eapply rtc_l; [apply (UpdateThread _ _ _ id (fun t => t <| q_completed := true |>)); done|]. destruct (q_completed t); [done|].
  eapply rtc_l; [apply same_regions_step, (release_same (q_stack_base t))|].
  eapply rtc_l; [apply same_regions_step, (release_same (q_tls_base t))|].
  destruct (q_detached t); [|done]. apply rtc_once. apply EraseThread.
Qed.

Lemma join_begin_sections s hs ht : (rg s, hs, ht) ⟶* (rg (join_begin s).2, hs, ht).
Proof.
  unfold join_begin. destruct (_ =? 0); [done|]. pose proof (rg_self s) as Hr. destruct (get_current_guest_pthread_id s) as [me s1].
  cbn [snd] in Hr. rewrite <- Hr. destruct (_ =? me); [done|]. destruct (g_threads (rg s1) !! _) as [t|]; [|done].
  destruct (q_detached t); [done|]. destruct (q_join_in_progress t); [done|]. by apply rtc_once, UpdateThread.
Qed.

Lemma join_finish_sections id p s hs ht : (rg s, hs, ht) ⟶* (rg (join_finish id p s), hs, ht).
Proof.
  unfold join_finish. destruct (g_threads (rg s) !! id) as [t|]; [|done]. rewrite rg_set_X0. cbn [rg set_field set_rg].
  replace (rg (if p =? 0 then _ else _)) with (rg s) by (destruct (p =? 0); by rewrite ?rg_poke). by apply rtc_once, EraseThread.
Qed.

Lemma detach_sections s hs ht : (rg s, hs, ht) ⟶* (rg (pthread_detach s), hs, ht).
Proof.
  unfold pthread_detach. destruct (_ =? 0); [done|]. destruct (g_threads (rg s) !! _) as [t|]; [|done].
  destruct (_ || _); [done|]. rewrite rg_set_X0.
  eapply rtc_l; [apply (UpdateThread _ _ _ (X 0 s) (fun t => t <| q_detached := true |>)); done|].
  destruct (q_completed t); [|done]. by apply rtc_once, EraseThread.
Qed.

(** Two live threads' regions are two entries of the list. *)
Lemma two_stacks m id1 id2 t1 t2 a1 a2 : id1 <> id2 -> m !! id1 = Some t1 -> m !! id2 = Some t2 ->
  arena_stack t1 = Some a1 -> arena_stack t2 = Some a2 -> exists l, stacks_of m ≡ₚ a1 :: a2 :: l.
Proof.
  intros Hne H1 H2 E1 E2. pose proof (stacks_delete _ _ _ H1) as P1.
  pose proof (stacks_delete (delete id1 m) id2 t2 ltac:(by rewrite lookup_delete_ne)) as P2. rewrite E1 in P1. rewrite E2 in P2.
  cbn in P1, P2. eexists. rewrite P1, P2. reflexivity.
Qed.
Lemma two_tls m id1 id2 t1 t2 a1 a2 : id1 <> id2 -> m !! id1 = Some t1 -> m !! id2 = Some t2 ->
  arena_tls t1 = Some a1 -> arena_tls t2 = Some a2 -> exists l, tls_of m ≡ₚ a1 :: a2 :: l.
Proof.
  intros Hne H1 H2 E1 E2. pose proof (tls_delete _ _ _ H1) as P1.
  pose proof (tls_delete (delete id1 m) id2 t2 ltac:(by rewrite lookup_delete_ne)) as P2. rewrite E1 in P1. rewrite E2 in P2.
  cbn in P1, P2. eexists. rewrite P1, P2. reflexivity.
Qed.

Lemma one_stack m id t a : m !! id = Some t -> arena_stack t = Some a -> exists l, stacks_of m ≡ₚ a :: l.
Proof. intros H1 E1. pose proof (stacks_delete _ _ _ H1) as P1. rewrite E1 in P1. eexists. exact P1. Qed.

Lemma stacks_disjoint r hs ht id1 id2 t1 t2 a1 a2 : regions_inv r hs ht -> id1 <> id2 ->
  g_threads r !! id1 = Some t1 -> g_threads r !! id2 = Some t2 -> arena_stack t1 = Some a1 -> arena_stack t2 = Some a2 ->
  disj a1 QEMU_THREAD_STACK_SIZE a2 QEMU_THREAD_STACK_SIZE.
Proof.
  intros [Hi _] Hne H1 H2 E1 E2. destruct (two_stacks _ _ _ _ _ _ _ Hne H1 H2 E1 E2) as (l & Hl). rewrite Hl in Hi.
  by eapply arena_disjoint; [|exact Hi].
Qed.

(** A live thread's stack is in nobody else's hands, and in its arena. *)
Lemma stack_owned r hs ht id t a : regions_inv r hs ht -> g_threads r !! id = Some t -> arena_stack t = Some a ->
  a ∉ hs /\ a ∉ g_free_stack_region_bases r /\ QEMU_THREAD_STACK_BASE <= a /\ a + QEMU_THREAD_STACK_SIZE <= SAFE_CALL_STACK_BASE.
Proof.
  intros [Hi _] H1 E1. destruct (one_stack _ _ _ _ H1 E1) as (l & Hl). rewrite Hl in Hi. destruct Hi as [(n & ? & ? & Hc) H2 H3].
  apply NoDup_cons in H3 as [H3 _]. rewrite !not_elem_of_app in H3. destruct (H2 a) as (k & ? & ? & ?); [by left|].
  unfold QEMU_THREAD_STACK_CEILING in Hc. split_and!; [tauto..|arena_lia|lia].
Qed.

(** C4: Threads do not share stacks. However the critical sections of creations,
    exits, joins and detaches on any number of host threads interleave, the stacks
    of two registered threads are disjoint slots of the arena, and so are their
    TLS blocks; a registered thread's stack is not on the free list, not in the
    hands of a creation that is under way, and ends below the safe-call stacks.
    Every handler is a sequence of such sections (a stack the guest brings itself
    must not lie in the arena). *)
Theorem arenas_exclusive r hs ht : (new_registry, [], []) ⟶* (r, hs, ht) ->
  (forall id1 id2 t1 t2, id1 <> id2 -> g_threads r !! id1 = Some t1 -> g_threads r !! id2 = Some t2 ->
     (forall a1 a2, arena_stack t1 = Some a1 -> arena_stack t2 = Some a2 ->
        disj a1 QEMU_THREAD_STACK_SIZE a2 QEMU_THREAD_STACK_SIZE) /\
     (forall a1 a2, arena_tls t1 = Some a1 -> arena_tls t2 = Some a2 -> disj a1 QEMU_THREAD_TLS_SIZE a2 QEMU_THREAD_TLS_SIZE)) /\
  (forall id t a, g_threads r !! id = Some t -> arena_stack t = Some a ->
     a ∉ hs /\ a ∉ g_free_stack_region_bases r /\ QEMU_THREAD_STACK_BASE <= a /\ a + QEMU_THREAD_STACK_SIZE <= SAFE_CALL_STACK_BASE) /\
  (forall s, rg s = r ->
     (((requested_stack s).1 <> 0 -> outside_arena (requested_stack s).1 (requested_stack s).2) ->
        (r, hs, ht) ⟶* (rg (pthread_create s), hs, ht)) /\
     (forall sp v fin, (r, hs, ht) ⟶* (rg (notify_thread_exit sp v fin s), hs, ht)) /\
     (r, hs, ht) ⟶* (rg (join_begin s).2, hs, ht) /\
     (forall id p, (r, hs, ht) ⟶* (rg (join_finish id p s), hs, ht)) /\
     (r, hs, ht) ⟶* (rg (pthread_detach s), hs, ht)).
Proof.
  intros Hrun. pose proof (sections_keep _ _ Hrun new_registry_inv : regions_inv r hs ht) as Hinv. split_and!.
  - intros id1 id2 t1 t2 Hne H1 H2. split; [by intros; eapply stacks_disjoint|]. intros a1 a2 E1 E2. destruct Hinv as [_ Hi].
    destruct (two_tls _ _ _ _ _ _ _ Hne H1 H2 E1 E2) as (l & Hl). rewrite Hl in Hi. by eapply arena_disjoint; [|exact Hi].
  - intros id t a Ht Ha. by eapply stack_owned.
  - intros s <-. split_and!.
    + by apply pthread_create_sections.
    + intros. apply notify_sections.
    + apply join_begin_sections.
    + intros. apply join_finish_sections.
    + apply detach_sections.
Qed.

End Handlers.

(** * Exit and join *)

Section ExitJoin.
Context {E : Env} `{!HostAccess E, !WalkLaws E, !GuestMemLaws E, !CpuMemLaws E, !RegLaws E, !HostAccessLaws E} {HS : HostSched}.
Implicit Types s : nstate.

Lemma nt_get_put m s : nt_mem (nt_put m s) = m.
Proof. reflexivity. Qed.
#[export] Instance nstate_laws : MemLaws nstate := lift_laws nt_mem nt_put nt_get_put.
#[export] Instance nstate_regs : RegFileLaws nstate := lift_regs nt_mem nt_put nt_get_put.

(** Only [id] claims the stack pointer. *)
Definition sole_owner (sp id : Z) (r : Registry) : Prop :=
  (exists t, g_threads r !! id = Some t /\ owns_sp sp t = true) /\
  forall id' t', g_threads r !! id' = Some t' -> owns_sp sp t' = true -> id' = id.

Lemma thread_of_sp_sole sp id s : sole_owner sp id (rg s) -> thread_of_sp sp s = Some id.
Proof.
  intros [(t & Ht & Ho) Hu]. unfold thread_of_sp. destruct (List.find _ _) as [x|] eqn:Hf.
  - apply List.find_some in Hf as [_ Hx]. destruct (g_threads (rg s) !! x) as [t'|] eqn:Hx'; [|done]. f_equal. by eapply Hu.
  - exfalso. eapply List.find_none in Hf; [rewrite Ht in Hf; cbn in Hf; congruence|].
    apply list_elem_of_In. rewrite walk_order_perm. apply list_elem_of_fmap. exists (id, t). split; [done|].
    by apply elem_of_map_to_list.
Qed.

(** Inside its own slot a thread is the only owner, if the threads on stacks of
    their own do not claim it. *)
Lemma arena_sole_owner r hs ht id t a sp : regions_inv r hs ht -> g_threads r !! id = Some t -> arena_stack t = Some a ->
  q_stack_size t = QEMU_THREAD_STACK_SIZE -> a < sp < a + QEMU_THREAD_STACK_SIZE ->
  (forall id' t', g_threads r !! id' = Some t' ->
     (is_Some (arena_stack t') /\ q_stack_size t' = QEMU_THREAD_STACK_SIZE) \/ owns_sp sp t' = false) ->
  sole_owner sp id r.
Proof.
  intros Hinv Ht Ha Hsz Hsp Hall.
  assert (Hrange : forall id' t' a', g_threads r !! id' = Some t' -> arena_stack t' = Some a' -> q_stack_size t' = QEMU_THREAD_STACK_SIZE ->
    owns_sp sp t' = true <-> a' <= sp <= a' + QEMU_THREAD_STACK_SIZE).
  { intros id' t' a' Hid' Ha' Hsz'. destruct (stack_owned _ _ _ _ _ _ Hinv Hid' Ha') as (_ & _ & Hlo & Hhi).
    unfold arena_stack in Ha'. destruct (negb _ && _); [|done]. injection Ha' as Ha'. unfold owns_sp. rewrite Hsz'.
    fold (stack_region (q_stack_base t')). rewrite Ha'. unfold stack_region in Ha'.
    assert (Et : q_stack_base t' ⊕ 0x100 = a' + QEMU_THREAD_STACK_SIZE).
    { rewrite <- Ha' in *. unfold u64, two64, QEMU_THREAD_STACK_SIZE, SAFE_CALL_STACK_BASE, QEMU_THREAD_STACK_BASE in *.
      Z.div_mod_to_equations. lia. }
    rewrite Et, andb_true_iff, !Z.leb_le. done. }
  split.
  - exists t. split; [done|]. apply (Hrange id t a); [done..|]. lia.
  - intros id' t' Ht' Ho. destruct (Hall id' t' Ht') as [[[a' Ha'] Hsz']|Hno]; [|congruence].
    destruct (decide (id' = id)) as [|Hne]; [done|]. exfalso. apply (Hrange id' t' a') in Ho; [|done..].
    pose proof (stacks_disjoint _ _ _ _ _ _ _ _ _ Hinv Hne Ht' Ht Ha' Ha) as Hd. unfold disj in Hd. arena_lia.
Qed.

(** What [notify_thread_exit] does to the owner of the stack pointer. *)
Lemma notify_spec sp v fin s id t : sole_owner sp id (rg s) -> g_threads (rg s) !! id = Some t ->
  q_detached t = false ->
  let s' := notify_thread_exit sp v fin s in
  let t' := if q_exit_reported t then t else t <| q_exit_reported := true |> <| q_return_value := v |> in
  g_threads (rg s') !! id = Some (if fin then t' <| q_completed := true |> else t') /\
  (forall k, k <> id -> g_threads (rg s') !! k = g_threads (rg s) !! k) /\
  nt_mem s' = nt_mem s /\ tl_current_thread_id s' = tl_current_thread_id s.
Proof.
  intros Hso Ht Hd s' t'. unfold s', notify_thread_exit. rewrite (thread_of_sp_sole _ _ _ Hso), Ht.
  set (f := fun t => if q_exit_reported t then t else t <| q_exit_reported := true |> <| q_return_value := v |>).
  assert (Hd' : q_detached (f t) = false /\ q_completed (f t) = q_completed t).
  { unfold f. by destruct (q_exit_reported t). }
  destruct fin; cbn [negb].
  - assert (Hthr : g_threads (rg (upd_qthread id (fun t => t <| q_completed := true |>) (upd_qthread id f s)))
      = alter (fun t => t <| q_completed := true |>) id (alter f id (g_threads (rg s)))) by done.
    assert (Hgoal : forall r, g_threads r = alter (fun t => t <| q_completed := true |>) id (alter f id (g_threads (rg s))) ->
      g_threads r !! id = Some ((f t) <| q_completed := true |>) /\ (forall k, k <> id -> g_threads r !! k = g_threads (rg s) !! k)).
    { intros r ->. split; [by rewrite !lookup_alter_eq, Ht|]. intros k Hk. by rewrite !lookup_alter_ne. }
    destruct (q_completed t).
    + destruct (Hgoal _ Hthr) as [H1 H2]. split_and!; done.
    + rewrite Hd. cbn [rg set_field set_rg].
      destruct (release_same (q_tls_base t) (hle_release_vmas (q_stack_base t) (rg (upd_qthread id (fun t => t <| q_completed := true |>) (upd_qthread id f s))))) as (E1 & _).
      destruct (release_same (q_stack_base t) (rg (upd_qthread id (fun t => t <| q_completed := true |>) (upd_qthread id f s)))) as (E2 & _).
      destruct (Hgoal (hle_release_vmas (q_tls_base t) (hle_release_vmas (q_stack_base t) (rg (upd_qthread id (fun t => t <| q_completed := true |>) (upd_qthread id f s))))))
        as [H1 H2]; [by rewrite E1, E2|]. split_and!; done.
  - split_and!; try done.
    + cbn. by rewrite lookup_alter_eq, Ht.
    + intros k Hk. cbn. by rewrite lookup_alter_ne.
Qed.

(** A thread's exit report keeps its stack. *)
Lemma notify_keeps_owner sp v s hs ht id t a : regions_inv (rg s) hs ht -> g_threads (rg s) !! id = Some t ->
  arena_stack t = Some a -> q_stack_size t = QEMU_THREAD_STACK_SIZE -> a < sp < a + QEMU_THREAD_STACK_SIZE ->
  (forall id' t', g_threads (rg s) !! id' = Some t' ->
     (is_Some (arena_stack t') /\ q_stack_size t' = QEMU_THREAD_STACK_SIZE) \/ owns_sp sp t' = false) ->
  q_detached t = false ->
  sole_owner sp id (rg s) /\ sole_owner sp id (rg (notify_thread_exit sp v false s)).
Proof.
  intros Hinv Ht Ha Hsz Hsp Hall Hd. assert (Hso : sole_owner sp id (rg s)) by (by eapply arena_sole_owner).
  split; [done|]. destruct (notify_spec sp v false s id t Hso Ht Hd) as (H1 & H2 & _).
  assert (Hsame : forall t0 : QemuThread, let t' := if q_exit_reported t0 then t0 else t0 <| q_exit_reported := true |> <| q_return_value := v |> in
    arena_stack t' = arena_stack t0 /\ q_stack_size t' = q_stack_size t0 /\ owns_sp sp t' = owns_sp sp t0)
    by (intros t0; cbv zeta; by destruct (q_exit_reported t0)).
  destruct (Hsame t) as (E1 & E2 & E3).
  eapply arena_sole_owner; [|exact H1|by rewrite E1|by rewrite E2|done|].
  - apply (sections_keep _ _ (notify_sections sp v false s hs ht)). done.
  - intros id' t' Ht'. destruct (decide (id' = id)) as [->|Hne].
    + rewrite H1 in Ht'. injection Ht' as <-. rewrite E1, E2, Ha. left. split; [by eexists|done].
    + rewrite H2 in Ht' by done. by apply Hall in Ht'.
Qed.

(** C5: A thread's result reaches whoever joins it. The thread reports its result
    from somewhere inside its own stack and later exits with any value: until then
    a join waits, and after it the join succeeds with 0, stores the reported value
    where it was asked to, removes the thread and no other, and its stack is the
    next one to be reused. *)
Theorem exit_value_delivered s hs ht id t a sp v w p :
  regions_inv (rg s) hs ht -> g_threads (rg s) !! id = Some t -> arena_stack t = Some a ->
  q_stack_size t = QEMU_THREAD_STACK_SIZE -> a < sp < a + QEMU_THREAD_STACK_SIZE ->
  (forall id' t', g_threads (rg s) !! id' = Some t' ->
     (is_Some (arena_stack t') /\ q_stack_size t' = QEMU_THREAD_STACK_SIZE) \/ owns_sp sp t' = false) ->
  q_detached t = false -> q_completed t = false -> q_exit_reported t = false ->
  mem_ok s -> cpu_ok s -> fits REG_X0 0 -> mapped p 8 s -> p <> 0 ->
  let s1 := notify_thread_exit sp v false s in
  let s2 := notify_thread_exit sp w true s1 in
  let s3 := join_finish id p s2 in
  join_ready id s = false /\ join_ready id s1 = false /\ join_ready id s2 = true /\
  word_at s3 p v /\ getr REG_X0 s3 = 0 /\ g_threads (rg s3) !! id = None /\
  (forall k, k <> id -> g_threads (rg s3) !! k = g_threads (rg s) !! k) /\
  head (g_free_stack_region_bases (rg s3)) = Some a.
Proof.
  intros Hinv Ht Ha Hsz Hsp Hall Hd Hc Hr Hm Hcpu Hfit Hmap Hp s1 s2 s3.
  destruct (notify_keeps_owner sp v s hs ht id t a Hinv Ht Ha Hsz Hsp Hall Hd) as [Hso1 Hso2].
  destruct (notify_spec sp v false s id t Hso1 Ht Hd) as (T1 & O1 & M1 & _). rewrite Hr in T1. fold s1 in T1, O1, M1, Hso2.
  destruct (notify_spec sp w true s1 id _ Hso2 T1 Hd) as (T2 & O2 & M2 & _). cbn [q_exit_reported set_field set_q_exit_reported set_q_return_value] in T2.
  fold s2 in T2, O2, M2. set (t2 := t <| q_exit_reported := true |> <| q_return_value := v |> <| q_completed := true |>) in *.
  assert (Hmem2 : nt_mem s2 = nt_mem s) by congruence.
  unfold join_ready. rewrite Ht, T1, T2. split_and!; [done..| | | | |].
  all: unfold s3, join_finish; rewrite T2, (proj2 (Z.eqb_neq p 0) Hp).
  all: set (s4 := poke p (le_bytes 8 (q_return_value t2)) s2); assert (Hrg4 : rg s4 = rg s2) by apply rg_poke.
  - unfold word_at. eapply holds_at_ext; [intros x _|apply holds_stored].
    assert (Hmap2 : mapped p (Z.of_nat (length (le_bytes 8 v))) s2) by (rewrite length_le_bytes; cbn; by rewrite Hmem2).
    destruct (gwrite_mapped p (le_bytes 8 v) s2) as (s' & Hw & _ & _ & Hb); [cbn; by rewrite Hmem2|done..|].
    assert (s4 = s') as E4 by (unfold s4, poke; cbn [q_return_value t2 set_field set_q_return_value set_q_completed]; by rewrite Hw).
    change (byte_at (set_X0 0 (s4 <| rg ::= erase_thread id |>)) x) with (byte_at (putr REG_X0 (u64 0) s4) x).
    rewrite byte_putr, E4. symmetry. apply Hb.
  - change (getr REG_X0 (set_X0 0 (s4 <| rg ::= erase_thread id |>))) with (getr REG_X0 (putr REG_X0 0 s4)).
    apply getr_putr; [|done]. apply cpu_gwrite. cbn. by rewrite Hmem2.
  - rewrite rg_set_X0. cbn [rg set_field set_rg]. rewrite Hrg4. unfold erase_thread. rewrite T2. unfold recycle_thread_arena.
    destruct (negb _ && _), (negb _ && _); cbn; apply lookup_delete_eq.
  - intros k Hk. rewrite rg_set_X0. cbn [rg set_field set_rg]. rewrite Hrg4. unfold erase_thread. rewrite T2. unfold recycle_thread_arena.
    rewrite <- (O1 k Hk), <- (O2 k Hk). destruct (negb _ && _), (negb _ && _); cbn; by rewrite lookup_delete_ne.
  - rewrite rg_set_X0. cbn [rg set_field set_rg]. rewrite Hrg4. unfold erase_thread. rewrite T2. unfold recycle_thread_arena.
    unfold arena_stack in Ha. change (q_stack_base t2) with (q_stack_base t). destruct (negb (q_stack_base t =? 0) && _); [|done].
    injection Ha as Ha. rewrite Ha. by destruct (negb _ && _).
Qed.

(** * Identity *)

(** A thread that runs on a stack of the arena is told the number of its slot. *)
Lemma self_by_slot s a k : tl_virtual_tid_override s = 0 -> 0 <= k -> a = QEMU_THREAD_STACK_BASE + k * QEMU_THREAD_STACK_SIZE ->
  a + QEMU_THREAD_STACK_SIZE <= QEMU_THREAD_STACK_CEILING -> a <= X REG_SP s < a + QEMU_THREAD_STACK_SIZE ->
  (get_current_guest_pthread_id s).1 = 0x1000 + k.
Proof.
  intros Ho Hk Ha Hc Hsp. unfold get_current_guest_pthread_id. rewrite Ho. cbn [Z.eqb negb].
  unfold is_safe_call_stack_sp. rewrite (proj2 (Z.leb_gt _ _)) by arena_lia. cbn [andb].
  unfold get_thread_id_from_sp. rewrite (andb_false_intro2 _ _ (proj2 (Z.ltb_ge (X REG_SP s) 0x80000000) ltac:(arena_lia))).
  rewrite (proj2 (Z.leb_le _ _)) by arena_lia.
  assert (Ek : (X REG_SP s - QEMU_THREAD_STACK_BASE) / QEMU_THREAD_STACK_SIZE = k).
  { symmetry. apply (Z.div_unique_pos _ _ _ (X REG_SP s - a)); arena_lia. }
  rewrite Ek. destruct (Z.eqb_spec (0x1000 + k) 0); [lia|done].
Qed.

Lemma reserve_room key n r : key <> 0 -> 0 < n -> g_guest_vma_count r + n <= GUEST_VMA_LIMIT ->
  (hle_try_reserve_vmas key n r).1 = true /\ g_guest_vma_count (hle_try_reserve_vmas key n r).2 = g_guest_vma_count r + n.
Proof.
  intros Hk Hn Hc. unfold hle_try_reserve_vmas. rewrite (proj2 (Z.eqb_neq key 0)), (proj2 (Z.eqb_neq n 0)) by lia. cbn [orb].
  by rewrite (proj2 (Z.ltb_ge _ _)) by lia.
Qed.

(** A creation that reuses the stack at [a] registers a thread on that stack. *)
Lemma spawn_recycled ptr routine arg lr size guard policy prio det s a k rest b tls_rest :
  g_free_stack_region_bases (rg s) = a :: rest -> g_free_tls_region_bases (rg s) = b :: tls_rest ->
  0 <= k -> a = QEMU_THREAD_STACK_BASE + k * QEMU_THREAD_STACK_SIZE -> a + QEMU_THREAD_STACK_SIZE <= QEMU_THREAD_STACK_CEILING ->
  b ⊕ 8 <> 0 -> g_guest_vma_count (rg s) + 3 <= GUEST_VMA_LIMIT ->
  exists t, g_threads (rg (spawn_thread ptr routine arg lr 0 size guard policy prio det s)) !! g_next_thread_id (rg s) = Some t /\
    q_stack_base t = a + QEMU_THREAD_STACK_SIZE - 0x100.
Proof.
  intros Hfs Hft Hk Ha Hc Hb Hv. set (id := g_next_thread_id (rg s)). destruct (stack_slot_facts a k Hk Ha Hc) as (Etop & _ & _ & Hnz).
  unfold spawn_thread. cbn [fetch_thread_id Z.eqb andb]. fold id.
  set (s1 := s <| rg ::= _ |>). unfold allocate_thread_stack, take_stack_region.
  replace (g_free_stack_region_bases (rg s1)) with (a :: rest) by (by rewrite <- Hfs).
  set (r1 := (rg s1) <| g_free_stack_region_bases := rest |>). set (top := a ⊕ QEMU_THREAD_STACK_SIZE ⊖ 0x100) in *.
  pose proof (reserve_same top 2 r1) as (_ & _ & _ & _ & Hsame).
  destruct (reserve_room top 2 r1 Hnz ltac:(lia)) as [Hok Hcnt]; [change (g_guest_vma_count r1) with (g_guest_vma_count (rg s)); lia|].
  destruct (hle_try_reserve_vmas top 2 r1) as [ok r2]. cbn [fst snd] in *. subst ok. rewrite (proj2 (Z.eqb_neq top 0)) by done.
  unfold allocate_thread_tls, take_tls_region. cbn [rg set_field set_rg].
  replace (g_free_tls_region_bases r2) with (b :: tls_rest) by (by rewrite Hsame, <- Hft).
  set (r3 := r2 <| g_free_tls_region_bases := tls_rest |>).
  destruct (reserve_room (b ⊕ 8) 1 r3 Hb ltac:(lia)) as [Hok3 _].
  { change (g_guest_vma_count r3) with (g_guest_vma_count r2). rewrite Hcnt. change (g_guest_vma_count r1) with (g_guest_vma_count (rg s)). lia. }
  destruct (hle_try_reserve_vmas (b ⊕ 8) 1 r3) as [ok4 r4]. cbn [fst] in Hok3. subst ok4. cbv beta iota.
  rewrite (proj2 (Z.eqb_neq (b ⊕ 8) 0)) by done.
  eexists. unfold enter_clone. rewrite !rg_putr. unfold register_thread. cbn [rg set_field set_rg g_threads set_g_threads q_thread_id new_thread].
  rewrite lookup_insert_eq. split; [done|]. cbn. done.
Qed.

(** A thread on a recycled stack does not know its own name. [pthread_create]
    numbers threads by a counter, [pthread_self] by the stack slot: once a slot is
    reused the two disagree.  The new thread is registered under the counter's
    value, and everywhere on its stack [pthread_self] answers another number, that
    of the slot. *)
Theorem recycled_thread_misidentified ptr routine arg lr size guard policy prio det s a k rest b tls_rest :
  g_free_stack_region_bases (rg s) = a :: rest -> g_free_tls_region_bases (rg s) = b :: tls_rest ->
  0 <= k -> a = QEMU_THREAD_STACK_BASE + k * QEMU_THREAD_STACK_SIZE -> a + QEMU_THREAD_STACK_SIZE <= QEMU_THREAD_STACK_CEILING ->
  b ⊕ 8 <> 0 -> g_guest_vma_count (rg s) + 3 <= GUEST_VMA_LIMIT ->
  let id := g_next_thread_id (rg s) in
  id <> 0x1000 + k ->
  let s' := spawn_thread ptr routine arg lr 0 size guard policy prio det s in
  (exists t, g_threads (rg s') !! id = Some t /\ q_stack_base t = a + QEMU_THREAD_STACK_SIZE - 0x100) /\
  (forall c : nstate, tl_virtual_tid_override c = 0 -> a <= X REG_SP c < a + QEMU_THREAD_STACK_SIZE ->
     (get_current_guest_pthread_id c).1 = 0x1000 + k /\ (get_current_guest_pthread_id c).1 <> id).
Proof.
  intros Hfs Hft Hk Ha Hc Hb Hv id Hid s'. split; [by apply (spawn_recycled _ _ _ _ _ _ _ _ _ _ _ k rest b tls_rest)|].
  intros c Ho Hsp. rewrite (self_by_slot c a k Ho Hk Ha Hc Hsp). split; [done|congruence].
Qed.

(** * The budget *)

(** A spent budget: the attempt fails and takes the next slot. *)
Lemma stack_refused s :
  g_free_stack_region_bases (rg s) = [] -> QEMU_THREAD_STACK_BASE <= g_next_stack_addr (rg s) ->
  g_next_stack_addr (rg s) + QEMU_THREAD_STACK_SIZE <= QEMU_THREAD_STACK_CEILING -> GUEST_VMA_LIMIT < g_guest_vma_count (rg s) + 2 ->
  allocate_thread_stack s = (0, s <| rg ::= fun r => r <| g_next_stack_addr := g_next_stack_addr r ⊕ QEMU_THREAD_STACK_SIZE |> |>).
Proof.
  intros Hf Hlo Hhi Hv. unfold allocate_thread_stack, take_stack_region. rewrite Hf.
  assert (En : g_next_stack_addr (rg s) ⊕ QEMU_THREAD_STACK_SIZE = g_next_stack_addr (rg s) + QEMU_THREAD_STACK_SIZE) by (apply u64_small; arena_lia).
  rewrite (proj2 (Z.ltb_ge _ _)) by lia.
  assert (Et : (g_next_stack_addr (rg s) ⊕ QEMU_THREAD_STACK_SIZE ⊖ 0x100 =? 0) = false)
    by (rewrite En, u64_small by arena_lia; apply Z.eqb_neq; arena_lia).
  unfold hle_try_reserve_vmas. rewrite Et. cbn [orb Z.eqb].
  match goal with |- context [GUEST_VMA_LIMIT <? g_guest_vma_count ?r + 2] =>
    change (g_guest_vma_count r) with (g_guest_vma_count (rg s)) end.
  by rewrite (proj2 (Z.ltb_lt GUEST_VMA_LIMIT _)) by exact Hv.
Qed.

(** [i] attempts, one after the other. *)
Definition attempts (i : nat) s : nstate := Nat.iter i (fun s => (allocate_thread_stack s).2) s.

Lemma attempts_refused n s :
  g_free_stack_region_bases (rg s) = [] -> g_next_stack_addr (rg s) = QEMU_THREAD_STACK_CEILING - Z.of_nat n * QEMU_THREAD_STACK_SIZE ->
  QEMU_THREAD_STACK_BASE <= g_next_stack_addr (rg s) -> GUEST_VMA_LIMIT < g_guest_vma_count (rg s) + 2 ->
  forall i, (i <= n)%nat ->
    g_free_stack_region_bases (rg (attempts i s)) = [] /\ g_threads (rg (attempts i s)) = g_threads (rg s) /\
    g_next_stack_addr (rg (attempts i s)) = g_next_stack_addr (rg s) + Z.of_nat i * QEMU_THREAD_STACK_SIZE /\
    g_guest_vma_count (rg (attempts i s)) = g_guest_vma_count (rg s).
Proof.
  intros Hf Hn Hlo Hv. induction i as [|i IH]; intros Hi; [unfold attempts; cbn; split_and!; [done..|lia|done]|].
  destruct (IH ltac:(lia)) as (H1 & H2 & H3 & H4). unfold attempts in *. rewrite Nat.iter_succ.
  set (si := Nat.iter i _ s) in *. rewrite stack_refused by (first [done | arena_lia]). cbn [snd].
  split_and!; [exact H1|exact H2| |exact H4].
  change (g_next_stack_addr (rg si) ⊕ QEMU_THREAD_STACK_SIZE = g_next_stack_addr (rg s) + Z.of_nat (S i) * QEMU_THREAD_STACK_SIZE).
  rewrite u64_small; arena_lia.
Qed.

(** Failed creations use up the arena. When the budget of mappings is spent,
    every attempt to allocate a stack fails, but still takes a fresh slot that is
    never given back: after as many attempts as there were slots left the arena is
    empty, and no stack can be allocated any more even when the budget recovers. *)
Theorem failed_stack_leaks n s :
  g_free_stack_region_bases (rg s) = [] -> g_next_stack_addr (rg s) = QEMU_THREAD_STACK_CEILING - Z.of_nat n * QEMU_THREAD_STACK_SIZE ->
  QEMU_THREAD_STACK_BASE <= g_next_stack_addr (rg s) -> GUEST_VMA_LIMIT < g_guest_vma_count (rg s) + 2 ->
  (forall i, (i < n)%nat -> (allocate_thread_stack (attempts i s)).1 = 0) /\
  g_threads (rg (attempts n s)) = g_threads (rg s) /\ g_free_stack_region_bases (rg (attempts n s)) = [] /\
  forall s', same_regions (rg (attempts n s)) (rg s') -> (allocate_thread_stack s').1 = 0.
Proof.
  intros Hf Hn Hlo Hv. pose proof (attempts_refused n s Hf Hn Hlo Hv) as Hall.
  destruct (Hall n ltac:(lia)) as (H1 & H2 & H3 & _). split_and!; [|done|done|].
  - intros i Hi. destruct (Hall i ltac:(lia)) as (K1 & K2 & K3 & K4). by rewrite stack_refused by (first [done | arena_lia]).
  - intros s' (_ & E2 & _ & E4 & _). unfold allocate_thread_stack, take_stack_region. rewrite E4, H1, E2, H3.
    rewrite u64_small by arena_lia. by rewrite (proj2 (Z.ltb_lt _ _)) by arena_lia.
Qed.

End ExitJoin.

(** * Witnesses *)

#[export] Instance demo_sched : HostSched :=
  {| sysconf_pagesize := 4096; sched_priority_min _ := 1; sched_priority_max _ := 99 |}.

(** The [k]-th thread created from a fresh start. *)
Definition demo_thread (k : Z) : QemuThread :=
  new_thread (0x1000 + k) 0x4000 0 (QEMU_THREAD_STACK_BASE + (k + 1) * QEMU_THREAD_STACK_SIZE - 0x100) QEMU_THREAD_STACK_SIZE
    0x800000 (QEMU_THREAD_TLS_BASE + k * QEMU_THREAD_TLS_SIZE + 8) 0 4096 0 0 false false.
Definition take_regions (r : Registry) : Registry := (take_tls_region (take_stack_region r).2).2.
Definition demo_registry : Registry :=
  (take_regions ((take_regions new_registry) <| g_threads ::= <[0x1000 := demo_thread 0]> |>)) <| g_threads ::= <[0x1001 := demo_thread 1]> |>.

Lemma demo_run : (new_registry, [], []) ⟶* (demo_registry, [], []).
Proof.
  eapply rtc_l; [by eapply (TakeStack _ _ _ QEMU_THREAD_STACK_BASE)|].
  eapply rtc_l; [by eapply (TakeTls _ _ _ QEMU_THREAD_TLS_BASE)|].
  eapply rtc_l; [by apply (RegisterThread _ _ [] _ [] (demo_thread 0))|].
  eapply rtc_l; [by eapply (TakeStack _ _ _ (QEMU_THREAD_STACK_BASE + QEMU_THREAD_STACK_SIZE))|].
  eapply rtc_l; [by eapply (TakeTls _ _ _ (QEMU_THREAD_TLS_BASE + QEMU_THREAD_TLS_SIZE))|].
  apply rtc_once. by apply (RegisterThread _ _ [] _ [] (demo_thread 1)).
Qed.

Definition demo_native : nstate (E := RefEnv) :=
  {| rg := demo_registry; tl_current_thread_id := 0; tl_virtual_tid_override := 0; nt_mem := text_regs 0 0 0 |}.

Lemma arenas_exclusive_witness : disj 0x90000000 0x100000 0x90100000 0x100000 /\
  (demo_registry, [], []) ⟶* (rg (pthread_detach demo_native), [], []).
Proof.
  destruct (arenas_exclusive (E := RefEnv) demo_registry [] [] demo_run) as (H1 & _ & H3). split.
  - by apply (H1 0x1000 0x1001 (demo_thread 0) (demo_thread 1)).
  - by apply (H3 demo_native).
Defined.

Lemma exit_value_delivered_witness :
  let s2 := notify_thread_exit 0x90080000 0 true (notify_thread_exit 0x90080000 42 false demo_native) in
  join_ready 0x1000 s2 = true /\ word_at (join_finish 0x1000 0x1200 s2) 0x1200 42.
Proof.
  destruct (exit_value_delivered demo_native [] [] 0x1000 (demo_thread 0) 0x90000000 0x90080000 42 0 0x1200) as (_ & _ & H1 & H2 & _);
    [|done..| |done|done|done| | | | |done|by split].
  - apply (sections_keep _ _ demo_run new_registry_inv).
  - intros id t Ht. change ((<[0x1001 := demo_thread 1]> (<[0x1000 := demo_thread 0]> ∅) : gmap Z QemuThread) !! id = Some t) in Ht.
    apply lookup_insert_Some in Ht as [[<- <-]|[_ Ht]]; [left; split; [by eexists|done]|].
    apply lookup_insert_Some in Ht as [[<- <-]|[_ Ht]]; [left; split; [by eexists|done]|]. by rewrite lookup_empty in Ht.
  - destruct (text_sane 0 0 0); done.
  - destruct (text_sane 0 0 0); done.
  - destruct (text_sane 0 0 0); done.
  - apply (text_mapped 0 0 0); cbn; lia.
Defined.

(** The first thread has ended: its slot is free, the counter has moved on. *)
Definition demo_recycled : nstate (E := RefEnv) :=
  demo_native <| rg := (recycle_thread_arena (q_stack_base (demo_thread 0)) 0 (q_tls_base (demo_thread 0)) new_registry)
                         <| g_next_thread_id := 0x1001 |> |>.

Lemma recycled_thread_misidentified_witness :
  let s' := spawn_thread 0x1200 0x4000 0 0 0 0x800000 4096 0 0 false demo_recycled in
  exists t, g_threads (rg s') !! 0x1001 = Some t /\ q_stack_base t = 0x900FFF00.
Proof.
  apply (recycled_thread_misidentified 0x1200 0x4000 0 0 0x800000 4096 0 0 false demo_recycled 0x90000000 0 [] 0xD0000000 []); done.
Defined.

(** One slot left, and a budget with room for one mapping. *)
Definition demo_spent : nstate (E := RefEnv) :=
  demo_native <| rg := new_registry <| g_next_stack_addr := QEMU_THREAD_STACK_CEILING - QEMU_THREAD_STACK_SIZE |>
                                    <| g_guest_vma_count := 4095 |> |>.

Lemma failed_stack_leaks_witness :
  (allocate_thread_stack demo_spent).1 = 0 /\
  (allocate_thread_stack ((attempts 1 demo_spent) <| rg ::= fun r => r <| g_guest_vma_count := 0 |> |>)).1 = 0.
Proof.
  destruct (failed_stack_leaks 1 demo_spent) as (H1 & _ & _ & H2); [done..|]. split; [apply (H1 0%nat); lia|]. by apply H2.
Defined.
