(* ===== verification/HostRwLock.v ===== *)
(** Read-write locks of the native thread mode (src/src/hle/hle_pthread.cpp): the
    writer-preferring lock CrossShim implements itself, and the routing of the
    other kind to the host's [pthread_rwlock_t].

    [lock_writer_pref_reader] and [lock_writer_pref_writer] hold [state_mutex]
    from entry to return except while they wait on [state_cv].  Each is the two
    stretches around the wait: the entry, which finishes or parks, and the resumption after a
    wake-up or a timeout, which finishes or parks again.  [rwsys] is one lock with
    the threads inside its functions; its steps are such stretches, wake-ups
    (spurious ones too) and expired deadlines in any order.  A thread is its host
    thread token.  The counters are [int]s of the source, far from their limits. *)

From S2P Require Import Prelude.

Definition EDEADLK_ : Z := 35.
Definition EBUSY_ : Z := 16.
Definition EINVAL_ : Z := 22.
Definition ETIMEDOUT_ : Z := 110.
Definition CLOCK_REALTIME : Z := 0.
Definition CLOCK_MONOTONIC : Z := 1.

(** * Deadlines *)

Record timespec := { tv_sec : Z; tv_nsec : Z }.

Definition INT64_MAX : Z := 2 ^ 63 - 1.
Definition INT64_MIN : Z := - 2 ^ 63.

Definition timespec_to_ns (ts : timespec) : option Z :=
  if (tv_nsec ts <? 0) || (1000000000 <=? tv_nsec ts) then None
  else let value := tv_sec ts * 1000000000 + tv_nsec ts in
       Some (if INT64_MAX <? value then INT64_MAX else if value <? INT64_MIN then INT64_MIN else value).

(** What [clock_gettime] answers for a clock: a time, or an [errno]. *)
Definition clock_reading : Type := Z -> timespec + Z.

Definition get_clock_now_ns (clocks : clock_reading) (clockid : Z) : option Z + Z :=
  match clocks clockid with inl ts => inl (timespec_to_ns ts) | inr errno => inr errno end.

(** [inl] is the time left until the deadline, [inr] an error; without a time
    there is no deadline. *)
Definition prepare_rwlock_deadline (clocks : clock_reading) (abstime : option timespec) (clockid : Z) : option Z + Z :=
  match abstime with
  | None => inl None
  | Some ts =>
      if negb ((clockid =? CLOCK_REALTIME) || (clockid =? CLOCK_MONOTONIC)) then inr EINVAL_
      else match timespec_to_ns ts with
           | None => inr EINVAL_
           | Some abstime_ns =>
               match get_clock_now_ns clocks clockid with
               | inr errno => inr (if errno =? 0 then EINVAL_ else errno)
               | inl None => inr EINVAL_
               | inl (Some now_ns) => if abstime_ns <=? now_ns then inr ETIMEDOUT_ else inl (Some (abstime_ns - now_ns))
               end
           end
  end.

(** * The lock *)

Record HostRWLock := {
  prefer_writer_nonrecursive : bool;
  reader_counts : gmap Z Z;
  active_readers : Z;
  waiting_writers : Z;
  writer_active : bool;
  writer_tid : Z;
}.
Definition eta_rw (l : HostRWLock) : HostRWLock :=
  Build_HostRWLock (prefer_writer_nonrecursive l) (reader_counts l) (active_readers l) (waiting_writers l)
    (writer_active l) (writer_tid l).
#[export] Instance set_reader_counts : Setter reader_counts := ltac:(build_setter eta_rw reader_counts).
#[export] Instance set_active_readers : Setter active_readers := ltac:(build_setter eta_rw active_readers).
#[export] Instance set_waiting_writers : Setter waiting_writers := ltac:(build_setter eta_rw waiting_writers).
#[export] Instance set_writer_active : Setter writer_active := ltac:(build_setter eta_rw writer_active).
#[export] Instance set_writer_tid : Setter writer_tid := ltac:(build_setter eta_rw writer_tid).

Definition GUEST_PTHREAD_RWLOCK_PREFER_WRITER_NONRECURSIVE_NP : Z := 1.

Definition new_rwlock (guest_kind : Z) : HostRWLock :=
  {| prefer_writer_nonrecursive := guest_kind =? GUEST_PTHREAD_RWLOCK_PREFER_WRITER_NONRECURSIVE_NP;
     reader_counts := ∅; active_readers := 0; waiting_writers := 0; writer_active := false; writer_tid := 0 |}.

(** How a stretch ends: the function returns [r], after a [notify_all] or
    without one; or the thread waits on [state_cv], until a deadline or without. *)
Inductive rw_out :=
| Finished (r : Z) (l : HostRWLock) (notify : bool)
| Waits (l : HostRWLock) (deadline : option Z) (notify : bool).

Definition can_acquire_writer_pref_reader_locked (l : HostRWLock) (tid : Z) : bool :=
  if writer_active l then false
  else match reader_counts l !! tid with
       | None => negb (0 <? waiting_writers l)
       | Some _ => true
       end.

Definition acquire_writer_pref_reader_locked (l : HostRWLock) (tid : Z) : HostRWLock :=
  l <| reader_counts ::= fun m => <[tid := default 0 (m !! tid) + 1]> m |> <| active_readers := active_readers l + 1 |>.

(** The reader's wait, from the test of its condition. *)
Definition reader_wait (l : HostRWLock) (tid : Z) (deadline : option Z) : rw_out :=
  if can_acquire_writer_pref_reader_locked l tid then Finished 0 (acquire_writer_pref_reader_locked l tid) false
  else Waits l deadline false.

Definition lock_writer_pref_reader (clocks : clock_reading) (l : HostRWLock) (tid : Z) (try_only : bool) (clockid : Z)
    (abstime : option timespec) : rw_out :=
  if writer_active l && (writer_tid l =? tid) then Finished EDEADLK_ l false
  else match reader_counts l !! tid with
       | Some _ => Finished 0 (acquire_writer_pref_reader_locked l tid) false
       | None =>
           if try_only
           then if can_acquire_writer_pref_reader_locked l tid
                then Finished 0 (acquire_writer_pref_reader_locked l tid) false
                else Finished EBUSY_ l false
           else match prepare_rwlock_deadline clocks abstime clockid with
                | inr e => Finished e l false
                | inl deadline => reader_wait l tid deadline
                end
       end.

(** The deadline of a waiting reader has passed. *)
Definition reader_timeout (l : HostRWLock) (tid : Z) : rw_out :=
  if can_acquire_writer_pref_reader_locked l tid then Finished 0 (acquire_writer_pref_reader_locked l tid) false
  else Finished ETIMEDOUT_ l false.

Definition writer_can_acquire (l : HostRWLock) : bool := negb (writer_active l) && (active_readers l =? 0).
Definition set_writer (l : HostRWLock) (tid : Z) : HostRWLock := l <| writer_active := true |> <| writer_tid := tid |>.
(** [clear_waiter], less its [notify_all]. *)
Definition clear_waiter (l : HostRWLock) : HostRWLock := l <| waiting_writers := waiting_writers l - 1 |>.

(** The writer's wait, from the test of its condition. *)
Definition writer_wait (l : HostRWLock) (tid : Z) (deadline : option Z) : rw_out :=
  if writer_can_acquire l then Finished 0 (set_writer (clear_waiter l) tid) true else Waits l deadline false.

Definition lock_writer_pref_writer (clocks : clock_reading) (l : HostRWLock) (tid : Z) (try_only : bool) (clockid : Z)
    (abstime : option timespec) : rw_out :=
  if writer_active l && (writer_tid l =? tid) then Finished EDEADLK_ l false
  else match reader_counts l !! tid with
       | Some _ => Finished EDEADLK_ l false
       | None =>
           if try_only
           then if writer_can_acquire l then Finished 0 (set_writer l tid) false else Finished EBUSY_ l false
           else let l1 := l <| waiting_writers := waiting_writers l + 1 |> in
                match prepare_rwlock_deadline clocks abstime clockid with
                | inr e => Finished e (clear_waiter l1) true
                | inl deadline => writer_wait l1 tid deadline
                end
       end.

(** The deadline of a waiting writer has passed. *)
Definition writer_timeout (l : HostRWLock) (tid : Z) : rw_out :=
  if writer_can_acquire l then Finished 0 (set_writer (clear_waiter l) tid) true
  else Finished ETIMEDOUT_ (clear_waiter l) true.

(** The part of [unlock_rwlock] for the writer-preferring kind. *)
Definition unlock_writer_pref (l : HostRWLock) (tid : Z) : rw_out :=
  if writer_active l && (writer_tid l =? tid) then Finished 0 (l <| writer_active := false |> <| writer_tid := 0 |>) true
  else match reader_counts l !! tid with
       | None => Finished EINVAL_ l false
       | Some n =>
           if n <=? 0 then Finished EINVAL_ l false
           else let l1 := l <| reader_counts ::= <[tid := n - 1]> |> <| active_readers := active_readers l - 1 |> in
                let l2 := if n - 1 =? 0 then l1 <| reader_counts ::= delete tid |> else l1 in
                Finished 0 l2 (active_readers l2 =? 0)
       end.

(** * Routing *)

(** A lock of the other kind goes to the host's functions. *)
Inductive host_rw_call :=
| HostRd | HostWr | HostTryRd | HostTryWr | HostUnlock
| HostTimedRd (t : timespec) | HostTimedWr (t : timespec)
| HostClockRd (clockid : Z) (t : timespec) | HostClockWr (clockid : Z) (t : timespec).
Inductive rw_route :=
| ToHost (c : host_rw_call)
| Own (write try_only : bool) (clockid : Z) (abstime : option timespec)
| OwnUnlock
| Refused (r : Z).

Definition rdlock_rwlock (l : HostRWLock) : rw_route :=
  if negb (prefer_writer_nonrecursive l) then ToHost HostRd else Own false false CLOCK_REALTIME None.
Definition wrlock_rwlock (l : HostRWLock) : rw_route :=
  if negb (prefer_writer_nonrecursive l) then ToHost HostWr else Own true false CLOCK_REALTIME None.
Definition tryrdlock_rwlock (l : HostRWLock) : rw_route :=
  if negb (prefer_writer_nonrecursive l) then ToHost HostTryRd else Own false true CLOCK_REALTIME None.
Definition trywrlock_rwlock (l : HostRWLock) : rw_route :=
  if negb (prefer_writer_nonrecursive l) then ToHost HostTryWr else Own true true CLOCK_REALTIME None.
Definition unlock_rwlock (l : HostRWLock) : rw_route :=
  if negb (prefer_writer_nonrecursive l) then ToHost HostUnlock else OwnUnlock.

Definition lock_rwlock_with_timeout (l : HostRWLock) (write_lock : bool) (abstime : option timespec) : rw_route :=
  if prefer_writer_nonrecursive l then Own write_lock false CLOCK_REALTIME abstime
  else match abstime with
       | None => if write_lock then wrlock_rwlock l else rdlock_rwlock l
       | Some t => ToHost (if write_lock then HostTimedWr t else HostTimedRd t)
       end.

Definition lock_rwlock_with_clock (l : HostRWLock) (write_lock : bool) (clockid : Z) (abstime : option timespec) : rw_route :=
  if prefer_writer_nonrecursive l then Own write_lock false clockid abstime
  else if negb ((clockid =? CLOCK_REALTIME) || (clockid =? CLOCK_MONOTONIC)) then Refused EINVAL_
  else match abstime with
       | None => if write_lock then wrlock_rwlock l else rdlock_rwlock l
       | Some t => ToHost (if write_lock then HostClockWr clockid t else HostClockRd clockid t)
       end.

(** * One lock and its threads *)

(** A thread inside a lock function: as reader or as writer, parked on
    [state_cv] or woken and about to test its condition again. *)
Record rw_waiter := { w_write : bool; w_parked : bool; w_deadline : option Z }.
Record rwsys := { rw_lock : HostRWLock; rw_waiters : gmap Z rw_waiter }.

(** What a caller sees: the function returned [r]. *)
Inductive rw_fun := RdLock | WrLock | Unlock.
Inductive rw_event := Returned (tid : Z) (f : rw_fun) (r : Z) | Internal.

Definition rw_begin (clocks : clock_reading) (l : HostRWLock) (tid : Z) (write try_only : bool) (clockid : Z)
    (abstime : option timespec) : rw_out :=
  if write then lock_writer_pref_writer clocks l tid try_only clockid abstime
  else lock_writer_pref_reader clocks l tid try_only clockid abstime.
Definition rw_resume (l : HostRWLock) (tid : Z) (w : rw_waiter) : rw_out :=
  if w_write w then writer_wait l tid (w_deadline w) else reader_wait l tid (w_deadline w).
Definition rw_expire (l : HostRWLock) (tid : Z) (w : rw_waiter) : rw_out :=
  if w_write w then writer_timeout l tid else reader_timeout l tid.

(** [state_cv.notify_all]. *)
Definition notify_all (n : bool) (ws : gmap Z rw_waiter) : gmap Z rw_waiter :=
  if n then (fun w => {| w_write := w_write w; w_parked := false; w_deadline := w_deadline w |}) <$> ws else ws.

(** The end of a stretch of thread [tid]. *)
Definition rw_finish (s : rwsys) (tid : Z) (write : bool) (o : rw_out) : rwsys * option Z :=
  match o with
  | Finished r l n => ({| rw_lock := l; rw_waiters := notify_all n (delete tid (rw_waiters s)) |}, Some r)
  | Waits l d n => ({| rw_lock := l; rw_waiters := <[tid := {| w_write := write; w_parked := true; w_deadline := d |}]>
                                                     (notify_all n (rw_waiters s)) |}, None)
  end.

Definition event_of (tid : Z) (f : rw_fun) (r : option Z) : rw_event :=
  match r with Some r => Returned tid f r | None => Internal end.
Definition lock_fun (write : bool) : rw_fun := if write then WrLock else RdLock.

(** The errors [clock_gettime] is documented to give. *)
Definition EFAULT_ : Z := 14.
Definition clocks_documented (clocks : clock_reading) : Prop := forall c e, clocks c = inr e -> e = EINVAL_ \/ e = EFAULT_.

Inductive rw_step : rwsys -> rw_event -> rwsys -> Prop :=
| StepLock s tid write try_only clockid abstime clocks s' r :
    rw_waiters s !! tid = None -> clocks_documented clocks ->
    rw_finish s tid write (rw_begin clocks (rw_lock s) tid write try_only clockid abstime) = (s', r) ->
    rw_step s (event_of tid (lock_fun write) r) s'
| StepUnlock s tid s' r :
    rw_waiters s !! tid = None ->
    rw_finish s tid false (unlock_writer_pref (rw_lock s) tid) = (s', r) ->
    rw_step s (event_of tid Unlock r) s'
| StepSpurious s tid w :
    rw_waiters s !! tid = Some w ->
    rw_step s Internal {| rw_lock := rw_lock s;
      rw_waiters := <[tid := {| w_write := w_write w; w_parked := false; w_deadline := w_deadline w |}]> (rw_waiters s) |}
| StepResume s tid w s' r :
    rw_waiters s !! tid = Some w -> w_parked w = false ->
    rw_finish s tid (w_write w) (rw_resume (rw_lock s) tid w) = (s', r) ->
    rw_step s (event_of tid (lock_fun (w_write w)) r) s'
| StepExpire s tid w s' r :
    rw_waiters s !! tid = Some w -> is_Some (w_deadline w) ->
    rw_finish s tid (w_write w) (rw_expire (rw_lock s) tid w) = (s', r) ->
    rw_step s (event_of tid (lock_fun (w_write w)) r) s'.

(** A run with the events it produces, oldest first. *)
Inductive rw_run : rwsys -> list rw_event -> rwsys -> Prop :=
| RunNil s : rw_run s [] s
| RunSnoc s tr s1 e s2 : rw_run s tr s1 -> rw_step s1 e s2 -> rw_run s (tr ++ [e]) s2.

Definition rw_init : rwsys :=
  {| rw_lock := new_rwlock GUEST_PTHREAD_RWLOCK_PREFER_WRITER_NONRECURSIVE_NP; rw_waiters := ∅ |}.
