(* ===== verification/RwLockSpec.v ===== *)
(** The writer-preferring read-write lock: whatever the interleaving of its
    threads, the results its callers see are those of an abstract read-write lock,
    no wake-up is lost, and a waiting writer keeps new readers out. *)

From S2P Require Import Prelude HostRwLock.

(** * The abstract lock *)

(** Who reads, how often, and who writes. *)
Record alock := { a_readers : gmap Z Z; a_writer : option Z }.

(** What a caller's result says about the lock, and does to it. *)
Inductive a_step : alock -> rw_event -> alock -> Prop :=
| AInternal a : a_step a Internal a
| ARead a t : a_writer a = None ->
    a_step a (Returned t RdLock 0) {| a_readers := <[t := default 0 (a_readers a !! t) + 1]> (a_readers a); a_writer := None |}
| AWrite a t : a_writer a = None -> a_readers a = ∅ -> a_step a (Returned t WrLock 0) {| a_readers := ∅; a_writer := Some t |}
| ADeadlock a t f : a_writer a = Some t \/ (f = WrLock /\ is_Some (a_readers a !! t)) -> f <> Unlock ->
    a_step a (Returned t f EDEADLK_) a
| ABusyWrite a t : is_Some (a_writer a) \/ a_readers a <> ∅ -> a_step a (Returned t WrLock EBUSY_) a
| ABusyRead a t : a_readers a !! t = None -> a_step a (Returned t RdLock EBUSY_) a
| AFail a t f r : f <> Unlock -> r <> 0 -> r <> EDEADLK_ -> r <> EBUSY_ -> a_step a (Returned t f r) a
| AUnlockWrite a t : a_writer a = Some t -> a_step a (Returned t Unlock 0) {| a_readers := a_readers a; a_writer := None |}
| AUnlockRead a t n : a_writer a <> Some t -> a_readers a !! t = Some n ->
    a_step a (Returned t Unlock 0)
      {| a_readers := if n =? 1 then delete t (a_readers a) else <[t := n - 1]> (a_readers a); a_writer := a_writer a |}
| AUnlockNone a t : a_writer a <> Some t -> a_readers a !! t = None -> a_step a (Returned t Unlock EINVAL_) a.

Inductive a_run : alock -> list rw_event -> alock -> Prop :=
| ARunNil a : a_run a [] a
| ARunSnoc a tr a1 e a2 : a_run a tr a1 -> a_step a1 e a2 -> a_run a (tr ++ [e]) a2.

Definition a_init : alock := {| a_readers := ∅; a_writer := None |}.
Definition abs (l : HostRWLock) : alock :=
  {| a_readers := reader_counts l; a_writer := if writer_active l then Some (writer_tid l) else None |}.

(** * The invariant *)

Definition sum_counts (m : gmap Z Z) : Z := map_fold (fun _ n acc => n + acc) 0 m.

Lemma sum_insert_fresh m k n : m !! k = None -> sum_counts (<[k := n]> m) = n + sum_counts m.
Proof. intros H. unfold sum_counts. apply map_fold_insert_L; [intros; lia|done]. Qed.
Lemma sum_delete m k n : m !! k = Some n -> sum_counts m = n + sum_counts (delete k m).
Proof. intros H. rewrite <- (insert_delete_id m k n H) at 1. apply sum_insert_fresh, lookup_delete_eq. Qed.
Lemma sum_update m k n n' : m !! k = Some n -> sum_counts (<[k := n']> m) = sum_counts m + n' - n.
Proof.
  intros H. rewrite (sum_delete m k n H), (sum_delete (<[k := n']> m) k n') by apply lookup_insert_eq. rewrite delete_insert_eq. lia.
Qed.
Lemma sum_empty : sum_counts ∅ = 0. Proof. done. Qed.

Definition all_positive (m : gmap Z Z) : Prop := map_Forall (fun _ n => 0 < n) m.

Lemma sum_nonneg m : all_positive m -> 0 <= sum_counts m.
Proof.
  unfold all_positive. induction m as [|k n m Hk IH] using map_ind; [done|]. intros [Hn Hm]%map_Forall_insert; [|done].
  rewrite sum_insert_fresh by done. specialize (IH Hm). lia.
Qed.
(** Only the empty map of positive counts sums to 0. *)
Lemma sum_zero m : all_positive m -> sum_counts m = 0 -> m = ∅.
Proof.
  intros Hp Hs. apply map_empty. intros k. destruct (m !! k) as [n|] eqn:Hk; [|done]. exfalso.
  rewrite (sum_delete m k n Hk) in Hs. pose proof (sum_nonneg (delete k m) (map_Forall_delete _ _ _ Hp)).
  pose proof (Hp k n Hk). cbn in *. lia.
Qed.

Definition is_writer (w : rw_waiter) : Prop := w_write w = true.
#[export] Instance is_writer_dec w : Decision (is_writer w) := decide (w_write w = true).
Definition writers (ws : gmap Z rw_waiter) : gmap Z rw_waiter := filter (fun kw => is_writer kw.2) ws.
Definition n_writers (ws : gmap Z rw_waiter) : Z := Z.of_nat (size (writers ws)).

(** The condition a waiter waits for. *)
Definition may_enter (l : HostRWLock) (t : Z) (w : rw_waiter) : bool :=
  if w_write w then writer_can_acquire l else can_acquire_writer_pref_reader_locked l t.

Record rw_ok (s : rwsys) : Prop := {
  ok_positive : all_positive (reader_counts (rw_lock s));
  ok_active : active_readers (rw_lock s) = sum_counts (reader_counts (rw_lock s));
  ok_exclusive : writer_active (rw_lock s) = true -> reader_counts (rw_lock s) = ∅;
  ok_waiting : waiting_writers (rw_lock s) = n_writers (rw_waiters s);
  ok_waiter t w : rw_waiters s !! t = Some w ->
    reader_counts (rw_lock s) !! t = None /\ (writer_active (rw_lock s) = true -> writer_tid (rw_lock s) <> t) /\
    (w_parked w = true -> may_enter (rw_lock s) t w = false);
}.

Lemma writers_insert ws t w : n_writers (<[t := w]> ws) = n_writers (delete t ws) + (if w_write w then 1 else 0).
Proof.
  unfold n_writers, writers. destruct (w_write w) eqn:Hw.
  - rewrite map_filter_insert_True by exact Hw. rewrite map_filter_delete.
    rewrite <- insert_delete_eq, map_size_insert_None by apply lookup_delete_eq. lia.
  - rewrite map_filter_insert_False by (unfold is_writer; cbn; by rewrite Hw). lia.
Qed.
Lemma writers_delete ws t : n_writers (delete t ws) = n_writers ws - (match ws !! t with Some w => if w_write w then 1 else 0 | None => 0 end).
Proof.
  destruct (ws !! t) as [w|] eqn:Hw.
  - rewrite <- (insert_delete_id ws t w Hw) at 2. rewrite writers_insert, delete_delete_eq. lia.
  - rewrite delete_id by done. lia.
Qed.
Lemma writers_notify n ws : n_writers (notify_all n ws) = n_writers ws.
Proof.
  unfold n_writers, writers, notify_all. destruct n; [|done]. rewrite map_filter_fmap, map_size_fmap. do 2 f_equal.
Qed.
Lemma writers_nonneg ws : 0 <= n_writers ws. Proof. unfold n_writers. lia. Qed.
Lemma writers_pos ws t w : ws !! t = Some w -> w_write w = true -> 0 < n_writers ws.
Proof. intros Ht Hw. pose proof (writers_delete ws t) as H. rewrite Ht, Hw in H. pose proof (writers_nonneg (delete t ws)). lia. Qed.

Lemma notify_lookup n ws t w : notify_all n ws !! t = Some w ->
  exists w', ws !! t = Some w' /\ w_write w' = w_write w /\ w_deadline w' = w_deadline w /\
    (w_parked w = true -> n = false /\ w_parked w' = true).
Proof.
  unfold notify_all. destruct n; [|by exists w]. rewrite lookup_fmap. destruct (ws !! t) as [w'|]; [|done].
  intros [= <-]. by exists w'.
Qed.

(** * Stretches keep it *)

(** The part of the invariant that is about the lock alone. *)
Definition counts_ok (l : HostRWLock) : Prop :=
  all_positive (reader_counts l) /\ active_readers l = sum_counts (reader_counts l) /\
  (writer_active l = true -> reader_counts l = ∅).

(** Whoever may not enter [l] may not enter [l'] either. *)
Definition keeps_out (l l' : HostRWLock) (t : Z) : Prop :=
  forall u w, u <> t -> reader_counts l !! u = None -> may_enter l u w = false -> may_enter l' u w = false.

(** The writer of [l'], if any, is [t] or was the writer of [l]. *)
Definition writer_from (l l' : HostRWLock) (t : Z) : Prop :=
  writer_active l' = true -> writer_tid l' = t \/ (writer_active l = true /\ writer_tid l' = writer_tid l).

Lemma finished_ok s t write r l n : rw_ok s -> counts_ok l -> waiting_writers l = n_writers (delete t (rw_waiters s)) ->
  (forall u, u <> t -> reader_counts l !! u = reader_counts (rw_lock s) !! u) -> writer_from (rw_lock s) l t ->
  (n = true \/ keeps_out (rw_lock s) l t) -> rw_ok (rw_finish s t write (Finished r l n)).1.
Proof.
  intros [_ _ _ _ Hw] (H1 & H2 & H3) Hwait Hr Hwr Hk. constructor; cbn; [done..| |].
  - by rewrite writers_notify.
  - intros u w Hu. apply notify_lookup in Hu as (w' & Hu & Ew & Ed & Hp). apply lookup_delete_Some in Hu as [Hne Hu].
    destruct (Hw u w' Hu) as (A & B & C). split_and!.
    + by rewrite Hr.
    + intros Ha. destruct (Hwr Ha) as [->|[Ha' ->]]; auto.
    + intros Hpk. destruct (Hp Hpk) as [-> Hpk']. destruct Hk as [|Hk]; [done|].
      assert (He : may_enter l u w = may_enter l u w') by (unfold may_enter; by rewrite Ew). rewrite He. apply Hk; auto.
Qed.

Lemma waits_ok s t (write : bool) l d : rw_ok s -> counts_ok l ->
  waiting_writers l = n_writers (delete t (rw_waiters s)) + (if write then 1 else 0) ->
  reader_counts l = reader_counts (rw_lock s) -> reader_counts l !! t = None ->
  writer_active l = writer_active (rw_lock s) -> writer_tid l = writer_tid (rw_lock s) ->
  (writer_active l = true -> writer_tid l <> t) -> keeps_out (rw_lock s) l t ->
  may_enter l t {| w_write := write; w_parked := true; w_deadline := d |} = false ->
  rw_ok (rw_finish s t write (Waits l d false)).1.
Proof.
  intros [_ _ _ _ Hw] (H1 & H2 & H3) Hwait Hr Ht Ha Hwt Hne Hk Hme. constructor; cbn; [done..| |].
  - by rewrite writers_insert.
  - intros u w [[<- <-]|[Hne' Hu]]%lookup_insert_Some; [by split_and!|]. destruct (Hw u w Hu) as (A & B & C).
    split_and!; [by rewrite Hr|by rewrite Ha, Hwt|]. intros Hp. apply (Hk u w); [congruence|done|by apply C].
Qed.

(** A stretch of [t] that ends in [o] keeps the invariant, and what its caller
    sees is a step of the abstract lock. *)
Definition good (s : rwsys) (t : Z) (f : rw_fun) (write : bool) (o : rw_out) : Prop :=
  rw_ok (rw_finish s t write o).1 /\
  a_step (abs (rw_lock s)) (event_of t f (rw_finish s t write o).2) (abs (rw_lock (rw_finish s t write o).1)).

(** [t] is not counted among the waiting writers. *)
Definition uncounted (s : rwsys) (t : Z) : Prop := n_writers (delete t (rw_waiters s)) = waiting_writers (rw_lock s).
(** [t] is one of them. *)
Definition counted (s : rwsys) (t : Z) : Prop := n_writers (delete t (rw_waiters s)) = waiting_writers (rw_lock s) - 1.

Lemma outside_uncounted s t : rw_ok s -> rw_waiters s !! t = None -> uncounted s t.
Proof. intros Hok Ht. unfold uncounted. rewrite delete_id by done. by rewrite (ok_waiting _ Hok). Qed.
Lemma waiter_counted s t w : rw_ok s -> rw_waiters s !! t = Some w -> if w_write w then counted s t else uncounted s t.
Proof.
  intros Hok Ht. unfold counted, uncounted. rewrite (ok_waiting _ Hok), writers_delete, Ht. destruct (w_write w); lia.
Qed.

Lemma counts_of s : rw_ok s -> counts_ok (rw_lock s).
Proof. by intros [? ? ? _ _]. Qed.
#[local] Hint Resolve counts_of : core.
Lemma no_readers s : rw_ok s -> active_readers (rw_lock s) = 0 -> reader_counts (rw_lock s) = ∅.
Proof. intros [H1 H2 _ _ _] H0. apply sum_zero; [done|lia]. Qed.

Lemma good_same s t f write r : rw_ok s -> uncounted s t -> a_step (abs (rw_lock s)) (Returned t f r) (abs (rw_lock s)) ->
  good s t f write (Finished r (rw_lock s) false).
Proof.
  intros Hok Hu Ha. split; [|exact Ha]. apply finished_ok; auto.
  - intros Hw. by right.
  - right. by intros u w.
Qed.

Lemma acquire_counts l t : counts_ok l -> writer_active l = false -> counts_ok (acquire_writer_pref_reader_locked l t).
Proof.
  intros (H1 & H2 & H3) Hw. unfold counts_ok, acquire_writer_pref_reader_locked. cbn. split_and!; [|rewrite H2|by rewrite Hw].
  - apply map_Forall_insert_2; [|done]. destruct (reader_counts l !! t) as [n|] eqn:E; cbn; [|lia]. specialize (H1 t n E). cbn in H1. lia.
  - destruct (reader_counts l !! t) as [n|] eqn:E; cbn; [rewrite (sum_update _ _ n) by done|rewrite sum_insert_fresh by done]; lia.
Qed.

(** A reader gets in. *)
Lemma good_read s t write : rw_ok s -> uncounted s t -> writer_active (rw_lock s) = false ->
  good s t RdLock write (Finished 0 (acquire_writer_pref_reader_locked (rw_lock s) t) false).
Proof.
  intros Hok Hu Hw. split.
  - apply finished_ok; auto.
    + by apply acquire_counts; [apply counts_of|].
    + intros u Hne. cbn. by rewrite lookup_insert_ne.
    + intros Ha. cbn in Ha. congruence.
    + right. intros u w Hne Hr. unfold may_enter. destruct (w_write w); cbn.
      * intros _. unfold writer_can_acquire. cbn. rewrite Hw. cbn. pose proof (sum_nonneg _ (ok_positive _ Hok)).
        rewrite (ok_active _ Hok). apply Z.eqb_neq. lia.
      * unfold can_acquire_writer_pref_reader_locked. cbn. rewrite Hw, Hr, lookup_insert_ne, Hr by done. done.
  - cbn. unfold abs. cbn. rewrite Hw. by apply ARead.
Qed.

(** A writer gets in, no longer counted as waiting. *)
Lemma set_writer_counts l t : counts_ok l -> reader_counts l = ∅ -> counts_ok (set_writer l t).
Proof. intros (H1 & H2 & H3) Hr. by split_and!. Qed.

Lemma good_write s t write l n : rw_ok s -> reader_counts l = reader_counts (rw_lock s) ->
  active_readers l = active_readers (rw_lock s) -> waiting_writers l = n_writers (delete t (rw_waiters s)) ->
  writer_can_acquire (rw_lock s) = true ->
  good s t WrLock write (Finished 0 (set_writer l t) n).
Proof.
  intros Hok Hr Ha Hn Hc. unfold writer_can_acquire in Hc. apply andb_prop in Hc as [Hw%negb_true_iff H0%Z.eqb_eq].
  pose proof (no_readers _ Hok H0) as Hnone. destruct (counts_of _ Hok) as (H1 & H2 & H3). split.
  - apply finished_ok; auto.
    + split_and!; cbn; [by rewrite Hr|by rewrite Ha, Hr|by rewrite Hr].
    + intros u _. cbn. by rewrite Hr.
    + intros _. by left.
    + right. intros u w _ _ _. unfold may_enter, writer_can_acquire, can_acquire_writer_pref_reader_locked. cbn. by destruct (w_write w).
  - cbn. unfold abs. cbn. rewrite Hw, Hr, Hnone. by apply AWrite.
Qed.

(** A writer gives up. *)
Lemma good_giveup s t write r l : rw_ok s -> reader_counts l = reader_counts (rw_lock s) ->
  active_readers l = active_readers (rw_lock s) -> writer_active l = writer_active (rw_lock s) ->
  writer_tid l = writer_tid (rw_lock s) -> waiting_writers l = n_writers (delete t (rw_waiters s)) ->
  r <> 0 -> r <> EDEADLK_ -> r <> EBUSY_ -> good s t WrLock write (Finished r l true).
Proof.
  intros Hok Hr Ha Hw Ht Hn R1 R2 R3. destruct (counts_of _ Hok) as (H1 & H2 & H3). split.
  - apply finished_ok; auto.
    + unfold counts_ok. rewrite Hr, Ha, Hw. done.
    + intros u _. by rewrite Hr.
    + intros Hwa. right. by rewrite <- Hw.
  - cbn. replace (abs l) with (abs (rw_lock s)) by (unfold abs; by rewrite Hr, Hw, Ht). by apply AFail.
Qed.

(** A thread parks. *)
Lemma good_park s t f (write : bool) l d : rw_ok s -> reader_counts l = reader_counts (rw_lock s) ->
  active_readers l = active_readers (rw_lock s) -> writer_active l = writer_active (rw_lock s) ->
  writer_tid l = writer_tid (rw_lock s) -> waiting_writers (rw_lock s) <= waiting_writers l ->
  waiting_writers l = n_writers (delete t (rw_waiters s)) + (if write then 1 else 0) ->
  reader_counts (rw_lock s) !! t = None -> (writer_active (rw_lock s) = true -> writer_tid (rw_lock s) <> t) ->
  may_enter l t {| w_write := write; w_parked := true; w_deadline := d |} = false ->
  good s t f write (Waits l d false).
Proof.
  intros Hok Hr Ha Hw Ht Hle Hn Hnone Hne Hme. destruct (counts_of _ Hok) as (H1 & H2 & H3). split.
  - apply waits_ok; auto.
    + unfold counts_ok. rewrite Hr, Ha, Hw. done.
    + by rewrite Hr.
    + by rewrite Hw, Ht.
    + intros u w _ Hu. unfold may_enter, writer_can_acquire, can_acquire_writer_pref_reader_locked. rewrite Hr, Ha, Hw, Hu.
      destruct (w_write w); [done|]. destruct (writer_active (rw_lock s)); [by intros|]. intros Hb%negb_false_iff%Z.ltb_lt.
      apply negb_false_iff, Z.ltb_lt. lia.
  - cbn. replace (abs l) with (abs (rw_lock s)) by (unfold abs; by rewrite Hr, Hw, Ht). constructor.
Qed.

(** * Every step *)

Lemma can_read_free l t : can_acquire_writer_pref_reader_locked l t = true -> writer_active l = false.
Proof. unfold can_acquire_writer_pref_reader_locked. by destruct (writer_active l). Qed.

Lemma reader_wait_good s t d : rw_ok s -> uncounted s t -> reader_counts (rw_lock s) !! t = None ->
  (writer_active (rw_lock s) = true -> writer_tid (rw_lock s) <> t) -> good s t RdLock false (reader_wait (rw_lock s) t d).
Proof.
  intros Hok Hu Hr Hne. unfold reader_wait. destruct (can_acquire_writer_pref_reader_locked _ t) eqn:Hc.
  - apply good_read; auto. by eapply can_read_free.
  - apply good_park; auto; [lia|rewrite Hu; lia].
Qed.

Lemma writer_wait_good s t d l : rw_ok s -> waiting_writers l = n_writers (delete t (rw_waiters s)) + 1 ->
  waiting_writers (rw_lock s) <= waiting_writers l -> reader_counts l = reader_counts (rw_lock s) ->
  active_readers l = active_readers (rw_lock s) -> writer_active l = writer_active (rw_lock s) ->
  writer_tid l = writer_tid (rw_lock s) -> reader_counts (rw_lock s) !! t = None ->
  (writer_active (rw_lock s) = true -> writer_tid (rw_lock s) <> t) -> good s t WrLock true (writer_wait l t d).
Proof.
  intros Hok Hn Hle Hr Ha Hw Ht Hnone Hne. unfold writer_wait. destruct (writer_can_acquire l) eqn:Hc.
  - apply good_write; auto; [cbn; lia|]. revert Hc. unfold writer_can_acquire. by rewrite Ha, Hw.
  - by apply good_park.
Qed.

(** The errors of a deadline. *)
Lemma deadline_errors clocks abstime clockid e : clocks_documented clocks -> prepare_rwlock_deadline clocks abstime clockid = inr e ->
  e <> 0 /\ e <> EDEADLK_ /\ e <> EBUSY_.
Proof.
  intros Hd. unfold prepare_rwlock_deadline, get_clock_now_ns. destruct abstime as [ts|]; [|done].
  destruct (negb _); [by intros [= <-]|]. destruct (timespec_to_ns ts); [|by intros [= <-]].
  destruct (clocks clockid) as [now|errno] eqn:Hc.
  - destruct (timespec_to_ns now); [|by intros [= <-]]. destruct (_ <=? _); [by intros [= <-]|done].
  - intros [= <-]. by destruct (Hd _ _ Hc) as [-> | ->].
Qed.

Lemma is_this_writer (l : HostRWLock) t : writer_active l && (writer_tid l =? t) = false -> writer_active l = true -> writer_tid l <> t.
Proof. intros H Ha. rewrite Ha in H. cbn in H. by apply Z.eqb_neq. Qed.

Lemma reader_begin_good s t clocks try_only clockid abstime : rw_ok s -> rw_waiters s !! t = None -> clocks_documented clocks ->
  good s t RdLock false (lock_writer_pref_reader clocks (rw_lock s) t try_only clockid abstime).
Proof.
  intros Hok Ht Hd. pose proof (outside_uncounted s t Hok Ht) as Hu. unfold lock_writer_pref_reader.
  destruct (_ && _) eqn:Hw.
  { apply andb_prop in Hw as [Ha Hb%Z.eqb_eq]. apply good_same; auto. apply ADeadlock; [left|done]. cbn. by rewrite Ha, Hb. }
  destruct (reader_counts (rw_lock s) !! t) as [n|] eqn:Hr.
  { apply good_read; auto. apply not_true_is_false. intros Ha. by rewrite (ok_exclusive _ Hok Ha) in Hr. }
  destruct try_only.
  - destruct (can_acquire_writer_pref_reader_locked _ t) eqn:Hc.
    + apply good_read; auto. by eapply can_read_free.
    + apply good_same; auto. by apply ABusyRead.
  - destruct (prepare_rwlock_deadline _ _ _) as [d|e] eqn:Hp.
    + apply reader_wait_good; auto. by apply is_this_writer.
    + destruct (deadline_errors _ _ _ _ Hd Hp) as (? & ? & ?). apply good_same; auto. by apply AFail.
Qed.

Lemma writer_begin_good s t clocks try_only clockid abstime : rw_ok s -> rw_waiters s !! t = None -> clocks_documented clocks ->
  good s t WrLock true (lock_writer_pref_writer clocks (rw_lock s) t try_only clockid abstime).
Proof.
  intros Hok Ht Hd. pose proof (outside_uncounted s t Hok Ht) as Hu. unfold lock_writer_pref_writer.
  destruct (_ && _) eqn:Hw.
  { apply andb_prop in Hw as [Ha Hb%Z.eqb_eq]. apply good_same; auto. apply ADeadlock; [left|done]. cbn. by rewrite Ha, Hb. }
  destruct (reader_counts (rw_lock s) !! t) as [n|] eqn:Hr.
  { apply good_same; auto. apply ADeadlock; [right|done]. cbn. by rewrite Hr. }
  destruct try_only.
  - destruct (writer_can_acquire (rw_lock s)) eqn:Hc.
    + by apply good_write.
    + apply good_same; auto. apply ABusyWrite. cbn. unfold writer_can_acquire in Hc. destruct (writer_active (rw_lock s)); [by left|].
      right. intros He. cbn in Hc. apply Z.eqb_neq in Hc. rewrite (ok_active _ Hok), He in Hc. by apply Hc.
  - set (l1 := (rw_lock s) <| waiting_writers := _ |>). destruct (prepare_rwlock_deadline _ _ _) as [d|e] eqn:Hp.
    + apply writer_wait_good; auto; [by unfold uncounted in Hu; rewrite Hu|cbn; lia|by apply is_this_writer].
    + destruct (deadline_errors _ _ _ _ Hd Hp) as (? & ? & ?). apply good_giveup; auto. unfold uncounted in Hu. cbn. lia.
Qed.

Lemma resume_good s t w : rw_ok s -> rw_waiters s !! t = Some w -> good s t (lock_fun (w_write w)) (w_write w) (rw_resume (rw_lock s) t w).
Proof.
  intros Hok Ht. destruct (ok_waiter _ Hok t w Ht) as (Hr & Hne & _). pose proof (waiter_counted s t w Hok Ht) as Hc.
  unfold rw_resume. destruct (w_write w); cbn [lock_fun].
  - apply writer_wait_good; auto; [unfold counted in Hc; lia|lia].
  - by apply reader_wait_good.
Qed.

Lemma expire_good s t w : rw_ok s -> rw_waiters s !! t = Some w -> good s t (lock_fun (w_write w)) (w_write w) (rw_expire (rw_lock s) t w).
Proof.
  intros Hok Ht. pose proof (waiter_counted s t w Hok Ht) as Hc. unfold rw_expire. destruct (w_write w); cbn [lock_fun].
  - unfold writer_timeout. destruct (writer_can_acquire (rw_lock s)) eqn:Hca.
    + by apply good_write.
    + by apply good_giveup.
  - unfold reader_timeout. destruct (can_acquire_writer_pref_reader_locked _ t) eqn:Hca.
    + apply good_read; auto. by eapply can_read_free.
    + apply good_same; auto. by apply AFail.
Qed.

(** A return without a change of the number of waiters that unlocks. *)
Lemma unlock_good s t : rw_ok s -> rw_waiters s !! t = None -> good s t Unlock false (unlock_writer_pref (rw_lock s) t).
Proof.
  intros Hok Ht. pose proof (outside_uncounted s t Hok Ht) as Hu. destruct (counts_of _ Hok) as (H1 & H2 & H3).
  unfold unlock_writer_pref. destruct (_ && _) eqn:Hw.
  { apply andb_prop in Hw as [Ha Hb%Z.eqb_eq]. split.
    - apply finished_ok; auto; [|done]. by split_and!.
    - unfold abs. cbn. rewrite Ha, Hb. apply (AUnlockWrite {| a_readers := _; a_writer := Some t |}). done. }
  assert (Hnw : a_writer (abs (rw_lock s)) <> Some t).
  { cbn. pose proof (is_this_writer _ _ Hw) as Hi. destruct (writer_active (rw_lock s)); [|done]. intros [= He]. by apply Hi. }
  destruct (reader_counts (rw_lock s) !! t) as [n|] eqn:Hr; [|by apply good_same; auto; apply AUnlockNone].
  pose proof (H1 t n Hr) as Hn. cbn in Hn. rewrite (proj2 (Z.leb_gt n 0)) by lia.
  assert (Hwa : writer_active (rw_lock s) = false) by (apply not_true_is_false; intros Ha; by rewrite (H3 Ha) in Hr).
  set (l2 := if n - 1 =? 0 then _ else _).
  assert (Hl2 : reader_counts l2 = (if n =? 1 then delete t (reader_counts (rw_lock s)) else <[t := n - 1]> (reader_counts (rw_lock s))) /\
    active_readers l2 = active_readers (rw_lock s) - 1 /\ writer_active l2 = false /\ waiting_writers l2 = waiting_writers (rw_lock s)).
  { unfold l2. destruct (Z.eqb_spec (n - 1) 0), (Z.eqb_spec n 1); try lia; cbn; rewrite ?delete_insert_eq; done. }
  destruct Hl2 as (E1 & E2 & E3 & E4). split.
  - apply finished_ok; [done| |cbn; by rewrite E4| | |].
    + unfold counts_ok. rewrite E1, E2, E3, H2. split_and!; [| |done].
      * destruct (Z.eqb_spec n 1); [by apply map_Forall_delete|]. apply map_Forall_insert_2; [cbn; lia|done].
      * destruct (Z.eqb_spec n 1) as [->|Hn1]; [rewrite (sum_delete (reader_counts (rw_lock s)) t 1) by done; lia|]. rewrite (sum_update _ _ n) by done. lia.
    + intros u Hne. rewrite E1. destruct (n =? 1); [by rewrite lookup_delete_ne|by rewrite lookup_insert_ne].
    + intros Ha. congruence.
    + destruct (Z.eqb_spec (active_readers l2) 0) as [|Hz]; [by left|right]. intros u w Hne Hrn. unfold may_enter.
      destruct (w_write w); unfold writer_can_acquire, can_acquire_writer_pref_reader_locked.
      * intros _. rewrite (proj2 (Z.eqb_neq _ 0) Hz). apply andb_false_r.
      * rewrite E3, E4, E1, Hwa, Hrn. destruct (n =? 1); [by rewrite lookup_delete_ne, Hrn|by rewrite lookup_insert_ne, Hrn].
  - cbn. unfold abs at 2. rewrite E1, E3. replace None with (a_writer (abs (rw_lock s))) by (cbn; by rewrite Hwa).
    by apply (AUnlockRead (abs (rw_lock s))).
Qed.

Lemma step_good s e s' : rw_step s e s' -> rw_ok s -> rw_ok s' /\ a_step (abs (rw_lock s)) e (abs (rw_lock s')).
Proof.
  intros Hs Hok. destruct Hs as [s t write try_only clockid abstime clocks s' r Ht Hd Hf|s t s' r Ht Hf|s t w Ht|s t w s' r Ht Hp Hf|s t w s' r Ht Hd Hf].
  - assert (G : good s t (lock_fun write) write (rw_begin clocks (rw_lock s) t write try_only clockid abstime))
      by (destruct write; [by apply writer_begin_good|by apply reader_begin_good]). unfold good in G. by rewrite Hf in G.
  - pose proof (unlock_good s t Hok Ht) as G. unfold good in G. by rewrite Hf in G.
  - split; [|constructor]. destruct Hok as [H1 H2 H3 H4 H5]. constructor; cbn; [done..| |].
    + rewrite H4, writers_insert, writers_delete, Ht. cbn. destruct (w_write w); lia.
    + intros u w' [[<- <-]|[Hne Hu]]%lookup_insert_Some; [|by apply H5]. destruct (H5 t w Ht) as (A & B & _). by split_and!.
  - pose proof (resume_good s t w Hok Ht) as G. unfold good in G. by rewrite Hf in G.
  - pose proof (expire_good s t w Hok Ht) as G. unfold good in G. by rewrite Hf in G.
Qed.

Lemma init_ok : rw_ok rw_init.
Proof. constructor; cbn; try done. Qed.

Lemma run_good tr s : rw_run rw_init tr s -> rw_ok s /\ a_run a_init tr (abs (rw_lock s)).
Proof.
  intros Hr. remember rw_init as s0 eqn:E0. induction Hr as [s|s tr s1 e s2 Hr IH Hs]; subst; [split; [apply init_ok|constructor]|].
  destruct (IH eq_refl) as [Hok Ha]. destruct (step_good _ _ _ Hs Hok) as [Hok' Ha']. split; [done|]. by econstructor.
Qed.

(** * The claims *)

(** C6: The writer-preferring read-write lock is a read-write lock. Whatever the
    interleaving of its threads, their waits, spurious wake-ups and expired
    deadlines, the results the callers see form a run of the abstract lock: readers
    get in only while nobody writes, a writer only while nobody reads or writes,
    each unlock takes back one of the caller's own locks, and every refusal is
    justified.  A writer excludes all readers. *)
Theorem rwlock_refines tr s : rw_run rw_init tr s ->
  a_run a_init tr (abs (rw_lock s)) /\
  (forall t, a_writer (abs (rw_lock s)) = Some t -> a_readers (abs (rw_lock s)) = ∅) /\
  (forall t n, a_readers (abs (rw_lock s)) !! t = Some n -> 0 < n).
Proof.
  intros Hr. destruct (run_good tr s Hr) as [Hok Ha]. split_and!; [done| |].
  - intros t Ht. cbn in *. destruct (writer_active (rw_lock s)) eqn:E; [|done]. by apply (ok_exclusive _ Hok).
  - intros t n Ht. by apply (ok_positive _ Hok t n).
Qed.

(** A waiter whose condition holds is not asleep, and its next step takes the lock. *)
Lemma awake_enters s t w : rw_ok s -> rw_waiters s !! t = Some w -> may_enter (rw_lock s) t w = true ->
  w_parked w = false /\ exists s', rw_step s (Returned t (lock_fun (w_write w)) 0) s'.
Proof.
  intros Hok Ht Hm. destruct (ok_waiter _ Hok t w Ht) as (_ & _ & Hp).
  assert (Hpk : w_parked w = false) by (destruct (w_parked w); [specialize (Hp eq_refl); congruence|done]). split; [done|].
  exists (rw_finish s t (w_write w) (rw_resume (rw_lock s) t w)).1. apply (StepResume s t w _ (Some 0) Ht Hpk).
  revert Hm. unfold may_enter, rw_resume, reader_wait, writer_wait. by destruct (w_write w); intros ->.
Qed.

(** A thread that may not read does not get a read lock. *)
Lemma reader_stays_out s t s' : rw_step s (Returned t RdLock 0) s' -> reader_counts (rw_lock s) !! t = None ->
  can_acquire_writer_pref_reader_locked (rw_lock s) t = false -> False.
Proof.
  intros Hs Hnone Hc. remember (Returned t RdLock 0) as e eqn:Ee.
  destruct Hs as [s u write try_only clockid abstime clocks s' r Ht Hd Hf|s u s' r Ht Hf|s u w Ht|s u w s' r Ht Hp Hf|s u w s' r Ht Hd Hf];
    try discriminate Ee; destruct r as [r|]; try discriminate Ee; injection Ee as -> Ef ->; try discriminate Ef.
  - destruct write; [done|]. revert Hf. unfold rw_begin, lock_writer_pref_reader, reader_wait. rewrite Hnone, Hc.
    destruct (_ && _); [done|]. destruct try_only; [done|]. destruct (prepare_rwlock_deadline _ _ _) as [d|e] eqn:Hp; [done|].
    intros [= _ He]. destruct (deadline_errors _ _ _ _ Hd Hp) as [Hz _]. by apply Hz.
  - destruct (w_write w) eqn:Hw; [done|]. revert Hf. unfold rw_resume, reader_wait. by rewrite Hw, Hc.
  - destruct (w_write w) eqn:Hw; [done|]. revert Hf. unfold rw_expire, reader_timeout. by rewrite Hw, Hc.
Qed.

(** C28: No wake-up is lost, and writers come first. In every reachable state a
    thread asleep on the lock has a reason to wait; when nobody holds the lock and
    somebody waits, a waiting thread is awake and takes the lock by its next step;
    and a thread that did not read already gets a read lock only when no writer is
    waiting. *)
Theorem rwlock_no_lost_wakeup tr s : rw_run rw_init tr s ->
  (forall t w, rw_waiters s !! t = Some w -> may_enter (rw_lock s) t w = true -> w_parked w = false) /\
  (abs (rw_lock s) = a_init -> rw_waiters s <> ∅ ->
     exists t w s', rw_waiters s !! t = Some w /\ w_parked w = false /\ rw_step s (Returned t (lock_fun (w_write w)) 0) s') /\
  (forall t s', rw_step s (Returned t RdLock 0) s' -> reader_counts (rw_lock s) !! t = None ->
     forall u w, rw_waiters s !! u = Some w -> w_write w = false).
Proof.
  intros Hr. destruct (run_good tr s Hr) as [Hok _]. split_and!.
  - intros t w Ht Hm. by apply (awake_enters s t w Hok Ht).
  - intros Habs Hne. unfold abs in Habs. injection Habs as Hrd Hwa. destruct (writer_active (rw_lock s)) eqn:Ha; [done|].
    assert (Hact : active_readers (rw_lock s) = 0) by (rewrite (ok_active _ Hok), Hrd; done).
    destruct (decide (writers (rw_waiters s) = ∅)) as [Hnw|Hw].
    + apply map_choose in Hne as (t & w & Ht). exists t, w.
      destruct (awake_enters s t w Hok Ht) as (? & s' & ?); [|by exists s'].
      unfold may_enter, can_acquire_writer_pref_reader_locked, writer_can_acquire. rewrite Ha, Hact, Hrd, lookup_empty.
      destruct (w_write w); [done|]. rewrite (ok_waiting _ Hok). unfold n_writers. by rewrite Hnw.
    + apply map_choose in Hw as (t & w & Ht). apply map_lookup_filter_Some in Ht as [Ht Hw]. unfold is_writer in Hw. cbn in Hw. exists t, w.
      destruct (awake_enters s t w Hok Ht) as (? & s' & ?); [|by exists s'].
      unfold may_enter, writer_can_acquire. by rewrite Hw, Ha, Hact.
  - intros t s' Hs Hnone u w Hu. apply not_true_is_false. intros Hw. pose proof (writers_pos _ u w Hu Hw) as Hpos.
    assert (Hcan : can_acquire_writer_pref_reader_locked (rw_lock s) t = false).
    { unfold can_acquire_writer_pref_reader_locked. rewrite Hnone. destruct (writer_active _); [done|].
      rewrite (ok_waiting _ Hok), (proj2 (Z.ltb_lt _ _)) by lia. done. }
    exact (reader_stays_out s t s' Hs Hnone Hcan).
Qed.

(** A timed lock looks at its deadline first. With a deadline in the past both
    functions fail with ETIMEDOUT on a lock that nobody holds or waits for, where
    POSIX asks that a lock which is available be taken whatever the deadline. *)
Theorem expired_deadline_refused clocks clockid ts now l t :
  clockid = CLOCK_REALTIME \/ clockid = CLOCK_MONOTONIC -> clocks clockid = inl now ->
  0 <= tv_nsec ts < 1000000000 -> 0 <= tv_nsec now < 1000000000 -> tv_sec ts < tv_sec now ->
  INT64_MIN <= tv_sec ts * 1000000000 -> tv_sec now * 1000000000 + 1000000000 <= INT64_MAX ->
  abs l = a_init ->
  lock_writer_pref_reader clocks l t false clockid (Some ts) = Finished ETIMEDOUT_ l false /\
  exists l', lock_writer_pref_writer clocks l t false clockid (Some ts) = Finished ETIMEDOUT_ l' true /\ abs l' = a_init.
Proof.
  intros Hc Hnow H1 H2 Hlt Hmin Hmax Habs. unfold abs in Habs. injection Habs as Hr Hw. destruct (writer_active l) eqn:Ha; [done|].
  assert (Hns : forall x, 0 <= tv_nsec x < 1000000000 -> INT64_MIN <= tv_sec x * 1000000000 + tv_nsec x <= INT64_MAX ->
    timespec_to_ns x = Some (tv_sec x * 1000000000 + tv_nsec x)).
  { intros x Hx Hb. unfold timespec_to_ns. rewrite (proj2 (Z.ltb_ge _ _)), (proj2 (Z.leb_gt _ _)) by lia. cbn [orb].
    by rewrite (proj2 (Z.ltb_ge INT64_MAX _)), (proj2 (Z.ltb_ge _ INT64_MIN)) by lia. }
  assert (Hp : prepare_rwlock_deadline clocks (Some ts) clockid = inr ETIMEDOUT_).
  { unfold prepare_rwlock_deadline, get_clock_now_ns. rewrite Hnow, !Hns by (unfold INT64_MIN, INT64_MAX in *; lia).
    rewrite (proj2 (Z.leb_le _ _)) by lia. by destruct Hc as [-> | ->]. }
  unfold lock_writer_pref_reader, lock_writer_pref_writer. rewrite Ha, Hr, lookup_empty, Hp. split; [done|]. eexists. split; [done|].
  unfold abs. cbn. by rewrite Ha, Hr.
Qed.

(** * Witnesses *)

(** Thread 7 reads, thread 8 comes to write and waits, thread 9 comes to read and
    waits behind it; then 7 unlocks. *)
Definition no_clocks : clock_reading := fun _ => inl {| tv_sec := 100; tv_nsec := 0 |}.
Definition call (s : rwsys) (t : Z) (write : bool) : rwsys :=
  (rw_finish s t write (rw_begin no_clocks (rw_lock s) t write false CLOCK_REALTIME None)).1.
Definition unlock (s : rwsys) (t : Z) : rwsys := (rw_finish s t false (unlock_writer_pref (rw_lock s) t)).1.
Definition demo_waiting : rwsys := unlock (call (call (call rw_init 7 false) 8 true) 9 false) 7.

Lemma no_clocks_documented : clocks_documented no_clocks. Proof. done. Qed.

Lemma demo_rw_run : rw_run rw_init [Returned 7 RdLock 0; Internal; Internal; Returned 7 Unlock 0] demo_waiting.
Proof.
  assert (Hcall : forall s t write r, rw_waiters s !! t = None ->
    (rw_finish s t write (rw_begin no_clocks (rw_lock s) t write false CLOCK_REALTIME None)).2 = r ->
    rw_step s (event_of t (lock_fun write) r) (call s t write)).
  { intros s t write r Ht Hr. eapply StepLock; [exact Ht|apply no_clocks_documented|]. unfold call. rewrite <- Hr. apply surjective_pairing. }
  pose proof (RunSnoc _ _ _ _ _ (RunNil rw_init) (Hcall rw_init 7 false (Some 0) eq_refl eq_refl)) as R1.
  pose proof (RunSnoc _ _ _ _ _ R1 (Hcall (call rw_init 7 false) 8 true None eq_refl eq_refl)) as R2.
  pose proof (RunSnoc _ _ _ _ _ R2 (Hcall (call (call rw_init 7 false) 8 true) 9 false None eq_refl eq_refl)) as R3.
  exact (RunSnoc _ _ _ _ _ R3 (StepUnlock (call (call (call rw_init 7 false) 8 true) 9 false) 7 demo_waiting (Some 0) eq_refl eq_refl)).
Qed.

Lemma rwlock_refines_witness : a_run a_init [Returned 7 RdLock 0; Internal; Internal; Returned 7 Unlock 0] a_init.
Proof. destruct (rwlock_refines _ _ demo_rw_run) as (H & _). exact H. Defined.

Lemma rwlock_no_lost_wakeup_witness : exists t w s', rw_waiters demo_waiting !! t = Some w /\ w_parked w = false /\
  rw_step demo_waiting (Returned t (lock_fun (w_write w)) 0) s'.
Proof. destruct (rwlock_no_lost_wakeup _ _ demo_rw_run) as (_ & H & _). by apply H. Defined.

Lemma expired_deadline_refused_witness :
  lock_writer_pref_reader no_clocks (new_rwlock 1) 7 false CLOCK_REALTIME (Some {| tv_sec := 99; tv_nsec := 5 |}) =
  Finished ETIMEDOUT_ (new_rwlock 1) false.
Proof.
  apply (expired_deadline_refused no_clocks CLOCK_REALTIME {| tv_sec := 99; tv_nsec := 5 |} {| tv_sec := 100; tv_nsec := 0 |} (new_rwlock 1) 7);
    first [by left | done | cbn; lia].
Defined.
