(* ===== verification/HostBarrier.v ===== *)
(** Barriers of the native thread mode (src/src/hle/hle_pthread.cpp): [HostBarrier],
    [wait_on_barrier] and [destroy_barrier], and the handlers around them.

    [wait_on_barrier] holds the barrier's mutex except while it waits on [cv]: it
    is the stretch up to the wait and the stretch after a wake-up.  [bsys] is one
    barrier with the threads that have its pointer; its steps are the lookup in
    the table, the two stretches, wake-ups (spurious ones too) and destruction, in
    any order.  A destroyed barrier is freed: [b_object] is then [None], and a
    thread that still has the pointer can only touch freed memory.

    Ghost state: [b_round] counts the openings, [bw_round] is the opening a thread
    waits for. *)

From S2P Require Import Prelude.

Definition BARRIER_EINVAL : Z := 22.
Definition BARRIER_EBUSY : Z := 16.
Definition PTHREAD_BARRIER_SERIAL_THREAD : Z := -1.

Record HostBarrier := { hb_count : Z; hb_waiting : Z; hb_generation : Z; hb_initialized : bool }.
Definition eta_hb (b : HostBarrier) : HostBarrier := Build_HostBarrier (hb_count b) (hb_waiting b) (hb_generation b) (hb_initialized b).
#[export] Instance set_hb_waiting : Setter hb_waiting := ltac:(build_setter eta_hb hb_waiting).
#[export] Instance set_hb_generation : Setter hb_generation := ltac:(build_setter eta_hb hb_generation).
#[export] Instance set_hb_initialized : Setter hb_initialized := ltac:(build_setter eta_hb hb_initialized).

Definition new_barrier (barrier_count : Z) : HostBarrier :=
  {| hb_count := barrier_count; hb_waiting := 0; hb_generation := 0; hb_initialized := negb (barrier_count =? 0) |}.

(** * The functions *)

(** [wait_on_barrier] up to its wait: a result, with or without [notify_all], or
    the generation to wait out. *)
Inductive barrier_out := BReturn (r : Z) (b : HostBarrier) (notify : bool) | BWait (generation : Z) (b : HostBarrier).

Definition wait_on_barrier (b : HostBarrier) : barrier_out :=
  if negb (hb_initialized b) || (hb_count b =? 0) then BReturn BARRIER_EINVAL b false
  else let generation := hb_generation b in
       let b1 := b <| hb_waiting := u32 (hb_waiting b + 1) |> in
       if hb_waiting b1 =? hb_count b1
       then BReturn PTHREAD_BARRIER_SERIAL_THREAD
              (b1 <| hb_waiting := 0 |> <| hb_generation := u32 (hb_generation b1 + 1) |>) true
       else BWait generation b1.

(** After a wake-up: [None] is to wait again. *)
Definition barrier_wakes (b : HostBarrier) (generation : Z) : option Z :=
  if negb (hb_initialized b) || negb (hb_generation b =? generation)
  then Some (if hb_initialized b then 0 else BARRIER_EINVAL)
  else None.

(** [destroy_barrier] on the barrier the table has; [true] is that it was erased
    and freed. *)
Definition destroy_barrier (b : HostBarrier) : Z * bool :=
  if negb (hb_initialized b) then (BARRIER_EINVAL, false)
  else if negb (hb_waiting b =? 0) then (BARRIER_EBUSY, false)
  else (0, true).

(** The table. *)
Definition get_or_create_barrier (addr count : Z) (table : gmap Z HostBarrier) : gmap Z HostBarrier :=
  match table !! addr with Some _ => table | None => <[addr := new_barrier count]> table end.

(** * One barrier and its threads *)

Record barrier_waiter := { bw_generation : Z; bw_parked : bool; bw_round : Z }.
(** A thread in [pthread_barrier_wait]: it has the pointer, or it waits. *)
Inductive barrier_pc := HasPointer | Waiting (w : barrier_waiter).

Record bsys := { b_object : option HostBarrier; b_threads : gmap Z barrier_pc; b_round : Z }.

Inductive barrier_event :=
| Arrived (t round : Z)
| Left (t round r : Z)
| Refused_ (t : Z)
| Destroyed (t r : Z)
| Tau.

Definition wake (p : barrier_pc) : barrier_pc :=
  match p with
  | HasPointer => HasPointer
  | Waiting w => Waiting {| bw_generation := bw_generation w; bw_parked := false; bw_round := bw_round w |}
  end.

Inductive b_step : bsys -> list barrier_event -> bsys -> Prop :=
| BLookup s t b :
    b_threads s !! t = None -> b_object s = Some b ->
    b_step s [] {| b_object := b_object s; b_threads := <[t := HasPointer]> (b_threads s); b_round := b_round s |}
| BAbsent s t :
    b_threads s !! t = None -> b_object s = None -> b_step s [Refused_ t] s
| BRefuse s t b b' :
    b_threads s !! t = Some HasPointer -> b_object s = Some b -> wait_on_barrier b = BReturn BARRIER_EINVAL b' false ->
    b_step s [Refused_ t] {| b_object := Some b'; b_threads := delete t (b_threads s); b_round := b_round s |}
| BOpen s t b b' :
    b_threads s !! t = Some HasPointer -> b_object s = Some b ->
    wait_on_barrier b = BReturn PTHREAD_BARRIER_SERIAL_THREAD b' true ->
    b_step s [Arrived t (b_round s); Left t (b_round s) PTHREAD_BARRIER_SERIAL_THREAD]
      {| b_object := Some b'; b_threads := wake <$> delete t (b_threads s); b_round := b_round s + 1 |}
| BPark s t b g b' :
    b_threads s !! t = Some HasPointer -> b_object s = Some b -> wait_on_barrier b = BWait g b' ->
    b_step s [Arrived t (b_round s)]
      {| b_object := Some b';
         b_threads := <[t := Waiting {| bw_generation := g; bw_parked := true; bw_round := b_round s |}]> (b_threads s);
         b_round := b_round s |}
| BSpurious s t w :
    b_threads s !! t = Some (Waiting w) ->
    b_step s [] {| b_object := b_object s; b_threads := <[t := wake (Waiting w)]> (b_threads s); b_round := b_round s |}
| BSleepAgain s t w b :
    b_threads s !! t = Some (Waiting w) -> bw_parked w = false -> b_object s = Some b ->
    barrier_wakes b (bw_generation w) = None ->
    b_step s [] {| b_object := b_object s;
                   b_threads := <[t := Waiting {| bw_generation := bw_generation w; bw_parked := true; bw_round := bw_round w |}]> (b_threads s);
                   b_round := b_round s |}
| BLeave s t w b r :
    b_threads s !! t = Some (Waiting w) -> bw_parked w = false -> b_object s = Some b ->
    barrier_wakes b (bw_generation w) = Some r ->
    b_step s [Left t (bw_round w) r] {| b_object := b_object s; b_threads := delete t (b_threads s); b_round := b_round s |}
| BDestroy s t b r freed :
    b_threads s !! t = None -> b_object s = Some b -> destroy_barrier b = (r, freed) ->
    b_step s [Destroyed t r]
      {| b_object := if freed then None else Some b; b_threads := b_threads s; b_round := b_round s |}.

Inductive b_run : bsys -> list barrier_event -> bsys -> Prop :=
| BRunNil s : b_run s [] s
| BRunSnoc s tr s1 e s2 : b_run s tr s1 -> b_step s1 e s2 -> b_run s (tr ++ e) s2.

(** A thread with a pointer to a barrier that was freed. *)
Definition dangling (s : bsys) (t : Z) : Prop := b_object s = None /\ is_Some (b_threads s !! t).

Definition b_init (count : Z) : bsys := {| b_object := Some (new_barrier count); b_threads := ∅; b_round := 0 |}.
