(* ===== verification/BarrierSpec.v ===== *)
(** Barriers: every opening is reached by exactly as many threads as the barrier
    was made for, one of them is told so, nobody leaves before, no wake-up is lost;
    and destroying a barrier right after it opened frees it under its threads. *)

From S2P Require Import Prelude HostBarrier.

(** * Counting events *)

Definition count_events (f : barrier_event -> bool) (tr : list barrier_event) : Z := Z.of_nat (length (List.filter f tr)).
Definition arrives (k : Z) (e : barrier_event) : bool := match e with Arrived _ k' => k' =? k | _ => false end.
Definition serial (k : Z) (e : barrier_event) : bool :=
  match e with Left _ k' r => (k' =? k) && (r =? PTHREAD_BARRIER_SERIAL_THREAD) | _ => false end.

Lemma count_app f tr tr' : count_events f (tr ++ tr') = count_events f tr + count_events f tr'.
Proof. unfold count_events. rewrite List.filter_app, length_app. lia. Qed.
Lemma count_cons f e tr : count_events f (e :: tr) = (if f e then 1 else 0) + count_events f tr.
Proof. unfold count_events. cbn [List.filter]. destruct (f e); cbn [length]; lia. Qed.
Lemma count_nil f : count_events f [] = 0. Proof. done. Qed.
Ltac count_simpl := rewrite ?count_app, ?count_cons, ?count_nil; cbn [arrives serial].

(** * The invariant *)

(** A waiting thread remembers the opening it waits for; asleep it waits for the
    next one. *)
Definition waiter_ok (s : bsys) (w : barrier_waiter) : Prop :=
  0 <= bw_round w <= b_round s /\ bw_generation w = u32 (bw_round w) /\
  (bw_parked w = true -> is_Some (b_object s) -> u32 (bw_round w) = u32 (b_round s)).

Record b_ok (count : Z) (tr : list barrier_event) (s : bsys) : Prop := {
  bo_round : 0 <= b_round s;
  bo_object b : b_object s = Some b ->
    hb_count b = count /\ hb_initialized b = true /\ 0 <= hb_waiting b < count /\ hb_generation b = u32 (b_round s) /\
    count_events (arrives (b_round s)) tr = hb_waiting b;
  bo_past k : 0 <= k < b_round s -> count_events (arrives k) tr = count /\ count_events (serial k) tr = 1;
  bo_serial k : b_round s <= k -> count_events (serial k) tr = 0;
  bo_future k : b_round s < k -> count_events (arrives k) tr = 0;
  bo_left t k r : Left t k r ∈ tr -> 0 <= k < b_round s /\ (r = 0 \/ r = PTHREAD_BARRIER_SERIAL_THREAD);
  bo_waiter t w : b_threads s !! t = Some (Waiting w) -> waiter_ok s w;
}.

Lemma wait_cases count b : 0 < count < two32 -> hb_count b = count -> hb_initialized b = true -> 0 <= hb_waiting b < count ->
  wait_on_barrier b =
    if hb_waiting b + 1 =? count
    then BReturn PTHREAD_BARRIER_SERIAL_THREAD (b <| hb_waiting := 0 |> <| hb_generation := u32 (hb_generation b + 1) |>) true
    else BWait (hb_generation b) (b <| hb_waiting := hb_waiting b + 1 |>).
Proof.
  intros Hc Eb Hi Hw. unfold wait_on_barrier. rewrite Hi, Eb, (proj2 (Z.eqb_neq count 0)) by lia. cbn. rewrite Eb, u32_small by lia. done.
Qed.

Lemma u32_next x : u32 (u32 x + 1) = u32 (x + 1).
Proof. unfold u32. by rewrite Zplus_mod_idemp_l. Qed.

(** A step that neither arrives nor leaves, and at most frees the barrier. *)
Lemma quiet_ok count tr s e obj ths : b_ok count tr s ->
  (forall k, count_events (arrives k) e = 0) -> (forall k, count_events (serial k) e = 0) -> (forall t k r, Left t k r ∉ e) ->
  (obj = b_object s \/ obj = None) -> (forall t w, ths !! t = Some (Waiting w) -> waiter_ok s w) ->
  b_ok count (tr ++ e) {| b_object := obj; b_threads := ths; b_round := b_round s |}.
Proof.
  intros [H1 H2 H3 H4 H5 H6 H7] Ea Es El Ho Hw. constructor; cbn [b_round b_object b_threads]; try done.
  - intros b ->. destruct Ho as [Ho|]; [|done]. destruct (H2 b (eq_sym Ho)) as (? & ? & ? & ? & ?). rewrite count_app, Ea, Z.add_0_r. done.
  - intros k Hk. rewrite !count_app, Ea, Es, !Z.add_0_r. by apply H3.
  - intros k Hk. rewrite count_app, Es, Z.add_0_r. by apply H4.
  - intros k Hk. rewrite count_app, Ea, Z.add_0_r. by apply H5.
  - intros t k r [Hin|Hin]%elem_of_app; [by eapply H6|]. by apply El in Hin.
  - intros t w Ht. destruct (Hw t w Ht) as (A & B & C). split_and!; cbn; [lia|lia|done|]. intros Hp Hs. apply C; [done|].
    destruct Ho as [-> | ->]; [done|]. by destruct Hs.
Qed.

(** The last thread arrives. *)
Lemma open_ok count tr s t b : 0 < count < two32 -> b_ok count tr s -> b_object s = Some b -> hb_waiting b + 1 = count ->
  b_ok count (tr ++ [Arrived t (b_round s); Left t (b_round s) PTHREAD_BARRIER_SERIAL_THREAD])
    {| b_object := Some (b <| hb_waiting := 0 |> <| hb_generation := u32 (hb_generation b + 1) |>);
       b_threads := wake <$> delete t (b_threads s); b_round := b_round s + 1 |}.
Proof.
  intros Hc [H1 H2 H3 H4 H5 H6 H7] Hb Hlast. destruct (H2 b Hb) as (E1 & E2 & E3 & E4 & E5). constructor; cbn [b_round b_object b_threads].
  - lia.
  - intros b0 [= <-]. cbn. rewrite E4, u32_next. split_and!; [done|done|lia|lia|done|]. count_simpl. rewrite H5 by lia.
    rewrite (proj2 (Z.eqb_neq _ _)) by lia. done.
  - intros k Hk. count_simpl. destruct (decide (k = b_round s)) as [->|Hne].
    + rewrite Z.eqb_refl. cbn. rewrite E5, H4 by lia. lia.
    + rewrite (proj2 (Z.eqb_neq (b_round s) k)) by lia. cbn. destruct (H3 k ltac:(lia)). lia.
  - intros k Hk. count_simpl. rewrite (proj2 (Z.eqb_neq (b_round s) k)) by lia. cbn. rewrite H4 by lia. done.
  - intros k Hk. count_simpl. rewrite (proj2 (Z.eqb_neq (b_round s) k)) by lia. cbn. rewrite H5 by lia. done.
  - intros u k r [Hin|Hin]%elem_of_app; [destruct (H6 u k r Hin); split; [lia|done]|].
    apply elem_of_cons in Hin as [?|Hin]; [done|]. apply list_elem_of_singleton in Hin. injection Hin as -> -> ->. split; [lia|by right].
  - intros u w Hu. rewrite lookup_fmap in Hu. apply fmap_Some in Hu as (p & Hu & Ew). apply lookup_delete_Some in Hu as [_ Hu].
    destruct p as [|w0]; [done|]. injection Ew as ->. destruct (H7 u w0 Hu) as (A & B & _). split_and!; cbn in *; [lia..|done|done].
Qed.

(** Another thread arrives. *)
Lemma park_ok count tr s t b : b_ok count tr s -> b_object s = Some b -> hb_waiting b + 1 <> count ->
  b_ok count (tr ++ [Arrived t (b_round s)])
    {| b_object := Some (b <| hb_waiting := hb_waiting b + 1 |>);
       b_threads := <[t := Waiting {| bw_generation := hb_generation b; bw_parked := true; bw_round := b_round s |}]> (b_threads s);
       b_round := b_round s |}.
Proof.
  intros [H1 H2 H3 H4 H5 H6 H7] Hb Hmore. destruct (H2 b Hb) as (E1 & E2 & E3 & E4 & E5). constructor; cbn [b_round b_object b_threads].
  - done.
  - intros b0 [= <-]. cbn. split_and!; [done|done|lia|lia|done|]. count_simpl. rewrite Z.eqb_refl, E5. lia.
  - intros k Hk. count_simpl. rewrite (proj2 (Z.eqb_neq (b_round s) k)) by lia. destruct (H3 k Hk). lia.
  - intros k Hk. count_simpl. rewrite H4 by done. done.
  - intros k Hk. count_simpl. rewrite (proj2 (Z.eqb_neq (b_round s) k)) by lia. rewrite H5 by done. done.
  - intros u k r [Hin|Hin]%elem_of_app; [by eapply H6|]. by apply list_elem_of_singleton in Hin.
  - intros u w [[_ [= <-]]|[_ Hu]]%lookup_insert_Some; [split_and!; cbn; [done|lia|done|done]|]. destruct (H7 u w Hu) as (A & B & C).
    split_and!; [cbn; lia..|done|]. cbn. intros Hp _. apply C; [done|]. by rewrite Hb.
Qed.

(** A released thread leaves. *)
Lemma leave_ok count tr s t w : b_ok count tr s -> 0 <= bw_round w < b_round s ->
  b_ok count (tr ++ [Left t (bw_round w) 0]) {| b_object := b_object s; b_threads := delete t (b_threads s); b_round := b_round s |}.
Proof.
  intros [H1 H2 H3 H4 H5 H6 H7] Hr. constructor; cbn [b_round b_object b_threads].
  - done.
  - intros b0 Hb0. destruct (H2 b0 Hb0) as (? & ? & ? & ? & ?). count_simpl. rewrite Z.add_0_r. done.
  - intros k Hk. count_simpl. destruct (H3 k Hk). rewrite andb_false_r. lia.
  - intros k Hk. count_simpl. rewrite andb_false_r, H4 by done. done.
  - intros k Hk. count_simpl. rewrite H5 by done. done.
  - intros u k r [Hin|Hin]%elem_of_app; [by eapply H6|]. apply list_elem_of_singleton in Hin. injection Hin as -> -> ->. split; [lia|by left].
  - intros u w' [_ Hu]%lookup_delete_Some. by eapply H7.
Qed.

(** What the test after a wake-up says. *)
Lemma wakes_cases count tr s t w b : b_ok count tr s -> b_threads s !! t = Some (Waiting w) -> b_object s = Some b ->
  barrier_wakes b (bw_generation w) = if decide (u32 (bw_round w) = u32 (b_round s)) then None else Some 0.
Proof.
  intros Hok Ht Hb. destruct (bo_object _ _ _ Hok b Hb) as (_ & E2 & _ & E4 & _). destruct (bo_waiter _ _ _ Hok t w Ht) as (_ & B & _).
  unfold barrier_wakes. rewrite E2, E4, B. cbn. by destruct (Z.eqb_spec (u32 (b_round s)) (u32 (bw_round w))), (decide _).
Qed.

Lemma b_step_ok count tr s e s' : 0 < count < two32 -> b_ok count tr s -> b_step s e s' -> b_ok count (tr ++ e) s'.
Proof.
  intros Hc Hok Hs. pose proof (bo_waiter _ _ _ Hok) as H7. pose proof (bo_object _ _ _ Hok) as H2.
  destruct Hs as [s t b Ht Hb|s t Ht Hb|s t b b' Ht Hb Hw|s t b b' Ht Hb Hw|s t b g b' Ht Hb Hw|s t w Ht|s t w b Ht Hp Hb Hw
    |s t w b r Ht Hp Hb Hw|s t b r freed Ht Hb Hd].
  - apply quiet_ok; auto; [set_solver|]. intros u w [[_ ?]|[_ Hu]]%lookup_insert_Some; [done|by eapply H7].
  - destruct s as [o ths k]. apply (quiet_ok count tr (Build_bsys o ths k)); auto. set_solver.
  - destruct (H2 b Hb) as (E1 & E2 & E3 & _). rewrite (wait_cases count) in Hw by done. by destruct (_ =? _).
  - destruct (H2 b Hb) as (E1 & E2 & E3 & _). rewrite (wait_cases count) in Hw by done.
    destruct (Z.eqb_spec (hb_waiting b + 1) count); [|done]. injection Hw as <-. by apply open_ok.
  - destruct (H2 b Hb) as (E1 & E2 & E3 & _). rewrite (wait_cases count) in Hw by done.
    destruct (Z.eqb_spec (hb_waiting b + 1) count); [done|]. injection Hw as <- <-. by apply park_ok.
  - apply quiet_ok; auto; [set_solver|]. intros u w' [[_ [= <-]]|[_ Hu]]%lookup_insert_Some; [|by eapply H7].
    destruct (H7 t w Ht) as (A & B & _). split_and!; cbn; [lia..|done|done].
  - apply quiet_ok; auto; [set_solver|]. intros u w' [[_ [= <-]]|[_ Hu]]%lookup_insert_Some; [|by eapply H7].
    destruct (H7 t w Ht) as (A & B & _). rewrite (wakes_cases _ _ _ _ _ _ Hok Ht Hb) in Hw. destruct (decide _); [|done]. split_and!; cbn; [lia..|done|done].
  - rewrite (wakes_cases _ _ _ _ _ _ Hok Ht Hb) in Hw. destruct (decide _) as [|Hne]; [done|]. injection Hw as <-.
    destruct (H7 t w Ht) as (A & _). apply leave_ok; [done|]. destruct (decide (bw_round w = b_round s)); [congruence|lia].
  - apply quiet_ok; auto; [set_solver|]. destruct freed; [by right|by left].
Qed.

Lemma b_init_ok count : 0 < count < two32 -> b_ok count [] (b_init count).
Proof.
  intros Hc. constructor; cbn [b_init b_round b_object b_threads]; try lia; try done.
  - intros b [= <-]. cbn. rewrite (proj2 (Z.eqb_neq count 0)) by lia. split_and!; first [done | lia].
  - intros t k r Hin. by apply elem_of_nil in Hin.
Qed.

Lemma b_run_ok count tr s : 0 < count < two32 -> b_run (b_init count) tr s -> b_ok count tr s.
Proof.
  intros Hc Hr. remember (b_init count) as s0 eqn:E0. induction Hr as [s|s tr s1 e s2 Hr IH Hs]; subst; [by apply b_init_ok|].
  apply (b_step_ok count tr s1); auto.
Qed.

(** * The claims *)

(** C8: A barrier of [count] threads opens for [count] threads. In every run, with any
    number of threads that come again as they like, each opening so far had
    exactly [count] arrivals and made exactly one thread the serial one; whoever
    has left its wait left it for an opening that had happened, with 0 or as the
    serial thread. *)
Theorem barrier_rounds count tr s : 0 < count < two32 -> b_run (b_init count) tr s ->
  (forall k, 0 <= k < b_round s -> count_events (arrives k) tr = count /\ count_events (serial k) tr = 1) /\
  (forall b, b_object s = Some b -> count_events (arrives (b_round s)) tr = hb_waiting b /\ hb_waiting b < count) /\
  (forall t k r, Left t k r ∈ tr -> count_events (arrives k) tr = count /\ (r = 0 \/ r = PTHREAD_BARRIER_SERIAL_THREAD)).
Proof.
  intros Hc Hr. pose proof (b_run_ok count tr s Hc Hr) as Hok. split_and!.
  - intros k Hk. by apply (bo_past _ _ _ Hok).
  - intros b Hb. destruct (bo_object _ _ _ Hok b Hb) as (_ & _ & ? & _ & ?). split; [done|lia].
  - intros t k r Hin. destruct (bo_left _ _ _ Hok t k r Hin) as [Hk Hv]. split; [by apply (bo_past _ _ _ Hok)|done].
Qed.

(** C30: A released thread gets out. A thread whose opening has happened, less than
    2^32 openings ago, is awake, and its next step leaves the barrier with 0. *)
Theorem barrier_releases count tr s t w b : 0 < count < two32 -> b_run (b_init count) tr s ->
  b_threads s !! t = Some (Waiting w) -> b_object s = Some b -> bw_round w < b_round s < bw_round w + two32 ->
  bw_parked w = false /\ exists s', b_step s [Left t (bw_round w) 0] s' /\ b_threads s' !! t = None.
Proof.
  intros Hc Hr Ht Hb Hlt. pose proof (b_run_ok count tr s Hc Hr) as Hok. destruct (bo_waiter _ _ _ Hok t w Ht) as (A & B & C).
  assert (Hne : u32 (bw_round w) <> u32 (b_round s)).
  { unfold u32. intros He. pose proof (Z.div_mod (bw_round w) two32). pose proof (Z.div_mod (b_round s) two32). unfold two32 in *. lia. }
  assert (Hp : bw_parked w = false).
  { apply not_true_is_false. intros Hp. apply Hne, C; [done|]. by rewrite Hb. }
  split; [done|]. exists {| b_object := b_object s; b_threads := delete t (b_threads s); b_round := b_round s |}.
  split; [|apply lookup_delete_eq]. apply (BLeave s t w b 0); [done..|].
  rewrite (wakes_cases _ _ _ _ _ _ Hok Ht Hb). by destruct (decide _).
Qed.

(** Destroying an open barrier frees it under its threads. Once a barrier has
    opened, destroying it succeeds although threads it released have not left
    their wait yet (a caller may destroy it as soon as its own wait has
    returned), and each of them goes on with a pointer to freed memory. *)
Theorem barrier_destroy_dangles count tr s t u w : 0 < count < two32 -> b_run (b_init count) tr s ->
  b_threads s !! t = Some (Waiting w) -> bw_round w < b_round s -> b_threads s !! u = None ->
  (exists b, b_object s = Some b /\ hb_waiting b = 0) ->
  exists s', b_step s [Destroyed u 0] s' /\ dangling s' t.
Proof.
  intros Hc Hr Ht Hlt Hu (b & Hb & Hz). destruct (bo_object _ _ _ (b_run_ok count tr s Hc Hr) b Hb) as (_ & E2 & _).
  eexists. split; [apply (BDestroy s u b 0 true); [done..|]; unfold destroy_barrier; by rewrite E2, Hz|]. split; [done|]. cbn. by rewrite Ht.
Qed.

(** * Witnesses *)

(** Two threads meet; the second is told it was the last. *)
Definition demo_met : bsys :=
  {| b_object := Some {| hb_count := 2; hb_waiting := 0; hb_generation := 1; hb_initialized := true |};
     b_threads := {[ 1 := Waiting {| bw_generation := 0; bw_parked := false; bw_round := 0 |} ]}; b_round := 1 |}.
Definition demo_meeting : list barrier_event := [Arrived 1 0; Arrived 2 0; Left 2 0 PTHREAD_BARRIER_SERIAL_THREAD].

Lemma demo_barrier_run : b_run (b_init 2) demo_meeting demo_met.
Proof.
  set (s1 := Build_bsys (Some (new_barrier 2)) (<[1 := HasPointer]> ∅) 0).
  set (s2 := Build_bsys (Some ((new_barrier 2) <| hb_waiting := 1 |>))
    (<[1 := Waiting {| bw_generation := 0; bw_parked := true; bw_round := 0 |}]> (<[1 := HasPointer]> ∅)) 0).
  set (s3 := Build_bsys (b_object s2) (<[2 := HasPointer]> (b_threads s2)) 0).
  pose proof (BRunSnoc _ _ _ _ s1 (BRunNil (b_init 2)) (BLookup (b_init 2) 1 _ eq_refl eq_refl)) as R1.
  pose proof (BRunSnoc _ _ _ _ s2 R1 (BPark s1 1 _ _ _ eq_refl eq_refl eq_refl)) as R2.
  pose proof (BRunSnoc _ _ _ _ s3 R2 (BLookup s2 2 _ eq_refl eq_refl)) as R3.
  exact (BRunSnoc _ _ _ _ demo_met R3 (BOpen s3 2 _ _ eq_refl eq_refl eq_refl)).
Qed.

Lemma barrier_rounds_witness : count_events (arrives 0) demo_meeting = 2 /\ count_events (serial 0) demo_meeting = 1.
Proof. apply (barrier_rounds 2 demo_meeting demo_met); [done|apply demo_barrier_run|done]. Defined.

Lemma barrier_releases_witness : exists s', b_step demo_met [Left 1 0 0] s' /\ b_threads s' !! 1 = None.
Proof.
  destruct (barrier_releases 2 demo_meeting demo_met 1 {| bw_generation := 0; bw_parked := false; bw_round := 0 |}
    {| hb_count := 2; hb_waiting := 0; hb_generation := 1; hb_initialized := true |}) as [_ H]; [done|apply demo_barrier_run|done..|exact H].
Defined.

Lemma barrier_destroy_dangles_witness : exists s', b_step demo_met [Destroyed 2 0] s' /\ dangling s' 1.
Proof.
  apply (barrier_destroy_dangles 2 demo_meeting demo_met 1 2 {| bw_generation := 0; bw_parked := false; bw_round := 0 |});
    [done|apply demo_barrier_run|done..|]. by eexists.
Defined.
