(* ===== verification/HostMutex.v ===== *)
(** Mutexes and the waiting side of condition variables in the native thread mode
    (src/src/hle/hle_pthread.cpp): [HostMutex] is a host
    [std::recursive_timed_mutex] with an owner and a count kept beside it in two
    atomics, which the handlers read before they hold the host mutex.

    Every access to an atomic and every operation of the host mutex is a step of
    its own, so that a run of [msys], one mutex and the threads in its functions,
    is any interleaving of these accesses.  [mutex_next] is what a thread does
    next; [choice] resolves what the host decides (a timed acquisition that
    expires, a [try_lock] that fails spuriously, a wait that times out).  The host
    mutex blocks while another thread has it; unlocking it without owning it is
    undefined ([Undefined]).  A thread waiting on a condition variable may wake at
    any time.  A thread is its synchronisation id, never 0.  Priority inheritance
    boosts the owner's host thread and does not touch the mutex; it is left out. *)

From S2P Require Import Prelude HostRwLock.

Definition EPERM_ : Z := 1.
Definition PTHREAD_MUTEX_NORMAL : Z := 0.
Definition PTHREAD_MUTEX_RECURSIVE : Z := 1.
Definition PTHREAD_MUTEX_ERRORCHECK : Z := 2.
Definition PTHREAD_PRIO_INHERIT : Z := 1.

(** [mtx] is the host mutex: who has it, how often. *)
Record HostMutex := { mtx : option (Z * Z); owner_thread : Z; lock_count : Z; mtype : Z; protocol : Z; pshared : Z }.
Definition eta_hm (m : HostMutex) : HostMutex := Build_HostMutex (mtx m) (owner_thread m) (lock_count m) (mtype m) (protocol m) (pshared m).
#[export] Instance set_mtx : Setter mtx := ltac:(build_setter eta_hm mtx).
#[export] Instance set_hm_owner : Setter owner_thread := ltac:(build_setter eta_hm owner_thread).
#[export] Instance set_hm_count : Setter lock_count := ltac:(build_setter eta_hm lock_count).

Definition new_mutex (type protocol pshared : Z) : HostMutex :=
  {| mtx := None; owner_thread := 0; lock_count := 0; mtype := type; protocol := protocol; pshared := pshared |}.

(** * The host mutex *)

(** [lock] and the like by [t], where they succeed. *)
Definition host_lock (m : HostMutex) (t : Z) : option HostMutex :=
  match mtx m with
  | None => Some (m <| mtx := Some (t, 1) |>)
  | Some (h, d) => if h =? t then Some (m <| mtx := Some (t, d + 1) |>) else None
  end.
(** [unlock] by [t]; [None] is undefined behaviour. *)
Definition host_unlock (m : HostMutex) (t : Z) : option HostMutex :=
  match mtx m with
  | Some (h, d) => if h =? t then Some (m <| mtx := if d =? 1 then None else Some (h, d - 1) |>) else None
  | None => None
  end.

(** * Where a thread is *)

Inductive lock_kind := KLock | KTry | KTimed (clockid : Z) (abstime : option timespec).

Inductive mpc :=
(* [pthread_mutex_lock], [pthread_mutex_trylock], [lock_mutex_with_timeout] *)
| LockOwner (k : lock_kind)       (* owner_thread.load() == tid *)
| LockCount (k : lock_kind)       (* lock_count.load() > 0 *)
| LockRec (k : lock_kind)         (* the host mutex, already owned *)
| LockRecCount                    (* lock_count++ *)
| LockHost (k : lock_kind)        (* the host mutex *)
| LockStore                       (* owner_thread.store(tid) *)
| LockInc                         (* lock_count++ *)
(* [pthread_mutex_unlock] *)
| UnlockCount | UnlockOwner | UnlockDec | UnlockLoad | UnlockClear | UnlockHost
(* [wait_cond_with_clock] *)
| WaitCount (clockid : Z) (abstime : option timespec)
| WaitOwner (held : Z) (clockid : Z) (abstime : option timespec)
| WaitClear (held : Z) (clockid : Z) (abstime : option timespec)
| WaitZero (held : Z) (clockid : Z) (abstime : option timespec)
| WaitSleep (held : Z) (clockid : Z) (abstime : option timespec)
| Asleep (held : Z) (timed : bool)
| Relock (held : Z) (r : Z)
| Restore (slept : bool) (held : Z) (r : Z)
| RestoreCount (slept : bool) (held : Z) (r : Z).

Inductive mres :=
| Go (m : HostMutex) (p : mpc)
| Return (m : HostMutex) (r : Z)
| Blocked
| Undefined.

(** The branch taken when the caller owns the mutex already. *)
Definition lock_again (clocks : clock_reading) (k : lock_kind) (m : HostMutex) : mres :=
  if mtype m =? PTHREAD_MUTEX_RECURSIVE then Go m (LockRec k)
  else match k with
       | KLock => if mtype m =? PTHREAD_MUTEX_ERRORCHECK then Return m EDEADLK_ else Go m (LockHost KLock)
       | KTry => if (mtype m =? PTHREAD_MUTEX_ERRORCHECK) && (protocol m =? PTHREAD_PRIO_INHERIT)
                 then Return m EDEADLK_ else Return m EBUSY_
       | KTimed clockid abstime =>
           if mtype m =? PTHREAD_MUTEX_ERRORCHECK then Return m EDEADLK_
           else match abstime with
                | None => Return m EDEADLK_
                | Some _ => match prepare_rwlock_deadline clocks abstime clockid with
                            | inr e => Return m e
                            | inl _ => Return m ETIMEDOUT_
                            end
                end
       end.

(** The acquisition itself. *)
Definition lock_host (clocks : clock_reading) (choice : bool) (k : lock_kind) (m : HostMutex) (t : Z) (next : mpc) : mres :=
  match k with
  | KLock | KTimed _ None => match host_lock m t with Some m' => Go m' next | None => Blocked end
  | KTry => if choice then Return m EBUSY_
            else match host_lock m t with Some m' => Go m' next | None => Return m EBUSY_ end
  | KTimed clockid (Some ts) =>
      match prepare_rwlock_deadline clocks (Some ts) clockid with
      | inr e => Return m e
      | inl _ => if choice then Return m ETIMEDOUT_ else match host_lock m t with Some m' => Go m' next | None => Blocked end
      end
  end.

Definition mutex_next (clocks : clock_reading) (choice : bool) (m : HostMutex) (t : Z) (p : mpc) : mres :=
  match p with
  | LockOwner k => if owner_thread m =? t then Go m (LockCount k) else Go m (LockHost k)
  | LockCount k => if 0 <? lock_count m then lock_again clocks k m else Go m (LockHost k)
  | LockRec k => match k with
                 | KTry => lock_host clocks choice KTry m t LockRecCount
                 | _ => lock_host clocks choice KLock m t LockRecCount
                 end
  | LockRecCount => Return (m <| lock_count := lock_count m + 1 |>) 0
  | LockHost k => lock_host clocks choice k m t LockStore
  | LockStore => Go (m <| owner_thread := t |>) LockInc
  | LockInc => Return (m <| lock_count := lock_count m + 1 |>) 0
  | UnlockCount => if lock_count m <=? 0 then Return m EPERM_ else Go m UnlockOwner
  | UnlockOwner => if negb (owner_thread m =? t) then Return m EPERM_ else Go m UnlockDec
  | UnlockDec => Go (m <| lock_count := lock_count m - 1 |>) UnlockLoad
  | UnlockLoad => if lock_count m =? 0 then Go m UnlockClear else Go m UnlockHost
  | UnlockClear => Go (m <| owner_thread := 0 |>) UnlockHost
  | UnlockHost => match host_unlock m t with Some m' => Return m' 0 | None => Undefined end
  | WaitCount c a => if negb ((c =? CLOCK_REALTIME) || (c =? CLOCK_MONOTONIC)) then Return m EINVAL_
                     else if lock_count m <=? 0 then Return m EPERM_ else Go m (WaitOwner (lock_count m) c a)
  | WaitOwner held c a => if negb (owner_thread m =? t) then Return m EPERM_ else Go m (WaitClear held c a)
  | WaitClear held c a => Go (m <| owner_thread := 0 |>) (WaitZero held c a)
  | WaitZero held c a => Go (m <| lock_count := 0 |>) (WaitSleep held c a)
  | WaitSleep held c a =>
      match prepare_rwlock_deadline clocks a c with
      | inr e => Go m (Restore false held e)
      | inl d => match host_unlock m t with
                 | Some m' => Go m' (Asleep held (match d with Some _ => true | None => false end))
                 | None => Undefined
                 end
      end
  | Asleep held timed => Go m (Relock held (if timed && choice then ETIMEDOUT_ else 0))
  | Relock held r => match host_lock m t with Some m' => Go m' (Restore true held r) | None => Blocked end
  | Restore b held r => Go (m <| owner_thread := t |>) (RestoreCount b held r)
  | RestoreCount b held r => Return (m <| lock_count := held |>) r
  end.

(** * One mutex and its threads *)

Record msys := { mx : HostMutex; mpcs : gmap Z mpc }.

(** Which function a thread is in. *)
Inductive mfun := FLock (try_ : bool) | FUnlock | FWait (held : Z) (slept : bool).
Definition fun_of (p : mpc) : mfun :=
  match p with
  | LockRec KTry | LockHost KTry | LockOwner KTry | LockCount KTry => FLock true
  | LockOwner _ | LockCount _ | LockRec _ | LockHost _ | LockRecCount | LockStore | LockInc => FLock false
  | UnlockCount | UnlockOwner | UnlockDec | UnlockLoad | UnlockClear | UnlockHost => FUnlock
  | WaitCount _ _ => FWait 0 false
  | WaitOwner h _ _ | WaitClear h _ _ | WaitZero h _ _ | WaitSleep h _ _ => FWait h false
  | Asleep h _ | Relock h _ => FWait h true
  | Restore b h _ | RestoreCount b h _ => FWait h b
  end.
Inductive m_event := MCalled | MReturned (t : Z) (f : mfun) (r : Z) | MSlept (t held : Z) | MTau.

(** Where the functions begin. *)
Definition entry (p : mpc) : bool :=
  match p with LockOwner _ | UnlockCount | WaitCount _ _ => true | _ => false end.
Definition is_sleep (p q : mpc) : bool := match p, q with WaitSleep _ _ _, Asleep _ _ => true | _, _ => false end.
Definition held_of (p : mpc) : Z := match p with WaitSleep h _ _ => h | _ => 0 end.

Inductive m_step : msys -> m_event -> msys -> Prop :=
| MCall s t p : t <> 0 -> mpcs s !! t = None -> entry p = true ->
    m_step s MCalled {| mx := mx s; mpcs := <[t := p]> (mpcs s) |}
| MGo s t p clocks choice m' q : mpcs s !! t = Some p -> clocks_documented clocks ->
    mutex_next clocks choice (mx s) t p = Go m' q ->
    m_step s (if is_sleep p q then MSlept t (held_of p) else MTau) {| mx := m'; mpcs := <[t := q]> (mpcs s) |}
| MRet s t p clocks choice m' r : mpcs s !! t = Some p -> clocks_documented clocks ->
    mutex_next clocks choice (mx s) t p = Return m' r ->
    m_step s (MReturned t (fun_of p) r) {| mx := m'; mpcs := delete t (mpcs s) |}.

Inductive m_run : msys -> list m_event -> msys -> Prop :=
| MRunNil s : m_run s [] s
| MRunSnoc s tr s1 e s2 : m_run s tr s1 -> m_step s1 e s2 -> m_run s (tr ++ [e]) s2.

Definition m_init (type protocol pshared : Z) : msys := {| mx := new_mutex type protocol pshared; mpcs := ∅ |}.
