(* ===== verification/MutexSpec.v ===== *)
(** Mutexes of the native thread mode: whatever the interleaving of the accesses to
    the host mutex and to the two atomics beside it, callers see a mutex, and the host
    mutex is never unlocked by a thread that does not own it. *)

From S2P Require Import Prelude HostRwLock HostMutex.

(** * The abstract mutex *)

(** Who holds it, how often. *)
Definition amutex : Type := option (Z * Z).
Definition give (t n : Z) : amutex := if n =? 0 then None else Some (t, n).
Definition held_by (a : amutex) (t : Z) : Z := match a with Some (h, n) => if h =? t then n else 0 | None => 0 end.
(** Nobody but [t] holds it. *)
Definition free_for (a : amutex) (t : Z) : Prop := forall h n, a = Some (h, n) -> h = t.

Inductive am_step : amutex -> m_event -> amutex -> Prop :=
| AmCalled a : am_step a MCalled a
| AmTau a : am_step a MTau a
| AmLock a t b : free_for a t -> am_step a (MReturned t (FLock b) 0) (Some (t, held_by a t + 1))
| AmDeadlock a t b : 0 < held_by a t -> am_step a (MReturned t (FLock b) EDEADLK_) a
| AmNotLocked a t b r : r <> 0 -> r <> EDEADLK_ -> am_step a (MReturned t (FLock b) r) a
| AmUnlock a t n : a = Some (t, n) -> am_step a (MReturned t FUnlock 0) (give t (n - 1))
| AmNotOwner a t : held_by a t = 0 -> am_step a (MReturned t FUnlock EPERM_) a
| AmSleep a t n : a = Some (t, n) -> am_step a (MSlept t n) (give t (n - 1))
| AmWaited a t n r : free_for a t -> held_by a t = n - 1 -> am_step a (MReturned t (FWait n true) r) (Some (t, n))
| AmNoWait a t n r : r <> 0 -> (r = EPERM_ -> held_by a t = 0) -> am_step a (MReturned t (FWait n false) r) a.

Inductive am_run : amutex -> list m_event -> amutex -> Prop :=
| AmRunNil a : am_run a [] a
| AmRunSnoc a tr a1 e a2 : am_run a tr a1 -> am_step a1 e a2 -> am_run a (tr ++ [e]) a2.

(** * The invariant *)

(** Has the thread taken a level of the host mutex it has not accounted for yet? *)
Definition pending (p : option mpc) : Z :=
  match p with
  | Some (LockRecCount | LockStore | LockInc | Restore true _ _ | RestoreCount true _ _) => 1
  | _ => 0
  end.
Definition abs_mutex (s : msys) : amutex :=
  match mtx (mx s) with Some (h, d) => give h (d - pending (mpcs s !! h)) | None => None end.

(** The owner and count the thread [h] that has the host mutex [d] times leaves in
    the atomics, depending on where it is. *)
Definition expected (p : option mpc) (h d : Z) : Z * Z :=
  match p with
  | Some (LockRecCount | LockInc | UnlockLoad) => (h, d - 1)
  | Some (LockStore | UnlockHost) => if d =? 1 then (0, 0) else (h, d - 1)
  | Some (UnlockClear) => (h, 0)
  | Some (WaitZero _ _ _) => (0, d)
  | Some (WaitSleep _ _ _ | Asleep _ _ | Relock _ _ | Restore _ _ _) => (0, 0)
  | Some (RestoreCount _ _ _) => (h, 0)
  | _ => (h, d)
  end.
(** Where that thread can be at that depth. *)
Definition holder_at (p : option mpc) (d : Z) : Prop :=
  match p with
  | Some (UnlockClear) => d = 1
  | Some (WaitClear held _ _ | WaitZero held _ _ | WaitSleep held _ _ | Restore _ held _ | RestoreCount _ held _) => held = d
  | Some (Asleep held _ | Relock held _) => held - 1 = d
  | Some (WaitOwner held _ _) => held = d
  | _ => True
  end.
(** Where the others can be. *)
Definition waiter_at (p : mpc) : Prop :=
  match p with
  | LockOwner _ | LockHost _ | UnlockCount | UnlockOwner | WaitCount _ _ | WaitOwner _ _ _ => True
  | Asleep held _ | Relock held _ => held = 1
  | _ => False
  end.

(** A result that is still to be returned is no code of another branch. *)
Definition result_ok (p : mpc) : Prop :=
  match p with Restore false _ r | RestoreCount false _ r => r <> 0 /\ r <> EPERM_ | _ => True end.

Record m_ok (s : msys) : Prop := {
  mo_free : mtx (mx s) = None -> owner_thread (mx s) = 0 /\ lock_count (mx s) = 0;
  mo_held h d : mtx (mx s) = Some (h, d) -> h <> 0 /\ 1 <= d /\
    (owner_thread (mx s), lock_count (mx s)) = expected (mpcs s !! h) h d /\ holder_at (mpcs s !! h) d;
  mo_other t p : mpcs s !! t = Some p -> t <> 0 /\ result_ok p /\
    ((forall d, mtx (mx s) <> Some (t, d)) -> waiter_at p);
}.

(** The atomics never name a thread that does not have the host mutex. *)
Lemma owner_has s t : m_ok s -> t <> 0 -> owner_thread (mx s) = t -> exists d, mtx (mx s) = Some (t, d).
Proof.
  intros [H1 H2 _] Ht Ho. destruct (mtx (mx s)) as [[h d]|] eqn:Hm.
  - destruct (H2 h d eq_refl) as (_ & _ & He & _). exists d. do 2 f_equal.
    assert (owner_thread (mx s) = 0 \/ owner_thread (mx s) = h); [|intuition congruence].
    revert He. unfold expected. repeat case_match; intros [= -> _]; auto.
  - destruct (H1 eq_refl). congruence.
Qed.

(** A thread at the start of a function, or in none, that has the host mutex. *)
Definition settled (p : option mpc) : Prop :=
  match p with
  | None | Some (LockOwner _ | LockCount _ | LockRec _ | LockHost _ | UnlockCount | UnlockOwner | UnlockDec | WaitCount _ _ | WaitOwner _ _ _ | WaitClear _ _ _) => True
  | _ => False
  end.
Lemma settled_expected p h d : settled p -> expected p h d = (h, d).
Proof. by destruct p as [[]|]. Qed.

Lemma held_abs s t d : mtx (mx s) = Some (t, d) -> 1 <= d -> pending (mpcs s !! t) = 0 -> held_by (abs_mutex s) t = d.
Proof.
  intros Hm Hd Hp. unfold abs_mutex. rewrite Hm, Hp, Z.sub_0_r. unfold give. rewrite (proj2 (Z.eqb_neq d 0)) by lia. cbn. by rewrite Z.eqb_refl.
Qed.
Lemma not_held_abs s t : (forall d, mtx (mx s) <> Some (t, d)) -> held_by (abs_mutex s) t = 0.
Proof.
  intros Hn. unfold abs_mutex. destruct (mtx (mx s)) as [[h d]|]; [|done]. unfold give. destruct (_ =? 0); [done|]. cbn.
  destruct (Z.eqb_spec h t) as [->|]; [|done]. by destruct (Hn d).
Qed.

(** * Steps *)

(** A step of [t] to [m'] and [q] (or out of the function) keeps the invariant when
    it does so for [t] and leaves the others' view alone. *)
Lemma keep_ok s t m' q : m_ok s -> t <> 0 ->
  (mtx m' = None -> owner_thread m' = 0 /\ lock_count m' = 0) ->
  (forall h d, mtx m' = Some (h, d) -> h <> 0 /\ 1 <= d /\
     (owner_thread m', lock_count m') = expected (if decide (h = t) then q else mpcs s !! h) h d /\
     holder_at (if decide (h = t) then q else mpcs s !! h) d) ->
  (forall p, q = Some p -> result_ok p /\ ((forall d, mtx m' <> Some (t, d)) -> waiter_at p)) ->
  (forall h d, mtx (mx s) = Some (h, d) -> h = t \/ mtx m' = Some (h, d)) ->
  m_ok {| mx := m'; mpcs := partial_alter (fun _ => q) t (mpcs s) |}.
Proof.
  intros [H1 H2 H3] Ht Hf Hh Hq Hlost. constructor; cbn.
  - done.
  - intros h d Hm. destruct (Hh h d Hm) as (A & B & C & D). destruct (decide (h = t)) as [->|Hne].
    + by rewrite lookup_partial_alter_eq.
    + by rewrite lookup_partial_alter_ne.
  - intros u p Hu. destruct (decide (u = t)) as [->|Hne].
    + rewrite lookup_partial_alter_eq in Hu. destruct (Hq p Hu). done.
    + rewrite lookup_partial_alter_ne in Hu by done. destruct (H3 u p Hu) as (A & B & C). split_and!; [done..|].
      intros Hn. apply C. intros d Hd. destruct (Hlost u d Hd) as [|Hd']; [done|by apply (Hn d)].
Qed.

(** What another thread's abstract hold is does not depend on [t]. *)
Lemma abs_other s t m' q : mtx m' = mtx (mx s) -> (forall d, mtx (mx s) = Some (t, d) -> pending q = pending (mpcs s !! t)) ->
  abs_mutex {| mx := m'; mpcs := partial_alter (fun _ => q) t (mpcs s) |} = abs_mutex s.
Proof.
  intros Em Hp. unfold abs_mutex. cbn. rewrite Em. destruct (mtx (mx s)) as [[h d]|]; [|done]. destruct (decide (h = t)) as [->|Hne].
  - by rewrite lookup_partial_alter_eq, (Hp d).
  - by rewrite lookup_partial_alter_ne.
Qed.

Definition has (s : msys) (t d : Z) : Prop := mtx (mx s) = Some (t, d).
Lemma has_dec s t : (exists d, has s t d) \/ (forall d, mtx (mx s) <> Some (t, d)).
Proof.
  unfold has. destruct (mtx (mx s)) as [[h d]|]; [|by right]. destruct (decide (h = t)) as [->|Hne]; [left; by exists d|right; congruence].
Qed.

(** Where the thread moves and how the atomics change, with the state after it. *)
Definition after (s : msys) (t : Z) (m' : HostMutex) (q : option mpc) : msys :=
  {| mx := m'; mpcs := partial_alter (fun _ => q) t (mpcs s) |}.

(** [t] moves without touching the mutex. *)
Lemma move_ok s t q : m_ok s -> t <> 0 ->
  (forall d, has s t d -> expected q t d = expected (mpcs s !! t) t d /\ holder_at q d /\ pending q = pending (mpcs s !! t)) ->
  (forall p, q = Some p -> result_ok p /\ ((forall d, ~ has s t d) -> waiter_at p)) ->
  m_ok (after s t (mx s) q) /\ abs_mutex (after s t (mx s) q) = abs_mutex s.
Proof.
  intros Hok Ht Hd Hq. split; [|apply abs_other; [done|]; intros d Hm; by apply (Hd d)].
  apply keep_ok; auto; [apply Hok|]. intros h d Hm. destruct (mo_held _ Hok h d Hm) as (A & B & C & D).
  destruct (decide (h = t)) as [->|]; [|done]. destruct (Hd d Hm) as (E1 & E2 & _). by rewrite E1.
Qed.

(** The thread that has the host mutex writes the atomics. *)
Lemma write_ok s t d m' q : m_ok s -> t <> 0 -> has s t d -> mtx m' = Some (t, d) ->
  (owner_thread m', lock_count m') = expected q t d -> holder_at q d -> (forall p, q = Some p -> result_ok p) -> m_ok (after s t m' q).
Proof.
  intros Hok Ht Hd Em He Hh Hr. destruct (mo_held _ Hok t d Hd) as (A & B & _ & _). apply keep_ok; auto.
  - congruence.
  - intros h d' Hm. assert (h = t /\ d' = d) as [-> ->] by (split; congruence). by rewrite decide_True.
  - intros p Hp. split; [by apply Hr|]. intros Hn. by destruct (Hn d).
  - intros h d' Hm. left. unfold has in Hd. congruence.
Qed.

(** It takes the host mutex once more, or for the first time. *)
Lemma take_ok s t m' q : m_ok s -> t <> 0 -> host_lock (mx s) t = Some m' ->
  (forall d, has s t d \/ (d = 0 /\ mtx (mx s) = None) ->
     (owner_thread (mx s), lock_count (mx s)) = expected q t (d + 1) /\ holder_at q (d + 1)) ->
  (forall p, q = Some p -> result_ok p) ->
  m_ok (after s t m' q) /\ (exists d, mtx m' = Some (t, d + 1) /\ (has s t d \/ (d = 0 /\ mtx (mx s) = None))).
Proof.
  intros Hok Ht Hl He Hr. unfold host_lock in Hl.
  assert (exists d, m' = (mx s) <| mtx := Some (t, d + 1) |> /\ (has s t d \/ (d = 0 /\ mtx (mx s) = None))) as (d & -> & Hd).
  { unfold has. destruct (mtx (mx s)) as [[h d]|].
    - destruct (Z.eqb_spec h t) as [->|]; [|done]. injection Hl as <-. exists d. auto.
    - injection Hl as <-. exists 0. auto. }
  split; [|by exists d]. destruct (He d Hd) as [E1 E2].
  assert (0 <= d) by (destruct Hd as [Hd|[-> _]]; [destruct (mo_held _ Hok t d Hd) as (_ & ? & _)|]; lia).
  apply keep_ok; auto; cbn.
  - done.
  - intros h d' [= <- <-]. rewrite decide_True by done. split_and!; [done|lia|done|done].
  - intros p Hp. split; [by apply Hr|]. intros Hn. by destruct (Hn (d + 1)).
  - intros h d' Hm. left. destruct Hd as [Hd|[_ Hd]]; unfold has in *; congruence.
Qed.

(** It gives a level back. *)
Lemma drop_ok s t d q : m_ok s -> t <> 0 -> has s t d ->
  (d = 1 -> owner_thread (mx s) = 0 /\ lock_count (mx s) = 0 /\ forall p, q = Some p -> waiter_at p) ->
  (1 < d -> (owner_thread (mx s), lock_count (mx s)) = expected q t (d - 1) /\ holder_at q (d - 1)) ->
  (forall p, q = Some p -> result_ok p) ->
  exists m', host_unlock (mx s) t = Some m' /\ m_ok (after s t m' q) /\ mtx m' = give t (d - 1).
Proof.
  intros Hok Ht Hd H1 H2 Hr. destruct (mo_held _ Hok t d Hd) as (A & B & _ & _). unfold host_unlock. rewrite Hd, Z.eqb_refl.
  eexists. split; [done|]. unfold give. replace (d - 1 =? 0) with (d =? 1) by (destruct (Z.eqb_spec d 1), (Z.eqb_spec (d - 1) 0); done || lia).
  split; [|done]. apply keep_ok; auto; cbn; destruct (Z.eqb_spec d 1) as [->|Hn1]; try done.
  - intros _. by destruct (H1 eq_refl) as (? & ? & _).
  - intros h d' [= <- <-]. rewrite decide_True by done. destruct (H2 ltac:(lia)) as [? ?]. split_and!; [done|lia|done|done].
  - intros p Hp. split; [by apply Hr|]. intros _. destruct (H1 eq_refl) as (_ & _ & Hw). by apply Hw.
  - intros p Hp. split; [by apply Hr|]. intros Hn. by destruct (Hn (d - 1)).
  - intros h d' Hm. left. unfold has in Hd. congruence.
  - intros h d' Hm. left. unfold has in Hd. congruence.
Qed.

(** * Every function *)

(** What a step of [t] in state [s] at [p] must establish. *)
Definition next_good (s : msys) (t : Z) (p : mpc) (r : mres) : Prop :=
  match r with
  | Go m' q => m_ok (after s t m' (Some q)) /\
      am_step (abs_mutex s) (if is_sleep p q then MSlept t (held_of p) else MTau) (abs_mutex (after s t m' (Some q)))
  | Return m' r => m_ok (after s t m' None) /\
      am_step (abs_mutex s) (MReturned t (fun_of p) r) (abs_mutex (after s t m' None))
  | Blocked => True
  | Undefined => False
  end.

(** The facts every case starts from. *)
Lemma at_pc s t p : m_ok s -> mpcs s !! t = Some p -> t <> 0 /\ result_ok p /\
  (forall d, has s t d -> 1 <= d /\ (owner_thread (mx s), lock_count (mx s)) = expected (Some p) t d /\ holder_at (Some p) d) /\
  ((forall d, ~ has s t d) -> waiter_at p).
Proof.
  intros Hok Hp. destruct (mo_other _ Hok t p Hp) as (A & B & C). split_and!; auto. intros d Hd.
  destruct (mo_held _ Hok t d Hd) as (_ & ? & ? & ?). by rewrite <- Hp.
Qed.

(** [t] moves on, or returns, without touching the mutex. *)
Lemma go_same s t p q : m_ok s -> mpcs s !! t = Some p -> is_sleep p q = false -> result_ok q ->
  (forall d, has s t d -> expected (Some q) t d = expected (Some p) t d /\ holder_at (Some q) d /\ pending (Some q) = pending (Some p)) ->
  ((forall d, ~ has s t d) -> waiter_at q) -> next_good s t p (Go (mx s) q).
Proof.
  intros Hok Hp Hs Hr Hd Hw. destruct (at_pc s t p Hok Hp) as (Ht & _). cbn. rewrite Hs.
  destruct (move_ok s t (Some q)) as [H1 ->]; auto; [|intros ? [= <-]; by split|by split; [|constructor]].
  intros d Hh. rewrite Hp. auto.
Qed.
Lemma return_same s t p r : m_ok s -> mpcs s !! t = Some p -> settled (Some p) ->
  am_step (abs_mutex s) (MReturned t (fun_of p) r) (abs_mutex s) -> next_good s t p (Return (mx s) r).
Proof.
  intros Hok Hp Hs Ha. destruct (at_pc s t p Hok Hp) as (Ht & _). cbn.
  destruct (move_ok s t None) as [H1 ->]; auto; [|done].
  intros d Hh. rewrite Hp, (settled_expected (Some p)) by done. split_and!; [done..|]. by destruct p.
Qed.

(** A settled thread holds what it has of the host mutex. *)
Lemma settled_held s t p d : m_ok s -> mpcs s !! t = Some p -> settled (Some p) -> has s t d ->
  owner_thread (mx s) = t /\ lock_count (mx s) = d /\ held_by (abs_mutex s) t = d.
Proof.
  intros Hok Hp Hs Hd. destruct (at_pc s t p Hok Hp) as (_ & _ & H & _). destruct (H d Hd) as (H1 & H2 & _).
  rewrite settled_expected in H2 by done. injection H2 as -> ->. split_and!; auto. apply held_abs; [done..|]. rewrite Hp. by destruct p.
Qed.

(** Taking the host mutex on the way to a successful lock. *)
Lemma go_take s t p m' q : m_ok s -> mpcs s !! t = Some p -> settled (Some p) -> is_sleep p q = false ->
  host_lock (mx s) t = Some m' -> pending (Some q) = 1 -> result_ok q ->
  (forall d, 1 <= d -> expected (Some q) t (d + 1) = (t, d) /\ holder_at (Some q) (d + 1)) ->
  (mtx (mx s) = None -> expected (Some q) t 1 = (0, 0) /\ holder_at (Some q) 1) -> next_good s t p (Go m' q).
Proof.
  intros Hok Hp Hs Hsl Hl Hpe Hr He H0. destruct (at_pc s t p Hok Hp) as (Ht & _ & Hh & _). cbn. rewrite Hsl.
  destruct (take_ok s t m' (Some q)) as [H1 (d & Hm' & Hd)]; auto; [|by intros ? [= <-]|].
  - intros d [Hd|[-> Hm]].
    + destruct (Hh d Hd) as (D & E & _). rewrite settled_expected in E by done. rewrite E. destruct (He d D) as [-> ?]. done.
    + destruct (mo_free _ Hok Hm) as [-> ->]. change (0 + 1) with 1. destruct (H0 Hm) as [-> ?]. done.
  - split; [done|]. replace (abs_mutex (after s t m' (Some q))) with (abs_mutex s); [constructor|].
    unfold abs_mutex, after. cbn [mx mpcs]. rewrite Hm', lookup_partial_alter_eq, Hpe. replace (d + 1 - 1) with d by lia.
    destruct Hd as [Hd|[-> ->]]; [|done]. rewrite Hd, Hp. replace (pending (Some p)) with 0 by (by destruct p). by rewrite Z.sub_0_r.
Qed.

(** The last step of a successful lock. *)
Lemma return_locked s t p d b m' : m_ok s -> mpcs s !! t = Some p -> pending (Some p) = 1 -> fun_of p = FLock b -> has s t d ->
  mtx m' = Some (t, d) -> owner_thread m' = t -> lock_count m' = d -> next_good s t p (Return m' 0).
Proof.
  intros Hok Hp Hpe Hf Hd Hm Ho Hc. destruct (at_pc s t p Hok Hp) as (Ht & _ & Hh & _). destruct (Hh d Hd) as (D & _). cbn. rewrite Hf. split.
  - apply (write_ok s t d); auto; [cbn; by rewrite Ho, Hc|done..].
  - replace (abs_mutex (after s t m' None)) with (Some (t, held_by (abs_mutex s) t + 1)).
    + apply AmLock. intros h n. unfold abs_mutex. rewrite Hd. unfold give. destruct (_ =? 0); [done|congruence].
    + unfold abs_mutex, after. cbn [mx mpcs]. rewrite Hm, Hd, lookup_partial_alter_eq, Hp, Hpe. cbn. unfold give.
      rewrite Z.sub_0_r, (proj2 (Z.eqb_neq d 0)) by lia. destruct (Z.eqb_spec (d - 1) 0); cbn; [|rewrite Z.eqb_refl]; do 2 f_equal; lia.
Qed.

(** The thread that has the host mutex writes the atomics and goes on. *)
Lemma go_write s t p q d m' : m_ok s -> mpcs s !! t = Some p -> has s t d -> mtx m' = mtx (mx s) -> is_sleep p q = false ->
  (owner_thread m', lock_count m') = expected (Some q) t d -> holder_at (Some q) d -> result_ok q ->
  pending (Some q) = pending (Some p) -> next_good s t p (Go m' q).
Proof.
  intros Hok Hp Hd Hm Hs He Hh Hr Hpe. destruct (at_pc s t p Hok Hp) as (Ht & _). cbn. rewrite Hs. split.
  - apply (write_ok s t d); auto; [by rewrite Hm|by intros ? [= <-]].
  - unfold after. rewrite abs_other; [constructor|done|]. intros d' _. by rewrite Hp.
Qed.

(** A thread past the tests has the host mutex. *)
Lemma must_have s t p : m_ok s -> mpcs s !! t = Some p -> ~ waiter_at p -> exists d, has s t d /\ 1 <= d /\
  (owner_thread (mx s), lock_count (mx s)) = expected (Some p) t d /\ holder_at (Some p) d.
Proof.
  intros Hok Hp Hn. destruct (at_pc s t p Hok Hp) as (_ & _ & Hh & Hw). destruct (has_dec s t) as [[d Hd]|Hno]; [|by destruct (Hn (Hw Hno))].
  exists d. destruct (Hh d Hd) as (? & ? & ?). done.
Qed.

Lemma deadline_codes clocks abstime clockid e : clocks_documented clocks -> prepare_rwlock_deadline clocks abstime clockid = inr e ->
  e <> 0 /\ e <> EDEADLK_ /\ e <> EPERM_.
Proof.
  intros Hd. unfold prepare_rwlock_deadline, get_clock_now_ns. destruct abstime as [ts|]; [|done].
  destruct (negb _); [by intros [= <-]|]. destruct (timespec_to_ns ts); [|by intros [= <-]].
  destruct (clocks clockid) as [now|errno] eqn:Hc.
  - destruct (timespec_to_ns now); [|by intros [= <-]]. destruct (_ <=? _); [by intros [= <-]|done].
  - intros [= <-]. by destruct (Hd _ _ Hc) as [-> | ->].
Qed.

Ltac settle := try done; try (intros; by split_and!).

(** The acquisition, by a thread that has been settled until now. *)
Lemma lock_host_good s t p clocks choice k q b : m_ok s -> mpcs s !! t = Some p -> clocks_documented clocks -> settled (Some p) ->
  fun_of p = FLock b -> pending (Some q) = 1 -> result_ok q ->
  (forall d, 1 <= d -> expected (Some q) t (d + 1) = (t, d) /\ holder_at (Some q) (d + 1)) ->
  (mtx (mx s) = None -> expected (Some q) t 1 = (0, 0) /\ holder_at (Some q) 1) ->
  next_good s t p (lock_host clocks choice k (mx s) t q).
Proof.
  intros Hok Hp Hc Hs Hf Hpe Hr He H0. assert (Hsl : is_sleep p q = false) by (by destruct p).
  assert (Hret : forall r, r <> 0 -> r <> EDEADLK_ -> next_good s t p (Return (mx s) r)).
  { intros r R1 R2. apply return_same; auto. rewrite Hf. by apply AmNotLocked. }
  assert (Htake : forall o, o = Blocked \/ (exists r, o = Return (mx s) r /\ r <> 0 /\ r <> EDEADLK_) ->
    next_good s t p (match host_lock (mx s) t with Some m' => Go m' q | None => o end)).
  { intros o Ho. destruct (host_lock (mx s) t) eqn:Hl; [by apply go_take|]. destruct Ho as [->|(r & -> & ? & ?)]; [done|by apply Hret]. }
  unfold lock_host. destruct k as [| |clockid [ts|]].
  - apply Htake. by left.
  - destruct choice; [by apply Hret|]. apply Htake. right. by exists EBUSY_.
  - destruct (prepare_rwlock_deadline _ _ _) as [d|e] eqn:Hd.
    + destruct choice; [by apply Hret|]. apply Htake. by left.
    + destruct (deadline_codes _ _ _ _ Hc Hd) as (? & ? & _). by apply Hret.
  - apply Htake. by left.
Qed.

Lemma lock_again_good s t clocks k : m_ok s -> mpcs s !! t = Some (LockCount k) -> clocks_documented clocks ->
  next_good s t (LockCount k) (lock_again clocks k (mx s)).
Proof.
  intros Hok Hp Hc. destruct (must_have s t _ Hok Hp) as (d & Hd & H1 & _); [by intros []|].
  destruct (settled_held s t _ d Hok Hp I Hd) as (_ & _ & Hh).
  assert (Hf : exists b, fun_of (LockCount k) = FLock b) by (destruct k; by eexists). destruct Hf as [b Hf].
  assert (Hdead : next_good s t (LockCount k) (Return (mx s) EDEADLK_)).
  { apply return_same; [done..|]. rewrite Hf. apply AmDeadlock. lia. }
  assert (Hret : forall r, r <> 0 -> r <> EDEADLK_ -> next_good s t (LockCount k) (Return (mx s) r)).
  { intros r R1 R2. apply return_same; [done..|]. rewrite Hf. by apply AmNotLocked. }
  assert (Hno : (forall d, ~ has s t d) -> False) by (intros Hn; by apply (Hn d)).
  unfold lock_again. destruct (_ =? PTHREAD_MUTEX_RECURSIVE); [apply go_same; auto; settle; by intros ?%Hno|].
  destruct k as [| |clockid abstime].
  - destruct (_ =? _); [done|]. apply go_same; auto; settle.
  - destruct (_ && _); [done|by apply Hret].
  - destruct (_ =? _); [done|]. destruct abstime as [ts|]; [|done]. destruct (prepare_rwlock_deadline _ _ _) eqn:Hpd; [by apply Hret|].
    destruct (deadline_codes _ _ _ _ Hc Hpd) as (? & ? & _). by apply Hret.
Qed.

Definition is_lock_pc (p : mpc) : bool :=
  match p with LockOwner _ | LockCount _ | LockRec _ | LockRecCount | LockHost _ | LockStore | LockInc => true | _ => false end.
Definition is_unlock_pc (p : mpc) : bool :=
  match p with UnlockCount | UnlockOwner | UnlockDec | UnlockLoad | UnlockClear | UnlockHost => true | _ => false end.

Lemma lock_good s t p clocks choice : m_ok s -> mpcs s !! t = Some p -> clocks_documented clocks -> is_lock_pc p = true ->
  next_good s t p (mutex_next clocks choice (mx s) t p).
Proof.
  intros Hok Hp Hc Hk. destruct (at_pc s t p Hok Hp) as (Ht & _). destruct p; try done; cbn [mutex_next].
  - destruct (Z.eqb_spec (owner_thread (mx s)) t) as [Ho|]; apply go_same; auto; settle.
    destruct (owner_has s t Hok Ht Ho) as [d Hd]. intros Hn. by destruct (Hn d).
  - destruct (0 <? _); [by apply lock_again_good|]. apply go_same; auto; settle.
  - destruct (must_have s t _ Hok Hp) as (d & Hd & _); [by intros []|].
    assert (Hn : mtx (mx s) = None -> False) by (unfold has in Hd; congruence).
    assert (He : forall d, 1 <= d -> expected (Some LockRecCount) t (d + 1) = (t, d) /\ holder_at (Some LockRecCount) (d + 1))
      by (intros x Hx; split; [cbn; f_equal; lia|done]).
    destruct k; eapply lock_host_good; eauto; try done; by intros ?%Hn.
  - destruct (must_have s t _ Hok Hp) as (d & Hd & _ & [= E1 E2] & _); [by intros []|]. apply (return_locked s t _ d false); auto; cbn; [done..|lia].
  - assert (He : forall d, 1 <= d -> expected (Some LockStore) t (d + 1) = (t, d) /\ holder_at (Some LockStore) (d + 1)).
    { intros x Hx. cbn. rewrite (proj2 (Z.eqb_neq _ 1)) by lia. split; [f_equal; lia|done]. }
    destruct k; eapply lock_host_good; eauto; done.
  - destruct (must_have s t _ Hok Hp) as (d & Hd & _ & E & _); [by intros []|]. apply (go_write s t _ _ d); auto; try done. cbn. f_equal.
    revert E. cbn. destruct (Z.eqb_spec d 1); intros [= _ ->]; lia.
  - destruct (must_have s t _ Hok Hp) as (d & Hd & _ & [= E1 E2] & _); [by intros []|]. apply (return_locked s t _ d false); auto; cbn; [done..|lia].
Qed.

(** Giving a level back: the event it is and what remains. *)
Lemma abs_after_drop s t d m' q : mtx m' = give t (d - 1) -> pending q = 0 -> abs_mutex (after s t m' q) = give t (d - 1).
Proof.
  intros Hm Hq. unfold abs_mutex, after. cbn [mx mpcs]. rewrite Hm. unfold give. destruct (Z.eqb_spec (d - 1) 0) as [|Hne]; [done|].
  rewrite lookup_partial_alter_eq, Hq, Z.sub_0_r. by rewrite (proj2 (Z.eqb_neq _ 0) Hne).
Qed.
Lemma abs_held s t d : m_ok s -> has s t d -> pending (mpcs s !! t) = 0 -> abs_mutex s = Some (t, d).
Proof.
  intros Hok Hd Hp. destruct (mo_held _ Hok t d Hd) as (_ & H1 & _). unfold abs_mutex. rewrite Hd, Hp, Z.sub_0_r. unfold give.
  by rewrite (proj2 (Z.eqb_neq d 0)) by lia.
Qed.

Lemma unlock_next_good s t p clocks choice : m_ok s -> mpcs s !! t = Some p -> is_unlock_pc p = true ->
  next_good s t p (mutex_next clocks choice (mx s) t p).
Proof.
  intros Hok Hp Hk. destruct (at_pc s t p Hok Hp) as (Ht & _ & Hh & _). destruct p; try done; cbn [mutex_next].
  - destruct (Z.leb_spec (lock_count (mx s)) 0) as [Hle|]; [|apply go_same; auto; settle].
    apply return_same; [done..|]. apply AmNotOwner, not_held_abs. intros d Hd.
    destruct (settled_held s t _ d Hok Hp I Hd) as (_ & ? & _). destruct (Hh d Hd) as (? & _). lia.
  - destruct (Z.eqb_spec (owner_thread (mx s)) t) as [Ho|Hne]; cbn [negb].
    + destruct (owner_has s t Hok Ht Ho) as [d Hd]. apply go_same; auto; settle. intros Hn. by destruct (Hn d).
    + apply return_same; [done..|]. apply AmNotOwner, not_held_abs. intros d Hd.
      by destruct (settled_held s t _ d Hok Hp I Hd) as (? & _).
  - destruct (must_have s t _ Hok Hp) as (d & Hd & _ & [= E1 E2] & _); [by intros []|].
    apply (go_write s t _ _ d); auto; try done. cbn. f_equal; lia.
  - destruct (must_have s t _ Hok Hp) as (d & Hd & H1 & [= E1 E2] & _); [by intros []|].
    assert (Hno : (forall d, ~ has s t d) -> False) by (intros Hn; by apply (Hn d)).
    destruct (Z.eqb_spec (lock_count (mx s)) 0) as [H0|H0]; apply go_same; auto; try done; try (by intros ?%Hno); intros d' Hd';
      assert (d' = d) as -> by (unfold has in *; congruence); cbn; split_and!; try done; try (f_equal; lia); try lia.
    rewrite (proj2 (Z.eqb_neq d 1)) by lia. done.
  - destruct (must_have s t _ Hok Hp) as (d & Hd & _ & [= E1 E2] & Hd1); [by intros []|]. cbn in Hd1. subst d.
    apply (go_write s t _ _ 1); auto; try done. cbn. by rewrite E2.
  - destruct (must_have s t _ Hok Hp) as (d & Hd & H1 & E & _); [by intros []|]. cbn in E.
    destruct (drop_ok s t d None) as (m' & -> & Hok' & Hm'); auto; try done.
    + intros ->. injection E as -> ->. done.
    + intros Hlt. rewrite (proj2 (Z.eqb_neq d 1)) in E by lia. split; [exact E|done].
    + split; [done|]. rewrite (abs_after_drop s t d) by done. apply AmUnlock. apply (abs_held s t d); auto. by rewrite Hp.
Qed.

(** The relocking half of a wait. *)
Lemma relock_good s t held r : m_ok s -> mpcs s !! t = Some (Relock held r) ->
  next_good s t (Relock held r) (match host_lock (mx s) t with Some m' => Go m' (Restore true held r) | None => Blocked end).
Proof.
  intros Hok Hp. destruct (at_pc s t _ Hok Hp) as (Ht & _ & Hh & Hw). destruct (host_lock (mx s) t) as [m'|] eqn:Hl; [|done].
  destruct (take_ok s t m' (Some (Restore true held r))) as [H1 (d & Hm & Hd)]; auto; [|by intros ? [= <-]|].
  - intros d [Hd|[-> Hn]].
    + destruct (Hh d Hd) as (? & E & E2). cbn in E2. split; [exact E|cbn; lia].
    + destruct (mo_free _ Hok Hn) as [-> ->]. split; [done|]. cbn. apply Hw. intros d. unfold has. congruence.
  - cbn. split; [done|]. replace (abs_mutex (after s t m' _)) with (abs_mutex s); [constructor|].
    unfold abs_mutex, after. cbn [mx mpcs]. rewrite Hm, lookup_partial_alter_eq. cbn. replace (d + 1 - 1) with d by lia.
    destruct Hd as [Hd|[-> ->]]; [|done]. rewrite Hd, Hp. cbn. by rewrite Z.sub_0_r.
Qed.

Lemma wait_good s t p clocks choice : m_ok s -> mpcs s !! t = Some p -> clocks_documented clocks ->
  is_lock_pc p = false -> is_unlock_pc p = false -> next_good s t p (mutex_next clocks choice (mx s) t p).
Proof.
  intros Hok Hp Hc Hk1 Hk2. destruct (at_pc s t p Hok Hp) as (Ht & Hro & Hh & Hw). destruct p; try done; cbn [mutex_next].
  - destruct (negb _); [apply return_same; [done..|]; by apply AmNoWait|].
    destruct (Z.leb_spec (lock_count (mx s)) 0) as [Hle|].
    + apply return_same; [done..|]. apply AmNoWait; [done|]. intros _. apply not_held_abs. intros d Hd.
      destruct (settled_held s t _ d Hok Hp I Hd) as (_ & ? & _). destruct (Hh d Hd) as (? & _). lia.
    + apply go_same; auto; settle. intros d Hd. destruct (settled_held s t _ d Hok Hp I Hd) as (_ & ? & _). by split_and!.
  - destruct (Z.eqb_spec (owner_thread (mx s)) t) as [Ho|Hne]; cbn [negb].
    + destruct (owner_has s t Hok Ht Ho) as [d Hd]. apply go_same; auto; [|intros Hn; by destruct (Hn d)].
      intros d' Hd'. destruct (Hh d' Hd') as (_ & _ & ?). by split_and!.
    + apply return_same; [done..|]. apply AmNoWait; [done|]. intros _. apply not_held_abs. intros d Hd.
      by destruct (settled_held s t _ d Hok Hp I Hd) as (? & _).
  - destruct (must_have s t _ Hok Hp) as (d & Hd & _ & [= E1 E2] & E3); [by intros []|].
    apply (go_write s t _ _ d); auto; try done. cbn. by rewrite E2.
  - destruct (must_have s t _ Hok Hp) as (d & Hd & _ & [= E1 E2] & E3); [by intros []|].
    apply (go_write s t _ _ d); auto; try done. cbn. by rewrite E1.
  - destruct (must_have s t _ Hok Hp) as (d & Hd & H1 & [= E1 E2] & E3); [by intros []|]. cbn in E3. subst held.
    assert (Hno : (forall d, ~ has s t d) -> False) by (intros Hn; by apply (Hn d)).
    destruct (prepare_rwlock_deadline _ _ _) as [dl|e] eqn:Hpd.
    + destruct (drop_ok s t d (Some (Asleep d (match dl with Some _ => true | None => false end)))) as (m' & -> & Hok' & Hm'); auto.
      * intros ->. split_and!; [done..|]. by intros ? [= <-].
      * intros Hlt. split; [cbn; by rewrite E1, E2|done].
      * by intros ? [= <-].
      * split; [done|]. cbn [is_sleep held_of]. rewrite (abs_after_drop s t d) by done. apply AmSleep. apply (abs_held s t d); auto. by rewrite Hp.
    + destruct (deadline_codes _ _ _ _ Hc Hpd) as (? & _ & ?). apply go_same; [done..|by split| |by intros ?%Hno].
      intros d' Hd'. split_and!; [done| |done]. cbn. unfold has in *. congruence.
  - apply go_same; auto; try done. intros d Hd. destruct (Hh d Hd) as (_ & _ & ?). by split_and!.
  - by apply relock_good.
  - destruct (must_have s t _ Hok Hp) as (d & Hd & _ & [= E1 E2] & E3); [by intros []|].
    apply (go_write s t _ _ d); auto; try done; first [by destruct slept | cbn; by rewrite E2].
  - destruct (must_have s t _ Hok Hp) as (d & Hd & H1 & [= E1 E2] & E3); [by intros []|]. cbn in E3. subst held. cbn.
    set (m' := (mx s) <| lock_count := d |>). assert (Hm' : mtx m' = Some (t, d)) by exact Hd.
    assert (Ha : abs_mutex (after s t m' None) = Some (t, d)).
    { unfold abs_mutex, after. cbn [mx mpcs]. rewrite Hm', lookup_partial_alter_eq. cbn. rewrite Z.sub_0_r. unfold give. by rewrite (proj2 (Z.eqb_neq d 0)) by lia. }
    split; [apply (write_ok s t d); auto; cbn; by rewrite ?E1|]. rewrite Ha. destruct slept.
    + assert (Hb : abs_mutex s = give t (d - 1)) by (unfold abs_mutex; by rewrite Hd, Hp). apply AmWaited; rewrite Hb; unfold give.
      * intros h n. destruct (_ =? 0); [done|congruence].
      * destruct (Z.eqb_spec (d - 1) 0); cbn; [lia|]. by rewrite Z.eqb_refl.
    + rewrite <- (abs_held s t d); auto; [|by rewrite Hp]. destruct Hro as [R1 R2]. apply AmNoWait; [done|]. by intros ?%R2.
Qed.

Lemma next_ok s t p clocks choice : m_ok s -> mpcs s !! t = Some p -> clocks_documented clocks ->
  next_good s t p (mutex_next clocks choice (mx s) t p).
Proof.
  intros Hok Hp Hc. destruct (is_lock_pc p) eqn:H1; [by apply lock_good|]. destruct (is_unlock_pc p) eqn:H2; [by apply unlock_next_good|].
  by apply wait_good.
Qed.

Lemma call_ok s t p : m_ok s -> t <> 0 -> mpcs s !! t = None -> entry p = true ->
  m_ok (after s t (mx s) (Some p)) /\ abs_mutex (after s t (mx s) (Some p)) = abs_mutex s.
Proof.
  intros Hok Ht Hp He. apply move_ok; auto.
  - intros d _. rewrite Hp. by destruct p.
  - intros ? [= <-]. by destruct p.
Qed.

Lemma m_step_ok s e s' : m_step s e s' -> m_ok s -> m_ok s' /\ am_step (abs_mutex s) e (abs_mutex s').
Proof.
  intros Hs Hok. destruct Hs as [s t p Ht Hp He|s t p clocks choice m' q Hp Hc Hn|s t p clocks choice m' r Hp Hc Hn].
  - destruct (call_ok s t p Hok Ht Hp He) as [H1 H2]. split; [exact H1|]. change (am_step (abs_mutex s) MCalled (abs_mutex (after s t (mx s) (Some p)))).
    rewrite H2. constructor.
  - pose proof (next_ok s t p clocks choice Hok Hp Hc) as H. by rewrite Hn in H.
  - pose proof (next_ok s t p clocks choice Hok Hp Hc) as H. by rewrite Hn in H.
Qed.

Lemma m_run_ok type prot psh tr s : m_run (m_init type prot psh) tr s -> m_ok s /\ am_run None tr (abs_mutex s).
Proof.
  intros Hr. remember (m_init type prot psh) as s0 eqn:E0. induction Hr as [s|s tr s1 e s2 Hr IH Hs]; subst.
  - split; [constructor; cbn; done|constructor].
  - destruct (IH eq_refl) as [Hok Ha]. destruct (m_step_ok _ _ _ Hs Hok) as [H1 H2]. split; [done|]. by econstructor.
Qed.

(** * The claims *)

(** C7: A mutex of the native mode is a mutex. Whatever the interleaving of the
    accesses to its atomics and to the host mutex under it, the results its callers
    see form a run of the abstract mutex: a lock succeeds only while nobody else
    holds it, unlocking takes back one level and is refused to everybody but the
    holder, deadlock is reported only to the holder, a wait gives a level up while
    it sleeps and has it back when it returns.  No thread ever unlocks the host
    mutex without owning it. *)
Theorem mutex_refines type prot psh tr s : m_run (m_init type prot psh) tr s ->
  am_run None tr (abs_mutex s) /\
  (forall t p clocks choice, mpcs s !! t = Some p -> clocks_documented clocks ->
     mutex_next clocks choice (mx s) t p <> Undefined).
Proof.
  intros Hr. destruct (m_run_ok type prot psh tr s Hr) as [Hok Ha]. split; [done|]. intros t p clocks choice Hp Hc Hu.
  pose proof (next_ok s t p clocks choice Hok Hp Hc) as H. by rewrite Hu in H.
Qed.

(** A thread that waits with the mutex held more than once keeps the host mutex. *)
Lemma asleep_owner s t held timed : m_ok s -> mpcs s !! t = Some (Asleep held timed) -> held <> 1 ->
  mtx (mx s) = Some (t, held - 1).
Proof.
  intros Hok Hp Hh. destruct (has_dec s t) as [[d Hd]|Hno].
  - destruct (mo_held _ Hok t d Hd) as (_ & _ & _ & E). rewrite Hp in E. cbn in E. by rewrite E.
  - destruct (mo_other _ Hok t _ Hp) as (_ & _ & Hw). by destruct (Hh (Hw Hno)).
Qed.

(** A wait with the mutex locked twice does not let go of it. As long as the
    thread sleeps nobody else can lock the mutex: a lock blocks, a trylock is
    refused, although the owner and the count read as if it were free. *)
Theorem nested_wait_keeps_mutex type prot psh tr s t held timed u clocks :
  m_run (m_init type prot psh) tr s -> mpcs s !! t = Some (Asleep held timed) -> held <> 1 -> u <> t ->
  owner_thread (mx s) = 0 /\ lock_count (mx s) = 0 /\
  mutex_next clocks false (mx s) u (LockHost KLock) = Blocked /\
  mutex_next clocks false (mx s) u (LockHost KTry) = Return (mx s) EBUSY_.
Proof.
  intros Hr Hp Hh Hu. destruct (m_run_ok type prot psh tr s Hr) as [Hok _]. pose proof (asleep_owner s t held timed Hok Hp Hh) as Hm.
  destruct (mo_held _ Hok _ _ Hm) as (_ & _ & E & _). rewrite Hp in E. injection E as E1 E2. split_and!; [done..| |].
  all: cbn; unfold host_lock; rewrite Hm; by rewrite (proj2 (Z.eqb_neq t u)) by congruence.
Qed.

(** * Witnesses *)

Definition no_deadline : clock_reading := fun _ => inl {| tv_sec := 0; tv_nsec := 0 |}.

(** Thread [t] runs on until it returns, sleeps or blocks. *)
Fixpoint run_thread (n : nat) (t : Z) (s : msys) : msys :=
  match n with
  | O => s
  | S n => match mpcs s !! t with
           | None | Some (Asleep _ _) => s
           | Some p => match mutex_next no_deadline false (mx s) t p with
                       | Go m q => run_thread n t (after s t m (Some q))
                       | Return m _ => after s t m None
                       | _ => s
                       end
           end
  end.

Definition start_call (t : Z) (p : mpc) (s : msys) : msys := after s t (mx s) (Some p).

Lemma run_thread_run n t s0 tr s : m_run s0 tr s -> exists tr', m_run s0 tr' (run_thread n t s).
Proof.
  revert tr s. induction n as [|n IH]; intros tr s Hr; [by exists tr|]. cbn [run_thread].
  destruct (mpcs s !! t) as [p|] eqn:Hp; [|by exists tr].
  assert (Hgo : exists tr', m_run s0 tr' (match mutex_next no_deadline false (mx s) t p with
    | Go m q => run_thread n t (after s t m (Some q)) | Return m _ => after s t m None | _ => s end)).
  { destruct (mutex_next _ _ _ _ _) as [m q|m r| |] eqn:Hn; try (by exists tr).
    - eapply IH, MRunSnoc; [exact Hr|]. by apply (MGo s t p no_deadline false m q).
    - eexists. eapply MRunSnoc; [exact Hr|]. by apply (MRet s t p no_deadline false m r). }
  destruct p; try exact Hgo. by exists tr.
Qed.

Lemma call_run n t p s0 tr s : m_run s0 tr s -> t <> 0 -> mpcs s !! t = None -> entry p = true ->
  exists tr', m_run s0 tr' (run_thread n t (start_call t p s)).
Proof. intros Hr Ht Hp He. eapply run_thread_run, MRunSnoc; [exact Hr|]. by apply (MCall s t p). Qed.

(** Thread 9 locks a recursive mutex twice and waits on a condition variable. *)
Definition demo_locked : msys := run_thread 20 9 (start_call 9 (LockOwner KLock) (m_init PTHREAD_MUTEX_RECURSIVE 0 0)).
Definition demo_twice : msys := run_thread 20 9 (start_call 9 (LockOwner KLock) demo_locked).
Definition demo_nested : msys := run_thread 20 9 (start_call 9 (WaitCount CLOCK_REALTIME None) demo_twice).

Lemma demo_nested_run : exists tr, m_run (m_init PTHREAD_MUTEX_RECURSIVE 0 0) tr demo_nested.
Proof.
  destruct (call_run 20 9 (LockOwner KLock) _ _ _ (MRunNil (m_init PTHREAD_MUTEX_RECURSIVE 0 0))) as [tr1 R1]; [done..|].
  destruct (call_run 20 9 (LockOwner KLock) _ _ _ R1) as [tr2 R2]; [done|by vm_compute|done|].
  destruct (call_run 20 9 (WaitCount CLOCK_REALTIME None) _ _ _ R2) as [tr3 R3]; [done|by vm_compute|done|]. by exists tr3.
Qed.

Lemma mutex_refines_witness : exists tr, am_run None tr (Some (9, 1)).
Proof.
  destruct demo_nested_run as [tr R]. destruct (mutex_refines _ _ _ _ _ R) as [H _]. exists tr. by vm_compute in H.
Defined.

Lemma nested_wait_keeps_mutex_witness :
  mpcs demo_nested !! 9 = Some (Asleep 2 false) /\ mutex_next no_deadline false (mx demo_nested) 7 (LockHost KLock) = Blocked.
Proof.
  split; [by vm_compute|]. destruct demo_nested_run as [tr R].
  destruct (nested_wait_keeps_mutex _ _ _ _ _ 9 2 false 7 no_deadline R) as (_ & _ & H & _); [by vm_compute|done|done|exact H].
Defined.
