(* ===== verification/NativeTls.v ===== *)
(** Thread-specific data and thread attributes of the native thread mode
    (src/src/hle/hle_pthread.cpp): pthread_key_create and the functions on keys,
    pthread_attr_* on the attribute block in guest memory, and the encodings of
    mutex and condition variable attributes.

    [kstate] adds the tables of thread-specific data to the state of a handler's
    thread.  [g_tls_free_keys] is a vector used as a stack, with its back first.
    [Emulator::mem_write] does not throw, so the handler of an exception in
    pthread_key_create is never entered. *)

From S2P Require Import Prelude Env MemoryManager MemorySpec Machine HostAccess Lift HleManager GuestCall Arm64 NativeThreads HostRwLock.

(** * Keys *)

Record TlsTables := {
  g_tls_destructors : gmap Z Z;
  g_tls_values : gmap Z (gmap Z Z);
  g_next_tls_key : Z;
  g_tls_live_keys : gset Z;
  g_tls_free_keys : list Z;
}.
Definition eta_tt (t : TlsTables) : TlsTables :=
  Build_TlsTables (g_tls_destructors t) (g_tls_values t) (g_next_tls_key t) (g_tls_live_keys t) (g_tls_free_keys t).
#[export] Instance set_g_tls_destructors : Setter g_tls_destructors := ltac:(build_setter eta_tt g_tls_destructors).
#[export] Instance set_g_tls_values : Setter g_tls_values := ltac:(build_setter eta_tt g_tls_values).
#[export] Instance set_g_next_tls_key : Setter g_next_tls_key := ltac:(build_setter eta_tt g_next_tls_key).
#[export] Instance set_g_tls_live_keys : Setter g_tls_live_keys := ltac:(build_setter eta_tt g_tls_live_keys).
#[export] Instance set_g_tls_free_keys : Setter g_tls_free_keys := ltac:(build_setter eta_tt g_tls_free_keys).

Definition new_tls_tables : TlsTables :=
  {| g_tls_destructors := ∅; g_tls_values := ∅; g_next_tls_key := 1; g_tls_live_keys := ∅; g_tls_free_keys := [] |}.

Definition GUEST_PTHREAD_KEYS_MAX : Z := 128.
Definition GUEST_PTHREAD_KEY_RESERVED_COUNT : Z := 16.
Definition GUEST_PTHREAD_DYNAMIC_KEY_LIMIT : Z := GUEST_PTHREAD_KEYS_MAX - GUEST_PTHREAD_KEY_RESERVED_COUNT.

Definition is_valid_tls_key_locked (key : Z) (t : TlsTables) : bool := negb (key =? 0) && bool_decide (key ∈ g_tls_live_keys t).

(** The critical section of pthread_key_create. *)
Definition take_key (destructor : Z) (t : TlsTables) : option Z * TlsTables :=
  let register key t := t <| g_tls_live_keys ::= union {[key]} |>
    <| g_tls_destructors ::= fun m => if destructor =? 0 then delete key m else <[key := destructor]> m |> in
  match g_tls_free_keys t with
  | key :: rest => (Some key, register key (t <| g_tls_free_keys := rest |>))
  | [] => let key := g_next_tls_key t in
          if (key =? 0) || (GUEST_PTHREAD_DYNAMIC_KEY_LIMIT <? key) ||
             (GUEST_PTHREAD_DYNAMIC_KEY_LIMIT <=? Z.of_nat (size (g_tls_live_keys t)))
          then (None, t)
          else (Some key, register key (t <| g_next_tls_key := key ⊕ 1 |>))
  end.

(** The critical section of pthread_key_delete, for a valid key. *)
Definition drop_key (key : Z) (t : TlsTables) : TlsTables :=
  t <| g_tls_live_keys ::= fun s => s ∖ {[key]} |> <| g_tls_free_keys ::= cons key |> <| g_tls_destructors ::= delete key |>
    <| g_tls_values ::= fmap (delete key) |>.

Definition get_value (thread_id key : Z) (t : TlsTables) : Z :=
  if is_valid_tls_key_locked key t
  then match g_tls_values t !! thread_id with Some vs => default 0 (vs !! key) | None => 0 end
  else 0.
Definition set_value (thread_id key value : Z) (t : TlsTables) : TlsTables :=
  t <| g_tls_values ::= fun m => <[thread_id := <[key := value]> (default ∅ (m !! thread_id))]> m |>.

(** * Attribute encodings *)

Definition GUEST_PTHREAD_PROCESS_PRIVATE : Z := 0.
Definition GUEST_PTHREAD_PROCESS_SHARED : Z := 1.
Definition is_valid_guest_pshared (p : Z) : bool := (p =? GUEST_PTHREAD_PROCESS_PRIVATE) || (p =? GUEST_PTHREAD_PROCESS_SHARED).
Definition is_valid_guest_cond_clock (c : Z) : bool := (c =? CLOCK_REALTIME) || (c =? CLOCK_MONOTONIC).
Definition is_valid_guest_mutex_type (t : Z) : bool := (t =? 0) || (t =? 1) || (t =? 2).
Definition is_valid_guest_mutex_protocol (p : Z) : bool := (p =? 0) || (p =? 1).

Definition encode_guest_condattr_value (clockid pshared : Z) : Z :=
  let raw := if pshared =? GUEST_PTHREAD_PROCESS_SHARED then Z.lor 0 1 else 0 in
  if clockid =? CLOCK_MONOTONIC then Z.lor raw 2 else raw.
Definition decode_guest_condattr_value (raw : Z) : Z * Z :=
  (if negb (Z.land raw 2 =? 0) then CLOCK_MONOTONIC else CLOCK_REALTIME,
   if negb (Z.land raw 1 =? 0) then GUEST_PTHREAD_PROCESS_SHARED else GUEST_PTHREAD_PROCESS_PRIVATE).

Definition encode_guest_mutexattr_value (type pshared protocol : Z) : Z :=
  Z.lor (Z.lor (Z.shiftl (Z.land type 0xff) 0) (Z.shiftl (Z.land pshared 0xff) 8)) (Z.shiftl (Z.land protocol 0xff) 16).
Definition decode_guest_mutexattr_value (raw : Z) : bool * (Z * Z * Z) :=
  let type := Z.land (Z.shiftr raw 0) 0xff in
  let pshared := Z.land (Z.shiftr raw 8) 0xff in
  let protocol := Z.land (Z.shiftr raw 16) 0xff in
  (is_valid_guest_mutex_type type && is_valid_guest_pshared pshared && is_valid_guest_mutex_protocol protocol, (type, pshared, protocol)).

(** Scheduling parameters of registered threads. *)
#[export] Instance set_g_main_policy : Setter g_main_thread_sched_policy := ltac:(build_setter eta_rg g_main_thread_sched_policy).
#[export] Instance set_g_main_priority : Setter g_main_thread_sched_priority := ltac:(build_setter eta_rg g_main_thread_sched_priority).
#[export] Instance set_q_policy : Setter q_sched_policy := ltac:(build_setter eta_qt q_sched_policy).
#[export] Instance set_q_priority : Setter q_sched_priority := ltac:(build_setter eta_qt q_sched_priority).

Section Handlers.
Context {E : Env} `{!HostAccess E} {HS : HostSched}.

Record kstate := { kn : nstate; kt : TlsTables }.
Implicit Types s : kstate.
Implicit Types n : nstate.

Definition get_current_tls_thread_id n : Z * nstate :=
  if negb (tl_virtual_tid_override n =? 0) then (tl_virtual_tid_override n, n)
  else
    let sp := X REG_SP n in
    if is_safe_call_stack_sp sp
    then let slot := safe_call_slot_from_sp sp in
         if slot =? 0
         then (if (tl_current_thread_id n =? 0) || (tl_current_thread_id n =? 1) then 0 else tl_current_thread_id n, n)
         else (SAFE_CALL_TID_BASE + slot, n)
    else let thread_id := get_thread_id_from_sp sp in
         (thread_id, n <| tl_current_thread_id := if thread_id =? 0 then 1 else thread_id |>).

Definition k_ret (v : Z) s : kstate := {| kn := set_X0 v (kn s); kt := kt s |}.

Definition pthread_key_create s : kstate :=
  let key_ptr := X 0 (kn s) in
  let destructor := X 1 (kn s) in
  if (key_ptr =? 0) || (key_ptr <? 0x1000) then k_ret EINVAL s
  else match take_key destructor (kt s) with
       | (None, t) => k_ret EAGAIN {| kn := kn s; kt := t |}
       | (Some key, t) => k_ret 0 {| kn := poke key_ptr (le_bytes 4 (u32 key)) (kn s); kt := t |}
       end.

Definition pthread_key_delete s : kstate :=
  let key := X 0 (kn s) in
  if negb (is_valid_tls_key_locked key (kt s)) then k_ret EINVAL s
  else k_ret 0 {| kn := kn s; kt := drop_key key (kt s) |}.

Definition pthread_getspecific s : kstate :=
  let key := X 0 (kn s) in
  let '(thread_id, n) := get_current_tls_thread_id (kn s) in
  k_ret (get_value thread_id key (kt s)) {| kn := n; kt := kt s |}.

Definition pthread_setspecific s : kstate :=
  let key := X 0 (kn s) in
  let value := X 1 (kn s) in
  let '(thread_id, n) := get_current_tls_thread_id (kn s) in
  if negb (is_valid_tls_key_locked key (kt s)) then k_ret EINVAL {| kn := n; kt := kt s |}
  else k_ret 0 {| kn := n; kt := set_value thread_id key value (kt s) |}.

(** * Thread attributes *)

Definition write_guest_pthread_attr_i32 (attr offset value : Z) n : nstate :=
  if attr =? 0 then n else poke (attr ⊕ offset) (le_bytes 4 value) n.
Definition write_guest_pthread_attr_u64 (attr offset value : Z) n : nstate :=
  if attr =? 0 then n else poke (attr ⊕ offset) (le_bytes 8 value) n.

Definition DETACHSTATE_OFFSET : Z := 0.
Definition STACKADDR_OFFSET : Z := 8.
Definition STACKSIZE_OFFSET : Z := 16.
Definition GUARDSIZE_OFFSET : Z := 24.
Definition INHERITSCHED_OFFSET : Z := 32.
Definition SCHEDPOLICY_OFFSET : Z := 36.
Definition SCHEDPRIORITY_OFFSET : Z := 40.
Definition SCOPE_OFFSET : Z := 44.
Definition GUEST_PTHREAD_ATTR_SIZE : Z := 64.
Definition GUEST_PTHREAD_STACK_MIN : Z := 16 * 1024.

Definition initialize_guest_pthread_attr (attr : Z) n : nstate :=
  if attr =? 0 then n
  else
    let n := poke attr (replicate (Z.to_nat GUEST_PTHREAD_ATTR_SIZE) 0) n in
    let n := write_guest_pthread_attr_i32 attr DETACHSTATE_OFFSET 0 n in
    let n := write_guest_pthread_attr_u64 attr STACKADDR_OFFSET 0 n in
    let n := write_guest_pthread_attr_u64 attr STACKSIZE_OFFSET GUEST_DEFAULT_PTHREAD_STACK_SIZE n in
    let n := write_guest_pthread_attr_u64 attr GUARDSIZE_OFFSET GUEST_DEFAULT_PTHREAD_GUARD_SIZE n in
    let n := write_guest_pthread_attr_i32 attr INHERITSCHED_OFFSET 0 n in
    let n := write_guest_pthread_attr_i32 attr SCHEDPOLICY_OFFSET SCHED_OTHER n in
    let n := write_guest_pthread_attr_i32 attr SCHEDPRIORITY_OFFSET 0 n in
    write_guest_pthread_attr_i32 attr SCOPE_OFFSET 0 n.

Definition read_guest_pthread_attr_detachstate (attr : Z) n : Z := read_guest_pthread_attr_i32 attr DETACHSTATE_OFFSET 0 n.

Definition pthread_attr_init n : nstate := set_X0 0 (initialize_guest_pthread_attr (X 0 n) n).
Definition pthread_attr_destroy n : nstate := set_X0 0 n.
Definition pthread_attr_setdetachstate n : nstate :=
  let detachstate := s32 (X 1 n) in
  if negb (detachstate =? 0) && negb (detachstate =? 1) then set_X0 EINVAL n
  else set_X0 0 (write_guest_pthread_attr_i32 (X 0 n) DETACHSTATE_OFFSET detachstate n).
Definition pthread_attr_getdetachstate n : nstate :=
  set_X0 0 (poke (X 1 n) (le_bytes 4 (read_guest_pthread_attr_detachstate (X 0 n) n)) n).
Definition pthread_attr_setstacksize n : nstate :=
  if X 1 n <? GUEST_PTHREAD_STACK_MIN then set_X0 EINVAL n
  else set_X0 0 (write_guest_pthread_attr_u64 (X 0 n) STACKSIZE_OFFSET (X 1 n) n).
Definition pthread_attr_getstacksize n : nstate :=
  set_X0 0 (poke (X 1 n) (le_bytes 8 (read_guest_pthread_attr_u64 (X 0 n) STACKSIZE_OFFSET GUEST_DEFAULT_PTHREAD_STACK_SIZE n)) n).
Definition pthread_attr_setguardsize n : nstate :=
  set_X0 0 (write_guest_pthread_attr_u64 (X 0 n) GUARDSIZE_OFFSET (X 1 n) n).
Definition pthread_attr_getguardsize n : nstate :=
  set_X0 0 (poke (X 1 n) (le_bytes 8 (read_guest_pthread_attr_u64 (X 0 n) GUARDSIZE_OFFSET GUEST_DEFAULT_PTHREAD_GUARD_SIZE n)) n).
Definition pthread_attr_setstack n : nstate :=
  let attr := X 0 n in
  let stackaddr := X 1 n in
  let stacksize := X 2 n in
  set_X0 0 (if attr =? 0 then n
            else write_guest_pthread_attr_u64 attr STACKSIZE_OFFSET stacksize (write_guest_pthread_attr_u64 attr STACKADDR_OFFSET stackaddr n)).
Definition pthread_attr_getstack n : nstate :=
  let stackaddr_ptr := X 1 n in
  let stacksize_ptr := X 2 n in
  let stackaddr := read_guest_pthread_attr_u64 (X 0 n) STACKADDR_OFFSET 0 n in
  let stacksize := read_guest_pthread_attr_u64 (X 0 n) STACKSIZE_OFFSET GUEST_DEFAULT_PTHREAD_STACK_SIZE n in
  let n1 := if stackaddr_ptr =? 0 then n else poke stackaddr_ptr (le_bytes 8 stackaddr) n in
  let n2 := if stacksize_ptr =? 0 then n1 else poke stacksize_ptr (le_bytes 8 stacksize) n1 in
  set_X0 0 n2.
Definition pthread_attr_getscope n : nstate :=
  set_X0 0 (poke (X 1 n) (le_bytes 4 (read_guest_pthread_attr_i32 (X 0 n) SCOPE_OFFSET 0 n)) n).
Definition pthread_attr_setinheritsched n : nstate :=
  let inheritsched := s32 (X 1 n) in
  if negb (inheritsched =? 1) && negb (inheritsched =? 0) then set_X0 EINVAL n
  else set_X0 0 (write_guest_pthread_attr_i32 (X 0 n) INHERITSCHED_OFFSET inheritsched n).
Definition pthread_attr_getinheritsched n : nstate :=
  set_X0 0 (poke (X 1 n) (le_bytes 4 (read_guest_pthread_attr_i32 (X 0 n) INHERITSCHED_OFFSET 0 n)) n).
Definition pthread_attr_setschedpolicy n : nstate :=
  set_X0 0 (write_guest_pthread_attr_i32 (X 0 n) SCHEDPOLICY_OFFSET (s32 (X 1 n)) n).
Definition pthread_attr_getschedpolicy n : nstate :=
  set_X0 0 (poke (X 1 n) (le_bytes 4 (read_guest_pthread_attr_i32 (X 0 n) SCHEDPOLICY_OFFSET SCHED_OTHER n)) n).

Definition read_guest_sched_priority (addr : Z) n : option Z :=
  if addr =? 0 then None
  else match gread addr 4 n with Some bs => Some (s32 (le_value bs)) | None => None end.
Definition write_guest_sched_priority (addr priority : Z) n : bool * nstate :=
  if addr =? 0 then (false, n) else gwrite addr (le_bytes 4 priority) n.

Definition pthread_attr_setschedparam n : nstate :=
  match read_guest_sched_priority (X 1 n) n with
  | None => set_X0 EINVAL n
  | Some p => set_X0 0 (write_guest_pthread_attr_i32 (X 0 n) SCHEDPRIORITY_OFFSET p n)
  end.
Definition pthread_attr_getschedparam n : nstate :=
  match write_guest_sched_priority (X 1 n) (read_guest_pthread_attr_i32 (X 0 n) SCHEDPRIORITY_OFFSET 0 n) n with
  | (false, n1) => set_X0 EINVAL n1
  | (true, n1) => set_X0 0 n1
  end.

(** * Scheduling parameters of a thread *)

Definition pthread_getschedparam n : nstate :=
  let thread := X 0 n in
  let policy_ptr := X 1 n in
  let param := X 2 n in
  if thread =? 0 then set_X0 ESRCH n
  else match get_live_thread_sched_locked thread (rg n) with
       | None => set_X0 ESRCH n
       | Some (policy, priority) =>
           let n1 := if policy_ptr =? 0 then n else poke policy_ptr (le_bytes 4 policy) n in
           match write_guest_sched_priority param priority n1 with
           | (false, n2) => set_X0 EINVAL n2
           | (true, n2) => set_X0 0 n2
           end
       end.

Definition pthread_setschedparam n : nstate :=
  let thread := X 0 n in
  let policy := s32 (X 1 n) in
  if thread =? 0 then set_X0 ESRCH n
  else match read_guest_sched_priority (X 2 n) n with
       | None => set_X0 EINVAL n
       | Some priority =>
           if negb (validate_sched_params policy priority) then set_X0 EINVAL n
           else if thread =? 1
           then set_X0 0 (n <| rg ::= fun r => r <| g_main_thread_sched_policy := policy |> <| g_main_thread_sched_priority := priority |> |>)
           else match g_threads (rg n) !! thread with
                | Some t => if q_completed t then set_X0 ESRCH n
                            else set_X0 0 (upd_qthread thread (fun t => t <| q_sched_policy := policy |> <| q_sched_priority := priority |>) n)
                | None => set_X0 ESRCH n
                end
       end.

Definition pthread_setschedprio n : nstate :=
  let thread := X 0 n in
  let priority := s32 (X 1 n) in
  if thread =? 0 then set_X0 ESRCH n
  else if thread =? 1
  then if negb (validate_sched_params (g_main_thread_sched_policy (rg n)) priority) then set_X0 EINVAL n
       else set_X0 0 (n <| rg ::= fun r => r <| g_main_thread_sched_priority := priority |> |>)
  else match g_threads (rg n) !! thread with
       | Some t => if q_completed t then set_X0 ESRCH n
                   else if negb (validate_sched_params (q_sched_policy t) priority) then set_X0 EINVAL n
                   else set_X0 0 (upd_qthread thread (fun t => t <| q_sched_priority := priority |>) n)
       | None => set_X0 ESRCH n
       end.
End Handlers.
