(* ===== verification/NativeTlsSpec.v ===== *)
(** Thread-specific data and attributes of the native thread mode: keys are handed
    out once, values belong to their thread and key; the attribute block is a
    record; and what a thread on a reused stack finds in its keys. *)

From S2P Require Import Prelude Env MemoryManager MemorySpec Machine HostAccess Lift GuestCall Arm64 NativeThreads NativeSpec HostRwLock NativeTls HleStringSpec.
From stdpp Require Import relations.
#[local] Open Scope Z_scope.

(** * Keys *)

Record tls_ok (t : TlsTables) : Prop := {
  tk_next : 1 <= g_next_tls_key t <= GUEST_PTHREAD_DYNAMIC_KEY_LIMIT + 1;
  tk_range k : k ∈ g_tls_live_keys t \/ k ∈ g_tls_free_keys t -> 1 <= k < g_next_tls_key t;
  tk_nodup : NoDup (g_tls_free_keys t);
  tk_disjoint k : k ∈ g_tls_live_keys t -> k ∉ g_tls_free_keys t;
  tk_given k : 1 <= k < g_next_tls_key t -> k ∈ g_tls_live_keys t \/ k ∈ g_tls_free_keys t;
  tk_values tid vs k v : g_tls_values t !! tid = Some vs -> vs !! k = Some v -> k ∈ g_tls_live_keys t;
}.

Lemma new_tables_ok : tls_ok new_tls_tables.
Proof. constructor; cbn; try set_solver; try lia; [unfold GUEST_PTHREAD_DYNAMIC_KEY_LIMIT, GUEST_PTHREAD_KEYS_MAX, GUEST_PTHREAD_KEY_RESERVED_COUNT; lia|constructor]. Qed.

(** The new key, and what becomes of the tables. *)
Lemma take_key_spec d t key t' : tls_ok t -> take_key d t = (Some key, t') ->
  tls_ok t' /\ key ∉ g_tls_live_keys t /\ 1 <= key <= GUEST_PTHREAD_DYNAMIC_KEY_LIMIT /\
  g_tls_live_keys t' = {[key]} ∪ g_tls_live_keys t /\ g_tls_values t' = g_tls_values t.
Proof.
  intros [H1 H2 H3 H4 H5 H6]. unfold take_key. destruct (g_tls_free_keys t) as [|k rest] eqn:Hf.
  - destruct (_ || _) eqn:Hc; [done|]. apply orb_false_elim in Hc as [[H0%Z.eqb_neq Hl%Z.ltb_ge]%orb_false_elim Hs%Z.leb_gt].
    intros [= <- <-]. assert (Hfresh : g_next_tls_key t ∉ g_tls_live_keys t).
    { intros Hin. destruct (H2 _ (or_introl Hin)). lia. }
    assert (Hn : g_next_tls_key t ⊕ 1 = g_next_tls_key t + 1).
    { apply u64_small. unfold GUEST_PTHREAD_DYNAMIC_KEY_LIMIT, GUEST_PTHREAD_KEYS_MAX, GUEST_PTHREAD_KEY_RESERVED_COUNT in *. u64_lia. }
    split_and!; try done; try lia. constructor; cbn; rewrite ?Hn, ?Hf; try lia.
    + intros k [Hk|Hk]; [|by apply elem_of_nil in Hk]. apply elem_of_union in Hk as [->%elem_of_singleton|Hk]; [lia|]. destruct (H2 k (or_introl Hk)). lia.
    + constructor.
    + intros k _. apply not_elem_of_nil.
    + intros k Hk. left. destruct (decide (k = g_next_tls_key t)) as [->|]; [set_solver|]. destruct (H5 k ltac:(lia)) as [|Hn0]; [set_solver|by apply elem_of_nil in Hn0].
    + intros tid vs k v Ht Hv. apply elem_of_union_r. by eapply H6.
  - intros [= <- <-]. assert (Hin : k ∈ k :: rest) by set_solver. apply NoDup_cons in H3 as [Hk H3].
    assert (Hnl : k ∉ g_tls_live_keys t) by (intros Hl; by apply (H4 k Hl)).
    destruct (H2 k (or_intror Hin)) as [K1 K2]. split_and!; try done; try lia. constructor; cbn; try done.
    + intros j [Hj|Hj]; [apply elem_of_union in Hj as [->%elem_of_singleton|Hj]|]; [lia| |]; apply H2; set_solver.
    + intros j [->%elem_of_singleton|Hj]%elem_of_union; [done|]. intros Hr. apply (H4 j Hj). set_solver.
    + intros j Hj. destruct (H5 j Hj); set_solver.
    + intros tid vs j v Ht Hv. apply elem_of_union_r. by eapply H6.
Qed.

(** Keys run out only when all are in use. *)
Lemma take_key_fails d t t' : tls_ok t -> take_key d t = (None, t') ->
  t' = t /\ forall k, 1 <= k <= GUEST_PTHREAD_DYNAMIC_KEY_LIMIT -> k ∈ g_tls_live_keys t.
Proof.
  intros Hok. pose proof Hok as [H1 H2 _ _ H5 _]. unfold take_key. destruct (g_tls_free_keys t) as [|k rest] eqn:Hf; [|done].
  destruct (_ || _) eqn:Hc; [|done]. intros [= <-]. split; [done|]. apply orb_prop in Hc.
  assert (Hnext : g_next_tls_key t = GUEST_PTHREAD_DYNAMIC_KEY_LIMIT + 1).
  { destruct Hc as [[?%Z.eqb_eq|?%Z.ltb_lt]%orb_prop|Hs%Z.leb_le]; [lia..|].
    assert (Hsub : g_tls_live_keys t ⊆ list_to_set (seqZ 1 (g_next_tls_key t - 1))).
    { intros k Hk. apply elem_of_list_to_set, elem_of_seqZ. destruct (H2 k (or_introl Hk)). lia. }
    apply subseteq_size in Hsub. rewrite size_list_to_set, length_seqZ in Hsub by apply NoDup_seqZ. lia. }
  intros k Hk. destruct (H5 k ltac:(lia)) as [|Hn]; [done|by apply elem_of_nil in Hn].
Qed.

Lemma drop_key_ok key t : tls_ok t -> key ∈ g_tls_live_keys t -> tls_ok (drop_key key t).
Proof.
  intros [H1 H2 H3 H4 H5 H6] Hk. constructor; cbn; try done.
  - intros j Hj. apply H2. set_solver.
  - apply NoDup_cons. split; [by apply H4|done].
  - intros j Hj. specialize (H4 j). set_solver.
  - intros j Hj. destruct (decide (j = key)); destruct (H5 j Hj); set_solver.
  - intros tid vs j v Ht Hv. rewrite lookup_fmap in Ht. apply fmap_Some in Ht as (vs0 & Ht & ->).
    apply lookup_delete_Some in Hv as [Hne Hv]. specialize (H6 tid vs0 j v Ht Hv). set_solver.
Qed.

Lemma set_value_ok tid key v t : tls_ok t -> key ∈ g_tls_live_keys t -> tls_ok (set_value tid key v t).
Proof.
  intros [H1 H2 H3 H4 H5 H6] Hk. constructor; cbn; try done. intros tid' vs j w Ht Hv.
  apply lookup_insert_Some in Ht as [[-> <-]|[_ Ht]]; [|by eapply H6].
  apply lookup_insert_Some in Hv as [[-> _]|[_ Hv]]; [done|]. destruct (g_tls_values t !! tid') as [vs0|] eqn:E; [by eapply H6|done].
Qed.

Lemma get_set_eq tid key v t : key <> 0 -> key ∈ g_tls_live_keys t -> get_value tid key (set_value tid key v t) = v.
Proof.
  intros H0 Hk. unfold get_value, is_valid_tls_key_locked. cbn. rewrite (proj2 (Z.eqb_neq key 0)), bool_decide_eq_true_2 by done. cbn.
  by rewrite !lookup_insert_eq.
Qed.
Lemma get_set_ne tid key v tid' key' t : tid' <> tid \/ key' <> key -> get_value tid' key' (set_value tid key v t) = get_value tid' key' t.
Proof.
  intros Hne. unfold get_value, is_valid_tls_key_locked. cbn. destruct (_ && _); [|done].
  destruct (decide (tid' = tid)) as [->|Ht]; [|by rewrite lookup_insert_ne]. rewrite lookup_insert_eq. destruct Hne as [|Hk]; [done|].
  rewrite lookup_insert_ne by done. by destruct (g_tls_values t !! tid).
Qed.

Section Handlers.
Context {E : Env} `{!HostAccess E, !WalkLaws E, !GuestMemLaws E, !CpuMemLaws E, !RegLaws E, !HostAccessLaws E} {HS : HostSched}.
Implicit Types s : kstate.

(** The handlers on keys, between which threads, registers and memory may change
    at will. *)
Inductive k_step : kstate -> kstate -> Prop :=
| KCreate s : k_step s (pthread_key_create s)
| KDelete s : k_step s (pthread_key_delete s)
| KSet s : k_step s (pthread_setspecific s)
| KGet s : k_step s (pthread_getspecific s)
| KOther s n : k_step s {| kn := n; kt := kt s |}.

Lemma valid_key key t : is_valid_tls_key_locked key t = true -> key ∈ g_tls_live_keys t /\ key <> 0.
Proof. intros [H%negb_true_iff%Z.eqb_neq H2%bool_decide_eq_true]%andb_prop. done. Qed.

Lemma k_step_ok s s' : k_step s s' -> tls_ok (kt s) -> tls_ok (kt s').
Proof.
  intros Hs Hok. destruct Hs as [s|s|s|s|s n]; [| | | |done].
  - unfold pthread_key_create. destruct (_ || _); [done|]. destruct (take_key (X 1 (kn s)) (kt s)) as [[key|] t] eqn:Ht; cbn.
    + by destruct (take_key_spec _ _ _ _ Hok Ht) as (? & _).
    + by destruct (take_key_fails _ _ _ Hok Ht) as [-> _].
  - unfold pthread_key_delete. destruct (is_valid_tls_key_locked _ _) eqn:Hv; [|done]. apply valid_key in Hv as [? _]. by apply drop_key_ok.
  - unfold pthread_setspecific. destruct (get_current_tls_thread_id _) as [tid n]. destruct (is_valid_tls_key_locked _ _) eqn:Hv; [|done].
    apply valid_key in Hv as [? _]. by apply set_value_ok.
  - unfold pthread_getspecific. by destruct (get_current_tls_thread_id _).
Qed.

Lemma k_reach_ok s s' : rtc k_step s s' -> tls_ok (kt s) -> tls_ok (kt s').
Proof. induction 1 as [|s1 s2 s3 Hs _ IH]; [done|]. intros H. by apply IH, (k_step_ok s1). Qed.

(** Thread-specific data, in every state the handlers reach: creating a key
    gives one that is not in use, between 1 and 112, which reads 0 in every thread
    and leaves all other values alone, and fails only when 112 keys are in use; a
    value set by a thread is what that thread reads under that key until it is set
    again or the key is deleted, and nothing else changes; a deleted key is no longer
    valid. *)
Theorem thread_specific_data n s : rtc k_step {| kn := n; kt := new_tls_tables |} s ->
  let t := kt s in
  (forall d key t', take_key d t = (Some key, t') ->
     key ∉ g_tls_live_keys t /\ 1 <= key <= 112 /\ (forall tid, get_value tid key t' = 0) /\
     (forall tid k, k <> key -> get_value tid k t' = get_value tid k t)) /\
  (forall d t', take_key d t = (None, t') -> forall k, 1 <= k <= 112 -> k ∈ g_tls_live_keys t) /\
  (forall tid key v, key ∈ g_tls_live_keys t -> get_value tid key (set_value tid key v t) = v /\
     forall tid' key', tid' <> tid \/ key' <> key -> get_value tid' key' (set_value tid key v t) = get_value tid' key' t) /\
  (forall key, key ∈ g_tls_live_keys t -> is_valid_tls_key_locked key (drop_key key t) = false /\
     forall tid k, k <> key -> get_value tid k (drop_key key t) = get_value tid k t).
Proof.
  intros Hr t. assert (Hok : tls_ok t) by (apply (k_reach_ok _ _ Hr), new_tables_ok). split_and!.
  - intros d key t' Ht. destruct (take_key_spec _ _ _ _ Hok Ht) as (Hok' & Hnew & Hrange & El & Ev). split_and!; [done|apply Hrange| | |].
    + destruct Hrange as [_ Hr2]. exact Hr2.
    + intros tid. unfold get_value. destruct (is_valid_tls_key_locked key t'); [|done]. rewrite Ev.
      destruct (g_tls_values t !! tid) as [vs|] eqn:Hvs; [|done]. destruct (vs !! key) as [v|] eqn:Hv; [|done].
      by destruct (Hnew (tk_values _ Hok tid vs key v Hvs Hv)).
    + intros tid k Hk. unfold get_value, is_valid_tls_key_locked. rewrite Ev, El.
      replace (bool_decide (k ∈ {[key]} ∪ g_tls_live_keys t)) with (bool_decide (k ∈ g_tls_live_keys t)); [done|]. apply bool_decide_ext. set_solver.
  - intros d t' Ht. by destruct (take_key_fails _ _ _ Hok Ht) as [_ H].
  - intros tid key v Hk. assert (key <> 0) by (destruct (tk_range _ Hok key (or_introl Hk)); lia). split; [by apply get_set_eq|].
    intros tid' key' Hne. by apply get_set_ne.
  - intros key Hk. unfold get_value, is_valid_tls_key_locked. cbn. split.
    + rewrite (bool_decide_eq_false_2 (key ∈ _)) by set_solver. apply andb_false_r.
    + intros tid k Hne. replace (bool_decide (k ∈ g_tls_live_keys t ∖ {[key]})) with (bool_decide (k ∈ g_tls_live_keys t)) by (apply bool_decide_ext; set_solver).
      destruct (_ && _); [|done]. rewrite lookup_fmap. destruct (g_tls_values t !! tid) as [vs|]; [|done]. cbn. by rewrite lookup_delete_ne.
Qed.

(** * A reused stack *)

Lemma tls_id_by_slot (n : nstate) a k : tl_virtual_tid_override n = 0 -> 0 <= k -> a = QEMU_THREAD_STACK_BASE + k * QEMU_THREAD_STACK_SIZE ->
  a + QEMU_THREAD_STACK_SIZE <= QEMU_THREAD_STACK_CEILING -> a <= X REG_SP n < a + QEMU_THREAD_STACK_SIZE ->
  exists n', get_current_tls_thread_id n = (0x1000 + k, n') /\ nt_mem n' = nt_mem n.
Proof.
  intros Ho Hk Ha Hc Hsp. unfold get_current_tls_thread_id. rewrite Ho. cbn [Z.eqb negb].
  unfold is_safe_call_stack_sp. rewrite (proj2 (Z.leb_gt _ _)) by arena_lia. cbn [andb].
  unfold get_thread_id_from_sp. rewrite (andb_false_intro2 _ _ (proj2 (Z.ltb_ge (X REG_SP n) 0x80000000) ltac:(arena_lia))).
  rewrite (proj2 (Z.leb_le _ _)) by arena_lia.
  replace ((X REG_SP n - QEMU_THREAD_STACK_BASE) / QEMU_THREAD_STACK_SIZE) with k; [by eexists|].
  subst a. unfold QEMU_THREAD_STACK_SIZE in *. apply Z.div_unique with (r := X REG_SP n - QEMU_THREAD_STACK_BASE - k * 0x100000); lia.
Qed.

(** A thread on a reused stack inherits values. Values are filed under the stack
    slot and nothing removes them when a thread ends: whatever its exit, its join
    and the creation of the next thread do to registry, registers and memory, a
    thread that runs on the same stack reads the value the old one set, where a
    new thread's values should all be 0; and creation does put the next thread on
    that stack. *)
Theorem reused_stack_inherits_values s a k key v (n2 : nstate) :
  tls_ok (kt s) -> 0 <= k -> a = QEMU_THREAD_STACK_BASE + k * QEMU_THREAD_STACK_SIZE -> a + QEMU_THREAD_STACK_SIZE <= QEMU_THREAD_STACK_CEILING ->
  tl_virtual_tid_override (kn s) = 0 -> a <= X REG_SP (kn s) < a + QEMU_THREAD_STACK_SIZE ->
  X 0 (kn s) = key -> X 1 (kn s) = v -> key ∈ g_tls_live_keys (kt s) ->
  tl_virtual_tid_override n2 = 0 -> a <= X REG_SP n2 < a + QEMU_THREAD_STACK_SIZE -> X 0 n2 = key ->
  cpu_ok n2 -> in_u64 v -> fits REG_X0 v ->
  X 0 (kn (pthread_getspecific {| kn := n2; kt := kt (pthread_setspecific s) |})) = v /\
  (forall ptr routine arg lr size guard policy prio det (s' : nstate) rest b tls_rest,
     g_free_stack_region_bases (rg s') = a :: rest -> g_free_tls_region_bases (rg s') = b :: tls_rest ->
     b ⊕ 8 <> 0 -> g_guest_vma_count (rg s') + 3 <= GUEST_VMA_LIMIT ->
     exists t, g_threads (rg (spawn_thread ptr routine arg lr 0 size guard policy prio det s')) !! g_next_thread_id (rg s') = Some t /\
       q_stack_base t = a + QEMU_THREAD_STACK_SIZE - 0x100).
Proof.
  intros Hok Hk Ha Hc Ho Hsp Hkey Hv Hlive Ho2 Hsp2 Hkey2 Hcpu Hv64 Hfit. split.
  - destruct (tls_id_by_slot (kn s) a k Ho Hk Ha Hc Hsp) as (n' & En & _). destruct (tls_id_by_slot n2 a k Ho2 Hk Ha Hc Hsp2) as (n'' & En2 & Em2).
    assert (H0 : key <> 0) by (destruct (tk_range _ Hok key (or_introl Hlive)); lia).
    unfold pthread_setspecific, pthread_getspecific. rewrite En, Hkey, Hv. cbn [kn kt]. rewrite En2, Hkey2.
    unfold is_valid_tls_key_locked at 1. rewrite (proj2 (Z.eqb_neq key 0)), bool_decide_eq_true_2 by done. cbn [negb andb k_ret kt kn].
    rewrite get_set_eq by done. unfold set_X0. rewrite u64_small by done. apply (getr_putr REG_X0 v); [|done].
    change (cpu_ok (nt_mem n'')). by rewrite Em2.
  - intros ptr routine arg lr size guard policy prio det s' rest b tls_rest Hf Hft Hb Hvma.
    by apply (spawn_recycled _ _ _ _ _ _ _ _ _ _ _ k rest b tls_rest).
Qed.
End Handlers.

(** * Witnesses *)

Lemma thread_specific_data_witness :
  let s := {| kn := demo_native; kt := new_tls_tables |} in
  get_value 0x1000 1 (take_key 0 (kt (pthread_key_create s))).2 = 0.
Proof.
  intros s. destruct (thread_specific_data (E := RefEnv) demo_native (pthread_key_create s)) as (H1 & _).
  - apply rtc_once, KCreate.
  - destruct (take_key 0 (kt (pthread_key_create s))) as [[key|] t'] eqn:Ht; [|by vm_compute in Ht].
    destruct (H1 0 key t' Ht) as (_ & _ & H2 & H3). cbn [snd].
    destruct (decide (1 = key)) as [->|Hne]; [apply H2|]. rewrite H3 by done. by vm_compute.
Defined.

(** Key 1 exists; the handler's thread has its stack pointer in the first slot. *)
Definition demo_tls : TlsTables := (take_key 0 new_tls_tables).2.
Definition demo_slot (x0 x1 : Z) : nstate (E := RefEnv) :=
  demo_native <| nt_mem := putr REG_SP 0x90080000 (text_regs x0 x1 0) |>.

Lemma reused_stack_inherits_values_witness :
  X 0 (kn (pthread_getspecific {| kn := demo_slot 1 0; kt := kt (pthread_setspecific {| kn := demo_slot 1 77; kt := demo_tls |}) |})) = 77.
Proof.
  apply (reused_stack_inherits_values {| kn := demo_slot 1 77; kt := demo_tls |} 0x90000000 0 1 77 (demo_slot 1 0)); try done.
  apply (take_key_spec 0 new_tls_tables 1 demo_tls new_tables_ok). reflexivity.
Defined.
