(* ===== verification/NativeAttrSpec.v ===== *)
(** Thread attributes: the 64 bytes of a guest's pthread_attr_t as a record, which
    every pthread_attr_* function reads or updates one field of. *)

From S2P Require Import Prelude Env MemoryManager MemorySpec Machine HostAccess Lift GuestCall NativeThreads NativeSpec NativeTls HleStringSpec.
#[local] Open Scope Z_scope.

(** * The contract *)

Record Attr := {
  at_detachstate : Z; at_stackaddr : Z; at_stacksize : Z; at_guardsize : Z;
  at_inheritsched : Z; at_schedpolicy : Z; at_schedpriority : Z; at_scope : Z;
}.
Definition eta_at (t : Attr) : Attr :=
  Build_Attr (at_detachstate t) (at_stackaddr t) (at_stacksize t) (at_guardsize t) (at_inheritsched t) (at_schedpolicy t)
    (at_schedpriority t) (at_scope t).
#[export] Instance set_at_detachstate : Setter at_detachstate := ltac:(build_setter eta_at at_detachstate).
#[export] Instance set_at_stackaddr : Setter at_stackaddr := ltac:(build_setter eta_at at_stackaddr).
#[export] Instance set_at_stacksize : Setter at_stacksize := ltac:(build_setter eta_at at_stacksize).
#[export] Instance set_at_guardsize : Setter at_guardsize := ltac:(build_setter eta_at at_guardsize).
#[export] Instance set_at_inheritsched : Setter at_inheritsched := ltac:(build_setter eta_at at_inheritsched).
#[export] Instance set_at_schedpolicy : Setter at_schedpolicy := ltac:(build_setter eta_at at_schedpolicy).
#[export] Instance set_at_schedpriority : Setter at_schedpriority := ltac:(build_setter eta_at at_schedpriority).
#[export] Instance set_at_scope : Setter at_scope := ltac:(build_setter eta_at at_scope).

Definition default_attr : Attr := Build_Attr 0 0 GUEST_DEFAULT_PTHREAD_STACK_SIZE GUEST_DEFAULT_PTHREAD_GUARD_SIZE 0 SCHED_OTHER 0 0.

Inductive attr_call := AInit | ADestroy | ASetDetach | ASetStackSize | ASetGuardSize | ASetStack | ASetInherit | ASetPolicy | ASetParam.

(** What a call with arguments [x1] and [x2] answers and makes of the attributes;
    [prio] is the priority in the sched_param it is given, if that can be read. *)
Definition attr_spec (c : attr_call) (x1 x2 : Z) (prio : option Z) (t : Attr) : Z * Attr :=
  match c with
  | AInit => (0, default_attr)
  | ADestroy => (0, t)
  | ASetDetach => if decide (s32 x1 = 0 \/ s32 x1 = 1) then (0, t <| at_detachstate := s32 x1 |>) else (EINVAL, t)
  | ASetStackSize => if decide (16384 <= x1) then (0, t <| at_stacksize := x1 |>) else (EINVAL, t)
  | ASetGuardSize => (0, t <| at_guardsize := x1 |>)
  | ASetStack => (0, t <| at_stackaddr := x1 |> <| at_stacksize := x2 |>)
  | ASetInherit => if decide (s32 x1 = 0 \/ s32 x1 = 1) then (0, t <| at_inheritsched := s32 x1 |>) else (EINVAL, t)
  | ASetPolicy => (0, t <| at_schedpolicy := s32 x1 |>)
  | ASetParam => match prio with Some p => (0, t <| at_schedpriority := p |>) | None => (EINVAL, t) end
  end.

Inductive attr_query := QDetach | QStackSize | QGuardSize | QInherit | QPolicy | QParam | QScope.
Definition query_bytes (q : attr_query) (t : Attr) : list Z :=
  match q with
  | QDetach => le_bytes 4 (at_detachstate t)
  | QStackSize => le_bytes 8 (at_stacksize t)
  | QGuardSize => le_bytes 8 (at_guardsize t)
  | QInherit => le_bytes 4 (at_inheritsched t)
  | QPolicy => le_bytes 4 (at_schedpolicy t)
  | QParam => le_bytes 4 (at_schedpriority t)
  | QScope => le_bytes 4 (at_scope t)
  end.

Section Attr.
Context {E : Env} `{!HostAccess E, !WalkLaws E, !GuestMemLaws E, !CpuMemLaws E, !RegLaws E, !HostAccessLaws E} {HS : HostSched}.
Implicit Types n : nstate.

Definition run_attr (c : attr_call) n : nstate :=
  match c with
  | AInit => pthread_attr_init n
  | ADestroy => pthread_attr_destroy n
  | ASetDetach => pthread_attr_setdetachstate n
  | ASetStackSize => pthread_attr_setstacksize n
  | ASetGuardSize => pthread_attr_setguardsize n
  | ASetStack => pthread_attr_setstack n
  | ASetInherit => pthread_attr_setinheritsched n
  | ASetPolicy => pthread_attr_setschedpolicy n
  | ASetParam => pthread_attr_setschedparam n
  end.
Definition run_query (q : attr_query) n : nstate :=
  match q with
  | QDetach => pthread_attr_getdetachstate n
  | QStackSize => pthread_attr_getstacksize n
  | QGuardSize => pthread_attr_getguardsize n
  | QInherit => pthread_attr_getinheritsched n
  | QPolicy => pthread_attr_getschedpolicy n
  | QParam => pthread_attr_getschedparam n
  | QScope => pthread_attr_getscope n
  end.

(** The attributes at [a], read the way pthread_create reads them. *)
Definition attr_of (a : Z) n : Attr := {|
  at_detachstate := read_guest_pthread_attr_i32 a 0 0 n;
  at_stackaddr := read_guest_pthread_attr_u64 a 8 0 n;
  at_stacksize := read_guest_pthread_attr_u64 a 16 GUEST_DEFAULT_PTHREAD_STACK_SIZE n;
  at_guardsize := read_guest_pthread_attr_u64 a 24 GUEST_DEFAULT_PTHREAD_GUARD_SIZE n;
  at_inheritsched := read_guest_pthread_attr_i32 a 32 0 n;
  at_schedpolicy := read_guest_pthread_attr_i32 a 36 SCHED_OTHER n;
  at_schedpriority := read_guest_pthread_attr_i32 a 40 0 n;
  at_scope := read_guest_pthread_attr_i32 a 44 0 n;
|}.

(** * Memory *)

(** [n'] has the same memory layout as [n] and [f] as its bytes. *)
Definition remem (f : Z -> option Z) n n' : Prop :=
  mem_ok n' /\ (forall b m, mapped b m n' <-> mapped b m n) /\ forall x, byte_at n' x = f x.

Lemma poke_mem a bs n : mem_ok n -> mapped a (Z.of_nat (length bs)) n -> bs <> [] -> remem (stored (byte_at n) a bs) n (poke a bs n).
Proof. intros H1 H2 H3. unfold poke. by destruct (gwrite_mapped a bs n H1 H2 H3) as (s' & -> & H). Qed.
Lemma set_X0_mem v n : mem_ok n -> remem (byte_at n) n (set_X0 v n).
Proof. intros H. split_and!; [by apply ok_putr|intros; apply mapped_putr|intros; apply byte_putr]. Qed.

(** Reads see bytes and nothing else. *)
Lemma gread_same a k n n' : mem_ok n -> mem_ok n' -> mapped a k n -> mapped a k n' -> 0 < k ->
  (forall x, a <= x < a + k -> byte_at n' x = byte_at n x) -> gread a k n' = gread a k n.
Proof.
  intros H1 H2 H3 H4 Hk Hb. destruct (gread_mapped a k n H1 H3 Hk) as (bs & -> & L1 & B1).
  destruct (gread_mapped a k n' H2 H4 Hk) as (cs & -> & L2 & B2). f_equal. apply (holds_at_eq (byte_at n) a); [lia| |done].
  eapply holds_at_ext; [|exact B2]. intros x Hx. apply Hb. lia.
Qed.

Section Block.
Context (a : Z).

(** A state in which the block can be read and written. *)
Record block_ok n : Prop := { bo_mem : mem_ok n; bo_map : mapped a 64 n; bo_null : a <> 0 }.

Lemma off_eq n o : block_ok n -> 0 <= o < 64 -> a ⊕ o = a + o.
Proof. intros [H1 H2 _] Ho. destruct (mapped_range a 64 n H1 H2). apply u64_small. u64_lia. Qed.

Lemma block_keep f n n' : block_ok n -> remem f n n' -> block_ok n'.
Proof. intros [H1 H2 H3] (K1 & K2 & _). split; [done|by apply K2|done]. Qed.

(** A read of [k] bytes of the block at [o], in a state whose bytes there are [bs]. *)
Lemma block_read n o k bs : block_ok n -> 0 <= o -> o + k <= 64 -> k = Z.of_nat (length bs) -> bs <> [] ->
  holds_at (byte_at n) (a + o) bs -> gread (a ⊕ o) k n = Some bs.
Proof.
  intros Hb Ho Hok -> Hne Hh. assert (0 < Z.of_nat (length bs)) by (destruct bs; [done|cbn; lia]).
  rewrite (off_eq n) by (done || lia). apply gread_holds; [apply Hb| |done..]. eapply mapped_sub; [apply Hb|lia..].
Qed.

Lemma read_i32_at n o d v : block_ok n -> 0 <= o -> o + 4 <= 64 -> holds_at (byte_at n) (a + o) (le_bytes 4 v) ->
  read_guest_pthread_attr_i32 a o d n = s32 v.
Proof.
  intros Hb Ho Hle Hh. unfold read_guest_pthread_attr_i32. rewrite (proj2 (Z.eqb_neq a 0)) by apply Hb.
  rewrite (block_read n o 4 (le_bytes 4 v)) by done. rewrite le_value_bytes. change (8 * Z.of_nat 4) with 32.
  unfold s32, u32, two32. by rewrite Zmod_mod.
Qed.
Lemma read_u64_at n o d v : block_ok n -> 0 <= o -> o + 8 <= 64 -> holds_at (byte_at n) (a + o) (le_bytes 8 v) ->
  read_guest_pthread_attr_u64 a o d n = u64 v.
Proof.
  intros Hb Ho Hle Hh. unfold read_guest_pthread_attr_u64. rewrite (proj2 (Z.eqb_neq a 0)) by apply Hb.
  rewrite (block_read n o 8 (le_bytes 8 v)) by done. by rewrite le_value_bytes.
Qed.
Lemma read_i32_same n n' o d : block_ok n -> block_ok n' -> 0 <= o -> o + 4 <= 64 ->
  (forall x, a + o <= x < a + o + 4 -> byte_at n' x = byte_at n x) ->
  read_guest_pthread_attr_i32 a o d n' = read_guest_pthread_attr_i32 a o d n.
Proof.
  intros Hb Hb' Ho Hle Hx. unfold read_guest_pthread_attr_i32. rewrite (off_eq n), (gread_same _ _ n n') by
    (done || lia || apply Hb || apply Hb' || (eapply mapped_sub; [apply Hb || apply Hb'|lia..])). done.
Qed.
Lemma read_u64_same n n' o d : block_ok n -> block_ok n' -> 0 <= o -> o + 8 <= 64 ->
  (forall x, a + o <= x < a + o + 8 -> byte_at n' x = byte_at n x) ->
  read_guest_pthread_attr_u64 a o d n' = read_guest_pthread_attr_u64 a o d n.
Proof.
  intros Hb Hb' Ho Hle Hx. unfold read_guest_pthread_attr_u64. rewrite (off_eq n), (gread_same _ _ n n') by
    (done || lia || apply Hb || apply Hb' || (eapply mapped_sub; [apply Hb || apply Hb'|lia..])). done.
Qed.

(** Attributes are unchanged where the block's bytes are. *)
Lemma attr_of_same n n' : block_ok n -> block_ok n' -> (forall x, a <= x < a + 64 -> byte_at n' x = byte_at n x) -> attr_of a n' = attr_of a n.
Proof.
  intros Hb Hb' Hx. unfold attr_of. f_equal; (apply read_i32_same || apply read_u64_same); try done; intros x Hr; apply Hx; lia.
Qed.

(** * Updates of one field *)

(** [n'] differs from [n] by the bytes [bs], at offset [o] of the block. *)
Definition patched o bs n n' : Prop := block_ok n' /\ remem (stored (byte_at n) (a + o) bs) n n'.

Lemma write_i32_patch n o v : block_ok n -> 0 <= o -> o + 4 <= 64 -> patched o (le_bytes 4 v) n (write_guest_pthread_attr_i32 a o v n).
Proof.
  intros Hb Ho Hle. unfold write_guest_pthread_attr_i32. rewrite (proj2 (Z.eqb_neq a 0)), (off_eq n) by (apply Hb || done || lia).
  assert (H : remem (stored (byte_at n) (a + o) (le_bytes 4 v)) n (poke (a + o) (le_bytes 4 v) n)).
  { apply poke_mem; [apply Hb| |done]. rewrite length_le_bytes. eapply mapped_sub; [apply Hb|lia..]. }
  split; [by eapply block_keep|done].
Qed.
Lemma write_u64_patch n o v : block_ok n -> 0 <= o -> o + 8 <= 64 -> patched o (le_bytes 8 v) n (write_guest_pthread_attr_u64 a o v n).
Proof.
  intros Hb Ho Hle. unfold write_guest_pthread_attr_u64. rewrite (proj2 (Z.eqb_neq a 0)), (off_eq n) by (apply Hb || done || lia).
  assert (H : remem (stored (byte_at n) (a + o) (le_bytes 8 v)) n (poke (a + o) (le_bytes 8 v) n)).
  { apply poke_mem; [apply Hb| |done]. rewrite length_le_bytes. eapply mapped_sub; [apply Hb|lia..]. }
  split; [by eapply block_keep|done].
Qed.

Lemma patched_in o bs n n' : patched o bs n n' -> holds_at (byte_at n') (a + o) bs.
Proof. intros (_ & _ & _ & H). eapply holds_at_ext; [intros x _; symmetry; apply H|apply holds_stored]. Qed.
Lemma patched_out o bs n n' x : patched o bs n n' -> ~ (a + o <= x < a + o + Z.of_nat (length bs)) -> byte_at n' x = byte_at n x.
Proof. intros (_ & _ & _ & H) Hx. by rewrite H, stored_out. Qed.

(** What the fields of a patched block read. *)
Ltac read_patched Hb Hp :=
  pose proof (proj1 Hp) as Hb';
  pose proof (patched_in _ _ _ _ Hp) as Hin;
  pose proof (fun x => patched_out _ _ _ _ x Hp) as Hout;
  rewrite length_le_bytes in Hout;
  unfold attr_of, set_field, set_at_detachstate, set_at_stackaddr, set_at_stacksize, set_at_guardsize, set_at_inheritsched,
    set_at_schedpolicy, set_at_schedpriority, set_at_scope;
  cbv beta; cbn [at_detachstate at_stackaddr at_stacksize at_guardsize at_inheritsched at_schedpolicy at_schedpriority at_scope];
  f_equal;
  first [ apply read_i32_at; (done || lia) | apply read_u64_at; (done || lia)
        | apply read_i32_same; [done|done|lia|lia|intros x Hx; apply Hout; lia]
        | apply read_u64_same; [done|done|lia|lia|intros x Hx; apply Hout; lia] ].

Section Fields.
Context (n : nstate) (v : Z) (Hb : block_ok n).
Lemma put_detach : attr_of a (write_guest_pthread_attr_i32 a 0 v n) = (attr_of a n) <| at_detachstate := s32 v |>.
Proof using Hb. pose proof (write_i32_patch n 0 v Hb ltac:(lia) ltac:(lia)) as Hp. read_patched Hb Hp. Qed.
Lemma put_stackaddr : attr_of a (write_guest_pthread_attr_u64 a 8 v n) = (attr_of a n) <| at_stackaddr := u64 v |>.
Proof using Hb. pose proof (write_u64_patch n 8 v Hb ltac:(lia) ltac:(lia)) as Hp. read_patched Hb Hp. Qed.
Lemma put_stacksize : attr_of a (write_guest_pthread_attr_u64 a 16 v n) = (attr_of a n) <| at_stacksize := u64 v |>.
Proof using Hb. pose proof (write_u64_patch n 16 v Hb ltac:(lia) ltac:(lia)) as Hp. read_patched Hb Hp. Qed.
Lemma put_guardsize : attr_of a (write_guest_pthread_attr_u64 a 24 v n) = (attr_of a n) <| at_guardsize := u64 v |>.
Proof using Hb. pose proof (write_u64_patch n 24 v Hb ltac:(lia) ltac:(lia)) as Hp. read_patched Hb Hp. Qed.
Lemma put_inherit : attr_of a (write_guest_pthread_attr_i32 a 32 v n) = (attr_of a n) <| at_inheritsched := s32 v |>.
Proof using Hb. pose proof (write_i32_patch n 32 v Hb ltac:(lia) ltac:(lia)) as Hp. read_patched Hb Hp. Qed.
Lemma put_policy : attr_of a (write_guest_pthread_attr_i32 a 36 v n) = (attr_of a n) <| at_schedpolicy := s32 v |>.
Proof using Hb. pose proof (write_i32_patch n 36 v Hb ltac:(lia) ltac:(lia)) as Hp. read_patched Hb Hp. Qed.
Lemma put_priority : attr_of a (write_guest_pthread_attr_i32 a 40 v n) = (attr_of a n) <| at_schedpriority := s32 v |>.
Proof using Hb. pose proof (write_i32_patch n 40 v Hb ltac:(lia) ltac:(lia)) as Hp. read_patched Hb Hp. Qed.
Lemma put_scope : attr_of a (write_guest_pthread_attr_i32 a 44 v n) = (attr_of a n) <| at_scope := s32 v |>.
Proof using Hb. pose proof (write_i32_patch n 44 v Hb ltac:(lia) ltac:(lia)) as Hp. read_patched Hb Hp. Qed.
End Fields.

(** Steps that write inside the block only. *)
Definition inside n n' : Prop :=
  block_ok n' /\ cpu_ok n' /\ forall x, ~ (a <= x < a + 64) -> byte_at n' x = byte_at n x.

Lemma inside_refl n : block_ok n -> cpu_ok n -> inside n n.
Proof. done. Qed.
Lemma inside_i32 n0 n o v : inside n0 n -> 0 <= o -> o + 4 <= 64 -> inside n0 (write_guest_pthread_attr_i32 a o v n).
Proof.
  intros (Hb & Hc & Hx) Ho Hle. pose proof (write_i32_patch n o v Hb Ho Hle) as Hp. split_and!; [apply Hp| |].
  - unfold write_guest_pthread_attr_i32. destruct (a =? 0); [done|by apply cpu_gwrite].
  - intros x Hn. rewrite (patched_out _ _ _ _ x Hp) by (rewrite length_le_bytes; lia). by apply Hx.
Qed.
Lemma inside_u64 n0 n o v : inside n0 n -> 0 <= o -> o + 8 <= 64 -> inside n0 (write_guest_pthread_attr_u64 a o v n).
Proof.
  intros (Hb & Hc & Hx) Ho Hle. pose proof (write_u64_patch n o v Hb Ho Hle) as Hp. split_and!; [apply Hp| |].
  - unfold write_guest_pthread_attr_u64. destruct (a =? 0); [done|by apply cpu_gwrite].
  - intros x Hn. rewrite (patched_out _ _ _ _ x Hp) by (rewrite length_le_bytes; lia). by apply Hx.
Qed.
Lemma inside_zero n : block_ok n -> cpu_ok n -> inside n (poke a (replicate 64 0) n).
Proof.
  intros Hb Hc. destruct (poke_mem a (replicate 64 0) n) as (H1 & H2 & H3); [apply Hb|apply Hb|done|].
  split_and!; [split; [done|apply H2, Hb|apply Hb]|by apply cpu_gwrite|]. intros x Hx. rewrite H3. by apply stored_out.
Qed.

(** The answer of a handler leaves memory alone. *)
Lemma answer n0 n v : inside n0 n -> in_u64 v -> fits REG_X0 v ->
  X 0 (set_X0 v n) = v /\ attr_of a (set_X0 v n) = attr_of a n /\ inside n0 (set_X0 v n).
Proof.
  intros (Hb & Hc & Hx) Hv Hf. pose proof (set_X0_mem v n (bo_mem _ Hb)) as Hm. pose proof (block_keep _ _ _ Hb Hm) as Hb'.
  split_and!; [|apply attr_of_same; [done..|intros x _; apply Hm]|split_and!; [done| |]].
  - unfold set_X0. rewrite u64_small by done. by apply (getr_putr REG_X0 v).
  - by apply cpu_putr.
  - intros x Hn. rewrite <- Hx by done. apply Hm.
Qed.


Lemma init_fields n : block_ok n -> cpu_ok n ->
  inside n (initialize_guest_pthread_attr a n) /\ attr_of a (initialize_guest_pthread_attr a n) = default_attr.
Proof.
  intros Hb Hc. unfold initialize_guest_pthread_attr. rewrite (proj2 (Z.eqb_neq a 0)) by apply Hb.
  change (Z.to_nat GUEST_PTHREAD_ATTR_SIZE) with 64%nat. pose proof (inside_zero n Hb Hc) as H0.
  set (n0 := poke a _ n) in *. cbv zeta.
  assert (H1 := inside_i32 n n0 0 0 H0 ltac:(lia) ltac:(lia)). pose proof (put_detach n0 0 (proj1 H0)) as E1.
  change DETACHSTATE_OFFSET with 0. set (n1 := write_guest_pthread_attr_i32 a 0 0 n0) in *.
  assert (H2 := inside_u64 n n1 8 0 H1 ltac:(lia) ltac:(lia)). pose proof (put_stackaddr n1 0 (proj1 H1)) as E2.
  change STACKADDR_OFFSET with 8. set (n2 := write_guest_pthread_attr_u64 a 8 0 n1) in *.
  assert (H3 := inside_u64 n n2 16 GUEST_DEFAULT_PTHREAD_STACK_SIZE H2 ltac:(lia) ltac:(lia)). pose proof (put_stacksize n2 GUEST_DEFAULT_PTHREAD_STACK_SIZE (proj1 H2)) as E3.
  change STACKSIZE_OFFSET with 16. set (n3 := write_guest_pthread_attr_u64 a 16 _ n2) in *.
  assert (H4 := inside_u64 n n3 24 GUEST_DEFAULT_PTHREAD_GUARD_SIZE H3 ltac:(lia) ltac:(lia)). pose proof (put_guardsize n3 GUEST_DEFAULT_PTHREAD_GUARD_SIZE (proj1 H3)) as E4.
  change GUARDSIZE_OFFSET with 24. set (n4 := write_guest_pthread_attr_u64 a 24 _ n3) in *.
  assert (H5 := inside_i32 n n4 32 0 H4 ltac:(lia) ltac:(lia)). pose proof (put_inherit n4 0 (proj1 H4)) as E5.
  change INHERITSCHED_OFFSET with 32. set (n5 := write_guest_pthread_attr_i32 a 32 0 n4) in *.
  assert (H6 := inside_i32 n n5 36 SCHED_OTHER H5 ltac:(lia) ltac:(lia)). pose proof (put_policy n5 SCHED_OTHER (proj1 H5)) as E6.
  change SCHEDPOLICY_OFFSET with 36. set (n6 := write_guest_pthread_attr_i32 a 36 SCHED_OTHER n5) in *.
  assert (H7 := inside_i32 n n6 40 0 H6 ltac:(lia) ltac:(lia)). pose proof (put_priority n6 0 (proj1 H6)) as E7.
  change SCHEDPRIORITY_OFFSET with 40. set (n7 := write_guest_pthread_attr_i32 a 40 0 n6) in *.
  change SCOPE_OFFSET with 44. split; [apply inside_i32; [done|lia|lia]|]. rewrite (put_scope n7 0 (proj1 H7)), E7, E6, E5, E4, E3, E2, E1.
  by destruct (attr_of a n0).
Qed.

Lemma s32_s32 x : s32 (s32 x) = s32 x.
Proof. unfold s32, u32, two32. destruct (x mod 2 ^ 32 <? 2 ^ 31) eqn:Hx; rewrite ?Zmod_mod, ?Hx; [done|].
  rewrite Zminus_mod, Z_mod_same_full, Z.sub_0_r, !Zmod_mod, Hx. done. Qed.

(** * The functions *)

Context (n : nstate) (Hb : block_ok n) (Hc : cpu_ok n) (Ha : X 0 n = a) (F0 : fits REG_X0 0).

Definition answers (v : Z) (t : Attr) n' : Prop :=
  X 0 n' = v /\ attr_of a n' = t /\ forall x, ~ (a <= x < a + 64) -> byte_at n' x = byte_at n x.

Lemma answers_ok v t n' : inside n n' -> attr_of a n' = t -> in_u64 v -> fits REG_X0 v -> answers v t (set_X0 v n').
Proof. intros Hi <- Hv Hf. by destruct (answer n n' v Hi Hv Hf) as (H1 & H2 & _ & _ & H3). Qed.

Lemma run_attr_ok c : in_u64 (X 1 n) -> in_u64 (X 2 n) -> fits REG_X0 EINVAL ->
  let '(v, t) := attr_spec c (X 1 n) (X 2 n) (read_guest_sched_priority (X 1 n) n) (attr_of a n) in answers v t (run_attr c n).
Proof using Hb Hc Ha F0.
  intros H1 H2 FE. assert (Hin : inside n n) by done. destruct c; cbn [attr_spec run_attr].
  - unfold pthread_attr_init. rewrite Ha. destruct (init_fields n Hb Hc). by apply answers_ok.
  - by apply answers_ok.
  - unfold pthread_attr_setdetachstate. rewrite Ha. case_decide as Hd.
    + replace (_ && _) with false by (destruct Hd as [-> | ->]; done).
      apply answers_ok; [apply inside_i32; done|change DETACHSTATE_OFFSET with 0; by rewrite put_detach, s32_s32|done..].
    + replace (_ && _) with true by (symmetry; apply andb_true_intro; split; apply negb_true_iff, Z.eqb_neq; naive_solver). by apply answers_ok.
  - unfold pthread_attr_setstacksize. rewrite Ha. unfold GUEST_PTHREAD_STACK_MIN. case_decide as Hd.
    + rewrite (proj2 (Z.ltb_ge _ _)) by lia.
      apply answers_ok; [apply inside_u64; done|change STACKSIZE_OFFSET with 16; by rewrite put_stacksize, u64_small|done..].
    + rewrite (proj2 (Z.ltb_lt _ _)) by lia. by apply answers_ok.
  - unfold pthread_attr_setguardsize. rewrite Ha.
    apply answers_ok; [apply inside_u64; done|change GUARDSIZE_OFFSET with 24; by rewrite put_guardsize, u64_small|done..].
  - unfold pthread_attr_setstack. rewrite Ha, (proj2 (Z.eqb_neq a 0)) by apply Hb.
    assert (Hin1 : inside n (write_guest_pthread_attr_u64 a STACKADDR_OFFSET (X 1 n) n)) by (apply inside_u64; done).
    apply answers_ok; [apply inside_u64; done| |done..]. change STACKSIZE_OFFSET with 16. rewrite put_stacksize by apply Hin1.
    change STACKADDR_OFFSET with 8. by rewrite put_stackaddr, !u64_small.
  - unfold pthread_attr_setinheritsched. rewrite Ha. case_decide as Hd.
    + replace (_ && _) with false by (destruct Hd as [-> | ->]; done).
      apply answers_ok; [apply inside_i32; done|change INHERITSCHED_OFFSET with 32; by rewrite put_inherit, s32_s32|done..].
    + replace (_ && _) with true by (symmetry; apply andb_true_intro; split; apply negb_true_iff, Z.eqb_neq; naive_solver). by apply answers_ok.
  - unfold pthread_attr_setschedpolicy. rewrite Ha.
    apply answers_ok; [apply inside_i32; done|change SCHEDPOLICY_OFFSET with 36; by rewrite put_policy, s32_s32|done..].
  - unfold pthread_attr_setschedparam. rewrite Ha. destruct (read_guest_sched_priority (X 1 n) n) as [p|] eqn:Hr; [|by apply answers_ok].
    apply answers_ok; [apply inside_i32; done|change SCHEDPRIORITY_OFFSET with 40; rewrite put_priority by done|done..].
    unfold read_guest_sched_priority in Hr. destruct (X 1 n =? 0); [done|]. destruct (gread (X 1 n) 4 n); [|done]. injection Hr as <-. by rewrite s32_s32.
Qed.

(** A getter's store outside the block. *)
Lemma store_ok p bs : mapped p (Z.of_nat (length bs)) n -> bs <> [] -> disj a 64 p (Z.of_nat (length bs)) ->
  let n' := set_X0 0 (poke p bs n) in X 0 n' = 0 /\ holds_at (byte_at n') p bs /\ attr_of a n' = attr_of a n.
Proof using Hb Hc F0.
  intros Hm Hne Hd n'. destruct (poke_mem p bs n (bo_mem _ Hb) Hm Hne) as (K1 & K2 & K3).
  pose proof (set_X0_mem 0 _ K1) as (L1 & L2 & L3). split_and!.
  - apply (getr_putr REG_X0 0); [by apply cpu_gwrite|done].
  - eapply holds_at_ext; [|apply holds_stored]. intros x _. symmetry. rewrite L3. apply K3.
  - apply attr_of_same; [done|split; [done|by apply L2, K2, Hb|apply Hb]|]. intros x Hx. unfold disj in Hd. rewrite L3, K3. apply stored_out. lia.
Qed.

Lemma run_query_ok q : let n' := run_query q n in let bs := query_bytes q (attr_of a n) in
  X 1 n <> 0 -> mapped (X 1 n) (Z.of_nat (length bs)) n -> disj a 64 (X 1 n) (Z.of_nat (length bs)) ->
  X 0 n' = 0 /\ holds_at (byte_at n') (X 1 n) bs /\ attr_of a n' = attr_of a n.
Proof using Hb Hc Ha F0.
  intros n' bs Hp Hm Hd. assert (n' = set_X0 0 (poke (X 1 n) bs n)) as ->.
  { unfold n', bs in *. destruct q; cbn [run_query query_bytes attr_of] in *;
      unfold pthread_attr_getdetachstate, pthread_attr_getstacksize, pthread_attr_getguardsize, pthread_attr_getinheritsched,
        pthread_attr_getschedpolicy, pthread_attr_getscope, pthread_attr_getschedparam; rewrite Ha; try done.
    unfold write_guest_sched_priority. rewrite (proj2 (Z.eqb_neq (X 1 n) 0)) by done.
    destruct (gwrite_mapped (X 1 n) _ n (bo_mem _ Hb) Hm) as (m & Hw & _); [done|]. unfold poke.
    change (read_guest_pthread_attr_i32 a SCHEDPRIORITY_OFFSET 0 n) with (at_schedpriority (attr_of a n)). by rewrite Hw. }
  apply store_ok; [done| |done]. by destruct q.
Qed.

End Block.

(** The attribute block as a record. With the block's 64 bytes in mapped memory,
    every function that initialises or sets attributes answers what the contract
    says, leaves in the block exactly the attributes of the contract and no byte
    outside it changed; every getter stores the attribute asked for where it was
    told to, and leaves the attributes alone. These are the attributes thread
    creation reads. *)
Theorem attr_block_refines a n : block_ok a n -> cpu_ok n -> X 0 n = a -> in_u64 (X 1 n) -> in_u64 (X 2 n) ->
  fits REG_X0 0 -> fits REG_X0 EINVAL ->
  (forall c, let n' := run_attr c n in
     let '(answer, t) := attr_spec c (X 1 n) (X 2 n) (read_guest_sched_priority (X 1 n) n) (attr_of a n) in
     X 0 n' = answer /\ attr_of a n' = t /\ forall x, ~ (a <= x < a + 64) -> byte_at n' x = byte_at n x) /\
  (forall q, let n' := run_query q n in let bs := query_bytes q (attr_of a n) in
     X 1 n <> 0 -> mapped (X 1 n) (Z.of_nat (length bs)) n -> disj a 64 (X 1 n) (Z.of_nat (length bs)) ->
     X 0 n' = 0 /\ holds_at (byte_at n') (X 1 n) bs /\ attr_of a n' = attr_of a n).
Proof.
  intros Hb Hc Ha H1 H2 F0 FE. split.
  - intros c. by apply run_attr_ok.
  - intros q n' bs Hp Hm Hd. by apply run_query_ok.
Qed.
End Attr.

(** * Witness *)

Definition demo_attr (x1 : Z) : nstate (E := RefEnv) := demo_native <| nt_mem := text_regs 0x1100 x1 0 |>.

Lemma attr_block_refines_witness :
  at_stacksize (attr_of 0x1100 (pthread_attr_setstacksize (demo_attr 0x20000))) = 0x20000 /\
  holds_at (byte_at (pthread_attr_getstacksize (demo_attr 0x1200))) 0x1200 (le_bytes 8 (at_stacksize (attr_of 0x1100 (demo_attr 0x1200)))).
Proof.
  assert (Hb : forall x1, block_ok 0x1100 (demo_attr x1) /\ cpu_ok (demo_attr x1)).
  { intros x1. split; [split|]; [destruct (text_sane 0x1100 x1 0); done|apply (text_mapped 0x1100 x1 0); lia|done|destruct (text_sane 0x1100 x1 0); done]. }
  split.
  - destruct (attr_block_refines 0x1100 (demo_attr 0x20000)) as [H _]; [apply Hb|apply Hb|done..|].
    destruct (H ASetStackSize) as (_ & H1 & _). cbn [run_attr] in H1. by rewrite H1.
  - destruct (attr_block_refines 0x1100 (demo_attr 0x1200)) as [_ H]; [apply Hb|apply Hb|done..|].
    apply (H QStackSize); [done|by apply (text_mapped 0x1100 0x1200 0)|by left].
Defined.
