(* ===== verification/NativeSync.v ===== *)
(** The handlers around the synchronisation objects of the native thread mode
    (src/src/hle/hle_pthread.cpp): attributes of mutexes, condition variables,
    barriers and read-write locks, the tables that map guest addresses to host
    objects, initialisation and destruction, spin locks, and the entry points of
    the lock functions up to the object they work on.

    Objects are shared (threads keep a [std::shared_ptr] to the object they found),
    so a table maps addresses to object numbers and the objects live beside it:
    initialising an address again gives it a new object and leaves the old one to
    the threads that still use it.  Addresses below 0x1000 get a static object,
    number [DUMMY].  [std::bad_alloc] inside a table is left out. *)

From S2P Require Import Prelude Env MemoryManager MemorySpec Machine HostAccess Lift HleManager GuestCall Arm64 NativeThreads HostRwLock HostBarrier HostMutex NativeTls.

(** * Tables *)

Record Table (A : Type) := { tb_at : gmap Z Z; tb_objects : gmap Z A; tb_next : Z }.
Arguments tb_at {A}. Arguments tb_objects {A}. Arguments tb_next {A}.

Definition DUMMY : Z := 0.
Definition invalid_object (a : Z) : bool := (a =? 0) || (a <? 0x1000).

Section Tables.
Context {A : Type}.
Implicit Types t : Table A.

(** [fresh] is what the default constructor makes. *)
Definition new_table (fresh : A) : Table A := {| tb_at := ∅; tb_objects := {[DUMMY := fresh]}; tb_next := 1 |}.

(** [std::make_shared] and its entry in the table. *)
Definition enter_object (a : Z) (o : A) t : Z * Table A :=
  (tb_next t, {| tb_at := <[a := tb_next t]> (tb_at t); tb_objects := <[tb_next t := o]> (tb_objects t); tb_next := tb_next t + 1 |}).

Definition get_or_create (fresh : A) (a : Z) t : Z * Table A :=
  if invalid_object a then (DUMMY, t)
  else match tb_at t !! a with Some i => (i, t) | None => enter_object a fresh t end.

(** The result of [initialize_mutex] and the like is not used (their static object
    is another one than [DUMMY]). *)
Definition initialize (o : A) (a : Z) t : Table A := if invalid_object a then t else (enter_object a o t).2.

Definition erase (a : Z) t : Table A := {| tb_at := delete a (tb_at t); tb_objects := tb_objects t; tb_next := tb_next t |}.
Definition upd_object (i : Z) (f : A -> A) t : Table A :=
  {| tb_at := tb_at t; tb_objects := alter f i (tb_objects t); tb_next := tb_next t |}.
End Tables.

(** * Objects *)

Record HostCondVar := { cv_clockid : Z; cv_pshared : Z }.
Record HostSpinLock := { locked : bool; spin_owner : Z }.
Record GuestRWLockAttr := { rwa_pshared : Z; rwa_kind : Z }.
Definition GUEST_PTHREAD_RWLOCK_PREFER_READER_NP : Z := 0.
Definition PTHREAD_PRIO_NONE : Z := 0.
Definition default_mutex : HostMutex := new_mutex PTHREAD_MUTEX_NORMAL PTHREAD_PRIO_NONE GUEST_PTHREAD_PROCESS_PRIVATE.
Definition default_condvar : HostCondVar := {| cv_clockid := CLOCK_REALTIME; cv_pshared := GUEST_PTHREAD_PROCESS_PRIVATE |}.
Definition default_spinlock : HostSpinLock := {| locked := false; spin_owner := 0 |}.
Definition default_rwlockattr : GuestRWLockAttr :=
  {| rwa_pshared := GUEST_PTHREAD_PROCESS_PRIVATE; rwa_kind := GUEST_PTHREAD_RWLOCK_PREFER_READER_NP |}.

Definition GUEST_PTHREAD_MUTEX_SIZE : Z := 40.
Definition GUEST_PTHREAD_COND_SIZE : Z := 48.
Definition GUEST_PTHREAD_RWLOCK_SIZE : Z := 56.
Definition GUEST_PTHREAD_RWLOCK_ATTR_SIZE : Z := 8.

Definition is_valid_guest_rwlock_pshared (p : Z) : bool := (p =? GUEST_PTHREAD_PROCESS_PRIVATE) || (p =? GUEST_PTHREAD_PROCESS_SHARED).
Definition is_valid_guest_rwlock_kind (k : Z) : bool :=
  (k =? GUEST_PTHREAD_RWLOCK_PREFER_READER_NP) || (k =? GUEST_PTHREAD_RWLOCK_PREFER_WRITER_NONRECURSIVE_NP).
Definition encode_guest_mutex_word (type : Z) : Z := Z.shiftl (Z.land type 0x3) 14.
Definition zeros (n : Z) : list Z := replicate (Z.to_nat n) 0.

(** What creating the host's own lock object answers for these attributes (the
    host's pthread_rwlockattr functions and pthread_rwlock_init). *)
Class HostRwInit := host_rwlock_init : Z -> Z -> Z.

Section Handlers.
Context {E : Env} `{!HostAccess E} {HS : HostSched} {HR : HostRwInit}.

Record ystate := {
  yn : nstate;
  g_host_mutexes : Table HostMutex;
  g_host_condvars : Table HostCondVar;
  g_host_rwlocks : Table HostRWLock;
  g_host_spinlocks : Table HostSpinLock;
  g_host_barriers : gmap Z HostBarrier;
  g_guest_rwlockattrs : gmap Z GuestRWLockAttr;
}.
Definition eta_y (s : ystate) : ystate := Build_ystate (yn s) (g_host_mutexes s) (g_host_condvars s) (g_host_rwlocks s)
  (g_host_spinlocks s) (g_host_barriers s) (g_guest_rwlockattrs s).
#[export] Instance set_yn : Setter yn := ltac:(build_setter eta_y yn).
#[export] Instance set_g_host_mutexes : Setter g_host_mutexes := ltac:(build_setter eta_y g_host_mutexes).
#[export] Instance set_g_host_condvars : Setter g_host_condvars := ltac:(build_setter eta_y g_host_condvars).
#[export] Instance set_g_host_rwlocks : Setter g_host_rwlocks := ltac:(build_setter eta_y g_host_rwlocks).
#[export] Instance set_g_host_spinlocks : Setter g_host_spinlocks := ltac:(build_setter eta_y g_host_spinlocks).
#[export] Instance set_g_host_barriers : Setter g_host_barriers := ltac:(build_setter eta_y g_host_barriers).
#[export] Instance set_g_guest_rwlockattrs : Setter g_guest_rwlockattrs := ltac:(build_setter eta_y g_guest_rwlockattrs).
Implicit Types s : ystate.
Implicit Types n : nstate.

Definition no_objects n : ystate := {|
  yn := n; g_host_mutexes := new_table default_mutex; g_host_condvars := new_table default_condvar;
  g_host_rwlocks := new_table (new_rwlock GUEST_PTHREAD_RWLOCK_PREFER_READER_NP);
  g_host_spinlocks := new_table default_spinlock; g_host_barriers := ∅; g_guest_rwlockattrs := ∅ |}.

Definition y_ret (v : Z) s : ystate := s <| yn ::= set_X0 v |>.
Definition y_poke (a : Z) (bs : list Z) s : ystate := s <| yn ::= poke a bs |>.
Definition y_write (a : Z) (bs : list Z) s : bool * ystate := let '(ok, n) := gwrite a bs (yn s) in (ok, s <| yn := n |>).
Definition Y (r : Z) s : Z := X r (yn s).
(** [bool] results of the attribute functions, as the answer of the handler. *)
Definition ok_or_einval (r : bool * ystate) : ystate := let '(ok, s) := r in y_ret (if ok then 0 else EINVAL) s.

(** * Attributes in guest memory *)

Definition read_guest_mutexattr (attr : Z) n : option (Z * Z * Z) :=
  if invalid_object attr then None
  else match gread attr 8 n with
       | None => None
       | Some bs => let '(ok, v) := decode_guest_mutexattr_value (le_value bs) in if ok then Some v else None
       end.
Definition write_guest_mutexattr (attr type pshared protocol : Z) s : bool * ystate :=
  if invalid_object attr || negb (is_valid_guest_mutex_type type) || negb (is_valid_guest_pshared pshared) ||
     negb (is_valid_guest_mutex_protocol protocol)
  then (false, s) else y_write attr (le_bytes 8 (encode_guest_mutexattr_value type pshared protocol)) s.

Definition read_guest_condattr (attr : Z) n : option (Z * Z) :=
  if invalid_object attr then None
  else match gread attr 8 n with None => None | Some bs => Some (decode_guest_condattr_value (le_value bs)) end.
Definition write_guest_condattr (attr clockid pshared : Z) s : bool * ystate :=
  if invalid_object attr || negb (is_valid_guest_cond_clock clockid) || negb (is_valid_guest_pshared pshared)
  then (false, s) else y_write attr (le_bytes 8 (encode_guest_condattr_value clockid pshared)) s.

Definition read_guest_barrierattr (attr : Z) n : option Z :=
  if invalid_object attr then None
  else match gread attr 4 n with
       | None => None
       | Some bs => let raw := s32 (le_value bs) in if is_valid_guest_pshared raw then Some raw else None
       end.
Definition write_guest_barrierattr (attr pshared : Z) s : bool * ystate :=
  if invalid_object attr || negb (is_valid_guest_pshared pshared) then (false, s) else y_write attr (le_bytes 4 pshared) s.

(** A getter's answer: a 32-bit integer stored at the pointer in X1. *)
Definition answer_i32 (v : option Z) s : ystate :=
  let p := Y 1 s in
  match v with
  | Some v => if p =? 0 then y_ret EINVAL s else y_ret 0 (y_poke p (le_bytes 4 v) s)
  | None => y_ret EINVAL s
  end.
(** Forgetting an attribute object. *)
Definition clear_attr (size : Z) s : ystate :=
  if invalid_object (Y 0 s) then y_ret EINVAL s else y_ret 0 (y_poke (Y 0 s) (zeros size) s).

Definition pthread_mutexattr_init s : ystate :=
  ok_or_einval (write_guest_mutexattr (Y 0 s) PTHREAD_MUTEX_NORMAL GUEST_PTHREAD_PROCESS_PRIVATE PTHREAD_PRIO_NONE s).
Definition pthread_mutexattr_destroy s : ystate := clear_attr 8 s.
Definition pthread_mutexattr_settype s : ystate :=
  let type := s32 (Y 1 s) in
  if negb (is_valid_guest_mutex_type type) then y_ret EINVAL s
  else match read_guest_mutexattr (Y 0 s) (yn s) with
       | None => y_ret EINVAL s
       | Some (_, pshared, protocol) => ok_or_einval (write_guest_mutexattr (Y 0 s) type pshared protocol s)
       end.
Definition pthread_mutexattr_setpshared s : ystate :=
  let pshared := s32 (Y 1 s) in
  if negb (is_valid_guest_pshared pshared) then y_ret EINVAL s
  else match read_guest_mutexattr (Y 0 s) (yn s) with
       | None => y_ret EINVAL s
       | Some (type, _, protocol) => ok_or_einval (write_guest_mutexattr (Y 0 s) type pshared protocol s)
       end.
Definition pthread_mutexattr_setprotocol s : ystate :=
  let protocol := s32 (Y 1 s) in
  if negb (is_valid_guest_mutex_protocol protocol) then y_ret EINVAL s
  else match read_guest_mutexattr (Y 0 s) (yn s) with
       | None => y_ret EINVAL s
       | Some (type, pshared, _) => ok_or_einval (write_guest_mutexattr (Y 0 s) type pshared protocol s)
       end.
Definition pthread_mutexattr_gettype s : ystate := answer_i32 ((fun v => v.1.1) <$> read_guest_mutexattr (Y 0 s) (yn s)) s.
Definition pthread_mutexattr_getpshared s : ystate := answer_i32 ((fun v => v.1.2) <$> read_guest_mutexattr (Y 0 s) (yn s)) s.
Definition pthread_mutexattr_getprotocol s : ystate := answer_i32 (snd <$> read_guest_mutexattr (Y 0 s) (yn s)) s.

Definition pthread_condattr_init s : ystate :=
  ok_or_einval (write_guest_condattr (Y 0 s) CLOCK_REALTIME GUEST_PTHREAD_PROCESS_PRIVATE s).
Definition pthread_condattr_destroy s : ystate := clear_attr 8 s.
Definition pthread_condattr_getclock s : ystate := answer_i32 (fst <$> read_guest_condattr (Y 0 s) (yn s)) s.
Definition pthread_condattr_getpshared s : ystate := answer_i32 (snd <$> read_guest_condattr (Y 0 s) (yn s)) s.
Definition pthread_condattr_setclock s : ystate :=
  let clockid := s32 (Y 1 s) in
  if negb (is_valid_guest_cond_clock clockid) then y_ret EINVAL s
  else match read_guest_condattr (Y 0 s) (yn s) with
       | None => y_ret EINVAL s
       | Some (_, pshared) => ok_or_einval (write_guest_condattr (Y 0 s) clockid pshared s)
       end.
Definition pthread_condattr_setpshared s : ystate :=
  let pshared := s32 (Y 1 s) in
  if negb (is_valid_guest_pshared pshared) then y_ret EINVAL s
  else match read_guest_condattr (Y 0 s) (yn s) with
       | None => y_ret EINVAL s
       | Some (clockid, _) => ok_or_einval (write_guest_condattr (Y 0 s) clockid pshared s)
       end.

Definition pthread_barrierattr_init s : ystate := ok_or_einval (write_guest_barrierattr (Y 0 s) GUEST_PTHREAD_PROCESS_PRIVATE s).
Definition pthread_barrierattr_destroy s : ystate := clear_attr 4 s.
Definition pthread_barrierattr_getpshared s : ystate := answer_i32 (read_guest_barrierattr (Y 0 s) (yn s)) s.
Definition pthread_barrierattr_setpshared s : ystate := ok_or_einval (write_guest_barrierattr (Y 0 s) (s32 (Y 1 s)) s).

(** * Attributes of read-write locks, beside guest memory *)

Definition get_guest_rwlock_attr (attr : Z) s : GuestRWLockAttr :=
  if invalid_object attr then default_rwlockattr else default default_rwlockattr (g_guest_rwlockattrs s !! attr).
Definition initialize_guest_rwlock_attr (attr : Z) s : ystate :=
  if attr =? 0 then s
  else (y_poke attr (zeros GUEST_PTHREAD_RWLOCK_ATTR_SIZE) s) <| g_guest_rwlockattrs ::= <[attr := default_rwlockattr]> |>.
Definition set_guest_rwlock_attr_pshared (attr pshared : Z) s : bool * ystate :=
  match g_guest_rwlockattrs s !! attr with
  | None => (false, s)
  | Some v => (true, s <| g_guest_rwlockattrs ::= <[attr := {| rwa_pshared := pshared; rwa_kind := rwa_kind v |}]> |>)
  end.
Definition set_guest_rwlock_attr_kind (attr kind : Z) s : bool * ystate :=
  match g_guest_rwlockattrs s !! attr with
  | None => (false, s)
  | Some v => (true, s <| g_guest_rwlockattrs ::= <[attr := {| rwa_pshared := rwa_pshared v; rwa_kind := kind |}]> |>)
  end.
Definition get_guest_rwlock_attr_pshared (attr : Z) s : option Z := rwa_pshared <$> g_guest_rwlockattrs s !! attr.
Definition get_guest_rwlock_attr_kind (attr : Z) s : option Z := rwa_kind <$> g_guest_rwlockattrs s !! attr.

Definition pthread_rwlockattr_init s : ystate :=
  if invalid_object (Y 0 s) then y_ret EINVAL s else y_ret 0 (initialize_guest_rwlock_attr (Y 0 s) s).
Definition pthread_rwlockattr_destroy s : ystate :=
  let attr := Y 0 s in
  if invalid_object attr then y_ret EINVAL s
  else y_ret 0 ((y_poke attr (zeros GUEST_PTHREAD_RWLOCK_ATTR_SIZE) s) <| g_guest_rwlockattrs ::= delete attr |>).
Definition pthread_rwlockattr_getpshared s : ystate := answer_i32 (get_guest_rwlock_attr_pshared (Y 0 s) s) s.
Definition pthread_rwlockattr_getkind_np s : ystate := answer_i32 (get_guest_rwlock_attr_kind (Y 0 s) s) s.
Definition pthread_rwlockattr_setpshared s : ystate :=
  let shared := s32 (Y 1 s) in
  if negb (is_valid_guest_rwlock_pshared shared) then y_ret EINVAL s
  else ok_or_einval (set_guest_rwlock_attr_pshared (Y 0 s) shared s).
Definition pthread_rwlockattr_setkind_np s : ystate :=
  let kind := s32 (Y 1 s) in
  if negb (is_valid_guest_rwlock_kind kind) then y_ret EINVAL s
  else ok_or_einval (set_guest_rwlock_attr_kind (Y 0 s) kind s).

(** * Initialisation and destruction *)

Definition get_or_create_mutex (a : Z) s : Z * ystate :=
  let '(i, t) := get_or_create default_mutex a (g_host_mutexes s) in (i, s <| g_host_mutexes := t |>).
Definition initialize_mutex (a type protocol pshared : Z) s : ystate :=
  s <| g_host_mutexes ::= initialize (new_mutex type protocol pshared) a |>.
Definition get_or_create_condvar (a : Z) s : Z * ystate :=
  let '(i, t) := get_or_create default_condvar a (g_host_condvars s) in (i, s <| g_host_condvars := t |>).
Definition initialize_condvar (a clockid pshared : Z) s : ystate :=
  s <| g_host_condvars ::= initialize {| cv_clockid := clockid; cv_pshared := pshared |} a |>.
Definition get_or_create_rwlock (a : Z) s : Z * ystate :=
  let '(i, t) := get_or_create (new_rwlock GUEST_PTHREAD_RWLOCK_PREFER_READER_NP) a (g_host_rwlocks s) in (i, s <| g_host_rwlocks := t |>).
Definition initialize_rwlock (a : Z) (attr : GuestRWLockAttr) s : ystate :=
  s <| g_host_rwlocks ::= initialize (new_rwlock (rwa_kind attr)) a |>.
Definition destroy_rwlock (a : Z) s : ystate := s <| g_host_rwlocks ::= erase a |>.
Definition get_or_create_spinlock (a : Z) s : Z * ystate :=
  let '(i, t) := get_or_create default_spinlock a (g_host_spinlocks s) in (i, s <| g_host_spinlocks := t |>).

Definition pthread_mutex_init s : ystate :=
  let mutex := Y 0 s in
  let attr := Y 1 s in
  match (if attr =? 0 then Some (PTHREAD_MUTEX_NORMAL, GUEST_PTHREAD_PROCESS_PRIVATE, PTHREAD_PRIO_NONE)
         else read_guest_mutexattr attr (yn s)) with
  | None => y_ret EINVAL s
  | Some (type, pshared, protocol) =>
      let s1 := y_poke mutex (le_bytes 4 (encode_guest_mutex_word type)) (y_poke mutex (zeros GUEST_PTHREAD_MUTEX_SIZE) s) in
      y_ret 0 (initialize_mutex mutex type protocol pshared s1)
  end.
Definition pthread_mutex_destroy s : ystate :=
  y_ret 0 (y_poke (Y 0 s) (zeros GUEST_PTHREAD_MUTEX_SIZE) (s <| g_host_mutexes ::= erase (Y 0 s) |>)).

Definition pthread_cond_init s : ystate :=
  let cond := Y 0 s in
  let attr := Y 1 s in
  match (if attr =? 0 then Some (CLOCK_REALTIME, GUEST_PTHREAD_PROCESS_PRIVATE) else read_guest_condattr attr (yn s)) with
  | None => y_ret EINVAL s
  | Some (clockid, pshared) =>
      let s1 := y_poke cond (le_bytes 4 (u32 (encode_guest_condattr_value clockid pshared))) (y_poke cond (zeros GUEST_PTHREAD_COND_SIZE) s) in
      y_ret 0 (initialize_condvar cond clockid pshared s1)
  end.
Definition pthread_cond_destroy s : ystate := y_ret 0 (s <| g_host_condvars ::= erase (Y 0 s) |>).

(** The object number is the condition variable that is notified. *)
Definition pthread_cond_signal s : Z * ystate := let '(i, s1) := get_or_create_condvar (Y 0 s) s in (i, y_ret 0 s1).
Definition pthread_cond_broadcast s : Z * ystate := let '(i, s1) := get_or_create_condvar (Y 0 s) s in (i, y_ret 0 s1).

Definition pthread_rwlock_init s : ystate :=
  let rwlock := Y 0 s in
  let attr_addr := Y 1 s in
  if invalid_object rwlock then y_ret EINVAL s
  else let s1 := y_poke rwlock (zeros GUEST_PTHREAD_RWLOCK_SIZE) s in
       let attr := get_guest_rwlock_attr attr_addr s1 in
       y_ret (host_rwlock_init (rwa_pshared attr) (rwa_kind attr)) (initialize_rwlock rwlock attr s1).
Definition pthread_rwlock_destroy s : ystate := y_ret 0 (destroy_rwlock (Y 0 s) s).

Definition pthread_barrier_init s : ystate :=
  let barrier := Y 0 s in
  let attr := Y 1 s in
  let count := u32 (Y 2 s) in
  if count =? 0 then y_ret EINVAL s
  else if negb (attr =? 0) && match read_guest_barrierattr attr (yn s) with Some _ => false | None => true end then y_ret EINVAL s
  else y_ret 0 (s <| g_host_barriers ::= get_or_create_barrier barrier count |>).
Definition pthread_barrier_destroy s : ystate :=
  match g_host_barriers s !! Y 0 s with
  | None => y_ret EINVAL s
  | Some b => let '(r, erased) := destroy_barrier b in
              y_ret r (if erased then s <| g_host_barriers ::= delete (Y 0 s) |> else s)
  end.

(** Without a barrier at the address the call is refused; otherwise the wait
    begins. *)
Definition pthread_barrier_wait s : ystate + barrier_out :=
  match g_host_barriers s !! Y 0 s with
  | None => inl (y_ret EINVAL s)
  | Some b => inr (wait_on_barrier b)
  end.

(** * Spin locks *)

Definition pthread_spin_init s : ystate := y_ret 0 (get_or_create_spinlock (Y 0 s) s).2.
Definition pthread_spin_destroy s : ystate := y_ret 0 (s <| g_host_spinlocks ::= erase (Y 0 s) |>).

(** One attempt of the loop on lock [i]: [compare_exchange], then the owner. *)
Definition spin_attempt (i tid : Z) s : bool * ystate :=
  match tb_objects (g_host_spinlocks s) !! i with
  | Some l => if locked l then (false, s)
              else (true, s <| g_host_spinlocks ::= upd_object i (fun _ => {| locked := true; spin_owner := tid |}) |>)
  | None => (false, s)
  end.
(** The locks of a thread that calls once: it spins ([None]) while the lock is taken. *)
Definition pthread_spin_lock (tid : Z) s : option ystate :=
  let '(i, s1) := get_or_create_spinlock (Y 0 s) s in
  match spin_attempt i tid s1 with (true, s2) => Some (y_ret 0 s2) | (false, _) => None end.
Definition pthread_spin_trylock (tid : Z) s : ystate :=
  let '(i, s1) := get_or_create_spinlock (Y 0 s) s in
  let '(ok, s2) := spin_attempt i tid s1 in y_ret (if ok then 0 else EBUSY_) s2.
Definition pthread_spin_unlock s : ystate :=
  let '(i, s1) := get_or_create_spinlock (Y 0 s) s in
  y_ret 0 (s1 <| g_host_spinlocks ::= upd_object i (fun _ => default_spinlock) |>).

(** * Entry points *)

Definition read_into (a len : Z) n : list Z := default (unread a len n) (gread a len n).
Definition read_guest_absolute_timespec (a : Z) n : option timespec :=
  if a =? 0 then None
  else Some {| tv_sec := s64 (le_value (read_into a 8 n)); tv_nsec := s64 (le_value (read_into (a ⊕ 8) 8 n)) |}.

(** A call on a mutex: refused at once, or [mutex_next] from a starting point. *)
Inductive mutex_entry := MRefused (r : Z) | MEnter (i : Z) (p : mpc).

Definition pthread_mutex_lock s : mutex_entry * ystate :=
  if Y 0 s =? 0 then (MRefused EINVAL, s)
  else let '(i, s1) := get_or_create_mutex (Y 0 s) s in (MEnter i (LockOwner KLock), s1).
Definition pthread_mutex_trylock s : mutex_entry * ystate :=
  if Y 0 s =? 0 then (MRefused EINVAL, s)
  else let '(i, s1) := get_or_create_mutex (Y 0 s) s in (MEnter i (LockOwner KTry), s1).
Definition pthread_mutex_unlock s : mutex_entry * ystate :=
  if Y 0 s =? 0 then (MRefused EINVAL, s)
  else let '(i, s1) := get_or_create_mutex (Y 0 s) s in (MEnter i UnlockCount, s1).
Definition timed_mutex_entry (clockid abstime : Z) s : mutex_entry * ystate :=
  let '(i, s1) := get_or_create_mutex (Y 0 s) s in
  (MEnter i (LockOwner (KTimed clockid (read_guest_absolute_timespec abstime (yn s1)))), s1).
Definition pthread_mutex_timedlock s : mutex_entry * ystate := timed_mutex_entry CLOCK_REALTIME (Y 1 s) s.
Definition pthread_mutex_timedlock_monotonic_np s : mutex_entry * ystate := timed_mutex_entry CLOCK_MONOTONIC (Y 1 s) s.
Definition pthread_mutex_clocklock s : mutex_entry * ystate := timed_mutex_entry (s32 (Y 1 s)) (Y 2 s) s.

(** A wait: the condition variable, and the way into the mutex. *)
Definition cond_entry (clock : HostCondVar -> Z) (abstime : nstate -> option timespec) s : Z * mutex_entry * ystate :=
  let '(c, s1) := get_or_create_condvar (Y 0 s) s in
  let '(i, s2) := get_or_create_mutex (Y 1 s) s1 in
  (c, MEnter i (WaitCount (clock (default default_condvar (tb_objects (g_host_condvars s2) !! c))) (abstime (yn s2))), s2).
Definition pthread_cond_wait s : Z * mutex_entry * ystate := cond_entry cv_clockid (fun _ => None) s.
(** Reads the timespec in one piece, whatever the pointer. *)
Definition pthread_cond_timedwait s : Z * mutex_entry * ystate :=
  let bs := read_into (Y 2 s) 16 (yn s) in
  cond_entry cv_clockid (fun _ => Some {| tv_sec := s64 (le_value (take 8 bs)); tv_nsec := s64 (le_value (drop 8 bs)) |}) s.
Definition pthread_cond_timedwait_monotonic_np s : Z * mutex_entry * ystate :=
  cond_entry (fun _ => CLOCK_MONOTONIC) (read_guest_absolute_timespec (Y 2 s)) s.
Definition pthread_cond_clockwait s : Z * mutex_entry * ystate :=
  cond_entry (fun _ => s32 (Y 2 s)) (read_guest_absolute_timespec (Y 3 s)) s.

(** A call on a read-write lock: the object and the way [HostRwLock] goes. *)
Definition rwlock_entry (route : HostRWLock -> rw_route) s : Z * option rw_route * ystate :=
  let '(i, s1) := get_or_create_rwlock (Y 0 s) s in (i, route <$> tb_objects (g_host_rwlocks s1) !! i, s1).
Definition pthread_rwlock_rdlock s := rwlock_entry rdlock_rwlock s.
Definition pthread_rwlock_wrlock s := rwlock_entry wrlock_rwlock s.
Definition pthread_rwlock_unlock s := rwlock_entry unlock_rwlock s.
Definition pthread_rwlock_tryrdlock s := rwlock_entry tryrdlock_rwlock s.
Definition pthread_rwlock_trywrlock s := rwlock_entry trywrlock_rwlock s.
Definition pthread_rwlock_timedrdlock s :=
  rwlock_entry (fun l => lock_rwlock_with_timeout l false (read_guest_absolute_timespec (Y 1 s) (yn s))) s.
Definition pthread_rwlock_timedwrlock s :=
  rwlock_entry (fun l => lock_rwlock_with_timeout l true (read_guest_absolute_timespec (Y 1 s) (yn s))) s.
Definition pthread_rwlock_timedrdlock_monotonic_np s :=
  rwlock_entry (fun l => lock_rwlock_with_clock l false CLOCK_MONOTONIC (read_guest_absolute_timespec (Y 1 s) (yn s))) s.
Definition pthread_rwlock_timedwrlock_monotonic_np s :=
  rwlock_entry (fun l => lock_rwlock_with_clock l true CLOCK_MONOTONIC (read_guest_absolute_timespec (Y 1 s) (yn s))) s.
Definition pthread_rwlock_clockrdlock s :=
  rwlock_entry (fun l => lock_rwlock_with_clock l false (s32 (Y 1 s)) (read_guest_absolute_timespec (Y 2 s) (yn s))) s.
Definition pthread_rwlock_clockwrlock s :=
  rwlock_entry (fun l => lock_rwlock_with_clock l true (s32 (Y 1 s)) (read_guest_absolute_timespec (Y 2 s) (yn s))) s.
End Handlers.
