(* ===== verification/NativeSyncSpec.v ===== *)
(** The tables of synchronisation objects and the attributes their initialisation
    reads: every address has an object of its own, and an attribute set is the
    attribute read, by the getters and by the initialisation of the object. *)

From S2P Require Import Prelude Env MemoryManager MemorySpec Machine HostAccess Lift GuestCall NativeThreads NativeSpec HostRwLock HostBarrier HostMutex NativeTls NativeSync NativeAttrSpec HleStringSpec.
From stdpp Require Import relations.
#[local] Open Scope Z_scope.

(** * Tables *)

Section Tables.
Context {A : Type}.
Implicit Types t : Table A.

Record table_ok t : Prop := {
  to_range a i : tb_at t !! a = Some i -> 0 < i < tb_next t /\ is_Some (tb_objects t !! i);
  to_inj a b i : tb_at t !! a = Some i -> tb_at t !! b = Some i -> a = b;
  to_dummy : is_Some (tb_objects t !! DUMMY);
  to_fresh i : tb_next t <= i -> tb_objects t !! i = None;
  to_next : 0 < tb_next t;
}.

Lemma new_table_ok (fresh : A) : table_ok (new_table fresh).
Proof.
  constructor; cbn; try done; try lia. intros i Hi. apply lookup_insert_None. split; [done|unfold DUMMY; lia].
Qed.

Lemma enter_object_ok a o t : table_ok t -> table_ok (enter_object a o t).2.
Proof.
  intros [H1 H2 H3 H4 H5]. constructor; cbn.
  - intros b i [[<- <-]|[Hne Hb]]%lookup_insert_Some; [split; [lia|by rewrite lookup_insert_eq]|].
    destruct (H1 _ _ Hb) as [? ?]. split; [lia|]. rewrite lookup_insert_ne by lia. done.
  - intros b c i [[<- <-]|[Hb Hbi]]%lookup_insert_Some [[<- Hc]|[Hc Hci]]%lookup_insert_Some; [done| | |by eapply H2].
    + destruct (H1 _ _ Hci). lia.
    + destruct (H1 _ _ Hbi). lia.
  - rewrite lookup_insert_ne by (unfold DUMMY; lia). done.
  - intros i Hi. rewrite lookup_insert_ne by lia. apply H4. lia.
  - lia.
Qed.
Lemma get_or_create_ok f a t : table_ok t -> table_ok (get_or_create f a t).2.
Proof. intros H. unfold get_or_create. destruct (invalid_object a); [done|]. destruct (tb_at t !! a); [done|by apply enter_object_ok]. Qed.
Lemma initialize_ok o a t : table_ok t -> table_ok (initialize o a t).
Proof. intros H. unfold initialize. destruct (invalid_object a); [done|by apply enter_object_ok]. Qed.
Lemma erase_ok a t : table_ok t -> table_ok (erase a t).
Proof.
  intros [H1 H2 H3 H4 H5]. constructor; cbn; try done.
  - intros b i [_ Hb]%lookup_delete_Some. by apply (H1 b i).
  - intros b c i [_ Hb]%lookup_delete_Some [_ Hc]%lookup_delete_Some. by apply (H2 b c i).
Qed.
Lemma upd_object_ok i f t : table_ok t -> table_ok (upd_object i f t).
Proof.
  intros [H1 H2 H3 H4 H5]. assert (Ha : forall j, is_Some (tb_objects t !! j) -> is_Some (alter f i (tb_objects t) !! j)).
  { intros j [x Hx]. destruct (decide (i = j)) as [->|]; [rewrite lookup_alter_eq, Hx|rewrite lookup_alter_ne by done; rewrite Hx]; by eexists. }
  constructor; cbn; try done.
  - intros a j Hj. destruct (H1 a j Hj). split; [done|by apply Ha].
  - by apply Ha.
  - intros j Hj. destruct (decide (i = j)) as [->|]; [rewrite lookup_alter_eq, H4 by done|rewrite lookup_alter_ne by done; apply H4]; done.
Qed.

(** Finding an object: it exists, it is found again, and nothing else moves. *)
Lemma find_object f a t : table_ok t -> let '(i, t') := get_or_create f a t in
  is_Some (tb_objects t' !! i) /\ get_or_create f a t' = (i, t') /\
  (forall b j, tb_at t !! b = Some j -> tb_at t' !! b = Some j /\ tb_objects t' !! j = tb_objects t !! j) /\
  (tb_at t !! a = None -> invalid_object a = false -> tb_objects t' !! i = Some f).
Proof.
  intros Hok. unfold get_or_create. destruct (invalid_object a) eqn:Hi; [split_and!; [apply Hok|done|done|done]|].
  destruct (tb_at t !! a) as [i|] eqn:Ha; cbn.
  - rewrite Ha. split_and!; [by apply (to_range _ Hok a)|done|done|done].
  - rewrite !lookup_insert_eq. split_and!; [by eexists|done| |done]. intros b j Hb. destruct (to_range _ Hok b j Hb).
    rewrite !lookup_insert_ne by (lia || congruence). done.
Qed.

(** Objects of different addresses are different. *)
Lemma objects_differ f a b t : table_ok t -> a <> b -> invalid_object a = false -> invalid_object b = false ->
  let '(i, t1) := get_or_create f a t in let '(j, _) := get_or_create f b t1 in i <> j /\ i <> DUMMY.
Proof.
  intros Hok Hne Ha Hb. pose proof (get_or_create_ok f a t Hok) as Hok1. pose proof (find_object f a t Hok) as Hf.
  assert (Hat : tb_at (get_or_create f a t).2 !! a = Some (get_or_create f a t).1).
  { unfold get_or_create. rewrite Ha. destruct (tb_at t !! a) as [i|] eqn:E; [done|]. apply lookup_insert_eq. }
  destruct (get_or_create f a t) as [i t1]. cbn in *. unfold get_or_create. rewrite Hb.
  destruct (to_range _ Hok1 a i Hat) as [Hi _].
  destruct (tb_at t1 !! b) as [j|] eqn:E; cbn; (split; [|unfold DUMMY; lia]); [|lia]. intros <-. by apply Hne, (to_inj _ Hok1 a b i).
Qed.

(** Every address has an object of its own, and keeps it. *)
Definition separate (f : A) t : Prop := forall a b, a <> b -> 0x1000 <= a -> 0x1000 <= b ->
  let '(i, t1) := get_or_create f a t in let '(j, t2) := get_or_create f b t1 in
  i <> j /\ (get_or_create f a t2).1 = i /\ is_Some (tb_objects t2 !! i).

(** Initialising an address gives it an object nobody has seen, and leaves all
    others, the one it had before included, as they are. *)
Definition renewed (f : A) t : Prop := forall a o, 0x1000 <= a -> let t' := initialize o a t in
  exists i, get_or_create f a t' = (i, t') /\ tb_objects t !! i = None /\ tb_objects t' !! i = Some o /\
    (forall j x, tb_objects t !! j = Some x -> tb_objects t' !! j = Some x) /\
    (forall b, b <> a -> tb_at t' !! b = tb_at t !! b).

Lemma valid_object a : 0x1000 <= a -> invalid_object a = false.
Proof. intros H. apply orb_false_intro; [apply Z.eqb_neq|apply Z.ltb_ge]; lia. Qed.

Lemma table_separate f t : table_ok t -> separate f t.
Proof.
  intros Hok a b Hne Ha%valid_object Hb%valid_object. pose proof (objects_differ f a b t Hok Hne Ha Hb) as Hd.
  pose proof (find_object f a t Hok) as Hf. pose proof (get_or_create_ok f a t Hok) as Hok1.
  destruct (get_or_create f a t) as [i t1] eqn:E1. cbn in Hok1. pose proof (find_object f b t1 Hok1) as Hg.
  destruct (get_or_create f b t1) as [j t2] eqn:E2. destruct Hf as (Hs & Hagain & _). destruct Hg as (_ & _ & Hkeep & _).
  assert (Hat : tb_at t1 !! a = Some i).
  { unfold get_or_create in E1. rewrite Ha in E1. destruct (tb_at t !! a) as [k|] eqn:E; injection E1 as <- <-; [done|apply lookup_insert_eq]. }
  destruct (Hkeep a i Hat) as [Hat2 Ho]. split_and!; [apply Hd| |by rewrite Ho]. unfold get_or_create. by rewrite Ha, Hat2.
Qed.

Lemma table_renewed f t : table_ok t -> renewed f t.
Proof.
  intros Hok a o Ha%valid_object t'. assert (Ht : t' = (enter_object a o t).2) by (unfold t', initialize; by rewrite Ha).
  exists (tb_next t). unfold get_or_create. rewrite Ha, Ht. cbn. rewrite !lookup_insert_eq. split_and!; [done|by apply Hok|done| |].
  - intros j x Hj. rewrite lookup_insert_ne; [done|]. intros <-. by rewrite (to_fresh _ Hok) in Hj.
  - intros b Hb. by rewrite lookup_insert_ne.
Qed.
End Tables.

Section Handlers.
Context {E : Env} `{!HostAccess E, !WalkLaws E, !GuestMemLaws E, !CpuMemLaws E, !RegLaws E, !HostAccessLaws E} {HS : HostSched} {HR : HostRwInit}.
Implicit Types s : ystate.

(** * All handlers keep the tables *)

Record sync_ok s : Prop := {
  so_mutexes : table_ok (g_host_mutexes s);
  so_condvars : table_ok (g_host_condvars s);
  so_rwlocks : table_ok (g_host_rwlocks s);
  so_spinlocks : table_ok (g_host_spinlocks s);
}.

(** What happens to the tables: a handler runs, a lock function changes its object,
    and everything else (memory, registers, threads) changes at will. *)
Inductive y_step : ystate -> ystate -> Prop :=
| YMutexInit s : y_step s (pthread_mutex_init s)
| YMutexDestroy s : y_step s (pthread_mutex_destroy s)
| YMutexLock s : y_step s (pthread_mutex_lock s).2
| YMutexTry s : y_step s (pthread_mutex_trylock s).2
| YMutexUnlock s : y_step s (pthread_mutex_unlock s).2
| YMutexTimed s c a : y_step s (timed_mutex_entry c a s).2
| YMutexObject s i f : y_step s (s <| g_host_mutexes ::= upd_object i f |>)
| YCondInit s : y_step s (pthread_cond_init s)
| YCondDestroy s : y_step s (pthread_cond_destroy s)
| YCondSignal s : y_step s (pthread_cond_signal s).2
| YCondBroadcast s : y_step s (pthread_cond_broadcast s).2
| YCondWait s c a : y_step s (cond_entry c a s).2
| YRwInit s : y_step s (pthread_rwlock_init s)
| YRwDestroy s : y_step s (pthread_rwlock_destroy s)
| YRwEntry s r : y_step s (rwlock_entry r s).2
| YRwObject s i f : y_step s (s <| g_host_rwlocks ::= upd_object i f |>)
| YSpinInit s : y_step s (pthread_spin_init s)
| YSpinDestroy s : y_step s (pthread_spin_destroy s)
| YSpinLock s t s' : pthread_spin_lock t s = Some s' -> y_step s s'
| YSpinTry s t : y_step s (pthread_spin_trylock t s)
| YSpinUnlock s : y_step s (pthread_spin_unlock s)
| YBarrierInit s : y_step s (pthread_barrier_init s)
| YBarrierDestroy s : y_step s (pthread_barrier_destroy s)
| YOther s n r : y_step s (s <| yn := n |> <| g_guest_rwlockattrs := r |>).

Ltac keep H := destruct H as [H1 H2 H3 H4]; constructor; cbn;
  try (by apply get_or_create_ok); try (by apply initialize_ok); try (by apply erase_ok); try (by apply upd_object_ok); try done.

Lemma sync_mutex a s : sync_ok s -> sync_ok (get_or_create_mutex a s).2.
Proof. intros H. pose proof (get_or_create_ok default_mutex a _ (so_mutexes _ H)) as Ht. unfold get_or_create_mutex.
  destruct (get_or_create default_mutex a (g_host_mutexes s)). keep H. Qed.
Lemma sync_condvar a s : sync_ok s -> sync_ok (get_or_create_condvar a s).2.
Proof. intros H. pose proof (get_or_create_ok default_condvar a _ (so_condvars _ H)) as Ht. unfold get_or_create_condvar.
  destruct (get_or_create default_condvar a (g_host_condvars s)). keep H. Qed.
Lemma sync_rwlock a s : sync_ok s -> sync_ok (get_or_create_rwlock a s).2.
Proof. intros H. pose proof (get_or_create_ok (new_rwlock GUEST_PTHREAD_RWLOCK_PREFER_READER_NP) a _ (so_rwlocks _ H)) as Ht. unfold get_or_create_rwlock.
  destruct (get_or_create _ a (g_host_rwlocks s)). keep H. Qed.
Lemma sync_spinlock a s : sync_ok s -> sync_ok (get_or_create_spinlock a s).2.
Proof. intros H. pose proof (get_or_create_ok default_spinlock a _ (so_spinlocks _ H)) as Ht. unfold get_or_create_spinlock.
  destruct (get_or_create default_spinlock a (g_host_spinlocks s)). keep H. Qed.
Lemma sync_spin_attempt i t s : sync_ok s -> sync_ok (spin_attempt i t s).2.
Proof. intros H. unfold spin_attempt. destruct (_ !! i) as [l|]; [|done]. destruct (locked l); [done|]. keep H. Qed.

Lemma y_step_ok s s' : y_step s s' -> sync_ok s -> sync_ok s'.
Proof.
  intros Hs H. destruct Hs.
  - unfold pthread_mutex_init. destruct (if Y 1 s =? 0 then _ else _) as [[[ty ps] pr]|]; keep H.
  - keep H.
  - unfold pthread_mutex_lock. destruct (_ =? 0); [done|]. pose proof (sync_mutex (Y 0 s) s H). by destruct (get_or_create_mutex _ s).
  - unfold pthread_mutex_trylock. destruct (_ =? 0); [done|]. pose proof (sync_mutex (Y 0 s) s H). by destruct (get_or_create_mutex _ s).
  - unfold pthread_mutex_unlock. destruct (_ =? 0); [done|]. pose proof (sync_mutex (Y 0 s) s H). by destruct (get_or_create_mutex _ s).
  - unfold timed_mutex_entry. pose proof (sync_mutex (Y 0 s) s H). by destruct (get_or_create_mutex _ s).
  - keep H.
  - unfold pthread_cond_init. destruct (if Y 1 s =? 0 then _ else _) as [[c p]|]; keep H.
  - keep H.
  - unfold pthread_cond_signal. pose proof (sync_condvar (Y 0 s) s H) as Hk. destruct (get_or_create_condvar _ s). keep Hk.
  - unfold pthread_cond_broadcast. pose proof (sync_condvar (Y 0 s) s H) as Hk. destruct (get_or_create_condvar _ s). keep Hk.
  - unfold cond_entry. pose proof (sync_condvar (Y 0 s) s H) as Hk. destruct (get_or_create_condvar _ s) as [i s1].
    pose proof (sync_mutex (Y 1 s) s1 Hk). by destruct (get_or_create_mutex _ s1).
  - unfold pthread_rwlock_init. destruct (invalid_object _); keep H.
  - keep H.
  - unfold rwlock_entry. pose proof (sync_rwlock (Y 0 s) s H). by destruct (get_or_create_rwlock _ s).
  - keep H.
  - unfold pthread_spin_init. pose proof (sync_spinlock (Y 0 s) s H) as Hk. keep Hk.
  - keep H.
  - unfold pthread_spin_lock in *. pose proof (sync_spinlock (Y 0 s) s H) as Hk. destruct (get_or_create_spinlock _ s) as [i s1].
    pose proof (sync_spin_attempt i t s1 Hk) as Hk2. destruct (spin_attempt i t s1) as [[] s2]; [|done]. simplify_eq. keep Hk2.
  - unfold pthread_spin_trylock. pose proof (sync_spinlock (Y 0 s) s H) as Hk. destruct (get_or_create_spinlock _ s) as [i s1].
    pose proof (sync_spin_attempt i t s1 Hk) as Hk2. destruct (spin_attempt i t s1) as [b s2]. keep Hk2.
  - unfold pthread_spin_unlock. pose proof (sync_spinlock (Y 0 s) s H) as Hk. destruct (get_or_create_spinlock _ s) as [i s1]. keep Hk.
  - unfold pthread_barrier_init. destruct (_ =? 0); [keep H|]. destruct (_ && _); keep H.
  - unfold pthread_barrier_destroy. destruct (_ !! _) as [b|]; [|keep H]. destruct (destroy_barrier b) as [r []]; keep H.
  - keep H.
Qed.

Lemma no_objects_ok n : sync_ok (no_objects n).
Proof. constructor; apply new_table_ok. Qed.
Lemma y_reach_ok n s : rtc y_step (no_objects n) s -> sync_ok s.
Proof. intros Hr. assert (H0 := no_objects_ok n). induction Hr as [|s1 s2 s3 Hs _ IH]; [done|]. by apply IH, (y_step_ok s1). Qed.

(** Every guest address has its own synchronisation object. In every state the
    handlers and the lock functions reach, two addresses never share a mutex, a
    condition variable, a read-write lock or a spin lock, an address is given the
    same object again, and initialising an address makes a new object for it
    without touching the objects of other addresses or the one that threads may
    still be using. *)
Theorem sync_objects n s : rtc y_step (no_objects n) s ->
  (separate default_mutex (g_host_mutexes s) /\ renewed default_mutex (g_host_mutexes s)) /\
  (separate default_condvar (g_host_condvars s) /\ renewed default_condvar (g_host_condvars s)) /\
  (let f := new_rwlock GUEST_PTHREAD_RWLOCK_PREFER_READER_NP in separate f (g_host_rwlocks s) /\ renewed f (g_host_rwlocks s)) /\
  separate default_spinlock (g_host_spinlocks s).
Proof.
  intros Hr. destruct (y_reach_ok n s Hr) as [H1 H2 H3 H4].
  cbv zeta. split_and!; (by apply table_separate) || (by apply table_renewed).
Qed.

(** * Attributes *)

Definition yrem (f : Z -> option Z) s s' : Prop := remem f (yn s) (yn s').

(** A getter or setter leaves memory as it is but for the bytes it stores. *)
Lemma y_write_ok a bs s : mem_ok (yn s) -> mapped a (Z.of_nat (length bs)) (yn s) -> bs <> [] ->
  exists s', y_write a bs s = (true, s') /\ yrem (stored (byte_at (yn s)) a bs) s s'.
Proof.
  intros H1 H2 H3. unfold y_write. destruct (gwrite_mapped a bs (yn s) H1 H2 H3) as (n' & -> & H). eexists. split; [done|exact H].
Qed.

(** Words stored by a setter are read back, whatever the answer in X0. *)
Lemma stored_read a n k v r s s' : n = Z.of_nat k -> mem_ok (yn s) -> mapped a n (yn s) -> (0 < k)%nat ->
  yrem (stored (byte_at (yn s)) a (le_bytes k v)) s s' -> gread a n (yn (y_ret r s')) = Some (le_bytes k v).
Proof.
  intros -> H1 H2 Hk (K1 & K2 & K3). pose proof (length_le_bytes k v) as Hl.
  replace (Z.of_nat k) with (Z.of_nat (length (le_bytes k v))) by (by rewrite Hl).
  apply gread_holds; [by apply ok_putr|by rewrite Hl; apply mapped_putr, K2|by destruct (le_bytes k v); cbn in Hl; [lia|]|].
  eapply holds_at_ext; [|apply holds_stored]. intros x _. symmetry. etrans; [apply byte_putr|]. apply K3.
Qed.
Lemma ret_read a k r s : mem_ok (yn s) -> mapped a k (yn s) -> 0 < k -> gread a k (yn (y_ret r s)) = gread a k (yn s).
Proof.
  intros H1 H2 Hk. apply gread_same; [done|by apply ok_putr|done|by apply mapped_putr|done|]. intros x _. apply byte_putr.
Qed.

Lemma mutexattr_codec t p q : is_valid_guest_mutex_type t = true -> is_valid_guest_pshared p = true -> is_valid_guest_mutex_protocol q = true ->
  decode_guest_mutexattr_value (le_value (le_bytes 8 (encode_guest_mutexattr_value t p q))) = (true, (t, p, q)).
Proof.
  intros [[Ht|Ht]%orb_prop|Ht]%orb_prop [Hp|Hp]%orb_prop [Hq|Hq]%orb_prop;
    apply Z.eqb_eq in Ht as ->; apply Z.eqb_eq in Hp as ->; apply Z.eqb_eq in Hq as ->; reflexivity.
Qed.
Lemma condattr_codec c p : is_valid_guest_cond_clock c = true -> is_valid_guest_pshared p = true ->
  decode_guest_condattr_value (le_value (le_bytes 8 (encode_guest_condattr_value c p))) = (c, p).
Proof. intros [Hc|Hc]%orb_prop [Hp|Hp]%orb_prop; apply Z.eqb_eq in Hc as ->; apply Z.eqb_eq in Hp as ->; reflexivity. Qed.

Lemma mutexattr_valid a n t p q : read_guest_mutexattr a n = Some (t, p, q) ->
  is_valid_guest_mutex_type t = true /\ is_valid_guest_pshared p = true /\ is_valid_guest_mutex_protocol q = true.
Proof.
  unfold read_guest_mutexattr. destruct (invalid_object a); [done|]. destruct (gread a 8 n) as [bs|]; [|done]. unfold decode_guest_mutexattr_value.
  destruct (_ && _) eqn:Hv; [|done]. apply andb_prop in Hv as [[H1 H2]%andb_prop H3]. intros [= <- <- <-]. done.
Qed.
Lemma condattr_valid a n c p : read_guest_condattr a n = Some (c, p) -> is_valid_guest_cond_clock c = true /\ is_valid_guest_pshared p = true.
Proof.
  unfold read_guest_condattr. destruct (invalid_object a); [done|]. destruct (gread a 8 n) as [bs|]; [|done]. unfold decode_guest_condattr_value.
  intros [= <- <-]. by destruct (negb _), (negb _).
Qed.

Section Words.
Context (s : ystate) (a : Z) (Hm : mem_ok (yn s)) (Hmap : mapped a 8 (yn s)) (Ha : 0x1000 <= a).

Lemma put_mutexattr t p q : is_valid_guest_mutex_type t = true -> is_valid_guest_pshared p = true -> is_valid_guest_mutex_protocol q = true ->
  read_guest_mutexattr a (yn (ok_or_einval (write_guest_mutexattr a t p q s))) = Some (t, p, q).
Proof using RegLaws0 Hm Hmap Ha.
  intros Ht Hp Hq. unfold write_guest_mutexattr, read_guest_mutexattr. rewrite (valid_object a Ha), Ht, Hp, Hq. cbn [orb negb].
  destruct (y_write_ok a (le_bytes 8 (encode_guest_mutexattr_value t p q)) s Hm Hmap) as (s' & -> & Hr); [done|]. cbn [ok_or_einval].
  rewrite (stored_read a 8 8 (encode_guest_mutexattr_value t p q) 0 s s' eq_refl Hm Hmap) by (lia || done). by rewrite mutexattr_codec.
Qed.
Lemma put_condattr c p : is_valid_guest_cond_clock c = true -> is_valid_guest_pshared p = true ->
  read_guest_condattr a (yn (ok_or_einval (write_guest_condattr a c p s))) = Some (c, p).
Proof using RegLaws0 Hm Hmap Ha.
  intros Hc Hp. unfold write_guest_condattr, read_guest_condattr. rewrite (valid_object a Ha), Hc, Hp. cbn [orb negb].
  destruct (y_write_ok a (le_bytes 8 (encode_guest_condattr_value c p)) s Hm Hmap) as (s' & -> & Hr); [done|]. cbn [ok_or_einval].
  rewrite (stored_read a 8 8 (encode_guest_condattr_value c p) 0 s s' eq_refl Hm Hmap) by (lia || done). by rewrite condattr_codec.
Qed.
Lemma keep_mutexattr r : read_guest_mutexattr a (yn (y_ret r s)) = read_guest_mutexattr a (yn s).
Proof using RegLaws0 Hm Hmap. unfold read_guest_mutexattr. by rewrite ret_read. Qed.
Lemma keep_condattr r : read_guest_condattr a (yn (y_ret r s)) = read_guest_condattr a (yn s).
Proof using RegLaws0 Hm Hmap. unfold read_guest_condattr. by rewrite ret_read. Qed.

(** The word of a barrier attribute is 32 bits wide. *)
Lemma put_barrierattr p : is_valid_guest_pshared p = true ->
  read_guest_barrierattr a (yn (ok_or_einval (write_guest_barrierattr a p s))) = Some p.
Proof using RegLaws0 Hm Hmap Ha.
  intros Hp. assert (Hmap4 : mapped a 4 (yn s)) by (eapply mapped_sub; [apply Hmap|lia..]).
  unfold write_guest_barrierattr, read_guest_barrierattr. rewrite (valid_object a Ha), Hp. cbn [orb negb].
  destruct (y_write_ok a (le_bytes 4 p) s Hm Hmap4) as (s' & -> & Hr); [done|]. cbn [ok_or_einval].
  rewrite (stored_read a 4 4 p 0 s s' eq_refl Hm Hmap4) by (lia || done).
  apply orb_prop in Hp as [Hp|Hp]; apply Z.eqb_eq in Hp as ->; reflexivity.
Qed.
End Words.

(** [v] where it is valid, [old] where the setter refuses. *)
Definition updated (valid : Z -> bool) (v old : Z) : Z := if valid v then v else old.

(** An attribute set is the attribute read. For attribute objects in mapped
    memory: initialising gives the defaults; each setter changes its attribute and
    no other, or nothing when the value is not allowed; what the getters and the
    initialisation of an object read is the value set, so that a mutex initialised
    with the attributes is one of that type, protocol and sharing. *)
Theorem sync_attributes s a : mem_ok (yn s) -> mapped a 8 (yn s) -> 0x1000 <= a -> Y 0 s = a ->
  read_guest_mutexattr a (yn (pthread_mutexattr_init s)) = Some (PTHREAD_MUTEX_NORMAL, GUEST_PTHREAD_PROCESS_PRIVATE, PTHREAD_PRIO_NONE) /\
  read_guest_condattr a (yn (pthread_condattr_init s)) = Some (CLOCK_REALTIME, GUEST_PTHREAD_PROCESS_PRIVATE) /\
  read_guest_barrierattr a (yn (pthread_barrierattr_init s)) = Some GUEST_PTHREAD_PROCESS_PRIVATE /\
  (forall t p q, read_guest_mutexattr a (yn s) = Some (t, p, q) -> let v := s32 (Y 1 s) in
     read_guest_mutexattr a (yn (pthread_mutexattr_settype s)) = Some (updated is_valid_guest_mutex_type v t, p, q) /\
     read_guest_mutexattr a (yn (pthread_mutexattr_setpshared s)) = Some (t, updated is_valid_guest_pshared v p, q) /\
     read_guest_mutexattr a (yn (pthread_mutexattr_setprotocol s)) = Some (t, p, updated is_valid_guest_mutex_protocol v q)) /\
  (forall c p, read_guest_condattr a (yn s) = Some (c, p) -> let v := s32 (Y 1 s) in
     read_guest_condattr a (yn (pthread_condattr_setclock s)) = Some (updated is_valid_guest_cond_clock v c, p) /\
     read_guest_condattr a (yn (pthread_condattr_setpshared s)) = Some (c, updated is_valid_guest_pshared v p)) /\
  (forall s2 t p q, table_ok (g_host_mutexes s2) -> Y 1 s2 = a -> read_guest_mutexattr a (yn s2) = Some (t, p, q) -> 0x1000 <= Y 0 s2 ->
     let '(i, s3) := get_or_create_mutex (Y 0 s2) (pthread_mutex_init s2) in
     tb_objects (g_host_mutexes s3) !! i = Some (new_mutex t q p)).
Proof.
  intros Hm Hmap Ha H0. split_and!.
  - unfold pthread_mutexattr_init. rewrite H0. by apply put_mutexattr.
  - unfold pthread_condattr_init. rewrite H0. by apply put_condattr.
  - unfold pthread_barrierattr_init. rewrite H0. by apply put_barrierattr.
  - intros t p q Hr v. destruct (mutexattr_valid a (yn s) t p q Hr) as (V1 & V2 & V3). unfold updated, pthread_mutexattr_settype,
      pthread_mutexattr_setpshared, pthread_mutexattr_setprotocol. rewrite H0, Hr. fold v. split_and!.
    + destruct (is_valid_guest_mutex_type v) eqn:Hv; cbn [negb]; [by apply put_mutexattr|by rewrite keep_mutexattr].
    + destruct (is_valid_guest_pshared v) eqn:Hv; cbn [negb]; [by apply put_mutexattr|by rewrite keep_mutexattr].
    + destruct (is_valid_guest_mutex_protocol v) eqn:Hv; cbn [negb]; [by apply put_mutexattr|by rewrite keep_mutexattr].
  - intros c p Hr v. destruct (condattr_valid a (yn s) c p Hr) as (V1 & V2). unfold updated, pthread_condattr_setclock, pthread_condattr_setpshared.
    rewrite H0, Hr. fold v. split.
    + destruct (is_valid_guest_cond_clock v) eqn:Hv; cbn [negb]; [by apply put_condattr|by rewrite keep_condattr].
    + destruct (is_valid_guest_pshared v) eqn:Hv; cbn [negb]; [by apply put_condattr|by rewrite keep_condattr].
  - intros s2 t p q Hok H1 Hr Hv. unfold pthread_mutex_init. rewrite H1, (proj2 (Z.eqb_neq a 0)) by lia. rewrite Hr. unfold get_or_create_mutex.
    change (g_host_mutexes (y_ret 0 _)) with (initialize (new_mutex t q p) (Y 0 s2) (g_host_mutexes s2)).
    destruct (table_renewed default_mutex _ Hok (Y 0 s2) (new_mutex t q p) Hv) as (i & -> & _ & Ho & _). done.
Qed.
End Handlers.

(** * Witnesses *)

#[export] Instance demo_rw_init : HostRwInit := fun _ _ => 0.
Definition demo_sync (x0 x1 : Z) : ystate (E := RefEnv) := no_objects (demo_native <| nt_mem := text_regs x0 x1 0 |>).

Lemma sync_objects_witness : (get_or_create_mutex 0x1200 (pthread_mutex_lock (demo_sync 0x1100 0)).2).1 <> (get_or_create_mutex 0x1100 (demo_sync 0x1100 0)).1.
Proof.
  destruct (sync_objects _ (demo_sync 0x1100 0) (rtc_refl _ _)) as ((H & _) & _).
  destruct (H 0x1100 0x1200 ltac:(done) ltac:(done) ltac:(done)) as [H1 _]. intros He. apply H1. symmetry. exact He.
Defined.

Lemma sync_attributes_witness :
  read_guest_mutexattr 0x1100 (yn (pthread_mutexattr_init (demo_sync 0x1100 1))) = Some (0, 0, 0).
Proof.
  apply (sync_attributes (demo_sync 0x1100 1) 0x1100); [destruct (text_sane 0x1100 1 0); done|apply (text_mapped 0x1100 1 0); lia|done|done].
Defined.
