(* ===== verification/HleErrno.v ===== *)
(** The guest's errno (src/src/hle/hle_misc.cpp): where it lives and how handlers
    read and set it. *)

From S2P Require Import Prelude Env MemoryManager MemorySpec Machine HostAccess HleMonad.

Definition EINVAL : Z := 22.
Definition ENOMEM : Z := 12.
Definition ESRCH : Z := 3.

Definition ERRNO_ADDR : Z := 0xC0000100.

Section Errno.
Context {S : Type} `{M : !Machine S, HV : !HostView S}.
Implicit Types s : S.

(** [mem_read] into zeroed memory, the result ignored. *)
Definition rd (a n : Z) s : Z := le_value (default (unread a n s) (gread a n s)).

Definition guest_errno_addr s : Z := let tpidr := getr REG_TPIDR_EL0 s in if 8 <=? tpidr then tpidr ⊖ 8 ⊕ 0x100 else ERRNO_ADDR.
Definition hle_get_errno s : Z := s32 (rd (guest_errno_addr s) 4 s).
Definition hle_set_errno (value : Z) : hle S unit := fun s => mem_wr (guest_errno_addr s) (le_bytes 4 value) s.

End Errno.
