(* ===== verification/MappedSpec.v ===== *)
(** The bulk operations of [MemoryManager] on mapped memory, before QEMU is ready
    and after: [zero] and the copy loop of [realloc_guest_memory], with a heap
    allocation, all as changes of the byte map. *)

From S2P Require Import Prelude Env HeapAllocator HeapSpec MemoryManager MemorySpec Machine HostAccess HleMonad.

(** * Byte maps *)

Lemma stored_nil f a x : stored f a [] x = f x.
Proof. apply stored_out. simpl. lia. Qed.

Lemma stored_ext f g a bs x : (forall y, f y = g y) -> stored f a bs x = stored g a bs x.
Proof. intros H. unfold stored. by destruct (decide _). Qed.

Lemma became_ext {S} `{M : !Machine S, L : !MemLaws S, R : !RegFileLaws S, V : !HostView S, HL : !HostLaws S} (s : S) f g s' :
  (forall x, f x = g x) -> became s f s' -> became s g s'.
Proof. intros H [H1 H2 H3 H4 H5]. constructor; try done. intros x. by rewrite H4. Qed.

(** * Fuel of a loop over chunks of at most [z] bytes *)

Lemma fuel_more n offset z fuel : offset < n -> 0 < z -> n - offset <= (Z.of_nat (S fuel) - 1) * z -> (0 < fuel)%nat.
Proof. intros. destruct fuel; [simpl in *|]; lia. Qed.

Lemma fuel_left n offset z fuel : offset < n -> 0 < z -> n - offset <= (Z.of_nat (S fuel) - 1) * z ->
  n - (offset + Z.min (n - offset) z) <= (Z.of_nat fuel - 1) * z.
Proof.
  intros H1 H2 H3. pose proof (fuel_more n offset z fuel H1 H2 H3). rewrite Nat2Z.inj_succ in H3.
  destruct (Z.min_spec (n - offset) z) as [[? ->]|[? ->]]; nia.
Qed.

Section Bulk.
Context {E : Env} `{!HostAccess E, !GuestMemLaws E, !CpuMemLaws E, !RegLaws E, !HostAccessLaws E}.
Implicit Types s : mstate.

(** Only bytes change. *)
Definition wrote s (f : Z -> option Z) s' : Prop := became s f s' /\ mm s' = mm s.

Lemma wrote_refl s : sane s -> wrote s (byte_at s) s.
Proof. intros H. split; [by apply became_refl|done]. Qed.

Lemma wrote_write a bs s0 f s : wrote s0 f s -> mapped a (Z.of_nat (length bs)) s0 -> bs <> [] ->
  exists s', mem_write a bs s = (true, s') /\ wrote s0 (stored f a bs) s'.
Proof.
  intros [Hb Hm] Hmap Hne. pose proof (write_became a bs s0 f s Hb Hmap Hne) as Hw. cbn in Hw. pose proof (mm_write a bs s) as Hmm.
  destruct (gwrite_mapped a bs s) as (s' & E1 & _); [apply Hb|by apply Hb|done|]. cbn in E1. rewrite E1 in *.
  exists s'. split; [done|]. split; [done|]. cbn in Hmm. by rewrite Hmm.
Qed.

(** [zero]'s loop: the bytes from [offset] on. *)
Lemma zero_loop_mapped fuel s0 a n z : sane s0 -> mapped a n s0 -> 0 < n -> forall offset f s,
  wrote s0 f s -> 0 <= offset <= n -> 0 < z -> n - offset <= (Z.of_nat fuel - 1) * z -> (0 < fuel)%nat ->
  exists s', zero_loop fuel a n z offset s = (true, s') /\ wrote s0 (stored f (a + offset) (replicate (Z.to_nat (n - offset)) 0)) s'.
Proof.
  intros Hs Hmap Hn. pose proof (mapped_range a n s0 (sane_mem _ Hs) Hmap) as [? ?].
  induction fuel as [|fuel IH]; intros offset f s Hw Ho Hz Hf Hp; [lia|]. cbn [zero_loop].
  destruct (Z.ltb_spec offset n) as [Hlt|Hge].
  - rewrite (u64_small (n - offset)) by u64_lia. set (c := Z.min (n - offset) z). assert (0 < c <= n - offset) by lia.
    rewrite (u64_small (a + offset)) by u64_lia.
    destruct (wrote_write (a + offset) (replicate (Z.to_nat c) 0) s0 f s Hw) as (s1 & E1 & Hw1).
    + rewrite length_replicate, Z2Nat.id by lia. eapply mapped_sub; [done|lia..].
    + destruct (Z.to_nat c) eqn:Ec; [lia|done].
    + rewrite E1, (u64_small (offset + c)) by u64_lia.
      destruct (IH (offset + c) _ s1 Hw1) as (s' & E2 & Hb & Hm); [lia|done|by apply (fuel_left n offset z fuel)|by apply (fuel_more n offset z fuel)|].
      exists s'. split; [done|]. split; [|done]. eapply became_ext; [|exact Hb]. intros x. cbn beta.
      replace (Z.to_nat (n - offset)) with (Z.to_nat c + Z.to_nat (n - (offset + c)))%nat by lia.
      rewrite replicate_add, <- stored_app, length_replicate. f_equal. lia.
  - exists s. split; [done|]. replace (Z.to_nat (n - offset)) with 0%nat by lia. cbn [replicate].
    destruct Hw as [Hb Hm]. split; [|done]. eapply became_ext; [|exact Hb]. intros x. by rewrite stored_nil.
Qed.

(** [zero] on a mapped range succeeds and leaves it zero. *)
Lemma zero_mapped s a n : sane s -> mapped a n s -> 0 < n ->
  exists s', zero_ a n s = (true, s') /\ wrote s (stored (byte_at s) a (replicate (Z.to_nat n) 0)) s'.
Proof.
  intros Hs Hm Hn.
  destruct (zero_loop_mapped (chunk_fuel n ZERO_CHUNK) s a n (Z.min n ZERO_CHUNK) Hs Hm Hn 0 (byte_at s) s) as (s' & E1 & H').
  - by apply wrote_refl.
  - lia.
  - unfold ZERO_CHUNK. lia.
  - pose proof (chunk_fuel_enough n ZERO_CHUNK ltac:(lia) ltac:(done)). lia.
  - unfold chunk_fuel. lia.
  - rewrite Z.sub_0_r, Z.add_0_r in H'. by exists s'.
Qed.

(** [realloc_guest_memory]'s loop: the rest [bs] of the old block is stored behind
    what was copied before. *)
Lemma copy_loop_mapped fuel s0 a b n : sane s0 -> mapped a n s0 -> mapped b n s0 -> 0 < n -> disj b n a n -> forall bs offset f s,
  wrote s0 f s -> offset = n - Z.of_nat (length bs) -> 0 <= offset -> holds_at f (a + offset) bs ->
  n - offset <= (Z.of_nat fuel - 1) * COPY_CHUNK -> (0 < fuel)%nat ->
  exists s', copy_loop fuel a b n offset s = (true, s') /\ wrote s0 (stored f (b + offset) bs) s'.
Proof.
  intros Hs Ha Hb Hn Hd. pose proof (mapped_range a n s0 (sane_mem _ Hs) Ha) as [? ?].
  pose proof (mapped_range b n s0 (sane_mem _ Hs) Hb) as [? ?].
  induction fuel as [|fuel IH]; intros bs offset f s Hw Eo Ho Hh Hf Hp; [lia|]. cbn [copy_loop].
  destruct (Z.ltb_spec offset n) as [Hlt|Hge].
  - rewrite (u64_small (n - offset)) by u64_lia. set (c := Z.min (n - offset) COPY_CHUNK). assert (0 < c <= n - offset) by (unfold c, COPY_CHUNK; lia).
    rewrite (u64_small (a + offset)), (u64_small (b + offset)) by u64_lia.
    rewrite <- (take_drop (Z.to_nat c) bs) in Hh. apply holds_at_app in Hh as [Hh1 Hh2].
    assert (Hl : Z.of_nat (length (take (Z.to_nat c) bs)) = c) by (rewrite length_take; lia).
    assert (Hne : take (Z.to_nat c) bs <> []) by (intros E'; rewrite E' in Hl; simpl in Hl; lia).
    assert (Hr : mem_read (a + offset) c s = Some (take (Z.to_nat c) bs)).
    { change (gread (a + offset) c s = Some (take (Z.to_nat c) bs)). rewrite <- Hl at 1. destruct Hw as [[Hsn Hmp _ Hbt _] _]. apply (gread_holds (S := mstate)); [apply Hsn| |done|].
      - apply Hmp. rewrite Hl. eapply mapped_sub; [exact Ha|lia..].
      - eapply holds_at_ext; [|exact Hh1]. intros x _. symmetry. apply Hbt. }
    rewrite Hr. destruct (wrote_write (b + offset) (take (Z.to_nat c) bs) s0 f s Hw) as (s1 & E1 & Hw1); [|done|].
    { rewrite Hl. eapply mapped_sub; [exact Hb|lia..]. }
    rewrite E1, (u64_small (offset + c)) by u64_lia.
    destruct (IH (drop (Z.to_nat c) bs) (offset + c) _ s1 Hw1) as (s' & E2 & Hb' & Hm); [rewrite length_drop; lia|lia| |..].
    { replace (a + (offset + c)) with (a + offset + Z.of_nat (length (take (Z.to_nat c) bs))) by lia.
      apply holds_stored_disj; [|done]. unfold disj in *. rewrite length_drop, Hl. lia. }
    { by apply (fuel_left n offset COPY_CHUNK fuel). }
    { by apply (fuel_more n offset COPY_CHUNK fuel). }
    exists s'. split; [done|]. split; [|done]. eapply became_ext; [|exact Hb']. intros x. cbn beta.
    replace (b + (offset + c)) with (b + offset + Z.of_nat (length (take (Z.to_nat c) bs))) by lia.
    by rewrite stored_app, take_drop.
  - destruct bs; [|simpl in Eo; lia]. exists s. split; [done|]. destruct Hw as [Hb' Hm]. split; [|done].
    eapply became_ext; [|exact Hb']. intros x. by rewrite stored_nil.
Qed.

(** The copy of a whole block. *)
Lemma copy_mapped s a b n bs : sane s -> mapped a n s -> mapped b n s -> 0 < n -> disj b n a n ->
  n = Z.of_nat (length bs) -> holds_at (byte_at s) a bs ->
  exists s', copy_loop (chunk_fuel n COPY_CHUNK) a b n 0 s = (true, s') /\ wrote s (stored (byte_at s) b bs) s'.
Proof.
  intros Hs Ha Hb Hn Hd -> Hh.
  destruct (copy_loop_mapped (chunk_fuel (Z.of_nat (length bs)) COPY_CHUNK) s a b (Z.of_nat (length bs)) Hs Ha Hb Hn Hd bs 0 (byte_at s) s)
    as (s' & E1 & H'); [by apply wrote_refl|lia..|by rewrite Z.add_0_r| | |].
  - pose proof (chunk_fuel_enough (Z.of_nat (length bs)) COPY_CHUNK ltac:(lia) ltac:(done)). unfold COPY_CHUNK in *. nia.
  - unfold chunk_fuel. lia.
  - rewrite Z.add_0_r in H'. by exists s'.
Qed.

End Bulk.
