(* ===== verification/HleAlloc.v ===== *)
(** The emulated allocation functions (src/src/hle/hle_memory.cpp): malloc, calloc,
    realloc, free, posix_memalign, aligned_alloc, mmap, munmap, brk and sbrk, on
    top of [MemoryManager]'s guest allocations, the budget of mappings
    (include/hle_mmap_state.h) and the program break (include/hle_brk_state.h).

    Handlers are programs of the handler monad over [astate]: guest memory, the
    registry that holds the mapping budget, the program break and the counter
    mmap draws its reservation keys from. *)

From S2P Require Import Prelude Env HeapAllocator MemoryManager MemorySpec Machine HostAccess HleMonad HleErrno Lift SyscallHandler NativeThreads.

Definition INTPTR_MAX : Z := 2 ^ 63 - 1.

Definition is_power_of_two (value : Z) : bool := negb (value =? 0) && (Z.land value (value ⊖ 1) =? 0).

Section Alloc.
Context {E : Env} `{!HostAccess E}.

Record astate := {
  a_mem : mstate;
  a_vmas : Registry;
  a_brk : GuestBrkState;
  g_next_mmap_reservation_key : Z;
}.

Definition eta_as (s : astate) : astate := Build_astate (a_mem s) (a_vmas s) (a_brk s) (g_next_mmap_reservation_key s).
#[export] Instance set_a_mem : Setter a_mem := ltac:(build_setter eta_as a_mem).
#[export] Instance set_a_vmas : Setter a_vmas := ltac:(build_setter eta_as a_vmas).
#[export] Instance set_a_brk : Setter a_brk := ltac:(build_setter eta_as a_brk).
#[export] Instance set_a_key : Setter g_next_mmap_reservation_key := ltac:(build_setter eta_as g_next_mmap_reservation_key).

Definition as_put (m : mstate) (s : astate) : astate := s <| a_mem := m |>.
#[export] Instance astate_machine : Machine astate := lift_machine a_mem as_put.
#[export] Instance astate_host : HostView astate := lift_host a_mem as_put.

Notation prog := (hle astate).

(** A call into the memory manager, and one into the mapping budget. *)
Definition on_mem {A} (f : mstate -> A * mstate) : prog A := fun s =>
  let '(a, m) := f (a_mem s) in Ret a (s <| a_mem := m |>).
Definition on_vmas {A} (f : Registry -> A * Registry) : prog A := fun s =>
  let '(a, r) := f (a_vmas s) in Ret a (s <| a_vmas := r |>).

(** The calls the handlers make. *)
Definition guest_alloc (size alignment : Z) : prog Z := on_mem (allocate_guest_memory size alignment).
Definition guest_free (address : Z) : prog unit := on_mem (fun m => (tt, free_guest_memory address m)).
Definition guest_zero (address size : Z) : prog bool := on_mem (zero_ address size).
Definition try_reserve (key count : Z) : prog bool := on_vmas (hle_try_reserve_vmas key count).
Definition release (key : Z) : prog unit := on_vmas (fun r => (tt, hle_release_vmas key r)).

(** * Basic allocation *)

Definition hle_malloc : prog unit :=
  size ← get_x X0;
  ptr ← guest_alloc size 16;
  set_x X0 ptr.

Definition hle_calloc : prog unit :=
  nmemb ← get_x X0;
  size ← get_x X1;
  let total := u64 (nmemb * size) in
  ptr ← guest_alloc total 16;
  (if negb (ptr =? 0) then guest_zero ptr total;; mret tt else mret tt);;
  set_x X0 ptr.

Definition hle_realloc : prog unit :=
  old_ptr ← get_x X0;
  new_size ← get_x X1;
  if old_ptr =? 0
  then new_ptr ← guest_alloc new_size 16; set_x X0 new_ptr
  else if new_size =? 0
  then guest_free old_ptr;; set_x X0 0
  else
    old_size ← on_mem (fun m => (get_guest_allocation_size old_ptr m, m));
    if old_size =? 0 then set_x X0 0
    else if new_size <=? old_size then set_x X0 old_ptr
    else new_ptr ← on_mem (realloc_guest_memory old_ptr new_size true); set_x X0 new_ptr.

Definition hle_free : prog unit :=
  ptr ← get_x X0;
  if negb (ptr =? 0) then guest_free ptr else mret tt.

Definition kGuestPointerSize : Z := 8.

Definition hle_posix_memalign : prog unit :=
  memptr ← get_x X0;
  alignment ← get_x X1;
  size ← get_x X2;
  if (memptr =? 0) || (alignment <? kGuestPointerSize) || negb (is_power_of_two alignment)
     || negb (alignment mod kGuestPointerSize =? 0)
  then set_x X0 EINVAL
  else if INTPTR_MAX <? size then set_x X0 ENOMEM
  else
    ptr ← guest_alloc size alignment;
    if negb (ptr =? 0) then mem_wr memptr (le_bytes 8 ptr);; set_x X0 0
    else set_x X0 ENOMEM.

Definition hle_aligned_alloc : prog unit :=
  alignment ← get_x X0;
  size ← get_x X1;
  if negb (is_power_of_two alignment) || (INTPTR_MAX <? size)
  then hle_set_errno (if negb (is_power_of_two alignment) then EINVAL else ENOMEM);; set_x X0 0
  else if negb (size mod alignment =? 0)
  then hle_set_errno EINVAL;; set_x X0 0
  else
    ptr ← guest_alloc size alignment;
    (if ptr =? 0 then hle_set_errno ENOMEM else mret tt);;
    set_x X0 ptr.

(** * Memory mapping *)

(** [g_next_mmap_reservation_key.fetch_add(0x1000)]. *)
Definition next_key : prog Z := fun s =>
  Ret (g_next_mmap_reservation_key s) (s <| g_next_mmap_reservation_key ::= fun k => k ⊕ 0x1000 |>).

(** The body mmap and mmap64 share: the address, protection, flags, descriptor and
    offset are not looked at. *)
Definition map_pages (length : Z) : prog unit :=
  reservation_key ← next_key;
  reserved ← try_reserve reservation_key 1;
  if negb reserved
  then hle_set_errno ENOMEM;; set_x X0 (-1)
  else
    ptr ← guest_alloc length 4096;
    (if negb (ptr =? 0)
     then guest_zero ptr length;; release reservation_key;; try_reserve ptr 1;; mret tt
     else release reservation_key;; hle_set_errno ENOMEM);;
    set_x X0 (if negb (ptr =? 0) then ptr else -1).

Definition hle_mmap : prog unit := length ← get_x X1; map_pages length.
Definition hle_mmap64 : prog unit := length ← get_x X1; map_pages length.

Definition hle_munmap : prog unit :=
  addr ← get_x X0;
  (if negb (addr =? 0) then guest_free addr else mret tt);;
  release addr;;
  set_x X0 0.

Definition hle_mprotect : prog unit := set_x X0 0.
Definition hle_mlock : prog unit := set_x X0 0.
Definition hle_munlock : prog unit := set_x X0 0.
Definition hle_madvise : prog unit := set_x X0 0.

(** * Program break *)

Definition brk_init : prog unit := fun s =>
  Ret tt (s <| a_brk ::= guest_brk_initialize (base_ (heap_ (mm (a_mem s)))) |>).
Definition brk_now : prog Z := fun s => Ret (current_brk (a_brk s)) s.
Definition brk_move (addr : Z) : prog unit := fun s =>
  Ret tt (s <| a_brk ::= fun b => {| initial_brk := initial_brk b; current_brk := addr |} |>).

Definition hle_brk : prog unit :=
  addr ← get_x X0;
  brk_init;;
  if (addr =? 0) || (INTPTR_MAX <? addr)
  then hle_set_errno ENOMEM;; set_x X0 (-1)
  else brk_move addr;; set_x X0 0.

Definition hle_sbrk : prog unit :=
  x ← get_x X0;
  let increment := s64 x in
  brk_init;;
  old_brk ← brk_now;
  if increment =? 0 then set_x X0 old_brk
  else
    let new_brk := s64 old_brk + increment in
    if negb ((- 2 ^ 63 <=? new_brk) && (new_brk <? 2 ^ 63)) || (new_brk <? 0)
    then hle_set_errno ENOMEM;; set_x X0 (-1)
    else brk_move (u64 new_brk);; set_x X0 old_brk.

End Alloc.
