(* ===== verification/HleAllocSpec.v ===== *)
(** What the emulated allocation functions promise the guest: blocks, the budget
    of mappings, the program break and the contents of blocks. *)

From S2P Require Import Prelude Env HeapAllocator HeapSpec MemoryManager MemorySpec Machine HostAccess ElfSpec HleMonad HleErrno MappedSpec Lift SyscallHandler NativeThreads HleAlloc.

Create HintDb silent.

(** Registers X0 to X30 hold any 64-bit value, and writing a register maps no host
    memory. *)
Class WideRegs (E : Env) `{!RegLaws E, !HostMapLaws E} := {
  wide_reg r v : 0 <= r <= 30 -> 0 <= v < two64 -> reg_ok r v;
  host_blocks_write_reg r v e : host_blocks (write_reg r v e) = host_blocks e;
}.

(** * Powers of two *)

Lemma is_power_of_two_spec v : 0 <= v < two64 -> is_power_of_two v = true -> pow2 v.
Proof.
  intros Hv. unfold is_power_of_two. rewrite andb_true_iff, negb_true_iff, Z.eqb_neq, Z.eqb_eq. intros [Hne Hl].
  rewrite u64_small in Hl by u64_lia. exists (Z.log2 v). pose proof (Z.log2_nonneg v).
  assert (Z.log2 v < 64) by (apply Z.log2_lt_pow2; [lia|]; exact (proj2 Hv)). split; [lia|].
  destruct (Z.log2_spec v ltac:(lia)) as [H1 H2]. destruct (decide (v = 2 ^ Z.log2 v)) as [|Hd]; [done|]. exfalso.
  assert (Hb : Z.testbit (Z.land v (v - 1)) (Z.log2 v) = true).
  { rewrite Z.land_spec, Z.bit_log2 by lia. replace (Z.log2 v) with (Z.log2 (v - 1)) by (apply Z.log2_unique; lia).
    by rewrite Z.bit_log2 by lia. }
  by rewrite Hl, Z.bits_0 in Hb.
Qed.

Lemma pow2_mod8 al : pow2 al -> 8 <= al -> al mod 8 = 0.
Proof.
  intros (k & Hk & ->) Hal. apply Z.mod_divide; [done|].
  assert (3 <= k) by (destruct (decide (k < 3)); [|lia]; assert (k = 0 \/ k = 1 \/ k = 2) as [-> | [-> | ->]] by lia; lia).
  exists (2 ^ (k - 3)). replace k with (k - 3 + 3) at 1 by lia. by rewrite Z.pow_add_r by lia.
Qed.

(** * Blocks *)

(** One request for [n] bytes at a multiple of [al]: it fails and changes nothing,
    or yields a block of at least [n] bytes that meets no block in use. *)
Definition gives (m : gmap Z Z) (n al r : Z) (m' : gmap Z Z) : Prop :=
  (r = 0 /\ m' = m) \/
  (0 < r < two64 /\ (al | r) /\ exists k, request n <= k /\ m' = <[r := k]> m /\ forall b j, m !! b = Some j -> disj r k b j).

Section Blocks.
Context {E : Env} `{!HostAccess E, !GuestMemLaws E, !CpuMemLaws E, !RegLaws E, !HostAccessLaws E, !HostMapLaws E, !WideRegs E}.
Implicit Types s : mstate.

(** The blocks the guest holds. *)
Definition live_blocks s : gmap Z Z := allocations_ (heap_ (mm s)) ∪ dynamic_allocations_ (mm s).

Lemma live_blocks_spec s b k : mem_wf s -> live_blocks s !! b = Some k <-> live s b k.
Proof.
  intros H. unfold live_blocks, live. rewrite lookup_union_Some; [done|].
  apply map_disjoint_spec. intros a x y Hx Hy. apply live_heap in Hx; [|done]. apply live_dyn in Hy; [|done].
  unfold HEAP_BASE, HEAP_SIZE, DYNAMIC_ALLOC_BASE in *. lia.
Qed.

Lemma live_blocks_eq s s' : mem_wf s -> mem_wf s' -> (forall b k, live s' b k <-> live s b k) -> live_blocks s' = live_blocks s.
Proof. intros H H' Hl. apply map_eq. intros b. apply option_eq. intros k. by rewrite !live_blocks_spec. Qed.

(** What the allocator keeps of the machine, whatever happens to memory. *)
Record usable s : Prop := {
  us_wf : mem_wf s;
  us_heap : heap_mapped s;
  us_cpu : has_cpu (ext s) = true;
}.

Lemma usable_books s s' : mm s' = mm s -> host_blocks (ext s') = host_blocks (ext s) -> has_cpu (ext s') = has_cpu (ext s) -> usable s -> usable s'.
Proof.
  intros Em Eb Ec [[[] ? ? ? ? ? ?] Hh Hc]. constructor; [|unfold heap_mapped; by rewrite Em|congruence].
  constructor; [constructor|..]; rewrite ?Em, ?Eb; done.
Qed.

Lemma mem_map_cpu a n p nm s : has_cpu (ext (mem_map a n p nm s).2) = has_cpu (ext s).
Proof.
  unfold mem_map. pose proof (has_cpu_host_mmap n (ext s)) as Hm. destruct (host_mmap n (ext s)) as [[hp|] e1]; cbn in *; [|done].
  destruct (qemu_ready_ (mm s)); [|done]. pose proof (has_cpu_target_mmap a n (prot_of p) e1) as Ht.
  destruct (target_mmap _ _ _ _) as [r e2]. cbn in *. repeat case_match; cbn; rewrite ?has_cpu_host_munmap; congruence.
Qed.

Lemma alloc_cpu n al s : has_cpu (ext (allocate_guest_memory n al s).2) = has_cpu (ext s).
Proof.
  unfold allocate_guest_memory. destruct (allocate _ _ _) as [ptr h]. destruct (negb _); [done|].
  match goal with |- context [mem_map ?a ?n ?p ?nm ?s0] => pose proof (mem_map_cpu a n p nm s0) as Hm; destruct (mem_map a n p nm s0) as [[] s1] end; exact Hm.
Qed.

Lemma free_cpu a s : has_cpu (ext (free_guest_memory a s)) = has_cpu (ext s).
Proof.
  unfold free_guest_memory. destruct (_ =? _); [done|]. destruct (_ !! _); [|done]. unfold unmap.
  repeat case_match; cbn; rewrite ?has_cpu_host_munmap; done.
Qed.

(** ** The memory manager's calls *)

Lemma alloc_step s n al p s' : usable s -> pow2 al -> 0 <= n -> no_wrap (heap_ (mm s)) (request n) al -> dyn_room s (request n) al ->
  allocate_guest_memory n al s = (p, s') -> usable s' /\ gives (live_blocks s) n al p (live_blocks s').
Proof.
  intros [H Hh Hc] Hal Hn Hw Hr Ha. pose proof (alloc_cpu n al s) as Hcpu. rewrite Ha in Hcpu. cbn in Hcpu.
  destruct (alloc_guest_cases s n al p s' H Hal Hn Hw Hr Ha) as (H' & Hk & Hcase).
  split; [constructor; [done|by eapply keeps_heap_mapped|congruence]|].
  destruct Hcase as [[-> Hl]|(Hne & Hdiv & m & Hm & Hadd & Hdis)].
  - left. split; [done|]. by apply live_blocks_eq.
  - right. assert (Hlp : live s' p m) by (apply Hadd; by left). pose proof (request_pos n Hn).
    pose proof (live_bounds s' p m H' Hlp). destruct (live_backed s' p m H') as (? & ? & ? & _); [by eapply keeps_heap_mapped|done|].
    split; [lia|]. split; [done|]. exists m. split; [done|]. split.
    + apply map_eq. intros b. apply option_eq. intros k. rewrite live_blocks_spec, Hadd by done.
      rewrite lookup_insert_Some, live_blocks_spec by done. destruct (decide (b = p)) as [->|]; [|naive_solver].
      split; [intros [[_ ->]|Hl]; [by left|]|naive_solver]. exfalso. apply Hdis in Hl as Hd.
      destruct (live_backed s p k H Hh Hl) as (? & _). unfold disj in Hd. lia.
    + intros b j Hj%live_blocks_spec; [|done]. by apply Hdis.
Qed.

Lemma free_step s a : usable s -> usable (free_guest_memory a s) /\ live_blocks (free_guest_memory a s) = delete a (live_blocks s).
Proof.
  intros [H Hh Hc]. destruct (free_guest_cases s a H Hh) as (H' & Hh' & _ & _ & Hl & _). split.
  - constructor; [done..|]. by rewrite free_cpu.
  - apply map_eq. intros b. apply option_eq. intros k. rewrite live_blocks_spec, Hl by done.
    rewrite lookup_delete_Some, live_blocks_spec by done. naive_solver.
Qed.

(** Writes change no book. *)
Lemma write_step a bs s : usable s -> usable (mem_write a bs s).2 /\ live_blocks (mem_write a bs s).2 = live_blocks s.
Proof.
  intros H. destruct (mem_write_keeps a bs s) as [Em Eb].
  split; [|unfold live_blocks; by rewrite Em]. eapply usable_books, H; [done..|]. rewrite (us_cpu _ H).
  exact (cpu_gwrite a bs s (us_cpu _ H)).
Qed.

Lemma zero_loop_step fuel a n z o s : usable s -> usable (zero_loop fuel a n z o s).2 /\ live_blocks (zero_loop fuel a n z o s).2 = live_blocks s.
Proof.
  revert o s. induction fuel as [|fuel IH]; intros o s H; cbn [zero_loop]; [done|]. destruct (_ <? _); [|done].
  match goal with |- context [mem_write ?x ?l s] => pose proof (write_step x l s H) as [H1 E1]; destruct (mem_write x l s) as [[] s1] end; cbn in *; [|done].
  destruct (IH (o ⊕ Z.min (n ⊖ o) z) s1 H1) as [H2 E2]. split; [done|congruence].
Qed.

Lemma zero_step a n s : usable s -> usable (zero_ a n s).2 /\ live_blocks (zero_ a n s).2 = live_blocks s.
Proof. apply zero_loop_step. Qed.

Lemma copy_loop_step fuel a b n o s : usable s -> usable (copy_loop fuel a b n o s).2 /\ live_blocks (copy_loop fuel a b n o s).2 = live_blocks s.
Proof.
  revert o s. induction fuel as [|fuel IH]; intros o s H; cbn [copy_loop]; [done|]. destruct (_ <? _); [|done].
  destruct (mem_read _ _ _) as [buf|]; [|done].
  match goal with |- context [mem_write ?x ?l s] => pose proof (write_step x l s H) as [H1 E1]; destruct (mem_write x l s) as [[] s1] end; cbn in *; [|done].
  destruct (IH (o ⊕ Z.min (n ⊖ o) COPY_CHUNK) s1 H1) as [H2 E2]. split; [done|congruence].
Qed.

Lemma reg_step r v s : usable s -> usable (putr r v s) /\ live_blocks (putr r v s) = live_blocks s.
Proof.
  intros H. split; [|done]. eapply usable_books, H; [done|..]; cbn; unfold set_reg; rewrite (us_cpu _ H); [apply host_blocks_write_reg|].
  by rewrite has_cpu_write_reg, (us_cpu _ H).
Qed.

(** [realloc_guest_memory] on a block in use that has to grow. *)
Lemma realloc_step s a n p s' old : usable s -> 0 < n < two64 -> no_wrap (heap_ (mm s)) n 16 -> dyn_room s n 16 ->
  live_blocks s !! a = Some old -> old < n -> realloc_guest_memory a n true s = (p, s') ->
  usable s' /\ ((p = 0 /\ live_blocks s' = live_blocks s) \/
    (0 < p < two64 /\ (16 | p) /\ exists k, n <= k /\ live_blocks s' = <[p := k]> (delete a (live_blocks s)) /\
       forall b j, live_blocks s !! b = Some j -> disj p k b j)).
Proof.
  intros H Hn Hw Hr Hold Hlt. pose proof H as [Hwf Hh _]. pose proof (proj1 (live_blocks_spec s a old Hwf) Hold) as Hl.
  pose proof (live_bounds s a old Hwf Hl). destruct (live_backed s a old Hwf Hh Hl) as (? & _). unfold realloc_guest_memory.
  rewrite (proj2 (Z.eqb_neq a 0)), (proj2 (Z.eqb_neq n 0)), (alloc_get_size s a old Hwf Hl), (proj2 (Z.eqb_neq old 0)), (proj2 (Z.leb_gt n old)) by lia.
  assert (Hreq : request n = n) by (unfold request; by rewrite (proj2 (Z.eqb_neq n 0)) by lia).
  destruct (allocate_guest_memory n 16 s) as [q s1] eqn:Ha.
  apply alloc_step in Ha as [Hu1 Hg]; rewrite ?Hreq; auto using pow2_16; [|lia].
  destruct Hg as [[-> E1]|(Hq & Hdiv & k & Hk & E1 & Hd)].
  { intros [= <- <-]. split; [done|]. left. by rewrite E1. }
  rewrite Hreq in Hk. rewrite (proj2 (Z.eqb_neq q 0)) by lia. destruct (copy_loop_step (chunk_fuel old COPY_CHUNK) a q old 0 s1 Hu1) as [H2 E2].
  destruct (copy_loop _ _ _ _ _ _) as [[] s2]; cbn in H2, E2; intros [= <- <-].
  - destruct (free_step s2 a H2) as [H3 E3]. split; [done|]. right. split; [done|]. split; [done|]. exists k. split; [done|]. split; [|done].
    rewrite E3, E2, E1. rewrite delete_insert_ne; [done|]. intros ->. apply Hd in Hold. unfold disj in Hold. lia.
  - destruct (free_step s2 q H2) as [H3 E3]. split; [done|]. left. split; [done|]. rewrite E3, E2, E1. apply delete_insert_id.
    destruct (live_blocks s !! q) as [j|] eqn:Ej; [|done]. apply Hd in Ej as Hdj. apply live_blocks_spec in Ej; [|done].
    destruct (live_backed s q j Hwf Hh Ej) as (? & _). unfold disj in Hdj. lia.
Qed.

(** * The budget of mappings *)

(** The count is the sum of the reservations and within the limit. *)
Definition vma_sum (m : gmap Z Z) : Z := map_fold (fun _ v acc => v + acc) 0 m.
Definition vma_ok (r : Registry) : Prop :=
  g_guest_vma_count r = vma_sum (g_guest_vma_reservations r) /\ g_guest_vma_count r <= GUEST_VMA_LIMIT /\
  map_Forall (fun _ v => 0 <= v) (g_guest_vma_reservations r).

Lemma vma_sum_delete m k v : m !! k = Some v -> vma_sum m = v + vma_sum (delete k m).
Proof. intros H. unfold vma_sum. rewrite (map_fold_delete_L _ _ k v); [done|intros; lia|done]. Qed.

Lemma vma_sum_insert m k v : vma_sum (<[k := v]> m) = v + vma_sum (delete k m).
Proof.
  rewrite <- insert_delete_eq. unfold vma_sum. rewrite map_fold_insert_L; [done|intros; lia|apply lookup_delete_eq].
Qed.

Lemma vma_sum_default m k : default 0 (m !! k) + vma_sum (delete k m) = vma_sum m.
Proof. destruct (m !! k) as [v|] eqn:Hk; cbn; [by rewrite (vma_sum_delete m k v)|]. by rewrite delete_id. Qed.

Lemma vma_sum_nonneg m : map_Forall (fun _ v => 0 <= v) m -> 0 <= vma_sum m.
Proof.
  intros H. unfold vma_sum. induction m as [|k v m Hk Hf IH] using map_first_key_ind; [by rewrite map_fold_empty|].
  rewrite map_fold_insert_L; [|intros; lia|done]. apply map_Forall_insert in H as [? ?]; [|done]. specialize (IH ltac:(done)). lia.
Qed.

Lemma reserve_step key n r : vma_ok r -> 0 <= n -> vma_ok (hle_try_reserve_vmas key n r).2.
Proof.
  intros (E1 & Hl & Hp) Hn. unfold hle_try_reserve_vmas. destruct (_ || _); [done|]. destruct (Z.ltb_spec GUEST_VMA_LIMIT (g_guest_vma_count r + n)); [done|].
  split_and!; cbn.
  - rewrite vma_sum_insert. pose proof (vma_sum_default (g_guest_vma_reservations r) key). lia.
  - lia.
  - apply map_Forall_insert_2; [|done]. destruct (g_guest_vma_reservations r !! key) as [v|] eqn:Hv; cbn; [apply Hp in Hv|]; lia.
Qed.

Lemma release_step key r : vma_ok r -> vma_ok (hle_release_vmas key r).
Proof.
  intros (E1 & Hl & Hp). unfold hle_release_vmas. destruct (_ =? _); [done|]. destruct (_ !! key) as [v|] eqn:Hk; [|done].
  pose proof (vma_sum_delete _ _ _ Hk) as Es. pose proof (map_Forall_delete _ _ key Hp) as Hp'. pose proof (vma_sum_nonneg _ Hp') as Hs.
  apply Hp in Hk. split_and!; cbn; [..|done]; destruct (Z.leb_spec v (g_guest_vma_count r)); lia.
Qed.

End Blocks.

(** * The handlers *)

Inductive alloc_call :=
| Malloc (n : Z) | Calloc (nmemb n : Z) | Realloc (p n : Z) | Free (p : Z) | Memalign (memptr al n : Z) | AlignedAlloc (al n : Z)
| Mmap (n : Z) | Munmap (p : Z).

(** A block that has to move, posix_memalign with good arguments, and mmap. *)
Definition grows (m : gmap Z Z) (p n r : Z) (m' : gmap Z Z) : Prop :=
  (r = 0 /\ m' = m) \/
  (0 < r < two64 /\ (16 | r) /\ exists k, n <= k /\ m' = <[r := k]> (delete p m) /\ forall b j, m !! b = Some j -> disj r k b j).
Definition stores (m : gmap Z Z) (n al r : Z) (m' : gmap Z Z) : Prop :=
  (r = ENOMEM /\ m' = m) \/ (r = 0 /\ n <= INTPTR_MAX /\ exists p, p <> 0 /\ gives m n al p m').
Definition maps (m : gmap Z Z) (n r : Z) (m' : gmap Z Z) : Prop :=
  (r = two64 - 1 /\ m' = m) \/ (r <> 0 /\ gives m n 4096 r m').

(** The contract, on the blocks in use; [r] is what X0 holds afterwards. *)
Definition block_spec (c : alloc_call) (m : gmap Z Z) (r : Z) (m' : gmap Z Z) : Prop :=
  match c with
  | Malloc n => gives m n 16 r m'
  | Calloc nmemb n => gives m (nmemb * n) 16 r m'
  | Realloc p n =>
      if p =? 0 then gives m n 16 r m'
      else if n =? 0 then r = 0 /\ m' = delete p m
      else match m !! p with
           | None => r = 0 /\ m' = m
           | Some old =>
               if n <=? old then r = p /\ m' = m else grows m p n r m'
           end
  | Free p => m' = delete p m
  | Memalign memptr al n =>
      if (memptr =? 0) || (al <? 8) || negb (is_power_of_two al) then r = EINVAL /\ m' = m
      else stores m n al r m'
  | AlignedAlloc al n =>
      if is_power_of_two al && (n <=? INTPTR_MAX) && (n mod al =? 0) then gives m n al r m' else r = 0 /\ m' = m
  | Mmap n => maps m n r m'
  | Munmap p => r = 0 /\ m' = delete p m
  end.

Section Handlers.
Context {E : Env} `{!HostAccess E, !GuestMemLaws E, !CpuMemLaws E, !RegLaws E, !HostAccessLaws E, !HostMapLaws E, !WideRegs E}.
Implicit Types s : astate.

Definition handler (c : alloc_call) : hle astate unit :=
  match c with
  | Malloc _ => hle_malloc | Calloc _ _ => hle_calloc | Realloc _ _ => hle_realloc | Free _ => hle_free
  | Memalign _ _ _ => hle_posix_memalign | AlignedAlloc _ _ => hle_aligned_alloc | Mmap _ => hle_mmap | Munmap _ => hle_munmap
  end.

(** The registers at the call. *)
Definition called (c : alloc_call) s : Prop :=
  match c with
  | Malloc n => getr X0 s = n
  | Calloc nmemb n => getr X0 s = nmemb /\ getr X1 s = n
  | Realloc p n => getr X0 s = p /\ getr X1 s = n
  | Free p | Munmap p => getr X0 s = p
  | Memalign memptr al n => getr X0 s = memptr /\ getr X1 s = al /\ getr X2 s = n
  | AlignedAlloc al n => getr X0 s = al /\ getr X1 s = n
  | Mmap n => getr X1 s = n
  end.

(** A request does not wrap around the address space. *)
Definition room (n al : Z) s : Prop :=
  0 <= n < two64 /\ no_wrap (heap_ (mm (a_mem s))) (request n) al /\ dyn_room (a_mem s) (request n) al.
Definition ready (c : alloc_call) s : Prop :=
  match c with
  | Malloc n | Mmap n => room n 16 s /\ room n 4096 s
  | Calloc nmemb n => room (nmemb * n) 16 s
  | Realloc p n => 0 <= p < two64 /\ room n 16 s
  | Free _ | Munmap _ => True
  | Memalign _ al n | AlignedAlloc al n => 0 <= al < two64 /\ (is_power_of_two al = true -> n <= INTPTR_MAX -> room n al s)
  end.

Record alloc_ok s : Prop := { ok_mem : usable (a_mem s); ok_vmas : vma_ok (a_vmas s) }.
Definition blocks s : gmap Z Z := live_blocks (a_mem s).

(** ** Rules for the calls handlers make *)

Lemma wp_get {B} r (k : Z -> hle astate B) Q s : wp (k (getr r s)) Q s -> wp (get_x r ≫= k) Q s.
Proof. done. Qed.

Lemma wp_galloc {B} n al (k : Z -> hle astate B) Q s : alloc_ok s -> pow2 al -> room n al s ->
  (forall p s', alloc_ok s' -> gives (blocks s) n al p (blocks s') -> wp (k p) Q s') -> wp (guest_alloc n al ≫= k) Q s.
Proof.
  intros [H1 H2] Hal ([? ?] & Hw & Hr) Hk. apply wp_bind. unfold wp at 1, guest_alloc, on_mem.
  destruct (allocate_guest_memory n al (a_mem s)) as [p m] eqn:Ha. apply alloc_step in Ha as [Hu Hg]; [|done..]. apply Hk; [by constructor|done].
Qed.

Lemma wp_gfree {B} a (k : unit -> hle astate B) Q s : alloc_ok s ->
  (forall s', alloc_ok s' -> blocks s' = delete a (blocks s) -> wp (k tt) Q s') -> wp (guest_free a ≫= k) Q s.
Proof. intros [H1 H2] Hk. destruct (free_step (a_mem s) a H1). by apply Hk. Qed.

(** Steps that change no block. *)
Definition silent {A} (m : hle astate A) : Prop := forall s, alloc_ok s -> wp m (fun _ s' => alloc_ok s' /\ blocks s' = blocks s) s.

Lemma wp_silent {A B} (m : hle astate A) (k : A -> hle astate B) Q s : silent m -> alloc_ok s ->
  (forall a s', alloc_ok s' -> blocks s' = blocks s -> wp (k a) Q s') -> wp (m ≫= k) Q s.
Proof. intros Hm Hs Hk. apply wp_bind. eapply wp_mono; [by apply Hm|]. intros a s' [H1 H2]. by apply Hk. Qed.

Lemma silent_ret {A} (a : A) : silent (mret a).
Proof. done. Qed.
Lemma silent_bind {A B} (m : hle astate A) (k : A -> hle astate B) : silent m -> (forall a, silent (k a)) -> silent (m ≫= k).
Proof.
  intros Hm Hk s Hs. apply (wp_silent m); [done..|]. intros a s1 H1 E1. eapply wp_mono; [by apply Hk|]. intros b s2 [H2 E2]. split; [done|congruence].
Qed.
Lemma silent_zero a n : silent (guest_zero a n).
Proof.
  intros s [H1 H2]. unfold wp, guest_zero, on_mem. destruct (zero_step a n (a_mem s) H1) as [H3 H4].
  destruct (zero_ a n (a_mem s)). by split; [constructor|].
Qed.
Lemma silent_wr a bs : silent (mem_wr a bs).
Proof.
  intros s [H1 H2]. unfold wp, mem_wr. cbn. destruct (write_step a bs (a_mem s) H1) as [H3 H4].
  destruct (mem_write a bs (a_mem s)). by split; [constructor|].
Qed.
Lemma silent_errno e : silent (hle_set_errno e).
Proof. intros s Hs. by apply silent_wr. Qed.
Lemma silent_reserve key n : 0 <= n -> silent (try_reserve key n).
Proof.
  intros Hn s [H1 H2]. unfold wp, try_reserve, on_vmas. pose proof (reserve_step key n _ H2 Hn).
  destruct (hle_try_reserve_vmas key n (a_vmas s)). by split; [constructor|].
Qed.
Lemma silent_release key : silent (release key).
Proof. intros s [H1 H2]. split; [constructor; [done|by apply release_step]|done]. Qed.
Lemma silent_key : silent next_key.
Proof. by intros s []. Qed.

#[local] Hint Resolve silent_ret silent_bind silent_zero silent_wr silent_errno silent_reserve silent_release silent_key : silent.
#[local] Hint Extern 1 (0 <= _) => lia : silent.

Lemma wp_result v Q s : alloc_ok s -> (forall s', alloc_ok s' -> blocks s' = blocks s -> getr X0 s' = u64 v -> Q tt s') -> wp (set_x X0 v) Q s.
Proof.
  intros [H1 H2] Hk. unfold wp, set_x. destruct (reg_step X0 (u64 v) (a_mem s) H1) as [H3 H4]. apply Hk; [by constructor|done|].
  change (getr X0 (putr X0 (u64 v) (a_mem s)) = u64 v). apply getr_putr; [apply H1|]. apply wide_reg; [by unfold X0|]. apply u64_range.
Qed.

(** The last step of a handler that returns [v] after blocks became [m]. *)
Lemma wp_result_spec v m s (P : Z -> gmap Z Z -> Prop) : alloc_ok s -> blocks s = m -> 0 <= v < two64 -> P v m ->
  wp (set_x X0 v) (fun _ s' => alloc_ok s' /\ P (getr X0 s') (blocks s')) s.
Proof. intros Hs <- Hv Hp. apply wp_result; [done|]. intros s' Hs' -> ->. by rewrite u64_small. Qed.

Lemma gives_range m n al r m' : gives m n al r m' -> 0 <= r < two64.
Proof. intros [[-> _]|[? _]]; unfold two64 in *; lia. Qed.

(** ** Each handler keeps the contract *)

Definition keeps_contract (c : alloc_call) : Prop := forall s, alloc_ok s -> called c s -> ready c s ->
  wp (handler c) (fun _ s' => alloc_ok s' /\ block_spec c (blocks s) (getr X0 s') (blocks s')) s.

Lemma malloc_contract n : keeps_contract (Malloc n).
Proof.
  intros s Hs Hc [Hr _]. unfold called in Hc. apply wp_get. rewrite Hc. apply wp_galloc; [done|apply pow2_16|done|]. intros p s1 H1 Hg.
  eapply wp_result_spec; [done|done|by eapply gives_range|done].
Qed.

Lemma calloc_contract nmemb n : keeps_contract (Calloc nmemb n).
Proof.
  intros s Hs [E1 E2] Hr. apply wp_get, wp_get. rewrite E1, E2, (u64_small (nmemb * n)) by apply Hr.
  apply wp_galloc; [done|apply pow2_16|done|]. intros p s1 H1 Hg. apply wp_silent; [|done|].
  { destruct (negb _); eauto with silent. }
  intros _ s2 H2 E3. eapply wp_result_spec; [done|exact E3|by eapply gives_range|exact Hg].
Qed.

Lemma realloc_contract p n : keeps_contract (Realloc p n).
Proof.
  intros s Hs [E1 E2] [Hp Hr]. apply wp_get, wp_get. rewrite E1, E2. cbn [block_spec]. destruct (Z.eqb_spec p 0) as [->|Hne].
  { apply wp_galloc; [done|apply pow2_16|done|]. intros q s1 H1 Hg. eapply wp_result_spec; [done|done|by eapply gives_range|done]. }
  destruct (Z.eqb_spec n 0) as [->|Hn].
  { apply wp_gfree; [done|]. intros s1 H1 E3. eapply (wp_result_spec 0 (delete p (blocks s)) _ (fun r m => r = 0 /\ m = delete p (blocks s))); done. }
  destruct Hr as ([? ?] & Hw & Hd). assert (Hreq : request n = n) by (unfold request; by rewrite (proj2 (Z.eqb_neq n 0)) by lia).
  rewrite Hreq in Hw, Hd. destruct Hs as [Hu Hv]. pose proof Hu as [Hwf Hh _].
  assert (Es : s <| a_mem := a_mem s |> = s) by (by destruct s). apply wp_bind. unfold wp at 1, on_mem. rewrite Es.
  destruct (blocks s !! p) as [old|] eqn:Hold.
  - pose proof (proj1 (live_blocks_spec _ p old Hwf) Hold) as Hl. rewrite (alloc_get_size _ p old Hwf Hl).
    destruct (live_backed _ p old Hwf Hh Hl) as (? & _). rewrite (proj2 (Z.eqb_neq old 0)) by lia. destruct (Z.leb_spec n old).
    { eapply (wp_result_spec p (blocks s) _ (fun r m => r = p /\ m = blocks s)); [by constructor|done..]. }
    apply wp_bind. unfold wp at 1. destruct (realloc_guest_memory p n true (a_mem s)) as [q m] eqn:Hq.
    apply (realloc_step _ _ _ _ _ old) in Hq as [Hu' Hq]; [|done..|lia|done|done|done|lia].
    eapply (wp_result_spec q _ _ (grows (blocks s) p n)); [by constructor|done| |exact Hq]. destruct Hq as [[-> _]|[? _]]; unfold two64 in *; lia.
  - assert (Hz : get_guest_allocation_size p (a_mem s) = 0).
    { unfold get_guest_allocation_size, get_allocation_size. unfold blocks, live_blocks in Hold. apply lookup_union_None in Hold as [-> ->]. done. }
    rewrite Hz. cbn [Z.eqb]. eapply (wp_result_spec 0 (blocks s) _ (fun r m => r = 0 /\ m = blocks s)); [by constructor|done..].
Qed.

Lemma free_contract p : keeps_contract (Free p).
Proof.
  intros s Hs E1 _. unfold called in E1. apply wp_get. rewrite E1. cbn [block_spec]. destruct (Z.eqb_spec p 0) as [->|]; cbn [negb].
  - split; [done|]. symmetry. apply delete_id. destruct (blocks s !! 0) as [k|] eqn:Hk; [|done]. exfalso.
    apply live_blocks_spec in Hk; [|apply Hs]. apply live_bounds in Hk; [lia|apply Hs].
  - destruct (free_step (a_mem s) p (ok_mem _ Hs)). split; [|done]. by constructor; [|apply Hs].
Qed.

Lemma memalign_contract memptr al n : keeps_contract (Memalign memptr al n).
Proof.
  intros s Hs (E1 & E2 & E3) [Hal Hr]. apply wp_get, wp_get, wp_get. rewrite E1, E2, E3. cbn [block_spec]. unfold kGuestPointerSize.
  destruct ((memptr =? 0) || (al <? 8) || negb (is_power_of_two al)) eqn:Hbad; cbn [orb].
  { eapply (wp_result_spec EINVAL (blocks s) _ (fun r m => r = EINVAL /\ m = blocks s)); done. }
  apply orb_false_iff in Hbad as [[_ Hlt]%orb_false_iff Hp%negb_false_iff]. apply Z.ltb_ge in Hlt.
  pose proof (is_power_of_two_spec al Hal Hp) as Hpow. rewrite (pow2_mod8 al Hpow Hlt). cbn [Z.eqb negb]. destruct (Z.ltb_spec INTPTR_MAX n).
  { eapply (wp_result_spec ENOMEM (blocks s) _ (stores (blocks s) n al)); [done..|by left]. }
  apply wp_galloc; [done|done|by apply Hr|]. intros p s1 H1 Hg. destruct (Z.eqb_spec p 0) as [->|Hne]; cbn [negb].
  - eapply (wp_result_spec ENOMEM _ _ (stores (blocks s) n al)); [done|done|done|left]. split; [done|]. destruct Hg as [[_ E4]|[? _]]; [done|lia].
  - apply wp_silent; [apply silent_wr|done|]. intros _ s2 H2 E4. eapply (wp_result_spec 0 _ _ (stores (blocks s) n al)); [done|exact E4|done|right].
    split; [done|]. split; [done|]. by exists p.
Qed.

Lemma aligned_alloc_contract al n : keeps_contract (AlignedAlloc al n).
Proof.
  intros s Hs (E1 & E2) [Hal Hr]. apply wp_get, wp_get. rewrite E1, E2. cbn [block_spec].
  assert (Hfail : forall e, wp (hle_set_errno e;; set_x X0 0) (fun _ s' => alloc_ok s' /\ getr X0 s' = 0 /\ blocks s' = blocks s) s).
  { intros e. apply wp_silent; [apply silent_errno|done|]. intros _ s1 H1 E3. eapply (wp_result_spec 0 _ _ (fun r m => r = 0 /\ m = blocks s)); done. }
  destruct (is_power_of_two al) eqn:Hp; cbn [negb orb andb]; [|apply Hfail].
  destruct (Z.ltb_spec INTPTR_MAX n) as [|Hle]; [rewrite (proj2 (Z.leb_gt n _)) by done; apply Hfail|].
  rewrite (proj2 (Z.leb_le n _)) by done. cbn [andb]. destruct (n mod al =? 0); cbn [negb]; [|apply Hfail].
  apply wp_galloc; [done|by apply is_power_of_two_spec|by apply Hr|]. intros p s1 H1 Hg. apply wp_silent; [|done|].
  { destruct (p =? 0); eauto with silent. }
  intros _ s2 H2 E3. eapply wp_result_spec; [done|exact E3|by eapply gives_range|exact Hg].
Qed.

Lemma mmap_contract n : keeps_contract (Mmap n).
Proof.
  intros s Hs E1 [_ Hr]. unfold called in E1. apply wp_get. rewrite E1. cbn [block_spec]. unfold map_pages.
  assert (Hfail : forall s1, alloc_ok s1 -> blocks s1 = blocks s ->
    wp (set_x X0 (-1)) (fun _ s' => alloc_ok s' /\ maps (blocks s) n (getr X0 s') (blocks s')) s1).
  { intros s1 H1 E2. apply wp_result; [done|]. intros s' H' E3 E4. split; [done|]. left. rewrite E4. split; [done|congruence]. }
  unfold next_key. apply wp_bind. unfold wp at 1. set (s0 := s <| g_next_mmap_reservation_key ::= _ |>).
  assert (H0 : alloc_ok s0) by (by destruct Hs; constructor). assert (E0 : blocks s0 = blocks s) by done. assert (R0 : room n 4096 s0) by exact Hr.
  clearbody s0. apply wp_bind. unfold wp at 1, try_reserve at 1, on_vmas at 1. pose proof (reserve_step (g_next_mmap_reservation_key s) 1 _ (ok_vmas _ H0) ltac:(lia)) as Hv.
  destruct (hle_try_reserve_vmas _ 1 (a_vmas s0)) as [ok r]. cbn in Hv. set (s1 := s0 <| a_vmas := r |>).
  assert (H1 : alloc_ok s1) by (constructor; [apply H0|done]). assert (R1 : room n 4096 s1) by exact R0. assert (E2 : blocks s1 = blocks s) by exact E0.
  clearbody s1. destruct ok; cbn [negb].
  - apply wp_galloc; [done|exists 12; split; [lia|done]|done|]. intros p s2 H2 Hg. rewrite E2 in Hg. apply wp_silent; [|done|].
    { destruct (negb _); repeat (apply silent_bind; [auto with silent|intros ?]); auto with silent. }
    intros _ s3 H3 E3. destruct (Z.eqb_spec p 0) as [->|Hne]; cbn [negb].
    + apply Hfail; [done|]. rewrite E3. destruct Hg as [[_ ->]|[? _]]; [done|lia].
    + eapply (wp_result_spec p _ _ (maps (blocks s) n)); [done|exact E3|by eapply gives_range|]. by right.
  - apply wp_silent; [apply silent_errno|done|]. intros _ s2 H2 E3. apply Hfail; [done|congruence].
Qed.

Lemma munmap_contract p : keeps_contract (Munmap p).
Proof.
  intros s Hs E1 _. unfold called in E1. apply wp_get. rewrite E1. cbn [block_spec].
  assert (Hrest : forall s1, alloc_ok s1 -> blocks s1 = delete p (blocks s) ->
    wp (release p;; set_x X0 0) (fun _ s' => alloc_ok s' /\ getr X0 s' = 0 /\ blocks s' = delete p (blocks s)) s1).
  { intros s1 H1 E2. apply wp_silent; [apply silent_release|done|]. intros _ s2 H2 E3.
    eapply (wp_result_spec 0 _ _ (fun r m => r = 0 /\ m = delete p (blocks s))); [done|done|done|]. split; [done|congruence]. }
  destruct (Z.eqb_spec p 0) as [->|]; cbn [negb].
  - apply wp_silent; [apply silent_ret|done|]. intros _ s1 H1 E2. apply Hrest; [done|]. rewrite E2. symmetry. apply delete_id.
    destruct (blocks s !! 0) as [k|] eqn:Hk; [|done]. exfalso. apply live_blocks_spec in Hk; [|apply Hs]. apply live_bounds in Hk; [lia|apply Hs].
  - apply wp_gfree; [done|]. intros s1 H1 E2. by apply Hrest.
Qed.

Lemma contracts c : keeps_contract c.
Proof.
  destruct c; [apply malloc_contract|apply calloc_contract|apply realloc_contract|apply free_contract|apply memalign_contract|apply aligned_alloc_contract|apply mmap_contract|apply munmap_contract].
Qed.

(** ** Runs *)

(** The guest, or another handler, works in between: registers and bytes change. *)
Record guest_moved s s' : Prop := {
  gm_mm : mm (a_mem s') = mm (a_mem s);
  gm_host : host_blocks (ext (a_mem s')) = host_blocks (ext (a_mem s));
  gm_cpu : has_cpu (ext (a_mem s')) = has_cpu (ext (a_mem s));
  gm_vmas : a_vmas s' = a_vmas s;
}.

Inductive heap_run : astate -> list (alloc_call * Z) -> astate -> Prop :=
| run_end s : heap_run s [] s
| run_guest s s1 tr s' : guest_moved s s1 -> heap_run s1 tr s' -> heap_run s tr s'
| run_call s c s1 tr s' : called c s -> ready c s -> handler c s = Ret tt s1 -> heap_run s1 tr s' ->
    heap_run s ((c, getr X0 s1) :: tr) s'.

Lemma run_step s c r s1 tr s' : called c s -> ready c s -> handler c s = Ret tt s1 -> getr X0 s1 = r -> heap_run s1 tr s' -> heap_run s ((c, r) :: tr) s'.
Proof. intros ??? <- ?. by eapply run_call. Qed.

(** The abstract allocator runs through the same calls with the same results. *)
Fixpoint spec_run (m : gmap Z Z) (tr : list (alloc_call * Z)) (m' : gmap Z Z) : Prop :=
  match tr with
  | [] => m' = m
  | (c, r) :: tr => exists m1, block_spec c m r m1 /\ spec_run m1 tr m'
  end.

Lemma guest_moved_ok s s' : guest_moved s s' -> alloc_ok s -> alloc_ok s' /\ blocks s' = blocks s.
Proof.
  intros [Em Eh Ec Ev] [H1 H2]. split; [|unfold blocks, live_blocks; by rewrite Em].
  constructor; [|by rewrite Ev]. by eapply usable_books.
Qed.

(** C21: Whatever sequence of malloc, calloc, realloc, free, posix_memalign,
    aligned_alloc, mmap and munmap the guest makes, with whatever it does to
    registers and memory in between, the results and the blocks in use are those of
    an abstract allocator: a pointer handed out is aligned and its block is large
    enough and meets no block in use, failures change nothing, exactly the freed or
    moved block disappears, wrong arguments give the documented codes.  Every call
    returns, the books stay consistent, blocks in use stay pairwise disjoint, and
    the count of mappings is the sum of the reservations and within its limit.
    (Requests that would wrap around the address space are left out.) *)
Theorem libc_allocator_refines s tr s' : alloc_ok s -> heap_run s tr s' ->
  alloc_ok s' /\ spec_run (blocks s) tr (blocks s') /\
  (forall a n b m, blocks s' !! a = Some n -> blocks s' !! b = Some m -> a <> b -> disj a n b m) /\
  g_guest_vma_count (a_vmas s') = vma_sum (g_guest_vma_reservations (a_vmas s')) /\ g_guest_vma_count (a_vmas s') <= GUEST_VMA_LIMIT /\
  (forall c, called c s' -> ready c s' -> exists s'', handler c s' = Ret tt s'').
Proof.
  intros Hs Hrun.
  assert (Hmain : alloc_ok s' /\ spec_run (blocks s) tr (blocks s')).
  { induction Hrun as [s|s s1 tr s' Hg Hrun IH|s c s1 tr s' Hc Hr Hh Hrun IH]; [done|..].
    - destruct (guest_moved_ok s s1 Hg Hs) as [H1 E1]. rewrite <- E1. by apply IH.
    - pose proof (contracts c s Hs Hc Hr) as Hw. unfold wp in Hw. rewrite Hh in Hw. destruct Hw as [H1 Hb].
      destruct (IH H1) as [H' Hsr]. split; [done|]. cbn. by exists (blocks s1). }
  destruct Hmain as [H' Hsr]. split_and!; [done..| |apply H'|apply H'|].
  - intros a n b m Ha Hb Hne. apply live_blocks_spec in Ha, Hb; [|apply H'..]. by apply (live_disjoint (a_mem s')); [apply H'|..].
  - intros c Hc Hr. pose proof (contracts c s' H' Hc Hr) as Hw. unfold wp in Hw. destruct (handler c s') as [[] s''| |]; [by exists s''|done..].
Qed.

(** A product that wraps is not noticed: calloc hands out a block for the product
    modulo 2^64. *)
Theorem calloc_wraps s nmemb n : alloc_ok s -> called (Calloc nmemb n) s -> room (u64 (nmemb * n)) 16 s ->
  wp hle_calloc (fun _ s' => alloc_ok s' /\ gives (blocks s) (u64 (nmemb * n)) 16 (getr X0 s') (blocks s')) s.
Proof.
  intros Hs [E1 E2] Hr. apply wp_get, wp_get. rewrite E1, E2. apply wp_galloc; [done|apply pow2_16|done|].
  intros p s1 H1 Hg. apply wp_silent; [|done|]. { destruct (negb _); eauto with silent. }
  intros _ s2 H2 E3. eapply wp_result_spec; [done|exact E3|by eapply gives_range|exact Hg].
Qed.

End Handlers.

(** * Contents *)

Section Contents.
Context {E : Env} `{!HostAccess E, !GuestMemLaws E, !CpuMemLaws E, !RegLaws E, !HostAccessLaws E, !HostMapLaws E, !WideRegs E}.
Implicit Types s : astate.

Lemma as_get_put m s : a_mem (as_put m s) = m.
Proof. done. Qed.
#[export] Instance astate_laws : MemLaws astate := lift_laws a_mem as_put as_get_put.
#[export] Instance astate_regs : RegFileLaws astate := lift_regs a_mem as_put as_get_put.
#[export] Instance astate_host_laws : HostLaws astate := lift_host_laws a_mem as_put as_get_put.

(** A change of guest memory is one of the whole state. *)
Lemma became_lift s m f : sane s -> became (a_mem s) f m -> became s f (s <| a_mem := m |>).
Proof. intros Hs [[? ? ? ?] ? ? ? ?]. by constructor; [constructor|..]. Qed.

Lemma sane_mem_of s : sane s -> sane (a_mem s).
Proof. intros [? ? ? ?]. by constructor. Qed.

(** The allocator's own tables are not guest memory. *)
Lemma became_heap (m : mstate) h : sane m -> became m (byte_at m) (m <| mm ::= fun x => x <| heap_ := h |> |>).
Proof. intros [? ? ? ?]. by constructor; [constructor|..]. Qed.

(** The heap itself can serve the request, with the block at [served]. *)
Definition served (n al : Z) s : Z := (allocate (request n) al (heap_ (mm (a_mem s)))).1.
Definition heap_serves (n al : Z) s : Prop := served n al s <> 0.
Definition heap_accessible s : Prop := mapped HEAP_BASE HEAP_SIZE s.

Lemma serve n al (m : mstate) : mem_wf m -> pow2 al -> 0 <= n -> no_wrap (heap_ (mm m)) (request n) al ->
  (allocate (request n) al (heap_ (mm m))).1 <> 0 ->
  let p := (allocate (request n) al (heap_ (mm m))).1 in
  exists h, allocate_guest_memory n al m = (p, m <| mm ::= fun x => x <| heap_ := h |> |>) /\
    p <> 0 /\ HEAP_BASE <= p /\ p + request n <= HEAP_BASE + HEAP_SIZE /\
    allocations_ h = <[p := request n]> (allocations_ (heap_ (mm m))) /\
    (forall b t, allocations_ (heap_ (mm m)) !! b = Some t -> disj p (request n) b t).
Proof.
  intros H Hal Hn Hw Hs. unfold allocate_guest_memory. fold (request n). pose proof (request_pos n Hn).
  assert (Hrr : request (request n) = request n) by (unfold request; destruct (Z.eqb_spec n 0); [done|]; by destruct (Z.eqb_spec n 0)).
  destruct (allocate (request n) al (heap_ (mm m))) as [p h] eqn:Ha. cbn in Hs |- *. exists h.
  apply allocate_cases in Ha as (_ & _ & _ & [[? _]|[_ [_ Hlo Hhi Hfr Hl _ _ _]]]); [done| |apply H|done|lia|by rewrite Hrr].
  rewrite (mw_heap_base m H), (mw_heap_size m H), Hrr in *. rewrite (proj2 (Z.eqb_neq p 0)) by done. by split_and!.
Qed.

(** A request the heap serves. *)
Lemma wp_serve {B} n al (k : Z -> hle astate B) Q s : sane s -> usable (a_mem s) -> pow2 al -> 0 <= n ->
  no_wrap (heap_ (mm (a_mem s))) (request n) al -> heap_serves n al s ->
  (forall h, let p := served n al s in p <> 0 -> HEAP_BASE <= p -> p + request n <= HEAP_BASE + HEAP_SIZE ->
     (forall b t, allocations_ (heap_ (mm (a_mem s))) !! b = Some t -> disj p (request n) b t) ->
     allocations_ h = <[p := request n]> (allocations_ (heap_ (mm (a_mem s)))) ->
     let s1 := s <| a_mem := (a_mem s) <| mm ::= fun x => x <| heap_ := h |> |> |> in became s (byte_at s) s1 -> wp (k p) Q s1) ->
  wp (guest_alloc n al ≫= k) Q s.
Proof.
  intros Hs [Hwf _ _] Hal Hn Hw Hserve Hk. destruct (serve n al (a_mem s) Hwf Hal Hn Hw Hserve) as (h & Ha & Hne & Hlo & Hhi & Hl & Hd).
  apply wp_bind. unfold wp at 1, guest_alloc, on_mem. rewrite Ha. apply Hk; [done..|].
  apply became_lift; [done|]. apply (became_heap (a_mem s)). by apply sane_mem_of.
Qed.

Lemma heap_sub s p n : heap_accessible s -> 0 < n -> HEAP_BASE <= p -> p + n <= HEAP_BASE + HEAP_SIZE -> mapped p n s.
Proof. intros H ???. by eapply mapped_sub. Qed.

(** [zero] on a range of the heap. *)
Lemma wp_zero {B} p n (k : bool -> hle astate B) Q s s1 : sane s -> became s (byte_at s) s1 -> heap_accessible s -> 0 <= n -> HEAP_BASE <= p -> p + n <= HEAP_BASE + HEAP_SIZE ->
  (forall s2, became s (stored (byte_at s) p (replicate (Z.to_nat n) 0)) s2 -> wp (k true) Q s2) -> wp (guest_zero p n ≫= k) Q s1.
Proof.
  intros Hs Hb Hacc Hn Hlo Hhi Hk. apply wp_bind. unfold wp at 1, guest_zero, on_mem. destruct (decide (n = 0)) as [->|Hnz].
  - change (zero_ p 0 (a_mem s1)) with (true, a_mem s1). apply Hk. eapply became_ext; [|by destruct s1]. intros x. by rewrite stored_nil.
  - destruct (zero_mapped (a_mem s1) p n) as (m2 & -> & Hw & _); [apply sane_mem_of, Hb|apply (bc_map _ _ _ Hb), heap_sub; done || lia|lia|].
    apply Hk. eapply became_trans; [exact Hb|]. apply became_lift; [apply Hb|]. eapply became_ext; [|exact Hw].
    intros x. apply stored_ext. intros y. apply (bc_byte _ _ _ Hb).
Qed.

(** A new block of [n] bytes at a multiple of [al]. *)
Definition new_block s (n al p : Z) s' : Prop := p <> 0 /\ gives (blocks s) n al p (blocks s').

(** Two facts about one call. *)
Lemma wp_both {A} (m : hle astate A) P Q s : wp m P s -> wp m Q s -> wp m (fun a s' => P a s' /\ Q a s') s.
Proof. unfold wp. by destruct (m s). Qed.

Lemma calloc_contents s nmemb n : sane s -> alloc_ok s -> heap_accessible s -> called (Calloc nmemb n) s -> room (nmemb * n) 16 s ->
  heap_serves (nmemb * n) 16 s ->
  wp hle_calloc (fun _ s' => exists p, new_block s (nmemb * n) 16 p s' /\
    returned s (stored (byte_at s) p (replicate (Z.to_nat (nmemb * n)) 0)) p s') s.
Proof.
  intros Hs Hok Hacc Hc Hroom Hserve. pose proof (calloc_contract nmemb n s Hok Hc Hroom) as Hblock.
  destruct Hc as [E1 E2], Hroom as (Hn & Hw & _), Hok as [Hu _].
  assert (Hcont : wp hle_calloc (fun _ s' => returned s (stored (byte_at s) (served (nmemb * n) 16 s) (replicate (Z.to_nat (nmemb * n)) 0)) (served (nmemb * n) 16 s) s') s).
  { apply wp_get, wp_get. rewrite E1, E2, (u64_small (nmemb * n)) by done.
    apply wp_serve; [done|done|apply pow2_16|lia|done|done|]. intros h p Hne Hlo Hhi _ _ s1 Hb.
    assert (nmemb * n <= request (nmemb * n)) by (unfold request; destruct (Z.eqb_spec (nmemb * n) 0); lia).
    rewrite (proj2 (Z.eqb_neq _ 0)) by done. cbn [negb]. apply wp_bind.
    apply (wp_zero p (nmemb * n) _ _ s s1); [done..|lia|done|lia|]. intros s2 Hb2.
    eapply (wp_set p _ s _ s2 Hb2); [unfold HEAP_BASE, HEAP_SIZE, two64 in *; lia|]. by intros s' Hr. }
  eapply wp_mono; [exact (wp_both _ _ _ _ Hblock Hcont)|]. intros _ s' [[_ Hg] Hr]. cbn [block_spec] in Hg.
  exists (served (nmemb * n) 16 s). split; [|exact Hr]. split; [done|]. by rewrite (rt_value _ _ _ _ Hr) in Hg.
Qed.

Lemma memalign_contents s memptr al n : sane s -> alloc_ok s -> heap_accessible s -> called (Memalign memptr al n) s -> memptr <> 0 ->
  8 <= al < two64 -> is_power_of_two al = true -> 0 <= n <= INTPTR_MAX -> room n al s -> heap_serves n al s -> mapped memptr 8 s ->
  wp hle_posix_memalign (fun _ s' => exists p, new_block s n al p s' /\ returned s (stored (byte_at s) memptr (le_bytes 8 p)) 0 s') s.
Proof.
  intros Hs Hok Hacc (E1 & E2 & E3) Hnz Hal Hp Hn (Hn0 & Hw & Hd) Hserve Hm. pose proof Hok as [Hu Hv].
  pose proof (is_power_of_two_spec al ltac:(lia) Hp) as Hpow.
  assert (Hargs : hle_posix_memalign s = (ptr ← guest_alloc n al;
      if negb (ptr =? 0) then mem_wr memptr (le_bytes 8 ptr);; set_x X0 0 else set_x X0 ENOMEM) s).
  { unfold hle_posix_memalign, mbind, hle_bind, get_x. rewrite E1, E2, E3. unfold kGuestPointerSize.
    rewrite (proj2 (Z.eqb_neq memptr 0)), (proj2 (Z.ltb_ge al 8)), Hp, (pow2_mod8 al Hpow ltac:(lia)), (proj2 (Z.ltb_ge INTPTR_MAX n)) by (done || lia). done. }
  unfold wp. rewrite Hargs. match goal with |- match ?m s with Ret _ _ => _ | _ => _ end => change (wp m (fun _ s' => exists p, new_block s n al p s' /\ returned s (stored (byte_at s) memptr (le_bytes 8 p)) 0 s') s) end.
  assert (Hblock : wp (ptr ← guest_alloc n al;
      if negb (ptr =? 0) then mem_wr memptr (le_bytes 8 ptr);; set_x X0 0 else set_x X0 ENOMEM)
    (fun _ s' => gives (blocks s) n al (served n al s) (blocks s')) s).
  { destruct (serve n al (a_mem s) (us_wf _ Hu) Hpow ltac:(lia) Hw Hserve) as (h & Ha & Hne & _).
    apply wp_bind. unfold wp at 1, guest_alloc, on_mem. rewrite Ha. apply alloc_step in Ha as [Hu1 Hg]; [|done..|lia|done|done].
    fold (served n al s) in *. rewrite (proj2 (Z.eqb_neq _ 0)) by done. cbn [negb].
    set (s1 := s <| a_mem := _ |>). assert (H1 : alloc_ok s1) by by constructor.
    apply wp_silent; [apply silent_wr|done|]. intros _ s2 H2 E4. apply wp_result; [done|]. intros s' _ E5 _.
    rewrite E5, E4. exact Hg. }
  assert (Hcont : wp (ptr ← guest_alloc n al;
      if negb (ptr =? 0) then mem_wr memptr (le_bytes 8 ptr);; set_x X0 0 else set_x X0 ENOMEM)
    (fun _ s' => returned s (stored (byte_at s) memptr (le_bytes 8 (served n al s))) 0 s') s).
  { apply wp_serve; [done..|lia|done|done|]. intros h p Hne Hlo Hhi _ _ s1 Hb. rewrite (proj2 (Z.eqb_neq _ 0)) by done. cbn [negb].
    eapply (wp_wr memptr (le_bytes 8 p) _ _ s _ s1 Hb); [by rewrite length_le_bytes|done|]. intros s2 Hb2.
    eapply (wp_set 0 _ s _ s2 Hb2); [done|]. by intros s' Hr. }
  eapply wp_mono; [exact (wp_both _ _ _ _ Hblock Hcont)|]. intros _ s' [Hg Hr]. exists (served n al s). by split_and!.
Qed.

(** A block that is large enough stays where and what it is. *)
Lemma realloc_keeps s p old n : sane s -> alloc_ok s -> called (Realloc p n) s -> blocks s !! p = Some old -> 0 < n <= old ->
  wp hle_realloc (fun _ s' => blocks s' = blocks s /\ returned s (byte_at s) p s') s.
Proof.
  intros Hs Hok [E1 E2] Hp Hn. pose proof (ok_mem _ Hok) as [Hwf Hh _].
  pose proof (proj1 (live_blocks_spec _ p old Hwf) Hp) as Hl. pose proof (live_bounds _ _ _ Hwf Hl).
  destruct (live_backed _ p old Hwf Hh Hl) as (? & ? & ? & _). assert (Es : s <| a_mem := a_mem s |> = s) by (by destruct s).
  apply wp_get, wp_get. rewrite E1, E2, (proj2 (Z.eqb_neq p 0)), (proj2 (Z.eqb_neq n 0)) by lia.
  apply wp_bind. unfold wp at 1, on_mem. rewrite Es, (alloc_get_size _ p old Hwf Hl), (proj2 (Z.eqb_neq old 0)), (proj2 (Z.leb_le n old)) by lia.
  apply wp_both.
  - apply wp_result; [done|]. by intros s' _ E3 _.
  - apply (wp_set p _ s _ s (became_refl s Hs)); [lia|done].
Qed.

Lemma realloc_contents s p old n : sane s -> alloc_ok s -> heap_accessible s -> called (Realloc p n) s ->
  allocations_ (heap_ (mm (a_mem s))) !! p = Some old -> old < n < two64 -> no_wrap (heap_ (mm (a_mem s))) n 16 -> heap_serves n 16 s ->
  wp hle_realloc (fun _ s' => exists q bs, q <> 0 /\ length bs = Z.to_nat old /\ holds_at (byte_at s) p bs /\ returned s (stored (byte_at s) q bs) q s') s.
Proof.
  intros Hs [Hu _] Hacc [E1 E2] Hp Hn Hw Hserve. apply wp_get, wp_get. rewrite E1, E2. pose proof Hu as [Hwf Hh _].
  assert (Hl : live (a_mem s) p old) by (by left). pose proof (live_heap _ _ _ Hwf Hp) as (? & ? & ?).
  assert (Es : s <| a_mem := a_mem s |> = s) by (by destruct s). pose proof (live_bounds _ _ _ Hwf Hl).
  assert (Hreq : request n = n) by (unfold request; by rewrite (proj2 (Z.eqb_neq n 0)) by lia).
  rewrite (proj2 (Z.eqb_neq p 0)), (proj2 (Z.eqb_neq n 0)) by lia. apply wp_bind. unfold wp at 1, on_mem at 1.
  rewrite (alloc_get_size _ p old Hwf Hl), Es, (proj2 (Z.eqb_neq old 0)), (proj2 (Z.leb_gt n old)) by lia.
  apply wp_bind. unfold wp at 1, on_mem, realloc_guest_memory.
  rewrite (proj2 (Z.eqb_neq p 0)), (proj2 (Z.eqb_neq n 0)), (alloc_get_size _ p old Hwf Hl), (proj2 (Z.eqb_neq old 0)), (proj2 (Z.leb_gt n old)) by lia.
  rewrite <- Hreq in Hw. destruct (serve n 16 (a_mem s) Hwf pow2_16 ltac:(lia) Hw Hserve) as (h & -> & Hne & Hlo & Hhi & Ha & Hd). set (q := (allocate (request n) 16 (heap_ (mm (a_mem s)))).1) in *. clearbody q.
  rewrite Hreq in *. specialize (Hd _ _ Hp). rewrite (proj2 (Z.eqb_neq q 0)) by done. cbn [snd fst].
  pose proof (sane_mem_of s Hs) as Hsm. pose proof (became_heap (a_mem s) h Hsm) as Hb. set (m1 := (a_mem s) <| mm ::= fun x => x <| heap_ := h |> |>) in *.
  assert (Hmp : forall a k, mapped a k s -> mapped a k m1) by (intros a k Hm; apply (bc_map _ _ _ Hb); exact Hm).
  destruct (gread_mapped p old (a_mem s)) as (bs & _ & Hlen & Hholds); [apply Hsm|apply (heap_sub s); done|done|].
  destruct (copy_mapped m1 p q old bs) as (m2 & -> & Hw2 & Em2); [apply Hb|apply Hmp, heap_sub; done || lia..|done|unfold disj in *; lia|lia|done|].
  assert (Hfree : became s (stored (byte_at s) q bs) (s <| a_mem := free_guest_memory p m2 |>)).
  { apply became_lift; [done|]. unfold free_guest_memory. rewrite (proj2 (Z.eqb_neq p 0)) by lia.
    assert (Hnd : dynamic_allocations_ (mm m2) !! p = None).
    { rewrite Em2. destruct (dynamic_allocations_ (mm m1) !! p) as [k|] eqn:Hk; [|done]. exfalso.
      apply (live_dyn (a_mem s)) in Hk; [|done]. unfold HEAP_BASE, HEAP_SIZE, DYNAMIC_ALLOC_BASE in *. lia. }
    rewrite Hnd. pose proof (became_trans _ _ _ _ _ Hb Hw2) as Hb2.
    eapply became_ext; [|eapply became_trans; [exact Hb2|apply became_heap; apply Hb2]]. intros x. rewrite (bc_byte _ _ _ Hb2).
    apply stored_ext. intros y. apply (bc_byte _ _ _ Hb). }
  eapply (wp_set q _ s _ _ Hfree); [unfold HEAP_BASE, HEAP_SIZE, two64 in *; lia|]. intros s' Hr. by exists q, bs.
Qed.

Lemma realloc_moves s p old n : sane s -> alloc_ok s -> heap_accessible s -> called (Realloc p n) s ->
  allocations_ (heap_ (mm (a_mem s))) !! p = Some old -> old < n < two64 -> room n 16 s -> heap_serves n 16 s ->
  wp hle_realloc (fun _ s' => exists q bs, q <> 0 /\ grows (blocks s) p n q (blocks s') /\
    length bs = Z.to_nat old /\ holds_at (byte_at s) p bs /\ returned s (stored (byte_at s) q bs) q s') s.
Proof.
  intros Hs Hok Hacc Hc Hp Hn Hroom Hserve. pose proof (ok_mem _ Hok) as [Hwf Hh _].
  assert (Hl : live (a_mem s) p old) by by left. pose proof (live_bounds _ _ _ Hwf Hl).
  destruct (live_backed _ p old Hwf Hh Hl) as (? & ? & ? & _).
  assert (Hready : ready (Realloc p n) s) by (split; [lia|done]). destruct Hroom as (_ & Hw & _).
  assert (Hreq : request n = n) by (unfold request; by rewrite (proj2 (Z.eqb_neq n 0)) by lia). rewrite Hreq in Hw.
  eapply wp_mono; [exact (wp_both _ _ _ _ (realloc_contract p n s Hok Hc Hready) (realloc_contents s p old n Hs Hok Hacc Hc Hp Hn Hw Hserve))|].
  intros _ s' [[_ Hg] (q & bs & Hq & Hlen & Hh' & Hr)]. exists q, bs. split_and!; try done.
  cbn [block_spec] in Hg. rewrite (proj2 (Z.eqb_neq p 0)), (proj2 (Z.eqb_neq n 0)) in Hg by lia.
  rewrite (proj2 (live_blocks_spec _ p old Hwf) Hl : blocks s !! p = Some old), (proj2 (Z.leb_gt n old)) in Hg by lia.
  by rewrite (rt_value _ _ _ _ Hr) in Hg.
Qed.

(** C22: What the blocks hold.  On requests the heap can serve, before QEMU is ready and
    after: calloc returns a new block whose [nmemb * n] bytes are zero; posix_memalign
    stores the address of the new block, aligned as asked, where it was told to and
    returns 0; realloc of a block to at most its size returns the same block with its
    bytes untouched, and realloc of a heap block to more than its size returns a new
    block in its place that begins with all bytes of the old one.  Besides these bytes
    and X0 no byte of guest memory and no register changes. *)
Theorem libc_contents s : sane s -> alloc_ok s -> heap_accessible s ->
  (forall nmemb n, called (Calloc nmemb n) s -> room (nmemb * n) 16 s -> heap_serves (nmemb * n) 16 s ->
     wp hle_calloc (fun _ s' => exists p, new_block s (nmemb * n) 16 p s' /\
       returned s (stored (byte_at s) p (replicate (Z.to_nat (nmemb * n)) 0)) p s') s) /\
  (forall memptr al n, called (Memalign memptr al n) s -> memptr <> 0 -> 8 <= al < two64 -> is_power_of_two al = true -> 0 <= n <= INTPTR_MAX ->
     room n al s -> heap_serves n al s -> mapped memptr 8 s ->
     wp hle_posix_memalign (fun _ s' => exists p, new_block s n al p s' /\
       returned s (stored (byte_at s) memptr (le_bytes 8 p)) 0 s') s) /\
  (forall p old n, called (Realloc p n) s -> blocks s !! p = Some old -> 0 < n <= old ->
     wp hle_realloc (fun _ s' => blocks s' = blocks s /\ returned s (byte_at s) p s') s) /\
  (forall p old n, called (Realloc p n) s -> allocations_ (heap_ (mm (a_mem s))) !! p = Some old -> old < n < two64 ->
     room n 16 s -> heap_serves n 16 s ->
     wp hle_realloc (fun _ s' => exists q bs, q <> 0 /\ grows (blocks s) p n q (blocks s') /\
       length bs = Z.to_nat old /\ holds_at (byte_at s) p bs /\ returned s (stored (byte_at s) q bs) q s') s).
Proof.
  intros Hs Hok Hacc. split_and!; intros; [by apply calloc_contents|by eapply memalign_contents|by eapply realloc_keeps|by eapply realloc_moves].
Qed.

End Contents.

(** * Program break *)

Section Break.
Context {E : Env} `{!HostAccess E, !GuestMemLaws E, !CpuMemLaws E, !RegLaws E, !HostAccessLaws E, !HostMapLaws E, !WideRegs E}.
Implicit Types s : astate.

(** The break in force: the heap's base until it is first moved. *)
Definition break s : Z := current_brk (guest_brk_initialize (base_ (heap_ (mm (a_mem s)))) (a_brk s)).

Lemma wp_brk_init {B} (k : unit -> hle astate B) Q s :
  (forall s', a_mem s' = a_mem s -> a_vmas s' = a_vmas s -> current_brk (a_brk s') = break s -> wp (k tt) Q s') -> wp (brk_init ≫= k) Q s.
Proof. intros Hk. by apply Hk. Qed.

Lemma wp_brk_move {B} b (k : unit -> hle astate B) Q s : alloc_ok s ->
  (forall s', alloc_ok s' -> current_brk (a_brk s') = b -> wp (k tt) Q s') -> wp (brk_move b ≫= k) Q s.
Proof. intros [H1 H2] Hk. by apply Hk. Qed.

(** Returning [v] with the break as it is. *)
Lemma wp_brk_result v Q s : alloc_ok s -> (forall s', alloc_ok s' -> getr X0 s' = u64 v -> a_brk s' = a_brk s -> Q tt s') -> wp (set_x X0 v) Q s.
Proof.
  intros [H1 H2] Hk. unfold wp, set_x. destruct (reg_step X0 (u64 v) (a_mem s) H1) as [H3 _]. apply Hk; [by constructor| |done].
  change (getr X0 (putr X0 (u64 v) (a_mem s)) = u64 v). apply getr_putr; [apply H1|]. apply wide_reg; [by unfold X0|]. apply u64_range.
Qed.

Lemma wp_brk_fail e Q s : alloc_ok s -> (forall s', alloc_ok s' -> getr X0 s' = two64 - 1 -> a_brk s' = a_brk s -> Q tt s') ->
  wp (hle_set_errno e;; set_x X0 (-1)) Q s.
Proof.
  intros Hs Hk. apply wp_bind. unfold wp at 1, hle_set_errno, mem_wr. pose proof (silent_wr (guest_errno_addr s) (le_bytes 4 e) s Hs) as Hw.
  unfold wp, mem_wr in Hw. apply wp_brk_result; [apply Hw|]. intros s' H1 H2 H3. apply Hk; [done|done|]. rewrite H3. cbn.
  by destruct (mem_write _ _ _).
Qed.

(** The program break.  sbrk moves it by the signed increment and returns the
    old break exactly when the new break lies in [[0, 2^63)]; otherwise, when the
    sum overflows or is negative, it returns -1 and leaves the break alone.  brk
    sets it to any address in [(0, 2^63)] and refuses others.  So the break never
    leaves [[0, 2^63)], and neither call touches the allocator's books. *)
Theorem program_break s : alloc_ok s -> 0 <= break s < 2 ^ 63 ->
  (forall x, getr X0 s = x ->
     wp hle_sbrk (fun _ s' => alloc_ok s' /\ 0 <= current_brk (a_brk s') < 2 ^ 63 /\
       if decide (0 <= break s + s64 x < 2 ^ 63)
       then getr X0 s' = break s /\ current_brk (a_brk s') = break s + s64 x
       else getr X0 s' = two64 - 1 /\ current_brk (a_brk s') = break s) s) /\
  (forall addr, getr X0 s = addr -> 0 <= addr < two64 ->
     wp hle_brk (fun _ s' => alloc_ok s' /\ 0 <= current_brk (a_brk s') < 2 ^ 63 /\
       if decide (0 < addr < 2 ^ 63)
       then getr X0 s' = 0 /\ current_brk (a_brk s') = addr
       else getr X0 s' = two64 - 1 /\ current_brk (a_brk s') = break s) s).
Proof.
  intros [Hu Hv] Hb. split.
  - intros x E1. apply wp_get. rewrite E1. apply wp_brk_init. intros s1 Em Ev Eb. assert (H1 : alloc_ok s1) by (constructor; congruence).
    apply wp_bind. unfold wp at 1, brk_now. rewrite Eb.
    assert (Es : s64 (break s) = break s) by (unfold s64; rewrite u64_small by (unfold in_u64, two64; lia); by rewrite (proj2 (Z.ltb_lt _ _)) by lia).
    set (d := s64 x) in *. clearbody d. destruct (Z.eqb_spec d 0) as [E0|Hne].
    { apply wp_brk_result; [done|]. intros s' H' Er Eb'. rewrite Er, Eb', Eb, E0, u64_small by (unfold in_u64, two64; lia).
      rewrite decide_True by lia. split_and!; try done; lia. }
    rewrite Es. destruct (decide (0 <= break s + d < 2 ^ 63)) as [Hin|Hout].
    + rewrite (proj2 (Z.leb_le (- 2 ^ 63) _)), (proj2 (Z.ltb_lt _ (2 ^ 63))), (proj2 (Z.ltb_ge _ 0)) by lia. cbn [andb negb orb].
      apply wp_brk_move; [done|]. intros s2 H2 Eb2. apply wp_brk_result; [done|]. intros s' H' Er Eb'.
      rewrite Er, Eb', Eb2, !u64_small by (unfold in_u64, two64; lia). split_and!; try done; lia.
    + assert (Hcond : negb ((- 2 ^ 63 <=? break s + d) && (break s + d <? 2 ^ 63)) || (break s + d <? 0) = true).
      { destruct (Z.leb_spec (- 2 ^ 63) (break s + d)), (Z.ltb_spec (break s + d) (2 ^ 63)), (Z.ltb_spec (break s + d) 0); try done; lia. }
      rewrite Hcond. apply wp_brk_fail; [done|]. intros s' H' Er Eb'. rewrite Er, Eb', Eb. split_and!; try done; lia.
  - intros addr E1 Ha. apply wp_get. rewrite E1. apply wp_brk_init. intros s1 Em Ev Eb. assert (H1 : alloc_ok s1) by (constructor; congruence).
    destruct (decide (0 < addr < 2 ^ 63)) as [Hin|Hout].
    + rewrite (proj2 (Z.eqb_neq addr 0)), (proj2 (Z.ltb_ge INTPTR_MAX addr)) by (unfold INTPTR_MAX; lia). cbn [orb].
      apply wp_brk_move; [done|]. intros s2 H2 Eb2. apply wp_brk_result; [done|]. intros s' H' Er Eb'. rewrite Er, Eb', Eb2. split_and!; try done; lia.
    + assert (Hcond : (addr =? 0) || (INTPTR_MAX <? addr) = true) by (destruct (Z.eqb_spec addr 0), (Z.ltb_spec INTPTR_MAX addr); try done; unfold INTPTR_MAX in *; lia).
      rewrite Hcond. apply wp_brk_fail; [done|]. intros s' H' Er Eb'. rewrite Er, Eb', Eb. split_and!; try done; lia.
Qed.

End Break.

(** * Witnesses *)

#[export] Instance RefWideRegs : WideRegs RefEnv.
Proof.
  constructor; [|done]. intros r v Hr Hv. cbn. unfold ref_trunc.
  rewrite (proj2 (Z.eqb_neq r REG_FPCR)), (proj2 (Z.eqb_neq r REG_FPSR)); [done|..]; unfold REG_FPCR, REG_FPSR; lia.
Qed.

(** The heap is mapped and empty; X0 to X2 hold the arguments. *)
Definition alloc_demo (x0 x1 x2 : Z) : astate (E := RefEnv) :=
  {| a_mem := putr X2 x2 (putr X1 x1 (putr X0 x0 heap_mem)); a_vmas := new_registry;
     a_brk := {| initial_brk := 0; current_brk := 0 |}; g_next_mmap_reservation_key := 0xF000000000000000 |}.

Lemma alloc_demo_ok x0 x1 x2 : alloc_ok (alloc_demo x0 x1 x2).
Proof. constructor; [|done]. repeat apply reg_step. constructor; [apply heap_mem_wf|apply heap_mem_mapped|done]. Qed.

Lemma libc_allocator_refines_witness : exists s', heap_run (alloc_demo 0x100 0 0) [(Malloc 0x100, HEAP_BASE); (Free HEAP_BASE, HEAP_BASE)] s' /\
  alloc_ok s' /\ spec_run ∅ [(Malloc 0x100, HEAP_BASE); (Free HEAP_BASE, HEAP_BASE)] (blocks s').
Proof.
  assert (Hrun : exists s', heap_run (alloc_demo 0x100 0 0) [(Malloc 0x100, HEAP_BASE); (Free HEAP_BASE, HEAP_BASE)] s').
  { eexists. eapply (run_step _ (Malloc 0x100)); [reflexivity|by repeat split|reflexivity|reflexivity|].
    eapply (run_step _ (Free HEAP_BASE)); [reflexivity|done|reflexivity|reflexivity|constructor]. }
  destruct Hrun as [s' Hrun]. exists s'. split; [done|].
  destruct (libc_allocator_refines _ _ _ (alloc_demo_ok 0x100 0 0) Hrun) as (H1 & H2 & _). by split.
Defined.

Lemma alloc_demo_sane x0 x1 x2 : sane (alloc_demo x0 x1 x2).
Proof.
  constructor; [apply heap_mem_wf|done|intros H; discriminate H|]. intros r v Hr Hv. apply (wide_reg (E := RefEnv) r v Hr Hv).
Qed.

Lemma alloc_demo_heap x0 x1 x2 : heap_accessible (alloc_demo x0 x1 x2).
Proof. exists heap_region. split; [by left|by split]. Qed.

(** calloc(3, 16), and posix_memalign that stores its pointer in the heap. *)
Lemma libc_contents_witness :
  wp hle_calloc (fun _ s' => exists p, new_block (alloc_demo 3 16 0) 48 16 p s' /\
    returned (alloc_demo 3 16 0) (stored (byte_at (alloc_demo 3 16 0)) p (replicate 48 0)) p s') (alloc_demo 3 16 0) /\
  wp hle_posix_memalign (fun _ s' => exists p, new_block (alloc_demo (HEAP_BASE + 0x1000) 64 24) 24 64 p s' /\
    returned (alloc_demo (HEAP_BASE + 0x1000) 64 24) (stored (byte_at (alloc_demo (HEAP_BASE + 0x1000) 64 24)) (HEAP_BASE + 0x1000) (le_bytes 8 p)) 0 s')
    (alloc_demo (HEAP_BASE + 0x1000) 64 24).
Proof.
  split.
  - destruct (libc_contents (alloc_demo 3 16 0) (alloc_demo_sane 3 16 0) (alloc_demo_ok 3 16 0) (alloc_demo_heap 3 16 0)) as [H _].
    apply (H 3 16).
    + split; vm_compute; reflexivity.
    + split_and!; [done|done|split; vm_compute; discriminate|vm_compute; repeat split; discriminate].
    + vm_compute. discriminate.
  - set (s0 := alloc_demo (HEAP_BASE + 0x1000) 64 24).
    destruct (libc_contents s0 (alloc_demo_sane _ _ _) (alloc_demo_ok _ _ _) (alloc_demo_heap _ _ _)) as (_ & H & _).
    apply (H (HEAP_BASE + 0x1000) 64 24).
    + split_and!; vm_compute; reflexivity.
    + done.
    + done.
    + reflexivity.
    + done.
    + split_and!; [done|done|split; vm_compute; discriminate|vm_compute; repeat split; discriminate].
    + vm_compute. discriminate.
    + eapply mapped_sub; [apply (alloc_demo_heap (HEAP_BASE + 0x1000) 64 24)|done..].
Defined.

Lemma program_break_witness : wp hle_sbrk (fun _ s' => getr X0 s' = HEAP_BASE /\ current_brk (a_brk s') = HEAP_BASE + 0x1000) (alloc_demo 0x1000 0 0).
Proof.
  destruct (program_break (alloc_demo 0x1000 0 0) (alloc_demo_ok 0x1000 0 0)) as [H _]; [by split|].
  eapply wp_mono; [by apply (H 0x1000)|]. intros _ s' (_ & _ & Hif). exact Hif.
Defined.

(** The program break starts at the base of the heap malloc serves from: what sbrk
    hands out is handed out again by malloc. *)
Theorem break_overlaps_heap :
  match hle_sbrk (alloc_demo 0x1000 0 0) with
  | Ret _ s1 => getr X0 s1 = HEAP_BASE /\
      match hle_malloc (s1 <| a_mem ::= putr X0 16 |>) with
      | Ret _ s2 => getr X0 s2 = HEAP_BASE
      | _ => False
      end
  | _ => False
  end.
Proof. vm_compute. split; reflexivity. Qed.

(** calloc(2^32, 2^32) is answered with a block of one byte. *)
Theorem calloc_wraps_to_one : 
  match hle_calloc (alloc_demo (2 ^ 32) (2 ^ 32) 0) with
  | Ret _ s1 => getr X0 s1 = HEAP_BASE /\ blocks s1 !! HEAP_BASE = Some 1
  | _ => False
  end.
Proof. vm_compute. split; reflexivity. Qed.
