(* ===== verification/TlsManager.v ===== *)
(** [TlsManager] (src/src/tls_manager.cpp, include/tls_manager.h): the TLS block of
    the main thread, its slots, the stack guard and errno. *)

From S2P Require Import Prelude Env MemoryManager MemorySpec Machine HostAccess HleMonad HleErrno.

Inductive TlsSlot :=
| TLS_SLOT_SELF | TLS_SLOT_THREAD_ID | TLS_SLOT_ERRNO | TLS_SLOT_OPENGL_API | TLS_SLOT_OPENGL | TLS_SLOT_STACK_GUARD | TLS_SLOT_DTV
| TLS_SLOT_BIONIC_TLS | TLS_SLOT_COUNT.
#[export] Instance TlsSlot_eq_dec : EqDecision TlsSlot.
Proof. solve_decision. Defined.

Definition slot_number (slot : TlsSlot) : Z :=
  match slot with
  | TLS_SLOT_SELF => 0 | TLS_SLOT_THREAD_ID => 1 | TLS_SLOT_ERRNO => 2 | TLS_SLOT_OPENGL_API => 3 | TLS_SLOT_OPENGL => 4
  | TLS_SLOT_STACK_GUARD => 5 | TLS_SLOT_DTV => 6 | TLS_SLOT_BIONIC_TLS => 7 | TLS_SLOT_COUNT => 8
  end.

Record TlsManager := { tls_base_ : Z; stack_guard_ : Z; errno_location_ : Z }.

(** The constructor. *)
Definition new_tls : TlsManager := {| tls_base_ := 0; stack_guard_ := 0; errno_location_ := 0 |}.

Section Tls.
Context {E : Env} `{!HostAccess E}.
Implicit Types s : mstate.

Definition set_slot (slot : TlsSlot) (value : Z) (t : TlsManager) s : bool * mstate :=
  if tls_base_ t =? 0 then (false, s)
  else let offset := slot_number slot * 8 in mem_write (tls_base_ t ⊕ offset) (le_bytes 8 value) s.

Definition get_slot (slot : TlsSlot) (t : TlsManager) s : Z :=
  if tls_base_ t =? 0 then 0
  else let offset := slot_number slot * 8 in rd (tls_base_ t ⊕ offset) 8 s.

Definition get_errno_address (t : TlsManager) : Z := errno_location_ t.
Definition get_tls_base (t : TlsManager) : Z := tls_base_ t.
Definition get_stack_guard (t : TlsManager) : Z := stack_guard_ t.

Definition set_errno (value : Z) (t : TlsManager) s : mstate :=
  if negb (errno_location_ t =? 0) then (mem_write (errno_location_ t) (le_bytes 4 value) s).2 else s.

Definition get_errno (t : TlsManager) s : Z :=
  if errno_location_ t =? 0 then 0 else s32 (rd (errno_location_ t) 4 s).

Definition tls_initialize (t : TlsManager) s : bool * (TlsManager * mstate) :=
  let t := {| tls_base_ := TLS_BASE; stack_guard_ := 0xDEADBEEFCAFEBABE; errno_location_ := errno_location_ t |} in
  let tpidr_value := TLS_BASE + 8 in
  let '(_, s) := set_slot TLS_SLOT_SELF (tls_base_ t) t s in
  let '(_, s) := set_slot TLS_SLOT_THREAD_ID 1 t s in
  let t := {| tls_base_ := tls_base_ t; stack_guard_ := stack_guard_ t; errno_location_ := tls_base_ t ⊕ 0x100 |} in
  let '(_, s) := set_slot TLS_SLOT_ERRNO (errno_location_ t) t s in
  let '(_, s) := zero_ (errno_location_ t) 4 s in
  let '(_, s) := set_slot TLS_SLOT_STACK_GUARD (stack_guard_ t) t s in
  let '(_, s) := mem_write (tls_base_ t ⊕ 48) (le_bytes 8 (stack_guard_ t)) s in
  let s := putr REG_TPIDR_EL0 tpidr_value s in
  let s := putr REG_X18 tpidr_value s in
  (true, (t, s)).

End Tls.
