(* ===== verification/TlsSpec.v ===== *)
(** What [TlsManager] sets up for the main thread, and errno as the manager and the
    libc handlers see it. *)

From S2P Require Import Prelude Env MemoryManager MemorySpec Machine HostAccess HleMonad HleErrno MappedSpec TlsManager.

(** A 32-bit value read as [int]. *)
Lemma s32_mod v : - 2 ^ 31 <= v < 2 ^ 31 -> s32 (v mod 2 ^ 32) = v.
Proof.
  intros H. unfold s32, u32, two32. rewrite Zmod_mod. destruct (decide (0 <= v)).
  - rewrite Z.mod_small by lia. by rewrite (proj2 (Z.ltb_lt _ _)) by lia.
  - replace (v mod 2 ^ 32) with (v + 2 ^ 32) by (apply (Z.mod_unique _ _ (-1)); lia).
    rewrite (proj2 (Z.ltb_ge _ _)) by lia. lia.
Qed.

Section Tls.
Context {E : Env} `{!HostAccess E, !GuestMemLaws E, !CpuMemLaws E, !RegLaws E, !HostAccessLaws E}.
Implicit Types s : mstate.

(** A read of known bytes. *)
Lemma rd_word s a n v : sane s -> mapped a (Z.of_nat n) s -> (0 < n)%nat -> holds_at (byte_at s) a (le_bytes n v) ->
  rd a (Z.of_nat n) s = v mod 2 ^ (8 * Z.of_nat n).
Proof.
  intros Hs Hm Hn Hh. unfold rd. pose proof (length_le_bytes n v) as Hl.
  rewrite <- Hl at 2. rewrite (gread_holds a (le_bytes n v) s); [apply le_value_bytes|apply Hs|by rewrite Hl| |done].
  intros E0. rewrite E0 in Hl. simpl in Hl. lia.
Qed.

Lemma sane_putr s r v : sane s -> sane (putr r v s).
Proof. intros [K1 K2 K3 K4]. constructor; [by apply ok_putr|by apply cpu_putr|by apply host_putr|done]. Qed.

(** The block of the main thread. *)
Definition tls_mapped s : Prop := mapped TLS_BASE TLS_SIZE s.
Lemma tls_sub s o n : tls_mapped s -> 0 < n -> 0 <= o -> o + n <= TLS_SIZE -> mapped (TLS_BASE + o) n s.
Proof. intros H ???. eapply mapped_sub; [exact H|lia..]. Qed.

Lemma set_slot_wrote slot v t s0 f s : wrote s0 f s -> tls_mapped s0 -> tls_base_ t = TLS_BASE ->
  exists s', set_slot slot v t s = (true, s') /\ wrote s0 (stored f (TLS_BASE + slot_number slot * 8) (le_bytes 8 v)) s'.
Proof.
  intros Hw Hm Et. unfold set_slot. rewrite Et. cbn [Z.eqb TLS_BASE]. fold TLS_BASE.
  rewrite u64_small by (unfold in_u64, TLS_BASE, two64; destruct slot; cbn; lia).
  apply wrote_write; [done| |done]. rewrite length_le_bytes. apply tls_sub; [done|lia|unfold TLS_SIZE; destruct slot; cbn; lia..].
Qed.

(** The manager after initialisation, and what it has written. *)
Definition main_tls : TlsManager := {| tls_base_ := TLS_BASE; stack_guard_ := 0xDEADBEEFCAFEBABE; errno_location_ := TLS_BASE + 0x100 |}.
Definition tls_layout (f : Z -> option Z) : Z -> option Z :=
  stored (stored (stored (stored (stored (stored f (TLS_BASE + 0) (le_bytes 8 TLS_BASE)) (TLS_BASE + 8) (le_bytes 8 1))
    (TLS_BASE + 16) (le_bytes 8 (TLS_BASE + 0x100))) (TLS_BASE + 0x100) (replicate 4 0))
    (TLS_BASE + 40) (le_bytes 8 0xDEADBEEFCAFEBABE)) (TLS_BASE + 48) (le_bytes 8 0xDEADBEEFCAFEBABE).

Record tls_ready s s' : Prop := {
  tr_sane : sane s';
  tr_mapped : tls_mapped s';
  tr_bytes x : byte_at s' x = tls_layout (byte_at s) x;
  tr_tpidr : getr REG_TPIDR_EL0 s' = TLS_BASE + 8;
  tr_x18 : getr REG_X18 s' = TLS_BASE + 8;
}.

Lemma initialize_ready t0 s : sane s -> tls_mapped s -> fits REG_TPIDR_EL0 (TLS_BASE + 8) ->
  exists s', tls_initialize t0 s = (true, (main_tls, s')) /\ tls_ready s s'.
Proof.
  intros Hs Hm Hfit. unfold tls_initialize.
  set (t1 := {| tls_base_ := TLS_BASE; stack_guard_ := 0xDEADBEEFCAFEBABE; errno_location_ := errno_location_ t0 |}).
  destruct (set_slot_wrote TLS_SLOT_SELF (tls_base_ t1) t1 s _ s (wrote_refl s Hs) Hm eq_refl) as (s1 & -> & W1).
  destruct (set_slot_wrote TLS_SLOT_THREAD_ID 1 t1 s _ s1 W1 Hm eq_refl) as (s2 & -> & W2).
  change {| tls_base_ := tls_base_ t1; stack_guard_ := stack_guard_ t1; errno_location_ := tls_base_ t1 ⊕ 0x100 |} with main_tls.
  destruct (set_slot_wrote TLS_SLOT_ERRNO (errno_location_ main_tls) main_tls s _ s2 W2 Hm eq_refl) as (s3 & -> & W3).
  assert (M3 : mapped (TLS_BASE + 0x100) 4 s3) by (apply W3, tls_sub; done || lia).
  destruct (zero_mapped s3 (TLS_BASE + 0x100) 4) as (s4 & E4 & B4 & Em4); [apply W3|done|done|].
  change (errno_location_ main_tls) with (TLS_BASE + 0x100). rewrite E4.
  pose proof (became_trans _ _ _ _ _ (proj1 W3) B4) as B4'.
  assert (W4 : wrote s (stored (stored (stored (stored (byte_at s) (TLS_BASE + 0) (le_bytes 8 TLS_BASE)) (TLS_BASE + 8) (le_bytes 8 1))
    (TLS_BASE + 16) (le_bytes 8 (TLS_BASE + 0x100))) (TLS_BASE + 0x100) (replicate 4 0)) s4).
  { split; [|rewrite Em4; apply W3]. eapply became_ext; [|exact B4']. intros x. apply stored_ext. intros y. apply (bc_byte _ _ _ (proj1 W3)). }
  destruct (set_slot_wrote TLS_SLOT_STACK_GUARD (stack_guard_ main_tls) main_tls s _ s4 W4 Hm eq_refl) as (s5 & -> & W5).
  destruct (wrote_write (TLS_BASE + 48) (le_bytes 8 0xDEADBEEFCAFEBABE) s _ s5 W5) as (s6 & E6 & W6 & _); [apply (tls_sub s 48 8); done|done|].
  change (tls_base_ main_tls ⊕ 48) with (TLS_BASE + 48). change (stack_guard_ main_tls) with 0xDEADBEEFCAFEBABE. rewrite E6.
  eexists. split; [reflexivity|]. destruct W6 as [S6 M6 _ B6 _]. constructor.
  - by do 2 apply sane_putr.
  - unfold tls_mapped. rewrite !mapped_putr. by apply M6.
  - intros x. by rewrite !byte_putr, B6.
  - rewrite getr_putr_ne by done. apply getr_putr; [apply S6|done].
  - apply getr_putr; [by apply cpu_putr, S6|]. by apply (sane_wide s6 S6).
Qed.

(** The words of the layout. *)
Ltac tls_disj := unfold disj, slot_number; rewrite ?length_le_bytes, ?length_replicate; unfold TLS_BASE; lia.
Ltac tls_word := first [apply holds_stored | apply holds_stored_disj; [tls_disj|tls_word]].

Lemma layout_out f x : ~ (TLS_BASE <= x < TLS_BASE + 0x104) -> tls_layout f x = f x.
Proof. intros H. unfold tls_layout. rewrite !stored_out; [done|rewrite ?length_le_bytes, ?length_replicate; lia..]. Qed.

(** One word of it, as the manager reads it. *)
Lemma ready_word s s' o n v : tls_ready s s' -> (0 < n)%nat -> 0 <= o -> o + Z.of_nat n <= TLS_SIZE ->
  holds_at (tls_layout (byte_at s)) (TLS_BASE + o) (le_bytes n v) -> rd (TLS_BASE + o) (Z.of_nat n) s' = v mod 2 ^ (8 * Z.of_nat n).
Proof.
  intros Hr Hn Ho Hle Hh. apply rd_word; [apply Hr|apply tls_sub; [apply Hr|lia..]|done|].
  eapply holds_at_ext; [|exact Hh]. intros x _. symmetry. apply Hr.
Qed.

Lemma ready_slot s s' slot v : tls_ready s s' -> holds_at (tls_layout (byte_at s)) (TLS_BASE + slot_number slot * 8) (le_bytes 8 v) ->
  get_slot slot main_tls s' = v mod 2 ^ 64.
Proof.
  intros Hr Hh. unfold get_slot. cbn [tls_base_ main_tls Z.eqb TLS_BASE]. fold TLS_BASE.
  rewrite u64_small by (unfold in_u64, TLS_BASE, two64; destruct slot; cbn; lia).
  apply (ready_word s s' _ 8); [done|lia|unfold TLS_SIZE; destruct slot; cbn; lia..|done].
Qed.

(** errno after it was set, by either. *)
Lemma errno_set s v : sane s -> tls_mapped s -> getr REG_TPIDR_EL0 s = TLS_BASE + 8 -> - 2 ^ 31 <= v < 2 ^ 31 ->
  let s2 := (mem_write (TLS_BASE + 0x100) (le_bytes 4 v) s).2 in
  get_errno main_tls s2 = v /\ hle_get_errno s2 = v.
Proof.
  intros Hs Hm Ht Hv s2.
  destruct (wrote_write (TLS_BASE + 0x100) (le_bytes 4 v) s _ s (wrote_refl s Hs)) as (s2' & Ew & [S2 M2 _ B2 R2] & _); [apply (tls_sub s 0x100 4); done|done|].
  assert (Es : s2 = s2') by (unfold s2; by rewrite Ew). rewrite Es.
  assert (Hrd : rd (TLS_BASE + 0x100) 4 s2' = v mod 2 ^ 32).
  { apply (rd_word s2' _ 4); [done|by apply M2, (tls_sub s 0x100 4)|lia|]. eapply holds_at_ext; [|apply holds_stored]. intros x _. symmetry. apply B2. }
  split.
  - unfold get_errno. cbn [errno_location_ main_tls]. change (TLS_BASE + 0x100 =? 0) with false. cbn iota. rewrite Hrd. by apply s32_mod.
  - unfold hle_get_errno, guest_errno_addr. rewrite R2, Ht. change (8 <=? TLS_BASE + 8) with true. cbn iota.
    change (TLS_BASE + 8 ⊖ 8 ⊕ 0x100) with (TLS_BASE + 0x100). rewrite Hrd. by apply s32_mod.
Qed.

(** Initialising thread-local storage on a mapped block: the slots for the
    thread itself, its number, errno and the stack guard hold what they should, the
    guard is also where compiled code looks for it (40 bytes behind TPIDR_EL0),
    TPIDR_EL0 and X18 point 8 bytes into the block, errno is 0, nothing outside the
    first 0x104 bytes of the block changes; the manager and the libc handlers agree
    on where errno is, and a value either of them sets is read back by both. *)
Theorem tls_initialized t0 s : sane s -> tls_mapped s -> fits REG_TPIDR_EL0 (TLS_BASE + 8) ->
  exists t s', tls_initialize t0 s = (true, (t, s')) /\ sane s' /\
    get_slot TLS_SLOT_SELF t s' = TLS_BASE /\ get_slot TLS_SLOT_THREAD_ID t s' = 1 /\
    get_slot TLS_SLOT_ERRNO t s' = get_errno_address t /\ get_slot TLS_SLOT_STACK_GUARD t s' = get_stack_guard t /\
    rd (getr REG_TPIDR_EL0 s' + 40) 8 s' = get_stack_guard t /\
    getr REG_TPIDR_EL0 s' = get_tls_base t + 8 /\ getr REG_X18 s' = get_tls_base t + 8 /\
    (forall x, ~ (TLS_BASE <= x < TLS_BASE + 0x104) -> byte_at s' x = byte_at s x) /\
    get_errno t s' = 0 /\ guest_errno_addr s' = get_errno_address t /\
    (forall v, - 2 ^ 31 <= v < 2 ^ 31 ->
       get_errno t (set_errno v t s') = v /\ hle_get_errno (set_errno v t s') = v /\
       wp (hle_set_errno v) (fun _ s2 => get_errno t s2 = v) s').
Proof.
  intros Hs Hm Hfit. destruct (initialize_ready t0 s Hs Hm Hfit) as (s' & E1 & Hr). exists main_tls, s'. split; [done|].
  assert (Haddr : guest_errno_addr s' = TLS_BASE + 0x100) by (unfold guest_errno_addr; by rewrite (tr_tpidr _ _ Hr)).
  pose proof (errno_set s' ) as He. split_and!; try apply Hr; try done.
  - apply (ready_slot s s' TLS_SLOT_SELF TLS_BASE Hr). unfold tls_layout. tls_word.
  - apply (ready_slot s s' TLS_SLOT_THREAD_ID 1 Hr). unfold tls_layout. tls_word.
  - apply (ready_slot s s' TLS_SLOT_ERRNO (TLS_BASE + 0x100) Hr). unfold tls_layout. tls_word.
  - apply (ready_slot s s' TLS_SLOT_STACK_GUARD 0xDEADBEEFCAFEBABE Hr). unfold tls_layout. tls_word.
  - rewrite (tr_tpidr _ _ Hr), <- Z.add_assoc. apply (ready_word s s' 48 8 0xDEADBEEFCAFEBABE Hr); [lia|unfold TLS_SIZE; lia..|]. unfold tls_layout. tls_word.
  - intros x Hx. by rewrite (tr_bytes _ _ Hr), layout_out.
  - unfold get_errno. cbn [errno_location_ main_tls]. change (TLS_BASE + 0x100 =? 0) with false. cbn iota.
    change 4 with (Z.of_nat 4). rewrite (ready_word s s' 0x100 4 0 Hr); [done|lia|unfold TLS_SIZE; lia..|]. unfold tls_layout. tls_word.
  - intros v Hv. destruct (He v (tr_sane _ _ Hr) (tr_mapped _ _ Hr) (tr_tpidr _ _ Hr) Hv) as [H1 H2]. split_and!; [done..|].
    unfold wp, hle_set_errno, mem_wr. rewrite Haddr. exact H1.
Qed.

End Tls.

(** * Witness *)

(** The block is mapped, before QEMU is ready. *)
Definition tls_mem : mstate (E := RefEnv) := (mem_map TLS_BASE TLS_SIZE 3 "TLS" mem0).2.

Lemma tls_mem_sane : sane tls_mem.
Proof.
  constructor; [|done|intros H; discriminate H|].
  - split; [|repeat constructor]. repeat constructor; done.
  - intros r v Hr Hv. cbn. unfold ref_trunc. rewrite (proj2 (Z.eqb_neq r REG_FPCR)), (proj2 (Z.eqb_neq r REG_FPSR)); [done|..];
      unfold REG_FPCR, REG_FPSR; lia.
Qed.

Lemma tls_mem_mapped : tls_mapped tls_mem.
Proof. eexists. split; [by left|by split]. Qed.

Lemma tls_initialized_witness : exists t s', tls_initialize new_tls tls_mem = (true, (t, s')) /\ get_slot TLS_SLOT_THREAD_ID t s' = 1.
Proof.
  destruct (tls_initialized new_tls tls_mem tls_mem_sane tls_mem_mapped eq_refl) as (t & s' & E1 & _ & _ & H & _). by exists t, s'.
Defined.
