(* ===== verification/SearchTree.v ===== *)
(** Binary search trees over a three-way comparison, as values: the reference for
    the trees hle_search.cpp keeps in guest memory, and their meaning as sorted
    sequences of keys. *)

From S2P Require Import Prelude.
From stdpp Require Import sorting.
#[local] Open Scope Z_scope.

(** A node remembers its address. *)
Inductive tree := Tip | Node (a k : Z) (l r : tree).

Definition ptr (t : tree) : Z := match t with Tip => 0 | Node a _ _ _ => a end.

Fixpoint addrs (t : tree) : list Z :=
  match t with Tip => [] | Node a _ l r => a :: addrs l ++ addrs r end.

(** The keys in order. *)
Fixpoint keys (t : tree) : list Z :=
  match t with Tip => [] | Node _ k l r => keys l ++ k :: keys r end.

Fixpoint height (t : tree) : nat :=
  match t with Tip => O | Node _ _ l r => S (Nat.max (height l) (height r)) end.

(** The smallest key of a tree and the tree without it. *)
Fixpoint remove_min (t : tree) : Z * tree :=
  match t with
  | Tip => (0, Tip)
  | Node a k l r =>
      match l with
      | Tip => (k, r)
      | _ => let '(k', l') := remove_min l in (k', Node a k l' r)
      end
  end.

Lemma remove_min_node a k l r : l <> Tip -> remove_min (Node a k l r) = ((remove_min l).1, Node a k (remove_min l).2 r).
Proof.
  destruct l as [|a' k' l' r']; [done|]. intros _.
  change (remove_min (Node a k (Node a' k' l' r') r)) with (let '(k0, l0) := remove_min (Node a' k' l' r') in (k0, Node a k l0 r)).
  by destruct (remove_min _).
Qed.

Section Order.
Context (cmp : Z -> Z -> Z).

Fixpoint tree_find (key : Z) (t : tree) : option (Z * Z) :=
  match t with
  | Tip => None
  | Node a k l r => if cmp key k =? 0 then Some (a, k) else if cmp key k <? 0 then tree_find key l else tree_find key r
  end.

(** With the new node at [p]. *)
Fixpoint tree_insert (key p : Z) (t : tree) : tree :=
  match t with
  | Tip => Node p key Tip Tip
  | Node a k l r => if cmp key k =? 0 then t else if cmp key k <? 0 then Node a k (tree_insert key p l) r else Node a k l (tree_insert key p r)
  end.

(** What takes the place of a deleted node. *)
Definition replace_node (a : Z) (l r : tree) : tree :=
  match l, r with
  | Tip, _ => r
  | _, Tip => l
  | _, _ => let '(k, r') := remove_min r in Node a k l r'
  end.

Fixpoint tree_remove (key : Z) (t : tree) : tree :=
  match t with
  | Tip => Tip
  | Node a k l r =>
      if cmp key k =? 0 then replace_node a l r
      else if cmp key k <? 0 then Node a k (tree_remove key l) r else Node a k l (tree_remove key r)
  end.

(** * Sequences *)

Definition lt_key (x y : Z) : Prop := cmp x y < 0.
Definition ordered (t : tree) : Prop := StronglySorted lt_key (keys t).

Definition seq_find (key : Z) (l : list Z) : option Z := List.find (fun k => cmp key k =? 0) l.
Definition seq_insert (key : Z) (l : list Z) : list Z :=
  filter (fun k => 0 < cmp key k) l ++ key :: filter (fun k => cmp key k < 0) l.
Definition seq_remove (key : Z) (l : list Z) : list Z := filter (fun k => cmp key k <> 0) l.

(** The comparison is a total preorder. *)
Class Compares := {
  cmp_sym x y : Z.sgn (cmp y x) = - Z.sgn (cmp x y);
  cmp_trans x y z : cmp x y < 0 -> cmp y z < 0 -> cmp x z < 0;
  cmp_same x y z : cmp x y = 0 -> Z.sgn (cmp x z) = Z.sgn (cmp y z);
}.
Context `{C : !Compares}.

Lemma cmp_lt_gt x y : cmp x y < 0 <-> 0 < cmp y x.
Proof. pose proof (cmp_sym x y). lia. Qed.

Lemma cmp_le_lt x y z : cmp x y <= 0 -> cmp y z < 0 -> cmp x z < 0.
Proof.
  intros H1 H2. destruct (decide (cmp x y = 0)) as [E|]; [|eapply cmp_trans; [|exact H2]; lia].
  pose proof (cmp_same x y z E). lia.
Qed.

Lemma cmp_lt_le x y z : cmp x y < 0 -> cmp y z <= 0 -> cmp x z < 0.
Proof.
  intros H1 H2. destruct (decide (cmp y z = 0)) as [E|]; [|eapply cmp_trans; [exact H1|]; lia].
  assert (cmp z y = 0) as E' by (pose proof (cmp_sym y z); lia).
  pose proof (cmp_same z y x E'). pose proof (cmp_sym x y). pose proof (cmp_sym x z). lia.
Qed.

Lemma ordered_node a k l r : ordered (Node a k l r) <->
  ordered l /\ ordered r /\ (forall x, x ∈ keys l -> cmp x k < 0) /\ (forall y, y ∈ keys r -> cmp k y < 0).
Proof.
  unfold ordered, lt_key. cbn [keys]. rewrite StronglySorted_app, StronglySorted_cons, Forall_forall. split.
  - intros (H1 & H2 & H3 & H4). split_and!; [done..| |done]. intros x Hx. apply H1; [done|by left].
  - intros (H1 & H2 & H3 & H4). split_and!; [|done..]. intros x y Hx [->|Hy]%elem_of_cons; [by apply H3|].
    eapply cmp_trans; [by apply H3|by apply H4].
Qed.

(** A key below (or equal to) the root is below everything on the right, and the
    other way round. *)
Lemma below_right key k (l : list Z) : cmp key k <= 0 -> (forall y, y ∈ l -> cmp k y < 0) -> forall y, y ∈ l -> cmp key y < 0.
Proof. intros H1 H2 y Hy. eapply cmp_le_lt; [exact H1|by apply H2]. Qed.

Lemma above_left key k (l : list Z) : 0 <= cmp key k -> (forall x, x ∈ l -> cmp x k < 0) -> forall x, x ∈ l -> 0 < cmp key x.
Proof.
  intros H1 H2 x Hx. apply cmp_lt_gt. eapply cmp_lt_le; [by apply H2|]. pose proof (cmp_sym key k). lia.
Qed.

(** * Searching *)

Lemma seq_find_app key l1 l2 : seq_find key (l1 ++ l2) = match seq_find key l1 with Some k => Some k | None => seq_find key l2 end.
Proof. unfold seq_find. induction l1 as [|x l1 IH]; simpl; [done|]. by destruct (_ =? _). Qed.

Lemma seq_find_none key l : (forall x, x ∈ l -> cmp key x <> 0) -> seq_find key l = None.
Proof.
  intros H. unfold seq_find. induction l as [|x l IH]; simpl; [done|]. rewrite (proj2 (Z.eqb_neq _ _)) by (apply H; by left).
  apply IH. intros y Hy. apply H. by right.
Qed.

Lemma seq_find_None key l x : seq_find key l = None -> x ∈ l -> cmp key x <> 0.
Proof. intros H Hx. apply list_elem_of_In in Hx. pose proof (List.find_none _ _ H x Hx) as Hn. by apply Z.eqb_neq. Qed.

Lemma find_spec key t : ordered t -> snd <$> tree_find key t = seq_find key (keys t).
Proof.
  induction t as [|a k l IHl r IHr]; [done|]. rewrite ordered_node. intros (Hl & Hr & Hbl & Hbr). cbn [tree_find keys].
  rewrite seq_find_app. cbn [seq_find List.find]. fold (seq_find key (keys r)). destruct (Z.eqb_spec (cmp key k) 0) as [E|Hne].
  - rewrite seq_find_none; [done|]. intros x Hx. pose proof (above_left key k (keys l) ltac:(lia) Hbl x Hx). lia.
  - destruct (Z.ltb_spec (cmp key k) 0).
    + rewrite IHl by done. destruct (seq_find key (keys l)); [done|]. symmetry. apply seq_find_none. intros y Hy.
      pose proof (below_right key k (keys r) ltac:(lia) Hbr y Hy). lia.
    + rewrite IHr by done. rewrite (seq_find_none key (keys l)); [done|]. intros x Hx.
      pose proof (above_left key k (keys l) ltac:(lia) Hbl x Hx). lia.
Qed.

Lemma find_addr key t a k : tree_find key t = Some (a, k) -> a ∈ addrs t /\ k ∈ keys t /\ cmp key k = 0.
Proof.
  induction t as [|a' k' l IHl r IHr]; [done|]. cbn [tree_find addrs keys]. destruct (Z.eqb_spec (cmp key k') 0) as [E|].
  - intros [= -> ->]. set_solver.
  - destruct (_ <? _); [intros (? & ? & ?)%IHl|intros (? & ? & ?)%IHr]; set_solver.
Qed.

(** * Inserting and removing *)

Lemma filter_all (P : Z -> Prop) `{!forall x, Decision (P x)} (l : list Z) : (forall x, x ∈ l -> P x) -> filter P l = l.
Proof.
  intros Hp. induction l as [|x l IH]; [done|]. rewrite filter_cons, decide_True by (apply Hp; by left). f_equal. apply IH.
  intros y Hy. apply Hp. by right.
Qed.

Lemma filter_none (P : Z -> Prop) `{!forall x, Decision (P x)} (l : list Z) : (forall x, x ∈ l -> ~ P x) -> filter P l = [].
Proof.
  intros Hp. induction l as [|x l IH]; [done|]. rewrite filter_cons, decide_False by (apply Hp; by left). apply IH.
  intros y Hy. apply Hp. by right.
Qed.

Lemma insert_spec key p t : ordered t -> seq_find key (keys t) = None -> keys (tree_insert key p t) = seq_insert key (keys t).
Proof.
  induction t as [|a k l IHl r IHr]; [done|]. rewrite ordered_node. intros (Hl & Hr & Hbl & Hbr) Hf. cbn [tree_insert].
  assert (Hk : cmp key k <> 0) by (apply (seq_find_None key _ k Hf); set_solver). rewrite (proj2 (Z.eqb_neq _ _)) by done.
  cbn [keys] in Hf. rewrite seq_find_app in Hf. destruct (seq_find key (keys l)) eqn:Hfl; [done|].
  unfold seq_insert. destruct (Z.ltb_spec (cmp key k) 0); cbn [keys]; rewrite !filter_app, !filter_cons.
  - rewrite IHl by done. rewrite (decide_False (P := 0 < cmp key k)) by lia. rewrite (decide_True (P := cmp key k < 0)) by lia.
    pose proof (below_right key k (keys r) ltac:(lia) Hbr) as Hb. rewrite (filter_none (fun k => 0 < cmp key k) (keys r)) by (intros y Hy; specialize (Hb y Hy); lia).
    rewrite (filter_all (fun k => cmp key k < 0) (keys r)) by done. rewrite app_nil_r. unfold seq_insert. rewrite <- !app_assoc. done.
  - rewrite IHr; [|done|]. 2:{ cbn [seq_find List.find] in Hf. by rewrite (proj2 (Z.eqb_neq _ _)) in Hf by done. }
    rewrite (decide_True (P := 0 < cmp key k)) by lia. rewrite (decide_False (P := cmp key k < 0)) by lia.
    pose proof (above_left key k (keys l) ltac:(lia) Hbl) as Hb. rewrite (filter_all (fun k => 0 < cmp key k) (keys l)) by done.
    rewrite (filter_none (fun k => cmp key k < 0) (keys l)) by (intros y Hy; specialize (Hb y Hy); lia). unfold seq_insert. rewrite <- !app_assoc. done.
Qed.

Lemma remove_min_keys t : t <> Tip -> keys t = (remove_min t).1 :: keys (remove_min t).2.
Proof.
  induction t as [|a k l IHl r IHr]; [done|]. intros _. cbn [remove_min keys]. destruct l as [|a' k' l' r']; [done|].
  specialize (IHl ltac:(done)). destruct (remove_min (Node a' k' l' r')) as [m l'']. cbn [fst snd keys] in *. by rewrite IHl.
Qed.

Lemma replace_node_keys a l r : keys (replace_node a l r) = keys l ++ keys r.
Proof.
  unfold replace_node. destruct l as [|a1 k1 l1 r1]; [done|]. destruct r as [|a2 k2 l2 r2]; [by rewrite app_nil_r|].
  pose proof (remove_min_keys (Node a2 k2 l2 r2) ltac:(done)) as Hm. destruct (remove_min _) as [m r']. cbn [fst snd] in Hm. by rewrite Hm.
Qed.

Lemma remove_spec key t : ordered t -> keys (tree_remove key t) = seq_remove key (keys t).
Proof.
  induction t as [|a k l IHl r IHr]; [done|]. rewrite ordered_node. intros (Hl & Hr & Hbl & Hbr). cbn [tree_remove].
  unfold seq_remove. cbn [keys]. rewrite filter_app, filter_cons.
  assert (HR : cmp key k <= 0 -> filter (fun k => cmp key k <> 0) (keys r) = keys r).
  { intros Hle. apply filter_all. intros y Hy. pose proof (below_right key k (keys r) Hle Hbr y Hy). lia. }
  assert (HL : 0 <= cmp key k -> filter (fun k => cmp key k <> 0) (keys l) = keys l).
  { intros Hge. apply filter_all. intros y Hy. pose proof (above_left key k (keys l) Hge Hbl y Hy). lia. }
  destruct (Z.eqb_spec (cmp key k) 0) as [E|Hne].
  - rewrite HL, HR, replace_node_keys by lia. by rewrite decide_False by lia.
  - rewrite decide_True by done. destruct (Z.ltb_spec (cmp key k) 0); cbn [keys].
    + rewrite IHl, HR by (done || lia). done.
    + rewrite IHr, HL by (done || lia). done.
Qed.

(** * Order is kept *)

Lemma sorted_filter (P : Z -> Prop) `{!forall x, Decision (P x)} (l : list Z) : StronglySorted lt_key l -> StronglySorted lt_key (filter P l).
Proof.
  induction 1 as [|x l Hs IH Hx]; [constructor|]. rewrite filter_cons. destruct (decide _); [|done]. constructor; [done|].
  rewrite Forall_forall in *. intros y [_ Hy]%list_elem_of_filter. by apply Hx.
Qed.

Lemma seq_insert_sorted key l : StronglySorted lt_key l -> StronglySorted lt_key (seq_insert key l).
Proof.
  intros H. unfold seq_insert. rewrite StronglySorted_app, StronglySorted_cons, Forall_forall. split_and!; [|by apply sorted_filter| |by apply sorted_filter].
  - intros x y [Hx _]%list_elem_of_filter [->|[Hy _]%list_elem_of_filter]%elem_of_cons; [by apply cmp_lt_gt|].
    eapply cmp_trans; [by apply cmp_lt_gt|done].
  - by intros y [Hy _]%list_elem_of_filter.
Qed.

Lemma ordered_insert key p t : ordered t -> seq_find key (keys t) = None -> ordered (tree_insert key p t).
Proof. intros H Hf. unfold ordered. rewrite insert_spec by done. by apply seq_insert_sorted. Qed.

Lemma ordered_remove key t : ordered t -> ordered (tree_remove key t).
Proof. intros H. unfold ordered. rewrite remove_spec by done. by apply sorted_filter. Qed.

End Order.
