(* ===== verification/HlePrintf.v ===== *)
(** The printf engine of the emulated libc (src/src/hle/hle_format.cpp): the parser
    of format strings, the two sources of arguments (registers and va_list), and
    the formatting of each directive.

    Strings are lists of bytes and the parser's cursor is the rest of the string.
    A [double] is its 64 bits, a [__float128] its 128 bits.  What the host's
    snprintf and quadmath_snprintf make of a format and its arguments is a
    parameter ([HostPrintf]); [%b] and [%B] are formatted by the engine itself.
    Reading [args] outside its bounds is undefined and shows as [None].  The
    parser throws where std::stoi does ([PThrow]). *)

From S2P Require Import Prelude Env MemoryManager MemorySpec Machine HostAccess HleMonad HleErrno.
From Stdlib Require Import Ascii String.
#[local] Open Scope Z_scope.

(** Bytes of a character and of a string literal. *)
Definition ch (c : ascii) : Z := Z.of_N (N_of_ascii c).
Definition text (s : string) : list Z := map ch (list_ascii_of_string s).

Definition EINVAL_F : Z := 22.
Definition ENOMEM_F : Z := 12.
Definition INT_MAX : Z := 2 ^ 31 - 1.

(** * Data *)

Inductive ArgKind :=
| ArgNone | ArgInt | ArgUInt | ArgLong | ArgULong | ArgLongLong | ArgULongLong | ArgIntMax | ArgUIntMax | ArgSSize | ArgSize
| ArgPtrDiff | ArgPointer | ArgCString | ArgWString | ArgDouble | ArgQuad.
#[export] Instance ArgKind_eq_dec : EqDecision ArgKind.
Proof. solve_decision. Defined.

Inductive LengthMod := LenNone | LenHH | LenH | LenL | LenLL | LenBigL | LenJ | LenZ | LenT | ExactW | FastW.
#[export] Instance LengthMod_eq_dec : EqDecision LengthMod.
Proof. solve_decision. Defined.

Record PrintArg := { pa_kind : ArgKind; pa_s64 : Z; pa_u64 : Z; pa_d : Z; pa_q : Z }.
Definition no_arg (kind : ArgKind) : PrintArg := {| pa_kind := kind; pa_s64 := 0; pa_u64 := 0; pa_d := 0; pa_q := 0 |}.

Record FormatSpec := {
  original : list Z;
  flags : list Z;
  has_width : bool;
  width_from_arg : bool;
  width : Z;
  width_position : Z;
  has_precision : bool;
  precision_from_arg : bool;
  precision : Z;
  precision_position : Z;
  value_position : Z;
  length_mod : LengthMod;
  w_bits : Z;
  conv : Z;
}.

Inductive FormatItem := Literal (bs : list Z) | Directive (spec : FormatSpec).

(** How parsing ends: a value, an error code, or an exception. *)
Inductive pres (A : Type) := POk (a : A) | PErr (error : Z) | PThrow.
Arguments POk {A}. Arguments PErr {A}. Arguments PThrow {A}.
#[export] Instance pres_ret : MRet pres := @POk.
#[export] Instance pres_bind : MBind pres := fun A B f m =>
  match m with POk a => f a | PErr e => PErr e | PThrow => PThrow end.

(** * Conversions *)

Definition is_one_of (c : Z) (s : string) : bool := existsb (Z.eqb c) (text s).

Definition is_signed_int_conv (c : Z) : bool := is_one_of c "di".
Definition is_unsigned_int_conv (c : Z) : bool := is_one_of c "uoxXbB".
Definition is_float_conv (c : Z) : bool := is_one_of c "aAeEfFgG".
Definition spec_takes_value_arg (c : Z) : bool := negb (is_one_of c "%m").

(** [sizeof] of the host's [int_fastN_t]. *)
Definition fast_int_bytes (bits : Z) : Z :=
  if bits =? 8 then 1 else if (bits =? 16) || (bits =? 32) || (bits =? 64) then 8 else 0.

Definition w_bytes (length : LengthMod) (bits : Z) : Z :=
  match length with ExactW => bits / 8 | _ => fast_int_bytes bits end.

Definition resolve_w_arg_kind (length : LengthMod) (bits conv : Z) : ArgKind :=
  let is_signed := is_signed_int_conv conv in
  if negb is_signed && negb (is_unsigned_int_conv conv) then ArgNone
  else let bytes := w_bytes length bits in
       if bytes <=? 0 then ArgNone
       else if bytes <=? 4 then if is_signed then ArgInt else ArgUInt
       else if is_signed then ArgLongLong else ArgULongLong.

Definition determine_arg_kind (length : LengthMod) (bits conv : Z) : ArgKind :=
  match length with
  | ExactW | FastW => resolve_w_arg_kind length bits conv
  | _ =>
      if is_float_conv conv then match length with LenBigL => ArgQuad | _ => ArgDouble end
      else if is_signed_int_conv conv
      then match length with
           | LenJ => ArgIntMax | LenZ => ArgSSize | LenT => ArgPtrDiff | LenL => ArgLong | LenLL => ArgLongLong | _ => ArgInt
           end
      else if is_unsigned_int_conv conv
      then match length with
           | LenJ => ArgUIntMax | LenZ => ArgSize | LenL => ArgULong | LenLL => ArgULongLong | _ => ArgUInt
           end
      else if is_one_of conv "cC" then ArgInt
      else if conv =? ch "s" then match length with LenL => ArgWString | _ => ArgCString end
      else if conv =? ch "S" then ArgWString
      else if is_one_of conv "pn" then ArgPointer
      else ArgNone
  end.

Definition exact_or_fast_length_string (spec : FormatSpec) : list Z :=
  let bytes := w_bytes (length_mod spec) (w_bits spec) in
  if bytes =? 1 then text "hh" else if bytes =? 2 then text "h" else if bytes =? 8 then text "ll" else [].

(** * The parser *)

Definition isdigit (c : Z) : bool := (48 <=? c) && (c <=? 57).
Definition is_flag (c : Z) : bool := is_one_of c "-+ #0'".

Fixpoint span (P : Z -> bool) (l : list Z) : list Z * list Z :=
  match l with
  | [] => ([], [])
  | c :: t => if P c then let '(a, r) := span P t in (c :: a, r) else ([], l)
  end.

Definition digits_value (ds : list Z) : Z := foldl (fun acc c => acc * 10 + (c - 48)) 0 ds.
(** [std::stoi] of a digit string. *)
Definition stoi (ds : list Z) : pres Z := let v := digits_value ds in if INT_MAX <? v then PThrow else POk v.

(** Digits followed by ['$'], or nothing: an argument position, 0 where there is none. *)
Definition parse_position (l : list Z) : pres (Z * list Z) :=
  match span isdigit l with
  | (d :: ds, c :: r) => if c =? ch "$" then v ← stoi (d :: ds); mret (v, r) else mret (0, l)
  | _ => mret (0, l)
  end.

(** A number up to [INT_MAX]. *)
Fixpoint parse_number (acc : Z) (l : list Z) : pres (Z * list Z) :=
  match l with
  | c :: t => if isdigit c
              then let acc := acc * 10 + (c - 48) in if INT_MAX <? acc then PErr ENOMEM_F else parse_number acc t
              else mret (acc, l)
  | [] => mret (acc, l)
  end.

(** The bits of [%w]: no check for overflow. *)
Fixpoint parse_bits (acc : Z) (l : list Z) : Z * list Z :=
  match l with
  | c :: t => if isdigit c then parse_bits (u64 (acc * 10 + (c - 48))) t else (acc, l)
  | [] => (acc, l)
  end.

(** A width or a precision: whether it comes from an argument, the number, the
    position. *)
Definition parse_star_or (number : list Z -> pres (bool * (bool * Z * Z) * list Z)) (l : list Z) : pres (bool * (bool * Z * Z) * list Z) :=
  match l with
  | c :: r => if c =? ch "*" then '(p, r) ← parse_position r; mret (true, (true, 0, p), r) else number l
  | [] => number l
  end.
Definition parse_width (l : list Z) : pres (bool * (bool * Z * Z) * list Z) :=
  parse_star_or (fun l =>
    match l with
    | c :: _ => if isdigit c then '(w, r) ← parse_number 0 l; mret (true, (false, w, 0), r) else mret (false, (false, 0, 0), l)
    | [] => mret (false, (false, 0, 0), l)
    end) l.
Definition parse_precision (l : list Z) : pres (bool * (bool * Z * Z) * list Z) :=
  match l with
  | c :: r => if c =? ch "."
              then parse_star_or (fun l => '(p, r) ← parse_number 0 l; mret (true, (false, p, 0), r)) r
              else mret (false, (false, 0, 0), l)
  | [] => mret (false, (false, 0, 0), l)
  end.

Definition parse_length (l : list Z) : pres (LengthMod * Z * list Z) :=
  match l with
  | [] => mret (LenNone, 0, l)
  | c :: r =>
      if c =? ch "w"
      then let '(len, r) := match r with c' :: r' => if c' =? ch "f" then (FastW, r') else (ExactW, r) | [] => (ExactW, r) end in
           let '(bits, r) := parse_bits 0 r in
           if negb ((bits =? 8) || (bits =? 16) || (bits =? 32) || (bits =? 64)) then PErr EINVAL_F else mret (len, bits, r)
      else if c =? ch "h" then match r with c' :: r' => if c' =? ch "h" then mret (LenHH, 0, r') else mret (LenH, 0, r) | [] => mret (LenH, 0, r) end
      else if c =? ch "l" then match r with c' :: r' => if c' =? ch "l" then mret (LenLL, 0, r') else mret (LenL, 0, r) | [] => mret (LenL, 0, r) end
      else if c =? ch "L" then mret (LenBigL, 0, r)
      else if c =? ch "j" then mret (LenJ, 0, r)
      else if c =? ch "z" then mret (LenZ, 0, r)
      else if c =? ch "t" then mret (LenT, 0, r)
      else mret (LenNone, 0, l)
  end.

(** A directive from after its ['%']; positions are 0 where the text has none. *)
Definition parse_directive (l : list Z) : pres (FormatSpec * list Z) :=
  match l with
  | [] => PErr EINVAL_F
  | _ :: _ =>
      '(value_position, l1) ← parse_position l;
      let '(flags, l2) := span is_flag l1 in
      '(has_width, (width_from_arg, width, width_position), l3) ← parse_width l2;
      '(has_precision, (precision_from_arg, precision, precision_position), l4) ← parse_precision l3;
      '(length, bits, l5) ← parse_length l4;
      match l5 with
      | [] => PErr EINVAL_F
      | conv :: r => mret (Build_FormatSpec (ch "%" :: take (Datatypes.length l - Datatypes.length r) l) flags has_width width_from_arg width width_position
                             has_precision precision_from_arg precision precision_position value_position length bits conv, r)
      end
  end.

(** [reserve_position]: the kinds of the arguments, from position 1 on. *)
Definition reserve_position (position : Z) (kind : ArgKind) (arg_kinds : list ArgKind) : pres (list ArgKind) :=
  if (position <=? 0) || bool_decide (kind = ArgNone) then mret arg_kinds
  else if position =? INT_MAX then PThrow
  else
    let i := Z.to_nat position in
    let ks := arg_kinds ++ replicate (S i - Datatypes.length arg_kinds) ArgNone in
    mret (match ks !! i with Some ArgNone => <[i := kind]> ks | _ => ks end).

(** Positions that the text leaves open are numbered in order. *)
Definition number_positions (spec : FormatSpec) (next : Z) : FormatSpec * Z :=
  let '(wp, next) := if width_from_arg spec && (width_position spec =? 0) then (next, next + 1) else (width_position spec, next) in
  let '(pp, next) := if precision_from_arg spec && (precision_position spec =? 0) then (next, next + 1) else (precision_position spec, next) in
  let '(vp, next) := if spec_takes_value_arg (conv spec) && (value_position spec =? 0) then (next, next + 1) else (value_position spec, next) in
  (Build_FormatSpec (original spec) (flags spec) (has_width spec) (width_from_arg spec) (width spec) wp
     (has_precision spec) (precision_from_arg spec) (precision spec) pp vp (length_mod spec) (w_bits spec) (conv spec), next).

Definition reserve_spec (spec : FormatSpec) (ks : list ArgKind) : pres (list ArgKind) :=
  ks ← reserve_position (width_position spec) ArgInt ks;
  ks ← reserve_position (precision_position spec) ArgInt ks;
  reserve_position (value_position spec) (determine_arg_kind (length_mod spec) (w_bits spec) (conv spec)) ks.

Definition flush_literal (pending : list Z) (items : list FormatItem) : list FormatItem :=
  match pending with [] => items | _ => items ++ [Literal pending] end.

(** The loop over the format. *)
Fixpoint parse_loop (fuel : nat) (fmt pending : list Z) (next : Z) (items : list FormatItem) (ks : list ArgKind)
    : pres (list FormatItem * list ArgKind) :=
  match fuel with
  | O => PErr 0
  | S fuel =>
      match fmt with
      | [] => mret (flush_literal pending items, ks)
      | c :: r =>
          if negb (c =? ch "%") then parse_loop fuel r (pending ++ [c]) next items ks
          else match r with
               | c' :: r' =>
                   if c' =? ch "%" then parse_loop fuel r' (pending ++ [ch "%"]) next items ks
                   else '(spec, rest) ← parse_directive r;
                        let '(spec, next) := number_positions spec next in
                        ks ← reserve_spec spec ks;
                        parse_loop fuel rest [] next (flush_literal pending items ++ [Directive spec]) ks
               | [] => PErr EINVAL_F
               end
      end
  end.

Definition parse_format_string (fmt : list Z) : pres (list FormatItem * list ArgKind) :=
  parse_loop (S (Datatypes.length fmt)) fmt [] 1 [] [ArgNone].

(** * Guest strings *)

Definition append_utf8 (wc : Z) : option (list Z) :=
  if wc <=? 0x7f then Some [wc]
  else if wc <=? 0x7ff then Some [Z.lor 0xc0 (Z.shiftr wc 6); Z.lor 0x80 (Z.land wc 0x3f)]
  else if (wc <=? 0xffff) && ((wc <? 0xd800) || (0xdfff <? wc))
  then Some [Z.lor 0xe0 (Z.shiftr wc 12); Z.lor 0x80 (Z.land (Z.shiftr wc 6) 0x3f); Z.lor 0x80 (Z.land wc 0x3f)]
  else if wc <=? 0x10ffff
  then Some [Z.lor 0xf0 (Z.shiftr wc 18); Z.lor 0x80 (Z.land (Z.shiftr wc 12) 0x3f); Z.lor 0x80 (Z.land (Z.shiftr wc 6) 0x3f);
             Z.lor 0x80 (Z.land wc 0x3f)]
  else None.

Definition kMaxStringLen : Z := 2 ^ 20.

Section Engine.
Context {S : Type} `{M : !Machine S, HV : !HostView S}.
Implicit Types s : S.

Fixpoint read_chars (n : nat) (addr : Z) s : list Z :=
  match n with
  | O => []
  | Datatypes.S n => match gread addr 1 s with
                     | Some bs => let c := le_value bs in if c =? 0 then [] else c :: read_chars n (addr ⊕ 1) s
                     | None => []
                     end
  end.
Definition read_c_string (addr : Z) s : list Z := if addr =? 0 then [] else read_chars (Z.to_nat kMaxStringLen) addr s.

Fixpoint read_wchars (n : nat) (addr : Z) s : list Z :=
  match n with
  | O => []
  | Datatypes.S n => match gread addr 4 s with
                     | Some bs => let c := le_value bs in if c =? 0 then [] else c :: read_wchars n (addr ⊕ 4) s
                     | None => []
                     end
  end.
Definition read_wide_string (addr : Z) s : list Z := if addr =? 0 then [] else read_wchars (Z.to_nat kMaxStringLen) addr s.

(** Stops at a code that is not a character. *)
Fixpoint utf8_of (wcs : list Z) : list Z :=
  match wcs with
  | [] => []
  | wc :: t => match append_utf8 wc with Some bs => bs ++ utf8_of t | None => [] end
  end.
Definition read_wide_string_utf8 (addr : Z) s : list Z := utf8_of (read_wide_string addr s).

(** * Arguments *)

(** V registers as two 64-bit halves. *)
Class FpRegs := vreg : Z -> S -> Z * Z.
Context `{F : !FpRegs}.

Definition get_dreg (reg : Z) s : Z := (vreg reg s).1.
Definition get_qreg (reg : Z) s : Z := (vreg reg s).1 + two64 * (vreg reg s).2.

Definition align_up_u64 (value alignment : Z) : Z := Z.land (value ⊕ alignment ⊖ 1) (Z.lxor (alignment - 1) (two64 - 1)).

(** What the engine asks of a source of arguments. *)
Class ArgSource (T : Type) := {
  next_gp_raw : S -> T -> Z * T;
  next_fp64 : S -> T -> Z * T;
  next_fp128 : S -> T -> Z * T;
}.

Record RegisterArgSource := { next_gp_reg : Z; next_fp_reg : Z; stack_addr : Z }.
Definition register_source (first_gp_reg : Z) s : RegisterArgSource :=
  {| next_gp_reg := first_gp_reg; next_fp_reg := 0; stack_addr := getr REG_SP s |}.

Definition reg_next_gp_raw s (r : RegisterArgSource) : Z * RegisterArgSource :=
  if next_gp_reg r <=? 7
  then (getr (next_gp_reg r) s, {| next_gp_reg := next_gp_reg r + 1; next_fp_reg := next_fp_reg r; stack_addr := stack_addr r |})
  else let a := align_up_u64 (stack_addr r) 8 in
       (rd a 8 s, {| next_gp_reg := next_gp_reg r; next_fp_reg := next_fp_reg r; stack_addr := a ⊕ align_up_u64 8 8 |}).
Definition reg_next_fp64 s (r : RegisterArgSource) : Z * RegisterArgSource :=
  if next_fp_reg r <=? 7
  then (get_dreg (next_fp_reg r) s, {| next_gp_reg := next_gp_reg r; next_fp_reg := next_fp_reg r + 1; stack_addr := stack_addr r |})
  else let a := align_up_u64 (stack_addr r) 8 in
       (rd a 8 s, {| next_gp_reg := next_gp_reg r; next_fp_reg := next_fp_reg r; stack_addr := a ⊕ 8 |}).
Definition reg_next_fp128 s (r : RegisterArgSource) : Z * RegisterArgSource :=
  if next_fp_reg r <=? 7
  then (get_qreg (next_fp_reg r) s, {| next_gp_reg := next_gp_reg r; next_fp_reg := next_fp_reg r + 1; stack_addr := stack_addr r |})
  else let a := align_up_u64 (stack_addr r) 16 in
       (rd a 16 s, {| next_gp_reg := next_gp_reg r; next_fp_reg := next_fp_reg r; stack_addr := a ⊕ 16 |}).
#[export] Instance register_args : ArgSource RegisterArgSource :=
  {| next_gp_raw := reg_next_gp_raw; next_fp64 := reg_next_fp64; next_fp128 := reg_next_fp128 |}.

Record arm64_va_list := { va_stack : Z; va_gr_top : Z; va_vr_top : Z; va_gr_offs : Z; va_vr_offs : Z }.
Definition va_list_source (addr : Z) s : arm64_va_list :=
  let bs := default (unread addr 32 s) (gread addr 32 s) in
  {| va_stack := le_value (take 8 bs); va_gr_top := le_value (take 8 (drop 8 bs)); va_vr_top := le_value (take 8 (drop 16 bs));
     va_gr_offs := s32 (le_value (take 4 (drop 24 bs))); va_vr_offs := s32 (le_value (take 4 (drop 28 bs))) |}.

Definition va_next_gp_raw s (v : arm64_va_list) : Z * arm64_va_list :=
  if va_gr_offs v <? 0
  then (rd (va_gr_top v ⊕ va_gr_offs v) 8 s, Build_arm64_va_list (va_stack v) (va_gr_top v) (va_vr_top v) (va_gr_offs v + 8) (va_vr_offs v))
  else let a := align_up_u64 (va_stack v) 8 in
       (rd a 8 s, Build_arm64_va_list (a ⊕ align_up_u64 8 8) (va_gr_top v) (va_vr_top v) (va_gr_offs v) (va_vr_offs v)).
Definition va_next_fp64 s (v : arm64_va_list) : Z * arm64_va_list :=
  if va_vr_offs v <? 0
  then (rd (va_vr_top v ⊕ va_vr_offs v) 8 s, Build_arm64_va_list (va_stack v) (va_gr_top v) (va_vr_top v) (va_gr_offs v) (va_vr_offs v + 16))
  else let a := align_up_u64 (va_stack v) 8 in
       (rd a 8 s, Build_arm64_va_list (a ⊕ 8) (va_gr_top v) (va_vr_top v) (va_gr_offs v) (va_vr_offs v)).
Definition va_next_fp128 s (v : arm64_va_list) : Z * arm64_va_list :=
  if va_vr_offs v <? 0
  then (rd (va_vr_top v ⊕ va_vr_offs v) 16 s, Build_arm64_va_list (va_stack v) (va_gr_top v) (va_vr_top v) (va_gr_offs v) (va_vr_offs v + 16))
  else let a := align_up_u64 (va_stack v) 16 in
       (rd a 16 s, Build_arm64_va_list (a ⊕ 16) (va_gr_top v) (va_vr_top v) (va_gr_offs v) (va_vr_offs v)).
#[export] Instance va_list_args : ArgSource arm64_va_list :=
  {| next_gp_raw := va_next_gp_raw; next_fp64 := va_next_fp64; next_fp128 := va_next_fp128 |}.

Definition read_arg `{!ArgSource T} (kind : ArgKind) s (src : T) : PrintArg * T :=
  match kind with
  | ArgInt => let '(v, t) := next_gp_raw s src in (Build_PrintArg kind (s32 v) 0 0 0, t)
  | ArgUInt => let '(v, t) := next_gp_raw s src in (Build_PrintArg kind 0 (u32 v) 0 0, t)
  | ArgLong | ArgLongLong | ArgIntMax | ArgSSize | ArgPtrDiff => let '(v, t) := next_gp_raw s src in (Build_PrintArg kind (s64 v) 0 0 0, t)
  | ArgULong | ArgULongLong | ArgUIntMax | ArgSize | ArgPointer | ArgCString | ArgWString =>
      let '(v, t) := next_gp_raw s src in (Build_PrintArg kind 0 v 0 0, t)
  | ArgDouble => let '(v, t) := next_fp64 s src in (Build_PrintArg kind 0 0 v 0, t)
  | ArgQuad => let '(v, t) := next_fp128 s src in (Build_PrintArg kind 0 0 0 v, t)
  | ArgNone => (no_arg ArgNone, src)
  end.

Fixpoint read_args `{!ArgSource T} (kinds : list ArgKind) s (src : T) : list PrintArg :=
  match kinds with
  | [] => []
  | k :: ks => let '(a, src) := read_arg k s src in a :: read_args ks s src
  end.
(** Position 0 is not an argument. *)
Definition materialize_args `{!ArgSource T} (kinds : list ArgKind) s (src : T) : list PrintArg :=
  match kinds with [] => [] | _ :: ks => no_arg ArgNone :: read_args ks s src end.

(** * Directives *)

Record HleFormatResult := { fr_ok : bool; fr_result : Z; fr_error : Z; fr_output : list Z }.
Definition formatted (output : list Z) : HleFormatResult :=
  {| fr_ok := true; fr_result := s32 (Z.of_nat (Datatypes.length output)); fr_error := 0; fr_output := output |}.
Definition format_error (e : Z) : HleFormatResult := {| fr_ok := false; fr_result := -1; fr_error := e; fr_output := [] |}.

(** Arguments of the host's functions. *)
Inductive HostArg :=
| HInt (v : Z) | HUInt (v : Z) | HLong (v : Z) | HULong (v : Z) | HDouble (bits : Z) | HQuad (bits : Z)
| HString (bs : list Z) | HWString (wcs : list Z) | HWint (v : Z) | HPointer (v : Z).

(** The host's snprintf under the UTF-8 locale, with errno set to the guest's: the
    text, or the error. *)
Class HostPrintf := { host_snprintf : list Z -> list HostArg -> Z -> list Z + Z; host_quadmath : list Z -> list HostArg -> Z -> list Z + Z }.
Context `{P : !HostPrintf}.

Definition has_flag (spec : FormatSpec) (flag : Z) : bool := existsb (Z.eqb flag) (flags spec).

(** [args[i]]; outside the vector is undefined. *)
Definition arg_at (args : list PrintArg) (i : Z) : option PrintArg := if i <? 0 then None else args !! Z.to_nat i.

Definition width_value_for_spec (spec : FormatSpec) (args : list PrintArg) : option Z :=
  if width_from_arg spec then a ← arg_at args (width_position spec); Some (s32 (pa_s64 a)) else Some (width spec).
Definition precision_value_for_spec (spec : FormatSpec) (args : list PrintArg) : option Z :=
  if precision_from_arg spec then a ← arg_at args (precision_position spec); Some (s32 (pa_s64 a)) else Some (precision spec).

(** [std::to_string] of a number that is not negative. *)
Fixpoint to_string_go (fuel : nat) (n : Z) (acc : list Z) : list Z :=
  match fuel with
  | O => acc
  | Datatypes.S fuel => let acc := (48 + n mod 10) :: acc in if n <? 10 then acc else to_string_go fuel (n / 10) acc
  end.
Definition to_string (n : Z) : list Z := to_string_go 20 n [].

Definition length_text (spec : FormatSpec) : list Z :=
  match length_mod spec with
  | LenHH => text "hh" | LenH => text "h" | LenL => text "l" | LenLL => text "ll" | LenBigL => text "L" | LenJ => text "j"
  | LenZ => text "z" | LenT => text "t" | ExactW | FastW => exact_or_fast_length_string spec | LenNone => []
  end.

(** [override_conv] is 0 for none. *)
Definition build_host_format (spec : FormatSpec) (override_conv : Z) (override_length : list Z) : list Z :=
  let c := if override_conv =? 0 then conv spec else override_conv in
  let c := if c =? ch "S" then ch "s" else c in
  let c := if c =? ch "C" then ch "c" else c in
  [ch "%"] ++ flags spec ++
  (if has_width spec then if width_from_arg spec then [ch "*"] else to_string (width spec) else []) ++
  (if has_precision spec then [ch "."] ++ (if precision_from_arg spec then [ch "*"] else to_string (precision spec)) else []) ++
  (match override_length with [] => length_text spec | _ => override_length end) ++ [c].

Definition host_result (r : list Z + Z) : HleFormatResult :=
  match r with inl out => formatted out | inr e => format_error (if e =? 0 then EINVAL_F else e) end.

(** The width and precision that come from arguments, before the value. *)
Definition star_args (spec : FormatSpec) (args : list PrintArg) : option (list HostArg) :=
  w ← (if width_from_arg spec then v ← width_value_for_spec spec args; Some [HInt v] else Some []);
  p ← (if precision_from_arg spec then v ← precision_value_for_spec spec args; Some [HInt v] else Some []);
  Some (w ++ p).

Definition host_format_value (fmt : list Z) (spec : FormatSpec) (args : list PrintArg) (value : HostArg) (errno : Z) : option HleFormatResult :=
  l ← star_args spec args; Some (host_result (host_snprintf fmt (l ++ [value]) errno)).
Definition host_format_no_value (fmt : list Z) (spec : FormatSpec) (args : list PrintArg) (errno : Z) : option HleFormatResult :=
  l ← star_args spec args; Some (host_result (host_snprintf fmt l errno)).
Definition host_format_quad (fmt : list Z) (spec : FormatSpec) (args : list PrintArg) (value : Z) (errno : Z) : option HleFormatResult :=
  l ← star_args spec args; Some (host_result (host_quadmath fmt (l ++ [HQuad value]) errno)).

(** ** Binary *)

Fixpoint binary_digits (fuel : nat) (working : Z) (acc : list Z) : list Z :=
  match fuel with
  | O => acc
  | Datatypes.S fuel =>
      if working =? 0 then acc
      else binary_digits fuel (Z.shiftr working 1) ((if Z.land working 1 =? 0 then ch "0" else ch "1") :: acc)
  end.

(** [-width] of the smallest [int] overflows ([None]). *)
Definition apply_binary_width (spec : FormatSpec) (args : list PrintArg) (digits : list Z) (uppercase : bool) (value : Z) : option (list Z) :=
  let alternate := has_flag spec (ch "#") && negb (value =? 0) in
  let zero0 := has_flag spec (ch "0") in
  '(digits, zero) ←
    (if has_precision spec
     then p ← precision_value_for_spec spec args;
          Some (if 0 <=? p
                then (if (p =? 0) && (value =? 0) then [] else replicate (Z.to_nat (p - Z.of_nat (Datatypes.length digits))) (ch "0") ++ digits, false)
                else (digits, zero0))
     else Some (digits, zero0));
  let prefix := if alternate then text (if uppercase then "0B" else "0b") else [] in
  w0 ← (if has_width spec then width_value_for_spec spec args else Some 0);
  let left := has_flag spec (ch "-") || (w0 <? 0) in
  if w0 =? - 2 ^ 31 then None
  else
    let w := Z.abs w0 in
    let total := Z.of_nat (Datatypes.length prefix + Datatypes.length digits) in
    let digits := if negb left && zero && (total <? w) then replicate (Z.to_nat (w - total)) (ch "0") ++ digits else digits in
    let total := Z.of_nat (Datatypes.length prefix + Datatypes.length digits) in
    let result := prefix ++ digits in
    let padding := replicate (Z.to_nat (w - total)) (ch " ") in
    Some (if total <? w then if left then result ++ padding else padding ++ result else result).

Definition format_binary_spec (spec : FormatSpec) (args : list PrintArg) (value : Z) : option HleFormatResult :=
  let digits := if value =? 0 then [ch "0"] else binary_digits 64 value [] in
  out ← apply_binary_width spec args digits (conv spec =? ch "B") value; Some (formatted out).

(** ** The others *)

Definition format_pointer_null_spec (spec : FormatSpec) (args : list PrintArg) (errno : Z) : option HleFormatResult :=
  host_format_value (build_host_format spec (ch "s") []) spec args (HString (text "0x0")) errno.

Definition format_string_spec s (spec : FormatSpec) (args : list PrintArg) (errno : Z) : option HleFormatResult :=
  value ← arg_at args (value_position spec);
  if (conv spec =? ch "s") && negb (bool_decide (length_mod spec = LenL))
  then host_format_value (build_host_format spec (ch "s") []) spec args
         (HString (if pa_u64 value =? 0 then text "(null)" else read_c_string (pa_u64 value) s)) errno
  else host_format_value (build_host_format spec (ch "s") (text "l")) spec args
         (HWString (if pa_u64 value =? 0 then text "(null)" else read_wide_string (pa_u64 value) s)) errno.

Definition format_int_spec (spec : FormatSpec) (args : list PrintArg) (errno : Z) : option HleFormatResult :=
  let fmt := build_host_format spec 0 [] in
  value ← arg_at args (value_position spec);
  match pa_kind value with
  | ArgInt => host_format_value fmt spec args (HInt (s32 (pa_s64 value))) errno
  | ArgUInt => host_format_value fmt spec args (HUInt (u32 (pa_u64 value))) errno
  | ArgLong | ArgLongLong | ArgIntMax | ArgSSize | ArgPtrDiff => host_format_value fmt spec args (HLong (pa_s64 value)) errno
  | ArgULong | ArgULongLong | ArgUIntMax | ArgSize => host_format_value fmt spec args (HULong (pa_u64 value)) errno
  | _ => Some (format_error EINVAL_F)
  end.

Definition format_float_spec (spec : FormatSpec) (args : list PrintArg) (errno : Z) : option HleFormatResult :=
  value ← arg_at args (value_position spec);
  match pa_kind value with
  | ArgQuad => host_format_quad (build_host_format spec (conv spec) (text "Q")) spec args (pa_q value) errno
  | _ => host_format_value (build_host_format spec 0 []) spec args (HDouble (pa_d value)) errno
  end.

Definition format_pointer_spec (spec : FormatSpec) (args : list PrintArg) (errno : Z) : option HleFormatResult :=
  value ← arg_at args (value_position spec);
  if pa_u64 value =? 0 then format_pointer_null_spec spec args errno
  else host_format_value (build_host_format spec 0 []) spec args (HPointer (pa_u64 value)) errno.

Definition format_char_spec (spec : FormatSpec) (args : list PrintArg) (errno : Z) : option HleFormatResult :=
  value ← arg_at args (value_position spec);
  if (conv spec =? ch "C") || bool_decide (length_mod spec = LenL)
  then host_format_value (build_host_format spec (ch "c") (text "l")) spec args (HWint (u32 (pa_s64 value))) errno
  else host_format_value (build_host_format spec (ch "c") []) spec args (HInt (s32 (pa_s64 value))) errno.

Definition format_m_spec (spec : FormatSpec) (args : list PrintArg) (errno : Z) : option HleFormatResult :=
  host_format_no_value (build_host_format spec 0 []) spec args errno.

Definition format_directive s (spec : FormatSpec) (args : list PrintArg) (errno : Z) : option HleFormatResult :=
  let c := conv spec in
  if c =? ch "n" then Some (format_error EINVAL_F)
  else if c =? ch "m" then format_m_spec spec args errno
  else if c =? ch "p" then format_pointer_spec spec args errno
  else if is_one_of c "sS" then format_string_spec s spec args errno
  else if is_one_of c "cC" then format_char_spec spec args errno
  else if is_one_of c "bB"
  then value ← arg_at args (value_position spec);
       format_binary_spec spec args
         (match pa_kind value with
          | ArgInt | ArgLong | ArgLongLong | ArgIntMax | ArgSSize | ArgPtrDiff => u64 (pa_s64 value)
          | _ => pa_u64 value
          end)
  else if is_float_conv c then format_float_spec spec args errno
  else if is_signed_int_conv c || is_unsigned_int_conv c then format_int_spec spec args errno
  else host_format_no_value (build_host_format spec 0 []) spec args errno.

(** The loop over the items: the first directive that fails is the result. *)
Fixpoint format_items s (items : list FormatItem) (args : list PrintArg) (errno : Z) (output : list Z) : option HleFormatResult :=
  match items with
  | [] => Some (formatted output)
  | Literal bs :: t => format_items s t args errno (output ++ bs)
  | Directive spec :: t =>
      piece ← format_directive s spec args errno;
      if fr_ok piece then format_items s t args errno (output ++ fr_output piece) else Some piece
  end.

Inductive format_outcome := Formatted (r : HleFormatResult) | FormatThrows | FormatUndefined.

Definition format_with_source `{!ArgSource T} s (fmt_addr : Z) (wide_format : bool) (source : T) : format_outcome :=
  let fmt := if wide_format then read_wide_string_utf8 fmt_addr s else read_c_string fmt_addr s in
  match parse_format_string fmt with
  | PThrow => FormatThrows
  | PErr e => Formatted (format_error e)
  | POk (items, kinds) =>
      match format_items s items (materialize_args kinds s source) (hle_get_errno s) [] with
      | Some r => Formatted r
      | None => FormatUndefined
      end
  end.

Definition hle_format_from_regs s (fmt_addr first_arg_reg : Z) (wide_format : bool) : format_outcome :=
  format_with_source s fmt_addr wide_format (register_source first_arg_reg s).
Definition hle_format_from_va_list s (fmt_addr va_list_addr : Z) (wide_format : bool) : format_outcome :=
  format_with_source s fmt_addr wide_format (va_list_source va_list_addr s).
End Engine.
Arguments FpRegs : clear implicits.

#[export] Instance mstate_vregs {E : Env} : FpRegs mstate := fun i s => get_vreg (REG_V i) (ext s).
