(* ===== verification/HlePrintfSpec.v ===== *)
(** The printf engine: what format strings mean, that no argument is read outside
    the vector of arguments (and the one case where it is), that formatting from a
    va_list and from registers agree, and the binary conversions. *)

From S2P Require Import Prelude Env MemoryManager MemorySpec Machine HostAccess HleStringSpec HleErrno HlePrintf.
From Stdlib Require Import Ascii String.
#[local] Open Scope Z_scope.
Local Notation len := Datatypes.length.

(** * Lexical pieces *)

Definition stops (P : Z -> bool) (l : list Z) : Prop := match l with c :: _ => P c = false | [] => True end.

Lemma span_app P ds l : Forall (fun c => P c = true) ds -> stops P l -> span P (ds ++ l) = (ds, l).
Proof.
  intros Hd Hl. induction Hd as [|d ds Hd _ IH]; cbn.
  - destruct l as [|c l]; [done|]. cbn in *. by rewrite Hl.
  - by rewrite Hd, IH.
Qed.
Lemma span_length P l : (len (span P l).1 + len (span P l).2 = len l)%nat.
Proof. induction l as [|c l IH]; [done|]. cbn. destruct (P c); [|done]. destruct (span P l). cbn in *. lia. Qed.

Notation digits := (Forall (fun c => isdigit c = true)).

Lemma digit_range c : isdigit c = true -> 48 <= c <= 57.
Proof. intros [?%Z.leb_le ?%Z.leb_le]%andb_prop. done. Qed.

Lemma digits_value_grow ds acc : digits ds -> 0 <= acc -> acc <= foldl (fun a c => a * 10 + (c - 48)) acc ds.
Proof.
  revert acc. induction ds as [|d ds IH]; intros acc Hd Ha; [done|]. apply Forall_cons in Hd as [Hd Hds]. cbn.
  apply digit_range in Hd. etrans; [|apply IH; [done|lia]]. lia.
Qed.

Lemma parse_number_app ds acc l : digits ds -> stops isdigit l -> 0 <= acc -> foldl (fun a c => a * 10 + (c - 48)) acc ds <= INT_MAX ->
  parse_number acc (ds ++ l) = POk (foldl (fun a c => a * 10 + (c - 48)) acc ds, l).
Proof.
  revert acc. induction ds as [|d ds IH]; intros acc Hd Hl Ha Hm; cbn.
  - destruct l as [|c l]; cbn in *; [done|]. by rewrite Hl.
  - apply Forall_cons in Hd as [Hd Hds]. rewrite Hd. pose proof (digit_range d Hd). cbn in Hm.
    pose proof (digits_value_grow ds (acc * 10 + (d - 48)) Hds ltac:(lia)). rewrite (proj2 (Z.ltb_ge _ _)) by lia. by apply IH; [|done|lia|].
Qed.

(** Not an argument position: digits, then something other than ['$']. *)
Inductive plain : list Z -> Prop :=
| plain_stop c l : isdigit c = false -> c <> ch "$" -> plain (c :: l)
| plain_digit c l : isdigit c = true -> plain l -> plain (c :: l).

Lemma plain_span l : plain l -> exists ds c r, span isdigit l = (ds, c :: r) /\ c <> ch "$".
Proof.
  induction 1 as [c l Hc Hne|c l Hc _ (ds & d & r & Hs & Hd)]; cbn; rewrite Hc; [by exists [], c, l|].
  rewrite Hs. by exists (c :: ds), d, r.
Qed.
Lemma position_none l : plain l -> parse_position l = POk (0, l).
Proof.
  intros (ds & c & r & Hs & Hc)%plain_span. unfold parse_position. rewrite Hs. destruct ds; [done|].
  by rewrite (proj2 (Z.eqb_neq c _)).
Qed.
Lemma position_some ds l : digits ds -> ds <> [] -> digits_value ds <= INT_MAX -> parse_position (ds ++ ch "$" :: l) = POk (digits_value ds, l).
Proof.
  intros Hd Hne Hm. unfold parse_position. rewrite span_app by done. destruct ds as [|d ds]; [done|].
  rewrite Z.eqb_refl. unfold stoi. by rewrite (proj2 (Z.ltb_ge _ _)).
Qed.
Lemma plain_app ds l : digits ds -> plain l -> plain (ds ++ l).
Proof. intros Hd Hl. induction Hd; [done|]. by apply plain_digit. Qed.

(** * The grammar *)

(** A directive as it is written.  Numbers are digit strings; an absent position is
    the empty one. *)
Inductive raw_num := NoNum | Star (pos : list Z) | Num (ds : list Z).
Record raw := { r_pos : list Z; r_flags : list Z; r_width : raw_num; r_prec : raw_num; r_len : LengthMod; r_bits : Z; r_conv : Z }.

Definition print_pos (ds : list Z) : list Z := match ds with [] => [] | _ => ds ++ [ch "$"] end.
Definition print_num (n : raw_num) : list Z := match n with NoNum => [] | Star p => ch "*" :: print_pos p | Num ds => ds end.
Definition print_prec (n : raw_num) : list Z := match n with NoNum => [] | _ => ch "." :: print_num n end.
Definition print_bits (b : Z) : list Z :=
  if b =? 8 then text "8" else if b =? 16 then text "16" else if b =? 32 then text "32" else text "64".
Definition print_len (l : LengthMod) (b : Z) : list Z :=
  match l with
  | LenNone => [] | LenHH => text "hh" | LenH => text "h" | LenL => text "l" | LenLL => text "ll" | LenBigL => text "L"
  | LenJ => text "j" | LenZ => text "z" | LenT => text "t" | ExactW => text "w" ++ print_bits b | FastW => text "wf" ++ print_bits b
  end.
Definition print_raw (r : raw) : list Z :=
  print_pos (r_pos r) ++ r_flags r ++ print_num (r_width r) ++ print_prec (r_prec r) ++ print_len (r_len r) (r_bits r) ++ [r_conv r].

Definition number (ds : list Z) : Prop := digits ds /\ digits_value ds <= INT_MAX.
Definition width_ok (n : raw_num) : Prop :=
  match n with NoNum => True | Star p => number p | Num ds => number ds /\ exists d t, ds = d :: t /\ d <> ch "0" end.
Definition prec_ok (n : raw_num) : Prop := match n with NoNum => True | Star p => number p | Num ds => number ds end.
Definition len_ok (l : LengthMod) (b : Z) : Prop :=
  match l with ExactW | FastW => b = 8 \/ b = 16 \/ b = 32 \/ b = 64 | _ => b = 0 end.
(** A conversion is any character that cannot be taken for part of the rest. *)
Definition conv_ok (c : Z) : Prop := isdigit c = false /\ is_flag c = false /\ is_one_of c "%*.$whlLjzt" = false.

Record raw_ok (r : raw) : Prop := {
  ro_pos : number (r_pos r);
  ro_flags : Forall (fun c => is_flag c = true) (r_flags r);
  ro_width : width_ok (r_width r);
  ro_prec : prec_ok (r_prec r);
  ro_len : len_ok (r_len r) (r_bits r);
  ro_conv : conv_ok (r_conv r);
}.

Definition num_fields (n : raw_num) : bool * (bool * Z * Z) :=
  match n with
  | NoNum => (false, (false, 0, 0)) | Star p => (true, (true, 0, digits_value p)) | Num ds => (true, (false, digits_value ds, 0))
  end.

(** What a directive means. *)
Definition spec_of (r : raw) : FormatSpec :=
  let '(hw, (wa, w, wp)) := num_fields (r_width r) in
  let '(hp, (pa, p, pp)) := num_fields (r_prec r) in
  Build_FormatSpec (ch "%" :: print_raw r) (r_flags r) hw wa w wp hp pa p pp (digits_value (r_pos r)) (r_len r) (r_bits r) (r_conv r).

(** What may follow a number: no digit, no ['$'], no ['*']. *)
Definition follows (l : list Z) : Prop := exists c t, l = c :: t /\ isdigit c = false /\ is_flag c = false /\ c <> ch "$" /\ c <> ch "*".

Lemma follows_plain l : follows l -> plain l.
Proof. intros (c & t & -> & H1 & _ & H2 & _). by apply plain_stop. Qed.
Lemma follows_stops l : follows l -> stops isdigit l.
Proof. by intros (c & t & -> & H1 & _). Qed.

Lemma star_number p l : number p -> plain l -> parse_position (print_pos p ++ l) = POk (digits_value p, l).
Proof.
  intros [Hd Hm] Hl. destruct p as [|d p]; [by apply position_none|]. unfold print_pos.
  rewrite <- app_assoc. cbn [app]. by apply (position_some (d :: p)).
Qed.

Lemma parse_width_ok n l : width_ok n -> follows l ->
  parse_width (print_num n ++ l) = let '(h, f) := num_fields n in POk (h, f, l).
Proof.
  intros Hn Hl. destruct n as [|p|ds]; cbn [print_num num_fields].
  - destruct Hl as (c & t & -> & H1 & _ & _ & H2). cbn. by rewrite (proj2 (Z.eqb_neq _ _) H2), H1.
  - cbn [app]. unfold parse_width, parse_star_or. rewrite Z.eqb_refl, star_number by (done || by apply follows_plain). done.
  - destruct Hn as ((Hd & Hm) & d & t & -> & Hne). pose proof (Forall_inv Hd) as H1. cbn [app]. unfold parse_width, parse_star_or.
    assert (d <> ch "*") as Hs%Z.eqb_neq by (intros ->; done). rewrite Hs. cbn beta iota. rewrite H1.
    change (d :: t ++ l) with ((d :: t) ++ l). rewrite parse_number_app by (done || by apply follows_stops). done.
Qed.

Lemma parse_prec_ok n l : prec_ok n -> follows l -> hd 0 l <> ch "." ->
  parse_precision (print_prec n ++ l) = let '(h, f) := num_fields n in POk (h, f, l).
Proof.
  intros Hn Hl Hdot. destruct n as [|p|ds]; cbn [print_prec print_num num_fields].
  - destruct Hl as (c & t & -> & _). cbn in *. by rewrite (proj2 (Z.eqb_neq _ _) Hdot).
  - cbn [app]. unfold parse_precision, parse_star_or. rewrite !Z.eqb_refl, star_number by (done || by apply follows_plain). done.
  - destruct Hn as [Hd Hm]. unfold parse_precision, parse_star_or. cbn [app]. rewrite Z.eqb_refl.
    assert (Hs : match ds ++ l with c :: _ => c <> ch "*" | [] => True end).
    { destruct ds as [|d ds]; cbn; [by destruct Hl as (c & t & -> & _ & _ & _ & ?)|]. intros ->. by apply Forall_inv in Hd. }
    pose proof (parse_number_app ds 0 l Hd (follows_stops l Hl) ltac:(lia) Hm) as Hnum.
    destruct (ds ++ l) as [|c t]; [|rewrite (proj2 (Z.eqb_neq _ _) Hs)]; rewrite Hnum; done.
Qed.

Lemma conv_not c s : is_one_of c "%*.$whlLjzt" = false -> In s (text "%*.$whlLjzt") -> (c =? s) = false.
Proof.
  intros H Hin. destruct (c =? s) eqn:E; [|done]. unfold is_one_of in H. rewrite <- H. symmetry. apply existsb_exists. by exists s.
Qed.

Lemma parse_len_ok m b c l : len_ok m b -> conv_ok c -> parse_length (print_len m b ++ c :: l) = POk (m, b, c :: l).
Proof.
  intros Hm (H1 & H2 & H3). pose proof (conv_not c) as Hn.
  assert (N : forall s, In s (text "%*.$whlLjzt") -> (c =? s) = false) by (intros; by apply conv_not).
  destruct m; cbn [len_ok] in Hm; [|subst b..| |]; try subst b; cbn [print_len app].
  1: unfold parse_length; rewrite !N by (cbn; tauto); done.
  1-8: cbn -[Z.eqb]; repeat match goal with |- context [Z.eqb (ch ?a) (ch ?b)] =>
         let v := eval compute in (Z.eqb (ch a) (ch b)) in change (Z.eqb (ch a) (ch b)) with v end;
       cbn -[Z.eqb]; rewrite ?N by (cbn; tauto); done.
  all: destruct Hm as [-> | [-> | [-> | ->]]]; lazymatch goal with |- _ = POk (?m, ?b, _) =>
         change ((let '(bits, r) := parse_bits b (c :: l) in if negb ((bits =? 8) || (bits =? 16) || (bits =? 32) || (bits =? 64))
                  then PErr EINVAL_F else mret (m, bits, r)) = POk (m, b, c :: l)) end; cbn [parse_bits]; rewrite H1; done.
Qed.

Lemma len_follows m b c l : conv_ok c -> let t := print_len m b ++ c :: l in follows t /\ hd 0 t <> ch ".".
Proof.
  intros (H1 & H2 & H3) t. assert (Hc : forall s, In s (text "%*.$whlLjzt") -> c <> s) by (intros s Hs; by apply Z.eqb_neq, conv_not).
  destruct m; (split; [eexists _, _; split; [reflexivity|]; split_and!|]); try done; apply Hc; cbn; tauto.
Qed.
Lemma prec_follows n l : follows l -> follows (print_prec n ++ l).
Proof. intros Hl. destruct n as [|p|ds]; [done| |]; eexists _, _; (split; [reflexivity|done]). Qed.
Lemma width_stops n l : width_ok n -> follows l -> stops is_flag (print_num n ++ l).
Proof.
  intros Hn Hl. destruct n as [|p|ds]; cbn [print_num].
  - by destruct Hl as (c & t & -> & _ & ? & _).
  - done.
  - destruct Hn as ((Hd & _) & d & t & -> & Hne). cbn. apply Forall_inv, digit_range in Hd. destruct (is_flag d) eqn:E; [|done].
    unfold is_flag, is_one_of in E. apply existsb_exists in E as (x & Hx & ->%Z.eqb_eq). cbn in Hx. unfold ch in *. cbn in *. intuition (subst; lia || done).
Qed.
Lemma width_plain n l : width_ok n -> follows l -> plain (print_num n ++ l).
Proof.
  intros Hn Hl. pose proof (follows_plain l Hl). destruct n as [|p|ds]; [done|by apply plain_stop|]. destruct Hn as ((Hd & _) & _). by apply plain_app.
Qed.
Lemma flags_plain fs l : Forall (fun c => is_flag c = true) fs -> plain l -> plain (fs ++ l).
Proof.
  intros Hf Hl. induction Hf as [|f fs Hf _ IH]; [done|]. cbn. destruct (isdigit f) eqn:Hd; [by apply plain_digit|]. apply plain_stop; [done|]. by intros ->.
Qed.

(** A directive is parsed as what it means, and no further. *)
Lemma parse_directive_ok r l : raw_ok r -> parse_directive (print_raw r ++ l) = POk (spec_of r, l).
Proof.
  intros [[Hp1 Hp2] Hf Hw Hpr Hl Hc]. destruct (len_follows (r_len r) (r_bits r) (r_conv r) l Hc) as [F4 Hdot].
  pose proof (prec_follows (r_prec r) _ F4) as F3. pose proof (width_stops (r_width r) _ Hw F3) as S2.
  pose proof (flags_plain (r_flags r) _ Hf (width_plain (r_width r) _ Hw F3)) as P1.
  pose proof (star_number (r_pos r) _ (conj Hp1 Hp2) P1) as E0.
  assert (Eq : print_raw r ++ l = print_pos (r_pos r) ++ r_flags r ++ print_num (r_width r) ++ print_prec (r_prec r) ++ print_len (r_len r) (r_bits r) ++ r_conv r :: l)
    by (unfold print_raw; by rewrite <- !app_assoc).
  unfold parse_directive. destruct (print_raw r ++ l) as [|x t] eqn:E.
  { exfalso. apply (f_equal len) in E. rewrite length_app in E. unfold print_raw in E. rewrite !length_app in E. cbn in E. lia. }
  rewrite Eq, E0. cbn [mbind pres_bind]. rewrite (span_app _ _ _ Hf S2), (parse_width_ok _ _ Hw F3).
  unfold spec_of. destruct (num_fields (r_width r)) as [hw [[wa w] wp]]. cbn [mbind pres_bind].
  rewrite (parse_prec_ok _ _ Hpr F4 Hdot). destruct (num_fields (r_prec r)) as [hp [[pa p] pp]]. cbn [mbind pres_bind].
  rewrite (parse_len_ok _ _ _ _ Hl Hc). cbn [mbind pres_bind]. unfold mret, pres_ret. do 3 f_equal.
  rewrite <- Eq, <- E, length_app. f_equal. replace (len (print_raw r) + len l - len l)%nat with (len (print_raw r)) by lia. apply take_app_length.
Qed.

(** * Termination *)

(** The rest of the format is never longer than what was parsed. *)
Lemma position_shorter l v r : parse_position l = POk (v, r) -> (len r <= len l)%nat.
Proof.
  unfold parse_position. pose proof (span_length isdigit l) as Hs. destruct (span isdigit l) as [[|d ds] [|c t]]; cbn in *; try (intros [= _ <-]; lia).
  destruct (c =? ch "$"); [|intros [= _ <-]; lia]. unfold stoi. destruct (INT_MAX <? _); cbn; [done|]. intros [= _ <-]. lia.
Qed.
Lemma number_shorter acc l v r : parse_number acc l = POk (v, r) -> (len r <= len l)%nat.
Proof.
  revert acc. induction l as [|c l IH]; intros acc; cbn; [by intros [= _ <-]|]. destruct (isdigit c); [|by intros [= _ <-]].
  destruct (INT_MAX <? _); [done|]. intros H%IH. lia.
Qed.
Lemma bits_shorter acc l : (len (parse_bits acc l).2 <= len l)%nat.
Proof. revert acc. induction l as [|c l IH]; intros acc; cbn; [done|]. destruct (isdigit c); [|done]. etrans; [apply IH|lia]. Qed.
Lemma star_shorter f l h p r : (forall h p r, f l = POk (h, p, r) -> (len r <= len l)%nat) ->
  parse_star_or f l = POk (h, p, r) -> (len r <= len l)%nat.
Proof.
  intros Hf. unfold parse_star_or. destruct l as [|c l]; [apply Hf|]. destruct (c =? ch "*"); [|apply Hf].
  destruct (parse_position l) as [[v r']| |] eqn:E; cbn; [|done..]. intros [= _ _ <-]. apply position_shorter in E. lia.
Qed.
Lemma width_shorter l h p r : parse_width l = POk (h, p, r) -> (len r <= len l)%nat.
Proof.
  apply star_shorter. intros h' p' r'. destruct l as [|c l]; [by intros [= _ _ <-]|]. destruct (isdigit c); [|by intros [= _ _ <-]].
  destruct (parse_number 0 (c :: l)) as [[v t]| |] eqn:E; cbn [mbind pres_bind]; [|done..]. intros [= _ _ <-]. by apply number_shorter in E.
Qed.
Lemma precision_shorter l h p r : parse_precision l = POk (h, p, r) -> (len r <= len l)%nat.
Proof.
  unfold parse_precision. destruct l as [|c l]; [by intros [= _ _ <-]|]. destruct (c =? ch "."); [|by intros [= _ _ <-]].
  intros H. apply star_shorter in H; [cbn; lia|]. intros h' p' r'.
  destruct (parse_number 0 l) as [[v t]| |] eqn:E; cbn; [|done..]. intros [= _ _ <-]. by apply number_shorter in E.
Qed.
Lemma length_shorter l m b r : parse_length l = POk (m, b, r) -> (len r <= len l)%nat.
Proof.
  unfold parse_length. destruct l as [|c l]; [by intros [= _ _ <-]|]. destruct (c =? ch "w").
  - destruct (match l with [] => _ | _ => _ end) as [m' l'] eqn:E. assert (len l' <= len l)%nat.
    { destruct l as [|c' t]; [by injection E as _ <-|]. destruct (c' =? ch "f"); injection E as _ <-; cbn; lia. }
    pose proof (bits_shorter 0 l') as Hb. destruct (parse_bits 0 l') as [bits l'']. cbn in Hb. destruct (negb _); [done|]. intros [= _ _ <-]. cbn. lia.
  - intros H. assert (r = c :: l \/ r = l \/ exists x, l = x :: r) as [-> | [-> | [x ->]]]; [|cbn; lia..].
    destruct (c =? ch "h"); [destruct l as [|c' t]; [|destruct (c' =? ch "h")]|destruct (c =? ch "l");
      [destruct l as [|c' t]; [|destruct (c' =? ch "l")]|repeat case_match]]; injection H as _ _ <-; eauto.
Qed.
Lemma directive_shorter l spec r : parse_directive l = POk (spec, r) -> (len r < len l)%nat.
Proof.
  unfold parse_directive. destruct l as [|x l0]; [done|]. set (l := x :: l0).
  destruct (parse_position l) as [[vp l1]| |] eqn:E1; cbn [mbind pres_bind]; [|done..]. apply position_shorter in E1.
  pose proof (span_length is_flag l1) as E2. destruct (span is_flag l1) as [fs l2]. cbn in E2.
  destruct (parse_width l2) as [[[hw [[wa w] wp]] l3]| |] eqn:E3; cbn [mbind pres_bind]; [|done..]. apply width_shorter in E3.
  destruct (parse_precision l3) as [[[hp [[pa p] pp]] l4]| |] eqn:E4; cbn [mbind pres_bind]; [|done..]. apply precision_shorter in E4.
  destruct (parse_length l4) as [[[m b] l5]| |] eqn:E5; cbn [mbind pres_bind]; [|done..]. apply length_shorter in E5.
  destruct l5 as [|c l5]; [done|]. intros [= _ <-]. cbn in E5. lia.
Qed.

(** The loop has fuel enough: more makes no difference. *)
Lemma parse_loop_fuel f1 f2 fmt pending next items ks : (len fmt < f1)%nat -> (len fmt < f2)%nat ->
  parse_loop f1 fmt pending next items ks = parse_loop f2 fmt pending next items ks.
Proof.
  revert f2 fmt pending next items ks. induction f1 as [|f1 IH]; intros [|f2] fmt pending next items ks H1 H2; try lia.
  destruct fmt as [|c r]; [done|]. cbn in H1, H2. cbn [parse_loop]. destruct (negb (c =? ch "%")); [apply IH; lia|].
  destruct r as [|c' r']; [done|]. cbn in H1, H2. destruct (c' =? ch "%"); [apply IH; lia|].
  destruct (parse_directive (c' :: r')) as [[spec rest]| |] eqn:E; cbn [mbind pres_bind]; [|done..].
  apply directive_shorter in E. cbn in E. destruct (number_positions spec next) as [spec' next'].
  destruct (reserve_spec spec' ks) as [ks'| |]; cbn [mbind pres_bind]; [|done..]. apply IH; lia.
Qed.

(** * What a format string means *)

(** ** Kinds of arguments *)

(** The kind of a value by its length modifier, the bits of [%w] and its conversion:
    the first row that lists the conversion. *)
Definition integer_rows (sig uns : ArgKind) : list (string * ArgKind) := [("di"%string, sig); ("uoxXbB"%string, uns)].
Definition other_rows (float str : ArgKind) : list (string * ArgKind) :=
  [("aAeEfFgG"%string, float); ("cC"%string, ArgInt); ("s"%string, str); ("S"%string, ArgWString); ("pn"%string, ArgPointer)].

Definition kind_rows (m : LengthMod) (bits : Z) : list (string * ArgKind) :=
  match m with
  | LenNone | LenHH | LenH => integer_rows ArgInt ArgUInt ++ other_rows ArgDouble ArgCString
  | LenBigL => integer_rows ArgInt ArgUInt ++ other_rows ArgQuad ArgCString
  | LenL => integer_rows ArgLong ArgULong ++ other_rows ArgDouble ArgWString
  | LenLL => integer_rows ArgLongLong ArgULongLong ++ other_rows ArgDouble ArgCString
  | LenJ => integer_rows ArgIntMax ArgUIntMax ++ other_rows ArgDouble ArgCString
  | LenZ => integer_rows ArgSSize ArgSize ++ other_rows ArgDouble ArgCString
  | LenT => integer_rows ArgPtrDiff ArgUInt ++ other_rows ArgDouble ArgCString
  | ExactW => if bits =? 64 then integer_rows ArgLongLong ArgULongLong else integer_rows ArgInt ArgUInt
  | FastW => if bits =? 8 then integer_rows ArgInt ArgUInt else integer_rows ArgLongLong ArgULongLong
  end.
Fixpoint row_kind (rows : list (string * ArgKind)) (c : Z) : ArgKind :=
  match rows with [] => ArgNone | (cs, k) :: rows => if is_one_of c cs then k else row_kind rows c end.
Definition value_kind_of (r : raw) : ArgKind := row_kind (kind_rows (r_len r) (r_bits r)) (r_conv r).

Lemma determine_arg_kind_rows m b c : len_ok m b -> determine_arg_kind m b c = row_kind (kind_rows m b) c.
Proof.
  intros Hl. unfold determine_arg_kind, resolve_w_arg_kind, is_float_conv, is_signed_int_conv, is_unsigned_int_conv.
  destruct (existsb (Z.eqb c) (text "diuoxXbBaAeEfFgGcCsSpn")) eqn:E.
  - apply existsb_exists in E as (x & Hx & <-%Z.eqb_eq). cbn in Hx.
    repeat match goal with H : _ \/ _ |- _ => destruct H as [<-|H] end; try done;
      destruct m; cbn [len_ok] in Hl; try reflexivity; destruct Hl as [-> | [-> | [-> | ->]]]; reflexivity.
  - assert (N : forall cs, (forall x, In x (text cs) -> In x (text "diuoxXbBaAeEfFgGcCsSpn")) -> is_one_of c cs = false).
    { intros cs Hs. apply not_true_iff_false. intros (x & Hx%Hs & Heq)%existsb_exists. apply not_true_iff_false in E. apply E, existsb_exists. by exists x. }
    assert ((c =? ch "s") = false /\ (c =? ch "S") = false) as [-> ->].
    { split; apply not_true_iff_false; intros Hc; apply not_true_iff_false in E; apply E, existsb_exists; (eexists; split; [|exact Hc]; cbn; tauto). }
    rewrite !N by (cbn; tauto). destruct m; cbn [negb andb kind_rows integer_rows other_rows app row_kind]; rewrite ?N by (cbn; tauto); try done;
      [destruct (b =? 64)|destruct (b =? 8)]; cbn [integer_rows row_kind]; by rewrite ?N by (cbn; tauto).
Qed.

(** ** Positions *)

(** The places of a directive that take an argument, by the positions written
    there: width, precision, value. *)
Definition star_place (n : raw_num) : list (list Z) := match n with Star p => [p] | _ => [] end.
Definition takes_value (r : raw) : bool := negb (r_conv r =? ch "m").
Definition places (r : raw) : list (list Z) :=
  star_place (r_width r) ++ star_place (r_prec r) ++ (if takes_value r then [r_pos r] else []).

(** The position of a place after the places [before] of the format: the one written,
    or, where none is (or 0), one more than the open places before it. *)
Definition is_open (p : list Z) : bool := digits_value p =? 0.
Definition opens (ps : list (list Z)) : Z := Z.of_nat (len (List.filter is_open ps)).
Definition assigned (before : list (list Z)) (p : list Z) : Z := if is_open p then 1 + opens before else digits_value p.
Definition star_position (before : list (list Z)) (n : raw_num) : Z := match n with Star p => assigned before p | _ => 0 end.

Definition directive_of (before : list (list Z)) (r : raw) : FormatSpec :=
  let '(hw, (wa, w, _)) := num_fields (r_width r) in
  let '(hp, (pa, p, _)) := num_fields (r_prec r) in
  Build_FormatSpec (ch "%" :: print_raw r) (r_flags r)
    hw wa w (star_position before (r_width r))
    hp pa p (star_position (before ++ star_place (r_width r)) (r_prec r))
    (if takes_value r then assigned (before ++ star_place (r_width r) ++ star_place (r_prec r)) (r_pos r) else digits_value (r_pos r))
    (r_len r) (r_bits r) (r_conv r).

(** What is read: positions with their kinds, in the order of the format. *)
Definition star_request (before : list (list Z)) (n : raw_num) : list (Z * ArgKind) :=
  match n with Star p => [(assigned before p, ArgInt)] | _ => [] end.
Definition value_request (before : list (list Z)) (r : raw) : list (Z * ArgKind) :=
  match value_kind_of r with ArgNone => [] | k => [(assigned before (r_pos r), k)] end.
Definition directive_requests (before : list (list Z)) (r : raw) : list (Z * ArgKind) :=
  star_request before (r_width r) ++ star_request (before ++ star_place (r_width r)) (r_prec r) ++
  value_request (before ++ star_place (r_width r) ++ star_place (r_prec r)) r.
Fixpoint requests (before : list (list Z)) (ds : list (list Z * raw)) : list (Z * ArgKind) :=
  match ds with [] => [] | (_, r) :: ds => directive_requests before r ++ requests (before ++ places r) ds end.

(** The vector of kinds: up to the largest position, each with the kind of the first
    place that reads it, and nothing where none does. *)
Fixpoint kind_at (reqs : list (Z * ArgKind)) (i : Z) : ArgKind :=
  match reqs with [] => ArgNone | (p, k) :: reqs => if p =? i then k else kind_at reqs i end.
Definition largest (reqs : list (Z * ArgKind)) : Z := foldr (fun q m => Z.max q.1 m) 0 reqs.
Definition kinds_of (reqs : list (Z * ArgKind)) : list ArgKind := kind_at reqs <$> seqZ 0 (1 + largest reqs).

(** ** Pieces *)

Definition literal (lit : list Z) : list FormatItem := match lit with [] => [] | _ => [Literal lit] end.
Fixpoint pieces (before : list (list Z)) (ds : list (list Z * raw)) (fin : list Z) : list FormatItem :=
  match ds with
  | [] => literal fin
  | (lit, r) :: ds => literal lit ++ Directive (directive_of before r) :: pieces (before ++ places r) ds fin
  end.

(** The meaning of a format: its pieces and its kinds of arguments.  No argument can
    be at position [INT_MAX]: the vector would need 2^31 entries. *)
Definition meaning (ds : list (list Z * raw)) (fin : list Z) : pres (list FormatItem * list ArgKind) :=
  if existsb (fun q => q.1 =? INT_MAX) (requests [] ds) then PThrow else POk (pieces [] ds fin, kinds_of (requests [] ds)).

(** ** The parser follows it *)

Lemma opens_app ps qs : opens (ps ++ qs) = opens ps + opens qs.
Proof. unfold opens. rewrite List.filter_app, length_app. lia. Qed.
Lemma opens_nonneg ps : 0 <= opens ps.
Proof. unfold opens. lia. Qed.
Lemma opens_one p : opens [p] = if is_open p then 1 else 0.
Proof. unfold opens. cbn. by destruct (is_open p). Qed.
Lemma assigned_pos before p : number p -> 0 < assigned before p.
Proof.
  intros [Hd _]. pose proof (opens_nonneg before). pose proof (digits_value_grow p 0 Hd ltac:(lia)) as Hp. unfold assigned, is_open.
  destruct (Z.eqb_spec (digits_value p) 0); [lia|]. unfold digits_value in *. lia.
Qed.

Lemma takes_value_ok r : raw_ok r -> spec_takes_value_arg (r_conv r) = takes_value r.
Proof.
  intros [_ _ _ _ _ (_ & _ & Hc)]. unfold spec_takes_value_arg, takes_value, is_one_of. cbn -[Z.eqb].
  change 37 with (ch "%"). rewrite (conv_not _ (ch "%") Hc) by (cbn; tauto). cbn. by rewrite orb_false_r.
Qed.

Lemma number_positions_of r before : raw_ok r ->
  number_positions (spec_of r) (1 + opens before) = (directive_of before r, 1 + opens (before ++ places r)).
Proof.
  intros Hr. pose proof (takes_value_ok r Hr) as Ht. unfold number_positions, spec_of, directive_of, places, star_position, assigned, is_open.
  destruct (num_fields (r_width r)) as [hw [[wa w] wp]] eqn:Ew, (num_fields (r_prec r)) as [hp [[pa p] pp]] eqn:Ep.
  cbn [width_from_arg width_position precision_from_arg precision_position conv value_position original flags has_width width has_precision precision length_mod w_bits].
  rewrite Ht. clear Ht Hr.
  destruct (r_width r) as [|wq|wq]; injection Ew as <- <- <- <-; destruct (r_prec r) as [|pq|pq]; injection Ep as <- <- <- <-; cbn [star_place app andb];
    repeat match goal with |- context [digits_value ?q =? 0] =>
      lazymatch goal with _ : (digits_value q =? 0) = _ |- _ => fail | _ => destruct (digits_value q =? 0) eqn:? end end;
    destruct (takes_value r); cbn [andb app]; unfold opens, is_open; rewrite ?List.filter_app, ?app_nil_r; cbn [List.filter];
    repeat match goal with H : (digits_value ?q =? 0) = _ |- _ => rewrite !H; clear H end;
    rewrite ?length_app; cbn [len]; f_equal; try lia; f_equal; lia.
Qed.

Lemma largest_cons q reqs : largest (q :: reqs) = Z.max q.1 (largest reqs).
Proof. done. Qed.
Lemma kind_at_beyond reqs i : largest reqs < i -> kind_at reqs i = ArgNone.
Proof. induction reqs as [|[p k] reqs IH]; [done|]. rewrite largest_cons. cbn [kind_at fst]. intros H. rewrite (proj2 (Z.eqb_neq p i)) by lia. apply IH. lia. Qed.
Lemma kind_at_snoc reqs p k i : Forall (fun q => q.2 <> ArgNone) reqs ->
  kind_at (reqs ++ [(p, k)]) i = match kind_at reqs i with ArgNone => if p =? i then k else ArgNone | k' => k' end.
Proof.
  induction 1 as [|[q kq] reqs Hq _ IH]; [done|]. cbn in *. destruct (q =? i); [by destruct kq|done].
Qed.
Lemma largest_nonneg reqs : 0 <= largest reqs.
Proof. induction reqs as [|q reqs IH]; [done|]. rewrite largest_cons. lia. Qed.
Lemma largest_snoc reqs p k : largest (reqs ++ [(p, k)]) = Z.max (largest reqs) (Z.max p 0).
Proof. induction reqs as [|q reqs IH]; [cbn; lia|]. cbn [app]. rewrite !largest_cons. lia. Qed.
Lemma kinds_of_length reqs : len (kinds_of reqs) = Z.to_nat (1 + largest reqs).
Proof. unfold kinds_of. by rewrite length_fmap, length_seqZ. Qed.
Lemma kinds_of_lookup reqs i : kinds_of reqs !! i = if decide (Z.of_nat i <= largest reqs) then Some (kind_at reqs (Z.of_nat i)) else None.
Proof.
  pose proof (largest_nonneg reqs). unfold kinds_of. rewrite list_lookup_fmap. case_decide.
  - by rewrite lookup_seqZ_lt by lia.
  - by rewrite lookup_seqZ_ge by lia.
Qed.

(** Reserving a position adds a request. *)
Lemma reserve_position_request p k reqs : 0 < p -> k <> ArgNone -> Forall (fun q => q.2 <> ArgNone) reqs ->
  reserve_position p k (kinds_of reqs) = if p =? INT_MAX then PThrow else POk (kinds_of (reqs ++ [(p, k)])).
Proof.
  intros Hp Hk Hreqs. pose proof (largest_nonneg reqs). unfold reserve_position. rewrite (proj2 (Z.leb_gt _ _)), bool_decide_false by (lia || done).
  cbn [orb]. destruct (p =? INT_MAX); [done|]. set (ks := kinds_of reqs ++ _).
  assert (Hks : forall i, ks !! i = if decide (Z.of_nat i <= Z.max (largest reqs) p) then Some (kind_at reqs (Z.of_nat i)) else None).
  { intros i. unfold ks. rewrite lookup_app, kinds_of_lookup, kinds_of_length. destruct (decide (Z.of_nat i <= largest reqs)).
    - by rewrite decide_True by lia.
    - rewrite kind_at_beyond by lia. case_decide; [by rewrite lookup_replicate_2 by lia|]. apply lookup_ge_None. rewrite length_replicate. lia. }
  assert (Hlen : (Z.to_nat p < len ks)%nat) by (unfold ks; rewrite length_app, length_replicate; lia).
  unfold mret, pres_ret. f_equal. rewrite Hks, decide_True, Z2Nat.id by lia. apply list_eq. intros i.
  rewrite kinds_of_lookup, largest_snoc, (Z.max_l p 0), kind_at_snoc by (lia || done).
  destruct (decide (i = Z.to_nat p)) as [->|Hi].
  - rewrite decide_True, Z2Nat.id, Z.eqb_refl by lia. destruct (kind_at reqs p) eqn:E;
      [by rewrite list_lookup_insert_eq|rewrite Hks, decide_True, Z2Nat.id, E by lia; done..].
  - rewrite (proj2 (Z.eqb_neq _ _)) by lia. replace (match kind_at reqs (Z.of_nat i) with ArgNone => ArgNone | k' => k' end) with (kind_at reqs (Z.of_nat i)) by (by destruct (kind_at reqs (Z.of_nat i))).
    destruct (kind_at reqs p); rewrite ?list_lookup_insert_ne by done; apply Hks.
Qed.

(** Reserving a run of positions. *)
Definition at_max (reqs : list (Z * ArgKind)) : bool := existsb (fun q => q.1 =? INT_MAX) reqs.
Definition extended (reqs new : list (Z * ArgKind)) : pres (list ArgKind) := if at_max new then PThrow else POk (kinds_of (reqs ++ new)).

Definition real (reqs : list (Z * ArgKind)) : Prop := Forall (fun q => 0 < q.1 /\ q.2 <> ArgNone) reqs.
Lemma real_kinds reqs : real reqs -> Forall (fun q => q.2 <> ArgNone) reqs.
Proof. intros H. eapply Forall_impl; [exact H|]. by intros q [_ ?]. Qed.

Lemma extended_nil reqs : extended reqs [] = POk (kinds_of reqs) /\ real [].
Proof. unfold extended. cbn. rewrite app_nil_r. split; [done|constructor]. Qed.
Lemma extended_bind {B} reqs new (f : list ArgKind -> pres B) : extended reqs new ≫= f = if at_max new then PThrow else f (kinds_of (reqs ++ new)).
Proof. unfold extended. by destruct (at_max new). Qed.

Lemma width_prec n : width_ok n -> prec_ok n.
Proof. destruct n; [done..|]. by intros [? _]. Qed.
Lemma reserve_star reqs before n : real reqs -> prec_ok n ->
  reserve_position (star_position before n) ArgInt (kinds_of reqs) = extended reqs (star_request before n) /\ real (star_request before n).
Proof.
  intros Hr Hn. destruct n as [|p|ds]; cbn [star_position star_request];
    [by destruct (extended_nil reqs) as [-> ?]| |by destruct (extended_nil reqs) as [-> ?]].
  pose proof (assigned_pos before p Hn). split; [|by constructor].
  rewrite reserve_position_request by (done || by apply real_kinds). unfold extended, at_max. cbn. by rewrite orb_false_r.
Qed.
Lemma reserve_value reqs before r : real reqs -> raw_ok r ->
  reserve_position (if takes_value r then assigned before (r_pos r) else digits_value (r_pos r)) (determine_arg_kind (r_len r) (r_bits r) (r_conv r)) (kinds_of reqs) =
    extended reqs (value_request before r) /\ real (value_request before r).
Proof.
  intros Hr Hok. rewrite determine_arg_kind_rows by apply Hok. fold (value_kind_of r). unfold value_request.
  destruct (decide (value_kind_of r = ArgNone)) as [E|Hk].
  { rewrite E. unfold reserve_position. rewrite bool_decide_true by done. rewrite orb_true_r. by destruct (extended_nil reqs) as [-> ?]. }
  assert (takes_value r = true) as ->.
  { unfold takes_value. destruct (Z.eqb_spec (r_conv r) (ch "m")) as [E|]; [|done]. exfalso. apply Hk. unfold value_kind_of. rewrite E.
    destruct (r_len r); try reflexivity; cbn [kind_rows]; case_match; reflexivity. }
  pose proof (assigned_pos before (r_pos r) (ro_pos r Hok)).
  assert (Hv : (match value_kind_of r with ArgNone => [] | k => [(assigned before (r_pos r), k)] end) = [(assigned before (r_pos r), value_kind_of r)])
    by (by destruct (value_kind_of r)).
  rewrite Hv. split; [|by constructor]. rewrite reserve_position_request by (done || by apply real_kinds). unfold extended, at_max. cbn. by rewrite orb_false_r.
Qed.

Lemma reserve_spec_request reqs before r : real reqs -> raw_ok r ->
  reserve_spec (directive_of before r) (kinds_of reqs) = extended reqs (directive_requests before r) /\ real (directive_requests before r).
Proof.
  intros Hr Hok. unfold directive_requests. set (q1 := star_request _ _). set (q2 := star_request _ _). set (q3 := value_request _ _).
  destruct (reserve_star reqs before (r_width r)) as [E1 R1]; [done|by apply width_prec, Hok|].
  destruct (reserve_star (reqs ++ q1) (before ++ star_place (r_width r)) (r_prec r)) as [E2 R2]; [by apply Forall_app|apply Hok|].
  destruct (reserve_value ((reqs ++ q1) ++ q2) (before ++ star_place (r_width r) ++ star_place (r_prec r)) r) as [E3 R3]; [|done|];
    [by apply Forall_app; split; [apply Forall_app|]|].
  split; [|by apply Forall_app; split; [|apply Forall_app]].
  unfold reserve_spec, directive_of. destruct (num_fields (r_width r)) as [hw [[wa w] wp]], (num_fields (r_prec r)) as [hp [[pa p] pp]].
  cbn [width_position precision_position value_position length_mod w_bits conv]. rewrite E1, extended_bind. fold q1.
  rewrite E2, extended_bind. fold q2. rewrite E3. fold q3. unfold extended, at_max. rewrite !existsb_app, <- !app_assoc.
  by destruct (existsb _ q1), (existsb _ q2), (existsb _ q3).
Qed.

Lemma flush_literal_app lit items : flush_literal lit items = items ++ literal lit.
Proof. destruct lit; [by rewrite app_nil_r|done]. Qed.

(** * Format strings *)

Definition escape (lit : list Z) : list Z := flat_map (fun c => if c =? ch "%" then [c; c] else [c]) lit.

(** Directives with the literal text before each, and the text at the end. *)
Definition print_format (ds : list (list Z * raw)) (fin : list Z) : list Z :=
  flat_map (fun '(lit, r) => escape lit ++ ch "%" :: print_raw r) ds ++ escape fin.

Lemma parse_literal lit fuel rest pending next items ks : (len (escape lit ++ rest) < fuel)%nat ->
  exists fuel', (len rest < fuel')%nat /\
    parse_loop fuel (escape lit ++ rest) pending next items ks = parse_loop fuel' rest (pending ++ lit) next items ks.
Proof.
  revert fuel pending. induction lit as [|c lit IH]; intros fuel pending Hf; [exists fuel; by rewrite app_nil_r|].
  cbn [escape flat_map] in *. destruct fuel as [|fuel]; [lia|]. destruct (c =? ch "%") eqn:E; cbn [app parse_loop] in *.
  - rewrite E. cbn [negb]. apply Z.eqb_eq in E as ->. fold (escape lit) in *.
    destruct (IH fuel (pending ++ [ch "%"])) as (f' & H1 & H2); [cbn in Hf; lia|]. exists f'. split; [done|]. rewrite H2, <- app_assoc. done.
  - rewrite E. cbn [negb]. fold (escape lit) in *. destruct (IH fuel (pending ++ [c])) as (f' & H1 & H2); [cbn in Hf; lia|].
    exists f'. split; [done|]. rewrite H2, <- app_assoc. done.
Qed.

Lemma print_raw_head r : raw_ok r -> exists c t, print_raw r = c :: t /\ (c =? ch "%") = false.
Proof.
  intros [[Hp _] Hf Hw Hpr Hl (Hc1 & Hc2 & Hc3)]. unfold print_raw.
  assert (D : forall d, isdigit d = true -> (d =? ch "%") = false) by (intros d Hd; apply Z.eqb_neq; intros ->; done).
  destruct (r_pos r) as [|d ds]; cbn [print_pos app]; [|eexists _, _; split; [done|]; apply D; by apply Forall_inv in Hp].
  destruct (r_flags r) as [|f fs]; cbn [app].
  2: { eexists _, _; split; [done|]. apply Z.eqb_neq. intros ->. by apply Forall_inv in Hf. }
  destruct (r_width r) as [|p|ds]; cbn [print_num app]; [|by eexists _, _|].
  2: { destruct Hw as ((Hd & _) & d & t & -> & _). eexists _, _; split; [done|]. apply D. by apply Forall_inv in Hd. }
  destruct (r_prec r); cbn [print_prec app]; [|by eexists _, _..].
  destruct (r_len r); cbn [print_len app]; try (by eexists _, _). eexists _, _; split; [done|]. apply conv_not; [done|]. cbn. tauto.
Qed.

(** The loop: from the requests and the pieces so far to those of the whole. *)
Lemma parse_loop_ok ds fin fuel before items reqs : Forall (fun d => raw_ok d.2) ds -> (len (print_format ds fin) < fuel)%nat -> real reqs ->
  parse_loop fuel (print_format ds fin) [] (1 + opens before) items (kinds_of reqs) =
    if at_max (requests before ds) then PThrow else POk (items ++ pieces before ds fin, kinds_of (reqs ++ requests before ds)).
Proof.
  intros Hd. revert fuel before items reqs. induction Hd as [|[lit r] ds Hr _ IH]; intros fuel before items reqs Hf Hreqs.
  - unfold print_format in *. cbn [flat_map app] in *. rewrite <- (app_nil_r (escape fin)) in *.
    destruct (parse_literal fin fuel [] [] (1 + opens before) items (kinds_of reqs) Hf) as ([|f'] & H1 & ->); [cbn in H1; lia|].
    cbn [parse_loop requests pieces app]. by rewrite flush_literal_app, app_nil_r.
  - assert (Eq : print_format ((lit, r) :: ds) fin = escape lit ++ (ch "%" :: print_raw r ++ print_format ds fin))
      by (unfold print_format; cbn [flat_map]; rewrite <- !app_assoc; done).
    rewrite Eq in *. destruct (parse_literal lit fuel (ch "%" :: print_raw r ++ print_format ds fin) [] (1 + opens before) items (kinds_of reqs) Hf)
      as ([|f'] & H1 & ->); [lia|].
    cbn [app parse_loop]. rewrite Z.eqb_refl. cbn [negb]. destruct (print_raw_head r Hr) as (c & t & Hh & Hc).
    pose proof (parse_directive_ok r (print_format ds fin) Hr) as Hpd. rewrite Hh in *. cbn [app] in *. rewrite Hc, Hpd. cbn [mbind pres_bind].
    rewrite (number_positions_of r before Hr). destruct (reserve_spec_request reqs before r Hreqs Hr) as [Hrs Hreal].
    rewrite Hrs. unfold extended. cbn [requests pieces].
    unfold at_max. rewrite existsb_app. fold (at_max (directive_requests before r)). destruct (at_max (directive_requests before r)); [done|]. cbn [orb mbind pres_bind].
    rewrite IH; [|cbn in H1; rewrite length_app in H1; lia|by apply Forall_app]. unfold at_max.
    rewrite flush_literal_app. by rewrite <- !app_assoc.
Qed.

(** * Bounds *)

Lemma position_nonneg l v r : parse_position l = POk (v, r) -> 0 <= v.
Proof.
  unfold parse_position. assert (Hd : digits (span isdigit l).1).
  { induction l as [|c l IH]; cbn; [constructor|]. destruct (isdigit c) eqn:E; [|constructor]. destruct (span isdigit l). cbn in *. by constructor. }
  destruct (span isdigit l) as [[|d ds] [|c t]]; cbn [fst] in Hd; try (by intros [= <- _]). destruct (c =? ch "$"); [|by intros [= <- _]].
  unfold stoi. destruct (INT_MAX <? _); cbn; [done|]. intros [= <- _]. by apply (digits_value_grow (d :: ds) 0).
Qed.
Lemma star_nonneg f l h a w p r : (forall h a w p r, f l = POk (h, (a, w, p), r) -> 0 <= p) -> parse_star_or f l = POk (h, (a, w, p), r) -> 0 <= p.
Proof.
  intros Hf. unfold parse_star_or. destruct l as [|c l]; [apply Hf|]. destruct (c =? ch "*"); [|apply Hf].
  destruct (parse_position l) as [[v r']| |] eqn:E; cbn; [|done..]. intros [= _ _ _ <- _]. by apply position_nonneg in E.
Qed.
Lemma width_nonneg l h a w p r : parse_width l = POk (h, (a, w, p), r) -> 0 <= p.
Proof.
  apply star_nonneg. intros h' a' w' p' r'. destruct l as [|c l]; [by intros [= _ _ _ <- _]|]. destruct (isdigit c); [|by intros [= _ _ _ <- _]].
  destruct (parse_number 0 (c :: l)) as [[v t]| |]; cbn [mbind pres_bind]; [|done..]. by intros [= _ _ _ <- _].
Qed.
Lemma precision_nonneg l h a w p r : parse_precision l = POk (h, (a, w, p), r) -> 0 <= p.
Proof.
  unfold parse_precision. destruct l as [|c l]; [by intros [= _ _ _ <- _]|]. destruct (c =? ch "."); [|by intros [= _ _ _ <- _]].
  apply star_nonneg. intros h' a' w' p' r'. destruct (parse_number 0 l) as [[v t]| |]; cbn; [|done..]. by intros [= _ _ _ <- _].
Qed.
Lemma length_valid l m b r : parse_length l = POk (m, b, r) -> len_ok m b.
Proof.
  unfold parse_length. destruct l as [|c l]; [by intros [= <- <- _]|]. destruct (c =? ch "w").
  - destruct (match l with [] => _ | _ => _ end) as [m' l'] eqn:E. assert (Hm : m' = ExactW \/ m' = FastW).
    { destruct l as [|c' t]; [injection E as <- _; by left|]. destruct (c' =? ch "f"); injection E as <- _; auto. }
    destruct (parse_bits 0 l') as [bits l'']. destruct (_ || _) eqn:Hb; [|done]. cbn [negb]. intros [= <- <- _].
    assert (bits = 8 \/ bits = 16 \/ bits = 32 \/ bits = 64).
    { apply orb_prop in Hb as [[[?%Z.eqb_eq|?%Z.eqb_eq]%orb_prop|?%Z.eqb_eq]%orb_prop|?%Z.eqb_eq]; auto. }
    by destruct Hm as [-> | ->].
  - repeat case_match; try done; by intros [= <- <- _].
Qed.

(** What the parser promises of a directive before positions are numbered. *)
Lemma directive_fields l spec r : parse_directive l = POk (spec, r) ->
  0 <= width_position spec /\ 0 <= precision_position spec /\ 0 <= value_position spec /\ len_ok (length_mod spec) (w_bits spec).
Proof.
  unfold parse_directive. destruct l as [|x l0]; [done|].
  destruct (parse_position (x :: l0)) as [[vp l1]| |] eqn:E1; cbn [mbind pres_bind]; [|done..]. apply position_nonneg in E1.
  destruct (span is_flag l1) as [fs l2].
  destruct (parse_width l2) as [[[hw [[wa w] wp]] l3]| |] eqn:E3; cbn [mbind pres_bind]; [|done..]. apply width_nonneg in E3.
  destruct (parse_precision l3) as [[[hp [[pa p] pp]] l4]| |] eqn:E4; cbn [mbind pres_bind]; [|done..]. apply precision_nonneg in E4.
  destruct (parse_length l4) as [[[m b] l5]| |] eqn:E5; cbn [mbind pres_bind]; [|done..]. apply length_valid in E5.
  destruct l5 as [|c l5]; [done|]. by intros [= <- _].
Qed.

Definition spec_kind (spec : FormatSpec) : ArgKind := determine_arg_kind (length_mod spec) (w_bits spec) (conv spec).
Definition in_args (n : nat) (p : Z) : Prop := 0 < p /\ (Z.to_nat p < n)%nat.

(** A directive whose arguments are among [n] positions. *)
Record in_range (n : nat) (spec : FormatSpec) : Prop := {
  ir_width : width_from_arg spec = true -> in_args n (width_position spec);
  ir_precision : precision_from_arg spec = true -> in_args n (precision_position spec);
  ir_value : spec_takes_value_arg (conv spec) = true -> spec_kind spec <> ArgNone -> in_args n (value_position spec);
  ir_length : len_ok (length_mod spec) (w_bits spec);
}.
Lemma in_range_more n m spec : (n <= m)%nat -> in_range n spec -> in_range m spec.
Proof. intros Hn [H1 H2 H3 H4]. constructor; [intros H; specialize (H1 H)|intros H; specialize (H2 H)|intros H H'; specialize (H3 H H')|done]; unfold in_args in *; lia. Qed.

Lemma reserve_position_spec p k ks ks' : reserve_position p k ks = POk ks' ->
  (len ks <= len ks')%nat /\ (0 < p -> k <> ArgNone -> in_args (len ks') p).
Proof.
  unfold reserve_position. destruct (_ || _) eqn:E.
  - intros [= <-]. split; [done|]. intros H1 H2. apply orb_prop in E as [?%Z.leb_le|?%bool_decide_eq_true]; [lia|done].
  - destruct (p =? INT_MAX); [done|]. apply orb_false_elim in E as [E%Z.leb_gt _]. set (ks1 := ks ++ replicate _ ArgNone).
    assert (Hl : len ks1 = Nat.max (len ks) (S (Z.to_nat p))) by (unfold ks1; rewrite length_app, length_replicate; lia).
    intros Hr. assert (len ks' = len ks1) as ->.
    { injection Hr as <-. destruct (ks1 !! Z.to_nat p) as [[]|]; try done. apply length_insert. }
    unfold in_args. split; [lia|]. intros _ _. lia.
Qed.
Lemma reserve_spec_ok spec ks ks' : reserve_spec spec ks = POk ks' -> (width_from_arg spec = true -> 0 < width_position spec) ->
  (precision_from_arg spec = true -> 0 < precision_position spec) -> (spec_takes_value_arg (conv spec) = true -> 0 < value_position spec) ->
  len_ok (length_mod spec) (w_bits spec) -> (len ks <= len ks')%nat /\ in_range (len ks') spec.
Proof.
  unfold reserve_spec. intros Hr Hw Hp Hv Hl.
  destruct (reserve_position (width_position spec) ArgInt ks) as [k1| |] eqn:E1; cbn in Hr; [|done..].
  destruct (reserve_position (precision_position spec) ArgInt k1) as [k2| |] eqn:E2; cbn in Hr; [|done..].
  apply reserve_position_spec in E1 as [L1 R1], E2 as [L2 R2], Hr as [L3 R3]. split; [lia|].
  constructor; [intros H; specialize (R1 (Hw H))|intros H; specialize (R2 (Hp H))|intros H Hk; by apply R3; [apply Hv|]|done].
  - destruct R1; [done|]. unfold in_args. lia.
  - destruct R2; [done|]. unfold in_args. lia.
Qed.

Lemma number_positions_spec spec next : 1 <= next -> 0 <= width_position spec -> 0 <= precision_position spec -> 0 <= value_position spec ->
  let '(spec', next') := number_positions spec next in 1 <= next' /\
  (width_from_arg spec' = true -> 0 < width_position spec') /\ (precision_from_arg spec' = true -> 0 < precision_position spec') /\
  (spec_takes_value_arg (conv spec') = true -> 0 < value_position spec') /\ length_mod spec' = length_mod spec /\ w_bits spec' = w_bits spec.
Proof.
  intros Hn Hw Hp Hv. unfold number_positions.
  destruct (width_from_arg spec && _) eqn:E1, (precision_from_arg spec && _) eqn:E2, (spec_takes_value_arg (conv spec) && _) eqn:E3; cbn;
    repeat match goal with
    | H : _ && _ = true |- _ => apply andb_prop in H as [? ?%Z.eqb_eq]
    | H : _ && _ = false |- _ => apply andb_false_iff in H
    end; split_and!; try done; try lia; intros Hf; rewrite Hf in *;
    repeat match goal with H : _ \/ (_ =? _) = false |- _ => destruct H as [H|H]; [done|apply Z.eqb_neq in H] end; lia.
Qed.

Definition all_in_range (items : list FormatItem) (ks : list ArgKind) : Prop := forall spec, Directive spec ∈ items -> in_range (len ks) spec.

Lemma flush_directives lit items spec : Directive spec ∈ flush_literal lit items -> Directive spec ∈ items.
Proof. unfold flush_literal. destruct lit; [done|]. intros [?|H%list_elem_of_singleton]%elem_of_app; [done|by inversion H]. Qed.

Lemma parse_loop_range fuel fmt pending next items ks items' ks' : 1 <= next -> all_in_range items ks ->
  parse_loop fuel fmt pending next items ks = POk (items', ks') -> all_in_range items' ks'.
Proof.
  revert fmt pending next items ks. induction fuel as [|fuel IH]; intros fmt pending next items ks Hn Hr; [done|].
  cbn [parse_loop]. destruct fmt as [|c r].
  { intros [= <- <-] spec Hs%flush_directives. by apply Hr. }
  destruct (negb _); [by apply IH|]. destruct r as [|c' r']; [done|]. destruct (c' =? ch "%"); [by apply IH|].
  destruct (parse_directive (c' :: r')) as [[spec rest]| |] eqn:E; cbn [mbind pres_bind]; [|done..].
  apply directive_fields in E as (P1 & P2 & P3 & P4). pose proof (number_positions_spec spec next Hn P1 P2 P3) as Hnp.
  destruct (number_positions spec next) as [spec' next']. destruct Hnp as (N0 & N1 & N2 & N3 & N4 & N5).
  destruct (reserve_spec spec' ks) as [k1| |] eqn:Hk; cbn [mbind pres_bind]; [|done..].
  apply reserve_spec_ok in Hk as [Hlen Hin]; [|done..|by rewrite N4, N5]. apply IH; [done|].
  intros sp [H%flush_directives|H%list_elem_of_singleton]%elem_of_app; [|by injection H as ->]. eapply in_range_more; [exact Hlen|by apply Hr].
Qed.

(** ** Directives that read outside the arguments *)

Definition is_w (m : LengthMod) : bool := match m with ExactW | FastW => true | _ => false end.
(** [%w] on a conversion that is not an integer's. *)
Definition w_misused (spec : FormatSpec) : Prop := is_w (length_mod spec) = true /\ is_one_of (conv spec) "cCsSpaAeEfFgG" = true.

Lemma one_of_In c s : is_one_of c s = true -> In c (text s).
Proof. intros (x & Hx & ->%Z.eqb_eq)%existsb_exists. done. Qed.

Lemma value_kind m b c : len_ok m b -> is_one_of c "pcCsSbBaAeEfFgGdiuoxX" = true -> ~ (is_w m = true /\ is_one_of c "cCsSpaAeEfFgG" = true) ->
  spec_takes_value_arg c = true /\ determine_arg_kind m b c <> ArgNone.
Proof.
  intros Hl Hc%one_of_In Hw. cbn in Hc.
  repeat match goal with H : _ \/ _ |- _ => destruct H as [<-|H] end; try done;
    (split; [done|]); destruct m; cbn [len_ok] in Hl; try done;
    try (exfalso; apply Hw; done); destruct Hl as [-> | [-> | [-> | ->]]]; done.
Qed.

Section Defined.
Context {S : Type} `{M : !Machine S, HV : !HostView S, F : !FpRegs S, P : !HostPrintf}.
Implicit Types s : S.

Lemma arg_at_in args p : in_args (len args) p -> is_Some (arg_at args p).
Proof. intros [H1 H2]. unfold arg_at. rewrite (proj2 (Z.ltb_ge _ _)) by lia. by apply lookup_lt_is_Some. Qed.

Section Spec.
Context (spec : FormatSpec) (args : list PrintArg) (Hin : in_range (len args) spec).

Lemma width_value_some : is_Some (width_value_for_spec spec args).
Proof using Hin.
  unfold width_value_for_spec. destruct (width_from_arg spec) eqn:E; [|by eexists]. destruct (arg_at_in _ _ (ir_width _ _ Hin E)) as [a ->]. by eexists.
Qed.
Lemma precision_value_some : is_Some (precision_value_for_spec spec args).
Proof using Hin.
  unfold precision_value_for_spec. destruct (precision_from_arg spec) eqn:E; [|by eexists]. destruct (arg_at_in _ _ (ir_precision _ _ Hin E)) as [a ->]. by eexists.
Qed.
Lemma star_args_some : is_Some (star_args spec args).
Proof using Hin.
  unfold star_args. destruct width_value_some as [w Hw], precision_value_some as [p Hp].
  destruct (width_from_arg spec), (precision_from_arg spec); rewrite ?Hw, ?Hp; by eexists.
Qed.
Lemma host_value_some fmt v e : is_Some (host_format_value fmt spec args v e).
Proof using Hin. unfold host_format_value. destruct star_args_some as [l ->]. by eexists. Qed.
Lemma host_none_some fmt e : is_Some (host_format_no_value fmt spec args e).
Proof using Hin. unfold host_format_no_value. destruct star_args_some as [l ->]. by eexists. Qed.
Lemma host_quad_some fmt v e : is_Some (host_format_quad fmt spec args v e).
Proof using Hin. unfold host_format_quad. destruct star_args_some as [l ->]. by eexists. Qed.

Lemma binary_some v : (has_width spec = true -> width_value_for_spec spec args <> Some (- 2 ^ 31)) -> is_Some (format_binary_spec spec args v).
Proof using Hin.
  intros Hw. unfold format_binary_spec, apply_binary_width. destruct width_value_some as [w Ew], precision_value_some as [p Ep].
  set (ds := if v =? 0 then _ else _). rewrite Ep.
  assert (Hpr : exists x, (if has_precision spec then (Some p ≫= (fun p => Some (if 0 <=? p then (if (p =? 0) && (v =? 0) then [] else replicate (Z.to_nat (p - Z.of_nat (len ds))) (ch "0") ++ ds, false)
      else (ds, has_flag spec (ch "0"))))) else Some (ds, has_flag spec (ch "0"))) = Some x) by (destruct (has_precision spec); by eexists).
  destruct Hpr as [[d z] Hpr]. cbn [mbind option_bind] in Hpr |- *. rewrite Hpr. destruct (has_width spec).
  - rewrite Ew. cbn [mbind option_bind]. destruct (w =? - 2 ^ 31) eqn:Hm; [|by eexists]. apply Z.eqb_eq in Hm as ->. by destruct (Hw eq_refl).
  - by eexists.
Qed.

(** The only ways to be undefined. *)
Lemma directive_some s e : ~ w_misused spec ->
  (is_one_of (conv spec) "bB" = true -> has_width spec = true -> width_value_for_spec spec args <> Some (- 2 ^ 31)) ->
  is_Some (format_directive s spec args e).
Proof using Hin.
  intros Hw Hb. assert (Hv : is_one_of (conv spec) "pcCsSbBaAeEfFgGdiuoxX" = true -> is_Some (arg_at args (value_position spec))).
  { intros Hc. destruct (value_kind _ _ _ (ir_length _ _ Hin) Hc Hw) as [H1 H2]. by apply arg_at_in, (ir_value _ _ Hin). }
  assert (Hsub : forall t, (forall c, In c (text t) -> In c (text "pcCsSbBaAeEfFgGdiuoxX")) -> is_one_of (conv spec) t = true ->
    is_Some (arg_at args (value_position spec))).
  { intros t Ht H%one_of_In%Ht. apply Hv, existsb_exists. exists (conv spec). by rewrite Z.eqb_refl. }
  unfold format_directive. destruct (conv spec =? ch "n"); [by eexists|]. destruct (conv spec =? ch "m"); [apply host_none_some|].
  destruct (conv spec =? ch "p") eqn:Ep.
  { destruct (Hsub "p"%string) as [a Ha]; [cbn; tauto|unfold is_one_of; cbn; by rewrite Ep|]. unfold format_pointer_spec. rewrite Ha. cbn.
    destruct (pa_u64 a =? 0); apply host_value_some. }
  destruct (is_one_of (conv spec) "sS") eqn:Es.
  { destruct (Hsub "sS"%string) as [a Ha]; [cbn; tauto|done|]. unfold format_string_spec. rewrite Ha. cbn. destruct (_ && _); apply host_value_some. }
  destruct (is_one_of (conv spec) "cC") eqn:Ec.
  { destruct (Hsub "cC"%string) as [a Ha]; [cbn; tauto|done|]. unfold format_char_spec. rewrite Ha. cbn. destruct (_ || _); apply host_value_some. }
  destruct (is_one_of (conv spec) "bB") eqn:Eb.
  { destruct (Hsub "bB"%string) as [a Ha]; [cbn; tauto|done|]. rewrite Ha. cbn. apply binary_some. auto. }
  destruct (is_float_conv (conv spec)) eqn:Ef.
  { destruct (Hsub "aAeEfFgG"%string) as [a Ha]; [cbn; tauto|done|]. unfold format_float_spec. rewrite Ha. cbn.
    destruct (pa_kind a); try apply host_value_some. apply host_quad_some. }
  destruct (is_signed_int_conv (conv spec) || is_unsigned_int_conv (conv spec)) eqn:Ei; [|apply host_none_some].
  assert (Hi : is_Some (arg_at args (value_position spec))).
  { apply orb_prop in Ei as [Ei|Ei]; [apply (Hsub "di"%string)|apply (Hsub "uoxXbB"%string)]; (cbn; tauto) || done. }
  destruct Hi as [a Ha]. unfold format_int_spec. rewrite Ha. cbn. destruct (pa_kind a); try apply host_value_some; by eexists.
Qed.
End Spec.
End Defined.

(** * Binary *)

Definition bin_value (bs : list Z) : Z := foldl (fun a c => 2 * a + (c - 48)) 0 bs.

Lemma binary_digits_spec fuel w acc : 0 <= w < 2 ^ Z.of_nat fuel ->
  exists bs, binary_digits fuel w acc = bs ++ acc /\ bin_value bs = w /\ (w = 0 -> bs = []) /\ (0 < w -> head bs = Some (ch "1")) /\
    Forall (fun c => c = ch "0" \/ c = ch "1") bs.
Proof.
  revert w acc. induction fuel as [|fuel IH]; intros w acc Hw.
  - cbn in Hw. exists []. split_and!; [done|unfold bin_value; cbn; lia|done|lia|done].
  - cbn [binary_digits]. destruct (Z.eqb_spec w 0) as [->|Hne]; [by exists []|].
    rewrite Nat2Z.inj_succ, Z.pow_succ_r in Hw by lia. rewrite Z.shiftr_div_pow2 by lia. change (2 ^ 1) with 2.
    change 1 with (Z.ones 1) at 1. rewrite Z.land_ones by lia. change (2 ^ 1) with 2.
    pose proof (Z.div_mod w 2 ltac:(lia)). pose proof (Z.mod_pos_bound w 2 ltac:(lia)).
    set (d := if w mod 2 =? 0 then ch "0" else ch "1"). destruct (IH (w / 2) (d :: acc)) as (bs & E1 & E2 & E3 & E4 & E5); [lia|].
    exists (bs ++ [d]). rewrite E1, <- app_assoc. split_and!; [done| |lia| |].
    + unfold bin_value in *. rewrite foldl_app, E2. cbn. unfold d. destruct (Z.eqb_spec (w mod 2) 0); unfold ch; cbn; lia.
    + intros _. destruct (Z.eqb_spec (w / 2) 0) as [Hz|Hz].
      * rewrite E3 by done. cbn. unfold d. destruct (Z.eqb_spec (w mod 2) 0); [lia|done].
      * specialize (E4 ltac:(lia)). destruct bs; [done|]. exact E4.
    + apply Forall_app. split; [done|]. constructor; [|done]. unfold d. destruct (_ =? 0); auto.
Qed.

(** Digits with the zeros the precision asks for. *)
Definition padded (v : Z) (digits : list Z) (zs : nat) (bin : list Z) : Prop :=
  digits = replicate zs (ch "0") ++ bin /\ bin_value bin = v /\ Forall (fun c => c = ch "0" \/ c = ch "1") bin /\ (head bin = Some (ch "1") \/ v = 0).

Lemma precision_stage v ds p (zero0 : bool) : padded v ds 0 ds ->
  let '(digits, zero) := if 0 <=? p
    then (if (p =? 0) && (v =? 0) then [] else replicate (Z.to_nat (p - Z.of_nat (len ds))) (ch "0") ++ ds, false) else (ds, zero0) in
  exists zs bin, padded v digits zs bin /\ p <= Z.of_nat (zs + len bin).
Proof.
  intros Hd. destruct (Z.leb_spec 0 p) as [Hp|Hp]; [|exists O, ds; split; [done|lia]].
  destruct ((p =? 0) && (v =? 0)) eqn:E.
  - apply andb_prop in E as [->%Z.eqb_eq ->%Z.eqb_eq]. exists O, []. split; [|done]. split_and!; [done|done|done|by right].
  - exists (Z.to_nat (p - Z.of_nat (len ds))), ds. destruct Hd as (_ & Hd). split; [done|lia].
Qed.

(** Padding to the width. *)
Lemma width_stage v digits zs bin pre w (left zero : bool) : padded v digits zs bin ->
  let total := Z.of_nat (len pre + len digits) in
  let digits1 := if negb left && zero && (total <? w) then replicate (Z.to_nat (w - total)) (ch "0") ++ digits else digits in
  let total1 := Z.of_nat (len pre + len digits1) in
  let padding := replicate (Z.to_nat (w - total1)) (ch " ") in
  let out := if total1 <? w then if left then (pre ++ digits1) ++ padding else padding ++ pre ++ digits1 else pre ++ digits1 in
  exists l zs' right, (zs <= zs')%nat /\ out = replicate l (ch " ") ++ pre ++ replicate zs' (ch "0") ++ bin ++ replicate right (ch " ") /\
    (l = O \/ right = O) /\ Z.of_nat (len out) = Z.max w (Z.of_nat (len pre + zs' + len bin)).
Proof.
  intros (-> & _) total digits1 total1 padding out.
  assert (Hd : exists zs', (zs <= zs')%nat /\ digits1 = replicate zs' (ch "0") ++ bin).
  { unfold digits1. destruct (_ && _); [|by exists zs]. exists (Z.to_nat (w - total) + zs)%nat. split; [lia|]. by rewrite replicate_add, <- app_assoc. }
  destruct Hd as (zs' & Hz & Hd). assert (Ht : total1 = Z.of_nat (len pre + zs' + len bin))
    by (unfold total1; rewrite Hd, length_app, length_replicate; lia).
  unfold out. destruct (Z.ltb_spec total1 w) as [Hw|Hw]; [destruct left|].
  - exists O, zs', (Z.to_nat (w - total1)). split_and!; [done| |by left|].
    + rewrite Hd. cbn. by rewrite <- !app_assoc.
    + rewrite !length_app. unfold padding. rewrite length_replicate. fold total1. lia.
  - exists (Z.to_nat (w - total1)), zs', O. split_and!; [done| |by right|].
    + rewrite Hd. cbn. by rewrite app_nil_r.
    + rewrite !length_app. unfold padding. rewrite length_replicate. lia.
  - exists O, zs', O. split_and!; [done| |by left|].
    + rewrite Hd. cbn. by rewrite app_nil_r.
    + rewrite length_app. lia.
Qed.

Section Theorems.
Context {S : Type} `{M : !Machine S, HV : !HostView S, F : !FpRegs S, P : !HostPrintf}.
Implicit Types s : S.

(** C23: What a format string means. A format written from literal text (with every
    percent sign doubled) and directives (position, flags, width, precision, length
    modifier and conversion, each optional part present or not) is parsed into
    exactly these pieces. In each directive the width, the precision and the value
    that take an argument have the position written for them, and where none is
    written one more than the number of such places before it in the whole format,
    the width counted before the precision and this before the value. The vector of
    kinds reaches to the largest position that is read; each entry is the kind of the
    first place that reads it, by the table of length modifiers and conversions, and
    empty where none does. The parser throws exactly when an argument is at position
    INT_MAX. *)
Theorem printf_parses ds fin : Forall (fun d => raw_ok d.2) ds -> parse_format_string (print_format ds fin) = meaning ds fin.
Proof.
  intros Hd. unfold parse_format_string, meaning.
  exact (parse_loop_ok ds fin _ [] [] [] Hd (Nat.lt_succ_diag_r _) (Forall_nil_2 _)).
Qed.

(** C24: Formatting reads only the arguments it has. Whatever the format string, when
    it is parsed no directive reads its value, width or precision outside the
    vector of arguments, unless it puts the length modifier w on a conversion that
    is not an integer's; the only other undefined case is a binary conversion whose
    width argument is the smallest int. *)
Theorem printf_bounds fmt items kinds s args e : parse_format_string fmt = POk (items, kinds) -> len args = len kinds ->
  format_items s items args e [] = None ->
  exists spec, Directive spec ∈ items /\
    (w_misused spec \/ (is_one_of (conv spec) "bB" = true /\ width_value_for_spec spec args = Some (- 2 ^ 31))).
Proof.
  intros Hp Hl. assert (Hr : forall spec, Directive spec ∈ items -> in_range (len args) spec).
  { rewrite Hl. eapply parse_loop_range; [| |exact Hp]; [lia|]. intros spec Hs. by apply elem_of_nil in Hs. }
  clear Hp Hl. revert Hr. generalize ([] : list Z). induction items as [|[bs|spec] items IH]; intros out Hr; cbn; [done| |].
  - intros (spec & Hin & Hs)%IH; [exists spec; split; [by apply list_elem_of_further|done]|]. intros sp Hsp. apply Hr. by apply list_elem_of_further.
  - destruct (format_directive s spec args e) as [piece|] eqn:E; cbn.
    + destruct (fr_ok piece); [|done]. intros (sp & Hin & Hs)%IH; [exists sp; split; [by apply list_elem_of_further|done]|].
      intros sp Hsp. apply Hr. by apply list_elem_of_further.
    + intros _. exists spec. split; [apply list_elem_of_here|].
      destruct (decide (is_w (length_mod spec) = true /\ is_one_of (conv spec) "cCsSpaAeEfFgG" = true)) as [Hw|Hw]; [by left|right].
      destruct (decide (is_one_of (conv spec) "bB" = true /\ width_value_for_spec spec args = Some (- 2 ^ 31))) as [Hb|Hb]; [done|exfalso].
      destruct (directive_some spec args (Hr spec (list_elem_of_here _ _)) s e Hw) as [x Hx]; [|congruence]. intros Hbb _ He. by apply Hb.
Qed.

(** Binary conversions print the number. The output of %b and %B is spaces, the
    prefix 0b or 0B exactly for the flag # and a value other than 0, zeros, and
    digits whose value in base 2 is the argument; it has the width asked for unless
    its content is longer, with the spaces on one side only, and at least as many
    digits as the precision asks for. *)
Theorem printf_binary spec args v r : 0 <= v < two64 -> format_binary_spec spec args v = Some r ->
  exists l zs bin right, let pre := if has_flag spec (ch "#") && negb (v =? 0) then text (if conv spec =? ch "B" then "0B" else "0b") else [] in
    fr_ok r = true /\
    fr_output r = replicate l (ch " ") ++ pre ++ replicate zs (ch "0") ++ bin ++ replicate right (ch " ") /\
    bin_value bin = v /\ Forall (fun c => c = ch "0" \/ c = ch "1") bin /\ (head bin = Some (ch "1") \/ v = 0) /\
    (l = O \/ right = O) /\
    (forall w, has_width spec = true -> width_value_for_spec spec args = Some w ->
       Z.of_nat (len (fr_output r)) = Z.max (Z.abs w) (Z.of_nat (len pre + zs + len bin))) /\
    (forall p, has_precision spec = true -> precision_value_for_spec spec args = Some p -> p <= Z.of_nat (zs + len bin)).
Proof.
  intros Hv Hf. unfold format_binary_spec in Hf. set (ds := if v =? 0 then [ch "0"] else binary_digits 64 v []) in Hf.
  assert (Hds : bin_value ds = v /\ Forall (fun c => c = ch "0" \/ c = ch "1") ds /\ (head ds = Some (ch "1") \/ v = 0) /\ ds <> []).
  { unfold ds. destruct (Z.eqb_spec v 0) as [->|Hne]; [split_and!; [done|constructor; auto|by right|done]|].
    destruct (binary_digits_spec 64 v [] Hv) as (bs & -> & E1 & _ & E2 & E3). rewrite app_nil_r. specialize (E2 ltac:(lia)).
    split_and!; [done|done|by left|]. by intros ->. }
  clearbody ds. destruct Hds as (V & D & H1 & Hne). unfold apply_binary_width in Hf. cbn [mbind option_bind] in Hf.
  assert (Hpad : padded v ds 0 ds) by done.
  assert (Hst : exists digits zero zs bin, (if has_precision spec
     then p ← precision_value_for_spec spec args;
          Some (if 0 <=? p
                then (if (p =? 0) && (v =? 0) then [] else replicate (Z.to_nat (p - Z.of_nat (len ds))) (ch "0") ++ ds, false)
                else (ds, has_flag spec (ch "0")))
     else Some (ds, has_flag spec (ch "0"))) = Some (digits, zero) /\ padded v digits zs bin /\
     forall p, has_precision spec = true -> precision_value_for_spec spec args = Some p -> p <= Z.of_nat (zs + len bin)).
  { destruct (has_precision spec); [|by exists ds, (has_flag spec (ch "0")), O, ds].
    destruct (precision_value_for_spec spec args) as [p|]; [|done]. pose proof (precision_stage v ds p (has_flag spec (ch "0")) Hpad) as Hs.
    cbn [mbind option_bind]. destruct (if 0 <=? p then _ else _) as [digits zero]. destruct Hs as (zs & bin & Hs & Hp).
    exists digits, zero, zs, bin. split_and!; [done|done|]. by intros p' _ [= <-]. }
  destruct Hst as (digits & zero & zs & bin & Est & Hbin & Hprec). cbn [mbind option_bind] in Est. rewrite Est in Hf. cbn [mbind option_bind] in Hf.
  set (pre := if has_flag spec (ch "#") && negb (v =? 0) then text (if conv spec =? ch "B" then "0B" else "0b") else []) in *.
  destruct (if has_width spec then width_value_for_spec spec args else Some 0) as [w0|] eqn:Ew; [|done].
  cbn [mbind option_bind] in Hf. destruct (w0 =? - 2 ^ 31); [done|].
  pose proof (width_stage v digits zs bin pre (Z.abs w0) (has_flag spec (ch "-") || (w0 <? 0)) zero Hbin) as Hws. cbv zeta in Hws.
  destruct Hws as (l & zs' & right & Hz & Hout & Hlr & Hlen). injection Hf as <-.
  exists l, zs', bin, right. destruct Hbin as (_ & B1 & B2 & B3). split_and!; [done|exact Hout|done..| |].
  - intros w Hhw Hw. rewrite Hhw, Hw in Ew. injection Ew as ->. exact Hlen.
  - intros p Hp Hpv. specialize (Hprec p Hp Hpv). lia.
Qed.

(** * Sources of arguments *)

(** A va_list whose save areas hold the registers a register source has not used,
    and which is at the same place on the stack. *)
Record same_source s (r : RegisterArgSource) (v : arm64_va_list) : Prop := {
  sm_gp : 0 <= next_gp_reg r <= 8;
  sm_gr : va_gr_offs v = 8 * next_gp_reg r - 64;
  sm_fp : 0 <= next_fp_reg r <= 8;
  sm_vr : va_vr_offs v = 16 * next_fp_reg r - 128;
  sm_stack : va_stack v = stack_addr r;
  sm_gr_area i : next_gp_reg r <= i <= 7 -> rd (va_gr_top v ⊕ (8 * i - 64)) 8 s = getr i s;
  sm_vr_area i : next_fp_reg r <= i <= 7 ->
    rd (va_vr_top v ⊕ (16 * i - 128)) 8 s = get_dreg i s /\ rd (va_vr_top v ⊕ (16 * i - 128)) 16 s = get_qreg i s;
}.

Definition same_next s (f : S -> RegisterArgSource -> Z * RegisterArgSource) (g : S -> arm64_va_list -> Z * arm64_va_list) : Prop :=
  forall r v, same_source s r v -> (g s v).1 = (f s r).1 /\ same_source s (f s r).2 (g s v).2.

Lemma same_gp s : same_next s next_gp_raw next_gp_raw.
Proof.
  intros r v [H1 H2 H3 H4 H5 H6 H7]. cbn. unfold reg_next_gp_raw, va_next_gp_raw, reg_next_fp64, va_next_fp64, reg_next_fp128, va_next_fp128. rewrite H2, H5. destruct (Z.leb_spec (next_gp_reg r) 7).
  - rewrite (proj2 (Z.ltb_lt _ _)) by lia. cbn. rewrite H6 by lia. split; [done|]. constructor; cbn; try done; try lia. intros i Hi. apply H6. lia.
  - rewrite (proj2 (Z.ltb_ge _ _)) by lia. cbn. split; [done|]. by constructor.
Qed.
Lemma same_fp64 s : same_next s next_fp64 next_fp64.
Proof.
  intros r v [H1 H2 H3 H4 H5 H6 H7]. cbn. unfold reg_next_gp_raw, va_next_gp_raw, reg_next_fp64, va_next_fp64, reg_next_fp128, va_next_fp128. rewrite H4, H5. destruct (Z.leb_spec (next_fp_reg r) 7).
  - rewrite (proj2 (Z.ltb_lt _ _)) by lia. cbn. destruct (H7 (next_fp_reg r)) as [-> _]; [lia|]. split; [done|].
    constructor; cbn; try done; try lia. intros i Hi. apply H7. lia.
  - rewrite (proj2 (Z.ltb_ge _ _)) by lia. cbn. split; [done|]. by constructor.
Qed.
Lemma same_fp128 s : same_next s next_fp128 next_fp128.
Proof.
  intros r v [H1 H2 H3 H4 H5 H6 H7]. cbn. unfold reg_next_gp_raw, va_next_gp_raw, reg_next_fp64, va_next_fp64, reg_next_fp128, va_next_fp128. rewrite H4, H5. destruct (Z.leb_spec (next_fp_reg r) 7).
  - rewrite (proj2 (Z.ltb_lt _ _)) by lia. cbn. destruct (H7 (next_fp_reg r)) as [_ ->]; [lia|]. split; [done|].
    constructor; cbn; try done; try lia. intros i Hi. apply H7. lia.
  - rewrite (proj2 (Z.ltb_ge _ _)) by lia. cbn. split; [done|]. by constructor.
Qed.

Lemma same_arg s k r v : same_source s r v -> (read_arg k s v).1 = (read_arg k s r).1 /\ same_source s (read_arg k s r).2 (read_arg k s v).2.
Proof.
  intros H. pose proof (same_gp s r v H) as G. pose proof (same_fp64 s r v H) as D. pose proof (same_fp128 s r v H) as Q.
  destruct k; cbn [read_arg]; try done;
    destruct (next_gp_raw s r), (next_gp_raw s v), (next_fp64 s r), (next_fp64 s v), (next_fp128 s r), (next_fp128 s v); cbn in *;
    destruct G as [-> ?], D as [-> ?], Q as [-> ?]; done.
Qed.
Lemma same_args s ks r v : same_source s r v -> read_args ks s v = read_args ks s r.
Proof.
  revert r v. induction ks as [|k ks IH]; intros r v H; [done|]. cbn [read_args]. destruct (same_arg s k r v H) as [E1 E2].
  destruct (read_arg k s r) as [a r'], (read_arg k s v) as [b v']. cbn in *. by rewrite E1, (IH r' v').
Qed.

(** Formatting from a va_list is formatting from registers. When the va_list was
    made by the prologue of a variadic function, with the registers from the first
    variadic one on in its save areas and its stack pointer at the caller's stack
    arguments, both entry points give the same result, for every format. *)
Theorem printf_va_list s fmt_addr first va wide : same_source s (register_source first s) (va_list_source va s) ->
  hle_format_from_va_list s fmt_addr va wide = hle_format_from_regs s fmt_addr first wide.
Proof.
  intros H. unfold hle_format_from_va_list, hle_format_from_regs, format_with_source.
  destruct (parse_format_string _) as [[items [|k ks]]| |]; [done| |done..]. cbn [materialize_args]. by rewrite (same_args s ks _ _ H).
Qed.
End Theorems.

(** * Witnesses *)

Definition demo_raw : raw :=
  {| r_pos := []; r_flags := text "-"; r_width := Num (text "8"); r_prec := Star []; r_len := LenLL; r_bits := 0; r_conv := ch "x" |}.

(** A width given with a position, of a kind the second directive also reads. *)
Definition demo_raw2 : raw :=
  {| r_pos := text "2"; r_flags := []; r_width := Star (text "5"); r_prec := NoNum; r_len := LenNone; r_bits := 0; r_conv := ch "d" |}.

Lemma demo_raws_ok : raw_ok demo_raw /\ raw_ok demo_raw2.
Proof.
  split; constructor; try (split; [by repeat constructor|done]); try done; try by repeat constructor.
  split; [split; [by repeat constructor|done]|by eexists _, _].
Qed.

(** The precision of the first directive is argument 1, its value argument 2, which
    the second directive names too; argument 5 is its width, 3 and 4 are not read. *)
Lemma printf_parses_witness : print_format [(text "a%", demo_raw); ([], demo_raw2)] (text "!") = text "a%%%-8.*llx%2$*5$d!" /\
  parse_format_string (text "a%%%-8.*llx%2$*5$d!") = meaning [(text "a%", demo_raw); ([], demo_raw2)] (text "!") /\
  meaning [(text "a%", demo_raw); ([], demo_raw2)] (text "!") =
    POk ([Literal (text "a%");
          Directive (Build_FormatSpec (text "%-8.*llx") (text "-") true false 8 0 true true 0 1 2 LenLL 0 (ch "x"));
          Directive (Build_FormatSpec (text "%2$*5$d") [] true true 0 5 false false 0 0 2 LenNone 0 (ch "d"));
          Literal (text "!")],
         [ArgNone; ArgInt; ArgULongLong; ArgNone; ArgNone; ArgInt]).
Proof.
  split; [reflexivity|]. split; [|reflexivity]. apply (printf_parses [(text "a%", demo_raw); ([], demo_raw2)] (text "!")).
  destruct demo_raws_ok as [H1 H2]. constructor; [exact H1|]. constructor; [exact H2|]. constructor.
Defined.

#[export] Instance demo_printf : HostPrintf := {| host_snprintf fmt args e := inl fmt; host_quadmath fmt args e := inr 0 |}.

Lemma printf_bounds_witness : exists spec, parse_format_string (text "%w32s") = POk ([Directive spec], [ArgNone]) /\ w_misused spec.
Proof.
  eexists. split; [reflexivity|]. edestruct (printf_bounds (S := mstate (E := RefEnv)) (text "%w32s") _ _ (text_regs 0 0 0) [no_arg ArgNone] 0 eq_refl eq_refl eq_refl)
    as (spec & H%list_elem_of_singleton & Hs). injection H as ->. destruct Hs as [Hs|[Hs _]]; [exact Hs|done].
Defined.

Definition binary_spec : FormatSpec := Build_FormatSpec (text "%#8b") (text "#") true false 8 0 false false 0 0 1 LenNone 0 (ch "b").
Lemma printf_binary_witness : format_binary_spec binary_spec [] 5 = Some (formatted (text "   0b101")) /\
  exists bin, bin_value bin = 5 /\ head bin = Some (ch "1").
Proof.
  split; [reflexivity|]. destruct (printf_binary binary_spec [] 5 (formatted (text "   0b101")) ltac:(done) ltac:(reflexivity))
    as (l & zs & bin & right & _ & _ & H1 & _ & [H2|?] & _); [by exists bin|done].
Defined.

(** A call with one fixed argument: the va_list at 0x1800, its save areas below
    0x1A00 and 0x1B00, all variadic registers 0. *)
Definition demo_va : mstate (E := RefEnv) :=
  (gwrite 0x1800 (le_bytes 8 0 ++ le_bytes 8 0x1A00 ++ le_bytes 8 0x1B00 ++ le_bytes 4 (-56) ++ le_bytes 4 (-128)) (text_regs 0x1100 0 0)).2.

Lemma printf_va_list_witness : hle_format_from_va_list demo_va 0x1100 0x1800 false = hle_format_from_regs demo_va 0x1100 1 false.
Proof.
  apply printf_va_list. constructor; [by vm_compute..| |].
  - intros i Hi. change (1 <= i <= 7) in Hi. assert (i = 1 \/ i = 2 \/ i = 3 \/ i = 4 \/ i = 5 \/ i = 6 \/ i = 7) as Hc by lia.
    repeat destruct Hc as [-> |Hc]; try subst i; by vm_compute.
  - intros i Hi. change (0 <= i <= 7) in Hi. assert (i = 0 \/ i = 1 \/ i = 2 \/ i = 3 \/ i = 4 \/ i = 5 \/ i = 6 \/ i = 7) as Hc by lia.
    repeat destruct Hc as [-> |Hc]; try subst i; by vm_compute.
Defined.
