(* ===== verification/HleSearch.v ===== *)
(** The emulated <search.h> (src/src/hle/hle_search.cpp): linear search, binary
    trees and queues in guest memory, and hash tables.

    Handlers are programs of the handler monad over any machine.  Guest functions
    (comparisons, actions) are called through [GuestFun], nodes come from the heap
    ([HeapOps]); [Torn] is what a variable holds after a read into it failed.  A loop
    over guest pointers takes [fuel] and answers [None] when it runs out.  A read
    into an uninitialised variable that fails leaves it indeterminate, shown as
    [Segv].  The table behind hsearch is passed explicitly. *)

From S2P Require Import Prelude Env HeapAllocator MemoryManager MemorySpec Machine HostAccess HleMonad HleErrno SyscallHandler HlePrintf.

(** [Emulator::call_function_safe], [HeapAllocator::allocate] on the guest heap. *)
Class GuestFun (S : Type) := call_function_safe : Z -> list Z -> hle S Z.
Class HeapOps (S : Type) := heap_allocate : Z -> Z -> S -> Z * S.
Class Torn (S : Type) := torn : Z -> Z -> S -> Z.

Section Search.
Context {S : Type} `{M : !Machine S, HV : !HostView S, G : !GuestFun S, HO : !HeapOps S, T : !Torn S}.
Implicit Types s : S.
Notation prog := (hle S).

(** [mem_read(a, &x, 8)] into an uninitialised [x], and into one that holds [old]. *)
Definition rd64 (a : Z) : prog Z := fun s => match gread a 8 s with Some bs => Ret (le_value bs) s | None => Segv end.
Definition rd64_over (old a : Z) : prog Z := fun s => match gread a 8 s with Some bs => Ret (le_value bs) s | None => Ret (torn old a s) s end.
Definition wr64 (a v : Z) : prog unit := mem_wr a (le_bytes 8 v).
Definition allocate (n al : Z) : prog Z := fun s => let '(p, s) := heap_allocate n al s in Ret p s.

(** * Linear search *)

(** The loop of lfind and lsearch, with [n] elements from number [i] on. *)
Fixpoint lfind_loop (n : nat) (key base size compar i : Z) : prog (option Z) :=
  match n with
  | O => mret None
  | Datatypes.S n =>
      let elem := base ⊕ u64 (i * size) in
      result ← call_function_safe compar [key; elem];
      if s32 result =? 0 then mret (Some elem) else lfind_loop n key base size compar (i + 1)
  end.

Definition lfind : prog unit :=
  key ← get_x X0; base ← get_x X1; nmemb_ptr ← get_x X2; size ← get_x X3; compar ← get_x X4;
  nmemb ← rd64 nmemb_ptr;
  found ← lfind_loop (Z.to_nat nmemb) key base size compar 0;
  match found with Some elem => set_x X0 elem | None => set_x X0 0 end.

Definition lsearch : prog unit :=
  key ← get_x X0; base ← get_x X1; nmemb_ptr ← get_x X2; size ← get_x X3; compar ← get_x X4;
  nmemb ← rd64 nmemb_ptr;
  found ← lfind_loop (Z.to_nat nmemb) key base size compar 0;
  match found with
  | Some elem => set_x X0 elem
  | None =>
      let new_elem := base ⊕ u64 (nmemb * size) in
      new_buffer size;;
      buf ← mem_rd_into key size;
      mem_wr new_elem buf;;
      wr64 nmemb_ptr (nmemb ⊕ 1);;
      set_x X0 new_elem
  end.

(** * Binary trees: key at offset 0, left at 8, right at 16 *)

Definition call_compar (compar_addr key1 key2 : Z) : prog Z :=
  result ← call_function_safe compar_addr [key1; key2]; mret (s32 result).

(** A finished loop, or one that ran out of fuel. *)
Definition done_with (v : Z) : prog (option unit) := set_x X0 v;; mret (Some tt).

Fixpoint tfind_loop (fuel : nat) (key compar root : Z) : prog (option unit) :=
  match fuel with
  | O => mret None
  | Datatypes.S fuel =>
      if root =? 0 then done_with 0
      else
        node_key ← rd64 root;
        cmp ← call_compar compar key node_key;
        if cmp =? 0 then done_with root
        else if cmp <? 0 then root ← rd64_over root (root ⊕ 8); tfind_loop fuel key compar root
        else root ← rd64_over root (root ⊕ 16); tfind_loop fuel key compar root
  end.

Definition tfind (fuel : nat) : prog (option unit) :=
  key ← get_x X0; rootp ← get_x X1; compar ← get_x X2;
  if rootp =? 0 then done_with 0
  else root ← rd64 rootp; tfind_loop fuel key compar root.

(** A new node linked in at [link]. *)
Definition new_tree_node (key link : Z) : prog (option unit) :=
  new_node ← allocate 24 8;
  wr64 new_node key;;
  wr64 (new_node ⊕ 8) 0;;
  wr64 (new_node ⊕ 16) 0;;
  wr64 link new_node;;
  done_with new_node.

Fixpoint tsearch_loop (fuel : nat) (key compar node : Z) : prog (option unit) :=
  match fuel with
  | O => mret None
  | Datatypes.S fuel =>
      if node =? 0 then done_with 0
      else
        node_key ← rd64 node;
        cmp ← call_compar compar key node_key;
        if cmp =? 0 then done_with node
        else if cmp <? 0 then
          left ← rd64 (node ⊕ 8);
          if left =? 0 then new_tree_node key (node ⊕ 8) else tsearch_loop fuel key compar left
        else
          right ← rd64 (node ⊕ 16);
          if right =? 0 then new_tree_node key (node ⊕ 16) else tsearch_loop fuel key compar right
  end.

Definition tsearch (fuel : nat) : prog (option unit) :=
  key ← get_x X0; rootp ← get_x X1; compar ← get_x X2;
  if rootp =? 0 then done_with 0
  else
    root ← rd64 rootp;
    if root =? 0 then new_tree_node key rootp else tsearch_loop fuel key compar root.

(** "while (succ_left != 0)": the leftmost node and the link to it. *)
Fixpoint successor (fuel : nat) (succ_parent_addr succ succ_left : Z) : prog (option (Z * Z)) :=
  match fuel with
  | O => mret None
  | Datatypes.S fuel =>
      if succ_left =? 0 then mret (Some (succ_parent_addr, succ))
      else next ← rd64_over succ_left (succ_left ⊕ 8); successor fuel (succ ⊕ 8) succ_left next
  end.

(** The node was found: [parent_addr] is the link to it. *)
Definition unlink_node (fuel : nat) (parent_addr node : Z) : prog (option unit) :=
  left ← rd64 (node ⊕ 8);
  right ← rd64 (node ⊕ 16);
  if left =? 0 then wr64 parent_addr right;; done_with parent_addr
  else if right =? 0 then wr64 parent_addr left;; done_with parent_addr
  else
    succ_left ← rd64 (right ⊕ 8);
    found ← successor fuel (node ⊕ 16) right succ_left;
    match found with
    | None => mret None
    | Some (succ_parent_addr, succ) =>
        succ_key ← rd64 succ;
        wr64 node succ_key;;
        succ_right ← rd64 (succ ⊕ 16);
        wr64 succ_parent_addr succ_right;;
        done_with node
    end.

Fixpoint tdelete_loop (fuel : nat) (key compar parent_addr node : Z) : prog (option unit) :=
  match fuel with
  | O => mret None
  | Datatypes.S fuel' =>
      if node =? 0 then done_with 0
      else
        node_key ← rd64 node;
        cmp ← call_compar compar key node_key;
        if cmp =? 0 then unlink_node fuel' parent_addr node
        else if cmp <? 0 then next ← rd64_over node (node ⊕ 8); tdelete_loop fuel' key compar (node ⊕ 8) next
        else next ← rd64_over node (node ⊕ 16); tdelete_loop fuel' key compar (node ⊕ 16) next
  end.

Definition tdelete (fuel : nat) : prog (option unit) :=
  key ← get_x X0; rootp ← get_x X1; compar ← get_x X2;
  if rootp =? 0 then done_with 0
  else
    root ← rd64 rootp;
    if root =? 0 then done_with 0 else tdelete_loop fuel key compar rootp root.

(** twalk's stack has its back first. *)
Definition PREORDER : Z := 0.
Definition POSTORDER : Z := 1.
Definition ENDORDER : Z := 2.
Definition LEAF : Z := 3.

Fixpoint twalk_loop (fuel : nat) (action : Z) (stack : list (Z * Z)) (level : Z) : prog (option unit) :=
  match fuel with
  | O => mret None
  | Datatypes.S fuel =>
      match stack with
      | [] => mret (Some tt)
      | (node, state) :: rest =>
          left ← rd64 (node ⊕ 8);
          right ← rd64 (node ⊕ 16);
          let is_leaf := (left =? 0) && (right =? 0) in
          if state =? 0 then
            if is_leaf then
              call_function_safe action [node; LEAF; u64 level];;
              twalk_loop fuel action rest level
            else
              call_function_safe action [node; PREORDER; u64 level];;
              if negb (left =? 0) then twalk_loop fuel action ((left, 0) :: (node, 1) :: rest) (level + 1)
              else twalk_loop fuel action ((node, 1) :: rest) level
          else if state =? 1 then
            call_function_safe action [node; POSTORDER; u64 level];;
            if negb (right =? 0) then twalk_loop fuel action ((right, 0) :: (node, 2) :: rest) (level + 1)
            else twalk_loop fuel action ((node, 2) :: rest) level
          else
            call_function_safe action [node; ENDORDER; u64 level];;
            twalk_loop fuel action rest (level - 1)
      end
  end.

Definition twalk (fuel : nat) : prog (option unit) :=
  root ← get_x X0; action ← get_x X1;
  if (root =? 0) || (action =? 0) then mret (Some tt)
  else twalk_loop fuel action [(root, 0)] 0.

(** The first loop of tdestroy; [delete_order] is built back first, so that it comes
    out in the order of the second loop. *)
Fixpoint destroy_order (fuel : nat) (stack delete_order : list Z) : prog (option (list Z)) :=
  match fuel with
  | O => mret None
  | Datatypes.S fuel =>
      match stack with
      | [] => mret (Some delete_order)
      | node :: rest =>
          left ← rd64 (node ⊕ 8);
          right ← rd64 (node ⊕ 16);
          let rest := if negb (left =? 0) then left :: rest else rest in
          let rest := if negb (right =? 0) then right :: rest else rest in
          destroy_order fuel rest (node :: delete_order)
      end
  end.

Fixpoint free_keys (nodes : list Z) (free_node : Z) : prog unit :=
  match nodes with
  | [] => mret tt
  | node :: rest =>
      node_key ← rd64 node;
      (if negb (free_node =? 0) then call_function_safe free_node [node_key];; mret tt else mret tt);;
      free_keys rest free_node
  end.

Definition tdestroy (fuel : nat) : prog (option unit) :=
  root ← get_x X0; free_node ← get_x X1;
  if root =? 0 then mret (Some tt)
  else
    order ← destroy_order fuel [root] [];
    match order with
    | None => mret None
    | Some nodes => free_keys nodes free_node;; mret (Some tt)
    end.

(** * Queues: forward link at offset 0, backward link at 8 *)

Definition insque : prog unit :=
  elem ← get_x X0; prev ← get_x X1;
  if elem =? 0 then mret tt
  else if prev =? 0 then wr64 elem 0;; wr64 (elem ⊕ 8) 0
  else
    next ← rd64 prev;
    wr64 elem next;;
    wr64 (elem ⊕ 8) prev;;
    wr64 prev elem;;
    if negb (next =? 0) then wr64 (next ⊕ 8) elem else mret tt.

Definition remque : prog unit :=
  elem ← get_x X0;
  if elem =? 0 then mret tt
  else
    next ← rd64 elem;
    prev ← rd64 (elem ⊕ 8);
    (if negb (prev =? 0) then wr64 prev next else mret tt);;
    (if negb (next =? 0) then wr64 (next ⊕ 8) prev else mret tt).

(** * Hash tables *)

Record GuestHsearchEntry := { entry_addr : Z; key_addr : Z }.
Record GuestHsearchTable := { ht_active : bool; ht_entries : gmap (list Z) GuestHsearchEntry }.
Definition no_table : GuestHsearchTable := {| ht_active := false; ht_entries := ∅ |}.
Definition no_entry : GuestHsearchEntry := {| entry_addr := 0; key_addr := 0 |}.
Definition ENTER : Z := 1.
Definition FIND : Z := 0.

(** [read_string] with its default bound. *)
Definition search_read_string (addr : Z) : prog (list Z) := fun s => Ret (read_chars (Z.to_nat 4096) addr s) s.

Definition create_guest_hsearch_entry (key : list Z) (data_addr : Z) : prog GuestHsearchEntry :=
  k ← allocate (Z.of_nat (length key) + 1) 1;
  e ← allocate 16 8;
  if (k =? 0) || (e =? 0) then mret no_entry
  else
    mem_wr k (key ++ [0]);;
    wr64 e k;;
    wr64 (e ⊕ 8) data_addr;;
    mret {| entry_addr := e; key_addr := k |}.

Definition hcreate (t : GuestHsearchTable) : prog GuestHsearchTable :=
  nel ← get_x X0;
  let t := {| ht_active := negb (nel =? 0); ht_entries := ∅ |} in
  set_x X0 (if ht_active t then 1 else 0);; mret t.

Definition hsearch (t : GuestHsearchTable) : prog GuestHsearchTable :=
  guest_key_ptr ← get_x X0; guest_data_ptr ← get_x X1; x2 ← get_x X2;
  let action := s32 x2 in
  if negb (ht_active t) then set_x X0 0;; mret t
  else
    key ← search_read_string guest_key_ptr;
    match ht_entries t !! key with
    | Some entry => set_x X0 (entry_addr entry);; mret t
    | None =>
        if negb (action =? ENTER) then set_x X0 0;; mret t
        else
          entry ← create_guest_hsearch_entry key guest_data_ptr;
          if entry_addr entry =? 0 then hle_set_errno ENOMEM;; set_x X0 0;; mret t
          else set_x X0 (entry_addr entry);; mret {| ht_active := ht_active t; ht_entries := <[key := entry]> (ht_entries t) |}
    end.

Definition hdestroy (t : GuestHsearchTable) : prog GuestHsearchTable := mret {| ht_active := false; ht_entries := ∅ |}.

End Search.

(** The heap of the memory manager. *)
#[export] Instance mstate_heap {E : Env} : HeapOps mstate := fun n al s =>
  let '(p, h) := HeapAllocator.allocate n al (heap_ (mm s)) in (p, s <| mm ::= fun m => m <| heap_ := h |> |>).
