(* ===== verification/HleSearchSpec.v ===== *)
(** The trees of hle_search.cpp: in guest memory they are binary search trees, and
    tfind, tsearch, tdelete and twalk do to them what the reference operations of
    SearchTree do. *)

From S2P Require Import Prelude Env HeapAllocator HeapSpec MemoryManager MemorySpec Machine HostAccess HleMonad HleErrno MappedSpec SyscallHandler HleSearch SearchTree.
From stdpp Require Import sorting.
#[local] Open Scope Z_scope.

(** * The heap, as the handlers need it *)

(** [owned a n s]: the range is in use, so no allocation will return any of it;
    [exhausted n al s]: there is no room for [n] bytes at a multiple of [al]. *)
Class HeapUse (S : Type) := { heap_ok : S -> Prop; owned : Z -> Z -> S -> Prop; exhausted : Z -> Z -> S -> Prop }.

Section Steps.
Context {S : Type} `{M : !Machine S, L : !MemLaws S, R : !RegFileLaws S, V : !HostView S, HL : !HostLaws S, U : !HeapUse S}.
Implicit Types s : S.

(** Bytes change to [f], blocks in use stay so. *)
Record stepped s (f : Z -> option Z) s' : Prop := {
  st_became : became s f s';
  st_heap : heap_ok s';
  st_owned a n : owned a n s -> owned a n s';
}.

(** The same at the end of a handler that returns [v]. *)
Record finished s (f : Z -> option Z) (v : Z) s' : Prop := {
  fi_returned : returned s f v s';
  fi_heap : heap_ok s';
  fi_owned a n : owned a n s -> owned a n s';
}.

Lemma stepped_refl s : sane s -> heap_ok s -> stepped s (byte_at s) s.
Proof. intros H1 H2. constructor; [by apply became_refl|done|done]. Qed.

Lemma stepped_trans s f s1 g s2 : stepped s f s1 -> stepped s1 g s2 -> stepped s g s2.
Proof. intros [H1 H2 H3] [K1 K2 K3]. constructor; [by eapply became_trans|done|]. intros a n Ha. by apply K3, H3. Qed.

Lemma stepped_ext s f g s' : (forall x, f x = g x) -> stepped s f s' -> stepped s g s'.
Proof. intros He [H1 H2 H3]. constructor; [by eapply became_ext|done..]. Qed.

Lemma finished_trans s f s1 g v s2 : stepped s f s1 -> finished s1 g v s2 -> finished s g v s2.
Proof.
  intros [[H1 H2 H3 H4 H5] K1 O1] [[G1 G2 G3 G4 G5 G6] K2 O2]. constructor; [constructor|done|]; try done; intros.
  - by rewrite G2, H2.
  - by rewrite G3, H3.
  - by rewrite G5, H5.
  - by apply O2, O1.
Qed.

Lemma finished_ext s f g v s' : (forall x, f x = g x) -> finished s f v s' -> finished s g v s'.
Proof. intros He [[G1 G2 G3 G4 G5 G6] K2 O2]. constructor; [constructor|done..]; try done. intros x. by rewrite G4. Qed.

End Steps.

Class HeapLaws (S : Type) `{!Machine S, !MemLaws S, !RegFileLaws S, !HostView S, !HostLaws S, !HeapUse S, !HeapOps S} := {
  (** Small blocks: a mapped block that meets nothing in use, or null, if there is no
      room. *)
  heap_allocate_spec n al s : sane s -> heap_ok s -> 0 < n <= 2 ^ 20 -> pow2 al -> al <= 4096 ->
    stepped s (byte_at s) (heap_allocate n al s).2 /\
    ((heap_allocate n al s).1 = 0 /\ exhausted n al (heap_allocate n al s).2 \/
     0 < (heap_allocate n al s).1 /\ mapped (heap_allocate n al s).1 n s /\ owned (heap_allocate n al s).1 n (heap_allocate n al s).2 /\
     forall a m, owned a m s -> disj (heap_allocate n al s).1 n a m);
  heap_gwrite a bs s : heap_ok s -> heap_ok (gwrite a bs s).2;
  heap_putr r v s : heap_ok s -> heap_ok (putr r v s);
  owned_gwrite a bs b m s : owned b m s -> owned b m (gwrite a bs s).2;
  owned_putr r v b m s : owned b m s -> owned b m (putr r v s);
  exhausted_gwrite a bs n al s : exhausted n al s -> exhausted n al (gwrite a bs s).2;
  exhausted_putr r v n al s : exhausted n al s -> exhausted n al (putr r v s);
  (** The first bytes of the address space are not memory. *)
  null_write a v s : heap_ok s -> 0 <= a <= 16 -> (gwrite a (le_bytes 8 v) s).2 = s;
}.

Section Rules.
Context {S : Type} `{M : !Machine S, L : !MemLaws S, R : !RegFileLaws S, V : !HostView S, HL : !HostLaws S, U : !HeapUse S}.
Context `{HO : !HeapOps S, HW : !HeapLaws S, G : !GuestFun S, T : !Torn S}.
Implicit Types s : S.

(** The word [v] at [a]. *)
Definition wordf (f : Z -> option Z) (a v : Z) : Prop := holds_at f a (le_bytes 8 v).

Lemma wordf_ext f g a v : (forall x, a <= x < a + 8 -> f x = g x) -> wordf f a v -> wordf g a v.
Proof. intros H. apply holds_at_ext. by rewrite length_le_bytes. Qed.

Lemma wordf_same f a v : wordf f a v -> forall x, stored f a (le_bytes 8 v) x = f x.
Proof.
  intros H x. unfold stored. destruct (decide _) as [Hx|]; [|done]. symmetry. by apply holds_at_bytes.
Qed.

Lemma le_value_word v : 0 <= v < two64 -> le_value (le_bytes 8 v) = v.
Proof. intros Hv. rewrite le_value_bytes. by apply Z.mod_small. Qed.

Lemma gread_word s f a v s0 : stepped s0 f s -> mapped a 8 s0 -> wordf f a v -> gread a 8 s = Some (le_bytes 8 v).
Proof.
  intros [[H1 H2 _ H4 _] _ _] Hm Hw. pose proof (length_le_bytes 8 v) as Hl.
  change 8 with (Z.of_nat 8). rewrite <- Hl. apply gread_holds; [apply H1|apply H2; by rewrite Hl|done|].
  eapply holds_at_ext; [|exact Hw]. intros x _. by rewrite H4.
Qed.

Lemma wp_rd64 {B} a v (k : Z -> hle S B) Q s0 f s : stepped s0 f s -> mapped a 8 s0 -> wordf f a v -> 0 <= v < two64 ->
  wp (k v) Q s -> wp (rd64 a ≫= k) Q s.
Proof. intros Hs Hm Hw Hv. apply wp_pure. unfold rd64. by rewrite (gread_word s f a v s0), le_value_word. Qed.

Lemma wp_rd64_over {B} o a v (k : Z -> hle S B) Q s0 f s : stepped s0 f s -> mapped a 8 s0 -> wordf f a v -> 0 <= v < two64 ->
  wp (k v) Q s -> wp (rd64_over o a ≫= k) Q s.
Proof. intros Hs Hm Hw Hv. apply wp_pure. unfold rd64_over. by rewrite (gread_word s f a v s0), le_value_word. Qed.

Lemma stepped_write a bs s0 f s : stepped s0 f s -> mapped a (Z.of_nat (length bs)) s0 -> bs <> [] ->
  stepped s0 (stored f a bs) (gwrite a bs s).2.
Proof.
  intros [H1 H2 H3] Hm Hne. constructor; [by apply write_became|by apply heap_gwrite|]. intros b n Hb. by apply owned_gwrite, H3.
Qed.

Lemma wp_wr64_room {B} a v (k : unit -> hle S B) Q s0 f s : stepped s0 f s -> mapped a 8 s0 ->
  (forall s', stepped s0 (stored f a (le_bytes 8 v)) s' -> (forall n al, exhausted n al s -> exhausted n al s') -> wp (k tt) Q s') ->
  wp (wr64 a v ≫= k) Q s.
Proof.
  intros Hs Hm Hk. apply wp_bind. apply Hk; [by apply stepped_write; [..|by rewrite length_le_bytes|]|].
  intros n al. apply exhausted_gwrite.
Qed.

Lemma wp_wr64 {B} a v (k : unit -> hle S B) Q s0 f s : stepped s0 f s -> mapped a 8 s0 ->
  (forall s', stepped s0 (stored f a (le_bytes 8 v)) s' -> wp (k tt) Q s') -> wp (wr64 a v ≫= k) Q s.
Proof. intros Hs Hm Hk. eapply wp_wr64_room; [done..|]. intros s' Hs' _. by apply Hk. Qed.

(** A write to the first bytes of the address space. *)
Lemma wp_wr64_null {B} a v (k : unit -> hle S B) Q s : heap_ok s -> 0 <= a <= 16 -> wp (k tt) Q s -> wp (wr64 a v ≫= k) Q s.
Proof. intros Hs Ha Hk. apply wp_bind. unfold wp at 1, wr64, mem_wr. by rewrite null_write. Qed.

Lemma wp_done_room v Q s0 f s : stepped s0 f s -> 0 <= v < two64 ->
  (forall s', finished s0 f v s' -> (forall n al, exhausted n al s -> exhausted n al s') -> Q (Some tt) s') -> wp (done_with v) Q s.
Proof.
  intros [H1 H2 H3] Hv Hk. unfold done_with. apply wp_bind. unfold wp at 1, set_x. apply wp_ret, Hk; [constructor|].
  - by apply became_set.
  - by apply heap_putr.
  - intros a n Ha. by apply owned_putr, H3.
  - intros n al. apply exhausted_putr.
Qed.

Lemma wp_done v Q s0 f s : stepped s0 f s -> 0 <= v < two64 -> (forall s', finished s0 f v s' -> Q (Some tt) s') -> wp (done_with v) Q s.
Proof. intros Hs Hv Hk. eapply wp_done_room; [done..|]. intros s' Hs' _. by apply Hk. Qed.

Lemma wp_allocate {B} n al (k : Z -> hle S B) Q s0 f s : stepped s0 f s -> 0 < n <= 2 ^ 20 -> pow2 al -> al <= 4096 ->
  (forall p s', stepped s0 f s' -> p = 0 /\ exhausted n al s' \/ (0 < p /\ mapped p n s0 /\ owned p n s' /\ forall a m, owned a m s0 -> disj p n a m) ->
     wp (k p) Q s') -> wp (allocate n al ≫= k) Q s.
Proof.
  intros Hs Hn Hal Hle Hk. apply wp_bind. unfold wp at 1, allocate. pose proof Hs as [[H1 H2 _ H4 _] H5 H6].
  destruct (heap_allocate_spec n al s H1 H5 Hn Hal Hle) as [Hst Hp]. destruct (heap_allocate n al s) as [p s']. cbn [fst snd] in *.
  apply Hk.
  - eapply stepped_trans; [exact Hs|]. eapply stepped_ext; [|exact Hst]. apply H4.
  - destruct Hp as [[-> ?]|(? & ? & ? & Hd)]; [by left|right]. split_and!; [done|by apply H2|done|]. intros a m Ha. by apply Hd, H6.
Qed.

End Rules.

(** * Cells *)

(** Membership in a list of cells. *)
Ltac in_cells := rewrite ?elem_of_cons, ?elem_of_app; cbn; tauto.

(** Ranges of memory, pairwise apart. *)
Definition cell_disj (c d : Z * Z) : Prop := disj c.1 c.2 d.1 d.2.
Definition sep (C : list (Z * Z)) : Prop := StronglySorted cell_disj C.
Definition in_cell (x : Z) (c : Z * Z) : Prop := c.1 <= x < c.1 + c.2.
Definition outside (C : list (Z * Z)) (x : Z) : Prop := forall c, c ∈ C -> ~ in_cell x c.
Definition same_outside (C : list (Z * Z)) (f g : Z -> option Z) : Prop := forall x, outside C x -> g x = f x.

Lemma cell_disj_sym c d : cell_disj c d -> cell_disj d c.
Proof. apply disj_sym. Qed.

Lemma sep_cons c C : sep (c :: C) <-> (forall d, d ∈ C -> cell_disj c d) /\ sep C.
Proof. unfold sep. by rewrite StronglySorted_cons, Forall_forall. Qed.
Lemma sep_app C D : sep (C ++ D) <-> (forall c d, c ∈ C -> d ∈ D -> cell_disj c d) /\ sep C /\ sep D.
Proof. apply StronglySorted_app. Qed.

Lemma outside_mono C D x : outside C x -> (forall c, c ∈ D -> exists d, d ∈ C /\ d.1 <= c.1 /\ c.1 + c.2 <= d.1 + d.2) -> outside D x.
Proof. intros H Hi c Hc Hx. destruct (Hi c Hc) as (d & Hd & ? & ?). apply (H d Hd). unfold in_cell in *. lia. Qed.

Lemma outside_disj C c x : (forall d, d ∈ C -> cell_disj c d) -> in_cell x c -> outside C x.
Proof. intros H Hx d Hd Hxd. specialize (H d Hd). unfold cell_disj, disj, in_cell in *. lia. Qed.

Lemma same_outside_refl C f : same_outside C f f.
Proof. done. Qed.
Lemma same_outside_weaken C D f g : same_outside C f g -> (forall c, c ∈ C -> exists d, d ∈ D /\ d.1 <= c.1 /\ c.1 + c.2 <= d.1 + d.2) -> same_outside D f g.
Proof. intros H Hi x Hx. apply H. by eapply outside_mono. Qed.
Lemma same_outside_word C f g a v : same_outside C f g -> (forall d, d ∈ C -> cell_disj (a, 8) d) -> wordf f a v -> wordf g a v.
Proof. intros H Hd. apply wordf_ext. intros x Hx. symmetry. apply H. by apply (outside_disj C (a, 8)). Qed.
Lemma same_outside_stored C f g a v : same_outside C f g -> (exists c, c ∈ C /\ c.1 <= a /\ a + 8 <= c.1 + c.2) -> same_outside C f (stored g a (le_bytes 8 v)).
Proof.
  intros H (c & Hc & ? & ?) x Hx. rewrite stored_out; [by apply H|]. rewrite length_le_bytes. intros Hin. apply (Hx c Hc). unfold in_cell. lia.
Qed.

(** * Trees in memory *)

Definition cells (t : tree) : list (Z * Z) := map (fun a => (a, 24)) (addrs t).

Lemma cells_node a k l r : cells (Node a k l r) = (a, 24) :: cells l ++ cells r.
Proof. unfold cells. cbn. by rewrite map_app. Qed.

Lemma cells_insert cmp key p t c : c ∈ cells (tree_insert cmp key p t) -> c = (p, 24) \/ c ∈ cells t.
Proof.
  induction t as [|a k l IHl r IHr]; cbn [tree_insert]; [rewrite cells_node; cbn; in_cells|].
  destruct (_ =? _); [by right|]. destruct (_ <? _); rewrite !cells_node, !elem_of_cons, !elem_of_app; naive_solver.
Qed.

Lemma sep_insert cmp key p t : sep (cells t) -> (forall c, c ∈ cells t -> cell_disj c (p, 24)) -> sep (cells (tree_insert cmp key p t)).
Proof.
  induction t as [|a k l IHl r IHr]; intros Hs Hp; cbn [tree_insert]; [apply sep_cons; split; [by intros d ?%elem_of_nil|constructor]|].
  rewrite cells_node in Hs, Hp. apply sep_cons in Hs as [Ha Hs]. apply sep_app in Hs as (Hx & Hl & Hr).
  assert (Hpl : forall c, c ∈ cells l -> cell_disj c (p, 24)) by (intros c Hc; apply Hp; in_cells).
  assert (Hpr : forall c, c ∈ cells r -> cell_disj c (p, 24)) by (intros c Hc; apply Hp; in_cells).
  destruct (_ =? _); [|destruct (_ <? _)]; rewrite cells_node; apply sep_cons; (split; [|apply sep_app; split_and!]); auto.
  - intros d [[->|Hd]%cells_insert|Hd]%elem_of_app; [apply Hp; by left|apply Ha; in_cells|apply Ha; in_cells].
  - intros c d [->|Hc]%cells_insert Hd; [by apply cell_disj_sym, Hpr|by apply Hx].
  - intros d [Hd|[->|Hd]%cells_insert]%elem_of_app; [apply Ha; in_cells|apply Hp; by left|apply Ha; in_cells].
  - intros c d Hc [->|Hd]%cells_insert; [by apply Hpl|by apply Hx].
Qed.

(** The new node is there, with its key. *)
Lemma insert_cell cmp key p t : tree_find cmp key t = None -> (p, 24) ∈ cells (tree_insert cmp key p t).
Proof.
  induction t as [|a k l IHl r IHr]; intros Hf; [by left|]. cbn [tree_find tree_insert] in *. destruct (_ =? _); [done|].
  destruct (_ <? _); rewrite cells_node; apply elem_of_cons; right; apply elem_of_app; auto.
Qed.

(** Removing only drops cells. *)
Lemma sep_sublist C D : D `sublist_of` C -> sep C -> sep D.
Proof.
  induction 1 as [|c D C Hs IH|c D C Hs IH]; [done|..]; rewrite !sep_cons; intros [Hd Hc]; auto.
  split; [|auto]. intros d Hin. apply Hd. by eapply elem_of_sublist.
Qed.

Lemma addrs_remove_min t : addrs (remove_min t).2 `sublist_of` addrs t.
Proof.
  induction t as [|a k l IHl r _]; [done|]. destruct l as [|a' k' l' r'] eqn:El; [by apply sublist_cons|]. rewrite <- El in *.
  rewrite remove_min_node by (by rewrite El). cbn. by apply sublist_skip, sublist_app.
Qed.

Lemma addrs_remove cmp key t : addrs (tree_remove cmp key t) `sublist_of` addrs t.
Proof.
  induction t as [|a k l IHl r IHr]; [done|]. cbn [tree_remove].
  destruct (_ =? _); [|destruct (_ <? _)]; [|by apply sublist_skip, sublist_app..].
  unfold replace_node. destruct l as [|a1 k1 l1 r1]; [by apply sublist_cons|].
  destruct r as [|a2 k2 l2 r2]; [cbn [addrs]; rewrite app_nil_r; by apply sublist_cons|].
  pose proof (addrs_remove_min (Node a2 k2 l2 r2)) as Hr. destruct (remove_min (Node a2 k2 l2 r2)) as [k' r']. by apply sublist_skip, sublist_app.
Qed.

Lemma cells_remove cmp key t : cells (tree_remove cmp key t) `sublist_of` cells t.
Proof.
  unfold cells. pose proof (addrs_remove cmp key t) as H. induction H; cbn; [constructor|by apply sublist_skip|by apply sublist_cons].
Qed.

Section Trees.
Context {S : Type} `{M : !Machine S, L : !MemLaws S, R : !RegFileLaws S, V : !HostView S, HL : !HostLaws S, U : !HeapUse S}.
Context `{HO : !HeapOps S, HW : !HeapLaws S, G : !GuestFun S, T : !Torn S}.
Implicit Types s : S.

(** The tree lies in the byte map [f], in memory that is mapped in [s]. *)
Fixpoint shape s (f : Z -> option Z) (t : tree) : Prop :=
  match t with
  | Tip => True
  | Node a k l r =>
      0 < a /\ mapped a 24 s /\ wordf f a k /\ wordf f (a + 8) (ptr l) /\ wordf f (a + 16) (ptr r) /\
      0 <= k < two64 /\ shape s f l /\ shape s f r
  end.

Lemma shape_same s f g t C : same_outside C f g -> (forall c d, c ∈ cells t -> d ∈ C -> cell_disj c d) -> shape s f t -> shape s g t.
Proof.
  intros Hs. induction t as [|a k l IHl r IHr]; [done|]. rewrite cells_node. intros Hd. cbn [shape].
  assert (Hw : forall o v, 0 <= o <= 16 -> wordf f (a + o) v -> wordf g (a + o) v).
  { intros o v Ho. apply (same_outside_word C); [done|]. intros d Hd'. specialize (Hd (a, 24) d ltac:(by left) Hd'). unfold cell_disj, disj in *. cbn in *. lia. }
  intros (? & ? & H1 & H2 & H3 & ? & H4 & H5). rewrite <- (Z.add_0_r a) in H1. apply Hw in H1, H2, H3; [|lia..]. rewrite Z.add_0_r in H1.
  split_and!; try done; [lia..|apply IHl|apply IHr]; try done; intros c d Hc; apply Hd; apply elem_of_cons; right; apply elem_of_app; auto.
Qed.

Lemma shape_range s f t : mem_ok s -> shape s f t -> 0 <= ptr t < two64 - 24.
Proof. destruct t as [|a k l r]; [unfold two64; cbn; lia|]. intros Hs (? & Hm & _). apply mapped_range in Hm; [cbn; lia|done]. Qed.

Lemma shape_cells s f t c : shape s f t -> c ∈ cells t -> c.2 = 24 /\ 0 < c.1 /\ mapped c.1 24 s.
Proof.
  induction t as [|a k l IHl r IHr]; [by intros _ ?%elem_of_nil|]. rewrite cells_node, elem_of_cons, elem_of_app.
  intros (? & ? & _ & _ & _ & _ & Hl & Hr) [-> | [Hc | Hc]]; [done|by apply IHl|by apply IHr].
Qed.

(** One node: its three words, and the sizes behind them. *)
Lemma node_words s f a k l r : mem_ok s -> shape s f (Node a k l r) ->
  0 < a /\ a + 24 < two64 /\ mapped a 8 s /\ mapped (a + 8) 8 s /\ mapped (a + 16) 8 s /\ a ⊕ 8 = a + 8 /\ a ⊕ 16 = a + 16.
Proof.
  intros Hs (? & Hm & _). pose proof (mapped_range a 24 s Hs Hm) as [? ?].
  split_and!; try lia; try (eapply mapped_sub; [exact Hm|lia..]); apply u64_small; u64_lia.
Qed.

(** * Comparing *)

Context (cmp : Z -> Z -> Z) (compar : Z) (data : list (Z * Z)) (g0 : Z -> option Z).

(** What the comparison looks at is as it was. *)
Definition data_same (f : Z -> option Z) : Prop := forall c x, c ∈ data -> in_cell x c -> f x = g0 x.

(** The guest's function compares as [cmp] says while [data] is intact, and leaves
    memory, registers and heap alone. *)
Definition compares : Prop := forall x y s, sane s -> heap_ok s -> data_same (byte_at s) ->
  exists v s', call_function_safe compar [x; y] s = Ret v s' /\ stepped s (byte_at s) s' /\ s32 v = cmp x y.
Context (Hcompar : compares).

Lemma data_same_outside C f g : same_outside C f g -> (forall c d, c ∈ data -> d ∈ C -> cell_disj c d) -> data_same f -> data_same g.
Proof. intros Hs Hd Hf c x Hc Hx. rewrite Hs; [by apply (Hf c)|]. apply (outside_disj C c); [|done]. intros d. by apply Hd. Qed.

Lemma wp_compar {B} x y (k : Z -> hle S B) Q s0 f s : stepped s0 f s -> data_same f ->
  (forall s', stepped s0 f s' -> wp (k (cmp x y)) Q s') -> wp (call_compar compar x y ≫= k) Q s.
Proof.
  intros Hs Hd Hk. pose proof Hs as [[H1 _ _ H4 _] H5 _].
  destruct (Hcompar x y s H1 H5) as (v & s' & E & Hst & Hv). { intros c z Hc Hz. rewrite H4. by apply (Hd c). }
  apply wp_bind. unfold wp at 1, call_compar, mbind, hle_bind. rewrite E. unfold mret, hle_ret. rewrite Hv. apply Hk.
  eapply stepped_trans; [exact Hs|]. by eapply stepped_ext.
Qed.

(** * tfind *)

Definition found_at (key : Z) (t : tree) : Z := match tree_find cmp key t with Some (a, _) => a | None => 0 end.

Lemma tfind_loop_spec key Q s0 f : mem_ok s0 -> data_same f -> forall t fuel s, (height t < fuel)%nat -> stepped s0 f s -> shape s0 f t ->
  (forall s', finished s0 f (found_at key t) s' -> Q (Some tt) s') -> wp (tfind_loop fuel key compar (ptr t)) Q s.
Proof.
  intros H0 Hd t. induction t as [|a k l IHl r IHr]; intros fuel s Hf Hs Hsh HQ; (destruct fuel as [|fuel]; [lia|]); cbn [tfind_loop ptr].
  { cbn [Z.eqb]. eapply wp_done; [exact Hs|unfold two64; lia|]. exact HQ. }
  destruct (node_words _ _ _ _ _ _ H0 Hsh) as (? & ? & Hm1 & Hm2 & Hm3 & -> & ->). destruct Hsh as (_ & _ & W1 & W2 & W3 & Hk & Hl & Hr).
  pose proof (shape_range _ _ _ H0 Hl). pose proof (shape_range _ _ _ H0 Hr). cbn [height] in Hf.
  rewrite (proj2 (Z.eqb_neq a 0)) by lia. eapply wp_rd64; [exact Hs|done|exact W1|done|].
  eapply wp_compar; [exact Hs|done|]. intros s1 Hs1. unfold found_at in HQ. cbn [tree_find] in HQ. destruct (Z.eqb_spec (cmp key k) 0).
  { eapply wp_done; [exact Hs1|lia|]. exact HQ. }
  destruct (_ <? _).
  - eapply wp_rd64_over; [exact Hs1|done|exact W2|lia|]. apply IHl; [lia|done..].
  - eapply wp_rd64_over; [exact Hs1|done|exact W3|lia|]. apply IHr; [lia|done..].
Qed.

(** * tsearch *)

(** A new node at [p], linked in at [link]. *)
Definition node_added (f : Z -> option Z) (p key link : Z) : Z -> option Z :=
  stored (stored (stored (stored f p (le_bytes 8 key)) (p + 8) (le_bytes 8 0)) (p + 16) (le_bytes 8 0)) link (le_bytes 8 p).

(** The block of a new node is fresh. *)
Definition fresh_node s0 s' p : Prop := 0 < p /\ mapped p 24 s0 /\ owned p 24 s' /\ forall a m, owned a m s0 -> disj p 24 a m.

Lemma node_added_outside f p key link : same_outside [(p, 24); (link, 8)] f (node_added f p key link).
Proof.
  unfold node_added. apply same_outside_stored; [|exists (link, 8); split; [in_cells|cbn; lia]].
  do 3 (apply same_outside_stored; [|exists (p, 24); split; [in_cells|cbn; lia]]). apply same_outside_refl.
Qed.

Lemma node_added_shape s0 s' f p key link : fresh_node s0 s' p -> disj p 24 link 8 -> 0 <= key < two64 ->
  shape s0 (node_added f p key link) (Node p key Tip Tip) /\ wordf (node_added f p key link) link p.
Proof.
  intros (? & Hm & _) Hd [Hk1 Hk2]. split; [|unfold node_added; apply holds_stored].
  assert (Hw : forall o v, 0 <= o <= 16 -> wordf (stored (stored (stored f p (le_bytes 8 key)) (p + 8) (le_bytes 8 0)) (p + 16) (le_bytes 8 0)) (p + o) v ->
    wordf (node_added f p key link) (p + o) v).
  { intros o v Ho Hw. unfold node_added. apply holds_stored_disj; [|done]. rewrite !length_le_bytes. unfold disj in *. lia. }
  assert (Hw0 : wordf (node_added f p key link) (p + 0) key).
  { apply Hw; [lia|]. rewrite Z.add_0_r. do 2 (apply holds_stored_disj; [rewrite !length_le_bytes; unfold disj; lia|]). apply holds_stored. }
  rewrite Z.add_0_r in Hw0. cbn [shape ptr]. split_and!; try done; apply Hw; try lia.
  - apply holds_stored_disj; [rewrite !length_le_bytes; unfold disj; lia|]. apply holds_stored.
  - apply holds_stored.
Qed.

Lemma wp_new_node key link Q s0 f s : mem_ok s0 -> stepped s0 f s -> mapped link 8 s0 -> wordf f link 0 ->
  (forall s', finished s0 f 0 s' -> exhausted 24 8 s' -> Q (Some tt) s') ->
  (forall p s', fresh_node s0 s' p -> finished s0 (node_added f p key link) p s' -> Q (Some tt) s') ->
  wp (new_tree_node key link) Q s.
Proof.
  intros H0 Hs Hm Hw Hfail Hok. unfold new_tree_node. eapply wp_allocate; [exact Hs|lia|exists 3; split; [lia|done]|lia|].
  intros p s1 Hs1 [[-> Hex]|(Hp & Hmp & Hop & Hd)].
  - do 3 (apply wp_wr64_null; [apply Hs1|split; vm_compute; discriminate|]). eapply wp_wr64_room; [exact Hs1|done|]. intros s2 Hs2 He2.
    eapply (stepped_ext _ _ f) in Hs2; [|by apply wordf_same]. eapply wp_done_room; [exact Hs2|unfold two64; lia|].
    intros s' Hf He. apply Hfail; [done|]. by apply He, He2.
  - pose proof (mapped_range p 24 s0 H0 Hmp) as [? ?]. rewrite (u64_small (p + 8)), (u64_small (p + 16)) by u64_lia.
    pose proof Hs1 as [[S1 M1 _ B1 _] K1 O1]. pose proof (stepped_ext _ _ f _ B1 (stepped_refl s1 S1 K1)) as Hs1'.
    assert (Hmap : forall o, 0 <= o <= 16 -> mapped (p + o) 8 s1) by (intros o Ho; apply M1; eapply mapped_sub; [exact Hmp|lia..]).
    eapply wp_wr64; [exact Hs1'|rewrite <- (Z.add_0_r p); apply Hmap; lia|]. intros s2 Hs2.
    eapply wp_wr64; [exact Hs2|apply Hmap; lia|]. intros s3 Hs3.
    eapply wp_wr64; [exact Hs3|apply Hmap; lia|]. intros s4 Hs4.
    eapply wp_wr64; [exact Hs4|by apply M1|]. intros s5 Hs5. eapply wp_done; [exact Hs5|lia|]. intros s' Hf. apply (Hok p s').
    + split_and!; try done. by apply (fi_owned _ _ _ _ Hf).
    + by eapply finished_trans.
Qed.

(** What tsearch does to a tree: it returns the node with the key, or the node it added,
    or null, and then the heap has no room for a node. *)
Definition searched s0 (f : Z -> option Z) key (t : tree) (Q : option unit -> S -> Prop) : Prop :=
  (forall s', tree_find cmp key t <> None -> finished s0 f (found_at key t) s' -> Q (Some tt) s') /\
  (forall s', tree_find cmp key t = None -> finished s0 f 0 s' -> exhausted 24 8 s' -> Q (Some tt) s') /\
  (forall p f' s', tree_find cmp key t = None -> fresh_node s0 s' p -> finished s0 f' p s' -> shape s0 f' (tree_insert cmp key p t) ->
     same_outside ((p, 24) :: cells t) f f' -> Q (Some tt) s').

Lemma ptr_nonzero s f t : shape s f t -> ptr t <> 0 <-> t <> Tip.
Proof. destruct t as [|a k l r]; cbn; [done|]. intros (? & _). split; [done|lia]. Qed.

Lemma ptr_insert key p t : t <> Tip -> ptr (tree_insert cmp key p t) = ptr t.
Proof. destruct t; [done|]. intros _. cbn. by repeat destruct (_ : bool). Qed.

(** A fresh block is apart from what is in use. *)
Lemma fresh_apart s0 s' p (C : list (Z * Z)) : fresh_node s0 s' p -> (forall c, c ∈ C -> owned c.1 c.2 s0) -> forall c, c ∈ C -> cell_disj c (p, 24).
Proof. intros (_ & _ & _ & Hd) Ho c Hc. apply cell_disj_sym. apply Hd. by apply Ho. Qed.

(** A word of a cell. *)
Lemma word_in_cell a o d : 0 <= o <= 16 -> cell_disj (a, 24) d -> cell_disj (a + o, 8) d.
Proof. unfold cell_disj, disj. cbn. lia. Qed.

(** The node around a subtree that was changed: the change [C] touches the link and
    the cells of that subtree, and the fresh block at most. *)
Definition cells_owned s (t : tree) : Prop := sep (cells t) /\ forall c, c ∈ cells t -> owned c.1 c.2 s.

Lemma cells_owned_node s a k l r : cells_owned s (Node a k l r) ->
  cells_owned s l /\ cells_owned s r /\ owned a 24 s /\ (forall c, c ∈ cells l \/ c ∈ cells r -> cell_disj (a, 24) c) /\
  (forall c d, c ∈ cells l -> d ∈ cells r -> cell_disj c d).
Proof.
  intros [Hs Ho]. rewrite cells_node in Hs, Ho. apply sep_cons in Hs as [Ha Hs]. apply sep_app in Hs as (Hx & Hl & Hr).
  split_and!; [split; [done|]..| | |done].
  - intros c Hc. apply Ho. in_cells.
  - intros c Hc. apply Ho. in_cells.
  - apply (Ho (a, 24)). by left.
  - intros c Hc. apply Ha. in_cells.
Qed.

Lemma graft_left s0 s' f f' a k l r p l' X : shape s0 f (Node a k l r) -> cells_owned s0 (Node a k l r) -> fresh_node s0 s' p ->
  same_outside ((p, 24) :: X) f f' -> (forall c, c ∈ X -> c = (a + 8, 8) \/ c ∈ cells l) -> shape s0 f' l' -> wordf f' (a + 8) (ptr l') ->
  shape s0 f' (Node a k l' r) /\ same_outside ((p, 24) :: cells (Node a k l r)) f f'.
Proof.
  intros (H1 & H2 & W1 & W2 & W3 & [? ?] & Hl & Hr) (_ & [Hsr Hor] & Ha & Hda & Hdx)%cells_owned_node Hp Hs HX Hl' Hw.
  assert (Hfa : cell_disj (a, 24) (p, 24)) by (apply (fresh_apart s0 s' p [(a, 24)] Hp); [by intros c ->%list_elem_of_singleton|by left]).
  assert (Hfr : forall c, c ∈ cells r -> cell_disj c (p, 24)) by (by apply (fresh_apart s0 s' p _ Hp)).
  assert (Hword : forall o v, o = 0 \/ o = 16 -> wordf f (a + o) v -> wordf f' (a + o) v).
  { intros o v Ho. apply (same_outside_word _ _ _ _ _ Hs). intros d [->|[->|Hc]%HX]%elem_of_cons.
    - apply word_in_cell; [lia|done].
    - unfold cell_disj, disj. cbn. lia.
    - apply word_in_cell; [lia|]. apply Hda. by left. }
  split.
  - rewrite <- (Z.add_0_r a) in W1. apply Hword in W1, W3; [|auto..]. rewrite Z.add_0_r in W1. cbn [shape]. split_and!; try done.
    eapply shape_same; [exact Hs| |done]. intros c d Hc [->|[->|Hd]%HX]%elem_of_cons; [by apply Hfr| |].
    + apply cell_disj_sym, word_in_cell; [lia|]. apply Hda. by right.
    + apply cell_disj_sym. by apply Hdx.
  - eapply same_outside_weaken; [exact Hs|]. rewrite cells_node. intros c [->|[->|Hc]%HX]%elem_of_cons; [exists (p, 24)|exists (a, 24)|exists c];
      (split; [in_cells|cbn; lia]).
Qed.

Lemma graft_right s0 s' f f' a k l r p r' X : shape s0 f (Node a k l r) -> cells_owned s0 (Node a k l r) -> fresh_node s0 s' p ->
  same_outside ((p, 24) :: X) f f' -> (forall c, c ∈ X -> c = (a + 16, 8) \/ c ∈ cells r) -> shape s0 f' r' -> wordf f' (a + 16) (ptr r') ->
  shape s0 f' (Node a k l r') /\ same_outside ((p, 24) :: cells (Node a k l r)) f f'.
Proof.
  intros (H1 & H2 & W1 & W2 & W3 & [? ?] & Hl & Hr) ([Hsl Hol] & _ & Ha & Hda & Hdx)%cells_owned_node Hp Hs HX Hr' Hw.
  assert (Hfa : cell_disj (a, 24) (p, 24)) by (apply (fresh_apart s0 s' p [(a, 24)] Hp); [by intros c ->%list_elem_of_singleton|by left]).
  assert (Hfl : forall c, c ∈ cells l -> cell_disj c (p, 24)) by (by apply (fresh_apart s0 s' p _ Hp)).
  assert (Hword : forall o v, o = 0 \/ o = 8 -> wordf f (a + o) v -> wordf f' (a + o) v).
  { intros o v Ho. apply (same_outside_word _ _ _ _ _ Hs). intros d [->|[->|Hc]%HX]%elem_of_cons.
    - apply word_in_cell; [lia|done].
    - unfold cell_disj, disj. cbn. lia.
    - apply word_in_cell; [lia|]. apply Hda. by right. }
  split.
  - rewrite <- (Z.add_0_r a) in W1. apply Hword in W1, W2; [|auto..]. rewrite Z.add_0_r in W1. cbn [shape]. split_and!; try done.
    eapply shape_same; [exact Hs| |done]. intros c d Hc [->|[->|Hd]%HX]%elem_of_cons; [by apply Hfl| |by apply Hdx].
    apply cell_disj_sym, word_in_cell; [lia|]. apply Hda. by left.
  - eapply same_outside_weaken; [exact Hs|]. rewrite cells_node. intros c [->|[->|Hc]%HX]%elem_of_cons; [exists (p, 24)|exists (a, 24)|exists c];
      (split; [in_cells|cbn; lia]).
Qed.

(** A new leaf below a node, and an insertion further down. *)
Lemma leaf_apart s0 s' a p o : owned a 24 s0 -> fresh_node s0 s' p -> 0 <= o <= 16 -> disj p 24 (a + o) 8.
Proof. intros Ha (_ & _ & _ & Hd) Ho. specialize (Hd a 24 Ha). unfold disj in *. lia. Qed.

Lemma link_kept s0 s' f f' a l p o v : owned a 24 s0 -> (forall c, c ∈ cells l -> cell_disj (a, 24) c) -> fresh_node s0 s' p -> 0 <= o <= 16 ->
  same_outside ((p, 24) :: cells l) f f' -> wordf f (a + o) v -> wordf f' (a + o) v.
Proof.
  intros Ha Hda Hp Ho Hs. apply (same_outside_word _ _ _ _ _ Hs). intros d [->|Hd]%elem_of_cons.
  - apply cell_disj_sym. by apply (leaf_apart s0 s').
  - apply word_in_cell; [done|]. by apply Hda.
Qed.

Lemma tsearch_loop_spec key Q s0 f : mem_ok s0 -> data_same f -> 0 <= key < two64 -> forall t fuel s, (height t < fuel)%nat -> t <> Tip -> stepped s0 f s ->
  shape s0 f t -> cells_owned s0 t -> searched s0 f key t Q -> wp (tsearch_loop fuel key compar (ptr t)) Q s.
Proof.
  intros H0 Hd Hkey t. induction t as [|a k l IHl r IHr]; intros fuel s Hf Hne Hs Hsh Hown (Q1 & Q2 & Q3); [done|]. clear Hne.
  destruct fuel as [|fuel]; [lia|]. cbn [tsearch_loop ptr height] in *. pose proof Hsh as Hsh'. pose proof Hown as (Hol & Hor & Ho & Hda & Hdx)%cells_owned_node.
  destruct (node_words _ _ _ _ _ _ H0 Hsh) as (? & ? & Hm1 & Hm2 & Hm3 & -> & ->). destruct Hsh as (_ & _ & W1 & W2 & W3 & Hk & Hl & Hr).
  pose proof (shape_range _ _ _ H0 Hl). pose proof (shape_range _ _ _ H0 Hr).
  rewrite (proj2 (Z.eqb_neq a 0)) by lia. eapply wp_rd64; [exact Hs|done|exact W1|done|].
  eapply wp_compar; [exact Hs|done|]. intros s1 Hs1. unfold searched, found_at in *. cbn [tree_find tree_insert] in Q1, Q2, Q3.
  destruct (Z.eqb_spec (cmp key k) 0).
  { eapply wp_done; [exact Hs1|lia|]. intros s'. by apply Q1. }
  destruct (Z.ltb_spec (cmp key k) 0).
  - eapply wp_rd64; [exact Hs1|done|exact W2|lia|]. destruct (Z.eqb_spec (ptr l) 0) as [E0|Hne].
    + assert (l = Tip) as -> by (destruct l; [done|]; by apply (ptr_nonzero _ _ _ Hl) in E0).
      eapply wp_new_node; [done|exact Hs1|done|exact W2|intros s'; by apply Q2|]. intros p s' Hp Hfin.
      destruct (node_added_shape s0 s' f p key (a + 8) Hp (leaf_apart s0 s' a p 8 Ho Hp ltac:(lia)) Hkey) as [Hn1 Hn2].
      destruct (graft_left s0 s' f _ a k Tip r p (Node p key Tip Tip) _ Hsh' Hown Hp (node_added_outside f p key (a + 8))) as [G1 G2];
        [intros c ->%list_elem_of_singleton; by left|done..|]. by apply (Q3 p _ s' eq_refl Hp Hfin).
    + assert (l <> Tip) as Hlne by (by apply (ptr_nonzero _ _ _ Hl)). apply IHl; [lia|done..|]. split_and!; [done..|].
      intros p f' s' Hnone Hp Hfin Hshl Hout. destruct (graft_left s0 s' f f' a k l r p (tree_insert cmp key p l) _ Hsh' Hown Hp Hout) as [G1 G2];
        [by right|done|rewrite ptr_insert by done; apply (link_kept s0 s' f f' a l p 8); [done|intros; apply Hda; auto|done|lia|done|done]|]. by apply (Q3 p f' s').
  - eapply wp_rd64; [exact Hs1|done|exact W3|lia|]. destruct (Z.eqb_spec (ptr r) 0) as [E0|Hne].
    + assert (r = Tip) as -> by (destruct r; [done|]; by apply (ptr_nonzero _ _ _ Hr) in E0).
      eapply wp_new_node; [done|exact Hs1|done|exact W3|intros s'; by apply Q2|]. intros p s' Hp Hfin.
      destruct (node_added_shape s0 s' f p key (a + 16) Hp (leaf_apart s0 s' a p 16 Ho Hp ltac:(lia)) Hkey) as [Hn1 Hn2].
      destruct (graft_right s0 s' f _ a k l Tip p (Node p key Tip Tip) _ Hsh' Hown Hp (node_added_outside f p key (a + 16))) as [G1 G2];
        [intros c ->%list_elem_of_singleton; by left|done..|]. by apply (Q3 p _ s' eq_refl Hp Hfin).
    + assert (r <> Tip) as Hrne by (by apply (ptr_nonzero _ _ _ Hr)). apply IHr; [lia|done..|]. split_and!; [done..|].
      intros p f' s' Hnone Hp Hfin Hshr Hout. destruct (graft_right s0 s' f f' a k l r p (tree_insert cmp key p r) _ Hsh' Hown Hp Hout) as [G1 G2];
        [by right|done|rewrite ptr_insert by done; apply (link_kept s0 s' f f' a r p 16); [done|intros; apply Hda; auto|done|lia|done|done]|]. by apply (Q3 p f' s').
Qed.

(** * tdelete *)

(** The link to the leftmost node of a tree that hangs at [link], that node, and its
    right child. *)
Fixpoint min_cell (link : Z) (t : tree) : Z * Z :=
  match t with
  | Tip => (link, 0)
  | Node a _ l _ => match l with Tip => (link, a) | _ => min_cell (a + 8) l end
  end.
Fixpoint min_right (t : tree) : Z :=
  match t with
  | Tip => 0
  | Node _ _ l r => match l with Tip => ptr r | _ => min_right l end
  end.

Lemma shape_ext s f g t : (forall c x, c ∈ cells t -> in_cell x c -> g x = f x) -> shape s f t -> shape s g t.
Proof.
  induction t as [|a k l IHl r IHr]; [done|]. rewrite cells_node. intros He (? & ? & W1 & W2 & W3 & [? ?] & Hl & Hr). cbn [shape].
  assert (Ha : forall x, a <= x < a + 24 -> f x = g x) by (intros x Hx; symmetry; apply (He (a, 24)); [by left|done]).
  split_and!; try done; try (eapply wordf_ext; [|done]; intros x Hx; apply Ha; lia); [apply IHl|apply IHr]; try done; intros c x Hc; apply He; in_cells.
Qed.

Lemma successor_spec s0 f s : mem_ok s0 -> stepped s0 f s -> forall l fuel link a k r, (height l < fuel)%nat -> shape s0 f (Node a k l r) ->
  successor fuel link a (ptr l) s = Ret (Some (min_cell link (Node a k l r))) s.
Proof.
  intros H0 Hs. induction l as [|a' k' l' IH r' _]; intros fuel link a k r Hf Hsh; (destruct fuel as [|fuel]; [lia|]); cbn [successor ptr height] in *; [done|].
  destruct (node_words _ _ _ _ _ _ H0 Hsh) as (? & ? & _ & Hm & _ & -> & _). destruct Hsh as (_ & _ & _ & _ & _ & _ & Hl & _).
  destruct (node_words _ _ _ _ _ _ H0 Hl) as (? & ? & _ & Hm' & _ & -> & _). pose proof Hl as (_ & _ & _ & W & _ & _ & Hl' & _).
  pose proof (shape_range _ _ _ H0 Hl'). rewrite (proj2 (Z.eqb_neq a' 0)) by lia. unfold mbind, hle_bind, rd64_over.
  rewrite (gread_word s f (a' + 8) (ptr l') s0 Hs Hm' W), le_value_word by lia. rewrite (IH fuel (a + 8) a' k' r') by (done || lia). done.
Qed.

(** The leftmost node and the link to it. *)
Record leftmost s0 (f : Z -> option Z) (t : tree) (link lk p : Z) : Prop := {
  lm_cell : (p, 24) ∈ cells t;
  lm_mapped : 0 < p /\ mapped p 24 s0;
  lm_key : wordf f p (remove_min t).1 /\ 0 <= (remove_min t).1 < two64;
  lm_right : wordf f (p + 16) (min_right t) /\ 0 <= min_right t < two64;
  lm_link : lk = link \/ exists c, c ∈ cells t /\ c.2 = 24 /\ lk = c.1 + 8 /\ 0 < c.1 /\ mapped c.1 24 s0;
}.

Lemma leftmost_spec s0 f t : mem_ok s0 -> shape s0 f t -> t <> Tip -> forall link, leftmost s0 f t link (min_cell link t).1 (min_cell link t).2.
Proof.
  intros H0. induction t as [|a k l IHl r _]; [done|]. intros (Ha & Hm & W1 & W2 & W3 & Hk & Hl & Hr) _ link.
  pose proof (shape_range _ _ _ H0 Hr). cbn [min_cell]. destruct l as [|a' k' l' r'] eqn:El; [|rewrite <- El in *].
  - constructor; rewrite ?cells_node; cbn [fst snd remove_min min_right]; [by left|by split|by split|split; [done|lia]|by left].
  - assert (l <> Tip) as Hne by (by rewrite El). destruct (IHl Hl Hne (a + 8)) as [L1 L2 L3 L4 L5].
    assert (Erm : (remove_min (Node a k l r)).1 = (remove_min l).1) by (by rewrite remove_min_node).
    assert (Emr : min_right (Node a k l r) = min_right l) by (by rewrite El).
    constructor; rewrite ?cells_node, ?Erm, ?Emr; try done; [apply elem_of_cons; right; apply elem_of_app; by left|]. right. destruct L5 as [->|(c & Hc & ? & ? & ? & ?)].
    + exists (a, 24). split_and!; try done. by left.
    + exists c. split_and!; try done. apply elem_of_cons; right; apply elem_of_app; by left.
Qed.

(** Unlinking the leftmost node is [remove_min]. *)
Lemma snip s0 f f' t : mem_ok s0 -> shape s0 f t -> t <> Tip -> forall link, sep ((link, 8) :: cells t) -> wordf f link (ptr t) ->
  (forall c x, c ∈ (link, 8) :: cells t -> in_cell x c -> f' x = stored f (min_cell link t).1 (le_bytes 8 (min_right t)) x) ->
  shape s0 f' (remove_min t).2 /\ wordf f' link (ptr (remove_min t).2).
Proof.
  intros H0. induction t as [|a k l IHl r _]; [done|]. intros Hsh _ link Hsep Hlink Hf'. pose proof Hsh as (Ha & Hm & W1 & W2 & W3 & [? ?] & Hl & Hr).
  rewrite cells_node in Hsep, Hf'. apply sep_cons in Hsep as [Hdl Hsep]. apply sep_cons in Hsep as [Hda Hsep]. apply sep_app in Hsep as (Hdx & Hsl & Hsr).
  destruct l as [|a' k' l' r'] eqn:El; [|rewrite <- El in *].
  - cbn [min_cell min_right remove_min snd fst] in *. split.
    + apply (shape_ext s0 f); [|done]. intros c x Hc Hx. rewrite (Hf' c) by (done || in_cells). apply stored_out. rewrite length_le_bytes.
      specialize (Hdl c ltac:(in_cells)). unfold cell_disj, disj, in_cell in *. cbn in *. lia.
    + eapply wordf_ext; [|apply (holds_stored f link (le_bytes 8 (ptr r)))]. intros x Hx. symmetry. apply (Hf' (link, 8)); [by left|done].
  - assert (l <> Tip) as Hne by (by rewrite El).
    assert (Erm : (remove_min (Node a k l r)).2 = Node a k (remove_min l).2 r) by (by rewrite remove_min_node).
    assert (Emc : min_cell link (Node a k l r) = min_cell (a + 8) l) by (by rewrite El). assert (Emr : min_right (Node a k l r) = min_right l) by (by rewrite El).
    rewrite Erm, Emc, Emr in *. clear Erm Emc Emr El.
    (* the link that changes lies in the left link of this node or in the left subtree *)
    assert (Hlk : forall c, (c = (link, 8) \/ c = (a, 8) \/ c = (a + 16, 8) \/ c ∈ cells r) -> cell_disj c ((min_cell (a + 8) l).1, 8)).
    { intros c Hc. destruct (leftmost_spec s0 f l H0 Hl Hne (a + 8)) as [_ _ _ _ [->|(d & Hd & Ed & -> & _)]].
      - assert (Hw : cell_disj c (a, 24) \/ c = (a, 8) \/ c = (a + 16, 8)).
        { destruct Hc as [-> | [-> | [-> | Hc]]]; [left; apply Hdl; by left|auto..|left; apply cell_disj_sym, Hda; in_cells]. }
        unfold cell_disj, disj in *. destruct Hw as [? | [-> | ->]]; cbn in *; lia.
      - assert (Hw : cell_disj c d). { destruct Hc as [-> | [-> | [-> | Hc]]]; [apply Hdl; in_cells| | |by apply cell_disj_sym, Hdx];
          specialize (Hda d ltac:(in_cells)); unfold cell_disj, disj in *; cbn in *; lia. }
        unfold cell_disj, disj in *. cbn. lia. }
    assert (Hsame : forall c x, (c = (link, 8) \/ c = (a, 8) \/ c = (a + 16, 8) \/ c ∈ cells r) -> in_cell x c -> f' x = f x).
    { intros c x Hc Hx. pose proof (Hlk c Hc) as Hd. rewrite (Hf' (if decide (c = (link, 8) \/ c ∈ cells r) then c else (a, 24))).
      - apply stored_out. rewrite length_le_bytes. unfold cell_disj, disj, in_cell in *. cbn in *. lia.
      - destruct (decide _) as [[->|?]|]; in_cells.
      - destruct (decide _); [done|]. destruct Hc as [-> | [-> | [-> | ?]]]; unfold in_cell in *; cbn in *; try lia; naive_solver. }
    destruct (IHl Hl Hne (a + 8)) as [G1 G2].
    + apply sep_cons. split; [|done]. intros d Hd. apply word_in_cell; [lia|]. apply Hda. in_cells.
    + done.
    + intros c x [->|Hc]%elem_of_cons Hx; [|apply (Hf' c); [in_cells|done]]. apply (Hf' (a, 24)); [in_cells|]. unfold in_cell in *. cbn in *. lia.
    + cbn [shape ptr]. split_and!; try done.
      * eapply wordf_ext; [|done]. intros x Hx. symmetry. apply (Hsame (a, 8)); [auto|done].
      * eapply wordf_ext; [|done]. intros x Hx. symmetry. apply (Hsame (a + 16, 8)); [auto|done].
      * apply (shape_ext s0 f); [|done]. intros c x Hc. apply Hsame. auto.
      * eapply wordf_ext; [|done]. intros x Hx. symmetry. apply (Hsame (link, 8)); [auto|done].
Qed.

(** A tree that hangs at [link] was replaced by [t']. *)
Record replaced s0 (f : Z -> option Z) (link : Z) (t t' : tree) (f' : Z -> option Z) : Prop := {
  rp_shape : shape s0 f' t';
  rp_link : wordf f' link (ptr t');
  rp_outside : same_outside ((link, 8) :: cells t) f f';
}.

(** Hanging: the link is mapped, apart from the tree, and points to it. *)
Record hangs s0 (f : Z -> option Z) (link : Z) (t : tree) : Prop := {
  hg_shape : shape s0 f t;
  hg_link : 0 < link /\ mapped link 8 s0;
  hg_word : wordf f link (ptr t);
  hg_sep : sep ((link, 8) :: cells t);
}.

(** A node with a missing child is replaced by the other child [c]. *)
Lemma replaced_child s0 f link t c : hangs s0 f link t -> shape s0 f c -> (forall x, x ∈ cells c -> x ∈ cells t) ->
  replaced s0 f link t c (stored f link (le_bytes 8 (ptr c))).
Proof.
  intros [_ _ _ [Hd _]%sep_cons] Hc Hin. constructor; [|apply holds_stored|apply same_outside_stored; [done|exists (link, 8); split; [by left|cbn; lia]]].
  apply (shape_ext s0 f); [|done]. intros d x Hd' Hx. apply stored_out. rewrite length_le_bytes. specialize (Hd d (Hin d Hd')).
  unfold cell_disj, disj, in_cell in *. cbn in *. lia.
Qed.

(** A node with two children takes over its successor's key. *)
Lemma replaced_two s0 f link a k l r : mem_ok s0 -> hangs s0 f link (Node a k l r) -> r <> Tip ->
  replaced s0 f link (Node a k l r) (Node a (remove_min r).1 l (remove_min r).2)
    (stored (stored f a (le_bytes 8 (remove_min r).1)) (min_cell (a + 16) r).1 (le_bytes 8 (min_right r))).
Proof.
  intros H0 [Hsh _ Hw Hsep] Hr. pose proof Hsh as (? & ? & _ & W2 & W3 & _ & Hl & Hrt). rewrite cells_node in Hsep.
  apply sep_cons in Hsep as [Hdl Hsep]. apply sep_cons in Hsep as [Hda Hsep]. apply sep_app in Hsep as (Hdx & _ & Hsr).
  set (f1 := stored f a (le_bytes 8 (remove_min r).1)). set (lk := (min_cell (a + 16) r).1). set (f2 := stored f1 lk _).
  destruct (leftmost_spec s0 f r H0 Hrt Hr (a + 16)) as [_ _ [_ Hk] _ Hlk]. fold lk in Hlk.
  assert (Hlkd : forall c, cell_disj c (a, 24) -> (forall d, d ∈ cells r -> cell_disj c d) -> cell_disj c (lk, 8)).
  { intros c Hca Hcr. destruct Hlk as [->|(d & Hd & Ed & -> & _)]; [|specialize (Hcr d Hd)]; unfold cell_disj, disj in *; cbn in *; lia. }
  assert (Hout : forall c x, cell_disj c (a, 24) -> (forall d, d ∈ cells r -> cell_disj c d) -> in_cell x c -> f2 x = f x).
  { intros c x Hca Hcr Hx. specialize (Hlkd c Hca Hcr). unfold f2, f1. rewrite !stored_out; [done|rewrite length_le_bytes..]; unfold cell_disj, disj, in_cell in *; cbn in *; lia. }
  assert (Hown : forall o, o = 0 \/ o = 8 -> cell_disj (a + o, 8) (lk, 8)).
  { intros o Ho. destruct Hlk as [->|(d & Hd & Ed & -> & _)]; [|specialize (Hda d ltac:(in_cells))]; unfold cell_disj, disj in *; cbn in *; lia. }
  destruct (snip s0 f f2 r H0 Hrt Hr (a + 16)) as [G1 G2].
  - apply sep_cons. split; [|done]. intros d Hd. apply word_in_cell; [lia|]. apply Hda. in_cells.
  - done.
  - intros c x Hc Hx. unfold f2. fold lk. destruct (decide (lk <= x < lk + 8)) as [Hin|Hn]; unfold stored; rewrite length_le_bytes; [by rewrite !decide_True by lia|].
    rewrite !decide_False by lia. unfold f1. apply stored_out. rewrite length_le_bytes.
    apply elem_of_cons in Hc as [->|Hc]; [unfold in_cell in Hx; cbn in Hx; lia|]. specialize (Hda c ltac:(in_cells)). unfold cell_disj, disj, in_cell in *. cbn in *. lia.
  - constructor.
    + cbn [shape]. split_and!; try done; try apply Hk.
      * apply holds_stored_disj; [|apply holds_stored]. rewrite !length_le_bytes. specialize (Hown 0 ltac:(auto)). rewrite Z.add_0_r in Hown. apply cell_disj_sym in Hown. exact Hown.
      * do 2 (apply holds_stored_disj; [rewrite !length_le_bytes; specialize (Hown 8 ltac:(auto)); unfold cell_disj, disj in *; cbn in *; lia|]). done.
      * apply (shape_ext s0 f); [|done]. intros c x Hc. apply Hout; [apply cell_disj_sym, Hda; in_cells|]. intros d Hd. by apply Hdx.
    + cbn [ptr]. eapply wordf_ext; [|exact Hw]. intros x Hx. symmetry. apply (Hout (link, 8)); [apply Hdl; by left| |done]. intros d Hd. apply Hdl. in_cells.
    + rewrite cells_node. apply same_outside_stored; [apply same_outside_stored; [done|exists (a, 24); split; [in_cells|cbn; lia]]|].
      destruct Hlk as [->|(d & Hd & Ed & -> & _)]; [exists (a, 24)|exists d]; (split; [in_cells|cbn; lia]).
Qed.

Lemma wp_unlink fuel link a k l r Q s0 f s : mem_ok s0 -> stepped s0 f s -> hangs s0 f link (Node a k l r) -> (height r <= fuel)%nat ->
  (forall f' v s', v <> 0 -> finished s0 f' v s' -> replaced s0 f link (Node a k l r) (replace_node a l r) f' -> Q (Some tt) s') ->
  wp (unlink_node fuel link a) Q s.
Proof.
  intros H0 Hs Hh Hf HQ. pose proof Hh as [Hsh [Hlk Hml] Hw _]. pose proof (mapped_range _ _ _ H0 Hml) as [? ?].
  destruct (node_words _ _ _ _ _ _ H0 Hsh) as (? & ? & Hm1 & Hm2 & Hm3 & Ea8 & Ea16). destruct Hsh as (_ & _ & W1 & W2 & W3 & _ & Hl & Hr).
  pose proof (shape_range _ _ _ H0 Hl). pose proof (shape_range _ _ _ H0 Hr). unfold unlink_node. rewrite Ea8, Ea16.
  eapply wp_rd64; [exact Hs|done|exact W2|lia|]. eapply wp_rd64; [exact Hs|done|exact W3|lia|].
  assert (Hcells : forall c, c ∈ cells l \/ c ∈ cells r -> c ∈ cells (Node a k l r)) by (intros c Hc; rewrite cells_node; in_cells).
  destruct (Z.eqb_spec (ptr l) 0) as [E0|Hnl].
  { assert (l = Tip) as -> by (destruct l; [done|]; by apply (ptr_nonzero _ _ _ Hl) in E0).
    eapply wp_wr64; [exact Hs|done|]. intros s1 Hs1. eapply wp_done; [exact Hs1|lia|]. intros s' Hfin. eapply HQ; [|exact Hfin|]; [lia|]. apply replaced_child; auto. }
  assert (l <> Tip) as Hlne by (by apply (ptr_nonzero _ _ _ Hl)). destruct (Z.eqb_spec (ptr r) 0) as [E0|Hnr].
  { assert (r = Tip) as -> by (destruct r; [done|]; by apply (ptr_nonzero _ _ _ Hr) in E0).
    eapply wp_wr64; [exact Hs|done|]. intros s1 Hs1. eapply wp_done; [exact Hs1|lia|]. intros s' Hfin. eapply HQ; [|exact Hfin|]; [lia|].
    replace (replace_node a l Tip) with l by (by destruct l). apply replaced_child; auto. }
  assert (r <> Tip) as Hrne by (by apply (ptr_nonzero _ _ _ Hr)). pose proof (replaced_two s0 f link a k l r H0 Hh Hrne) as Hrep.
  assert (Erep : replace_node a l r = Node a (remove_min r).1 l (remove_min r).2) by (destruct l; [done|]; destruct r; [done|]; unfold replace_node; by destruct (remove_min _)).
  destruct (leftmost_spec s0 f r H0 Hr Hrne (a + 16)) as [Lc [Lp Lm] [Lk Lkr] [Lr Lrr] Ll].
  destruct r as [|ar kr lr rr] eqn:Er; [done|]. pose proof Hr as (_ & _ & _ & Wr & _ & _ & Hlr & _). pose proof (shape_range _ _ _ H0 Hlr).
  destruct (node_words _ _ _ _ _ _ H0 Hr) as (? & ? & _ & Hmr & _ & Er8 & _). cbn [ptr]. rewrite Er8. eapply wp_rd64; [exact Hs|done|exact Wr|lia|].
  apply (wp_pure _ _ (Some (min_cell (a + 16) (Node ar kr lr rr)))). { apply (successor_spec s0 f s H0 Hs); [cbn [height] in Hf; lia|done]. }
  rewrite <- Er in *. destruct (min_cell (a + 16) r) as [lk p] eqn:Emc. cbn [fst snd] in *. pose proof (mapped_range _ _ _ H0 Lm) as [? ?].
  eapply wp_rd64; [exact Hs|eapply mapped_sub; [exact Lm|lia..]|exact Lk|done|]. eapply wp_wr64; [exact Hs|done|]. intros s1 Hs1.
  rewrite (u64_small (p + 16)) by u64_lia. eapply wp_rd64; [exact Hs1|eapply mapped_sub; [exact Lm|lia..]| |exact Lrr|].
  { apply holds_stored_disj; [|exact Lr]. rewrite !length_le_bytes. pose proof (hg_sep _ _ _ _ Hh) as Hsp. rewrite cells_node in Hsp.
    apply sep_cons in Hsp as [_ [Hda _]%sep_cons]. specialize (Hda (p, 24) ltac:(in_cells)).
    unfold cell_disj, disj in *. cbn in *. lia. }
  assert (Hmlk : mapped lk 8 s0). { destruct Ll as [->|(d & _ & _ & -> & _ & Hmd)]; [done|]. eapply mapped_sub; [exact Hmd|lia..]. }
  eapply wp_wr64; [exact Hs1|exact Hmlk|]. intros s2 Hs2. eapply wp_done; [exact Hs2|lia|]. intros s' Hfin. eapply HQ; [|exact Hfin|]; [lia|]. by rewrite Erep.
Qed.

(** What tdelete does to a tree that hangs at [link]. *)
Definition deleted s0 (f : Z -> option Z) key link (t : tree) (Q : option unit -> S -> Prop) : Prop :=
  (forall s', tree_find cmp key t = None -> finished s0 f 0 s' -> Q (Some tt) s') /\
  (forall f' v s', tree_find cmp key t <> None -> v <> 0 -> finished s0 f' v s' -> replaced s0 f link t (tree_remove cmp key t) f' -> Q (Some tt) s').

Lemma hangs_left s0 f link a k l r : mem_ok s0 -> hangs s0 f link (Node a k l r) -> hangs s0 f (a + 8) l.
Proof.
  intros H0 [Hsh _ _ Hsep]. destruct (node_words _ _ _ _ _ _ H0 Hsh) as (? & ? & _ & ? & _). destruct Hsh as (_ & _ & _ & W2 & _ & _ & Hl & _).
  rewrite cells_node in Hsep. apply sep_cons in Hsep as [_ [Hda Hs]%sep_cons]. apply sep_app in Hs as (_ & Hsl & _).
  constructor; [done|split; [lia|done]|done|]. apply sep_cons. split; [|done]. intros d Hd. apply word_in_cell; [lia|]. apply Hda. in_cells.
Qed.
Lemma hangs_right s0 f link a k l r : mem_ok s0 -> hangs s0 f link (Node a k l r) -> hangs s0 f (a + 16) r.
Proof.
  intros H0 [Hsh _ _ Hsep]. destruct (node_words _ _ _ _ _ _ H0 Hsh) as (? & ? & _ & _ & ? & _). destruct Hsh as (_ & _ & _ & _ & W3 & _ & _ & Hr).
  rewrite cells_node in Hsep. apply sep_cons in Hsep as [_ [Hda Hs]%sep_cons]. apply sep_app in Hs as (_ & _ & Hsr).
  constructor; [done|split; [lia|done]|done|]. apply sep_cons. split; [|done]. intros d Hd. apply word_in_cell; [lia|]. apply Hda. in_cells.
Qed.

(** A replacement further down is one here. *)
Lemma replaced_left s0 f link a k l r l' f' : hangs s0 f link (Node a k l r) -> replaced s0 f (a + 8) l l' f' -> replaced s0 f link (Node a k l r) (Node a k l' r) f'.
Proof.
  intros [Hsh _ Hw Hsep] [G1 G2 G3]. rewrite cells_node in Hsep. apply sep_cons in Hsep as [Hdl [Hda Hs]%sep_cons]. apply sep_app in Hs as (Hdx & _ & _).
  destruct Hsh as (? & ? & W1 & W2 & W3 & [? ?] & Hl & Hr).
  assert (Hword : forall c v, c = link \/ c = a \/ c = a + 16 -> wordf f c v -> wordf f' c v).
  { intros c v Hc. apply (same_outside_word _ _ _ _ _ G3). intros d [->|Hd]%elem_of_cons.
    - specialize (Hdl (a, 24) ltac:(in_cells)). unfold cell_disj, disj in *. cbn in *. lia.
    - pose proof (Hdl d ltac:(in_cells)). pose proof (Hda d ltac:(in_cells)). unfold cell_disj, disj in *. cbn in *. destruct Hc as [-> | [-> | ->]]; lia. }
  constructor.
  - cbn [shape]. split_and!; try done; try (apply Hword; auto). eapply shape_same; [exact G3| |done]. intros c d Hc [->|Hd]%elem_of_cons; apply cell_disj_sym.
    + apply word_in_cell; [lia|]. apply Hda. in_cells.
    + by apply Hdx.
  - apply Hword; auto.
  - eapply same_outside_weaken; [exact G3|]. rewrite cells_node. intros c [->|Hc]%elem_of_cons; [exists (a, 24)|exists c]; (split; [in_cells|cbn; lia]).
Qed.
Lemma replaced_right s0 f link a k l r r' f' : hangs s0 f link (Node a k l r) -> replaced s0 f (a + 16) r r' f' -> replaced s0 f link (Node a k l r) (Node a k l r') f'.
Proof.
  intros [Hsh _ Hw Hsep] [G1 G2 G3]. rewrite cells_node in Hsep. apply sep_cons in Hsep as [Hdl [Hda Hs]%sep_cons]. apply sep_app in Hs as (Hdx & _ & _).
  destruct Hsh as (? & ? & W1 & W2 & W3 & [? ?] & Hl & Hr).
  assert (Hword : forall c v, c = link \/ c = a \/ c = a + 8 -> wordf f c v -> wordf f' c v).
  { intros c v Hc. apply (same_outside_word _ _ _ _ _ G3). intros d [->|Hd]%elem_of_cons.
    - specialize (Hdl (a, 24) ltac:(in_cells)). unfold cell_disj, disj in *. cbn in *. lia.
    - pose proof (Hdl d ltac:(in_cells)). pose proof (Hda d ltac:(in_cells)). unfold cell_disj, disj in *. cbn in *. destruct Hc as [-> | [-> | ->]]; lia. }
  constructor.
  - cbn [shape]. split_and!; try done; try (apply Hword; auto). eapply shape_same; [exact G3| |done]. intros c d Hc [->|Hd]%elem_of_cons.
    + apply cell_disj_sym, word_in_cell; [lia|]. apply Hda. in_cells.
    + by apply Hdx.
  - apply Hword; auto.
  - eapply same_outside_weaken; [exact G3|]. rewrite cells_node. intros c [->|Hc]%elem_of_cons; [exists (a, 24)|exists c]; (split; [in_cells|cbn; lia]).
Qed.

Lemma tdelete_loop_spec key Q s0 f : mem_ok s0 -> data_same f -> forall t fuel link s, (height t < fuel)%nat -> stepped s0 f s -> hangs s0 f link t ->
  deleted s0 f key link t Q -> wp (tdelete_loop fuel key compar link (ptr t)) Q s.
Proof.
  intros H0 Hd t. induction t as [|a k l IHl r IHr]; intros fuel link s Hf Hs Hh (Q1 & Q2); (destruct fuel as [|fuel]; [lia|]); cbn [tdelete_loop ptr height] in *.
  { eapply wp_done; [exact Hs|unfold two64; lia|]. intros s'. by apply Q1. }
  pose proof (hangs_left _ _ _ _ _ _ _ H0 Hh) as Hhl. pose proof (hangs_right _ _ _ _ _ _ _ H0 Hh) as Hhr. pose proof (hg_shape _ _ _ _ Hh) as Hsh.
  destruct (node_words _ _ _ _ _ _ H0 Hsh) as (? & ? & Hm1 & Hm2 & Hm3 & -> & ->). destruct Hsh as (_ & _ & W1 & W2 & W3 & Hk & Hl & Hr).
  pose proof (shape_range _ _ _ H0 Hl). pose proof (shape_range _ _ _ H0 Hr).
  rewrite (proj2 (Z.eqb_neq a 0)) by lia. eapply wp_rd64; [exact Hs|done|exact W1|done|].
  eapply wp_compar; [exact Hs|done|]. intros s1 Hs1. cbn [tree_find tree_remove] in Q1, Q2. destruct (Z.eqb_spec (cmp key k) 0).
  { eapply wp_unlink; [done|exact Hs1|exact Hh|lia|]. intros f' v s' Hv Hfin Hrep. by apply (Q2 f' v s'). }
  destruct (_ <? _).
  - eapply wp_rd64_over; [exact Hs1|done|exact W2|lia|]. apply IHl; [lia|done..|]. split; [done|]. intros f' v s' Hne Hv Hfin Hrep.
    apply (Q2 f' v s'); [done..|]. by apply replaced_left.
  - eapply wp_rd64_over; [exact Hs1|done|exact W3|lia|]. apply IHr; [lia|done..|]. split; [done|]. intros f' v s' Hne Hv Hfin Hrep.
    apply (Q2 f' v s'); [done..|]. by apply replaced_right.
Qed.

(** * The contract *)

Context `{C : !Compares cmp}.

(** A search tree whose root pointer is at [rootp]. *)
Record tree_ok rootp (t : tree) s : Prop := {
  to_sane : sane s;
  to_heap : heap_ok s;
  to_hangs : hangs s (byte_at s) rootp t;
  to_ordered : ordered cmp t;
  to_sep : forall c d, c ∈ data -> d ∈ (rootp, 8) :: cells t -> cell_disj c d;
  to_owned : forall c, c ∈ (rootp, 8) :: cells t ++ data -> owned c.1 c.2 s;
  to_data : data_same (byte_at s);
}.

(** The same tree, seen from a later state. *)
Lemma shape_moved s s' f t : (forall a n, mapped a n s' <-> mapped a n s) -> (forall x, byte_at s' x = f x) -> shape s f t -> shape s' (byte_at s') t.
Proof.
  intros Hm Hb Ht. apply (shape_ext s' f); [intros c x _ _; apply Hb|]. clear Hb.
  induction t as [|a k l IHl r IHr]; [done|]. destruct Ht as (? & ? & ? & ? & ? & [? ?] & ? & ?). cbn [shape]. split_and!; auto. by apply Hm.
Qed.

Lemma tree_ok_after rootp t t' s f' v s' : tree_ok rootp t s -> finished s f' v s' -> shape s f' t' -> wordf f' rootp (ptr t') -> ordered cmp t' ->
  sep (cells t') -> (forall c, c ∈ cells t' -> (cell_disj (rootp, 8) c /\ (forall d, d ∈ data -> cell_disj d c)) /\ owned c.1 c.2 s') ->
  same_outside ((rootp, 8) :: cells t' ++ cells t) (byte_at s) f' -> tree_ok rootp t' s'.
Proof.
  intros [T1 T2 [T3 [T4 T4'] T5 T6] T7 T8 T9 T10] [[F1 F2 F3 F4 F5 F6] F7 F8] Hsh Hw Ho Hsep Hc Hsame. constructor; try done.
  - constructor; [by eapply shape_moved|split; [done|by apply F2]| |].
    + eapply wordf_ext; [|exact Hw]. intros x _. symmetry. apply F4.
    + apply sep_cons. split; [|done]. intros d Hd. apply (proj1 (proj1 (Hc d Hd))).
  - intros c d Hcd [->|Hd]%elem_of_cons; [apply T8; [done|by left]|]. by apply (proj2 (proj1 (Hc d Hd))).
  - intros c [->|[Hd|Hd]%elem_of_app]%elem_of_cons; [apply F8, (T9 (rootp, 8)); by left|apply (proj2 (Hc c Hd))|]. apply F8, T9. apply elem_of_cons; right; apply elem_of_app; by right.
  - intros c x Hcd Hx. rewrite F4. rewrite Hsame; [by apply (T10 c)|]. apply (outside_disj _ c); [|done].
    intros d [->|[Hd|Hd]%elem_of_app]%elem_of_cons; [apply T8; [done|by left]|by apply (proj2 (proj1 (Hc d Hd)))|]. apply T8; [done|]. by apply elem_of_cons; right.
Qed.

(** Registers at a call. *)
Definition tree_call key rootp s : Prop := getr X0 s = key /\ getr X1 s = rootp /\ getr X2 s = compar /\ 0 <= key < two64.

(** The node at [p] holds [k]. *)
Definition node_holds s (t : tree) (p k : Z) : Prop := (p, 24) ∈ cells t /\ wordf (byte_at s) p k.

Lemma find_node s f key t a k : shape s f t -> tree_find cmp key t = Some (a, k) -> (a, 24) ∈ cells t /\ wordf f a k.
Proof.
  induction t as [|a' k' l IHl r IHr]; [done|]. intros (_ & _ & W & _ & _ & _ & Hl & Hr). cbn [tree_find]. rewrite cells_node.
  destruct (_ =? _); [intros [= -> ->]; split; [by left|done]|].
  destruct (_ <? _); [intros [? ?]%IHl|intros [? ?]%IHr]; try done; (split; [in_cells|done]).
Qed.

Lemma insert_word s f key p t : tree_find cmp key t = None -> shape s f (tree_insert cmp key p t) -> wordf f p key.
Proof.
  induction t as [|a k l IHl r IHr]; cbn [tree_find tree_insert]; [by intros _ (_ & _ & ? & _)|]. destruct (_ =? _); [done|].
  destruct (_ <? _); intros Hf (_ & _ & _ & _ & _ & _ & Hl & Hr); auto.
Qed.

Lemma tree_same rootp t s v s' : tree_ok rootp t s -> finished s (byte_at s) v s' -> tree_ok rootp t s'.
Proof.
  intros Ht Hf. pose proof Ht as [_ _ [T3 _ T5 [T6 T6']%sep_cons] T7 T8 T9 _]. eapply tree_ok_after; try done.
  intros c Hc. split; [split; [by apply T6|]|apply (fi_owned _ _ _ _ Hf), T9; in_cells]. intros d Hd. apply T8; [done|in_cells].
Qed.

(** What the three calls promise, on the sequence of keys. *)
Definition tfind_post rootp (t : tree) key s (r : option unit) s' : Prop :=
  r = Some tt /\ tree_ok rootp t s' /\ (forall x, byte_at s' x = byte_at s x) /\
  match seq_find cmp key (keys t) with Some k => node_holds s' t (getr X0 s') k | None => getr X0 s' = 0 end.
Definition tsearch_post rootp (t : tree) key s (r : option unit) s' : Prop :=
  r = Some tt /\
  match seq_find cmp key (keys t) with
  | Some k => tree_ok rootp t s' /\ node_holds s' t (getr X0 s') k /\ (forall x, byte_at s' x = byte_at s x)
  | None => (getr X0 s' = 0 /\ exhausted 24 8 s' /\ tree_ok rootp t s' /\ forall x, byte_at s' x = byte_at s x) \/
      exists t', tree_ok rootp t' s' /\ keys t' = seq_insert cmp key (keys t) /\ node_holds s' t' (getr X0 s') key /\
        same_outside ((getr X0 s', 24) :: (rootp, 8) :: cells t) (byte_at s) (byte_at s')
  end.
Definition tdelete_post rootp (t : tree) key s (r : option unit) s' : Prop :=
  r = Some tt /\
  match seq_find cmp key (keys t) with
  | Some _ => getr X0 s' <> 0 /\ exists t', tree_ok rootp t' s' /\ keys t' = seq_remove cmp key (keys t) /\
      same_outside ((rootp, 8) :: cells t) (byte_at s) (byte_at s')
  | None => getr X0 s' = 0 /\ tree_ok rootp t s' /\ forall x, byte_at s' x = byte_at s x
  end.

Lemma tfind_refines rootp t key fuel s : tree_ok rootp t s -> tree_call key rootp s -> (height t < fuel)%nat -> wp (tfind fuel) (tfind_post rootp t key s) s.
Proof.
  intros Ht (E0 & E1 & E2 & Hk) Hf. pose proof Ht as [T1 T2 [T3 [T4 T4'] T5 _] T7 _ _ T10]. pose proof (sane_mem _ T1) as H0.
  unfold tfind, tfind_post. do 3 apply wp_reg. rewrite E0, E1, E2, (proj2 (Z.eqb_neq rootp 0)) by lia. pose proof (shape_range _ _ _ H0 T3).
  eapply wp_rd64; [by apply stepped_refl|done|exact T5|lia|]. eapply (tfind_loop_spec key _ s (byte_at s)); [done|done|done|by apply stepped_refl|done|].
  intros s' Hfin. pose proof (tree_same _ _ _ _ _ Ht Hfin) as Ht'. destruct Hfin as [[_ _ _ F4 _ F6] _ _]. split_and!; try done.
  rewrite <- (find_spec cmp key t T7). unfold found_at in F6. destruct (tree_find cmp key t) as [[a k]|] eqn:Ef; cbn; [|done]. rewrite F6.
  by apply (find_node s' (byte_at s') key t); [apply Ht'|].
Qed.

Lemma tsearch_refines rootp t key fuel s : tree_ok rootp t s -> tree_call key rootp s -> (height t < fuel)%nat -> wp (tsearch fuel) (tsearch_post rootp t key s) s.
Proof.
  intros Ht (E0 & E1 & E2 & Hk) Hf. pose proof Ht as [T1 T2 Th T7 T8 T9 T10]. pose proof Th as [T3 [T4 T4'] T5 [T6 T6']%sep_cons]. pose proof (sane_mem _ T1) as H0.
  unfold tsearch, tsearch_post. do 3 apply wp_reg. rewrite E0, E1, E2, (proj2 (Z.eqb_neq rootp 0)) by lia. pose proof (shape_range _ _ _ H0 T3).
  eapply wp_rd64; [by apply stepped_refl|done|exact T5|lia|]. rewrite <- (find_spec cmp key t T7).
  assert (Hadd : forall p f' s', tree_find cmp key t = None -> fresh_node s s' p -> finished s f' p s' -> shape s f' (tree_insert cmp key p t) ->
    wordf f' rootp (ptr (tree_insert cmp key p t)) -> same_outside ((p, 24) :: (rootp, 8) :: cells t) (byte_at s) f' ->
    exists t', tree_ok rootp t' s' /\ keys t' = seq_insert cmp key (keys t) /\ node_holds s' t' (getr X0 s') key /\
      same_outside ((getr X0 s', 24) :: (rootp, 8) :: cells t) (byte_at s) (byte_at s')).
  { intros p f' s' Hnone Hp Hfin Hsh Hw Hout. pose proof (find_spec cmp key t T7) as Hsf. rewrite Hnone in Hsf. symmetry in Hsf. cbn in Hsf.
    assert (Hfr : forall c, c ∈ (rootp, 8) :: cells t ++ data -> cell_disj c (p, 24)) by (by apply (fresh_apart s s')).
    pose proof (proj1 (proj2 (proj2 Hp))) as Hop. exists (tree_insert cmp key p t). split_and!.
    - eapply (tree_ok_after rootp t); try done; [by apply ordered_insert|apply sep_insert; [done|]; intros c Hc; apply Hfr; in_cells| |].
      + intros c [->|Hc]%cells_insert.
        * split; [split; [apply Hfr; by left|]|done]. intros d Hd. apply Hfr. in_cells.
        * split; [split; [by apply T6|]|apply (fi_owned _ _ _ _ Hfin), T9; in_cells]. intros d Hd. apply T8; [done|in_cells].
      + eapply same_outside_weaken; [exact Hout|]. intros c Hc. exists c. split; [|lia]. apply elem_of_cons in Hc as [->|Hc]; [|rewrite elem_of_cons in Hc; in_cells].
        apply elem_of_cons; right. apply elem_of_app; left. by apply insert_cell.
    - by apply insert_spec.
    - pose proof (fi_returned _ _ _ _ Hfin) as [_ _ _ F4 _ F6]. rewrite F6. split; [by apply insert_cell|].
      eapply wordf_ext; [|by eapply insert_word]. intros x _. symmetry. apply F4.
    - pose proof (fi_returned _ _ _ _ Hfin) as [_ _ _ F4 _ F6]. rewrite F6. intros x Hx. rewrite F4. by apply Hout. }
  destruct (Z.eqb_spec (ptr t) 0) as [Ez|Hne].
  - assert (t = Tip) as -> by (destruct t; [done|]; by apply (ptr_nonzero _ _ _ T3) in Ez).
    eapply wp_new_node; [done|by apply stepped_refl|done|exact T5| |].
    + intros s' Hfin Hex. split; [done|]. left. split; [apply (fi_returned _ _ _ _ Hfin)|]. split_and!; [done|by eapply tree_same|apply (fi_returned _ _ _ _ Hfin)].
    + intros p s' Hp Hfin. split; [done|]. right. assert (Hd : disj p 24 rootp 8) by (apply (proj2 (proj2 (proj2 Hp)) rootp 8), (T9 (rootp, 8)); by left).
      destruct (node_added_shape s s' (byte_at s) p key rootp Hp Hd Hk) as [N1 N2]. by eapply Hadd, node_added_outside.
  - assert (t <> Tip) as Htn by (by apply (ptr_nonzero _ _ _ T3)).
    apply (tsearch_loop_spec key _ s (byte_at s)); [done|done|done|done|done|by apply stepped_refl|done|split; [done|intros c Hc; apply T9; in_cells]|].
    split_and!.
    + intros s' Hsome Hfin. split; [done|]. destruct (tree_find cmp key t) as [[a k]|] eqn:Ef; [|done]. cbn.
      pose proof (fi_returned _ _ _ _ Hfin) as [_ _ _ F4 _ F6]. unfold found_at in F6. rewrite Ef in F6. split_and!; [by eapply tree_same| |done]. rewrite F6.
      apply (find_node s' (byte_at s') key t); [|done]. by apply (tree_same _ _ _ _ _ Ht Hfin).
    + intros s' -> Hfin Hex. split; [done|]. left. split; [apply (fi_returned _ _ _ _ Hfin)|]. split_and!; [done|by eapply tree_same|apply (fi_returned _ _ _ _ Hfin)].
    + intros p f' s' Hnone Hp Hfin Hsh Hout. split; [done|]. rewrite Hnone. right. apply (Hadd p f' s'); try done.
      * rewrite ptr_insert by done. eapply same_outside_word; [exact Hout| |exact T5]. intros d [->|Hd]%elem_of_cons; [|by apply T6].
        apply (fresh_apart s s' p [(rootp, 8)] Hp); [|by left]. intros c ->%list_elem_of_singleton. apply T9. by left.
      * eapply same_outside_weaken; [exact Hout|]. intros c Hc. exists c. split; [|lia]. apply elem_of_cons in Hc as [->|Hc]; in_cells.
Qed.

Lemma tdelete_refines rootp t key fuel s : tree_ok rootp t s -> tree_call key rootp s -> (height t < fuel)%nat -> wp (tdelete fuel) (tdelete_post rootp t key s) s.
Proof.
  intros Ht (E0 & E1 & E2 & Hk) Hf. pose proof Ht as [T1 T2 Th T7 T8 T9 T10]. pose proof Th as [T3 [T4 T4'] T5 [T6 T6']%sep_cons]. pose proof (sane_mem _ T1) as H0.
  unfold tdelete, tdelete_post. do 3 apply wp_reg. rewrite E0, E1, E2, (proj2 (Z.eqb_neq rootp 0)) by lia. pose proof (shape_range _ _ _ H0 T3).
  eapply wp_rd64; [by apply stepped_refl|done|exact T5|lia|]. rewrite <- (find_spec cmp key t T7).
  assert (Hnot : forall s', finished s (byte_at s) 0 s' -> getr X0 s' = 0 /\ tree_ok rootp t s' /\ forall x, byte_at s' x = byte_at s x).
  { intros s' Hfin. split_and!; [apply (fi_returned _ _ _ _ Hfin)|by eapply tree_same|apply (fi_returned _ _ _ _ Hfin)]. }
  destruct (Z.eqb_spec (ptr t) 0) as [Ez|Hne].
  { assert (t = Tip) as -> by (destruct t; [done|]; by apply (ptr_nonzero _ _ _ T3) in Ez). eapply wp_done; [by apply stepped_refl|unfold two64; lia|].
    intros s' Hfin. split; [done|]. by apply Hnot. }
  apply (tdelete_loop_spec key _ s (byte_at s)); [done|done|done|by apply stepped_refl|done|]. split.
  - intros s' -> Hfin. split; [done|]. by apply Hnot.
  - intros f' v s' Hsome Hv Hfin [G1 G2 G3]. split; [done|]. destruct (tree_find cmp key t) as [[a k]|] eqn:Ef; [|done]. cbn.
    pose proof (fi_returned _ _ _ _ Hfin) as [_ _ _ F4 _ F6]. rewrite F6. split; [done|]. exists (tree_remove cmp key t).
    pose proof (cells_remove cmp key t) as Hsub. split_and!; [|by apply remove_spec|intros x Hx; rewrite F4; by apply G3].
    eapply (tree_ok_after rootp t); try done; [by apply ordered_remove|by eapply sep_sublist| |].
    + intros c Hc. assert (Hct : c ∈ cells t) by (by eapply elem_of_sublist).
      split; [split; [by apply T6|]|apply (fi_owned _ _ _ _ Hfin), T9; in_cells]. intros d Hd. apply T8; [done|in_cells].
    + eapply same_outside_weaken; [exact G3|]. intros c Hc. exists c. split; [|lia]. apply elem_of_cons in Hc as [->|Hc]; in_cells.
Qed.

(** C27: A binary tree in guest memory whose keys are in the order of the guest's
    comparison is a sorted sequence, and the three calls work on it as such, given
    fuel for its height: tfind changes no byte and returns the node whose key
    compares equal, or null; tsearch does the same if there is one and otherwise
    adds a node with the key in its place, in a block of the heap that meets
    nothing in use; it returns null and changes nothing only if the heap has no room for
    the 24 bytes of a node at a multiple of 8;
    tdelete removes exactly the key that compares equal and says whether there was
    one.  The result is an ordered tree again, and no byte outside the root pointer,
    the nodes and the new block changes. *)
Theorem search_tree_refines rootp t key fuel s : tree_ok rootp t s -> tree_call key rootp s -> (height t < fuel)%nat ->
  wp (tfind fuel) (tfind_post rootp t key s) s /\ wp (tsearch fuel) (tsearch_post rootp t key s) s /\ wp (tdelete fuel) (tdelete_post rootp t key s) s.
Proof. intros. split_and!; [by apply tfind_refines|by apply tsearch_refines|by apply tdelete_refines]. Qed.

End Trees.
