(* ===== verification/HleWalkSpec.v ===== *)
(** twalk and tdestroy of hle_search.cpp: which nodes they visit, in which order and
    with which arguments. *)

From S2P Require Import Prelude Env MemoryManager MemorySpec Machine HostAccess HleMonad SyscallHandler HleSearch SearchTree HleSearchSpec.

(** * The visits POSIX asks for: node, kind of visit, depth *)

Fixpoint posix_visits (t : tree) (depth : Z) : list (Z * Z * Z) :=
  match t with
  | Tip => []
  | Node a _ l r =>
      match l, r with
      | Tip, Tip => [(a, LEAF, depth)]
      | _, _ => (a, PREORDER, depth) :: posix_visits l (depth + 1) ++ (a, POSTORDER, depth) :: posix_visits r (depth + 1) ++ [(a, ENDORDER, depth)]
      end
  end.

(** The level twalk reports: the depth and the number of leaves visited before. *)
Fixpoint with_leaves (n : Z) (evs : list (Z * Z * Z)) : list (Z * Z * Z) :=
  match evs with
  | [] => []
  | (a, v, d) :: evs => (a, v, d + n) :: with_leaves (if v =? LEAF then n + 1 else n) evs
  end.

Fixpoint leaves (t : tree) : Z :=
  match t with
  | Tip => 0
  | Node _ _ l r => match l, r with Tip, Tip => 1 | _, _ => leaves l + leaves r end
  end.

(** Rounds of the loop. *)
Fixpoint walk_cost (t : tree) : nat :=
  match t with
  | Tip => 0
  | Node _ _ l r => match l, r with Tip, Tip => 1 | _, _ => 3 + (walk_cost l + walk_cost r) end
  end.

Definition inner (l r : tree) : Prop := l <> Tip \/ r <> Tip.

Lemma posix_inner a k l r d : inner l r -> posix_visits (Node a k l r) d =
  (a, PREORDER, d) :: posix_visits l (d + 1) ++ (a, POSTORDER, d) :: posix_visits r (d + 1) ++ [(a, ENDORDER, d)].
Proof. intros [H|H]; destruct l, r; done. Qed.
Lemma leaves_inner a k l r : inner l r -> leaves (Node a k l r) = leaves l + leaves r.
Proof. intros [H|H]; destruct l, r; done. Qed.
Lemma cost_inner a k l r : inner l r -> walk_cost (Node a k l r) = (3 + (walk_cost l + walk_cost r))%nat.
Proof. intros [H|H]; destruct l, r; done. Qed.
Lemma inner_dec l r : (l = Tip /\ r = Tip) \/ inner l r.
Proof. destruct l, r; [by left|right; by right|right; by left..]. Qed.

(** The leaves among the visits. *)
Fixpoint leaf_visits (evs : list (Z * Z * Z)) : Z :=
  match evs with [] => 0 | (_, v, _) :: evs => (if v =? LEAF then 1 else 0) + leaf_visits evs end.

Lemma with_leaves_app xs ys : forall n, with_leaves n (xs ++ ys) = with_leaves n xs ++ with_leaves (n + leaf_visits xs) ys.
Proof.
  induction xs as [|[[a v] d] xs IH]; intros n; cbn; [by rewrite Z.add_0_r|]. f_equal. rewrite IH. do 2 f_equal. destruct (v =? LEAF); lia.
Qed.

Lemma leaf_visits_app xs ys : leaf_visits (xs ++ ys) = leaf_visits xs + leaf_visits ys.
Proof. induction xs as [|[[a v] d] xs IH]; cbn; [done|]. rewrite IH. lia. Qed.

Lemma leaf_visits_tree t : forall d, leaf_visits (posix_visits t d) = leaves t.
Proof.
  induction t as [|a k l IHl r IHr]; intros d; [done|]. destruct (inner_dec l r) as [[-> ->]|Hi]; [done|].
  rewrite posix_inner, leaves_inner by done. cbn [leaf_visits]. rewrite leaf_visits_app. cbn [leaf_visits]. rewrite leaf_visits_app, IHl, IHr. cbn. lia.
Qed.

(** The reports for an inner node. *)
Lemma with_leaves_inner a k l r d n : inner l r -> with_leaves n (posix_visits (Node a k l r) d) =
  (a, PREORDER, d + n) :: with_leaves n (posix_visits l (d + 1)) ++ (a, POSTORDER, d + (n + leaves l)) ::
  with_leaves (n + leaves l) (posix_visits r (d + 1)) ++ [(a, ENDORDER, d + (n + leaves l + leaves r))].
Proof.
  intros Hi. rewrite posix_inner by done. cbn [with_leaves]. change (PREORDER =? LEAF) with false. cbn iota. f_equal.
  rewrite with_leaves_app, leaf_visits_tree. f_equal. cbn [with_leaves]. change (POSTORDER =? LEAF) with false. cbn iota. f_equal.
  by rewrite with_leaves_app, leaf_visits_tree.
Qed.

Section Walk.
Context {S : Type} `{M : !Machine S, L : !MemLaws S, R : !RegFileLaws S, V : !HostView S, HL : !HostLaws S, G : !GuestFun S}.
Implicit Types s : S.

(** The calls of a list of visits, one after the other. *)
Fixpoint run_calls (action : Z) (evs : list (Z * Z * Z)) : hle S unit :=
  match evs with
  | [] => mret tt
  | (node, visit, level) :: evs => call_function_safe action [node; visit; u64 level];; run_calls action evs
  end.

Lemma run_calls_app action xs ys s s1 s2 : run_calls action xs s = Ret tt s1 -> run_calls action ys s1 = Ret tt s2 -> run_calls action (xs ++ ys) s = Ret tt s2.
Proof.
  revert s. induction xs as [|[[a v] l] xs IH]; intros s; [by intros [= ->]|]. cbn [run_calls app]. unfold mbind, hle_bind.
  destruct (call_function_safe _ _ s); [apply IH|done..].
Qed.

Lemma run_calls_cons action a v l evs s w s1 r : call_function_safe action [a; v; u64 l] s = Ret w s1 -> run_calls action evs s1 = r -> run_calls action ((a, v, l) :: evs) s = r.
Proof. intros E1 E2. cbn [run_calls]. unfold mbind, hle_bind. by rewrite E1. Qed.

(** Calling [action] keeps [I], and [I] keeps the tree. *)
Context (I : S -> Prop) (action : Z).
Definition acts : Prop := forall args s, I s -> exists v s', call_function_safe action args s = Ret v s' /\ I s'.
Definition tree_stays (t : tree) : Prop := forall s, I s -> sane s /\ shape s (byte_at s) t.
Context (Hacts : acts).

Lemma stays_node a k l r : tree_stays (Node a k l r) -> tree_stays l /\ tree_stays r /\ 
  (forall s, I s -> rd64 (a ⊕ 8) s = Ret (ptr l) s /\ rd64 (a ⊕ 16) s = Ret (ptr r) s).
Proof.
  intros Ht. split_and!; intros s Hs; destruct (Ht s Hs) as [Hsn Hsh]; try (split; [done|]; by apply Hsh).
  pose proof (sane_mem _ Hsn) as H0. destruct (node_words _ _ _ _ _ _ H0 Hsh) as (_ & _ & _ & Hm2 & Hm3 & -> & ->).
  destruct Hsh as (_ & _ & _ & W2 & W3 & _ & Hl & Hr). pose proof (shape_range _ _ _ H0 Hl). pose proof (shape_range _ _ _ H0 Hr).
  assert (Hrd : forall b v, mapped b 8 s -> wordf (byte_at s) b v -> 0 <= v < two64 -> rd64 b s = Ret v s).
  { intros b v Hm Hw Hv. unfold rd64. pose proof (length_le_bytes 8 v) as Hlen. pose proof (gread_holds b (le_bytes 8 v) s H0) as Hg.
    rewrite Hlen in Hg. change (Z.of_nat 8) with 8 in Hg. by rewrite Hg, le_value_word. }
  split; apply Hrd; done || lia.
Qed.

Lemma tip_dec (t : tree) : ptr t = 0 /\ t = Tip \/ t <> Tip.
Proof. destruct t; [by left|by right]. Qed.

(** One call, then the rest. *)
Lemma act_step {B} args (k : Z -> hle S B) s : I s -> exists v s1, call_function_safe action args s = Ret v s1 /\ I s1 /\ (call_function_safe action args ≫= k) s = k v s1.
Proof. intros Hs. destruct (Hacts args s Hs) as (v & s1 & E & H1). exists v, s1. unfold mbind, hle_bind. by rewrite E. Qed.

(** What the loop does with a node on top of its stack. *)
Definition walks (t : tree) : Prop := forall fuel rest d n s, I s ->
  exists s', run_calls action (with_leaves n (posix_visits t d)) s = Ret tt s' /\ I s' /\
    twalk_loop (walk_cost t + fuel) action ((ptr t, 0) :: rest) (d + n) s = twalk_loop fuel action rest (d + n + leaves t - 1) s'.

(** Into a child that may be missing. *)
Lemma descend c : tree_stays c -> (c <> Tip -> walks c) -> forall fuel st d n s, I s ->
  exists s', run_calls action (with_leaves n (posix_visits c (d + 1))) s = Ret tt s' /\ I s' /\
    (if negb (ptr c =? 0) then twalk_loop (walk_cost c + fuel) action ((ptr c, 0) :: st) (d + n + 1) s
     else twalk_loop (walk_cost c + fuel) action st (d + n) s) = twalk_loop fuel action st (d + (n + leaves c)) s'.
Proof.
  intros Hst Hw fuel st d n s Hs. destruct (tip_dec c) as [[_ ->]|Hne].
  { exists s. cbn. split_and!; [done..|]. f_equal. lia. }
  destruct (Hst s Hs) as [_ Hsh]. rewrite (proj2 (Z.eqb_neq (ptr c) 0)) by (by apply (ptr_nonzero _ _ _ Hsh)). cbn [negb].
  destruct (Hw Hne fuel st (d + 1) n s Hs) as (s' & E1 & H1 & E2). exists s'. split_and!; [done..|].
  replace (d + n + 1) with (d + 1 + n) by lia. rewrite E2. f_equal. lia.
Qed.

Lemma twalk_loop_spec t : tree_stays t -> t <> Tip -> walks t.
Proof.
  induction t as [|a k l IHl r IHr]; intros Ht Hne fuel rest d n s Hs; [done|]. clear Hne. destruct (stays_node _ _ _ _ Ht) as (Hl & Hr & Hrd).
  assert (Hread : forall B (k : Z -> Z -> hle S B) s, I s -> (left ← rd64 (a ⊕ 8); right ← rd64 (a ⊕ 16); k left right) s = k (ptr l) (ptr r) s).
  { intros B kk s' Hs'. destruct (Hrd s' Hs') as [E1 E2]. unfold mbind, hle_bind. by rewrite E1, E2. }
  destruct (inner_dec l r) as [[-> ->]|Hi].
  { cbn [walk_cost Nat.add twalk_loop ptr leaves posix_visits with_leaves run_calls]. rewrite Hread by done. cbn [ptr Z.eqb andb].
    destruct (act_step [a; LEAF; u64 (d + n)] (fun _ => twalk_loop fuel action rest (d + n)) s Hs) as (v & s1 & E1 & H1 & E2).
    exists s1. unfold mbind at 1, hle_bind at 1. rewrite E1. split_and!; [done..|]. rewrite E2. f_equal. lia. }
  assert (Hleaf : (ptr l =? 0) && (ptr r =? 0) = false).
  { destruct (Hl s Hs) as [_ Sl], (Hr s Hs) as [_ Sr]. apply andb_false_iff. rewrite !Z.eqb_neq.
    destruct Hi; [left; by apply (ptr_nonzero _ _ _ Sl)|right; by apply (ptr_nonzero _ _ _ Sr)]. }
  destruct (Hacts [a; PREORDER; u64 (d + n)] s Hs) as (v1 & s1 & E1 & H1).
  destruct (descend l Hl (IHl Hl) (2 + (walk_cost r + fuel)) ((a, 1) :: rest) d n s1 H1) as (s2 & E2 & H2 & L2).
  destruct (Hacts [a; POSTORDER; u64 (d + (n + leaves l))] s2 H2) as (v3 & s3 & E3 & H3).
  destruct (descend r Hr (IHr Hr) (1 + fuel) ((a, 2) :: rest) d (n + leaves l) s3 H3) as (s4 & E4 & H4 & L4).
  destruct (Hacts [a; ENDORDER; u64 (d + (n + leaves l + leaves r))] s4 H4) as (v5 & s5 & E5 & H5).
  exists s5. split_and!; [|done|].
  - rewrite with_leaves_inner by done. apply (run_calls_cons _ _ _ _ _ _ _ _ _ E1), (run_calls_app _ _ _ _ s2); [done|].
    apply (run_calls_cons _ _ _ _ _ _ _ _ _ E3), (run_calls_app _ _ _ _ s4); [done|]. by apply (run_calls_cons _ _ _ _ _ _ _ _ _ E5).
  - rewrite cost_inner, leaves_inner by done. cbn [ptr].
    replace (3 + (walk_cost l + walk_cost r) + fuel)%nat with (Datatypes.S (walk_cost l + (2 + (walk_cost r + fuel)))) by lia.
    cbn [twalk_loop]. rewrite Hread, Hleaf by done. cbn [Z.eqb]. unfold mbind at 1, hle_bind at 1. rewrite E1. trans (twalk_loop (2 + (walk_cost r + fuel)) action ((a, 1) :: rest) (d + (n + leaves l)) s2).
    { rewrite <- L2. destruct (negb (ptr l =? 0)); reflexivity. }
    replace (2 + (walk_cost r + fuel))%nat with (Datatypes.S (walk_cost r + (1 + fuel))) by lia. cbn [twalk_loop]. rewrite Hread by done. cbn [Z.eqb Pos.eqb].
    unfold mbind at 1, hle_bind at 1. rewrite E3. trans (twalk_loop (1 + fuel) action ((a, 2) :: rest) (d + (n + leaves l + leaves r)) s4).
    { rewrite <- L4. destruct (negb (ptr r =? 0)); reflexivity. }
    cbn [Nat.add twalk_loop]. rewrite Hread by done. cbn [Z.eqb Pos.eqb]. unfold mbind at 1, hle_bind at 1. rewrite E5. f_equal. lia.
Qed.

(** C29: twalk of a tree in memory ends, and what it does is to call the action once
    per visit, in the order of POSIX: an inner node before its left subtree, between
    the subtrees and after them, a leaf once.  The third argument is the depth plus
    the number of leaves visited before.  (The action may do anything that keeps the
    tree; the fuel is the number of visits.) *)
Theorem twalk_visits t fuel s : tree_stays t -> I s -> getr X0 s = ptr t -> getr X1 s = action -> action <> 0 -> (walk_cost t < fuel)%nat ->
  exists s', run_calls action (with_leaves 0 (posix_visits t 0)) s = Ret tt s' /\ twalk fuel s = Ret (Some tt) s'.
Proof.
  intros Ht Hs E0 E1 Ha Hf. unfold twalk, get_x, mbind, hle_bind. rewrite E0, E1, (proj2 (Z.eqb_neq action 0)), orb_false_r by done.
  destruct (tip_dec t) as [[-> ->]|Hne]; [by exists s|].
  destruct (Ht s Hs) as [_ Hsh]. rewrite (proj2 (Z.eqb_neq (ptr t) 0)) by (by apply (ptr_nonzero _ _ _ Hsh)).
  destruct (twalk_loop_spec t Ht Hne (fuel - walk_cost t)%nat [] 0 0 s Hs) as (s' & R1 & _ & R2). exists s'. split; [done|].
  replace fuel with (walk_cost t + (fuel - walk_cost t))%nat by lia. change (0 + 0) with 0 in R2. cbn [orb]. rewrite R2.
  destruct (fuel - walk_cost t)%nat as [|k] eqn:Ek; [lia|done].
Qed.

(** A root with two leaves is reported at levels 0, 1 and 2. *)
Theorem twalk_level_drifts a b c ka kb kc :
  with_leaves 0 (posix_visits (Node a ka (Node b kb Tip Tip) (Node c kc Tip Tip)) 0) =
    [(a, PREORDER, 0); (b, LEAF, 1); (a, POSTORDER, 1); (c, LEAF, 2); (a, ENDORDER, 2)].
Proof. reflexivity. Qed.

End Walk.
