(* ===== verification/HleSearchHeap.v ===== *)
(** The guest heap of the memory manager keeps the contract the search functions
    rely on, and their theorems at a tree in that heap. *)

From S2P Require Import Prelude Env HeapAllocator HeapSpec MemoryManager MemorySpec Machine HostAccess ElfSpec HleMonad HleErrno MappedSpec SyscallHandler HleAlloc HleAllocSpec SearchTree HleSearch HleSearchSpec HleWalkSpec.

(** Guest addresses below 24 are never mapped by QEMU: an eight-byte write there
    fails before it stores anything. *)
Class NullPageLaws (E : Env) := {
  null_page : env -> Prop;
  null_page_write a bs e : null_page e -> 0 <= a <= 16 -> length bs = 8%nat -> rw_debug_write a bs e = (false, e);
  null_page_rw_write a bs e : null_page e -> null_page (rw_debug_write a bs e).2;
  null_page_write_reg r v e : null_page e -> null_page (write_reg r v e);
}.

#[export] Instance RefNullPageLaws : NullPageLaws RefEnv.
Proof.
  refine {| null_page (e : @env RefEnv) := forall x, 0 <= x < 24 -> ref_mem e !! x = None |}; cbn; [| |done].
  - intros a bs e H Ha Hl. destruct (ref_accessible (ref_mem e) a (length bs)) eqn:Hacc; [|done]. exfalso.
    rewrite ref_accessible_spec in Hacc. destruct (Hacc a) as [b Hb]; [lia|]. by rewrite H in Hb by lia.
  - intros a bs e H x Hx. destruct (ref_accessible (ref_mem e) a (length bs)) eqn:Hacc; [|by apply H]. cbn.
    rewrite lookup_ref_store. destruct (decide _) as [Hin|]; [|by apply H]. rewrite ref_accessible_spec in Hacc.
    destruct (Hacc x Hin) as [b Hb]. by rewrite H in Hb.
Defined.

Section Heap.
Context {E : Env} `{!HostAccess E, !GuestMemLaws E, !CpuMemLaws E, !RegLaws E, !HostAccessLaws E, !NullPageLaws E}.
Implicit Types s : mstate.

(** The first bytes are in no region. *)
Definition null_free s : Prop := forall r, r ∈ regions_ (mm s) -> 24 <= r_address r.

Record guest_heap_ok s : Prop := {
  gh_wf : heap_wf (heap_ (mm s));
  gh_base : base_ (heap_ (mm s)) = HEAP_BASE;
  gh_size : size_ (heap_ (mm s)) = HEAP_SIZE;
  gh_mapped : mapped HEAP_BASE HEAP_SIZE s;
  gh_null : null_free s;
  gh_page : null_page (ext s);
}.

(** Inside a block that is in use, or outside the heap. *)
Definition in_use (a n : Z) s : Prop :=
  disj a n HEAP_BASE HEAP_SIZE \/ exists b k, allocations_ (heap_ (mm s)) !! b = Some k /\ b <= a /\ a + n <= b + k.

(** Neither the free blocks nor the space behind the used part of the heap have room. *)
Definition no_room (n al : Z) s : Prop := abs_full (HEAP_BASE + HEAP_SIZE) n al (abs_of (heap_ (mm s))).

#[export] Instance mstate_use : HeapUse mstate := {| heap_ok := guest_heap_ok; owned := in_use; exhausted := no_room |}.

Lemma ext_write a bs s : (exists e, ext (mem_write a bs s).2 = (rw_debug_write a bs e).2 /\ e = ext s) \/ ext (mem_write a bs s).2 = ext s.
Proof.
  unfold mem_write, host_write. destruct (use_qemu s); [|by right; destruct (find_region _ _)].
  left. exists (ext s). split; [|done]. destruct (rw_debug_write a bs (ext s)) as [[] e1]; [done|]. by destruct (find_region _ _).
Qed.

Lemma null_write_mem a v s : guest_heap_ok s -> 0 <= a <= 16 -> (mem_write a (le_bytes 8 v) s).2 = s.
Proof.
  intros H Ha. pose proof (length_le_bytes 8 v) as Hl.
  assert (Hh : (host_write a (le_bytes 8 v) s).2 = s).
  { unfold host_write. destruct (find_region _ _) as [r|] eqn:Hf; [|done]. exfalso.
    apply List.find_some in Hf as [Hr Hc]. apply list_elem_of_In in Hr. pose proof (gh_null _ H r Hr).
    unfold region_covers in Hc. rewrite !andb_true_iff, !Z.leb_le in Hc. lia. }
  unfold mem_write. destruct (use_qemu s) eqn:Hq; [|done].
  rewrite null_page_write by (done || apply H). cbn [fst snd]. destruct s. exact Hh.
Qed.

Lemma mapped_write a bs b n s : mapped b n (mem_write a bs s).2 <-> mapped b n s.
Proof.
  cbn. unfold mem_mapped. rewrite use_qemu_write, mm_write. destruct (use_qemu s) eqn:Hq; [|done].
  destruct (ext_write a bs s) as [(e & -> & ->)| ->]; [apply page_rw_write|done].
Qed.

Lemma heap_ok_write a bs s : guest_heap_ok s -> guest_heap_ok (mem_write a bs s).2.
Proof.
  intros [H1 H2 H3 H4 H5 H6]. constructor; unfold null_free; rewrite ?mm_write; try done; [by apply mapped_write|].
  destruct (ext_write a bs s) as [(e & -> & ->)| ->]; [by apply null_page_rw_write|done].
Qed.

Lemma heap_ok_putr r v s : guest_heap_ok s -> guest_heap_ok (putr r v s).
Proof.
  intros [H1 H2 H3 H4 H5 H6]. constructor; try done; [by apply mapped_putr|]. cbn. unfold set_reg.
  destruct (has_cpu _); [by apply null_page_write_reg|done].
Qed.

(** Allocating: the block is new, and everything in use stays so. *)
Lemma heap_allocate_mem n al s : sane s -> guest_heap_ok s -> 0 < n <= 2 ^ 20 -> pow2 al -> al <= 4096 ->
  stepped s (byte_at s) (heap_allocate n al s).2 /\
  ((heap_allocate n al s).1 = 0 /\ no_room n al (heap_allocate n al s).2 \/
   0 < (heap_allocate n al s).1 /\ mapped (heap_allocate n al s).1 n s /\ in_use (heap_allocate n al s).1 n (heap_allocate n al s).2 /\
   forall a m, in_use a m s -> disj (heap_allocate n al s).1 n a m).
Proof.
  intros Hs Hok Hn Hal Hle. pose proof Hok as [H1 H2 H3 H4 H5 H6]. unfold heap_allocate, mstate_heap.
  destruct (HeapAllocator.allocate n al (heap_ (mm s))) as [p h] eqn:Ha. cbn [fst snd].
  assert (Hrq : request n = n) by (unfold request; by rewrite (proj2 (Z.eqb_neq n 0)) by lia).
  assert (Hnw : no_wrap (heap_ (mm s)) (request n) al)
    by (rewrite Hrq; split; [lia|rewrite H2, H3; unfold HEAP_BASE, HEAP_SIZE, two64; lia]).
  pose proof (allocate_refines _ n al _ _ H1 Hal ltac:(lia) Hnw Ha) as Href.
  apply allocate_cases in Ha as (Hwf & Hb & Hsz & Hc); [|done|done|lia|done].
  unfold abs_alloc in Href. rewrite Hrq in Hc, Href. rewrite H2, H3 in Href. split.
  { constructor; [by apply became_heap|by constructor; first [done|cbn; congruence]|]. intros a m [Hd|(b & k & Hl & ? & ?)]; [by left|right]. cbn.
    destruct Hc as [[-> ->]|[_ [_ _ _ Hfr Hlv _ _ _]]]; [by exists b, k|]. exists b, k. rewrite Hlv. split; [|done].
    rewrite lookup_insert_ne; [done|]. intros ->. pose proof (Hfr b k Hl) as Hd. pose proof (wf_alloc _ H1 b k Hl). unfold disj in Hd. lia. }
  destruct Hc as [[-> ->]|[Hne [_ Hlo Hhi Hfr Hlv _ _ _]]].
  { left. split; [done|]. unfold no_room. cbn. destruct Href as [(_ & Hfull & _)|[? _]]; done. }
  right. rewrite H2, H3 in *. split_and!.
  - unfold HEAP_BASE in *. lia.
  - eapply mapped_sub; [exact H4|lia..].
  - right. cbn. exists p, n. rewrite Hlv, lookup_insert_eq. split; [done|lia].
  - intros a m [Hd|(b & k & Hl & ? & ?)]; [unfold disj in *; lia|]. specialize (Hfr b k Hl). unfold disj in *. lia.
Qed.

#[export] Instance mstate_heap_laws : HeapLaws mstate.
Proof.
  constructor; [apply heap_allocate_mem|apply heap_ok_write|apply heap_ok_putr| |done| |done|intros a v s; apply null_write_mem].
  - intros a bs b m s [Hd|(q & k & ? & ?)]; [by left|right]. exists q, k. cbn. by rewrite mm_write.
  - intros a bs n al s. cbn. unfold no_room. by rewrite mm_write.
Qed.

End Heap.

(** * A tree in the heap *)

(** Guest functions of the example: the comparison orders the key words themselves,
    as callers do that keep small integers in their keys; the action does nothing. *)
#[local] Instance demo_calls : GuestFun (mstate (E := RefEnv)) := fun f args s =>
  match args with [x; y] => Ret (u32 (Z.sgn (x - y))) s | _ => Ret 0 s end.
#[local] Instance demo_torn : Torn (mstate (E := RefEnv)) := fun old _ _ => old.
Definition demo_cmp (x y : Z) : Z := Z.sgn (x - y).

#[local] Instance demo_compares : Compares demo_cmp.
Proof. constructor; unfold demo_cmp; intros; lia. Qed.

(** One block holds the root pointer, the root with key 5 and its left child, key 3. *)
Definition demo_tree : tree := Node (HEAP_BASE + 8) 5 (Node (HEAP_BASE + 32) 3 Tip Tip) Tip.
Definition tree_mem (x0 x1 x2 : Z) : mstate (E := RefEnv) :=
  let s := (heap_allocate 56 8 heap_mem).2 in
  let s := (gwrite HEAP_BASE (concat (map (le_bytes 8) [HEAP_BASE + 8; 5; HEAP_BASE + 32; 0; 3; 0; 0])) s).2 in
  putr X2 x2 (putr X1 x1 (putr X0 x0 s)).

(** Checking a word byte by byte. *)
Definition word_check (f : Z -> option Z) (a v : Z) : bool := forallb (fun i => bool_decide (f (a + Z.of_nat i) = le_bytes 8 v !! i)) (seq 0 8).
Lemma word_check_ok f a v : word_check f a v = true -> wordf f a v.
Proof.
  unfold word_check. rewrite forallb_forall. intros H i b Hi. pose proof (lookup_lt_Some _ _ _ Hi) as Hl. rewrite length_le_bytes in Hl.
  specialize (H i). rewrite bool_decide_eq_true in H. rewrite H; [done|]. apply in_seq. lia.
Qed.

Lemma heap_mem_sane : sane (S := mstate) heap_mem.
Proof. constructor; [apply heap_mem_wf|done|intros H; discriminate H|]. intros r v Hr Hv. apply (wide_reg (E := RefEnv) r v Hr Hv). Qed.

Lemma heap_mem_ok : guest_heap_ok heap_mem.
Proof.
  constructor; try done; [apply heap_mem_wf|exists heap_region; split; [by left|by split]|].
  intros r. rewrite heap_mem_regions. intros ->%list_elem_of_singleton. done.
Qed.

Lemma tree_mem_heap x0 x1 x2 : guest_heap_ok (tree_mem x0 x1 x2).
Proof.
  unfold tree_mem. repeat apply heap_ok_putr. apply heap_ok_write.
  destruct (heap_allocate_mem 56 8 heap_mem heap_mem_sane heap_mem_ok ltac:(lia) ltac:(by exists 3) ltac:(lia)) as [Hst _].
  exact (st_heap _ _ _ Hst).
Qed.

Lemma tree_mem_sane x0 x1 x2 : sane (S := mstate) (tree_mem x0 x1 x2).
Proof. constructor; [apply heap_mem_wf|done|intros H; discriminate H|]. intros r v Hr Hv. apply (wide_reg (E := RefEnv) r v Hr Hv). Qed.

(** Everything in the block is mapped and in use. *)
Lemma tree_mem_mapped x0 x1 x2 o n : 0 <= o -> 0 < n -> o + n <= 56 -> mapped (HEAP_BASE + o) n (tree_mem x0 x1 x2).
Proof. intros. eapply mapped_sub; [apply (gh_mapped _ (tree_mem_heap x0 x1 x2))|lia..|]. unfold HEAP_SIZE. lia. Qed.

Lemma tree_mem_shape x0 x1 x2 : shape (tree_mem x0 x1 x2) (byte_at (tree_mem x0 x1 x2)) demo_tree.
Proof.
  assert (Hw : forall a v, word_check (byte_at (tree_mem x0 x1 x2)) a v = true -> wordf (byte_at (tree_mem x0 x1 x2)) a v) by (intros a v; apply word_check_ok).
  split; [unfold HEAP_BASE; lia|]. split; [apply (tree_mem_mapped _ _ _ 8); lia|].
  split; [apply Hw; vm_compute; reflexivity|].
  split; [apply Hw; vm_compute; reflexivity|]. split; [apply Hw; vm_compute; reflexivity|]. split; [unfold two64; lia|]. split; [|exact I].
  split; [unfold HEAP_BASE; lia|]. split; [apply (tree_mem_mapped _ _ _ 32); lia|]. split; [apply Hw; vm_compute; reflexivity|].
  split; [apply Hw; vm_compute; reflexivity|]. split; [apply Hw; vm_compute; reflexivity|]. split; [unfold two64; lia|]. by split.
Qed.

Lemma tree_mem_ok x0 x1 x2 : tree_ok demo_cmp [] (fun _ => None) HEAP_BASE demo_tree (tree_mem x0 x1 x2).
Proof.
  constructor; [apply tree_mem_sane|apply tree_mem_heap| | |by intros ?? ?%elem_of_nil| |by intros ?? ?%elem_of_nil].
  - constructor; [apply tree_mem_shape|split; [done|apply (tree_mem_mapped _ _ _ 0); lia]|apply word_check_ok; vm_compute; reflexivity|].
    unfold sep. repeat constructor; unfold cell_disj, disj, HEAP_BASE; cbn; lia.
  - unfold ordered. cbn. repeat constructor.
  - intros c Hc. right. exists HEAP_BASE, 56. split; [reflexivity|]. cbn in Hc. unfold HEAP_BASE in *. set_unfold. destruct Hc as [-> | [-> | [-> | ?]]]; cbn; done || lia.
Qed.

Lemma demo_compares_ok : compares demo_cmp 0x400000 [] (fun _ => None).
Proof.
  intros x y s Hs Hh _. eexists _, s. split; [reflexivity|]. split; [by apply stepped_refl|]. unfold demo_cmp.
  assert (Hc : Z.sgn (x - y) = 1 \/ Z.sgn (x - y) = 0 \/ Z.sgn (x - y) = -1) by lia. by destruct Hc as [-> | [-> | ->]].
Qed.

Lemma search_tree_refines_witness :
  wp (tsearch 3) (fun _ s' => exists t', tree_ok demo_cmp [] (fun _ => None) HEAP_BASE t' s' /\ keys t' = [3; 4; 5]) (tree_mem 4 HEAP_BASE 0x400000) /\
  wp (tdelete 3) (fun _ s' => exists t', tree_ok demo_cmp [] (fun _ => None) HEAP_BASE t' s' /\ keys t' = [3]) (tree_mem 5 HEAP_BASE 0x400000).
Proof.
  split.
  - destruct (search_tree_refines demo_cmp 0x400000 [] (fun _ => None) demo_compares_ok HEAP_BASE demo_tree 4 3 (tree_mem 4 HEAP_BASE 0x400000)) as (_ & H & _);
      [apply tree_mem_ok|by repeat split|cbn; lia|].
    assert (Hne : wp (tsearch 3) (fun _ s' => getr X0 s' <> 0) (tree_mem 4 HEAP_BASE 0x400000)) by (vm_compute; discriminate).
    unfold wp in *. destruct (tsearch 3 _) as [r s'| |]; [|done..].
    destruct H as [_ [[Hz _]|(t' & ? & Hk & _)]]; [by destruct (Hne Hz)|]. exists t'. split; [done|exact Hk].
  - destruct (search_tree_refines demo_cmp 0x400000 [] (fun _ => None) demo_compares_ok HEAP_BASE demo_tree 5 3 (tree_mem 5 HEAP_BASE 0x400000)) as (_ & _ & H);
      [apply tree_mem_ok|by repeat split|cbn; lia|].
    refine (wp_mono _ _ _ _ H _). intros r s' (_ & _ & t' & ? & Hk & _). exists t'. split; [done|exact Hk].
Defined.

Lemma twalk_visits_witness : exists s', twalk 6 (tree_mem (HEAP_BASE + 8) 0x400000 0) = Ret (Some tt) s' /\
  run_calls 0x400000 [(HEAP_BASE + 8, PREORDER, 0); (HEAP_BASE + 32, LEAF, 1); (HEAP_BASE + 8, POSTORDER, 1); (HEAP_BASE + 8, ENDORDER, 1)]
    (tree_mem (HEAP_BASE + 8) 0x400000 0) = Ret tt s'.
Proof.
  destruct (twalk_visits (fun s => s = tree_mem (HEAP_BASE + 8) 0x400000 0) 0x400000) with (t := demo_tree) (fuel := 6%nat) (s := tree_mem (HEAP_BASE + 8) 0x400000 0)
    as (s' & H1 & H2); [|  |done|done|done|done|cbn; lia|].
  - intros args s ->. unfold call_function_safe, demo_calls. repeat case_match; by eexists _, _.
  - intros s ->. split; [apply tree_mem_sane|apply tree_mem_shape].
  - exists s'. split; [exact H2|exact H1].
Defined.
