(* ===== verification/Utf8.v ===== *)
(** The UTF-8 codecs of the libc emulation.  There are three decoders: the one of
    hle_wchar.cpp and hle_locale.cpp (checks on the second byte), the one written out
    in mbrtowc (checks on the decoded value) and the one written out in mbrtoc16 and
    mbrtoc32 (the same without the test for surrogates); and two encoders. *)

From S2P Require Import Prelude.

(** [Ok] carries the two output parameters. *)
Inductive Utf8DecodeStatus := Ok (codepoint consumed : Z) | Incomplete | Invalid.

#[export] Instance utf8_status_eq : EqDecision Utf8DecodeStatus.
Proof. solve_decision. Defined.

(** [input[i]]. *)
Definition at_ (input : list Z) (i : nat) : Z := nth i input 0.

(** [(b & 0xc0) != 0x80]. *)
Definition not_continuation (b : Z) : bool := negb (Z.land b 0xc0 =? 0x80).

(** The value of two, three and four bytes. *)
Definition two_bytes (b0 b1 : Z) : Z := Z.lor (Z.shiftl (Z.land b0 0x1f) 6) (Z.land b1 0x3f).
Definition three_bytes (b0 b1 b2 : Z) : Z :=
  Z.lor (Z.lor (Z.shiftl (Z.land b0 0x0f) 12) (Z.shiftl (Z.land b1 0x3f) 6)) (Z.land b2 0x3f).
Definition four_bytes (b0 b1 b2 b3 : Z) : Z :=
  Z.lor (Z.lor (Z.lor (Z.shiftl (Z.land b0 0x07) 18) (Z.shiftl (Z.land b1 0x3f) 12)) (Z.shiftl (Z.land b2 0x3f) 6)) (Z.land b3 0x3f).

(** * hle_wchar.cpp and hle_locale.cpp *)

Definition utf8_length (wc : Z) : Z :=
  if wc <=? 0x7f then 1
  else if wc <=? 0x7ff then 2
  else if (wc <=? 0xffff) && ((wc <? 0xd800) || (0xdfff <? wc)) then 3
  else if wc <=? 0x10ffff then 4
  else -1.

Definition utf8_expected_length_from_lead (lead : Z) : Z :=
  if lead <? 0x80 then 1
  else if (0xc2 <=? lead) && (lead <=? 0xdf) then 2
  else if (0xe0 <=? lead) && (lead <=? 0xef) then 3
  else if (0xf0 <=? lead) && (lead <=? 0xf4) then 4
  else -1.

(** The bytes, or [None] for the result -1. *)
Definition encode_utf8 (wc : Z) : option (list Z) :=
  if wc <=? 0x7f then Some [wc]
  else if wc <=? 0x7ff then Some [Z.lor 0xc0 (Z.shiftr wc 6); Z.lor 0x80 (Z.land wc 0x3f)]
  else if (wc <=? 0xffff) && ((wc <? 0xd800) || (0xdfff <? wc)) then
    Some [Z.lor 0xe0 (Z.shiftr wc 12); Z.lor 0x80 (Z.land (Z.shiftr wc 6) 0x3f); Z.lor 0x80 (Z.land wc 0x3f)]
  else if wc <=? 0x10ffff then
    Some [Z.lor 0xf0 (Z.shiftr wc 18); Z.lor 0x80 (Z.land (Z.shiftr wc 12) 0x3f);
          Z.lor 0x80 (Z.land (Z.shiftr wc 6) 0x3f); Z.lor 0x80 (Z.land wc 0x3f)]
  else None.

Definition decode_utf8 (input : list Z) (available : Z) : Utf8DecodeStatus :=
  if available =? 0 then Incomplete
  else
    let b0 := at_ input 0 in
    if b0 <? 0x80 then Ok b0 1
    else if (0xc2 <=? b0) && (b0 <=? 0xdf) then
      if available <? 2 then Incomplete
      else
        let b1 := at_ input 1 in
        if not_continuation b1 then Invalid else Ok (two_bytes b0 b1) 2
    else if (0xe0 <=? b0) && (b0 <=? 0xef) then
      if available <? 3 then Incomplete
      else
        let b1 := at_ input 1 in
        let b2 := at_ input 2 in
        if not_continuation b1 || not_continuation b2 then Invalid
        else if ((b0 =? 0xe0) && (b1 <? 0xa0)) || ((b0 =? 0xed) && (0xa0 <=? b1)) then Invalid
        else Ok (three_bytes b0 b1 b2) 3
    else if (0xf0 <=? b0) && (b0 <=? 0xf4) then
      if available <? 4 then Incomplete
      else
        let b1 := at_ input 1 in
        let b2 := at_ input 2 in
        let b3 := at_ input 3 in
        if not_continuation b1 || not_continuation b2 || not_continuation b3 then Invalid
        else if ((b0 =? 0xf0) && (b1 <? 0x90)) || ((b0 =? 0xf4) && (0x90 <=? b1)) then Invalid
        else Ok (four_bytes b0 b1 b2 b3) 4
    else Invalid.

(** The function of the same text in hle_locale.cpp. *)
Definition decode_utf8_codepoint (input : list Z) (available : Z) : Utf8DecodeStatus := decode_utf8 input available.

(** The loop of [decode_utf8_string] on what is left of the input; every round takes
    at least one byte, so [fuel] of the length is enough. *)
Fixpoint decode_utf8_loop (fuel : nat) (input output : list Z) : option (list Z) :=
  match input with
  | [] => Some output
  | _ =>
      match fuel with
      | O => None
      | S fuel =>
          match decode_utf8 input (Z.of_nat (length input)) with
          | Ok wc consumed =>
              if consumed =? 0 then None else decode_utf8_loop fuel (drop (Z.to_nat consumed) input) (output ++ [wc])
          | _ => None
          end
      end
  end.
Definition decode_utf8_string (input : list Z) : option (list Z) := decode_utf8_loop (length input) input [].

Definition is_valid_unicode_scalar (wc : Z) : bool := (wc <=? 0x10ffff) && negb ((0xd800 <=? wc) && (wc <=? 0xdfff)).

(** * hle_locale.cpp *)

Definition wc_to_utf8_len (wc : Z) : Z :=
  if wc <=? 0x7f then 1 else if wc <=? 0x7ff then 2 else if wc <=? 0xffff then 3 else if wc <=? 0x10ffff then 4 else -1.

Definition wc_to_utf8 (wc : Z) : option (list Z) :=
  if wc <=? 0x7f then Some [wc]
  else if wc <=? 0x7ff then Some [Z.lor 0xc0 (Z.shiftr wc 6); Z.lor 0x80 (Z.land wc 0x3f)]
  else if wc <=? 0xffff then
    Some [Z.lor 0xe0 (Z.shiftr wc 12); Z.lor 0x80 (Z.land (Z.shiftr wc 6) 0x3f); Z.lor 0x80 (Z.land wc 0x3f)]
  else if wc <=? 0x10ffff then
    Some [Z.lor 0xf0 (Z.shiftr wc 18); Z.lor 0x80 (Z.land (Z.shiftr wc 12) 0x3f);
          Z.lor 0x80 (Z.land (Z.shiftr wc 6) 0x3f); Z.lor 0x80 (Z.land wc 0x3f)]
  else None.

(** [expected_len] of mbrtowc, mbrtoc16 and mbrtoc32; [None] is EILSEQ. *)
Definition expected_len (lead : Z) : option Z :=
  if Z.land lead 0x80 =? 0 then Some 1
  else if Z.land lead 0xe0 =? 0xc0 then Some 2
  else if Z.land lead 0xf0 =? 0xe0 then Some 3
  else if Z.land lead 0xf8 =? 0xf0 then Some 4
  else None.

(** "Now we have enough bytes - decode": mbrtowc. *)
Definition mbrtowc_decode (expected : Z) (bytes : list Z) : option Z :=
  let b0 := at_ bytes 0 in
  let b1 := at_ bytes 1 in
  let b2 := at_ bytes 2 in
  let b3 := at_ bytes 3 in
  if expected =? 1 then Some b0
  else if expected =? 2 then
    if not_continuation b1 then None
    else let wc := two_bytes b0 b1 in if wc <? 0x80 then None else Some wc
  else if expected =? 3 then
    if not_continuation b1 || not_continuation b2 then None
    else
      let wc := three_bytes b0 b1 b2 in
      if wc <? 0x800 then None
      else if (0xd800 <=? wc) && (wc <=? 0xdfff) then None
      else Some wc
  else
    if not_continuation b1 || not_continuation b2 || not_continuation b3 then None
    else
      let wc := four_bytes b0 b1 b2 b3 in
      if wc <? 0x10000 then None else if 0x10ffff <? wc then None else Some wc.

(** The same in mbrtoc16 and mbrtoc32: code point and length. *)
Definition uchar_decode (bytes : list Z) : option (Z * Z) :=
  let b0 := at_ bytes 0 in
  let b1 := at_ bytes 1 in
  let b2 := at_ bytes 2 in
  let b3 := at_ bytes 3 in
  if Z.land b0 0x80 =? 0 then Some (b0, 1)
  else if Z.land b0 0xe0 =? 0xc0 then
    if not_continuation b1 then None
    else let wc := two_bytes b0 b1 in if wc <? 0x80 then None else Some (wc, 2)
  else if Z.land b0 0xf0 =? 0xe0 then
    if not_continuation b1 || not_continuation b2 then None
    else let wc := three_bytes b0 b1 b2 in if wc <? 0x800 then None else Some (wc, 3)
  else if Z.land b0 0xf8 =? 0xf0 then
    if not_continuation b1 || not_continuation b2 || not_continuation b3 then None
    else
      let wc := four_bytes b0 b1 b2 b3 in
      if (wc <? 0x10000) || (0x10ffff <? wc) then None else Some (wc, 4)
  else None.
