(* ===== verification/Utf8Spec.v ===== *)
(** The codecs agree with each other and with UTF-8 written with plain arithmetic. *)

From S2P Require Import Prelude Utf8.

Definition is_byte (b : Z) : Prop := 0 <= b < 256.
Definition scalar (wc : Z) : Prop := 0 <= wc <= 0x10ffff /\ ~ (0xd800 <= wc <= 0xdfff).

(** UTF-8 as arithmetic. *)
Definition utf8 (wc : Z) : list Z :=
  if wc <? 128 then [wc]
  else if wc <? 2048 then [192 + wc / 64; 128 + wc mod 64]
  else if wc <? 65536 then [224 + wc / 4096; 128 + wc / 64 mod 64; 128 + wc mod 64]
  else [240 + wc / 262144; 128 + wc / 4096 mod 64; 128 + wc / 64 mod 64; 128 + wc mod 64].

(** * Bits *)

(** A test of all bytes. *)
Lemma byte_cases (P : Z -> bool) : forallb P (map Z.of_nat (seq 0 256)) = true -> forall b, is_byte b -> P b = true.
Proof.
  rewrite forallb_forall. intros H b Hb. apply H. apply in_map_iff. exists (Z.to_nat b). unfold is_byte in Hb. split; [lia|]. apply in_seq. lia.
Qed.

Lemma lor_plus a k y : 0 <= k -> 0 <= y < 2 ^ k -> Z.lor (a * 2 ^ k) y = a * 2 ^ k + y.
Proof.
  intros Hk Hy. symmetry. apply Z.add_nocarry_lor. rewrite <- Z.shiftl_mul_pow2 by done. apply Z.bits_inj'. intros n Hn.
  rewrite Z.land_spec, Z.bits_0. destruct (decide (n < k)); [by rewrite Z.shiftl_spec_low by done|].
  rewrite <- (Z.mod_small y (2 ^ k)) by done. rewrite Z.mod_pow2_bits_high by lia. apply andb_false_r.
Qed.

(** The operations of the codecs: a shifted value with a smaller one, a mask. *)
Lemma lor_shift a k y : 0 <= k -> 0 <= y < 2 ^ k -> Z.lor (Z.shiftl a k) y = a * 2 ^ k + y.
Proof. intros. rewrite Z.shiftl_mul_pow2 by done. by apply lor_plus. Qed.

Lemma two_bytes_value b0 b1 : two_bytes b0 b1 = b0 mod 32 * 64 + b1 mod 64.
Proof.
  unfold two_bytes. change 0x1f with (Z.ones 5). change 0x3f with (Z.ones 6). rewrite !Z.land_ones by lia.
  pose proof (Z.mod_pos_bound b1 (2 ^ 6)). rewrite lor_shift by lia. done.
Qed.

Lemma three_bytes_value b0 b1 b2 : three_bytes b0 b1 b2 = b0 mod 16 * 4096 + b1 mod 64 * 64 + b2 mod 64.
Proof.
  unfold three_bytes. change 0x0f with (Z.ones 4). change 0x3f with (Z.ones 6). rewrite !Z.land_ones by lia.
  pose proof (Z.mod_pos_bound b1 64). pose proof (Z.mod_pos_bound b2 64). rewrite (Z.shiftl_mul_pow2 (b1 mod _)) by lia. change (2 ^ 6) with 64. change (2 ^ 4) with 16.
  rewrite lor_shift by lia. replace (b0 mod 16 * 2 ^ 12 + b1 mod 64 * 64) with ((b0 mod 16 * 64 + b1 mod 64) * 2 ^ 6) by lia.
  rewrite lor_plus by lia. lia.
Qed.

Lemma four_bytes_value b0 b1 b2 b3 : four_bytes b0 b1 b2 b3 = b0 mod 8 * 262144 + b1 mod 64 * 4096 + b2 mod 64 * 64 + b3 mod 64.
Proof.
  unfold four_bytes. change 0x07 with (Z.ones 3). change 0x3f with (Z.ones 6). rewrite !Z.land_ones by lia. change (2 ^ 6) with 64. change (2 ^ 3) with 8.
  pose proof (Z.mod_pos_bound b1 64). pose proof (Z.mod_pos_bound b2 64). pose proof (Z.mod_pos_bound b3 64).
  rewrite (Z.shiftl_mul_pow2 (b1 mod _)), (Z.shiftl_mul_pow2 (b2 mod _)) by lia. change (2 ^ 12) with 4096. change (2 ^ 6) with 64.
  rewrite lor_shift by lia. replace (b0 mod 8 * 2 ^ 18 + b1 mod 64 * 4096) with ((b0 mod 8 * 64 + b1 mod 64) * 2 ^ 12) by lia.
  rewrite lor_plus by lia. replace ((b0 mod 8 * 64 + b1 mod 64) * 2 ^ 12 + b2 mod 64 * 64) with ((b0 mod 8 * 4096 + b1 mod 64 * 64 + b2 mod 64) * 2 ^ 6) by lia.
  rewrite lor_plus by lia. lia.
Qed.

Lemma continuation_spec b : is_byte b -> not_continuation b = negb ((128 <=? b) && (b <? 192)).
Proof. intros Hb. apply eqb_prop. revert b Hb. apply byte_cases. vm_compute. reflexivity. Qed.

Lemma expected_len_spec b : is_byte b -> expected_len b =
  if b <? 128 then Some 1 else if b <? 192 then None else if b <? 224 then Some 2 else if b <? 240 then Some 3 else if b <? 248 then Some 4 else None.
Proof.
  intros Hb. apply (bool_decide_eq_true_1 _). revert b Hb. apply (byte_cases (fun b => bool_decide (expected_len b = _))). vm_compute. reflexivity.
Qed.

(** Masks and shifts of a code point. *)
Lemma continuation_of x : Z.lor 0x80 (Z.land x 0x3f) = 128 + x mod 64.
Proof. change 0x3f with (Z.ones 6). rewrite Z.land_ones by lia. pose proof (Z.mod_pos_bound x (2 ^ 6)). change 0x80 with (2 * 2 ^ 6). rewrite lor_plus by lia. done. Qed.

Lemma lead_two wc : 0 <= wc < 2048 -> Z.lor 0xc0 (Z.shiftr wc 6) = 192 + wc / 64.
Proof. intros. rewrite Z.shiftr_div_pow2 by lia. change 0xc0 with (6 * 2 ^ 5). rewrite lor_plus by (Z.to_euclidean_division_equations; lia). done. Qed.
Lemma lead_three wc : 0 <= wc < 65536 -> Z.lor 0xe0 (Z.shiftr wc 12) = 224 + wc / 4096.
Proof. intros. rewrite Z.shiftr_div_pow2 by lia. change 0xe0 with (14 * 2 ^ 4). rewrite lor_plus by (Z.to_euclidean_division_equations; lia). done. Qed.
Lemma lead_four wc : 0 <= wc < 2097152 -> Z.lor 0xf0 (Z.shiftr wc 18) = 240 + wc / 262144.
Proof. intros. rewrite Z.shiftr_div_pow2 by lia. change 0xf0 with (30 * 2 ^ 3). rewrite lor_plus by (Z.to_euclidean_division_equations; lia). done. Qed.

(** * Encoding *)

(** Case analysis on comparisons. *)
Ltac comparisons := repeat match goal with
  | |- context [?a <=? ?b] => destruct (Z.leb_spec a b)
  | |- context [?a <? ?b] => destruct (Z.ltb_spec a b)
  | |- context [?a =? ?b] => destruct (Z.eqb_spec a b)
  end; cbn [andb orb negb].
Ltac divide := Z.to_euclidean_division_equations; lia.

Lemma utf8_one wc : 0 <= wc < 128 -> utf8 wc = [wc].
Proof. intros. unfold utf8. comparisons; done || lia. Qed.
Lemma utf8_two wc : 128 <= wc < 2048 -> utf8 wc = [192 + wc / 64; 128 + wc mod 64].
Proof. intros. unfold utf8. comparisons; done || lia. Qed.
Lemma utf8_three wc : 2048 <= wc < 65536 -> utf8 wc = [224 + wc / 4096; 128 + wc / 64 mod 64; 128 + wc mod 64].
Proof. intros. unfold utf8. comparisons; done || lia. Qed.
Lemma utf8_four wc : 65536 <= wc -> utf8 wc = [240 + wc / 262144; 128 + wc / 4096 mod 64; 128 + wc / 64 mod 64; 128 + wc mod 64].
Proof. intros. unfold utf8. comparisons; done || lia. Qed.

(** Which of the four. *)
Lemma utf8_cases wc : 0 <= wc -> (wc < 128) \/ (128 <= wc < 2048) \/ (2048 <= wc < 65536) \/ 65536 <= wc.
Proof. lia. Qed.

Lemma wc_to_utf8_value wc : 0 <= wc <= 0x10ffff -> wc_to_utf8 wc = Some (utf8 wc) /\ wc_to_utf8_len wc = Z.of_nat (length (utf8 wc)).
Proof.
  intros Hwc. unfold wc_to_utf8, wc_to_utf8_len. rewrite !continuation_of, !Z.shiftr_div_pow2 by lia.
  destruct (utf8_cases wc) as [H | [H | [H | H]]]; [lia|rewrite utf8_one by lia|rewrite utf8_two by lia|rewrite utf8_three by lia|rewrite utf8_four by lia];
    comparisons; try lia; rewrite <- ?(Z.shiftr_div_pow2 wc), ?lead_two, ?lead_three, ?lead_four by lia; by rewrite ?Z.shiftr_div_pow2 by lia.
Qed.

Lemma encode_scalar wc : scalar wc -> encode_utf8 wc = Some (utf8 wc) /\ utf8_length wc = Z.of_nat (length (utf8 wc)).
Proof.
  intros [H1 H2]. destruct (wc_to_utf8_value wc H1) as [<- <-]. unfold encode_utf8, utf8_length, wc_to_utf8, wc_to_utf8_len.
  assert ((wc <=? 0xffff) && ((wc <? 0xd800) || (0xdfff <? wc)) = (wc <=? 0xffff)) as -> by (comparisons; lia). done.
Qed.

Lemma utf8_bytes wc : 0 <= wc <= 0x10ffff -> Forall is_byte (utf8 wc).
Proof.
  intros Hwc. destruct (utf8_cases wc) as [H | [H | [H | H]]]; [lia|rewrite utf8_one by lia|rewrite utf8_two by lia|rewrite utf8_three by lia|rewrite utf8_four by lia];
    repeat constructor; divide.
Qed.

Lemma utf8_length_range wc : (1 <= length (utf8 wc) <= 4)%nat.
Proof. unfold utf8. comparisons; cbn; lia. Qed.

(** * Decoding *)

(** Case analysis that drops impossible cases at once. *)
Ltac decide_comparisons := repeat match goal with
  | |- context [?a <=? ?b] => destruct (Z.leb_spec a b); try (exfalso; lia); cbn [andb orb negb]
  | |- context [?a <? ?b] => destruct (Z.ltb_spec a b); try (exfalso; lia); cbn [andb orb negb]
  | |- context [?a =? ?b] => destruct (Z.eqb_spec a b); try (exfalso; lia); cbn [andb orb negb]
  end.
Ltac modulo := Z.to_euclidean_division_equations; lia.

Lemma decode_one b rest n : 0 <= b < 128 -> 1 <= n -> decode_utf8 (b :: rest) n = Ok b 1.
Proof. intros. unfold decode_utf8. cbn [at_ nth]. decide_comparisons. done. Qed.

Lemma decode_two b0 b1 rest n : 194 <= b0 <= 223 -> 128 <= b1 < 192 -> 2 <= n -> decode_utf8 (b0 :: b1 :: rest) n = Ok ((b0 - 192) * 64 + (b1 - 128)) 2.
Proof.
  intros. unfold decode_utf8. cbn [at_ nth]. rewrite continuation_spec, two_bytes_value by (unfold is_byte; lia).
  decide_comparisons. f_equal. modulo.
Qed.

Lemma decode_three b0 b1 b2 rest n : 224 <= b0 <= 239 -> 128 <= b1 < 192 -> 128 <= b2 < 192 -> 3 <= n -> (b0 = 224 -> 160 <= b1) -> (b0 = 237 -> b1 < 160) ->
  decode_utf8 (b0 :: b1 :: b2 :: rest) n = Ok ((b0 - 224) * 4096 + (b1 - 128) * 64 + (b2 - 128)) 3.
Proof.
  intros. unfold decode_utf8. cbn [at_ nth]. rewrite !continuation_spec, three_bytes_value by (unfold is_byte; lia).
  decide_comparisons; f_equal; modulo.
Qed.

Lemma decode_four b0 b1 b2 b3 rest n : 240 <= b0 <= 244 -> 128 <= b1 < 192 -> 128 <= b2 < 192 -> 128 <= b3 < 192 -> 4 <= n ->
  (b0 = 240 -> 144 <= b1) -> (b0 = 244 -> b1 < 144) ->
  decode_utf8 (b0 :: b1 :: b2 :: b3 :: rest) n = Ok ((b0 - 240) * 262144 + (b1 - 128) * 4096 + (b2 - 128) * 64 + (b3 - 128)) 4.
Proof.
  intros. unfold decode_utf8. cbn [at_ nth]. rewrite !continuation_spec, four_bytes_value by (unfold is_byte; lia).
  decide_comparisons; f_equal; modulo.
Qed.

Lemma decode_encoded wc rest n : scalar wc -> Z.of_nat (length (utf8 wc)) <= n -> decode_utf8 (utf8 wc ++ rest) n = Ok wc (Z.of_nat (length (utf8 wc))).
Proof.
  intros [H1 H2]. destruct (utf8_cases wc) as [H | [H | [H | H]]]; [lia|rewrite utf8_one by lia|rewrite utf8_two by lia|rewrite utf8_three by lia|rewrite utf8_four by lia];
    cbn [length app]; intros Hn.
  - rewrite decode_one by lia. done.
  - rewrite decode_two by modulo. f_equal. modulo.
  - rewrite decode_three by modulo. f_equal. modulo.
  - rewrite decode_four by modulo. f_equal. modulo.
Qed.

(** Fewer bytes than the first one asks for. *)
Lemma decode_prefix wc p q junk : scalar wc -> utf8 wc = p ++ q -> q <> [] -> decode_utf8 (p ++ junk) (Z.of_nat (length p)) = Incomplete.
Proof.
  intros [H1 H2] Hpq Hq. destruct p as [|b0 p]; [done|]. assert (Hlen : (length (utf8 wc) = S (length p) + length q)%nat) by (by rewrite Hpq, length_app).
  assert (Hq' : (0 < length q)%nat) by (destruct q; [done|cbn; lia]).
  assert (Hb : nth 0 (utf8 wc) 0 = b0) by (by rewrite Hpq). revert Hlen Hb. clear Hpq.
  destruct (utf8_cases wc) as [H | [H | [H | H]]]; [lia|rewrite utf8_one by lia|rewrite utf8_two by lia|rewrite utf8_three by lia|rewrite utf8_four by lia];
    cbn [length nth]; intros Hlen <-; [lia|..]; unfold decode_utf8; cbn [at_ nth app length];
    assert (0 <= wc / 64 < 32 \/ 2048 <= wc) by modulo; assert (0 <= wc / 4096 < 16 \/ 65536 <= wc) by modulo; assert (0 <= wc / 262144 <= 4) by modulo;
    assert (2 <= wc / 64 \/ wc < 128) by modulo; decide_comparisons; try done; lia.
Qed.

(** * Validity *)

(** What makes a sequence valid, and its value. *)
Lemma valid_two b0 b1 : 194 <= b0 <= 223 -> 128 <= b1 < 192 ->
  scalar ((b0 - 192) * 64 + (b1 - 128)) /\ utf8 ((b0 - 192) * 64 + (b1 - 128)) = [b0; b1].
Proof. intros. unfold scalar. split; [lia|]. rewrite utf8_two by lia. repeat f_equal; modulo. Qed.

Lemma valid_three b0 b1 b2 : 224 <= b0 <= 239 -> 128 <= b1 < 192 -> 128 <= b2 < 192 -> (b0 = 224 -> 160 <= b1) -> (b0 = 237 -> b1 < 160) ->
  scalar ((b0 - 224) * 4096 + (b1 - 128) * 64 + (b2 - 128)) /\ utf8 ((b0 - 224) * 4096 + (b1 - 128) * 64 + (b2 - 128)) = [b0; b1; b2].
Proof. intros. unfold scalar. split; [lia|]. rewrite utf8_three by lia. repeat f_equal; modulo. Qed.

Lemma valid_four b0 b1 b2 b3 : 240 <= b0 <= 244 -> 128 <= b1 < 192 -> 128 <= b2 < 192 -> 128 <= b3 < 192 -> (b0 = 240 -> 144 <= b1) -> (b0 = 244 -> b1 < 144) ->
  scalar ((b0 - 240) * 262144 + (b1 - 128) * 4096 + (b2 - 128) * 64 + (b3 - 128)) /\
  utf8 ((b0 - 240) * 262144 + (b1 - 128) * 4096 + (b2 - 128) * 64 + (b3 - 128)) = [b0; b1; b2; b3].
Proof. intros. unfold scalar. split; [lia|]. rewrite utf8_four by lia. repeat f_equal; modulo. Qed.

(** Four cells of the input, those beyond its end being zero. *)
Definition cells4 (input : list Z) : list Z := [at_ input 0; at_ input 1; at_ input 2; at_ input 3].

Lemma at_byte input i : Forall is_byte input -> is_byte (at_ input i).
Proof.
  intros H. unfold at_. destruct (nth_in_or_default i input 0) as [Hin| ->]; [|unfold is_byte; lia].
  rewrite Forall_forall in H. apply H. by apply list_elem_of_In.
Qed.

Lemma take_cells4 input k : (k <= length input)%nat -> (k <= 4)%nat -> take k input = take k (cells4 input).
Proof. intros H1 H2. unfold cells4. destruct input as [|a [|b [|c [|d r]]]], k as [|[|[|[|[|]]]]]; cbn in *; lia || done. Qed.

Lemma continuation_false b : is_byte b -> not_continuation b = false -> 128 <= b < 192.
Proof. intros Hb. rewrite continuation_spec by done. rewrite negb_false_iff, andb_true_iff, Z.leb_le, Z.ltb_lt. lia. Qed.

Lemma decode_sound input n wc k : Forall is_byte input -> 0 <= n <= Z.of_nat (length input) -> decode_utf8 input n = Ok wc k ->
  scalar wc /\ k = Z.of_nat (length (utf8 wc)) /\ k <= n /\ take (Z.to_nat k) input = utf8 wc.
Proof.
  intros Hb Hn. unfold decode_utf8. pose proof (at_byte input 0 Hb). pose proof (at_byte input 1 Hb). pose proof (at_byte input 2 Hb). pose proof (at_byte input 3 Hb).
  assert (Htake : forall j, (j <= 4)%nat -> Z.of_nat j <= n -> take j input = take j (cells4 input)) by (intros; apply take_cells4; lia). unfold cells4 in Htake.
  generalize dependent (at_ input 0). intros b0 Hb0. generalize dependent (at_ input 1). intros b1 Hb1.
  generalize dependent (at_ input 2). intros b2 Hb2. generalize dependent (at_ input 3). intros b3 Hb3 Htake.
  assert (Hfit : forall w j, scalar w -> utf8 w = take j [b0; b1; b2; b3] -> (0 < j <= 4)%nat -> Z.of_nat j <= n -> Ok w (Z.of_nat j) = Ok wc k ->
    scalar wc /\ k = Z.of_nat (length (utf8 wc)) /\ k <= n /\ take (Z.to_nat k) input = utf8 wc).
  { intros w j Hw Hu Hj Hjn [= -> <-]. rewrite Nat2Z.id, Hu, Htake by lia. split_and!; [done| |done|done]. rewrite length_take. cbn [length]. lia. }
  destruct (Z.eqb_spec n 0); [done|]. destruct (Z.ltb_spec b0 128).
  { apply (Hfit b0 1%nat); [unfold scalar, is_byte in *; lia|unfold is_byte in *; by rewrite utf8_one by lia|lia..]. }
  destruct ((0xc2 <=? b0) && (b0 <=? 0xdf)) eqn:E2; [rewrite andb_true_iff, !Z.leb_le in E2|clear E2].
  { destruct (Z.ltb_spec n 2); [done|]. destruct (not_continuation b1) eqn:C1; [done|]. apply continuation_false in C1; [|done].
    destruct (valid_two b0 b1 E2 C1) as [V1 V2]. rewrite two_bytes_value. replace (b0 mod 32 * 64 + b1 mod 64) with ((b0 - 192) * 64 + (b1 - 128)) by modulo.
    apply (Hfit _ 2%nat); [done|done|lia..]. }
  destruct ((0xe0 <=? b0) && (b0 <=? 0xef)) eqn:E3; [rewrite andb_true_iff, !Z.leb_le in E3|clear E3].
  { destruct (Z.ltb_spec n 3); [done|]. destruct (_ || _) eqn:C; [done|]. apply orb_false_iff in C as [C1 C2]. apply continuation_false in C1, C2; [|done..].
    destruct (_ || _) eqn:C; [done|]. rewrite orb_false_iff, !andb_false_iff, !Z.eqb_neq, Z.ltb_ge, Z.leb_gt in C.
    destruct (valid_three b0 b1 b2 E3 C1 C2) as [V1 V2]; [lia..|]. rewrite three_bytes_value.
    replace (b0 mod 16 * 4096 + b1 mod 64 * 64 + b2 mod 64) with ((b0 - 224) * 4096 + (b1 - 128) * 64 + (b2 - 128)) by modulo.
    apply (Hfit _ 3%nat); [done|done|lia..]. }
  destruct ((0xf0 <=? b0) && (b0 <=? 0xf4)) eqn:E4; [rewrite andb_true_iff, !Z.leb_le in E4|done].
  destruct (Z.ltb_spec n 4); [done|]. destruct (_ || _) eqn:C; [done|]. apply orb_false_iff in C as [[C1 C2]%orb_false_iff C3]. apply continuation_false in C1, C2, C3; [|done..].
  destruct (_ || _) eqn:C; [done|]. rewrite orb_false_iff, !andb_false_iff, !Z.eqb_neq, Z.ltb_ge, Z.leb_gt in C.
  destruct (valid_four b0 b1 b2 b3 E4 C1 C2 C3) as [V1 V2]; [lia..|]. rewrite four_bytes_value.
  replace (b0 mod 8 * 262144 + b1 mod 64 * 4096 + b2 mod 64 * 64 + b3 mod 64) with ((b0 - 240) * 262144 + (b1 - 128) * 4096 + (b2 - 128) * 64 + (b3 - 128)) by modulo.
  apply (Hfit _ 4%nat); [done|done|lia..].
Qed.

(** * The decoder of mbrtowc *)

Lemma expected_len_cases b e : is_byte b -> expected_len b = Some e ->
  e = 1 /\ b < 128 \/ e = 2 /\ 192 <= b < 224 \/ e = 3 /\ 224 <= b < 240 \/ e = 4 /\ 240 <= b < 248.
Proof. intros Hb. rewrite expected_len_spec by done. decide_comparisons; intros [= <-]; lia. Qed.

(** The value of continued sequences, as linear arithmetic. *)
Lemma two_linear b0 b1 : 192 <= b0 < 224 -> 128 <= b1 < 192 -> two_bytes b0 b1 = (b0 - 192) * 64 + (b1 - 128).
Proof. intros. rewrite two_bytes_value. modulo. Qed.
Lemma three_linear b0 b1 b2 : 224 <= b0 < 240 -> 128 <= b1 < 192 -> 128 <= b2 < 192 -> three_bytes b0 b1 b2 = (b0 - 224) * 4096 + (b1 - 128) * 64 + (b2 - 128).
Proof. intros. rewrite three_bytes_value. modulo. Qed.
Lemma four_linear b0 b1 b2 b3 : 240 <= b0 < 248 -> 128 <= b1 < 192 -> 128 <= b2 < 192 -> 128 <= b3 < 192 ->
  four_bytes b0 b1 b2 b3 = (b0 - 240) * 262144 + (b1 - 128) * 4096 + (b2 - 128) * 64 + (b3 - 128).
Proof. intros. rewrite four_bytes_value. modulo. Qed.

(** Complete sequences: testing the value is testing the second byte. *)
Lemma mbrtowc_decode_eq input e n : Forall is_byte input -> expected_len (at_ input 0) = Some e -> e <= n ->
  mbrtowc_decode e input = match decode_utf8 input n with Ok wc _ => Some wc | _ => None end.
Proof.
  intros Hb He Hn. pose proof (at_byte input 0 Hb) as Hb0. pose proof (at_byte input 1 Hb) as Hb1. pose proof (at_byte input 2 Hb) as Hb2. pose proof (at_byte input 3 Hb) as Hb3.
  apply expected_len_cases in He; [|done]. unfold mbrtowc_decode, decode_utf8.
  revert He Hb0 Hb1 Hb2 Hb3. generalize (at_ input 0) (at_ input 1) (at_ input 2) (at_ input 3). intros b0 b1 b2 b3 He Hb0 Hb1 Hb2 Hb3. unfold is_byte in Hb0.
  destruct He as [[-> H] | [[-> H] | [[-> H] | [-> H]]]]; cbn [Z.eqb Pos.eqb].
  - decide_comparisons. done.
  - destruct (not_continuation b1) eqn:C1; [decide_comparisons; done|]. apply continuation_false in C1; [|done]. rewrite two_linear by lia. decide_comparisons; done.
  - destruct (not_continuation b1) eqn:C1; [cbn [orb]; decide_comparisons; done|]. destruct (not_continuation b2) eqn:C2; [cbn [orb]; decide_comparisons; done|].
    apply continuation_false in C1, C2; [|done..]. rewrite three_linear by lia. cbn [orb]. decide_comparisons; done.
  - destruct (not_continuation b1) eqn:C1; [cbn [orb]; decide_comparisons; done|]. destruct (not_continuation b2) eqn:C2; [cbn [orb]; decide_comparisons; done|].
    destruct (not_continuation b3) eqn:C3; [cbn [orb]; decide_comparisons; done|].
    apply continuation_false in C1, C2, C3; [|done..]. rewrite four_linear by lia. cbn [orb]. decide_comparisons; done.
Qed.

(** The first byte of an encoding says how long it is. *)
Lemma expected_len_utf8 wc : scalar wc -> expected_len (at_ (utf8 wc) 0) = Some (Z.of_nat (length (utf8 wc))).
Proof.
  intros [H1 H2]. pose proof (at_byte (utf8 wc) 0 (utf8_bytes wc H1)) as Hb. rewrite expected_len_spec by done. revert Hb.
  destruct (utf8_cases wc) as [H | [H | [H | H]]]; [lia|rewrite utf8_one by lia|rewrite utf8_two by lia|rewrite utf8_three by lia|rewrite utf8_four by lia];
    cbn [at_ nth length]; intros _; [assert (0 <= wc / 1) by modulo|assert (2 <= wc / 64 < 32) by modulo|assert (0 <= wc / 4096 < 16) by modulo|assert (0 <= wc / 262144 <= 4) by modulo];
    decide_comparisons; done || lia.
Qed.

(** * Strings *)

Definition utf8s (wcs : list Z) : list Z := mjoin (utf8 <$> wcs).
Definition encode_all (wcs : list Z) : option (list Z) := mjoin <$> mapM encode_utf8 wcs.

Lemma encode_all_scalar wcs : Forall scalar wcs -> encode_all wcs = Some (utf8s wcs).
Proof.
  intros H. unfold encode_all, utf8s. assert (mapM encode_utf8 wcs = Some (utf8 <$> wcs)) as ->; [|done].
  apply mapM_Some. induction H as [|wc wcs Hwc _ IH]; constructor; [by apply encode_scalar|done].
Qed.

Lemma utf8_cons wc : exists b bs, utf8 wc = b :: bs.
Proof. pose proof (utf8_length_range wc). destruct (utf8 wc) as [|b bs]; [cbn in *; lia|by exists b, bs]. Qed.

Lemma utf8s_cons wc wcs : utf8s (wc :: wcs) = utf8 wc ++ utf8s wcs.
Proof. reflexivity. Qed.

Lemma decode_string_complete wcs : Forall scalar wcs -> forall fuel out, (length (utf8s wcs) <= fuel)%nat -> decode_utf8_loop fuel (utf8s wcs) out = Some (out ++ wcs).
Proof.
  induction 1 as [|wc wcs Hwc _ IH]; intros fuel out Hf; [by destruct fuel; cbn; rewrite app_nil_r|].
  rewrite utf8s_cons in *. rewrite length_app in Hf. pose proof (utf8_length_range wc). destruct fuel as [|fuel]; [lia|].
  pose proof (decode_encoded wc (utf8s wcs) (Z.of_nat (length (utf8 wc ++ utf8s wcs))) Hwc) as Hd.
  rewrite length_app in Hd at 1. specialize (Hd ltac:(lia)). destruct (utf8_cons wc) as (b & bs & Hu).
  assert (Hne : exists b' bs', utf8 wc ++ utf8s wcs = b' :: bs') by (rewrite Hu; by eexists _, _). destruct Hne as (b' & bs' & Hne).
  rewrite Hne in *. cbn [decode_utf8_loop]. rewrite Hd, <- Hne. destruct (Z.eqb_spec (Z.of_nat (length (utf8 wc))) 0); [lia|].
  rewrite Nat2Z.id, drop_app_length, IH by lia. by rewrite <- app_assoc.
Qed.

Lemma decode_string_sound fuel : forall bs out wcs, Forall is_byte bs -> decode_utf8_loop fuel bs out = Some wcs -> exists ws, wcs = out ++ ws /\ Forall scalar ws /\ bs = utf8s ws.
Proof.
  induction fuel as [|fuel IH]; intros bs out wcs Hb; (destruct bs as [|b bs]; [intros [= <-]; exists []; by rewrite app_nil_r|]); [done|].
  cbn [decode_utf8_loop]. destruct (decode_utf8 _ _) as [wc k| |] eqn:Hd; [|done..]. destruct (Z.eqb_spec k 0); [done|].
  apply decode_sound in Hd as (Hsc & Hk & Hle & Ht); [|done|lia]. intros Hl. apply IH in Hl as (ws & -> & Hws & Hrest); [|by apply Forall_drop].
  exists (wc :: ws). rewrite <- app_assoc. split_and!; [done|by constructor|]. rewrite utf8s_cons, <- Ht, <- Hrest. by rewrite take_drop.
Qed.

(** A surrogate is not refused by [encode_utf8] but written as four bytes, which no
    decoder accepts. *)
Theorem surrogate_encoded : encode_utf8 0xd800 = Some [0xf0; 0x8d; 0xa0; 0x80] /\ decode_utf8 [0xf0; 0x8d; 0xa0; 0x80] 4 = Invalid.
Proof. split; reflexivity. Qed.

(** * The decoder of mbrtoc16 and mbrtoc32 *)

Lemma at_take i j (l : list Z) : (i < j)%nat -> at_ (take j l) i = at_ l i.
Proof. unfold at_. revert i j. induction l as [|x l IH]; intros [|i] [|j] H; cbn; lia || done || (apply IH; lia). Qed.

(** It accepts surrogates and is otherwise the same. *)
Lemma uchar_decode_ok input n wc k : Forall is_byte input -> 0 <= n <= Z.of_nat (length input) -> decode_utf8 input n = Ok wc k -> uchar_decode input = Some (wc, k).
Proof.
  intros Hb Hn Hd. pose proof Hd as (Hs & -> & Hk & Ht)%decode_sound; [|done..]. set (k := Z.of_nat (length (utf8 wc))) in *.
  pose proof (expected_len_utf8 wc Hs) as He. pose proof (utf8_length_range wc) as Hl.
  assert (Ha : at_ (utf8 wc) 0 = at_ input 0). { rewrite <- Ht. apply at_take. lia. }
  rewrite Ha in He. fold k in He. assert (Hm : mbrtowc_decode k input = Some wc) by (rewrite (mbrtowc_decode_eq input k n Hb He Hk), Hd; done).
  revert He Hm. unfold expected_len, mbrtowc_decode, uchar_decode.
  destruct (_ =? 0); [intros [= <-]; cbn [Z.eqb Pos.eqb]; by intros [= ->]|].
  destruct (_ =? 0xc0). { intros [= <-]; cbn [Z.eqb Pos.eqb]. destruct (not_continuation _); [done|]. destruct (_ <? _); [done|]. by intros [= ->]. }
  destruct (_ =? 0xe0). { intros [= <-]; cbn [Z.eqb Pos.eqb]. destruct (_ || _); [done|]. destruct (_ <? _); [done|]. destruct (_ && _); [done|]. by intros [= ->]. }
  destruct (_ =? 0xf0); [|done]. intros [= <-]; cbn [Z.eqb Pos.eqb]. destruct (_ || _); [done|]. destruct (_ <? 0x10000); [done|]. destruct (_ <? _); [done|]. by intros [= ->].
Qed.

Lemma lead_masks b : is_byte b -> (Z.land b 0x80 =? 0) = (b <? 128) /\ (Z.land b 0xe0 =? 0xc0) = ((192 <=? b) && (b <? 224)) /\
  (Z.land b 0xf0 =? 0xe0) = ((224 <=? b) && (b <? 240)) /\ (Z.land b 0xf8 =? 0xf0) = ((240 <=? b) && (b <? 248)).
Proof. intros Hb. split_and!; apply eqb_prop; revert b Hb; apply byte_cases; vm_compute; reflexivity. Qed.

(** The first bytes of a list that starts with an encoding. *)
Lemma starts_with wc bs : take (length (utf8 wc)) bs = utf8 wc -> exists rest, bs = utf8 wc ++ rest.
Proof. intros H. exists (drop (length (utf8 wc)) bs). rewrite <- H at 1. by rewrite take_drop. Qed.

(** Bounds of the bytes of an encoding. *)
Ltac encoded_bytes wc H1 :=
  destruct (utf8_cases wc) as [H | [H | [H | H]]]; [lia|rewrite utf8_one by lia|rewrite utf8_two by lia|rewrite utf8_three by lia|rewrite utf8_four by lia];
  assert (0 <= wc / 64 < 32 \/ 2048 <= wc) by modulo; assert (0 <= wc / 4096 < 16 \/ 65536 <= wc) by modulo; assert (0 <= wc / 262144 <= 4) by modulo;
  assert (2 <= wc / 64 \/ wc < 128) by modulo; assert (0 <= wc mod 64 < 64) by modulo; assert (0 <= wc / 64 mod 64 < 64) by modulo; assert (0 <= wc / 4096 mod 64 < 64) by modulo.

Lemma uchar_encoded wc rest : 0 <= wc <= 0x10ffff -> uchar_decode (utf8 wc ++ rest) = Some (wc, Z.of_nat (length (utf8 wc))).
Proof.
  intros H1. unfold uchar_decode. encoded_bytes wc H1; cbn [length app at_ nth];
    match goal with |- context [Z.land ?b 0x80] => destruct (lead_masks b) as (-> & -> & -> & ->); [unfold is_byte; lia|] end;
    rewrite ?continuation_spec, ?two_bytes_value, ?three_bytes_value, ?four_bytes_value by (unfold is_byte; lia).
  - by decide_comparisons.
  - assert ((192 + wc / 64) mod 32 * 64 + (128 + wc mod 64) mod 64 = wc) as -> by modulo. by decide_comparisons.
  - assert ((224 + wc / 4096) mod 16 * 4096 + (128 + wc / 64 mod 64) mod 64 * 64 + (128 + wc mod 64) mod 64 = wc) as -> by modulo. by decide_comparisons.
  - assert ((240 + wc / 262144) mod 8 * 262144 + (128 + wc / 4096 mod 64) mod 64 * 4096 + (128 + wc / 64 mod 64) mod 64 * 64 + (128 + wc mod 64) mod 64 = wc) as -> by modulo. by decide_comparisons.
Qed.

Lemma uchar_sound bs wc k : Forall is_byte bs -> k <= Z.of_nat (length bs) -> uchar_decode bs = Some (wc, k) ->
  0 <= wc <= 0x10ffff /\ k = Z.of_nat (length (utf8 wc)) /\ take (Z.to_nat k) bs = utf8 wc.
Proof.
  intros Hb Hk. unfold uchar_decode. pose proof (at_byte bs 0 Hb). pose proof (at_byte bs 1 Hb). pose proof (at_byte bs 2 Hb). pose proof (at_byte bs 3 Hb).
  assert (Htake : forall j, (j <= 4)%nat -> (j <= length bs)%nat -> take j bs = take j (cells4 bs)) by (intros; apply take_cells4; lia). unfold cells4 in Htake.
  generalize dependent (at_ bs 0). intros b0 Hb0. generalize dependent (at_ bs 1). intros b1 Hb1.
  generalize dependent (at_ bs 2). intros b2 Hb2. generalize dependent (at_ bs 3). intros b3 Hb3 Htake.
  assert (Hfit : forall w j, 0 <= w <= 0x10ffff -> utf8 w = take j [b0; b1; b2; b3] -> (0 < j <= 4)%nat -> Some (w, Z.of_nat j) = Some (wc, k) ->
    0 <= wc <= 0x10ffff /\ k = Z.of_nat (length (utf8 wc)) /\ take (Z.to_nat k) bs = utf8 wc).
  { intros w j Hw Hu Hj [= -> <-]. rewrite Nat2Z.id, Hu, Htake by lia. split_and!; [lia..| |done]. rewrite length_take. cbn [length]. lia. }
  destruct (lead_masks b0 Hb0) as (-> & -> & -> & ->). unfold is_byte in Hb0.
  destruct (Z.ltb_spec b0 128); [apply (Hfit b0 1%nat); [lia|by rewrite utf8_one by lia|lia]|].
  destruct (_ && _) eqn:E2; [rewrite andb_true_iff, Z.leb_le, Z.ltb_lt in E2|clear E2].
  { destruct (not_continuation b1) eqn:C1; [done|]. apply continuation_false in C1; [|done]. rewrite two_linear by lia. destruct (Z.ltb_spec ((b0 - 192) * 64 + (b1 - 128)) 0x80); [done|].
    apply (Hfit _ 2%nat); [lia|rewrite utf8_two by lia; cbn [take]; repeat f_equal; modulo|lia]. }
  destruct (_ && _) eqn:E3; [rewrite andb_true_iff, Z.leb_le, Z.ltb_lt in E3|clear E3].
  { destruct (_ || _) eqn:C; [done|]. apply orb_false_iff in C as [C1 C2]. apply continuation_false in C1, C2; [|done..]. rewrite three_linear by lia. destruct (Z.ltb_spec ((b0 - 224) * 4096 + (b1 - 128) * 64 + (b2 - 128)) 0x800); [done|].
    apply (Hfit _ 3%nat); [lia|rewrite utf8_three by lia; cbn [take]; repeat f_equal; modulo|lia]. }
  destruct (_ && _) eqn:E4; [rewrite andb_true_iff, Z.leb_le, Z.ltb_lt in E4|done].
  destruct (_ || _) eqn:C; [done|]. apply orb_false_iff in C as [[C1 C2]%orb_false_iff C3]. apply continuation_false in C1, C2, C3; [|done..]. rewrite four_linear by lia.
  destruct (_ || _) eqn:C; [done|]. rewrite orb_false_iff, !Z.ltb_ge in C. apply (Hfit _ 4%nat); [lia|rewrite utf8_four by lia; cbn [take]; repeat f_equal; modulo|lia].
Qed.

(** * What each decoder accepts *)

Lemma decode_utf8_iff bs n wc k : Forall is_byte bs -> 0 <= n <= Z.of_nat (length bs) ->
  decode_utf8 bs n = Ok wc k <-> scalar wc /\ k = Z.of_nat (length (utf8 wc)) /\ k <= n /\ take (Z.to_nat k) bs = utf8 wc.
Proof.
  intros Hb Hn. split; [by apply decode_sound|]. intros (Hs & -> & Hk & Ht). rewrite Nat2Z.id in Ht. apply starts_with in Ht as [rest ->]. by apply decode_encoded.
Qed.

Lemma mbrtowc_decode_iff bs e wc : Forall is_byte bs -> expected_len (at_ bs 0) = Some e -> e <= Z.of_nat (length bs) ->
  mbrtowc_decode e bs = Some wc <-> scalar wc /\ take (Z.to_nat e) bs = utf8 wc.
Proof.
  intros Hb He Hl. rewrite (mbrtowc_decode_eq bs e (Z.of_nat (length bs)) Hb He Hl).
  assert (Hlen : forall w j, scalar w -> take j bs = utf8 w -> e = Z.of_nat (length (utf8 w))).
  { intros w j Hs Ht. pose proof (utf8_length_range w) as Hr. pose proof (expected_len_utf8 w Hs) as Hx. rewrite <- Ht, at_take in Hx; [rewrite Ht in Hx; congruence|].
    destruct j; [|lia]. rewrite <- Ht, take_0 in Hr. destruct Hr as [Hr _]. by apply Nat.nle_succ_0 in Hr. }
  split.
  - destruct (decode_utf8 _ _) as [w k| |] eqn:Hd; [|done..]. intros [= ->]. apply decode_sound in Hd as (Hs & -> & _ & Ht); [|done|lia]. split; [done|]. by rewrite (Hlen wc _ Hs Ht).
  - intros [Hs Ht]. pose proof (Hlen wc _ Hs Ht) as ->. rewrite Nat2Z.id in Ht. apply starts_with in Ht as [rest ->]. rewrite decode_encoded; [done..|]. rewrite length_app in *. lia.
Qed.

Lemma uchar_decode_iff bs wc k : Forall is_byte bs -> k <= Z.of_nat (length bs) ->
  uchar_decode bs = Some (wc, k) <-> 0 <= wc <= 0x10ffff /\ k = Z.of_nat (length (utf8 wc)) /\ take (Z.to_nat k) bs = utf8 wc.
Proof.
  intros Hb Hk. split; [by apply uchar_sound|]. intros (Hs & -> & Ht). rewrite Nat2Z.id in Ht. apply starts_with in Ht as [rest ->]. by apply uchar_encoded.
Qed.

(** C31: The codecs are UTF-8. Both encoders ([encode_utf8], [wc_to_utf8]) write the UTF-8
    form of every scalar value. [decode_utf8] and the decoder of mbrtowc accept exactly the
    bytes that start with the UTF-8 form of a scalar value (overlong forms, surrogates,
    values beyond the range and cut sequences are refused) and give that value; the decoder
    of mbrtoc16 and mbrtoc32 accepts in addition the three-byte forms of surrogates and
    nothing else. [decode_utf8_string] accepts exactly the strings that [encode_utf8] makes
    of sequences of scalar values, and gives the sequence back. *)
Theorem utf8_roundtrip bs : Forall is_byte bs ->
  (forall wc, scalar wc -> encode_utf8 wc = Some (utf8 wc) /\ wc_to_utf8 wc = Some (utf8 wc)) /\
  (forall n wc k, 0 <= n <= Z.of_nat (length bs) ->
     decode_utf8 bs n = Ok wc k <-> scalar wc /\ k = Z.of_nat (length (utf8 wc)) /\ k <= n /\ take (Z.to_nat k) bs = utf8 wc) /\
  (forall e wc, expected_len (at_ bs 0) = Some e -> e <= Z.of_nat (length bs) ->
     mbrtowc_decode e bs = Some wc <-> scalar wc /\ take (Z.to_nat e) bs = utf8 wc) /\
  (forall wc k, k <= Z.of_nat (length bs) ->
     uchar_decode bs = Some (wc, k) <-> 0 <= wc <= 0x10ffff /\ k = Z.of_nat (length (utf8 wc)) /\ take (Z.to_nat k) bs = utf8 wc) /\
  (forall wcs, decode_utf8_string bs = Some wcs <-> Forall scalar wcs /\ encode_all wcs = Some bs).
Proof.
  intros Hb. split_and!.
  - intros wc Hs. split; [by apply encode_scalar|apply wc_to_utf8_value, Hs].
  - intros n wc k Hn. by apply decode_utf8_iff.
  - intros e wc He Hl. by apply mbrtowc_decode_iff.
  - intros wc k Hk. by apply uchar_decode_iff.
  - intros wcs. split.
    + intros Hd. apply decode_string_sound in Hd as (ws & -> & Hws & ->); [|done]. cbn. split; [done|]. by apply encode_all_scalar.
    + intros [Hs He]. rewrite encode_all_scalar in He by done. injection He as <-. unfold decode_utf8_string. by rewrite decode_string_complete by done.
Qed.

Lemma utf8_roundtrip_witness : decode_utf8_string [0xe2; 0x82; 0xac; 0x41] = Some [0x20ac; 0x41] /\ mbrtowc_decode 3 [0xe2; 0x82; 0xac; 0x41] = Some 0x20ac /\
  uchar_decode [0xe2; 0x82; 0xac; 0x41] = Some (0x20ac, 3).
Proof.
  assert (Hs : scalar 0x20ac) by (split; [lia|intros [? ?]; lia]). assert (Ha : scalar 0x41) by (split; [lia|intros [? ?]; lia]).
  destruct (utf8_roundtrip [0xe2; 0x82; 0xac; 0x41]) as (_ & _ & Hm & Hu & Hd); [repeat constructor; done|]. split_and!.
  - apply Hd. split; [by apply Forall_cons; split; [|apply Forall_singleton]|reflexivity].
  - apply Hm; [reflexivity|cbn; lia|done].
  - apply Hu; [cbn; lia|done].
Defined.
