(* ===== verification/HleMultibyte.v ===== *)
(** Multibyte and wide characters (src/src/hle/hle_locale.cpp, from btowc on): the
    conversions between UTF-8 in guest memory and 16- and 32-bit characters, one
    character at a time with a conversion state, and whole strings.

    A conversion state (eight bytes: up to four bytes of a character, then their
    number) is in guest memory or, for a null pointer, in one of the static arrays of
    [MbStates], which handlers take and return.  [Uninit] is what uninitialised
    bytes of the host's stack hold.  Loops over guest strings take [fuel] and answer
    [None] when it runs out.  Using a variable that a failed read left
    uninitialised, or indexing a local array out of its bounds, is undefined and
    shown as [Segv]. *)

From S2P Require Import Prelude Env MemoryManager MemorySpec Machine HostAccess HleMonad HleErrno SyscallHandler HlePrintf Utf8.

Definition EILSEQ_VALUE : Z := 84.

Record MbStates := {
  g_internal_mbstate : list Z;
  g_c16rtomb_high_surrogate : Z;
  g_mbrtoc16_pending_low_surrogate : Z;
  g_mbrtoc16_internal_state : list Z;
  g_mbrtoc32_internal_state : list Z;
  g_c16rtomb_internal_state : list Z;
  g_c32rtomb_internal_state : list Z;
}.
Definition eta_mb (g : MbStates) : MbStates :=
  Build_MbStates (g_internal_mbstate g) (g_c16rtomb_high_surrogate g) (g_mbrtoc16_pending_low_surrogate g) (g_mbrtoc16_internal_state g)
    (g_mbrtoc32_internal_state g) (g_c16rtomb_internal_state g) (g_c32rtomb_internal_state g).
#[export] Instance set_g_internal_mbstate : Setter g_internal_mbstate := ltac:(build_setter eta_mb g_internal_mbstate).
#[export] Instance set_g_c16rtomb_high_surrogate : Setter g_c16rtomb_high_surrogate := ltac:(build_setter eta_mb g_c16rtomb_high_surrogate).
#[export] Instance set_g_mbrtoc16_pending : Setter g_mbrtoc16_pending_low_surrogate := ltac:(build_setter eta_mb g_mbrtoc16_pending_low_surrogate).
#[export] Instance set_g_mbrtoc16_state : Setter g_mbrtoc16_internal_state := ltac:(build_setter eta_mb g_mbrtoc16_internal_state).
#[export] Instance set_g_mbrtoc32_state : Setter g_mbrtoc32_internal_state := ltac:(build_setter eta_mb g_mbrtoc32_internal_state).
#[export] Instance set_g_c16rtomb_state : Setter g_c16rtomb_internal_state := ltac:(build_setter eta_mb g_c16rtomb_internal_state).
#[export] Instance set_g_c32rtomb_state : Setter g_c32rtomb_internal_state := ltac:(build_setter eta_mb g_c32rtomb_internal_state).

Definition zero_state : list Z := replicate 8 0.
Definition new_mb_states : MbStates :=
  {| g_internal_mbstate := zero_state; g_c16rtomb_high_surrogate := 0; g_mbrtoc16_pending_low_surrogate := 0;
     g_mbrtoc16_internal_state := zero_state; g_mbrtoc32_internal_state := zero_state;
     g_c16rtomb_internal_state := zero_state; g_c32rtomb_internal_state := zero_state |}.

Class Uninit (S : Type) := uninit : nat -> S -> Z.

Section Multibyte.
Context {S : Type} `{M : !Machine S, HV : !HostView S, U : !Uninit S}.
Implicit Types s : S.
Notation prog := (hle S).

(** [mem_read] of [n] bytes into an uninitialised variable, which is used afterwards: with
    memory that cannot be read the behaviour is undefined. *)
Definition rd_new (a n : Z) : prog Z := fun s => match gread a n s with Some bs => Ret (le_value bs) s | None => Segv end.
(** [mem_read(a, array + k, n)] into an array that holds [bytes]: memory that cannot be read
    leaves it as it is, and bytes that do not fit are written behind it. *)
Definition rd_array (a n k : Z) (bytes : list Z) : prog (list Z) := fun s =>
  if n =? 0 then Ret bytes s
  else match gread a n s with
       | None => Ret bytes s
       | Some bs => if Z.of_nat (length bytes) <? k + n then Segv
                    else Ret (take (Z.to_nat k) bytes ++ bs ++ drop (Z.to_nat (k + n)) bytes) s
       end.
(** An uninitialised array of eight bytes. *)
Definition stack8 : prog (list Z) := fun s => Ret (map (fun i => uninit i s) (seq 0 8)) s.
Definition overrun {A} : prog A := fun _ => Segv.
Definition wr_if (p : Z) (bs : list Z) : prog unit := if negb (p =? 0) then mem_wr p bs else mret tt.

(** * One character, without a state *)

Definition btowc : prog unit :=
  x ← get_x X0;
  let c := s32 x in
  if (c =? -1) || (c <? 0) || (127 <? c) then set_x X0 (-1) else set_x X0 c.

Definition wctob : prog unit :=
  x ← get_x X0;
  let wc := u32 x in
  if 127 <? wc then set_x X0 (-1) else set_x X0 wc.

Definition mbtowc : prog unit :=
  pwc ← get_x X0; str ← get_x X1; n ← get_x X2;
  if str =? 0 then set_x X0 0
  else if n =? 0 then set_x X0 (-1)
  else
    c ← rd_new str 1;
    if c =? 0 then wr_if pwc (le_bytes 4 0);; set_x X0 0
    else wr_if pwc (le_bytes 4 c);; set_x X0 1.

Definition wctomb : prog unit :=
  str ← get_x X0; x ← get_x X1;
  let wc := u32 x in
  if str =? 0 then set_x X0 0
  else if wc <=? 127 then mem_wr str [wc];; set_x X0 1
  else set_x X0 (-1).

Definition mblen : prog unit :=
  str ← get_x X0; n ← get_x X1;
  if str =? 0 then set_x X0 0
  else if n =? 0 then hle_set_errno EILSEQ_VALUE;; set_x X0 (-1)
  else
    let available := Z.min n 4 in
    bytes ← mem_rd_into str available;
    if at_ bytes 0 =? 0 then set_x X0 0
    else
      match decode_utf8_codepoint bytes available with
      | Ok _ consumed => set_x X0 consumed
      | _ => hle_set_errno EILSEQ_VALUE;; set_x X0 (-1)
      end.

Definition mbrlen : prog unit :=
  str ← get_x X0; n ← get_x X1;
  if (str =? 0) || (n =? 0) then set_x X0 (if n =? 0 then -2 else 0)
  else
    c ← rd_new str 1;
    set_x X0 (if c =? 0 then 0 else 1).

Definition ctype_get_mb_cur_max : prog unit := set_x X0 4.

(** * Conversion states *)

Definition uchar_mbstate_is_initial (ps : Z) (internal_state : list Z) : prog bool :=
  if ps =? 0 then mret (le_value (drop 4 internal_state) =? 0)
  else count ← rd_new (ps ⊕ 4) 4; mret (count =? 0).

Definition uchar_mbstate_reset (ps : Z) (internal_state : list Z) : prog (list Z) :=
  if ps =? 0 then mret zero_state
  else mem_wr ps (le_bytes 8 0);; mret internal_state.

(** Into [partial] and [partial_count], both zero before. *)
Definition uchar_mbstate_get_partial (ps : Z) (internal_state : list Z) : prog (list Z * Z) :=
  if ps =? 0 then mret (take 4 internal_state, le_value (drop 4 internal_state))
  else buf ← mem_rd_into ps 4; count ← mem_rd_into (ps ⊕ 4) 4; mret (buf, le_value count).

Definition uchar_mbstate_set_partial (ps : Z) (internal_state buf : list Z) (count : Z) : prog (list Z) :=
  if ps =? 0 then mret (take 4 buf ++ le_bytes 4 count)
  else mem_wr ps (take 4 buf);; mem_wr (ps ⊕ 4) (le_bytes 4 count);; mret internal_state.

Definition mbstate_is_initial (ps : Z) (g : MbStates) : prog bool := uchar_mbstate_is_initial ps (g_internal_mbstate g).
Definition mbstate_reset (ps : Z) (g : MbStates) : prog MbStates :=
  st ← uchar_mbstate_reset ps (g_internal_mbstate g); mret (g <| g_internal_mbstate := st |>).
Definition mbstate_get_partial (ps : Z) (g : MbStates) : prog (list Z * Z) := uchar_mbstate_get_partial ps (g_internal_mbstate g).
Definition mbstate_set_partial (ps : Z) (g : MbStates) (buf : list Z) (count : Z) : prog MbStates :=
  st ← uchar_mbstate_set_partial ps (g_internal_mbstate g) buf count; mret (g <| g_internal_mbstate := st |>).

Definition mbsinit (g : MbStates) : prog unit :=
  ps ← get_x X0;
  initial ← mbstate_is_initial ps g;
  set_x X0 (if initial : bool then 1 else 0).

(** * One character, with a state *)

(** [set_eilseq] of mbrtowc. *)
Definition set_eilseq (ps : Z) (g : MbStates) : prog MbStates :=
  hle_set_errno EILSEQ_VALUE;; g ← mbstate_reset ps g; set_x X0 (-1);; mret g.

Definition wcrtomb (g : MbStates) : prog MbStates :=
  str ← get_x X0; x ← get_x X1; ps ← get_x X2;
  let wc := u32 x in
  if str =? 0 then g ← mbstate_reset ps g; set_x X0 1;; mret g
  else if wc =? 0 then mem_wr str [0];; g ← mbstate_reset ps g; set_x X0 1;; mret g
  else
    initial ← mbstate_is_initial ps g;
    if negb initial then set_eilseq ps g
    else
      match wc_to_utf8 wc with
      | Some buf => mem_wr str buf;; set_x X0 (Z.of_nat (length buf));; mret g
      | None => hle_set_errno EILSEQ_VALUE;; set_x X0 (-1);; mret g
      end.

Definition mbrtowc (g : MbStates) : prog MbStates :=
  pwc ← get_x X0; str ← get_x X1; n ← get_x X2; ps ← get_x X3;
  if str =? 0 then g ← mbstate_reset ps g; set_x X0 0;; mret g
  else if n =? 0 then set_x X0 (-2);; mret g
  else
    saved ← mbstate_get_partial ps g;
    let '(partial, partial_count) := saved : list Z * Z in
    junk ← stack8;
    let copied := Z.to_nat (Z.min partial_count 4) in
    let new_bytes := Z.min n (u32 (4 - partial_count)) in
    bytes ← rd_array str new_bytes partial_count (take copied partial ++ drop copied junk);
    let total_bytes := partial_count + new_bytes in
    match expected_len (at_ bytes 0) with
    | None => set_eilseq ps g
    | Some expected =>
        if total_bytes <? expected then
          g ← mbstate_set_partial ps g bytes total_bytes; set_x X0 (-2);; mret g
        else
          match mbrtowc_decode expected bytes with
          | None => set_eilseq ps g
          | Some wc =>
              let consumed_new :=
                if expected =? 1 then (if 1 <=? partial_count then 0 else 1)
                else if partial_count <? expected then expected - partial_count else 0 in
              g ← mbstate_reset ps g;
              wr_if pwc (le_bytes 4 wc);;
              set_x X0 (if wc =? 0 then 0 else consumed_new);; mret g
          end
    end.

(** ** char16_t and char32_t *)

(** What mbrtoc16 and mbrtoc32 have in common, with the new internal state. *)
Inductive uchar_result := UInvalid | UMore | UChar (codepoint consumed_from_input : Z).

Definition uchar_eilseq (ps : Z) (internal_state : list Z) : prog (uchar_result * list Z) :=
  hle_set_errno EILSEQ_VALUE;; st ← uchar_mbstate_reset ps internal_state; mret (UInvalid, st).

Definition uchar_next (str n ps : Z) (internal_state : list Z) : prog (uchar_result * list Z) :=
  saved ← uchar_mbstate_get_partial ps internal_state;
  let '(partial, partial_count) := saved : list Z * Z in
  if 4 <? partial_count then overrun
  else
    let copied := Z.to_nat partial_count in
    let to_read := Z.min n (8 - partial_count) in
    junk ← stack8;
    bytes ← rd_array str to_read partial_count (take copied partial ++ drop copied junk);
    let total_bytes := partial_count + to_read in
    match expected_len (at_ bytes 0) with
    | None => uchar_eilseq ps internal_state
    | Some expected =>
        if total_bytes <? expected then
          st ← uchar_mbstate_set_partial ps internal_state bytes total_bytes; mret (UMore, st)
        else
          match uchar_decode bytes with
          | None => uchar_eilseq ps internal_state
          | Some (codepoint, len) =>
              st ← uchar_mbstate_reset ps internal_state;
              mret (UChar codepoint (if partial_count <? len then len - partial_count else 0), st)
          end
    end.

Definition high_surrogate (codepoint : Z) : Z := 0xD800 + Z.shiftr (codepoint - 0x10000) 10.
Definition low_surrogate (codepoint : Z) : Z := 0xDC00 + Z.land (codepoint - 0x10000) 0x3FF.

Definition mbrtoc16 (g : MbStates) : prog MbStates :=
  pc16 ← get_x X0; str ← get_x X1; n ← get_x X2; ps ← get_x X3;
  if negb (g_mbrtoc16_pending_low_surrogate g =? 0) then
    wr_if pc16 (le_bytes 2 (g_mbrtoc16_pending_low_surrogate g));;
    set_x X0 (-3);; mret (g <| g_mbrtoc16_pending_low_surrogate := 0 |>)
  else if str =? 0 then
    st ← uchar_mbstate_reset ps (g_mbrtoc16_internal_state g);
    set_x X0 0;; mret (g <| g_mbrtoc16_internal_state := st |>)
  else if n =? 0 then set_x X0 (-2);; mret g
  else
    next ← uchar_next str n ps (g_mbrtoc16_internal_state g);
    let '(r, st) := next : uchar_result * list Z in
    let g := g <| g_mbrtoc16_internal_state := st |> in
    match r with
    | UInvalid => set_x X0 (-1);; mret g
    | UMore => set_x X0 (-2);; mret g
    | UChar codepoint consumed_from_input =>
        (if negb (pc16 =? 0)
         then if codepoint <=? 0xFFFF then mem_wr pc16 (le_bytes 2 codepoint) else mem_wr pc16 (le_bytes 2 (high_surrogate codepoint))
         else mret tt);;
        set_x X0 (if codepoint =? 0 then 0 else consumed_from_input);;
        mret (if 0xFFFF <? codepoint then g <| g_mbrtoc16_pending_low_surrogate := low_surrogate codepoint |> else g)
    end.

Definition c16rtomb (g : MbStates) : prog MbStates :=
  str ← get_x X0; x ← get_x X1; ps ← get_x X2;
  let c16 := x mod 65536 in
  if str =? 0 then
    st ← uchar_mbstate_reset ps (g_c16rtomb_internal_state g);
    set_x X0 1;; mret (g <| g_c16rtomb_high_surrogate := 0 |> <| g_c16rtomb_internal_state := st |>)
  else if c16 =? 0 then
    st ← uchar_mbstate_reset ps (g_c16rtomb_internal_state g);
    mem_wr str [0];;
    set_x X0 1;; mret (g <| g_c16rtomb_high_surrogate := 0 |> <| g_c16rtomb_internal_state := st |>)
  else
    let pending := g_c16rtomb_high_surrogate g in
    let refuse := hle_set_errno EILSEQ_VALUE;; set_x X0 (-1);; mret (g <| g_c16rtomb_high_surrogate := 0 |>) in
    let write codepoint g :=
      match wc_to_utf8 codepoint with
      | Some buf => mem_wr str buf;; set_x X0 (Z.of_nat (length buf));; mret g
      | None => overrun
      end in
    if (0xD800 <=? c16) && (c16 <=? 0xDBFF) then
      if negb (pending =? 0) then refuse
      else set_x X0 0;; mret (g <| g_c16rtomb_high_surrogate := c16 |>)
    else if (0xDC00 <=? c16) && (c16 <=? 0xDFFF) then
      if pending =? 0 then refuse
      else write (Z.shiftl (pending - 0xD800) 10 + (c16 - 0xDC00) + 0x10000) (g <| g_c16rtomb_high_surrogate := 0 |>)
    else if negb (pending =? 0) then refuse
    else write c16 g.

Definition mbrtoc32 (g : MbStates) : prog MbStates :=
  pc32 ← get_x X0; str ← get_x X1; n ← get_x X2; ps ← get_x X3;
  if str =? 0 then
    st ← uchar_mbstate_reset ps (g_mbrtoc32_internal_state g);
    set_x X0 0;; mret (g <| g_mbrtoc32_internal_state := st |>)
  else if n =? 0 then set_x X0 (-2);; mret g
  else
    next ← uchar_next str n ps (g_mbrtoc32_internal_state g);
    let '(r, st) := next : uchar_result * list Z in
    let g := g <| g_mbrtoc32_internal_state := st |> in
    match r with
    | UInvalid => set_x X0 (-1);; mret g
    | UMore => set_x X0 (-2);; mret g
    | UChar codepoint consumed_from_input =>
        wr_if pc32 (le_bytes 4 codepoint);;
        set_x X0 (if codepoint =? 0 then 0 else consumed_from_input);; mret g
    end.

Definition c32rtomb (g : MbStates) : prog MbStates :=
  str ← get_x X0; x ← get_x X1; ps ← get_x X2;
  let c32 := u32 x in
  if str =? 0 then
    st ← uchar_mbstate_reset ps (g_c32rtomb_internal_state g);
    set_x X0 1;; mret (g <| g_c32rtomb_internal_state := st |>)
  else if c32 =? 0 then
    st ← uchar_mbstate_reset ps (g_c32rtomb_internal_state g);
    mem_wr str [0];; set_x X0 1;; mret (g <| g_c32rtomb_internal_state := st |>)
  else
    initial ← uchar_mbstate_is_initial ps (g_c32rtomb_internal_state g);
    if negb initial then
      hle_set_errno EILSEQ_VALUE;;
      st ← uchar_mbstate_reset ps (g_c32rtomb_internal_state g);
      set_x X0 (-1);; mret (g <| g_c32rtomb_internal_state := st |>)
    else
      match wc_to_utf8 c32 with
      | Some buf => mem_wr str buf;; set_x X0 (Z.of_nat (length buf));; mret g
      | None => hle_set_errno EILSEQ_VALUE;; set_x X0 (-1);; mret g
      end.

(** * Strings *)

(** The loop of mbstowcs over what is left of [str]. *)
Fixpoint mbstowcs_loop (str : list Z) (dest n converted : Z) : prog Z :=
  match str with
  | [] => mret converted
  | c :: str =>
      if (dest =? 0) || (converted <? n) then
        (if negb (dest =? 0) then mem_wr (dest ⊕ converted * 4) (le_bytes 4 c) else mret tt);;
        mbstowcs_loop str dest n (converted + 1)
      else mret converted
  end.

Definition mbstowcs : prog unit :=
  dest ← get_x X0; src ← get_x X1; n ← get_x X2;
  str ← (fun s => Ret (read_chars (Z.to_nat 4096) src s) s);
  converted ← mbstowcs_loop str dest n 0;
  (if negb (dest =? 0) && (converted <? n) then mem_wr (dest ⊕ converted * 4) (le_bytes 4 0) else mret tt);;
  set_x X0 converted.

(** The loop of wcstombs: the number of bytes, or -1 when a character has no
    encoding. *)
Fixpoint wcstombs_loop (fuel : nat) (dest src n byte_count wc_idx : Z) : prog (option Z) :=
  match fuel with
  | O => mret None
  | Datatypes.S fuel =>
      wc ← rd_new (src ⊕ wc_idx * 4) 4;
      if wc =? 0 then mret (Some byte_count)
      else
        match wc_to_utf8 wc with
        | None => mret (Some (-1))
        | Some buf =>
            let char_len := wc_to_utf8_len wc in
            if dest =? 0 then wcstombs_loop fuel dest src n (byte_count + char_len) (wc_idx + 1)
            else if n <? byte_count + char_len then mret (Some byte_count)
            else
              mem_wr (dest ⊕ byte_count) buf;;
              wcstombs_loop fuel dest src n (byte_count + char_len) (wc_idx + 1)
        end
  end.

Definition wcstombs (fuel : nat) : prog (option unit) :=
  dest ← get_x X0; src ← get_x X1; n ← get_x X2;
  r ← wcstombs_loop fuel dest src n 0 0;
  match r with
  | None => mret None
  | Some byte_count =>
      if byte_count =? -1 then hle_set_errno EILSEQ_VALUE;; set_x X0 (-1);; mret (Some tt)
      else
        (if negb (dest =? 0) && (byte_count <? n) then mem_wr (dest ⊕ byte_count) [0] else mret tt);;
        set_x X0 byte_count;; mret (Some tt)
  end.

(** The inner loop of mbsrtowcs: bytes are added to those at hand up to four.
    [None]: the string ends here.  Otherwise the bytes and how many there are. *)
Fixpoint next_bytes (k : nat) (a : Z) (bytes : list Z) (available : Z) : prog (option (list Z * Z)) :=
  match k with
  | O => mret (Some (bytes, available))
  | Datatypes.S k =>
      if available <? 4 then
        b ← mem_rd_into a 1;
        let next := le_value b in
        if (available =? 0) && (next =? 0) then mret None
        else if next =? 0 then mret (Some (bytes, available))
        else next_bytes k (a ⊕ 1) (bytes ++ [next]) (available + 1)
      else mret (Some (bytes, available))
  end.

Definition mbs_done (ps wc_count : Z) (g : MbStates) : prog (option MbStates) :=
  g ← mbstate_reset ps g; set_x X0 wc_count;; mret (Some g).

(** [partial] holds the bytes left over from an earlier call, [partial_count] their
    number: both count for the first character only. *)
Fixpoint mbsrtowcs_loop (fuel : nat) (dest src_ptr len ps src : Z) (g : MbStates) (partial : list Z) (partial_count wc_count byte_pos : Z) : prog (option MbStates) :=
  match fuel with
  | O => mret None
  | Datatypes.S fuel =>
      let count_only := dest =? 0 in
      if count_only || (wc_count <? len) then
        r ← next_bytes 4 (src ⊕ byte_pos) (take (Z.to_nat partial_count) partial) partial_count;
        match r : option (list Z * Z) with
        | None =>
            (if negb count_only && (wc_count <? len)
             then mem_wr (dest ⊕ wc_count * 4) (le_bytes 4 0);; mem_wr src_ptr (le_bytes 8 0) else mret tt);;
            mbs_done ps wc_count g
        | Some (bytes, available) =>
            match decode_utf8_codepoint bytes available with
            | Ok wc consumed =>
                (if negb count_only then mem_wr (dest ⊕ wc_count * 4) (le_bytes 4 wc) else mret tt);;
                mbsrtowcs_loop fuel dest src_ptr len ps src g [] 0 (wc_count + 1)
                  (byte_pos + (if partial_count <? consumed then consumed - partial_count else 0))
            | _ =>
                hle_set_errno EILSEQ_VALUE;;
                (if negb count_only then mem_wr src_ptr (le_bytes 8 (src ⊕ byte_pos)) else mret tt);;
                mbs_done ps (-1) g
            end
        end
      else
        (if negb count_only then mem_wr src_ptr (le_bytes 8 (src ⊕ byte_pos)) else mret tt);;
        mbs_done ps wc_count g
  end.

Definition mbsrtowcs (fuel : nat) (g : MbStates) : prog (option MbStates) :=
  dest ← get_x X0; src_ptr ← get_x X1; len ← get_x X2; ps ← get_x X3;
  b ← mem_rd_into src_ptr 8;
  saved ← mbstate_get_partial ps g;
  let '(partial, partial_count) := saved : list Z * Z in
  mbsrtowcs_loop fuel dest src_ptr len ps (le_value b) g partial partial_count 0 0.

(** Counting mode of wcsrtombs; -1 for a character without an encoding. *)
Fixpoint wcs_count (fuel : nat) (src byte_count : Z) : prog (option Z) :=
  match fuel with
  | O => mret None
  | Datatypes.S fuel =>
      wc ← rd_new src 4;
      if wc =? 0 then mret (Some byte_count)
      else
        let char_len := wc_to_utf8_len wc in
        if char_len <? 0 then mret (Some (-1)) else wcs_count fuel (src ⊕ 4) (byte_count + char_len)
  end.

Definition return_x0 (v : Z) : prog (option unit) := set_x X0 v;; mret (Some tt).

Fixpoint wcsrtombs_loop (fuel : nat) (dest src_ptr n src byte_count : Z) : prog (option unit) :=
  match fuel with
  | O => mret None
  | Datatypes.S fuel =>
      if (byte_count <? n) || (n =? 0) then
        wc ← rd_new src 4;
        if wc =? 0 then
          (if byte_count <? n then mem_wr (dest ⊕ byte_count) [0] else mret tt);;
          mem_wr src_ptr (le_bytes 8 0);; return_x0 byte_count
        else
          match wc_to_utf8 wc with
          | None => hle_set_errno EILSEQ_VALUE;; mem_wr src_ptr (le_bytes 8 src);; return_x0 (-1)
          | Some buf =>
              let char_len := wc_to_utf8_len wc in
              if n <? byte_count + char_len then mem_wr src_ptr (le_bytes 8 src);; return_x0 byte_count
              else
                mem_wr (dest ⊕ byte_count) buf;;
                wcsrtombs_loop fuel dest src_ptr n (src ⊕ 4) (byte_count + char_len)
          end
      else mem_wr src_ptr (le_bytes 8 src);; return_x0 byte_count
  end.

Definition wcsrtombs (fuel : nat) (g : MbStates) : prog (option unit) :=
  dest ← get_x X0; src_ptr ← get_x X1; n ← get_x X2; ps ← get_x X3;
  initial ← mbstate_is_initial ps g;
  if negb initial then hle_set_errno EILSEQ_VALUE;; return_x0 (-1)
  else
    src ← rd_new src_ptr 8;
    if dest =? 0 then
      r ← wcs_count fuel src 0;
      match r with
      | None => mret None
      | Some v => (if v =? -1 then hle_set_errno EILSEQ_VALUE else mret tt);; return_x0 v
      end
    else wcsrtombs_loop fuel dest src_ptr n src 0.

(** The loop of wcsnrtombs: the new source pointer and the bytes written; at most
    [nwc] rounds. *)
Fixpoint wcsnrtombs_loop (rounds : nat) (dest len src converted : Z) : prog (Z * Z) :=
  match rounds with
  | O => mret (src, converted)
  | Datatypes.S rounds =>
      if (converted <? len) || (dest =? 0) then
        wc ← rd_new src 4;
        if wc =? 0 then (if negb (dest =? 0) then mem_wr (dest ⊕ converted) [0] else mret tt);; mret (src, converted)
        else if (wc <=? 127) && negb (dest =? 0) && (converted <? len) then
          mem_wr (dest ⊕ converted) [wc];;
          wcsnrtombs_loop rounds dest len (src ⊕ 4) (converted + 1)
        else wcsnrtombs_loop rounds dest len (src ⊕ 4) converted
      else mret (src, converted)
  end.

Definition wcsnrtombs : prog unit :=
  dest ← get_x X0; src_ptr ← get_x X1; nwc ← get_x X2; len ← get_x X3;
  src ← rd_new src_ptr 8;
  r ← wcsnrtombs_loop (Z.to_nat nwc) dest len src 0;
  let '(src, converted) := r : Z * Z in
  mem_wr src_ptr (le_bytes 8 src);; set_x X0 converted.

(** The loop of mbsnrtowcs, which ends when [fuel] is [nms] at the latest. *)
Fixpoint mbsnrtowcs_loop (fuel : nat) (dest src_ptr nms len src converted byte_pos : Z) : prog unit :=
  match fuel with
  | O => (if negb (dest =? 0) then mem_wr src_ptr (le_bytes 8 (src ⊕ byte_pos)) else mret tt);; set_x X0 converted
  | Datatypes.S fuel =>
      let count_only := dest =? 0 in
      if (byte_pos <? nms) && (count_only || (converted <? len)) then
        first ← mem_rd_into (src ⊕ byte_pos) 1;
        if le_value first =? 0 then
          (if negb count_only
           then mem_wr (dest ⊕ converted * 4) (le_bytes 4 0);; mem_wr src_ptr (le_bytes 8 0) else mret tt);;
          set_x X0 converted
        else
          let available := Z.min 4 (nms - byte_pos) in
          bytes ← mem_rd_into (src ⊕ byte_pos) available;
          match decode_utf8_codepoint bytes available with
          | Ok wc consumed =>
              (if negb count_only then mem_wr (dest ⊕ converted * 4) (le_bytes 4 wc) else mret tt);;
              mbsnrtowcs_loop fuel dest src_ptr nms len src (converted + 1) (byte_pos + consumed)
          | _ =>
              hle_set_errno EILSEQ_VALUE;;
              (if negb count_only then mem_wr src_ptr (le_bytes 8 (src ⊕ byte_pos)) else mret tt);;
              set_x X0 (-1)
          end
      else (if negb count_only then mem_wr src_ptr (le_bytes 8 (src ⊕ byte_pos)) else mret tt);; set_x X0 converted
  end.

Definition mbsnrtowcs : prog unit :=
  dest ← get_x X0; src_ptr ← get_x X1; nms ← get_x X2; len ← get_x X3;
  b ← mem_rd_into src_ptr 8;
  mbsnrtowcs_loop (Z.to_nat nms) dest src_ptr nms len (le_value b) 0 0.

End Multibyte.
