(* ===== verification/HleMultibyteSpec.v ===== *)
(** The restartable conversions of hle_locale.cpp against an abstract decoder that is
    fed a character in pieces. *)

From S2P Require Import Prelude Env HeapAllocator MemoryManager MemorySpec Machine HostAccess HleMonad HleErrno MappedSpec SyscallHandler HlePrintf HleSearchHeap Utf8 Utf8Spec HleMultibyte.

(** * The abstract decoder *)

(** What a call makes of the bytes [p] kept from earlier calls and a chunk [c]. *)
Inductive mb_out := MbError | MbMore (p : list Z) | MbChar (wc used : Z).

Definition mb_step (p c : list Z) : mb_out :=
  let avail := p ++ take (4 - length p) c in
  match expected_len (at_ avail 0) with
  | None => MbError
  | Some e =>
      if Z.of_nat (length avail) <? e then MbMore avail
      else match decode_utf8 avail (Z.of_nat (length avail)) with
           | Ok wc k => MbChar wc (k - Z.of_nat (length p))
           | _ => MbError
           end
  end.

Lemma at_app_l l l' i : (i < length l)%nat -> at_ (l ++ l') i = at_ l i.
Proof. intros. unfold at_. by apply app_nth1. Qed.

(** The pieces of one character. *)
Lemma mb_step_pieces wc p c r : scalar wc -> utf8 wc = p ++ c ++ r -> c <> [] ->
  mb_step p c = if decide (r = []) then MbChar wc (Z.of_nat (length c)) else MbMore (p ++ c).
Proof.
  intros Hs Hu Hc. pose proof (utf8_length_range wc) as Hl. assert (Hlen : (length (utf8 wc) = length p + (length c + length r))%nat) by (by rewrite Hu, !length_app).
  assert (0 < length c)%nat by (destruct c; [done|cbn; lia]). unfold mb_step. rewrite (take_ge c) by lia.
  assert (Ha : at_ (p ++ c) 0 = at_ (utf8 wc) 0). { symmetry. rewrite Hu, app_assoc. apply at_app_l. rewrite length_app. lia. }
  rewrite Ha, expected_len_utf8 by done. rewrite !length_app. destruct (decide (r = [])) as [->|Hr].
  - rewrite app_nil_r in Hu. cbn [length] in Hlen. destruct (Z.ltb_spec (Z.of_nat (length p + length c)) (Z.of_nat (length (utf8 wc)))); [lia|].
    rewrite <- Hu. rewrite <- (app_nil_r (utf8 wc)) at 1. rewrite decode_encoded by (done || lia). f_equal. lia.
  - assert (0 < length r)%nat by (destruct r; [done|cbn; lia]). destruct (Z.ltb_spec (Z.of_nat (length p + length c)) (Z.of_nat (length (utf8 wc)))); [done|lia].
Qed.

(** A longer chunk makes no difference to a character it completes. *)
Lemma mb_step_last wc p c more : scalar wc -> utf8 wc = p ++ c -> c <> [] -> mb_step p (c ++ more) = MbChar wc (Z.of_nat (length c)).
Proof.
  intros Hs Hu Hc. pose proof (utf8_length_range wc) as Hl. assert (Hlen : (length (utf8 wc) = length p + length c)%nat) by (by rewrite Hu, length_app).
  assert (0 < length c)%nat by (destruct c; [done|cbn; lia]). unfold mb_step. rewrite take_app, (take_ge c) by lia.
  rewrite app_assoc, <- Hu. set (tl := take _ more).
  assert (Ha : at_ (utf8 wc ++ tl) 0 = at_ (utf8 wc) 0) by (apply at_app_l; lia).
  rewrite Ha, expected_len_utf8, length_app by done. destruct (Z.ltb_spec (Z.of_nat (length (utf8 wc) + length tl)) (Z.of_nat (length (utf8 wc)))); [lia|].
  rewrite decode_encoded by (done || lia). f_equal. lia.
Qed.

(** Decoding looks at the bytes of the sequence only. *)
Lemma mbrtowc_decode_same e l l' : 1 <= e <= 4 -> (forall i, (Z.of_nat i < e) -> at_ l i = at_ l' i) -> mbrtowc_decode e l = mbrtowc_decode e l'.
Proof.
  intros He H. unfold mbrtowc_decode. rewrite (H 0%nat) by lia. assert (e = 1 \/ e = 2 \/ e = 3 \/ e = 4) as [-> | [-> | [-> | ->]]] by lia; cbn [Z.eqb Pos.eqb]; [done|..].
  - by rewrite (H 1%nat) by lia.
  - by rewrite (H 1%nat), (H 2%nat) by lia.
  - by rewrite (H 1%nat), (H 2%nat), (H 3%nat) by lia.
Qed.

Section Spec.
Context {S : Type} `{M : !Machine S, L : !MemLaws S, R : !RegFileLaws S, V : !HostView S, HL : !HostLaws S, U : !Uninit S}.
Implicit Types s : S.

(** * Conversion states *)

(** Bytes that are kept: the beginning of a longer sequence, or none. *)
Definition waiting (p : list Z) : Prop := p = [] \/ exists e, expected_len (at_ p 0) = Some e /\ Z.of_nat (length p) < e.

(** The eight bytes [st] say that [p] was read so far. *)
Record state_bytes (st p : list Z) : Prop := {
  sb_len : length st = 8%nat;
  sb_wait : waiting p;
  sb_byte : Forall is_byte p;
  sb_part : take (length p) st = p;
  sb_count : le_value (drop 4 st) = Z.of_nat (length p);
}.

(** Where they are: in the internal array for a null pointer, else in memory. *)
Definition state_at (f : Z -> option Z) (ps : Z) (internal st : list Z) : Prop := if ps =? 0 then internal = st else holds_at f ps st.
Definition state_mapped (ps : Z) s : Prop := ps <> 0 -> mapped ps 8 s.
Definition state_map (ps : Z) (f : Z -> option Z) (st : list Z) : Z -> option Z := if ps =? 0 then f else stored f ps st.
Definition state_array (ps : Z) (internal st : list Z) : list Z := if ps =? 0 then st else internal.

Definition mb_state (f : Z -> option Z) (ps : Z) (internal p : list Z) : Prop := exists st, state_at f ps internal st /\ state_bytes st p.

Lemma state_zero : state_bytes zero_state [].
Proof. by constructor; [|left|..]. Qed.

Lemma waiting_short p : waiting p -> Forall is_byte p -> (length p < 4)%nat.
Proof. intros [->|(e & He & Hl)] Hb; [cbn; lia|]. apply expected_len_cases in He; [lia|by apply at_byte]. Qed.

Lemma state_stored f ps internal st : state_at (state_map ps f st) ps (state_array ps internal st) st.
Proof.
  unfold state_at, state_map, state_array. destruct (ps =? 0); [done|]. intros i b Hi. by apply stored_in.
Qed.

(** ** The helpers *)

Lemma wp_reset {B} ps internal (k : list Z -> hle S B) Q s0 f s : became s0 f s -> state_mapped ps s0 ->
  (forall s', became s0 (state_map ps f zero_state) s' -> wp (k (state_array ps internal zero_state)) Q s') -> wp (uchar_mbstate_reset ps internal ≫= k) Q s.
Proof.
  intros Hb Hm Hk. apply wp_bind. unfold uchar_mbstate_reset, state_map, state_array, state_mapped in *. destruct (Z.eqb_spec ps 0) as [E|E]; [apply wp_ret; by apply Hk|].
  eapply wp_wr; [exact Hb|by apply Hm|done|]. intros s' Hs'. apply wp_ret. by apply Hk.
Qed.

Lemma get_partial_state ps internal st s : sane s -> state_mapped ps s -> state_at (byte_at s) ps internal st -> length st = 8%nat ->
  uchar_mbstate_get_partial ps internal s = Ret (take 4 st, le_value (drop 4 st)) s.
Proof.
  intros Hs Hm Hst H1. unfold uchar_mbstate_get_partial, state_at, state_mapped in *. destruct (Z.eqb_spec ps 0) as [E|E]; [by rewrite Hst|].
  specialize (Hm E). pose proof (mapped_range _ _ _ (sane_mem _ Hs) Hm) as [? ?]. rewrite <- (take_drop 4 st) in Hst. apply holds_at_app in Hst as [Ha Hb].
  assert (L1 : length (take 4 st) = 4%nat) by (rewrite length_take; lia). assert (L2 : length (drop 4 st) = 4%nat) by (rewrite length_drop; lia). rewrite L1 in Hb.
  pose proof (gread_holds ps (take 4 st) s (sane_mem _ Hs)) as G1. pose proof (gread_holds (ps + 4) (drop 4 st) s (sane_mem _ Hs)) as G2.
  rewrite L1 in G1. rewrite L2 in G2. change (Z.of_nat 4) with 4 in *. unfold mbind, hle_bind, mem_rd_into. rewrite (u64_small (ps + 4)) by u64_lia.
  rewrite G1, G2; [done|eapply mapped_sub; [exact Hm|lia..]|by intros E1; rewrite E1 in L2|done|eapply mapped_sub; [exact Hm|lia..]|by intros E1; rewrite E1 in L1|done].
Qed.

Lemma wp_get_partial {B} ps internal st p (k : list Z * Z -> hle S B) Q s : sane s -> state_mapped ps s -> state_at (byte_at s) ps internal st -> state_bytes st p ->
  wp (k (take 4 st, Z.of_nat (length p))) Q s -> wp (uchar_mbstate_get_partial ps internal ≫= k) Q s.
Proof. intros Hs Hm Hst [H1 _ _ _ H4] Hk. eapply wp_pure; [by apply get_partial_state|]. by rewrite H4. Qed.

Lemma wp_set_partial {B} ps internal buf count (k : list Z -> hle S B) Q s0 f s : became s0 f s -> state_mapped ps s0 -> (4 <= length buf)%nat ->
  (forall s', became s0 (state_map ps f (take 4 buf ++ le_bytes 4 count)) s' -> wp (k (state_array ps internal (take 4 buf ++ le_bytes 4 count))) Q s') ->
  wp (uchar_mbstate_set_partial ps internal buf count ≫= k) Q s.
Proof.
  intros Hb Hm Hl Hk. apply wp_bind. unfold uchar_mbstate_set_partial, state_map, state_array, state_mapped in *. destruct (Z.eqb_spec ps 0) as [E|E]; [apply wp_ret; by apply Hk|].
  specialize (Hm E). pose proof (mapped_range _ _ _ (sane_mem _ ltac:(apply Hb)) (proj2 (bc_map _ _ _ Hb _ _) Hm)) as [? ?].
  assert (L1 : length (take 4 buf) = 4%nat) by (rewrite length_take; lia).
  eapply wp_wr; [exact Hb|rewrite L1; eapply mapped_sub; [exact Hm|lia..]|by intros E1; rewrite E1 in L1|]. intros s1 B1.
  rewrite (u64_small (ps + 4)) by u64_lia.
  eapply wp_wr; [exact B1|rewrite length_le_bytes; eapply mapped_sub; [exact Hm|lia..]|done|]. intros s2 B2. apply wp_ret, Hk.
  eapply became_ext; [|exact B2]. intros x. rewrite <- stored_app, L1. done.
Qed.

(** A read behind [p] into an array of eight bytes. *)
Lemma wp_rd_array {B} a n p rest bs (k : list Z -> hle S B) Q s : sane s -> (bs <> [] -> mapped a n s) -> n = Z.of_nat (length bs) -> holds_at (byte_at s) a bs ->
  length (p ++ rest) = 8%nat -> (length p + length bs <= 8)%nat -> wp (k (p ++ bs ++ drop (length bs) rest)) Q s -> wp (rd_array a n (Z.of_nat (length p)) (p ++ rest) ≫= k) Q s.
Proof.
  intros Hs Hm -> Hh L8 Hfit Hk. assert (Hd : drop (length p + length bs) (p ++ rest) = drop (length bs) rest) by (rewrite drop_app_ge by lia; f_equal; lia).
  unfold rd_array. destruct (Z.eqb_spec (Z.of_nat (length bs)) 0) as [E|E]; [destruct bs; [|cbn in E; lia]; by eapply wp_pure|].
  assert (bs <> []) by (by intros ->). eapply wp_pure; [|exact Hk]. rewrite (gread_holds a bs s); [|apply Hs|by apply Hm|done..]. rewrite L8. destruct (Z.ltb_spec (Z.of_nat 8) (Z.of_nat (length p) + Z.of_nat (length bs))); [lia|].
  rewrite Nat2Z.id, take_app_length, <- Nat2Z.inj_add, Nat2Z.id, Hd. done.
Qed.

(** errno. *)
Definition errno_mapped s : Prop := mapped (guest_errno_addr s) 4 s.
Definition errno_map s (f : Z -> option Z) : Z -> option Z := stored f (guest_errno_addr s) (le_bytes 4 EILSEQ_VALUE).

Lemma wp_errno {B} e (k : unit -> hle S B) Q s0 f s : became s0 f s -> errno_mapped s0 ->
  (forall s', became s0 (stored f (guest_errno_addr s0) (le_bytes 4 e)) s' -> wp (k tt) Q s') -> wp (hle_set_errno e ≫= k) Q s.
Proof.
  intros Hb Hm Hk. apply wp_bind. unfold wp at 1, hle_set_errno, mem_wr. assert (guest_errno_addr s = guest_errno_addr s0) as ->.
  { unfold guest_errno_addr. by rewrite (bc_reg _ _ _ Hb). }
  apply Hk. by apply (write_became _ _ s0 f).
Qed.

Lemma wp_eilseq {B} (k : unit -> hle S B) Q s0 f s : became s0 f s -> errno_mapped s0 ->
  (forall s', became s0 (errno_map s0 f) s' -> wp (k tt) Q s') -> wp (hle_set_errno EILSEQ_VALUE ≫= k) Q s.
Proof. apply wp_errno. Qed.

(** A result that is a negative number. *)
Lemma wp_set_negative {B} v (k : unit -> hle S B) Q s0 f s : became s0 f s -> -8 <= v < 0 ->
  (forall s', returned s0 f (two64 + v) s' -> wp (k tt) Q s') -> wp (set_x X0 v ≫= k) Q s.
Proof.
  intros Hb Hv Hk. apply wp_bind. unfold wp at 1, set_x. assert (u64 v = u64 (two64 + v)) as -> by (unfold u64; replace (two64 + v) with (v + 1 * two64) by lia; by rewrite Z_mod_plus_full).
  apply Hk, became_set; [done|]. unfold two64 in *. lia.
Qed.

Lemma wp_set_then {B} v (k : unit -> hle S B) Q s0 f s : became s0 f s -> 0 <= v < two64 ->
  (forall s', returned s0 f v s' -> wp (k tt) Q s') -> wp (set_x X0 v ≫= k) Q s.
Proof. intros Hb Hv Hk. apply wp_bind. by eapply wp_set. Qed.

(** An optional output. *)
Definition out_map (p : Z) (bs : list Z) (f : Z -> option Z) : Z -> option Z := if p =? 0 then f else stored f p bs.
Definition out_mapped (p n : Z) s : Prop := p <> 0 -> mapped p n s.

Lemma wp_out {B} p bs (k : unit -> hle S B) Q s0 f s : became s0 f s -> out_mapped p (Z.of_nat (length bs)) s0 -> bs <> [] ->
  (forall s', became s0 (out_map p bs f) s' -> wp (k tt) Q s') -> wp (wr_if p bs ≫= k) Q s.
Proof.
  intros Hb Hm Hne Hk. unfold wr_if, out_map, out_mapped in *. destruct (Z.eqb_spec p 0) as [E|E]; cbn [negb]; [apply wp_bind, wp_ret; by apply Hk|].
  eapply wp_wr; [exact Hb|by apply Hm|done|done].
Qed.

(** * mbrtowc *)

Definition with_state (ps : Z) (g : MbStates) (st : list Z) : MbStates := g <| g_internal_mbstate := state_array ps (g_internal_mbstate g) st |>.

Definition mbrtowc_post (pwc ps : Z) (g : MbStates) (p c : list Z) s (g' : MbStates) s' : Prop :=
  match mb_step p c with
  | MbError => g' = with_state ps g zero_state /\ returned s (state_map ps (errno_map s (byte_at s)) zero_state) (two64 - 1) s'
  | MbMore p' => exists st, state_bytes st p' /\ g' = with_state ps g st /\ returned s (state_map ps (byte_at s) st) (two64 - 2) s'
  | MbChar wc used => g' = with_state ps g zero_state /\
      returned s (out_map pwc (le_bytes 4 wc) (state_map ps (byte_at s) zero_state)) (if wc =? 0 then 0 else used) s'
  end.

Lemma wp_set_eilseq ps g Q s : sane s -> errno_mapped s -> state_mapped ps s ->
  (forall s', returned s (state_map ps (errno_map s (byte_at s)) zero_state) (two64 - 1) s' -> Q (with_state ps g zero_state) s') -> wp (set_eilseq ps g) Q s.
Proof.
  intros Hs He Hm HQ. unfold set_eilseq. eapply wp_eilseq; [by apply became_refl|done|]. intros s1 B1. apply wp_bind. unfold mbstate_reset.
  eapply wp_reset; [exact B1|done|]. intros s2 B2. apply wp_ret. eapply wp_set_negative; [exact B2|lia|]. intros s3 R3. apply wp_ret. by apply HQ.
Qed.

(** Steps with a definite outcome. *)
Lemma mb_step_short p c e : let avail := p ++ take (4 - length p) c in
  expected_len (at_ avail 0) = Some e -> Z.of_nat (length avail) < e -> mb_step p c = MbMore avail.
Proof. intros avail He Hl. unfold mb_step. fold avail. rewrite He. by destruct (Z.ltb_spec (Z.of_nat (length avail)) e); [|lia]. Qed.

Lemma mb_step_full p c e : let avail := p ++ take (4 - length p) c in Forall is_byte avail ->
  expected_len (at_ avail 0) = Some e -> e <= Z.of_nat (length avail) ->
  mb_step p c = match mbrtowc_decode e avail with Some wc => MbChar wc (e - Z.of_nat (length p)) | None => MbError end.
Proof.
  intros avail Hb He Hl. unfold mb_step. fold avail. rewrite He. destruct (Z.ltb_spec (Z.of_nat (length avail)) e); [lia|].
  rewrite (mbrtowc_decode_eq avail e (Z.of_nat (length avail))) by done. destruct (decode_utf8 avail _) as [wc k| |] eqn:Hd; [|done..].
  apply decode_sound in Hd as (Hs & -> & Hk & Ht); [|done|lia]. f_equal. pose proof (utf8_length_range wc).
  assert (Some e = Some (Z.of_nat (length (utf8 wc)))) as [= ->]; [|done]. rewrite <- He, <- (expected_len_utf8 wc Hs), <- Ht. by rewrite at_take by lia.
Qed.

Lemma state_bytes_saved bytes avail : waiting avail -> Forall is_byte avail -> (4 <= length bytes)%nat -> take (length avail) bytes = avail ->
  state_bytes (take 4 bytes ++ le_bytes 4 (Z.of_nat (length avail))) avail.
Proof.
  intros Hw Hb H2 H3. pose proof (waiting_short avail Hw Hb). assert (L1 : length (take 4 bytes) = 4%nat) by (rewrite length_take; lia).
  constructor; [by rewrite length_app, L1, length_le_bytes|done|done|..].
  - rewrite take_app_le, take_take by lia. by rewrite Nat.min_l by lia.
  - rewrite drop_app_le, drop_ge, app_nil_l, le_value_bytes by lia. apply Z.mod_small. cbn. lia.
Qed.

Lemma wp_mbrtowc g pwc str c ps p s :
  sane s -> errno_mapped s -> state_mapped ps s -> out_mapped pwc 4 s ->
  getr X0 s = pwc -> getr X1 s = str -> getr X2 s = Z.of_nat (length c) -> getr X3 s = ps ->
  str <> 0 -> c <> [] -> mapped str (Z.of_nat (length c)) s -> holds_at (byte_at s) str c -> Forall is_byte c ->
  mb_state (byte_at s) ps (g_internal_mbstate g) p -> wp (mbrtowc g) (mbrtowc_post pwc ps g p c s) s.
Proof.
  intros Hs He Hps Hpwc E0 E1 E2 E3 Hstr Hc Hmap Hh Bc (st & Hst & Hsb). unfold mbrtowc. do 4 apply wp_reg. rewrite E0, E1, E2, E3.
  assert (Hc' : (0 < length c)%nat) by (destruct c; [done|cbn; lia]).
  rewrite (proj2 (Z.eqb_neq str 0)), (proj2 (Z.eqb_neq (Z.of_nat (length c)) 0)) by (done || lia).
  unfold mbstate_get_partial. eapply wp_get_partial; [done|done|exact Hst|exact Hsb|]. destruct Hsb as [S1 Sw Bp S3 S4]. pose proof (waiting_short p Sw Bp) as S2.
  set (fresh := take (4 - length p) c). assert (Lf : Z.min (Z.of_nat (length c)) (u32 (4 - Z.of_nat (length p))) = Z.of_nat (length fresh)).
  { unfold fresh. rewrite length_take, u32_small by (unfold two32; lia). lia. }
  assert (Hlf : (0 < length fresh <= 4 - length p)%nat) by (unfold fresh; rewrite length_take; lia).
  apply wp_bind. unfold wp at 1, stack8. set (junk := map _ _). assert (Lj : length junk = 8%nat) by (unfold junk; by rewrite length_map, length_seq).
  rewrite Lf, Z.min_l, Nat2Z.id, take_take, Nat.min_l, S3 by lia.
  rewrite <- (take_drop (4 - length p) c) in Hh. apply holds_at_app in Hh as [Hh _]. fold fresh in Hh.
  eapply wp_rd_array; [done|intros _; eapply mapped_sub; [exact Hmap|lia|lia|unfold fresh; rewrite length_take; lia]|done|done|rewrite length_app, length_drop; lia|lia|].
  rewrite drop_drop, app_assoc. set (avail := p ++ fresh). assert (La : (length p + length fresh = length avail)%nat) by (unfold avail; by rewrite length_app).
  rewrite <- Nat2Z.inj_add, La.
  set (bytes := avail ++ drop (length avail) junk). assert (Hla : (length p < length avail <= 4)%nat) by (unfold avail; rewrite length_app; lia).
  assert (Lb : length bytes = 8%nat) by (unfold bytes; rewrite length_app, length_drop; lia).
  assert (Hat : forall i, (i < length avail)%nat -> at_ bytes i = at_ avail i) by (intros; by apply at_app_l). rewrite Hat by lia.
  assert (Ba : Forall is_byte avail) by (apply Forall_app; split; [done|by apply Forall_take]).
  unfold mbrtowc_post. destruct (expected_len (at_ avail 0)) as [e|] eqn:Hexp.
  2: { unfold mb_step. fold fresh avail. rewrite Hexp. apply wp_set_eilseq; [done..|]. by split. }
  assert (Hr : 1 <= e <= 4) by (apply expected_len_cases in Hexp; [lia|by apply at_byte]).
  destruct (Z.ltb_spec (Z.of_nat (length avail)) e) as [Hlt|Hge].
  - rewrite (mb_step_short p c e) by done. fold fresh avail. unfold mbstate_set_partial. apply wp_bind.
    eapply wp_set_partial; [by apply became_refl|done|lia|]. intros s1 B1. apply wp_ret. eapply wp_set_negative; [exact B1|lia|]. intros s2 R2. apply wp_ret.
    exists (take 4 bytes ++ le_bytes 4 (Z.of_nat (length avail))). split_and!; [|done|done]. apply state_bytes_saved; [right; by exists e|done|lia|]. unfold bytes. by rewrite take_app_length.
  - rewrite (mb_step_full p c e) by done. fold fresh avail. rewrite (mbrtowc_decode_same e bytes avail) by (done || intros; apply Hat; lia).
    destruct (mbrtowc_decode e avail) as [wc|] eqn:Hd; [|apply wp_set_eilseq; [done..|]; by split].
    apply wp_bind. unfold mbstate_reset. eapply wp_reset; [by apply became_refl|done|]. intros s1 B1. apply wp_ret.
    eapply wp_out; [exact B1|done|done|]. intros s2 B2. 
    assert (Hp : Z.of_nat (length p) < e).
    { destruct Sw as [-> | (e' & He' & Hl')]; [cbn; lia|]. destruct p; [cbn; lia|]. unfold avail in Hexp. rewrite at_app_l in Hexp by (cbn; lia). congruence. }
    assert (Hcons : (if e =? 1 then if 1 <=? Z.of_nat (length p) then 0 else 1 else if Z.of_nat (length p) <? e then e - Z.of_nat (length p) else 0) = e - Z.of_nat (length p)).
    { destruct (Z.eqb_spec e 1); [destruct (Z.leb_spec 1 (Z.of_nat (length p))); lia|]. destruct (Z.ltb_spec (Z.of_nat (length p)) e); lia. }
    rewrite Hcons. eapply wp_set_then; [exact B2|destruct (wc =? 0); unfold two64; lia|]. intros s3 R3. apply wp_ret. by split.
Qed.

(** *** The count in the state *)

Lemma expected_len_range b e : expected_len b = Some e -> 1 <= e <= 4.
Proof. unfold expected_len. repeat destruct (_ =? _); intros [= <-]; lia. Qed.

(** C40: mbrtowc trusts the count in the guest's conversion state. With readable input, and
    whatever four bytes the state holds, the handler writes behind its local array of eight
    bytes exactly when the count is above four and count and input are more than eight bytes
    together; with a smaller sum, or a count up to four, it returns. *)
Theorem mbrtowc_overrun g pwc str n ps part k s : sane s -> errno_mapped s -> mapped ps 8 s -> out_mapped pwc 4 s -> mapped str n s ->
  getr X0 s = pwc -> getr X1 s = str -> getr X2 s = n -> getr X3 s = ps -> str <> 0 -> 0 < n -> ps <> 0 ->
  length part = 4%nat -> 0 <= k < two32 -> holds_at (byte_at s) ps (part ++ le_bytes 4 k) ->
  (4 < k /\ 8 < k + n -> mbrtowc g s = Segv) /\ (~ (4 < k /\ 8 < k + n) -> exists g' s', mbrtowc g s = Ret g' s').
Proof.
  intros Hs He Hm Hpwc Hstr E0 E1 E2 E3 Hstr0 Hn Hps Hl Hk Hh.
  assert (Hget : uchar_mbstate_get_partial ps (g_internal_mbstate g) s = Ret (part, k) s).
  { rewrite (get_partial_state ps _ (part ++ le_bytes 4 k)); [|done|by intros _|unfold state_at; by rewrite (proj2 (Z.eqb_neq ps 0))|by rewrite length_app, Hl, length_le_bytes].
    rewrite take_app_le, drop_app_ge, Hl, take_ge, drop_0, le_value_bytes by lia. change (2 ^ (8 * Z.of_nat 4)) with two32. by rewrite Z.mod_small by done. }
  assert (Hnew : 4 < k -> Z.min n (u32 (4 - k)) = Z.min n (two32 + 4 - k)).
  { intros. f_equal. unfold u32, two32 in *. rewrite <- (Z_mod_plus_full _ 1), Z.mod_small by lia. lia. }
  unfold two32 in *. split.
  - intros [H4 H8]. unfold mbrtowc, get_x, mbind, hle_bind, mbstate_get_partial, stack8. rewrite E1, E2, E3, (proj2 (Z.eqb_neq str 0)), (proj2 (Z.eqb_neq n 0)), Hget by lia.
    unfold rd_array. rewrite Hnew by done. destruct (Z.eqb_spec (Z.min n (2 ^ 32 + 4 - k)) 0) as [|_]; [lia|].
    destruct (gread_mapped str (Z.min n (2 ^ 32 + 4 - k)) s) as (bs & -> & _); [apply Hs|eapply mapped_sub; [exact Hstr|lia..]|lia|].
    set (old := take _ part ++ _). assert (Hold : length old = 8%nat) by (unfold old; rewrite length_app, length_take, length_drop, length_map, length_seq, Hl; lia).
    rewrite Hold. destruct (Z.ltb_spec (Z.of_nat 8) (k + Z.min n (2 ^ 32 + 4 - k))); [done|lia].
  - intros Hno. assert (Hfit : k + Z.min n (u32 (4 - k)) <= 8).
    { destruct (Z.le_gt_cases k 4); [rewrite u32_small by (unfold two32; lia); lia|rewrite Hnew by lia; lia]. }
    enough (Hw : wp (mbrtowc g) (fun _ _ => True) s) by (unfold wp in Hw; destruct (mbrtowc g s) as [g' s'| |]; [by exists g', s'|done..]).
    assert (Hps' : state_mapped ps s) by (by intros _).
    unfold mbrtowc. do 4 apply wp_reg. rewrite E0, E1, E2, E3, (proj2 (Z.eqb_neq str 0)), (proj2 (Z.eqb_neq n 0)) by lia.
    eapply wp_pure; [exact Hget|]. eapply wp_pure; [reflexivity|]. set (old := take _ part ++ _).
    assert (Hold : length old = 8%nat) by (unfold old; rewrite length_app, length_take, length_drop, length_map, length_seq, Hl; lia).
    assert (Hrd : exists bytes, rd_array str (Z.min n (u32 (4 - k))) k old s = Ret bytes s /\ length bytes = 8%nat).
    { pose proof (Z.mod_pos_bound (4 - k) two32 eq_refl) as Hu. fold (u32 (4 - k)) in Hu. unfold rd_array. destruct (Z.eqb_spec (Z.min n (u32 (4 - k))) 0) as [|Hz]; [by exists old|].
      destruct (gread_mapped str (Z.min n (u32 (4 - k))) s) as (bs & -> & Lb & _); [apply Hs|eapply mapped_sub; [exact Hstr|lia..]|lia|].
      rewrite Hold. destruct (Z.ltb_spec (Z.of_nat 8) (k + Z.min n (u32 (4 - k)))); [lia|]. eexists. split; [done|]. rewrite !length_app, length_take, length_drop. lia. }
    destruct Hrd as (bytes & Hrd & Lb). eapply wp_pure; [exact Hrd|]. destruct (expected_len (at_ bytes 0)) as [e|] eqn:Hexp; [|by apply wp_set_eilseq].
    apply expected_len_range in Hexp. destruct (_ <? e).
    + unfold mbstate_set_partial. apply wp_bind. eapply wp_set_partial; [by apply became_refl|done|lia|]. intros s1 B1. apply wp_ret. eapply wp_set_negative; [exact B1|lia|]. intros s2 R2. by apply wp_ret.
    + destruct (mbrtowc_decode e bytes) as [wc|]; [|by apply wp_set_eilseq]. apply wp_bind. unfold mbstate_reset. eapply wp_reset; [by apply became_refl|done|]. intros s1 B1. apply wp_ret.
      eapply wp_out; [exact B1|done|done|]. intros s2 B2. eapply wp_set_then; [exact B2| |intros s3 R3; by apply wp_ret].
      unfold two64. repeat match goal with |- context [if ?b then _ else _] => destruct b eqn:? end; lia.
Qed.

(** ** Feeding a character in pieces *)

(** What is kept for the next call. *)
Definition kept (o : mb_out) : list Z := match o with MbMore p => p | _ => [] end.

Lemma state_kept f g ps internal st p : state_bytes st p -> (forall x, f x = state_map ps g st x) -> mb_state f ps (state_array ps internal st) p.
Proof.
  intros Hb Hf. exists st. split; [|done]. pose proof (state_stored g ps internal st) as Hst. unfold state_at in *. destruct (ps =? 0); [done|].
  eapply holds_at_ext; [|exact Hst]. intros x _. by rewrite Hf.
Qed.

Lemma state_apart f ps internal p a bs : (ps = 0 \/ disj a (Z.of_nat (length bs)) ps 8) -> mb_state f ps internal p -> mb_state (stored f a bs) ps internal p.
Proof.
  intros Hd (st & Hst & Hb). exists st. split; [|done]. unfold state_at in *. destruct (Z.eqb_spec ps 0) as [E|E]; [done|].
  eapply holds_at_ext; [|exact Hst]. rewrite (sb_len _ _ Hb). intros x Hx. unfold stored. rewrite decide_False; [done|]. unfold disj in Hd. lia.
Qed.

(** C32: mbrtowc is the restartable decoder [mb_step], with its state in guest memory
    or in the internal array: from a state that holds the bytes [p] and a chunk [c] it
    returns -2 and keeps the bytes while the sequence is not complete, it stores the
    character, returns the number of bytes used (0 for the null character) and forgets
    the state when it is, and for bytes that are no UTF-8 it sets errno, forgets the
    state and returns -1; no other byte of memory changes.  A character that arrives in
    pieces, cut anywhere, is given back by the last piece. *)
Theorem mbrtowc_refines g pwc str c ps p s :
  sane s -> errno_mapped s -> state_mapped ps s -> out_mapped pwc 4 s -> pwc = 0 \/ ps = 0 \/ disj pwc 4 ps 8 ->
  getr X0 s = pwc -> getr X1 s = str -> getr X2 s = Z.of_nat (length c) -> getr X3 s = ps ->
  str <> 0 -> c <> [] -> mapped str (Z.of_nat (length c)) s -> holds_at (byte_at s) str c -> Forall is_byte c ->
  mb_state (byte_at s) ps (g_internal_mbstate g) p ->
  wp (mbrtowc g) (fun g' s' => mbrtowc_post pwc ps g p c s g' s' /\ mb_state (byte_at s') ps (g_internal_mbstate g') (kept (mb_step p c))) s /\
  forall wc r, scalar wc -> utf8 wc = p ++ c ++ r -> mb_step p c = if decide (r = []) then MbChar wc (Z.of_nat (length c)) else MbMore (p ++ c).
Proof.
  intros Hs He Hps Hpwc Hd E0 E1 E2 E3 Hstr Hc Hmap Hh Bc Hst. split; [|intros wc r Hw Hu; by apply mb_step_pieces].
  refine (wp_mono _ _ _ _ (wp_mbrtowc g pwc str c ps p s Hs He Hps Hpwc E0 E1 E2 E3 Hstr Hc Hmap Hh Bc Hst) _).
  intros g' s' HQ. split; [done|]. unfold mbrtowc_post in HQ. destruct (mb_step p c) as [|p'|wc used]; cbn [kept].
  - destruct HQ as [-> [_ _ _ Hb _ _]]. eapply state_kept; [apply state_zero|exact Hb].
  - destruct HQ as (st & Hsb & -> & [_ _ _ Hb _ _]). by eapply state_kept.
  - destruct HQ as [-> [_ _ _ Hb _ _]]. unfold out_map in Hb. destruct (Z.eqb_spec pwc 0) as [E|E]; [eapply state_kept; [apply state_zero|exact Hb]|].
    assert (Hm : mb_state (stored (state_map ps (byte_at s) zero_state) pwc (le_bytes 4 wc)) ps (state_array ps (g_internal_mbstate g) zero_state) []).
    { apply state_apart; [rewrite length_le_bytes; destruct Hd as [|[|]]; auto; done|]. eapply state_kept; [apply state_zero|done]. }
    destruct Hm as (st & Ha & Hsb). exists st. split; [|done]. unfold state_at in *. destruct (ps =? 0); [done|]. eapply holds_at_ext; [|exact Ha]. intros x _. by rewrite Hb.
Qed.

End Spec.

(** * A euro sign in two pieces *)

#[local] Instance mb_uninit : Uninit (mstate (E := RefEnv)) := fun i _ => Z.of_nat i.

(** The heap is mapped; errno is in it; two bytes lie at its beginning. *)
Definition mb_mem (bs : list Z) (x0 x1 x2 x3 : Z) : mstate (E := RefEnv) :=
  putr X3 x3 (putr X2 x2 (putr X1 x1 (putr X0 x0 (putr REG_TPIDR_EL0 (HEAP_BASE + 0x1000) (gwrite HEAP_BASE bs heap_mem).2)))).

Lemma mb_mem_mapped bs x0 x1 x2 x3 a n : HEAP_BASE <= a -> a + n <= HEAP_BASE + HEAP_SIZE -> 0 < n -> mapped a n (mb_mem bs x0 x1 x2 x3).
Proof. intros. apply (mapped_sub HEAP_BASE HEAP_SIZE); [|done..]. unfold mb_mem. do 5 apply mapped_putr. apply mapped_write, (gh_mapped _ heap_mem_ok). Qed.

Lemma mb_mem_sane bs x0 x1 x2 x3 : sane (S := mstate) (mb_mem bs x0 x1 x2 x3).
Proof.
  pose proof heap_mem_sane as [H1 H2 H3 H4]. unfold mb_mem.
  constructor; [do 5 apply ok_putr; cbn; rewrite mm_write; done|repeat apply cpu_putr; by apply cpu_gwrite|repeat apply host_putr; by apply host_gwrite|done].
Qed.

Lemma mb_mem_errno bs x0 x1 x2 x3 : guest_errno_addr (mb_mem bs x0 x1 x2 x3) = HEAP_BASE + 0x10f8.
Proof.
  unfold guest_errno_addr, mb_mem. do 4 (rewrite getr_putr_ne by done). rewrite getr_putr; [reflexivity|by apply cpu_gwrite|done].
Qed.

Lemma mbrtowc_refines_witness : wp (mbrtowc new_mb_states) (fun g' s' => getr X0 s' = two64 - 2 /\ mb_state (byte_at s') 0 (g_internal_mbstate g') [0xe2; 0x82])
  (mb_mem [0xe2; 0x82] (HEAP_BASE + 0x100) HEAP_BASE 2 0).
Proof.
  destruct (mbrtowc_refines new_mb_states (HEAP_BASE + 0x100) HEAP_BASE [0xe2; 0x82] 0 [] (mb_mem [0xe2; 0x82] (HEAP_BASE + 0x100) HEAP_BASE 2 0)) as [H _];
    [apply mb_mem_sane|unfold errno_mapped; rewrite mb_mem_errno; apply mb_mem_mapped; unfold HEAP_SIZE; lia|intros Hz; destruct (Hz eq_refl)|intros _; apply mb_mem_mapped; unfold HEAP_SIZE; lia|by right; left|done..| | | | |].
  - apply mb_mem_mapped; unfold HEAP_SIZE; cbn; lia.
  - intros [|[|i]] b Hi; cbn in Hi; simplify_eq; vm_compute; reflexivity.
  - by repeat constructor.
  - exists zero_state. split; [done|apply state_zero].
  - refine (wp_mono _ _ _ _ H _). intros g' s' [HQ Hm]. split; [|exact Hm]. destruct HQ as (st & _ & _ & HR). exact (rt_value _ _ _ _ HR).
Defined.

(** A count of 9 with one byte of input, and a count of 5 with one byte. *)
Definition count_mem (k : Z) : mstate (E := RefEnv) := mb_mem ([0; 0; 0; 0] ++ le_bytes 4 k) 0 (HEAP_BASE + 0x200) 1 HEAP_BASE.

Lemma count_mem_state k : k = 9 \/ k = 5 -> holds_at (byte_at (count_mem k)) HEAP_BASE ([0; 0; 0; 0] ++ le_bytes 4 k).
Proof. intros [-> | ->] [|[|[|[|[|[|[|[|i]]]]]]]] b Hi; cbn in Hi; simplify_eq; vm_compute; reflexivity. Qed.

Lemma count_mem_mapped k a n : HEAP_BASE <= a -> a + n <= HEAP_BASE + HEAP_SIZE -> 0 < n -> mapped a n (count_mem k).
Proof. exact (mb_mem_mapped _ _ _ _ _ a n). Qed.

Lemma count_mem_errno k : errno_mapped (count_mem k).
Proof. unfold errno_mapped, count_mem. rewrite mb_mem_errno. apply mb_mem_mapped; unfold HEAP_SIZE; lia. Qed.

Lemma mbrtowc_overrun_witness : mbrtowc new_mb_states (count_mem 9) = Segv /\ exists g' s', mbrtowc new_mb_states (count_mem 5) = Ret g' s'.
Proof.
  split.
  - apply (mbrtowc_overrun new_mb_states 0 (HEAP_BASE + 0x200) 1 HEAP_BASE [0; 0; 0; 0] 9 (count_mem 9) (mb_mem_sane _ _ _ _ _) (count_mem_errno 9));
      [apply count_mem_mapped; unfold HEAP_SIZE; lia|by intros []|apply count_mem_mapped; unfold HEAP_SIZE; lia|reflexivity..|done|done|done|reflexivity|done|apply count_mem_state; lia|lia].
  - apply (mbrtowc_overrun new_mb_states 0 (HEAP_BASE + 0x200) 1 HEAP_BASE [0; 0; 0; 0] 5 (count_mem 5) (mb_mem_sane _ _ _ _ _) (count_mem_errno 5));
      [apply count_mem_mapped; unfold HEAP_SIZE; lia|by intros []|apply count_mem_mapped; unfold HEAP_SIZE; lia|reflexivity..|done|done|done|reflexivity|done|apply count_mem_state; lia|lia].
Defined.
