(* ===== verification/HleUcharSpec.v ===== *)
(** mbrtoc16 and c16rtomb of hle_locale.cpp are inverse to each other. *)

From S2P Require Import Prelude Env HeapAllocator MemoryManager MemorySpec Machine HostAccess HleMonad HleErrno MappedSpec SyscallHandler HlePrintf HleSearchHeap Utf8 Utf8Spec HleMultibyte HleMultibyteSpec.

(** * UTF-16 *)

(** The first and second unit of a character, 0 if there is no second one. *)
Definition unit1 (wc : Z) : Z := if wc <=? 0xFFFF then wc else high_surrogate wc.
Definition unit2 (wc : Z) : Z := if wc <=? 0xFFFF then 0 else low_surrogate wc.

Lemma high_value wc : high_surrogate wc = 0xD800 + (wc - 0x10000) / 1024.
Proof. unfold high_surrogate. by rewrite Z.shiftr_div_pow2 by lia. Qed.
Lemma low_value wc : low_surrogate wc = 0xDC00 + (wc - 0x10000) mod 1024.
Proof. unfold low_surrogate. change 0x3FF with (Z.ones 10). by rewrite Z.land_ones by lia. Qed.

(** Two units make the character again. *)
Lemma surrogates_combine wc : 0x10000 <= wc <= 0x10ffff ->
  0xD800 <= high_surrogate wc <= 0xDBFF /\ 0xDC00 <= low_surrogate wc <= 0xDFFF /\
  Z.shiftl (high_surrogate wc - 0xD800) 10 + (low_surrogate wc - 0xDC00) + 0x10000 = wc.
Proof.
  intros Hw. rewrite Z.shiftl_mul_pow2, high_value, low_value by lia. pose proof (Z.div_mod (wc - 0x10000) 1024). pose proof (Z.mod_pos_bound (wc - 0x10000) 1024).
  split_and!; modulo || lia.
Qed.

(** * The decoder *)

Lemma uchar_decode_same e l l' : expected_len (at_ l 0) = Some e -> (forall i, (Z.of_nat i < e) -> at_ l i = at_ l' i) -> uchar_decode l = uchar_decode l'.
Proof.
  unfold expected_len, uchar_decode. intros He H. assert (0 < e) by (repeat case_match; simplify_eq; lia). rewrite <- (H 0%nat) by lia. revert He.
  repeat (destruct (_ =? _); [intros [= <-]; rewrite <- ?(H 1%nat), <- ?(H 2%nat), <- ?(H 3%nat) by lia; done|]). done.
Qed.

Section Uchar.
Context {S : Type} `{M : !Machine S, L : !MemLaws S, R : !RegFileLaws S, V : !HostView S, HL : !HostLaws S, U : !Uninit S}.
Implicit Types s : S.

(** The last piece of a character, with whatever follows it. *)
Lemma wp_uchar_last {B} str n ps internal p c more wc (k : uchar_result * list Z -> hle S B) Q s :
  sane s -> state_mapped ps s -> mb_state (byte_at s) ps internal p -> scalar wc -> utf8 wc = p ++ c -> c <> [] ->
  n = Z.of_nat (length (c ++ more)) -> mapped str n s -> holds_at (byte_at s) str (c ++ more) ->
  (forall s', became s (state_map ps (byte_at s) zero_state) s' -> wp (k (UChar wc (Z.of_nat (length c)), state_array ps internal zero_state)) Q s') ->
  wp (uchar_next str n ps internal ≫= k) Q s.
Proof.
  intros Hs Hps (st & Hst & Hsb) Hw Hu Hc -> Hm Hh Hk. apply wp_bind. unfold uchar_next. eapply wp_get_partial; [done|done|exact Hst|exact Hsb|].
  destruct Hsb as [S1 Sw Bp S3 S4]. pose proof (waiting_short p Sw Bp) as S2. pose proof (utf8_length_range wc) as Hl.
  assert (Hlen : (length (utf8 wc) = length p + length c)%nat) by (by rewrite Hu, length_app). assert (Hc' : (0 < length c)%nat) by (destruct c; [done|cbn; lia]).
  destruct (Z.ltb_spec 4 (Z.of_nat (length p))); [lia|]. set (fresh := take (8 - length p) (c ++ more)).
  assert (Lf : Z.min (Z.of_nat (length (c ++ more))) (8 - Z.of_nat (length p)) = Z.of_nat (length fresh)) by (unfold fresh; rewrite length_take; lia). rewrite Lf.
  rewrite <- (take_drop (8 - length p) (c ++ more)) in Hh. apply holds_at_app in Hh as [Hh _]. fold fresh in Hh.
  assert (Hfr : fresh = c ++ take (8 - length p - length c) more) by (unfold fresh; rewrite take_app, (take_ge c) by lia; done).
  apply wp_bind. unfold wp at 1, stack8. set (junk := map _ _). assert (Lj : length junk = 8%nat) by (unfold junk; by rewrite length_map, length_seq). rewrite !Nat2Z.id, take_take, Nat.min_l, S3 by lia.
  eapply wp_rd_array; [done|intros _; eapply mapped_sub; [exact Hm|rewrite Hfr, length_app; lia|lia|lia]|done|done|rewrite length_app, length_drop; lia|unfold fresh; rewrite length_take; lia|].
  rewrite Hfr, <- app_assoc, app_assoc, <- Hu. set (tl := take _ more ++ _).
  assert (He : expected_len (at_ (utf8 wc ++ tl) 0) = Some (Z.of_nat (length (utf8 wc)))) by (rewrite at_app_l by lia; by apply expected_len_utf8). rewrite He.
  destruct (Z.ltb_spec (Z.of_nat (length p) + Z.of_nat (length (c ++ take (8 - length p - length c) more))) (Z.of_nat (length (utf8 wc)))) as [Hlt|_]; [rewrite length_app in Hlt; lia|].
  assert (Hd : uchar_decode (utf8 wc ++ tl) = Some (wc, Z.of_nat (length (utf8 wc)))).
  { rewrite (uchar_decode_same _ _ (utf8 wc) He) by (intros; apply at_app_l; lia). destruct Hw as [Hw1 Hw2].
    apply (uchar_decode_ok _ (Z.of_nat (length (utf8 wc)))); [by apply utf8_bytes|lia|]. rewrite <- (app_nil_r (utf8 wc)) at 1. by apply decode_encoded. }
  rewrite Hd. eapply wp_reset; [by apply became_refl|done|]. intros s1 B1. apply wp_ret. destruct (Z.ltb_spec (Z.of_nat (length p)) (Z.of_nat (length (utf8 wc)))); [|lia].
  replace (Z.of_nat (length (utf8 wc)) - Z.of_nat (length p)) with (Z.of_nat (length c)) by lia. by apply Hk.
Qed.

(** * The handlers *)

Definition with_c16 (ps : Z) (g : MbStates) (pending : Z) : MbStates :=
  g <| g_mbrtoc16_internal_state := state_array ps (g_mbrtoc16_internal_state g) zero_state |> <| g_mbrtoc16_pending_low_surrogate := pending |>.

(** mbrtoc16 at the last piece of a character. *)
Lemma wp_mbrtoc16_last g pc16 str ps p c more wc s :
  sane s -> state_mapped ps s -> out_mapped pc16 2 s -> g_mbrtoc16_pending_low_surrogate g = 0 -> mb_state (byte_at s) ps (g_mbrtoc16_internal_state g) p ->
  getr X0 s = pc16 -> getr X1 s = str -> getr X2 s = Z.of_nat (length (c ++ more)) -> getr X3 s = ps -> str <> 0 ->
  mapped str (Z.of_nat (length (c ++ more))) s -> holds_at (byte_at s) str (c ++ more) -> scalar wc -> wc <> 0 -> utf8 wc = p ++ c -> c <> [] ->
  wp (mbrtoc16 g) (fun g' s' => g' = with_c16 ps g (unit2 wc) /\
    returned s (out_map pc16 (le_bytes 2 (unit1 wc)) (state_map ps (byte_at s) zero_state)) (Z.of_nat (length c)) s') s.
Proof.
  intros Hs Hps Hpc Hg Hst E0 E1 E2 E3 Hstr Hm Hh Hw Hw0 Hu Hc. unfold mbrtoc16. do 4 apply wp_reg. rewrite E0, E1, E2, E3, Hg. cbn [Z.eqb negb].
  assert (0 < length c)%nat by (destruct c; [done|cbn; lia]). rewrite (proj2 (Z.eqb_neq str 0)), (proj2 (Z.eqb_neq (Z.of_nat (length (c ++ more))) 0)) by (done || rewrite length_app; lia).
  eapply wp_uchar_last; [done|done|exact Hst|done|exact Hu|done|done|done|done|]. intros s1 B1.
  assert (Hout : forall (k : unit -> hle S MbStates) Q, (forall s2, became s (out_map pc16 (le_bytes 2 (unit1 wc)) (state_map ps (byte_at s) zero_state)) s2 -> wp (k tt) Q s2) ->
    wp ((if negb (pc16 =? 0) then if wc <=? 0xFFFF then mem_wr pc16 (le_bytes 2 wc) else mem_wr pc16 (le_bytes 2 (high_surrogate wc)) else mret tt) ≫= k) Q s1).
  { intros k Q Hk. pose proof (wp_out pc16 (le_bytes 2 (unit1 wc)) k Q s _ s1 B1 Hpc) as Ho. unfold wr_if, unit1 in *. destruct (wc <=? 0xFFFF); by apply Ho. }
  apply Hout. intros s2 B2. rewrite (proj2 (Z.eqb_neq wc 0)) by done. pose proof (mapped_range _ _ _ (sane_mem _ Hs) Hm) as [? Hr]. rewrite length_app in Hr.
  eapply wp_set_then; [exact B2|lia|]. intros s3 R3. apply wp_ret. split; [|done]. unfold with_c16, unit2. destruct g. cbn in Hg. subst.
  destruct (Z.leb_spec wc 0xFFFF), (Z.ltb_spec 0xFFFF wc); lia || done.
Qed.

(** The second unit. *)
Lemma wp_mbrtoc16_pending g pc16 s : sane s -> out_mapped pc16 2 s -> g_mbrtoc16_pending_low_surrogate g <> 0 -> getr X0 s = pc16 ->
  wp (mbrtoc16 g) (fun g' s' => g' = g <| g_mbrtoc16_pending_low_surrogate := 0 |> /\
    returned s (out_map pc16 (le_bytes 2 (g_mbrtoc16_pending_low_surrogate g)) (byte_at s)) (two64 - 3) s') s.
Proof.
  intros Hs Hpc Hg E0. unfold mbrtoc16. do 4 apply wp_reg. rewrite E0, (proj2 (Z.eqb_neq _ 0)) by done. cbn [negb].
  eapply wp_out; [by apply became_refl|done|done|]. intros s1 B1. eapply wp_set_negative; [exact B1|lia|]. intros s2 R2. by apply wp_ret.
Qed.

(** c16rtomb writes the encoding. *)
Lemma wp_c16_write str wc g (Q : MbStates -> S -> Prop) s : sane s -> 0 <= wc <= 0x10ffff -> mapped str (Z.of_nat (length (utf8 wc))) s ->
  (forall s', returned s (stored (byte_at s) str (utf8 wc)) (Z.of_nat (length (utf8 wc))) s' -> Q g s') ->
  wp (match wc_to_utf8 wc with Some buf => mem_wr str buf;; set_x X0 (Z.of_nat (length buf));; mret g | None => overrun end) Q s.
Proof.
  intros Hs Hw Hm HQ. destruct (wc_to_utf8_value wc Hw) as [-> _]. pose proof (utf8_length_range wc) as Hl.
  eapply wp_wr; [by apply became_refl|done|by intros E; rewrite E in Hl; cbn in Hl; lia|]. intros s1 B1.
  eapply wp_set_then; [exact B1|unfold two64; lia|]. intros s2 R2. apply wp_ret. by apply HQ.
Qed.

Lemma wp_c16rtomb_first g str wc s : sane s -> g_c16rtomb_high_surrogate g = 0 -> scalar wc -> wc <> 0 ->
  getr X0 s = str -> getr X1 s = unit1 wc -> str <> 0 -> mapped str (Z.of_nat (length (utf8 wc))) s ->
  wp (c16rtomb g) (fun g' s' =>
    if wc <=? 0xFFFF then g' = g /\ returned s (stored (byte_at s) str (utf8 wc)) (Z.of_nat (length (utf8 wc))) s'
    else g' = g <| g_c16rtomb_high_surrogate := unit1 wc |> /\ returned s (byte_at s) 0 s') s.
Proof.
  intros Hs Hg [Hw1 Hw2] Hw0 E0 E1 Hstr Hm. unfold c16rtomb. do 3 apply wp_reg. rewrite E0, E1, Hg, (proj2 (Z.eqb_neq str 0)) by done. unfold unit1.
  destruct (Z.leb_spec wc 0xFFFF) as [Hle|Hgt].
  - rewrite Z.mod_small, (proj2 (Z.eqb_neq wc 0)) by lia. cbn [Z.eqb negb].
    destruct (Z.leb_spec 0xD800 wc), (Z.leb_spec wc 0xDBFF); cbn [andb]; try lia; destruct (Z.leb_spec 0xDC00 wc), (Z.leb_spec wc 0xDFFF); cbn [andb]; try lia;
      apply wp_c16_write; done || (intros s' Hr; by split).
  - destruct (surrogates_combine wc) as (Hh & _ & _); [lia|]. rewrite Z.mod_small, (proj2 (Z.eqb_neq (high_surrogate wc) 0)) by lia. cbn [Z.eqb negb].
    destruct (Z.leb_spec 0xD800 (high_surrogate wc)), (Z.leb_spec (high_surrogate wc) 0xDBFF); cbn [andb]; try lia.
    eapply wp_set_then; [by apply became_refl|unfold two64; lia|]. intros s1 R1. apply wp_ret. by split.
Qed.

Lemma wp_c16rtomb_second g str wc s : sane s -> g_c16rtomb_high_surrogate g = unit1 wc -> scalar wc -> 0xFFFF < wc ->
  getr X0 s = str -> getr X1 s = unit2 wc -> str <> 0 -> mapped str (Z.of_nat (length (utf8 wc))) s ->
  wp (c16rtomb g) (fun g' s' => g' = g <| g_c16rtomb_high_surrogate := 0 |> /\ returned s (stored (byte_at s) str (utf8 wc)) (Z.of_nat (length (utf8 wc))) s') s.
Proof.
  intros Hs Hg [Hw1 Hw2] Hw0 E0 E1 Hstr Hm. unfold c16rtomb. do 3 apply wp_reg. unfold unit1, unit2 in *. rewrite E0, E1, Hg, (proj2 (Z.eqb_neq str 0)) by done.
  destruct (Z.leb_spec wc 0xFFFF); [lia|]. destruct (surrogates_combine wc) as (Hh & Hl & Hcomb); [lia|].
  rewrite Z.mod_small, (proj2 (Z.eqb_neq (low_surrogate wc) 0)), (proj2 (Z.eqb_neq (high_surrogate wc) 0)) by lia.
  destruct (Z.leb_spec 0xD800 (low_surrogate wc)), (Z.leb_spec (low_surrogate wc) 0xDBFF); cbn [andb]; try lia.
  destruct (Z.leb_spec 0xDC00 (low_surrogate wc)), (Z.leb_spec (low_surrogate wc) 0xDFFF); cbn [andb]; try lia.
  rewrite Hcomb. by apply wp_c16_write.
Qed.

(** A call of mbrtoc16 whose input completes [wc]: [p] came with earlier calls, [c]
    is the rest of the character, [more] follows. *)
Record c16_input (g : MbStates) (pc16 str ps : Z) (p c more : list Z) (wc : Z) s : Prop := {
  ci_sane : sane s;
  ci_state : state_mapped ps s;
  ci_out : out_mapped pc16 2 s;
  ci_kept : mb_state (byte_at s) ps (g_mbrtoc16_internal_state g) p;
  ci_x0 : getr X0 s = pc16;
  ci_x1 : getr X1 s = str;
  ci_x2 : getr X2 s = Z.of_nat (length (c ++ more));
  ci_x3 : getr X3 s = ps;
  ci_str : str <> 0;
  ci_mapped : mapped str (Z.of_nat (length (c ++ more))) s;
  ci_bytes : holds_at (byte_at s) str (c ++ more);
  ci_char : utf8 wc = p ++ c;
  ci_new : c <> [];
}.

(** A call of c16rtomb with the unit [u]. *)
Record c16_output (str u wc : Z) s : Prop := {
  co_sane : sane s;
  co_x0 : getr X0 s = str;
  co_x1 : getr X1 s = u;
  co_str : str <> 0;
  co_mapped : mapped str (Z.of_nat (length (utf8 wc))) s;
}.

(** C33: A scalar value goes through UTF-16 and back unchanged.  mbrtoc16, given its
    encoding (or what is left of it), returns the number of bytes it took, stores the
    first unit and remembers the second; the next call stores that one and returns -3.
    c16rtomb, given the units in turn, writes nothing and returns 0 for the first of
    two, and otherwise writes the encoding and returns its length. *)
Theorem utf16_roundtrip wc : scalar wc -> wc <> 0 ->
  (forall g pc16 str ps p c more s, c16_input g pc16 str ps p c more wc s -> g_mbrtoc16_pending_low_surrogate g = 0 ->
     wp (mbrtoc16 g) (fun g' s' => g' = with_c16 ps g (unit2 wc) /\
       returned s (out_map pc16 (le_bytes 2 (unit1 wc)) (state_map ps (byte_at s) zero_state)) (Z.of_nat (length c)) s') s) /\
  (forall g pc16 s, sane s -> out_mapped pc16 2 s -> getr X0 s = pc16 -> 0xFFFF < wc -> g_mbrtoc16_pending_low_surrogate g = unit2 wc ->
     wp (mbrtoc16 g) (fun g' s' => g' = g <| g_mbrtoc16_pending_low_surrogate := 0 |> /\
       returned s (out_map pc16 (le_bytes 2 (unit2 wc)) (byte_at s)) (two64 - 3) s') s) /\
  (forall g str s, c16_output str (unit1 wc) wc s -> g_c16rtomb_high_surrogate g = 0 ->
     wp (c16rtomb g) (fun g' s' =>
       if wc <=? 0xFFFF then g' = g /\ returned s (stored (byte_at s) str (utf8 wc)) (Z.of_nat (length (utf8 wc))) s'
       else g' = g <| g_c16rtomb_high_surrogate := unit1 wc |> /\ returned s (byte_at s) 0 s') s) /\
  (forall g str s, c16_output str (unit2 wc) wc s -> 0xFFFF < wc -> g_c16rtomb_high_surrogate g = unit1 wc ->
     wp (c16rtomb g) (fun g' s' => g' = g <| g_c16rtomb_high_surrogate := 0 |> /\
       returned s (stored (byte_at s) str (utf8 wc)) (Z.of_nat (length (utf8 wc))) s') s).
Proof.
  intros Hw Hw0. split_and!.
  - intros g pc16 str ps p c more s [] Hg. by apply (wp_mbrtoc16_last g pc16 str ps p c more wc).
  - intros g pc16 s Hs Hm E0 Hgt Hg. rewrite <- Hg. apply wp_mbrtoc16_pending; try done. rewrite Hg. unfold unit2.
    destruct (Z.leb_spec wc 0xFFFF); [lia|]. destruct (surrogates_combine wc) as (_ & ? & _); [destruct Hw; lia|lia].
  - intros g str s [] Hg. by apply wp_c16rtomb_first.
  - intros g str s [] Hgt Hg. by apply (wp_c16rtomb_second g str wc).
Qed.

End Uchar.

(** The emoji U+1F600 in memory. *)
#[local] Instance c16_uninit : Uninit (mstate (E := RefEnv)) := fun i _ => Z.of_nat i.

Lemma utf16_roundtrip_witness : wp (mbrtoc16 new_mb_states) (fun g' s' => g_mbrtoc16_pending_low_surrogate g' = 0xDE00 /\ getr X0 s' = 4 /\
    byte_at s' (HEAP_BASE + 0x100) = Some 0x3D /\ byte_at s' (HEAP_BASE + 0x101) = Some 0xD8)
  (mb_mem [0xf0; 0x9f; 0x98; 0x80] (HEAP_BASE + 0x100) HEAP_BASE 4 0).
Proof.
  destruct (utf16_roundtrip (S := mstate (E := RefEnv)) 0x1F600) as (H & _); [split; [lia|intros [? ?]; lia]|done|].
  specialize (H new_mb_states (HEAP_BASE + 0x100) HEAP_BASE 0 [] [0xf0; 0x9f; 0x98; 0x80] [] (mb_mem [0xf0; 0x9f; 0x98; 0x80] (HEAP_BASE + 0x100) HEAP_BASE 4 0)).
  refine (wp_mono _ _ _ _ (H _ eq_refl) _).
  - constructor; [apply mb_mem_sane|intros Hz; destruct (Hz eq_refl)|intros _; apply mb_mem_mapped; unfold HEAP_SIZE; lia|exists zero_state; split; [done|apply state_zero]|done..| | |reflexivity|done].
    + apply mb_mem_mapped; unfold HEAP_SIZE; cbn; lia.
    + intros [|[|[|[|i]]]] b Hi; cbn in Hi; simplify_eq; vm_compute; reflexivity.
  - intros g' s' [-> HR]. split_and!; [done|exact (rt_value _ _ _ _ HR)|rewrite (rt_byte _ _ _ _ HR)..]; reflexivity.
Defined.
