(* ===== verification/HleMbsSpec.v ===== *)
(** Whole strings: wcsrtombs and mbsrtowcs of hle_locale.cpp. *)

From S2P Require Import Prelude Env HeapAllocator MemoryManager MemorySpec Machine HostAccess HleMonad HleErrno MappedSpec SyscallHandler HlePrintf HleSearchHeap Utf8 Utf8Spec HleMultibyte HleMultibyteSpec.

(** Wide characters in memory. *)
Definition wide (wcs : list Z) : list Z := mjoin (le_bytes 4 <$> wcs).

Lemma wide_cons wc wcs : wide (wc :: wcs) = le_bytes 4 wc ++ wide wcs.
Proof. reflexivity. Qed.
Lemma wide_app xs ys : wide (xs ++ ys) = wide xs ++ wide ys.
Proof. unfold wide. by rewrite fmap_app, join_app. Qed.
Lemma length_wide wcs : length (wide wcs) = (4 * length wcs)%nat.
Proof. induction wcs as [|wc wcs IH]; [done|]. rewrite wide_cons, length_app, length_le_bytes, IH. cbn. lia. Qed.
Lemma utf8s_app xs ys : utf8s (xs ++ ys) = utf8s xs ++ utf8s ys.
Proof. unfold utf8s. by rewrite fmap_app, join_app. Qed.

(** The characters of a string: scalar values other than the terminator. *)
Definition char (wc : Z) : Prop := scalar wc /\ wc <> 0.

(** How many of the characters fit into [n] bytes. *)
Fixpoint fit (n : Z) (wcs : list Z) : nat :=
  match wcs with
  | [] => O
  | wc :: wcs => let k := Z.of_nat (length (utf8 wc)) in if k <=? n then S (fit (n - k) wcs) else O
  end.

Lemma fit_all n wcs : Z.of_nat (length (utf8s wcs)) <= n -> fit n wcs = length wcs.
Proof.
  revert n. induction wcs as [|wc wcs IH]; intros n Hn; [done|]. rewrite utf8s_cons, length_app in Hn. cbn [fit length].
  destruct (Z.leb_spec (Z.of_nat (length (utf8 wc))) n); [|lia]. by rewrite IH by lia.
Qed.

Section Strings.
Context {S : Type} `{M : !Machine S, L : !MemLaws S, R : !RegFileLaws S, V : !HostView S, HL : !HostLaws S, U : !Uninit S}.
Implicit Types s : S.

Lemma wp_rd_new {B} a n v (k : Z -> hle S B) Q s0 f s : became s0 f s -> mapped a (Z.of_nat n) s0 -> (0 < n)%nat -> holds_at f a (le_bytes n v) ->
  wp (k (v mod 2 ^ (8 * Z.of_nat n))) Q s -> wp (rd_new a (Z.of_nat n) ≫= k) Q s.
Proof.
  intros [H1 H2 _ H4 _] Hm Hn Hh. apply wp_pure. unfold rd_new. pose proof (length_le_bytes n v) as Hl.
  rewrite <- Hl at 1. rewrite (gread_holds a (le_bytes n v) s); [by rewrite le_value_bytes|apply H1|rewrite Hl; by apply H2|by destruct n; [lia|]|].
  eapply holds_at_ext; [|exact Hh]. intros x _. by rewrite H4.
Qed.

(** * wcsrtombs *)

(** From [src] on there are the characters [wcs] and a terminator; [done_] is written
    already; source and destination do not meet. *)
Record wide_at (f : Z -> option Z) (src : Z) (wcs : list Z) s : Prop := {
  wa_bytes : holds_at f src (wide (wcs ++ [0]));
  wa_mapped : mapped src (Z.of_nat (4 * length wcs) + 4) s;
}.

Lemma wide_at_ext f g src wcs s : (forall x, src <= x < src + (Z.of_nat (4 * length wcs) + 4) -> f x = g x) -> wide_at f src wcs s -> wide_at g src wcs s.
Proof.
  intros H [H1 H2]. constructor; [|done]. eapply holds_at_ext; [|exact H1]. intros x Hx. apply H. rewrite length_wide, length_app in Hx. cbn [length] in Hx. lia.
Qed.

Lemma wide_at_cons f src wc wcs s : wide_at f src (wc :: wcs) s -> holds_at f src (le_bytes 4 wc) /\ mapped src 4 s /\ wide_at f (src + 4) wcs s.
Proof.
  intros [H1 H2]. cbn [app] in H1. rewrite wide_cons in H1. apply holds_at_app in H1 as [Ha Hb]. rewrite length_le_bytes in Hb. cbn [length] in H2. split_and!; [done| |].
  - eapply mapped_sub; [exact H2|lia..].
  - constructor; [done|]. eapply mapped_sub; [exact H2|lia..].
Qed.

Lemma wide_at_nil f src s : wide_at f src [] s -> holds_at f src (le_bytes 4 0) /\ mapped src 4 s.
Proof. intros [H1 H2]. by split. Qed.

(** What wcsrtombs leaves behind when [n] is not 0. *)
Definition wcs_result (dest src n : Z) (wcs : list Z) : list Z * Z * Z :=
  let taken := take (fit n wcs) wcs in
  if Z.of_nat (length (utf8s wcs)) <? n then (utf8s wcs ++ [0], 0, Z.of_nat (length (utf8s wcs)))
  else (utf8s taken, src + 4 * Z.of_nat (length taken), Z.of_nat (length (utf8s taken))).

Lemma wcs_result_cons dest src n wc wcs : let k := Z.of_nat (length (utf8 wc)) in k <= n ->
  wcs_result dest src n (wc :: wcs) = let '(bs, p, v) := wcs_result dest (src + 4) (n - k) wcs in (utf8 wc ++ bs, p, k + v).
Proof.
  intros k Hk. unfold wcs_result. rewrite utf8s_cons, length_app. cbn [fit]. fold k. destruct (Z.leb_spec k n); [|lia]. cbn [take].
  destruct (Z.ltb_spec (Z.of_nat (length (utf8 wc) + length (utf8s wcs))) n), (Z.ltb_spec (Z.of_nat (length (utf8s wcs))) (n - k)); try lia.
  - rewrite <- app_assoc. f_equal. unfold k. lia.
  - rewrite utf8s_cons, length_app. cbn [length]. unfold k. f_equal; [f_equal|]; lia.
Qed.

Lemma wcs_result_full dest src n wc wcs : n < Z.of_nat (length (utf8 wc)) -> wcs_result dest src n (wc :: wcs) = ([], src, 0).
Proof.
  intros Hk. unfold wcs_result. rewrite utf8s_cons, length_app. destruct (Z.ltb_spec (Z.of_nat (length (utf8 wc) + length (utf8s wcs))) n); [lia|]. cbn [fit].
  destruct (Z.leb_spec (Z.of_nat (length (utf8 wc))) n); [lia|]. cbn. do 2 f_equal. lia.
Qed.

Lemma wcs_result_none dest src wcs : wcs_result dest src 0 wcs = ([], src, 0).
Proof. destruct wcs as [|wc wcs]; [change (([] : list Z, src + 0, 0) = ([], src, 0)); by rewrite Z.add_0_r|]. apply wcs_result_full. pose proof (utf8_length_range wc). lia. Qed.

(** The end of the conversion: the source pointer and the result. *)
Lemma wp_wcs_end src_ptr p v (Q : option unit -> S -> Prop) s0 f s : became s0 f s -> mapped src_ptr 8 s0 -> 0 <= v < two64 ->
  (forall s', returned s0 (stored f src_ptr (le_bytes 8 p)) v s' -> Q (Some tt) s') -> wp (mem_wr src_ptr (le_bytes 8 p);; return_x0 v) Q s.
Proof. intros Hb Hm Hv HQ. eapply wp_wr; [exact Hb|done|done|]. intros s1 B1. unfold return_x0. eapply wp_set_then; [exact B1|done|]. intros s2 R2. apply wp_ret. by apply HQ. Qed.

Lemma wcsrtombs_loop_spec dest src_ptr n s0 f0 : sane s0 -> mapped src_ptr 8 s0 -> mapped dest n s0 -> 0 < n ->
  forall wcs fuel src out f s (Q : option unit -> S -> Prop), Forall char wcs -> (length wcs < fuel)%nat -> became s0 f s -> wide_at f src wcs s0 ->
  (forall x, f x = stored f0 dest out x) -> Z.of_nat (length out) <= n -> disj dest n src (Z.of_nat (4 * length wcs) + 4) ->
  (forall s', let '(bs, p, v) := wcs_result dest src (n - Z.of_nat (length out)) wcs in
     returned s0 (stored (stored f0 dest (out ++ bs)) src_ptr (le_bytes 8 p)) (Z.of_nat (length out) + v) s' -> Q (Some tt) s') ->
  wp (wcsrtombs_loop fuel dest src_ptr n src (Z.of_nat (length out))) Q s.
Proof.
  intros Hs Hp Hd Hn wcs. pose proof (mapped_range _ _ _ (sane_mem _ Hs) Hd) as [Hd1 Hd2].
  assert (Hend : forall src out f s (Q : option unit -> S -> Prop), became s0 f s -> (forall x, f x = stored f0 dest out x) -> Z.of_nat (length out) <= n ->
    (forall s', returned s0 (stored (stored f0 dest (out ++ [])) src_ptr (le_bytes 8 src)) (Z.of_nat (length out) + 0) s' -> Q (Some tt) s') ->
    wp (mem_wr src_ptr (le_bytes 8 src);; return_x0 (Z.of_nat (length out))) Q s).
  { intros src out f s Q Hb Hf Ho HQ. eapply wp_wcs_end; [eapply became_ext; [exact Hf|exact Hb]|done|lia|]. intros s' Hr. apply HQ. by rewrite app_nil_r, Z.add_0_r. }
  induction wcs as [|wc wcs IH]; intros fuel src out f s Q Hw Hfuel Hb Hsrc Hf Ho Hdis HQ; (destruct fuel as [|fuel]; [cbn in Hfuel; lia|]); cbn [wcsrtombs_loop];
    rewrite (proj2 (Z.eqb_neq n 0)), orb_false_r by lia; (destruct (Z.ltb_spec (Z.of_nat (length out)) n) as [Hlt|Hge];
      [|eapply Hend; [exact Hb|done|done|]; replace (n - Z.of_nat (length out)) with 0 in HQ by lia; rewrite wcs_result_none in HQ; exact HQ]).
  - destruct (wide_at_nil _ _ _ Hsrc) as [Hh Hm]. eapply (wp_rd_new _ 4); [exact Hb|done|lia|exact Hh|]. cbn [Z.modulo Z.eqb]. change (0 mod _ =? 0) with true. cbn iota.
    rewrite (u64_small (dest + _)) by u64_lia. assert (Hl0 : length [0] = 1%nat) by done.
    eapply wp_wr; [exact Hb|eapply mapped_sub; [exact Hd|cbn; lia..]|done|]. intros s1 B1.
    assert (B2 : became s0 (stored f0 dest (out ++ [0])) s1) by (eapply became_ext; [|exact B1]; intros x; rewrite <- stored_app; by apply stored_ext).
    eapply wp_wcs_end; [exact B2|done|lia|]. intros s2 Hr. specialize (HQ s2). unfold wcs_result in HQ. cbn [utf8s fmap list_fmap mjoin list_join length app] in HQ.
    destruct (Z.ltb_spec (Z.of_nat 0) (n - Z.of_nat (length out))); [|lia]. apply HQ. by rewrite Z.add_0_r.
  - apply Forall_cons in Hw as [[[Hw1 Hw2] Hw0] Hws]. destruct (wide_at_cons _ _ _ _ _ Hsrc) as (Hh & Hm & Hrest). pose proof (mapped_range _ _ _ (sane_mem _ Hs) (wa_mapped _ _ _ _ Hsrc)) as [Hs1 Hs2].
    cbn [length] in Hs2, Hfuel, Hdis. eapply (wp_rd_new _ 4); [exact Hb|done|lia|exact Hh|]. rewrite Z.mod_small, (proj2 (Z.eqb_neq wc 0)) by (change (2 ^ (8 * Z.of_nat 4)) with two32; unfold two32; done || lia).
    destruct (wc_to_utf8_value wc Hw1) as [-> ->]. pose proof (utf8_length_range wc) as Hl. cbv zeta.
    destruct (Z.ltb_spec n (Z.of_nat (length out) + Z.of_nat (length (utf8 wc)))) as [Hfull|Hfits].
    { eapply Hend; [exact Hb|done|done|]. rewrite wcs_result_full in HQ by lia. exact HQ. }
    rewrite (u64_small (dest + _)), (u64_small (src + 4)) by u64_lia.
    eapply wp_wr; [exact Hb|eapply mapped_sub; [exact Hd|lia..]|by intros E; rewrite E in Hl; cbn in Hl; lia|]. intros s1 B1.
    replace (Z.of_nat (length out) + Z.of_nat (length (utf8 wc))) with (Z.of_nat (length (out ++ utf8 wc))) by (rewrite length_app; lia).
    eapply (IH fuel (src + 4) (out ++ utf8 wc)); [done|lia|exact B1| | |rewrite length_app; lia|unfold disj in *; lia|].
    + eapply wide_at_ext; [|exact Hrest]. intros x Hx. symmetry. apply stored_out. unfold disj in Hdis. lia.
    + intros x. rewrite <- stored_app. by apply stored_ext.
    + intros s'. specialize (HQ s'). rewrite wcs_result_cons in HQ by lia. rewrite length_app, Nat2Z.inj_add, Z.sub_add_distr.
      destruct (wcs_result _ _ _ wcs) as [[bs q] v]. intros Hr. apply HQ. by rewrite app_assoc, Z.add_assoc.
Qed.

(** * mbsrtowcs *)

(** The bytes of a string and its terminator. *)
Record bytes_at (f : Z -> option Z) (a : Z) (bs : list Z) s : Prop := {
  ba_bytes : holds_at f a (bs ++ [0]);
  ba_mapped : mapped a (Z.of_nat (length bs) + 1) s;
  ba_chars : Forall (fun b => is_byte b /\ b <> 0) bs;
}.

Lemma bytes_at_ext f g a bs s : (forall x, a <= x < a + (Z.of_nat (length bs) + 1) -> f x = g x) -> bytes_at f a bs s -> bytes_at g a bs s.
Proof. intros H [H1 H2 H3]. constructor; [|done..]. eapply holds_at_ext; [|exact H1]. intros x Hx. apply H. rewrite length_app in Hx. cbn [length] in Hx. lia. Qed.

Lemma bytes_at_skip f a xs bs s : bytes_at f a (xs ++ bs) s -> bytes_at f (a + Z.of_nat (length xs)) bs s.
Proof.
  intros [H1 H2 H3]. rewrite <- app_assoc in H1. apply holds_at_app in H1 as [_ H1]. apply Forall_app in H3 as [_ H3]. rewrite length_app in H2.
  constructor; [done| |done]. eapply mapped_sub; [exact H2|lia..].
Qed.

Lemma utf8_nonzero wc : char wc -> Forall (fun b => is_byte b /\ b <> 0) (utf8 wc).
Proof.
  intros [[H1 H2] H0]. pose proof (utf8_bytes wc H1) as Hb.
  destruct (utf8_cases wc) as [H | [H | [H | H]]]; [lia|rewrite utf8_one in * by lia|rewrite utf8_two in * by lia|rewrite utf8_three in * by lia|rewrite utf8_four in * by lia];
    repeat constructor; try (unfold is_byte; modulo); modulo.
Qed.

Lemma utf8s_nonzero wcs : Forall char wcs -> Forall (fun b => is_byte b /\ b <> 0) (utf8s wcs).
Proof. induction 1; [constructor|]. rewrite utf8s_cons. apply Forall_app. split; [by apply utf8_nonzero|done]. Qed.

(** One byte, zero-initialised before. *)
Lemma next_byte a v s0 f s : became s0 f s -> mapped a 1 s0 -> f a = Some v -> mem_rd_into a 1 s = Ret [v] s.
Proof.
  intros [H1 H2 _ H4 _] Hm Hv. unfold mem_rd_into. change 1 with (Z.of_nat (length [v])). rewrite (gread_holds a [v] s); [done|apply H1|by apply H2|done|].
  intros [|i] b Hi; [|done]. injection Hi as <-. by rewrite Z.add_0_r, H4.
Qed.

Lemma next_bytes_spec s0 f s : became s0 f s -> forall j a bytes rest, (length bytes <= 4 <= length bytes + j)%nat -> bytes_at f a rest s0 -> bytes ++ rest <> [] ->
  let got := bytes ++ take (4 - length bytes) rest in next_bytes j a bytes (Z.of_nat (length bytes)) s = Ret (Some (got, Z.of_nat (length got))) s.
Proof.
  intros Hb j. pose proof (sane_mem _ (bc_sane _ _ _ Hb)) as H0. induction j as [|j IH]; intros a bytes rest Hj Hr Hne got; unfold got; cbn [next_bytes].
  { replace (4 - length bytes)%nat with 0%nat by lia. cbn [take]. by rewrite app_nil_r. }
  destruct (Z.ltb_spec (Z.of_nat (length bytes)) 4); [|replace (4 - length bytes)%nat with 0%nat by lia; cbn [take]; by rewrite app_nil_r].
  pose proof Hr as [R1 R2 R3]. unfold mbind, hle_bind. destruct rest as [|b rest].
  - rewrite app_nil_r in Hne. cbn [app] in R1. rewrite (next_byte a 0 s0 f s Hb); [|exact R2|by rewrite <- (R1 0%nat 0), Z.add_0_r]. rewrite take_nil. cbn [le_value Z.mul Z.add Z.eqb]. rewrite andb_true_r, app_nil_r.
    by rewrite (proj2 (Z.eqb_neq (Z.of_nat (length bytes)) 0)) by (destruct bytes; [done|cbn; lia]).
  - apply Forall_cons in R3 as [[Hb1 Hb2] R3]. pose proof (bytes_at_skip f a [b] rest s0 Hr) as Hrest. cbn [length] in R2. cbn [app] in R1.
    rewrite (next_byte a b s0 f s Hb); [|eapply mapped_sub; [exact R2|lia..]|by rewrite <- (R1 0%nat b), Z.add_0_r]. cbn [le_value].
    rewrite Z.mul_0_r, Z.add_0_r, (proj2 (Z.eqb_neq b 0)), andb_false_r by done.
    pose proof (mapped_range _ _ _ H0 (proj2 (bc_map _ _ _ Hb _ _) R2)) as [? ?]. rewrite (u64_small (a + 1)) by u64_lia.
    assert (Hl1 : length (bytes ++ [b]) = Datatypes.S (length bytes)) by (rewrite length_app; cbn; lia).
    replace (Z.of_nat (length bytes) + 1) with (Z.of_nat (length (bytes ++ [b]))) by lia.
    rewrite (IH (a + 1) (bytes ++ [b]) rest); [|lia|done|by destruct bytes]. rewrite Hl1. replace (4 - length bytes)%nat with (Datatypes.S (4 - Datatypes.S (length bytes))) by lia.
    cbn [take]. by rewrite <- app_assoc.
Qed.

(** At the end of the string. *)
Lemma next_bytes_end s0 f s a : became s0 f s -> bytes_at f a [] s0 -> next_bytes 4 a [] 0 s = Ret None s.
Proof.
  intros Hb [R1 R2 _]. cbn [next_bytes Z.ltb Z.compare]. unfold mbind, hle_bind. by rewrite (next_byte a 0 s0 f s Hb); [|exact R2|rewrite <- (R1 0%nat 0), ?Z.add_0_r].
Qed.

(** What mbsrtowcs leaves behind: the bytes of the destination, the source pointer and
    the result, for a string whose first [skip] bytes came with an earlier call. *)
Definition mbs_result (src skip len : Z) (wcs : list Z) : list Z * Z * Z :=
  let taken := take (Z.to_nat len) wcs in
  if Z.of_nat (length wcs) <? len then (wide (wcs ++ [0]), 0, Z.of_nat (length wcs))
  else (wide taken, src + (Z.of_nat (length (utf8s taken)) - skip), len).

Lemma mbs_result_cons src skip len wc wcs : 0 < len ->
  mbs_result src skip len (wc :: wcs) =
    let '(bs, p, v) := mbs_result (src + (Z.of_nat (length (utf8 wc)) - skip)) 0 (len - 1) wcs in (le_bytes 4 wc ++ bs, p, 1 + v).
Proof.
  intros Hl. unfold mbs_result. cbn [length app]. rewrite !wide_cons. replace (Z.to_nat len) with (Datatypes.S (Z.to_nat (len - 1))) by lia. cbn [take].
  destruct (Z.ltb_spec (Z.of_nat (Datatypes.S (length wcs))) len), (Z.ltb_spec (Z.of_nat (length wcs)) (len - 1)); try lia.
  - f_equal. lia.
  - rewrite utf8s_cons, length_app, wide_cons. f_equal; [f_equal|]; lia.
Qed.

Lemma mbs_result_none src wcs : mbs_result src 0 0 wcs = ([], src, 0).
Proof. unfold mbs_result. destruct (Z.ltb_spec (Z.of_nat (length wcs)) 0); [lia|]. change (([] : list Z, src + 0, 0) = ([], src, 0)). by rewrite Z.add_0_r. Qed.

Lemma wp_mbs_done ps v g (Q : option MbStates -> S -> Prop) s0 f s : became s0 f s -> state_mapped ps s0 -> 0 <= v < two64 ->
  (forall s', returned s0 (state_map ps f zero_state) v s' -> Q (Some (with_state ps g zero_state)) s') -> wp (mbs_done ps v g) Q s.
Proof.
  intros Hb Hm Hv HQ. unfold mbs_done, mbstate_reset. apply wp_bind. eapply wp_reset; [exact Hb|done|]. intros s1 B1. apply wp_ret.
  eapply wp_set_then; [exact B1|done|]. intros s2 R2. apply wp_ret. by apply HQ.
Qed.

(** The bytes [p] kept from an earlier call are the beginning of the first character. *)
Definition begins (p wcs : list Z) : Prop := p = [] \/ exists wc rest c, wcs = wc :: rest /\ utf8 wc = p ++ c /\ c <> [].

Lemma begins_char p wc wcs rest : begins p (wc :: wcs) -> p ++ rest = utf8s (wc :: wcs) -> exists c, utf8 wc = p ++ c /\ c <> [] /\ rest = c ++ utf8s wcs.
Proof.
  intros Hbg Hr. rewrite utf8s_cons in Hr. destruct Hbg as [->|(wc' & ws & c & [= <- <-] & Hu & Hc)].
  - exists (utf8 wc). split_and!; [done| |done]. pose proof (utf8_length_range wc). intros E. rewrite E in *. cbn in *. lia.
  - exists c. rewrite Hu, <- app_assoc in Hr. by apply app_inv_head in Hr as ->.
Qed.

Lemma mbsrtowcs_loop_spec dest src_ptr len ps src g room s0 f0 : sane s0 -> dest <> 0 -> mapped src_ptr 8 s0 -> mapped dest (4 * room) s0 -> state_mapped ps s0 -> len < two64 ->
  forall wcs p pl rest fuel pos out f s (Q : option MbStates -> S -> Prop), take (length p) pl = p -> Forall char wcs -> p ++ rest = utf8s wcs -> begins p wcs -> (length wcs < fuel)%nat -> became s0 f s ->
  0 <= src + pos -> 0 <= pos -> bytes_at f (src + pos) rest s0 -> (forall x, f x = stored f0 dest (wide out) x) -> Z.of_nat (length out) <= len -> (p = [] \/ Z.of_nat (length out) < len) ->
  Z.of_nat (length out) + Z.min (len - Z.of_nat (length out)) (Z.of_nat (length wcs) + 1) <= room -> disj dest (4 * room) (src + pos) (Z.of_nat (length rest) + 1) ->
  (forall s', let '(bs, q, v) := mbs_result (src + pos) (Z.of_nat (length p)) (len - Z.of_nat (length out)) wcs in
     returned s0 (state_map ps (stored (stored f0 dest (wide out ++ bs)) src_ptr (le_bytes 8 q)) zero_state) (Z.of_nat (length out) + v) s' -> Q (Some (with_state ps g zero_state)) s') ->
  wp (mbsrtowcs_loop fuel dest src_ptr len ps src g pl (Z.of_nat (length p)) (Z.of_nat (length out)) pos) Q s.
Proof.
  intros Hs Hd0 Hp Hd Hps Hlen wcs. pose proof (mapped_range _ _ _ (sane_mem _ Hs) Hd) as [Hd1 Hd2].
  induction wcs as [|wc wcs IH]; intros p pl rest fuel pos out f s Q Hpl Hw Hpr Hbg Hfuel Hb Hsp Hpos Hsrc Hf Ho Hpo Hroom Hdis HQ; (destruct fuel as [|fuel]; [cbn in Hfuel; lia|]); cbn [mbsrtowcs_loop];
    rewrite (proj2 (Z.eqb_neq dest 0)) by done; cbn [negb orb andb]; pose proof (mapped_range _ _ _ (sane_mem _ Hs) (ba_mapped _ _ _ _ Hsrc)) as [Hr1 Hr2];
    rewrite !(u64_small (src + pos)) by u64_lia;
    (destruct (Z.ltb_spec (Z.of_nat (length out)) len) as [Hlt|Hge];
      [|destruct Hpo as [-> | ?]; [|lia]; replace (len - Z.of_nat (length out)) with 0 in HQ by lia; change (Z.of_nat (length [])) with 0 in HQ; rewrite mbs_result_none in HQ;
        eapply wp_wr; [eapply became_ext; [exact Hf|exact Hb]|done|done|]; intros s1 B1; eapply wp_mbs_done; [exact B1|done|lia|]; intros s2 R2; apply HQ; rewrite app_nil_r, Z.add_0_r; exact R2]).
  - assert (p = []) as -> by (destruct Hbg as [|(? & ? & ? & ? & _)]; done). cbn [app] in Hpr. subst rest. apply wp_bind. unfold wp at 1. cbn [length Z.of_nat]. change (take (Z.to_nat 0) pl) with ([] : list Z).
    rewrite (next_bytes_end s0 f s) by done. rewrite (u64_small (dest + _)) by u64_lia. cbn [length] in Hroom. apply wp_bind.
    eapply wp_wr; [exact Hb|eapply mapped_sub; [exact Hd|cbn; lia..]|done|]. intros s1 B1.
    assert (B2 : became s0 (stored f0 dest (wide (out ++ [0]))) s1).
    { eapply became_ext; [|exact B1]. intros x. rewrite wide_app, <- stored_app, length_wide. replace (Z.of_nat (4 * length out)) with (Z.of_nat (length out) * 4) by lia. by apply stored_ext. }
    unfold wp at 1, mem_wr. eapply wp_mbs_done; [apply (write_became src_ptr (le_bytes 8 0) s0 _ s1 B2); [by rewrite length_le_bytes|done]|done|lia|]. intros s2 R2.
    specialize (HQ s2). unfold mbs_result in HQ. cbn [length app] in HQ. destruct (Z.ltb_spec (Z.of_nat 0) (len - Z.of_nat (length out))); [|lia].
    apply HQ. rewrite <- wide_app, Z.add_0_r. exact R2.
  - apply Forall_cons in Hw as [Hwc Hws]. pose proof Hwc as [[Hw1 Hw2] Hw0]. destruct (begins_char p wc wcs rest Hbg Hpr) as (c & Hu & Hc & ->). cbn [length] in Hfuel, Hroom.
    pose proof (utf8_length_range wc) as Hl. assert (Hlu : (length (utf8 wc) = length p + length c)%nat) by (by rewrite Hu, length_app).
    assert (Hc' : (0 < length c)%nat) by (destruct c; [done|cbn; lia]). rewrite Nat2Z.id, Hpl.
    apply wp_bind. unfold wp at 1. rewrite (next_bytes_spec s0 f s Hb 4 (src + pos) p (c ++ utf8s wcs)); [|lia|done|by destruct p, c].
    rewrite take_app, (take_ge c) by lia. rewrite app_assoc, <- Hu. set (tl := take _ (utf8s wcs)). rewrite length_app. unfold decode_utf8_codepoint.
    rewrite decode_encoded by (done || lia). rewrite (u64_small (dest + _)) by u64_lia.
    eapply wp_wr; [exact Hb|eapply mapped_sub; [exact Hd|rewrite ?length_le_bytes; lia..]|done|]. intros s1 B1.
    destruct (Z.ltb_spec (Z.of_nat (length p)) (Z.of_nat (length (utf8 wc)))); [|lia].
    replace (Z.of_nat (length out) + 1) with (Z.of_nat (length (out ++ [wc]))) by (rewrite length_app; cbn; lia).
    assert (Hlo : length (out ++ [wc]) = Datatypes.S (length out)) by (rewrite length_app; cbn; lia). set (pos' := pos + _).
    assert (Hpos' : src + pos' = src + pos + Z.of_nat (length c)) by (unfold pos'; lia). rewrite length_app in Hr2, Hdis.
    eapply (IH [] [] (utf8s wcs) fuel pos' (out ++ [wc])); [done|done|done|by left|lia|exact B1|lia|unfold pos'; lia| | |lia|by left|lia|unfold disj in *; lia|].
    + rewrite Hpos'. apply bytes_at_skip. eapply bytes_at_ext; [|exact Hsrc]. rewrite length_app. intros x Hx. symmetry. apply stored_out. rewrite length_le_bytes. unfold disj in Hdis. lia.
    + intros x. rewrite wide_app, <- stored_app, length_wide. replace (Z.of_nat (4 * length out)) with (Z.of_nat (length out) * 4) by lia. by apply stored_ext.
    + intros s'. specialize (HQ s'). rewrite mbs_result_cons in HQ by lia. rewrite Hpos', Hlo, wide_app.
      replace (Z.of_nat (length (utf8 wc)) - Z.of_nat (length p)) with (Z.of_nat (length c)) in HQ by lia. change (Z.of_nat (length [])) with 0.
      replace (len - Z.of_nat (Datatypes.S (length out))) with (len - Z.of_nat (length out) - 1) by lia.
      destruct (mbs_result _ 0 _ wcs) as [[bs q] v]. intros Hr. apply HQ. replace (Z.of_nat (length out) + (1 + v)) with (Z.of_nat (Datatypes.S (length out)) + v) by lia. rewrite app_assoc. exact Hr.
Qed.

(** * The handlers *)

Lemma wp_is_initial {B} ps internal (k : bool -> hle S B) Q s : sane s -> state_mapped ps s -> mb_state (byte_at s) ps internal [] ->
  wp (k true) Q s -> wp (uchar_mbstate_is_initial ps internal ≫= k) Q s.
Proof.
  intros Hs Hm (st & Hst & [H1 _ _ _ H4]) Hk. cbn in H4. apply wp_bind. unfold uchar_mbstate_is_initial, state_at, state_mapped in *. destruct (Z.eqb_spec ps 0) as [E|E].
  { apply wp_ret. by rewrite Hst, H4. }
  specialize (Hm E). pose proof (mapped_range _ _ _ (sane_mem _ Hs) Hm) as [? ?]. rewrite <- (take_drop 4 st) in Hst. apply holds_at_app in Hst as [_ Hb].
  rewrite length_take, Nat.min_l in Hb by lia. assert (L2 : length (drop 4 st) = 4%nat) by (rewrite length_drop; lia). rewrite (u64_small (ps + 4)) by u64_lia.
  eapply (wp_pure _ _ 0); [|cbn; by apply wp_ret]. unfold rd_new. pose proof (gread_holds (ps + 4) (drop 4 st) s (sane_mem _ Hs)) as Hg. rewrite L2 in Hg. change (Z.of_nat 4) with 4 in *.
  rewrite Hg; [by rewrite H4|eapply mapped_sub; [exact Hm|lia..]|by intros E1; rewrite E1 in L2|done].
Qed.

(** A call on a string at [src], whose address is at [src_ptr]. *)
Record string_call (dest src_ptr src n ps : Z) (g : MbStates) (p : list Z) s : Prop := {
  sc_sane : sane s;
  sc_x0 : getr X0 s = dest;
  sc_x1 : getr X1 s = src_ptr;
  sc_x2 : getr X2 s = n;
  sc_x3 : getr X3 s = ps;
  sc_dest : dest <> 0;
  sc_n : 0 < n < two64;
  sc_ptr : mapped src_ptr 8 s;
  sc_word : holds_at (byte_at s) src_ptr (le_bytes 8 src);
  sc_src : 0 <= src < two64;
  sc_state : state_mapped ps s;
  sc_kept : mb_state (byte_at s) ps (g_internal_mbstate g) p;
}.

Lemma wp_wcsrtombs dest src_ptr src n ps g wcs fuel s : string_call dest src_ptr src n ps g [] s -> Forall char wcs -> wide_at (byte_at s) src wcs s -> mapped dest n s ->
  disj dest n src (Z.of_nat (4 * length wcs) + 4) -> (length wcs < fuel)%nat ->
  wp (wcsrtombs fuel g) (fun r s' => r = Some tt /\ let '(bs, q, v) := wcs_result dest src n wcs in returned s (stored (stored (byte_at s) dest bs) src_ptr (le_bytes 8 q)) v s') s.
Proof.
  intros [Hs E0 E1 E2 E3 Hd Hn Hp Hw Hsr Hst Hk] Hwcs Hwa Hm Hdis Hf. unfold wcsrtombs. do 4 apply wp_reg. rewrite E0, E1, E2, E3. unfold mbstate_is_initial.
  eapply wp_is_initial; [done..|]. cbn [negb]. eapply (wp_rd_new _ 8); [by apply became_refl|done|lia|exact Hw|]. rewrite Z.mod_small by exact Hsr. rewrite (proj2 (Z.eqb_neq dest 0)) by done.
  change 0 with (Z.of_nat (length ([] : list Z))) at 1. eapply (wcsrtombs_loop_spec dest src_ptr n s (byte_at s)); [done|done|done|lia|exact Hwcs|done|by apply became_refl|done|by intros x; rewrite stored_nil|cbn; lia|done|].
  intros s'. change (Z.of_nat (length [])) with 0. rewrite Z.sub_0_r. destruct (wcs_result dest src n wcs) as [[bs q] v]. by split.
Qed.

Lemma wp_mbsrtowcs dest src_ptr src n ps g p wcs rest fuel s : string_call dest src_ptr src n ps g p s -> Forall char wcs -> p ++ rest = utf8s wcs -> begins p wcs -> bytes_at (byte_at s) src rest s ->
  mapped dest (4 * Z.min n (Z.of_nat (length wcs) + 1)) s -> disj dest (4 * Z.min n (Z.of_nat (length wcs) + 1)) src (Z.of_nat (length rest) + 1) -> (length wcs < fuel)%nat ->
  wp (mbsrtowcs fuel g) (fun r s' => r = Some (with_state ps g zero_state) /\ let '(bs, q, v) := mbs_result src (Z.of_nat (length p)) n wcs in
    returned s (state_map ps (stored (stored (byte_at s) dest bs) src_ptr (le_bytes 8 q)) zero_state) v s') s.
Proof.
  intros [Hs E0 E1 E2 E3 Hd Hn Hp Hw Hsr Hst Hk] Hwcs Hpr Hbg Hba Hm Hdis Hf. unfold mbsrtowcs. do 4 apply wp_reg. rewrite E0, E1, E2, E3.
  eapply (wp_mem_rd_into _ _ (le_bytes 8 src)); [done|exact Hp|done|by rewrite length_le_bytes|exact Hw|]. destruct Hk as (st & Hsa & Hsb). unfold mbstate_get_partial. eapply wp_get_partial; [done|done|exact Hsa|exact Hsb|].
  rewrite le_value_bytes, Z.mod_small by exact Hsr. destruct Hsb as [S1 Sw Bp S3 S4]. pose proof (waiting_short p Sw Bp).
  assert (Hlen : 0 = Z.of_nat (length ([] : list Z))) by done. rewrite Hlen at 1.
  eapply (mbsrtowcs_loop_spec dest src_ptr n ps src g (Z.min n (Z.of_nat (length wcs) + 1)) s (byte_at s) Hs Hd Hp Hm Hst ltac:(lia) wcs p (take 4 st) rest fuel 0 []);
    [rewrite take_take, Nat.min_l by lia; exact S3|exact Hwcs|exact Hpr|exact Hbg|exact Hf|by apply became_refl|lia|lia|by rewrite Z.add_0_r|by intros x; rewrite stored_nil|cbn; lia|right; cbn; lia|cbn; lia|by rewrite Z.add_0_r|].
  intros s'. change (Z.of_nat (length [])) with 0. rewrite Z.sub_0_r, Z.add_0_r. destruct (mbs_result src _ n wcs) as [[bs q] v]. by split.
Qed.

(** C34: wcsrtombs and mbsrtowcs convert whole strings: wcsrtombs writes the UTF-8 of
    the characters, mbsrtowcs, which may continue a character begun in an earlier
    call, writes the characters back.  If the terminator fits it is written too and
    the source pointer becomes null; otherwise as many whole characters are written as
    fit, and the source pointer says where to go on.  Both return the number of units
    written without the terminator, and change nothing but the destination, the source
    pointer and (mbsrtowcs) the conversion state, which it resets. *)
Theorem wide_strings dest src_ptr src n ps g p wcs fuel s : string_call dest src_ptr src n ps g p s -> Forall char wcs -> (length wcs < fuel)%nat ->
  (p = [] -> wide_at (byte_at s) src wcs s -> mapped dest n s -> disj dest n src (Z.of_nat (4 * length wcs) + 4) ->
   wp (wcsrtombs fuel g) (fun r s' => r = Some tt /\ let '(bs, q, v) := wcs_result dest src n wcs in returned s (stored (stored (byte_at s) dest bs) src_ptr (le_bytes 8 q)) v s') s) /\
  (forall rest, p ++ rest = utf8s wcs -> begins p wcs -> bytes_at (byte_at s) src rest s -> mapped dest (4 * Z.min n (Z.of_nat (length wcs) + 1)) s ->
   disj dest (4 * Z.min n (Z.of_nat (length wcs) + 1)) src (Z.of_nat (length rest) + 1) ->
   wp (mbsrtowcs fuel g) (fun r s' => r = Some (with_state ps g zero_state) /\ let '(bs, q, v) := mbs_result src (Z.of_nat (length p)) n wcs in
     returned s (state_map ps (stored (stored (byte_at s) dest bs) src_ptr (le_bytes 8 q)) zero_state) v s') s).
Proof.
  intros Hc Hw Hf. split.
  - intros -> Hwa Hm Hd. by apply (wp_wcsrtombs dest src_ptr src n ps g wcs fuel s).
  - intros rest Hr Hb Hba Hm Hd. by apply (wp_mbsrtowcs dest src_ptr src n ps g p wcs rest fuel s).
Qed.

End Strings.

(** * A euro sign as a wide string *)

#[local] Instance mbs_uninit : Uninit (mstate (E := RefEnv)) := fun i _ => Z.of_nat i.

Definition holds_check (f : Z -> option Z) (a : Z) (bs : list Z) : bool := forallb (fun i => bool_decide (f (a + Z.of_nat i) = bs !! i)) (seq 0 (length bs)).
Lemma holds_check_ok f a bs : holds_check f a bs = true -> holds_at f a bs.
Proof.
  unfold holds_check. rewrite forallb_forall. intros H i b Hi. pose proof (lookup_lt_Some _ _ _ Hi) as Hl. specialize (H i).
  rewrite bool_decide_eq_true in H. rewrite H; [done|]. apply in_seq. lia.
Qed.

Definition wide_mem : mstate (E := RefEnv) := mb_mem (le_bytes 8 (HEAP_BASE + 8) ++ wide [0x20ac; 0]) (HEAP_BASE + 0x100) HEAP_BASE 16 0.

Lemma wide_strings_witness : wp (wcsrtombs 2 new_mb_states) (fun r s' => r = Some tt /\ getr X0 s' = 3 /\
  byte_at s' (HEAP_BASE + 0x100) = Some 0xe2 /\ byte_at s' (HEAP_BASE + 0x103) = Some 0) wide_mem.
Proof.
  destruct (wide_strings (HEAP_BASE + 0x100) HEAP_BASE (HEAP_BASE + 8) 16 0 new_mb_states [] [0x20ac] 2 wide_mem) as [H _].
  - constructor; [apply mb_mem_sane|reflexivity|reflexivity|reflexivity|reflexivity|done|done|apply mb_mem_mapped; unfold HEAP_SIZE; lia|apply holds_check_ok; vm_compute; reflexivity|done|intros Hz; destruct (Hz eq_refl)|].
    exists zero_state. split; [done|apply state_zero].
  - repeat constructor; [lia|lia|intros [? ?]; lia|done].
  - cbn. lia.
  - refine (wp_mono _ _ _ _ (H eq_refl _ _ _) _).
    + constructor; [apply holds_check_ok; vm_compute; reflexivity|]. apply mb_mem_mapped; unfold HEAP_SIZE, HEAP_BASE; cbn; lia.
    + apply mb_mem_mapped; unfold HEAP_SIZE; lia.
    + right. unfold HEAP_BASE. cbn. lia.
    + intros r s' [-> HR]. change (wcs_result _ _ _ _) with ([0xe2; 0x82; 0xac; 0], 0, 3) in HR. split_and!; [done|exact (rt_value _ _ _ _ HR)|rewrite (rt_byte _ _ _ _ HR)..]; reflexivity.
Defined.
