(* ===== verification/HleStdlib.v ===== *)
(** The emulated <stdlib.h> (src/src/hle/hle_stdlib.cpp): integer parsing, sorting and
    searching with the guest's comparison, absolute values and divisions, uniform
    random numbers.

    The host's strtoll and strtoull are modelled on characters as the C standard has
    them ([strto]); [HostRng] is the host's random generator.  A signed division that
    overflows traps on the host and is shown as [Segv]. *)

From S2P Require Import Prelude Env MemoryManager MemorySpec Machine HostAccess HleMonad HleErrno SyscallHandler HlePrintf HleSearch.

Definition ERANGE : Z := 34.
Definition LLONG_MAX : Z := 2 ^ 63 - 1.
Definition LLONG_MIN : Z := - 2 ^ 63.
Definition ULLONG_MAX : Z := 2 ^ 64 - 1.

(** * strtoll and strtoull of the C library *)

Definition isspace (c : Z) : bool := (c =? 32) || ((9 <=? c) && (c <=? 13)).

(** The value of a digit or letter. *)
Definition digit_value (c : Z) : option Z :=
  if (48 <=? c) && (c <=? 57) then Some (c - 48)
  else if (65 <=? c) && (c <=? 90) then Some (c - 55)
  else if (97 <=? c) && (c <=? 122) then Some (c - 87)
  else None.
Definition digit_in (base c : Z) : option Z :=
  match digit_value c with Some d => if d <? base then Some d else None | None => None end.

(** Digits from the left: how many, and the number they make after [acc]. *)
Fixpoint digits (base : Z) (acc : Z) (str : list Z) : nat * Z :=
  match str with
  | c :: t => match digit_in base c with Some d => let '(k, v) := digits base (acc * base + d) t in (Datatypes.S k, v) | None => (O, acc) end
  | [] => (O, acc)
  end.

(** White space and a sign. *)
Fixpoint spaces (str : list Z) : nat := match str with c :: t => if isspace c then Datatypes.S (spaces t) else O | [] => O end.
Definition sign (str : list Z) : bool * nat :=
  match str with c :: _ => if c =? 45 then (true, 1%nat) else if c =? 43 then (false, 1%nat) else (false, O) | [] => (false, O) end.

(** A prefix "0x" counts if a hexadecimal digit follows it. *)
Definition hex_prefix (str : list Z) : bool :=
  match str with
  | a :: b :: c :: _ => (a =? 48) && ((b =? 120) || (b =? 88)) && match digit_in 16 c with Some _ => true | None => false end
  | _ => false
  end.

(** Sign, magnitude and number of characters used; [None] if there are no digits. *)
Definition strto (str : list Z) (base : Z) : option (bool * Z * Z) :=
  let i := spaces str in
  let '(neg, k) := sign (drop i str) in
  let body := drop (i + k) str in
  let hex := ((base =? 0) || (base =? 16)) && hex_prefix body in
  let base := if base =? 0 then (if hex then 16 else match body with c :: _ => if c =? 48 then 8 else 10 | [] => 10 end) else base in
  let body := if hex then drop 2 body else body in
  let '(n, v) := digits base 0 body in
  match n with
  | O => None
  | _ => Some (neg, v, Z.of_nat (i + k + (if hex then 2 else 0) + n))
  end.

(** Value, number of characters used, errno. *)
Definition strtoll_ (str : list Z) (base : Z) : Z * Z * Z :=
  match strto str base with
  | None => (0, 0, 0)
  | Some (neg, v, used) =>
      let x := if neg then - v else v in
      if x <? LLONG_MIN then (LLONG_MIN, used, ERANGE) else if LLONG_MAX <? x then (LLONG_MAX, used, ERANGE) else (x, used, 0)
  end.
Definition strtoull_ (str : list Z) (base : Z) : Z * Z * Z :=
  match strto str base with
  | None => (0, 0, 0)
  | Some (neg, v, used) => if ULLONG_MAX <? v then (ULLONG_MAX, used, ERANGE) else (u64 (if neg then - v else v), used, 0)
  end.

(** * Parsing of guest strings *)

Definition is_valid_strto_base (base : Z) : bool := negb ((base <? 0) || (base =? 1) || (36 <? base)).

(** The position of a prefix "0b" that counts. *)
Definition has_bionic_binary_prefix (input : list Z) (base : Z) : option nat :=
  if negb ((base =? 0) || (base =? 2)) then None
  else
    let i := spaces input in
    let i := match input !! i with Some c => if (c =? 43) || (c =? 45) then Datatypes.S i else i | None => i end in
    match input !! i, input !! (i + 1)%nat, input !! (i + 2)%nat with
    | Some a, Some b, Some c =>
        if negb (a =? 48) || negb ((b =? 98) || (b =? 66)) then None
        else if negb ((c =? 48) || (c =? 49)) then None
        else Some i
    | _, _, _ => None
    end.

Class HostRng (S : Type) := g_rng : hle S Z.

Section Stdlib.
Context {S : Type} `{M : !Machine S, HV : !HostView S, G : !GuestFun S, RNG : !HostRng S}.
Implicit Types s : S.
Notation prog := (hle S).

Definition read_string4096 (addr : Z) : prog (list Z) := fun s => Ret (read_chars (Z.to_nat 4096) addr s) s.

(** [ParseFn] is [strtoll_] or [strtoull_]. *)
Definition parse_guest_integer (ParseFn : list Z -> Z -> Z * Z * Z) (nptr endptr base : Z) : prog Z :=
  input ← read_string4096 nptr;
  let write_end offset : prog unit := if negb (endptr =? 0) then mem_wr endptr (le_bytes 8 (nptr ⊕ offset)) else mret tt in
  if negb (is_valid_strto_base base) then hle_set_errno EINVAL;; write_end 0;; mret 0
  else
    let prefix := has_bionic_binary_prefix input base in
    let '(result, end_offset, saved_errno) :=
      match prefix with
      | Some pos => ParseFn (take pos input ++ drop (pos + 2) input) 2
      | None => ParseFn input base
      end in
    let end_offset := match prefix with Some pos => if Z.of_nat pos <? end_offset then end_offset + 2 else end_offset | None => end_offset end in
    write_end end_offset;;
    (if negb (saved_errno =? 0) then hle_set_errno saved_errno else mret tt);;
    mret result.

Definition strto_handler (ParseFn : list Z -> Z -> Z * Z * Z) : prog unit :=
  nptr ← get_x X0; endptr ← get_x X1; base ← get_x X2;
  result ← parse_guest_integer ParseFn nptr endptr (s32 base);
  set_x X0 result.

(** long and long long have 64 bits. *)
Definition hle_strtol : prog unit := strto_handler strtoll_.
Definition hle_strtoul : prog unit := strto_handler strtoull_.
Definition hle_strtoll : prog unit := strto_handler strtoll_.
Definition hle_strtoull : prog unit := strto_handler strtoull_.
Definition hle_strtoimax : prog unit := strto_handler strtoll_.
Definition hle_strtoumax : prog unit := strto_handler strtoull_.
Definition hle_strtoll_l : prog unit := strto_handler strtoll_.
Definition hle_strtoull_l : prog unit := strto_handler strtoull_.

(** atoi is [strtol] in base 10, cut to an int. *)
Definition hle_atoi : prog unit :=
  p ← get_x X0; str ← read_string4096 p; set_x X0 (s32 (strtoll_ str 10).1.1).
Definition hle_atol : prog unit :=
  p ← get_x X0; str ← read_string4096 p; set_x X0 (strtoll_ str 10).1.1.
Definition hle_atoll : prog unit :=
  p ← get_x X0; str ← read_string4096 p; set_x X0 (strtoll_ str 10).1.1.

(** * Absolute values and divisions *)

(** The library functions leave the smallest value as it is. *)
Definition hle_llabs : prog unit := x ← get_x X0; set_x X0 (Z.abs (s64 x)).
Definition hle_labs : prog unit := x ← get_x X0; set_x X0 (Z.abs (s64 x)).
Definition hle_imaxabs : prog unit := x ← get_x X0; let n := s64 x in set_x X0 (if n <? 0 then - n else n).
Definition hle_abs : prog unit := x ← get_x X0; set_x X0 (s32 (Z.abs (s32 x))).

(** C's division of [w]-bit integers. *)
Definition divide (w numer denom : Z) : prog (Z * Z) := fun s =>
  let quot := Z.quot numer denom in
  if quot =? 2 ^ (w - 1) then Segv else Ret (quot, Z.rem numer denom) s.

Definition hle_div : prog unit :=
  x ← get_x X0; y ← get_x X1;
  let numer := s32 x in let denom := s32 y in
  if negb (denom =? 0) then
    qr ← divide 32 numer denom;
    set_x X0 (Z.lor (Z.shiftl (u32 qr.2) 32) (u32 qr.1))
  else set_x X0 0.

(** The three functions on 64 bits have the same text. *)
Definition div64 : prog unit :=
  x ← get_x X0; y ← get_x X1;
  let numer := s64 x in let denom := s64 y in
  if negb (denom =? 0) then
    qr ← divide 64 numer denom;
    set_x X0 qr.1;; set_x X1 qr.2
  else set_x X0 0;; set_x X1 0.
Definition hle_ldiv : prog unit := div64.
Definition hle_lldiv : prog unit := div64.
Definition hle_imaxdiv : prog unit := div64.

(** * Random numbers *)

(** Draws below [min] are rejected. *)
Fixpoint draw (fuel : nat) (min : Z) : prog (option Z) :=
  match fuel with
  | O => mret None
  | Datatypes.S fuel => r ← g_rng; let r := u32 r in if r <? min then draw fuel min else mret (Some r)
  end.

Definition hle_arc4random_uniform (fuel : nat) : prog (option unit) :=
  x ← get_x X0;
  let upper := u32 x in
  if 2 <=? upper then
    let min := u32 (0 - upper) mod upper in
    r ← draw fuel min;
    match r with None => mret None | Some r => set_x X0 (r mod upper);; mret (Some tt) end
  else set_x X0 0;; mret (Some tt).

(** * Sorting and searching *)

(** [std::swap(elements[j], elements[j + 1])]. *)
Definition swap_next (j : nat) (elements : list (list Z)) : list (list Z) :=
  match elements !! j, elements !! Datatypes.S j with
  | Some x, Some y => <[j := y]> (<[Datatypes.S j := x]> elements)
  | _, _ => elements
  end.

(** [elements[i].resize(size)] and the read into it. *)
Fixpoint read_elements (n : nat) (base size i : Z) : prog (list (list Z)) :=
  match n with
  | O => mret []
  | Datatypes.S n =>
      new_buffer size;;
      e ← mem_rd_into (base ⊕ i * size) size;
      es ← read_elements n base size (i + 1);
      mret (e :: es)
  end.

(** The inner loop, [n] rounds from [j] on. *)
Fixpoint qsort_inner (n : nat) (base size compar : Z) (j : nat) (elements : list (list Z)) : prog (list (list Z)) :=
  match n with
  | O => mret elements
  | Datatypes.S n =>
      let addr_a := base ⊕ Z.of_nat j * size in
      let addr_b := base ⊕ (Z.of_nat j + 1) * size in
      result ← call_function_safe compar [addr_a; addr_b];
      if 0 <? s32 result then
        let elements := swap_next j elements in
        mem_wr addr_a (nth j elements []);;
        mem_wr addr_b (nth (Datatypes.S j) elements []);;
        qsort_inner n base size compar (Datatypes.S j) elements
      else qsort_inner n base size compar (Datatypes.S j) elements
  end.

(** The outer loop: the inner one makes [n] rounds, then [n] - 1, down to one. *)
Fixpoint qsort_outer (n : nat) (base size compar : Z) (elements : list (list Z)) : prog unit :=
  match n with
  | O => mret tt
  | Datatypes.S n' =>
      elements ← qsort_inner n base size compar 0 elements;
      qsort_outer n' base size compar elements
  end.

Definition hle_qsort : prog unit :=
  base ← get_x X0; nmemb ← get_x X1; size ← get_x X2; compar ← get_x X3;
  if (nmemb <=? 1) || (size =? 0) || (compar =? 0) then mret tt
  else
    new_buffer (nmemb * 24);;
    elements ← read_elements (Z.to_nat nmemb) base size 0;
    qsort_outer (Z.to_nat (nmemb - 1)) base size compar elements.

Fixpoint bsearch_loop (fuel : nat) (key base size compar low high : Z) : prog (option Z) :=
  match fuel with
  | O => mret None
  | Datatypes.S fuel =>
      if low <? high then
        let mid := low + (high - low) / 2 in
        let mid_addr := base ⊕ mid * size in
        result ← call_function_safe compar [key; mid_addr];
        let cmp := s32 result in
        if cmp =? 0 then mret (Some mid_addr)
        else if cmp <? 0 then bsearch_loop fuel key base size compar low mid
        else bsearch_loop fuel key base size compar (mid + 1) high
      else mret (Some 0)
  end.

(** [high - low] is halved in every round: 65 rounds are enough. *)
Definition hle_bsearch : prog (option unit) :=
  key ← get_x X0; base ← get_x X1; nmemb ← get_x X2; size ← get_x X3; compar ← get_x X4;
  if (nmemb =? 0) || (size =? 0) || (compar =? 0) then set_x X0 0;; mret (Some tt)
  else
    r ← bsearch_loop 65 key base size compar 0 nmemb;
    match r with None => mret None | Some a => set_x X0 a;; mret (Some tt) end.

End Stdlib.
