(* ===== verification/HleSortSpec.v ===== *)
(** qsort and bsearch of hle_stdlib.cpp: the array in guest memory becomes a sorted
    permutation of itself, and binary search finds what is there. *)

From S2P Require Import Prelude Env HeapAllocator MemoryManager MemorySpec Machine HostAccess HleMonad HleErrno MappedSpec SyscallHandler HlePrintf HleSearch HleSearchHeap HleMultibyteSpec HleMbsSpec HleStdlib.
From stdpp Require Import sorting.
#[local] Open Scope Z_scope.

(** * Bubble sort *)

Section Bubble.
Context {A : Type} (cmp : A -> A -> Z).

(** One pass of [n] comparisons, and the passes of qsort. *)
Fixpoint bubble (n : nat) (l : list A) : list A :=
  match n, l with
  | S n, x :: y :: t => if 0 <? cmp x y then y :: bubble n (x :: t) else x :: bubble n (y :: t)
  | _, _ => l
  end.
Fixpoint bubble_sort (n : nat) (l : list A) : list A := match n with O => l | S n' => bubble_sort n' (bubble n l) end.

Lemma bubble_perm n : forall l, bubble n l ≡ₚ l.
Proof.
  induction n as [|n IH]; intros [|x [|y t]]; cbn; [done..|]. destruct (0 <? cmp x y); rewrite IH; [apply Permutation_swap|done].
Qed.

(** Comparisons that order all elements. *)
Class Orders := {
  orders_flip x y : 0 < cmp x y -> cmp y x <= 0;
  orders_trans x y z : cmp x y <= 0 -> cmp y z <= 0 -> cmp x z <= 0;
}.
Context `{O : !Orders}.
Definition ordered_by (x y : A) : Prop := cmp x y <= 0.

(** The greatest element moves to the end of the part that is looked at. *)
Lemma bubble_moves n : forall l x suf, length l = n -> exists q m, bubble n (x :: l ++ suf) = q ++ m :: suf /\ length q = n /\ q ++ [m] ≡ₚ x :: l /\ Forall (fun y => ordered_by y m) q.
Proof.
  induction n as [|n IH]; intros l x suf Hl.
  { destruct l; [|done]. exists [], x. by split_and!. }
  destruct l as [|y l]; [done|]. injection Hl as Hl. cbn [bubble app]. destruct (Z.ltb_spec 0 (cmp x y)) as [Hgt|Hle].
  - destruct (IH l x suf Hl) as (q & m & -> & Hq & Hp & Hall). exists (y :: q), m. split_and!; [done|cbn; lia|cbn; rewrite Hp; apply Permutation_swap|].
    constructor; [|done]. assert (Hx : x ∈ q ++ [m]) by (rewrite Hp; by left). apply orders_flip in Hgt. unfold ordered_by.
    apply elem_of_app in Hx as [Hx| ->%list_elem_of_singleton]; [|done]. rewrite Forall_forall in Hall. by eapply orders_trans, Hall.
  - destruct (IH l y suf Hl) as (q & m & -> & Hq & Hp & Hall). exists (x :: q), m. split_and!; [done|cbn; lia|cbn; by rewrite Hp|].
    constructor; [|done]. assert (Hy : y ∈ q ++ [m]) by (rewrite Hp; by left). unfold ordered_by.
    apply elem_of_app in Hy as [Hy| ->%list_elem_of_singleton]; [|done]. rewrite Forall_forall in Hall. by eapply orders_trans, Hall.
Qed.

(** Passes on the first [n] + 1 elements, the others being in place. *)
Lemma bubble_sort_passes n : forall l suf, length l = S n -> StronglySorted ordered_by suf -> (forall x y, x ∈ l -> y ∈ suf -> ordered_by x y) ->
  bubble_sort n (l ++ suf) ≡ₚ l ++ suf /\ StronglySorted ordered_by (bubble_sort n (l ++ suf)).
Proof.
  induction n as [|n IH]; intros l suf Hl Hs Hle; (destruct l as [|x l]; [done|]); injection Hl as Hl.
  { destruct l; [|done]. cbn. split; [done|]. constructor; [done|]. apply Forall_forall. intros y Hy. apply Hle; [by left|done]. }
  cbn [bubble_sort app]. destruct (bubble_moves (S n) l x suf Hl) as (q & m & -> & Hq & Hp & Hall).
  assert (Hin : forall y, y ∈ q \/ y = m <-> y ∈ x :: l).
  { intros y. rewrite <- Hp, elem_of_app, list_elem_of_singleton. done. }
  destruct (IH q (m :: suf)) as [P1 S1]; [done| | |].
  - constructor; [done|]. apply Forall_forall. intros y Hy. apply Hle; [|done]. apply Hin. by right.
  - intros a b Ha [->|Hb]%elem_of_cons; [by apply (proj1 (Forall_forall _ _) Hall)|]. apply Hle; [|done]. apply Hin. by left.
  - split; [|done]. rewrite P1. change (q ++ m :: suf) with (q ++ ([m] ++ suf)). by rewrite app_assoc, Hp.
Qed.

Lemma bubble_sort_spec n l : length l = S n -> bubble_sort n l ≡ₚ l /\ StronglySorted ordered_by (bubble_sort n l).
Proof.
  intros Hl. destruct (bubble_sort_passes n l [] Hl) as [P1 S1]; [constructor|by intros ?? _ ?%elem_of_nil|]. by rewrite app_nil_r in *.
Qed.

End Bubble.

(** * Arrays in guest memory *)

Lemma stored_splice f a p q q' r x : length q = length q' -> stored (stored f a (p ++ q ++ r)) (a + Z.of_nat (length p)) q' x = stored f a (p ++ q' ++ r) x.
Proof.
  intros Hl. unfold stored. rewrite !length_app, <- Hl. destruct (decide (a + Z.of_nat (length p) <= x < a + Z.of_nat (length p) + Z.of_nat (length q))) as [Hin|Hout].
  - rewrite decide_True by lia. rewrite lookup_app_r, lookup_app_l by lia. f_equal. lia.
  - destruct (decide (a <= x < _)) as [Hx|]; [|done]. destruct (decide (x < a + Z.of_nat (length p))).
    + by rewrite !lookup_app_l by lia.
    + rewrite !lookup_app_r by lia. f_equal. lia.
Qed.

Section Sort.
Context {S : Type} `{M : !Machine S, L : !MemLaws S, R : !RegFileLaws S, V : !HostView S, HL : !HostLaws S, G : !GuestFun S}.
Implicit Types s : S.
Context (cmp : list Z -> list Z -> Z) (compar : Z) (size : nat).
Context (Hsize : (0 < size)%nat).

(** The guest's function compares the elements behind two pointers and changes
    nothing. *)
Definition compares_elements : Prop := forall a b x y s, sane s -> length x = size -> length y = size ->
  mapped a (Z.of_nat size) s -> mapped b (Z.of_nat size) s -> holds_at (byte_at s) a x -> holds_at (byte_at s) b y ->
  exists v s', call_function_safe compar [a; b] s = Ret v s' /\ became s (byte_at s) s' /\ s32 v = cmp x y.
Context (Hcmp : compares_elements).

Definition elements_ok (els : list (list Z)) : Prop := Forall (fun e => length e = size) els.
Definition flat (els : list (list Z)) : list Z := mjoin els.

Lemma flat_app xs ys : flat (xs ++ ys) = flat xs ++ flat ys.
Proof. apply join_app. Qed.
Lemma flat_cons x ys : flat (x :: ys) = x ++ flat ys.
Proof. done. Qed.
Lemma length_flat els : elements_ok els -> length (flat els) = (length els * size)%nat.
Proof. induction 1 as [|e els He _ IH]; [done|]. rewrite flat_cons, length_app, He, IH. cbn. lia. Qed.

Lemma wp_compare {B} a b x y (k : Z -> hle S B) Q s0 f s : became s0 f s -> length x = size -> length y = size ->
  mapped a (Z.of_nat size) s0 -> mapped b (Z.of_nat size) s0 -> holds_at f a x -> holds_at f b y ->
  (forall v s', became s0 f s' -> s32 v = cmp x y -> wp (k v) Q s') -> wp (call_function_safe compar [a; b] ≫= k) Q s.
Proof.
  intros Hb Lx Ly Ma Mb Ha Hb' Hk. pose proof Hb as [H1 H2 _ H4 _].
  destruct (Hcmp a b x y s H1 Lx Ly) as (v & s' & E & Hst & Hv); [by apply H2|by apply H2| | |].
  - eapply holds_at_ext; [|exact Ha]. intros z _. by rewrite H4.
  - eapply holds_at_ext; [|exact Hb']. intros z _. by rewrite H4.
  - apply wp_bind. unfold wp at 1. rewrite E. apply Hk; [|done]. eapply became_trans; [exact Hb|]. eapply became_ext; [|exact Hst]. apply H4.
Qed.

(** ** qsort *)

Section Array.
Context (base : Z) (s0 : S) (f0 : Z -> option Z) (total : nat).
Context (Hs0 : sane s0) (Hmap : mapped base (Z.of_nat (total * size)) s0).

(** The array holds [els]. *)
Definition array (els : list (list Z)) s : Prop := became s0 (stored f0 base (flat els)) s.

Lemma element_holds pre x post : elements_ok (pre ++ x :: post) ->
  holds_at (stored f0 base (flat (pre ++ x :: post))) (base + Z.of_nat (length pre) * Z.of_nat size) x.
Proof.
  intros Hok. apply Forall_app in Hok as [Hpre Hx]. rewrite flat_app, flat_cons. intros i b Hi. pose proof (lookup_lt_Some _ _ _ Hi).
  replace (base + Z.of_nat (length pre) * Z.of_nat size + Z.of_nat i) with (base + Z.of_nat (length (flat pre) + i)) by (rewrite length_flat by done; lia).
  apply stored_in. rewrite lookup_app_r, Nat.add_comm, Nat.add_sub, lookup_app_l by lia. done.
Qed.

Lemma swap_next_app pre x y post : swap_next (length pre) (pre ++ x :: y :: post) = pre ++ y :: x :: post.
Proof.
  unfold swap_next. rewrite (list_lookup_middle pre (y :: post) x _ eq_refl). change (pre ++ x :: y :: post) with (pre ++ [x] ++ y :: post). rewrite app_assoc.
  rewrite (list_lookup_middle (pre ++ [x]) post y) by (rewrite length_app; cbn; lia). rewrite <- app_assoc. cbn [app].
  rewrite insert_app_r_alt by lia. replace (Datatypes.S (length pre) - length pre)%nat with 1%nat by lia. rewrite insert_app_r_alt, Nat.sub_diag by lia. done.
Qed.

Lemma inner_address j : (j * size < total * size)%nat -> base ⊕ Z.of_nat j * Z.of_nat size = base + Z.of_nat j * Z.of_nat size.
Proof. intros Hj. pose proof (mapped_range _ _ _ (sane_mem _ Hs0) Hmap). apply u64_small. u64_lia. Qed.

(** Two neighbours change places. *)
Lemma array_swapped pre x y l s : elements_ok (pre ++ x :: y :: l) -> length (pre ++ x :: y :: l) = total -> array (pre ++ x :: y :: l) s ->
  array (pre ++ y :: x :: l) (gwrite (base + Z.of_nat (Datatypes.S (length pre)) * Z.of_nat size) x (gwrite (base + Z.of_nat (length pre) * Z.of_nat size) y s).2).2.
Proof.
  intros Hok Hlen Harr. rewrite length_app in Hlen. cbn [length] in Hlen. pose proof Hok as Hok'. apply Forall_app in Hok' as [Hpre [Hx [Hy Hl]%Forall_cons]%Forall_cons].
  assert (Hm : forall j (e : list Z), (j < total)%nat -> length e = size -> mapped (base + Z.of_nat j * Z.of_nat size) (Z.of_nat (length e)) s0).
  { intros j e Hj ->. eapply mapped_sub; [exact Hmap|lia|lia|nia]. }
  assert (Hne : forall e : list Z, length e = size -> e <> []) by (intros e He ->; cbn in He; lia).
  pose proof (length_flat pre Hpre) as Lp. unfold array in *. rewrite !flat_app, !flat_cons in *.
  eapply write_became in Harr; [|apply (Hm (length pre) y); lia|by apply Hne].
  eapply write_became in Harr; [|apply (Hm (Datatypes.S (length pre)) x); lia|by apply Hne]. eapply became_ext; [|exact Harr]. intros z.
  replace (base + Z.of_nat (length pre) * Z.of_nat size) with (base + Z.of_nat (length (flat pre))) by (rewrite Lp; lia).
  replace (base + Z.of_nat (Datatypes.S (length pre)) * Z.of_nat size) with (base + Z.of_nat (length (flat pre ++ y))) by (rewrite length_app, Lp, Hy; lia).
  rewrite (stored_ext _ (stored f0 base (flat pre ++ y ++ y ++ flat l)) _ _ z) by (intros; apply stored_splice; congruence).
  rewrite (app_assoc (flat pre)), stored_splice by congruence. by rewrite <- app_assoc.
Qed.

Lemma nth_middle_ pre (x : list Z) post : nth (length pre) (pre ++ x :: post) [] = x.
Proof. by rewrite nth_middle. Qed.

Lemma qsort_inner_spec n : forall pre l s, length (pre ++ l) = total -> elements_ok (pre ++ l) -> (n < length l)%nat -> array (pre ++ l) s ->
  wp (qsort_inner n base (Z.of_nat size) compar (length pre) (pre ++ l)) (fun els s' => els = pre ++ bubble cmp n l /\ array els s') s.
Proof.
  induction n as [|n IH]; intros pre l s Hlen Hok Hn Harr; [by apply wp_ret; destruct l|].
  destruct l as [|x [|y l]]; [cbn in Hn; lia..|]. pose proof Hlen as Hlen'. rewrite length_app in Hlen. cbn [length] in Hlen, Hn.
  pose proof Hok as Hok'. apply Forall_app in Hok' as [Hpre [Hx [Hy Hl]%Forall_cons]%Forall_cons].
  cbn [qsort_inner]. assert (Hm : forall j, (j < total)%nat -> mapped (base + Z.of_nat j * Z.of_nat size) (Z.of_nat size) s0).
  { intros j Hj. eapply mapped_sub; [exact Hmap|lia|lia|nia]. }
  rewrite inner_address by nia. replace (Z.of_nat (length pre) + 1) with (Z.of_nat (Datatypes.S (length pre))) by lia. rewrite inner_address by nia.
  pose proof (element_holds pre x (y :: l) Hok) as Ha. pose proof (element_holds (pre ++ [x]) y l) as Hb. rewrite <- app_assoc, length_app in Hb. cbn [app length] in Hb.
  replace (length pre + 1)%nat with (Datatypes.S (length pre)) in Hb by lia. specialize (Hb Hok).
  eapply wp_compare; [exact Harr|exact Hx|exact Hy|apply Hm; lia|apply Hm; lia|exact Ha|exact Hb|]. intros v s1 A1 ->. cbn [bubble].
  assert (Hstep : forall z l', elements_ok (pre ++ z :: l') -> length (pre ++ z :: l') = total -> (n < length l')%nat -> forall s2, array (pre ++ z :: l') s2 ->
    wp (qsort_inner n base (Z.of_nat size) compar (Datatypes.S (length pre)) (pre ++ z :: l')) (fun els s' => els = pre ++ z :: bubble cmp n l' /\ array els s') s2).
  { intros z l' Hok1 Hlen1 Hn1 s2 A2. assert (Hl1 : length (pre ++ [z]) = Datatypes.S (length pre)) by (rewrite length_app; cbn; lia).
    specialize (IH (pre ++ [z]) l' s2). rewrite <- !app_assoc, Hl1 in IH. by apply IH. }
  destruct (0 <? cmp x y).
  - rewrite swap_next_app, nth_middle_. assert (nth (Datatypes.S (length pre)) (pre ++ y :: x :: l) [] = x) as ->.
    { pose proof (nth_middle_ (pre ++ [y]) x l) as Hnth. rewrite <- app_assoc, length_app, Nat.add_comm in Hnth. exact Hnth. }
    apply wp_bind. unfold wp at 1, mem_wr. apply wp_bind. unfold wp at 1. apply (Hstep y (x :: l)).
    + apply Forall_app. split; [done|]. by repeat constructor.
    + rewrite length_app. cbn. lia.
    + cbn. lia.
    + by apply array_swapped.
  - by apply (Hstep x (y :: l)); [..|cbn; lia|].
Qed.

Lemma qsort_outer_spec n : forall els s, length els = total -> elements_ok els -> (n < total)%nat -> array els s ->
  wp (qsort_outer n base (Z.of_nat size) compar els) (fun _ s' => array (bubble_sort cmp n els) s') s.
Proof.
  induction n as [|n IH]; intros els s Hlen Hok Hn Harr; [by apply wp_ret|]. cbn [qsort_outer bubble_sort]. apply wp_bind.
  refine (wp_mono _ _ _ _ (qsort_inner_spec (Datatypes.S n) [] els s Hlen Hok _ Harr) _); [lia|]. intros els' s' [-> A']. cbn [app] in *.
  pose proof (bubble_perm cmp (Datatypes.S n) els) as Hp. apply IH; [by rewrite Hp|unfold elements_ok; by rewrite Hp|lia|done].
Qed.

End Array.

(** The elements as qsort reads them. *)
Lemma read_elements_spec base s0 total els0 : sane s0 -> mapped base (Z.of_nat (total * size)) s0 -> (forall n, n = Z.of_nat size -> alloc_ok n s0 = true) ->
  forall els pre, els0 = pre ++ els -> length els0 = total -> elements_ok els0 -> holds_at (byte_at s0) base (flat els0) ->
  read_elements (length els) base (Z.of_nat size) (Z.of_nat (length pre)) s0 = Ret els s0.
Proof.
  intros Hs Hm Hal els. induction els as [|e els IH]; intros pre -> Hlen Hok Hh; [done|]. cbn [length read_elements]. unfold mbind, hle_bind, new_buffer. rewrite Hal by done.
  pose proof Hok as Hok'. apply Forall_app in Hok' as [Hpre [He Hels]%Forall_cons]. rewrite length_app in Hlen. cbn [length] in Hlen.
  pose proof (mapped_range _ _ _ (sane_mem _ Hs) Hm). rewrite (u64_small (base + _)) by (unfold in_u64 || idtac; u64_lia || (unfold two64 in *; nia)).
  assert (Hrd : mem_rd_into (base + Z.of_nat (length pre) * Z.of_nat size) (Z.of_nat size) s0 = Ret e s0).
  { unfold mem_rd_into. pose proof (gread_holds (base + Z.of_nat (length pre) * Z.of_nat size) e s0 (sane_mem _ Hs)) as Hg. rewrite He in Hg.
    rewrite Hg; [done| |intros ->; cbn in He; lia|].
    - eapply mapped_sub; [exact Hm|lia|lia|nia].
    - rewrite flat_app, flat_cons in Hh. apply holds_at_app in Hh as [_ Hh]. apply holds_at_app in Hh as [Hh _]. rewrite length_flat in Hh by done.
      replace (Z.of_nat (length pre) * Z.of_nat size) with (Z.of_nat (length pre * size)) by lia. done. }
  rewrite Hrd. specialize (IH (pre ++ [e])). assert (Hl1 : Z.of_nat (length (pre ++ [e])) = Z.of_nat (length pre) + 1) by (rewrite length_app; cbn; lia). rewrite Hl1 in IH.
  rewrite IH; [done|by rewrite <- app_assoc|rewrite !length_app; cbn; lia|done|done].
Qed.

(** C35: qsort terminates and leaves in the array a permutation of its elements that is
    in the order of the guest's comparison; no byte outside the array changes.  (The
    comparison may be any function that orders the elements and changes nothing.) *)
Theorem qsort_sorts `{O : !Orders cmp} base els s : sane s -> getr X0 s = base -> getr X1 s = Z.of_nat (length els) -> getr X2 s = Z.of_nat size -> getr X3 s = compar -> compar <> 0 ->
  elements_ok els -> mapped base (Z.of_nat (length els * size)) s -> holds_at (byte_at s) base (flat els) ->
  alloc_ok (Z.of_nat size) s = true -> alloc_ok (Z.of_nat (length els) * 24) s = true ->
  wp hle_qsort (fun _ s' => exists els', els' ≡ₚ els /\ StronglySorted (ordered_by cmp) els' /\ became s (stored (byte_at s) base (flat els')) s') s.
Proof.
  intros Hs E0 E1 E2 E3 Hc Hok Hm Hh Ha1 Ha2. unfold hle_qsort. do 4 apply wp_reg. rewrite E0, E1, E2, E3, (proj2 (Z.eqb_neq compar 0)), (proj2 (Z.eqb_neq (Z.of_nat size) 0)) by (done || lia).
  rewrite !orb_false_r. assert (Hsame : became s (stored (byte_at s) base (flat els)) s).
  { eapply became_ext; [|by apply became_refl]. intros x. unfold stored. destruct (decide _) as [Hx|]; [|done]. by apply holds_at_bytes. }
  destruct (Z.leb_spec (Z.of_nat (length els)) 1) as [Hle|Hgt].
  { apply wp_ret. exists els. split_and!; [done| |done]. destruct els as [|x [|y els]]; [constructor|by repeat constructor|cbn in Hle; lia]. }
  apply wp_bind. unfold wp at 1, new_buffer. rewrite Ha2. apply wp_bind. unfold wp at 1. rewrite Nat2Z.id.
  pose proof (read_elements_spec base s (length els) els Hs Hm ltac:(by intros ? ->) els [] eq_refl eq_refl Hok Hh) as Hre. change (Z.of_nat (length [])) with 0 in Hre. rewrite Hre.
  replace (Z.to_nat (Z.of_nat (length els) - 1)) with (length els - 1)%nat by lia.
  refine (wp_mono _ _ _ _ (qsort_outer_spec base s (byte_at s) (length els) Hs Hm (length els - 1) els s eq_refl Hok _ Hsame) _); [lia|]. intros _ s' A'.
  destruct (bubble_sort_spec cmp (length els - 1) els) as [P1 S1]; [lia|]. by exists (bubble_sort cmp (length els - 1) els).
Qed.

(** ** bsearch *)

Section Search.
Context (key : Z) (ck : list Z -> Z) (s0 : S).

(** The guest's function compares what [key] points to with an element. *)
Definition compares_key : Prop := forall b y s, became s0 (byte_at s0) s -> length y = size -> mapped b (Z.of_nat size) s -> holds_at (byte_at s0) b y ->
  exists v s', call_function_safe compar [key; b] s = Ret v s' /\ became s (byte_at s0) s' /\ s32 v = ck y.

(** The array is in order around the key. *)
Definition ordered_around (els : list (list Z)) : Prop := forall (i j : nat) x y, els !! i = Some x -> els !! j = Some y -> (i < j)%nat -> (0 < ck y -> 0 < ck x) /\ (ck x < 0 -> ck y < 0).

(** What bsearch returns: an element equal to the key, or a null pointer, the latter on an
    array in order only if no element is equal to the key. *)
Definition search_result (base : Z) (els : list (list Z)) (v : Z) : Prop :=
  (exists i e, v = base + Z.of_nat i * Z.of_nat size /\ els !! i = Some e /\ ck e = 0) \/
  v = 0 /\ (ordered_around els -> Forall (fun e => ck e <> 0) els).

Context (base : Z) (els : list (list Z)).
Context (Hs0 : sane s0) (Hkey : compares_key) (Hok : elements_ok els).
Context (Hmap : mapped base (Z.of_nat (length els * size)) s0) (Hh : holds_at (byte_at s0) base (flat els)).

Lemma element_at i e : els !! i = Some e -> length e = size /\ holds_at (byte_at s0) (base + Z.of_nat i * Z.of_nat size) e.
Proof.
  intros Hi. pose proof Hok as Hok'. pose proof Hh as Hh'. apply take_drop_middle in Hi as Hels. rewrite <- Hels in Hh', Hok'.
  apply Forall_app in Hok' as [Hpre [He _]%Forall_cons]. split; [exact He|]. rewrite flat_app, flat_cons in Hh'. apply holds_at_app in Hh' as [_ Hh']. apply holds_at_app in Hh' as [Hh' _].
  rewrite length_flat, length_take_le in Hh' by (exact Hpre || (apply lookup_lt_Some in Hi; lia)). by rewrite Nat2Z.inj_mul in Hh'.
Qed.

(** On an array in order, elements before [low] are too small, those from [high] on too
    great. *)
Lemma bsearch_loop_spec fuel : forall low high s, (0 < fuel)%nat -> (low <= high <= length els)%nat -> Z.of_nat (high - low) < 2 ^ (Z.of_nat fuel - 1) ->
  (ordered_around els -> forall i e, els !! i = Some e -> (i < low)%nat -> 0 < ck e) -> (ordered_around els -> forall i e, els !! i = Some e -> (high <= i)%nat -> ck e < 0) -> became s0 (byte_at s0) s ->
  wp (bsearch_loop fuel key base (Z.of_nat size) compar (Z.of_nat low) (Z.of_nat high)) (fun r s' => became s0 (byte_at s0) s' /\ exists v, r = Some v /\ search_result base els v) s.
Proof.
  induction fuel as [|fuel IH]; intros low high s Hf Hlh Hb Hlo Hhi Hst; [lia|]. cbn [bsearch_loop]. destruct (Z.ltb_spec (Z.of_nat low) (Z.of_nat high)).
  2:{ apply wp_ret. split; [done|]. exists 0. split; [done|]. right. split; [done|]. intros Hord. apply Forall_lookup. intros i e Hi. destruct (decide (i < low)%nat) as [Hl|Hl]; [specialize (Hlo Hord i e Hi Hl)|specialize (Hhi Hord i e Hi)]; lia. }
  set (mid := (low + (high - low) / 2)%nat). assert (Hmid : Z.of_nat low + (Z.of_nat high - Z.of_nat low) / 2 = Z.of_nat mid).
  { unfold mid. rewrite Nat2Z.inj_add, Nat2Z.inj_div, Nat2Z.inj_sub by lia. done. }
  assert (low <= mid < high)%nat by (pose proof (Z.div_lt (Z.of_nat high - Z.of_nat low) 2); pose proof (Z.div_pos (Z.of_nat high - Z.of_nat low) 2); lia).
  destruct (lookup_lt_is_Some_2 els mid) as [e He]; [lia|]. destruct (element_at mid e He) as [Le Hat].
  rewrite Hmid, (inner_address base s0 (length els) Hs0 Hmap) by nia. pose proof Hst as [_ Hm _ _ _].
  destruct (Hkey (base + Z.of_nat mid * Z.of_nat size) e s Hst Le) as (v & s' & E & Hst' & Hv); [apply Hm; eapply mapped_sub; [exact Hmap|nia..]|exact Hat|].
  apply wp_bind. unfold wp at 1. rewrite E, Hv. assert (Hb' : became s0 (byte_at s0) s') by (eapply became_trans; eassumption).
  assert (Hhalf : forall d, (2 * d <= high - low)%nat -> (0 < fuel)%nat /\ Z.of_nat d < 2 ^ (Z.of_nat fuel - 1)).
  { intros d Hd. destruct fuel as [|fuel]; [cbn in Hb; lia|]. split; [lia|]. rewrite Nat2Z.inj_succ in Hb. replace (Z.succ (Z.of_nat (Datatypes.S fuel)) - 1) with (Z.succ (Z.of_nat (Datatypes.S fuel) - 1)) in Hb by lia.
    rewrite Z.pow_succ_r in Hb by lia. lia. }
  assert (Hd : (2 * (mid - low) <= high - low)%nat /\ (2 * (high - (mid + 1)) <= high - low)%nat) by (unfold mid; pose proof (Nat.div_mod_eq (high - low) 2); pose proof (Nat.mod_upper_bound (high - low) 2); lia).
  destruct (Z.eqb_spec (ck e) 0) as [Hz|Hnz]; [apply wp_ret; split; [done|]; eexists; split; [done|]; left; by exists mid, e|].
  destruct (Z.ltb_spec (ck e) 0) as [Hlt|Hge].
  - apply IH; [apply (Hhalf (mid - low)%nat); lia|lia|apply (Hhalf (mid - low)%nat); lia|done| |done].
    intros Hord i y Hi Hmi. destruct (decide (i = mid)) as [->|]; [by simplify_eq|]. apply (Hord mid i e y He Hi); lia.
  - replace (Z.of_nat mid + 1) with (Z.of_nat (mid + 1)) by lia. apply IH; [apply (Hhalf (high - (mid + 1))%nat); lia|lia|apply (Hhalf (high - (mid + 1))%nat); lia| |done|done].
    intros Hord i y Hi Hmi. destruct (decide (i = mid)) as [->|]; [simplify_eq; lia|]. apply (Hord i mid y e Hi He); lia.
Qed.

End Search.

(** C36: On any array whose elements the guest's function compares with the key, bsearch
    ends within 65 rounds and returns the address of an element that the function finds
    equal to the key, or a null pointer; on an array in order it returns null only when no
    element is equal to the key. Memory does not change. *)
Theorem bsearch_finds key ck base els s : sane s -> getr X0 s = key -> getr X1 s = base -> getr X2 s = Z.of_nat (length els) -> getr X3 s = Z.of_nat size -> getr X4 s = compar -> compar <> 0 ->
  compares_key key ck s -> elements_ok els -> mapped base (Z.of_nat (length els * size)) s -> holds_at (byte_at s) base (flat els) ->
  wp hle_bsearch (fun r s' => r = Some tt /\ exists v, search_result ck base els v /\ returned s (byte_at s) v s') s.
Proof.
  intros Hs E0 E1 E2 E3 E4 Hc Hkey Hok Hm Hh. unfold hle_bsearch. do 5 apply wp_reg. rewrite E0, E1, E2, E3, E4, (proj2 (Z.eqb_neq compar 0)), (proj2 (Z.eqb_neq (Z.of_nat size) 0)) by (done || lia).
  rewrite !orb_false_r. pose proof (mapped_range _ _ _ (sane_mem _ Hs) Hm) as Hr. destruct (Z.eqb_spec (Z.of_nat (length els)) 0) as [Hz|Hn].
  { destruct els; [|cbn in Hz; lia]. apply wp_bind. eapply wp_set; [by apply became_refl|done|]. intros s' HR. apply wp_ret. split; [done|]. exists 0. split; [by right|done]. }
  apply wp_bind. refine (wp_mono _ _ _ _ (bsearch_loop_spec key ck s base els Hs Hkey Hok Hm Hh 65 0 (length els) s _ _ _ _ _ _) _).
  - lia.
  - lia.
  - rewrite Nat.sub_0_r. change (2 ^ (Z.of_nat 65 - 1)) with two64. nia.
  - lia.
  - intros _ i e Hi Hl. apply lookup_lt_Some in Hi. lia.
  - by apply became_refl.
  - intros r s' [Hb (v & -> & Hv)]. apply wp_bind. eapply wp_set; [exact Hb| |intros s'' HR; apply wp_ret; split; [done|]; by exists v].
    destruct Hv as [(i & e & -> & Hi & _)|[-> _]]; [|done]. apply lookup_lt_Some in Hi. u64_lia || (unfold two64 in *; nia).
Qed.

End Sort.

(** * Bytes in the order of their values *)

Definition byte_cmp (x y : list Z) : Z := Z.sgn (le_value x - le_value y).
#[local] Instance byte_calls : GuestFun (mstate (E := RefEnv)) := fun _ args s =>
  match args with
  | [a; b] => Ret (match gread a 1 s, gread b 1 s with Some x, Some y => u64 (byte_cmp x y) | _, _ => 0 end) s
  | _ => Ret 0 s
  end.
#[local] Instance byte_orders : Orders byte_cmp.
Proof. constructor; unfold byte_cmp; intros; lia. Qed.

Lemma byte_cmp_int x y : s32 (u64 (byte_cmp x y)) = byte_cmp x y.
Proof. unfold byte_cmp. assert (Hc : Z.sgn (le_value x - le_value y) = 1 \/ Z.sgn (le_value x - le_value y) = 0 \/ Z.sgn (le_value x - le_value y) = -1) by lia. by destruct Hc as [-> | [-> | ->]]. Qed.

Lemma byte_call a b x y (s : mstate (E := RefEnv)) : sane s -> length x = 1%nat -> length y = 1%nat -> mapped a 1 s -> mapped b 1 s -> holds_at (byte_at s) a x -> holds_at (byte_at s) b y ->
  call_function_safe 0x400000 [a; b] s = Ret (u64 (byte_cmp x y)) s.
Proof.
  intros Hs Lx Ly Ma Mb Hx Hy. unfold call_function_safe, byte_calls.
  pose proof (gread_holds a x s (sane_mem _ Hs)) as Gx. pose proof (gread_holds b y s (sane_mem _ Hs)) as Gy. rewrite Lx in Gx. rewrite Ly in Gy. change (Z.of_nat 1) with 1 in *.
  rewrite Gx, Gy; [done|exact Mb|by intros ->|exact Hy|exact Ma|by intros ->|exact Hx].
Qed.

Lemma bytes_compared : compares_elements byte_cmp 0x400000 1.
Proof.
  intros a b x y s Hs Lx Ly Ma Mb Hx Hy. eexists _, s. split; [by apply (byte_call a b x y s)|]. split; [by apply became_refl|apply byte_cmp_int].
Qed.

Lemma qsort_sorts_witness : wp hle_qsort (fun _ s' => byte_at s' HEAP_BASE = Some 3 /\ byte_at s' (HEAP_BASE + 1) = Some 5 /\ byte_at s' (HEAP_BASE + 2) = Some 9) (mb_mem [5; 9; 3] HEAP_BASE 3 1 0x400000).
Proof.
  refine (wp_mono _ _ _ _ (qsort_sorts byte_cmp 0x400000 1 ltac:(lia) bytes_compared HEAP_BASE [[5]; [9]; [3]] (mb_mem [5; 9; 3] HEAP_BASE 3 1 0x400000) _ _ _ _ _ _ _ _ _ _ _) _);
    [apply mb_mem_sane|reflexivity|reflexivity|reflexivity|reflexivity|done|by repeat constructor|apply mb_mem_mapped; unfold HEAP_SIZE; cbn; lia|apply holds_check_ok; vm_compute; reflexivity|reflexivity|reflexivity|].
  intros _ s' (els & Hp & Hsrt & Hb). assert (els = [[3]; [5]; [9]]) as ->; [|split_and!; rewrite (bc_byte _ _ _ Hb); reflexivity].
  apply (StronglySorted_unique_strong (ordered_by byte_cmp)); [|done| |rewrite Hp; apply Permutation_sym, (Permutation_cons_append [[5]; [9]] [3])].
  - intros x y Hx Hy. rewrite Hp in Hx. assert (y = [3] \/ y = [5] \/ y = [9]) as Hy' by (set_solver). set_unfold in Hx. unfold ordered_by, byte_cmp. destruct Hx as [-> | [-> | [-> | []]]], Hy' as [-> | [-> | ->]]; cbn; lia || done.
  - repeat constructor; unfold ordered_by, byte_cmp; cbn; lia.
Defined.

(** The key 9 is at the end of the array. *)
Definition find_mem : mstate (E := RefEnv) := putr X4 0x400000 (mb_mem [3; 5; 9; 9] (HEAP_BASE + 3) HEAP_BASE 3 1).

Lemma find_mem_sane : sane find_mem.
Proof.
  pose proof (mb_mem_sane [3; 5; 9; 9] (HEAP_BASE + 3) HEAP_BASE 3 1) as [H1 H2 H3 H4]. constructor; [by apply ok_putr|by apply cpu_putr|by apply host_putr|done].
Qed.

Lemma find_mem_mapped a n : HEAP_BASE <= a -> a + n <= HEAP_BASE + HEAP_SIZE -> 0 < n -> mapped a n find_mem.
Proof. intros. by apply mapped_putr, mb_mem_mapped. Qed.

Lemma find_mem_key : compares_key 0x400000 1 (HEAP_BASE + 3) (byte_cmp [9]) find_mem.
Proof.
  intros b y s Hb Ly My Hy. pose proof Hb as [H1 H2 _ H4 _]. eexists _, s. split; [apply (byte_call (HEAP_BASE + 3) b [9] y s H1 eq_refl Ly)|split; [|apply byte_cmp_int]].
  - apply H2, find_mem_mapped; unfold HEAP_SIZE; lia.
  - exact My.
  - apply (holds_at_ext (byte_at find_mem) _ _ _ (fun z _ => eq_sym (H4 z))). apply holds_check_ok; vm_compute; reflexivity.
  - exact (holds_at_ext (byte_at find_mem) _ _ _ (fun z _ => eq_sym (H4 z)) Hy).
  - eapply became_ext; [exact H4|exact (became_refl s H1)].
Qed.

Lemma bsearch_finds_witness : wp hle_bsearch (fun r s' => r = Some tt /\ getr X0 s' = HEAP_BASE + 2) find_mem.
Proof.
  refine (wp_mono _ _ _ _ (bsearch_finds 0x400000 1 ltac:(lia) (HEAP_BASE + 3) (byte_cmp [9]) HEAP_BASE [[3]; [5]; [9]] find_mem find_mem_sane _ _ _ _ _ _ find_mem_key _ _ _) _);
    [reflexivity|reflexivity|reflexivity|reflexivity|reflexivity|done|by repeat constructor| |apply holds_check_ok; vm_compute; reflexivity|].
  - apply find_mem_mapped; unfold HEAP_SIZE; cbn; lia.
  - intros r s' [-> (v & Hv & HR)]. split; [done|]. rewrite (rt_value _ _ _ _ HR). destruct Hv as [(i & e & -> & Hi & Hc)|[-> Hn]].
    + destruct i as [|[|[|i]]]; cbn in Hi; simplify_eq; done.
    + exfalso. apply (proj1 (Forall_forall _ _) (Hn ltac:(intros i j x y Hi Hj Hl; destruct i as [|[|[|i]]], j as [|[|[|j]]]; cbn in Hi, Hj; simplify_eq; split; done || lia)) [9]); [set_solver|done].
Defined.
