(* ===== verification/HleStrtoSpec.v ===== *)
(** Integer parsing of hle_stdlib.cpp: strtol and strtoul read back what a number is
    printed as, in every base, and clamp what does not fit. *)

From S2P Require Import Prelude Env HeapAllocator MemoryManager MemorySpec Machine HostAccess HleMonad HleErrno MappedSpec SyscallHandler HlePrintf HleSearch HleSearchHeap HleMultibyte HleMultibyteSpec HleMbsSpec HleStdlib.
#[local] Open Scope Z_scope.

(** * Numerals *)

Definition digit_char (d : Z) : Z := if d <? 10 then d + 48 else d + 87.

(** The digits of [v] in base [b], the most significant one first. *)
Fixpoint numeral_digits (fuel : nat) (b v : Z) : list Z :=
  match fuel with
  | O => []
  | S fuel => if v <? b then [digit_char v] else numeral_digits fuel b (v / b) ++ [digit_char (v mod b)]
  end.
Definition numeral (b v : Z) : list Z := numeral_digits (S (Z.to_nat (Z.log2 v))) b v.
Definition signed_numeral (b v : Z) : list Z := if v <? 0 then 45 :: numeral b (- v) else numeral b v.

(** The number ends here: no further digit, nothing that makes a prefix of a zero. *)
Definition number_ends (b : Z) (rest : list Z) : Prop :=
  match rest with c :: _ => digit_in b c = None /\ c <> 98 /\ c <> 66 /\ c <> 120 /\ c <> 88 | [] => True end.

Lemma digit_char_in b d : 2 <= b <= 36 -> 0 <= d < b -> digit_in b (digit_char d) = Some d.
Proof.
  intros Hb Hd. unfold digit_in, digit_value, digit_char. destruct (Z.ltb_spec d 10).
  - rewrite (proj2 (Z.leb_le 48 _)), (proj2 (Z.leb_le _ 57)) by lia. cbn. rewrite Z.add_simpl_r, (proj2 (Z.ltb_lt d b)) by lia. done.
  - rewrite (proj2 (Z.leb_gt _ 57)), (proj2 (Z.leb_gt _ 90)), (proj2 (Z.leb_le 97 _)), (proj2 (Z.leb_le _ 122)) by lia. rewrite !andb_false_r. cbn.
    replace (d + 87 - 87) with d by lia. rewrite (proj2 (Z.ltb_lt d b)) by lia. done.
Qed.

Lemma digit_char_range d : 0 <= d < 36 -> 48 <= digit_char d <= 57 \/ 97 <= digit_char d <= 122.
Proof. unfold digit_char. destruct (Z.ltb_spec d 10); lia. Qed.

Lemma digits_app b ds : forall acc rest, Forall (fun c => is_Some (digit_in b c)) ds ->
  digits b acc (ds ++ rest) = ((length ds + (digits b (digits b acc ds).2 rest).1)%nat, (digits b (digits b acc ds).2 rest).2).
Proof.
  induction ds as [|c ds IH]; intros acc rest Hds; [cbn; by destruct (digits b acc rest)|]. apply Forall_cons in Hds as [[d Hd] Hds]. cbn [digits app length]. rewrite Hd, (IH _ rest Hds).
  by destruct (digits b (acc * b + d) ds).
Qed.

Lemma digits_end b acc rest : number_ends b rest -> digits b acc rest = (0%nat, acc).
Proof. destruct rest as [|c rest]; [done|]. intros [Hc _]. cbn. by rewrite Hc. Qed.

Lemma numeral_digits_ok fuel : forall b v, 2 <= b <= 36 -> 0 <= v < 2 ^ Z.of_nat fuel ->
  Forall (fun c => is_Some (digit_in b c) /\ (48 <= c <= 57 \/ 97 <= c <= 122)) (numeral_digits fuel b v) /\ (digits b 0 (numeral_digits fuel b v)).2 = v.
Proof.
  induction fuel as [|fuel IH]; intros b v Hb Hv; cbn [numeral_digits]; [cbn in *; split; [done|lia]|].
  assert (Hok : forall d, 0 <= d < b -> is_Some (digit_in b (digit_char d)) /\ (48 <= digit_char d <= 57 \/ 97 <= digit_char d <= 122)).
  { intros d Hd. split; [eexists; by apply digit_char_in|apply digit_char_range; lia]. }
  destruct (Z.ltb_spec v b).
  { split; [apply Forall_singleton, Hok; lia|]. cbn. rewrite digit_char_in by lia. done. }
  destruct (IH b (v / b) Hb) as [Hall Hval].
  { split; [apply Z.div_pos; lia|]. rewrite Nat2Z.inj_succ, Z.pow_succ_r in Hv by lia. apply Z.div_lt_upper_bound; nia. }
  pose proof (Z.mod_pos_bound v b). split; [apply Forall_app; split; [done|]; apply Forall_singleton, Hok; lia|].
  rewrite digits_app by (eapply Forall_impl; [exact Hall|]; by intros ? []). rewrite Hval. cbn. rewrite digit_char_in by lia. cbn. pose proof (Z.div_mod v b). lia.
Qed.

Lemma numeral_ok b v : 2 <= b <= 36 -> 0 <= v ->
  Forall (fun c => is_Some (digit_in b c) /\ (48 <= c <= 57 \/ 97 <= c <= 122)) (numeral b v) /\ (digits b 0 (numeral b v)).2 = v.
Proof.
  intros Hb Hv. apply numeral_digits_ok; [done|]. split; [done|]. destruct (decide (v = 0)) as [->|]; [done|].
  rewrite Nat2Z.inj_succ, Z2Nat.id by apply Z.log2_nonneg. apply Z.log2_spec. lia.
Qed.

Lemma numeral_nonempty b v : numeral b v <> [].
Proof. unfold numeral. cbn [numeral_digits]. destruct (v <? b); [done|]. by intros [_ ?]%app_nil. Qed.

(** Only zero begins with a zero. *)
Lemma numeral_digits_zero fuel : forall b v t, 2 <= b <= 36 -> 0 <= v < 2 ^ Z.of_nat fuel -> numeral_digits fuel b v = 48 :: t -> t = [].
Proof.
  assert (Hd0 : forall d, 0 <= d < 36 -> digit_char d = 48 -> d = 0) by (unfold digit_char; intros d ?; case_match; lia).
  induction fuel as [|fuel IH]; intros b v t Hb Hv; cbn [numeral_digits]; [done|]. destruct (Z.ltb_spec v b) as [|Hge]; [by intros [= _ <-]|].
  rewrite Nat2Z.inj_succ, Z.pow_succ_r in Hv by lia. assert (Hq : 0 < v / b < 2 ^ Z.of_nat fuel) by (split; [apply Z.div_str_pos; lia|apply Z.div_lt_upper_bound; nia]).
  destruct (numeral_digits fuel b (v / b)) as [|c ds] eqn:E.
  - destruct fuel; [cbn in Hq; lia|]. cbn [numeral_digits] in E. destruct (_ <? _); [done|]. by apply app_nil in E as [_ ?].
  - cbn. intros [= -> <-]. assert (ds = []) as -> by (eapply (IH b (v / b)); [done|lia|done]).
    destruct (numeral_digits_ok fuel b (v / b) Hb) as [_ Hval]; [lia|]. rewrite E in Hval. cbn [digits] in Hval. change 48 with (digit_char 0) in Hval. rewrite (digit_char_in b 0 Hb) in Hval by lia. cbn in Hval. lia.
Qed.

(** * The parsers on numerals *)

Definition spaces_only (sp : list Z) : Prop := Forall (fun c => isspace c = true) sp.

Lemma spaces_app sp c t : spaces_only sp -> isspace c = false -> spaces (sp ++ c :: t) = length sp.
Proof. intros Hsp Hc. induction Hsp as [|x sp Hx _ IH]; cbn; [by rewrite Hc|]. by rewrite Hx, IH. Qed.

(** What follows the sign of a number. *)
Lemma numeral_body b v rest : 2 <= b <= 36 -> 0 <= v -> number_ends b rest ->
  exists c t, numeral b v ++ rest = c :: t /\ (48 <= c <= 57 \/ 97 <= c <= 122) /\ hex_prefix (c :: t) = false /\
    (c = 48 -> match t with x :: _ => x <> 98 /\ x <> 66 | [] => True end) /\ digits b 0 (c :: t) = (length (numeral b v), v).
Proof.
  intros Hb Hv Hr. destruct (numeral_ok b v Hb Hv) as [Hall Hval]. assert (Hd : digits b 0 (numeral b v ++ rest) = (length (numeral b v), v)).
  { rewrite digits_app, digits_end by (done || (eapply Forall_impl; [exact Hall|]; by intros ? [])). by rewrite Nat.add_0_r, Hval. }
  assert (Hz : forall t, numeral b v = 48 :: t -> t = []).
  { intros t. apply numeral_digits_zero; [done|]. split; [done|]. destruct (decide (v = 0)) as [->|]; [done|].
    rewrite Nat2Z.inj_succ, Z2Nat.id by apply Z.log2_nonneg. apply Z.log2_spec. lia. }
  destruct (numeral b v) as [|c ds] eqn:E; [by apply numeral_nonempty in E|]. apply Forall_cons in Hall as [[_ Hc] _]. exists c, (ds ++ rest).
  split_and!; [done|done| | |done].
  - cbn [hex_prefix]. destruct (decide (c = 48)) as [->|Hne]; [|repeat case_match; try done; by rewrite (proj2 (Z.eqb_neq c 48))].
    rewrite (Hz ds eq_refl). destruct rest as [|x [|y r]]; [done..|]. cbn [app]. destruct Hr as (_ & _ & _ & H1 & H2). by rewrite (proj2 (Z.eqb_neq x 120)), (proj2 (Z.eqb_neq x 88)), andb_false_r.
  - intros ->. rewrite (Hz ds eq_refl). destruct rest as [|x r]; [done|]. by destruct Hr as (_ & ? & ? & _).
Qed.

Lemma no_binary_prefix c t : (48 <= c <= 57 \/ 97 <= c <= 122) -> (c = 48 -> match t with x :: _ => x <> 98 /\ x <> 66 | [] => True end) ->
  match (c :: t) !! 0%nat, (c :: t) !! 1%nat, (c :: t) !! 2%nat with
  | Some a, Some b, Some _ => (a =? 48) && ((b =? 98) || (b =? 66)) = false
  | _, _, _ => True
  end.
Proof.
  intros Hc H. destruct t as [|x [|y t]]; [done..|]. cbn. destruct (Z.eqb_spec c 48) as [->|]; [|done]. destruct H as [? ?]; [done|]. cbn.
  by rewrite (proj2 (Z.eqb_neq x 98)), (proj2 (Z.eqb_neq x 66)).
Qed.

Lemma lookup_past (l t : list Z) k : (l ++ t) !! (length l + k)%nat = t !! k.
Proof. rewrite lookup_app_r by lia. f_equal. lia. Qed.

(** [sg] is a minus sign or nothing. *)
Lemma strto_body b sp neg c t n v : 2 <= b <= 36 -> spaces_only sp -> (48 <= c <= 57 \/ 97 <= c <= 122) -> hex_prefix (c :: t) = false ->
  digits b 0 (c :: t) = (S n, v) -> (c = 48 -> match t with x :: _ => x <> 98 /\ x <> 66 | [] => True end) ->
  let sg := if neg : bool then [45] else [] in
  strto (sp ++ sg ++ c :: t) b = Some (neg, v, Z.of_nat (length sp + length sg + S n)) /\ has_bionic_binary_prefix (sp ++ sg ++ c :: t) b = None.
Proof.
  intros Hb Hsp Hc Hhex Hd Hbin sg. assert (Hb0 : (b =? 0) = false) by lia. assert (Hhd : spaces (sp ++ sg ++ c :: t) = length sp).
  { unfold sg. destruct neg; cbn [app]; apply spaces_app; try done. unfold isspace. lia. }
  assert (Hsg : sign (sg ++ c :: t) = (neg, length sg)) by (unfold sg, sign; destruct neg; cbn; [done|]; rewrite (proj2 (Z.eqb_neq c 45)), (proj2 (Z.eqb_neq c 43)) by lia; done).
  split.
  - unfold strto. rewrite Hhd, drop_app_length, Hsg, drop_app_add, drop_app_length, Hb0, Hhex, andb_false_r, Hd. do 2 f_equal. lia.
  - unfold has_bionic_binary_prefix. destruct (negb ((b =? 0) || (b =? 2))); [done|]. rewrite Hhd.
    assert (Hi : (match (sp ++ sg ++ c :: t) !! length sp with Some x => if (x =? 43) || (x =? 45) then S (length sp) else length sp | None => length sp end) = (length (sp ++ sg) + 0)%nat).
    { rewrite length_app. pose proof (lookup_past sp (sg ++ c :: t) 0) as Hl. rewrite Nat.add_0_r in Hl. rewrite Hl. unfold sg. destruct neg; cbn; [lia|].
      rewrite (proj2 (Z.eqb_neq c 43)), (proj2 (Z.eqb_neq c 45)) by lia. cbn. lia. }
    rewrite Hi. rewrite <- !Nat.add_assoc, app_assoc, !lookup_past. pose proof (no_binary_prefix c t Hc Hbin) as Hn. cbn [Nat.add]. repeat case_match; try done.
    all: by rewrite <- negb_andb in *; simplify_eq; rewrite Hn in *.
Qed.

Lemma strto_numeral b v sp rest : 2 <= b <= 36 -> spaces_only sp -> number_ends b rest ->
  strto (sp ++ signed_numeral b v ++ rest) b = Some (v <? 0, Z.abs v, Z.of_nat (length sp + length (signed_numeral b v))) /\
  has_bionic_binary_prefix (sp ++ signed_numeral b v ++ rest) b = None.
Proof.
  intros Hb Hsp Hr. destruct (numeral_body b (Z.abs v) rest Hb ltac:(lia) Hr) as (c & t & E & Hc & Hhex & Hbin & Hd).
  destruct (length (numeral b (Z.abs v))) as [|n] eqn:El; [apply length_zero_iff_nil in El; by apply numeral_nonempty in El|].
  destruct (strto_body b sp (v <? 0) c t n (Z.abs v) Hb Hsp Hc Hhex Hd Hbin) as [H1 H2]. rewrite <- E in H1, H2. unfold signed_numeral.
  destruct (Z.ltb_spec v 0); [rewrite (Z.abs_neq v) in * by lia|rewrite (Z.abs_eq v) in * by lia]; cbn [app length] in *; rewrite El.
  - split; [rewrite H1; do 2 f_equal; lia|exact H2].
  - split; [rewrite H1; do 2 f_equal; lia|exact H2].
Qed.

(** The results of the library functions. *)
Definition clamp_signed (v : Z) : Z := Z.max LLONG_MIN (Z.min LLONG_MAX v).
Definition clamp_unsigned (v : Z) : Z := if Z.abs v <? two64 then u64 v else ULLONG_MAX.

Section Strto.
Context {S : Type} `{M : !Machine S, L : !MemLaws S, R : !RegFileLaws S, V : !HostView S, HL : !HostLaws S}.
Implicit Types s : S.

(** A C string as [mem_read] sees it, byte by byte. *)
Record chars_at (a : Z) (bs : list Z) s : Prop := {
  ca_mapped : mapped a (Z.of_nat (length bs) + 1) s;
  ca_bytes : Forall (fun b => 0 < b < 256) bs;
  ca_holds : holds_at (byte_at s) a (bs ++ [0]);
}.

Lemma read_chars_at bs : forall a n s, sane s -> chars_at a bs s -> (length bs < n)%nat -> read_chars n a s = bs.
Proof.
  induction bs as [|b bs IH]; intros a n s Hs [Hm Hb Hh] Hn; (destruct n as [|n]; [cbn in Hn; lia|]); cbn [read_chars].
  - change 1 with (Z.of_nat (length [0])). rewrite (gread_holds a [0] s (sane_mem _ Hs) Hm); done.
  - cbn [length] in *. apply Forall_cons in Hb as [Hb0 Hb]. apply (holds_at_app _ _ [b]) in Hh as [Hh0 Hh]. pose proof (mapped_range _ _ _ (sane_mem _ Hs) Hm) as Hr.
    change 1 with (Z.of_nat (length [b])) at 1. rewrite (gread_holds a [b] s (sane_mem _ Hs)); [|eapply mapped_sub; [exact Hm|cbn; lia..]|done|exact Hh0].
    assert (le_value [b] = b) as -> by (cbn; lia). rewrite (proj2 (Z.eqb_neq b 0)) by lia. rewrite u64_small by u64_lia. f_equal. apply IH; [done| |lia].
    constructor; [eapply mapped_sub; [exact Hm|lia..]|done|exact Hh].
Qed.

(** errno becomes [ERANGE] if the number does not fit. *)
Definition range_map s (fits : bool) (f : Z -> option Z) : Z -> option Z := if fits then f else stored f (guest_errno_addr s) (le_bytes 4 ERANGE).

Lemma wp_parse {A} (ParseFn : list Z -> Z -> Z * Z * Z) b nptr endptr str result used fits (k : Z -> hle S A) Q s : sane s -> 2 <= b <= 36 -> chars_at nptr str s -> (length str < 4096)%nat ->
  has_bionic_binary_prefix str b = None -> ParseFn str b = (result, used, if fits : bool then 0 else ERANGE) -> 0 <= used <= Z.of_nat (length str) ->
  out_mapped endptr 8 s -> errno_mapped s ->
  (forall s', became s (range_map s fits (out_map endptr (le_bytes 8 (nptr + used)) (byte_at s))) s' -> wp (k result) Q s') ->
  wp (parse_guest_integer ParseFn nptr endptr b ≫= k) Q s.
Proof.
  intros Hs Hb Hstr Hlen Hbin Hp Hu Hend Herr Hk. pose proof (mapped_range _ _ _ (sane_mem _ Hs) (ca_mapped _ _ _ Hstr)) as Hr.
  apply wp_bind. unfold parse_guest_integer. apply wp_bind. unfold wp at 1, read_string4096. rewrite (read_chars_at str) by (done || lia).
  assert (is_valid_strto_base b = true) as -> by (unfold is_valid_strto_base; lia). cbn [negb]. rewrite Hbin, Hp, u64_small by u64_lia.
  eapply (wp_out endptr); [by apply became_refl|by rewrite length_le_bytes|done|]. intros s1 H1. destruct fits; cbn [negb Z.eqb].
  - apply wp_bind, wp_ret, wp_ret. by apply Hk.
  - eapply (wp_errno ERANGE); [exact H1|done|]. intros s2 H2. apply wp_ret. by apply Hk.
Qed.

(** The smallest and greatest results. *)
Lemma strtoll_numeral b v sp rest : 2 <= b <= 36 -> spaces_only sp -> number_ends b rest ->
  strtoll_ (sp ++ signed_numeral b v ++ rest) b = (clamp_signed v, Z.of_nat (length sp + length (signed_numeral b v)), if bool_decide (clamp_signed v = v) then 0 else ERANGE).
Proof.
  intros Hb Hsp Hr. unfold strtoll_. rewrite (proj1 (strto_numeral b v sp rest Hb Hsp Hr)). assert ((if v <? 0 then - Z.abs v else Z.abs v) = v) as -> by (destruct (Z.ltb_spec v 0); lia).
  unfold clamp_signed, LLONG_MIN, LLONG_MAX. destruct (Z.ltb_spec v (- 2 ^ 63)); [rewrite bool_decide_false by lia; do 2 f_equal; lia|].
  destruct (Z.ltb_spec (2 ^ 63 - 1) v); [rewrite bool_decide_false by lia; do 2 f_equal; lia|]. rewrite bool_decide_true by lia. do 2 f_equal. lia.
Qed.

Lemma strtoull_numeral b v sp rest : 2 <= b <= 36 -> spaces_only sp -> number_ends b rest ->
  strtoull_ (sp ++ signed_numeral b v ++ rest) b = (clamp_unsigned v, Z.of_nat (length sp + length (signed_numeral b v)), if Z.abs v <? two64 then 0 else ERANGE).
Proof.
  intros Hb Hsp Hr. unfold strtoull_. rewrite (proj1 (strto_numeral b v sp rest Hb Hsp Hr)). assert ((if v <? 0 then - Z.abs v else Z.abs v) = v) as -> by (destruct (Z.ltb_spec v 0); lia).
  unfold clamp_unsigned. change ULLONG_MAX with (two64 - 1). destruct (Z.ltb_spec (Z.abs v) two64); destruct (Z.ltb_spec (two64 - 1) (Z.abs v)); done || lia.
Qed.

(** C37: strtol and strtoul (and the functions with the same bodies) read back any
    number, of any size, from its digits in any base from 2 to 36, after white space
    and a minus sign and up to the first character that is no digit.  What does not fit
    becomes the nearest value that does (strtoul: the greatest one) and errno becomes
    ERANGE; a negative number is wrapped by strtoul.  The end pointer, if there is one,
    is stored; no other byte changes. *)
Theorem strtol_parses b v sp rest nptr endptr s : sane s -> 2 <= b <= 36 -> spaces_only sp -> number_ends b rest ->
  chars_at nptr (sp ++ signed_numeral b v ++ rest) s -> (length (sp ++ signed_numeral b v ++ rest) < 4096)%nat ->
  getr X0 s = nptr -> getr X1 s = endptr -> getr X2 s = b -> out_mapped endptr 8 s -> errno_mapped s ->
  let f := out_map endptr (le_bytes 8 (nptr + Z.of_nat (length sp + length (signed_numeral b v)))) (byte_at s) in
  wp hle_strtol (fun _ s' => returned s (range_map s (bool_decide (clamp_signed v = v)) f) (u64 (clamp_signed v)) s') s /\
  wp hle_strtoul (fun _ s' => returned s (range_map s (Z.abs v <? two64) f) (clamp_unsigned v) s') s.
Proof.
  intros Hs Hb Hsp Hr Hstr Hlen E0 E1 E2 Hend Herr f. assert (Hb32 : s32 b = b) by (unfold s32, u32; rewrite Z.mod_small, (proj2 (Z.ltb_lt _ _)) by (unfold two32; lia); done). pose proof (strto_numeral b v sp rest Hb Hsp Hr) as [_ Hbin].
  assert (Hu : 0 <= Z.of_nat (length sp + length (signed_numeral b v)) <= Z.of_nat (length (sp ++ signed_numeral b v ++ rest))) by (rewrite !length_app; lia).
  split; unfold hle_strtol, hle_strtoul, strto_handler; do 3 apply wp_reg; rewrite E0, E1, E2, Hb32.
  - eapply wp_parse; [done|done|exact Hstr|done|done|by apply strtoll_numeral|done|done|done|]. intros s1 H1. unfold wp, set_x. replace (putr X0 (u64 (clamp_signed v)) s1) with (putr X0 (u64 (u64 (clamp_signed v))) s1) by (unfold u64; by rewrite Z.mod_mod). eapply became_set; [exact H1|apply u64_range].
  - eapply wp_parse; [done|done|exact Hstr|done|done|by apply strtoull_numeral|done|done|done|]. intros s1 H1. eapply wp_set; [exact H1| |done].
    unfold clamp_unsigned. case_match; [apply u64_range|done].
Qed.

End Strto.

(** * A number with a sign *)

(** The string is " -2a;", the base 16. *)
Definition number_mem : mstate (E := RefEnv) := mb_mem [32; 45; 50; 97; 59; 0] HEAP_BASE (HEAP_BASE + 0x100) 16 0.

Lemma strtol_parses_witness : wp hle_strtol (fun _ s' => getr X0 s' = two64 - 42 /\ byte_at s' (HEAP_BASE + 0x100) = Some 4) number_mem.
Proof.
  destruct (strtol_parses 16 (-42) [32] [59] HEAP_BASE (HEAP_BASE + 0x100) number_mem) as [H _];
    [apply mb_mem_sane|done|by repeat constructor|by split_and!| |vm_compute; lia|reflexivity|reflexivity|reflexivity| | |].
  - constructor; [apply mb_mem_mapped; unfold HEAP_SIZE; vm_compute; congruence|by repeat constructor|apply holds_check_ok; vm_compute; reflexivity].
  - intros _. apply mb_mem_mapped; unfold HEAP_SIZE; lia.
  - unfold errno_mapped, number_mem. rewrite mb_mem_errno. apply mb_mem_mapped; unfold HEAP_SIZE; lia.
  - refine (wp_mono _ _ _ _ H _). intros _ s' HR. split; [exact (rt_value _ _ _ _ HR)|]. rewrite (rt_byte _ _ _ _ HR). reflexivity.
Defined.
