(* ===== verification/HleWchar.v ===== *)
(** Wide strings (src/src/hle/hle_wchar.cpp): memory and string functions on 32-bit
    characters, tokens, integer parsing, and formatted output into a wide buffer.

    [char_at a i] is the read of the [i]-th character into an uninitialised variable,
    whose use after a failed read is undefined and shown as [Segv]; [char0_at] reads
    into a variable that was set to 0.  Loops over strings take [fuel] and answer
    [None] when it runs out.  Streams (getwc, fputwc and their like), floating-point
    parsing and wcsftime are calls of the host and are left out. *)

From S2P Require Import Prelude Env MemoryManager MemorySpec Machine HostAccess HleMonad HleErrno SyscallHandler HlePrintf HleSearch Utf8 HleMultibyte HleStdlib.

Section Wchar.
Context {S : Type} `{M : !Machine S, HV : !HostView S, HO : !HeapOps S}.
Implicit Types s : S.
Notation prog := (hle S).

Definition char_at (a i : Z) : prog Z := rd_new (a ⊕ i * 4) 4.
Definition char0_at (a i : Z) : prog Z := bs ← mem_rd_into (a ⊕ i * 4) 4; mret (le_value bs).
Definition put_at (a i wc : Z) : prog unit := mem_wr (a ⊕ i * 4) (le_bytes 4 wc).

(** The result of a loop, or [None] when the fuel ran out. *)
Definition finish {A} (r : option A) (k : A -> prog unit) : prog (option unit) :=
  match r with Some a => k a;; mret (Some tt) | None => mret None end.

(** * Memory *)

Fixpoint wmemcmp_loop (n : nat) (s1 s2 i : Z) : prog unit :=
  match n with
  | O => set_x X0 0
  | Datatypes.S n =>
      wc1 ← char0_at s1 i; wc2 ← char0_at s2 i;
      if negb (wc1 =? wc2) then set_x X0 (if wc1 <? wc2 then -1 else 1) else wmemcmp_loop n s1 s2 (i + 1)
  end.
Definition wmemcmp : prog unit := s1 ← get_x X0; s2 ← get_x X1; n ← get_x X2; wmemcmp_loop (Z.to_nat n) s1 s2 0.

Fixpoint wmemchr_loop (n : nat) (a target i : Z) : prog unit :=
  match n with
  | O => set_x X0 0
  | Datatypes.S n => wc ← char0_at a i; if wc =? target then set_x X0 (a ⊕ i * 4) else wmemchr_loop n a target (i + 1)
  end.
Definition wmemchr : prog unit := a ← get_x X0; target ← get_x X1; n ← get_x X2; wmemchr_loop (Z.to_nat n) a (u32 target) 0.

(** The vector has [n] elements of four bytes; the byte count of the copy wraps. *)
Definition wide_copy (dest src n : Z) : prog unit :=
  new_buffer (n * 4);;
  buffer ← mem_rd_into src (u64 (n * 4));
  mem_wr dest buffer.
Definition wmemcpy : prog unit := dest ← get_x X0; src ← get_x X1; n ← get_x X2; wide_copy dest src n;; set_x X0 dest.
Definition wmemmove : prog unit := dest ← get_x X0; src ← get_x X1; n ← get_x X2; wide_copy dest src n;; set_x X0 dest.
Definition wmempcpy : prog unit := dest ← get_x X0; src ← get_x X1; n ← get_x X2; wide_copy dest src n;; set_x X0 (dest ⊕ n * 4).

Fixpoint wmemset_loop (n : nat) (dest value i : Z) : prog unit :=
  match n with O => mret tt | Datatypes.S n => put_at dest i value;; wmemset_loop n dest value (i + 1) end.
Definition wmemset : prog unit :=
  dest ← get_x X0; value ← get_x X1; n ← get_x X2;
  wmemset_loop (Z.to_nat n) dest (u32 value) 0;; set_x X0 dest.

(** * Lengths *)

Fixpoint wcslen_loop (fuel : nat) (a len : Z) : prog (option Z) :=
  match fuel with
  | O => mret None
  | Datatypes.S fuel => wc ← char_at a len; if wc =? 0 then mret (Some len) else wcslen_loop fuel a (len + 1)
  end.

(** In wcslen and wcscpy the variable lives across the rounds: a failed read leaves the
    character of the round before, [prev], if there was one. *)
Definition char_or (prev : option Z) (a i : Z) : prog Z := fun s =>
  match gread (a ⊕ i * 4) 4 s, prev with
  | Some bs, _ => Ret (le_value bs) s
  | None, Some wc => Ret wc s
  | None, None => Segv
  end.
Fixpoint wcslen_kept (fuel : nat) (a len : Z) (prev : option Z) : prog (option Z) :=
  match fuel with
  | O => mret None
  | Datatypes.S fuel => wc ← char_or prev a len; if wc =? 0 then mret (Some len) else wcslen_kept fuel a (len + 1) (Some wc)
  end.
Definition wcslen (fuel : nat) : prog (option unit) :=
  a ← get_x X0; r ← wcslen_kept fuel a 0 None; finish r (set_x X0).

Fixpoint wcsnlen_loop (n : nat) (a len : Z) : prog Z :=
  match n with
  | O => mret len
  | Datatypes.S n => wc ← char_at a len; if wc =? 0 then mret len else wcsnlen_loop n a (len + 1)
  end.
Definition wcsnlen : prog unit :=
  a ← get_x X0; maxlen ← get_x X1; len ← wcsnlen_loop (Z.to_nat maxlen) a 0; set_x X0 len.

(** Where wcscat and wcsncat begin to write. *)
Fixpoint guest_concat_loop (n : nat) (dest i : Z) : prog Z :=
  match n with
  | O => mret 0
  | Datatypes.S n =>
      wc ← char0_at dest i;
      if wc =? 0 then mret i
      else if (i =? 0) && negb (is_valid_unicode_scalar wc) then mret 0
      else guest_concat_loop n dest (i + 1)
  end.
Definition guest_concat_length (dest : Z) : prog Z := guest_concat_loop (Z.to_nat 4096) dest 0.

(** * Copies *)

(** Characters from [src] to number [at_] and following of [dest], the terminator
    included; the number of the terminator. *)
Fixpoint copy_loop (fuel : nat) (dest at_ src i : Z) : prog (option Z) :=
  match fuel with
  | O => mret None
  | Datatypes.S fuel =>
      wc ← char_at src i; put_at dest (at_ + i) wc;;
      if wc =? 0 then mret (Some i) else copy_loop fuel dest at_ src (i + 1)
  end.

Fixpoint copy_kept (fuel : nat) (dest src i : Z) (prev : option Z) : prog (option Z) :=
  match fuel with
  | O => mret None
  | Datatypes.S fuel =>
      wc ← char_or prev src i; put_at dest i wc;;
      if wc =? 0 then mret (Some i) else copy_kept fuel dest src (i + 1) (Some wc)
  end.
Definition wcscpy (fuel : nat) : prog (option unit) :=
  dest ← get_x X0; src ← get_x X1; r ← copy_kept fuel dest src 0 None; finish r (fun _ => set_x X0 dest).
Definition wcpcpy (fuel : nat) : prog (option unit) :=
  dest ← get_x X0; src ← get_x X1; r ← copy_loop fuel dest 0 src 0; finish r (fun i => set_x X0 (dest ⊕ i * 4)).
Definition wcscat (fuel : nat) : prog (option unit) :=
  dest ← get_x X0; src ← get_x X1;
  dest_len ← guest_concat_length dest;
  r ← copy_loop fuel dest dest_len src 0; finish r (fun _ => set_x X0 dest).

Fixpoint wcsncpy_loop (n : nat) (dest src i : Z) (null_found : bool) : prog unit :=
  match n with
  | O => mret tt
  | Datatypes.S n =>
      wc ← (if negb null_found then char_at src i else mret 0);
      put_at dest i wc;; wcsncpy_loop n dest src (i + 1) (null_found || (wc =? 0))
  end.
Definition wcsncpy : prog unit :=
  dest ← get_x X0; src ← get_x X1; n ← get_x X2; wcsncpy_loop (Z.to_nat n) dest src 0 false;; set_x X0 dest.

(** The first loop of wcpncpy copies, the second fills up: the number it returns. *)
Fixpoint fill_loop (n : nat) (dest i : Z) : prog unit :=
  match n with O => mret tt | Datatypes.S n => put_at dest i 0;; fill_loop n dest (i + 1) end.
Fixpoint wcpncpy_loop (n : nat) (dest src i : Z) : prog Z :=
  match n with
  | O => mret i
  | Datatypes.S n =>
      wc ← char0_at src i; put_at dest i wc;;
      if wc =? 0 then fill_loop n dest (i + 1);; mret i else wcpncpy_loop n dest src (i + 1)
  end.
Definition wcpncpy : prog unit :=
  dest ← get_x X0; src ← get_x X1; n ← get_x X2;
  i ← wcpncpy_loop (Z.to_nat n) dest src 0; set_x X0 (dest ⊕ i * 4).

(** The loop of wcsncat says whether it came to the terminator. *)
Fixpoint wcsncat_loop (n : nat) (dest dest_len src i : Z) : prog bool :=
  match n with
  | O => mret false
  | Datatypes.S n =>
      wc ← char_at src i; put_at dest (dest_len + i) wc;;
      if wc =? 0 then mret true else wcsncat_loop n dest dest_len src (i + 1)
  end.
Definition wcsncat : prog unit :=
  dest ← get_x X0; src ← get_x X1; n ← get_x X2;
  dest_len ← guest_concat_length dest;
  ended ← wcsncat_loop (Z.to_nat n) dest dest_len src 0;
  (if negb ended then put_at dest (dest_len + n) 0 else mret tt);;
  set_x X0 dest.

(** [n] characters, then the terminator. *)
Fixpoint copy_n (n : nat) (dest at_ src i : Z) : prog unit :=
  match n with
  | O => put_at dest (at_ + i) 0
  | Datatypes.S n => wc ← char_at src i; put_at dest (at_ + i) wc;; copy_n n dest at_ src (i + 1)
  end.
Definition copy_bounded (dest src src_len size : Z) : prog unit :=
  let copy_len := if src_len <? size then src_len else size - 1 in
  copy_n (Z.to_nat copy_len) dest 0 src 0.

Definition wcslcpy (fuel : nat) : prog (option unit) :=
  dest ← get_x X0; src ← get_x X1; size ← get_x X2;
  r ← wcslen_loop fuel src 0;
  finish r (fun src_len => (if 0 <? size then copy_bounded dest src src_len size else mret tt);; set_x X0 src_len).
Definition wcsxfrm (fuel : nat) : prog (option unit) :=
  dest ← get_x X0; src ← get_x X1; n ← get_x X2;
  r ← wcslen_loop fuel src 0;
  finish r (fun src_len => (if (0 <? n) && negb (dest =? 0) then copy_bounded dest src src_len n else mret tt);; set_x X0 src_len).
Definition wcsxfrm_l (fuel : nat) : prog (option unit) := wcsxfrm fuel.

Definition wcslcat (fuel : nat) : prog (option unit) :=
  dest ← get_x X0; src ← get_x X1; size ← get_x X2;
  dest_len ← wcsnlen_loop (Z.to_nat size) dest 0;
  r ← wcslen_loop fuel src 0;
  finish r (fun src_len =>
    if size <=? dest_len then set_x X0 (size + src_len)
    else
      let copy_len := if src_len <? size - dest_len - 1 then src_len else size - dest_len - 1 in
      copy_n (Z.to_nat copy_len) dest dest_len src 0;; set_x X0 (dest_len + src_len)).

Definition wcsdup (fuel : nat) : prog (option unit) :=
  a ← get_x X0;
  r ← wcslen_loop fuel a 0;
  finish r (fun len =>
    ptr ← allocate (u64 ((len + 1) * 4)) 8;
    (if negb (ptr =? 0) then wide_copy ptr a (len + 1) else mret tt);;
    set_x X0 ptr).

(** * Comparisons *)

Definition compare_chars (wc1 wc2 : Z) : Z := if wc1 <? wc2 then -1 else if wc2 <? wc1 then 1 else 0.
Definition ascii_lower (wc : Z) : Z := if (65 <=? wc) && (wc <=? 90) then wc - 65 + 97 else wc.

(** [fold] is the identity or [ascii_lower]. *)
Fixpoint wcscmp_loop (fuel : nat) (fold : Z -> Z) (s1 s2 i : Z) : prog (option Z) :=
  match fuel with
  | O => mret None
  | Datatypes.S fuel =>
      wc1 ← char_at s1 i; wc2 ← char_at s2 i;
      let wc1 := fold wc1 in let wc2 := fold wc2 in
      if negb (wc1 =? wc2) || (wc1 =? 0) then mret (Some (compare_chars wc1 wc2)) else wcscmp_loop fuel fold s1 s2 (i + 1)
  end.
Definition compare_strings (fold : Z -> Z) (fuel : nat) : prog (option unit) :=
  s1 ← get_x X0; s2 ← get_x X1; r ← wcscmp_loop fuel fold s1 s2 0; finish r (set_x X0).
Definition wcscmp : nat -> prog (option unit) := compare_strings (fun wc => wc).
Definition wcscoll : nat -> prog (option unit) := compare_strings (fun wc => wc).
Definition wcscoll_l : nat -> prog (option unit) := compare_strings (fun wc => wc).
Definition wcscasecmp : nat -> prog (option unit) := compare_strings ascii_lower.

(** At most [n] characters are compared. *)
Definition compare_prefixes (fold : Z -> Z) : prog unit :=
  s1 ← get_x X0; s2 ← get_x X1; n ← get_x X2;
  r ← wcscmp_loop (Z.to_nat n) fold s1 s2 0;
  set_x X0 (default 0 r).
Definition wcsncmp : prog unit := compare_prefixes (fun wc => wc).
Definition wcsncasecmp : prog unit := compare_prefixes ascii_lower.

(** * Searches *)

Fixpoint wcschr_loop (fuel : nat) (ws wc i : Z) : prog (option Z) :=
  match fuel with
  | O => mret None
  | Datatypes.S fuel =>
      c ← char_at ws i;
      if c =? wc then mret (Some (ws ⊕ i * 4)) else if c =? 0 then mret (Some 0) else wcschr_loop fuel ws wc (i + 1)
  end.
Definition wcschr (fuel : nat) : prog (option unit) :=
  ws ← get_x X0; wc ← get_x X1; r ← wcschr_loop fuel ws (u32 wc) 0; finish r (set_x X0).

Fixpoint wcsrchr_loop (fuel : nat) (ws wc last i : Z) : prog (option Z) :=
  match fuel with
  | O => mret None
  | Datatypes.S fuel =>
      c ← char_at ws i;
      let last := if c =? wc then ws ⊕ i * 4 else last in
      if c =? 0 then mret (Some last) else wcsrchr_loop fuel ws wc last (i + 1)
  end.
Definition wcsrchr (fuel : nat) : prog (option unit) :=
  ws ← get_x X0; wc ← get_x X1; r ← wcsrchr_loop fuel ws (u32 wc) 0 0; finish r (set_x X0).

(** The characters of a string, in a vector. *)
Fixpoint collect (fuel : nat) (a i : Z) (set : list Z) : prog (option (list Z)) :=
  match fuel with
  | O => mret None
  | Datatypes.S fuel => wc ← char_at a i; if wc =? 0 then mret (Some set) else collect fuel a (i + 1) (set ++ [wc])
  end.
Definition found (set : list Z) (wc : Z) : bool := bool_decide (wc ∈ set).

(** From number [j] on, to the first character that [stop]s or the terminator: its
    number, and whether it is the terminator. *)
Fixpoint span_loop (fuel : nat) (stop : Z -> bool) (ws j : Z) : prog (option (Z * bool)) :=
  match fuel with
  | O => mret None
  | Datatypes.S fuel =>
      wc ← char_at ws j;
      if wc =? 0 then mret (Some (j, true)) else if stop wc then mret (Some (j, false)) else span_loop fuel stop ws (j + 1)
  end.

Definition span_with (fuel : nat) (stop : list Z -> Z -> bool) (k : Z -> Z * bool -> prog unit) : prog (option unit) :=
  ws ← get_x X0; a ← get_x X1;
  set ← collect fuel a 0 [];
  match set with
  | None => mret None
  | Some set => r ← span_loop fuel (stop set) ws 0; finish r (k ws)
  end.
Definition wcscspn (fuel : nat) : prog (option unit) := span_with fuel found (fun _ r => set_x X0 r.1).
Definition wcsspn (fuel : nat) : prog (option unit) := span_with fuel (fun set wc => negb (found set wc)) (fun _ r => set_x X0 r.1).
Definition wcspbrk (fuel : nat) : prog (option unit) :=
  span_with fuel found (fun ws r => set_x X0 (if r.2 then 0 else ws ⊕ r.1 * 4)).

(** The comparison with the needle at number [i]. *)
Fixpoint wcsstr_match (needle_buf : list Z) (haystack i : Z) : prog bool :=
  match needle_buf with
  | [] => mret true
  | c :: rest => hc ← char_at haystack i; if negb (hc =? c) then mret false else wcsstr_match rest haystack (i + 1)
  end.
Fixpoint wcsstr_loop (fuel : nat) (needle_buf : list Z) (haystack i : Z) : prog (option Z) :=
  match fuel with
  | O => mret None
  | Datatypes.S fuel =>
      wc ← char_at haystack i;
      if wc =? 0 then mret (Some 0)
      else
        is_match ← wcsstr_match needle_buf haystack i;
        if is_match : bool then mret (Some (haystack ⊕ i * 4)) else wcsstr_loop fuel needle_buf haystack (i + 1)
  end.
(** The words of a buffer. *)
Fixpoint words32 (n : nat) (bs : list Z) : list Z :=
  match n with O => [] | Datatypes.S n => le_value (take 4 bs) :: words32 n (drop 4 bs) end.
Definition wcsstr (fuel : nat) : prog (option unit) :=
  haystack ← get_x X0; needle ← get_x X1;
  r ← wcslen_loop fuel needle 0;
  match r with
  | None => mret None
  | Some needle_len =>
      if needle_len =? 0 then set_x X0 haystack;; mret (Some tt)
      else
        new_buffer (needle_len * 4);;
        needle_buf ← mem_rd_into needle (u64 (needle_len * 4));
        r ← wcsstr_loop fuel (words32 (Z.to_nat needle_len) needle_buf) haystack 0;
        finish r (set_x X0)
  end.

(** * Tokens *)

Definition wcstok (fuel : nat) : prog (option unit) :=
  ws ← get_x X0; delim ← get_x X1; ptr ← get_x X2;
  a ← (if ws =? 0 then rd_new ptr 8 else mret ws);
  if a =? 0 then set_x X0 0;; mret (Some tt)
  else
    delims ← collect fuel delim 0 [];
    match delims with
    | None => mret None
    | Some delims =>
        r ← span_loop fuel (fun wc => negb (found delims wc)) a 0;
        match r with
        | None => mret None
        | Some (_, true) => mem_wr ptr (le_bytes 8 0);; set_x X0 0;; mret (Some tt)
        | Some (j, false) =>
            let token := a ⊕ j * 4 in
            r ← span_loop fuel (found delims) a j;
            finish r (fun '(j, ended) =>
              (if ended : bool then mem_wr ptr (le_bytes 8 0)
               else put_at a j 0;; mem_wr ptr (le_bytes 8 (a ⊕ (j + 1) * 4)));;
              set_x X0 token)
        end
    end.

(** * Integers *)

(** The ASCII characters up to the first other one. *)
Fixpoint read_ascii_loop (n : nat) (addr i : Z) : prog (list Z) :=
  match n with
  | O => mret []
  | Datatypes.S n => fun s =>
      match gread (addr ⊕ i * 4) 4 s with
      | None => Ret [] s
      | Some bs =>
          let wc := le_value bs in
          if (wc =? 0) || (0x7f <? wc) then Ret [] s else (rest ← read_ascii_loop n addr (i + 1); mret (wc :: rest)) s
      end
  end.
Definition read_ascii_guest_wide_string (addr : Z) : prog (list Z) := read_ascii_loop (Z.to_nat 4096) addr 0.

Definition write_guest_wide_endptr (nptr endptr offset : Z) : prog unit :=
  if endptr =? 0 then mret tt else mem_wr endptr (le_bytes 8 (nptr ⊕ offset * 4)).

(** The result and the error number. *)
Definition parse_guest_wide_integer (parse_fn : list Z -> Z -> Z * Z * Z) (nptr endptr base : Z) : prog (Z * Z) :=
  if negb (is_valid_strto_base base) then
    (if negb (endptr =? 0) then mem_wr endptr (le_bytes 8 nptr) else mret tt);; mret (0, EINVAL)
  else
    narrow ← read_ascii_guest_wide_string nptr;
    let '(result, offset, errno) := parse_fn narrow base in
    write_guest_wide_endptr nptr endptr offset;;
    mret (result, errno).

Definition wide_strto (parse_fn : list Z -> Z -> Z * Z * Z) : prog unit :=
  nptr ← get_x X0; endptr ← get_x X1; base ← get_x X2;
  r ← parse_guest_wide_integer parse_fn nptr endptr (s32 base);
  (if negb (r.2 =? 0) then hle_set_errno r.2 else mret tt);;
  set_x X0 r.1.
Definition wcstol : prog unit := wide_strto strtoll_.
Definition wcstoul : prog unit := wide_strto strtoull_.
Definition wcstoll : prog unit := wide_strto strtoll_.
Definition wcstoull : prog unit := wide_strto strtoull_.
Definition wcstoll_l : prog unit := wide_strto strtoll_.
Definition wcstoull_l : prog unit := wide_strto strtoull_.

(** wcstoimax and wcstoumax read for themselves and leave the base to the host, which
    refuses a wrong one and then stores no end. *)
Fixpoint narrow_loop (fuel : nat) (nptr i : Z) (narrow : list Z) : prog (option (list Z)) :=
  match fuel with
  | O => mret None
  | Datatypes.S fuel =>
      wc ← char_at nptr i;
      if (wc =? 0) || (127 <? wc) then mret (Some narrow) else narrow_loop fuel nptr (i + 1) (narrow ++ [wc])
  end.
Definition wide_strtomax (parse_fn : list Z -> Z -> Z * Z * Z) (fuel : nat) : prog (option unit) :=
  nptr ← get_x X0; endptr ← get_x X1; base ← get_x X2;
  let base := s32 base in
  r ← narrow_loop fuel nptr 0 [];
  finish r (fun narrow =>
    if negb (is_valid_strto_base base) then
      hle_set_errno EINVAL;; (if negb (endptr =? 0) then overrun else mret tt);; set_x X0 0
    else
      let '(result, offset, errno) := parse_fn narrow base in
      (if negb (errno =? 0) then hle_set_errno errno else mret tt);;
      write_guest_wide_endptr nptr endptr offset;;
      set_x X0 result).
Definition wcstoimax : nat -> prog (option unit) := wide_strtomax strtoll_.
Definition wcstoumax : nat -> prog (option unit) := wide_strtomax strtoull_.

(** * Formatted output *)

Fixpoint put_all (ws : Z) (i : Z) (codepoints : list Z) : prog unit :=
  match codepoints with [] => mret tt | wc :: rest => put_at ws i wc;; put_all ws (i + 1) rest end.

(** The result and the error number. *)
Definition write_guest_wide_output (ws n : Z) (utf8 : list Z) : prog (Z * Z) :=
  match decode_utf8_string utf8 with
  | None => mret (-1, EILSEQ_VALUE)
  | Some codepoints =>
      if n =? 0 then mret (-1, 0)
      else
        let size := Z.of_nat (length codepoints) in
        let copy_count := if n <=? size then n - 1 else size in
        put_all ws 0 (take (Z.to_nat copy_count) codepoints);;
        put_at ws copy_count 0;;
        mret (if n <=? size then -1 else s32 size, 0)
  end.

Definition wide_format (ws n : Z) (outcome : S -> format_outcome) : prog unit :=
  if n =? 0 then set_x X0 (-1)
  else fun s =>
    match outcome s with
    | FormatThrows => Thrown s
    | FormatUndefined => Segv
    | Formatted r =>
        (if negb (fr_ok r) then
           hle_set_errno (fr_error r);;
           (if negb (ws =? 0) then mem_wr ws (le_bytes 4 0) else mret tt);;
           set_x X0 (-1)
         else
           w ← write_guest_wide_output ws n (fr_output r);
           (if (w.1 <? 0) && negb (w.2 =? 0) then hle_set_errno w.2 else mret tt);;
           set_x X0 w.1) s
    end.

Definition swprintf `{!FpRegs S, !HostPrintf} : prog unit :=
  ws ← get_x X0; n ← get_x X1; format_addr ← get_x X2;
  wide_format ws n (fun s => hle_format_from_regs s format_addr 3 true).
Definition vswprintf `{!FpRegs S, !HostPrintf} : prog unit :=
  ws ← get_x X0; n ← get_x X1; format_addr ← get_x X2; va_list_addr ← get_x X3;
  wide_format ws n (fun s => hle_format_from_va_list s format_addr va_list_addr true).

End Wchar.
