(* ===== verification/HleWcharSpec.v ===== *)
(** Queries on wide strings (hle_wchar.cpp): lengths, comparisons and searches agree
    with functions on lists of characters. *)

From S2P Require Import Prelude Env HeapAllocator MemoryManager MemorySpec Machine HostAccess HleMonad HleErrno MappedSpec SyscallHandler HlePrintf HleSearch HleSearchHeap Utf8 Utf8Spec HleMultibyte HleMultibyteSpec HleMbsSpec HleStdlib HleWchar.
#[local] Open Scope Z_scope.

(** A character of a wide string. *)
Definition wchar (wc : Z) : Prop := 0 < wc < 2 ^ 32.

(** * The functions on lists *)

(** Lexicographic order. *)
Fixpoint lex (xs ys : list Z) : Z :=
  match xs, ys with
  | [], [] => 0
  | [], _ :: _ => -1
  | _ :: _, [] => 1
  | x :: xs, y :: ys => if x =? y then lex xs ys else if x <? y then -1 else 1
  end.

(** How many characters there are before the first that satisfies [stop]. *)
Fixpoint span (stop : Z -> bool) (wcs : list Z) : nat := match wcs with wc :: t => if stop wc then O else S (span stop t) | [] => O end.

Lemma span_le stop wcs : (span stop wcs <= length wcs)%nat.
Proof. induction wcs as [|wc t IH]; cbn; [lia|]. destruct (stop wc); lia. Qed.
Lemma span_before stop wcs i wc : wcs !! i = Some wc -> (i < span stop wcs)%nat -> stop wc = false.
Proof.
  revert i. induction wcs as [|x t IH]; intros i Hi Hl; [done|]. cbn in Hl. destruct (stop x) eqn:E; [lia|]. destruct i as [|i]; cbn in Hi; [by simplify_eq|]. apply (IH i); [done|lia].
Qed.
Lemma span_at stop wcs wc : wcs !! span stop wcs = Some wc -> stop wc = true.
Proof. induction wcs as [|x t IH]; cbn; [done|]. destruct (stop x) eqn:E; [by intros [= ->]|exact IH]. Qed.

(** [i] is the least number for which [P] holds. *)
Definition least (P : nat -> Prop) (i : nat) : Prop := P i /\ forall j, (j < i)%nat -> ~ P j.

(** A position as a pointer. *)
Definition pointer_to (P : nat -> Prop) (a v : Z) : Prop := (exists i, least P i /\ v = a + 4 * Z.of_nat i) \/ v = 0 /\ forall i, ~ P i.

Section Queries.
Context {S : Type} `{M : !Machine S, L : !MemLaws S, R : !RegFileLaws S, V : !HostView S, HL : !HostLaws S, U : !Uninit S, HO : !HeapOps S}.
Implicit Types s : S.

(** A wide string in memory. *)
Record wstr (a : Z) (wcs : list Z) s : Prop := {
  ws_at : wide_at (byte_at s) a wcs s;
  ws_chars : Forall wchar wcs;
}.

Lemma wide_lookup f a xs i wc : holds_at f a (wide xs) -> xs !! i = Some wc -> holds_at f (a + 4 * Z.of_nat i) (le_bytes 4 wc).
Proof.
  intros Hh Hi. pose proof (lookup_lt_Some xs i wc Hi). rewrite <- (take_drop_middle xs i wc Hi), wide_app, wide_cons in Hh.
  apply holds_at_app in Hh as [_ Hh]. apply holds_at_app in Hh as [Hh _]. rewrite length_wide, length_take_le in Hh by lia. by rewrite Nat2Z.inj_mul in Hh.
Qed.

(** Reading one character changes nothing. *)
Lemma char_at_ok a wcs i wc s : sane s -> wstr a wcs s -> (wcs ++ [0]) !! i = Some wc -> char_at a (Z.of_nat i) s = Ret wc s.
Proof.
  intros Hs [[Hb Hm] Hc] Hi. pose proof (lookup_lt_Some _ _ _ Hi) as Hl. rewrite length_app in Hl. cbn in Hl. pose proof (mapped_range _ _ _ (sane_mem _ Hs) Hm) as Hr.
  unfold char_at, rd_new. rewrite u64_small by u64_lia. change 4 with (Z.of_nat (length (le_bytes 4 wc))) at 2. replace (Z.of_nat i * 4) with (4 * Z.of_nat i) by lia.
  rewrite (gread_holds (a + 4 * Z.of_nat i) (le_bytes 4 wc) s (sane_mem _ Hs)); [|eapply mapped_sub; [exact Hm|rewrite ?length_le_bytes; lia..]|done|by eapply wide_lookup].
  rewrite le_value_bytes, Z.mod_small; [done|]. apply list_elem_of_lookup_2 in Hi. apply elem_of_app in Hi as [Hi| ->%list_elem_of_singleton]; [|lia].
  pose proof (proj1 (Forall_forall _ _) Hc _ Hi). unfold wchar in *. lia.
Qed.

(** The characters of a string one by one: the first of what is left, or the
    terminator. *)
Lemma next_char a pre wc suf s : sane s -> wstr a (pre ++ wc :: suf) s -> char_at a (Z.of_nat (length pre)) s = Ret wc s /\ (wc =? 0) = false.
Proof.
  intros Hs Hw. split.
  - apply (char_at_ok a _ _ _ s Hs Hw). rewrite <- app_assoc. by apply list_lookup_middle.
  - destruct Hw as [_ Hc]. apply Forall_app in Hc as [_ [Hc _]%Forall_cons]. unfold wchar in *. lia.
Qed.
Lemma last_char a pre s : sane s -> wstr a pre s -> char_at a (Z.of_nat (length pre)) s = Ret 0 s.
Proof. intros Hs Hw. apply (char_at_ok a _ _ _ s Hs Hw). by apply list_lookup_middle. Qed.

Lemma next_index (pre : list Z) wc : Z.of_nat (length pre) + 1 = Z.of_nat (length (pre ++ [wc])).
Proof. rewrite length_app. cbn. lia. Qed.
Lemma shift (pre : list Z) wc suf : pre ++ wc :: suf = (pre ++ [wc]) ++ suf.
Proof. by rewrite <- app_assoc. Qed.

Lemma span_loop_spec stop a suf : forall pre fuel s, sane s -> wstr a (pre ++ suf) s -> (length suf < fuel)%nat ->
  span_loop fuel stop a (Z.of_nat (length pre)) s = Ret (Some (Z.of_nat (length pre + span stop suf), bool_decide (span stop suf = length suf))) s.
Proof.
  induction suf as [|wc suf IH]; intros pre fuel s Hs Hw Hf; (destruct fuel as [|fuel]; [lia|]); cbn [span_loop span]; unfold mbind, hle_bind.
  - rewrite app_nil_r in Hw. rewrite last_char by done. cbn. by rewrite Nat.add_0_r.
  - destruct (next_char a pre wc suf s Hs Hw) as [-> ->]. destruct (stop wc); [by rewrite Nat.add_0_r, bool_decide_false by (cbn; lia)|].
    rewrite (next_index pre wc), (IH (pre ++ [wc])) by (first [done | by rewrite <- shift | cbn in Hf; lia]). rewrite length_app. cbn [length]. do 3 f_equal; [lia|]. apply bool_decide_ext. lia.
Qed.

Lemma wcslen_loop_spec a suf : forall pre fuel s, sane s -> wstr a (pre ++ suf) s -> (length suf < fuel)%nat ->
  wcslen_loop fuel a (Z.of_nat (length pre)) s = Ret (Some (Z.of_nat (length (pre ++ suf)))) s.
Proof.
  induction suf as [|wc suf IH]; intros pre fuel s Hs Hw Hf; (destruct fuel as [|fuel]; [lia|]); cbn [wcslen_loop]; unfold mbind, hle_bind.
  - rewrite app_nil_r in *. by rewrite last_char.
  - destruct (next_char a pre wc suf s Hs Hw) as [-> ->]. rewrite (next_index pre wc), (IH (pre ++ [wc])), <- shift by (first [done | by rewrite <- shift | cbn in Hf; lia]). done.
Qed.

(** A run of the loop whose reads succeed does not depend on the variable's past. *)
Lemma char_or_ok prev a i wc s : char_at a i s = Ret wc s -> char_or prev a i s = Ret wc s.
Proof. unfold char_at, rd_new, char_or. by destruct (gread _ 4 s). Qed.

Lemma char_at_pure a i s : (exists wc, char_at a i s = Ret wc s) \/ char_at a i s = Segv.
Proof. unfold char_at, rd_new. destruct (gread _ 4 s); [left; by eexists|by right]. Qed.

Lemma wcslen_kept_ok fuel : forall a len prev r s s', wcslen_loop fuel a len s = Ret r s' -> wcslen_kept fuel a len prev s = Ret r s'.
Proof.
  induction fuel as [|fuel IH]; intros a len prev r s s'; [done|]. cbn [wcslen_loop wcslen_kept]. unfold mbind, hle_bind. destruct (char_at_pure a len s) as [[wc E]|E]; rewrite E; [|done].
  rewrite (char_or_ok _ _ _ _ _ E). destruct (wc =? 0); [done|]. apply IH.
Qed.

Lemma wcsnlen_loop_spec a suf : forall pre n s, sane s -> wstr a (pre ++ suf) s ->
  wcsnlen_loop n a (Z.of_nat (length pre)) s = Ret (Z.of_nat (length pre + Nat.min n (length suf))) s.
Proof.
  induction suf as [|wc suf IH]; intros pre n s Hs Hw; (destruct n as [|n]; [by rewrite Nat.add_0_r|]); cbn [wcsnlen_loop]; unfold mbind, hle_bind.
  - rewrite app_nil_r in *. rewrite last_char by done. cbn. by rewrite Nat.add_0_r.
  - destruct (next_char a pre wc suf s Hs Hw) as [-> ->]. rewrite (next_index pre wc), (IH (pre ++ [wc])) by (first [done | by rewrite <- shift]). rewrite length_app. cbn [length Nat.min]. do 2 f_equal. lia.
Qed.

Lemma collect_spec a suf : forall pre fuel s, sane s -> wstr a (pre ++ suf) s -> (length suf < fuel)%nat ->
  collect fuel a (Z.of_nat (length pre)) pre s = Ret (Some (pre ++ suf)) s.
Proof.
  induction suf as [|wc suf IH]; intros pre fuel s Hs Hw Hf; (destruct fuel as [|fuel]; [lia|]); cbn [collect]; unfold mbind, hle_bind.
  - rewrite app_nil_r in *. by rewrite last_char.
  - destruct (next_char a pre wc suf s Hs Hw) as [-> ->]. rewrite (next_index pre wc), (IH (pre ++ [wc])), <- shift by (first [done | by rewrite <- shift | cbn in Hf; lia]). done.
Qed.

(** Two strings. *)
Definition fold_ok (fold : Z -> Z) : Prop := fold 0 = 0 /\ forall wc, 0 < wc -> 0 < fold wc.

(** The order of at most [n] characters; no result if they agree and there are more. *)
Lemma wcscmp_loop_spec fold a b xs : fold_ok fold -> forall pre pre' ys n s, sane s -> wstr a (pre ++ xs) s -> wstr b (pre' ++ ys) s -> length pre = length pre' ->
  exists r, wcscmp_loop n fold a b (Z.of_nat (length pre)) s = Ret r s /\ default 0 r = lex (take n (map fold xs)) (take n (map fold ys)) /\ ((length xs < n \/ length ys < n)%nat -> is_Some r).
Proof.
  intros [Hf0 Hfp]. assert (Hpos : forall c pre y ys s, wstr c (pre ++ y :: ys) s -> 0 < fold y).
  { intros c pre y ys s [_ Hc]. apply Forall_app in Hc as [_ [[Hy _] _]%Forall_cons]. by apply Hfp. }
  induction xs as [|x xs IH]; intros pre pre' ys n s Hs Ha Hb Hl; (destruct n as [|n]; [exists None; split_and!; [done|done|lia]|]); cbn [wcscmp_loop]; unfold mbind, hle_bind, compare_chars.
  - rewrite app_nil_r in *. rewrite last_char by done. rewrite Hl, Hf0. destruct ys as [|y ys].
    + rewrite app_nil_r in *. rewrite last_char, Hf0 by done. eexists. by split_and!.
    + destruct (next_char b pre' y ys s Hs Hb) as [-> _]. pose proof (Hpos _ _ _ _ _ Hb). rewrite (proj2 (Z.eqb_neq 0 (fold y))), (proj2 (Z.ltb_lt 0 (fold y))) by lia. eexists. by split_and!.
  - destruct (next_char a pre x xs s Hs Ha) as [-> _]. pose proof (Hpos _ _ _ _ _ Ha) as Hx. rewrite Hl. destruct ys as [|y ys].
    + rewrite app_nil_r in *. rewrite last_char, Hf0 by done. rewrite (proj2 (Z.eqb_neq (fold x) 0)), (proj2 (Z.ltb_ge (fold x) 0)), (proj2 (Z.ltb_lt 0 (fold x))) by lia. eexists. by split_and!.
    + destruct (next_char b pre' y ys s Hs Hb) as [-> _]. pose proof (Hpos _ _ _ _ _ Hb). cbn [map take lex]. rewrite (proj2 (Z.eqb_neq (fold x) 0)), orb_false_r by lia.
      destruct (Z.eqb_spec (fold x) (fold y)) as [E|E]; cbn [negb].
      * rewrite <- Hl, (next_index pre x). rewrite shift in Ha, Hb. destruct (IH (pre ++ [x]) (pre' ++ [y]) ys n s Hs Ha Hb) as (r & H1 & H2 & H3); [by rewrite !length_app, Hl|]. exists r. split_and!; [done..|]. intros. apply H3. cbn [length] in *. lia.
      * destruct (Z.ltb_spec (fold x) (fold y)); [|rewrite (proj2 (Z.ltb_lt (fold y) (fold x))) by lia]; eexists; by split_and!.
Qed.

(** ** Searches *)

Lemma char_address a wcs i s : sane s -> wstr a wcs s -> (i <= length wcs)%nat -> a ⊕ Z.of_nat i * 4 = a + 4 * Z.of_nat i.
Proof. intros Hs [[_ Hm] _] Hi. pose proof (mapped_range _ _ _ (sane_mem _ Hs) Hm). rewrite u64_small by u64_lia. lia. Qed.

Lemma wcschr_loop_spec a wc suf : forall pre fuel s, sane s -> wstr a (pre ++ suf) s -> (length suf < fuel)%nat ->
  wcschr_loop fuel a wc (Z.of_nat (length pre)) s =
    Ret (Some (let i := span (fun c => c =? wc) (suf ++ [0]) in if (i <=? length suf)%nat then a + 4 * Z.of_nat (length pre + i) else 0)) s.
Proof.
  induction suf as [|c suf IH]; intros pre fuel s Hs Hw Hf; (destruct fuel as [|fuel]; [lia|]); cbn [wcschr_loop app span]; unfold mbind, hle_bind.
  - rewrite app_nil_r in *. rewrite last_char by done. destruct (0 =? wc); [|done]. cbn. rewrite Nat.add_0_r. by rewrite (char_address a pre _ s) by (done || lia).
  - destruct (next_char a pre c suf s Hs Hw) as [-> ->]. destruct (c =? wc).
    + rewrite (char_address a (pre ++ c :: suf) _ s) by (done || (rewrite length_app; lia)). cbn. by rewrite Nat.add_0_r.
    + rewrite (next_index pre c), (IH (pre ++ [c])) by (first [done | by rewrite <- shift | cbn in Hf; lia]). cbv zeta. rewrite length_app. cbn [length Nat.leb]. repeat case_match; [|done..]. do 2 f_equal. lia.
Qed.

Lemma wcsrchr_loop_spec a wc suf : forall pre last fuel s, sane s -> wstr a (pre ++ suf) s -> (length suf < fuel)%nat ->
  exists v, wcsrchr_loop fuel a wc last (Z.of_nat (length pre)) s = Ret (Some v) s /\
    ((exists i, (suf ++ [0]) !! i = Some wc /\ (forall j, (i < j)%nat -> (suf ++ [0]) !! j <> Some wc) /\ v = a + 4 * Z.of_nat (length pre + i)) \/ v = last /\ forall i, (suf ++ [0]) !! i <> Some wc).
Proof.
  induction suf as [|c suf IH]; intros pre last fuel s Hs Hw Hf; (destruct fuel as [|fuel]; [lia|]); cbn [wcsrchr_loop app]; unfold mbind, hle_bind.
  - rewrite app_nil_r in *. rewrite last_char by done. eexists. split; [done|]. destruct (Z.eqb_spec 0 wc) as [<-|Hne].
    + left. exists 0%nat. rewrite (char_address a pre _ s), Nat.add_0_r by (done || lia). split_and!; [done|by intros [|j]; [lia|]|done].
    + right. split; [done|]. intros [|i]; [by intros [= ?]|done].
  - destruct (next_char a pre c suf s Hs Hw) as [-> ->]. rewrite (next_index pre c), (char_address a (pre ++ c :: suf) _ s) by (done || (rewrite length_app; lia)).
    rewrite shift in Hw. destruct (IH (pre ++ [c]) (if c =? wc then a + 4 * Z.of_nat (length pre) else last) fuel s Hs Hw) as (v & -> & Hv); [cbn in Hf; lia|]. exists v. split; [done|].
    destruct Hv as [(i & Hi & Hj & ->)|[-> Hn]]; [left|destruct (Z.eqb_spec c wc) as [->|Hne]; [left|right]].
    + exists (Datatypes.S i). split_and!; [done|intros [|j] Hij; [lia|]; cbn; apply Hj; lia|rewrite length_app; cbn; lia].
    + exists 0%nat. split_and!; [done|intros [|j] Hij; [lia|]; apply Hn|by rewrite Nat.add_0_r].
    + split; [done|]. intros [|i]; [by intros [= ?]|apply Hn].
Qed.

(** The comparison of a needle with what is left of the haystack. *)
Lemma wcsstr_match_spec a needle : forall pre suf s, sane s -> wstr a (pre ++ suf) s -> Forall wchar needle ->
  exists b, wcsstr_match needle a (Z.of_nat (length pre)) s = Ret b s /\ (b = true <-> needle `prefix_of` suf).
Proof.
  induction needle as [|c needle IH]; intros pre suf s Hs Hw Hn; cbn [wcsstr_match]; unfold mbind, hle_bind.
  { exists true. split; [done|]. split; [intros _; apply prefix_nil|done]. }
  apply Forall_cons in Hn as [Hc Hn]. destruct suf as [|x suf].
  - rewrite app_nil_r in Hw. rewrite last_char by done. rewrite (proj2 (Z.eqb_neq 0 c)) by (unfold wchar in Hc; lia). exists false. split; [done|]. split; [done|]. by intros ?%prefix_cons_nil_inv || intros [k Hk].
  - destruct (next_char a pre x suf s Hs Hw) as [-> _]. destruct (Z.eqb_spec x c) as [->|Hne]; cbn [negb].
    + rewrite (next_index pre c). rewrite shift in Hw. destruct (IH (pre ++ [c]) suf s Hs Hw Hn) as (b & -> & Hb). exists b. split; [done|]. rewrite Hb. split; [apply prefix_cons|apply prefix_cons_inv_2].
    + exists false. split; [done|]. split; [done|]. by intros ->%prefix_cons_inv_1.
Qed.

Lemma wcsstr_loop_spec a needle suf : forall pre fuel s, sane s -> wstr a (pre ++ suf) s -> Forall wchar needle -> needle <> [] -> (length suf < fuel)%nat ->
  exists v, wcsstr_loop fuel needle a (Z.of_nat (length pre)) s = Ret (Some v) s /\
    ((exists i, least (fun i => needle `prefix_of` drop i suf) i /\ v = a + 4 * Z.of_nat (length pre + i)) \/ v = 0 /\ forall i, ~ needle `prefix_of` drop i suf).
Proof.
  induction suf as [|c suf IH]; intros pre fuel s Hs Hw Hn Hne Hf; (destruct fuel as [|fuel]; [lia|]); cbn [wcsstr_loop]; unfold mbind, hle_bind.
  - rewrite app_nil_r in Hw. rewrite last_char by done. exists 0. split; [done|]. right. split; [done|]. intros i. rewrite drop_nil. by intros ?%prefix_nil_inv.
  - destruct (next_char a pre c suf s Hs Hw) as [-> ->]. destruct (wcsstr_match_spec a needle pre (c :: suf) s Hs Hw Hn) as (b & -> & Hb). destruct b.
    + eexists. split; [done|]. left. exists 0%nat. rewrite (char_address a (pre ++ c :: suf) _ s), Nat.add_0_r by (done || (rewrite length_app; lia)). split; [|done]. split; [by apply Hb|intros j Hj; lia].
    + rewrite (next_index pre c). rewrite shift in Hw. destruct (IH (pre ++ [c]) fuel s Hs Hw Hn Hne) as (v & -> & Hv); [cbn in Hf; lia|]. exists v. split; [done|].
      assert (H0 : ~ needle `prefix_of` c :: suf) by (intros ?%Hb; done). destruct Hv as [(i & [Hi Hj] & ->)|[-> Hv]].
      * left. exists (Datatypes.S i). split; [split; [done|intros [|j] ?; [done|apply Hj; lia]]|rewrite length_app; cbn; lia].
      * right. split; [done|]. intros [|i]; [done|apply Hv].
Qed.
(** The needle as wcsstr reads it. *)
Lemma words32_wide xs : Forall wchar xs -> words32 (length xs) (wide xs) = xs.
Proof.
  induction 1 as [|x xs Hx _ IH]; [done|]. cbn [length words32]. rewrite wide_cons. change 4%nat with (length (le_bytes 4 x)) at 1. rewrite take_app_length.
  change 4%nat with (length (le_bytes 4 x)) at 2. rewrite drop_app_length, IH, le_value_bytes, Z.mod_small by (unfold wchar in Hx; cbn; lia). done.
Qed.

(** The call ends with [v] in X0 and nothing else changed. *)
Definition answers {A} (ok : A) s (v : Z) (r : A) s' : Prop := r = ok /\ returned s (byte_at s) v s'.

Lemma wp_answer {A} (ok : A) v s (Q : A -> S -> Prop) : sane s -> (forall s', returned s (byte_at s) (u64 v) s' -> Q ok s') -> wp (set_x X0 v;; mret ok) Q s.
Proof.
  intros Hs HQ. apply wp_bind. unfold wp at 1, set_x. apply wp_ret, HQ. replace (putr X0 (u64 v) s) with (putr X0 (u64 (u64 v)) s) by (unfold u64; by rewrite Z.mod_mod).
  apply became_set; [by apply became_refl|apply u64_range].
Qed.

Lemma wp_finish {A} (m : hle S (option A)) x (k : A -> hle S unit) v Q s : sane s -> m s = Ret (Some x) s -> k x s = set_x X0 v s ->
  (forall s', returned s (byte_at s) (u64 v) s' -> Q (Some tt) s') -> wp (m ≫= fun r => finish r k) Q s.
Proof.
  intros Hs Hm Hk HQ. apply wp_bind. unfold wp at 1. rewrite Hm. unfold finish. pose proof (wp_answer (Some tt) v s Q Hs HQ) as H. unfold wp, mbind, hle_bind in *. by rewrite Hk.
Qed.

Lemma lex_u64 xs ys : u64 (u64 (lex xs ys)) = u64 (lex xs ys).
Proof. unfold u64. by rewrite Z.mod_mod. Qed.

Lemma wp_lengths a xs n fuel s : sane s -> wstr a xs s -> (length xs < fuel)%nat -> getr X0 s = a ->
  wp (wcslen fuel) (answers (Some tt) s (Z.of_nat (length xs))) s /\
  (getr X1 s = Z.of_nat n -> wp wcsnlen (answers tt s (Z.of_nat (Nat.min n (length xs)))) s).
Proof.
  intros Hs Hw Hf E0. assert (Hsm : forall k, (k <= length xs)%nat -> u64 (Z.of_nat k) = Z.of_nat k).
  { intros k Hk. destruct Hw as [[_ Hm] _]. pose proof (mapped_range _ _ _ (sane_mem _ Hs) Hm). apply u64_small. u64_lia. }
  split; [|intros E1]; [unfold wcslen|unfold wcsnlen]; repeat apply wp_reg; rewrite ?E0, ?E1.
  - eapply (wp_finish _ (Z.of_nat (length xs)) _ (Z.of_nat (length xs))); [done|apply wcslen_kept_ok, (wcslen_loop_spec a xs [] fuel s); [done|done|lia]|done|]. intros s' HR. split; [done|]. by rewrite Hsm in HR.
  - apply wp_bind. unfold wp at 1. rewrite Nat2Z.id. pose proof (wcsnlen_loop_spec a xs [] n s Hs Hw) as Hl. cbn [length Nat.add] in Hl. change (Z.of_nat 0) with 0 in Hl. rewrite Hl.
    unfold wp, set_x. split; [done|]. apply became_set; [by apply became_refl|]. rewrite <- Hsm by lia. apply u64_range.
Qed.

Lemma wp_comparison fold a b xs ys fuel s : fold_ok fold -> sane s -> wstr a xs s -> wstr b ys s -> (length xs < fuel)%nat -> (length ys < fuel)%nat -> getr X0 s = a -> getr X1 s = b ->
  wp (compare_strings fold fuel) (answers (Some tt) s (u64 (lex (map fold xs) (map fold ys)))) s.
Proof.
  intros Hfold Hs Ha Hb Hf Hf' E0 E1. unfold compare_strings. do 2 apply wp_reg. rewrite E0, E1.
  destruct (wcscmp_loop_spec fold a b xs Hfold [] [] ys fuel s Hs Ha Hb eq_refl) as (r & H1 & H2 & H3). destruct H3 as [v ->]; [lia|]. cbn in H2. rewrite !take_ge in H2 by (rewrite length_map; lia).
  eapply (wp_finish _ v _ v); [done|exact H1|done|]. intros s' HR. split; [done|]. by rewrite <- H2.
Qed.

Lemma wp_prefix_comparison fold a b xs ys n s : fold_ok fold -> sane s -> wstr a xs s -> wstr b ys s -> getr X0 s = a -> getr X1 s = b -> getr X2 s = Z.of_nat n ->
  wp (compare_prefixes fold) (answers tt s (u64 (lex (take n (map fold xs)) (take n (map fold ys))))) s.
Proof.
  intros Hfold Hs Ha Hb E0 E1 E2. unfold compare_prefixes. do 3 apply wp_reg. rewrite E0, E1, E2, Nat2Z.id.
  destruct (wcscmp_loop_spec fold a b xs Hfold [] [] ys n s Hs Ha Hb eq_refl) as (r & H1 & <- & _). apply wp_bind. unfold wp at 1. cbn [length] in H1. change (Z.of_nat 0) with 0 in H1. rewrite H1.
  unfold wp, set_x. split; [done|]. replace (putr X0 (u64 (default 0 r)) s) with (putr X0 (u64 (u64 (default 0 r))) s) by (unfold u64; by rewrite Z.mod_mod).
  apply became_set; [by apply became_refl|apply u64_range].
Qed.

(** A pointer into the string fits into a register. *)
Lemma pointer_u64 a xs i s : sane s -> wstr a xs s -> (i <= length xs)%nat -> u64 (a + 4 * Z.of_nat i) = a + 4 * Z.of_nat i.
Proof. intros Hs [[_ Hm] _] Hi. pose proof (mapped_range _ _ _ (sane_mem _ Hs) Hm). apply u64_small. u64_lia. Qed.

Lemma wp_characters a xs wc fuel s : sane s -> wstr a xs s -> (length xs < fuel)%nat -> getr X0 s = a -> getr X1 s = wc ->
  wp (wcschr fuel) (fun r s' => exists v, pointer_to (fun i => (xs ++ [0]) !! i = Some (u32 wc)) a v /\ answers (Some tt) s v r s') s /\
  wp (wcsrchr fuel) (fun r s' => exists v, ((exists i, (xs ++ [0]) !! i = Some (u32 wc) /\ (forall j, (i < j)%nat -> (xs ++ [0]) !! j <> Some (u32 wc)) /\ v = a + 4 * Z.of_nat i) \/
    v = 0 /\ forall i, (xs ++ [0]) !! i <> Some (u32 wc)) /\ answers (Some tt) s v r s') s.
Proof.
  intros Hs Hw Hf E0 E1. split; [unfold wcschr|unfold wcsrchr]; do 2 apply wp_reg; rewrite E0, E1.
  - set (stop := fun c => c =? u32 wc). pose proof (wcschr_loop_spec a (u32 wc) xs [] fuel s Hs Hw Hf) as Hl. cbn [length Nat.add] in Hl. fold stop in Hl. eapply wp_finish; [done|exact Hl|done|].
    cbv zeta. intros s' HR. destruct (Nat.leb_spec (span stop (xs ++ [0])) (length xs)) as [Hi|Hi].
    + rewrite (pointer_u64 a xs _ s) in HR by done. eexists. split; [|split; [done|exact HR]]. left. exists (span stop (xs ++ [0])). split; [|done]. split.
      * destruct (lookup_lt_is_Some_2 (xs ++ [0]) (span stop (xs ++ [0]))) as [c Hc]; [rewrite length_app; cbn; lia|]. pose proof (span_at _ _ _ Hc) as Hst. rewrite Hc. f_equal. by apply Z.eqb_eq.
      * intros j Hj Hjc. pose proof (span_before _ _ _ _ Hjc Hj) as Hst. unfold stop in Hst. by rewrite Z.eqb_refl in Hst.
    + exists 0. split; [|by split]. right. split; [done|]. intros i Hic. assert (i < span stop (xs ++ [0%Z]))%nat by (apply lookup_lt_Some in Hic; rewrite length_app in Hic; cbn in Hic; lia).
      pose proof (span_before _ _ _ _ Hic ltac:(done)) as Hst. unfold stop in Hst. by rewrite Z.eqb_refl in Hst.
  - destruct (wcsrchr_loop_spec a (u32 wc) xs [] 0 fuel s Hs Hw Hf) as (v & Hl & Hv). eapply wp_finish; [done|exact Hl|done|]. intros s' HR. exists v. split; [exact Hv|]. split; [done|].
    assert (u64 v = v) as <-; [|exact HR]. destruct Hv as [(i & Hi & _ & ->)|[-> _]]; [|done]. apply (pointer_u64 a xs _ s Hs Hw). apply lookup_lt_Some in Hi. rewrite length_app in Hi. cbn in Hi. cbn. lia.
Qed.

Lemma wp_span (stop : list Z -> Z -> bool) (k : Z -> Z * bool -> hle S unit) a b xs ys fuel v Q s : sane s -> wstr a xs s -> wstr b ys s -> (length xs < fuel)%nat -> (length ys < fuel)%nat -> getr X0 s = a -> getr X1 s = b ->
  k a (Z.of_nat (span (stop ys) xs), bool_decide (span (stop ys) xs = length xs)) s = set_x X0 v s -> 0 <= v < two64 -> (forall s', answers (Some tt) s v (Some tt) s' -> Q (Some tt) s') ->
  wp (span_with fuel stop k) Q s.
Proof.
  intros Hs Ha Hb Hf Hf' E0 E1 Hk Hv HQ. unfold span_with. do 2 apply wp_reg. rewrite E0, E1. apply wp_bind. unfold wp at 1. pose proof (collect_spec b ys [] fuel s Hs Hb Hf') as Hcl. change (Z.of_nat (length [])) with 0 in Hcl. rewrite Hcl. cbn [app].
  eapply wp_finish; [done|apply (span_loop_spec (stop ys) a xs [] fuel s Hs Ha Hf)|exact Hk|]. intros s' HR. rewrite u64_small in HR by done. apply HQ. by split.
Qed.

Lemma wp_spans a b xs ys fuel s : sane s -> wstr a xs s -> wstr b ys s -> (length xs < fuel)%nat -> (length ys < fuel)%nat -> getr X0 s = a -> getr X1 s = b ->
  wp (wcscspn fuel) (answers (Some tt) s (Z.of_nat (span (found ys) xs))) s /\
  wp (wcsspn fuel) (answers (Some tt) s (Z.of_nat (span (fun wc => negb (found ys wc)) xs))) s /\
  wp (wcspbrk fuel) (fun r s' => exists v, pointer_to (fun i => exists c, xs !! i = Some c /\ c ∈ ys) a v /\ answers (Some tt) s v r s') s.
Proof.
  intros Hs Ha Hb Hf Hf' E0 E1. pose proof Ha as [[_ Hm] _]. pose proof (mapped_range _ _ _ (sane_mem _ Hs) Hm) as Hr. pose proof (fun stop => span_le stop xs) as Hle. split_and!.
  - eapply wp_span; [done|exact Ha|exact Hb|done..| | |by intros s']; [done|]. specialize (Hle (found ys)). unfold two64 in *. lia.
  - eapply wp_span; [done|exact Ha|exact Hb|done..| | |by intros s']; [done|]. specialize (Hle (fun wc => negb (found ys wc))). unfold two64 in *. lia.
  - specialize (Hle (found ys)). eapply wp_span; [done|exact Ha|exact Hb|done..|reflexivity| |]; cbn [fst snd].
    + case_bool_decide; [done|]. apply u64_range.
    + intros s' HA. eexists. split; [|exact HA]. case_bool_decide as Hend.
      * right. split; [done|]. intros i (c & Hi & Hc). assert (i < span (found ys) xs)%nat by (apply lookup_lt_Some in Hi; lia). pose proof (span_before _ _ _ _ Hi ltac:(done)) as Hst. unfold found in Hst. by apply bool_decide_eq_false in Hst.
      * left. exists (span (found ys) xs). rewrite (char_address a xs _ s) by done. split; [|done]. destruct (lookup_lt_is_Some_2 xs (span (found ys) xs)) as [c Hc]; [lia|]. split.
        -- exists c. split; [done|]. pose proof (span_at _ _ _ Hc) as Hst. unfold found in Hst. by apply bool_decide_eq_true in Hst.
        -- intros j Hj (c' & Hj' & Hc'). pose proof (span_before _ _ _ _ Hj' Hj) as Hst. unfold found in Hst. by apply bool_decide_eq_false in Hst.
Qed.

Lemma wp_substring a b xs ys fuel s : sane s -> wstr a xs s -> wstr b ys s -> (length xs < fuel)%nat -> (length ys < fuel)%nat -> getr X0 s = a -> getr X1 s = b -> alloc_ok (Z.of_nat (length ys) * 4) s = true ->
  wp (wcsstr fuel) (fun r s' => exists v, pointer_to (fun i => ys `prefix_of` drop i xs) a v /\ answers (Some tt) s v r s') s.
Proof.
  intros Hs Ha Hb Hf Hf' E0 E1 Hal. unfold wcsstr. do 2 apply wp_reg. rewrite E0, E1. apply wp_bind. unfold wp at 1. pose proof (wcslen_loop_spec b ys [] fuel s Hs Hb Hf') as Hwl. change (Z.of_nat (length [])) with 0 in Hwl. rewrite Hwl. cbn [app].
  pose proof Ha as [[_ Hma] _]. pose proof Hb as [[Hbb Hm] Hc]. pose proof (mapped_range _ _ _ (sane_mem _ Hs) Hm) as Hr. pose proof (pointer_u64 a xs 0 s Hs Ha ltac:(lia)) as Ha0. rewrite Z.add_0_r in Ha0.
  destruct (Z.eqb_spec (Z.of_nat (length ys)) 0) as [Hz|Hz].
  - apply wp_answer; [done|]. intros s' HR. rewrite Ha0 in HR. exists a. split; [|by split]. left. exists 0%nat. destruct ys; [|cbn in Hz; lia]. split; [|lia]. split; [apply prefix_nil|intros; lia].
  - apply wp_alloc; [exact Hal|]. eapply (wp_mem_rd_into _ _ (wide ys)); [done| | | | |].
    + rewrite u64_small by u64_lia. eapply mapped_sub; [exact Hm|lia..].
    + intros Hw. pose proof (length_wide ys) as Hl. rewrite Hw in Hl. cbn in Hl. lia.
    + rewrite u64_small by u64_lia. rewrite length_wide. lia.
    + rewrite wide_app in Hbb. by apply holds_at_app in Hbb as [Hbb _].
    + rewrite Nat2Z.id, words32_wide by done. destruct (wcsstr_loop_spec a ys xs [] fuel s Hs Ha Hc ltac:(by intros ->) Hf) as (v & Hl & Hv).
      eapply wp_finish; [done|exact Hl|done|]. intros s' HR. exists v. split; [exact Hv|]. split; [done|]. assert (u64 v = v) as <-; [|exact HR].
      destruct Hv as [(i & [Hi _] & ->)|[-> _]]; [|done]. apply (pointer_u64 a xs _ s Hs Ha). cbn. destruct (decide (i <= length xs)%nat); [done|]. rewrite drop_ge in Hi by lia. apply prefix_nil_inv in Hi as ->. cbn in Hz. lia.
Qed.
Lemma fold_id : fold_ok (fun wc => wc).
Proof. by split. Qed.
Lemma fold_lower : fold_ok ascii_lower.
Proof. split; [done|]. intros wc Hwc. unfold ascii_lower. case_match; lia. Qed.

(** C38: the queries on wide strings terminate and answer what the corresponding
    functions on lists of characters do: wcslen and wcsnlen the length, wcscmp and
    wcscasecmp the lexicographic order, as it is or with ASCII letters in lower case,
    and wcsncmp that of the first [n] characters; wcschr and wcsrchr the first and last
    place of a character, the terminator included; wcscspn, wcsspn and wcspbrk the
    first place of a character in, or not in, a set; wcsstr the first place where a
    string occurs.  Nothing but the result register changes. *)
Theorem wide_queries a b xs ys n fuel s : sane s -> wstr a xs s -> wstr b ys s -> (length xs < fuel)%nat -> (length ys < fuel)%nat -> getr X0 s = a ->
  wp (wcslen fuel) (answers (Some tt) s (Z.of_nat (length xs))) s /\
  (getr X1 s = Z.of_nat n -> wp wcsnlen (answers tt s (Z.of_nat (Nat.min n (length xs)))) s) /\
  (let wc := u32 (getr X1 s) in let at_ i := (xs ++ [0]) !! i = Some wc in
   wp (wcschr fuel) (fun r s' => exists v, pointer_to at_ a v /\ answers (Some tt) s v r s') s /\
   wp (wcsrchr fuel) (fun r s' => exists v, ((exists i, at_ i /\ (forall j, (i < j)%nat -> ~ at_ j) /\ v = a + 4 * Z.of_nat i) \/ v = 0 /\ forall i, ~ at_ i) /\ answers (Some tt) s v r s') s) /\
  (getr X1 s = b ->
   wp (wcscmp fuel) (answers (Some tt) s (u64 (lex xs ys))) s /\
   wp (wcscasecmp fuel) (answers (Some tt) s (u64 (lex (map ascii_lower xs) (map ascii_lower ys)))) s /\
   (getr X2 s = Z.of_nat n -> wp wcsncmp (answers tt s (u64 (lex (take n xs) (take n ys)))) s) /\
   wp (wcscspn fuel) (answers (Some tt) s (Z.of_nat (span (found ys) xs))) s /\
   wp (wcsspn fuel) (answers (Some tt) s (Z.of_nat (span (fun wc => negb (found ys wc)) xs))) s /\
   wp (wcspbrk fuel) (fun r s' => exists v, pointer_to (fun i => exists c, xs !! i = Some c /\ c ∈ ys) a v /\ answers (Some tt) s v r s') s /\
   (alloc_ok (Z.of_nat (length ys) * 4) s = true -> wp (wcsstr fuel) (fun r s' => exists v, pointer_to (fun i => ys `prefix_of` drop i xs) a v /\ answers (Some tt) s v r s') s)).
Proof.
  intros Hs Ha Hb Hf Hf' E0. destruct (wp_lengths a xs n fuel s Hs Ha Hf E0) as [H1 H2]. split; [exact H1|]. split; [exact H2|].
  split; [exact (wp_characters a xs (getr X1 s) fuel s Hs Ha Hf E0 eq_refl)|]. intros E1.
  pose proof (wp_comparison (fun wc => wc) a b xs ys fuel s fold_id Hs Ha Hb Hf Hf' E0 E1) as Hc. pose proof (wp_prefix_comparison (fun wc => wc) a b xs ys n s fold_id Hs Ha Hb E0 E1) as Hn. rewrite !map_id in Hc, Hn.
  split; [exact Hc|]. split; [exact (wp_comparison ascii_lower a b xs ys fuel s fold_lower Hs Ha Hb Hf Hf' E0 E1)|]. split; [exact Hn|].
  destruct (wp_spans a b xs ys fuel s Hs Ha Hb Hf Hf' E0 E1) as (H3 & H4 & H5). split; [exact H3|]. split; [exact H4|]. split; [exact H5|].
  intros Hal. by apply (wp_substring a b xs ys fuel s).
Qed.

End Queries.

(** * Looking for "na" in "banana" *)

Definition banana : list Z := [98; 97; 110; 97; 110; 97].
Definition query_mem : mstate (E := RefEnv) := mb_mem (wide (banana ++ [0]) ++ wide [110; 97; 0]) HEAP_BASE (HEAP_BASE + 28) 0 0.

Lemma wide_queries_witness : wp (wcsstr 7) (fun r s' => r = Some tt /\ getr X0 s' = HEAP_BASE + 8) query_mem.
Proof.
  assert (Hw : forall a xs, HEAP_BASE <= a -> a + (Z.of_nat (4 * length xs) + 4) <= HEAP_BASE + HEAP_SIZE -> holds_check (byte_at query_mem) a (wide (xs ++ [0])) = true -> Forall wchar xs -> wstr a xs query_mem).
  { intros a xs H1 H2 H3 H4. constructor; [|exact H4]. constructor; [by apply holds_check_ok|]. apply mb_mem_mapped; lia. }
  destruct (wide_queries HEAP_BASE (HEAP_BASE + 28) banana [110; 97] 0 7 query_mem) as (_ & _ & _ & H);
    [apply mb_mem_sane|apply Hw; [lia|unfold HEAP_SIZE; cbn; lia|vm_compute; reflexivity|by repeat constructor]|apply Hw; [lia|unfold HEAP_SIZE; cbn; lia|vm_compute; reflexivity|by repeat constructor]|cbn; lia|cbn; lia|reflexivity|].
  destruct (H eq_refl) as (_ & _ & _ & _ & _ & _ & Hss). refine (wp_mono _ _ _ _ (Hss eq_refl) _). intros r s' (v & Hv & -> & HR). split; [done|]. rewrite (rt_value _ _ _ _ HR).
  destruct Hv as [(i & [Hi Hmin] & ->)|[-> Hno]].
  - clear HR Hss H Hw. destruct i as [|[|[|i]]]; [by apply prefix_cons_inv_1 in Hi|by apply prefix_cons_inv_1 in Hi|done|]. exfalso. apply (Hmin 2%nat); [lia|]. exists [110; 97]. reflexivity.
  - exfalso. apply (Hno 2%nat). exists [110; 97]. reflexivity.
Defined.
