(* ===== verification/HleWcopySpec.v ===== *)
(** Copies of wide strings (hle_wchar.cpp). *)

From S2P Require Import Prelude Env HeapAllocator MemoryManager MemorySpec Machine HostAccess HleMonad HleErrno MappedSpec SyscallHandler HlePrintf HleSearch HleSearchHeap Utf8 Utf8Spec HleMultibyte HleMultibyteSpec HleMbsSpec HleStdlib HleWchar HleWcharSpec.
#[local] Open Scope Z_scope.

(** The first [n] characters of a string and zeros behind it. *)
Definition padded (n : nat) (xs : list Z) : list Z := map (fun i => default 0 (xs !! i)) (seq 0 n).

Lemma padded_S n xs : padded (S n) xs = padded n xs ++ [default 0 (xs !! n)].
Proof. unfold padded. by rewrite seq_S, map_app. Qed.
Lemma length_padded n xs : length (padded n xs) = n.
Proof. unfold padded. by rewrite length_map, length_seq. Qed.
Lemma padded_app n xs : (n <= length xs)%nat -> padded n xs = take n xs.
Proof.
  intros Hn. apply list_eq. intros i. unfold padded. rewrite list_lookup_fmap. destruct (decide (i < n)%nat).
  - rewrite lookup_seq_lt, lookup_take_lt by done. cbn. by destruct (lookup_lt_is_Some_2 xs i) as [x ->]; [lia|].
  - rewrite lookup_seq_ge, lookup_take_ge by lia. done.
Qed.
Lemma padded_all xs : padded (S (length xs)) xs = xs ++ [0].
Proof. rewrite padded_S, padded_app, take_ge, lookup_ge_None_2 by lia. done. Qed.

Section Copies.
Context {S : Type} `{M : !Machine S, L : !MemLaws S, R : !RegFileLaws S, V : !HostView S, HL : !HostLaws S}.
Implicit Types s : S.

(** Copying [n] characters from the string at [src] to [dest]: what [mapped] and
    disjointness it takes. *)
Record copy_area (dest : Z) (n : nat) (src : Z) (xs : list Z) s : Prop := {
  ca_dest : mapped dest (4 * Z.of_nat n) s;
  ca_src : wstr src xs s;
  ca_disj : disj dest (4 * Z.of_nat n) src (4 * Z.of_nat (length xs) + 4);
}.

Section Loop.
Context (dest : Z) (at_ n : nat) (src : Z) (xs : list Z) (s0 : S).
Context (Hs0 : sane s0) (Harea : copy_area (dest + 4 * Z.of_nat at_) n src xs s0).

(** [i] characters are written. *)
Definition copied (i : nat) s : Prop := became s0 (stored (byte_at s0) (dest + 4 * Z.of_nat at_) (wide (padded i xs))) s.

Lemma copied_0 : copied 0 s0.
Proof. unfold copied. eapply became_ext; [|by apply became_refl]. intros x. by rewrite stored_nil. Qed.

Lemma wp_source {B} i wc (k : Z -> hle S B) Q s : copied i s -> (i <= n)%nat -> (xs ++ [0]) !! i = Some wc -> wp (k wc) Q s -> wp (char_at src (Z.of_nat i) ≫= k) Q s.
Proof.
  intros Hc Hi Hx. pose proof Harea as [Hm Hw Hdj]. pose proof Hw as [[Hb Hms] Hch]. pose proof Hc as [H1 H2 _ H4 _]. pose proof (lookup_lt_Some _ _ _ Hx) as Hl. rewrite length_app in Hl. cbn in Hl.
  apply wp_pure. apply (char_at_ok src xs i wc s H1); [|done]. constructor; [|done]. constructor; [|by apply H2].
  eapply holds_at_ext; [|exact Hb]. intros x Hxr. rewrite H4. unfold stored. rewrite decide_False; [done|]. rewrite length_wide, length_padded. rewrite length_wide, length_app in Hxr. cbn [length] in Hxr. unfold disj in Hdj. lia.
Qed.

Lemma put_became ys wc s : became s0 (stored (byte_at s0) (dest + 4 * Z.of_nat at_) (wide ys)) s -> (length ys < n)%nat ->
  became s0 (stored (byte_at s0) (dest + 4 * Z.of_nat at_) (wide (ys ++ [wc]))) (gwrite (dest ⊕ (Z.of_nat at_ + Z.of_nat (length ys)) * 4) (le_bytes 4 wc) s).2.
Proof.
  intros Hc Hi. pose proof Harea as [Hm _ _]. pose proof (mapped_range _ _ _ (sane_mem _ Hs0) Hm) as Hr. rewrite u64_small by u64_lia.
  replace (dest + (Z.of_nat at_ + Z.of_nat (length ys)) * 4) with (dest + 4 * Z.of_nat at_ + Z.of_nat (length (wide ys))) by (rewrite length_wide; lia).
  eapply (write_became _ (le_bytes 4 wc)) in Hc; [| |done].
  - eapply became_ext; [|exact Hc]. intros x. rewrite wide_app. by rewrite stored_app.
  - rewrite length_wide. eapply mapped_sub; [exact Hm|rewrite ?length_le_bytes; lia..].
Qed.

Lemma wp_put_copy {B} i wc (k : unit -> hle S B) Q s : copied i s -> (i < n)%nat -> wc = default 0 (xs !! i) -> (forall s', copied (Datatypes.S i) s' -> wp (k tt) Q s') ->
  wp (put_at dest (Z.of_nat at_ + Z.of_nat i) wc ≫= k) Q s.
Proof.
  intros Hc Hi -> Hk. apply wp_bind. unfold wp at 1, put_at, mem_wr. apply Hk. unfold copied. rewrite padded_S. pose proof (put_became (padded i xs) (default 0 (xs !! i)) s Hc) as H. rewrite length_padded in H. by apply H.
Qed.

Lemma source_char i : (i <= length xs)%nat -> (xs ++ [0]) !! i = Some (default 0 (xs !! i)).
Proof.
  intros Hi. destruct (decide (i = length xs)) as [->|]; [rewrite list_lookup_middle by done; by rewrite lookup_ge_None_2 by lia|].
  rewrite lookup_app_l by lia. destruct (lookup_lt_is_Some_2 xs i) as [x Hx]; [lia|]. by rewrite Hx.
Qed.
Lemma source_zero i : (i <= length xs)%nat -> (default 0 (xs !! i) =? 0) = bool_decide (i = length xs).
Proof.
  intros Hi. case_bool_decide as E; [subst; by rewrite lookup_ge_None_2 by lia|]. destruct (lookup_lt_is_Some_2 xs i) as [x Hx]; [lia|]. rewrite Hx. cbn.
  pose proof Harea as [_ [_ Hch] _]. pose proof (proj1 (Forall_lookup _ _) Hch _ _ Hx). unfold wchar in *. lia.
Qed.

(** The three loops. *)
Lemma wide_copy_loop : (length xs < n)%nat -> forall fuel i s, (length xs - i < fuel)%nat -> (i <= length xs)%nat -> copied i s ->
  wp (copy_loop fuel dest (Z.of_nat at_) src (Z.of_nat i)) (fun r s' => r = Some (Z.of_nat (length xs)) /\ copied (Datatypes.S (length xs)) s') s.
Proof.
  intros Hn. induction fuel as [|fuel IH]; intros i s Hf Hi Hc; [lia|]. cbn [copy_loop]. eapply wp_source; [exact Hc|lia|by apply source_char|].
  eapply wp_put_copy; [exact Hc|lia|done|]. intros s' Hc'. rewrite source_zero by done. case_bool_decide as E; [subst i; by apply wp_ret|].
  replace (Z.of_nat i + 1) with (Z.of_nat (Datatypes.S i)) by lia. apply IH; [lia|lia|done].
Qed.

Lemma wcsncpy_loop_spec : at_ = 0%nat -> forall m i s, (i + m = n)%nat -> copied i s ->
  wp (wcsncpy_loop m dest src (Z.of_nat i) (bool_decide (length xs < i)%nat)) (fun _ s' => copied n s') s.
Proof.
  intros Hat. induction m as [|m IH]; intros i s Hm Hc; cbn [wcsncpy_loop]; [replace n with i by lia; by apply wp_ret|].
  assert (Hk : forall nf, nf = bool_decide (length xs < Datatypes.S i)%nat -> wp (put_at dest (Z.of_nat i) (default 0 (xs !! i));; wcsncpy_loop m dest src (Z.of_nat i + 1) nf) (fun _ s' => copied n s') s).
  { intros nf ->. replace (Z.of_nat i) with (Z.of_nat at_ + Z.of_nat i) at 1 by lia. eapply wp_put_copy; [exact Hc|lia|done|]. intros s' Hc'. replace (Z.of_nat i + 1) with (Z.of_nat (Datatypes.S i)) by lia. apply IH; [lia|done]. }
  destruct (decide (length xs < i)%nat) as [Hlt|Hge].
  - rewrite (bool_decide_true (length xs < i)%nat) by done. cbn [negb orb]. apply wp_bind, wp_ret. specialize (Hk true). rewrite (lookup_ge_None_2 xs i) in Hk by lia. apply Hk. rewrite bool_decide_true by lia. done.
  - rewrite bool_decide_false by done. cbn [negb orb]. eapply wp_source; [exact Hc|lia|by apply source_char; lia|]. apply Hk. rewrite source_zero by lia. apply bool_decide_ext. lia.
Qed.

Lemma copy_n_spec m : (m <= length xs)%nat -> (m < n)%nat -> forall d i s, (i + d = m)%nat -> copied i s ->
  wp (copy_n d dest (Z.of_nat at_) src (Z.of_nat i)) (fun _ s' => became s0 (stored (byte_at s0) (dest + 4 * Z.of_nat at_) (wide (take m xs ++ [0]))) s') s.
Proof.
  intros Hm Hmn. induction d as [|d IH]; intros i s Hd' Hc; cbn [copy_n].
  - unfold wp, put_at, mem_wr. replace i with m in * by lia. unfold copied in Hc. rewrite padded_app in Hc by done. pose proof (put_became (take m xs) 0 s Hc) as H. rewrite length_take_le in H by done. by apply H.
  - eapply wp_source; [exact Hc|lia|apply source_char; lia|]. eapply wp_put_copy; [exact Hc|lia|done|]. intros s' Hc'. replace (Z.of_nat i + 1) with (Z.of_nat (Datatypes.S i)) by lia. apply IH; [lia|done].
Qed.
End Loop.
(** ** Where wcscat begins *)

Lemma char0_at_ok a wcs i wc s : sane s -> wstr a wcs s -> (wcs ++ [0]) !! i = Some wc -> char0_at a (Z.of_nat i) s = Ret wc s.
Proof.
  intros Hs Hw Hi. pose proof (char_at_ok a wcs i wc s Hs Hw Hi) as H. unfold char_at, rd_new in H. unfold char0_at, mbind, hle_bind, mem_rd_into.
  destruct (gread _ 4 s) as [bs|]; [|done]. injection H as H. cbn. by rewrite H.
Qed.

(** The destination of wcscat is a string that begins with a scalar value. *)
Definition begins_valid (ys : list Z) : Prop := match ys with y :: _ => is_valid_unicode_scalar y = true | [] => True end.

Lemma concat_loop_spec dest ys s : sane s -> wstr dest ys s -> begins_valid ys -> forall m i, (i <= length ys)%nat ->
  guest_concat_loop m dest (Z.of_nat i) s = Ret (if (length ys - i <? m)%nat then Z.of_nat (length ys) else 0) s.
Proof.
  intros Hs Hw Hv. induction m as [|m IH]; intros i Hi; cbn [guest_concat_loop]; [by rewrite (proj2 (Nat.ltb_ge _ 0)) by lia|]. unfold mbind, hle_bind. pose proof Hw as [_ Hc].
  destruct (decide (i = length ys)) as [->|Hne].
  - rewrite (char0_at_ok dest ys _ 0 s Hs Hw) by by apply list_lookup_middle. rewrite (proj2 (Nat.ltb_lt _ _)) by lia. done.
  - destruct (lookup_lt_is_Some_2 ys i) as [wc Hwc]; [lia|]. rewrite (char0_at_ok dest ys i wc s Hs Hw) by (rewrite lookup_app_l by lia; done).
    rewrite (proj2 (Z.eqb_neq wc 0)) by (pose proof (proj1 (Forall_lookup _ _) Hc _ _ Hwc); unfold wchar in *; lia).
    assert ((Z.of_nat i =? 0) && negb (is_valid_unicode_scalar wc) = false) as ->.
    { destruct i; [|done]. destruct ys; [done|]. cbn in Hwc. injection Hwc as ->. cbn in Hv. by rewrite Hv. }
    replace (Z.of_nat i + 1) with (Z.of_nat (Datatypes.S i)) by lia. rewrite IH by lia. do 2 f_equal. destruct (Nat.ltb_spec (length ys - Datatypes.S i) m), (Nat.ltb_spec (length ys - i) (Datatypes.S m)); done || lia.
Qed.

(** A destination of 4096 characters or more is taken for empty: wcscat overwrites it. *)
Theorem concat_restarts dest ys s : sane s -> wstr dest ys s -> begins_valid ys -> (4096 <= length ys)%nat -> guest_concat_length dest s = Ret 0 s.
Proof.
  intros Hs Hw Hv Hl. unfold guest_concat_length. change 0 with (Z.of_nat 0) at 1. rewrite (concat_loop_spec dest ys s Hs Hw Hv) by lia. rewrite Nat.sub_0_r, (proj2 (Nat.ltb_ge _ _)) by lia. done.
Qed.

(** ** The functions *)

Lemma area_base dest n src xs s : sane s -> copy_area dest n src xs s -> 0 <= dest /\ dest + 4 * Z.of_nat n < two64 /\ 0 <= Z.of_nat (length xs) < two64.
Proof.
  intros Hs [Hm [[_ Hx] _] _]. pose proof (mapped_range _ _ _ (sane_mem _ Hs) Hm). pose proof (mapped_range _ _ _ (sane_mem _ Hs) Hx). lia.
Qed.

(** After a copy the result is stored. *)
Lemma wp_copied v f s0 s1 (ok : option unit) : became s0 f s1 -> ok = Some tt -> 0 <= v < two64 -> wp (set_x X0 v;; mret ok) (fun r s' => r = Some tt /\ returned s0 f v s') s1.
Proof. intros Hb -> Hv. apply wp_bind. eapply wp_set; [exact Hb|done|]. intros s' HR. by apply wp_ret. Qed.

Lemma wp_whole dest (at_ : nat) src xs fuel v s : sane s -> copy_area (dest + 4 * Z.of_nat at_) (Datatypes.S (length xs)) src xs s -> (length xs < fuel)%nat -> 0 <= v < two64 ->
  forall k, k (Z.of_nat (length xs)) = set_x X0 v ->
  wp (copy_loop fuel dest (Z.of_nat at_) src 0 ≫= fun r => finish r k) (fun r s' => r = Some tt /\ returned s (stored (byte_at s) (dest + 4 * Z.of_nat at_) (wide (xs ++ [0]))) v s') s.
Proof.
  intros Hs Ha Hf Hv k Hk. apply wp_bind. refine (wp_mono _ _ _ _ (wide_copy_loop dest at_ _ src xs s Hs Ha ltac:(lia) fuel 0 s ltac:(lia) ltac:(lia) (copied_0 _ _ _ _ Hs)) _).
  intros r s1 [-> Hc]. unfold finish. rewrite Hk. unfold copied in Hc. rewrite padded_all in Hc. by apply wp_copied.
Qed.

Lemma copy_kept_ok fuel : forall dest src i prev r s s', copy_loop fuel dest 0 src i s = Ret r s' -> copy_kept fuel dest src i prev s = Ret r s'.
Proof.
  induction fuel as [|fuel IH]; intros dest src i prev r s s'; [done|]. cbn [copy_loop copy_kept]. unfold mbind, hle_bind. destruct (char_at_pure src i s) as [[wc E]|E]; rewrite E; [|done].
  rewrite (char_or_ok _ _ _ _ _ E), Z.add_0_l. destruct (put_at dest i wc s); [|done..]. destruct (wc =? 0); [done|]. apply IH.
Qed.
Lemma wp_kept {B} fuel dest src (k : option Z -> hle S B) Q s : wp (copy_loop fuel dest 0 src 0 ≫= k) Q s -> wp (copy_kept fuel dest src 0 None ≫= k) Q s.
Proof. unfold wp, mbind, hle_bind. destruct (copy_loop fuel dest 0 src 0 s) eqn:E; [|done..]. by rewrite (copy_kept_ok _ _ _ _ None _ _ _ E). Qed.

Lemma wp_truncated dest (at_ n m : nat) src xs v s : sane s -> copy_area (dest + 4 * Z.of_nat at_) n src xs s -> (m <= length xs)%nat -> (m < n)%nat -> 0 <= v < two64 ->
  wp ((copy_n m dest (Z.of_nat at_) src 0;; set_x X0 v);; mret (Some tt)) (fun r s' => r = Some tt /\ returned s (stored (byte_at s) (dest + 4 * Z.of_nat at_) (wide (take m xs ++ [0]))) v s') s.
Proof.
  intros Hs Ha Hm Hmn Hv. apply wp_bind, wp_bind. refine (wp_mono _ _ _ _ (copy_n_spec dest at_ n src xs s Hs Ha m Hm Hmn m 0 s ltac:(lia) (copied_0 _ _ _ _ Hs)) _).
  intros _ s1 Hb. eapply wp_set; [exact Hb|done|]. intros s' HR. by apply wp_ret.
Qed.
Lemma take_bounded (xs : list Z) n : (0 < n)%nat -> take (n - 1) xs = take (Z.to_nat (if Z.of_nat (length xs) <? Z.of_nat n then Z.of_nat (length xs) else Z.of_nat n - 1)) xs.
Proof.
  intros Hn. destruct (Z.ltb_spec (Z.of_nat (length xs)) (Z.of_nat n)); [rewrite !take_ge by lia; done|]. f_equal. lia.
Qed.

Lemma wp_wcslcpy dest src xs n fuel s : sane s -> (length xs < fuel)%nat -> getr X0 s = dest -> getr X1 s = src -> getr X2 s = Z.of_nat n -> (0 < n)%nat -> copy_area dest n src xs s ->
  wp (wcslcpy fuel) (fun r s' => r = Some tt /\ returned s (stored (byte_at s) dest (wide (take (n - 1) xs ++ [0]))) (Z.of_nat (length xs)) s') s.
Proof.
  intros Hs Hf E0 E1 E2 Hn Ha. destruct (area_base _ _ _ _ _ Hs Ha) as (Hd & Hr & Hl). unfold wcslcpy. do 3 apply wp_reg. rewrite E0, E1, E2. apply wp_bind. unfold wp at 1.
  pose proof (wcslen_loop_spec src xs [] fuel s Hs (ca_src _ _ _ _ _ Ha) Hf) as Hwl. change (Z.of_nat (length [])) with 0 in Hwl. rewrite Hwl. cbn [finish app].
  rewrite (proj2 (Z.ltb_lt 0 (Z.of_nat n))) by lia. unfold copy_bounded. rewrite take_bounded by done. rewrite <- (Z.add_0_r dest) in Ha.
  pose proof (fun m => wp_truncated dest 0 n m src xs (Z.of_nat (length xs)) s Hs Ha) as H. change (Z.of_nat 0) with 0 in H. rewrite Z.mul_0_r, Z.add_0_r in H.
  apply H; [destruct (Z.ltb_spec (Z.of_nat (length xs)) (Z.of_nat n)); lia..|done].
Qed.

Lemma wp_wcsncpy dest src xs n s : sane s -> getr X0 s = dest -> getr X1 s = src -> getr X2 s = Z.of_nat n -> copy_area dest n src xs s ->
  wp wcsncpy (fun _ s' => returned s (stored (byte_at s) dest (wide (padded n xs))) dest s') s.
Proof.
  intros Hs E0 E1 E2 Ha. destruct (area_base _ _ _ _ _ Hs Ha) as (Hd & Hr & Hl). unfold wcsncpy. do 3 apply wp_reg. rewrite E0, E1, E2, Nat2Z.id. apply wp_bind. rewrite <- (Z.add_0_r dest) in Ha.
  pose proof (wcsncpy_loop_spec dest 0 n src xs s Hs Ha eq_refl n 0 s ltac:(lia) (copied_0 _ _ _ _ Hs)) as H. rewrite (bool_decide_false (length xs < 0)%nat) in H by lia.
  refine (wp_mono _ _ _ _ H _). intros _ s1 Hc. unfold copied in Hc. change (4 * Z.of_nat 0) with 0 in Hc. rewrite Z.add_0_r in Hc. eapply wp_set; [exact Hc|lia|done].
Qed.

Lemma wp_wcslcat dest src xs ys n fuel s : sane s -> (length xs < fuel)%nat -> getr X0 s = dest -> getr X1 s = src -> getr X2 s = Z.of_nat n -> wstr dest ys s -> (length ys < n)%nat ->
  copy_area (dest + 4 * Z.of_nat (length ys)) (n - length ys) src xs s ->
  wp (wcslcat fuel) (fun r s' => r = Some tt /\ returned s (stored (byte_at s) (dest + 4 * Z.of_nat (length ys)) (wide (take (n - length ys - 1) xs ++ [0]))) (u64 (Z.of_nat (length ys + length xs))) s') s.
Proof.
  intros Hs Hf E0 E1 E2 Hw Hn Ha. destruct (area_base _ _ _ _ _ Hs Ha) as (Hd & Hr & Hl). unfold wcslcat. do 3 apply wp_reg. rewrite E0, E1, E2, Nat2Z.id. apply wp_bind. unfold wp at 1.
  pose proof (wcsnlen_loop_spec dest ys [] n s Hs Hw) as Hnl. change (Z.of_nat (length [])) with 0 in Hnl. rewrite Hnl. cbn [length Nat.add]. rewrite Nat.min_r by lia. apply wp_bind. unfold wp at 1.
  pose proof (wcslen_loop_spec src xs [] fuel s Hs (ca_src _ _ _ _ _ Ha) Hf) as Hwl. change (Z.of_nat (length [])) with 0 in Hwl. rewrite Hwl. cbn [finish app].
  rewrite (proj2 (Z.leb_gt (Z.of_nat n) (Z.of_nat (length ys)))) by lia.
  assert (Htk : take (n - length ys - 1) xs = take (Z.to_nat (if Z.of_nat (length xs) <? Z.of_nat n - Z.of_nat (length ys) - 1 then Z.of_nat (length xs) else Z.of_nat n - Z.of_nat (length ys) - 1)) xs).
  { destruct (Z.ltb_spec (Z.of_nat (length xs)) (Z.of_nat n - Z.of_nat (length ys) - 1)); [rewrite !take_ge by lia; done|]. f_equal. lia. }
  rewrite Htk. set (m := Z.to_nat _). assert (Hm : (m <= length xs)%nat /\ (m < n - length ys)%nat) by (unfold m; destruct (Z.ltb_spec (Z.of_nat (length xs)) (Z.of_nat n - Z.of_nat (length ys) - 1)); lia).
  replace (set_x X0 (Z.of_nat (length ys) + Z.of_nat (length xs))) with (set_x (S := S) X0 (u64 (Z.of_nat (length ys + length xs)))) by (unfold set_x, u64; rewrite Z.mod_mod, Nat2Z.inj_add by done; done).
  apply (wp_truncated dest (length ys) (n - length ys) m src xs _ s Hs Ha); [lia|lia|apply u64_range].
Qed.

(** the functions that copy wide strings terminate and write the string and its
    terminator and nothing else: wcscpy and wcpcpy at the destination; wcsncpy exactly
    [n] characters, with zeros behind a shorter string; wcslcpy at most [n], always
    with a terminator; wcscat and wcslcat behind the string at the destination (wcscat
    if that is shorter than 4096 characters and begins with a scalar value).  They
    return the destination, its end (wcpcpy) or the length that was tried to be made
    (wcslcpy, wcslcat). *)
Theorem wide_copies dest src xs ys n fuel s : sane s -> (length xs < fuel)%nat -> getr X0 s = dest -> getr X1 s = src ->
  (copy_area dest (Datatypes.S (length xs)) src xs s ->
   wp (wcscpy fuel) (fun r s' => r = Some tt /\ returned s (stored (byte_at s) dest (wide (xs ++ [0]))) dest s') s /\
   wp (wcpcpy fuel) (fun r s' => r = Some tt /\ returned s (stored (byte_at s) dest (wide (xs ++ [0]))) (dest + 4 * Z.of_nat (length xs)) s') s) /\
  (getr X2 s = Z.of_nat n -> (0 < n)%nat -> copy_area dest n src xs s ->
   wp wcsncpy (fun _ s' => returned s (stored (byte_at s) dest (wide (padded n xs))) dest s') s /\
   wp (wcslcpy fuel) (fun r s' => r = Some tt /\ returned s (stored (byte_at s) dest (wide (take (n - 1) xs ++ [0]))) (Z.of_nat (length xs)) s') s) /\
  (wstr dest ys s -> (length ys < 4096)%nat -> begins_valid ys -> copy_area (dest + 4 * Z.of_nat (length ys)) (Datatypes.S (length xs)) src xs s ->
   wp (wcscat fuel) (fun r s' => r = Some tt /\ returned s (stored (byte_at s) (dest + 4 * Z.of_nat (length ys)) (wide (xs ++ [0]))) dest s') s) /\
  (getr X2 s = Z.of_nat n -> wstr dest ys s -> (length ys < n)%nat -> copy_area (dest + 4 * Z.of_nat (length ys)) (n - length ys) src xs s ->
   wp (wcslcat fuel) (fun r s' => r = Some tt /\ returned s (stored (byte_at s) (dest + 4 * Z.of_nat (length ys)) (wide (take (n - length ys - 1) xs ++ [0]))) (u64 (Z.of_nat (length ys + length xs))) s') s).
Proof.
  intros Hs Hf E0 E1. split; [intros Ha|split; [intros E2 Hn Ha|split; [intros Hw Hl Hv Ha|by apply wp_wcslcat]]].
  - destruct (area_base _ _ _ _ _ Hs Ha) as (Hd & Hr & Hl). rewrite <- (Z.add_0_r dest) in Ha. pose proof (fun v Hv => wp_whole dest 0 src xs fuel v s Hs Ha Hf Hv) as H. change (Z.of_nat 0) with 0 in H. rewrite Z.mul_0_r, Z.add_0_r in H.
    split; [unfold wcscpy|unfold wcpcpy]; do 2 apply wp_reg; rewrite E0, E1; [apply wp_kept|]; apply H; [lia|done|lia|]. f_equal. rewrite u64_small by u64_lia. lia.
  - split; [by apply (wp_wcsncpy dest src)|by apply (wp_wcslcpy dest src)].
  - destruct (area_base _ _ _ _ _ Hs Ha) as (Hd & Hr & _). unfold wcscat. do 2 apply wp_reg. rewrite E0, E1. apply wp_bind. unfold wp at 1.
    assert (guest_concat_length dest s = Ret (Z.of_nat (length ys)) s) as ->.
    { unfold guest_concat_length. pose proof (concat_loop_spec dest ys s Hs Hw Hv (Z.to_nat 4096) 0 ltac:(lia)) as H. rewrite Nat.sub_0_r, (proj2 (Nat.ltb_lt _ _)) in H by lia. exact H. }
    apply (wp_whole dest (length ys) src xs fuel dest s Hs Ha Hf); [|done]. destruct Hw as [[_ Hm] _]. pose proof (mapped_range _ _ _ (sane_mem _ Hs) Hm). lia.
Qed.
End Copies.

(** * "nas" behind "bana" *)

Definition cat_mem : mstate (E := RefEnv) := mb_mem (wide [98; 97; 110; 97; 0; 0; 0; 0] ++ wide [110; 97; 115; 0]) HEAP_BASE (HEAP_BASE + 32) 0 0.

Lemma wide_copies_witness : wp (wcscat 4) (fun r s' => r = Some tt /\ getr X0 s' = HEAP_BASE /\ byte_at s' (HEAP_BASE + 16) = Some 110 /\ byte_at s' (HEAP_BASE + 24) = Some 115) cat_mem.
Proof.
  assert (Hw : forall a xs, HEAP_BASE <= a -> a + (Z.of_nat (4 * length xs) + 4) <= HEAP_BASE + HEAP_SIZE -> holds_check (byte_at cat_mem) a (wide (xs ++ [0])) = true -> Forall wchar xs -> wstr a xs cat_mem).
  { intros a xs H1 H2 H3 H4. constructor; [|exact H4]. constructor; [by apply holds_check_ok|]. apply mb_mem_mapped; lia. }
  destruct (wide_copies HEAP_BASE (HEAP_BASE + 32) [110; 97; 115] [98; 97; 110; 97] 0 4 cat_mem) as (_ & _ & H & _); [apply mb_mem_sane|cbn; lia|reflexivity|reflexivity|].
  refine (wp_mono _ _ _ _ (H _ _ _ _) _).
  - apply Hw; [lia|unfold HEAP_SIZE; cbn; lia|vm_compute; reflexivity|by repeat constructor].
  - cbn. lia.
  - reflexivity.
  - constructor; [apply mb_mem_mapped; unfold HEAP_SIZE; cbn; lia|apply Hw; [lia|unfold HEAP_SIZE; cbn; lia|vm_compute; reflexivity|by repeat constructor]|left; cbn; lia].
  - clear H Hw. intros r s' [-> HR]. split; [reflexivity|]. split; [exact (rt_value _ _ _ _ HR)|]. split; rewrite (rt_byte _ _ _ _ HR); reflexivity.
Defined.
