(* ===== verification/HleScan.v ===== *)
(** The scanf engine (src/src/hle/hle_scan.cpp) and its callers sscanf, vsscanf and
    swscanf: the parser of format strings, the conversions, and the loop over them.

    Input is a list of characters, bytes or 32-bit ones ([wide_input]).  Argument
    sources and guest strings are those of the printf engine, which the file repeats.
    Integers and scan sets are converted by the engine itself; strings and
    floating-point numbers by the host's sscanf and swscanf, which are the parameter
    [HostScan], as are the host's iswspace and MB_CUR_MAX.  Reading behind the end of a vector is
    undefined and shown as [Segv]. *)

From S2P Require Import Prelude Env MemoryManager MemorySpec Machine HostAccess HleMonad HleErrno SyscallHandler HlePrintf HleSearch Utf8 HleMultibyte HleStdlib.
From Stdlib Require Import Ascii String.
#[local] Open Scope Z_scope.
#[local] Notation length := Datatypes.length.

Inductive ScanLengthMod := SNone | SHH | SH | SL | SLL | SBigL | SJ | SZ | ST | SExactW | SFastW.

Record ScanDirective := {
  original : list Z;
  suppress : bool;
  assign_alloc : bool;
  has_width : bool;
  width : Z;
  scan_length : ScanLengthMod;
  scan_bits : Z;
  conv : Z;
}.

Inductive ScanToken := ScanLiteral (literal : list Z) | ScanConversion (spec : ScanDirective).

(** * The parser *)

Definition scan_star (l : list Z) : bool * list Z := match l with c :: t => if c =? ch "*" then (true, t) else (false, l) | [] => (false, l) end.
Definition scan_width (l : list Z) : pres (bool * Z * list Z) :=
  match l with
  | c :: _ => if isdigit c then '(w, r) ← parse_number 0 l; mret (true, w, r) else mret (false, 0, l)
  | [] => mret (false, 0, l)
  end.
Definition scan_alloc (l : list Z) : bool * list Z := match l with c :: t => if c =? ch "m" then (true, t) else (false, l) | [] => (false, l) end.

(** Bits other than 8, 16, 32 and 64 make the call fail. *)
Definition scan_w (l : list Z) : pres (ScanLengthMod * Z * list Z) :=
  let '(len, l) := match l with c :: t => if c =? ch "f" then (SFastW, t) else (SExactW, l) | [] => (SExactW, l) end in
  let '(digits, r) := span isdigit l in
  if bool_decide (digits = text "8") then mret (len, 8, r)
  else if bool_decide (digits = text "16") then mret (len, 16, r)
  else if bool_decide (digits = text "32") then mret (len, 32, r)
  else if bool_decide (digits = text "64") then mret (len, 64, r)
  else PErr EINVAL_F.

(** A letter that may stand once or twice. *)
Definition doubled (c : Z) (one two : ScanLengthMod) (l : list Z) : ScanLengthMod * list Z :=
  match l with c' :: t => if c' =? c then (two, t) else (one, l) | [] => (one, l) end.

Definition scan_length_mod (l : list Z) : pres (ScanLengthMod * Z * list Z) :=
  match l with
  | [] => mret (SNone, 0, l)
  | c :: t =>
      if c =? ch "w" then scan_w t
      else if c =? ch "h" then let '(m, r) := doubled c SH SHH t in mret (m, 0, r)
      else if c =? ch "l" then let '(m, r) := doubled c SL SLL t in mret (m, 0, r)
      else if c =? ch "L" then mret (SBigL, 0, t)
      else if c =? ch "j" then mret (SJ, 0, t)
      else if c =? ch "z" then mret (SZ, 0, t)
      else if c =? ch "t" then mret (ST, 0, t)
      else mret (SNone, 0, l)
  end.

(** What follows the closing bracket of a scan set. *)
Fixpoint to_bracket (l : list Z) : pres (list Z) :=
  match l with c :: t => if c =? ch "]" then mret t else to_bracket t | [] => PErr EINVAL_F end.
Definition skip_set (l : list Z) : pres (list Z) :=
  match l with
  | c :: t =>
      if c =? ch "^" then to_bracket (match t with c' :: t' => if c' =? ch "]" then t' else t | [] => t end)
      else if c =? ch "]" then to_bracket t
      else to_bracket l
  | [] => to_bracket l
  end.

(** The directive whose characters after the percent sign begin [l]. *)
Definition scan_directive (l : list Z) : pres (ScanDirective * list Z) :=
  match l with
  | [] => PErr EINVAL_F
  | _ =>
      let '(star, r) := scan_star l in
      '(hw, w, r) ← scan_width r;
      let '(m, r) := scan_alloc r in
      '(len, bits, r) ← scan_length_mod r;
      match r with
      | [] => PErr EINVAL_F
      | c :: r =>
          r ← (if c =? ch "[" then skip_set r else mret r);
          mret ({| original := ch "%" :: take (length l - length r) l; suppress := star; assign_alloc := m; has_width := hw;
                   width := w; scan_length := len; scan_bits := bits; conv := c |}, r)
      end
  end.

Definition flush_scan (pending : list Z) (tokens : list ScanToken) : list ScanToken :=
  match pending with [] => tokens | _ => tokens ++ [ScanLiteral pending] end.

Fixpoint scan_parse_loop (fuel : nat) (l pending : list Z) (tokens : list ScanToken) : pres (list ScanToken) :=
  match fuel with
  | O => PThrow
  | S fuel =>
      match l with
      | [] => mret (flush_scan pending tokens)
      | c :: r =>
          if negb (c =? ch "%") then scan_parse_loop fuel r (pending ++ [c]) tokens
          else
            match r with
            | c' :: r' =>
                if c' =? ch "%" then scan_parse_loop fuel r' (pending ++ [ch "%"]) tokens
                else '(spec, rest) ← scan_directive r; scan_parse_loop fuel rest [] (flush_scan pending tokens ++ [ScanConversion spec])
            | [] => PErr EINVAL_F
            end
      end
  end.
(** Every round uses a character. *)
Definition parse_scan_format (fmt : list Z) : pres (list ScanToken) := scan_parse_loop (S (length fmt)) fmt [] [].

(** * Integers *)

(** A character as [uint32_t]: [char] is signed. *)
Definition char_code (wide_input : bool) (c : Z) : Z := if wide_input then u32 c else if c <? 128 then c else u32 (c - 256).
Definition ascii_equals (wide_input : bool) (c expected : Z) : bool := char_code wide_input c =? expected.
Definition ascii_is_sign (wide_input : bool) (c : Z) : bool := ascii_equals wide_input c (ch "+") || ascii_equals wide_input c (ch "-").
Definition scan_digit (wide_input : bool) (c : Z) : Z :=
  let code := char_code wide_input c in
  if (48 <=? code) && (code <=? 57) then code - 48
  else if (97 <=? code) && (code <=? 122) then code - 97 + 10
  else if (65 <=? code) && (code <=? 90) then code - 65 + 10
  else -1.

Definition is_integer_conv (c : Z) : bool := is_one_of c "diuoxXpb".
Definition is_float_conv (c : Z) : bool := is_one_of c "aAeEfFgG".
Definition is_stringish_conv (c : Z) : bool := is_one_of c "cs[CS".
Definition spec_skips_leading_space (spec : ScanDirective) : bool := negb (is_one_of (conv spec) "c[nC").

(** "0x" or "0b" with a digit behind it. *)
Definition scan_prefix (wide_input : bool) (lower upper : Z) (base : Z) (l : list Z) : bool :=
  match l with
  | a :: b :: d :: _ =>
      ascii_equals wide_input a (ch "0") && (ascii_equals wide_input b lower || ascii_equals wide_input b upper) &&
      ((0 <=? scan_digit wide_input d) && (scan_digit wide_input d <? base))
  | _ => false
  end.

(** Digits from the left in 128 bits: how many, and their value. *)
Fixpoint scan_digits (wide_input : bool) (base value : Z) (l : list Z) : nat * Z :=
  match l with
  | c :: t =>
      let digit := scan_digit wide_input c in
      if (digit <? 0) || (base <=? digit) then (O, value)
      else let '(n, v) := scan_digits wide_input base ((value * base + digit) mod 2 ^ 128) t in (S n, v)
  | [] => (O, value)
  end.

Definition limit_of (spec : ScanDirective) (remaining : nat) : nat := if has_width spec then Nat.min remaining (Z.to_nat (width spec)) else remaining.

(** The bits and the number of characters used; [l] is what is left of the input. *)
Definition parse_integer_value (wide_input : bool) (l : list Z) (spec : ScanDirective) : option (Z * nat) :=
  let l := take (limit_of spec (length l)) l in
  match l with
  | [] => None
  | c :: _ =>
      let is_sign := ascii_is_sign wide_input c && negb (conv spec =? ch "p") in
      let negative := is_sign && ascii_equals wide_input c (ch "-") in
      let cursor := if is_sign then 1%nat else O in
      let body := drop cursor l in
      match body with
      | [] => None
      | d :: _ =>
          let hex := scan_prefix wide_input (ch "x") (ch "X") 16 body in
          let bin := scan_prefix wide_input (ch "b") (ch "B") 2 body in
          let '(base, skip) :=
            if is_one_of (conv spec) "du" then (10, O)
            else if conv spec =? ch "o" then (8, O)
            else if is_one_of (conv spec) "xXp" then (16, if hex then 2%nat else O)
            else if conv spec =? ch "b" then (2, if bin then 2%nat else O)
            else if ascii_equals wide_input d (ch "0")
            then (if hex then (16, 2%nat) else if bin then (2, 2%nat) else (8, O))
            else (10, O) in
          let '(n, value) := scan_digits wide_input base 0 (drop skip body) in
          match n with
          | O => None
          | _ => let magnitude := u64 value in Some (if negative then u64 (0 - magnitude) else magnitude, (cursor + skip + n)%nat)
          end
      end
  end.

(** The fast types of the host have 8 bytes but for the smallest. *)
Definition fast_integer_size (bits : Z) : Z := if bits =? 8 then 1 else if (bits =? 16) || (bits =? 32) || (bits =? 64) then 8 else 0.
Definition storage_size_for_integer (spec : ScanDirective) : Z :=
  match scan_length spec with
  | SExactW => scan_bits spec / 8
  | SFastW => fast_integer_size (scan_bits spec)
  | SHH => 1
  | SH => 2
  | SL | SLL | SJ | SZ | ST => 8
  | SNone => if conv spec =? ch "p" then 8 else 4
  | SBigL => 4
  end.

(** * Scan sets *)

(** The members, below 256, and whether the set is negated. *)
Record ParsedScanSet := { table : list Z; negate : bool }.
Definition set_matches (set : ParsedScanSet) (codepoint : Z) : bool :=
  let in_set := bool_decide (codepoint ∈ table set) in if negate set then negb in_set else in_set.

(** The characters from [a] + 1 to [b]. *)
Definition scan_range (a b : Z) : list Z := map (fun i => a + 1 + Z.of_nat i) (seq 0 (Z.to_nat (b - a))).

(** The loop over the body; [prev] is -1 at first. *)
Fixpoint scanset_loop (fuel : nat) (l : list Z) (prev : Z) (members : list Z) : list Z :=
  match fuel, l with
  | S fuel, c :: t =>
      match t with
      | e :: t' =>
          if (c =? ch "-") && negb (prev =? -1) && negb (e =? ch "]") && (prev <=? e)
          then scanset_loop fuel t' e (members ++ scan_range prev e)
          else scanset_loop fuel t c (members ++ [c])
      | [] => members ++ [c]
      end
  | _, _ => members
  end.

(** Position of the first and the last occurrence. *)
Fixpoint find_first (c : Z) (l : list Z) : option nat := match l with x :: t => if x =? c then Some O else S <$> find_first c t | [] => None end.
Fixpoint find_last (c : Z) (l : list Z) : option nat :=
  match l with x :: t => match find_last c t with Some i => Some (S i) | None => if x =? c then Some O else None end | [] => None end.

Definition parse_scanset (spec : ScanDirective) : ParsedScanSet :=
  match find_first (ch "[") (original spec), find_last (ch "]") (original spec) with
  | Some op, Some cl =>
      if (cl <=? op)%nat then {| table := []; negate := false |}
      else
        let body := take (cl - op - 1) (drop (S op) (original spec)) in
        let '(neg, body) := match body with c :: t => if c =? ch "^" then (true, t) else (false, body) | [] => (false, body) end in
        let '(prev, members, body) :=
          match body with c :: t => if (c =? ch "]") || (c =? ch "-") then (c, [c], t) else (-1, [], body) | [] => (-1, [], body) end in
        {| table := scanset_loop (length body) body prev members; negate := neg |}
  | _, _ => {| table := []; negate := false |}
  end.

(** How many characters of the input are in the set. *)
Fixpoint count_matches (set : ParsedScanSet) (l : list Z) : nat :=
  match l with c :: t => if set_matches set c then S (count_matches set t) else O | [] => O end.

(** * The host's scanf *)

(** What a conversion stores: nothing, a number of so many bytes, an array of so many
    zeroed units, or a pointer to fresh memory. *)
Inductive ScanDest := DNone | DNumber (bytes : Z) | DUnits (n : nat) | DAllocated.
Record HostScanned := { hs_rc : Z; hs_count : Z; hs_units : option (list Z) }.

Class HostScan := {
  host_scan : bool -> list Z -> list Z -> ScanDest -> HostScanned;
  iswspace : Z -> bool;
  MB_CUR_MAX : nat;
}.

Section Scan.
Context {S : Type} `{M : !Machine S, HV : !HostView S, HO : !HeapOps S, F : !FpRegs S, H : !HostScan}.
Implicit Types s : S.
Notation prog := (hle S).

Definition input_is_space (wide_input : bool) (c : Z) : bool := if wide_input then iswspace c else isspace c.
Fixpoint skip_input_space (wide_input : bool) (l : list Z) : list Z :=
  match l with c :: t => if input_is_space wide_input c then skip_input_space wide_input t else l | [] => [] end.

Definition write_integer_bits (addr bits size : Z) : prog unit :=
  mem_wr addr (le_bytes (if size =? 1 then 1%nat else if size =? 2 then 2%nat else if size =? 4 then 4%nat else 8%nat) bits).

(** Units as bytes: characters, or wide characters. *)
Definition unit_bytes (wide_dest : bool) (units : list Z) : list Z := if wide_dest then mjoin (le_bytes 4 <$> units) else map (fun c => c mod 256) units.
Definition unit_size (wide_dest : bool) : Z := if wide_dest then 4 else 1.

(** Fresh guest memory with these bytes, its address stored through [arg_ptr]. *)
Definition store_allocated (arg_ptr : Z) (bytes : list Z) : prog unit :=
  guest_ptr ← allocate (Z.of_nat (length bytes)) 8;
  mem_wr guest_ptr bytes;;
  mem_wr arg_ptr (le_bytes 8 guest_ptr).

Definition char_width (spec : ScanDirective) : nat := if has_width spec then Z.to_nat (width spec) else 1.

Definition handle_manual_alloc_char_scan (l : list Z) (spec : ScanDirective) (arg_ptr : Z) : prog (option nat) :=
  let width := Nat.min (char_width spec) (length l) in
  if (width =? 0)%nat then mret None
  else
    let wide_dest := (conv spec =? ch "C") || match scan_length spec with SL => true | _ => false end in
    store_allocated arg_ptr (unit_bytes wide_dest (take width l));;
    mret (Some width).

Definition handle_manual_scanset_scan (l : list Z) (spec : ScanDirective) (arg_ptr : Z) : prog (option nat) :=
  let width := count_matches (parse_scanset spec) (take (limit_of spec (length l)) l) in
  if (width =? 0)%nat then mret None
  else
    let wide_dest := (conv spec =? ch "S") || match scan_length spec with SL => true | _ => false end in
    let value := unit_bytes wide_dest (take width l ++ [0]) in
    (if suppress spec then mret tt else if assign_alloc spec then store_allocated arg_ptr value else mem_wr arg_ptr value);;
    mret (Some width).

(** The format for the host: the directive's own text and [%n]; the wide one is
    decoded as far as it is UTF-8. *)
Fixpoint utf8_to_wide (fuel : nat) (l : list Z) : list Z :=
  match fuel with
  | O => []
  | Datatypes.S fuel =>
      match decode_utf8 l (Z.of_nat (length l)) with
      | Ok wc consumed => if consumed =? 0 then [] else wc :: utf8_to_wide fuel (drop (Z.to_nat consumed) l)
      | _ => []
      end
  end.
Definition host_format (wide_input : bool) (spec : ScanDirective) : list Z :=
  let fmt := original spec ++ text "%n" in if wide_input then utf8_to_wide (length fmt) fmt else fmt.

Definition handle_host_float_scan (wide_input : bool) (l : list Z) (spec : ScanDirective) (arg_ptr : Z) : prog (option nat) :=
  let fmt := host_format wide_input spec in
  if suppress spec then
    let r := host_scan wide_input l fmt DNone in
    mret (if (hs_rc r =? 0) && (0 <? hs_count r) then Some (Z.to_nat (hs_count r)) else None)
  else
    let size := match scan_length spec with SL => 8 | SBigL => 16 | _ => 4 end in
    let r := host_scan wide_input l fmt (DNumber size) in
    if negb (hs_rc r =? 1) || (hs_count r <=? 0) then mret None
    else mem_wr arg_ptr (default [] (hs_units r));; mret (Some (Z.to_nat (hs_count r))).

(** [n] units of an array; the string in it with its terminator. *)
Definition units_of (n : nat) (units : list Z) : prog (list Z) := if (n <=? length units)%nat then mret (take n units) else overrun.
Definition string_of (units : list Z) : prog (list Z) :=
  match find_first 0 units with Some i => mret (take (Datatypes.S i) units) | None => overrun end.

Definition handle_host_string_scan (wide_input : bool) (l : list Z) (spec : ScanDirective) (arg_ptr : Z) : prog (option nat) :=
  let wide_dest := is_one_of (conv spec) "CS" || match scan_length spec with SL => true | _ => false end in
  let is_char := (conv spec =? ch "c") || (wide_dest && (conv spec =? ch "C")) in
  let fmt := host_format wide_input spec in
  let used r := Some (Z.to_nat (hs_count r)) in
  if suppress spec then
    let r := host_scan wide_input l fmt DNone in
    mret (if (hs_rc r =? 0) && (0 <? hs_count r) then used r else None)
  else if assign_alloc spec && negb wide_input then
    let r := host_scan wide_input l fmt DAllocated in
    match hs_units r with
    | None => mret None
    | Some value =>
        if negb (hs_rc r =? 1) || (hs_count r <=? 0) then mret None
        else
          units ← (if is_char then units_of (char_width spec) value else string_of value);
          store_allocated arg_ptr (unit_bytes wide_dest units);; mret (used r)
    end
  else
    let n := if wide_dest then Datatypes.S (limit_of spec (length l))
             else if wide_input then Datatypes.S (limit_of spec (length l) * MB_CUR_MAX) else Datatypes.S (limit_of spec (length l)) in
    let r := host_scan wide_input l fmt (DUnits n) in
    if negb (hs_rc r =? 1) || (hs_count r <=? 0) then mret None
    else
      let value := default [] (hs_units r) in
      units ← (if is_char then units_of (char_width spec) value else string_of value);
      mem_wr arg_ptr (unit_bytes wide_dest units);; mret (used r).

Definition handle_conversion (wide_input : bool) (l : list Z) (spec : ScanDirective) (arg_ptr : Z) : prog (option nat) :=
  if is_integer_conv (conv spec) then
    match parse_integer_value wide_input l spec with
    | None => mret None
    | Some (bits, consumed) =>
        (if negb (suppress spec) then write_integer_bits arg_ptr bits (storage_size_for_integer spec) else mret tt);;
        mret (Some consumed)
    end
  else if is_float_conv (conv spec) then handle_host_float_scan wide_input l spec arg_ptr
  else if is_stringish_conv (conv spec) then
    if conv spec =? ch "[" then handle_manual_scanset_scan l spec arg_ptr
    else if assign_alloc spec && is_one_of (conv spec) "cC" then
      if suppress spec then
        let consumed := Nat.min (char_width spec) (length l) in
        mret (if (0 <? consumed)%nat then Some consumed else None)
      else handle_manual_alloc_char_scan l spec arg_ptr
    else handle_host_string_scan wide_input l spec arg_ptr
  else mret None.

(** * The loop *)

Record HleScanResult := { sr_ok : bool; sr_result : Z; sr_error : Z }.
Definition scanned (assigned : Z) : HleScanResult := {| sr_ok := true; sr_result := assigned; sr_error := 0 |}.
Definition at_end (assigned : Z) : HleScanResult := scanned (if assigned =? 0 then -1 else assigned).

(** A literal: what is left of the input, or the result of the call. *)
Fixpoint match_literal (wide_input : bool) (literal l : list Z) (assigned : Z) : list Z + HleScanResult :=
  match literal with
  | [] => inl l
  | fc :: rest =>
      if isspace fc then match_literal wide_input rest (skip_input_space wide_input l) assigned
      else
        match l with
        | [] => inr (at_end assigned)
        | c :: t => if negb (ascii_equals wide_input c fc) then inr (scanned assigned) else match_literal wide_input rest t assigned
        end
  end.

(** [l] is the input from position [pos] on. *)
Fixpoint scan_with_input `{!ArgSource T} (wide_input : bool) (tokens : list ScanToken) (l : list Z) (pos : nat) (assigned : Z) (source : T) : prog HleScanResult :=
  match tokens with
  | [] => mret (scanned assigned)
  | ScanLiteral literal :: tokens =>
      match match_literal wide_input literal l assigned with
      | inr r => mret r
      | inl l' => scan_with_input wide_input tokens l' (pos + (length l - length l')) assigned source
      end
  | ScanConversion spec :: tokens =>
      let l' := if spec_skips_leading_space spec then skip_input_space wide_input l else l in
      let pos := (pos + (length l - length l'))%nat in
      if conv spec =? ch "n" then
        if suppress spec then scan_with_input wide_input tokens l' pos assigned source
        else
          '(arg_ptr, source) ← (fun s => Ret (next_gp_raw s source) s);
          write_integer_bits arg_ptr (Z.of_nat pos) (storage_size_for_integer spec);;
          scan_with_input wide_input tokens l' pos assigned source
      else
        match l' with
        | [] => mret (at_end assigned)
        | _ =>
            '(arg_ptr, source) ← (if suppress spec then mret (0, source) else fun s => Ret (next_gp_raw s source) s);
            r ← handle_conversion wide_input l' spec arg_ptr;
            match r with
            | None => mret (scanned assigned)
            | Some consumed =>
                scan_with_input wide_input tokens (drop consumed l') (pos + consumed) (if suppress spec then assigned else assigned + 1) source
            end
        end
  end.

Definition scan_with_source `{!ArgSource T} (input_addr fmt_addr : Z) (wide_strings : bool) (source : T) : prog HleScanResult := fun s =>
  let fmt := if wide_strings then read_wide_string_utf8 fmt_addr s else read_c_string fmt_addr s in
  match parse_scan_format fmt with
  | POk tokens =>
      let input := if wide_strings then read_wide_string input_addr s else read_c_string input_addr s in
      scan_with_input wide_strings tokens input 0 0 source s
  | PErr e => Ret {| sr_ok := false; sr_result := -1; sr_error := e |} s
  | PThrow => Thrown s
  end.

Definition hle_scan_from_regs (input_addr fmt_addr first_arg_reg : Z) (wide_strings : bool) : prog HleScanResult := fun s =>
  scan_with_source input_addr fmt_addr wide_strings (register_source first_arg_reg s) s.
Definition hle_scan_from_va_list (input_addr fmt_addr va_list_addr : Z) (wide_strings : bool) : prog HleScanResult := fun s =>
  scan_with_source input_addr fmt_addr wide_strings (va_list_source va_list_addr s) s.

(** * The functions *)

Definition scan_done (r : HleScanResult) : prog unit :=
  (if negb (sr_ok r) then hle_set_errno (sr_error r) else mret tt);; set_x X0 (sr_result r).
Definition sscanf : prog unit := a ← get_x X0; fmt ← get_x X1; r ← hle_scan_from_regs a fmt 2 false; scan_done r.
Definition isoc99_sscanf : prog unit := a ← get_x X0; fmt ← get_x X1; r ← hle_scan_from_regs a fmt 2 false; scan_done r.
Definition swscanf : prog unit := a ← get_x X0; fmt ← get_x X1; r ← hle_scan_from_regs a fmt 2 true; scan_done r.
Definition vsscanf : prog unit := a ← get_x X0; fmt ← get_x X1; va ← get_x X2; r ← hle_scan_from_va_list a fmt va false; scan_done r.

End Scan.
