(* ===== verification/HleScanSpec.v ===== *)
(** sscanf reads back what integers are printed as. *)

From S2P Require Import Prelude Env HeapAllocator MemoryManager MemorySpec Machine HostAccess HleMonad HleErrno MappedSpec SyscallHandler HlePrintf HleSearch HleSearchHeap Utf8 HleMultibyte HleMultibyteSpec HleMbsSpec HleStdlib HleStrtoSpec HleScan.
From Stdlib Require Import Ascii String.
#[local] Open Scope Z_scope.
#[local] Notation length := Datatypes.length.

(** * Integers in the input *)

Lemma scan_digit_value c : 0 <= c < 256 -> scan_digit false c = default (-1) (digit_value c).
Proof.
  intros Hc. unfold scan_digit, char_code, digit_value, u32, two32.
  destruct (Z.ltb_spec c 128).
  - repeat case_match; cbn in *; lia.
  - rewrite <- (Z.mod_add _ 1), Z.mod_small by lia. repeat case_match; cbn in *; lia.
Qed.

(** The engine's digits are those of strtol, in 128 bits. *)
Lemma scan_digits_value b l : forall v, Forall (fun c => 0 <= c < 256) l -> 2 <= b <= 36 ->
  scan_digits false b (v mod 2 ^ 128) l = ((digits b v l).1, (digits b v l).2 mod 2 ^ 128).
Proof.
  induction l as [|c l IH]; intros v Hl Hb; [done|]. apply Forall_cons in Hl as [Hc Hl]. cbn [scan_digits digits]. rewrite scan_digit_value by done. unfold digit_in.
  destruct (digit_value c) as [d|] eqn:E; cbn [from_option]; unfold id; [|done].
  assert (0 <= d) by (unfold digit_value in E; repeat case_match; simplify_eq; lia). destruct (Z.ltb_spec d b).
  - rewrite (proj2 (Z.ltb_ge d 0)), (proj2 (Z.leb_gt b d)) by lia. cbn [orb].
    rewrite <- Z.add_mod_idemp_l, Z.mul_mod_idemp_l, Z.add_mod_idemp_l by done. rewrite IH by done. by destruct (digits b (v * b + d) l).
  - rewrite (proj2 (Z.leb_le b d)), orb_true_r by lia. done.
Qed.

Lemma u64_mod128 x : u64 (x mod 2 ^ 128) = u64 x.
Proof.
  unfold u64. rewrite (Z.mod_eq x (2 ^ 128)) by done. replace (x - 2 ^ 128 * (x / 2 ^ 128)) with (x + (- 2 ^ 64 * (x / 2 ^ 128)) * two64) by (unfold two64; lia).
  apply Z_mod_plus_full.
Qed.

(** What may follow a number: white space or nothing. *)
Definition blank (l : list Z) : Prop := match l with c :: _ => isspace c = true | [] => True end.

Lemma blank_ends l : blank l -> number_ends 10 l.
Proof.
  destruct l as [|c l]; [done|]. cbn. unfold isspace, digit_in, digit_value. intros Hc.
  assert (c = 32 \/ 9 <= c <= 13) by lia. split_and!; [|lia..]. repeat case_match; try done; lia.
Qed.

(** A directive for decimal integers without a width. *)
Definition decimal (spec : ScanDirective) : Prop := conv spec = ch "d" /\ has_width spec = false.

Lemma parse_integer_numeral v rest spec : decimal spec -> blank rest -> Forall (fun c => 0 <= c < 256) rest ->
  parse_integer_value false (signed_numeral 10 v ++ rest) spec = Some (u64 v, length (signed_numeral 10 v)).
Proof.
  intros [Hc Hw] Hbl Hr. unfold parse_integer_value, limit_of. rewrite Hw, firstn_all. cbv zeta.
  destruct (numeral_body 10 (Z.abs v) rest ltac:(lia) ltac:(lia) (blank_ends _ Hbl)) as (c & t & E & Hcr & _ & _ & Hd).
  assert (Hall : Forall (fun c => 0 <= c < 256) (c :: t)).
  { rewrite <- E. apply Forall_app. split; [|done]. destruct (numeral_ok 10 (Z.abs v)) as [Hn _]; [lia|lia|]. eapply Forall_impl; [exact Hn|]. cbn. lia. }
  pose proof (scan_digits_value 10 (c :: t) 0 Hall ltac:(lia)) as Hs. rewrite Hd in Hs. cbn [fst snd] in Hs. rewrite Z.mod_0_l in Hs by done.
  assert (Hsg : ascii_is_sign false c = false /\ char_code false c = c).
  { unfold ascii_is_sign, ascii_equals, char_code. rewrite (proj2 (Z.ltb_lt c 128)) by lia. split; [|done]. change (ch "+") with 43. change (ch "-") with 45. lia. }
  destruct (length (numeral 10 (Z.abs v))) as [|n] eqn:El; [apply length_zero_iff_nil in El; by apply numeral_nonempty in El|].
  unfold signed_numeral. rewrite Hc. destruct (Z.ltb_spec v 0) as [Hn|Hn].
  - rewrite (Z.abs_neq v) in * by lia. rewrite <- app_comm_cons, E. cbn [drop]. change (ascii_is_sign false 45 && negb (ch "d" =? ch "p")) with true. cbn [andb drop].
    change (is_one_of (ch "d") "du") with true. cbv iota. cbn [drop]. rewrite Hs. change (ascii_equals false 45 (ch "-")) with true. cbv iota. cbn [length]. rewrite El. rewrite u64_mod128. do 2 f_equal. unfold u64. rewrite Zminus_mod_idemp_r. f_equal. lia.
  - rewrite (Z.abs_eq v) in * by lia. rewrite E. destruct Hsg as [-> _]. cbn [andb drop]. change (is_one_of (ch "d") "du") with true. cbv iota. cbn [drop]. rewrite Hs, El, u64_mod128. done.
Qed.

(** * The format *)

(** The sizes of integers: char, short, int and long. *)
Inductive int_size := IChar | IShort | IInt | ILong.
Definition size_bytes (z : int_size) : nat := match z with IChar => 1 | IShort => 2 | IInt => 4 | ILong => 8 end.
Definition size_text (z : int_size) : string := match z with IChar => "hh" | IShort => "h" | IInt => "" | ILong => "l" end.
Definition size_mod (z : int_size) : ScanLengthMod := match z with IChar => SHH | IShort => SH | IInt => SNone | ILong => SL end.

Definition decimal_spec (z : int_size) : ScanDirective :=
  {| original := ch "%" :: text (size_text z) ++ text "d"; suppress := false; assign_alloc := false; has_width := false; width := 0;
     scan_length := size_mod z; scan_bits := 0; conv := ch "d" |}.

(** "%d" with its size, and a space before the next one. *)
Fixpoint decimal_format (zs : list int_size) : list Z :=
  match zs with
  | [] => []
  | [z] => ch "%" :: text (size_text z) ++ text "d"
  | z :: zs => (ch "%" :: text (size_text z) ++ text "d") ++ text " " ++ decimal_format zs
  end.
Fixpoint decimal_tokens (zs : list int_size) : list ScanToken :=
  match zs with
  | [] => []
  | [z] => [ScanConversion (decimal_spec z)]
  | z :: zs => ScanConversion (decimal_spec z) :: ScanLiteral (text " ") :: decimal_tokens zs
  end.

Lemma scan_directive_decimal z rest : scan_directive (text (size_text z) ++ text "d" ++ rest) = POk (decimal_spec z, rest).
Proof.
  assert (Ht : forall k, (k + Datatypes.length rest - Datatypes.length rest)%nat = k) by lia.
  destruct z; lazy -[take Nat.sub Datatypes.length Nat.add]; cbn [Datatypes.length];
    [pose proof (Ht 3%nat) as E|pose proof (Ht 2%nat) as E|pose proof (Ht 1%nat) as E|pose proof (Ht 2%nat) as E]; cbn [Nat.add] in E; rewrite E; reflexivity.
Qed.

Lemma parse_step z l fuel pending tokens :
  scan_parse_loop (S fuel) (ch "%" :: text (size_text z) ++ text "d" ++ l) pending tokens = scan_parse_loop fuel l [] (flush_scan pending tokens ++ [ScanConversion (decimal_spec z)]).
Proof.
  cbn [scan_parse_loop]. change (ch "%" =? ch "%") with true. cbn [negb]. pose proof (scan_directive_decimal z l) as Hd.
  destruct (text (size_text z) ++ text "d" ++ l) as [|c r] eqn:E; [by destruct z|]. assert ((c =? ch "%") = false) as -> by (by destruct z; injection E as <- _). by rewrite Hd.
Qed.

Lemma parse_decimal zs : forall z fuel pending tokens, (Datatypes.length (decimal_format (z :: zs)) < fuel)%nat ->
  scan_parse_loop fuel (decimal_format (z :: zs)) pending tokens = POk (flush_scan pending tokens ++ decimal_tokens (z :: zs)).
Proof.
  induction zs as [|z' zs IH]; intros z fuel pending tokens Hf; (destruct fuel as [|fuel]; [lia|]).
  - cbn [decimal_format decimal_tokens] in *. rewrite <- (app_nil_r (text "d")), parse_step. cbn [Datatypes.length] in Hf. destruct fuel as [|fuel]; [lia|]. done.
  - assert (Hfmt : decimal_format (z :: z' :: zs) = ch "%" :: text (size_text z) ++ text "d" ++ 32 :: decimal_format (z' :: zs)) by (cbn [decimal_format app]; by rewrite <- app_assoc).
    rewrite Hfmt in Hf |- *. rewrite parse_step. cbn [Datatypes.length] in Hf. rewrite !length_app in Hf. cbn [Datatypes.length] in Hf.
    destruct fuel as [|fuel]; [lia|]. cbn [scan_parse_loop]. change (32 =? ch "%") with false. cbn [negb app]. rewrite IH by lia. cbn [flush_scan]. by rewrite <- !app_assoc.
Qed.

Lemma parse_decimal_format zs : parse_scan_format (decimal_format zs) = POk (decimal_tokens zs).
Proof. destruct zs as [|z zs]; [done|]. unfold parse_scan_format. rewrite parse_decimal by lia. done. Qed.

(** * The input *)

(** Numbers with white space before them: at least one blank before all but the
    first. *)
Record item := { it_size : int_size; it_space : list Z; it_value : Z }.
Definition item_text (i : item) : list Z := it_space i ++ signed_numeral 10 (it_value i).
Definition input_text (items : list item) : list Z := mjoin (item_text <$> items).
Definition item_ok (i : item) : Prop := Forall (fun c => isspace c = true) (it_space i).
Definition separated (items : list item) : Prop := Forall item_ok items /\ Forall (fun i => it_space i <> []) (tail items).

Lemma input_cons i items : input_text (i :: items) = it_space i ++ signed_numeral 10 (it_value i) ++ input_text items.
Proof. unfold input_text, item_text. cbn. by rewrite <- app_assoc. Qed.

Lemma isspace_byte c : isspace c = true -> 0 < c < 128.
Proof. unfold isspace. lia. Qed.

Lemma numeral_chars v : Forall (fun c => 0 < c < 128 /\ isspace c = false) (signed_numeral 10 v).
Proof.
  assert (Hn : Forall (fun c => 0 < c < 128 /\ isspace c = false) (numeral 10 (Z.abs v))).
  { destruct (numeral_ok 10 (Z.abs v)) as [Hn _]; [lia|lia|]. eapply Forall_impl; [exact Hn|]. cbn. intros c [_ Hc]. unfold isspace. lia. }
  unfold signed_numeral. destruct (Z.ltb_spec v 0); [rewrite <- (Z.abs_neq v) by lia; constructor; [done|exact Hn]|rewrite <- (Z.abs_eq v) by lia; exact Hn].
Qed.

Lemma signed_nonempty b v : signed_numeral b v <> [].
Proof. unfold signed_numeral. destruct (v <? 0); [done|]. apply numeral_nonempty. Qed.

Section Scanning.
Context {S : Type} `{M : !Machine S, L : !MemLaws S, R : !RegFileLaws S, V : !HostView S, HL : !HostLaws S, HO : !HeapOps S, F : !FpRegs S, H : !HostScan}.
Implicit Types s : S.

Lemma skip_spaces sp l : Forall (fun c => isspace c = true) sp -> (match l with c :: _ => isspace c = false | [] => True end) -> skip_input_space false (sp ++ l) = l.
Proof.
  intros Hsp Hl. induction Hsp as [|c sp Hc _ IH]; cbn; [|by rewrite Hc]. destruct l as [|c l]; [done|]. cbn. by rewrite Hl.
Qed.

Lemma input_blank items : Forall item_ok items -> Forall (fun i => it_space i <> []) items -> blank (input_text items).
Proof.
  intros Hok Hne. destruct items as [|i items]; [done|]. rewrite input_cons. apply Forall_cons in Hok as [Hok _]. apply Forall_cons in Hne as [Hne _]. unfold item_ok in Hok.
  destruct (it_space i) as [|c sp]; [done|]. by apply Forall_cons in Hok as [? _].
Qed.

Lemma input_bytes items : Forall item_ok items -> Forall (fun c => 0 < c < 256) (input_text items).
Proof.
  induction 1 as [|i items Hi _ IH]; [constructor|]. rewrite input_cons. apply Forall_app. split; [eapply Forall_impl; [exact Hi|]; intros c Hc%isspace_byte; lia|].
  apply Forall_app. split; [|done]. eapply Forall_impl; [apply numeral_chars|]. cbn. lia.
Qed.

(** Memory after the conversions: one value behind each pointer. *)
Fixpoint scan_map (f : Z -> option Z) (items : list item) (ptrs : list Z) : Z -> option Z :=
  match items, ptrs with
  | i :: items, p :: ptrs => scan_map (stored f p (le_bytes (size_bytes (it_size i)) (it_value i))) items ptrs
  | _, _ => f
  end.

(** The pointers in the argument registers from number [k] on. *)
Fixpoint arg_regs (n : nat) (k : Z) s : list Z := match n with O => [] | Datatypes.S n => getr k s :: arg_regs n (k + 1) s end.

Lemma storage_decimal z : storage_size_for_integer (decimal_spec z) = Z.of_nat (size_bytes z).
Proof. by destruct z. Qed.
Lemma le_bytes_mod n : forall m v, (n <= m)%nat -> le_bytes n (v mod 256 ^ Z.of_nat m) = le_bytes n v.
Proof.
  induction n as [|n IH]; intros m v Hm; [done|]. destruct m as [|m]; [lia|]. cbn [le_bytes]. rewrite Nat2Z.inj_succ, Z.pow_succ_r, Z.rem_mul_r by lia. f_equal.
  - rewrite (Z.mul_comm 256), Z_mod_plus_full, Z.mod_mod by done. done.
  - rewrite (Z.mul_comm 256), Z.div_add, (Z.div_small (v mod 256)) by (done || (apply Z.mod_pos_bound; lia)). rewrite Z.add_0_l. apply IH. lia.
Qed.
Lemma le_bytes_u64 z v : le_bytes (size_bytes z) (u64 v) = le_bytes (size_bytes z) v.
Proof. unfold u64. change two64 with (256 ^ Z.of_nat 8). apply le_bytes_mod. destruct z; cbn; lia. Qed.

Lemma wp_conversion {B} z v rest p (k : option nat -> hle S B) Q s0 f s : became s0 f s -> blank rest -> Forall (fun c => 0 < c < 256) rest -> mapped p (Z.of_nat (size_bytes z)) s0 ->
  (forall s', became s0 (stored f p (le_bytes (size_bytes z) v)) s' -> wp (k (Some (Datatypes.length (signed_numeral 10 v)))) Q s') ->
  wp (handle_conversion false (signed_numeral 10 v ++ rest) (decimal_spec z) p ≫= k) Q s.
Proof.
  intros Hb Hbl Hr Hm Hk. apply wp_bind. unfold handle_conversion. change (is_integer_conv (conv (decimal_spec z))) with true. cbv iota.
  rewrite parse_integer_numeral; [|done|done|eapply Forall_impl; [exact Hr|]; cbn; lia]. cbn [suppress decimal_spec negb]. unfold write_integer_bits.
  assert (Hsz : (if storage_size_for_integer (decimal_spec z) =? 1 then 1%nat else if storage_size_for_integer (decimal_spec z) =? 2 then 2%nat else if storage_size_for_integer (decimal_spec z) =? 4 then 4%nat else 8%nat) = size_bytes z) by by destruct z.
  rewrite Hsz, le_bytes_u64. eapply wp_wr; [exact Hb|by rewrite length_le_bytes|by destruct z|]. intros s' H'. apply wp_ret. by apply Hk.
Qed.

(** One directive. *)
Lemma wp_directive z v l rest pos assigned (src : RegisterArgSource) tokens Q f s0 s : skip_input_space false l = signed_numeral 10 v ++ rest -> blank rest -> Forall (fun c => 0 < c < 256) rest ->
  became s0 f s -> next_gp_reg src <= 7 -> mapped (getr (next_gp_reg src) s0) (Z.of_nat (size_bytes z)) s0 ->
  (forall pos' src' s', next_gp_reg src' = next_gp_reg src + 1 -> became s0 (stored f (getr (next_gp_reg src) s0) (le_bytes (size_bytes z) v)) s' ->
    wp (scan_with_input false tokens rest pos' (assigned + 1) src') Q s') ->
  wp (scan_with_input false (ScanConversion (decimal_spec z) :: tokens) l pos assigned src) Q s.
Proof.
  intros Hl Hbl Hr Hb Hk Hm Hnext. cbn [scan_with_input]. change (spec_skips_leading_space (decimal_spec z)) with true. change (conv (decimal_spec z) =? ch "n") with false. change (suppress (decimal_spec z)) with false. cbv iota zeta.
  rewrite Hl. destruct (signed_numeral 10 v ++ rest) as [|c t] eqn:E; [by apply app_nil in E as [?%signed_nonempty _]|]. rewrite <- E.
  apply wp_bind. unfold wp at 1, next_gp_raw, register_args, reg_next_gp_raw. rewrite (proj2 (Z.leb_le _ 7)) by done. rewrite (bc_reg _ _ _ Hb).
  eapply wp_conversion; [exact Hb|done|done|done|]. intros s' H'. rewrite drop_app_length. by apply Hnext.
Qed.

Lemma scan_items items : forall i l pos assigned (src : RegisterArgSource) f s0 s, skip_input_space false l = signed_numeral 10 (it_value i) ++ input_text items ->
  Forall item_ok items -> Forall (fun i => it_space i <> []) items -> became s0 f s -> next_gp_reg src + Z.of_nat (Datatypes.length items) <= 7 ->
  Forall2 (fun i p => mapped p (Z.of_nat (size_bytes (it_size i))) s0) (i :: items) (arg_regs (Datatypes.length (i :: items)) (next_gp_reg src) s0) ->
  wp (scan_with_input false (decimal_tokens (map it_size (i :: items))) l pos assigned src)
    (fun r s' => r = scanned (assigned + Z.of_nat (Datatypes.length (i :: items))) /\ became s0 (scan_map f (i :: items) (arg_regs (Datatypes.length (i :: items)) (next_gp_reg src) s0)) s') s.
Proof.
  induction items as [|i' items IH]; intros i l pos assigned src f s0 s Hl Hok Hne Hb Hk Hm; apply Forall2_cons in Hm as [Hm1 Hm2].
  - cbn [map decimal_tokens]. eapply wp_directive; [exact Hl|done|constructor|exact Hb|cbn in Hk; lia|done|]. intros pos' src' s' _ H'. by apply wp_ret.
  - change (decimal_tokens (map it_size (i :: i' :: items))) with (ScanConversion (decimal_spec (it_size i)) :: ScanLiteral (text " ") :: decimal_tokens (map it_size (i' :: items))).
    cbn [Datatypes.length] in Hk. eapply wp_directive; [exact Hl|by apply input_blank|by apply input_bytes|exact Hb|lia|done|]. intros pos' src' s' Hsrc H'.
    apply Forall_cons in Hok as [Hi' Hok]. apply Forall_cons in Hne as [_ Hne].
    assert (Hsk : skip_input_space false (input_text (i' :: items)) = signed_numeral 10 (it_value i') ++ input_text items).
    { rewrite input_cons. apply skip_spaces; [exact Hi'|]. pose proof (numeral_chars (it_value i')) as Hc. destruct (signed_numeral 10 (it_value i')) eqn:E; [by apply signed_nonempty in E|]. by apply Forall_cons in Hc as [[_ Hc] _]. }
    assert (Hsk2 : forall l, skip_input_space false (skip_input_space false l) = skip_input_space false l).
    { intros l'. induction l' as [|c l' IHl]; [done|]. cbn. destruct (isspace c) eqn:E; [done|]. cbn. by rewrite E. }
    cbn [scan_with_input match_literal text map list_ascii_of_string]. change (isspace (ch " ")) with true. cbv iota.
    change (Forall2 (fun i p => mapped p (Z.of_nat (size_bytes (it_size i))) s0) (i' :: items) (arg_regs (Datatypes.length (i' :: items)) (next_gp_reg src + 1) s0)) in Hm2. rewrite <- Hsrc in Hm2. replace (Z.of_nat (Datatypes.length (i :: i' :: items))) with (1 + Z.of_nat (Datatypes.length (i' :: items))) by (cbn [Datatypes.length]; lia).
    rewrite Z.add_assoc. change (arg_regs (Datatypes.length (i :: i' :: items)) (next_gp_reg src) s0) with (getr (next_gp_reg src) s0 :: arg_regs (Datatypes.length (i' :: items)) (next_gp_reg src + 1) s0). cbn [scan_map]. rewrite <- Hsrc. apply IH; [by rewrite Hsk2|done|done|exact H'|lia|exact Hm2].
Qed.
Lemma read_c_string_at a bs s : sane s -> chars_at a bs s -> a <> 0 -> (Datatypes.length bs < Z.to_nat kMaxStringLen)%nat -> read_c_string a s = bs.
Proof. intros Hs Hc Ha Hl. unfold read_c_string. rewrite (proj2 (Z.eqb_neq a 0)) by done. by apply read_chars_at. Qed.

(** C25: sscanf reads back what integers are printed as.  For any integers, at most six,
    printed in decimal with white space before them (at least one blank between two),
    and the format that asks for them in turn as char, short, int or long, sscanf
    returns their number, stores each behind its pointer, cut to the size that was
    asked for, and changes nothing else. *)
Theorem scan_reads_back items input fmt s : sane s -> separated items -> (Datatypes.length items <= 6)%nat ->
  chars_at input (input_text items) s -> chars_at fmt (decimal_format (map it_size items)) s -> input <> 0 -> fmt <> 0 ->
  (Datatypes.length (input_text items) < Z.to_nat kMaxStringLen)%nat -> (Datatypes.length (decimal_format (map it_size items)) < Z.to_nat kMaxStringLen)%nat ->
  getr X0 s = input -> getr X1 s = fmt ->
  Forall2 (fun i p => mapped p (Z.of_nat (size_bytes (it_size i))) s) items (arg_regs (Datatypes.length items) 2 s) ->
  wp sscanf (fun _ s' => returned s (scan_map (byte_at s) items (arg_regs (Datatypes.length items) 2 s)) (Z.of_nat (Datatypes.length items)) s') s.
Proof.
  intros Hs [Hok Hne] Hn Hin Hfm Hi0 Hf0 Hil Hfl E0 E1 Hm. unfold sscanf. do 2 apply wp_reg. rewrite E0, E1. apply wp_bind. unfold wp at 1, hle_scan_from_regs, scan_with_source. cbv iota.
  rewrite (read_c_string_at fmt _ s Hs Hfm Hf0 Hfl), (read_c_string_at input _ s Hs Hin Hi0 Hil), parse_decimal_format.
  assert (Hgo : wp (scan_with_input false (decimal_tokens (map it_size items)) (input_text items) 0 0 (register_source 2 s))
    (fun r s' => r = scanned (Z.of_nat (Datatypes.length items)) /\ became s (scan_map (byte_at s) items (arg_regs (Datatypes.length items) 2 s)) s') s).
  { destruct items as [|i items]; [apply wp_ret; split; [done|by apply became_refl]|]. apply Forall_cons in Hok as [Hi Hok]. cbn [tail] in Hne.
    apply (scan_items items i (input_text (i :: items)) 0 0 (register_source 2 s) (byte_at s) s s); [|done|done|by apply became_refl|cbn [next_gp_reg register_source Datatypes.length] in *; lia|exact Hm].
    rewrite input_cons. apply skip_spaces; [exact Hi|]. pose proof (numeral_chars (it_value i)) as Hc. destruct (signed_numeral 10 (it_value i)) eqn:E; [by apply signed_nonempty in E|]. by apply Forall_cons in Hc as [[_ Hc] _]. }
  unfold wp in Hgo. destruct (scan_with_input _ _ _ _ _ _ s) as [r s1|s1|]; [|done..]. destruct Hgo as [-> Hb]. unfold scan_done. cbn [sr_ok scanned negb]. apply wp_bind, wp_ret. eapply wp_set; [exact Hb|cbn; unfold two64; lia|done].
Qed.

(** ** Where the engine goes wrong *)

(** A byte outside ASCII never equals itself: [char] is signed on one side of the
    comparison and unsigned on the other, so that no literal with such bytes matches. *)
Theorem literal_outside_ascii c : 128 <= c < 256 -> ascii_equals false c c = false.
Proof.
  intros Hc. unfold ascii_equals, char_code, u32, two32. rewrite (proj2 (Z.ltb_ge c 128)) by lia. rewrite <- (Z.mod_add _ 1), Z.mod_small by lia. lia.
Qed.

(** "%Nc" with more characters asked for than there are: the array has room for the
    characters that are left and one more, but [N] of its elements are copied. *)
Theorem scan_char_overread l spec p u s : conv spec = ch "c" -> scan_length spec = SNone -> suppress spec = false -> assign_alloc spec = false -> has_width spec = true ->
  Z.of_nat (Datatypes.length l) + 1 < width spec ->
  host_scan false l (host_format false spec) (DUnits (Datatypes.S (Datatypes.length l))) = {| hs_rc := 1; hs_count := Z.of_nat (Datatypes.length l); hs_units := Some u |} ->
  Datatypes.length u = Datatypes.S (Datatypes.length l) -> l <> [] -> handle_host_string_scan false l spec p s = Segv.
Proof.
  intros Hc Hl Hs Ha Hw Hlen Hh Hu Hne. unfold handle_host_string_scan. rewrite Hc, Hl, Hs, Ha. change (is_one_of (ch "c") "CS") with false. change (ch "c" =? ch "c") with true. cbn [orb andb].
  assert (limit_of spec (Datatypes.length l) = Datatypes.length l) as -> by (unfold limit_of; rewrite Hw; lia). rewrite Hh. cbn [hs_rc hs_count hs_units from_option]. unfold id. change (1 =? 1) with true. cbn [negb orb].
  rewrite (proj2 (Z.leb_gt (Z.of_nat (Datatypes.length l)) 0)) by (destruct l; [done|cbn; lia]). unfold mbind, hle_bind, units_of, char_width. rewrite Hw, (proj2 (Nat.leb_gt _ _)) by lia. done.
Qed.

End Scanning.

(** * "-42 7" *)

#[local] Instance no_scan : HostScan := {| host_scan _ _ _ _ := {| hs_rc := 0; hs_count := 0; hs_units := None |}; iswspace := isspace; MB_CUR_MAX := 1 |}.
Definition scan_demo : list item := [Build_item IShort [] (-42); Build_item IInt [32] 7].
Definition scan_mem : mstate (E := RefEnv) :=
  mb_mem (text "-42 7" ++ [0] ++ text "%hd %d" ++ [0]) HEAP_BASE (HEAP_BASE + 6) (HEAP_BASE + 0x100) (HEAP_BASE + 0x200).

Lemma scan_reads_back_witness : wp sscanf (fun _ s' => getr X0 s' = 2 /\ byte_at s' (HEAP_BASE + 0x100) = Some 214 /\ byte_at s' (HEAP_BASE + 0x200) = Some 7) scan_mem.
Proof.
  assert (Hc : forall a bs, HEAP_BASE <= a -> a + (Z.of_nat (Datatypes.length bs) + 1) <= HEAP_BASE + HEAP_SIZE -> holds_check (byte_at scan_mem) a (bs ++ [0]) = true -> forallb (fun b => (0 <? b) && (b <? 256)) bs = true -> chars_at a bs scan_mem).
  { intros a bs H1 H2 H3 H4. constructor; [apply mb_mem_mapped; lia| |by apply holds_check_ok]. rewrite forallb_forall in H4. apply Forall_forall. intros b Hb. apply list_elem_of_In, H4 in Hb. lia. }
  refine (wp_mono _ _ _ _ (scan_reads_back scan_demo HEAP_BASE (HEAP_BASE + 6) scan_mem _ _ _ _ _ _ _ _ _ _ _ _) _).
  - apply mb_mem_sane.
  - split; by repeat constructor.
  - cbn. lia.
  - apply Hc; [lia|unfold HEAP_SIZE; vm_compute; congruence|vm_compute; reflexivity|vm_compute; reflexivity].
  - apply Hc; [lia|unfold HEAP_SIZE; vm_compute; congruence|vm_compute; reflexivity|vm_compute; reflexivity].
  - done.
  - done.
  - apply Nat.ltb_lt. vm_compute. reflexivity.
  - apply Nat.ltb_lt. vm_compute. reflexivity.
  - reflexivity.
  - reflexivity.
  - constructor; [|constructor; [|constructor]]; apply mb_mem_mapped; unfold HEAP_SIZE; vm_compute; congruence.
  - clear Hc. intros _ s' HR. split; [exact (rt_value _ _ _ _ HR)|]. split; rewrite (rt_byte _ _ _ _ HR); reflexivity.
Defined.
