(* ===== verification/BlockingIo.v ===== *)
(** The blocking I/O of [ThreadManager] (src/src/thread_manager.cpp) and the
    handlers of the emulated libc that use it (src/src/hle/hle_network.cpp,
    src/src/hle/hle_file.cpp).

    accept, read and write are cooperative: the descriptor is made non-blocking
    for one attempt; when that would block, the request is written into the
    thread's context, the thread waits in state [IO_WAIT] with the address of the
    "resume" half as its PC, and another thread runs.  send, recv, sendto and
    recvfrom go to the host directly, but their resume halves are still there.

    [HostIo] is the boundary: the system calls of the host on descriptors.  The
    functions are programs of the handler monad over [tstate]. *)

From S2P Require Import Prelude Env MemoryManager MemorySpec ThreadTypes Scheduler Machine HostAccess HleMonad HleErrno Lift.

Definition EAGAIN : Z := 11.
Definition EWOULDBLOCK : Z := 11.
Definition EFAULT : Z := 14.
Definition O_NONBLOCK : Z := 0x800.
Definition AF_INET : Z := 2.
Definition AF_INET6 : Z := 10.

(** [sizeof] of [sockaddr_storage], [sockaddr_in], [sockaddr_in6], and of the
    host's packed [epoll_event]. *)
Definition SOCKADDR_STORAGE_SIZE : Z := 128.
Definition SOCKADDR_IN_SIZE : Z := 16.
Definition SOCKADDR_IN6_SIZE : Z := 28.
Definition EPOLL_EVENT_SIZE : Z := 12.

(** The trampolines of the resume halves. *)
Definition ADDR_READ_RESUME : Z := HLE_BASE + 0xFFFC0.
Definition ADDR_WRITE_RESUME : Z := HLE_BASE + 0xFFFC4.
Definition ADDR_RECVFROM_RESUME : Z := HLE_BASE + 0xFFFCC.
Definition ADDR_SENDTO_RESUME : Z := HLE_BASE + 0xFFFD0.
Definition ADDR_RECV_RESUME : Z := HLE_BASE + 0xFFFE0.
Definition ADDR_SEND_RESUME : Z := HLE_BASE + 0xFFFE4.
Definition ADDR_ACCEPT_RESUME : Z := HLE_BASE + 0xFFFE8.

(** The host's calls.  A buffer comes back with all its bytes, those the call did
    not fill included. *)
Class HostIo (E : Env) := {
  (** The calling thread's [errno]. *)
  host_errno : env -> Z;
  set_host_errno : Z -> env -> env;
  (** [fcntl(fd, F_GETFL, 0)] and [fcntl(fd, F_SETFL, flags)]. *)
  fcntl_getfl : Z -> env -> Z * env;
  fcntl_setfl : Z -> Z -> env -> env;
  (** [read(fd, buf, count)]: result and buffer; [write(fd, buf, count)]. *)
  io_read : Z -> Z -> env -> (Z * list Z) * env;
  io_write : Z -> list Z -> env -> Z * env;
  io_recv : Z -> Z -> Z -> env -> (Z * list Z) * env;
  io_send : Z -> list Z -> Z -> env -> Z * env;
  (** [recvfrom]; with [true] a [sockaddr_storage] and its length are passed, and
      come back. *)
  io_recvfrom : Z -> Z -> Z -> bool -> env -> (Z * list Z * (list Z * Z)) * env;
  (** [sendto] with the bytes at the address pointer, if it is not null. *)
  io_sendto : Z -> list Z -> Z -> option (list Z) -> Z -> env -> Z * env;
  io_accept : Z -> env -> (Z * (list Z * Z)) * env;
  (** [epoll_wait(epfd, events, maxevents, timeout)]: the events as pairs of
      [events] and [data.u64]. *)
  io_epoll_wait : Z -> Z -> Z -> env -> (Z * list (Z * Z)) * env;
}.

Section BlockingIo.
Context {E : Env} `{!HostAccess E, !HostIo E}.
Implicit Types s : tstate.

Definition ts_put (m : mstate) (s : tstate) : tstate := s <| ms := m |>.
#[export] Instance tstate_machine : Machine tstate := lift_machine ms ts_put.
#[export] Instance tstate_host : HostView tstate := lift_host ms ts_put.

Notation prog := (hle tstate).

(** A call of the host; a change of the thread manager; [if (b) ...]. *)
Definition host {A} (f : env -> A * env) : prog A := fun s =>
  let '(a, e) := f (ext (ms s)) in Ret a (s <| ms ::= fun m => m <| ext := e |> |>).
Definition sched (f : tstate -> tstate) : prog unit := fun s => Ret tt (f s).
Definition get_errno : prog Z := fun s => Ret (host_errno (ext (ms s))) s.
Definition set_errno (v : Z) : prog unit := host (fun e => (tt, set_host_errno v e)).
Definition when (b : bool) (p : prog unit) : prog unit := if b then p else mret tt.
(** [threads_.find(current_thread_id_)] and its end. *)
Definition find_current : prog (option ThreadContext) := fun s => Ret (current s) s.

Definition getfl (fd : Z) : prog Z := host (fcntl_getfl fd).
Definition setfl (fd flags : Z) : prog unit := host (fun e => (tt, fcntl_setfl fd flags e)).

Definition would_block (e : Z) : bool := (e =? EAGAIN) || (e =? EWOULDBLOCK).

(** The bytes of a buffer of [len] bytes that [mem_read] fills. *)
Definition load_buffer (a len : Z) : prog (list Z) := new_buffer len;; mem_rd_into a len.

(** "Success - write data to emulator memory". *)
Definition deliver (buf_ptr result : Z) (buf : list Z) : prog unit :=
  when (0 <? result) (mem_wr buf_ptr (take (Z.to_nat result) buf)).

Definition deliver_address (addr_ptr addrlen_ptr : Z) (addr : list Z) (addrlen : Z) : prog unit :=
  when (negb (addr_ptr =? 0)) (mem_wr addr_ptr (take (Z.to_nat addrlen) addr));;
  when (negb (addrlen_ptr =? 0)) (mem_wr addrlen_ptr (le_bytes 4 addrlen)).

(** [block_current_thread(IO_WAIT, fd)] and [context_switch]. *)
Definition wait_io (fd : Z) : prog unit :=
  sched (block_current_thread IO_WAIT fd);;
  sched (context_switch BLOCKING_OPERATION).

(** "Set return value and return address". *)
Definition return_to (result return_addr : Z) : prog unit :=
  set_x REG_X0 result;; set_x REG_LR return_addr.

(** * recv *)

Definition blocking_recv (sockfd buf_ptr len flags : Z) : prog Z :=
  new_buffer len;;
  '(result, buf) ← host (io_recv sockfd len flags);
  deliver buf_ptr result buf;;
  mret result.

Definition save_recv (sockfd buf_ptr len flags return_addr : Z) : prog unit :=
  sched (upd_current (fun c =>
    c <| io_operation := RECV |> <| io_fd := sockfd |> <| io_buf_ptr := buf_ptr |> <| io_len := len |>
      <| io_flags := flags |> <| io_return_addr := return_addr |>
      <| registers ::= fun r => r <| rpc := ADDR_RECV_RESUME |> |>)).

(** "Clear I/O state". *)
Definition clear_io : prog unit :=
  sched (upd_current (fun c => c <| io_operation := IO_NONE |> <| io_fd := -1 |>)).

Definition blocking_recv_resume : prog unit :=
  ctx ← find_current;
  match ctx with
  | None => mret tt
  | Some c =>
      let sockfd := io_fd c in let buf_ptr := io_buf_ptr c in let len := io_len c in
      let flags := io_flags c in let return_addr := io_return_addr c in
      clear_io;;
      orig_flags ← getfl sockfd;
      setfl sockfd (Z.lor orig_flags O_NONBLOCK);;
      new_buffer len;;
      '(result, buf) ← host (io_recv sockfd len flags);
      if 0 <=? result
      then deliver buf_ptr result buf;; setfl sockfd orig_flags;; return_to result return_addr
      else
        e ← get_errno;
        if would_block e
        then save_recv sockfd buf_ptr len flags return_addr;; setfl sockfd orig_flags;; wait_io sockfd
        else setfl sockfd orig_flags;; return_to result return_addr
  end.

(** * send *)

Definition blocking_send (sockfd buf_ptr len flags : Z) : prog Z :=
  buf ← load_buffer buf_ptr len;
  host (io_send sockfd buf flags).

Definition save_send (sockfd buf_ptr len flags return_addr : Z) : prog unit :=
  sched (upd_current (fun c =>
    c <| io_operation := SEND |> <| io_fd := sockfd |> <| io_buf_ptr := buf_ptr |> <| io_len := len |>
      <| io_flags := flags |> <| io_return_addr := return_addr |>
      <| registers ::= fun r => r <| rpc := ADDR_SEND_RESUME |> |>)).

Definition blocking_send_resume : prog unit :=
  ctx ← find_current;
  match ctx with
  | None => mret tt
  | Some c =>
      let sockfd := io_fd c in let buf_ptr := io_buf_ptr c in let len := io_len c in
      let flags := io_flags c in let return_addr := io_return_addr c in
      clear_io;;
      buf ← load_buffer buf_ptr len;
      orig_flags ← getfl sockfd;
      setfl sockfd (Z.lor orig_flags O_NONBLOCK);;
      result ← host (io_send sockfd buf flags);
      if 0 <=? result
      then setfl sockfd orig_flags;; return_to result return_addr
      else
        e ← get_errno;
        if would_block e
        then save_send sockfd buf_ptr len flags return_addr;; setfl sockfd orig_flags;; wait_io sockfd
        else setfl sockfd orig_flags;; return_to result return_addr
  end.

(** * recvfrom *)

(** [addr] is zeroed and [addrlen] its size unless the host gets both. *)
Definition call_recvfrom (sockfd len flags addr_ptr : Z) : prog (Z * list Z * (list Z * Z)) :=
  '(result, buf, got) ← host (io_recvfrom sockfd len flags (negb (addr_ptr =? 0)));
  mret (result, buf,
        if addr_ptr =? 0 then (replicate (Z.to_nat SOCKADDR_STORAGE_SIZE) 0, SOCKADDR_STORAGE_SIZE) else got).

Definition blocking_recvfrom (sockfd buf_ptr len flags addr_ptr addrlen_ptr : Z) : prog Z :=
  new_buffer len;;
  '(result, buf, (addr, addrlen)) ← call_recvfrom sockfd len flags addr_ptr;
  when (0 <=? result)
    (deliver buf_ptr result buf;; deliver_address addr_ptr addrlen_ptr addr addrlen);;
  mret result.

Definition save_recvfrom (sockfd buf_ptr len flags addr_ptr addrlen_ptr return_addr : Z) : prog unit :=
  sched (upd_current (fun c =>
    c <| io_operation := RECVFROM |> <| io_fd := sockfd |> <| io_buf_ptr := buf_ptr |> <| io_len := len |>
      <| io_flags := flags |> <| io_addr_ptr := addr_ptr |> <| io_addrlen_ptr := addrlen_ptr |>
      <| io_return_addr := return_addr |>
      <| registers ::= fun r => r <| rpc := ADDR_RECVFROM_RESUME |> |>)).

(** The address fields are cleared as well. *)
Definition clear_io_addr : prog unit :=
  sched (upd_current (fun c => c <| io_operation := IO_NONE |> <| io_fd := -1 |>
                                 <| io_addr_ptr := 0 |> <| io_addrlen_ptr := 0 |>)).

Definition blocking_recvfrom_resume : prog unit :=
  ctx ← find_current;
  match ctx with
  | None => mret tt
  | Some c =>
      let sockfd := io_fd c in let buf_ptr := io_buf_ptr c in let len := io_len c in
      let flags := io_flags c in let addr_ptr := io_addr_ptr c in let addrlen_ptr := io_addrlen_ptr c in
      let return_addr := io_return_addr c in
      clear_io_addr;;
      orig_flags ← getfl sockfd;
      setfl sockfd (Z.lor orig_flags O_NONBLOCK);;
      new_buffer len;;
      '(result, buf, (addr, addrlen)) ← call_recvfrom sockfd len flags addr_ptr;
      if 0 <=? result
      then deliver buf_ptr result buf;; deliver_address addr_ptr addrlen_ptr addr addrlen;;
           setfl sockfd orig_flags;; return_to result return_addr
      else
        e ← get_errno;
        if would_block e
        then save_recvfrom sockfd buf_ptr len flags addr_ptr addrlen_ptr return_addr;;
             setfl sockfd orig_flags;; wait_io sockfd
        else setfl sockfd orig_flags;; return_to result return_addr
  end.

(** * sendto *)

(** [addr_ptr && addrlen > 0]. *)
Definition has_address (addr_ptr addrlen : Z) : bool := negb (addr_ptr =? 0) && (0 <? addrlen).

Definition load_address (addr_ptr addrlen : Z) : prog (option (list Z)) :=
  if has_address addr_ptr addrlen then a ← load_buffer addr_ptr addrlen; mret (Some a)
  else new_buffer 1;; mret None.

Definition blocking_sendto (sockfd buf_ptr len flags addr_ptr addrlen : Z) : prog Z :=
  buf ← load_buffer buf_ptr len;
  addr ← load_address addr_ptr addrlen;
  host (io_sendto sockfd buf flags addr (u32 addrlen)).

Definition save_sendto (sockfd buf_ptr len flags addr_ptr addrlen return_addr : Z) : prog unit :=
  sched (upd_current (fun c =>
    c <| io_operation := SENDTO |> <| io_fd := sockfd |> <| io_buf_ptr := buf_ptr |> <| io_len := len |>
      <| io_flags := flags |> <| io_addr_ptr := addr_ptr |> <| io_addrlen_ptr := addrlen |>
      <| io_return_addr := return_addr |>
      <| registers ::= fun r => r <| rpc := ADDR_SENDTO_RESUME |> |>)).

Definition blocking_sendto_resume : prog unit :=
  ctx ← find_current;
  match ctx with
  | None => mret tt
  | Some c =>
      let sockfd := io_fd c in let buf_ptr := io_buf_ptr c in let len := io_len c in
      let flags := io_flags c in let addr_ptr := io_addr_ptr c in let addrlen := io_addrlen_ptr c in
      let return_addr := io_return_addr c in
      clear_io_addr;;
      buf ← load_buffer buf_ptr len;
      addr ← load_address addr_ptr addrlen;
      orig_flags ← getfl sockfd;
      setfl sockfd (Z.lor orig_flags O_NONBLOCK);;
      result ← host (io_sendto sockfd buf flags addr (u32 addrlen));
      if 0 <=? result
      then setfl sockfd orig_flags;; return_to result return_addr
      else
        e ← get_errno;
        if would_block e
        then save_sendto sockfd buf_ptr len flags addr_ptr addrlen return_addr;;
             setfl sockfd orig_flags;; wait_io sockfd
        else setfl sockfd orig_flags;; return_to result return_addr
  end.

(** * accept *)

Definition save_accept (sockfd addr_ptr addrlen_ptr return_addr : Z) : prog unit :=
  sched (upd_current (fun c =>
    c <| io_operation := ACCEPT |> <| io_fd := sockfd |> <| io_addr_ptr := addr_ptr |>
      <| io_addrlen_ptr := addrlen_ptr |> <| io_return_addr := return_addr |>
      <| registers ::= fun r => r <| rpc := ADDR_ACCEPT_RESUME |> |>)).

Definition blocking_accept (sockfd addr_ptr addrlen_ptr : Z) : prog Z :=
  orig_flags ← getfl sockfd;
  setfl sockfd (Z.lor orig_flags O_NONBLOCK);;
  '(result, (addr, addrlen)) ← host (io_accept sockfd);
  if 0 <=? result
  then deliver_address addr_ptr addrlen_ptr addr addrlen;; setfl sockfd orig_flags;; mret result
  else
    e ← get_errno;
    if would_block e
    then lr ← get_x REG_LR;
         save_accept sockfd addr_ptr addrlen_ptr lr;; setfl sockfd orig_flags;; wait_io sockfd;;
         mret CONTEXT_SWITCH_OCCURRED
    else setfl sockfd orig_flags;; mret result.

Definition blocking_accept_resume : prog unit :=
  ctx ← find_current;
  match ctx with
  | None => mret tt
  | Some c =>
      let sockfd := io_fd c in let addr_ptr := io_addr_ptr c in let addrlen_ptr := io_addrlen_ptr c in
      let return_addr := io_return_addr c in
      clear_io;;
      orig_flags ← getfl sockfd;
      setfl sockfd (Z.lor orig_flags O_NONBLOCK);;
      '(result, (addr, addrlen)) ← host (io_accept sockfd);
      if 0 <=? result
      then deliver_address addr_ptr addrlen_ptr addr addrlen;; setfl sockfd orig_flags;;
           return_to result return_addr
      else
        e ← get_errno;
        if would_block e
        then save_accept sockfd addr_ptr addrlen_ptr return_addr;; setfl sockfd orig_flags;; wait_io sockfd
        else setfl sockfd orig_flags;; return_to result return_addr
  end.

(** * epoll_wait *)

Definition kMaxHleEpollWaitSliceMs : Z := 20.

Definition clamp_hle_epoll_wait_timeout (timeout_ms : Z) : Z :=
  if timeout_ms =? 0 then 0
  else if timeout_ms <? 0 then kMaxHleEpollWaitSliceMs
  else Z.min timeout_ms kMaxHleEpollWaitSliceMs.

(** The 16 bytes of an [epoll_event_arm64]. *)
Definition host_to_arm64_epoll_event (ev : Z * Z) : list Z :=
  le_bytes 4 ev.1 ++ le_bytes 4 0 ++ le_bytes 8 ev.2.

(** [mem_write] where the result is used. *)
Definition mem_wr_ok (a : Z) (bs : list Z) : prog bool := fun s => let '(ok, s') := gwrite a bs s in Ret ok s'.

Definition write_epoll_events_to_guest (events_ptr : Z) (host_events : list (Z * Z)) (result_count : Z)
    : prog bool :=
  if result_count <=? 0 then mret true
  else new_buffer (result_count * 16);;
       mem_wr_ok events_ptr (concat (map host_to_arm64_epoll_event (take (Z.to_nat result_count) host_events))).

Definition blocking_epoll_wait (epfd events_ptr maxevents timeout_ms : Z) : prog Z :=
  if (maxevents <=? 0) || (events_ptr =? 0) then set_errno EINVAL;; mret (-1)
  else
    new_buffer (maxevents * EPOLL_EVENT_SIZE);;
    set_errno 0;;
    '(result, host_events) ← host (io_epoll_wait epfd maxevents (clamp_hle_epoll_wait_timeout timeout_ms));
    if 0 <? result
    then ok ← write_epoll_events_to_guest events_ptr host_events result;
         if ok : bool then mret result else set_errno EFAULT;; mret (-1)
    else mret result.

(** Both kinds of I/O state are cleared. *)
Definition clear_epoll : prog unit :=
  sched (upd_current (fun c =>
    c <| io_operation := IO_NONE |> <| io_fd := -1 |> <| coop_io_type := COOP_NONE |> <| coop_io_fd := -1 |>
      <| coop_io_events_ptr := 0 |> <| coop_io_maxevents := 0 |> <| coop_io_timeout_ms := 0 |>
      <| coop_io_return_addr := 0 |>)).

Definition blocking_epoll_wait_resume : prog unit :=
  ctx ← find_current;
  match ctx with
  | None => mret tt
  | Some c =>
      clear_epoll;;
      result ← blocking_epoll_wait (coop_io_fd c) (coop_io_events_ptr c) (coop_io_maxevents c)
                 (coop_io_timeout_ms c);
      when (result <? 0) (e ← get_errno; hle_set_errno e);;
      set_x REG_X0 (-1);;
      when (0 <=? result) (set_x REG_X0 result);;
      set_x REG_LR (coop_io_return_addr c)
  end.

(** * read *)

Definition save_read (fd buf_ptr count return_addr : Z) : prog unit :=
  sched (upd_current (fun c =>
    c <| io_operation := READ |> <| io_fd := fd |> <| io_buf_ptr := buf_ptr |> <| io_len := count |>
      <| io_return_addr := return_addr |>
      <| registers ::= fun r => r <| rpc := ADDR_READ_RESUME |> |>)).

Definition blocking_read (fd buf_ptr count : Z) : prog Z :=
  orig_flags ← getfl fd;
  setfl fd (Z.lor orig_flags O_NONBLOCK);;
  new_buffer count;;
  '(result, buf) ← host (io_read fd count);
  if 0 <=? result
  then deliver buf_ptr result buf;; setfl fd orig_flags;; mret result
  else
    e ← get_errno;
    if would_block e
    then lr ← get_x REG_LR;
         save_read fd buf_ptr count lr;; setfl fd orig_flags;; wait_io fd;;
         mret CONTEXT_SWITCH_OCCURRED
    else setfl fd orig_flags;; mret result.

Definition blocking_read_resume : prog unit :=
  ctx ← find_current;
  match ctx with
  | None => mret tt
  | Some c =>
      let fd := io_fd c in let buf_ptr := io_buf_ptr c in let count := io_len c in
      let return_addr := io_return_addr c in
      clear_io;;
      orig_flags ← getfl fd;
      setfl fd (Z.lor orig_flags O_NONBLOCK);;
      new_buffer count;;
      '(result, buf) ← host (io_read fd count);
      if 0 <=? result
      then deliver buf_ptr result buf;; setfl fd orig_flags;; return_to result return_addr
      else
        e ← get_errno;
        if would_block e
        then save_read fd buf_ptr count return_addr;; setfl fd orig_flags;; wait_io fd
        else setfl fd orig_flags;; return_to result return_addr
  end.

(** * write *)

Definition save_write (fd buf_ptr count return_addr : Z) : prog unit :=
  sched (upd_current (fun c =>
    c <| io_operation := WRITE |> <| io_fd := fd |> <| io_buf_ptr := buf_ptr |> <| io_len := count |>
      <| io_return_addr := return_addr |>
      <| registers ::= fun r => r <| rpc := ADDR_WRITE_RESUME |> |>)).

Definition blocking_write (fd buf_ptr count : Z) : prog Z :=
  buf ← load_buffer buf_ptr count;
  orig_flags ← getfl fd;
  setfl fd (Z.lor orig_flags O_NONBLOCK);;
  result ← host (io_write fd buf);
  if 0 <=? result
  then setfl fd orig_flags;; mret result
  else
    e ← get_errno;
    if would_block e
    then lr ← get_x REG_LR;
         save_write fd buf_ptr count lr;; setfl fd orig_flags;; wait_io fd;;
         mret CONTEXT_SWITCH_OCCURRED
    else setfl fd orig_flags;; mret result.

Definition blocking_write_resume : prog unit :=
  ctx ← find_current;
  match ctx with
  | None => mret tt
  | Some c =>
      let fd := io_fd c in let buf_ptr := io_buf_ptr c in let count := io_len c in
      let return_addr := io_return_addr c in
      clear_io;;
      buf ← load_buffer buf_ptr count;
      orig_flags ← getfl fd;
      setfl fd (Z.lor orig_flags O_NONBLOCK);;
      result ← host (io_write fd buf);
      if 0 <=? result
      then setfl fd orig_flags;; return_to result return_addr
      else
        e ← get_errno;
        if would_block e
        then save_write fd buf_ptr count return_addr;; setfl fd orig_flags;; wait_io fd
        else setfl fd orig_flags;; return_to result return_addr
  end.

(** * The handlers *)

(** The end of every handler: nothing after a context switch, otherwise [errno]
    and the result. *)
Definition finish_io (result : Z) : prog unit :=
  if result =? CONTEXT_SWITCH_OCCURRED then mret tt
  else when (result <? 0) (e ← get_errno; hle_set_errno e);; set_x REG_X0 result.

(** An [int] argument. *)
Definition get_int (r : Z) : prog Z := v ← get_x r; mret (s32 v).

Definition hle_accept : prog unit :=
  sockfd ← get_int X0; addr_ptr ← get_x X1; addrlen_ptr ← get_x X2;
  result ← blocking_accept sockfd addr_ptr addrlen_ptr;
  finish_io result.

Definition hle_send : prog unit :=
  sockfd ← get_int X0; buf_ptr ← get_x X1; len ← get_x X2; flags ← get_int X3;
  result ← blocking_send sockfd buf_ptr len flags;
  finish_io result.

Definition hle_recv : prog unit :=
  sockfd ← get_int X0; buf_ptr ← get_x X1; len ← get_x X2; flags ← get_int X3;
  result ← blocking_recv sockfd buf_ptr len flags;
  finish_io result.

(** "infer address length from family". *)
Definition infer_addrlen (dest_addr addrlen : Z) : prog Z :=
  if negb (dest_addr =? 0) && (addrlen =? 0)
  then family ← mem_rd_into dest_addr 2;
       mret (if le_value family =? AF_INET then SOCKADDR_IN_SIZE
             else if le_value family =? AF_INET6 then SOCKADDR_IN6_SIZE else addrlen)
  else mret addrlen.

Definition hle_sendto : prog unit :=
  sockfd ← get_int X0; buf_ptr ← get_x X1; len ← get_x X2; flags ← get_int X3;
  dest_addr ← get_x 4; x5 ← get_x 5;
  addrlen ← infer_addrlen dest_addr (u32 x5);
  result ← blocking_sendto sockfd buf_ptr len flags dest_addr addrlen;
  finish_io result.

Definition hle_recvfrom : prog unit :=
  sockfd ← get_int X0; buf_ptr ← get_x X1; len ← get_x X2; flags ← get_int X3;
  src_addr ← get_x 4; addrlen_ptr ← get_x 5;
  result ← blocking_recvfrom sockfd buf_ptr len flags src_addr addrlen_ptr;
  finish_io result.

(** epoll_wait and epoll_pwait, which ignores its signal mask. *)
Definition hle_epoll_wait : prog unit :=
  epfd ← get_int X0; events_ptr ← get_x X1; maxevents ← get_int X2; timeout ← get_int X3;
  if (maxevents <=? 0) || (events_ptr =? 0)
  then hle_set_errno EINVAL;; set_x REG_X0 (-1)
  else result ← blocking_epoll_wait epfd events_ptr maxevents timeout; finish_io result.
Definition hle_epoll_pwait : prog unit := hle_epoll_wait.

Definition hle_read : prog unit :=
  fd ← get_int X0; buf_addr ← get_x X1; count ← get_x X2;
  set_errno 0;;
  result ← blocking_read fd buf_addr count;
  finish_io result.

Definition hle_write : prog unit :=
  fd ← get_int X0; buf_addr ← get_x X1; count ← get_x X2;
  set_errno 0;;
  result ← blocking_write fd buf_addr count;
  finish_io result.

End BlockingIo.
