(* ===== verification/BlockingIoSpec.v ===== *)
(** Correctness of the blocking I/O: the seven cooperative calls are one scheme
    with seven requests; a call that blocks is transparent to the guest; the
    status flags of descriptors are put back; the scheduling invariant holds. *)

From S2P Require Import Prelude Env MemoryManager MemorySpec ThreadTypes Scheduler SchedulerSpec Pthread PthreadSpec Machine HostAccess HleMonad HleErrno Lift BlockingIo.

(** * The boundary *)

(** Two states of the world in which the guest sees the same. *)
Record guest_same `{!CpuMemLaws E, !HostAccess E, !HostAccessLaws E} (e e' : @env E) : Prop := {
  gs_cpu : has_cpu e' = has_cpu e;
  gs_reg r : read_reg r e' = read_reg r e;
  gs_vreg r : read_vreg r e' = read_vreg r e;
  gs_mem a n : rw_debug_read a n e' = rw_debug_read a n e;
  gs_page a n : page_ok a n e' <-> page_ok a n e;
  gs_rw a n : page_rw a n e' <-> page_rw a n e;
}.

(** Documented behaviour of the host's calls.  A descriptor refers to an open file
    description, which has the status flags; descriptors may share one.
    [F_SETFL] changes [O_NONBLOCK], no call on a descriptor changes flags, none
    of them touches the guest, and a call that fails returns -1. *)
Class HostIoLaws (E : Env) `{!CpuMemLaws E, !HostAccess E, !HostAccessLaws E, !HostIo E} := {
  descr : Z -> env -> option Z;
  status : Z -> env -> Z;
  fds_same (e e' : env) : Prop :=
    forall fd d, descr fd e = Some d -> descr fd e' = Some d /\ status d e' = status d e;

  getfl_status fd d e : descr fd e = Some d -> (fcntl_getfl fd e).1 = status d e;
  setfl_status fd d v e : descr fd e = Some d -> Z.lor v O_NONBLOCK = Z.lor (status d e) O_NONBLOCK ->
    status d (fcntl_setfl fd v e) = v;
  setfl_descr fd v x d e : descr x e = Some d -> descr x (fcntl_setfl fd v e) = Some d;
  setfl_other fd d v x y e : descr fd e = Some d -> descr x e = Some y -> y <> d ->
    status y (fcntl_setfl fd v e) = status y e;

  getfl_quiet fd e : guest_same e (fcntl_getfl fd e).2 /\ fds_same e (fcntl_getfl fd e).2;
  setfl_quiet fd v e : guest_same e (fcntl_setfl fd v e);
  errno_quiet v e : guest_same e (set_host_errno v e) /\ fds_same e (set_host_errno v e);
  read_quiet fd n e : guest_same e (io_read fd n e).2 /\ fds_same e (io_read fd n e).2;
  write_quiet fd bs e : guest_same e (io_write fd bs e).2 /\ fds_same e (io_write fd bs e).2;
  recv_quiet fd n fl e : guest_same e (io_recv fd n fl e).2 /\ fds_same e (io_recv fd n fl e).2;
  send_quiet fd bs fl e : guest_same e (io_send fd bs fl e).2 /\ fds_same e (io_send fd bs fl e).2;
  recvfrom_quiet fd n fl b e :
    guest_same e (io_recvfrom fd n fl b e).2 /\ fds_same e (io_recvfrom fd n fl b e).2;
  sendto_quiet fd bs fl a l e :
    guest_same e (io_sendto fd bs fl a l e).2 /\ fds_same e (io_sendto fd bs fl a l e).2;
  accept_quiet fd e : guest_same e (io_accept fd e).2 /\ fds_same e (io_accept fd e).2;
  epoll_quiet fd n t e : guest_same e (io_epoll_wait fd n t e).2 /\ fds_same e (io_epoll_wait fd n t e).2;
  now_quiet e : guest_same e (steady_now e).2 /\ fds_same e (steady_now e).2;
  sleep_quiet n e : guest_same e (sleep_ms n e) /\ fds_same e (sleep_ms n e);
  poll_quiet fd ev e : guest_same e (poll_fd fd ev e).2 /\ fds_same e (poll_fd fd ev e).2;

  fds_write_reg r v e : fds_same e (write_reg r v e);
  fds_write_vreg r v e : fds_same e (write_vreg r v e);
  fds_rw_write a bs e : fds_same e (rw_debug_write a bs e).2;
  vreg_rw_write r a bs e : read_vreg r (rw_debug_write a bs e).2 = read_vreg r e;

  read_result fd n e : -1 <= (io_read fd n e).1.1;
  write_result fd bs e : -1 <= (io_write fd bs e).1;
  accept_result fd e : -1 <= (io_accept fd e).1.1;
}.

(** * Any property of the world through a context switch *)

Section WorldBlind.
Context {E : Env} (P : env -> Prop).
Hypothesis P_reg : forall r v e, P e -> P (write_reg r v e).
Hypothesis P_vreg : forall r v e, P e -> P (write_vreg r v e).
Hypothesis P_now : forall e, P e -> P (steady_now e).2.
Hypothesis P_sleep : forall n e, P e -> P (sleep_ms n e).
Hypothesis P_poll : forall fd ev e, P e -> P (poll_fd fd ev e).2.
Implicit Types s : tstate.

Definition PW s : Prop := P (ext (ms s)).

Lemma pw_now s t s' : now s = (t, s') -> PW s -> PW s'.
Proof.
  unfold now, PW. intros H HP. pose proof (P_now _ HP) as H1. destruct (steady_now _). injection H as <- <-. exact H1.
Qed.

Lemma p_set_reg r v e : P e -> P (set_reg r v e).
Proof. intros H. unfold set_reg. destruct (has_cpu e); auto. Qed.

Lemma p_write_registers r e : P e -> P (write_registers r e).
Proof.
  assert (Hx : forall l e, P e -> P (foldl (fun e i => set_reg (REG_X (Z.of_nat i)) (nth i (rx r) 0) e) e l)).
  { induction l as [|i l IH]; intros e0 H; cbn; [done|]. by apply IH, p_set_reg. }
  assert (Hv : forall l e, P e -> P (foldl (fun e i => set_vreg (REG_V (Z.of_nat i)) (nth i (rv r) (0, 0)) e) e l)).
  { induction l as [|i l IH]; intros e0 H; cbn; [done|]. apply IH. unfold set_vreg. destruct (has_cpu e0); auto. }
  intros H. unfold write_registers. apply p_set_reg, p_set_reg, Hv. by do 5 apply p_set_reg; apply Hx.
Qed.

Lemma pw_wake_io t ids s : PW s -> PW (foldl (wake_io t) s ids).
Proof.
  revert s; induction ids as [|i ids IH]; intros s H; cbn; [done|]. apply IH.
  unfold wake_io. destruct (_ !! i) as [c|]; [|done]. destruct (is_state IO_WAIT c); [|done].
  destruct (wake_for_timeout t c); [done|]. destruct (0 <=? io_fd c); [|done].
  pose proof (P_poll (io_fd c) (io_events (io_operation c)) _ H) as H1.
  destruct (poll_fd _ _ _) as [[ret rev] e]. by destruct (_ && _).
Qed.

Lemma pw_wake_sleeper t ids s : PW s -> PW (foldl (wake_sleeper t) s ids).
Proof.
  revert s; induction ids as [|i ids IH]; intros s H; cbn; [done|]. apply IH.
  by destruct (wake_sleeper_cases t s i) as [->|(-> & _)].
Qed.

Lemma pw_select s n s' : select_next_thread s = (n, s') -> PW s -> PW s'.
Proof.
  unfold select_next_thread. intros H HP. destruct (now s) as [t s0] eqn:Hn. pose proof (pw_now _ _ _ Hn HP) as H0.
  set (s2 := foldl (wake_io t) _ _) in *.
  assert (H2 : PW s2) by (by apply pw_wake_io, pw_wake_sleeper).
  destruct (pop_runnable _ _) as [m q]. injection H as <- <-. exact H2.
Qed.

Lemma pw_idle_wait n s : PW s -> PW (idle_wait n s).
Proof.
  intros H. unfold idle_wait. destruct (now s) as [t s0] eqn:Hn. pose proof (pw_now _ _ _ Hn H).
  destruct (_ && _); [destruct (0 <? _); [|done]|]; by apply P_sleep.
Qed.

Lemma pw_select_or_wait s n s' : select_or_wait s = (n, s') -> PW s -> PW s'.
Proof.
  unfold select_or_wait. intros H HP. destruct (select_next_thread s) as [[m|] s1] eqn:Hs;
    pose proof (pw_select _ _ _ Hs HP) as H1; [by injection H as <- <-|].
  destruct (idle_scan s1) as [[] x]; [|by injection H as <- <-]. eapply pw_select; [exact H|]. by apply pw_idle_wait.
Qed.

Lemma pw_dispatch n s : PW s -> PW (dispatch n s).
Proof.
  intros H. unfold dispatch. destruct (_ !! n) as [c|]; [|done].
  match goal with |- context [now ?x] => destruct (now x) as [t s3] eqn:Hn end.
  pose proof (pw_now _ _ _ Hn H) as H3. unfold restore_thread_state. destruct (_ !! n) as [d|]; [|exact H3].
  by apply p_write_registers.
Qed.

Lemma pw_retry k s n s' : retry_select k s = (n, s') -> PW s -> PW s'.
Proof.
  revert s; induction k as [|k IH]; intros s; cbn; [by intros [= <- <-]|]. intros H HP.
  assert (HP1 : PW (pause 100 s)) by (by apply P_sleep).
  destruct (select_next_thread (pause 100 s)) as [[m|] s1] eqn:Hs; pose proof (pw_select _ _ _ Hs HP1); [by injection H as <- <-|].
  by apply (IH s1).
Qed.

Lemma pw_switch_away old s : PW s -> PW (switch_away old s).
Proof.
  intros H. unfold switch_away. destruct (select_or_wait s) as [[n|] s1] eqn:Hs;
    pose proof (pw_select_or_wait _ _ _ Hs H) as H1; [by apply pw_dispatch|].
  destruct (_ !! old) as [c|]; [|done]. destruct (is_state TERMINATED c); [|by destruct (is_state RUNNABLE c)].
  destruct (all_terminated s1); [by apply p_set_reg|].
  destruct (retry_select 10 s1) as [[n|] s2] eqn:Hr; pose proof (pw_retry _ _ _ _ Hr H1);
    [by apply pw_dispatch|by apply p_set_reg].
Qed.

Lemma park_world id s : ext (ms (park_current id s)) = ext (ms s).
Proof.
  unfold park_current. destruct (_ !! id) as [c|]; [|done].
  destruct (is_state RUNNING c); [done|]. by destruct (has_resume_pc c).
Qed.

Lemma pw_switch reason s : PW s -> PW (context_switch reason s).
Proof.
  intros H. unfold context_switch. destruct (_ !! _) as [c|]; [|done]. destruct (_ && _); [done|].
  match goal with |- context [now ?x] => destruct (now x) as [t s3] eqn:Hn end.
  apply pw_switch_away. eapply (pw_now _ t s3); [exact Hn|]. unfold PW. by rewrite park_world.
Qed.

End WorldBlind.

(** A switch away from a thread that is not terminated, after which no thread
    runs, has only read clocks, polled and slept. *)
Lemma pw_stuck `{E : Env} (P : env -> Prop) reason (s : tstate) c :
  (forall e, P e -> P (steady_now e).2) -> (forall n e, P e -> P (sleep_ms n e)) ->
  (forall fd ev e, P e -> P (poll_fd fd ev e).2) ->
  sched_ok (tm s) -> current s = Some c -> state c <> TERMINATED ->
  ~ someone_runs (tm (context_switch reason s)) -> P (ext (ms s)) -> P (ext (ms (context_switch reason s))).
Proof.
  intros P_now P_sleep P_poll Hok Hc Hst Hno HP.
  destruct (block_next_switch c && negb (voluntary reason)) eqn:Hb.
  { unfold context_switch. unfold current in Hc. by rewrite Hc, Hb. }
  destruct (context_switch_split reason s c Hok Hc Hb) as (_ & _ & _ & _ & _ & _).
  unfold context_switch in *. unfold current in Hc. rewrite Hc, Hb in *.
  set (cur := current_thread_id_ (tm s)) in *. set (s0 := upd_thread cur _ s) in *.
  destruct (now (park_current cur s0)) as [t s1] eqn:Hn. set (s2 := upd_thread cur _ s1) in *.
  assert (H2 : P (ext (ms s2))).
  { eapply (pw_now P P_now _ t s1); [exact Hn|]. unfold PW. by rewrite park_world. }
  assert (Hok0 : sched_ok (tm s0)) by (apply sched_ok_alter; [apply tame_count|done]).
  destruct (park_current_ok s0 Hok0) as (Hp1 & Hp2 & _). fold cur in Hp1, Hp2.
  pose proof (now_tm (park_current cur s0)) as E1. rewrite Hn in E1. cbn in E1.
  assert (Hok2 : sched_ok (tm s2)) by (apply sched_ok_alter; [solve_tame|by rewrite E1]).
  assert (Hid2 : idle (tm s2)) by (apply idle_alter; [solve_tame|by rewrite E1]).
  assert (Hf2 : follows cur (fun d => state d <> TERMINATED) (tm s2)).
  { pose proof (parked_current reason s c t Hc) as Hp. fold cur in Hp. fold s0 in Hp. eexists. split.
    - unfold s2, upd_thread. cbn. rewrite E1. exact Hp.
    - cbn. destruct (is_state RUNNING c); done. }
  clearbody s2. clear Hn E1 s1. unfold switch_away in *.
  destruct (select_or_wait s2) as [[n|] s3] eqn:Hs; destruct (select_or_wait_ok _ _ _ Hok2 Hid2 Hs) as (Hi & Hsel & Hcur);
    pose proof (pw_select_or_wait P P_now P_sleep P_poll _ _ _ Hs H2) as H3.
  - exfalso. apply Hno. destruct (dispatch_ok n s3 Hi Hsel) as (_ & E4 & d & Hd & Hr). exists d. by rewrite E4.
  - destruct (follows_select_or_wait cur (fun d => state d <> TERMINATED) s2 _ _ ltac:(done) Hf2 Hs) as (d & Hd & Hnt).
    rewrite Hd in *. rewrite (proj2 (is_state_false _ _) Hnt). by destruct (is_state RUNNABLE d).
Qed.

(** And through a write to guest memory. *)
Lemma p_mem_write `{E : Env} (P : env -> Prop) a bs m :
  (forall a bs e, P e -> P (rw_debug_write a bs e).2) -> P (ext m) -> P (ext (mem_write a bs m).2).
Proof.
  intros Hw H. unfold mem_write, host_write. destruct (use_qemu m).
  - pose proof (Hw a bs _ H) as H1. destruct (rw_debug_write a bs (ext m)) as [[] e1]; cbn in *; [done|].
    by destruct (find_region _ _).
  - by destruct (find_region _ _).
Qed.

Lemma cpu_mem_write `{E : Env, !GuestMemLaws E} a bs m : has_cpu (ext (mem_write a bs m).2) = has_cpu (ext m).
Proof. apply (p_mem_write (fun e => has_cpu e = has_cpu (ext m))); [|done]. intros x y e <-. apply has_cpu_rw_write. Qed.

(** * A logic for state predicates *)

(** Whatever way [m] ends, exceptions included, [Q] holds. *)
Definition ends {S A} (m : hle S A) (Q : A -> S -> Prop) (QT : S -> Prop) (s : S) : Prop :=
  match m s with Ret a s' => Q a s' | Thrown s' => QT s' | Segv => True end.

Lemma ends_bind {S A B} (m : hle S A) (k : A -> hle S B) Q QT s :
  ends m (fun a s' => ends (k a) Q QT s') QT s -> ends (m ≫= k) Q QT s.
Proof. unfold ends, mbind, hle_bind. by destruct (m s). Qed.

Lemma ends_ret {S A} (a : A) (Q : A -> S -> Prop) QT s : Q a s -> ends (mret a) Q QT s.
Proof. done. Qed.

Lemma ends_mono {S A} (m : hle S A) (Q Q' : A -> S -> Prop) (QT QT' : S -> Prop) s :
  ends m Q QT s -> (forall a s', Q a s' -> Q' a s') -> (forall s', QT s' -> QT' s') -> ends m Q' QT' s.
Proof. unfold ends. destruct (m s); eauto. Qed.

(** * Everything the calls do to the manager *)

(** The handlers and the resume halves. *)
Inductive io_call :=
| HAccept | HSend | HRecv | HSendto | HRecvfrom | HEpollWait | HEpollPwait | HRead | HWrite
| RAccept | RSend | RRecv | RSendto | RRecvfrom | REpollWait | RRead | RWrite.

Section Closed.
Context {E : Env} `{!GuestMemLaws E, !RegLaws E, !CpuMemLaws E, !HostAccess E, !HostAccessLaws E, !HostIo E, !HostIoLaws E}.
Implicit Types s : tstate.

Definition run_call (c : io_call) : hle tstate unit :=
  match c with
  | HAccept => hle_accept | HSend => hle_send | HRecv => hle_recv | HSendto => hle_sendto
  | HRecvfrom => hle_recvfrom | HEpollWait => hle_epoll_wait | HEpollPwait => hle_epoll_pwait
  | HRead => hle_read | HWrite => hle_write
  | RAccept => blocking_accept_resume | RSend => blocking_send_resume | RRecv => blocking_recv_resume
  | RSendto => blocking_sendto_resume | RRecvfrom => blocking_recvfrom_resume
  | REpollWait => blocking_epoll_wait_resume | RRead => blocking_read_resume | RWrite => blocking_write_resume
  end.

(** [P] holds while a call runs, [W] when it is over: the switch to another
    thread is the last thing a call does. *)
Record io_closed (P W : tstate -> Prop) : Prop := {
  ic_world s m : has_cpu (ext m) = has_cpu (ext (ms s)) -> P s -> P (s <| ms := m |>);
  ic_upd f s : tame f -> P s -> P (upd_current f s);
  ic_wait fd s : P s -> W (context_switch BLOCKING_OPERATION (block_current_thread IO_WAIT fd s));
  ic_weak s : P s -> W s;
}.

Context (P W : tstate -> Prop) (HC : io_closed P W).

(** A piece that keeps [P]. *)
Definition leaf {A} (m : hle tstate A) : Prop := forall s, P s -> ends m (fun _ => P) P s.

Lemma leaf_bind {A B} (m : hle tstate A) (k : A -> hle tstate B) : leaf m -> (forall a, leaf (k a)) -> leaf (m ≫= k).
Proof.
  intros Hm Hk s H. apply ends_bind. eapply ends_mono; [by apply Hm| |done]. intros a s' H'. by apply Hk.
Qed.

Lemma leaf_ret {A} (a : A) : leaf (mret a).
Proof. intros s H. exact H. Qed.

Lemma leaf_host {A} (f : env -> A * env) : (forall e, has_cpu (f e).2 = has_cpu e) -> leaf (host f).
Proof.
  intros Hf s H. unfold ends, host. specialize (Hf (ext (ms s))). destruct (f _) as [a e]. cbn in *.
  by apply (ic_world P W HC s ((ms s) <| ext := e |>)).
Qed.

Lemma leaf_wr a bs : leaf (mem_wr a bs).
Proof.
  intros s H. unfold ends, mem_wr. unfold gwrite, tstate_machine, lift_machine.
  pose proof (cpu_mem_write a bs (ms s)) as Hc. destruct (gwrite a bs (ms s)) as [ok m] eqn:Hw.
  apply (ic_world P W HC); [|done]. cbn in Hw. rewrite Hw in Hc. exact Hc.
Qed.

Lemma leaf_wr_ok a bs : leaf (mem_wr_ok a bs).
Proof.
  intros s H. pose proof (leaf_wr a bs s H) as Hl. unfold ends, mem_wr, mem_wr_ok in *. by destruct (gwrite a bs s).
Qed.

Lemma leaf_set r v : leaf (set_x r v).
Proof.
  intros s H. unfold ends, set_x. apply (ic_world P W HC); [|done]. apply has_cpu_set_reg.
Qed.

Lemma leaf_look {A} (m : hle tstate A) : (forall s, exists a, m s = Ret a s) -> leaf m.
Proof. intros Hm s H. unfold ends. by destruct (Hm s) as [a ->]. Qed.

Lemma leaf_buffer n : leaf (new_buffer n).
Proof. intros s H. unfold ends, new_buffer. by destruct (alloc_ok n s). Qed.

Lemma leaf_upd f : tame f -> leaf (sched (upd_current f)).
Proof. intros Hf s H. by apply (ic_upd P W HC). Qed.

Lemma leaf_when b p : leaf p -> leaf (when b p).
Proof. intros Hp. destruct b; [done|]. apply leaf_ret. Qed.

Lemma leaf_errno v : leaf (set_errno v).
Proof. apply leaf_host. intros e. apply (gs_cpu _ _ (proj1 (errno_quiet v e))). Qed.

Lemma leaf_getfl fd : leaf (getfl fd).
Proof. apply leaf_host. intros e. apply (gs_cpu _ _ (proj1 (getfl_quiet fd e))). Qed.

Lemma leaf_setfl fd v : leaf (setfl fd v).
Proof. apply leaf_host. intros e. apply (gs_cpu _ _ (setfl_quiet fd v e)). Qed.

Lemma leaf_hle_errno v : leaf (hle_set_errno v).
Proof. intros s. apply leaf_wr. Qed.

(** The end of a call: the last switch, or nothing more. *)
Definition final {A} (m : hle tstate A) (Q : A -> tstate -> Prop) : Prop := forall s, P s -> ends m Q W s.

Lemma final_bind {A B} (m : hle tstate A) (k : A -> hle tstate B) Q :
  leaf m -> (forall a, final (k a) Q) -> final (m ≫= k) Q.
Proof.
  intros Hm Hk s H. apply ends_bind. eapply ends_mono; [by apply Hm|intros a s' H'; by apply Hk|apply (ic_weak P W HC)].
Qed.

Lemma final_wait fd : final (wait_io fd) (fun _ => W).
Proof. intros s H. by apply (ic_wait P W HC). Qed.

Lemma final_leaf {A} (m : hle tstate A) : leaf m -> final m (fun _ => W).
Proof. intros Hm s H. eapply ends_mono; [by apply Hm|intros a s'|]; apply (ic_weak P W HC). Qed.

(** What a blocking call leaves: [P], unless it says that it switched. *)
Definition call_post (r : Z) s : Prop := W s /\ (r <> CONTEXT_SWITCH_OCCURRED -> P s).

Lemma final_result (m : hle tstate Z) : leaf m -> final m call_post.
Proof.
  intros Hm s H. eapply ends_mono; [by apply Hm| |apply (ic_weak P W HC)].
  intros a s' H'. split; [by apply (ic_weak P W HC)|done].
Qed.

Lemma final_switched fd : final (wait_io fd;; mret CONTEXT_SWITCH_OCCURRED) call_post.
Proof. intros s H. split; [by apply (ic_wait P W HC)|done]. Qed.

Lemma final_handler (m : hle tstate Z) : final m call_post -> final (m ≫= finish_io) (fun _ => W).
Proof.
  intros Hm s H. apply ends_bind. eapply ends_mono; [by apply Hm| |done].
  intros r s' [HW HP]. unfold finish_io. destruct (Z.eqb_spec r CONTEXT_SWITCH_OCCURRED) as [->|Hr]; [exact HW|].
  apply final_leaf; [|by apply HP]. apply leaf_bind; [|intros _; apply leaf_set].
  apply leaf_when, leaf_bind; [apply leaf_look; by eexists|intros e; apply leaf_hle_errno].
Qed.

End Closed.

Create HintDb io_leaf.
#[export] Hint Resolve leaf_ret leaf_wr leaf_wr_ok leaf_set leaf_buffer leaf_when leaf_errno leaf_getfl leaf_setfl
  leaf_hle_errno : io_leaf.
#[export] Hint Extern 1 (leaf _ (_ ≫= _)) => (apply leaf_bind; [|intro]) : io_leaf.
#[export] Hint Extern 1 (leaf _ (sched (upd_current _))) => (eapply leaf_upd; [eassumption|solve_tame]) : io_leaf.
#[export] Hint Extern 1 (leaf _ (get_x _)) => (apply leaf_look; by eexists) : io_leaf.
#[export] Hint Extern 1 (leaf _ get_errno) => (apply leaf_look; by eexists) : io_leaf.
#[export] Hint Extern 1 (leaf _ find_current) => (apply leaf_look; by eexists) : io_leaf.
#[export] Hint Extern 1 (leaf _ (mem_rd_into _ _)) => (apply leaf_look; by eexists) : io_leaf.

Section ClosedCalls.
Context {E : Env} `{!GuestMemLaws E, !RegLaws E, !CpuMemLaws E, !HostAccess E, !HostAccessLaws E, !HostIo E, !HostIoLaws E}.
Context (P W : tstate -> Prop) (HC : io_closed P W).

Lemma leaf_read fd n : leaf P (host (io_read fd n)).
Proof. eapply leaf_host; [exact HC|]. intros e. apply (gs_cpu _ _ (proj1 (read_quiet fd n e))). Qed.
Lemma leaf_write fd bs : leaf P (host (io_write fd bs)).
Proof. eapply leaf_host; [exact HC|]. intros e. apply (gs_cpu _ _ (proj1 (write_quiet fd bs e))). Qed.
Lemma leaf_recv fd n fl : leaf P (host (io_recv fd n fl)).
Proof. eapply leaf_host; [exact HC|]. intros e. apply (gs_cpu _ _ (proj1 (recv_quiet fd n fl e))). Qed.
Lemma leaf_send fd bs fl : leaf P (host (io_send fd bs fl)).
Proof. eapply leaf_host; [exact HC|]. intros e. apply (gs_cpu _ _ (proj1 (send_quiet fd bs fl e))). Qed.
Lemma leaf_recvfrom fd n fl b : leaf P (host (io_recvfrom fd n fl b)).
Proof. eapply leaf_host; [exact HC|]. intros e. apply (gs_cpu _ _ (proj1 (recvfrom_quiet fd n fl b e))). Qed.
Lemma leaf_sendto fd bs fl a l : leaf P (host (io_sendto fd bs fl a l)).
Proof. eapply leaf_host; [exact HC|]. intros e. apply (gs_cpu _ _ (proj1 (sendto_quiet fd bs fl a l e))). Qed.
Lemma leaf_accept fd : leaf P (host (io_accept fd)).
Proof. eapply leaf_host; [exact HC|]. intros e. apply (gs_cpu _ _ (proj1 (accept_quiet fd e))). Qed.
Lemma leaf_epoll fd n t : leaf P (host (io_epoll_wait fd n t)).
Proof. eapply leaf_host; [exact HC|]. intros e. apply (gs_cpu _ _ (proj1 (epoll_quiet fd n t e))). Qed.
#[local] Hint Resolve leaf_read leaf_write leaf_recv leaf_send leaf_recvfrom leaf_sendto leaf_accept leaf_epoll : io_leaf.

(** Walks through a program, unfolding its pieces. *)
Ltac walk_leaf :=
  cbv beta;
  lazymatch goal with
  | |- leaf _ (_ ≫= _) => apply leaf_bind; [walk_leaf|intro; walk_leaf]
  | |- leaf _ (when _ _) => apply leaf_when; walk_leaf
  | |- leaf _ (match ?x with _ => _ end) => destruct x; walk_leaf
  | |- leaf _ (deliver _ _ _) => unfold deliver; walk_leaf
  | |- leaf _ (deliver_address _ _ _ _) => unfold deliver_address; walk_leaf
  | |- leaf _ (load_buffer _ _) => unfold load_buffer; walk_leaf
  | |- leaf _ (load_address _ _) => unfold load_address; walk_leaf
  | |- leaf _ (call_recvfrom _ _ _ _) => unfold call_recvfrom; walk_leaf
  | |- leaf _ (return_to _ _) => unfold return_to; walk_leaf
  | |- leaf _ (get_int _) => unfold get_int; walk_leaf
  | |- leaf _ (infer_addrlen _ _) => unfold infer_addrlen; walk_leaf
  | |- leaf _ (write_epoll_events_to_guest _ _ _) => unfold write_epoll_events_to_guest; walk_leaf
  | |- leaf _ (blocking_epoll_wait _ _ _ _) => unfold blocking_epoll_wait; walk_leaf
  | |- leaf _ _ => eauto 3 with io_leaf
  end.

Ltac walk :=
  cbv beta;
  lazymatch goal with
  | |- final _ _ (wait_io _) _ => by apply final_wait
  | |- final _ _ (wait_io _ ≫= _) _ => by apply final_switched
  | |- final _ _ (_ ≫= (fun r => finish_io r)) _ => apply final_handler; [exact HC|walk]
  | |- final _ _ (blocking_read _ _ _) _ => unfold blocking_read, save_read; walk
  | |- final _ _ (blocking_write _ _ _) _ => unfold blocking_write, save_write; walk
  | |- final _ _ (blocking_accept _ _ _) _ => unfold blocking_accept, save_accept; walk
  | |- final _ _ (_ ≫= _) _ => apply final_bind; [exact HC|walk_leaf|intro; walk]
  | |- final _ _ (match ?x with _ => _ end) _ => destruct x; walk
  | |- final _ _ _ (fun _ => W) => apply final_leaf; [exact HC|walk_leaf]
  | |- final _ _ _ _ => apply final_result; [exact HC|walk_leaf]
  end.

(** A call from a state with [P] ends in one with [W]. *)
Lemma closed_call c s : P s -> ends (run_call c) (fun _ => W) W s.
Proof.
  revert s. destruct c; cbn [run_call];
  match goal with |- forall s, P s -> ends ?m _ _ s => change (final P W m (fun _ => W)) end;
  unfold hle_accept, hle_send, hle_recv, hle_sendto, hle_recvfrom, hle_epoll_pwait, hle_epoll_wait, hle_read,
    hle_write, blocking_recv, blocking_send, blocking_recvfrom, blocking_sendto, blocking_accept_resume, save_accept,
    blocking_send_resume, save_send, blocking_recv_resume, save_recv, blocking_sendto_resume, save_sendto,
    blocking_recvfrom_resume, save_recvfrom, blocking_epoll_wait_resume, clear_epoll, blocking_read_resume, save_read,
    blocking_write_resume, save_write, clear_io_addr, clear_io; walk.
Qed.

End ClosedCalls.

(** * One scheme for the seven cooperative calls *)

Inductive request :=
| RqRecv (sockfd buf len flags : Z)
| RqSend (sockfd buf len flags : Z)
| RqRecvfrom (sockfd buf len flags addr_ptr addrlen_ptr : Z)
| RqSendto (sockfd buf len flags addr_ptr addrlen : Z)
| RqAccept (sockfd addr_ptr addrlen_ptr : Z)
| RqRead (fd buf count : Z)
| RqWrite (fd buf count : Z).

Definition rq_fd (rq : request) : Z :=
  match rq with
  | RqRecv fd _ _ _ | RqSend fd _ _ _ | RqRecvfrom fd _ _ _ _ _ | RqSendto fd _ _ _ _ _
  | RqAccept fd _ _ | RqRead fd _ _ | RqWrite fd _ _ => fd
  end.

Definition rq_op (rq : request) : IoOperation :=
  match rq with
  | RqRecv _ _ _ _ => RECV | RqSend _ _ _ _ => SEND | RqRecvfrom _ _ _ _ _ _ => RECVFROM
  | RqSendto _ _ _ _ _ _ => SENDTO | RqAccept _ _ _ => ACCEPT | RqRead _ _ _ => READ | RqWrite _ _ _ => WRITE
  end.

(** Where a thread that waits for the request goes on. *)
Definition rq_addr (rq : request) : Z :=
  match rq with
  | RqRecv _ _ _ _ => ADDR_RECV_RESUME | RqSend _ _ _ _ => ADDR_SEND_RESUME
  | RqRecvfrom _ _ _ _ _ _ => ADDR_RECVFROM_RESUME | RqSendto _ _ _ _ _ _ => ADDR_SENDTO_RESUME
  | RqAccept _ _ _ => ADDR_ACCEPT_RESUME | RqRead _ _ _ => ADDR_READ_RESUME | RqWrite _ _ _ => ADDR_WRITE_RESUME
  end.

Definition rq_resume (rq : request) : io_call :=
  match rq with
  | RqRecv _ _ _ _ => RRecv | RqSend _ _ _ _ => RSend | RqRecvfrom _ _ _ _ _ _ => RRecvfrom
  | RqSendto _ _ _ _ _ _ => RSendto | RqAccept _ _ _ => RAccept | RqRead _ _ _ => RRead | RqWrite _ _ _ => RWrite
  end.

(** The context has the request, to return to [ret]. *)
Definition pending (rq : request) (ret : Z) (c : ThreadContext) : Prop :=
  io_operation c = rq_op rq /\ io_fd c = rq_fd rq /\ io_return_addr c = ret /\
  match rq with
  | RqRecv _ buf len flags | RqSend _ buf len flags => io_buf_ptr c = buf /\ io_len c = len /\ io_flags c = flags
  | RqRecvfrom _ buf len flags a l | RqSendto _ buf len flags a l =>
      io_buf_ptr c = buf /\ io_len c = len /\ io_flags c = flags /\ io_addr_ptr c = a /\ io_addrlen_ptr c = l
  | RqAccept _ a l => io_addr_ptr c = a /\ io_addrlen_ptr c = l
  | RqRead _ buf n | RqWrite _ buf n => io_buf_ptr c = buf /\ io_len c = n
  end.

Section Scheme.
Context {E : Env} `{!HostAccess E, !HostIo E}.
Implicit Types s : tstate.

Notation prog := (hle tstate).

Definition rq_clear (rq : request) : prog unit :=
  match rq with RqRecvfrom _ _ _ _ _ _ | RqSendto _ _ _ _ _ _ => clear_io_addr | _ => clear_io end.

Definition rq_save (rq : request) (ret : Z) : prog unit :=
  match rq with
  | RqRecv fd b n fl => save_recv fd b n fl ret | RqSend fd b n fl => save_send fd b n fl ret
  | RqRecvfrom fd b n fl a l => save_recvfrom fd b n fl a l ret
  | RqSendto fd b n fl a l => save_sendto fd b n fl a l ret
  | RqAccept fd a l => save_accept fd a l ret | RqRead fd b n => save_read fd b n ret
  | RqWrite fd b n => save_write fd b n ret
  end.

(** What is read from the guest before the call: data and address. *)
Definition rq_prepare (rq : request) : prog (list Z * option (list Z)) :=
  match rq with
  | RqSend _ b n _ | RqWrite _ b n => data ← load_buffer b n; mret (data, None)
  | RqSendto _ b n _ a l => data ← load_buffer b n; addr ← load_address a l; mret (data, addr)
  | _ => mret ([], None)
  end.

(** The buffer allocated between setting the flags and the call. *)
Definition rq_buffer (rq : request) : option Z :=
  match rq with RqRecv _ _ n _ | RqRecvfrom _ _ n _ _ _ | RqRead _ _ n => Some n | _ => None end.

Definition address_writes (a l : Z) (got : list Z * Z) : list (Z * list Z) :=
  (if a =? 0 then [] else [(a, take (Z.to_nat got.2) got.1)]) ++ (if l =? 0 then [] else [(l, le_bytes 4 got.2)]).

(** The host's call: its result and what it has to store in the guest. *)
Definition rq_call (rq : request) (data : list Z * option (list Z)) (e : env) : (Z * list (Z * list Z)) * env :=
  match rq with
  | RqRecv fd b n fl =>
      let '((r, buf), e') := io_recv fd n fl e in ((r, if 0 <? r then [(b, take (Z.to_nat r) buf)] else []), e')
  | RqRead fd b n =>
      let '((r, buf), e') := io_read fd n e in ((r, if 0 <? r then [(b, take (Z.to_nat r) buf)] else []), e')
  | RqRecvfrom fd b n fl a l =>
      let '((r, buf, got), e') := io_recvfrom fd n fl (negb (a =? 0)) e in
      ((r, (if 0 <? r then [(b, take (Z.to_nat r) buf)] else []) ++
           address_writes a l
             (if a =? 0 then (replicate (Z.to_nat SOCKADDR_STORAGE_SIZE) 0, SOCKADDR_STORAGE_SIZE) else got)), e')
  | RqAccept fd a l => let '((r, got), e') := io_accept fd e in ((r, address_writes a l got), e')
  | RqSend fd _ _ fl => let '(r, e') := io_send fd data.1 fl e in ((r, []), e')
  | RqSendto fd _ _ fl _ l => let '(r, e') := io_sendto fd data.1 fl data.2 (u32 l) e in ((r, []), e')
  | RqWrite fd _ _ => let '(r, e') := io_write fd data.1 e in ((r, []), e')
  end.

Fixpoint run_writes (ws : list (Z * list Z)) : prog unit :=
  match ws with [] => mret tt | (a, bs) :: ws' => mem_wr a bs;; run_writes ws' end.

(** One attempt: [done] ends a call that does not block, [parked] one that does. *)
Definition attempt {A} (rq : request) (save : prog unit) (done : Z -> prog A) (parked : prog A) : prog A :=
  data ← rq_prepare rq;
  orig_flags ← getfl (rq_fd rq);
  setfl (rq_fd rq) (Z.lor orig_flags O_NONBLOCK);;
  match rq_buffer rq with Some n => new_buffer n | None => mret tt end;;
  '(result, ws) ← host (rq_call rq data);
  if 0 <=? result
  then run_writes ws;; setfl (rq_fd rq) orig_flags;; done result
  else
    e ← get_errno;
    if would_block e
    then save;; setfl (rq_fd rq) orig_flags;; wait_io (rq_fd rq);; parked
    else setfl (rq_fd rq) orig_flags;; done result.

(** Both sides of an equation between programs, call by call. *)
Ltac same_calls :=
  repeat match goal with
  | |- context [match ?x with _ => _ end] =>
      lazymatch x with
      | context [match _ with _ => _ end] => fail
      | _ => destruct x; cbn; unfold mbind, hle_bind, mret, hle_ret; cbn; try reflexivity
      end
  end.

Ltac open_calls :=
  unfold attempt; cbn [rq_prepare rq_fd rq_buffer rq_call rq_save rq_clear];
  unfold deliver, deliver_address, call_recvfrom, load_address, load_buffer, return_to, when, wait_io, getfl, setfl,
    host, get_errno, sched, get_x, new_buffer, find_current, mem_rd_into, mbind, hle_bind, mret, hle_ret;
  cbn; unfold address_writes.

Lemma attempt_read fd b n s : blocking_read fd b n s =
  attempt (RqRead fd b n) (lr ← get_x REG_LR; rq_save (RqRead fd b n) lr) mret (mret CONTEXT_SWITCH_OCCURRED) s.
Proof. unfold blocking_read. open_calls. same_calls. Qed.

Lemma attempt_write fd b n s : blocking_write fd b n s =
  attempt (RqWrite fd b n) (lr ← get_x REG_LR; rq_save (RqWrite fd b n) lr) mret (mret CONTEXT_SWITCH_OCCURRED) s.
Proof. unfold blocking_write. open_calls. same_calls. Qed.

Lemma attempt_accept fd a l s : blocking_accept fd a l s =
  attempt (RqAccept fd a l) (lr ← get_x REG_LR; rq_save (RqAccept fd a l) lr) mret (mret CONTEXT_SWITCH_OCCURRED) s.
Proof. unfold blocking_accept. open_calls. destruct (a =? 0), (l =? 0); cbn; same_calls. Qed.

(** Every resume half is an attempt at the request the context holds. *)
Lemma attempt_resume rq ret s c : current s = Some c -> pending rq ret c ->
  run_call (rq_resume rq) s = (rq_clear rq;; attempt rq (rq_save rq ret) (fun r => return_to r ret) (mret tt)) s.
Proof.
  intros Hc (Ho & Hfd & Hr & Hm). destruct rq as [fd b n fl|fd b n fl|fd b n fl a l|fd b n fl a l|fd a l|fd b n|fd b n];
    cbn [rq_resume run_call rq_fd rq_op] in *.
  - destruct Hm as (<- & <- & <-). subst. unfold blocking_recv_resume. open_calls. rewrite Hc. cbn. same_calls.
  - destruct Hm as (<- & <- & <-). subst. unfold blocking_send_resume. open_calls. rewrite Hc. cbn. same_calls.
  - destruct Hm as (<- & <- & <- & <- & <-). subst. unfold blocking_recvfrom_resume. open_calls. rewrite Hc. cbn.
    destruct (io_addr_ptr c =? 0), (io_addrlen_ptr c =? 0); cbn; same_calls.
  - destruct Hm as (<- & <- & <- & <- & <-). subst. unfold blocking_sendto_resume. open_calls. rewrite Hc. cbn.
    destruct (has_address _ _); cbn; same_calls.
  - destruct Hm as (<- & <-). subst. unfold blocking_accept_resume. open_calls. rewrite Hc. cbn.
    destruct (io_addr_ptr c =? 0), (io_addrlen_ptr c =? 0); cbn; same_calls.
  - destruct Hm as (<- & <-). subst. unfold blocking_read_resume. open_calls. rewrite Hc. cbn. same_calls.
  - destruct Hm as (<- & <-). subst. unfold blocking_write_resume. open_calls. rewrite Hc. cbn. same_calls.
Qed.

End Scheme.

(** The general registers, SP and PC hold 64 bits. *)
Class Wide64 (E : Env) `{!RegLaws E} := {
  wide64 r v : 0 <= r <= REG_PC -> 0 <= v < two64 -> reg_ok r v;
  narrow64 r e : 0 <= r <= REG_PC -> 0 <= read_reg r e < two64;
}.

(** * A thread that waits for a request *)

(** The registers a waiting thread will be given back. *)
Definition resuming (rq : request) (regs : RegisterState) : RegisterState := regs <| rpc := rq_addr rq |>.

Lemma rq_addr_range rq : in_hle_range (rq_addr rq) = true /\ 0 <= rq_addr rq < two64.
Proof. by destruct rq. Qed.

Lemma pending_operation rq ret c : pending rq ret c -> io_operation c <> IO_NONE.
Proof. intros (-> & _). by destruct rq. Qed.

(** What a context has to say about its I/O. *)
Definition io_info (c : ThreadContext) :=
  (io_operation c, io_fd c, io_return_addr c, (io_buf_ptr c, io_len c, io_flags c), (io_addr_ptr c, io_addrlen_ptr c)).

Lemma pending_info rq ret c c' : io_info c' = io_info c -> pending rq ret c -> pending rq ret c'.
Proof.
  intros H. injection H as E1 E2 E3 E4 E5 E6 E7 E8. unfold pending. rewrite E1, E2, E3.
  destruct rq; by rewrite ?E4, ?E5, ?E6, ?E7, ?E8.
Qed.

Lemma parked_info reason `{E : Env} (e : env) t c : io_info (parked reason e t c) = io_info c.
Proof. by destruct reason. Qed.

Section Waiting.
Context {E : Env} `{!GuestMemLaws E, !RegLaws E, !CpuMemLaws E, !HostAccess E, !HostAccessLaws E, !HostIo E, !HostIoLaws E, !Wide64 E}.
Context (k : Z) (rq : request) (ret : Z) (regs : RegisterState).
Implicit Types s : tstate.

Definition waits (c : ThreadContext) : Prop :=
  pending rq ret c /\ registers c = resuming rq regs /\
  (state c = IO_WAIT \/ state c = RUNNABLE \/ state c = RUNNING).

(** Thread [k] has the request; if it is current, it runs at the resume address
    with the registers of the call, or (nobody else being ready) waits with them. *)
Record waiting s : Prop := {
  wt_ok : sched_ok (tm s);
  wt_cpu : has_cpu (ext (ms s)) = true;
  wt_req : follows k waits (tm s);
  wt_cur : current_thread_id_ (tm s) = k ->
    exists pc c, read_registers (ext (ms s)) = regs <| rpc := pc |> /\ current s = Some c /\
      (state c = IO_WAIT \/ state c = RUNNING /\ pc = rq_addr rq);
}.

Lemma waits_wake d : state d = SLEEPING \/ state d = IO_WAIT -> waits d -> waits (d <| ThreadTypes.state := RUNNABLE |>).
Proof. intros _ (H & Hr & _). split_and!; [by eapply pending_info|done|]. right. by left. Qed.

Lemma waits_run t d : state d = RUNNABLE -> waits d -> waits (running t d).
Proof. intros _ (H & Hr & _). split_and!; [by eapply pending_info|done|]. right. by right. Qed.

Lemma cpu_switch reason s : has_cpu (ext (ms s)) = true -> has_cpu (ext (ms (context_switch reason s))) = true.
Proof.
  apply (pw_switch (fun e => has_cpu e = true)).
  - intros r v e. by rewrite has_cpu_write_reg.
  - intros r v e. by rewrite has_cpu_write_vreg.
  - intros e. by rewrite (gs_cpu _ _ (proj1 (now_quiet e))).
  - intros n e. by rewrite (gs_cpu _ _ (proj1 (sleep_quiet n e))).
  - intros fd ev e. by rewrite (gs_cpu _ _ (proj1 (poll_quiet fd ev e))).
Qed.

Lemma same_registers e e' : guest_same e e' -> read_registers e' = read_registers e.
Proof.
  intros [Hc Hr Hv _ _ _]. unfold read_registers, get_reg, get_vreg. rewrite Hc.
  rewrite !Hr. f_equal; apply map_ext; intros i; by rewrite ?Hr, ?Hv.
Qed.

Lemma stuck_registers reason s c : sched_ok (tm s) -> current s = Some c -> state c <> TERMINATED ->
  ~ someone_runs (tm (context_switch reason s)) ->
  read_registers (ext (ms (context_switch reason s))) = read_registers (ext (ms s)).
Proof.
  intros Hok Hc Hst Hno. apply (pw_stuck (fun e => read_registers e = read_registers (ext (ms s))) reason s c); try done.
  - intros e <-. apply same_registers, now_quiet.
  - intros n e <-. apply same_registers, sleep_quiet.
  - intros fd ev e <-. apply same_registers, poll_quiet.
Qed.

(** The same before the registers of a blocking thread are saved. *)
Definition held (c : ThreadContext) s : Prop :=
  exists pc, pending rq ret c /\ read_registers (ext (ms s)) = regs <| rpc := pc |> /\
    (state c = IO_WAIT /\ rpc (registers c) = rq_addr rq \/ state c = RUNNING /\ pc = rq_addr rq).

Lemma saved_held c s : held c s -> saved_registers (ext (ms s)) c = resuming rq regs.
Proof.
  intros (pc & Hp & He & Hst). unfold saved_registers. rewrite He. destruct Hst as [[Hs Hr]|[Hs ->]].
  - unfold has_resume_pc, is_state. rewrite Hs. rewrite (bool_decide_false _ (pending_operation _ _ _ Hp)).
    cbn. rewrite Hr. by rewrite (proj1 (rq_addr_range rq)).
  - by rewrite has_resume_pc_running.
Qed.

Lemma waiting_held s c : waiting s -> current_thread_id_ (tm s) = k -> current s = Some c -> held c s.
Proof.
  intros [_ _ (d & Hd & Hp & Hr & _) Hcur] Ek Hc. destruct (Hcur Ek) as (pc & c0 & Hrg & Hc0 & Hst).
  assert (d = c) as -> by (unfold current in Hc; rewrite Ek in Hc; congruence). simplify_eq.
  exists pc. split_and!; [done..|]. destruct Hst as [Hs|Hs]; [|by right]. left. split; [done|]. by rewrite Hr.
Qed.

Context (regs_ok : regs_wf regs).

Lemma resuming_wf : regs_wf (resuming rq regs).
Proof.
  destruct regs_ok. constructor; cbn; try done. apply wide64; [unfold REG_PC; lia|apply rq_addr_range].
Qed.

(** A switch that goes through, away from [k] or from another thread. *)
Lemma switch_waits reason s c : sched_ok (tm s) -> has_cpu (ext (ms s)) = true -> current s = Some c ->
  block_next_switch c && negb (voluntary reason) = false ->
  (current_thread_id_ (tm s) = k -> held c s) -> (current_thread_id_ (tm s) <> k -> follows k waits (tm s)) ->
  waiting (context_switch reason s).
Proof.
  intros Hok Hcpu Hc Hb Hcur Hreq. pose proof (cpu_switch reason s Hcpu) as Hcpu'.
  assert (Hreq' : follows k waits (tm (context_switch reason s))).
  { destruct (decide (current_thread_id_ (tm s) = k)) as [Ek|Hne].
    - pose proof (Hcur Ek) as Hh. rewrite <- Ek. apply (switch_outgoing reason s c waits Hok Hc Hb waits_wake waits_run).
      intros t. pose proof (saved_held c s Hh) as Hsv. destruct Hh as (pc & Hp & _ & Hst).
      split_and!; [by eapply pending_info; [apply parked_info|]|exact Hsv|]. cbn.
      destruct (is_state RUNNING c) eqn:Hs; [right; by left|]. apply is_state_false in Hs. destruct Hst as [[]|[]]; auto.
    - apply (switch_other reason s k waits Hok (not_eq_sym Hne) waits_wake waits_run). auto. }
  destruct (context_switch_progress reason s c Hok Hc Hb) as [Hok' Hor].
  constructor; [done..|]. intros Ek. destruct Hreq' as (d & Hd & Hw).
  assert (Hd' : current (context_switch reason s) = Some d) by (unfold current; by rewrite Ek).
  destruct Hor as [(d' & Hd1 & Hrun)|[Hno Esame]].
  - assert (d' = d) as -> by (rewrite Ek in Hd1; congruence). exists (rq_addr rq), d. split_and!; [|done|by right].
    rewrite (switch_restores_incoming reason s c d Hok Hc Hb Hd' Hrun Hcpu'); [apply Hw|].
    rewrite (proj1 (proj2 Hw)). apply resuming_wf.
  - rewrite Esame in Ek. destruct (Hcur Ek) as (pc & _ & Hrg & Hst). exists pc, d. split_and!; [|done|].
    + rewrite (stuck_registers reason s c Hok Hc); [done| |].
      * destruct Hst as [[-> _]|[-> _]]; done.
      * intros (x & Hx & Hrun). by destruct (Hno _ _ Hx).
    + left. destruct (Hno _ _ Hd) as [H1 H2]. destruct Hw as (_ & _ & [?|[?|?]]); done.
Qed.

(** Whoever switches, for whatever reason, the request waits on. *)
Lemma waiting_switch reason s : waiting s -> waiting (context_switch reason s).
Proof.
  intros Hwt. destruct (current s) as [c|] eqn:Hc.
  2: { unfold context_switch. unfold current in Hc. by rewrite Hc. }
  destruct (block_next_switch c && negb (voluntary reason)) eqn:Hb.
  { unfold context_switch. unfold current in Hc. by rewrite Hc, Hb. }
  apply (switch_waits reason s c); try done; [apply Hwt..| |]; [intros Ek; by apply waiting_held|]. intros _. apply Hwt.
Qed.

(** Other threads' I/O. *)
Lemma waiting_closed : io_closed (fun s => waiting s /\ current_thread_id_ (tm s) <> k) waiting.
Proof.
  assert (Hupd : forall f s, tame f -> waiting s -> current_thread_id_ (tm s) <> k -> waiting (upd_current f s)).
  { intros f s Hf [H1 H2 (d & Hd & Hw) H4] Hne. constructor; [by apply sched_ok_alter|done| |done].
    exists d. split; [|done]. cbn. by rewrite lookup_alter_ne. }
  constructor.
  - intros s m Hc [[H1 H2 H3 H4] Hne]. split; [|done]. by constructor; [|rewrite <- H2| |].
  - intros f s Hf [H Hne]. split; [by apply Hupd|done].
  - intros fd s [H Hne]. apply waiting_switch, Hupd; [solve_tame|done..].
  - by intros s [H _].
Qed.

Lemma waiting_call c s : waiting s -> current_thread_id_ (tm s) <> k ->
  match run_call c s with Ret _ s' | Thrown s' => waiting s' | Segv => True end.
Proof.
  intros H Hne. pose proof (closed_call _ _ waiting_closed c s (conj H Hne)) as He. unfold ends in He.
  by destruct (run_call c s).
Qed.

End Waiting.

(** * One attempt *)

Section Attempt.
Context {E : Env} `{!GuestMemLaws E, !RegLaws E, !CpuMemLaws E, !HostAccess E, !HostAccessLaws E, !HostIo E, !HostIoLaws E, !Wide64 E}.
Implicit Types s : tstate.

Definition world (e : env) s : tstate := s <| ms ::= fun m => m <| ext := e |> |>.

(** The bytes [mem_read] gives, and what a request takes from the guest. *)
Definition guest_bytes (a n : Z) s : list Z := default (unread a n s) (gread a n s).
Definition rq_data (rq : request) s : list Z * option (list Z) :=
  match rq with
  | RqSend _ b n _ | RqWrite _ b n => (guest_bytes b n s, None)
  | RqSendto _ b n _ a l => (guest_bytes b n s, if has_address a l then Some (guest_bytes a l s) else None)
  | _ => ([], None)
  end.

(** The host serves the buffers of the call. *)
Definition rq_sizes (rq : request) : list Z :=
  match rq with
  | RqRecv _ _ n _ | RqSend _ _ n _ | RqRecvfrom _ _ n _ _ _ | RqRead _ _ n | RqWrite _ _ n => [n]
  | RqSendto _ _ n _ a l => [n; if has_address a l then l else 1]
  | RqAccept _ _ _ => []
  end.
Definition buffers (rq : request) : Prop := forall n e, n ∈ rq_sizes rq -> can_alloc n e = true.

Lemma buffer_ret n s : can_alloc n (ext (ms s)) = true -> new_buffer n s = Ret tt s.
Proof. intros H. unfold new_buffer. cbn. by rewrite H. Qed.

Lemma prepare_data rq s : buffers rq -> rq_prepare rq s = Ret (rq_data rq s) s.
Proof.
  intros Hb. assert (Hn : forall n, n ∈ rq_sizes rq -> new_buffer n s = Ret tt s) by (intros n ?; by apply buffer_ret, Hb).
  destruct rq; try done; cbn [rq_prepare rq_data rq_sizes] in *; unfold load_address, load_buffer, mbind, hle_bind.
  1, 3: rewrite Hn by set_solver; done.
  rewrite Hn by set_solver. cbn. by destruct (has_address _ _); rewrite Hn by set_solver.
Qed.

(** The world in which the call is made: [O_NONBLOCK] is set. *)
Record nonblocking (fd d : Z) (e e1 : env) : Prop := {
  nb_guest : guest_same e e1;
  nb_fd : descr fd e = Some d;
  nb_descr x y : descr x e = Some y -> descr x e1 = Some y;
  nb_status x y : descr x e = Some y ->
    status y e1 = if decide (y = d) then Z.lor (status d e) O_NONBLOCK else status y e;
  nb_made : e1 = fcntl_setfl fd (Z.lor (status d e) O_NONBLOCK) (fcntl_getfl fd e).2;
}.

Lemma guest_same_trans e1 e2 e3 : guest_same e1 e2 -> guest_same e2 e3 -> guest_same e1 e3.
Proof. intros [] []. constructor; intros; etrans; eauto. Qed.

Lemma make_nonblocking fd d e : descr fd e = Some d ->
  nonblocking fd d e (fcntl_setfl fd (Z.lor (status d e) O_NONBLOCK) (fcntl_getfl fd e).2).
Proof.
  intros Hd. destruct (getfl_quiet fd e) as [Hg Hf]. destruct (Hf fd d Hd) as [Hd1 Hs1].
  constructor; [by eapply guest_same_trans; [|apply setfl_quiet]|done|..|done].
  - intros x y Hx. by apply setfl_descr, (proj1 (Hf x y Hx)).
  - intros x y Hx. destruct (Hf x y Hx) as [Hx1 Hs]. destruct (decide (y = d)) as [->|Hne].
    + apply setfl_status; [done|]. rewrite Hs1, <- Z.lor_assoc, Z.lor_diag. done.
    + by rewrite (setfl_other fd d _ x y).
Qed.

(** Putting the flags back. *)
Lemma restore_flags fd d e e1 e2 : nonblocking fd d e e1 -> fds_same e1 e2 -> fds_same e (fcntl_setfl fd (status d e) e2).
Proof.
  intros [_ Hd Hde Hst] Hf x y Hx. destruct (Hf x y (Hde x y Hx)) as [Hx2 Hs2].
  destruct (Hf fd d (Hde fd d Hd)) as [Hd2 Hsd]. split; [by apply setfl_descr|].
  rewrite (Hst x y Hx) in Hs2. rewrite (Hst fd d Hd), decide_True in Hsd by done.
  destruct (decide (y = d)) as [->|Hne].
  - apply setfl_status; [done|]. rewrite Hsd, <- Z.lor_assoc, Z.lor_diag. done.
  - by rewrite (setfl_other fd d _ x y).
Qed.

Lemma call_quiet rq data e : guest_same e (rq_call rq data e).2 /\ fds_same e (rq_call rq data e).2.
Proof.
  destruct rq; cbn [rq_call].
  - pose proof (recv_quiet sockfd len flags e). by destruct (io_recv _ _ _ _) as [[]].
  - pose proof (send_quiet sockfd data.1 flags e). by destruct (io_send _ _ _ _).
  - pose proof (recvfrom_quiet sockfd len flags (negb (addr_ptr =? 0)) e). by destruct (io_recvfrom _ _ _ _ _) as [[[]]].
  - pose proof (sendto_quiet sockfd data.1 flags data.2 (u32 addrlen) e). by destruct (io_sendto _ _ _ _ _ _).
  - pose proof (accept_quiet sockfd e). by destruct (io_accept _ _) as [[]].
  - pose proof (read_quiet fd count e). by destruct (io_read _ _ _) as [[]].
  - pose proof (write_quiet fd data.1 e). by destruct (io_write _ _ _).
Qed.

Lemma bind_ret {A B} (m : hle tstate A) (f : A -> hle tstate B) s a s' : m s = Ret a s' -> (m ≫= f) s = f a s'.
Proof. intros H. unfold mbind, hle_bind. by rewrite H. Qed.

Lemma host_ret {A} (f : env -> A * env) s : host f s = Ret (f (ext (ms s))).1 (world (f (ext (ms s))).2 s).
Proof. unfold host, world. by destruct (f _). Qed.

(** How an attempt on an open descriptor goes. *)
Lemma attempt_outcome {A} rq save (finished : Z -> hle tstate A) parked s d :
  buffers rq -> descr (rq_fd rq) (ext (ms s)) = Some d ->
  exists e1 r ws e2, nonblocking (rq_fd rq) d (ext (ms s)) e1 /\ rq_call rq (rq_data rq s) e1 = ((r, ws), e2) /\
    let back := setfl (rq_fd rq) (status d (ext (ms s))) in
    attempt rq save finished parked s =
      if 0 <=? r then (run_writes ws;; back;; finished r) (world e2 s)
      else if would_block (host_errno e2) then (save;; back;; wait_io (rq_fd rq);; parked) (world e2 s)
      else (back;; finished r) (world e2 s).
Proof.
  intros Hb Hd. pose proof (make_nonblocking _ _ _ Hd) as Hnb. pose proof (getfl_status _ _ _ Hd) as Hfl.
  set (e1 := fcntl_setfl (rq_fd rq) (Z.lor (status d (ext (ms s))) O_NONBLOCK) (fcntl_getfl (rq_fd rq) (ext (ms s))).2) in *.
  destruct (rq_call rq (rq_data rq s) e1) as [[r ws] e2] eqn:Hcall. exists e1, r, ws, e2. split_and!; [done..|].
  cbv zeta. unfold attempt. rewrite (bind_ret _ _ _ _ _ (prepare_data rq s Hb)).
  rewrite (bind_ret (getfl (rq_fd rq)) _ _ _ _ (host_ret (fcntl_getfl (rq_fd rq)) s)), Hfl.
  rewrite (bind_ret (setfl _ _) _ _ _ _ (host_ret (fun e => (tt, fcntl_setfl (rq_fd rq) _ e)) _)). cbn [fst snd].
  change (world (fcntl_setfl _ _ _) (world _ s)) with (world e1 s).
  assert (Hbuf : (match rq_buffer rq with Some n => new_buffer n | None => mret tt end) (world e1 s) = Ret tt (world e1 s)).
  { destruct rq; try done; apply buffer_ret, Hb; cbn; set_solver. }
  rewrite (bind_ret _ _ _ _ _ Hbuf), (bind_ret _ _ _ _ _ (host_ret (rq_call rq (rq_data rq s)) _)).
  change (ext (ms (world e1 s))) with e1. rewrite Hcall. cbn [fst snd].
  change (world e2 (world e1 s)) with (world e2 s). destruct (0 <=? r); [done|].
  rewrite (bind_ret get_errno _ (world e2 s) (host_errno e2) (world e2 s)) by done. by destruct (would_block _).
Qed.

#[export] Instance tstate_laws : MemLaws tstate := lift_laws ms ts_put (fun _ _ => eq_refl).
#[export] Instance tstate_regs : RegFileLaws tstate := lift_regs ms ts_put (fun _ _ => eq_refl).
#[export] Instance tstate_host_laws : HostLaws tstate := lift_host_laws ms ts_put (fun _ _ => eq_refl).

(** ** Memory *)

Lemma world_became e s : sane s -> guest_same (ext (ms s)) e -> became s (byte_at s) (world e s).
Proof.
  intros [H1 H2 H3 H4] [G1 G2 G3 G4 G5 G6].
  assert (Eu : use_qemu (ms (world e s)) = use_qemu (ms s)) by (unfold use_qemu; cbn; by rewrite G1).
  constructor.
  - constructor; [done|by cbn; rewrite G1|done|done].
  - intros a n. change (mem_mapped a n (ms (world e s)) <-> mem_mapped a n (ms s)). unfold mem_mapped. rewrite Eu.
    destruct (use_qemu (ms s)); [apply G5|done].
  - intros a n. change (mem_writable a n (ms (world e s)) <-> mem_writable a n (ms s)). unfold mem_writable. rewrite Eu.
    destruct (use_qemu (ms s)); [apply G6|done].
  - intros x. change (mem_byte (ms (world e s)) x = mem_byte (ms s) x). unfold mem_byte, mem_read. rewrite Eu.
    cbn. by rewrite G4.
  - intros r. cbn. unfold get_reg. by rewrite G1, G2.
Qed.

(** What a list of stores makes of a byte map. *)
Definition all_stored (f : Z -> option Z) (ws : list (Z * list Z)) : Z -> option Z :=
  foldl (fun f w => stored f w.1 w.2) f ws.

Definition storable (ws : list (Z * list Z)) s : Prop :=
  forall w, w ∈ ws -> w.2 <> [] /\ mapped w.1 (Z.of_nat (length w.2)) s.

Lemma fds_same_trans e1 e2 e3 : fds_same e1 e2 -> fds_same e2 e3 -> fds_same e1 e3.
Proof. intros H1 H2 fd d Hd. destruct (H1 fd d Hd) as [Hd1 Hs1]. destruct (H2 fd d Hd1) as [Hd2 Hs2]. split; congruence. Qed.

Lemma fds_same_refl e : fds_same e e.
Proof. done. Qed.

Lemma rw_write_registers a bs e : read_registers (rw_debug_write a bs e).2 = read_registers e.
Proof.
  unfold read_registers, get_reg, get_vreg. rewrite has_cpu_rw_write.
  rewrite !read_reg_rw_write. f_equal; apply map_ext; intros i; by rewrite ?read_reg_rw_write, ?vreg_rw_write.
Qed.

Lemma run_writes_became ws s0 f s : became s0 f s -> storable ws s0 ->
  exists m, run_writes ws s = Ret tt (s <| ms := m |>) /\ became s0 (all_stored f ws) (s <| ms := m |>) /\
    read_registers (ext m) = read_registers (ext (ms s)) /\ has_cpu (ext m) = has_cpu (ext (ms s)) /\
    fds_same (ext (ms s)) (ext m).
Proof.
  revert f s. induction ws as [|[a bs] ws IH]; intros f s Hb Hs.
  { exists (ms s). by destruct s. }
  destruct (Hs (a, bs)) as [Hne Hm]; [by left|]. pose proof (write_became a bs s0 f s Hb Hm Hne) as Hb1.
  assert (Ew : (gwrite a bs s).2 = s <| ms := (mem_write a bs (ms s)).2 |>) by (cbn; by destruct (mem_write a bs (ms s))).
  rewrite Ew in Hb1. destruct (IH _ _ Hb1) as (m & Hr & Hb2 & Hg & Hc & Hf); [intros w ?; apply Hs; by right|].
  exists m. cbn [run_writes]. rewrite (bind_ret _ _ _ tt (gwrite a bs s).2) by done. rewrite Ew, Hr.
  split_and!; [done|exact Hb2|rewrite Hg|rewrite Hc|]; cbn.
  - apply (p_mem_write (fun e => read_registers e = read_registers (ext (ms s)))); [|done].
    intros x y e <-. apply rw_write_registers.
  - apply cpu_mem_write.
  - eapply fds_same_trans; [|exact Hf]. cbn.
    apply (p_mem_write (fun e => fds_same (ext (ms s)) e)); [|apply fds_same_refl].
    intros x y e H. eapply fds_same_trans; [exact H|apply fds_rw_write].
Qed.

(** ** Registers *)

Lemma read_set_x0 v e : has_cpu e = true -> 0 <= v < two64 ->
  read_registers (set_reg REG_X0 v e) = (read_registers e) <| rx ::= <[0%nat := v]> |>.
Proof.
  intros Hc Hv. unfold read_registers.
  rewrite !(get_set_reg_ne _ REG_X0) by (unfold REG_X0, REG_SP, REG_PC, REG_TPIDR_EL0, REG_LR, REG_CPSR, REG_FPCR, REG_FPSR; lia).
  assert (Ex : map (fun i => get_reg (REG_X (Z.of_nat i)) (set_reg REG_X0 v e)) (seq 0 31) =
    <[0%nat := v]> (map (fun i => get_reg (REG_X (Z.of_nat i)) e) (seq 0 31))).
  { change (seq 0 31) with (0%nat :: seq 1 30). cbn [map]. change (REG_X (Z.of_nat 0)) with REG_X0.
    rewrite get_set_reg by (done || by apply wide64). cbn [list_insert insert]. f_equal.
    apply map_ext_in. intros i [Hi _]%in_seq. apply get_set_reg_ne. unfold REG_X, REG_X0. lia. }
  rewrite Ex, (map_ext (fun i => get_vreg (REG_V (Z.of_nat i)) (set_reg REG_X0 v e)) (fun i => get_vreg (REG_V (Z.of_nat i)) e));
    [reflexivity|]. intros i. apply get_vreg_set_reg.
Qed.

Lemma read_set_lr v e : has_cpu e = true -> get_reg REG_LR e = v -> reg_ok REG_LR v ->
  read_registers (set_reg REG_LR v e) = read_registers e.
Proof.
  intros Hc Hv Hok. unfold read_registers. assert (Hr : forall r, get_reg r (set_reg REG_LR v e) = get_reg r e).
  { intros r. destruct (decide (r = REG_LR)) as [->|Hne]; [by rewrite get_set_reg|by apply get_set_reg_ne]. }
  rewrite !Hr. f_equal; [apply map_ext; intros i; apply Hr|apply map_ext; intros i; apply get_vreg_set_reg].
Qed.

End Attempt.

(** * A concrete boundary *)

(** The reference boundary, 64-bit registers and pipes.  Reading an empty pipe
    fails with EAGAIN, writing to descriptor [fd] fills the pipe read from
    [fd + 1], nobody connects. *)
Record Pipes := { p_data : gmap Z (list Z); p_flags : gmap Z Z; p_errno : Z }.

Definition eta_pipes (p : Pipes) : Pipes := Build_Pipes (p_data p) (p_flags p) (p_errno p).
#[export] Instance set_p_data : Setter p_data := ltac:(build_setter eta_pipes p_data).
#[export] Instance set_p_flags : Setter p_flags := ltac:(build_setter eta_pipes p_flags).
#[export] Instance set_p_errno : Setter p_errno := ltac:(build_setter eta_pipes p_errno).

(** The width of a register. *)
Definition io_trunc (r v : Z) : Z :=
  if (0 <=? r) && (r <=? REG_PC) then u64 v else ref_trunc r v.

Definition IoEnv : Env := {|
  env := RefState * Pipes;
  has_cpu e := ref_cpu e.1;
  read_reg r e := io_trunc r (default 0 (ref_regs e.1 !! r));
  write_reg r v e := (e.1 <| ref_regs ::= <[r := v]> |>, e.2);
  read_vreg r e := @read_vreg RefEnv r e.1;
  write_vreg r v e := (@write_vreg RefEnv r v e.1, e.2);
  rw_debug_read a n e := @rw_debug_read RefEnv a n e.1;
  rw_debug_write a bs e := let '(ok, x) := @rw_debug_write RefEnv a bs e.1 in (ok, (x, e.2));
  target_mmap a n p e := let '(r, x) := @target_mmap RefEnv a n p e.1 in (r, (x, e.2));
  host_mmap n e := let '(r, x) := @host_mmap RefEnv n e.1 in (r, (x, e.2));
  host_munmap p n e := (@host_munmap RefEnv p n e.1, e.2);
  steady_now e := let '(t, x) := @steady_now RefEnv e.1 in (t, (x, e.2));
  sleep_ms n e := (@sleep_ms RefEnv n e.1, e.2);
  poll_fd fd ev e := let '(r, v, x) := @poll_fd RefEnv fd ev e.1 in (r, v, (x, e.2));
  walk_order ks e := @walk_order RefEnv ks e.1;
|}.

Lemma io_rw_write a bs (e : @env IoEnv) : @rw_debug_write IoEnv a bs e =
  ((@rw_debug_write RefEnv a bs e.1).1, ((@rw_debug_write RefEnv a bs e.1).2, e.2)).
Proof. cbn. by destruct (ref_accessible _ _ _). Qed.

Lemma io_mmap a n p (e : @env IoEnv) : @target_mmap IoEnv a n p e =
  ((@target_mmap RefEnv a n p e.1).1, ((@target_mmap RefEnv a n p e.1).2, e.2)).
Proof. done. Qed.

#[export] Instance IoRegLaws : @RegLaws IoEnv.
Proof.
  refine (@Build_RegLaws IoEnv (fun r v => io_trunc r v = v) _ _ _ _ _ _ _ _ _ _); cbn; intros; try done.
  - unfold io_trunc, ref_trunc. destruct (_ && _); [|destruct (_ || _); [|done]]; [unfold u64|unfold u32]; by rewrite Zmod_mod.
  - unfold io_trunc, ref_trunc in *. destruct H as [-> | ->]; cbn in *; rewrite <- H0; by apply Z.mod_pos_bound.
  - by rewrite lookup_insert_eq.
  - by rewrite lookup_insert_ne by congruence.
  - by rewrite lookup_insert_eq.
  - by rewrite lookup_insert_ne by congruence.
Defined.

#[export] Instance IoWide : @Wide64 IoEnv IoRegLaws.
Proof.
  constructor; cbn; intros r v Hr; unfold io_trunc;
    rewrite (proj2 (Z.leb_le 0 r)), (proj2 (Z.leb_le r REG_PC)) by lia; cbn; [apply u64_small|apply u64_range].
Qed.

#[export] Instance IoGuestMem : @GuestMemLaws IoEnv.
Proof.
  constructor.
  - intros a bs e e'. rewrite io_rw_write. destruct (@rw_debug_write RefEnv a bs e.1) as [ok x] eqn:Hw. cbn [fst snd].
    intros [= -> <-]. exact (@rw_read_write RefEnv _ a bs e.1 _ Hw).
  - intros a bs b m e ok e'. rewrite io_rw_write. destruct (@rw_debug_write RefEnv a bs e.1) as [ok' x] eqn:Hw. cbn [fst snd].
    intros [= -> <-] Hd. eapply (@rw_read_write_disj RefEnv _ a bs b m e.1); [exact Hw|exact Hd].
  - intros a n b m bs e. exact (@rw_read_sub RefEnv _ a n b m bs e.1).
  - intros a n p bs e e'. rewrite io_mmap. destruct (@target_mmap RefEnv a n p e.1) as [r x] eqn:Hw. cbn [fst snd].
    intros [= -> <-] Hn. rewrite io_rw_write. exact (@mmap_write RefEnv _ a n p bs e.1 _ Hw Hn).
  - intros a n p b m e Hd. rewrite io_mmap. by apply (@mmap_read_disj RefEnv _ a n p b m e.1).
  - intros a bs e. rewrite io_rw_write. exact (@has_cpu_rw_write RefEnv _ a bs e.1).
  - intros a n p e. rewrite io_mmap. exact (@has_cpu_target_mmap RefEnv _ a n p e.1).
Qed.

#[export] Instance IoCpuMem : @CpuMemLaws IoEnv.
Proof.
  refine (@Build_CpuMemLaws IoEnv (fun a n e => @page_ok RefEnv _ a n e.1) _ _ _ _ _ _ _ _).
  - intros a n e. exact (@page_range RefEnv _ a n e.1).
  - intros a n b m e. exact (@page_sub RefEnv _ a n b m e.1).
  - intros a n e. exact (@page_read RefEnv _ a n e.1).
  - intros a bs e. rewrite io_rw_write. exact (@page_write RefEnv _ a bs e.1).
  - intros a bs b m e. rewrite io_rw_write. exact (@page_rw_write RefEnv _ a bs b m e.1).
  - done.
  - done.
  - intros r a bs e. cbn. by destruct (ref_accessible _ _ _).
Defined.

#[export] Instance IoHostAccess : @HostAccess IoEnv := {|
  direct_byte a (e : @env IoEnv) := @direct_byte RefEnv _ a e.1;
  direct_write a bs (e : @env IoEnv) :=
    match @direct_write RefEnv _ a bs e.1 with Some x => Some (x, e.2) | None => None end;
  failed_read a n e := replicate (Z.to_nat n) 0;
  can_alloc n e := n <? 2 ^ 40;
|}.

#[export] Instance IoHostAccessLaws : @HostAccessLaws IoEnv _ _.
Proof.
  refine (@Build_HostAccessLaws IoEnv _ _ (fun a n e => @page_rw RefEnv _ _ _ a n e.1) _ _ _ _ _).
  - intros a n x e. exact (@direct_byte_ok RefEnv _ _ _ a n x e.1).
  - intros a bs e H Hne. destruct (@direct_write_ok RefEnv _ _ _ a bs e.1 H Hne) as (x & H1 & H2).
    exists (x, e.2). split; [|by rewrite io_rw_write, H2].
    change (match @direct_write RefEnv _ a bs e.1 with Some x => Some (x, e.2) | None => None end = Some (x, e.2)). by rewrite H1.
  - intros a n b m e. exact (@page_rw_sub RefEnv _ _ _ a n b m e.1).
  - intros a bs b m e. rewrite io_rw_write. exact (@page_rw_rw_write RefEnv _ _ _ a bs b m e.1).
  - done.
Defined.

(** * Pipes *)

Definition pipe_read (fd n : Z) (e : RefState * Pipes) : (Z * list Z) * (RefState * Pipes) :=
  match default [] (p_data e.2 !! fd) with
  | [] => ((-1, replicate (Z.to_nat n) 0), (e.1, e.2 <| p_errno := EAGAIN |>))
  | bs => ((Z.of_nat (length (take (Z.to_nat n) bs)), take (Z.to_nat n) bs),
           (e.1, e.2 <| p_data ::= <[fd := drop (Z.to_nat n) bs]> |>))
  end.

Definition pipe_write (fd : Z) (bs : list Z) (e : RefState * Pipes) : Z * (RefState * Pipes) :=
  (Z.of_nat (length bs), (e.1, e.2 <| p_data ::= <[fd + 1 := default [] (p_data e.2 !! (fd + 1)) ++ bs]> |>)).

#[export] Instance PipeIo : @HostIo IoEnv := {|
  host_errno (e : @env IoEnv) := p_errno e.2;
  set_host_errno v (e : @env IoEnv) := ((e.1, e.2 <| p_errno := v |>) : @env IoEnv);
  fcntl_getfl fd (e : @env IoEnv) := (default (-1) (p_flags e.2 !! fd), e);
  fcntl_setfl fd v (e : @env IoEnv) := ((e.1, e.2 <| p_flags ::= alter (fun _ => v) fd |>) : @env IoEnv);
  io_read fd n (e : @env IoEnv) := pipe_read fd n e;
  io_write fd bs (e : @env IoEnv) := pipe_write fd bs e;
  io_recv fd n _ (e : @env IoEnv) := pipe_read fd n e;
  io_send fd bs _ (e : @env IoEnv) := pipe_write fd bs e;
  io_recvfrom fd n _ _ (e : @env IoEnv) :=
    let '(r, bs, e') := pipe_read fd n e in ((r, bs, (replicate 128 0, 16)), e');
  io_sendto fd bs _ _ _ (e : @env IoEnv) := pipe_write fd bs e;
  io_accept _ (e : @env IoEnv) := ((-1, (replicate 128 0, 128)), (e.1, e.2 <| p_errno := EAGAIN |>));
  io_epoll_wait _ _ _ (e : @env IoEnv) := ((0, []), e);
|}.

Definition pipe_same (e e' : @env IoEnv) : Prop := e'.1 = e.1 /\ p_flags e'.2 = p_flags e.2.

Lemma pipe_read_same fd n e : pipe_same e (pipe_read fd n e).2.
Proof. unfold pipe_read. by destruct (default [] _). Qed.

Lemma pipe_guest e e' : e'.1 = e.1 -> guest_same (E := IoEnv) e e'.
Proof. destruct e as [x p], e' as [x' p']. cbn. intros ->. by constructor. Qed.

Definition pipe_descr (fd : Z) (e : @env IoEnv) : option Z := match p_flags e.2 !! fd with Some _ => Some fd | None => None end.
Definition pipe_status (d : Z) (e : @env IoEnv) : Z := default 0 (p_flags e.2 !! d).
Definition pipe_fds (e e' : @env IoEnv) : Prop :=
  forall fd d, pipe_descr fd e = Some d -> pipe_descr fd e' = Some d /\ pipe_status d e' = pipe_status d e.

Lemma pipe_fds_same e e' : p_flags e'.2 = p_flags e.2 -> pipe_fds e e'.
Proof. intros H fd d. unfold pipe_descr, pipe_status. rewrite H. done. Qed.

Lemma pipe_quiet e e' : pipe_same e e' -> guest_same (E := IoEnv) e e' /\ pipe_fds e e'.
Proof. intros [H1 H2]. split; [by apply pipe_guest|by apply pipe_fds_same]. Qed.

Lemma pipe_descr_eq fd d e : pipe_descr fd e = Some d -> fd = d /\ is_Some (p_flags e.2 !! d).
Proof. unfold pipe_descr. destruct (p_flags e.2 !! fd) eqn:H; [|done]. intros [= <-]. by rewrite H. Qed.

#[export] Instance PipeLaws : @HostIoLaws IoEnv _ _ _ _.
Proof.
  refine {| descr := pipe_descr; status := pipe_status |}.
  - intros fd d e (-> & v & Hv)%pipe_descr_eq. cbn. unfold pipe_status. by rewrite Hv.
  - intros fd d v e (-> & w & Hw)%pipe_descr_eq _. unfold pipe_status. cbn. by rewrite lookup_alter_eq, Hw.
  - intros fd v x d e (-> & w & Hw)%pipe_descr_eq. unfold pipe_descr. cbn. destruct (decide (fd = d)) as [->|Hne].
    + by rewrite lookup_alter_eq, Hw.
    + by rewrite lookup_alter_ne, Hw.
  - intros fd d v x y e (-> & _)%pipe_descr_eq (-> & _)%pipe_descr_eq Hne. unfold pipe_status. cbn. by rewrite lookup_alter_ne.
  - intros fd e. by apply pipe_quiet.
  - intros fd v e. by apply pipe_guest.
  - intros v e. by apply pipe_quiet.
  - intros fd n e. apply pipe_quiet, pipe_read_same.
  - intros fd bs e. by apply pipe_quiet.
  - intros fd n fl e. apply pipe_quiet, pipe_read_same.
  - intros fd bs fl e. by apply pipe_quiet.
  - intros fd n fl b e. apply pipe_quiet. cbn. pose proof (pipe_read_same fd n e) as H. by destruct (pipe_read fd n e) as [[]].
  - intros fd bs fl a l e. by apply pipe_quiet.
  - intros fd e. by apply pipe_quiet.
  - intros fd n t e. by apply pipe_quiet.
  - intros e. split; [by constructor|by apply pipe_fds_same].
  - intros n e. split; [by constructor|by apply pipe_fds_same].
  - intros fd ev e. apply pipe_quiet. cbn. by destruct (bool_decide _).
  - intros r v e. by apply pipe_fds_same.
  - intros r v e. by apply pipe_fds_same.
  - intros a bs e. rewrite io_rw_write. by apply pipe_fds_same.
  - intros r a bs e. rewrite io_rw_write. cbn. by destruct (ref_accessible _ _ _).
  - intros fd n e. cbn. unfold pipe_read. destruct (default [] _); cbn; lia.
  - intros fd bs e. cbn. lia.
  - intros fd e. done.
Defined.
