(* ===== verification/IoWaitSpec.v ===== *)
(** Blocking calls from the guest's point of view, with one host thread emulating at a
    time: read, write and accept that have to wait are transparent for the runs of other
    guest threads that [io_run] lists, and descriptors get their flags back; and the two
    ways in which a wait goes wrong.  Two host threads in these calls at once, between
    whose steps the manager's mutex is free, are outside of the model. *)

From S2P Require Import Prelude Env MemoryManager MemorySpec ThreadTypes Scheduler SchedulerSpec Pthread PthreadSpec Machine HostAccess HleMonad HleErrno Lift BlockingIo BlockingIoSpec.

Section Wait.
Context {E : Env} `{!GuestMemLaws E, !RegLaws E, !CpuMemLaws E, !HostAccess E, !HostAccessLaws E, !HostIo E, !HostIoLaws E, !Wide64 E}.
Implicit Types s : tstate.

(** What saving a request does to the context. *)
Definition save_ctx (rq : request) (ret : Z) (c : ThreadContext) : ThreadContext :=
  (match rq with
   | RqRecv fd b n fl =>
       c <| io_operation := RECV |> <| io_fd := fd |> <| io_buf_ptr := b |> <| io_len := n |> <| io_flags := fl |>
         <| io_return_addr := ret |>
   | RqSend fd b n fl =>
       c <| io_operation := SEND |> <| io_fd := fd |> <| io_buf_ptr := b |> <| io_len := n |> <| io_flags := fl |>
         <| io_return_addr := ret |>
   | RqRecvfrom fd b n fl a l =>
       c <| io_operation := RECVFROM |> <| io_fd := fd |> <| io_buf_ptr := b |> <| io_len := n |> <| io_flags := fl |>
         <| io_addr_ptr := a |> <| io_addrlen_ptr := l |> <| io_return_addr := ret |>
   | RqSendto fd b n fl a l =>
       c <| io_operation := SENDTO |> <| io_fd := fd |> <| io_buf_ptr := b |> <| io_len := n |> <| io_flags := fl |>
         <| io_addr_ptr := a |> <| io_addrlen_ptr := l |> <| io_return_addr := ret |>
   | RqAccept fd a l =>
       c <| io_operation := ACCEPT |> <| io_fd := fd |> <| io_addr_ptr := a |> <| io_addrlen_ptr := l |>
         <| io_return_addr := ret |>
   | RqRead fd b n =>
       c <| io_operation := READ |> <| io_fd := fd |> <| io_buf_ptr := b |> <| io_len := n |> <| io_return_addr := ret |>
   | RqWrite fd b n =>
       c <| io_operation := WRITE |> <| io_fd := fd |> <| io_buf_ptr := b |> <| io_len := n |> <| io_return_addr := ret |>
   end) <| registers ::= fun r => r <| rpc := rq_addr rq |> |>.

Lemma rq_save_ctx rq ret s : rq_save rq ret s = Ret tt (upd_current (save_ctx rq ret) s).
Proof. by destruct rq. Qed.

Lemma save_ctx_spec rq ret c : pending rq ret (save_ctx rq ret c) /\ state (save_ctx rq ret c) = state c /\
  thread_id (save_ctx rq ret c) = thread_id c /\ rpc (registers (save_ctx rq ret c)) = rq_addr rq.
Proof. by destruct rq. Qed.

Lemma tame_save rq ret : tame (save_ctx rq ret).
Proof. intros c. destruct (save_ctx_spec rq ret c) as (_ & -> & -> & _). auto. Qed.

Lemma fds_switch reason s e : fds_same e (ext (ms s)) -> fds_same e (ext (ms (context_switch reason s))).
Proof.
  assert (Ht : forall e1 e2, fds_same e1 e2 -> fds_same e e1 -> fds_same e e2) by (intros e1 e2 H1 H2; by eapply fds_same_trans).
  apply (pw_switch (fun x => fds_same e x)); intros *; apply Ht;
    [apply fds_write_reg|apply fds_write_vreg|apply now_quiet|apply sleep_quiet|apply poll_quiet].
Qed.

(** The calling thread. *)
Record runs (k : Z) (regs : RegisterState) s : Prop := {
  rn_ok : sched_ok (tm s);
  rn_cpu : has_cpu (ext (ms s)) = true;
  rn_cur : current_thread_id_ (tm s) = k;
  rn_run : exists c, current s = Some c /\ state c = RUNNING;
  rn_regs : exists pc, read_registers (ext (ms s)) = regs <| rpc := pc |>;
  rn_wf : regs_wf regs;
}.

(** The state in which a thread that has to wait gives up the CPU. *)
Definition parked_state (rq : request) (ret flags : Z) (e2 : env) s : tstate :=
  block_current_thread IO_WAIT (rq_fd rq) (world (fcntl_setfl (rq_fd rq) flags e2) (upd_current (save_ctx rq ret) (world e2 s))).

Lemma park_run {A} rq ret flags e2 s (parked : hle tstate A) :
  (rq_save rq ret;; setfl (rq_fd rq) flags;; wait_io (rq_fd rq);; parked) (world e2 s) = parked (context_switch BLOCKING_OPERATION (parked_state rq ret flags e2 s)).
Proof. by rewrite (bind_ret _ _ _ _ _ (rq_save_ctx rq ret (world e2 s))). Qed.

Lemma parked_current_state rq ret flags e2 s c : current s = Some c ->
  current (parked_state rq ret flags e2 s) = Some ((save_ctx rq ret c) <| ThreadTypes.state := IO_WAIT |> <| blocked_on_resource := rq_fd rq |>).
Proof.
  intros Hc. unfold parked_state, block_current_thread. rewrite (current_upd _ _ (save_ctx rq ret c)); [done|]. by apply (current_upd (save_ctx rq ret) s c).
Qed.

(** Saving the request and giving up the CPU. *)
Lemma park_waits {A} k regs rq ret s d e1 e2 (parked : hle tstate A) : runs k regs s ->
  nonblocking (rq_fd rq) d (ext (ms s)) e1 -> guest_same e1 e2 -> fds_same e1 e2 ->
  exists s3, (rq_save rq ret;; setfl (rq_fd rq) (status d (ext (ms s)));; wait_io (rq_fd rq);; parked) (world e2 s) = parked s3 /\
    waiting k rq ret regs s3 /\ fds_same (ext (ms s)) (ext (ms s3)).
Proof.
  intros [Hok Hcpu Hk (c & Hc & Hrun) (pc & Hrg) Hwf] Hnb Hg Hf.
  pose proof (guest_same_trans _ _ _ (nb_guest _ _ _ _ Hnb) Hg) as Hg2.
  set (e3 := fcntl_setfl (rq_fd rq) (status d (ext (ms s))) e2).
  pose proof (guest_same_trans _ _ _ Hg2 (setfl_quiet (rq_fd rq) (status d (ext (ms s))) e2)) as Hg3. fold e3 in Hg3.
  set (s2 := parked_state rq ret (status d (ext (ms s))) e2 s).
  exists (context_switch BLOCKING_OPERATION s2). split; [apply park_run|].
  pose proof (save_ctx_spec rq ret c) as (Hp & _ & _ & Hpc).
  pose proof (parked_current_state rq ret (status d (ext (ms s))) e2 s c Hc) as Hc2. fold s2 in Hc2.
  split.
  - eapply (switch_waits k rq ret regs Hwf BLOCKING_OPERATION s2); [| |exact Hc2|by rewrite andb_false_r| |].
    + apply sched_ok_alter; [solve_tame|]. apply sched_ok_alter; [apply tame_save|done].
    + change (has_cpu e3 = true). by rewrite (gs_cpu _ _ Hg3).
    + intros _. exists pc. split_and!; [by eapply pending_info| |left; split; [done|exact Hpc]].
      change (read_registers e3 = regs <| rpc := pc |>). by rewrite (same_registers _ _ Hg3).
    + intros Hne. by destruct Hne.
  - apply fds_switch. change (fds_same (ext (ms s)) e3). by apply (restore_flags _ d _ e1).
Qed.

(** The cooperative calls. *)
Definition start (rq : request) : option (hle tstate Z) :=
  match rq with
  | RqRead fd b n => Some (blocking_read fd b n)
  | RqWrite fd b n => Some (blocking_write fd b n)
  | RqAccept fd a l => Some (blocking_accept fd a l)
  | _ => None
  end.

Lemma start_attempt rq p s : start rq = Some p ->
  p s = attempt rq (lr ← get_x REG_LR; rq_save rq lr) mret (mret CONTEXT_SWITCH_OCCURRED) s.
Proof. destruct rq; cbn; intros [= <-]; [apply attempt_accept|apply attempt_read|apply attempt_write]. Qed.

Lemma start_result rq p data e : start rq = Some p -> -1 <= (rq_call rq data e).1.1.
Proof.
  destruct rq; cbn; intros [= <-].
  - pose proof (accept_result sockfd e). by destruct (io_accept _ _) as [[]].
  - pose proof (read_result fd count e). by destruct (io_read _ _ _) as [[]].
  - pose proof (write_result fd data.1 e). by destruct (io_write _ _ _).
Qed.

(** The registers that the guest sees when the call returns: those of the call,
    with the result in X0; PC is at the trampoline, whose [ret] goes to LR. *)
Definition returned_regs (rq : request) (regs : RegisterState) (r : Z) : RegisterState :=
  (resuming rq regs) <| rx ::= <[0%nat := u64 r]> |>.

(** The call is over: the calling thread runs on with the result [r], the stores
    [ws] are in guest memory, nothing else has changed. *)
Record delivered (k : Z) (rq : request) (regs : RegisterState) (r : Z) (ws : list (Z * list Z)) s s' : Prop := {
  dl_cur : current_thread_id_ (tm s') = k;
  dl_ctx : exists c, current s' = Some c /\ state c = RUNNING /\ io_operation c = IO_NONE /\ io_fd c = -1;
  dl_regs : read_registers (ext (ms s')) = returned_regs rq regs r;
  dl_bytes x : byte_at s' x = all_stored (byte_at s) ws x;
  dl_others j : j <> k -> threads_ (tm s') !! j = threads_ (tm s) !! j;
}.

Lemma clear_run rq s : exists f, rq_clear rq s = Ret tt (upd_current f s) /\ tame f /\
  forall c, state (f c) = state c /\ io_operation (f c) = IO_NONE /\ io_fd (f c) = -1.
Proof. destruct rq; (eexists; split; [reflexivity|split; [solve_tame|done]]). Qed.

Lemma fds_set_reg r v e : fds_same e (set_reg r v e).
Proof. unfold set_reg. destruct (has_cpu e); [apply fds_write_reg|apply fds_same_refl]. Qed.

(** Setting the result and the return address. *)
Lemma return_registers rq regs r ret e : has_cpu e = true -> read_registers e = resuming rq regs -> rlr regs = ret ->
  0 <= ret < two64 ->
  read_registers (set_reg REG_LR (u64 ret) (set_reg REG_X0 (u64 r) e)) = returned_regs rq regs r.
Proof.
  intros Hc He Hlr Hret. rewrite (u64_small ret) by done. rewrite read_set_lr.
  - rewrite read_set_x0 by (done || apply u64_range). by rewrite He.
  - by rewrite has_cpu_set_reg.
  - rewrite get_set_reg_ne by done. rewrite <- Hlr. exact (f_equal rlr He).
  - apply wide64; [unfold REG_LR, REG_PC; lia|done].
Qed.

(** The end of a call that does not block. *)
Lemma finish_delivered k rq regs ret r ws s f c d e1 e2 :
  sane s -> current s = Some c -> state c = RUNNING -> current_thread_id_ (tm s) = k ->
  (forall c, state (f c) = state c /\ io_operation (f c) = IO_NONE /\ io_fd (f c) = -1) ->
  read_registers (ext (ms s)) = resuming rq regs -> rlr regs = ret -> 0 <= ret < two64 ->
  nonblocking (rq_fd rq) d (ext (ms s)) e1 -> guest_same e1 e2 -> fds_same e1 e2 -> storable ws s ->
  exists s3, (run_writes ws;; setfl (rq_fd rq) (status d (ext (ms s)));; return_to r ret) (world e2 (upd_current f s)) = Ret tt s3 /\
    delivered k rq regs r ws s s3 /\ fds_same (ext (ms s)) (ext (ms s3)).
Proof.
  intros Hs Hc Hrun Hk Hf Hrg Hlr Hret Hnb Hg Hfd Hst.
  pose proof (guest_same_trans _ _ _ (nb_guest _ _ _ _ Hnb) Hg) as Hg2.
  assert (Hb : became s (byte_at s) (world e2 (upd_current f s))).
  { pose proof (world_became e2 s Hs Hg2) as [[B1 B2 B3 B4] B5 B6 B7 B8].
    by constructor; [constructor|..]. }
  destruct (run_writes_became ws s _ _ Hb Hst) as (m & Hr & Hb2 & Hrg2 & Hcpu & Hfd2).
  rewrite (bind_ret _ _ _ _ _ Hr).
  set (s2 := (world e2 (upd_current f s)) <| ms := m |>) in *.
  set (e3 := fcntl_setfl (rq_fd rq) (status d (ext (ms s))) (ext m)).
  set (e4 := set_reg REG_LR (u64 ret) (set_reg REG_X0 (u64 r) e3)).
  exists (world e4 s2).
  assert (Hs3 : sane (world e3 s2)) by (apply (bc_sane _ _ _ (world_became e3 s2 (bc_sane _ _ _ Hb2) (setfl_quiet _ _ _)))).
  split; [done|]. split; [constructor|].
  - done.
  - exists (f c). destruct (Hf c) as (E1 & E2 & E3). split_and!; [|by rewrite E1|done..]. by apply (current_upd f s c).
  - change (read_registers e4 = returned_regs rq regs r). apply return_registers; try done.
    + apply (sane_cpu _ Hs3).
    + unfold e3. rewrite (same_registers _ _ (setfl_quiet _ _ _)), Hrg2. cbn. by rewrite (same_registers _ _ Hg2).
  - intros x. change (byte_at (putr REG_LR (u64 ret) (putr REG_X0 (u64 r) (world e3 s2))) x = all_stored (byte_at s) ws x).
    rewrite !byte_putr. rewrite (bc_byte _ _ _ (world_became e3 s2 (bc_sane _ _ _ Hb2) (setfl_quiet _ _ _))). apply Hb2.
  - intros j Hj. cbn. rewrite lookup_alter_ne; [done|]. by rewrite Hk.
  - change (fds_same (ext (ms s)) e4). eapply fds_same_trans; [eapply (restore_flags _ d _ e1 (ext m)); [done|]|].
    { eapply fds_same_trans; [exact Hfd|exact Hfd2]. }
    eapply fds_same_trans; apply fds_set_reg.
Qed.

(** How the resume half of a waiting thread's request goes once it runs. *)
Definition resumed (k : Z) (rq : request) (ret : Z) (regs : RegisterState) (d : Z) s : Prop :=
  exists e1 r ws e2, nonblocking (rq_fd rq) d (ext (ms s)) e1 /\ rq_call rq (rq_data rq s) e1 = ((r, ws), e2) /\
    ((0 <= r -> storable ws s) -> exists s3, run_call (rq_resume rq) s = Ret tt s3 /\ fds_same (ext (ms s)) (ext (ms s3)) /\
       if (r <? 0) && would_block (host_errno e2) then waiting k rq ret regs s3
       else delivered k rq regs r (if 0 <=? r then ws else []) s s3).

Lemma resume_outcome k rq ret regs s d c : waiting k rq ret regs s -> current_thread_id_ (tm s) = k ->
  current s = Some c -> state c = RUNNING -> regs_wf regs -> rlr regs = ret -> 0 <= ret < two64 -> buffers rq ->
  descr (rq_fd rq) (ext (ms s)) = Some d -> sane s -> resumed k rq ret regs d s.
Proof.
  intros Hw Hk Hc Hrun Hwf Hlr Hret Hbuf Hd Hs. pose proof (waiting_held _ _ _ _ _ _ Hw Hk Hc) as (pc & Hp & Hrg & Hst).
  assert (pc = rq_addr rq) as -> by (destruct Hst as [[]|[]]; congruence).
  destruct (clear_run rq s) as (f & Hcl & Htame & Hf). set (s' := upd_current f s).
  destruct (attempt_outcome rq (rq_save rq ret) (fun r => return_to r ret) (mret tt) s' d Hbuf Hd)
    as (e1 & r & ws & e2 & Hnb & Hcall & Hat). cbv zeta in Hat.
  assert (Hdata : rq_data rq s' = rq_data rq s) by (by destruct rq). rewrite Hdata in Hcall.
  destruct (call_quiet rq (rq_data rq s) e1) as [Hg Hfd]. rewrite Hcall in Hg, Hfd. cbn in Hg, Hfd.
  exists e1, r, ws, e2. split_and!; [done..|]. intros Hsto.
  rewrite (attempt_resume rq ret s c Hc Hp), (bind_ret _ _ _ _ _ Hcl). fold s'. rewrite Hat.
  assert (Hfin : forall ws, storable ws s -> exists s3,
    (run_writes ws;; setfl (rq_fd rq) (status d (ext (ms s)));; return_to r ret) (world e2 s') = Ret tt s3 /\
    fds_same (ext (ms s)) (ext (ms s3)) /\ delivered k rq regs r ws s s3).
  { intros ws' Hws. destruct (finish_delivered k rq regs ret r ws' s f c d e1 e2) as (s3 & H1 & H2 & H3); try done. eauto. }
  destruct (Z.leb_spec 0 r) as [Hr|Hr].
  - rewrite (proj2 (Z.ltb_ge r 0)) by done. cbn. by apply Hfin, Hsto.
  - rewrite (proj2 (Z.ltb_lt r 0)) by done. cbn [andb]. destruct (would_block (host_errno e2)).
    + assert (Hr' : runs k regs s').
      { constructor; [by apply sched_ok_alter; [|apply Hw]|apply Hw|done| |by eexists|done].
        exists (f c). split; [by apply (current_upd f s c)|]. by rewrite (proj1 (Hf c)). }
      destruct (park_waits k regs rq ret s' d e1 e2 (mret tt) Hr' Hnb Hg Hfd) as (s3 & H1 & H2 & H3). by exists s3.
    + destruct (Hfin []) as (s3 & H1 & H2 & H3); [by intros w ?%elem_of_nil|]. by exists s3.
Qed.

Lemma run_writes_tm ws s : exists m, run_writes ws s = Ret tt (s <| ms := m |>).
Proof.
  revert s. induction ws as [|[a bs] ws IH]; intros s; [exists (ms s); by destruct s|].
  cbn [run_writes]. rewrite (bind_ret _ _ _ tt (gwrite a bs s).2) by done.
  destruct (IH (gwrite a bs s).2) as (m & ->). exists m. cbn. by destruct (mem_write a bs (ms s)).
Qed.

(** An attempt after which the request is still there has blocked again. *)
Lemma retry_waits k rq ret regs s d c s1 : waiting k rq ret regs s -> current_thread_id_ (tm s) = k ->
  current s = Some c -> state c = RUNNING -> regs_wf regs -> buffers rq ->
  descr (rq_fd rq) (ext (ms s)) = Some d -> run_call (rq_resume rq) s = Ret tt s1 ->
  follows k (fun c => io_operation c <> IO_NONE) (tm s1) -> waiting k rq ret regs s1.
Proof.
  intros Hw Hk Hc Hrun Hwf Hbuf Hd Hcall Hop. pose proof (waiting_held _ _ _ _ _ _ Hw Hk Hc) as (pc & Hp & Hrg & Hst).
  destruct (clear_run rq s) as (f & Hcl & Htame & Hf). set (s' := upd_current f s).
  destruct (attempt_outcome rq (rq_save rq ret) (fun r => return_to r ret) (mret tt) s' d Hbuf Hd)
    as (e1 & r & ws & e2 & Hnb & Hcl' & Hat). cbv zeta in Hat.
  destruct (call_quiet rq (rq_data rq s') e1) as [Hg Hfd]. rewrite Hcl' in Hg, Hfd. cbn in Hg, Hfd.
  rewrite (attempt_resume rq ret s c Hc Hp), (bind_ret _ _ _ _ _ Hcl) in Hcall. fold s' in Hcall. rewrite Hat in Hcall.
  assert (Hno : ~ follows k (fun c => io_operation c <> IO_NONE) (tm s')).
  { intros (c' & Hc' & Hne). pose proof (current_upd f s c Hc) as Hc2. unfold current in Hc2. fold s' in Hc2.
    change (current_thread_id_ (tm s')) with (current_thread_id_ (tm s)) in Hc2. rewrite Hk in Hc2.
    assert (c' = f c) as -> by congruence. by apply Hne, (Hf c). }
  destruct (0 <=? r).
  { destruct (run_writes_tm ws (world e2 s')) as (m & Hm). rewrite (bind_ret _ _ _ _ _ Hm) in Hcall. by injection Hcall as <-. }
  destruct (would_block (host_errno e2)); [|by injection Hcall as <-].
  assert (Hr' : runs k regs s').
  { constructor; [by apply sched_ok_alter; [|apply Hw]|apply Hw|done| |by eexists|done].
    exists (f c). split; [by apply (current_upd f s c)|]. by rewrite (proj1 (Hf c)). }
  destruct (park_waits k regs rq ret s' d e1 e2 (mret tt) Hr' Hnb Hg Hfd) as (s3 & H1 & H2 & _).
  rewrite H1 in Hcall. by injection Hcall as <-.
Qed.

(** * What may happen while a thread waits *)

(** Switches for any reason, by anyone; and while another thread is current, guest
    code, its I/O, whether it returns or throws, and its calls of the pthread and scheduler
    interface (all of [PthreadSpec.call] but pthread_cond_timedwait); and the waiting
    thread's own attempts, after which it still has its request. *)
Inductive io_run (k : Z) (rq : request) : tstate -> tstate -> Prop :=
| run_done s : io_run k rq s s
| run_switch reason s s' : io_run k rq (context_switch reason s) s' -> io_run k rq s s'
| run_guest m hle s s' : current_thread_id_ (tm s) <> k -> has_cpu (ext m) = true ->
    io_run k rq (s <| ms := m |> <| in_hle := hle |>) s' -> io_run k rq s s'
| run_other c s s1 s' : current_thread_id_ (tm s) <> k -> run_call c s = Ret tt s1 \/ run_call c s = Thrown s1 ->
    io_run k rq s1 s' -> io_run k rq s s'
| run_pthread c s s' : current_thread_id_ (tm s) <> k -> other_call k s c \/ c = CondResume -> has_cpu (ext (ms (exec s c))) = true ->
    io_run k rq (exec s c) s' -> io_run k rq s s'
| run_retry s c d s1 s' : current_thread_id_ (tm s) = k -> current s = Some c -> state c = RUNNING ->
    descr (rq_fd rq) (ext (ms s)) = Some d ->
    run_call (rq_resume rq) s = Ret tt s1 ->
    follows k (fun c => io_operation c <> IO_NONE) (tm s1) -> io_run k rq s1 s' -> io_run k rq s s'.

(** The calls of other threads. *)
Lemma cpu_before_switch reason s : has_cpu (ext (ms (context_switch reason s))) = true -> has_cpu (ext (ms s)) = true.
Proof.
  intros H. apply not_false_iff_true. intros Hf. apply (eq_true_false_abs _ H). revert Hf. apply (pw_switch (fun e => has_cpu e = false)).
  - intros r v e. by rewrite has_cpu_write_reg.
  - intros r v e. by rewrite has_cpu_write_vreg.
  - intros e. by rewrite (gs_cpu _ _ (proj1 (now_quiet e))).
  - intros n e. by rewrite (gs_cpu _ _ (proj1 (sleep_quiet n e))).
  - intros fd ev e. by rewrite (gs_cpu _ _ (proj1 (poll_quiet fd ev e))).
Qed.

Lemma waiting_exec k rq ret regs c s : regs_wf regs -> waiting k rq ret regs s -> current_thread_id_ (tm s) <> k ->
  other_call k s c \/ c = CondResume -> has_cpu (ext (ms (exec s c))) = true -> waiting k rq ret regs (exec s c).
Proof.
  intros Hwf Hw Hne Hc. set (Q := waits rq ret regs). set (W := fun s => has_cpu (ext (ms s)) = true -> waiting k rq ret regs s).
  assert (Hap : apart k Q s) by (split_and!; [apply Hw|done|apply Hw]).
  assert (Hst : forall d, Q d -> state d <> BLOCKED /\ state d <> TERMINATED) by (by intros d (_ & _ & [-> | [-> | ->]])).
  assert (Hjn : forall d f, Q d -> Q (d <| join_wait_queue ::= f |>)) by (intros d f (H1 & H2 & H3); split_and!; [by eapply pending_info|done..]).
  assert (Hdt : forall d, Q d -> Q (d <| detached := true |>)) by (intros d (H1 & H2 & H3); split_and!; [by eapply pending_info|done..]).
  assert (Hweak : forall s, apart k Q s -> W s) by (intros s0 (H1 & H2 & H3) Hcpu; by constructor).
  assert (Hsw : forall r s, apart k Q s -> W (context_switch r s)).
  { intros r s0 H0 Hcpu. apply waiting_switch; [done|]. apply Hweak; [done|]. by eapply cpu_before_switch. }
  fold (W (exec s c)). destruct Hc as [Hc| ->]; [by eapply (others_aside k Q)|]. change (exec s CondResume) with (pthread_cond_wait_resume s). apply (cond_resume_aside k Q); [done..| |done].
  intros a s0 H0 Hcpu. destruct (H0 Hcpu) as [H1 H2 (d & Hd & H3 & H4 & H5) H6]. assert (HQ : Q (d <| mutex_wait_return_addr := a |>)) by (split_and!; [by eapply pending_info|done..]).
  constructor; [apply sched_ok_alter; [solve_tame|done]|done| |].
  - unfold follows. cbn. destruct (decide (current_thread_id_ (tm s0) = k)) as [Ek|Hk]; [|rewrite lookup_alter_ne by done; by exists d].
    rewrite Ek, lookup_alter_eq, Hd. by eexists.
  - intros Ek. destruct (H6 Ek) as (pc & c0 & Hrg & Hc0 & Hs0). exists pc, (c0 <| mutex_wait_return_addr := a |>). split_and!; [done|by apply (current_upd _ s0 c0)|done].
Qed.

Lemma run_waiting k rq ret regs s s' : regs_wf regs -> buffers rq ->
  io_run k rq s s' -> waiting k rq ret regs s -> waiting k rq ret regs s'.
Proof.
  intros Hwf Hbuf. induction 1 as [s|reason s s' _ IH|m hle s s' Hne Hc _ IH|c s s1 s' Hne Hc _ IH|c s s' Hne Hc Hcpu _ IH|
    s c d s1 s' Hk Hc Hrun Hd Hcall Hop _ IH]; intros Hw.
  - done.
  - by apply IH, waiting_switch.
  - apply IH. destruct Hw as [H1 H2 H3 H4]. by constructor.
  - apply IH. pose proof (waiting_call k rq ret regs Hwf c s Hw Hne) as H. destruct Hc as [Hc|Hc]; by rewrite Hc in H.
  - apply IH. by apply waiting_exec.
  - apply IH. by eapply retry_waits.
Qed.

(** * The call *)

(** How a cooperative call goes: whether it blocks depends on the host alone. *)
Definition started (k : Z) (rq : request) (p : hle tstate Z) (d : Z) s : Prop :=
  exists e1 r ws e2, nonblocking (rq_fd rq) d (ext (ms s)) e1 /\ rq_call rq (rq_data rq s) e1 = ((r, ws), e2) /\
    ((0 <= r -> storable ws s) -> exists v s1, p s = Ret v s1 /\ fds_same (ext (ms s)) (ext (ms s1)) /\
       if (r <? 0) && would_block (host_errno e2)
       then v = CONTEXT_SWITCH_OCCURRED /\ waiting k rq (reg REG_LR s) (read_registers (ext (ms s))) s1
       else v = r /\ v <> CONTEXT_SWITCH_OCCURRED /\ tm s1 = tm s /\
            read_registers (ext (ms s1)) = read_registers (ext (ms s)) /\
            forall x, byte_at s1 x = all_stored (byte_at s) (if 0 <=? r then ws else []) x).

Lemma finish_plain s d fd ws e1 e2 (r : Z) : sane s -> nonblocking fd d (ext (ms s)) e1 -> guest_same e1 e2 ->
  fds_same e1 e2 -> storable ws s ->
  exists s1, (run_writes ws;; setfl fd (status d (ext (ms s)));; mret r) (world e2 s) = Ret r s1 /\
    fds_same (ext (ms s)) (ext (ms s1)) /\ tm s1 = tm s /\
    read_registers (ext (ms s1)) = read_registers (ext (ms s)) /\ forall x, byte_at s1 x = all_stored (byte_at s) ws x.
Proof.
  intros Hs Hnb Hg Hfd Hst. pose proof (guest_same_trans _ _ _ (nb_guest _ _ _ _ Hnb) Hg) as Hg2.
  destruct (run_writes_became ws s _ _ (world_became e2 s Hs Hg2) Hst) as (m & Hr & Hb2 & Hrg & _ & Hfd2).
  rewrite (bind_ret _ _ _ _ _ Hr). set (s2 := (world e2 s) <| ms := m |>) in *.
  set (e3 := fcntl_setfl fd (status d (ext (ms s))) (ext m)). exists (world e3 s2). split_and!; [done|..].
  - change (fds_same (ext (ms s)) e3). apply (restore_flags _ d _ e1); [done|]. by eapply fds_same_trans.
  - done.
  - change (read_registers e3 = read_registers (ext (ms s))). unfold e3.
    rewrite (same_registers _ _ (setfl_quiet _ _ _)), Hrg. cbn. by rewrite (same_registers _ _ Hg2).
  - intros x. rewrite (bc_byte _ _ _ (world_became e3 s2 (bc_sane _ _ _ Hb2) (setfl_quiet _ _ _))). apply Hb2.
Qed.

(** The return address saved is the guest's. *)
Lemma save_lr {A} rq s d e1 e2 (next : unit -> hle tstate A) :
  nonblocking (rq_fd rq) d (ext (ms s)) e1 -> guest_same e1 e2 ->
  ((lr ← get_x REG_LR; rq_save rq lr) ≫= next) (world e2 s) = (rq_save rq (reg REG_LR s) ≫= next) (world e2 s).
Proof.
  intros Hnb Hg. pose proof (guest_same_trans _ _ _ (nb_guest _ _ _ _ Hnb) Hg) as Hg2.
  unfold mbind, hle_bind, get_x. cbn. unfold reg, get_reg. by rewrite (gs_cpu _ _ Hg2), (gs_reg _ _ Hg2).
Qed.

Lemma runs_now k s c : sched_ok (tm s) -> has_cpu (ext (ms s)) = true -> current_thread_id_ (tm s) = k ->
  current s = Some c -> state c = RUNNING -> runs k (read_registers (ext (ms s))) s.
Proof.
  intros Hok Hs Hk Hc Hrun. constructor; [done..|eauto|by exists (rpc (read_registers (ext (ms s))))|by apply read_registers_wf].
Qed.

(** A call that reports a context switch has blocked. *)
Lemma blocked_waits k rq p s d c s1 : start rq = Some p -> buffers rq -> sched_ok (tm s) -> has_cpu (ext (ms s)) = true ->
  current_thread_id_ (tm s) = k -> current s = Some c -> state c = RUNNING ->
  descr (rq_fd rq) (ext (ms s)) = Some d -> p s = Ret CONTEXT_SWITCH_OCCURRED s1 ->
  waiting k rq (reg REG_LR s) (read_registers (ext (ms s))) s1.
Proof.
  intros Hp Hbuf Hok Hs Hk Hc Hrun Hd Hres.
  destruct (attempt_outcome rq (lr ← get_x REG_LR; rq_save rq lr) mret (mret CONTEXT_SWITCH_OCCURRED) s d Hbuf Hd)
    as (e1 & r & ws & e2 & Hnb & Hcall & Hat). cbv zeta in Hat.
  pose proof (start_result rq p (rq_data rq s) e1 Hp) as Hr1. rewrite Hcall in Hr1. cbn in Hr1.
  destruct (call_quiet rq (rq_data rq s) e1) as [Hg Hfd]. rewrite Hcall in Hg, Hfd. cbn in Hg, Hfd.
  rewrite (start_attempt rq p s Hp), Hat in Hres.
  assert (Hne : r <> CONTEXT_SWITCH_OCCURRED) by (unfold CONTEXT_SWITCH_OCCURRED; lia).
  destruct (0 <=? r).
  { destruct (run_writes_tm ws (world e2 s)) as (m & Hm). rewrite (bind_ret _ _ _ _ _ Hm) in Hres. by injection Hres as ->. }
  destruct (would_block (host_errno e2)); [|by injection Hres as ->].
  rewrite (save_lr rq s d e1 e2) in Hres by done.
  destruct (park_waits k _ rq (reg REG_LR s) s d e1 e2 (mret CONTEXT_SWITCH_OCCURRED) (runs_now k s c Hok Hs Hk Hc Hrun) Hnb Hg Hfd)
    as (s3 & H1 & H2 & _). rewrite H1 in Hres. by injection Hres as <-.
Qed.

Lemma start_outcome k rq p s d c : start rq = Some p -> buffers rq -> sched_ok (tm s) -> sane s ->
  current_thread_id_ (tm s) = k -> current s = Some c -> state c = RUNNING ->
  descr (rq_fd rq) (ext (ms s)) = Some d -> started k rq p d s.
Proof.
  intros Hp Hbuf Hok Hs Hk Hc Hrun Hd.
  destruct (attempt_outcome rq (lr ← get_x REG_LR; rq_save rq lr) mret (mret CONTEXT_SWITCH_OCCURRED) s d Hbuf Hd)
    as (e1 & r & ws & e2 & Hnb & Hcall & Hat). cbv zeta in Hat.
  pose proof (start_result rq p (rq_data rq s) e1 Hp) as Hr1. rewrite Hcall in Hr1. cbn in Hr1.
  destruct (call_quiet rq (rq_data rq s) e1) as [Hg Hfd]. rewrite Hcall in Hg, Hfd. cbn in Hg, Hfd.
  exists e1, r, ws, e2. split_and!; [done..|]. intros Hsto. rewrite (start_attempt rq p s Hp), Hat.
  assert (Hne : r <> CONTEXT_SWITCH_OCCURRED) by (unfold CONTEXT_SWITCH_OCCURRED; lia).
  destruct (Z.leb_spec 0 r) as [Hr|Hr].
  - rewrite (proj2 (Z.ltb_ge r 0)) by done. cbn [andb].
    destruct (finish_plain s d (rq_fd rq) ws e1 e2 r) as (s1 & H1 & H2 & H3 & H4 & H5); auto. by exists r, s1.
  - rewrite (proj2 (Z.ltb_lt r 0)) by done. cbn [andb]. destruct (would_block (host_errno e2)).
    + pose proof (runs_now k s c Hok (sane_cpu _ Hs) Hk Hc Hrun) as Hr'.
      destruct (park_waits k _ rq (reg REG_LR s) s d e1 e2 (mret CONTEXT_SWITCH_OCCURRED) Hr' Hnb Hg Hfd) as (s3 & H1 & H2 & H3).
      exists CONTEXT_SWITCH_OCCURRED, s3. split_and!; [|done..]. etrans; [|exact H1]. by rewrite (save_lr rq s d e1 e2).
    + destruct (finish_plain s d (rq_fd rq) [] e1 e2 r) as (s1 & H1 & H2 & H3 & H4 & H5); auto; [by intros w ?%elem_of_nil|].
      by exists r, s1.
Qed.

(** C1: Blocking calls are transparent under the cooperative scheduler, where one host
    thread emulates at a time.  read, write and accept of a running thread
    on an open descriptor make one attempt in non-blocking mode and return its
    result, with the data stored in guest memory, or the request is recorded and
    another thread gets the CPU.  Then, through any sequence of context switches for any
    reason, other guest threads' code, their I/O, their pthread and scheduler calls (all
    but pthread_cond_timedwait, which goes on for the wrong thread after its switch) and
    attempts that block again ([io_run]), the thread
    keeps exactly this request and the registers of the call; once it runs it is
    at the resume address of its operation, and the resume half either blocks
    again or returns to the guest with all registers as at the call but the
    result in X0, the data in memory and the request cleared.  The status flags
    of all descriptors are as before, on every path. *)
Theorem blocked_call_transparent k rq p s d c :
  start rq = Some p -> buffers rq -> sched_ok (tm s) -> sane s ->
  current_thread_id_ (tm s) = k -> current s = Some c -> state c = RUNNING ->
  descr (rq_fd rq) (ext (ms s)) = Some d ->
  let regs := read_registers (ext (ms s)) in
  let ret := reg REG_LR s in
  started k rq p d s /\
  (forall s1 s2, p s = Ret CONTEXT_SWITCH_OCCURRED s1 -> io_run k rq s1 s2 ->
     waiting k rq ret regs s2 /\
     (forall c2 d2, current_thread_id_ (tm s2) = k -> current s2 = Some c2 -> state c2 = RUNNING ->
        descr (rq_fd rq) (ext (ms s2)) = Some d2 -> sane s2 ->
        read_registers (ext (ms s2)) = resuming rq regs /\ resumed k rq ret regs d2 s2)).
Proof.
  intros Hp Hbuf Hok Hs Hk Hc Hrun Hd regs ret. split; [by eapply start_outcome|].
  intros s1 s2 Hres Hr. assert (Hwf : regs_wf regs) by apply read_registers_wf, Hs.
  pose proof (blocked_waits k rq p s d c s1 Hp Hbuf Hok (sane_cpu _ Hs) Hk Hc Hrun Hd Hres) as Hw.
  pose proof (run_waiting k rq ret regs s1 s2 Hwf Hbuf Hr Hw) as Hw2. split; [done|].
  intros c2 d2 Hk2 Hc2 Hrun2 Hd2 Hs2. split.
  - destruct (waiting_held _ _ _ _ _ _ Hw2 Hk2 Hc2) as (pc & _ & -> & Hst). destruct Hst as [[]|[_ ->]]; [congruence|done].
  - eapply resume_outcome; try done. unfold ret, reg, get_reg. rewrite (sane_cpu _ Hs : has_cpu (ext (ms s)) = true).
    apply narrow64. unfold REG_LR, REG_PC. lia.
Qed.

(** * The manager's invariant *)

Lemma all_ok_closed : io_closed (fun s => all_ok (tm s)) (fun s => all_ok (tm s)).
Proof.
  constructor; [done|intros f s Hf; by apply ok_upd_current| |done].
  intros fd s H. by apply ok_switch, ok_block.
Qed.

(** Whatever I/O is done, the invariant of threads and synchronisation objects
    holds after it, also when the call throws. *)
Theorem io_keeps_invariant c s : all_ok (tm s) ->
  match run_call c s with Ret _ s' | Thrown s' => all_ok (tm s') | Segv => True end.
Proof.
  intros H. pose proof (closed_call _ _ all_ok_closed c s H) as He. unfold ends in He. by destruct (run_call c s).
Qed.

(** * Two ways to wait in vain *)

(** A thread that waits in read is woken when its descriptor can be written: with
    data to read but no room to write, the scheduler leaves it where it is. *)
Theorem read_waits_for_room t s k c e : threads_ (tm s) !! k = Some c -> state c = IO_WAIT -> io_operation c = READ ->
  coop_io_type c = COOP_NONE -> poll_fd (io_fd c) POLLOUT (ext (ms s)) = (0, 0, e) ->
  threads_ (tm (wake_io t s k)) !! k = Some c.
Proof.
  intros Hc Hs Ho Hco Hp. unfold wake_io. rewrite Hc, (proj2 (is_state_spec _ _) Hs). unfold wake_for_timeout.
  rewrite Hco. cbn [bool_decide decide_rel]. destruct (0 <=? io_fd c); [|done]. rewrite Ho. cbn [io_events]. by rewrite Hp.
Qed.

(** ** Nobody else to run *)

(** The host's calls while a thread tries, waits and selects; no descriptor is reported
    ready. *)
Inductive io_step (rq : request) : env -> env -> Prop :=
| st_getfl fd e : io_step rq e (fcntl_getfl fd e).2
| st_setfl fd v e : io_step rq e (fcntl_setfl fd v e)
| st_call data e : io_step rq e (rq_call rq data e).2
| st_now e : io_step rq e (steady_now e).2
| st_sleep n e : io_step rq e (sleep_ms n e)
| st_poll fd ev e : io_step rq e (poll_fd fd ev e).2.

Definition silent (e : env) : Prop :=
  forall fd ev ret revents e', poll_fd fd ev e = (ret, revents, e') -> (0 <? ret) && negb (Z.land revents ev =? 0) = false.
Definition stays_silent (rq : request) (e : env) : Prop := forall e', rtc (io_step rq) e e' -> silent e'.

Lemma silent_step rq e e' : rtc (io_step rq) e e' -> stays_silent rq e -> stays_silent rq e'.
Proof. intros H Hs e2 H2. apply Hs. by etrans. Qed.

(** A thread that the scheduler can neither pick nor wake by itself: not runnable, not
    sleeping, without a timeout. *)
Definition inert (c : ThreadContext) : Prop := state c <> RUNNABLE /\ state c <> SLEEPING /\ coop_io_type c <> COOP_EPOLL_WAIT.
Definition all_inert (t : ThreadManager) : Prop := forall j c, threads_ t !! j = Some c -> inert c.

Lemma inert_wake_io rq t ids s : all_inert (tm s) -> stays_silent rq (ext (ms s)) ->
  tm (foldl (wake_io t) s ids) = tm s /\ rtc (io_step rq) (ext (ms s)) (ext (ms (foldl (wake_io t) s ids))).
Proof.
  revert s. induction ids as [|i ids IH]; intros s Hi Hq; [done|]. cbn [foldl].
  assert (Hone : tm (wake_io t s i) = tm s /\ rtc (io_step rq) (ext (ms s)) (ext (ms (wake_io t s i)))).
  { unfold wake_io. destruct (threads_ (tm s) !! i) as [c|] eqn:Hc; [|done]. destruct (is_state IO_WAIT c); [|done]. destruct (Hi i c Hc) as (_ & _ & Hco).
    unfold wake_for_timeout. rewrite (bool_decide_eq_false_2 _ Hco). cbn [andb]. destruct (0 <=? io_fd c); [|done].
    pose proof (st_poll rq (io_fd c) (io_events (io_operation c)) (ext (ms s))) as Hst.
    destruct (poll_fd _ _ _) as [[ret rev] e] eqn:Hp. rewrite (Hq _ (rtc_refl _ _) _ _ _ _ _ Hp). split; [done|]. by apply rtc_once. }
  destruct Hone as [E1 R1]. destruct (IH (wake_io t s i)) as [E2 R2]; [by rewrite E1|by eapply silent_step|]. split; [congruence|by etrans].
Qed.

Lemma inert_wake_sleeper t ids s : all_inert (tm s) -> foldl (wake_sleeper t) s ids = s.
Proof.
  intros Hi. induction ids as [|i ids IH]; [done|]. cbn [foldl]. destruct (wake_sleeper_cases t s i) as [->|(_ & c & Hc & Hs & _)]; [done|].
  by destruct (Hi i c Hc) as (_ & ? & _).
Qed.

Lemma inert_pop (m : gmap Z ThreadContext) q : (forall j c, m !! j = Some c -> inert c) -> pop_runnable m q = (None, []).
Proof.
  intros Hi. induction q as [|i q IH]; [done|]. cbn. destruct (m !! i) as [c|] eqn:Hc; [|done]. destruct (Hi i c Hc) as [Hr _]. by rewrite (proj2 (is_state_false _ _) Hr).
Qed.

Lemma now_step rq s t s' : now s = (t, s') -> tm s' = tm s /\ rtc (io_step rq) (ext (ms s)) (ext (ms s')).
Proof.
  unfold now. pose proof (st_now rq (ext (ms s))) as H. destruct (steady_now _) as [x e]. intros [= <- <-]. split; [done|]. by apply rtc_once.
Qed.

(** Nobody is selected, and the threads stay as they are. *)
Lemma inert_select rq s : all_inert (tm s) -> stays_silent rq (ext (ms s)) ->
  exists s', select_next_thread s = (None, s') /\ threads_ (tm s') = threads_ (tm s) /\ current_thread_id_ (tm s') = current_thread_id_ (tm s) /\
    rtc (io_step rq) (ext (ms s)) (ext (ms s')).
Proof.
  intros Hi Hq. unfold select_next_thread. destruct (now s) as [t s1] eqn:Hn. destruct (now_step rq _ _ _ Hn) as [E1 R1].
  rewrite inert_wake_sleeper by (by rewrite E1). destruct (inert_wake_io rq t (thread_walk s1) s1) as [E2 R2]; [by rewrite E1|by eapply silent_step|].
  set (s3 := foldl (wake_io t) s1 _) in *. rewrite inert_pop by (rewrite E2, E1; exact Hi). eexists. split; [done|]. cbn. rewrite E2, E1. split_and!; [done..|by etrans].
Qed.

Lemma inert_select_or_wait rq s : all_inert (tm s) -> stays_silent rq (ext (ms s)) ->
  exists s', select_or_wait s = (None, s') /\ threads_ (tm s') = threads_ (tm s) /\ current_thread_id_ (tm s') = current_thread_id_ (tm s).
Proof.
  intros Hi Hq. unfold select_or_wait. destruct (inert_select rq s Hi Hq) as (s1 & -> & E1 & C1 & R1). destruct (idle_scan s1) as [[] earliest]; [|by exists s1].
  assert (Rw : rtc (io_step rq) (ext (ms s1)) (ext (ms (idle_wait earliest s1)))).
  { unfold idle_wait. destruct (now s1) as [t s2] eqn:Hn. destruct (now_step rq _ _ _ Hn) as [_ R2].
    destruct (_ && _); [destruct (0 <? _); [|done]|]; (etrans; [exact R2|]; apply rtc_once; apply st_sleep). }
  destruct (inert_select rq (idle_wait earliest s1)) as (s2 & -> & E2 & C2 & _).
  - rewrite idle_wait_tm. intros j c Hj. rewrite E1 in Hj. by eapply Hi.
  - eapply silent_step; [|exact Hq]. by etrans.
  - exists s2. rewrite idle_wait_tm in E2, C2. split_and!; congruence.
Qed.

Lemma upd_other k f s j : j <> k -> threads_ (tm (upd_thread k f s)) !! j = threads_ (tm s) !! j.
Proof. intros Hne. cbn. by rewrite lookup_alter_ne. Qed.

Lemma park_id k s : current_thread_id_ (tm (park_current k s)) = current_thread_id_ (tm s).
Proof. unfold park_current. destruct (_ !! k) as [x|]; [destruct (is_state RUNNING x); [|destruct (has_resume_pc x)]|]; reflexivity. Qed.

(** Saving the outgoing thread leaves the others. *)
Lemma park_other k f s j : j <> k -> threads_ (tm (park_current k (upd_thread k f s))) !! j = threads_ (tm s) !! j.
Proof.
  intros Hne. unfold park_current. destruct (threads_ (tm (upd_thread k f s)) !! k) as [x|]; [destruct (is_state RUNNING x); [|destruct (has_resume_pc x)]|];
    cbn; by rewrite !lookup_alter_ne by done.
Qed.

(** A thread that waits while nobody can run stays current. *)
Lemma switch_alone rq s c : current s = Some c -> state c = IO_WAIT -> all_inert (tm s) -> stays_silent rq (ext (ms s)) ->
  let s' := context_switch BLOCKING_OPERATION s in
  current_thread_id_ (tm s') = current_thread_id_ (tm s) /\ exists c', current s' = Some c' /\ state c' = IO_WAIT.
Proof.
  intros Hc Hst Hi Hq. cbv zeta. unfold context_switch. unfold current in Hc. rewrite Hc, andb_false_r. set (k := current_thread_id_ (tm s)) in *.
  set (s0 := upd_thread k _ s). destruct (now (park_current k s0)) as [t s1] eqn:Hn. destruct (now_step rq _ _ _ Hn) as [E1 R1].
  pose proof (parked_current BLOCKING_OPERATION s c t Hc) as Hp. fold k in Hp. fold s0 in Hp. set (s2 := upd_thread k _ s1).
  assert (Hp2 : threads_ (tm s2) !! k = Some (parked BLOCKING_OPERATION (ext (ms s)) t c)) by (unfold s2, upd_thread; cbn; rewrite E1; exact Hp).
  assert (Hcur2 : current_thread_id_ (tm s2) = k).
  { change (current_thread_id_ (tm s1) = k). rewrite E1. apply park_id. }
  assert (Hst2 : inert (parked BLOCKING_OPERATION (ext (ms s)) t c) /\ state (parked BLOCKING_OPERATION (ext (ms s)) t c) = IO_WAIT).
  { pose proof (Hi k c Hc) as (_ & _ & Hco). assert (Hw : state (parked BLOCKING_OPERATION (ext (ms s)) t c) = IO_WAIT) by (cbn; unfold is_state; by rewrite Hst).
    split; [|done]. unfold inert. by rewrite Hw. }
  assert (Hi2 : all_inert (tm s2)).
  { intros j x Hj. destruct (decide (j = k)) as [->|Hne]; [rewrite Hp2 in Hj; injection Hj as <-; apply Hst2|]. apply (Hi j x). rewrite <- Hj. unfold s2.
    rewrite upd_other, E1 by done. unfold s0. by rewrite park_other. }
  destruct (inert_select_or_wait rq s2 Hi2) as (s3 & Hsel & E3 & C3).
  { eapply silent_step; [|exact Hq]. change (ext (ms s2)) with (ext (ms s1)). by rewrite park_world in R1. }
  unfold switch_away. rewrite Hsel, E3, Hp2. destruct Hst2 as [_ Hio]. unfold is_state. rewrite Hio, !bool_decide_eq_false_2 by done.
  split; [congruence|]. eexists. split; [|exact Hio]. unfold current. by rewrite E3, C3, Hcur2, Hp2.
Qed.

(** C39: A thread that has to wait while no other thread can run does not wait. When the
    host answers the attempt with EAGAIN, every other thread is neither runnable nor
    sleeping nor waiting with a timeout, and no poll reports a descriptor as ready, the call
    reports a context switch although the thread stays the current one, in state IO_WAIT;
    the handler therefore leaves all registers alone, PC included, and the guest goes on behind
    the call with its first argument, the descriptor, as the result. *)
Theorem blocked_alone k rq p s d c :
  start rq = Some p -> buffers rq -> sched_ok (tm s) -> has_cpu (ext (ms s)) = true ->
  current_thread_id_ (tm s) = k -> current s = Some c -> state c = RUNNING -> coop_io_type c <> COOP_EPOLL_WAIT ->
  descr (rq_fd rq) (ext (ms s)) = Some d -> reg X0 s = u64 (rq_fd rq) ->
  (let e1 := fcntl_setfl (rq_fd rq) (Z.lor (status d (ext (ms s))) O_NONBLOCK) (fcntl_getfl (rq_fd rq) (ext (ms s))).2 in
   let '((r, _), e2) := rq_call rq (rq_data rq s) e1 in r < 0 /\ would_block (host_errno e2) = true) ->
  (forall j cj, j <> k -> threads_ (tm s) !! j = Some cj -> inert cj) -> stays_silent rq (ext (ms s)) ->
  exists s1, p s = Ret CONTEXT_SWITCH_OCCURRED s1 /\ (p ≫= finish_io) s = Ret tt s1 /\
    current_thread_id_ (tm s1) = k /\ (exists c1, current s1 = Some c1 /\ state c1 = IO_WAIT) /\
    read_registers (ext (ms s1)) = read_registers (ext (ms s)) /\ reg X0 s1 = u64 (rq_fd rq).
Proof.
  intros Hp Hbuf Hok Hcpu Hk Hc Hrun Hco Hd H0 Heagain Hothers Hq.
  destruct (attempt_outcome rq (lr ← get_x REG_LR; rq_save rq lr) mret (mret CONTEXT_SWITCH_OCCURRED) s d Hbuf Hd)
    as (e1 & r & ws & e2 & Hnb & Hcall & Hat). cbv zeta in Hat, Heagain. rewrite <- (nb_made _ _ _ _ Hnb), Hcall in Heagain. destruct Heagain as [Hr Hwb].
  rewrite (proj2 (Z.leb_gt 0 r)), Hwb, <- (start_attempt rq p s Hp) in Hat by done.
  destruct (call_quiet rq (rq_data rq s) e1) as [Hg Hfd]. rewrite Hcall in Hg, Hfd. cbn in Hg, Hfd.
  rewrite (save_lr rq s d e1 e2), park_run in Hat by done. set (s2 := parked_state _ _ _ e2 s) in Hat. set (s1 := context_switch BLOCKING_OPERATION s2) in Hat.
  exists s1. assert (Hfin : (p ≫= finish_io) s = Ret tt s1) by (by rewrite (bind_ret _ _ _ _ _ Hat)). split; [done|]. split; [done|].
  pose proof (parked_current_state rq (reg REG_LR s) (status d (ext (ms s))) e2 s c Hc) as Hc2. fold s2 in Hc2.
  set (c2 := _ <| blocked_on_resource := _ |>) in Hc2.
  assert (Hi2 : all_inert (tm s2)).
  { intros j x Hj. destruct (decide (j = k)) as [->|Hne].
    - unfold current in Hc2. change (current_thread_id_ (tm s2)) with (current_thread_id_ (tm s)) in Hc2. rewrite Hk in Hc2. rewrite Hc2 in Hj. injection Hj as <-.
      unfold c2. split_and!; [done..|]. cbn. by destruct rq.
    - apply (Hothers j x Hne). rewrite <- Hj. unfold s2, parked_state. cbn. rewrite !lookup_alter_ne by (by rewrite Hk). done. }
  assert (Hq2 : stays_silent rq (ext (ms s2))).
  { eapply silent_step; [|exact Hq]. rewrite (nb_made _ _ _ _ Hnb) in Hcall. eapply rtc_l; [apply (st_getfl rq (rq_fd rq))|]. eapply rtc_l; [apply (st_setfl rq (rq_fd rq))|].
    eapply rtc_l; [apply (st_call rq (rq_data rq s))|]. rewrite Hcall. apply rtc_once. apply (st_setfl rq). }
  destruct (switch_alone rq s2 c2 Hc2 eq_refl Hi2 Hq2) as (Hk1 & c1 & Hc1 & Hst1). fold s1 in Hk1, Hc1.
  assert (Hregs : read_registers (ext (ms s1)) = read_registers (ext (ms s))).
  { unfold s1. rewrite (stuck_registers BLOCKING_OPERATION s2 c2); [|apply sched_ok_alter; [solve_tame|]; by apply sched_ok_alter; [apply tame_save|]|done|done|].
    - change (read_registers (fcntl_setfl (rq_fd rq) (status d (ext (ms s))) e2) = read_registers (ext (ms s))). rewrite (same_registers _ _ (setfl_quiet _ _ _)), (same_registers _ _ Hg).
      by rewrite (same_registers _ _ (nb_guest _ _ _ _ Hnb)).
    - intros (x & Hx & Hxr). fold s1 in Hx. unfold current in Hc1. congruence. }
  split_and!; [rewrite Hk1; exact Hk|by exists c1|done|]. rewrite <- H0. pose proof (f_equal (fun r => nth 0 (rx r) 0) Hregs) as Hx. exact Hx.
Qed.


End Wait.

(** * Two threads and a pipe *)

#[local] Existing Instance IoEnv.

Definition pipe_mem (ready : list Z) : mstate (E := IoEnv) :=
  (mem_map 0x1000 64 3 "Small"
     {| mm := new_mm; hmem := fun _ => 7;
        ext := (ref_init <| ref_ready := ready |>, {| p_data := ∅; p_flags := {[5 := 2]}; p_errno := 0 |}) |}).2.

(** The main thread calls [read(5, 0x1000, 4)]. *)
Definition reader (ready : list Z) : tstate (E := IoEnv) :=
  setr REG_LR 0x400100 (setr X2 4 (setr X1 0x1000 (setr X0 5 (new_tm (pipe_mem ready) true)))).

(** The same with a second thread that is ready. *)
Definition reader_and_writer : tstate (E := IoEnv) :=
  (reader [5]) <| tm ::= fun t => t <| threads_ ::= <[2 := new_context <| thread_id := 2 |> <| ThreadTypes.state := RUNNABLE |>]> |>
                                 <| runnable_queue_ := [2] |> |>.

Definition state_of {A} (r : hres (tstate (E := IoEnv)) A) (dflt : tstate (E := IoEnv)) : tstate (E := IoEnv) :=
  match r with Ret _ s | Thrown s => s | Segv => dflt end.

Lemma ret_state {A} (r : hres (tstate (E := IoEnv)) A) v dflt :
  match r with Ret a _ => a = v | _ => False end -> r = Ret v (state_of r dflt).
Proof. by destruct r; [intros ->|..]. Qed.

Definition pipe_request : request := RqRead 5 0x1000 4.

(** After the call; after the other thread has filled the pipe; after it yields. *)
Definition blocked_reader : tstate (E := IoEnv) := state_of (blocking_read 5 0x1000 4 reader_and_writer) reader_and_writer.
Definition filled_mem : mstate (E := IoEnv) :=
  (ms blocked_reader) <| ext ::= fun e => (e.1, e.2 <| p_data := {[5 := [104; 101; 121; 33; 10]]} |>) |>.
Definition filled_pipe : tstate (E := IoEnv) := blocked_reader <| ms := filled_mem |> <| in_hle := true |>.
Definition resumed_reader : tstate (E := IoEnv) := context_switch THREAD_YIELD filled_pipe.

(** The step in between, for any such states. *)
Lemma fill_and_yield k rq (s : tstate (E := IoEnv)) m : current_thread_id_ (tm s) <> k -> has_cpu (ext m) = true ->
  io_run k rq s (context_switch THREAD_YIELD (s <| ms := m |> <| in_hle := true |>)).
Proof. intros Hne Hc. apply (run_guest _ _ m true); [done..|]. apply (run_switch _ _ THREAD_YIELD), run_done. Qed.

Lemma reader_ok ready : sched_ok (tm (reader ready)) /\ current_thread_id_ (tm (reader ready)) = 1.
Proof.
  split; [|done]. constructor; cbn; intros k c [<- <-]%lookup_singleton_Some; done.
Qed.

Lemma reader_and_writer_ok : sched_ok (tm reader_and_writer).
Proof.
  constructor; cbn; intros k c [[<- <-]|[Hne [<- <-]%lookup_singleton_Some]]%lookup_insert_Some; try done. intros _. by left.
Qed.

Lemma pipe_sane (s : tstate (E := IoEnv)) : regions_ (mm (ms s)) = [small_region] -> qemu_ready_ (mm (ms s)) = false ->
  has_cpu (ext (ms s)) = true -> sane s.
Proof.
  intros Hr Hq Hc. constructor; [|done|intros H; congruence|].
  - cbn. rewrite Hr. split; [by repeat constructor|repeat constructor].
  - intros r v Hr' Hv. apply (wide64 r v); [unfold REG_PC; lia|done].
Qed.

Lemma pipe_buffers : buffers (E := IoEnv) pipe_request.
Proof. intros n e ->%list_elem_of_singleton. done. Qed.

Lemma blocked_call_transparent_witness :
  blocking_read 5 0x1000 4 reader_and_writer = Ret CONTEXT_SWITCH_OCCURRED blocked_reader /\
  io_run 1 pipe_request blocked_reader resumed_reader /\
  resumed 1 pipe_request 0x400100 (read_registers (ext (ms reader_and_writer))) 5 resumed_reader /\
  reg X0 (state_of (blocking_read_resume resumed_reader) resumed_reader) = 4.
Proof.
  assert (Hblk : blocking_read 5 0x1000 4 reader_and_writer = Ret CONTEXT_SWITCH_OCCURRED blocked_reader)
    by (apply ret_state; vm_compute; reflexivity).
  assert (Hrun : io_run 1 pipe_request blocked_reader resumed_reader) by (apply fill_and_yield; vm_compute; done).
  split_and!; [exact Hblk|exact Hrun| |vm_compute; reflexivity].
  destruct (blocked_call_transparent 1 pipe_request (blocking_read 5 0x1000 4) reader_and_writer 5
    (default new_context (current reader_and_writer))) as [_ H];
    [reflexivity|apply pipe_buffers|apply reader_and_writer_ok|apply pipe_sane; vm_compute; reflexivity|vm_compute; reflexivity..|].
  destruct (H _ _ Hblk Hrun) as [_ H2].
  destruct (H2 (default new_context (current resumed_reader)) 5) as [_ Hres]; [..|exact Hres].
  - vm_compute; reflexivity.
  - vm_compute; reflexivity.
  - vm_compute; reflexivity.
  - vm_compute; reflexivity.
  - apply pipe_sane; vm_compute; reflexivity.
Defined.

(** Alone on an empty pipe, [read(5, ...)] returns 5. *)
Definition stuck_reader : tstate (E := IoEnv) := state_of (blocking_read 5 0x1000 4 (reader [])) (reader []).

(** With nothing ready the host stays silent. *)
Lemma pipes_silent rq (e : @env IoEnv) : ref_ready e.1 = [] -> stays_silent rq e.
Proof.
  intros He e' Hr. assert (He' : ref_ready e'.1 = []).
  { clear - He Hr. induction Hr as [|e e1 e2 Hs _ IH]; [done|]. apply IH. destruct Hs as [| |data e| | |]; try exact He.
    - destruct rq; cbn; unfold pipe_read, pipe_write; try destruct (default [] _); exact He.
    - cbn. by destruct (bool_decide _). }
  intros fd ev ret rev e2. cbn. rewrite He'. cbn. by intros [= <- <- <-].
Qed.

Lemma blocked_alone_witness :
  (blocking_read 5 0x1000 4 ≫= finish_io) (reader []) = Ret tt stuck_reader /\ reg X0 stuck_reader = 5.
Proof.
  destruct (blocked_alone 1 pipe_request (blocking_read 5 0x1000 4) (reader []) 5 (default new_context (current (reader []))))
    as (s1 & Hs1 & H1 & _ & _ & _ & H2);
    [reflexivity|apply pipe_buffers|apply reader_ok|vm_compute; reflexivity|vm_compute; reflexivity|vm_compute; reflexivity|vm_compute; reflexivity|vm_compute; discriminate|
     vm_compute; reflexivity|vm_compute; reflexivity|vm_compute; done| |by apply pipes_silent|].
  - intros j cj Hj Hl. cbn in Hl. by apply lookup_singleton_Some in Hl as [<- _].
  - assert (E1 : stuck_reader = s1) by exact (f_equal (fun r => state_of r (reader [])) Hs1). rewrite E1. exact (conj H1 H2).
Defined.
